(* ===== verification/_CoqProject ===== *)
-Q . S2P
Prelude.v
Bytes.v
Swap.v
MinHeap.v
Mmap.v
Convert.v
Watermark.v
Order.v
OrderSafe.v
OrderProcess.v
Expr.v
ExprSem.v
ExprVm.v
ExprParse.v
ExprProgram.v
RbTree.v
RbShape.v
RbRep.v
RbInsert.v
RbErase.v
RbUnlink.v
RbWalk.v
RbMain.v
RbList.v
RbMap.v
RbReport.v
CountDist.v
LatencyDist.v
MultiTrace.v
MultiPair.v
MultiLost.v
TwoEvent.v
TwoDelay.v
TwoCall.v
KeyValue.v
MemProfile.v
Kmemleak.v
KmemleakSafe.v
CpuMap.v
CpuText.v
Comm.v
TaskState.v
Circ.v
Wire.v
TcpSend.v
CdevSend.v
PullEvent.v
PullRead.v
Pull.v
Push.v
PushPull.v
Epoll.v
Device.v
DeviceRun.v
DeviceOpen.v
DeviceInv.v
DeviceStep.v
DeviceRefs.v
DevicePut.v
DeviceLoop.v
DeviceClose.v
DeviceTotal.v
DeviceBodies.v
DeviceSafe.v
DeviceEnable.v
DeviceLife.v
DeviceOpened.v
DeviceFuel.v
DeviceMain.v
DeviceLimit.v
DeviceProps.v
