(* ===== verification/Prelude.v ===== *)
(** * perf-prof, verified

    perf-prof attaches profilers to events of the kernel: it opens the events, reads the
    records the kernel writes to ring buffers, orders them in time across the buffers,
    converts their times and hands them to a profiler, which keeps statistics and reports
    them.  This development models that path and the libraries under it, each function as
    the source has it, and proves what each part promises to the next.

    ** The parts

    - [Prelude]: machine integers, with the wrap-around of each width, and tactics.
    - [Bytes], [Swap], [MinHeap]: include/linux/min_heap.h.  The heap on byte offsets, with
      the exchange of elements in chunks of memory ([Swap]) a separate layer; the heap
      refines a multiset from which the least element is taken.
    - [Mmap]: lib/perf/mmap.c.  The kernel side and the reading side of one ring buffer.
      What is drained is what the kernel wrote; records that straddle the end, records
      put back, and the overwriting mode.
    - [Convert]: convert.c.  Clocks; round trips within the error of the rounding.
    - [Watermark]: order.c, the sizes of samples and when the kernel wakes the program up.
    - [Order], [OrderSafe], [OrderProcess]: order.c, the rest.  The sources of events of a
      tree of devices in one min-heap.  For ring buffers the events of a device come out
      in the order of their times, whatever the kernel writes meanwhile.
    - [Expr], [ExprSem], [ExprVm], [ExprParse], [ExprProgram]: expr.c.  The one-pass compiler
      and its stack machine; a text that lexes to the tokens of a list of expressions
      compiles, and the program computes the meaning of the last one.
    - [RbTree], [RbShape], [RbRep], [RbInsert], [RbErase], [RbUnlink], [RbWalk], [RbMain]:
      lib/rbtree.c with linux/rbtree.h and linux/rbtree_augmented.h, on a memory of nodes
      that has the parent and the colour of a node in one word.  [RbRep] says when a memory
      holds a tree; insertion, removal, the walks and replacement are proved against it.
    - [RbList], [RbMap], [RbReport]: lib/rblist.c.  The callbacks of a list are a class
      ([NodeOps]), what they must satisfy another ([NodeLaws]): the comparison is that of a
      total order of keys.  A list refines a sorted list of nodes, and for its users ([RbMap])
      a finite map; a report ([RbReport]) moves the nodes to a list in another order.
    - [CountDist]: count_helpers.c, and [LatencyDist]: latency_helpers.c.  Two users of the
      list, each an instance of the classes: the histories of counts and the statistics of
      latencies of the profilers, for every sequence of inputs.
    - [MultiTrace], [MultiPair], [MultiLost]: multi-trace.c.  The profiler that pairs
      neighbouring events with one key: its timeline and tree of backed up events, what it
      calls, that these calls are the pairs of neighbours, and what lost events undo.
    - [TwoEvent], [TwoDelay], [TwoCall]: two-event.c.  What is made of the pairs, by class:
      delays, system calls, counts of pairs, and the graph of calls; the composition of the
      profiler with the delays ([TwoDelay]).
    - [KeyValue]: the values by stack of stack_helpers.c, and [MemProfile]: the class of
      two-event.c that counts allocated and freed bytes with them.  The qsort of the library
      is a parameter, known to sort ([sorts]).
    - [Kmemleak], [KmemleakSafe]: kmemleak.c.  Allocations wait for their frees in a list;
      frees that come before their allocation wait in another for a second.
    - [CpuMap], [CpuText]: lib/perf/cpumap.c and strsize of lib/string.c.  The maps of
      processors the devices are opened on: shared sorted arrays, merged and intersected, and
      as text: the buffer one is printed to is large enough, and it is read back.
    - [Comm]: comm.c.  The names of tasks that profilers print, from events, /proc and timers;
      the freed tasks are collected later.
    - [TaskState]: task-state.c.  How long tasks run, wait for a processor and sleep, against a
      step relation of what the kernel does with them; the states are forgotten where events
      were lost.
    - [Circ], [Wire], [TcpSend], [CdevSend], [PullEvent], [PullRead], [Pull], [Push],
      [PushPull]: event-spread.c and net.c.  Events pushed to other hosts and pulled from
      them.  [Circ] is linux/circ_buf.h with the contents of a buffer as a list; [Wire] says
      what a stream of records tells of the events offered ([told]), which both senders
      keep ([TcpSend], [CdevSend]); [PullRead] puts records together again from the pieces of
      a stream, for any processing that stays within a record ([stays_within]); [PullEvent]
      is the processing; [Pull] reads an event at a time, for the ordering; [PushPull] puts
      the hosts together.

    - [Device], [DeviceRun], [DeviceOpen]: monitor.c and monitor.h.  The devices the profilers
      run on: their references, their lists (of all, of children, of the sources that
      forward to a device), opening, enabling, disabling, flushing, closing and freeing, and
      the handlers of the event loop.  The functions call each other through the callbacks
      of the profilers, which are a class ([Profilers]).  [DeviceInv] has the invariant and a
      ghost count of the references held by functions that run; [DeviceStep], [DeviceRefs],
      [DevicePut] show it for steps on a device, for taking and putting references;
      [DeviceLoop] for the loop whose list changes under it; [DeviceClose], [DeviceTotal],
      [DeviceBodies], [DeviceSafe] that every run ends; [DeviceEnable], [DeviceLife],
      [DeviceOpened] for opening; [DeviceFuel] that more fuel changes nothing.  [DeviceMain]
      is the program between two inputs, [DeviceLimit] the limit on samples, and
      [DeviceProps] what is promised.

    - [Epoll]: lib/epoll.c.  The event loop, whose handlers add and delete descriptors while
      events wait; it does what a loop without memory does.

    A device's record thus passes [Mmap] (read), [DeviceRun] (forwarded, processed,
    counted), [Order] (which element of [MinHeap] is next, with the times of [Convert] and the watermarks of [Watermark]), a profiler's expression
    ([Expr]), the pairing ([MultiTrace]), a class of pairs ([TwoEvent], [TwoCall]) and the
    statistics ([LatencyDist] or [CountDist], on [RbList], on [RbTree]).

    ** How the code is modelled

    An integer is a [Z] with its wrap-around written out; a pointer is an integer or an
    identifier, null is zero.  A function that can fail - a null or dangling pointer, an
    access out of bounds, a division by zero, a failed assertion, a loop that uses up its
    fuel - gives [None], so a theorem that a function gives [Some] includes that it does not
    do so.  State is passed along; the red-black tree, the compiler and the devices have small
    state monads; that of the devices tells the use of a freed device from the end of fuel.
    What the kernel does between two steps, what the hardware says and what the
    allocator gives are arguments: an allocation is an address and what is there, or none.

    What a descriptor does - how much a send takes, in which pieces a stream arrives, when
    it fails - is an argument of each call.

    Fuel: a loop over a tree gets one more than the number of nodes of the memory, which
    is more than the tree is high ([rb_tree_height]); a loop over a list the number of its
    nodes and one; a reader of a stream one more than its bytes; the heap, the ring buffer, the lexer and the compiler bounds given with
    their definitions.  The theorems show that the loops end within it; only the stack
    machine, whose programs could loop, is run with the fuel the theorem names.  The
    functions of a device call each other as often as there are devices and records, so
    their theorems say that some fuel is enough and all above it give the same ([total]).

    ** What is shown

    - The data path: [mmap_drain_lossless], [order_process_ordered], [order_turns_ordered].
    - Devices: whatever happens, handling it ends without using a freed device
      ([devices_run]); what holds between two inputs ([devices_at_rest]); what closing frees
      ([close_frees], [close_all_frees]); the limit on samples ([exit_n_limits]); forwarding
      and handing back ([forwarded_back]).  The two handlers that do use a freed device are
      examples of [DeviceProps].  The loop that calls the handlers: [poll_dispatches].
    - Compilation: [expr_compile_computes], [expr_emits_code], [expr_run_computes].
    - Data structures: the refinements of the heap, [rb_insert_keeps], [rb_erase_keeps],
      [rb_walk_in_order], [rblist_findnew_refines], [rblist_exit_empties].
    - Statistics: [latency_statistics], [latency_reports], [count_histories].
    - Pairs: [multi_trace_pairs], [lost_pairs_clear], [two_events_indexed],
      [delays_of_neighbours], [syscalls_counted].
    - Memory: [memory_profiled]; with events in order the leaks are the allocations not freed
      ([kmemleak_in_order]), with events less than a second late too ([kmemleak_late]), and
      lost events leave no false leak ([kmemleak_lost_events]).
    - Other hosts: what one pushes the other pulls, over TCP ([tcp_pushed_pulled]), a device
      ([cdev_pushed_pulled]) and a file ([file_pushed_pulled]), however the sockets cut it;
      who is refused ([tp_described]) and what a sample becomes ([pulled_sample_local]).
    - Maps of processors: [cpu_maps_combined], [cpu_index_found], [cpu_map_read_back].
    - Names of tasks: [comm_names_kept], [comm_latest].
    - The graph of calls: [call_graph_kept], [call_graph_printed], [call_event_links].
    - Forms of states: [count_dist_keeps], [min_heapify_all_orders].
    - Bounds and errors: [next_in_buffer], [overwrite_range_bounded], [reduce_wakeup_share],
      [rblist_add_errors], [mmap_straddling_truncated] and others.

    ** What is assumed

    Each property's comment names its conditions.  Those about code that is not here: qsort
    sorts; printf ignores arguments that its format does not take; a memcpy of blocks that
    overlap is undefined, so the receivers of [PushPull] either run with one that copies them
    too or get pieces that are [apart].  Those about the program: the devices of [DeviceMain]
    are of the normal type (services are on no list) and the openings are [openable];
    the pairs of [MultiPair] and [MultiLost] are without details and nested pairs.

    ** Not modelled

    - Of monitor.c: devices that order their records (their order is [Order]'s), references
      held by events that a profiler keeps, sampling limits, clocks at enabling, the
      workload, ptrace, starting over when a thread has exited, signals other than those
      that end the loop, and the options.  [devices_run] has the descriptors and timers of
      devices that are not forwarded only, for the others the claim is false, assumes that
      descriptors can be polled, that no callback closes a device a parent enables - none
      does - and that the profilers do not clone.
    - Of event-spread.c and net.c: the parsing of addresses, accepting, connecting and
      freeing, which are system calls around reference counts, and the clock that flushes
      events; for guests, that a sample's processor is one of theirs.
    - Of two-event.c: the lines printed for a delay and the walks of the timeline that only
      print; the class of calls with their delays.
    - The other profilers: they configure events, update the statistics modelled here and
      print.
    - lib/tdigest.c is floating point; a parameter of [LatencyDist].
    - Concurrency of the reference counts: the program's records are handled by one thread.
    - Symbols, stacks, tracepoint fields, maps of threads, options, BPF: system
      calls, files and vendored libraries (lib/bpf, lib/traceevent, lib/subcmd). *)

From stdpp Require Export base option list gmap fin_maps.
From Stdlib Require Export ZArith Lia ZifyBool ZifyNat.
From Stdlib Require Import Sorted.

#[export] Set Default Goal Selector "!".

Open Scope Z_scope.

(** ** Machine integers

    A C integer is a [Z]; the conversions below are the ones the compiler
    inserts when a value is stored in an object of the given width (two's
    complement for the signed ones). *)

Definition u8 (z : Z) : Z := z mod 2 ^ 8.
Definition u16 (z : Z) : Z := z mod 2 ^ 16.
Definition u32 (z : Z) : Z := z mod 2 ^ 32.
Definition u64 (z : Z) : Z := z mod 2 ^ 64.

(** Two's complement reading of the low [w] bits. *)
Definition sext (w : Z) (z : Z) : Z :=
  (z + 2 ^ (w - 1)) mod 2 ^ w - 2 ^ (w - 1).

Definition s8 (z : Z) : Z := sext 8 z.
Definition s16 (z : Z) : Z := sext 16 z.
Definition s32 (z : Z) : Z := sext 32 z.
Definition s64 (z : Z) : Z := sext 64 z.

(** The largest values of the unsigned types. *)
Abbreviation U32_MAX := (2 ^ 32 - 1) (only parsing).
Abbreviation U64_MAX := (2 ^ 64 - 1) (only parsing).

Create HintDb word discriminated.

Lemma u64_small z : 0 <= z < 2 ^ 64 -> u64 z = z.
Proof. apply Z.mod_small. Qed.

Lemma u32_small z : 0 <= z < 2 ^ 32 -> u32 z = z.
Proof. apply Z.mod_small. Qed.

Lemma u64_range z : 0 <= u64 z < 2 ^ 64.
Proof. apply Z.mod_pos_bound. lia. Qed.

Lemma u32_range z : 0 <= u32 z < 2 ^ 32.
Proof. apply Z.mod_pos_bound. lia. Qed.

Lemma u64_add_l a b : u64 (u64 a + b) = u64 (a + b).
Proof. unfold u64. by rewrite Zplus_mod_idemp_l. Qed.
Lemma u64_add_r a b : u64 (a + u64 b) = u64 (a + b).
Proof. unfold u64. by rewrite Zplus_mod_idemp_r. Qed.

Lemma sext_range w z : 0 < w -> - 2 ^ (w - 1) <= sext w z < 2 ^ (w - 1).
Proof.
  intros Hw. unfold sext.
  pose proof (Z.mod_pos_bound (z + 2 ^ (w - 1)) (2 ^ w) ltac:(lia)).
  assert (2 ^ w = 2 * 2 ^ (w - 1)); [|lia].
  rewrite <- Z.pow_succ_r by lia. f_equal. lia.
Qed.

Lemma sext_small w z : 0 < w -> - 2 ^ (w - 1) <= z < 2 ^ (w - 1) -> sext w z = z.
Proof.
  intros Hw Hz. unfold sext. rewrite Z.mod_small; [lia|].
  assert (2 ^ w = 2 * 2 ^ (w - 1)); [|lia].
  rewrite <- Z.pow_succ_r by lia. f_equal. lia.
Qed.

Lemma s64_small z : - 2 ^ 63 <= z < 2 ^ 63 -> s64 z = z.
Proof. intros. by apply sext_small. Qed.

Lemma s32_small z : - 2 ^ 31 <= z < 2 ^ 31 -> s32 z = z.
Proof. intros. by apply sext_small. Qed.

#[export] Hint Resolve u64_range u32_range : word.

(** Discharge the conversions of values known to be in range. *)
Ltac word_small :=
  repeat first
    [ rewrite u64_small by lia
    | rewrite u32_small by lia
    | rewrite s64_small by lia
    | rewrite s32_small by lia ].

(** [lia] with quotients and remainders by constants. *)
Ltac dlia := zify; Z.to_euclidean_division_equations; lia.

(** ** Lists updated by index *)

Lemma filter_id {A} (P : A -> Prop) `{!forall x, Decision (P x)} (l : list A) :
  (forall x, x ∈ l -> P x) -> filter P l = l.
Proof.
  induction l as [|x l IH]; intros Hl; [done|].
  rewrite filter_cons_True by (apply Hl; by left). f_equal. apply IH. intros y Hy. apply Hl. by right.
Qed.

Lemma last_elem_of {A} (l : list A) (x : A) : l <> [] -> List.last l x ∈ l.
Proof.
  intros Hl. destruct (exists_last Hl) as (l' & z & ->).
  rewrite last_last. set_solver.
Qed.


Section swap.
Context {A : Type}.
Implicit Types (l : list A) (i j k : nat).

(** Exchange the elements at two indices (no effect out of range). *)
Definition list_swap i j l : list A :=
  match l !! i, l !! j with
  | Some x, Some y => <[i := y]> (<[j := x]> l)
  | _, _ => l
  end.

Lemma length_list_swap i j l : length (list_swap i j l) = length l.
Proof.
  unfold list_swap. destruct (l !! i), (l !! j); rewrite ?length_insert; done.
Qed.

Lemma lookup_swap_l i j l :
  (i < length l)%nat -> (j < length l)%nat -> list_swap i j l !! i = l !! j.
Proof.
  intros Hi Hj. unfold list_swap.
  destruct (lookup_lt_is_Some_2 l i Hi) as [x Hx].
  destruct (lookup_lt_is_Some_2 l j Hj) as [y Hy].
  rewrite Hx, Hy. apply list_lookup_insert_eq. by rewrite length_insert.
Qed.

Lemma lookup_swap_r i j l :
  (i < length l)%nat -> (j < length l)%nat -> list_swap i j l !! j = l !! i.
Proof.
  intros Hi Hj. unfold list_swap.
  destruct (lookup_lt_is_Some_2 l i Hi) as [x Hx].
  destruct (lookup_lt_is_Some_2 l j Hj) as [y Hy].
  rewrite Hx, Hy. destruct (decide (i = j)) as [->|Hne].
  - rewrite list_lookup_insert_eq; [congruence|]. by rewrite length_insert.
  - rewrite list_lookup_insert_ne by done. by apply list_lookup_insert_eq.
Qed.

Lemma lookup_swap_ne i j k l :
  k <> i -> k <> j -> list_swap i j l !! k = l !! k.
Proof.
  intros Hi Hj. unfold list_swap.
  destruct (l !! i), (l !! j); rewrite ?list_lookup_insert_ne by done; done.
Qed.

Lemma list_swap_Permutation i j l : list_swap i j l ≡ₚ l.
Proof.
  unfold list_swap.
  destruct (l !! i) as [x|] eqn:Hx; [|done].
  destruct (l !! j) as [y|] eqn:Hy; [|done].
  apply Permutation_inj; split; [by rewrite !length_insert|].
  exists (fun k => if decide (k = i) then j else if decide (k = j) then i else k).
  split.
  - intros a b. repeat case_decide; congruence.
  - intros k. repeat case_decide; subst.
    + rewrite list_lookup_insert_eq; [congruence|].
      rewrite length_insert. by eapply lookup_lt_Some.
    + rewrite list_lookup_insert_ne by done.
      rewrite list_lookup_insert_eq; [congruence|]. by eapply lookup_lt_Some.
    + by rewrite !list_lookup_insert_ne.
Qed.
End swap.

(** Sorted lists taken apart. *)
Lemma sorted_app {A} (R : A -> A -> Prop) l l' :
  StronglySorted R (l ++ l') <-> StronglySorted R l /\ StronglySorted R l' /\
    forall a b, a ∈ l -> b ∈ l' -> R a b.
Proof.
  induction l as [|x l IH]; cbn.
  - split; [intros Hs; split; [constructor|]; split; [done|]; by intros ?? ?%elem_of_nil|by intros (_ & ? & _)].
  - split.
    + intros Hs. inversion Hs as [|? ? H1 H2]; subst. apply IH in H1 as (H3 & H4 & H5).
      rewrite Forall_app in H2. destruct H2 as [H6 H7]. split; [by constructor|]. split; [done|].
      intros a b Ha Hb. apply elem_of_cons in Ha as [->|Ha]; [by eapply Forall_forall in H7|by apply H5].
    + intros (H1 & H2 & H3). inversion H1 as [|? ? H4 H5]; subst. constructor.
      * apply IH. split; [done|]. split; [done|]. intros a b Ha Hb. apply H3; [by right|done].
      * rewrite Forall_app. split; [done|]. apply Forall_forall. intros b Hb. apply H3; [by left|done].
Qed.

(** ** The qsort of the library

    What the standard says of [qsort]: the array is rearranged, and sorted when the
    comparison orders its elements. *)
Definition orders {A} (cmp : A -> A -> Z) (l : list A) : Prop :=
  (forall a b c, a ∈ l -> b ∈ l -> c ∈ l -> cmp a b <= 0 -> cmp b c <= 0 -> cmp a c <= 0) /\
  (forall a b, a ∈ l -> b ∈ l -> cmp a b <= 0 \/ cmp b a <= 0).
Definition sorts {A} (qsort : (A -> A -> Z) -> list A -> list A) : Prop :=
  forall cmp l, qsort cmp l ≡ₚ l /\ (orders cmp l -> StronglySorted (fun a b => cmp a b <= 0) (qsort cmp l)).

(** A function of that kind. *)
Fixpoint insert_sorted {A} (cmp : A -> A -> Z) (x : A) (l : list A) : list A :=
  match l with [] => [x] | y :: l' => if cmp x y <=? 0 then x :: l else y :: insert_sorted cmp x l' end.
Definition insertion_sort {A} (cmp : A -> A -> Z) (l : list A) : list A :=
  foldr (insert_sorted cmp) [] l.

Lemma insert_perm {A} (cmp : A -> A -> Z) x l : insert_sorted cmp x l ≡ₚ x :: l.
Proof. induction l as [|y l IH]; cbn; [done|]. case_match; [done|]. rewrite IH. apply Permutation_swap. Qed.

Lemma insertion_sorts {A} : sorts (insertion_sort (A := A)).
Proof.
  intros cmp l. induction l as [|x l [IHp IHs]]; cbn; [split; [done|intros _; constructor]|].
  change (foldr (insert_sorted cmp) [] l) with (insertion_sort cmp l) in *.
  split; [by rewrite insert_perm, IHp|]. intros [Ht Hc].
  assert (orders cmp l) as Hl by (split; [intros a b c Ha Hb Hcl; apply Ht; by right|intros a b Ha Hb; apply Hc; by right]).
  specialize (IHs Hl). assert (forall y, y ∈ insertion_sort cmp l -> y ∈ x :: l) as Hin by (intros y; rewrite IHp; by right).
  revert IHs Hin. generalize (insertion_sort cmp l). clear IHp Hl.
  intros m Hm. induction Hm as [|y m Hm IH Hy]; intros Hin; cbn; [by repeat constructor|].
  assert (x ∈ x :: l) as Hx by by left. assert (y ∈ x :: l) as Hyl by (apply Hin; by left).
  destruct (Z.leb_spec (cmp x y) 0) as [Hxy|Hxy].
  - constructor; [by constructor|]. constructor; [done|]. rewrite Forall_forall in *. intros z Hz.
    apply (Ht x y z); [done|done|apply Hin; by right|done|by apply Hy].
  - constructor; [apply IH; intros z Hz; apply Hin; by right|]. rewrite insert_perm. constructor; [|done].
    destruct (Hc x y Hx Hyl); [lia|done].
Qed.
