(* ===== verification/Bytes.v ===== *)
(** * Bytes, memory blocks and C shifts

    A block of memory is a list of bytes, each a [Z] in [0, 256); integers are
    stored little-endian, as on the machines the program supports.  An access
    outside the block is [None].  The shift operators of C are partial in the
    same way: a shift amount outside the width of the type is [None]. *)

From S2P Require Import Prelude.

(** ** Little-endian integers *)

Fixpoint le_val (bs : list Z) : Z :=
  match bs with
  | [] => 0
  | b :: bs => b + 256 * le_val bs
  end.

Fixpoint le_bytes (n : nat) (z : Z) : list Z :=
  match n with
  | O => []
  | S n => z mod 256 :: le_bytes n (z / 256)
  end.

Definition byte_list (bs : list Z) : Prop := Forall (fun b => 0 <= b < 256) bs.

Lemma length_le_bytes n z : length (le_bytes n z) = n.
Proof. revert z. induction n; simpl; auto. Qed.

Lemma le_bytes_byte_list n z : byte_list (le_bytes n z).
Proof.
  revert z. induction n as [|n IH]; intros z; simpl; constructor; [|apply IH].
  apply Z.mod_pos_bound. lia.
Qed.

Lemma le_val_bytes n z : le_val (le_bytes n z) = z mod 256 ^ Z.of_nat n.
Proof.
  revert z. induction n as [|n IH]; intros z; simpl le_bytes; cbn [le_val].
  - by rewrite Z.mod_1_r.
  - rewrite IH, Nat2Z.inj_succ, Z.pow_succ_r by lia.
    by rewrite Z.rem_mul_r by lia.
Qed.

Lemma le_val_range bs : byte_list bs -> 0 <= le_val bs < 256 ^ Z.of_nat (length bs).
Proof.
  induction 1 as [|b bs Hb _ IH]; cbn [le_val length].
  - done.
  - rewrite Nat2Z.inj_succ, Z.pow_succ_r by lia. lia.
Qed.

Lemma le_bytes_val bs : byte_list bs -> le_bytes (length bs) (le_val bs) = bs.
Proof.
  induction 1 as [|b bs Hb _ IH]; cbn [le_val length le_bytes]; [done|].
  replace ((b + 256 * le_val bs) mod 256) with b by dlia.
  replace ((b + 256 * le_val bs) / 256) with (le_val bs) by dlia.
  by rewrite IH.
Qed.

(** ** Reading and writing a block *)

Definition in_block (m : list Z) (off len : Z) : bool :=
  (0 <=? off) && (0 <=? len) && (off + len <=? Z.of_nat (length m)).

Definition mem_read (m : list Z) (off len : Z) : option (list Z) :=
  if in_block m off len then Some (take (Z.to_nat len) (drop (Z.to_nat off) m)) else None.

Definition mem_write (m : list Z) (off : Z) (bs : list Z) : option (list Z) :=
  if in_block m off (Z.of_nat (length bs)) then
    Some (take (Z.to_nat off) m ++ bs ++ drop (Z.to_nat off + length bs) m)
  else None.

Definition get_le (n : nat) (m : list Z) (off : Z) : option Z :=
  le_val <$> mem_read m off (Z.of_nat n).

Definition set_le (n : nat) (m : list Z) (off z : Z) : option (list Z) :=
  mem_write m off (le_bytes n z).

Lemma mem_read_Some m off len bs :
  mem_read m off len = Some bs <->
  0 <= off /\ 0 <= len /\ off + len <= Z.of_nat (length m) /\
  bs = take (Z.to_nat len) (drop (Z.to_nat off) m).
Proof.
  unfold mem_read, in_block.
  destruct (Z.leb_spec 0 off), (Z.leb_spec 0 len), (Z.leb_spec (off + len) (Z.of_nat (length m)));
    simpl; naive_solver lia.
Qed.

Lemma mem_write_Some m off bs m' :
  mem_write m off bs = Some m' <->
  0 <= off /\ off + Z.of_nat (length bs) <= Z.of_nat (length m) /\
  m' = take (Z.to_nat off) m ++ bs ++ drop (Z.to_nat off + length bs) m.
Proof.
  unfold mem_write, in_block.
  destruct (Z.leb_spec 0 off), (Z.leb_spec 0 (Z.of_nat (length bs))),
    (Z.leb_spec (off + Z.of_nat (length bs)) (Z.of_nat (length m)));
    simpl; naive_solver lia.
Qed.

Lemma length_mem_read m off len bs :
  mem_read m off len = Some bs -> Z.of_nat (length bs) = len.
Proof.
  intros (? & ? & ? & ->)%mem_read_Some. rewrite length_take, length_drop. lia.
Qed.

Lemma length_mem_write m off bs m' :
  mem_write m off bs = Some m' -> length m' = length m.
Proof.
  intros (? & ? & ->)%mem_write_Some.
  rewrite !length_app, length_take, length_drop. lia.
Qed.

Lemma mem_write_total m off bs :
  0 <= off -> off + Z.of_nat (length bs) <= Z.of_nat (length m) ->
  is_Some (mem_write m off bs).
Proof. intros. eexists. by apply mem_write_Some. Qed.

Lemma mem_read_total m off len :
  0 <= off -> 0 <= len -> off + len <= Z.of_nat (length m) -> is_Some (mem_read m off len).
Proof. intros. eexists. by apply mem_read_Some. Qed.

(** Byte [i] of a block after a write. *)
Lemma lookup_mem_write m off bs m' (i : nat) :
  mem_write m off bs = Some m' ->
  m' !! i = if decide (Z.to_nat off <= i < Z.to_nat off + length bs)%nat
            then bs !! (i - Z.to_nat off)%nat else m !! i.
Proof.
  intros (? & ? & ->)%mem_write_Some.
  assert (length (take (Z.to_nat off) m) = Z.to_nat off) as Hlen
    by (rewrite length_take; lia).
  case_decide as Hin.
  - rewrite lookup_app_r, Hlen by lia. apply lookup_app_l. lia.
  - destruct (decide (i < Z.to_nat off)%nat).
    + rewrite lookup_app_l by lia. by apply lookup_take_lt.
    + rewrite lookup_app_r, Hlen by lia. rewrite lookup_app_r by lia.
      rewrite lookup_drop. f_equal. lia.
Qed.

Lemma lookup_mem_read m off len bs (i : nat) :
  mem_read m off len = Some bs -> (i < Z.to_nat len)%nat ->
  bs !! i = m !! (Z.to_nat off + i)%nat.
Proof.
  intros (? & ? & ? & ->)%mem_read_Some Hi. rewrite lookup_take_lt by lia. apply lookup_drop.
Qed.

(** Reading back what was written. *)
Lemma mem_read_write m off bs m' :
  mem_write m off bs = Some m' -> mem_read m' off (Z.of_nat (length bs)) = Some bs.
Proof.
  intros Hw. pose proof (length_mem_write _ _ _ _ Hw) as Hl.
  pose proof Hw as (? & ? & ->)%mem_write_Some. apply mem_read_Some.
  split; [lia|]. split; [lia|]. split; [lia|].
  rewrite drop_app_length' by (rewrite length_take; lia).
  by rewrite Nat2Z.id, take_app_length.
Qed.

(** A read disjoint from the write is unaffected. *)
Lemma mem_read_write_disjoint m off bs m' off' len :
  mem_write m off bs = Some m' ->
  off' + len <= off \/ off + Z.of_nat (length bs) <= off' ->
  mem_read m' off' len = mem_read m off' len.
Proof.
  intros Hw Hd. unfold mem_read, in_block. rewrite (length_mem_write _ _ _ _ Hw).
  destruct (_ && _) eqn:Hb; [|done]. f_equal.
  apply list_eq. intros i. destruct (decide (i < Z.to_nat len)%nat).
  - rewrite !lookup_take_lt, !lookup_drop by done.
    rewrite (lookup_mem_write _ _ _ _ _ Hw). case_decide; [|done].
    apply mem_write_Some in Hw. lia.
  - by rewrite !lookup_take_ge by lia.
Qed.

(** Two reads whose bytes agree. *)
Lemma mem_read_ext m m' o o' n :
  0 <= o -> 0 <= o' -> 0 <= n -> o + n <= Z.of_nat (length m') -> o' + n <= Z.of_nat (length m) ->
  (forall i, 0 <= i < n -> m' !! Z.to_nat (o + i) = m !! Z.to_nat (o' + i)) ->
  mem_read m' o n = mem_read m o' n.
Proof.
  intros Ho Ho' Hn Hl' Hl Hi. destruct (mem_read_total m' o n) as [x Hx]; [lia..|].
  destruct (mem_read_total m o' n) as [y Hy]; [lia..|]. rewrite Hx, Hy. f_equal.
  pose proof (length_mem_read _ _ _ _ Hx). pose proof (length_mem_read _ _ _ _ Hy).
  apply list_eq_same_length with (length x); [lia|done|].
  intros i x' y' Hlt. rewrite (lookup_mem_read _ _ _ _ _ Hx), (lookup_mem_read _ _ _ _ _ Hy) by lia.
  specialize (Hi (Z.of_nat i) ltac:(lia)). rewrite !Z2Nat.inj_add, !Nat2Z.id in Hi by lia.
  congruence.
Qed.

(** Writing two adjacent pieces is writing their concatenation. *)
Lemma mem_write_app m off a b m1 m2 :
  mem_write m off a = Some m1 -> mem_write m1 (off + Z.of_nat (length a)) b = Some m2 ->
  mem_write m off (a ++ b) = Some m2.
Proof.
  intros H1 H2. pose proof (length_mem_write _ _ _ _ H1) as Hl1.
  pose proof (length_mem_write _ _ _ _ H2) as Hl2.
  destruct (mem_write_total m off (a ++ b)) as [m' Hm'].
  { apply mem_write_Some in H1. lia. }
  { rewrite length_app. apply mem_write_Some in H1, H2. lia. }
  rewrite Hm'. f_equal. apply list_eq. intros i.
  rewrite (lookup_mem_write _ _ _ _ _ Hm'), (lookup_mem_write _ _ _ _ _ H2),
    (lookup_mem_write _ _ _ _ _ H1), length_app.
  apply mem_write_Some in H1 as (? & ? & _).
  destruct (decide (i < Z.to_nat off + length a)%nat).
  - repeat case_decide; try lia; [|done]. by rewrite lookup_app_l by lia.
  - repeat case_decide; try lia; [|done].
    rewrite lookup_app_r by lia. f_equal. lia.
Qed.

Lemma get_set_le n m off z m' :
  set_le n m off z = Some m' -> get_le n m' off = Some (z mod 256 ^ Z.of_nat n).
Proof.
  unfold set_le, get_le. intros Hw%mem_read_write. rewrite length_le_bytes in Hw.
  by rewrite Hw, <- le_val_bytes.
Qed.

(** ** Shifts *)

(** [x << s] on a 64-bit unsigned operand. *)
Definition shl64 (x s : Z) : option Z :=
  if (0 <=? s) && (s <? 64) then Some (u64 (Z.shiftl x s)) else None.

Definition shr64 (x s : Z) : option Z :=
  if (0 <=? s) && (s <? 64) then Some (Z.shiftr x s) else None.

Lemma shl64_exact x s :
  0 <= x -> 0 <= s < 64 -> x * 2 ^ s < 2 ^ 64 -> shl64 x s = Some (x * 2 ^ s).
Proof.
  intros Hx Hs Hlt. unfold shl64.
  destruct (Z.leb_spec 0 s), (Z.ltb_spec s 64); try lia. simpl.
  rewrite Z.shiftl_mul_pow2 by lia. rewrite u64_small; [done|].
  pose proof (Z.pow_pos_nonneg 2 s). nia.
Qed.

(** [x / y] and [x % y] on unsigned operands: a zero divisor traps. *)
Definition div_u (x y : Z) : option Z := if y =? 0 then None else Some (x / y).
Definition mod_u (x y : Z) : option Z := if y =? 0 then None else Some (x mod y).
