(* ===== verification/Swap.v ===== *)
(** * Exchanging two elements in memory (include/linux/min_heap.h)

    The heap moves its elements by exchanging them in chunks chosen by size and
    alignment.  Here memory is a block of bytes and an element a range of it;
    an access outside the block is [None].  Neither [CONFIG_64BIT] nor
    [CONFIG_HAVE_EFFICIENT_UNALIGNED_ACCESS] is defined by the build, so the
    64-bit variant makes two 32-bit transfers per pass. *)

From S2P Require Import Prelude Bytes.

Definition is_aligned (base size align : Z) : bool :=
  let lsbits := u8 size in
  let lsbits := Z.lor lsbits (u8 base) in
  Z.land lsbits (align - 1) =? 0.

(** [t = a[n]; a[n] = b[n]; b[n] = t] on [w] bytes. *)
Definition swap_unit (w : nat) (m : list Z) (a b n : Z) : option (list Z) :=
  t ← get_le w m (a + n);
  x ← get_le w m (b + n);
  m ← set_le w m (a + n) x;
  set_le w m (b + n) t.

(** The loops run while [n], at least one element size, is not zero. *)
Fixpoint swap_words_32 (fuel : nat) (m : list Z) (a b n : Z) : option (list Z) :=
  match fuel with
  | O => None
  | S fuel =>
      let n := u64 (n - 4) in
      m ← swap_unit 4 m a b n;
      if n =? 0 then Some m else swap_words_32 fuel m a b n
  end.

Fixpoint swap_words_64 (fuel : nat) (m : list Z) (a b n : Z) : option (list Z) :=
  match fuel with
  | O => None
  | S fuel =>
      let n := u64 (n - 4) in
      m ← swap_unit 4 m a b n;
      let n := u64 (n - 4) in
      m ← swap_unit 4 m a b n;
      if n =? 0 then Some m else swap_words_64 fuel m a b n
  end.

Fixpoint swap_bytes (fuel : nat) (m : list Z) (a b n : Z) : option (list Z) :=
  match fuel with
  | O => None
  | S fuel =>
      let n := u64 (n - 1) in
      m ← swap_unit 1 m a b n;
      if n =? 0 then Some m else swap_bytes fuel m a b n
  end.

Inductive swap_func := SWAP_WORDS_64 | SWAP_WORDS_32 | SWAP_BYTES.

(** [data] is the address of the heap's array. *)
Definition select_swap_func (data size : Z) : swap_func :=
  if is_aligned data size 8 then SWAP_WORDS_64
  else if is_aligned data size 4 then SWAP_WORDS_32
  else SWAP_BYTES.

Definition do_swap_mem (f : swap_func) (m : list Z) (a b size : Z) : option (list Z) :=
  let fuel := S (Z.to_nat size) in
  match f with
  | SWAP_WORDS_64 => swap_words_64 fuel m a b size
  | SWAP_WORDS_32 => swap_words_32 fuel m a b size
  | SWAP_BYTES => swap_bytes fuel m a b size
  end.

(** ** Exchanged ranges *)

(** [m'] is [m] with bytes [lo..hi) of the ranges at [a] and [b] exchanged. *)
Definition exchanged (m m' : list Z) (a b lo hi : Z) : Prop :=
  length m' = length m /\ byte_list m' /\
  forall i, 0 <= i ->
    m' !! Z.to_nat i =
      if decide (a + lo <= i < a + hi) then m !! Z.to_nat (b + (i - a))
      else if decide (b + lo <= i < b + hi) then m !! Z.to_nat (a + (i - b))
      else m !! Z.to_nat i.

(** Two disjoint ranges of [n] bytes inside the block. *)
Definition ranges (m : list Z) (a b n : Z) : Prop :=
  0 <= a /\ 0 <= b /\ a + n <= Z.of_nat (length m) /\ b + n <= Z.of_nat (length m) /\
  (a + n <= b \/ b + n <= a).

Lemma set_get_le w m off bs :
  byte_list m -> mem_read m off (Z.of_nat w) = Some bs -> le_bytes w (le_val bs) = bs.
Proof.
  intros Hm Hbs. pose proof (length_mem_read _ _ _ _ Hbs).
  replace w with (length bs) by lia. apply le_bytes_val.
  apply mem_read_Some in Hbs as (_ & _ & _ & ->). by apply Forall_take, Forall_drop.
Qed.

Lemma byte_list_write m off bs m' :
  byte_list m -> byte_list bs -> mem_write m off bs = Some m' -> byte_list m'.
Proof.
  intros Hm Hb (_ & _ & ->)%mem_write_Some.
  apply Forall_app; split; [by apply Forall_take|].
  apply Forall_app; split; [done|by apply Forall_drop].
Qed.


Lemma swap_unit_exchanges w m a b n N :
  byte_list m -> ranges m a b N -> 0 <= n -> n + Z.of_nat w <= N ->
  exists m', swap_unit w m a b n = Some m' /\ exchanged m m' a b n (n + Z.of_nat w).
Proof.
  intros Hm (Ha & Hb & Hla & Hlb & Hd) Hn Hw. unfold swap_unit, get_le, set_le.
  destruct (mem_read_total m (a + n) (Z.of_nat w)) as [x Hx]; [lia..|].
  destruct (mem_read_total m (b + n) (Z.of_nat w)) as [y Hy]; [lia..|].
  rewrite Hx, Hy. cbn [fmap option_fmap option_map mbind option_bind].
  rewrite (set_get_le w m (b + n) y), (set_get_le w m (a + n) x) by done.
  pose proof (length_mem_read _ _ _ _ Hx) as Hlx. pose proof (length_mem_read _ _ _ _ Hy) as Hly.
  assert (byte_list x /\ byte_list y) as [Hbx Hby].
  { apply mem_read_Some in Hx as (_ & _ & _ & ->). apply mem_read_Some in Hy as (_ & _ & _ & ->).
    split; by apply Forall_take, Forall_drop. }
  destruct (mem_write_total m (a + n) y) as [m1 H1]; [lia..|].
  pose proof (length_mem_write _ _ _ _ H1).
  rewrite H1. cbn [mbind option_bind].
  destruct (mem_write_total m1 (b + n) x) as [m2 H2]; [lia..|].
  exists m2. split; [done|]. split; [by rewrite (length_mem_write _ _ _ _ H2)|].
  split; [eauto using byte_list_write|]. intros i Hi.
  rewrite (lookup_mem_write _ _ _ _ _ H2), (lookup_mem_write _ _ _ _ _ H1).
  repeat case_decide; try lia; try done.
  - rewrite (lookup_mem_read _ _ _ _ _ Hx) by lia. f_equal. lia.
  - rewrite (lookup_mem_read _ _ _ _ _ Hy) by lia. f_equal. lia.
Qed.

Lemma exchanged_trans m m1 m2 a b lo mid hi :
  ranges m a b hi -> 0 <= lo <= mid -> mid <= hi ->
  exchanged m m1 a b mid hi -> exchanged m1 m2 a b lo mid -> exchanged m m2 a b lo hi.
Proof.
  intros (Ha & Hb & Hla & Hlb & Hd) Hlo Hmid (Hl1 & _ & H1) (Hl2 & Hm2 & H2).
  split; [congruence|]. split; [done|]. intros i Hi. rewrite H2 by done.
  repeat case_decide; try lia; rewrite H1 by lia; repeat case_decide; try lia; f_equal; lia.
Qed.

Lemma ranges_length m m' a b n : length m' = length m -> ranges m a b n -> ranges m' a b n.
Proof. unfold ranges. intros ->. done. Qed.

(** A loop that exchanges [w] bytes per pass from the top. *)
Lemma unit_below w m0 m a b n N :
  ranges m0 a b N -> exchanged m0 m a b n N -> 0 <= n - Z.of_nat w -> n <= N < 2 ^ 64 ->
  exists m', swap_unit w m a b (u64 (n - Z.of_nat w)) = Some m' /\
    exchanged m0 m' a b (n - Z.of_nat w) N /\ u64 (n - Z.of_nat w) = n - Z.of_nat w.
Proof.
  intros Hr Hex Hn HN. pose proof Hex as (Hl & Hm & _). rewrite u64_small by lia.
  destruct (swap_unit_exchanges w m a b (n - Z.of_nat w) N) as (m' & Heq & Hex');
    [done|by eapply ranges_length|done|lia|].
  exists m'. split; [done|]. split; [|done]. rewrite Z.sub_add in Hex'.
  apply (exchanged_trans m0 m _ _ _ _ n); [done|lia|lia|done|done].
Qed.

Section loops.
Context (m0 : list Z) (a b N : Z).
Context (Hr : ranges m0 a b N) (HN : 0 < N < 2 ^ 64).

Lemma swap_words_32_spec fuel : forall m n,
  exchanged m0 m a b n N -> 0 < n <= N -> n mod 4 = 0 -> (Z.to_nat n < fuel)%nat ->
  exists m', swap_words_32 fuel m a b n = Some m' /\ exchanged m0 m' a b 0 N.
Proof.
  induction fuel as [|fuel IH]; intros m n Hex Hn Hm Hf; [lia|]. cbn [swap_words_32].
  destruct (unit_below 4 m0 m a b n N) as (m1 & Hs & Hex1 & He); [done|done|dlia|lia|].
  change (Z.of_nat 4) with 4 in *. rewrite Hs. cbn [mbind option_bind]. rewrite He.
  destruct (Z.eqb_spec (n - 4) 0) as [E|E]; [exists m1; by rewrite E in Hex1|].
  apply IH; [done|dlia|dlia|lia].
Qed.

Lemma swap_bytes_spec fuel : forall m n,
  exchanged m0 m a b n N -> 0 < n <= N -> (Z.to_nat n < fuel)%nat ->
  exists m', swap_bytes fuel m a b n = Some m' /\ exchanged m0 m' a b 0 N.
Proof.
  induction fuel as [|fuel IH]; intros m n Hex Hn Hf; [lia|]. cbn [swap_bytes].
  destruct (unit_below 1 m0 m a b n N) as (m1 & Hs & Hex1 & He); [done|done|lia|lia|].
  change (Z.of_nat 1) with 1 in *. rewrite Hs. cbn [mbind option_bind]. rewrite He.
  destruct (Z.eqb_spec (n - 1) 0) as [E|E]; [exists m1; by rewrite E in Hex1|].
  apply IH; [done|lia|lia].
Qed.

Lemma swap_words_64_spec fuel : forall m n,
  exchanged m0 m a b n N -> 0 < n <= N -> n mod 8 = 0 -> (Z.to_nat n < fuel)%nat ->
  exists m', swap_words_64 fuel m a b n = Some m' /\ exchanged m0 m' a b 0 N.
Proof.
  induction fuel as [|fuel IH]; intros m n Hex Hn Hm Hf; [lia|]. cbn [swap_words_64].
  destruct (unit_below 4 m0 m a b n N) as (m1 & Hs & Hex1 & He); [done|done|dlia|lia|].
  change (Z.of_nat 4) with 4 in *. rewrite Hs. cbn [mbind option_bind]. rewrite He.
  destruct (unit_below 4 m0 m1 a b (n - 4) N) as (m2 & Hs2 & Hex2 & He2);
    [done|done|dlia|lia|].
  change (Z.of_nat 4) with 4 in *. rewrite Hs2. cbn [mbind option_bind]. rewrite He2.
  destruct (Z.eqb_spec (n - 4 - 4) 0) as [E|E]; [exists m2; by rewrite E in Hex2|].
  apply IH; [done|dlia|dlia|lia].
Qed.
End loops.

Lemma aligned_mod base size k :
  0 <= k < 8 -> is_aligned base size (2 ^ k) = true -> size mod 2 ^ k = 0.
Proof.
  intros Hk. unfold is_aligned. rewrite Z.eqb_eq, Z.land_lor_distr_l, Z.lor_eq_0_iff.
  intros [H _]. rewrite Z.sub_1_r, <- Z.ones_equiv, Z.land_ones in H by lia.
  rewrite <- H. unfold u8. apply Znumtheory.Zmod_div_mod; [lia|lia|].
  exists (2 ^ (8 - k)). rewrite <- Z.pow_add_r by lia. f_equal. lia.
Qed.

(** Whichever chunk size is selected for the array at address [data], exchanging
    two distinct elements of it exchanges their bytes and touches nothing else. *)
Theorem select_swap_exchanges m data a b size :
  byte_list m -> 0 < size < 2 ^ 64 -> ranges m a b size ->
  exists m', do_swap_mem (select_swap_func data size) m a b size = Some m' /\
    mem_read m' a size = mem_read m b size /\ mem_read m' b size = mem_read m a size /\
    length m' = length m /\
    (forall i, 0 <= i -> ~ (a <= i < a + size) -> ~ (b <= i < b + size) ->
       m' !! Z.to_nat i = m !! Z.to_nat i).
Proof.
  intros Hm Hsz Hr.
  assert (exchanged m m a b size size) as H0.
  { split; [done|]. split; [done|]. intros i Hi. repeat case_decide; done || lia. }
  assert (exists m', do_swap_mem (select_swap_func data size) m a b size = Some m' /\
    exchanged m m' a b 0 size) as (m' & Heq & Hl & _ & Hex).
  { unfold select_swap_func, do_swap_mem.
    destruct (is_aligned data size 8) eqn:E8; [|destruct (is_aligned data size 4) eqn:E4].
    - apply swap_words_64_spec; try done; try lia. by apply (aligned_mod data size 3).
    - apply swap_words_32_spec; try done; try lia. by apply (aligned_mod data size 2).
    - apply swap_bytes_spec; done || lia. }
  exists m'. split; [done|]. destruct Hr as (Ha & Hb & Hla & Hlb & Hd).
  do 2 (split; [apply mem_read_ext; try lia; intros i Hi; rewrite Hex by lia;
                repeat case_decide; try lia; f_equal; lia|]).
  split; [done|]. intros i Hi Hna Hnb. rewrite Hex by done. repeat case_decide; lia || done.
Qed.

Lemma select_swap_exchanges_witness :
  exists m', do_swap_mem (select_swap_func 64 4) [1; 2; 3; 4; 9; 5; 6; 7; 8] 0 5 4 = Some m' /\
    mem_read m' 0 4 = Some [5; 6; 7; 8] /\ mem_read m' 5 4 = Some [1; 2; 3; 4].
Proof.
  destruct (select_swap_exchanges [1; 2; 3; 4; 9; 5; 6; 7; 8] 64 0 5 4) as (m' & H1 & H2 & H3 & _).
  - repeat constructor; lia.
  - lia.
  - unfold ranges. simpl. lia.
  - exists m'. exact (conj H1 (conj H2 H3)).
Defined.
