(* ===== verification/MinHeap.v ===== *)
(** * The binary min-heap of include/linux/min_heap.h

    [order.c] keeps one heap element per ring buffer or stream and pops events
    in time order from it.  The functions below work on byte offsets, as the
    header does ([pre-scale counters for performance]); [es] is the element
    size in bytes and [less] the client's comparison callback.  An access
    outside the array is [None].  Fuel bounds the loops; every theorem below
    shows the fuel is enough. *)

From S2P Require Import Prelude.

Record min_heap (A : Type) := MinHeap {
  nr : Z;          (** elements currently in the heap *)
  size : Z;        (** elements the storage can hold *)
  data : list A    (** the storage *)
}.
Arguments MinHeap {A}.
Arguments nr {A}.
Arguments size {A}.
Arguments data {A}.

(** The offset of the parent of the element at byte offset [i] (non-zero),
    [lsbit] the least significant bit of the element size. *)
Definition parent (i lsbit size : Z) : Z :=
  let i := u64 (i - size) in
  let i := u64 (i - Z.land size (u64 (- Z.land i lsbit))) in
  i / 2.

Section ops.
Context {A : Type} (less : A -> A -> bool) (es : Z).

(** [data + off] as an element. *)
Definition elem (d : list A) (off : Z) : option A :=
  if off mod es =? 0 then d !! Z.to_nat (off / es) else None.

(** Writing [*(data + off)]. *)
Definition set_elem (d : list A) (off : Z) (x : A) : option (list A) :=
  _ ← elem d off; Some (<[Z.to_nat (off / es) := x]> d).

Definition do_swap (d : list A) (a b : Z) : option (list A) :=
  x ← elem d a;
  y ← elem d b;
  d ← set_elem d a y;
  set_elem d b x.

Definition min_heap_init (d : list A) (sz : Z) : min_heap A := MinHeap 0 sz d.

Definition min_heap_peek (h : min_heap A) : option A :=
  if nr h =? 0 then None else elem (data h) 0.

Definition min_heap_full (h : min_heap A) : bool := nr h =? size h.

(** The path of smaller children down to the leaves: [(b, c, d)] on exit. *)
Fixpoint sift_path (fuel : nat) (dt : list A) (n b : Z) : option (Z * Z * Z) :=
  match fuel with
  | O => None
  | S fuel =>
      let c := u64 (2 * b + es) in
      let d := u64 (c + es) in
      if d <? n then
        x ← elem dt c;
        y ← elem dt d;
        sift_path fuel dt n (if less x y then c else d)
      else Some (b, c, d)
  end.

(** Backtrack to the correct location. *)
Fixpoint sift_back (fuel : nat) (lsbit : Z) (dt : list A) (a b : Z) : option Z :=
  match fuel with
  | O => None
  | S fuel =>
      if b =? a then Some b
      else
        x ← elem dt a;
        y ← elem dt b;
        if less x y then sift_back fuel lsbit dt a (parent b (u32 lsbit) es)
        else Some b
  end.

(** Shift the element into its correct place. *)
Fixpoint sift_shift (fuel : nat) (lsbit : Z) (dt : list A) (a b c : Z)
  : option (list A) :=
  match fuel with
  | O => None
  | S fuel =>
      if b =? a then Some dt
      else
        let b := parent b (u32 lsbit) es in
        dt ← do_swap dt b c;
        sift_shift fuel lsbit dt a b c
  end.

Definition lsbit_of : Z := Z.land es (u64 (- es)).

Definition min_heap_sift_down (h : min_heap A) (pos : Z) : option (min_heap A) :=
  let fuel := S (Z.to_nat (nr h)) in
  let lsbit := lsbit_of in
  let a := u64 (pos * es) in
  let n := u64 (nr h * es) in
  '(b, c, d) ← sift_path fuel (data h) n a;
  let b := if d =? n then c else b in
  b ← sift_back fuel lsbit (data h) a b;
  dt ← sift_shift fuel lsbit (data h) a b b;
  Some (MinHeap (nr h) (size h) dt).

Fixpoint sift_up_loop (fuel : nat) (lsbit : Z) (dt : list A) (a : Z)
  : option (list A) :=
  match fuel with
  | O => None
  | S fuel =>
      if a =? 0 then Some dt
      else
        let b := parent a (u32 lsbit) es in
        x ← elem dt b;
        y ← elem dt a;
        if less x y then Some dt
        else dt ← do_swap dt a b; sift_up_loop fuel lsbit dt b
  end.

Definition min_heap_sift_up (h : min_heap A) (idx : Z) : option (min_heap A) :=
  let lsbit := lsbit_of in
  let a := u64 (idx * es) in
  dt ← sift_up_loop (S (Z.to_nat (nr h))) lsbit (data h) a;
  Some (MinHeap (nr h) (size h) dt).

(** [for (i = nr/2 - 1; i >= 0; i--) sift_down(i)]. *)
Fixpoint heapify_loop (fuel : nat) (h : min_heap A) (i : Z) : option (min_heap A) :=
  match fuel with
  | O => None
  | S fuel =>
      if 0 <=? i then
        h ← min_heap_sift_down h i;
        heapify_loop fuel h (i - 1)
      else Some h
  end.

Definition min_heapify_all (h : min_heap A) : option (min_heap A) :=
  heapify_loop (S (Z.to_nat (nr h))) h (Z.quot (nr h) 2 - 1).

(** The boolean result is the function's; [false] leaves the heap alone. *)
Definition min_heap_pop (h : min_heap A) : option (bool * min_heap A) :=
  if nr h <=? 0 then Some (false, h)
  else
    let nr' := nr h - 1 in
    x ← elem (data h) (nr' * es);
    d ← set_elem (data h) 0 x;
    h ← min_heap_sift_down (MinHeap nr' (size h) d) 0;
    Some (true, h).

Definition min_heap_pop_push (h : min_heap A) (x : A) : option (min_heap A) :=
  d ← set_elem (data h) 0 x;
  min_heap_sift_down (MinHeap (nr h) (size h) d) 0.

Definition min_heap_push (h : min_heap A) (x : A) : option (bool * min_heap A) :=
  if size h <=? nr h then Some (false, h)
  else
    let pos := nr h in
    d ← set_elem (data h) (pos * es) x;
    h ← min_heap_sift_up (MinHeap (nr h + 1) (size h) d) pos;
    Some (true, h).

Definition min_heap_del (h : min_heap A) (idx : Z) : option (bool * min_heap A) :=
  if nr h <=? 0 then Some (false, h)
  else
    let nr' := nr h - 1 in
    let h := MinHeap nr' (size h) (data h) in
    if idx =? nr' then Some (true, h)
    else
      d ← do_swap (data h) (idx * es) (nr' * es);
      h ← min_heap_sift_up (MinHeap nr' (size h) d) idx;
      h ← min_heap_sift_down h idx;
      Some (true, h).
End ops.

(** ** The branch-free parent computation *)

Lemma two_adic es : 0 < es -> exists k m, 0 <= k /\ es = 2 ^ k * (2 * m + 1) /\ 0 <= m.
Proof.
  intros Hes. assert (forall n es, (Z.to_nat es < n)%nat -> 0 < es ->
    exists k m, 0 <= k /\ es = 2 ^ k * (2 * m + 1) /\ 0 <= m) as H.
  { clear es Hes. induction n as [|n IH]; intros es Hn Hes; [lia|].
    destruct (Z.Even_or_Odd es) as [[q Hq]|[q Hq]].
    - destruct (IH q) as (k & m & Hk & Hm & Hm0); [lia|lia|].
      exists (k + 1), m. split; [lia|]. split; [|lia].
      rewrite Z.pow_add_r, Hq, Hm by lia. ring.
    - exists 0, q. split; [lia|]. split; lia. }
  by apply (H (S (Z.to_nat es))); [lia|].
Qed.

Lemma land_u64_r a b : 0 <= a < 2 ^ 64 -> Z.land a (u64 b) = Z.land a b.
Proof.
  intros Ha. unfold u64. rewrite <- Z.land_ones by lia.
  rewrite (Z.land_comm b), Z.land_assoc, Z.land_ones by lia.
  by rewrite Z.mod_small.
Qed.

Lemma testbit_pow2_mul k x i :
  0 <= k -> 0 <= i -> Z.testbit (2 ^ k * x) i = (k <=? i) && Z.testbit x (i - k).
Proof.
  intros Hk Hi. rewrite Z.mul_comm. destruct (Z.leb_spec k i).
  - by rewrite Z.mul_pow2_bits by lia.
  - by rewrite Z.mul_pow2_bits_low by lia.
Qed.

Lemma lsbit_pow2 k m :
  0 <= k -> 0 <= m -> 2 ^ k * (2 * m + 1) < 2 ^ 64 ->
  lsbit_of (2 ^ k * (2 * m + 1)) = 2 ^ k.
Proof.
  intros Hk Hm Hlt. unfold lsbit_of.
  pose proof (Z.pow_pos_nonneg 2 k ltac:(lia) Hk).
  rewrite land_u64_r by nia. apply Z.bits_inj'. intros i Hi.
  rewrite Z.land_spec, Z.pow2_bits_eqb by lia.
  replace (- (2 ^ k * (2 * m + 1))) with (2 ^ k * (2 * (- m - 1) + 1)) by ring.
  rewrite !testbit_pow2_mul by lia. destruct (Z.leb_spec k i); simpl.
  - destruct (Z.eqb_spec k i) as [->|Hne].
    + by rewrite Z.sub_diag, !Z.testbit_odd_0.
    + replace (i - k) with (Z.succ (i - k - 1)) by lia.
      rewrite !Z.testbit_odd_succ by lia.
      replace (- m - 1) with (Z.lnot m) by (unfold Z.lnot; lia).
      rewrite Z.lnot_spec by lia. by destruct (Z.testbit m _).
  - destruct (Z.eqb_spec k i); [lia|done].
Qed.

Lemma land_pow2 k x : 0 <= k -> Z.land (2 ^ k * x) (2 ^ k) = if Z.odd x then 2 ^ k else 0.
Proof.
  intros Hk. apply Z.bits_inj'. intros i Hi.
  rewrite Z.land_spec, testbit_pow2_mul, Z.pow2_bits_eqb by lia.
  destruct (Z.eqb_spec k i) as [->|Hne].
  - rewrite Z.leb_refl, Z.sub_diag, Z.bit0_odd. simpl. rewrite andb_true_r.
    destruct (Z.odd x); [by rewrite Z.pow2_bits_true|by rewrite Z.bits_0].
  - rewrite andb_false_r. destruct (Z.odd x); [|by rewrite Z.bits_0].
    by rewrite Z.pow2_bits_false.
Qed.

Lemma land_neg_pow2 k x : 0 <= k -> Z.land (2 ^ k * x) (- 2 ^ k) = 2 ^ k * x.
Proof.
  intros Hk. apply Z.bits_inj'. intros i Hi.
  replace (- 2 ^ k) with (2 ^ k * -1) by ring.
  rewrite Z.land_spec, !testbit_pow2_mul by lia.
  destruct (Z.leb_spec k i); simpl; [|done].
  rewrite Z.bits_m1 by lia. by rewrite andb_true_r.
Qed.

(** On element boundaries the byte-offset computation is [(j - 1) / 2]. *)
Lemma parent_offset es j :
  0 < es < 2 ^ 32 -> 0 < j -> j * es < 2 ^ 64 ->
  parent (j * es) (u32 (lsbit_of es)) es = ((j - 1) / 2) * es.
Proof.
  intros Hes Hj Hlt. destruct (two_adic es) as (k & m & Hk & Hm & Hm0); [lia|].
  pose proof (Z.pow_pos_nonneg 2 k ltac:(lia) Hk).
  assert (lsbit_of es = 2 ^ k) as ->.
  { rewrite Hm. apply lsbit_pow2; [done..|]. rewrite <- Hm. lia. }
  unfold parent. rewrite (u32_small (2 ^ k)) by nia.
  replace (j * es - es) with ((j - 1) * es) by ring.
  rewrite (u64_small ((j - 1) * es)) by nia.
  replace ((j - 1) * es) with (2 ^ k * ((j - 1) * (2 * m + 1))) at 2 by (rewrite Hm; ring).
  rewrite land_pow2 by done. rewrite Z.odd_mul, (Z.add_comm (2 * m)), Z.odd_add_mul_2.
  change (Z.odd 1) with true. rewrite andb_true_r.
  destruct (Z.odd (j - 1)) eqn:Hodd.
  - rewrite land_u64_r by lia. rewrite Hm at 2. rewrite land_neg_pow2 by done. rewrite <- Hm.
    apply Z.odd_spec in Hodd. destruct Hodd as [q Hq]. rewrite Hq.
    replace ((2 * q + 1) / 2) with q by dlia.
    replace ((2 * q + 1) * es - es) with (q * es * 2) by ring.
    rewrite u64_small; [by apply Z.div_mul|].
    clear - Hes Hj Hlt Hq. assert (0 <= q) by lia. nia.
  - change (u64 (- 0)) with 0. rewrite Z.land_0_r, Z.sub_0_r.
    assert (Z.even (j - 1) = true) as Hev by (by rewrite <- Z.negb_odd, Hodd).
    apply Z.even_spec in Hev. destruct Hev as [q Hq]. rewrite Hq.
    replace (2 * q / 2) with q by dlia.
    replace (2 * q * es) with (q * es * 2) by ring.
    rewrite u64_small; [by apply Z.div_mul|].
    clear - Hes Hj Hlt Hq. assert (0 <= q) by lia. nia.
Qed.

(** ** Heap order

    The comparison callback is a strict weak order: [le x y], i.e. not
    [less y x], is reflexive-by-asymmetry and transitive. *)
Class StrictWeak {A} (less : A -> A -> bool) : Prop := {
  less_asym x y : less x y = true -> less y x = false;
  le_trans x y z : less y x = false -> less z y = false -> less z x = false
}.

Definition par (i : nat) : nat := ((i - 1) / 2)%nat.

Section spec.
Context {A : Type} (less : A -> A -> bool) `{!StrictWeak less}.
Implicit Types (d : list A) (n i j k a b c : nat) (l : list nat).

(** The element at [i] is not after the one at [j]. *)
Definition rel d i j : Prop :=
  forall x y, d !! i = Some x -> d !! j = Some y -> less y x = false.

(** [d[0..n)] is heap-ordered at every parent index from [lo] up. *)
Definition heap_from lo d n : Prop :=
  forall j, (0 < j < n)%nat -> (lo <= par j)%nat -> rel d (par j) j.

Definition is_heap d n : Prop := heap_from 0 d n.

(** As [heap_from], except below [k]; the children of [k] respect [k]'s parent. *)
Definition heap_hole lo k d n : Prop :=
  (forall j, (0 < j < n)%nat -> (lo <= par j)%nat -> par j <> k -> rel d (par j) j) /\
  (forall j, (0 < j < n)%nat -> par j = k -> (0 < k)%nat -> (lo <= par k)%nat ->
     rel d (par k) j).

Lemma less_irrefl x : less x x = false.
Proof. destruct (less x x) eqn:E; [|done]. rewrite <- E. by apply less_asym. Qed.

Lemma rel_refl d i : rel d i i.
Proof. intros x y Hx Hy. simplify_eq. apply less_irrefl. Qed.

Lemma rel_trans d i j k : (j < length d)%nat -> rel d i j -> rel d j k -> rel d i k.
Proof.
  intros Hj Hij Hjk x z Hx Hz. destruct (lookup_lt_is_Some_2 d j Hj) as [y Hy].
  eapply le_trans; [by eapply Hij|by eapply Hjk].
Qed.

Lemma rel_proper d d' i i' j j' :
  d' !! i' = d !! i -> d' !! j' = d !! j -> rel d i j -> rel d' i' j'.
Proof. unfold rel. intros -> ->. done. Qed.

(** [c] is a smallest child of [b]. *)
Definition min_child d n b c : Prop :=
  (0 < c < n)%nat /\ par c = b /\
  forall k, (0 < k < n)%nat -> par k = b -> rel d c k.

(** [mpath d n a c l]: [c] is reached from [a] through smallest children, [l]
    its proper ancestors from the nearest up to [a]. *)
Inductive mpath d n a : nat -> list nat -> Prop :=
| mpath_top : mpath d n a a []
| mpath_step b c l : mpath d n a b l -> min_child d n b c -> mpath d n a c (b :: l).

Lemma par_lt i : (0 < i)%nat -> (par i < i)%nat.
Proof. unfold par. intros. dlia. Qed.

Lemma par_children j b : (0 < j)%nat -> par j = b -> (j = 2 * b + 1 \/ j = 2 * b + 2)%nat.
Proof. unfold par. intros. dlia. Qed.

Lemma mpath_lt d n a c l : mpath d n a c l ->
  (a <= c)%nat /\ (forall q, q ∈ l -> (a <= q < c)%nat) /\ NoDup (c :: l).
Proof.
  induction 1 as [|b c l Hp (Hab & Hin & Hnd) [Hc [Hpar _]]].
  - split; [lia|]. split; [by intros q ?%elem_of_nil|]. apply NoDup_singleton.
  - pose proof (par_lt c ltac:(lia)). split; [lia|].
    assert (forall q, q ∈ b :: l -> (a <= q < c)%nat) as Hall.
    { intros q [->|Hq]%elem_of_cons; [lia|]. specialize (Hin q Hq). lia. }
    split; [done|]. apply NoDup_cons. split; [|done].
    intros Hcin. specialize (Hall c Hcin). lia.
Qed.

(** Successive exchanges of [c] with the ancestors [l]: the shift loop. *)
Fixpoint rot d c l : list A :=
  match l with
  | [] => d
  | p :: l => rot (list_swap p c d) c l
  end.

Lemma rot_Permutation l : forall d c, rot d c l ≡ₚ d.
Proof.
  induction l as [|p l IH]; intros d c; simpl; [done|].
  rewrite IH. apply list_swap_Permutation.
Qed.

Lemma length_rot d c l : length (rot d c l) = length d.
Proof. apply Permutation_length, rot_Permutation. Qed.

Lemma rot_ne l : forall d c j, j ∉ c :: l -> rot d c l !! j = d !! j.
Proof.
  induction l as [|p l IH]; intros d c j Hj; simpl; [done|].
  rewrite IH by set_solver. apply lookup_swap_ne; set_solver.
Qed.

(** Reading [q :: l], each entry of [l] receives the value of its predecessor
    and [c] that of the last one, when [c] first holds what [q] is to give. *)
Lemma rot_chain l : forall d c,
  NoDup (c :: l) -> (forall q, q ∈ c :: l -> q < length d)%nat ->
  (forall l1 q r l2, c :: l = l1 ++ q :: r :: l2 -> rot d c l !! r = d !! q) /\
  rot d c l !! c = d !! (List.last (c :: l) c).
Proof.
  induction l as [|p l IH]; intros d c Hnd Hlt.
  - split; [|done]. intros [|x l1] q r l2 Heq; simplify_eq/=. by destruct l1.
  - apply NoDup_cons in Hnd as [Hcp Hnd]. apply NoDup_cons in Hnd as [Hpl Hnd].
    assert (p < length d)%nat as Hp by (apply Hlt; set_solver).
    assert (c < length d)%nat as Hc by (apply Hlt; set_solver).
    destruct (IH (list_swap p c d) c) as [Hch Hlast].
    { apply NoDup_cons. set_solver. }
    { intros q Hq. rewrite length_list_swap. apply Hlt. set_solver. }
    assert (forall q, q ∈ l -> list_swap p c d !! q = d !! q) as Hother.
    { intros q Hq. apply lookup_swap_ne; set_solver. }
    split.
    + intros l1 q r l2 Heq. simpl. destruct l1 as [|x l1]; simplify_eq/=.
      * rewrite rot_ne by set_solver. by apply lookup_swap_l.
      * destruct l1 as [|y l1]; simplify_eq/=.
        { rewrite (Hch [] _ r l2 eq_refl). by apply lookup_swap_r. }
        rewrite (Hch (_ :: l1) q r l2 eq_refl). apply Hother. set_solver.
    + change (rot (list_swap p c d) c l !! c = d !! List.last (p :: l) c).
      rewrite Hlast. destruct l as [|y l].
      * simpl. by apply lookup_swap_r.
      * change (List.last (c :: y :: l) c) with (List.last (y :: l) c).
        change (List.last (p :: y :: l) c) with (List.last (y :: l) c).
        apply Hother, last_elem_of. done.
Qed.

Lemma mpath_last d n a c l : mpath d n a c l -> List.last (c :: l) c = a.
Proof.
  assert (forall l x y z, List.last (z :: l) x = List.last (z :: l) y) as Hd.
  { clear. induction l as [|w l IH]; intros x y z; [done|]. apply (IH x y w). }
  induction 1 as [|b c l Hp IH Hmin]; [done|].
  change (List.last (c :: b :: l) c) with (List.last (b :: l) c).
  by rewrite (Hd l c b b).
Qed.

Lemma mpath_pred d n a c l r : mpath d n a c l -> r ∈ l ->
  exists l1 m l2, c :: l = l1 ++ m :: r :: l2 /\ min_child d n r m.
Proof.
  induction 1 as [|b c l Hp IH Hmin]; intros Hr; [by apply elem_of_nil in Hr|].
  apply elem_of_cons in Hr as [->|Hr].
  - by exists [], c, l.
  - destruct (IH Hr) as (l1 & m & l2 & Heq & Hm).
    exists (c :: l1), m, l2. rewrite Heq. done.
Qed.

Lemma mpath_par d n a c l z : mpath d n a c l -> z ∈ c :: l -> z <> a ->
  exists l1 l2, c :: l = l1 ++ z :: par z :: l2.
Proof.
  induction 1 as [|b c l Hp IH (_ & Hpar & _)]; intros Hz Hne; [set_solver|].
  apply elem_of_cons in Hz as [->|Hz].
  - exists [], l. by rewrite Hpar.
  - destruct (IH Hz Hne) as (l1 & l2 & Heq). exists (c :: l1), l2. by rewrite Heq.
Qed.

Section sift.
Context (d : list A) (n lo a c : nat) (l : list nat).
Context (Hn : (n <= length d)%nat) (Hcn : (c < n)%nat).
Context (Hpath : mpath d n a c l) (Hhole : heap_hole lo a d n).
Context (Hup : c = a \/ rel d c a).
Context (Hdown : forall j, (0 < j < n)%nat -> par j = c -> rel d a j).

Local Lemma rot_facts :
  (forall l1 q r l2, c :: l = l1 ++ q :: r :: l2 -> rot d c l !! r = d !! q) /\
  rot d c l !! c = d !! a.
Proof.
  destruct (mpath_lt _ _ _ _ _ Hpath) as (_ & Hin & Hnd).
  pose proof (mpath_last _ _ _ _ _ Hpath) as Hlast.
  destruct (rot_chain l d c Hnd) as [H1 H2]; [|by rewrite <- Hlast].
  intros q [->|Hq]%elem_of_cons; [lia|]. specialize (Hin q Hq). lia.
Qed.

Local Lemma rot_at r : r ∈ l ->
  exists m, min_child d n r m /\ rot d c l !! r = d !! m.
Proof.
  intros Hr. destruct (mpath_pred _ _ _ _ _ _ Hpath Hr) as (l1 & m & l2 & Heq & Hm).
  exists m. split; [done|]. by apply (proj1 rot_facts l1 m r l2).
Qed.

(** The value now at [j]: the element moved up to a path node keeps it below
    its parent. *)
Local Lemma rot_path j : (0 < j < n)%nat -> (lo <= par j)%nat -> j ∈ c :: l ->
  rel (rot d c l) (par j) j.
Proof.
  intros Hj Hlo Hin. destruct (mpath_lt _ _ _ _ _ Hpath) as (Hac & Hlt & _).
  pose proof (par_lt j ltac:(lia)) as Hpj. destruct Hhole as [Hh1 Hh2].
  destruct (decide (j = a)) as [->|Hne].
  - assert (rot d c l !! par a = d !! par a) as Hq.
    { apply rot_ne. intros [?|Hq]%elem_of_cons; [lia|]. specialize (Hlt _ Hq). lia. }
    apply elem_of_cons in Hin as [Hc|Hin].
    + apply (rel_proper d _ (par a) _ a).
      * done.
      * pose proof (proj2 rot_facts). by congruence.
      * apply Hh1; [done..|lia].
    + destruct (rot_at a Hin) as (m & (Hm & Hpm & _) & Hval).
      apply (rel_proper d _ (par a) _ m); [done..|].
      apply Hh2; [lia|done|lia|done].
  - destruct (mpath_par _ _ _ _ _ _ Hpath Hin Hne) as (l1 & l2 & Heq).
    pose proof (proj1 rot_facts _ _ _ _ Heq) as Hq.
    apply elem_of_cons in Hin as [->|Hin].
    + apply (rel_proper d _ c _ a); [done|apply rot_facts|]. by destruct Hup.
    + destruct (rot_at j Hin) as (m & (Hm & Hpm & _) & Hval).
      apply (rel_proper d _ j _ m); [done..|]. rewrite <- Hpm at 1.
      apply Hh1; [lia| |lia]. specialize (Hlt j Hin). rewrite Hpm. lia.
Qed.

Lemma rot_heap : heap_from lo (rot d c l) n.
Proof.
  intros j Hj Hlo. destruct (decide (j ∈ c :: l)) as [Hin|Hnin].
  { by apply rot_path. }
  assert (rot d c l !! j = d !! j) as Hjv by (by apply rot_ne).
  destruct (decide (par j ∈ c :: l)) as [Hq|Hq].
  - apply elem_of_cons in Hq as [Hq|Hq].
    + apply (rel_proper d _ a _ j); [|done|by apply Hdown].
      rewrite Hq. apply rot_facts.
    + destruct (rot_at _ Hq) as (m & (Hm & Hpm & Hmin) & Hval).
      apply (rel_proper d _ m _ j); [done..|]. by apply Hmin.
  - apply (rel_proper d _ (par j) _ j); [by apply rot_ne|done|].
    apply Hhole; [done..|]. intros Heq. apply Hq. rewrite Heq.
    rewrite <- (mpath_last _ _ _ _ _ Hpath). by apply last_elem_of.
Qed.
End sift.
End spec.

(** ** The byte-offset loops compute the index-level ones *)

Section offsets.
Context {A : Type} (less : A -> A -> bool) `{!StrictWeak less} (es : Z).
Context (Hes : 0 < es < 2 ^ 32).
Implicit Types (d : list A) (n i j k a b c : nat) (l : list nat).

(** Byte offsets into the array, and twice as far, do not wrap. *)
Definition fits d : Prop := 2 * (Z.of_nat (length d) + 1) * es < 2 ^ 64.

Definition off i : Z := Z.of_nat i * es.

Lemma off_inj i j : off i = off j -> i = j.
Proof. unfold off. nia. Qed.

Lemma off_eqb i j : (off i =? off j) = bool_decide (i = j).
Proof.
  case_bool_decide as H; [subst; apply Z.eqb_refl|].
  apply Z.eqb_neq. intros ?%off_inj. done.
Qed.

Lemma off_eqb_0 i : (off i =? 0) = bool_decide (i = 0%nat).
Proof. apply (off_eqb i 0). Qed.

Lemma u64_off d i : fits d -> (i <= 2 * length d + 2)%nat -> u64 (off i) = off i.
Proof. unfold fits, off. intros. apply u64_small. nia. Qed.

Lemma elem_off d i : elem es d (off i) = d !! i.
Proof.
  unfold elem, off. rewrite Z.mod_mul, Z.div_mul by lia. by rewrite Nat2Z.id.
Qed.

Lemma set_elem_off d i x : (i < length d)%nat -> set_elem es d (off i) x = Some (<[i := x]> d).
Proof.
  intros Hi. unfold set_elem. rewrite elem_off.
  destruct (lookup_lt_is_Some_2 d i Hi) as [y ->]. simpl.
  unfold off. rewrite Z.div_mul by lia. by rewrite Nat2Z.id.
Qed.

Lemma do_swap_off d i j : (i < length d)%nat -> (j < length d)%nat ->
  do_swap es d (off i) (off j) = Some (list_swap i j d).
Proof.
  intros Hi Hj. unfold do_swap, list_swap. rewrite !elem_off.
  destruct (lookup_lt_is_Some_2 d i Hi) as [x Hx].
  destruct (lookup_lt_is_Some_2 d j Hj) as [y Hy]. rewrite Hx, Hy. simpl.
  rewrite set_elem_off by done. simpl.
  rewrite set_elem_off by (by rewrite length_insert). f_equal.
  destruct (decide (i = j)) as [->|Hne].
  - rewrite !list_insert_insert_eq. congruence.
  - by apply list_insert_insert_ne.
Qed.

Lemma parent_off d i : fits d -> (0 < i <= length d)%nat ->
  parent (off i) (u32 (lsbit_of es)) es = off (par i).
Proof.
  unfold fits, off, par. intros Hf Hi. rewrite parent_offset by nia.
  f_equal. dlia.
Qed.

Lemma sift_path_spec d n a l fuel : forall b,
  fits d -> (n <= length d)%nat -> (b < n)%nat -> (n - b < fuel)%nat ->
  mpath less d n a b l ->
  exists b' l', sift_path less es fuel d (off n) (off b)
                  = Some (off b', off (2 * b' + 1), off (2 * b' + 2)) /\
    mpath less d n a b' l' /\ (b' < n <= 2 * b' + 2)%nat.
Proof.
  revert l. induction fuel as [|fuel IH]; intros l b Hf Hn Hb Hfuel Hp; [lia|].
  simpl. replace (2 * off b + es) with (off (2 * b + 1)) by (unfold off; lia).
  rewrite (u64_off d) by (done || lia).
  replace (off (2 * b + 1) + es) with (off (2 * b + 2)) by (unfold off; lia).
  rewrite (u64_off d) by (done || lia).
  destruct (Z.ltb_spec (off (2 * b + 2)) (off n)) as [Hlt|Hge].
  - assert (2 * b + 2 < n)%nat as Hd by (unfold off in Hlt; nia).
    rewrite !elem_off.
    destruct (lookup_lt_is_Some_2 d (2 * b + 1) ltac:(lia)) as [x Hx].
    destruct (lookup_lt_is_Some_2 d (2 * b + 2) ltac:(lia)) as [y Hy].
    rewrite Hx, Hy. cbn [mbind option_bind].
    assert (forall k, (0 < k < n)%nat -> par k = b -> k = 2 * b + 1 \/ k = 2 * b + 2)%nat
      as Hch by (intros; by apply par_children; [lia|]).
    destruct (less x y) eqn:Hxy.
    + apply (IH (b :: l)); [done|done|lia|lia|]. constructor; [done|].
      split; [lia|]. split; [unfold par; dlia|]. intros k Hk Hpk.
      destruct (Hch k Hk Hpk) as [->| ->]; [by apply rel_refl|].
      intros x' y' ??. simplify_eq. by apply less_asym.
    + apply (IH (b :: l)); [done|done|lia|lia|]. constructor; [done|].
      split; [lia|]. split; [unfold par; dlia|]. intros k Hk Hpk.
      destruct (Hch k Hk Hpk) as [->| ->]; [|by apply rel_refl].
      intros x' y' ??. by simplify_eq.
  - exists b, l. split; [done|]. split; [done|]. unfold off in Hge. nia.
Qed.

(** [j] ranges over the children of [c]: all come after the element at [a]. *)
Definition above d n a c : Prop :=
  forall j, (0 < j < n)%nat -> par j = c -> rel less d a j.

Lemma sift_back_spec d n a fuel : forall b l,
  fits d -> (n <= length d)%nat -> (b < n)%nat -> (b - a < fuel)%nat ->
  mpath less d n a b l -> above d n a b ->
  exists c l', sift_back less es fuel (lsbit_of es) d (off a) (off b) = Some (off c) /\
    mpath less d n a c l' /\ (c < n)%nat /\ above d n a c /\
    (c = a \/ rel less d c a).
Proof.
  induction fuel as [|fuel IH]; intros b l Hf Hn Hb Hfuel Hp Hab; [lia|].
  simpl. rewrite off_eqb. case_bool_decide as Hba.
  { subst. exists a, l. naive_solver. }
  rewrite !elem_off.
  destruct (mpath_lt _ _ _ _ _ _ Hp) as (Hle & _ & _).
  destruct (lookup_lt_is_Some_2 d a ltac:(lia)) as [x Hx].
  destruct (lookup_lt_is_Some_2 d b ltac:(lia)) as [y Hy].
  rewrite Hx, Hy. simpl. destruct (less x y) eqn:Hxy.
  - inversion Hp as [|p ? l' Hp' (? & Hpar & Hmin)]; [done|]; subst.
    rewrite (parent_off d) by (done || lia).
    pose proof (par_lt b ltac:(lia)).
    destruct (mpath_lt _ _ _ _ _ _ Hp') as (Hle' & _ & _).
    apply (IH _ l'); [done|done|lia|lia|done|].
    intros j Hj Hpj. apply (rel_trans less d a b j); [lia| |by apply Hmin].
    intros x' y' ??. simplify_eq. by apply less_asym.
  - exists b, l. do 4 (split; [done|]). right.
    intros x' y' ??. by simplify_eq.
Qed.

Lemma sift_shift_spec n a c l fuel : forall d b,
  fits d -> (c < n <= length d)%nat -> (b <= c)%nat -> (b - a < fuel)%nat ->
  forall d0, mpath less d0 n a b l ->
  sift_shift es fuel (lsbit_of es) d (off a) (off b) (off c) = Some (rot d c l).
Proof.
  revert l. induction fuel as [|fuel IH]; intros l d b Hf Hn Hbc Hfuel d0 Hp; [lia|].
  simpl. rewrite off_eqb. destruct (mpath_lt _ _ _ _ _ _ Hp) as (Hle & _ & _).
  inversion Hp as [|p ? l' Hp' (? & Hpar & Hmin)]; subst.
  { by rewrite bool_decide_true. }
  destruct (mpath_lt _ _ _ _ _ _ Hp') as (Hle' & _ & _).
  pose proof (par_lt b ltac:(lia)). rewrite bool_decide_false by lia.
  rewrite (parent_off d) by (done || lia).
  rewrite do_swap_off by lia. simpl.
  apply (IH l') with d0; rewrite ?length_list_swap; try done; try lia.
  unfold fits in *. by rewrite length_list_swap.
Qed.

Lemma leaf_above d n a c : (n <= c + 1)%nat \/ (n <= 2 * c + 1)%nat -> above d n a c.
Proof.
  intros Hc j Hj Hpj. pose proof (par_lt j ltac:(lia)).
  destruct (par_children j c); [lia|done|lia|lia].
Qed.

(** The three loops together, from position [a] of an array of [n] elements:
    a rotation along a path that ends where the element belongs. *)
Lemma sift_down_loops d n a :
  fits d -> (a < n <= length d)%nat ->
  exists c l, mpath less d n a c l /\ (c < n)%nat /\ above d n a c /\
    (c = a \/ rel less d c a) /\
    (b ← (('(b, c, e) ← sift_path less es (S n) d (off n) (off a);
           Some (if e =? off n then c else b)));
     b ← sift_back less es (S n) (lsbit_of es) d (off a) b;
     sift_shift es (S n) (lsbit_of es) d (off a) b b) = Some (rot d c l).
Proof.
  intros Hf Hn.
  destruct (sift_path_spec d n a [] (S n) a) as (b & l & -> & Hp & Hb);
    [done|lia|lia|lia|constructor|]. cbn [mbind option_bind].
  rewrite off_eqb.
  assert (exists b' l', (if bool_decide (2 * b + 2 = n)%nat then off (2 * b + 1) else off b)
      = off b' /\ mpath less d n a b' l' /\ (b' < n)%nat /\ above d n a b')
    as (b' & l' & -> & Hp' & Hb' & Hab).
  { case_bool_decide as Heq.
    - exists (2 * b + 1)%nat, (b :: l). split; [done|]. split.
      + constructor; [done|]. split; [lia|]. split; [unfold par; dlia|].
        intros k Hk Hpk. destruct (par_children k b) as [->| ->]; [lia|done| |lia].
        by apply rel_refl.
      + split; [lia|]. apply leaf_above. lia.
    - exists b, l. split; [done|]. split; [done|]. split; [lia|].
      apply leaf_above. lia. }
  destruct (sift_back_spec d n a (S n) b' l') as (c & lc & Hback & Hpc & Hc & Habc & Hup);
    [done|lia|lia|lia|done|done|].
  exists c, lc. do 4 (split; [done|]). cbn [mbind option_bind]. rewrite Hback.
  cbn [mbind option_bind]. apply (sift_shift_spec n a c lc (S n) d c) with d; [done|lia|lia|lia|done].
Qed.
End offsets.

(** ** Heap operations *)

Lemma take_Permutation {A} (d d' : list A) n :
  d' ≡ₚ d -> (forall i, (n <= i)%nat -> d' !! i = d !! i) -> take n d' ≡ₚ take n d.
Proof.
  intros Hp Hi. assert (drop n d' = drop n d) as Hd.
  { apply list_eq. intros i. rewrite !lookup_drop. apply Hi. lia. }
  rewrite <- (take_drop n d), <- (take_drop n d') in Hp. rewrite Hd in Hp.
  by apply Permutation_app_inv_r in Hp.
Qed.

Section heap.
Context {A : Type} (less : A -> A -> bool) `{!StrictWeak less} (es : Z).
Context (Hes : 0 < es < 2 ^ 32).
Implicit Types (h : min_heap A) (d : list A).

(** The elements in the heap. *)
Definition elems h : list A := take (Z.to_nat (nr h)) (data h).

Record wf h : Prop := {
  wf_nr : 0 <= nr h <= size h;
  wf_size : Z.of_nat (length (data h)) = size h;
  wf_fits : fits es (data h)
}.

Definition ordered h : Prop := is_heap less (data h) (Z.to_nat (nr h)).

(** A well-formed heap of the same capacity holding the same elements. *)
Definition same_elems h h' : Prop :=
  wf h' /\ nr h' = nr h /\ size h' = size h /\ elems h' ≡ₚ elems h.

(** [sift_down] repairs a hole: if only the element at [pos] may be after its
    children, the result is ordered from [lo] up and holds the same elements. *)
Lemma sift_down_correct h (pos lo : nat) :
  wf h -> Z.of_nat pos < nr h -> heap_hole less lo pos (data h) (Z.to_nat (nr h)) ->
  exists h', min_heap_sift_down less es h (Z.of_nat pos) = Some h' /\
    same_elems h h' /\ heap_from less lo (data h') (Z.to_nat (nr h)).
Proof.
  intros [Hnr Hsz Hfit] Hpos Hhole. set (n := Z.to_nat (nr h)) in *.
  destruct (sift_down_loops less es Hes (data h) n pos) as (c & l & Hp & Hc & Hab & Hup & Heq);
    [done|lia|].
  exists (MinHeap (nr h) (size h) (rot (data h) c l)). split; [|split].
  - unfold min_heap_sift_down. fold n.
    replace (nr h * es) with (off es n) by (unfold off; lia).
    change (Z.of_nat pos * es) with (off es pos).
    rewrite !(u64_off es Hes (data h)) by (done || lia).
    destruct (sift_path less es (S n) (data h) (off es n) (off es pos)) as [[[b c'] e]|];
      cbn [mbind option_bind] in *; [|done].
    destruct (sift_back _ _ _ _ _ _ _); cbn [mbind option_bind] in *; [|done].
    by rewrite Heq.
  - split.
    { split; simpl; [done|by rewrite length_rot|]. unfold fits. by rewrite length_rot. }
    split; [done|]. split; [done|]. unfold elems. simpl.
    apply take_Permutation; [apply rot_Permutation|]. intros i Hi. apply (rot_ne less).
    destruct (mpath_lt _ _ _ _ _ _ Hp) as (_ & Hlt & _).
    intros [->|Hin]%elem_of_cons; [lia|]. specialize (Hlt i Hin). lia.
  - simpl. apply (rot_heap less) with (a := pos); [lia|done..].
Qed.

Lemma same_elems_refl h : wf h -> same_elems h h.
Proof. done. Qed.

Lemma same_elems_trans h1 h2 h3 : same_elems h1 h2 -> same_elems h2 h3 -> same_elems h1 h3.
Proof.
  intros (_ & Hn & Hs & Hp) (Hwf & Hn' & Hs' & Hp').
  split; [done|]. split; [congruence|]. split; [congruence|]. by rewrite Hp'.
Qed.

Lemma heapify_loop_correct fuel : forall h (i : nat),
  wf h -> (i < fuel)%nat -> Z.of_nat i <= nr h ->
  heap_from less i (data h) (Z.to_nat (nr h)) ->
  exists h', heapify_loop less es fuel h (Z.of_nat i - 1) = Some h' /\
    same_elems h h' /\ ordered h'.
Proof.
  induction fuel as [|fuel IH]; intros h i Hwf Hi Hnr Hheap; [lia|].
  cbn [heapify_loop]. destruct (Z.leb_spec 0 (Z.of_nat i - 1)).
  - destruct (sift_down_correct h (i - 1) (i - 1)) as (h1 & Hsd & Hsame & Hh1).
    + done.
    + lia.
    + split.
      * intros j Hj Hlo Hne. apply Hheap; [done|lia].
      * intros j Hj Hpj Hk Hlo. pose proof (par_lt (i - 1) Hk). lia.
    + replace (Z.of_nat (i - 1)) with (Z.of_nat i - 1) in Hsd by lia. rewrite Hsd.
      cbn [mbind option_bind]. destruct Hsame as (Hwf1 & Hn1 & Hrest).
      destruct (IH h1 (i - 1)%nat) as (h2 & Hl & Hs2 & Ho); [done|lia|lia| |].
      { by rewrite Hn1. }
      exists h2. replace (Z.of_nat (i - 1) - 1) with (Z.of_nat i - 1 - 1) in Hl by lia.
      split; [done|]. split; [|done]. by eapply same_elems_trans.
  - exists h. split; [done|]. split; [by apply same_elems_refl|].
    replace i with 0%nat in Hheap by lia. done.
Qed.

(** Floyd's heapification orders any well-formed heap. *)
Lemma heapify_all_ordered h :
  wf h -> exists h', min_heapify_all less es h = Some h' /\ same_elems h h' /\ ordered h'.
Proof.
  intros Hwf. pose proof (wf_nr h Hwf). unfold min_heapify_all.
  set (i := (Z.to_nat (nr h) / 2)%nat).
  replace (Z.quot (nr h) 2 - 1) with (Z.of_nat i - 1).
  - apply heapify_loop_correct; [done|unfold i; dlia|unfold i; dlia|].
    intros j Hj Hlo. unfold i, par in Hlo. dlia.
  - rewrite Z.quot_div_nonneg by lia. unfold i. dlia.
Qed.

Lemma root_min d n j : (n <= length d)%nat -> is_heap less d n -> (j < n)%nat -> rel less d 0 j.
Proof.
  intros Hn Hh. induction (lt_wf j) as [j _ IH]. intros Hj.
  destruct (decide (j = 0%nat)) as [->|Hj0]; [by apply rel_refl|].
  pose proof (par_lt j ltac:(lia)).
  apply (rel_trans less d 0 (par j) j); [lia|apply IH; lia|apply Hh; lia].
Qed.

Lemma elem_0 d : elem es d 0 = d !! 0%nat.
Proof. apply (elem_off es Hes d 0). Qed.

Lemma set_elem_0 d x : (0 < length d)%nat -> set_elem es d 0 x = Some (<[0%nat := x]> d).
Proof. apply (set_elem_off es Hes d 0). Qed.

(** The element at the root comes first. *)
Lemma peek_min h : wf h -> ordered h -> 0 < nr h ->
  exists x, min_heap_peek es h = Some x /\ data h !! 0%nat = Some x /\
    forall y, y ∈ elems h -> less y x = false.
Proof.
  intros [Hnr Hsz Hf] Ho Hpos. unfold min_heap_peek.
  destruct (Z.eqb_spec (nr h) 0); [lia|]. rewrite elem_0.
  destruct (lookup_lt_is_Some_2 (data h) 0 ltac:(lia)) as [x Hx].
  exists x. split; [done|]. split; [done|]. intros y Hy.
  apply list_elem_of_lookup in Hy as [j Hj]. unfold elems in Hj.
  apply lookup_take_Some in Hj as [Hj Hlt].
  eapply root_min; [|exact Ho|exact Hlt|exact Hx|exact Hj]. lia.
Qed.

Lemma sift_down_root h :
  wf h -> heap_hole less 0 0 (data h) (Z.to_nat (nr h)) ->
  exists h', min_heap_sift_down less es h 0 = Some h' /\ same_elems h h' /\ ordered h'.
Proof.
  intros Hwf Hhole. destruct (decide (nr h = 0)) as [H0|H0].
  - exists h. split; [|split; [done|]].
    + unfold min_heap_sift_down. rewrite H0, Z.mul_0_l. cbn [sift_path Z.to_nat].
      change (u64 0) with 0. rewrite Z.mul_0_r, Z.add_0_l.
      rewrite (u64_small es) by lia. rewrite (u64_small (es + es)) by lia.
      destruct (Z.ltb_spec (es + es) 0); [lia|]. cbn [mbind option_bind].
      destruct (Z.eqb_spec (es + es) 0); [lia|]. simpl. by destruct h; simpl in *; subst.
    + intros j Hj. rewrite H0 in Hj. lia.
  - pose proof (wf_nr h Hwf).
    destruct (sift_down_correct h 0 0) as (h' & Heq & Hsame & Ho); [done|lia|done|].
    exists h'. split; [done|]. split; [done|]. unfold ordered, is_heap.
    destruct Hsame as (_ & -> & _). done.
Qed.

(** Ordered except that [k] may come before its parent. *)
Definition heap_up (k : nat) d (n : nat) : Prop :=
  (forall j, (0 < j < n)%nat -> j <> k -> rel less d (par j) j) /\
  (forall j, (0 < j < n)%nat -> par j = k -> (0 < k)%nat -> rel less d (par k) j).

(** One exchange of [sift_up] moves the exception to the parent. *)
Lemma heap_up_swap d n a :
  (0 < a < n)%nat -> (n <= length d)%nat -> heap_up a d n -> rel less d a (par a) ->
  heap_up (par a) (list_swap a (par a) d) n.
Proof.
  intros Ha Hn [H1 H2] Hrel. pose proof (par_lt a ltac:(lia)) as Hpa.
  assert (list_swap a (par a) d !! a = d !! par a) as Va by (apply lookup_swap_l; lia).
  assert (list_swap a (par a) d !! par a = d !! a) as Vp by (apply lookup_swap_r; lia).
  assert (forall k, k <> a -> k <> par a -> list_swap a (par a) d !! k = d !! k) as Vo
    by (intros; by apply lookup_swap_ne).
  split.
  - intros j Hj Hne. destruct (decide (j = a)) as [->|Hja].
    { by apply (rel_proper less d _ a _ (par a)). }
    destruct (decide (par j = par a)) as [Hs|Hs].
    { rewrite Hs. apply (rel_proper less d _ a _ j); [done|by apply Vo|].
      apply (rel_trans less d a (par a) j); [lia|done|]. rewrite <- Hs. by apply H1. }
    destruct (decide (par j = a)) as [Hc|Hc].
    { rewrite Hc. apply (rel_proper less d _ (par a) _ j); [done|by apply Vo|].
      apply H2; [done|done|lia]. }
    apply (rel_proper less d _ (par j) _ j); [by apply Vo..|by apply H1].
  - intros j Hj Hpj Hpos. pose proof (par_lt (par a) Hpos).
    assert (rel less d (par (par a)) (par a)) as Hpp by (apply H1; lia).
    destruct (decide (j = a)) as [->|Hja].
    + apply (rel_proper less d _ (par (par a)) _ (par a)); [apply Vo; lia|done..].
    + pose proof (par_lt j ltac:(lia)).
      apply (rel_proper less d _ (par (par a)) _ j); [apply Vo; lia|apply Vo; lia|].
      apply (rel_trans less d _ (par a) j); [lia|done|]. rewrite <- Hpj. by apply H1.
Qed.

Lemma sift_up_loop_correct fuel : forall d n a,
  fits es d -> (a < n <= length d)%nat -> (a < fuel)%nat -> heap_up a d n ->
  exists d', sift_up_loop less es fuel (lsbit_of es) d (off es a) = Some d' /\
    d' ≡ₚ d /\ (forall i, (n <= i)%nat -> d' !! i = d !! i) /\ is_heap less d' n.
Proof.
  induction fuel as [|fuel IH]; intros d n a Hf Ha Hfuel Hup; [lia|].
  cbn [sift_up_loop]. rewrite off_eqb_0 by done. case_bool_decide as Ha0.
  { subst a. exists d. do 3 (split; [done|]). intros j Hj _. apply Hup; [done|lia]. }
  rewrite (parent_off es Hes d) by (done || lia). pose proof (par_lt a ltac:(lia)).
  rewrite !elem_off by done.
  destruct (lookup_lt_is_Some_2 d (par a) ltac:(lia)) as [x Hx].
  destruct (lookup_lt_is_Some_2 d a ltac:(lia)) as [y Hy].
  rewrite Hx, Hy. cbn [mbind option_bind]. destruct (less x y) eqn:Hxy.
  - exists d. do 3 (split; [done|]). intros j Hj _. destruct (decide (j = a)) as [->|].
    + intros x' y' ??. simplify_eq. by apply less_asym.
    + by apply Hup.
  - rewrite do_swap_off by (done || lia). cbn [mbind option_bind].
    destruct (IH (list_swap a (par a) d) n (par a)) as (d' & Heq & Hp & Ho & Hh).
    + unfold fits in *. by rewrite length_list_swap.
    + rewrite length_list_swap. lia.
    + lia.
    + apply heap_up_swap; [lia|lia|done|]. intros x' y' ??. by simplify_eq.
    + exists d'. split; [done|]. split; [by rewrite Hp, list_swap_Permutation|].
      split; [|done]. intros i Hi. rewrite Ho by done. apply lookup_swap_ne; lia.
Qed.

Lemma sift_up_correct h (idx : nat) :
  wf h -> Z.of_nat idx < nr h -> heap_up idx (data h) (Z.to_nat (nr h)) ->
  exists h', min_heap_sift_up less es h (Z.of_nat idx) = Some h' /\
    same_elems h h' /\ ordered h'.
Proof.
  intros [Hnr Hsz Hfit] Hidx Hup.
  destruct (sift_up_loop_correct (S (Z.to_nat (nr h))) (data h) (Z.to_nat (nr h)) idx)
    as (d' & Heq & Hp & Ho & Hh); [done|lia|lia|done|].
  exists (MinHeap (nr h) (size h) d'). split; [|split; [|done]].
  - unfold min_heap_sift_up. change (Z.of_nat idx * es) with (off es idx).
    rewrite (u64_off es Hes (data h)) by (done || lia). by rewrite Heq.
  - split; [|split; [done|split; [done|by apply take_Permutation]]].
    split; simpl; [done|by rewrite Hp|]. unfold fits. by rewrite Hp.
Qed.

Lemma wf_insert h i x : wf h -> wf (MinHeap (nr h) (size h) (<[i := x]> (data h))).
Proof.
  intros [Hnr Hsz Hf]. split; simpl; [done|by rewrite length_insert|].
  unfold fits. by rewrite length_insert.
Qed.

Lemma hole_0_insert d n x : is_heap less d n -> heap_hole less 0 0 (<[0%nat := x]> d) n.
Proof.
  intros Hh. split; [|intros; lia]. intros j Hj _ Hne.
  apply (rel_proper less d _ (par j) _ j); [apply list_lookup_insert_ne; lia..|].
  apply Hh; [done|lia].
Qed.

Lemma is_heap_shorter d n n' : is_heap less d n -> (n' <= n)%nat -> is_heap less d n'.
Proof. intros Hh Hn j Hj. apply Hh. lia. Qed.

Lemma elems_push d n x :
  (n < length d)%nat -> take (S n) (<[n := x]> d) ≡ₚ x :: take n d.
Proof.
  intros Hn. pose proof (list_lookup_insert_eq d n x Hn) as Hx.
  rewrite (take_S_r _ _ _ Hx), take_insert_ge by done. by rewrite Permutation_app_comm.
Qed.

Lemma elems_replace_0 d n x y :
  d !! 0%nat = Some x -> (0 < n)%nat -> x :: take n (<[0%nat := y]> d) ≡ₚ y :: take n d.
Proof.
  intros Hx Hn. destruct d as [|x' d]; [done|]. simplify_eq/=.
  destruct n; [lia|]. simpl. apply Permutation_swap.
Qed.

(** Push on a heap that is not full. *)
Lemma push_spec h x :
  wf h -> ordered h -> nr h < size h ->
  exists h', min_heap_push less es h x = Some (true, h') /\ wf h' /\ ordered h' /\
    nr h' = nr h + 1 /\ size h' = size h /\ elems h' ≡ₚ x :: elems h.
Proof.
  intros Hwf Ho Hlt. pose proof Hwf as [Hnr Hsz Hf]. unfold min_heap_push.
  destruct (Z.leb_spec (size h) (nr h)); [lia|]. set (n := Z.to_nat (nr h)).
  replace (nr h * es) with (off es n) by (unfold off; lia).
  rewrite set_elem_off by (done || lia). cbn [mbind option_bind].
  set (h1 := MinHeap (nr h + 1) (size h) (<[n := x]> (data h))).
  assert (wf h1) as Hwf1.
  { split; simpl; [lia|by rewrite length_insert|]. unfold fits. by rewrite length_insert. }
  destruct (sift_up_correct h1 n) as (h' & Heq & (Hwf' & Hn' & Hs' & Hp') & Ho');
    [done|simpl; lia| |].
  - replace (Z.to_nat (nr h1)) with (S n) by (simpl; lia). split.
    + intros j Hj Hne. pose proof (par_lt j ltac:(lia)).
      apply (rel_proper less (data h) _ (par j) _ j);
        [apply list_lookup_insert_ne; lia..|apply Ho; lia].
    + intros j Hj Hpj. pose proof (par_lt j ltac:(lia)). lia.
  - exists h'. replace (Z.of_nat n) with (nr h) in Heq by lia. rewrite Heq.
    split; [done|]. do 2 (split; [done|]). split; [done|]. split; [done|].
    rewrite Hp'. unfold elems. simpl. replace (Z.to_nat (nr h + 1)) with (S n) by lia.
    apply elems_push. lia.
Qed.

(** Pop on a non-empty heap: the root leaves. *)
Lemma pop_spec h :
  wf h -> ordered h -> 0 < nr h ->
  exists x h', min_heap_peek es h = Some x /\ min_heap_pop less es h = Some (true, h') /\
    wf h' /\ ordered h' /\ nr h' = nr h - 1 /\ size h' = size h /\
    elems h ≡ₚ x :: elems h' /\ (forall y, y ∈ elems h -> less y x = false).
Proof.
  intros Hwf Ho Hpos. pose proof Hwf as [Hnr Hsz Hf].
  destruct (peek_min h Hwf Ho Hpos) as (x & Hpeek & Hx & Hmin).
  unfold min_heap_pop. destruct (Z.leb_spec (nr h) 0); [lia|].
  set (n := Z.to_nat (nr h - 1)).
  replace ((nr h - 1) * es) with (off es n) by (unfold off, n; rewrite Z2Nat.id by lia; done).
  rewrite elem_off by done.
  destruct (lookup_lt_is_Some_2 (data h) n ltac:(lia)) as [y Hy]. rewrite Hy.
  cbn [mbind option_bind]. rewrite set_elem_0 by lia. cbn [mbind option_bind].
  set (h1 := MinHeap (nr h - 1) (size h) (<[0%nat := y]> (data h))).
  destruct (sift_down_root h1) as (h' & Heq & (Hwf' & Hn' & Hs' & Hp') & Ho').
  { apply (wf_insert (MinHeap (nr h - 1) (size h) (data h))). split; simpl; [lia|done..]. }
  { apply hole_0_insert, (is_heap_shorter _ _ _ Ho). simpl. lia. }
  exists x, h'. rewrite Heq. do 2 (split; [done|]). split; [done|].
  do 3 (split; [done|]). split; [|done]. rewrite Hp'. unfold elems. simpl.
  fold n. replace (Z.to_nat (nr h)) with (S n) by (unfold n; lia).
  rewrite (take_S_r _ _ _ Hy), Permutation_app_comm. simpl.
  destruct (decide (n = 0%nat)) as [Hn|Hn].
  - rewrite Hn in *. simpl. simplify_eq. done.
  - rewrite <- (elems_replace_0 _ _ x y) by (done || lia). done.
Qed.

(** Replacing the root and sifting it down. *)
Lemma pop_push_spec h x :
  wf h -> ordered h -> 0 < nr h ->
  exists y h', min_heap_peek es h = Some y /\ min_heap_pop_push less es h x = Some h' /\
    wf h' /\ ordered h' /\ nr h' = nr h /\ y :: elems h' ≡ₚ x :: elems h.
Proof.
  intros Hwf Ho Hpos. pose proof Hwf as [Hnr Hsz Hf].
  destruct (peek_min h Hwf Ho Hpos) as (y & Hpeek & Hy & Hmin).
  unfold min_heap_pop_push. rewrite set_elem_0 by lia. cbn [mbind option_bind].
  destruct (sift_down_root (MinHeap (nr h) (size h) (<[0%nat := x]> (data h))))
    as (h' & Heq & (Hwf' & Hn' & Hs' & Hp') & Ho').
  { by apply wf_insert. }
  { by apply hole_0_insert. }
  exists y, h'. do 4 (split; [done|]). split; [done|]. rewrite Hp'.
  apply elems_replace_0; [done|simpl; lia].
Qed.

(** A changed key at the root of an ordered heap is repaired by [sift_down 0]:
    what the event loop of [order_process] does after reading a next event. *)
Lemma update_root_spec h x :
  wf h -> ordered h -> 0 < nr h ->
  exists h', min_heap_sift_down less es (MinHeap (nr h) (size h) (<[0%nat := x]> (data h))) 0
               = Some h' /\
    wf h' /\ ordered h' /\ nr h' = nr h /\ size h' = size h /\
    elems h' ≡ₚ take (Z.to_nat (nr h)) (<[0%nat := x]> (data h)).
Proof.
  intros Hwf Ho Hpos.
  destruct (sift_down_root (MinHeap (nr h) (size h) (<[0%nat := x]> (data h))))
    as (h' & Heq & (Hwf' & Hn' & Hs' & Hp') & Ho').
  { by apply wf_insert. }
  { by apply hole_0_insert. }
  exists h'. done.
Qed.

Lemma sift_up_stays h (k : nat) :
  wf h -> Z.of_nat k < nr h ->
  k = 0%nat \/ (exists x y, data h !! par k = Some x /\ data h !! k = Some y /\ less x y = true) ->
  min_heap_sift_up less es h (Z.of_nat k) = Some h.
Proof.
  intros [Hnr Hsz Hf] Hk Hstop. unfold min_heap_sift_up.
  change (Z.of_nat k * es) with (off es k).
  rewrite (u64_off es Hes (data h)) by (done || lia). cbn [sift_up_loop].
  rewrite off_eqb_0 by done. case_bool_decide as Hk0; [by destruct h|].
  destruct Hstop as [?|(x & y & Hx & Hy & Hless)]; [done|].
  rewrite (parent_off es Hes (data h)) by (done || lia).
  rewrite !elem_off by done. rewrite Hx, Hy. simpl. rewrite Hless. by destruct h.
Qed.

Lemma ordered_hole h (k : nat) :
  wf h -> ordered h -> heap_hole less 0 k (data h) (Z.to_nat (nr h)).
Proof.
  intros [Hnr Hsz Hf] Ho. split.
  - intros j Hj _ _. apply Ho; [done|lia].
  - intros j Hj Hpj Hk _. pose proof (par_lt j ltac:(lia)).
    apply (rel_trans less _ _ k); [lia|apply Ho; lia|]. rewrite <- Hpj. apply Ho; lia.
Qed.

(** Sifting up and then down from a position whose element was replaced. *)
Lemma sift_both h d0 (k : nat) :
  wf h -> Z.of_nat k < nr h -> is_heap less d0 (Z.to_nat (nr h)) ->
  (forall i, (i < Z.to_nat (nr h))%nat -> i <> k -> data h !! i = d0 !! i) ->
  (k < length d0)%nat ->
  exists h1 h2, min_heap_sift_up less es h (Z.of_nat k) = Some h1 /\
    min_heap_sift_down less es h1 (Z.of_nat k) = Some h2 /\ same_elems h h2 /\ ordered h2.
Proof.
  intros Hwf Hk H0 Hd Hk0. set (n := Z.to_nat (nr h)) in *.
  pose proof Hwf as [Hnr Hsz Hf].
  assert (forall j, (0 < j < n)%nat -> j <> k -> par j <> k -> rel less (data h) (par j) j)
    as Hother.
  { intros j Hj Hne Hpne. pose proof (par_lt j ltac:(lia)).
    apply (rel_proper less d0 _ (par j) _ j); [apply Hd; [lia|done]..|apply H0; lia]. }
  assert (forall j, (0 < j < n)%nat -> par j = k -> (0 < k)%nat ->
    rel less (data h) (par k) j) as Hgp.
  { intros j Hj Hpj Hkp. pose proof (par_lt j ltac:(lia)). pose proof (par_lt k Hkp).
    apply (rel_proper less d0 _ (par k) _ j); [apply Hd; lia..|].
    apply (rel_trans less _ _ k); [done|apply H0; lia|]. rewrite <- Hpj. apply H0; lia. }
  assert ((k = 0%nat \/ (exists x y, data h !! par k = Some x /\ data h !! k = Some y /\
     less x y = true)) \/ ((0 < k)%nat /\ rel less (data h) k (par k))) as [Hstop|[Hkp Hle]].
  { destruct (decide (k = 0%nat)) as [->|Hkp]; [by left; left|].
    pose proof (par_lt k ltac:(lia)).
    destruct (lookup_lt_is_Some_2 (data h) (par k) ltac:(lia)) as [x Hx].
    destruct (lookup_lt_is_Some_2 (data h) k ltac:(lia)) as [y Hy].
    destruct (less x y) eqn:Hxy; [left; right; eauto|right; split; [lia|]].
    intros x' y' ??. by simplify_eq. }
  - destruct (sift_down_correct h k 0) as (h2 & Hsd & Hsame & Hord); [done|done| |].
    + split; [|naive_solver]. intros j Hj _ Hpne. destruct (decide (j = k)) as [->|Hne].
      * destruct Hstop as [->|(x & y & Hx & Hy & Hless)]; [lia|].
        intros x' y' ??. simplify_eq. by apply less_asym.
      * by apply Hother.
    + exists h, h2. split; [by apply sift_up_stays|]. split; [done|]. split; [done|].
      unfold ordered. destruct Hsame as (_ & -> & _). done.
  - destruct (sift_up_correct h k) as (h1 & Hsu & Hs1 & Ho1); [done|done| |].
    + split; [|naive_solver]. intros j Hj Hne.
      destruct (decide (par j = k)) as [Hpj|Hpne]; [|by apply Hother].
      rewrite Hpj. pose proof (par_lt k Hkp).
      apply (rel_trans less _ k (par k) j); [lia|done|by apply Hgp].
    + destruct Hs1 as (Hwf1 & Hn1 & Hrest).
      destruct (sift_down_correct h1 k 0) as (h2 & Hsd & Hsame & Hord);
        [done|lia|by apply ordered_hole|].
      exists h1, h2. split; [done|]. split; [done|].
      split; [by eapply same_elems_trans|].
      unfold ordered. destruct Hsame as (_ & -> & _). done.
Qed.

Lemma elems_remove d n k x :
  (k < n)%nat -> (n < length d)%nat -> d !! k = Some x ->
  x :: take n (list_swap k n d) ≡ₚ take (S n) d.
Proof.
  intros Hk Hn Hx.
  assert (list_swap k n d !! n = Some x) as Hs by (rewrite lookup_swap_r by lia; done).
  rewrite Permutation_cons_append, <- (take_S_r _ _ _ Hs).
  apply take_Permutation; [apply list_swap_Permutation|].
  intros i Hi. apply lookup_swap_ne; lia.
Qed.

Lemma del_spec h (k : nat) :
  wf h -> ordered h -> Z.of_nat k < nr h ->
  exists x h', data h !! k = Some x /\ min_heap_del less es h (Z.of_nat k) = Some (true, h') /\
    wf h' /\ ordered h' /\ nr h' = nr h - 1 /\ elems h ≡ₚ x :: elems h'.
Proof.
  intros Hwf Ho Hk. pose proof Hwf as [Hnr Hsz Hf]. unfold min_heap_del.
  destruct (Z.leb_spec (nr h) 0); [lia|].
  destruct (lookup_lt_is_Some_2 (data h) k ltac:(lia)) as [x Hx]. exists x.
  set (n := Z.to_nat (nr h - 1)).
  assert (Z.to_nat (nr h) = S n) as Hn by lia.
  destruct (Z.eqb_spec (Z.of_nat k) (nr h - 1)) as [Heq|Hne].
  - exists (MinHeap (nr h - 1) (size h) (data h)). do 2 (split; [done|]).
    split; [split; simpl; [lia|done..]|].
    split; [apply (is_heap_shorter _ _ _ Ho); simpl; lia|]. split; [done|].
    unfold elems. simpl. rewrite Hn. fold n. replace k with n in Hx by lia.
    by rewrite (take_S_r _ _ _ Hx), Permutation_app_comm.
  - replace ((nr h - 1) * es) with (off es n)
      by (unfold off, n; rewrite Z2Nat.id by lia; done).
    change (Z.of_nat k * es) with (off es k). cbn [data size nr].
    rewrite do_swap_off by (done || lia). cbn [mbind option_bind].
    set (h1 := MinHeap (nr h - 1) (size h) (list_swap k n (data h))).
    destruct (sift_both h1 (data h) k) as (h2 & h3 & Hu & Hd & (Hwf3 & Hn3 & Hs3 & Hp3) & Ho3).
    + split; simpl; [lia|by rewrite length_list_swap|].
      unfold fits. by rewrite length_list_swap.
    + simpl. lia.
    + simpl. apply (is_heap_shorter _ _ _ Ho). lia.
    + simpl. intros i Hi Hik. apply lookup_swap_ne; [done|]. unfold n. lia.
    + lia.
    + exists h3. rewrite Hu. cbn [mbind option_bind]. rewrite Hd.
      do 2 (split; [done|]). do 2 (split; [done|]). split; [done|].
      rewrite Hp3. unfold elems. simpl. fold n. rewrite Hn. symmetry.
      apply elems_remove; [lia|lia|done].
Qed.
End heap.

(** The comparison may depend on a state: when only the root's key changed, the
    rest is still ordered, and all of it if the root is still a least element. *)
Lemma hole_root_key {A} (less less' : A -> A -> bool) d n i :
  is_heap less d n -> (n <= length d)%nat -> d !! 0%nat = Some i -> NoDup (take n d) ->
  (forall x y, x <> i -> y <> i -> less' x y = less x y) -> heap_hole less' 0 0 d n.
Proof.
  intros Hh Hn Hi Hnd Hsame. split; [|lia].
  assert (forall j x, (0 < j < n)%nat -> d !! j = Some x -> x <> i) as Hne.
  { intros j x Hj Hx ->. assert (0 = j)%nat; [|lia]. eapply (NoDup_lookup (take n d)); [done| |].
    - by rewrite lookup_take_lt by lia.
    - by rewrite lookup_take_lt by lia. }
  intros j Hj _ Hp x y Hx Hy. pose proof (par_lt j ltac:(lia)).
  rewrite Hsame; [apply (Hh j); done || lia|apply (Hne j); done || lia|apply (Hne (par j)); done || lia].
Qed.

Lemma ordered_root_key {A} (less less' : A -> A -> bool) d n i :
  is_heap less d n -> (n <= length d)%nat -> d !! 0%nat = Some i -> NoDup (take n d) ->
  (forall x y, x <> i -> y <> i -> less' x y = less x y) ->
  (forall y, y ∈ take n d -> less' y i = false) -> is_heap less' d n.
Proof.
  intros Hh Hn Hi Hnd Hsame Hmin j Hj Hlo. destruct (decide (par j = 0%nat)) as [Hp|Hp].
  - intros x y Hx Hy. rewrite Hp in Hx. assert (x = i) as -> by congruence.
    apply Hmin. apply list_elem_of_lookup. exists j. by rewrite lookup_take_lt by lia.
  - destruct (hole_root_key less less' d n i) as [H _]; try done. by apply H.
Qed.

(** A key makes a strict weak order. *)
#[export] Instance key_StrictWeak {A} (key : A -> Z) : StrictWeak (fun x y => key x <? key y).
Proof. split; intros; rewrite ?Z.ltb_ge, ?Z.ltb_lt in *; lia. Qed.

#[export] Instance ltb_StrictWeak : StrictWeak Z.ltb := key_StrictWeak id.

(** ** Properties

    The abstract heap is the multiset [elems]; an implementation state is good
    when it is well formed and heap ordered. *)

Definition good {A} (less : A -> A -> bool) (es : Z) (h : min_heap A) : Prop :=
  wf es h /\ ordered less h.

Section properties.
Context {A : Type} (less : A -> A -> bool) `{!StrictWeak less} (es : Z).
Context (Hes : 0 < es < 2 ^ 32).

(** C10: Popping refines removing a minimum of the multiset: on a non-empty heap the
    peeked element is a least one and is exactly what [min_heap_pop] removes;
    on an empty heap the call reports failure and changes nothing. *)
Theorem min_heap_pop_refines h :
  good less es h ->
  if nr h =? 0 then
    min_heap_peek es h = None /\ min_heap_pop less es h = Some (false, h)
  else exists x h', min_heap_peek es h = Some x /\ min_heap_pop less es h = Some (true, h') /\
    good less es h' /\ elems h ≡ₚ x :: elems h' /\ size h' = size h /\
    (forall y, y ∈ elems h -> less y x = false).
Proof.
  intros [Hwf Ho]. pose proof (wf_nr es h Hwf). destruct (Z.eqb_spec (nr h) 0) as [E|E].
  - unfold min_heap_peek, min_heap_pop. rewrite E. done.
  - destruct (pop_spec less es Hes h) as (x & h' & ? & ? & ? & ? & _ & ? & ? & ?); [done..|lia|].
    by exists x, h'.
Qed.

(** Pushing refines adding to the multiset: a heap with room takes the element
    and stays ordered; a full heap refuses it and is unchanged. *)
Theorem min_heap_push_refines h x :
  good less es h ->
  if min_heap_full h then min_heap_push less es h x = Some (false, h)
  else exists h', min_heap_push less es h x = Some (true, h') /\ good less es h' /\
    elems h' ≡ₚ x :: elems h /\ nr h' = nr h + 1 /\ size h' = size h.
Proof.
  intros [Hwf Ho]. pose proof (wf_nr es h Hwf). unfold min_heap_full.
  destruct (Z.eqb_spec (nr h) (size h)) as [E|E].
  - unfold min_heap_push. rewrite E, Z.leb_refl. done.
  - destruct (push_spec less es Hes h x) as (h' & ? & ? & ? & ? & ? & ?); [done..|lia|].
    by exists h'.
Qed.

(** Replacing the root in one sift is a pop followed by a push: the old minimum
    leaves, the new element enters, order and size are kept. *)
Theorem min_heap_pop_push_refines h x :
  good less es h -> 0 < nr h ->
  exists y h', min_heap_peek es h = Some y /\ min_heap_pop_push less es h x = Some h' /\
    good less es h' /\ nr h' = nr h /\ y :: elems h' ≡ₚ x :: elems h /\
    (forall z, z ∈ elems h -> less z y = false).
Proof.
  intros [Hwf Ho] Hpos.
  destruct (pop_push_spec less es Hes h x) as (y & h' & Hpk & ? & ? & ? & ? & ?); [done..|].
  destruct (peek_min less es Hes h Hwf Ho Hpos) as (y' & Hpk' & _ & Hmin).
  exists y, h'. do 2 (split; [done|]). split; [done|]. split; [done|]. split; [done|].
  assert (y' = y) as -> by congruence. done.
Qed.

(** Deleting at any index removes exactly that element and keeps the order; with
    an empty heap it reports failure. *)
Theorem min_heap_del_refines h (k : nat) :
  good less es h ->
  (nr h = 0 -> min_heap_del less es h (Z.of_nat k) = Some (false, h)) /\
  (Z.of_nat k < nr h -> exists x h', data h !! k = Some x /\
     min_heap_del less es h (Z.of_nat k) = Some (true, h') /\
     good less es h' /\ elems h ≡ₚ x :: elems h').
Proof.
  intros [Hwf Ho]. split.
  - unfold min_heap_del. by intros ->.
  - intros Hk. destruct (del_spec less es Hes h k) as (x & h' & ? & ? & ? & ? & _ & ?); [done..|].
    by exists x, h'.
Qed.

(** Floyd's heapification turns any well-formed storage into an ordered heap of
    the same elements. *)
Theorem min_heapify_all_orders h :
  wf es h -> exists h', min_heapify_all less es h = Some h' /\ good less es h' /\
    nr h' = nr h /\ size h' = size h /\ elems h' ≡ₚ elems h.
Proof.
  intros Hwf. destruct (heapify_all_ordered less es Hes h Hwf) as (h' & ? & (? & ? & ? & ?) & ?).
  by exists h'.
Qed.
End properties.

(** The branch-free byte-offset arithmetic of [parent] is the parent index
    [(j - 1) / 2], for every element size and every offset of an allocation. *)
Theorem parent_is_index_parent es j :
  0 < es < 2 ^ 32 -> 0 < j -> j * es < 2 ^ 64 ->
  parent (j * es) (u32 (lsbit_of es)) es = ((j - 1) / 2) * es.
Proof. apply parent_offset. Qed.

(** ** Concrete heaps: five time stamps, elements of 8 bytes *)

Module Example.
Definition raw : min_heap Z := MinHeap 5 6 [5; 3; 4; 1; 2; 0].
Definition heap5 : min_heap Z := MinHeap 5 6 [1; 2; 4; 3; 5; 0].
End Example.

Lemma raw_wf : wf 8 Example.raw.
Proof. by split. Qed.

Lemma heap5_good : good Z.ltb 8 Example.heap5.
Proof.
  split; [by split|]. intros j Hj _ x y.
  assert (j = 1 \/ j = 2 \/ j = 3 \/ j = 4)%nat as [->|[->|[->| ->]]] by (simpl in Hj; lia);
    intros [= <-] [= <-]; done.
Qed.

Lemma es8 : 0 < 8 < 2 ^ 32.
Proof. lia. Qed.

Lemma min_heapify_all_orders_witness :
  exists h', min_heapify_all Z.ltb 8 Example.raw = Some h' /\ good Z.ltb 8 h'.
Proof.
  destruct (min_heapify_all_orders Z.ltb 8 es8 Example.raw raw_wf) as (h' & H1 & H2 & _).
  exists h'. exact (conj H1 H2).
Defined.

Lemma min_heap_pop_refines_witness :
  exists x h', min_heap_peek 8 Example.heap5 = Some x /\
    min_heap_pop Z.ltb 8 Example.heap5 = Some (true, h') /\ good Z.ltb 8 h'.
Proof.
  pose proof (min_heap_pop_refines Z.ltb 8 es8 Example.heap5 heap5_good) as H.
  change (nr Example.heap5 =? 0) with false in H.
  destruct H as (x & h' & H1 & H2 & H3 & _). exists x, h'. exact (conj H1 (conj H2 H3)).
Defined.

Lemma min_heap_push_refines_witness :
  exists h', min_heap_push Z.ltb 8 Example.heap5 0 = Some (true, h') /\ good Z.ltb 8 h'.
Proof.
  pose proof (min_heap_push_refines Z.ltb 8 es8 Example.heap5 0 heap5_good) as H.
  change (min_heap_full Example.heap5) with false in H.
  destruct H as (h' & H1 & H2 & _). exists h'. exact (conj H1 H2).
Defined.

Lemma min_heap_pop_push_refines_witness :
  exists y h', min_heap_peek 8 Example.heap5 = Some y /\
    min_heap_pop_push Z.ltb 8 Example.heap5 7 = Some h' /\ good Z.ltb 8 h'.
Proof.
  destruct (min_heap_pop_push_refines Z.ltb 8 es8 Example.heap5 7 heap5_good eq_refl)
    as (y & h' & H1 & H2 & H3 & _).
  exists y, h'. exact (conj H1 (conj H2 H3)).
Defined.

Lemma min_heap_del_refines_witness :
  exists h', min_heap_del Z.ltb 8 Example.heap5 2 = Some (true, h') /\ good Z.ltb 8 h'.
Proof.
  destruct (min_heap_del_refines Z.ltb 8 es8 Example.heap5 2 heap5_good) as [_ H].
  destruct (H eq_refl) as (x & h' & _ & H2 & H3 & _). exists h'. exact (conj H2 H3).
Defined.

Lemma parent_is_index_parent_witness : parent (6 * 24) (u32 (lsbit_of 24)) 24 = 48.
Proof. exact (parent_is_index_parent 24 6 ltac:(lia) ltac:(lia) ltac:(lia)). Defined.
