(* ===== verification/Mmap.v ===== *)
(** * The perf ring buffer of lib/perf/mmap.c

    The kernel appends records at [data_head] and the program consumes them up
    to [data_tail].  The state is the shared page, the data area and the
    program's cursors [prev]/[start]/[end].  The kernel's own writes are not
    part of this file: a record read at one call may see a later head, so every
    function takes the state as it is when it runs.  [None] is an access
    through a NULL or out-of-range pointer, or a failed [BUG_ON]. *)

From S2P Require Import Prelude Bytes.

(** Errors of include/uapi/asm-generic/errno-base.h and errno.h. *)
Definition EAGAIN : Z := 11.
Definition ENOENT : Z := 2.
Definition EINVAL : Z := 22.
Definition EOPNOTSUPP : Z := 95.

(** [struct perf_event_mmap_page], the fields used here. *)
Record mmap_page := MmapPage { data_head : Z; data_tail : Z; aux_size : Z }.

(** [struct perf_mmap].  [base] is [None] when NULL; [ring] are the [mask + 1]
    bytes after the first page. *)
Record perf_mmap := PerfMmap {
  base : option mmap_page;
  ring : list Z;
  mask : Z;
  refcnt : Z;
  prev : Z;
  start : Z;
  end_ : Z;
  overwrite : bool;
  flush : Z;
  event_copy : list Z
}.

Definition with_base (b : option mmap_page) (m : perf_mmap) : perf_mmap :=
  PerfMmap b (ring m) (mask m) (refcnt m) (prev m) (start m) (end_ m) (overwrite m) (flush m) (event_copy m).
Definition with_refcnt (r : Z) (m : perf_mmap) : perf_mmap :=
  PerfMmap (base m) (ring m) (mask m) r (prev m) (start m) (end_ m) (overwrite m) (flush m) (event_copy m).
Definition with_prev (p : Z) (m : perf_mmap) : perf_mmap :=
  PerfMmap (base m) (ring m) (mask m) (refcnt m) p (start m) (end_ m) (overwrite m) (flush m) (event_copy m).
Definition with_start (s : Z) (m : perf_mmap) : perf_mmap :=
  PerfMmap (base m) (ring m) (mask m) (refcnt m) (prev m) s (end_ m) (overwrite m) (flush m) (event_copy m).
Definition with_end (e : Z) (m : perf_mmap) : perf_mmap :=
  PerfMmap (base m) (ring m) (mask m) (refcnt m) (prev m) (start m) e (overwrite m) (flush m) (event_copy m).
Definition with_copy (c : list Z) (m : perf_mmap) : perf_mmap :=
  PerfMmap (base m) (ring m) (mask m) (refcnt m) (prev m) (start m) (end_ m) (overwrite m) (flush m) c.

(** ** Reference counts (include/linux/refcount.h) *)

Definition UINT_MAX : Z := 2 ^ 32 - 1.

(** [refcount_inc]: an increment on 0 is a failed [BUG_ON]; it saturates. *)
Definition refcount_inc (r : Z) : option Z :=
  let new := u32 (r + 1) in
  if r =? 0 then None
  else if new =? 0 then Some r
  else if new =? UINT_MAX then None
  else Some new.

(** The new count and whether it reached zero. *)
Definition refcount_sub_and_test (i r : Z) : option (Z * bool) :=
  if r =? UINT_MAX then Some (r, false)
  else
    let new := u32 (r - i) in
    if r <? new then None else Some (new, new =? 0).

Definition refcount_dec_and_test (r : Z) : option (Z * bool) := refcount_sub_and_test 1 r.

(** ** Life cycle *)

Definition perf_mmap__init (ov : bool) (m : perf_mmap) : perf_mmap :=
  PerfMmap (base m) (ring m) (mask m) 0 (prev m) (start m) (end_ m) ov (flush m) (event_copy m).

(** [mapping] is what [mmap(2)] returns: the page and the data area. *)
Definition perf_mmap__mmap (mp_mask : Z) (mapping : option (mmap_page * list Z)) (m : perf_mmap)
  : Z * perf_mmap :=
  let m := PerfMmap (base m) (ring m) mp_mask (refcnt m) 0 (start m) (end_ m) (overwrite m) (flush m) (event_copy m) in
  match mapping with
  | None => (-1, with_base None m)
  | Some (pg, d) =>
      (0, PerfMmap (Some pg) d (mask m) (refcnt m) (prev m) (start m) (end_ m) (overwrite m) (flush m) (event_copy m))
  end.

(** Every [perf_mmap] of the program is initialised with a NULL [unmap_cb]. *)
Definition perf_mmap__munmap (m : perf_mmap) : perf_mmap :=
  match base m with
  | Some _ => with_refcnt 0 (with_base None m)
  | None => m
  end.

Definition perf_mmap__get (m : perf_mmap) : option perf_mmap :=
  r ← refcount_inc (refcnt m); Some (with_refcnt r m).

Definition perf_mmap__put (m : perf_mmap) : option perf_mmap :=
  if bool_decide (is_Some (base m)) && (refcnt m =? 0) then None
  else
    '(r, zero) ← refcount_dec_and_test (refcnt m);
    let m := with_refcnt r m in
    Some (if zero : bool then perf_mmap__munmap m else m).

(** ** Head and tail *)

Definition perf_mmap__read_head (m : perf_mmap) : option Z := data_head <$> base m.

Definition perf_mmap__write_tail (m : perf_mmap) (tail : Z) : option perf_mmap :=
  pg ← base m; Some (with_base (Some (MmapPage (data_head pg) tail (aux_size pg))) m).

Definition perf_mmap__empty (m : perf_mmap) : option bool :=
  pg ← base m;
  Some ((data_head pg =? prev m) && (aux_size pg =? 0)).

Definition perf_mmap__consume (m : perf_mmap) : option perf_mmap :=
  m ← (if overwrite m then Some m else perf_mmap__write_tail m (prev m));
  if refcnt m =? 1 then
    e ← perf_mmap__empty m;
    if e : bool then perf_mmap__put m else Some m
  else Some m.

(** ** Records *)

(** [sizeof(struct perf_event_header)] and the field offsets in it. *)
Definition HEADER_SIZE : Z := 8.
Definition header_type (bs : list Z) (off : Z) : option Z := get_le 4 bs off.
Definition header_size (bs : list Z) (off : Z) : option Z := get_le 2 bs (off + 6).

(** [sizeof(union perf_event)]: its largest member is [struct perf_record_mmap2]. *)
Definition PATH_MAX : Z := 4096.
Definition SIZEOF_PERF_EVENT : Z := 72 + PATH_MAX.

(** A [union perf_event *] as the ring buffer hands it out. *)
Inductive event_ref :=
  | InRing (off : Z)     (** [&data[off]] *)
  | InCopy.              (** [map->event_copy] *)

#[export] Instance event_ref_eq_dec : EqDecision event_ref.
Proof. solve_decision. Defined.

(** The block an event pointer points into, and the offset. *)
Definition event_block (m : perf_mmap) (r : event_ref) : list Z * Z :=
  match r with
  | InRing off => (ring m, off)
  | InCopy => (event_copy m, 0)
  end.

Definition event_type (m : perf_mmap) (r : event_ref) : option Z :=
  let '(b, off) := event_block m r in header_type b off.

Definition event_size (m : perf_mmap) (r : event_ref) : option Z :=
  let '(b, off) := event_block m r in header_size b off.

(** The [header.size] bytes of the record. *)
Definition event_bytes (m : perf_mmap) (r : event_ref) : option (list Z) :=
  let '(b, off) := event_block m r in
  sz ← header_size b off; mem_read b off sz.

(** ** Overwrite mode: how far back the buffer is readable *)

Fixpoint find_range_loop (fuel : nat) (buf : list Z) (mask start evt_head psize : Z)
  : option (Z * Z) :=
  match fuel with
  | O => None
  | S fuel =>
      let size := u32 (mask + 1) in
      if size <=? u64 (evt_head - start) then
        Some (0, if size <? u64 (evt_head - start) then u64 (evt_head - psize) else evt_head)
      else
        psize ← header_size buf (Z.land evt_head mask);
        if psize =? 0 then Some (0, evt_head)
        else find_range_loop fuel buf mask start (u64 (evt_head + psize)) psize
  end.

(** The return value and the new [*end]. *)
Definition overwrite_rb_find_range (buf : list Z) (mask start : Z) : option (Z * Z) :=
  psize ← header_size buf (Z.land start mask);
  find_range_loop (S (S (Z.to_nat mask))) buf mask start start psize.

(** ** Reading *)

Definition __perf_mmap__read_init (m : perf_mmap) : option (Z * perf_mmap) :=
  head ← perf_mmap__read_head m;
  let old := prev m in
  let m := with_start (if overwrite m then head else old) m in
  let m := with_end (if overwrite m then old else head) m in
  if u64 (end_ m - start m) <? flush m then Some (- EAGAIN, m)
  else
    let size := u64 (end_ m - start m) in
    if u64 (mask m) + 1 <? size then
      if negb (overwrite m) then
        m ← perf_mmap__consume (with_prev head m);
        Some (- EAGAIN, m)
      else
        '(r, e) ← overwrite_rb_find_range (ring m) (mask m) (start m);
        let m := with_end e m in
        if negb (r =? 0) then Some (- EINVAL, m) else Some (0, m)
    else Some (0, m).

Definition perf_mmap__read_init (m : perf_mmap) : option (Z * perf_mmap) :=
  if refcnt m =? 0 then Some (- ENOENT, m) else __perf_mmap__read_init m.

Definition perf_mmap__read_done (m : perf_mmap) : option perf_mmap :=
  if refcnt m =? 0 then Some m
  else if overwrite m then
    head ← perf_mmap__read_head m; Some (with_prev head m)
  else if negb (prev m =? end_ m) then Some (with_prev (end_ m) m)
  else Some m.

(** Copy [len] bytes from the ring at [offset] into [event_copy] at [dst]. *)
Fixpoint copy_loop (fuel : nat) (m : perf_mmap) (offset len dst : Z) : option perf_mmap :=
  match fuel with
  | O => None
  | S fuel =>
      let cpy := Z.min (u32 (mask m + 1 - Z.land offset (mask m))) len in
      bs ← mem_read (ring m) (Z.land offset (mask m)) cpy;
      c ← mem_write (event_copy m) dst bs;
      let m := with_copy c m in
      let offset := u32 (offset + cpy) in
      let dst := dst + cpy in
      let len := u32 (len - cpy) in
      if len =? 0 then Some m else copy_loop fuel m offset len dst
  end.

(** The event, if any, and the advanced [*startp] ([&map->start]). *)
Definition perf_mmap__read (m : perf_mmap) (startp end0 : Z)
  : option (option event_ref * Z * perf_mmap) :=
  let diff := s32 (u64 (end0 - startp)) in
  if HEADER_SIZE <=? diff then
    let off := Z.land startp (mask m) in
    size ← header_size (ring m) off;
    if (size <? HEADER_SIZE) || (diff <? size) then Some (None, startp, m)
    else
      '(ev, m) ←
        (if negb (off + size =? Z.land (u64 (startp + size)) (mask m)) then
           m ← copy_loop (S (Z.to_nat size)) m (u32 startp) (Z.min SIZEOF_PERF_EVENT size) 0;
           Some (InCopy, m)
         else Some (InRing off, m));
      let startp := u64 (startp + size) in
      if overwrite m then
        head ← perf_mmap__read_head m;
        if u64 (mask m) + 1 <? u64 (startp - head) then Some (None, startp, m)
        else Some (Some ev, startp, m)
      else Some (Some ev, startp, m)
  else Some (None, startp, m).

(** The event, the value stored in [*writable] (none on the early return) and
    the new state. *)
Definition perf_mmap__read_event (m : perf_mmap)
  : option (option event_ref * option bool * perf_mmap) :=
  if refcnt m =? 0 then Some (None, None, m)
  else
    m ← (if overwrite m then Some m
         else head ← perf_mmap__read_head m; Some (with_end head m));
    '(ev, s, m) ← perf_mmap__read m (start m) (end_ m);
    let m := with_start s m in
    let writable := bool_decide (ev = Some InCopy) in
    let m := if overwrite m then m else with_prev (start m) m in
    Some (ev, Some writable, m).

Definition perf_mmap__unread_event (m : perf_mmap) (ev : option event_ref) : option perf_mmap :=
  match ev with
  | None => Some m
  | Some r =>
      if refcnt m =? 0 then Some m
      else
        size ← event_size m r;
        let m := with_start (u64 (start m - size)) m in
        Some (if overwrite m then m else with_prev (start m) m)
  end.

(** [struct perf_tsc_conversion]. *)
Record tsc_conversion := TscConversion {
  time_shift : Z; time_mult : Z; time_zero : Z; cap_user_time_zero : bool
}.

#[export] Instance tsc_conversion_eq_dec : EqDecision tsc_conversion.
Proof. solve_decision. Defined.

(** What the kernel keeps in the page: the sequence count and the fields. *)
Record tsc_page := TscPage { lock : Z; conv : tsc_conversion }.

(** One pass of the loop makes six reads of the page, [lock] first and last;
    [pg n] is the page at the [n]-th read, while the kernel may be updating it.
    The result is the return value and the fields left in [*tc]. *)
Fixpoint read_tsc_loop (fuel : nat) (pg : nat -> tsc_page) (n : nat) : Z * tsc_conversion :=
  let seq := lock (pg n) in
  let tc := TscConversion (time_shift (conv (pg (2 + n)%nat))) (time_mult (conv (pg (1 + n)%nat)))
              (time_zero (conv (pg (3 + n)%nat))) (cap_user_time_zero (conv (pg (4 + n)%nat))) in
  if (lock (pg (5 + n)%nat) =? seq) && (Z.land seq 1 =? 0) then
    (if cap_user_time_zero tc then 0 else - EOPNOTSUPP, tc)
  else
    match fuel with
    | O => (- EINVAL, tc)
    | S fuel => read_tsc_loop fuel pg (6 + n)
    end.

Definition perf_mmap__read_tsc_conversion (pg : nat -> tsc_page) : Z * tsc_conversion :=
  read_tsc_loop (Z.to_nat 10000) pg 0.

(** ** The circular window *)

(** The [n] bytes at stream positions [pos], [pos + 1], ... of a ring. *)
Definition circ (l : list Z) (msk pos : Z) (n : nat) : list Z :=
  (fun i => l !!! Z.to_nat (Z.land (pos + Z.of_nat i) msk)) <$> seq 0 n.

Lemma length_circ l msk pos n : length (circ l msk pos n) = n.
Proof. unfold circ. by rewrite length_fmap, length_seq. Qed.

Lemma lookup_circ l msk pos n i :
  (i < n)%nat -> circ l msk pos n !! i = Some (l !!! Z.to_nat (Z.land (pos + Z.of_nat i) msk)).
Proof.
  intros Hi. unfold circ. rewrite list_lookup_fmap, lookup_seq_lt by done. done.
Qed.

Section pow2.
Context (k : Z) (Hk : 3 <= k <= 30).

Lemma land_msk pos : Z.land pos (2 ^ k - 1) = pos mod 2 ^ k.
Proof using Hk. rewrite Z.sub_1_r, <- Z.ones_equiv. apply Z.land_ones. lia. Qed.

Lemma pow_k_bounds : 8 <= 2 ^ k <= 2 ^ 30.
Proof using Hk.
  change 8 with (2 ^ 3). split; apply Z.pow_le_mono_r; lia.
Qed.

Lemma mod_u64 pos : (u64 pos) mod 2 ^ k = pos mod 2 ^ k.
Proof using Hk.
  unfold u64. symmetry. apply Znumtheory.Zmod_div_mod; [lia|lia|].
  exists (2 ^ (64 - k)). rewrite <- Z.pow_add_r by lia. f_equal. lia.
Qed.

Lemma mod_u32 pos : (u32 pos) mod 2 ^ k = pos mod 2 ^ k.
Proof using Hk.
  unfold u32. symmetry. apply Znumtheory.Zmod_div_mod; [lia|lia|].
  exists (2 ^ (32 - k)). rewrite <- Z.pow_add_r by lia. f_equal. lia.
Qed.

Lemma circ_mod l pos pos' n :
  pos mod 2 ^ k = pos' mod 2 ^ k -> circ l (2 ^ k - 1) pos n = circ l (2 ^ k - 1) pos' n.
Proof using Hk.
  intros Heq. unfold circ. apply list_fmap_ext. intros i x _. rewrite !land_msk.
  do 2 f_equal. rewrite <- (Zplus_mod_idemp_l pos), <- (Zplus_mod_idemp_l pos').
  by rewrite Heq.
Qed.

(** A read that does not run off the end is a window. *)
Lemma mem_read_circ l pos n :
  Z.of_nat (length l) = 2 ^ k -> 0 <= n <= 2 ^ k - pos mod 2 ^ k ->
  mem_read l (Z.land pos (2 ^ k - 1)) n = Some (circ l (2 ^ k - 1) pos (Z.to_nat n)).
Proof using Hk.
  intros Hl Hn. pose proof (Z.mod_pos_bound pos (2 ^ k) ltac:(lia)) as Hb.
  rewrite land_msk. apply mem_read_Some. split; [lia|]. split; [lia|]. split; [lia|].
  apply list_eq. intros i. destruct (decide (i < Z.to_nat n)%nat).
  - rewrite lookup_circ by done. rewrite lookup_take_lt, lookup_drop by done.
    rewrite land_msk. rewrite <- Zplus_mod_idemp_l, Z.mod_small by lia.
    replace (Z.to_nat (pos mod 2 ^ k + Z.of_nat i)) with (Z.to_nat (pos mod 2 ^ k) + i)%nat by lia.
    symmetry. apply list_lookup_lookup_total_lt. lia.
  - rewrite lookup_ge_None_2 by (rewrite length_circ; lia).
    symmetry. apply lookup_ge_None_2. rewrite length_take. lia.
Qed.
End pow2.

Lemma circ_app l msk pos n1 n2 :
  circ l msk pos (n1 + n2) = circ l msk pos n1 ++ circ l msk (pos + Z.of_nat n1) n2.
Proof.
  apply list_eq. intros i. destruct (decide (i < n1)%nat).
  - rewrite lookup_app_l by (by rewrite length_circ). rewrite !lookup_circ by lia. done.
  - rewrite lookup_app_r, length_circ by (rewrite length_circ; lia).
    destruct (decide (i < n1 + n2)%nat).
    + rewrite !lookup_circ by lia. do 3 f_equal. f_equal. lia.
    + rewrite !lookup_ge_None_2; rewrite ?length_circ; [done|lia..].
Qed.

(** ** The straddling copy *)

Lemma ring_with_copy c m : ring (with_copy c m) = ring m.
Proof. done. Qed.

Lemma copy_loop_spec k fuel : forall m o len dst,
  3 <= k <= 30 -> Z.of_nat (length (ring m)) = 2 ^ k -> mask m = 2 ^ k - 1 ->
  0 < len < 2 ^ 31 -> 0 <= dst -> dst + len <= Z.of_nat (length (event_copy m)) ->
  (Z.to_nat len < fuel)%nat ->
  exists c, copy_loop fuel m o len dst = Some (with_copy c m) /\
    mem_write (event_copy m) dst (circ (ring m) (2 ^ k - 1) o (Z.to_nat len)) = Some c.
Proof.
  induction fuel as [|fuel IH]; intros m o len dst Hk Hl Hmask Hlen Hdst Hfit Hfuel; [lia|].
  pose proof (pow_k_bounds k Hk) as Hpk.
  pose proof (Z.mod_pos_bound o (2 ^ k) ltac:(lia)) as Hob.
  cbn [copy_loop]. rewrite Hmask. set (cpy := Z.min _ len).
  assert (cpy = Z.min (2 ^ k - o mod 2 ^ k) len) as Hcpy.
  { unfold cpy. rewrite land_msk by done. f_equal. rewrite u32_small by lia. lia. }
  rewrite (mem_read_circ k) by (done || lia). cbn [mbind option_bind].
  destruct (mem_write_total (event_copy m) dst (circ (ring m) (2 ^ k - 1) o (Z.to_nat cpy)))
    as [c1 Hc1]; [lia|rewrite length_circ; lia|].
  rewrite Hc1. cbn [mbind option_bind].
  rewrite (u32_small (len - cpy)) by lia.
  destruct (Z.eqb_spec (len - cpy) 0) as [H0|H0].
  - exists c1. split; [done|]. by replace len with cpy by lia.
  - destruct (IH (with_copy c1 m) (u32 (o + cpy)) (len - cpy) (dst + cpy)) as (c & Heq & Hw);
      simpl; try done; try lia.
    { rewrite (length_mem_write _ _ _ _ Hc1). lia. }
    exists c. split; [done|].
    replace (Z.to_nat len) with (Z.to_nat cpy + Z.to_nat (len - cpy))%nat by lia.
    rewrite circ_app. apply (mem_write_app _ _ _ _ c1); [done|].
    rewrite length_circ, !Z2Nat.id by lia. simpl in Hw.
    by rewrite (circ_mod k Hk _ _ (u32 (o + cpy))) by (by rewrite mod_u32).
Qed.

(** ** Reading a record the kernel has completed *)

(** A mapped ring buffer in non-overwrite mode, its size a power of two. *)
Record ring_ok (k : Z) (m : perf_mmap) : Prop := {
  ring_k : 3 <= k <= 30;
  ring_len : Z.of_nat (length (ring m)) = 2 ^ k;
  ring_mask : mask m = 2 ^ k - 1;
  ring_copy : length (event_copy m) = Z.to_nat (2 ^ 16);
  ring_mode : overwrite m = false;
  ring_ref : refcnt m <> 0
}.

(** [bs] is a complete record: its header holds its own length. *)
Definition is_record (bs : list Z) : Prop :=
  header_size bs 0 = Some (Z.of_nat (length bs)) /\ HEADER_SIZE <= Z.of_nat (length bs).

(** The bytes of the record are in the ring from stream position [pos]. *)
Definition in_ring (k : Z) (m : perf_mmap) (pos : Z) (bs : list Z) : Prop :=
  circ (ring m) (2 ^ k - 1) pos (length bs) = bs.

Lemma header_size_ext b1 b2 o1 o2 n :
  mem_read b1 o1 n = mem_read b2 o2 n -> is_Some (mem_read b1 o1 n) -> 8 <= n ->
  header_size b1 o1 = header_size b2 o2.
Proof.
  intros Heq [bs Hbs] Hn. pose proof Hbs as Hbs2. rewrite Heq in Hbs2.
  assert (forall b o, mem_read b o n = Some bs -> header_size b o = le_val <$> mem_read bs 6 2) as H.
  { intros b o (? & ? & ? & ->)%mem_read_Some. unfold header_size, get_le. f_equal.
    change (Z.of_nat 2) with 2.
    destruct (mem_read_total b (o + 6) 2) as [x Hx]; [lia..|].
    rewrite Hx. symmetry. apply mem_read_Some.
    apply mem_read_Some in Hx as (? & ? & ? & ->).
    rewrite length_take, length_drop. do 3 (split; [lia|]).
    rewrite skipn_firstn_comm, drop_drop, take_take. f_equal; [lia|]. f_equal. lia. }
  by rewrite (H _ _ Hbs), (H _ _ Hbs2).
Qed.

Lemma mem_read_whole bs : mem_read bs 0 (Z.of_nat (length bs)) = Some bs.
Proof.
  apply mem_read_Some. do 3 (split; [lia|]).
  by rewrite Nat2Z.id, take_ge by (rewrite length_drop; lia).
Qed.

Lemma take_circ l msk pos n n' : (n' <= n)%nat -> take n' (circ l msk pos n) = circ l msk pos n'.
Proof.
  intros Hn. replace n with (n' + (n - n'))%nat by lia. rewrite circ_app.
  by rewrite take_app_length' by (by rewrite length_circ).
Qed.

(** The size field of a record in the ring is read where the program reads it. *)
Lemma in_ring_header k m pos bs :
  ring_ok k m -> is_record bs -> in_ring k m pos bs -> pos mod 8 = 0 ->
  header_size (ring m) (Z.land pos (mask m)) = Some (Z.of_nat (length bs)).
Proof.
  intros Hok [Hsz Hlen] Hin Hal. unfold HEADER_SIZE in Hlen.
  pose proof (ring_k k m Hok) as Hk. rewrite <- Hsz, (ring_mask k m Hok).
  pose proof (pow_k_bounds k Hk). pose proof (Z.mod_pos_bound pos (2 ^ k) ltac:(lia)).
  assert (8 <= 2 ^ k - pos mod 2 ^ k) as Hroom.
  { assert (2 ^ k = 8 * 2 ^ (k - 3)) as Hp.
    { change 8 with (2 ^ 3). rewrite <- Z.pow_add_r by lia. f_equal. lia. }
    assert ((pos mod 2 ^ k) mod 8 = 0) as Hm.
    { rewrite <- Znumtheory.Zmod_div_mod; [done|lia|lia|]. rewrite Hp. by exists (2 ^ (k - 3)); lia. }
    dlia. }
  assert (mem_read (ring m) (Z.land pos (2 ^ k - 1)) 8 = Some (take 8 bs)) as H1.
  { rewrite (mem_read_circ k Hk) by first [by apply ring_len | lia]. f_equal.
    unfold in_ring in Hin. by rewrite <- (take_circ _ _ _ (length bs)), Hin by lia. }
  assert (mem_read bs 0 8 = Some (take 8 bs)) as H2.
  { apply mem_read_Some. split; [lia|]. split; [lia|]. split; [lia|]. done. }
  apply (header_size_ext _ _ _ _ 8); [congruence|by rewrite H1|lia].
Qed.

(** Reading a complete record of at most [sizeof(union perf_event)] bytes gives
    back exactly its bytes, wherever it lies in the ring. *)
Lemma read_spec k m pos end0 bs :
  ring_ok k m -> is_record bs -> in_ring k m pos bs -> pos mod 8 = 0 ->
  Z.of_nat (length bs) <= SIZEOF_PERF_EVENT ->
  Z.of_nat (length bs) <= u64 (end0 - pos) <= 2 ^ k ->
  exists r c, perf_mmap__read m pos end0
      = Some (Some r, u64 (pos + Z.of_nat (length bs)), with_copy c m) /\
    length c = length (event_copy m) /\ (r <> InCopy -> c = event_copy m) /\
    event_bytes (with_copy c m) r = Some bs.
Proof.
  intros Hok Hrec Hin Hal Hmax Hav. pose proof Hrec as [Hsz Hlen].
  pose proof (ring_k k m Hok) as Hk. pose proof (pow_k_bounds k Hk).
  pose proof (in_ring_header k m pos bs Hok Hrec Hin Hal) as Hhd.
  pose proof (Z.mod_pos_bound pos (2 ^ k) ltac:(lia)) as Hpos.
  unfold perf_mmap__read. rewrite s32_small by lia.
  destruct (Z.leb_spec HEADER_SIZE (u64 (end0 - pos))); [|lia].
  rewrite Hhd. cbn [mbind option_bind].
  destruct (Z.ltb_spec (Z.of_nat (length bs)) HEADER_SIZE); [lia|].
  destruct (Z.ltb_spec (u64 (end0 - pos)) (Z.of_nat (length bs))); [lia|].
  cbn [orb]. rewrite (ring_mask k m Hok), !land_msk, mod_u64 by done.
  destruct (Z.eqb_spec (pos mod 2 ^ k + Z.of_nat (length bs))
    ((pos + Z.of_nat (length bs)) mod 2 ^ k)) as [Hns|Hst]; cbn [negb mbind option_bind].
  - rewrite (ring_mode k m Hok). exists (InRing (pos mod 2 ^ k)), (event_copy m).
    split; [by destruct m|].
    split; [done|]. split; [done|]. unfold event_bytes. cbn [event_block ring with_copy].
    rewrite <- land_msk, <- (ring_mask k m Hok), Hhd by done. cbn [mbind option_bind].
    rewrite (ring_mask k m Hok), (mem_read_circ k Hk).
    + by rewrite Nat2Z.id, Hin.
    + by apply ring_len.
    + pose proof (Z.mod_pos_bound (pos + Z.of_nat (length bs)) (2 ^ k)). lia.
  - rewrite Z.min_r by done.
    destruct (copy_loop_spec k (S (Z.to_nat (Z.of_nat (length bs)))) m (u32 pos)
      (Z.of_nat (length bs)) 0) as (c & Heq & Hw);
      [done|by apply ring_len|by apply ring_mask| |lia| |lia|].
    { unfold SIZEOF_PERF_EVENT, PATH_MAX, HEADER_SIZE in *. lia. }
    { rewrite (ring_copy k m Hok). unfold SIZEOF_PERF_EVENT, PATH_MAX in *. lia. }
    rewrite Heq. cbn [mbind option_bind overwrite with_copy]. rewrite (ring_mode k m Hok).
    exists InCopy, c. split; [done|].
    split; [by eapply length_mem_write|]. split; [done|].
    rewrite Nat2Z.id, (circ_mod k Hk _ _ pos) in Hw by (by rewrite mod_u32).
    rewrite Hin in Hw. apply mem_read_write in Hw.
    unfold event_bytes. cbn [event_block event_copy with_copy].
    rewrite (header_size_ext c bs 0 0 (Z.of_nat (length bs))).
    + rewrite Hsz. done.
    + by rewrite Hw, mem_read_whole.
    + by rewrite Hw.
    + done.
Qed.

(** ** Draining a ring buffer: [perf_event_handle_mmap] (monitor.c)

    [D] is the state of the device; what happens to it is the business of other
    components: [order_mmap] takes over when ordering is enabled,
    [read_tsc] is [perf_event_convert_read_tsc_conversion] and [process] is
    [perf_event_process_record], given the bytes of the record and the
    [writable] flag. *)
Class Device (D : Type) := {
  order_enabled : D -> bool;
  order_mmap : D -> perf_mmap -> option (D * perf_mmap);
  read_tsc : D -> perf_mmap -> D;
  process : D -> list Z -> bool -> D
}.

Section handle.
Context {D : Type} `{!Device D}.

Fixpoint handle_mmap_loop (fuel : nat) (d : D) (m : perf_mmap) : option (D * perf_mmap) :=
  match fuel with
  | O => None
  | S fuel =>
      '(ev, w, m) ← perf_mmap__read_event m;
      match ev with
      | None => m ← perf_mmap__read_done m; Some (d, m)
      | Some r =>
          bs ← event_bytes m r;
          let d := process d bs (default false w) in
          m ← perf_mmap__consume m;
          handle_mmap_loop fuel d m
      end
  end.

Definition perf_event_handle_mmap (fuel : nat) (d : D) (m : perf_mmap)
  : option (D * perf_mmap) :=
  if order_enabled d then order_mmap d m
  else
    '(r, m) ← perf_mmap__read_init m;
    if r <? 0 then Some (d, m) else handle_mmap_loop fuel (read_tsc d m) m.

(** The records processed in order, each with some value of the flag. *)
Definition process_all (d : D) (rs : list (list Z)) (ws : list bool) : D :=
  foldl (fun d '(bs, w) => process d bs w) d (zip rs ws).
End handle.

Lemma u64_u64 z : u64 (u64 z) = u64 z.
Proof. apply u64_small, u64_range. Qed.

Lemma u64_sub_l a b : u64 (u64 a - b) = u64 (a - b).
Proof. unfold u64. by rewrite Zminus_mod_idemp_l. Qed.

Lemma u64_sub_r a b : u64 (a - u64 b) = u64 (a - b).
Proof. unfold u64. by rewrite Zminus_mod_idemp_r. Qed.

Lemma u64_mod8 z : z mod 8 = 0 -> u64 z mod 8 = 0.
Proof.
  intros Hz. unfold u64. rewrite <- Znumtheory.Zmod_div_mod; [done|lia|lia|].
  by exists (2 ^ 61).
Qed.

(** What is left to read: the records [rs], complete and aligned, from [prev] up
    to [head]. *)
Record pending (k head : Z) (m : perf_mmap) (rs : list (list Z)) : Prop := {
  pend_ok : ring_ok k m;
  pend_page : exists pg, base m = Some pg /\ data_head pg = head /\ aux_size pg = 0;
  pend_start : start m = prev m;
  pend_prev : 0 <= prev m < 2 ^ 64 /\ prev m mod 8 = 0;
  pend_head : 0 <= head < 2 ^ 64;
  pend_recs : Forall (fun bs => is_record bs /\ Z.of_nat (length bs) mod 8 = 0 /\
                        Z.of_nat (length bs) <= SIZEOF_PERF_EVENT) rs;
  pend_ring : in_ring k m (prev m) (concat rs);
  pend_len : u64 (head - prev m) = Z.of_nat (length (concat rs));
  pend_fits : Z.of_nat (length (concat rs)) <= 2 ^ k
}.

Lemma in_ring_app k m pos a b :
  in_ring k m pos (a ++ b) ->
  in_ring k m pos a /\ in_ring k m (pos + Z.of_nat (length a)) b.
Proof.
  unfold in_ring. rewrite length_app, circ_app. intros Heq.
  apply app_inj_1 in Heq; [done|]. by rewrite length_circ.
Qed.

(** One step of the loop: the next record is delivered, the cursors move over
    it and the bytes before them are given back to the kernel. *)
Lemma read_consume_step k head m bs rs :
  pending k head m (bs :: rs) ->
  exists r w m1, perf_mmap__read_event m = Some (Some r, Some w, m1) /\
    w = bool_decide (r = InCopy) /\
    event_bytes m1 r = Some bs /\ pending k head m1 rs /\
    prev m1 = u64 (prev m + Z.of_nat (length bs)) /\ refcnt m1 = refcnt m /\
    end_ m1 = head /\ in_ring k m1 (prev m) bs.
Proof.
  intros [Hok (pg & Hpg & Hhd & Haux) Hst [Hpv Hal] Hh Hrecs Hring Hlen Hfit].
  apply Forall_cons in Hrecs as [(Hrec & Hl8 & Hmax) Hrecs].
  cbn [concat] in *. rewrite length_app in Hlen, Hfit.
  apply in_ring_app in Hring as [Hin1 Hin2].
  unfold perf_mmap__read_event. pose proof (ring_ref k m Hok) as Href.
  destruct (Z.eqb_spec (refcnt m) 0); [done|].
  rewrite (ring_mode k m Hok). unfold perf_mmap__read_head. rewrite Hpg. cbn [fmap option_fmap option_map mbind option_bind].
  rewrite Hhd. set (m0 := with_end head m).
  assert (ring_ok k m0) as Hok0 by (by destruct Hok).
  destruct (read_spec k m0 (prev m) head bs) as (r & c & Hrd & Hc & Hnc & Hev);
    [done..|rewrite Hlen; lia|].
  change (start m0) with (start m). rewrite Hst.
  change (end_ m0) with head. rewrite Hrd. cbn [mbind option_bind].
  change (overwrite (with_start _ (with_copy c m0))) with (overwrite m).
  rewrite (ring_mode k m Hok). eexists r, _, _. split; [reflexivity|].
  split; [by apply bool_decide_ext; split; congruence|].
  split; [by rewrite <- Hev; destruct r|].
  unfold HEADER_SIZE in *. destruct Hrec as [Hsz Hrlen].
  split; [|done].
  split; simpl; [|by exists pg|done| |done|done| | |].
  - destruct Hok. split; simpl; try done. by rewrite Hc.
  - split; [apply u64_range|]. apply u64_mod8. dlia.
  - unfold in_ring in *. simpl. rewrite <- Hin2 at 2. apply circ_mod; [by apply (ring_k k m)|].
    rewrite mod_u64; [done|by apply (ring_k k m)].
  - rewrite u64_sub_r, Z.sub_add_distr, <- u64_sub_l, Hlen.
    rewrite u64_small; [lia|]. pose proof (pow_k_bounds k (ring_k k m Hok)). lia.
  - lia.
Qed.

(** At the head there is nothing to read. *)
Lemma read_at_head k head m :
  pending k head m [] ->
  exists m1, perf_mmap__read_event m = Some (None, Some false, m1) /\
    perf_mmap__read_done m1 = Some m1 /\ base m1 = base m /\ ring m1 = ring m /\
    prev m1 = head /\ start m1 = head /\ end_ m1 = head /\ refcnt m1 = refcnt m.
Proof.
  intros [Hok (pg & Hpg & Hhd & Haux) Hst [Hpv Hal] Hh _ _ Hlen _].
  simpl in Hlen.
  assert (prev m = head) as Heq.
  { unfold u64 in Hlen. apply Z.mod_divide in Hlen as [q Hq]; [|lia]. nia. }
  unfold perf_mmap__read_event. pose proof (ring_ref k m Hok) as Href.
  destruct (Z.eqb_spec (refcnt m) 0); [done|].
  rewrite (ring_mode k m Hok). unfold perf_mmap__read_head. rewrite Hpg.
  cbn [fmap option_fmap option_map mbind option_bind]. rewrite Hhd.
  unfold perf_mmap__read. cbn [start end_ with_end mask ring].
  rewrite Hst, Heq, Z.sub_diag. change (s32 (u64 0)) with 0. cbn [Z.leb].
  change (HEADER_SIZE <=? 0) with false. cbn [mbind option_bind overwrite with_start with_end].
  rewrite (ring_mode k m Hok). eexists. split; [reflexivity|].
  unfold perf_mmap__read_done. cbn [refcnt with_prev with_start with_end overwrite prev end_ start].
  destruct (Z.eqb_spec (refcnt m) 0); [done|]. rewrite (ring_mode k m Hok), Z.eqb_refl.
  done.
Qed.

(** [perf_mmap__consume] in non-overwrite mode while other references exist:
    the kernel may reuse everything before [prev]. *)
Lemma consume_tail m pg :
  base m = Some pg -> overwrite m = false -> refcnt m <> 1 ->
  perf_mmap__consume m = Some (with_base (Some (MmapPage (data_head pg) (prev m) (aux_size pg))) m).
Proof.
  intros Hb Ho Hr. unfold perf_mmap__consume, perf_mmap__write_tail. rewrite Ho, Hb.
  cbn [mbind option_bind refcnt with_base]. by destruct (Z.eqb_spec (refcnt m) 1).
Qed.

Lemma event_bytes_base b m r : event_bytes (with_base b m) r = event_bytes m r.
Proof. by destruct r. Qed.

Lemma pending_page k head m rs pg :
  pending k head m rs -> data_head pg = head -> aux_size pg = 0 ->
  pending k head (with_base (Some pg) m) rs.
Proof.
  intros [Hok (pg0 & Hpg & Hhd & Haux) Hst Hpv Hh Hrecs Hring Hlen Hfit] Hd Ha.
  split; try done; [by destruct Hok|]. by exists pg.
Qed.

(** What the state is once everything was delivered: the tail has caught up
    with the head, or, when only the buffer itself held a reference (all its
    events hung up), it was unmapped after the last record. *)
Definition drained (head : Z) (m : perf_mmap) : Prop :=
  match base m with
  | Some pg => refcnt m <> 0 /\ prev m = head /\ data_head pg = head
  | None => refcnt m = 0
  end.

Definition tail_of (m : perf_mmap) : option Z := data_tail <$> base m.

Lemma pending_nil k head m rs : pending k head m rs -> prev m = head <-> rs = [].
Proof.
  intros Hp. pose proof (pend_len k head m rs Hp) as Hl.
  pose proof (pend_prev k head m rs Hp) as [? _]. pose proof (pend_head k head m rs Hp).
  split.
  - intros <-. rewrite Z.sub_diag in Hl. destruct rs as [|b rs]; [done|].
    cbn [concat] in Hl. rewrite length_app in Hl.
    pose proof (pend_recs k _ m _ Hp) as Hr. apply Forall_cons in Hr as [[[_ Hx] _] _].
    unfold HEADER_SIZE in Hx. change (u64 0) with 0 in Hl. lia.
  - intros ->. simpl in Hl. apply Z.mod_divide in Hl as [q Hq]; [|lia]. nia.
Qed.

(** Consuming after a read: the tail moves to [prev], and the buffer goes away
    exactly when it is empty and nothing else refers to it. *)
Lemma consume_pending k head m rs :
  pending k head m rs ->
  exists m2, perf_mmap__consume m = Some m2 /\
    ((refcnt m = 1 /\ rs = [] /\ base m2 = None /\ refcnt m2 = 0) \/
     (~ (refcnt m = 1 /\ rs = []) /\ pending k head m2 rs /\ refcnt m2 = refcnt m /\
      tail_of m2 = Some (prev m))).
Proof.
  intros Hp. pose proof (pend_page k head m rs Hp) as (pg & Hpg & Hhd & Haux).
  pose proof (pend_ok k head m rs Hp) as Hok.
  unfold perf_mmap__consume. rewrite (ring_mode k m Hok).
  unfold perf_mmap__write_tail. rewrite Hpg. cbn [mbind option_bind].
  set (m2 := with_base _ m).
  assert (pending k head m2 rs) as Hp2 by (by apply (pending_page k head)).
  change (refcnt m2) with (refcnt m). destruct (Z.eqb_spec (refcnt m) 1) as [H1|H1].
  - unfold perf_mmap__empty. cbn [base m2 with_base mbind option_bind data_head aux_size prev].
    rewrite Hhd, Haux, andb_true_r. destruct (Z.eqb_spec head (prev m)) as [He|He].
    + symmetry in He. apply (pending_nil k head m rs Hp) in He. eexists.
      unfold perf_mmap__put. change (refcnt m2) with (refcnt m). rewrite H1, andb_false_r.
      split; [reflexivity|]. left. done.
    + exists m2. split; [done|]. right. split; [|done].
      intros [_ Hrs]. apply (pending_nil k head m rs Hp) in Hrs. done.
  - exists m2. split; [done|]. right. split; [by intros [? _]|done].
Qed.

Lemma handle_loop_drains `{!Device D} k head fuel : forall (d : D) m rs,
  pending k head m rs -> (length rs < fuel)%nat ->
  exists m' ws, length ws = length rs /\
    handle_mmap_loop fuel d m = Some (process_all d rs ws, m') /\ drained head m' /\
    (base m' = None <-> refcnt m = 1 /\ rs <> []) /\
    (is_Some (base m') -> tail_of m' = if decide (rs = []) then tail_of m else Some head).
Proof.
  induction fuel as [|fuel IH]; intros d m rs Hp Hfuel; [lia|].
  pose proof (pend_page k head m rs Hp) as (pg & Hpg & Hhd & Haux).
  cbn [handle_mmap_loop]. destruct rs as [|bs rs].
  - destruct (read_at_head k head m Hp) as (m1 & -> & Hdone & Hb & _ & Hpr & _ & _ & Hrc).
    cbn [mbind option_bind]. rewrite Hdone. cbn [mbind option_bind].
    exists m1, []. split; [done|]. split; [done|]. unfold drained, tail_of. rewrite Hb, Hpg.
    pose proof (ring_ref k m (pend_ok k head m [] Hp)).
    split; [by rewrite Hrc|]. split; [|done]. split; [done|by intros [_ ?]].
  - destruct (read_consume_step k head m bs rs Hp)
      as (r & w & m1 & -> & _ & Hev & Hp1 & Hpv1 & Hrc & _).
    cbn [mbind option_bind]. rewrite Hev. cbn [mbind option_bind].
    destruct (consume_pending k head m1 rs Hp1)
      as (m2 & -> & [(H1 & -> & Hb & Hr)|(Hn & Hp2 & Hr & Ht)]); cbn [mbind option_bind].
    + destruct fuel as [|fuel]; [simpl in *; lia|]. cbn [handle_mmap_loop].
      unfold perf_mmap__read_event. rewrite Hr. cbn [Z.eqb mbind option_bind].
      unfold perf_mmap__read_done. rewrite Hr. cbn [Z.eqb mbind option_bind].
      exists m2, [default false (Some w)]. split; [done|]. split; [done|]. unfold drained. rewrite Hb. split; [done|].
      rewrite <- Hrc. split; [naive_solver|]. by intros [? ?].
    + change (default false (Some w)) with w. destruct (IH (process d bs w) m2 rs Hp2) as (m' & ws & Hws & -> & Hd & Hb & Htl);
        [simpl in *; lia|].
      exists m', (w :: ws). split; [by simpl; rewrite Hws|]. split; [done|]. split; [done|].
      rewrite Hr, Hrc in Hb. rewrite Hrc in Hn. split.
      * split; [by intros [? ?]%Hb|]. intros [Href _]. apply Hb. split; [done|].
        intros ->. by apply Hn.
      * intros Hs. rewrite (Htl Hs), Ht, (decide_False (P := bs :: rs = [])) by done.
        case_decide as Hrs; [|done]. f_equal. by apply (pending_nil k head m1 rs Hp1).
Qed.

Lemma read_init_pending k head m rs :
  pending k head (with_start (prev m) m) rs -> flush m = 0 ->
  perf_mmap__read_init m = Some (0, with_end head (with_start (prev m) m)).
Proof.
  intros Hp Hfl. pose proof (pend_ok _ _ _ _ Hp) as Hok.
  pose proof (pend_page _ _ _ _ Hp) as (pg & Hpg & Hhd & _).
  pose proof (pow_k_bounds k (ring_k k _ Hok)).
  unfold perf_mmap__read_init, __perf_mmap__read_init, perf_mmap__read_head.
  pose proof (ring_ref _ _ Hok) as Href. cbn in Href, Hpg.
  destruct (Z.eqb_spec (refcnt m) 0); [done|]. rewrite Hpg.
  cbn [fmap option_fmap option_map mbind option_bind]. rewrite Hhd.
  pose proof (ring_mode _ _ Hok) as Hmode. cbn in Hmode. cbn [overwrite with_start]. rewrite Hmode.
  cbn [end_ start with_end with_start flush mask]. rewrite Hfl.
  pose proof (u64_range (head - prev m)).
  destruct (Z.ltb_spec (u64 (head - prev m)) 0); [lia|].
  pose proof (pend_len _ _ _ _ Hp) as Hl. pose proof (pend_fits _ _ _ _ Hp).
  cbn [prev with_start] in Hl. pose proof (ring_mask _ _ Hok) as Hmask. cbn in Hmask.
  rewrite Hmask, (u64_small (2 ^ k - 1)) by lia.
  destruct (Z.ltb_spec (2 ^ k - 1 + 1) (u64 (head - prev m))); [lia|done].
Qed.

Lemma pending_end k head m rs e : pending k head m rs -> pending k head (with_end e m) rs.
Proof. intros [Hok ? ? ? ? ? ? ? ?]. split; try done. by destruct Hok. Qed.

Lemma event_bytes_size m r bs :
  event_bytes m r = Some bs -> is_record bs -> event_size m r = Some (Z.of_nat (length bs)).
Proof.
  unfold event_bytes, event_size. destruct (event_block m r) as [b off].
  destruct (header_size b off) as [sz|] eqn:Hsz; [|done]. cbn [mbind option_bind].
  intros Hrd _. f_equal. apply length_mem_read in Hrd as Hlen.
  apply mem_read_Some in Hrd as (? & ? & ? & _). lia.
Qed.

(** Putting a record back that was just read makes it pending again. *)
Lemma unread_pending k head m bs rs m1 r :
  pending k head m (bs :: rs) -> pending k head m1 rs ->
  prev m1 = u64 (prev m + Z.of_nat (length bs)) ->
  in_ring k m1 (prev m) bs -> event_bytes m1 r = Some bs ->
  exists m2, perf_mmap__unread_event m1 (Some r) = Some m2 /\
    prev m2 = prev m /\ start m2 = start m /\ pending k head m2 (bs :: rs).
Proof.
  intros Hp Hp1 Hpv Hin Hev. pose proof (pend_recs _ _ _ _ Hp) as Hrs.
  pose proof Hrs as [(Hrec & Hl8 & Hmax) _]%Forall_cons.
  pose proof (pend_ok _ _ _ _ Hp1) as Hok. pose proof (pend_prev _ _ _ _ Hp) as [Hpr Hal].
  unfold perf_mmap__unread_event. destruct (Z.eqb_spec (refcnt m1) 0) as [H0|_];
    [by destruct (ring_ref k m1 Hok)|].
  rewrite (event_bytes_size m1 r bs) by done. cbn [mbind option_bind overwrite with_start start].
  rewrite (ring_mode k m1 Hok), (pend_start _ _ _ _ Hp1), Hpv, u64_sub_l.
  rewrite Z.add_simpl_r, u64_small by done. eexists. split; [done|].
  cbn [prev start with_prev with_start]. split; [done|].
  split; [by rewrite (pend_start _ _ _ _ Hp)|].
  split; try by eapply pend_recs || by eapply pend_fits.
  - by destruct Hok.
  - by apply (pend_page _ _ _ _ Hp1).
  - done.
  - done.
  - by apply (pend_head _ _ _ _ Hp1).
  - unfold in_ring. cbn [ring with_prev with_start prev concat].
    rewrite length_app, circ_app. f_equal; [done|].
    pose proof (pend_ring _ _ _ _ Hp1) as Hr1. unfold in_ring in Hr1. rewrite <- Hr1 at 2.
    rewrite Hpv. symmetry. pose proof (ring_k k m1 Hok).
    apply circ_mod; [done|]. by rewrite mod_u64.
  - by apply (pend_len _ _ _ _ Hp).
Qed.

(** ** A record too long for [event_copy]'s type

    The straddling copy stops at [sizeof(union perf_event)] bytes. *)
Lemma read_truncates k m pos end0 bs :
  ring_ok k m -> is_record bs -> in_ring k m pos bs -> pos mod 8 = 0 ->
  SIZEOF_PERF_EVENT < Z.of_nat (length bs) < 2 ^ 16 ->
  Z.of_nat (length bs) <= u64 (end0 - pos) <= 2 ^ k ->
  2 ^ k <= pos mod 2 ^ k + Z.of_nat (length bs) ->
  exists c, perf_mmap__read m pos end0
      = Some (Some InCopy, u64 (pos + Z.of_nat (length bs)), with_copy c m) /\
    mem_write (event_copy m) 0 (take (Z.to_nat SIZEOF_PERF_EVENT) bs) = Some c.
Proof.
  intros Hok Hrec Hin Hal Hmax Hav Hst. pose proof Hrec as [Hsz Hlen].
  pose proof (ring_k k m Hok) as Hk. pose proof (pow_k_bounds k Hk).
  pose proof (in_ring_header k m pos bs Hok Hrec Hin Hal) as Hhd.
  pose proof (Z.mod_pos_bound pos (2 ^ k) ltac:(lia)) as Hpos.
  unfold perf_mmap__read. rewrite s32_small by lia.
  destruct (Z.leb_spec HEADER_SIZE (u64 (end0 - pos))); [|lia].
  rewrite Hhd. cbn [mbind option_bind].
  destruct (Z.ltb_spec (Z.of_nat (length bs)) HEADER_SIZE); [lia|].
  destruct (Z.ltb_spec (u64 (end0 - pos)) (Z.of_nat (length bs))); [lia|].
  cbn [orb]. rewrite (ring_mask k m Hok), !land_msk, mod_u64 by done.
  pose proof (Z.mod_pos_bound (pos + Z.of_nat (length bs)) (2 ^ k) ltac:(lia)).
  destruct (Z.eqb_spec (pos mod 2 ^ k + Z.of_nat (length bs))
    ((pos + Z.of_nat (length bs)) mod 2 ^ k)) as [Hns|_]; [lia|]. cbn [negb mbind option_bind].
  rewrite Z.min_l by lia.
  destruct (copy_loop_spec k (S (Z.to_nat (Z.of_nat (length bs)))) m (u32 pos)
    SIZEOF_PERF_EVENT 0) as (c & Heq & Hw);
    [done|by apply ring_len|by apply ring_mask| |lia| |lia|].
  { unfold SIZEOF_PERF_EVENT, PATH_MAX. lia. }
  { rewrite (ring_copy k m Hok). unfold SIZEOF_PERF_EVENT, PATH_MAX. lia. }
  rewrite Heq. cbn [mbind option_bind overwrite with_copy]. rewrite (ring_mode k m Hok).
  exists c. split; [done|]. rewrite (circ_mod k Hk _ _ pos) in Hw by (by rewrite mod_u32).
  unfold in_ring in Hin. by rewrite <- (take_circ _ _ _ (length bs)), Hin in Hw by lia.
Qed.

Lemma mem_read_app_write b bs c n :
  mem_write b 0 bs = Some c -> Z.of_nat (length bs) <= n <= Z.of_nat (length b) ->
  mem_read c 0 n = Some (bs ++ take (Z.to_nat n - length bs) (drop (length bs) b)).
Proof.
  intros Hw Hn. pose proof (length_mem_write _ _ _ _ Hw).
  apply mem_write_Some in Hw as (_ & _ & ->). apply mem_read_Some. do 3 (split; [lia|]).
  simpl. rewrite drop_0, take_app, (take_ge bs) by lia. done.
Qed.

(** ** Overwrite mode: the readable range ends within the buffer

    [sizes_ok buf k] holds when every aligned header of the buffer has an
    aligned size, as the kernel writes them (stale or torn sizes included). *)
Definition sizes_ok (buf : list Z) (k : Z) : Prop :=
  Z.of_nat (length buf) = 2 ^ k /\
  forall o sz, 0 <= o < 2 ^ k -> o mod 8 = 0 -> header_size buf o = Some sz ->
    0 <= sz < 2 ^ 16 /\ sz mod 8 = 0.

Lemma find_range_step k buf evt :
  3 <= k <= 30 -> sizes_ok buf k -> 0 <= evt < 2 ^ 64 -> evt mod 8 = 0 ->
  exists sz, header_size buf (Z.land evt (2 ^ k - 1)) = Some sz /\
    0 <= sz < 2 ^ 16 /\ sz mod 8 = 0.
Proof.
  intros Hk [Hl Hsz] He Hal. rewrite land_msk by done. pose proof (pow_k_bounds k Hk).
  pose proof (Z.mod_pos_bound evt (2 ^ k) ltac:(lia)) as Hb.
  assert (2 ^ k = 8 * 2 ^ (k - 3)) as Hp.
  { change 8 with (2 ^ 3). rewrite <- Z.pow_add_r by lia. f_equal. lia. }
  assert ((evt mod 2 ^ k) mod 8 = 0) as Hm.
  { rewrite <- Znumtheory.Zmod_div_mod; [done|lia|lia|]. rewrite Hp. by exists (2 ^ (k - 3)); lia. }
  assert (evt mod 2 ^ k + 8 <= 2 ^ k) as Hroom by dlia.
  destruct (mem_read_total buf (evt mod 2 ^ k + 6) 2) as [bs Hbs]; [lia..|].
  assert (header_size buf (evt mod 2 ^ k) = Some (le_val bs)) as Hh.
  { unfold header_size, get_le. change (Z.of_nat 2) with 2. by rewrite Hbs. }
  exists (le_val bs). split; [done|]. by eapply Hsz.
Qed.

(** [d] bytes are scanned so far, the last record [psize] long. *)
Lemma find_range_loop_spec k buf start fuel : forall d psize,
  3 <= k <= 30 -> sizes_ok buf k -> 0 <= start < 2 ^ 64 -> start mod 8 = 0 ->
  0 <= d -> d mod 8 = 0 -> 0 <= psize < 2 ^ 16 -> psize mod 8 = 0 ->
  (d = 0 \/ psize <= d) -> d - psize < 2 ^ k -> Z.max 0 (2 ^ k - d) < Z.of_nat fuel * 8 ->
  exists e, find_range_loop fuel buf (2 ^ k - 1) start (u64 (start + d)) psize = Some (0, e) /\
    u64 (e - start) <= 2 ^ k /\ u64 (e - start) mod 8 = 0 /\
    (if d <? 2 ^ k then d else d - psize) <= u64 (e - start).
Proof.
  induction fuel as [|fuel IH]; intros d psize Hk Hok Hs Hal Hd Hd8 Hp Hp8 Hdp Hlt Hfuel.
  - exfalso. lia.
  - pose proof (pow_k_bounds k Hk) as Hb. cbn [find_range_loop].
    rewrite (u32_small (2 ^ k - 1 + 1)), u64_sub_l, Z.add_simpl_l, (u64_small d) by lia.
    replace (2 ^ k - 1 + 1) with (2 ^ k) by lia.
    destruct (Z.leb_spec (2 ^ k) d) as [Hfull|Hmore], (Z.ltb_spec d (2 ^ k)); try lia.
    + destruct (Z.ltb_spec (2 ^ k) d) as [Hover|Heq]; eexists; (split; [done|]).
      * rewrite !u64_sub_l, <- Z.sub_add_distr, u64_sub_l.
        replace (start + d - (psize + start)) with (d - psize) by lia.
        rewrite u64_small by lia. split; [lia|]. split; [dlia|lia].
      * rewrite !u64_sub_l, Z.add_simpl_l, u64_small by lia. split; [lia|]. split; [done|lia].
    + destruct (find_range_step k buf (u64 (start + d)))
        as (sz & -> & Hsz & Hsz8); [done|done|apply u64_range|apply u64_mod8; dlia|].
      cbn [mbind option_bind]. destruct (Z.eqb_spec sz 0) as [->|Hne].
      * eexists. split; [done|]. rewrite u64_sub_l, Z.add_simpl_l, u64_small by lia.
        split; [lia|]. split; [done|lia].
      * rewrite u64_add_l, <- Z.add_assoc.
        destruct (IH (d + sz) sz) as (e & He & ? & ? & ?); try done; try lia; [|].
        { assert (2 ^ k = 8 * 2 ^ (k - 3)) as Hp3.
          { change 8 with (2 ^ 3). rewrite <- Z.pow_add_r by lia. f_equal. lia. }
          dlia. }
        exists e. split; [done|]. split; [lia|]. split; [done|].
        destruct (Z.ltb_spec (d + sz) (2 ^ k)); lia.
Qed.

(** ** The seqlock of the page

    The kernel changes the fields only while the sequence count is odd, and the
    count only grows. *)
Record seqlock_writer (h : nat -> tsc_page) : Prop := {
  sw_mono t : lock (h t) <= lock (h (S t));
  sw_write t : conv (h (S t)) <> conv (h t) -> Z.odd (lock (h t)) = true
}.

Lemma writer_stable h (t u : nat) :
  seqlock_writer h -> (t <= u)%nat -> lock (h t) <= lock (h u) /\
  (lock (h u) = lock (h t) -> Z.odd (lock (h t)) = false -> conv (h u) = conv (h t)).
Proof.
  intros Hw. induction 1 as [|u Hle [IHm IHc]]; [done|].
  pose proof (sw_mono h Hw u) as Hm. split; [lia|]. intros Heq Hodd.
  rewrite <- IHc by (done || lia).
  destruct (decide (conv (h (S u)) = conv (h u))) as [|Hne]; [done|].
  apply (sw_write h Hw) in Hne. assert (lock (h u) = lock (h t)) as Hl by lia.
  by rewrite Hl, Hodd in Hne.
Qed.

Lemma read_tsc_loop_spec fuel pg (n : nat) : exists i : nat,
  (i <= fuel)%nat /\
  ((let m := (6 * i + n)%nat in
   let tc := TscConversion (time_shift (conv (pg (2 + m)%nat))) (time_mult (conv (pg (1 + m)%nat)))
               (time_zero (conv (pg (3 + m)%nat))) (cap_user_time_zero (conv (pg (4 + m)%nat))) in
   let stable j := lock (pg (5 + (6 * j + n))%nat) = lock (pg (6 * j + n)%nat) /\
                   Z.odd (lock (pg (6 * j + n)%nat)) = false in
   (forall j, (j < i)%nat -> ~ stable j) /\
   (stable i /\ read_tsc_loop fuel pg n = (if cap_user_time_zero tc then 0 else - EOPNOTSUPP, tc)
    \/ ~ stable i /\ i = fuel /\ read_tsc_loop fuel pg n = (- EINVAL, tc))) : Prop).
Proof.
  assert (forall z, (Z.land z 1 =? 0) = negb (Z.odd z)) as Hland.
  { intros z. change 1 with (Z.ones 1). rewrite Z.land_ones by lia. change (2 ^ 1) with 2.
    rewrite Zmod_odd. by destruct (Z.odd z). }
  revert n. induction fuel as [|fuel IH]; intros n; cbn [read_tsc_loop]; rewrite Hland;
    destruct ((lock (pg (5 + n)%nat) =? lock (pg n)) && negb (Z.odd (lock (pg n)))) eqn:E.
  - exists 0%nat. split; [done|]. cbn zeta. split; [lia|]. left.
    apply andb_prop in E as [E1 E2]. change (6 * 0 + n)%nat with n. split; [|done].
    split; [by apply Z.eqb_eq|by apply negb_true_iff].
  - exists 0%nat. split; [done|]. cbn zeta. split; [lia|]. right. change (6 * 0 + n)%nat with n.
    split; [|done].
    intros [H1 H2]. rewrite H1, H2, Z.eqb_refl in E. done.
  - exists 0%nat. split; [lia|]. cbn zeta. split; [lia|]. left.
    apply andb_prop in E as [E1 E2]. change (6 * 0 + n)%nat with n. split; [|done].
    split; [by apply Z.eqb_eq|by apply negb_true_iff].
  - destruct (IH (6 + n)%nat) as (i & Hi & Hall & Hcase). exists (S i). split; [lia|]. cbn zeta in *.
    assert (forall j, (6 * j + (6 + n) = 6 * S j + n)%nat) as Hidx by lia.
    split.
    + intros [|j] Hj; [|specialize (Hall j ltac:(lia)); by rewrite Hidx in Hall].
      change (6 * 0 + n)%nat with n. intros [H1 H2]. rewrite H1, H2, Z.eqb_refl in E. done.
    + rewrite Hidx in Hcase. destruct Hcase as [?|(? & -> & ?)]; [by left|by right].
Qed.

(** ** Properties *)

(** C1: reading a ring buffer in non-overwrite mode is lossless: when the kernel
    has completed the records [rs] between [prev] and the head (each at most
    [sizeof(union perf_event)] bytes, wherever it wraps around the end of the
    buffer), the read loop of [perf_event_handle_mmap] terminates and processes
    exactly these records, whole and in order, after one read of the clock
    parameters, and gives their space back to the kernel; if the buffer is only
    kept alive by its own reference it is unmapped after the last record and
    never before. *)
Theorem mmap_drain_lossless `{!Device D} k head (d : D) m rs :
  order_enabled d = false -> pending k head (with_start (prev m) m) rs -> flush m = 0 ->
  exists m' ws, length ws = length rs /\
    perf_event_handle_mmap (S (length rs)) d m
      = Some (process_all (read_tsc d (with_end head (with_start (prev m) m))) rs ws, m') /\
    drained head m' /\
    (base m' = None <-> refcnt m = 1 /\ rs <> []) /\
    (is_Some (base m') -> rs <> [] -> tail_of m' = Some head).
Proof.
  intros Hen Hp Hfl. unfold perf_event_handle_mmap. rewrite Hen.
  rewrite (read_init_pending k head m rs) by done. cbn [mbind option_bind Z.ltb].
  set (m0 := with_end head (with_start (prev m) m)).
  destruct (handle_loop_drains k head (S (length rs)) (read_tsc d m0) m0 rs)
    as (m' & ws & Hws & Heq & Hd & Hb & Ht); [by apply pending_end|lia|].
  exists m', ws. change (0 <? 0) with false. rewrite Heq. do 3 (split; [done|]).
  split; [done|]. intros Hs Hrs. rewrite (Ht Hs). by rewrite decide_False.
Qed.

(** [perf_mmap__unread_event] undoes [perf_mmap__read_event]: after a complete
    record is read and put back before it is consumed, the cursors are where
    they were, and reading again delivers the same bytes and leaves the cursors
    where the first read did. *)
Theorem mmap_unread_read k head m bs rs :
  pending k head m (bs :: rs) ->
  exists r w m1 m2, perf_mmap__read_event m = Some (Some r, Some w, m1) /\
    perf_mmap__unread_event m1 (Some r) = Some m2 /\ prev m2 = prev m /\ start m2 = start m /\
    exists r' w' m3, perf_mmap__read_event m2 = Some (Some r', Some w', m3) /\
      event_bytes m3 r' = Some bs /\ prev m3 = prev m1.
Proof.
  intros Hp. destruct (read_consume_step k head m bs rs Hp)
    as (r & w & m1 & Hrd & _ & Hev & Hp1 & Hpv & _ & _ & Hin).
  destruct (unread_pending k head m bs rs m1 r) as (m2 & Hun & Hpm & Hst & Hp2); [done..|].
  destruct (read_consume_step k head m2 bs rs Hp2)
    as (r' & w' & m3 & Hrd' & _ & Hev' & _ & Hpv' & _).
  exists r, w, m1, m2. do 4 (split; [done|]). exists r', w', m3. do 2 (split; [done|]).
  by rewrite Hpv', Hpm, Hpv.
Qed.

(** the clock conversion parameters read from the page are consistent: whatever
    the kernel writes meanwhile, when the function does not give up, the four
    fields are those the page held together at one instant outside any update
    (and the result is 0 or [-EOPNOTSUPP] according to its
    [cap_user_time_zero]); it gives up with [-EINVAL] only after 10001 passes
    that all saw an update in progress or completed. *)
Theorem tsc_conversion_consistent h (at_ : nat -> nat) :
  seqlock_writer h -> (forall n, at_ n <= at_ (S n))%nat ->
  let '(r, tc) := perf_mmap__read_tsc_conversion (fun n => h (at_ n)) in
  (exists n, Z.odd (lock (h (at_ n))) = false /\ tc = conv (h (at_ n)) /\
     r = if cap_user_time_zero tc then 0 else - EOPNOTSUPP) \/
  (r = - EINVAL /\ forall i, (i <= Z.to_nat 10000)%nat ->
     lock (h (at_ (6 * i + 5)%nat)) <> lock (h (at_ (6 * i)%nat)) \/
     Z.odd (lock (h (at_ (6 * i)%nat))) = true).
Proof.
  intros Hw Hat. set (pg := fun n => h (at_ n)).
  assert (forall a b, (a <= b)%nat -> (at_ a <= at_ b)%nat) as Hmono.
  { intros a b. induction 1 as [|b _ IH]; [done|]. specialize (Hat b). lia. }
  unfold perf_mmap__read_tsc_conversion.
  destruct (read_tsc_loop_spec (Z.to_nat 10000) pg 0) as (i & Hi & Hall & Hcase).
  cbn zeta in *. set (m := (6 * i + 0)%nat) in *.
  destruct Hcase as [[[Heq Hodd] ->]|(Hns & -> & ->)].
  - left. exists m. split; [done|].
    assert (forall j, (j <= 5)%nat -> conv (pg (j + m)%nat) = conv (pg m)) as Hc.
    { intros j Hj. pose proof (Hmono m (j + m)%nat ltac:(lia)) as Ht1.
      pose proof (Hmono (j + m)%nat (5 + m)%nat ltac:(lia)) as Ht2.
      destruct (writer_stable h _ _ Hw Ht1) as [Hm1 Hc1].
      destruct (writer_stable h _ _ Hw Ht2) as [Hm2 _].
      apply Hc1; [|done]. unfold pg in Heq. lia. }
    rewrite !Hc by lia. unfold pg. split; [by destruct (conv (h (at_ m)))|].
    by destruct (conv (h (at_ m))).
  - right. split; [done|]. intros j Hj.
    assert (~ (lock (pg (5 + (6 * j + 0))%nat) = lock (pg (6 * j + 0)%nat) /\
               Z.odd (lock (pg (6 * j + 0)%nat)) = false)) as Hn.
    { destruct (decide (j < Z.to_nat 10000)%nat) as [Hlt|]; [by apply Hall|].
      replace j with (Z.to_nat 10000) by lia. done. }
    replace (6 * j + 5)%nat with (5 + (6 * j + 0))%nat by lia.
    replace (6 * j)%nat with (6 * j + 0)%nat at 2 3 by lia. fold (pg (5 + (6 * j + 0))%nat).
    fold (pg (6 * j + 0)%nat). destruct (Z.odd (lock (pg (6 * j + 0)%nat))) eqn:Ho; [by right|left].
    intros ?. by apply Hn.
Qed.

(** C39: in overwrite mode the range scan terminates on every buffer whose aligned
    headers hold aligned sizes (whatever stale or torn data they are), and the
    range it reports is aligned and never longer than the buffer. *)
Theorem overwrite_range_bounded k buf start :
  3 <= k <= 30 -> sizes_ok buf k -> 0 <= start < 2 ^ 64 -> start mod 8 = 0 ->
  exists e, overwrite_rb_find_range buf (2 ^ k - 1) start = Some (0, e) /\
    u64 (e - start) <= 2 ^ k /\ u64 (e - start) mod 8 = 0.
Proof.
  intros Hk Hok Hs Hal. pose proof (pow_k_bounds k Hk).
  destruct (find_range_step k buf start) as (sz & Hsz & Hr & Hm); [done..|].
  unfold overwrite_rb_find_range. rewrite Hsz. cbn [mbind option_bind].
  destruct (find_range_loop_spec k buf start (S (S (Z.to_nat (2 ^ k - 1)))) 0 sz)
    as (e & He & ? & ? & _); try done; try lia.
  exists e. rewrite Z.add_0_r, u64_small in He by done. done.
Qed.

(** a record longer than [sizeof(union perf_event)] (4168 bytes; samples may be
    up to 65535) that reaches the end of the buffer is not delivered whole: the
    straddling copy keeps its first 4168 bytes only, and the rest of what the
    caller sees under the record's [header.size] is what earlier copies left in
    [event_copy]. *)
Theorem mmap_straddling_truncated k m pos end0 bs :
  ring_ok k m -> is_record bs -> in_ring k m pos bs -> pos mod 8 = 0 ->
  SIZEOF_PERF_EVENT < Z.of_nat (length bs) < 2 ^ 16 ->
  Z.of_nat (length bs) <= u64 (end0 - pos) <= 2 ^ k ->
  2 ^ k <= pos mod 2 ^ k + Z.of_nat (length bs) ->
  exists c, perf_mmap__read m pos end0
      = Some (Some InCopy, u64 (pos + Z.of_nat (length bs)), with_copy c m) /\
    event_bytes (with_copy c m) InCopy
      = Some (take (Z.to_nat SIZEOF_PERF_EVENT) bs ++
              take (length bs - Z.to_nat SIZEOF_PERF_EVENT)
                (drop (Z.to_nat SIZEOF_PERF_EVENT) (event_copy m))).
Proof.
  intros Hok Hrec Hin Hal Hmax Hav Hst.
  destruct (read_truncates k m pos end0 bs) as (c & Hrd & Hw); [done..|].
  exists c. split; [done|]. pose proof (ring_copy k m Hok) as Hcl.
  set (N := Z.to_nat SIZEOF_PERF_EVENT) in *.
  assert (Z.of_nat N = SIZEOF_PERF_EVENT) as HN by (unfold N, SIZEOF_PERF_EVENT, PATH_MAX; lia).
  assert (SIZEOF_PERF_EVENT = 4168) as HS by done.
  assert (length (take N bs) = N) as Htl by (rewrite length_take; lia).
  assert (mem_read c 0 (Z.of_nat (length bs)) = Some (take N bs ++
    take (length bs - N) (drop N (event_copy m)))) as Hc.
  { rewrite (mem_read_app_write _ _ _ _ Hw) by lia. by rewrite Htl, Nat2Z.id. }
  unfold event_bytes. cbn [event_block event_copy with_copy].
  assert (header_size c 0 = header_size bs 0) as Hh.
  { pose proof (length_mem_write _ _ _ _ Hw) as Hl.
    apply (header_size_ext _ _ _ _ 8); [|apply mem_read_total; lia|lia].
    assert (mem_read bs 0 8 = Some (take 8 bs)) as ->.
    { apply mem_read_Some. do 3 (split; [lia|]). done. }
    apply mem_write_Some in Hw as (_ & _ & ->). apply mem_read_Some.
    do 3 (split; [lia|]). simpl. rewrite drop_0, take_app_le by (rewrite length_take; lia).
    rewrite take_take. f_equal. }
  destruct Hrec as [Hsz _]. rewrite Hh, Hsz. cbn [mbind option_bind]. by rewrite Hc.
Qed.

(** ** Concrete buffers *)

Module Example.
(** One record of 16 bytes at positions 8..24 of a 16-byte buffer: it wraps. *)
Definition rec16 : list Z := [9; 0; 0; 0; 0; 0; 16; 0; 1; 2; 3; 4; 5; 6; 7; 8].
Definition ring16 : list Z := [1; 2; 3; 4; 5; 6; 7; 8; 9; 0; 0; 0; 0; 0; 16; 0].
Definition copy0 : list Z := replicate (Z.to_nat (2 ^ 16)) 0.
Definition map16 : perf_mmap :=
  PerfMmap (Some (MmapPage 24 8 0)) ring16 15 1 8 8 8 false 0 copy0.

(** A backward buffer holding records of 8 and 16 bytes. *)
Definition ring_back : list Z := [9; 0; 0; 0; 0; 0; 8; 0; 9; 0; 0; 0; 0; 0; 16; 0].

(** A record of 4176 bytes in the last 8 bytes of an 8 KiB buffer. *)
Definition rec4176 : list Z := [9; 0; 0; 0; 0; 0; 80; 16] ++ replicate (Z.to_nat 4168) 7.
Definition ring8k : list Z :=
  replicate (Z.to_nat 4168) 7 ++ replicate (Z.to_nat 4016) 0 ++ [9; 0; 0; 0; 0; 0; 80; 16].
Definition map8k : perf_mmap :=
  PerfMmap (Some (MmapPage 12360 8184 0)) ring8k 8191 1 8184 8184 12360 false 0 copy0.

(** A device that records what it is given. *)
Definition recorder : Device (list (list Z * bool)) := {|
  order_enabled := fun _ => false;
  order_mmap := fun _ _ => None;
  read_tsc := fun d _ => d;
  process := fun d bs w => d ++ [(bs, w)]
|}.

(** The parameters are updated once, between reads 2 and 5. *)
Definition page_hist (t : nat) : tsc_page :=
  if decide (t < 2)%nat then TscPage 4 (TscConversion 10 500 0 true)
  else if decide (t < 3)%nat then TscPage 5 (TscConversion 10 500 0 true)
  else if decide (t < 6)%nat then TscPage 5 (TscConversion 11 (100 * Z.of_nat t) 3 true)
  else TscPage 6 (TscConversion 11 600 3 true).
End Example.

#[local] Existing Instance Example.recorder.

Lemma length_copy0 : length Example.copy0 = Z.to_nat (2 ^ 16).
Proof. apply length_replicate. Qed.

Lemma map16_ok : ring_ok 4 Example.map16.
Proof. split; [lia|done|done|exact length_copy0|done|done]. Qed.

Lemma map16_pending : pending 4 24 Example.map16 [Example.rec16].
Proof.
  split; [exact map16_ok|by eexists|done|done|done| |done|done|done].
  apply Forall_singleton. split; [split; done|]. done.
Qed.

Lemma mmap_drain_lossless_witness :
  exists m' (w : bool), perf_event_handle_mmap 2 [] Example.map16 = Some ([(Example.rec16, w)], m') /\
    drained 24 m' /\ base m' = None.
Proof.
  destruct (@mmap_drain_lossless _ Example.recorder 4 24 [] Example.map16 [Example.rec16]
    eq_refl map16_pending eq_refl) as (m' & ws & Hws & Heq & Hd & Hb & _).
  destruct ws as [|w [|? ?]]; [discriminate Hws| |discriminate Hws].
  exists m', w. split; [exact Heq|]. split; [exact Hd|].
  refine (proj2 Hb (conj eq_refl _)). discriminate.
Defined.

Lemma mmap_unread_read_witness :
  exists r w m1 m2, perf_mmap__read_event Example.map16 = Some (Some r, Some w, m1) /\
    perf_mmap__unread_event m1 (Some r) = Some m2 /\ prev m2 = 8.
Proof.
  destruct (mmap_unread_read 4 24 Example.map16 Example.rec16 [] map16_pending)
    as (r & w & m1 & m2 & H1 & H2 & H3 & _).
  exists r, w, m1, m2. exact (conj H1 (conj H2 H3)).
Defined.

Lemma page_hist_writer : seqlock_writer Example.page_hist.
Proof.
  split; intros t; unfold Example.page_hist; repeat case_decide; cbn [lock conv];
    try lia; intros Hne; first [done | by destruct Hne].
Qed.

Lemma tsc_conversion_consistent_witness :
  exists n, Z.odd (lock (Example.page_hist n)) = false /\
    TscConversion 11 600 3 true = conv (Example.page_hist n).
Proof.
  pose proof (tsc_conversion_consistent Example.page_hist id page_hist_writer
    Nat.le_succ_diag_r) as H.
  assert (perf_mmap__read_tsc_conversion (fun n => Example.page_hist (id n))
    = (0, TscConversion 11 600 3 true)) as E by (vm_compute; reflexivity).
  rewrite E in H. destruct H as [(n & Ho & Hc & _)|[Hf _]]; [|discriminate].
  exists n. exact (conj Ho Hc).
Defined.

Lemma ring_back_sizes : sizes_ok Example.ring_back 4.
Proof.
  split; [done|]. intros o sz Ho Hal. assert (o = 0 \/ o = 8) as [-> | ->] by dlia.
  - change (header_size Example.ring_back 0) with (Some 8). by intros [= <-].
  - change (header_size Example.ring_back 8) with (Some 16). by intros [= <-].
Qed.

Lemma overwrite_range_bounded_witness :
  exists e, overwrite_rb_find_range Example.ring_back 15 8 = Some (0, e) /\
    u64 (e - 8) <= 2 ^ 4 /\ u64 (e - 8) mod 8 = 0.
Proof.
  apply (overwrite_range_bounded 4 Example.ring_back 8); [lia|exact ring_back_sizes|lia|done].
Defined.

Lemma map8k_ok : ring_ok 13 Example.map8k.
Proof.
  split; [lia| |done|exact length_copy0|done|done].
  cbn [ring Example.map8k]. unfold Example.ring8k. rewrite !length_app, !length_replicate. done.
Qed.

Lemma rec4176_length : length Example.rec4176 = Z.to_nat 4176.
Proof. unfold Example.rec4176. rewrite length_app, length_replicate. done. Qed.

Lemma map8k_in_ring : in_ring 13 Example.map8k 8184 Example.rec4176.
Proof. unfold in_ring. vm_compute. reflexivity. Qed.

Lemma rec4176_record : is_record Example.rec4176.
Proof. split; rewrite rec4176_length; vm_compute; [reflexivity|discriminate]. Qed.

Lemma mmap_straddling_truncated_witness :
  exists c, perf_mmap__read Example.map8k 8184 12360
      = Some (Some InCopy, u64 (8184 + Z.of_nat (length Example.rec4176)), with_copy c Example.map8k) /\
    event_bytes (with_copy c Example.map8k) InCopy
      = Some (take (Z.to_nat SIZEOF_PERF_EVENT) Example.rec4176 ++
              take (length Example.rec4176 - Z.to_nat SIZEOF_PERF_EVENT)
                (drop (Z.to_nat SIZEOF_PERF_EVENT) Example.copy0)).
Proof.
  apply (mmap_straddling_truncated 13 Example.map8k 8184 12360 Example.rec4176 map8k_ok
    rec4176_record map8k_in_ring eq_refl); rewrite rec4176_length, Z2Nat.id by lia;
    [split; reflexivity|split; vm_compute; discriminate|vm_compute; discriminate].
Defined.
