(* ===== verification/Convert.v ===== *)
(** * Clock conversion (convert.c, include/linux/math64.h, arch/x86/include/asm/pvclock.h)

    Events carry [perfclock] times; the user may want them as TSC values, as a
    guest's kvmclock or shifted by an offset ([evclock]).  Times are 64-bit
    unsigned; an operation that traps (a zero divisor, a [divq] whose quotient
    does not fit) or a shift outside the width of the type is [None].  The x86-64
    variants are modelled. *)

From S2P Require Import Prelude Bytes Mmap.

(** ** 128-bit helpers *)

Definition mul_u64_u32_shr (a b shift : Z) : option Z :=
  if (0 <=? shift) && (shift <? 128) then Some (u64 (Z.shiftr (a * b) shift)) else None.

Definition mul_u64_u64_shr (a mul shift : Z) : option Z :=
  if (0 <=? shift) && (shift <? 128) then Some (u64 (Z.shiftr (a * mul) shift)) else None.

(** [mulq; divq]: the division faults on a zero divisor or a wide quotient. *)
Definition mul_u64_u64_div64 (a b c : Z) : option Z :=
  if c =? 0 then None
  else let q := a * b / c in if q <? 2 ^ 64 then Some q else None.

(** ** TSC and perfclock *)

Definition perfclock_to_tsc (tc : tsc_conversion) (ns : Z) : option Z :=
  let t := u64 (ns - time_zero tc) in
  quot ← div_u t (time_mult tc);
  rem ← mod_u t (time_mult tc);
  a ← shl64 quot (time_shift tc);
  b ← shl64 rem (time_shift tc);
  b ← div_u b (time_mult tc);
  Some (u64 (a + b)).

(** [tsc_to_perfclock], and [tsc_to_fixed_perfclock] on the corrected parameters. *)
Definition tsc_to_perfclock (tc : tsc_conversion) (tsc : Z) : option Z :=
  ns ← mul_u64_u32_shr tsc (time_mult tc) (time_shift tc);
  Some (u64 (ns + time_zero tc)).

Definition tsc_to_fixed_perfclock (fixed : tsc_conversion) (tsc : Z) : option Z :=
  ns ← mul_u64_u32_shr tsc (time_mult fixed) (time_shift fixed);
  Some (u64 (ns + time_zero fixed)).

(** ** Scaling setup

    [kvm_tsc_scaling_ratio_frac_bits] and [kvm_default_tsc_scaling_ratio]. *)
Record kvm_scaling := KvmScaling { frac_bits : Z; default_ratio : Z; once : Z }.

Definition kvm_scaling0 : kvm_scaling := KvmScaling 0 0 0.

Definition CPU_BASED_ACTIVATE_SECONDARY_CONTROLS : Z := 0x80000000.
Definition SECONDARY_EXEC_TSC_SCALING : Z := 0x02000000.

Definition adjust_vmx_controls (msr_value : Z) : Z :=
  let vmx_msr_low := u32 msr_value in
  let vmx_msr_high := Z.shiftr msr_value 32 in
  let ctl := u32 (-1) in
  let ctl := Z.land ctl vmx_msr_high in
  let ctl := Z.lor ctl vmx_msr_low in
  s32 ctl.

Inductive cpu_vendor := X86_VENDOR_INTEL | X86_VENDOR_AMD | X86_VENDOR_OTHER.

(** What the hardware answers: the two MSRs ([None] when [/dev/cpu/N/msr] cannot
    be opened or read) and the CPUID leaves (eax of 0x80000000, edx of 0x8000000a). *)
Record hardware := Hardware {
  vendor : cpu_vendor;
  msr_procbased : option Z;
  msr_procbased2 : option Z;
  cpuid_max_leaf : Z;
  cpuid_svm_edx : Z
}.

Definition tsc_scaling_setup (hw : hardware) (g : kvm_scaling) : Z * kvm_scaling :=
  if negb (once g =? 0) then (once g, g)
  else
    let g := KvmScaling (frac_bits g) (default_ratio g) (-1) in
    match vendor hw with
    | X86_VENDOR_INTEL =>
        match msr_procbased hw with
        | None => (-1, g)
        | Some v =>
            if Z.land (adjust_vmx_controls v) CPU_BASED_ACTIVATE_SECONDARY_CONTROLS =? 0 then (-1, g)
            else
              match msr_procbased2 hw with
              | None => (-1, g)
              | Some v2 =>
                  if Z.land (adjust_vmx_controls v2) SECONDARY_EXEC_TSC_SCALING =? 0 then (-1, g)
                  else (1, KvmScaling 48 (2 ^ 48) 1)
              end
        end
    | X86_VENDOR_AMD =>
        if 0x8000000a <=? cpuid_max_leaf hw then
          if Z.land (cpuid_svm_edx hw) 0x8 =? 0 then (-1, g)
          else (1, KvmScaling 32 (2 ^ 32) 1)
        else (-1, g)
    | X86_VENDOR_OTHER => (-1, g)
    end.

(** ** kvmclock *)

(** [struct pvclock_vcpu_time_info]; [tsc_shift] is signed. *)
Record pvclock := Pvclock {
  version : Z; tsc_timestamp : Z; system_time : Z;
  tsc_to_system_mul : Z; tsc_shift : Z; pv_flags : Z
}.

(** [struct vcpu_data] of vcpu 0. *)
Record vcpu_data := VcpuData {
  pvclock_update : bool;
  tsc_offset : Z;
  tsc_scaling_ratio : Z;
  tsc_scaling_ratio_frac_bits : Z;
  pvti : pvclock
}.

Definition __scale_tsc (g : kvm_scaling) (ratio tsc : Z) : option Z :=
  mul_u64_u64_shr tsc ratio (frac_bits g).

Definition kvm_scale_tsc (g : kvm_scaling) (v0 : vcpu_data) (tsc : Z) : option Z :=
  let ratio := tsc_scaling_ratio v0 in
  if negb (ratio =? default_ratio g) then __scale_tsc g ratio tsc else Some tsc.

Definition kvm_read_l1_tsc (g : kvm_scaling) (v0 : vcpu_data) (host_tsc : Z) : option Z :=
  t ← kvm_scale_tsc g v0 host_tsc; Some (u64 (tsc_offset v0 + t)).

Definition pvclock_scale_delta (delta mul_frac shift : Z) : option Z :=
  delta ← (if shift <? 0 then shr64 delta (- shift) else shl64 delta shift);
  Some (u64 (Z.shiftr (delta * mul_frac) 32)).

Definition __pvclock_read_cycles (src : pvclock) (tsc : Z) : option Z :=
  let delta := u64 (tsc - tsc_timestamp src) in
  offset ← pvclock_scale_delta delta (tsc_to_system_mul src) (tsc_shift src);
  Some (u64 (system_time src + offset)).

Definition host_tsc_to_kvmclock (g : kvm_scaling) (v0 : vcpu_data) (host_tsc : Z) : option Z :=
  guest_tsc ← kvm_read_l1_tsc g v0 host_tsc;
  __pvclock_read_cycles (pvti v0) guest_tsc.

Definition perfclock_to_kvmclock (g : kvm_scaling) (v0 : vcpu_data) (tc : tsc_conversion)
    (time : Z) : option Z :=
  host_tsc ← perfclock_to_tsc tc time;
  host_tsc_to_kvmclock g v0 host_tsc.

Definition kvmclock_to_perfclock (g : kvm_scaling) (v0 : vcpu_data) (tc : tsc_conversion)
    (time : Z) : option Z :=
  let shift := tsc_shift (pvti v0) - 32 in
  let shift := if shift <? 0 then - shift else shift in
  let offset := u64 (time - system_time (pvti v0)) in
  one ← shl64 1 shift;
  delta ← mul_u64_u64_div64 offset one (tsc_to_system_mul (pvti v0));
  let guest_tsc := u64 (delta + tsc_timestamp (pvti v0)) in
  let host_tsc := u64 (guest_tsc - tsc_offset v0) in
  host_tsc ← (if negb (tsc_scaling_ratio v0 =? default_ratio g)
              then mul_u64_u64_div64 guest_tsc (default_ratio g) (tsc_scaling_ratio v0)
              else Some host_tsc);
  tsc_to_perfclock tc host_tsc.

(** ** The device *)

Inductive convert_to := CONVERT_NONE | CONVERT_TO_TSC | CONVERT_TO_KVMCLOCK | CONVERT_ADD_OFFSET.

#[export] Instance convert_to_eq_dec : EqDecision convert_to.
Proof. solve_decision. Defined.

Record env := Env { env_tsc : bool; kvmclock : option Z; clock_offset : Z }.

(** [struct perf_sample_pos]; -1 is absent. *)
Record sample_pos := SamplePos {
  sample_type : Z; tid_pos : Z; time_pos : Z; id_pos : Z; cpu_pos : Z
}.

(** [struct prof_dev], the fields of conversion.  [vcpu] is the pointer to the
    shared [struct vcpu_info], [conv_copy] the buffer of [event_copy]. *)
Record dev := Dev {
  denv : env;
  pos : sample_pos;
  need_conv : convert_to;
  need_fixed : bool;
  tsc_conv : tsc_conversion;
  tsc_conv_fixed : tsc_conversion;
  vcpu : option Z;
  conv_copy : option (list Z);
  forwarded_time_pos : Z;
  last_evtime : Z;
  enabled : bool
}.

(** The vcpus are shared by the devices. *)
Record kvm := Kvm { scaling : kvm_scaling; vcpus : gmap Z vcpu_data }.

Definition dev_vcpu (w : kvm) (d : dev) : option vcpu_data := p ← vcpu d; vcpus w !! p.

Definition __perfclock_to_evclock (w : kvm) (d : dev) (time : Z) : option Z :=
  evclock ← match need_conv d with
            | CONVERT_TO_TSC => perfclock_to_tsc (tsc_conv d) time
            | CONVERT_TO_KVMCLOCK =>
                v0 ← dev_vcpu w d; perfclock_to_kvmclock (scaling w) v0 (tsc_conv d) time
            | _ => Some time
            end;
  Some (u64 (evclock + clock_offset (denv d))).

Definition perfclock_to_evclock (w : kvm) (d : dev) (time : Z) : option Z :=
  if decide (need_conv d = CONVERT_NONE) then Some time else __perfclock_to_evclock w d time.

Definition evclock_to_perfclock (w : kvm) (d : dev) (time : Z) : option Z :=
  if decide (need_conv d = CONVERT_NONE) then Some time
  else
    let time := u64 (time - clock_offset (denv d)) in
    match need_conv d with
    | CONVERT_TO_TSC => tsc_to_perfclock (tsc_conv d) time
    | CONVERT_TO_KVMCLOCK =>
        v0 ← dev_vcpu w d; kvmclock_to_perfclock (scaling w) v0 (tsc_conv d) time
    | _ => Some time
    end.

(** The label [convert_none]. *)
Definition real_ns_none (d : dev) (time : Z) : option Z :=
  if need_fixed d then
    tsc ← perfclock_to_tsc (tsc_conv d) time;
    tsc_to_fixed_perfclock (tsc_conv_fixed d) tsc
  else Some time.

Definition evclock_to_real_ns (d : dev) (time : Z) : option Z :=
  if decide (need_conv d = CONVERT_NONE) then real_ns_none d time
  else
    let time := u64 (time - clock_offset (denv d)) in
    match need_conv d with
    | CONVERT_TO_TSC =>
        if need_fixed d then tsc_to_fixed_perfclock (tsc_conv_fixed d) time
        else tsc_to_perfclock (tsc_conv d) time
    | CONVERT_TO_KVMCLOCK => Some time
    | _ => real_ns_none d time
    end.

(** ** Sample layout *)

Definition PERF_SAMPLE_IP : Z := Z.shiftl 1 0.
Definition PERF_SAMPLE_TID : Z := Z.shiftl 1 1.
Definition PERF_SAMPLE_TIME : Z := Z.shiftl 1 2.
Definition PERF_SAMPLE_ADDR : Z := Z.shiftl 1 3.
Definition PERF_SAMPLE_ID : Z := Z.shiftl 1 6.
Definition PERF_SAMPLE_CPU : Z := Z.shiftl 1 7.
Definition PERF_SAMPLE_STREAM_ID : Z := Z.shiftl 1 9.
Definition PERF_SAMPLE_IDENTIFIER : Z := Z.shiftl 1 16.

(** [struct perf_event_attr], the fields used here. *)
Record event_attr := EventAttr { sample_period : Z; attr_sample_type : Z }.

Definition is_sampling_event (attr : event_attr) : bool := negb (sample_period attr =? 0).

Definition POS_MASK : Z :=
  fold_right Z.lor 0 [PERF_SAMPLE_IDENTIFIER; PERF_SAMPLE_IP; PERF_SAMPLE_TID; PERF_SAMPLE_TIME;
                      PERF_SAMPLE_ADDR; PERF_SAMPLE_ID; PERF_SAMPLE_STREAM_ID; PERF_SAMPLE_CPU].

(** The common sample type of the sampling events, [None] on a mismatch. *)
Fixpoint common_sample_type (evlist : list event_attr) (st : Z) : option Z :=
  match evlist with
  | [] => Some st
  | attr :: evlist =>
      if is_sampling_event attr then
        if st =? 0 then common_sample_type evlist (Z.land (attr_sample_type attr) POS_MASK)
        else if negb (st =? Z.land (attr_sample_type attr) POS_MASK) then None
        else common_sample_type evlist st
      else common_sample_type evlist st
  end.

Definition has (st flag : Z) : bool := negb (Z.land st flag =? 0).

Definition pos_of (st : Z) : sample_pos :=
  let p := 0 in
  let p := if has st PERF_SAMPLE_IDENTIFIER then p + 8 else p in
  let p := if has st PERF_SAMPLE_IP then p + 8 else p in
  let tid := if has st PERF_SAMPLE_TID then p else -1 in
  let p := if has st PERF_SAMPLE_TID then p + (4 + 4) else p in
  let time := if has st PERF_SAMPLE_TIME then p else -1 in
  let p := if has st PERF_SAMPLE_TIME then p + 8 else p in
  let p := if has st PERF_SAMPLE_ADDR then p + 8 else p in
  let id := if has st PERF_SAMPLE_ID then p else -1 in
  let p := if has st PERF_SAMPLE_ID then p + 8 else p in
  let p := if has st PERF_SAMPLE_STREAM_ID then p + 8 else p in
  let cpu := if has st PERF_SAMPLE_CPU then p else -1 in
  SamplePos st tid time id cpu.

Definition with_pos (p : sample_pos) (d : dev) : dev :=
  Dev (denv d) p (need_conv d) (need_fixed d) (tsc_conv d) (tsc_conv_fixed d) (vcpu d)
    (conv_copy d) (forwarded_time_pos d) (last_evtime d) (enabled d).
Definition with_env (e : env) (d : dev) : dev :=
  Dev e (pos d) (need_conv d) (need_fixed d) (tsc_conv d) (tsc_conv_fixed d) (vcpu d)
    (conv_copy d) (forwarded_time_pos d) (last_evtime d) (enabled d).
Definition with_need_conv (c : convert_to) (d : dev) : dev :=
  Dev (denv d) (pos d) c (need_fixed d) (tsc_conv d) (tsc_conv_fixed d) (vcpu d)
    (conv_copy d) (forwarded_time_pos d) (last_evtime d) (enabled d).
Definition with_fixed (b : bool) (tc : tsc_conversion) (d : dev) : dev :=
  Dev (denv d) (pos d) (need_conv d) b (tsc_conv d) tc (vcpu d)
    (conv_copy d) (forwarded_time_pos d) (last_evtime d) (enabled d).
Definition with_tsc_conv (tc : tsc_conversion) (d : dev) : dev :=
  Dev (denv d) (pos d) (need_conv d) (need_fixed d) tc (tsc_conv_fixed d) (vcpu d)
    (conv_copy d) (forwarded_time_pos d) (last_evtime d) (enabled d).
Definition with_vcpu (v : option Z) (d : dev) : dev :=
  Dev (denv d) (pos d) (need_conv d) (need_fixed d) (tsc_conv d) (tsc_conv_fixed d) v
    (conv_copy d) (forwarded_time_pos d) (last_evtime d) (enabled d).
Definition with_conv_copy (c : option (list Z)) (d : dev) : dev :=
  Dev (denv d) (pos d) (need_conv d) (need_fixed d) (tsc_conv d) (tsc_conv_fixed d) (vcpu d)
    c (forwarded_time_pos d) (last_evtime d) (enabled d).
Definition with_forwarded_time_pos (p : Z) (d : dev) : dev :=
  Dev (denv d) (pos d) (need_conv d) (need_fixed d) (tsc_conv d) (tsc_conv_fixed d) (vcpu d)
    (conv_copy d) p (last_evtime d) (enabled d).
Definition with_last_evtime (t : Z) (d : dev) : dev :=
  Dev (denv d) (pos d) (need_conv d) (need_fixed d) (tsc_conv d) (tsc_conv_fixed d) (vcpu d)
    (conv_copy d) (forwarded_time_pos d) t (enabled d).
Definition with_enabled (b : bool) (d : dev) : dev :=
  Dev (denv d) (pos d) (need_conv d) (need_fixed d) (tsc_conv d) (tsc_conv_fixed d) (vcpu d)
    (conv_copy d) (forwarded_time_pos d) (last_evtime d) b.

Definition perf_sample_pos_init (evlist : list event_attr) (d : dev) : Z * dev :=
  match common_sample_type evlist 0 with
  | None => (-1, d)
  | Some st => (0, with_pos (pos_of st) d)
  end.

Definition perf_sample_forward_init (evlist : list event_attr) (d : dev) : Z * dev :=
  let mask := Z.lor (Z.lor PERF_SAMPLE_TID PERF_SAMPLE_TIME) PERF_SAMPLE_CPU in
  let '(r, d) := perf_sample_pos_init evlist d in
  if r <? 0 then (-1, d)
  else
    let st := sample_type (pos d) in
    if negb (st =? 0) && negb (Z.land st mask =? mask) then (-1, d)
    else (0, with_forwarded_time_pos (4 + 4) d).

Definition perf_sample_time_init (evlist : list event_attr) (d : dev) : Z * dev :=
  let '(r, d) := perf_sample_pos_init evlist d in
  if r <? 0 then (-1, d)
  else
    let st := sample_type (pos d) in
    if negb (st =? 0) && negb (has st PERF_SAMPLE_TIME) then (-1, d)
    else (0, with_last_evtime U64_MAX d).

(** ** Setting up the conversion *)

(** What the system answers while a kvmclock is set up: [vcpu_info_get], whether
    the pvclock tracing device could be opened and enabled, and the three files
    of debugfs. *)
Record kvm_setup := KvmSetup {
  vcpu_info_get : Z -> option Z;
  open_ok : bool;
  enable_ok : bool;
  file_tsc_offset : option Z;
  file_scaling_ratio : option Z;
  file_frac_bits : option Z
}.

Definition vcpu_info_update_vcpu0_tsc (k : kvm_setup) (v : vcpu_data) : Z * vcpu_data :=
  match file_tsc_offset k with
  | None => (-1, v)
  | Some off =>
      let ratio := default 0 (file_scaling_ratio k) in
      let bits := default 0 (file_frac_bits k) in
      (0, VcpuData (pvclock_update v) off ratio bits (pvti v))
  end.

Definition with_pvclock_update (v : vcpu_data) : vcpu_data :=
  VcpuData true (tsc_offset v) (tsc_scaling_ratio v) (tsc_scaling_ratio_frac_bits v) (pvti v).

(** The last steps: wait for the first update, if none was seen. *)
Definition kvmclock_ready (w : kvm) (d : dev) (v0 : vcpu_data) : Z * kvm * dev :=
  let d := if version (pvti v0) =? 0 then with_enabled false d else d in
  (0, w, with_need_conv CONVERT_TO_KVMCLOCK d).

Definition perf_event_convert_kvmclock_init (hw : hardware) (k : kvm_setup) (w : kvm) (d : dev)
  : option (Z * kvm * dev) :=
  let w := Kvm (snd (tsc_scaling_setup hw (scaling w))) (vcpus w) in
  uuid ← kvmclock (denv d);
  let d := with_vcpu (vcpu_info_get k uuid) d in
  match vcpu d with
  | None => Some (-1, w, d)
  | Some p =>
      v0 ← vcpus w !! p;
      if pvclock_update v0 then Some (kvmclock_ready w d v0)
      else if negb (open_ok k) then Some (-1, w, d)
      else if negb (enable_ok k) then Some (-1, w, d)
      else
        let '(r, v0) := vcpu_info_update_vcpu0_tsc k v0 in
        let w := Kvm (scaling w) (<[p := v0]> (vcpus w)) in
        if r <? 0 then Some (-1, w, d)
        else
          let v0 := with_pvclock_update v0 in
          Some (kvmclock_ready (Kvm (scaling w) (<[p := v0]> (vcpus w))) d v0)
  end.

(** [malloc_ok] is whether the copy buffer could be allocated. *)
Definition perf_event_convert_init (hw : hardware) (k : kvm_setup) (malloc_ok : option (list Z))
    (evlist : list event_attr) (w : kvm) (d : dev) : option (Z * kvm * dev) :=
  let '(err, d) := perf_sample_time_init evlist d in
  let e := denv d in
  if negb (env_tsc e) && negb (bool_decide (is_Some (kvmclock e))) && (clock_offset e =? 0) then
    Some (0, w, with_need_conv CONVERT_NONE d)
  else if err <? 0 then Some (-1, w, d)
  else if has (sample_type (pos d)) PERF_SAMPLE_TIME then
    '(r, w, d) ← (if env_tsc e then Some (0, w, with_need_conv CONVERT_TO_TSC d)
                  else if bool_decide (is_Some (kvmclock e)) then
                    perf_event_convert_kvmclock_init hw k w d
                  else Some (0, w, with_need_conv CONVERT_ADD_OFFSET d));
    if r <? 0 then Some (-1, w, d)
    else
      let d := with_conv_copy malloc_ok d in
      if bool_decide (is_Some malloc_ok) then Some (0, w, d) else Some (-1, w, d)
  else
    let d := with_env (Env false (kvmclock e) 0) d in
    Some (0, w, with_need_conv CONVERT_NONE d).

(** [vcpu_info_put] belongs to vcpu_info.c.  The freed buffer may not be used again. *)
Definition perf_event_convert_deinit (vcpu_info_put : Z -> kvm -> kvm) (w : kvm) (d : dev)
  : kvm * dev :=
  let w := match vcpu d with Some p => vcpu_info_put p w | None => w end in
  (w, with_need_conv CONVERT_NONE (with_conv_copy None d)).

(** [pg] are the reads of the ring buffer's page. *)
Definition perf_event_convert_read_tsc_conversion (clocksource_is_tsc : bool)
    (pg : nat -> tsc_page) (d : dev) : dev :=
  if bool_decide (need_conv d = CONVERT_TO_TSC) || bool_decide (need_conv d = CONVERT_TO_KVMCLOCK)
  then
    let '(r, tc) := perf_mmap__read_tsc_conversion pg in
    let d := with_tsc_conv tc d in
    if (r =? - EOPNOTSUPP) || negb clocksource_is_tsc then
      let d := with_env (Env false (kvmclock (denv d)) 0) d in
      with_need_conv CONVERT_NONE d
    else d
  else d.

(** The event the caller goes on with: its own, or the copy. *)
Inductive converted := Original | Copied.

(** [ev] is the block the event pointer points to.  The result is the choice, the
    block and the device. *)
Definition perf_event_convert (w : kvm) (d : dev) (ev : list Z) (writable : bool)
  : option (converted * list Z * dev) :=
  if decide (need_conv d = CONVERT_NONE) then Some (Original, ev, d)
  else
    copy ← (if writable then Some ev
            else
              sz ← header_size ev 0;
              bs ← mem_read ev 0 sz;
              c ← conv_copy d;
              mem_write c 0 bs);
    let p := 8 + time_pos (pos d) in
    t ← get_le 8 copy p;
    t ← __perfclock_to_evclock w d t;
    copy ← set_le 8 copy p t;
    if writable then Some (Original, copy, d)
    else Some (Copied, ev, with_conv_copy (Some copy) d).

(** ** Updates of the guest's clock

    [struct kvm_pvclock_update] and [struct kvm_write_tsc_offset], told apart by
    [common_type]. *)
Record pvclock_raw := PvclockRaw {
  common_type : Z;
  raw_pvclock : pvclock;
  raw_vcpu_id : Z;
  raw_previous_offset : Z;
  raw_next_offset : Z
}.

Section pvclock_update.
(** [prof_dev_enable] of monitor.c. *)
Context (prof_dev_enable : dev -> dev).
Context (kvm_pvclock_update_id kvm_write_tsc_offset_id : Z).

(** [parent] is the device the events are reported to, [devs] the list of all. *)
Definition kvm_pvclock_update (raw : pvclock_raw) (parent : dev) (devs : list dev) (w : kvm)
  : option (list dev * kvm) :=
  p ← vcpu parent;
  v ← vcpus w !! p;
  if common_type raw =? kvm_pvclock_update_id then
    let v := VcpuData (pvclock_update v) (tsc_offset v) (tsc_scaling_ratio v)
               (tsc_scaling_ratio_frac_bits v) (raw_pvclock raw) in
    let devs := (fun d => if decide (vcpu d = Some p) then prof_dev_enable d else d) <$> devs in
    Some (devs, Kvm (scaling w) (<[p := v]> (vcpus w)))
  else if common_type raw =? kvm_write_tsc_offset_id then
    if (raw_vcpu_id raw =? 0) && (raw_previous_offset raw =? tsc_offset v) then
      let v := VcpuData (pvclock_update v) (raw_next_offset raw) (tsc_scaling_ratio v)
                 (tsc_scaling_ratio_frac_bits v) (pvti v) in
      Some (devs, Kvm (scaling w) (<[p := v]> (vcpus w)))
    else Some (devs, w)
  else Some (devs, w).
End pvclock_update.

(** ** The corrected TSC parameters *)

Fixpoint sftacc_loop (fuel : nat) (tmp sftacc : Z) : Z :=
  match fuel with
  | O => sftacc
  | S fuel => if tmp =? 0 then sftacc else sftacc_loop fuel (Z.shiftr tmp 1) (u32 (sftacc - 1))
  end.

(** [for (sft = 32; sft > 0; sft--)]: the quotient and the shift on exit. *)
Fixpoint mult_loop (sft : nat) (from to sftacc tmp : Z) : option (Z * Z) :=
  match sft with
  | O => Some (tmp, 0)
  | S sft' =>
      tmp ← shl64 to (Z.of_nat sft);
      let tmp := u64 (tmp + from / 2) in
      tmp ← div_u tmp from;
      acc ← shr64 tmp sftacc;
      if acc =? 0 then Some (tmp, Z.of_nat sft) else mult_loop sft' from to sftacc tmp
  end.

(** [*mult] and [*shift]; the arguments are 32-bit. *)
Definition clocks_calc_mult_shift (from to maxsec : Z) : option (Z * Z) :=
  let tmp := Z.shiftr (u64 (maxsec * from)) 32 in
  let sftacc := sftacc_loop 64 tmp 32 in
  '(tmp, sft) ← mult_loop 32 from to sftacc tmp;
  Some (u32 tmp, u16 sft).

Definition NSEC_PER_MSEC : Z := 1000000.

(** [old_kernel] is [kernel_release() < 4.12]; [tsc_khz] is what [get_tsc_khz]
    returned the first time. *)
Definition tsc_conv_fixed_init (old_kernel : bool) (tsc_khz : Z) (d : dev) : option dev :=
  if old_kernel then
    if 0 <? tsc_khz then
      '(mult, shift) ← clocks_calc_mult_shift (u32 tsc_khz) NSEC_PER_MSEC 0;
      let '(shift, mult) := if shift =? 32 then (31, Z.shiftr mult 1) else (shift, mult) in
      Some (with_fixed true (TscConversion shift mult (time_zero (tsc_conv d))
                               (cap_user_time_zero (tsc_conv d))) d)
    else Some (with_fixed false (tsc_conv_fixed d) d)
  else Some d.

(** ** The wall clock of events: [perf_timespec_init] *)

(** The [time_ctx] fields it sets; [timer_on] is [timer_started(&base_timer)]. *)
Record time_base := TimeBase { base_evtime : Z; base_timespec : Z * Z; timer_on : bool }.

(** What the system answers: the page reads of each ring buffer (by the first and
    by the second [perf_mmap__read_tsc_conversion]), [rdtsc], [CLOCK_REALTIME],
    the timer, and the fallback of opening an event on a system call: which of
    its steps fail and the time of the sample it takes. *)
Record timespec_sys := TimespecSys {
  skip : bool;  (** no pages, the evtime device itself, or a silent device *)
  maps : list ((nat -> tsc_page) * (nat -> tsc_page));
  rdtsc : nat -> Z;
  realtime : nat -> Z * Z;
  clocksource_is_tsc : bool;
  timer_ok : bool;
  old_kernel : bool;
  tsc_khz : Z;
  evt_ok : option bool;  (** [None]: no thread map or memory; then whether it opened *)
  evt_time : option Z
}.

Definition is_tsc_or_kvmclock (c : convert_to) : bool :=
  bool_decide (c = CONVERT_TO_TSC) || bool_decide (c = CONVERT_TO_KVMCLOCK).

(** The base time of one ring buffer once [rdtsc] gave [tsc]. *)
Definition timespec_base (sys : timespec_sys) (w : kvm) (d : dev) (b : time_base) (tsc : Z)
  : option (dev * time_base) :=
  t ← match need_conv d with
      | CONVERT_NONE | CONVERT_ADD_OFFSET => tsc_to_perfclock (tsc_conv d) tsc
      | CONVERT_TO_KVMCLOCK => v0 ← dev_vcpu w d; host_tsc_to_kvmclock (scaling w) v0 tsc
      | CONVERT_TO_TSC => Some tsc
      end;
  let t := u64 (t + clock_offset (denv d)) in
  '(d, on) ← (if timer_on b then Some (d, true)
              else d ← tsc_conv_fixed_init (old_kernel sys) (tsc_khz sys) d; Some (d, timer_ok sys));
  ns ← evclock_to_real_ns d t;
  Some (d, TimeBase ns (base_timespec b) on).

(** The loop over the ring buffers; [true] when it returned from the function. *)
Fixpoint timespec_loop (sys : timespec_sys) (w : kvm)
    (ms : list ((nat -> tsc_page) * (nat -> tsc_page))) (i : nat) (d : dev) (b : time_base)
  : option (bool * dev * time_base) :=
  match ms with
  | [] => Some (false, d, b)
  | (p1, p2) :: ms =>
      let d := perf_event_convert_read_tsc_conversion (clocksource_is_tsc sys) p1 d in
      let '(ok, err, d) :=
        if is_tsc_or_kvmclock (need_conv d) then (true, 0, d)
        else
          let '(err, tc) := perf_mmap__read_tsc_conversion p2 in
          ((err =? 0) && clocksource_is_tsc sys, err, with_tsc_conv tc d) in
      let stop := err =? - EOPNOTSUPP in
      if ok : bool then
        let b := TimeBase (base_evtime b) (realtime sys i) (timer_on b) in
        if 0 <? rdtsc sys i then
          '(d, b) ← timespec_base sys w d b (rdtsc sys i); Some (true, d, b)
        else if stop then Some (false, d, b) else timespec_loop sys w ms (S i) d b
      else if stop then Some (false, d, b) else timespec_loop sys w ms (S i) d b
  end.

(** The fallback: the time of a system call's event. *)
Definition timespec_fallback (sys : timespec_sys) (w : kvm) (d : dev) (b : time_base)
  : option (dev * time_base) :=
  match evt_ok sys with
  | None | Some false => Some (d, b)
  | Some true =>
      let now := realtime sys (length (maps sys)) in
      let base := default (base_evtime b) (evt_time sys) in
      if base =? 0 then Some (d, TimeBase base (0, 0) (timer_on b))
      else
        t ← perfclock_to_evclock w d base;
        ns ← evclock_to_real_ns d t;
        Some (d, TimeBase ns now (if timer_on b then true else timer_ok sys))
  end.

Definition perf_timespec_init (sys : timespec_sys) (w : kvm) (d : dev) (b : time_base)
  : option (Z * dev * time_base) :=
  if skip sys then Some (0, d, b)
  else if negb (has (sample_type (pos d)) PERF_SAMPLE_TIME) then Some (0, d, b)
  else
    '(done, d, b) ← timespec_loop sys w (maps sys) 0 d b;
    if done : bool then Some (0, d, b)
    else
      '(d, b) ← timespec_fallback sys w d b;
      Some (if 0 <? base_evtime b then 0 else -1, d, b).

(** ** Exact values *)

(** Parameters of a TSC of at least 1 GHz, as [cyc2ns] publishes them. *)
Record tc_ok (tc : tsc_conversion) : Prop := {
  tc_mult : 0 < time_mult tc < 2 ^ 32;
  tc_shift : 0 <= time_shift tc <= 32;
  tc_fast : time_mult tc <= 2 ^ time_shift tc;
  tc_zero : 0 <= time_zero tc < 2 ^ 64
}.

(** TSC ticks of [t] nanoseconds, and nanoseconds of [c] ticks, rounded down. *)
Definition ticks (tc : tsc_conversion) (t : Z) : Z := t * 2 ^ time_shift tc / time_mult tc.
Definition nanos (tc : tsc_conversion) (c : Z) : Z := c * time_mult tc / 2 ^ time_shift tc.

Lemma pow_shift s : 0 <= s <= 32 -> 1 <= 2 ^ s <= 2 ^ 32.
Proof. intros Hs. change 1 with (2 ^ 0). split; apply Z.pow_le_mono_r; lia. Qed.

Lemma div_u_pos x y : 0 < y -> div_u x y = Some (x / y).
Proof. intros Hy. unfold div_u. destruct (Z.eqb_spec y 0); [lia|done]. Qed.

Lemma mod_u_pos x y : 0 < y -> mod_u x y = Some (x mod y).
Proof. intros Hy. unfold mod_u. destruct (Z.eqb_spec y 0); [lia|done]. Qed.

Lemma ticks_split tc t :
  tc_ok tc ->
  ticks tc t = t / time_mult tc * 2 ^ time_shift tc
               + t mod time_mult tc * 2 ^ time_shift tc / time_mult tc.
Proof.
  intros [Hm Hs _ _]. unfold ticks. rewrite <- Z.div_add_l by lia. f_equal.
  rewrite (Z.div_mod t (time_mult tc)) at 1 by lia. ring.
Qed.

Lemma perfclock_to_tsc_ticks tc ns :
  tc_ok tc -> ticks tc (u64 (ns - time_zero tc)) < 2 ^ 64 ->
  perfclock_to_tsc tc ns = Some (ticks tc (u64 (ns - time_zero tc))).
Proof.
  intros Hok Hlt. pose proof Hok as [Hm Hs _ _]. pose proof (pow_shift _ Hs).
  unfold perfclock_to_tsc. set (t := u64 (ns - time_zero tc)) in *.
  pose proof (u64_range (ns - time_zero tc)) as Ht. fold t in Ht.
  rewrite div_u_pos, mod_u_pos by lia. cbn [mbind option_bind].
  rewrite ticks_split in * by done.
  pose proof (Z.mod_pos_bound t (time_mult tc) ltac:(lia)) as Hr.
  pose proof (Z.div_pos t (time_mult tc) ltac:(lia) ltac:(lia)) as Hq.
  pose proof (Z.div_pos (t mod time_mult tc * 2 ^ time_shift tc) (time_mult tc) ltac:(nia) ltac:(lia)).
  rewrite !shl64_exact by (lia || nia). cbn [mbind option_bind].
  rewrite div_u_pos by lia. cbn [mbind option_bind]. rewrite u64_small by nia. done.
Qed.

Lemma tsc_to_perfclock_nanos tc c :
  tc_ok tc -> 0 <= c -> nanos tc c < 2 ^ 64 ->
  tsc_to_perfclock tc c = Some (u64 (nanos tc c + time_zero tc)).
Proof.
  intros [Hm Hs _ _] Hc Hlt. unfold tsc_to_perfclock, mul_u64_u32_shr.
  destruct (Z.leb_spec 0 (time_shift tc)), (Z.ltb_spec (time_shift tc) 128); try lia.
  cbn [andb mbind option_bind]. rewrite Z.shiftr_div_pow2 by lia. fold (nanos tc c).
  rewrite (u64_small (nanos tc c)); [done|]. split; [|done]. apply Z.div_pos; [nia|].
  pose proof (pow_shift _ Hs). lia.
Qed.

(** Converting to ticks and back loses less than two nanoseconds' worth. *)
Lemma nanos_ticks tc t : tc_ok tc -> 0 <= t -> t - 1 <= nanos tc (ticks tc t) <= t.
Proof.
  intros [Hm Hs Hf _] Ht. unfold nanos, ticks. pose proof (pow_shift _ Hs).
  set (m := time_mult tc) in *. set (p := 2 ^ time_shift tc) in *.
  pose proof (Z.mul_div_le (t * p) m ltac:(lia)). pose proof (Z.mul_succ_div_gt (t * p) m ltac:(lia)).
  split.
  - apply Z.div_le_lower_bound; [lia|]. nia.
  - apply Z.div_le_upper_bound; [lia|]. nia.
Qed.

Lemma ticks_mono tc t t' : tc_ok tc -> t <= t' -> ticks tc t <= ticks tc t'.
Proof.
  intros [Hm Hs _ _] Ht. apply Z.div_le_mono; [lia|]. pose proof (pow_shift _ Hs). nia.
Qed.

Lemma ticks_nonneg tc t : tc_ok tc -> 0 <= t -> 0 <= ticks tc t.
Proof. intros [Hm Hs _ _] Ht. apply Z.div_pos; [|lia]. pose proof (pow_shift _ Hs). nia. Qed.

(** ** Sample positions *)

(** The fields of a sample that precede the first variable one, in the order of
    the ABI; all are 8 bytes. *)
Definition sample_fields : list Z :=
  [PERF_SAMPLE_IDENTIFIER; PERF_SAMPLE_IP; PERF_SAMPLE_TID; PERF_SAMPLE_TIME;
   PERF_SAMPLE_ADDR; PERF_SAMPLE_ID; PERF_SAMPLE_STREAM_ID; PERF_SAMPLE_CPU].

(** Where the field is in a sample of this type: after the present ones before it. *)
Fixpoint offset_in (fields : list Z) (st flag : Z) : option Z :=
  match fields with
  | [] => None
  | f :: fields =>
      if f =? flag then if has st flag then Some 0 else None
      else Z.add (if has st f then 8 else 0) <$> offset_in fields st flag
  end.

(** -1 when absent. *)
Definition field_offset (st flag : Z) : Z := default (-1) (offset_in sample_fields st flag).

Lemma pos_of_offsets st :
  pos_of st = SamplePos st (field_offset st PERF_SAMPLE_TID) (field_offset st PERF_SAMPLE_TIME)
                (field_offset st PERF_SAMPLE_ID) (field_offset st PERF_SAMPLE_CPU).
Proof.
  unfold pos_of, field_offset, sample_fields. cbn [offset_in].
  generalize (has st PERF_SAMPLE_IDENTIFIER), (has st PERF_SAMPLE_IP), (has st PERF_SAMPLE_TID),
    (has st PERF_SAMPLE_TIME), (has st PERF_SAMPLE_ADDR), (has st PERF_SAMPLE_ID),
    (has st PERF_SAMPLE_STREAM_ID), (has st PERF_SAMPLE_CPU).
  intros [] [] [] [] [] [] [] []; reflexivity.
Qed.

Lemma has_mask st flag : flag ∈ sample_fields -> has (Z.land st POS_MASK) flag = has st flag.
Proof.
  intros Hf. unfold has. f_equal. f_equal. rewrite <- Z.land_assoc. f_equal.
  unfold sample_fields in Hf. repeat (apply elem_of_cons in Hf as [->|Hf]; [done|]). set_solver.
Qed.

Lemma offset_in_ext fields st st' flag :
  (forall f, f ∈ fields -> has st f = has st' f) ->
  offset_in fields st flag = offset_in fields st' flag.
Proof.
  induction fields as [|f fields IH]; intros H; [done|]. cbn [offset_in].
  rewrite IH by (intros; apply H; set_solver). destruct (Z.eqb_spec f flag) as [->|].
  - by rewrite H by set_solver.
  - by rewrite H by set_solver.
Qed.

Lemma common_sample_type_spec evlist : forall st r,
  common_sample_type evlist st = Some r ->
  (st <> 0 -> r = st) /\
  (forall a, a ∈ evlist -> is_sampling_event a = true ->
     Z.land (attr_sample_type a) POS_MASK <> 0 -> Z.land (attr_sample_type a) POS_MASK = r).
Proof.
  induction evlist as [|a evlist IH]; intros st r; cbn [common_sample_type].
  - intros [= <-]. split; [done|]. set_solver.
  - destruct (is_sampling_event a) eqn:Ha.
    + destruct (Z.eqb_spec st 0) as [->|Hst].
      * intros H. destruct (IH _ _ H) as [IH1 IH2]. split; [done|].
        intros b [->|Hb]%elem_of_cons Hs Hne; [by rewrite IH1|by apply IH2].
      * destruct (Z.eqb_spec st (Z.land (attr_sample_type a) POS_MASK)) as [E|E]; [|done].
        cbn [negb]. intros H. destruct (IH _ _ H) as [IH1 IH2]. split; [done|].
        intros b [->|Hb]%elem_of_cons Hs Hne; [by rewrite <- E, IH1|by apply IH2].
    + intros H. destruct (IH _ _ H) as [IH1 IH2]. split; [done|].
      intros b [->|Hb]%elem_of_cons Hs Hne; [congruence|by apply IH2].
Qed.

(** ** [clocks_calc_mult_shift] *)

(** The quotient rounded to nearest. *)
Definition mult_at (from to sft : Z) : Z := (to * 2 ^ sft + from / 2) / from.

Lemma mult_loop_spec from to sftacc (sft : nat) : forall tmp,
  0 < from < 2 ^ 32 -> 0 <= to < 2 ^ 31 -> 0 <= sftacc <= 32 -> (sft <= 32)%nat ->
  exists mult s, mult_loop sft from to sftacc tmp = Some (mult, s) /\
    0 <= s <= Z.of_nat sft /\
    (0 < s -> mult = mult_at from to s /\ mult < 2 ^ sftacc) /\
    (s = 0 -> mult = if decide (sft = 0)%nat then tmp else mult_at from to 1) /\
    (forall s', s < s' <= Z.of_nat sft -> 2 ^ sftacc <= mult_at from to s').
Proof.
  induction sft as [|sft IH]; intros tmp Hf Ht Ha Hs; cbn [mult_loop].
  { exists tmp, 0. split; [done|]. split; [lia|]. split; [lia|]. split; [done|lia]. }
  pose proof (pow_shift (Z.of_nat (S sft)) ltac:(lia)) as Hp.
  rewrite shl64_exact by (lia || nia). cbn [mbind option_bind].
  rewrite u64_small by (pose proof (Z.div_lt_upper_bound from 2 from); nia || dlia).
  rewrite div_u_pos by lia. cbn [mbind option_bind]. fold (mult_at from to (Z.of_nat (S sft))).
  assert (0 <= mult_at from to (Z.of_nat (S sft))) as Hm0.
  { apply Z.div_pos; [|lia]. pose proof (Z.div_pos from 2). nia. }
  unfold shr64. destruct (Z.leb_spec 0 sftacc), (Z.ltb_spec sftacc 64); try lia.
  cbn [andb mbind option_bind]. rewrite Z.shiftr_div_pow2 by lia.
  destruct (Z.eqb_spec (mult_at from to (Z.of_nat (S sft)) / 2 ^ sftacc) 0) as [E|E].
  - eexists _, _. split; [done|]. split; [lia|]. split; [|split; lia].
    intros _. split; [done|]. apply Z.div_small_iff in E; lia.
  - destruct (IH (mult_at from to (Z.of_nat (S sft)))) as (m & s & -> & Hsr & Hpos & Hz & Hmax);
      [done..|lia|].
    exists m, s. split; [done|]. split; [lia|]. split; [done|]. split.
    + intros Hs0. rewrite (Hz Hs0). repeat case_decide; subst; done || lia.
    + intros s' Hs'. destruct (decide (s' = Z.of_nat (S sft))) as [->|]; [|apply Hmax; lia].
      destruct (Z.lt_ge_cases (mult_at from to (Z.of_nat (S sft))) (2 ^ sftacc)) as [Hlt|]; [|done].
      destruct E. apply Z.div_small. lia.
Qed.

Lemma mult_at_nearest from to s :
  0 < from -> Z.abs (mult_at from to s * from - to * 2 ^ s) <= from / 2.
Proof.
  intros Hf. unfold mult_at. set (x := to * 2 ^ s).
  pose proof (Z.mul_div_le (x + from / 2) from Hf).
  pose proof (Z.mul_succ_div_gt (x + from / 2) from Hf).
  assert (from <= 2 * (from / 2) + 1) by dlia. nia.
Qed.

(** Storing an event clock over the time of an event. *)
Lemma patch_time w d b p t t' :
  __perfclock_to_evclock w d t = Some t' -> 0 <= p -> p + 8 <= Z.of_nat (length b) ->
  exists b', set_le 8 b p t' = Some b' /\ get_le 8 b' p = Some t' /\
    (forall i, 0 <= i -> ~ (p <= i < p + 8) -> b' !! Z.to_nat i = b !! Z.to_nat i).
Proof.
  intros Ht' Hp Hl. destruct (mem_write_total b p (le_bytes 8 t')) as [b' Hb'];
    [lia|rewrite length_le_bytes; lia|].
  exists b'. split; [done|]. split.
  - rewrite (get_set_le 8 b p t' b' Hb'). f_equal. apply Z.mod_small.
    unfold __perfclock_to_evclock in Ht'.
    destruct (match need_conv d with CONVERT_NONE => _ | _ => _ end) as [x|]; [|done].
    cbn [mbind option_bind] in Ht'. simplify_eq. apply u64_range.
  - intros i Hi Hn. rewrite (lookup_mem_write _ _ _ _ _ Hb'), length_le_bytes.
    rewrite decide_False by lia. done.
Qed.

(** ** The clock offset and the wall clock *)

Definition set_offset (off : Z) (d : dev) : dev :=
  with_env (Env (env_tsc (denv d)) (kvmclock (denv d)) off) d.

Lemma set_offset_id d : set_offset (clock_offset (denv d)) d = d.
Proof. by destruct d as [[]]. Qed.

(** Devices that differ in their offset only, if they convert at all. *)
Definition same_but_offset (d d' : dev) : Prop :=
  d' = d \/ (need_conv d <> CONVERT_NONE /\ exists off, d' = set_offset off d).

(** The real time of an event clock from which the offset was taken away. *)
Definition real_ns0 (d : dev) (t : Z) : option Z :=
  match need_conv d with
  | CONVERT_TO_TSC =>
      if need_fixed d then tsc_to_fixed_perfclock (tsc_conv_fixed d) t
      else tsc_to_perfclock (tsc_conv d) t
  | CONVERT_TO_KVMCLOCK => Some t
  | _ => real_ns_none d t
  end.

Lemma real_ns_offset d t :
  need_conv d <> CONVERT_NONE -> 0 <= t < 2 ^ 64 ->
  evclock_to_real_ns d (u64 (t + clock_offset (denv d))) = real_ns0 d t.
Proof.
  intros Hne Ht. unfold evclock_to_real_ns, real_ns0. rewrite decide_False by done.
  rewrite u64_sub_l, Z.add_simpl_r, u64_small by done. by destruct (need_conv d).
Qed.

Lemma real_ns0_set_offset off d t : real_ns0 (set_offset off d) t = real_ns0 d t.
Proof. done. Qed.

Lemma tsc_to_perfclock_range tc c t : tsc_to_perfclock tc c = Some t -> 0 <= t < 2 ^ 64.
Proof.
  unfold tsc_to_perfclock. destruct (mul_u64_u32_shr c _ _); [|done].
  intros [= <-]. apply u64_range.
Qed.

Lemma kvmclock_range g v c t : host_tsc_to_kvmclock g v c = Some t -> 0 <= t < 2 ^ 64.
Proof.
  unfold host_tsc_to_kvmclock, __pvclock_read_cycles.
  destruct (kvm_read_l1_tsc g v c) as [x|]; [|done]. cbn [mbind option_bind].
  destruct (pvclock_scale_delta _ _ _); [|done]. intros [= <-]. apply u64_range.
Qed.

Lemma perfclock_to_tsc_range tc c t : perfclock_to_tsc tc c = Some t -> 0 <= t < 2 ^ 64.
Proof.
  unfold perfclock_to_tsc. intros H.
  repeat match type of H with (_ ← ?x; _) = _ => destruct x; [|done]; cbn [mbind option_bind] in H end.
  simplify_eq. apply u64_range.
Qed.

(** Results that agree in everything but the devices' offsets. *)
Definition agree {A} (x y : option (dev * A)) : Prop :=
  match x, y with
  | Some (d, a), Some (d', a') => same_but_offset d d' /\ a = a'
  | None, None => True
  | _, _ => False
  end.

Lemma agree_refl {A} (x : option (dev * A)) : agree x x.
Proof. destruct x as [[d a]|]; [|done]. split; [by left|done]. Qed.

Lemma fixed_init_offset old khz d off :
  tsc_conv_fixed_init old khz (set_offset off d) = set_offset off <$> tsc_conv_fixed_init old khz d.
Proof.
  unfold tsc_conv_fixed_init. destruct old; [|done]. destruct (0 <? khz); [|done].
  destruct (clocks_calc_mult_shift _ _ _) as [[m s]|]; [|done]. cbn [mbind option_bind].
  by destruct (s =? 32).
Qed.

Lemma fixed_init_keeps old khz d d1 :
  tsc_conv_fixed_init old khz d = Some d1 -> need_conv d1 = need_conv d /\ denv d1 = denv d.
Proof.
  unfold tsc_conv_fixed_init. destruct old; [|by intros [= <-]].
  destruct (0 <? khz); [|by intros [= <-]].
  destruct (clocks_calc_mult_shift _ _ _) as [[m s]|]; [|done]. cbn [mbind option_bind].
  destruct (s =? 32); by intros [= <-].
Qed.

Lemma real_ns_agree (d d1 : dev) off t sec (on : bool) :
  need_conv d1 = need_conv d -> denv d1 = denv d -> need_conv d <> CONVERT_NONE -> 0 <= t < 2 ^ 64 ->
  agree (ns ← evclock_to_real_ns d1 (u64 (t + clock_offset (denv d))); Some (d1, TimeBase ns sec on))
    (ns ← evclock_to_real_ns (set_offset off d1) (u64 (t + off));
     Some (set_offset off d1, TimeBase ns sec on)).
Proof.
  intros Hc He Hne Ht. rewrite <- He, real_ns_offset by congruence.
  change off with (clock_offset (denv (set_offset off d1))) at 2.
  rewrite (real_ns_offset (set_offset off d1)) by (cbn; congruence). rewrite real_ns0_set_offset.
  destruct (real_ns0 d1 t); [|done]. cbn [mbind option_bind agree].
  split; [|done]. right. split; [congruence|by exists off].
Qed.

Lemma timespec_base_agree sys w d d' b tsc :
  same_but_offset d d' -> 0 <= tsc < 2 ^ 64 ->
  agree (timespec_base sys w d b tsc) (timespec_base sys w d' b tsc).
Proof.
  intros [->|[Hne [off ->]]] Htsc; [apply agree_refl|].
  unfold timespec_base. cbn [need_conv set_offset with_env tsc_conv denv clock_offset].
  change (dev_vcpu w (with_env _ d)) with (dev_vcpu w d).
  destruct (match need_conv d with CONVERT_NONE => _ | _ => _ end) as [t|] eqn:Et; [|done].
  cbn [mbind option_bind].
  assert (0 <= t < 2 ^ 64) as Ht.
  { destruct (need_conv d); [by eapply tsc_to_perfclock_range|by simplify_eq| |
      by eapply tsc_to_perfclock_range].
    destruct (dev_vcpu w d); [|done]. by eapply kvmclock_range. }
  destruct (timer_on b); cbn [mbind option_bind]; [by apply real_ns_agree|].
  fold (set_offset off d). rewrite fixed_init_offset.
  destruct (tsc_conv_fixed_init _ _ d) as [d1|] eqn:Ef; [|done]. cbn [mbind option_bind fmap option_fmap option_map].
  apply fixed_init_keeps in Ef as [Hc He]. by apply real_ns_agree.
Qed.

Lemma read_tsc_agree tscsrc pg d d' :
  same_but_offset d d' ->
  same_but_offset (perf_event_convert_read_tsc_conversion tscsrc pg d)
    (perf_event_convert_read_tsc_conversion tscsrc pg d').
Proof.
  intros [->|[Hne [off ->]]]; [by left|]. unfold perf_event_convert_read_tsc_conversion.
  cbn [need_conv set_offset with_env]. destruct (_ || _); [|right; split; [done|by exists off]].
  destruct (perf_mmap__read_tsc_conversion pg) as [r tc]. cbn zeta.
  destruct (_ || _); [by left|right]. split; [done|by exists off].
Qed.

Lemma timespec_loop_agree sys w : forall ms i d d' b,
  same_but_offset d d' -> (forall i, 0 <= rdtsc sys i < 2 ^ 64) ->
  match timespec_loop sys w ms i d b, timespec_loop sys w ms i d' b with
  | Some (r, d, b), Some (r', d', b') => r = r' /\ b = b' /\ same_but_offset d d'
  | None, None => True
  | _, _ => False
  end.
Proof.
  induction ms as [|[p1 p2] ms IH]; intros i d d' b Hd Hr; cbn [timespec_loop]; [done|].
  pose proof (read_tsc_agree (clocksource_is_tsc sys) p1 d d' Hd) as Hd1.
  set (d1 := perf_event_convert_read_tsc_conversion _ _ d) in *.
  set (d1' := perf_event_convert_read_tsc_conversion _ _ d') in *.
  assert (need_conv d1' = need_conv d1) as Hc by (by destruct Hd1 as [->|[_ [off ->]]]).
  cbn zeta. rewrite Hc.
  destruct (perf_mmap__read_tsc_conversion p2) as [err tc].
  assert (same_but_offset (with_tsc_conv tc d1) (with_tsc_conv tc d1')) as Hd2.
  { destruct Hd1 as [->|[Hn [off ->]]]; [by left|right]. split; [done|by exists off]. }
  assert (forall b x x', same_but_offset x x' ->
    match '(x, b) ← timespec_base sys w x b (rdtsc sys i); Some (true, x, b),
          '(x, b) ← timespec_base sys w x' b (rdtsc sys i); Some (true, x, b) with
    | Some (r, d, b), Some (r', d', b') => r = r' /\ b = b' /\ same_but_offset d d'
    | None, None => True
    | _, _ => False
    end) as Hb.
  { intros b' x x' Hx. pose proof (timespec_base_agree sys w x x' b' (rdtsc sys i) Hx (Hr i)) as Ha.
    destruct (timespec_base sys w x b' _) as [[y c]|], (timespec_base sys w x' b' _) as [[y' c']|];
      try done. by destruct Ha. }
  destruct (is_tsc_or_kvmclock (need_conv d1)).
  - destruct (0 <? rdtsc sys i); [by apply Hb|].
    destruct (0 =? - EOPNOTSUPP); [done|]. by apply IH.
  - destruct ((err =? 0) && clocksource_is_tsc sys).
    + destruct (0 <? rdtsc sys i); [by apply Hb|].
      destruct (err =? - EOPNOTSUPP); [done|]. by apply IH.
    + destruct (err =? - EOPNOTSUPP); [done|]. by apply IH.
Qed.

(** Unless it returned from the function, the loop keeps the base time. *)
Lemma timespec_loop_base sys w : forall ms i d b r d' b',
  timespec_loop sys w ms i d b = Some (r, d', b') -> r = false -> base_evtime b' = base_evtime b.
Proof.
  induction ms as [|[p1 p2] ms IH]; intros i d b r d' b'; cbn [timespec_loop].
  { by intros [= <- <- <-]. }
  destruct (if is_tsc_or_kvmclock _ then _ else _) as [[ok err] d1]. cbn zeta.
  destruct ok; [destruct (0 <? rdtsc sys i)|].
  - destruct (timespec_base _ _ _ _ _) as [[x c]|]; [|done]. by intros [= <- <- <-].
  - destruct (err =? _); [by intros [= <- <- <-]|]. intros H Hr. by rewrite (IH _ _ _ _ _ _ H Hr).
  - destruct (err =? _); [by intros [= <- <- <-]|]. intros H Hr. by rewrite (IH _ _ _ _ _ _ H Hr).
Qed.

Lemma perfclock_to_evclock_agree w d base :
  need_conv d <> CONVERT_NONE -> 0 <= base < 2 ^ 64 ->
  (exists t, 0 <= t < 2 ^ 64 /\ forall o, perfclock_to_evclock w (set_offset o d) base = Some (u64 (t + o))) \/
  (forall o, perfclock_to_evclock w (set_offset o d) base = None).
Proof.
  intros Hne Hb. unfold perfclock_to_evclock, __perfclock_to_evclock, dev_vcpu.
  cbn [need_conv set_offset with_env tsc_conv denv clock_offset vcpu].
  fold (dev_vcpu w d). destruct (need_conv d) eqn:Hc; [done|..].
  - destruct (perfclock_to_tsc (tsc_conv d) base) as [t|] eqn:E; [left|by right].
    exists t. split; [by eapply perfclock_to_tsc_range|done].
  - destruct (dev_vcpu w d) as [v|] eqn:Ev; [|by right].
    cbn [mbind option_bind]. destruct (perfclock_to_kvmclock _ _ _ _) as [t|] eqn:E; [left|by right].
    exists t. split; [|done]. unfold perfclock_to_kvmclock in E.
    destruct (perfclock_to_tsc _ _); [|done]. by eapply kvmclock_range.
  - left. by exists base.
Qed.

Lemma timespec_fallback_agree sys w d d' b :
  same_but_offset d d' -> 0 <= default (base_evtime b) (evt_time sys) < 2 ^ 64 ->
  agree (timespec_fallback sys w d b) (timespec_fallback sys w d' b).
Proof.
  intros [->|[Hne [off ->]]] Hb; [apply agree_refl|]. unfold timespec_fallback.
  assert (same_but_offset d (set_offset off d)) as Hs by (right; split; [done|by exists off]).
  destruct (evt_ok sys) as [[]|]; [|exact (conj Hs eq_refl)..]. set (base := default _ _) in *.
  destruct (base =? 0); [exact (conj Hs eq_refl)|].
  destruct (perfclock_to_evclock_agree w d base Hne Hb) as [(t & Ht & Heq)|Heq];
    pose proof (Heq (clock_offset (denv d))) as Hd; rewrite set_offset_id in Hd;
    rewrite Hd, Heq; [|done].
  cbn [mbind option_bind]. by apply real_ns_agree.
Qed.

(** ** Properties *)

(** C20: A perf clock time converts to the exact number of TSC ticks, rounded down
    (the quotient and remainder steps of the code lose nothing), the conversion
    is monotone, and converting back gives the same nanosecond or the one before:
    for the parameters of a TSC of at least 1 GHz and times whose tick count fits
    in 64 bits. *)
Theorem perfclock_tsc_roundtrip tc ns :
  tc_ok tc -> time_zero tc <= ns < 2 ^ 64 -> ticks tc (ns - time_zero tc) < 2 ^ 64 ->
  exists c ns', perfclock_to_tsc tc ns = Some c /\
    c = (ns - time_zero tc) * 2 ^ time_shift tc / time_mult tc /\
    tsc_to_perfclock tc c = Some ns' /\ ns - 1 <= ns' <= ns /\
    (forall ns2, time_zero tc <= ns2 <= ns ->
       exists c2, perfclock_to_tsc tc ns2 = Some c2 /\ c2 <= c).
Proof.
  intros Hok Hns Hlt. pose proof Hok as [_ _ _ Hz].
  pose proof (nanos_ticks tc (ns - time_zero tc) Hok ltac:(lia)) as Hn.
  pose proof (ticks_nonneg tc (ns - time_zero tc) Hok ltac:(lia)) as Hc.
  assert (0 <= nanos tc (ticks tc (ns - time_zero tc))) as Hn0.
  { destruct Hok as [Hm Hs _ _]. apply Z.div_pos; [nia|]. pose proof (pow_shift _ Hs). lia. }
  exists (ticks tc (ns - time_zero tc)),
    (nanos tc (ticks tc (ns - time_zero tc)) + time_zero tc).
  rewrite perfclock_to_tsc_ticks by (done || by rewrite u64_small by lia).
  rewrite tsc_to_perfclock_nanos by (done || lia). rewrite !u64_small by lia.
  split; [done|]. split; [done|]. split; [done|]. split; [lia|].
  intros ns2 Hns2. exists (ticks tc (ns2 - time_zero tc)).
  pose proof (ticks_mono tc (ns2 - time_zero tc) (ns - time_zero tc) Hok ltac:(lia)).
  rewrite perfclock_to_tsc_ticks by (done || rewrite u64_small by lia; lia).
  by rewrite u64_small by lia.
Qed.

(** Without conversion, or when only an offset is added, event clocks convert back
    exactly, wrap-around included; as TSC values they come back to within one
    nanosecond below. *)
Theorem evclock_roundtrip w d ns :
  0 <= ns < 2 ^ 64 ->
  (need_conv d = CONVERT_NONE \/ need_conv d = CONVERT_ADD_OFFSET ->
   exists ev, perfclock_to_evclock w d ns = Some ev /\ evclock_to_perfclock w d ev = Some ns) /\
  (need_conv d = CONVERT_TO_TSC -> tc_ok (tsc_conv d) -> time_zero (tsc_conv d) <= ns ->
   ticks (tsc_conv d) (ns - time_zero (tsc_conv d)) < 2 ^ 64 ->
   exists ev ns', perfclock_to_evclock w d ns = Some ev /\
     evclock_to_perfclock w d ev = Some ns' /\ ns - 1 <= ns' <= ns).
Proof.
  intros Hns.
  assert (forall x off, 0 <= x < 2 ^ 64 -> u64 (u64 (x + off) - off) = x) as Hback.
  { intros x off Hx. rewrite u64_sub_l, Z.add_simpl_r. by apply u64_small. }
  split.
  - intros Hc. unfold perfclock_to_evclock, evclock_to_perfclock, __perfclock_to_evclock.
    destruct Hc as [-> | ->]; [by exists ns|]. cbn [mbind option_bind]. repeat case_decide; try done.
    eexists. split; [done|]. by rewrite Hback.
  - intros Hc Hok Hz Hlt.
    pose proof (ticks_nonneg (tsc_conv d) (ns - time_zero (tsc_conv d)) Hok ltac:(lia)).
    pose proof (nanos_ticks (tsc_conv d) (ns - time_zero (tsc_conv d)) Hok ltac:(lia)) as Hn.
    pose proof (tc_zero _ Hok).
    assert (0 <= nanos (tsc_conv d) (ticks (tsc_conv d) (ns - time_zero (tsc_conv d)))) as Hn0.
    { destruct Hok as [Hm Hs _ _]. apply Z.div_pos; [nia|]. pose proof (pow_shift _ Hs). lia. }
    unfold perfclock_to_evclock, evclock_to_perfclock, __perfclock_to_evclock. rewrite Hc.
    repeat case_decide; try done.
    rewrite perfclock_to_tsc_ticks by (done || by rewrite u64_small by lia). rewrite u64_small by lia.
    cbn [mbind option_bind]. eexists _, _. split; [done|]. rewrite Hback by lia.
    split; [apply tsc_to_perfclock_nanos; done || lia|]. rewrite u64_small by lia. lia.
Qed.

(** The positions computed for a device are those of the sample ABI for each of
    its sampling events: the offset of a field is the total size of the fields
    present before it, and -1 when it is absent; events whose relevant fields
    differ make the initialisation fail and leave the device alone. *)
Theorem sample_pos_layout evlist d :
  (exists d', perf_sample_pos_init evlist d = (0, d') /\
     forall a, a ∈ evlist -> is_sampling_event a = true ->
       Z.land (attr_sample_type a) POS_MASK <> 0 ->
       let off := field_offset (attr_sample_type a) in
       tid_pos (pos d') = off PERF_SAMPLE_TID /\ time_pos (pos d') = off PERF_SAMPLE_TIME /\
       id_pos (pos d') = off PERF_SAMPLE_ID /\ cpu_pos (pos d') = off PERF_SAMPLE_CPU) \/
  (perf_sample_pos_init evlist d = (-1, d) /\ common_sample_type evlist 0 = None).
Proof.
  unfold perf_sample_pos_init. destruct (common_sample_type evlist 0) as [st|] eqn:Hst; [left|by right].
  exists (with_pos (pos_of st) d). split; [done|]. intros a Ha Hs Hne.
  apply common_sample_type_spec in Hst as [_ Hst]. specialize (Hst a Ha Hs Hne).
  cbn zeta. cbn [pos with_pos]. rewrite pos_of_offsets. cbn [tid_pos time_pos id_pos cpu_pos].
  assert (forall flag, field_offset (attr_sample_type a) flag = field_offset st flag) as Heq.
  { intros flag. unfold field_offset. f_equal. apply offset_in_ext. intros f Hf.
    rewrite <- Hst. by rewrite has_mask. }
  by rewrite !Heq.
Qed.

(** Converting an event replaces exactly the 8 bytes of its time by the event
    clock and keeps every other byte of the record; a read-only event is left as
    it was and the converted record is in the device's copy. *)
Theorem perf_event_convert_time w d ev c writable sz t t' :
  need_conv d <> CONVERT_NONE -> conv_copy d = Some c ->
  header_size ev 0 = Some sz -> sz <= Z.of_nat (length ev) -> sz <= Z.of_nat (length c) ->
  0 <= time_pos (pos d) -> 8 + time_pos (pos d) + 8 <= sz ->
  get_le 8 ev (8 + time_pos (pos d)) = Some t -> __perfclock_to_evclock w d t = Some t' ->
  exists r ev' d', perf_event_convert w d ev writable = Some (r, ev', d') /\
    let out := if writable then ev' else default [] (conv_copy d') in
    get_le 8 out (8 + time_pos (pos d)) = Some t' /\
    (forall i, 0 <= i < sz -> ~ (8 + time_pos (pos d) <= i < 8 + time_pos (pos d) + 8) ->
       out !! Z.to_nat i = ev !! Z.to_nat i) /\
    (if writable then r = Original /\ d' = d else r = Copied /\ ev' = ev).
Proof.
  intros Hne Hc Hsz Hle Hlc Hp0 Hp Ht Ht'. unfold perf_event_convert.
  destruct (decide _) as [|_]; [done|]. set (p := 8 + time_pos (pos d)) in *.
  destruct writable; cbn [mbind option_bind].
  - rewrite Ht. cbn [mbind option_bind]. rewrite Ht'. cbn [mbind option_bind].
    destruct (patch_time w d ev p t t' Ht') as (ev' & Hset & Hget & Hoth); [lia..|].
    rewrite Hset. exists Original, ev', d. split; [done|]. cbn zeta. split; [done|].
    split; [|done]. intros i Hi Hn. apply Hoth; [lia|done].
  - rewrite Hsz. cbn [mbind option_bind].
    destruct (mem_read_total ev 0 sz) as [bs Hbs]; [lia..|]. rewrite Hbs, Hc. cbn [mbind option_bind].
    pose proof (length_mem_read _ _ _ _ Hbs) as Hl.
    destruct (mem_write_total c 0 bs) as [c1 Hc1]; [lia..|]. rewrite Hc1. cbn [mbind option_bind].
    pose proof (length_mem_write _ _ _ _ Hc1) as Hl1.
    assert (forall i, 0 <= i < sz -> c1 !! Z.to_nat i = ev !! Z.to_nat i) as Hsame.
    { intros i Hi. rewrite (lookup_mem_write _ _ _ _ _ Hc1). rewrite decide_True by lia.
      rewrite (lookup_mem_read _ _ _ _ _ Hbs) by lia. f_equal. lia. }
    assert (get_le 8 c1 p = Some t) as ->.
    { rewrite <- Ht. unfold get_le. f_equal. change (Z.of_nat 8) with 8.
      apply mem_read_ext; try lia. intros i Hi. apply Hsame. lia. }
    cbn [mbind option_bind]. rewrite Ht'. cbn [mbind option_bind].
    destruct (patch_time w d c1 p t t' Ht') as (c2 & Hset & Hget & Hoth); [lia..|].
    rewrite Hset. eexists Copied, ev, _. split; [done|]. cbn zeta. cbn [conv_copy with_conv_copy default].
    split; [done|]. split; [|done]. intros i Hi Hn. rewrite Hoth by (done || lia).
    by apply Hsame.
Qed.

(** The corrected TSC parameters are the most accurate pair that fits: for a
    frequency of at most 2^32 kHz the shift is the largest of 1..32 whose
    multiplier fits the conversion range, the multiplier is the frequency ratio
    scaled by it and rounded to nearest, and when no shift fits the result is the
    multiplier of shift 1 with shift 0. *)
Theorem clocks_calc_mult_shift_best from to :
  0 < from < 2 ^ 32 -> 0 <= to < 2 ^ 31 ->
  exists mult s, clocks_calc_mult_shift from to 0 = Some (mult, s) /\ 0 <= s <= 32 /\
    (0 < s -> mult = mult_at from to s /\
              Z.abs (mult * from - to * 2 ^ s) <= from / 2) /\
    (forall s', s < s' <= 32 -> 2 ^ 32 <= mult_at from to s') /\
    (s = 0 -> mult = u32 (mult_at from to 1)).
Proof.
  intros Hf Ht. unfold clocks_calc_mult_shift. rewrite Z.mul_0_l. change (u64 0) with 0.
  change (Z.shiftr 0 32) with 0. change (sftacc_loop 64 0 32) with 32.
  destruct (mult_loop_spec from to 32 32 0) as (m & s & -> & Hs & Hpos & Hz & Hmax); [done..|].
  cbn [mbind option_bind]. exists (u32 m), s. unfold u16. rewrite (Z.mod_small s) by lia.
  split; [done|]. split; [lia|]. split; [|split].
  - intros H. destruct (Hpos H) as [-> Hlt]. rewrite u32_small.
    + split; [done|]. apply mult_at_nearest. lia.
    + split; [|done]. apply Z.div_pos; [|lia]. pose proof (pow_shift s ltac:(lia)).
      pose proof (Z.div_pos from 2). nia.
  - intros s' Hs'. apply Hmax. lia.
  - intros ->. rewrite (Hz eq_refl). done.
Qed.

(** Converting a kvmclock back to the perf clock ignores the guest's TSC offset
    when TSC scaling is active: two vcpus that differ only in their offset give
    the same perf clock, although the forward conversion adds the offset. *)
Theorem kvmclock_scaled_offset_ignored g v0 tc time off' :
  tsc_scaling_ratio v0 <> default_ratio g ->
  let v1 := VcpuData (pvclock_update v0) off' (tsc_scaling_ratio v0)
              (tsc_scaling_ratio_frac_bits v0) (pvti v0) in
  kvmclock_to_perfclock g v1 tc time = kvmclock_to_perfclock g v0 tc time /\
  (forall h t, kvm_scale_tsc g v0 h = Some t ->
     kvm_read_l1_tsc g v0 h = Some (u64 (tsc_offset v0 + t)) /\
     kvm_read_l1_tsc g v1 h = Some (u64 (off' + t))).
Proof.
  intros Hne. cbn zeta. split.
  - unfold kvmclock_to_perfclock. cbn [pvti tsc_scaling_ratio tsc_offset].
    destruct (Z.eqb_spec (tsc_scaling_ratio v0) (default_ratio g)); [done|]. done.
  - intros h t Ht. unfold kvm_read_l1_tsc.
    assert (kvm_scale_tsc g (VcpuData (pvclock_update v0) off' (tsc_scaling_ratio v0)
              (tsc_scaling_ratio_frac_bits v0) (pvti v0)) h = Some t) as -> by done.
    rewrite Ht. done.
Qed.

(** The wall clock base of a device does not depend on its clock offset: whatever
    the offset, as long as the device converts its events, the same real base
    time, wall time and timer state are set up from the same TSC, page and event
    readings, so the offset shows in the event times only. *)
Theorem timespec_offset_free sys w d off b :
  need_conv d <> CONVERT_NONE -> (forall i, 0 <= rdtsc sys i < 2 ^ 64) ->
  0 <= base_evtime b < 2 ^ 64 -> (forall t, evt_time sys = Some t -> 0 <= t < 2 ^ 64) ->
  (fun '(r, _, b) => (r, b)) <$> perf_timespec_init sys w (set_offset off d) b
  = (fun '(r, _, b) => (r, b)) <$> perf_timespec_init sys w d b.
Proof.
  intros Hne Hr Hb He. unfold perf_timespec_init. cbn [pos set_offset with_env].
  destruct (skip sys); [done|]. destruct (negb _); [done|].
  assert (same_but_offset d (set_offset off d)) as Hs by (right; split; [done|by exists off]).
  pose proof (timespec_loop_agree sys w (maps sys) 0 d (set_offset off d) b Hs Hr) as Hl.
  pose proof (timespec_loop_base sys w (maps sys) 0 d b) as Hbase.
  fold (set_offset off d).
  destruct (timespec_loop sys w (maps sys) 0 d b) as [[[r d1] b1]|],
    (timespec_loop sys w (maps sys) 0 (set_offset off d) b) as [[[r' d1'] b1']|]; try done.
  destruct Hl as (<- & <- & Hd1). cbn [mbind option_bind]. destruct r; [done|].
  assert (0 <= default (base_evtime b1) (evt_time sys) < 2 ^ 64) as Hrange.
  { rewrite (Hbase false d1 b1) by done. destruct (evt_time sys) as [t|] eqn:Et; [by apply He|done]. }
  pose proof (timespec_fallback_agree sys w d1 d1' b1 Hd1 Hrange) as Hf.
  destruct (timespec_fallback sys w d1 b1) as [[d2 b2]|],
    (timespec_fallback sys w d1' b1) as [[d2' b2']|]; try done. by destruct Hf as [_ <-].
Qed.

(** ** Concrete devices *)

Module Example.
Definition tc25 : tsc_conversion := TscConversion 31 858993459 1000 true.
Definition pos0 : sample_pos := SamplePos 6 0 8 (-1) (-1).
Definition dev_with (c : convert_to) (off : Z) : dev :=
  Dev (Env false None off) pos0 c false tc25 tc25 None (Some (replicate 32 0)) 0 0 true.
Definition no_kvm : kvm := Kvm kvm_scaling0 ∅.
Definition event24 : list Z :=
  [9; 0; 0; 0; 0; 0; 24; 0; 1; 0; 0; 0; 1; 0; 0; 0; 7; 0; 0; 0; 0; 0; 0; 0].
Definition vcpu1 : vcpu_data := VcpuData true 500 (2 ^ 49) 48 (Pvclock 2 0 0 (2 ^ 31) 0 0).
Definition sys1 : timespec_sys :=
  TimespecSys false [(fun _ => TscPage 0 tc25, fun _ => TscPage 0 tc25)] (fun _ => 10000)
    (fun _ => (7, 8)) true true false 0 None None.
End Example.

Lemma tc25_ok : tc_ok Example.tc25.
Proof. split; cbn; lia. Qed.

Lemma perfclock_tsc_roundtrip_witness :
  exists c ns', perfclock_to_tsc Example.tc25 5000 = Some c /\
    tsc_to_perfclock Example.tc25 c = Some ns' /\ 4999 <= ns' <= 5000.
Proof.
  destruct (perfclock_tsc_roundtrip Example.tc25 5000 tc25_ok) as (c & ns' & H1 & _ & H2 & H3 & _);
    [cbn; lia|reflexivity|].
  exists c, ns'. exact (conj H1 (conj H2 H3)).
Defined.

Lemma evclock_roundtrip_witness :
  exists ev, perfclock_to_evclock Example.no_kvm (Example.dev_with CONVERT_ADD_OFFSET 100) 5000 = Some ev /\
    evclock_to_perfclock Example.no_kvm (Example.dev_with CONVERT_ADD_OFFSET 100) ev = Some 5000.
Proof.
  destruct (evclock_roundtrip Example.no_kvm (Example.dev_with CONVERT_ADD_OFFSET 100) 5000)
    as [H _]; [lia|]. exact (H (or_intror eq_refl)).
Defined.

Lemma perf_event_convert_time_witness :
  exists r ev' d', perf_event_convert Example.no_kvm (Example.dev_with CONVERT_ADD_OFFSET 100)
      Example.event24 false = Some (r, ev', d') /\
    get_le 8 (default [] (conv_copy d')) 16 = Some 107 /\ ev' = Example.event24.
Proof.
  destruct (perf_event_convert_time Example.no_kvm (Example.dev_with CONVERT_ADD_OFFSET 100)
    Example.event24 (replicate 32 0) false 24 7 107) as (r & ev' & d' & H1 & H2 & _ & H3);
    try reflexivity; try (cbn; lia); [discriminate|].
  exists r, ev', d'. split; [exact H1|]. split; [exact H2|]. exact (proj2 H3).
Defined.

Lemma clocks_calc_mult_shift_best_witness :
  exists mult s, clocks_calc_mult_shift 2494140 NSEC_PER_MSEC 0 = Some (mult, s) /\ 0 <= s <= 32.
Proof.
  destruct (clocks_calc_mult_shift_best 2494140 NSEC_PER_MSEC) as (m & s & H1 & H2 & _);
    [lia|unfold NSEC_PER_MSEC; lia|].
  exists m, s. exact (conj H1 H2).
Defined.

Lemma kvmclock_scaled_offset_ignored_witness :
  kvmclock_to_perfclock (KvmScaling 48 (2 ^ 48) 1)
    (VcpuData true 900 (2 ^ 49) 48 (pvti Example.vcpu1)) Example.tc25 12345
  = kvmclock_to_perfclock (KvmScaling 48 (2 ^ 48) 1) Example.vcpu1 Example.tc25 12345.
Proof.
  exact (proj1 (kvmclock_scaled_offset_ignored (KvmScaling 48 (2 ^ 48) 1) Example.vcpu1
    Example.tc25 12345 900 ltac:(discriminate))).
Defined.

Lemma timespec_offset_free_witness :
  (fun '(r, _, b) => (r, b)) <$>
    perf_timespec_init Example.sys1 Example.no_kvm (set_offset 77 (Example.dev_with CONVERT_TO_TSC 0))
      (TimeBase 0 (0, 0) false)
  = (fun '(r, _, b) => (r, b)) <$>
    perf_timespec_init Example.sys1 Example.no_kvm (Example.dev_with CONVERT_TO_TSC 0)
      (TimeBase 0 (0, 0) false).
Proof.
  apply (timespec_offset_free Example.sys1 Example.no_kvm (Example.dev_with CONVERT_TO_TSC 0) 77
    (TimeBase 0 (0, 0) false)); [discriminate|cbn; lia|cbn; lia|discriminate].
Defined.

Example timespec_value :
  (fun '(r, _, b) => (r, base_evtime b)) <$>
    perf_timespec_init Example.sys1 Example.no_kvm (Example.dev_with CONVERT_TO_TSC 77)
      (TimeBase 0 (0, 0) false) = Some (0, 4999).
Proof. vm_compute. reflexivity. Qed.
