(* ===== verification/Watermark.v ===== *)
(** * Sample sizes and wake-ups (order.c)

    How large a sample of an event can get, when the kernel should wake the
    program up, and the watermark the ordering derives from them.  [int] and
    [u32] arithmetic wraps as in C. *)

From S2P Require Import Prelude Bytes Convert.

Definition PERF_SAMPLE_READ : Z := Z.shiftl 1 4.
Definition PERF_SAMPLE_CALLCHAIN : Z := Z.shiftl 1 5.
Definition PERF_SAMPLE_PERIOD : Z := Z.shiftl 1 8.
Definition PERF_SAMPLE_RAW : Z := Z.shiftl 1 10.
Definition PERF_SAMPLE_REGS_USER : Z := Z.shiftl 1 12.
Definition PERF_SAMPLE_WEIGHT : Z := Z.shiftl 1 14.
Definition PERF_SAMPLE_DATA_SRC : Z := Z.shiftl 1 15.
Definition PERF_SAMPLE_TRANSACTION : Z := Z.shiftl 1 17.
Definition PERF_SAMPLE_REGS_INTR : Z := Z.shiftl 1 18.
Definition PERF_SAMPLE_PHYS_ADDR : Z := Z.shiftl 1 19.

Definition PERF_TYPE_TRACEPOINT : Z := 2.

(** KPROBE, KRETPROBE, UPROBE, URETPROBE of tep.h follow the largest tracepoint id. *)
Definition KPROBE : Z := 65536.
Definition KRETPROBE : Z := 65537.
Definition UPROBE : Z := 65538.
Definition URETPROBE : Z := 65539.

(** [struct perf_event_attr] and what its evsel adds; [wakeup] is the union of
    [wakeup_events] and [wakeup_watermark]. *)
Record sample_attr := SampleAttr {
  atype : Z;
  config : Z;
  speriod : Z;
  stype : Z;
  read_format : Z;
  nr_members : Z;
  sample_max_stack : Z;
  regs_user : Z;
  regs_intr : Z;
  watermark : bool;
  wakeup : Z
}.

Definition PERF_FORMAT_TOTAL_TIME_ENABLED : Z := Z.shiftl 1 0.
Definition PERF_FORMAT_TOTAL_TIME_RUNNING : Z := Z.shiftl 1 1.
Definition PERF_FORMAT_ID : Z := Z.shiftl 1 2.
Definition PERF_FORMAT_GROUP : Z := Z.shiftl 1 3.

Definition perf_evsel__read_size (a : sample_attr) : Z :=
  let entry := 8 in
  let size := 0 in
  let size := if has (read_format a) PERF_FORMAT_TOTAL_TIME_ENABLED then size + 8 else size in
  let size := if has (read_format a) PERF_FORMAT_TOTAL_TIME_RUNNING then size + 8 else size in
  let entry := if has (read_format a) PERF_FORMAT_ID then entry + 8 else entry in
  let '(nr, size) := if has (read_format a) PERF_FORMAT_GROUP
                     then (nr_members a, size + 8) else (1, size) in
  s32 (size + entry * nr).

(** [__sw_hweight64], the variant without fast multiplication. *)
Definition __sw_hweight64 (w : Z) : Z :=
  let res := u64 (w - Z.land (Z.shiftr w 1) 0x5555555555555555) in
  let res := u64 (Z.land res 0x3333333333333333 + Z.land (Z.shiftr res 2) 0x3333333333333333) in
  let res := Z.land (u64 (res + Z.shiftr res 4)) 0x0F0F0F0F0F0F0F0F in
  let res := u64 (res + Z.shiftr res 8) in
  let res := u64 (res + Z.shiftr res 16) in
  Z.land (u64 (res + Z.shiftr res 32)) 0x00000000000000FF.

Section sizes.
(** [tep__event_size], the probe types of sysfs and the two sysctl values. *)
Context (tep__event_size : Z -> Z) (kprobe_type uprobe_type : Z).
Context (perf_event_max_stack perf_event_max_contexts_per_stack : Z).

(** The size of the raw data of a sample, negative when unknown. *)
Definition raw_size_of (a : sample_attr) : Z :=
  if atype a =? PERF_TYPE_TRACEPOINT then tep__event_size (config a)
  else if (atype a =? kprobe_type) || (atype a =? uprobe_type) then
    let retprobe := negb (Z.land (config a) 1 =? 0) in
    let ty := if atype a =? kprobe_type then (if retprobe then KRETPROBE else KPROBE) else atype a in
    let ty := if ty =? uprobe_type then (if retprobe then URETPROBE else UPROBE) else ty in
    tep__event_size ty
  else -1.

Definition round_up (x y : Z) : Z := u64 (Z.lor (u64 (x - 1)) (y - 1) + 1).

Definition perf_sample_max_size (a : sample_attr) : Z :=
  let st := stype a in
  let f8 flag (size : Z) := if has st flag then size + 8 else size in
  let size := f8 PERF_SAMPLE_CPU (f8 PERF_SAMPLE_STREAM_ID (f8 PERF_SAMPLE_ID (f8 PERF_SAMPLE_ADDR
                (f8 PERF_SAMPLE_TIME (f8 PERF_SAMPLE_TID (f8 PERF_SAMPLE_IP
                (f8 PERF_SAMPLE_IDENTIFIER 0))))))) in
  let size := f8 PERF_SAMPLE_PERIOD size in
  let size := if has st PERF_SAMPLE_READ then size + perf_evsel__read_size a else size in
  let size := if has st PERF_SAMPLE_CALLCHAIN then
                let size := size + 8 in
                if negb (sample_max_stack a =? 0) then size + 8 * sample_max_stack a
                else size + 8 * (perf_event_max_stack + perf_event_max_contexts_per_stack)
              else size in
  let size := if has st PERF_SAMPLE_RAW then
                if raw_size_of a <? 0 then size + 8
                else size + round_up (raw_size_of a + 4) 8
              else size in
  let size := if has st PERF_SAMPLE_REGS_USER
              then size + (8 + __sw_hweight64 (regs_user a) * 8) else size in
  let size := f8 PERF_SAMPLE_TRANSACTION (f8 PERF_SAMPLE_DATA_SRC (f8 PERF_SAMPLE_WEIGHT size)) in
  let size := if has st PERF_SAMPLE_REGS_INTR
              then size + (8 + __sw_hweight64 (regs_intr a) * 8) else size in
  let size := f8 PERF_SAMPLE_PHYS_ADDR size in
  s32 size.

(** The watermark of one sampling event. *)
Definition event_watermark (a : sample_attr) : Z :=
  if watermark a then wakeup a else u32 (wakeup a * perf_sample_max_size a).

Fixpoint watermark_loop (evlist : list sample_attr) (min : Z) : Z :=
  match evlist with
  | [] => min
  | a :: evlist =>
      if speriod a =? 0 then watermark_loop evlist min
      else watermark_loop evlist (if event_watermark a <? min then event_watermark a else min)
  end.

Definition perf_sample_watermark (evlist : list sample_attr) : Z := watermark_loop evlist U64_MAX.
End sizes.

(** ** Wake-ups *)

(** The options and device fields that [reduce_wakeup_times] looks at. *)
Record wakeup_env := WakeupEnv {
  watermark_set : bool;
  env_watermark : Z;
  monotonic : bool;
  pages : Z;
  has_parent : bool
}.

Definition with_watermark (b : bool) (n : Z) (a : sample_attr) : sample_attr :=
  SampleAttr (atype a) (config a) (speriod a) (stype a) (read_format a) (nr_members a)
    (sample_max_stack a) (regs_user a) (regs_intr a) b n.

Definition reduce_wakeup_times (e : wakeup_env) (a : sample_attr) : sample_attr :=
  if pages e =? 0 then a
  else if speriod a =? 0 then a
  else
    let '(wm, wakeup_watermark, wakeup_events) :=
      if watermark_set e then (env_watermark e, 0, 0)
      else if negb (watermark a) then
        if has_parent e then (50, 0, 0) else (0, 0, wakeup a)
      else (50, wakeup a, 0) in
    if wm =? 0 then with_watermark false (if wakeup_events =? 0 then 1 else wakeup_events) a
    else
      let wakeup_watermark :=
        if wakeup_watermark =? 0 then
          let pages_watermark := u32 (Z.shiftl (pages e) 12) in
          u32 (pages_watermark * wm) / 100
        else wakeup_watermark in
      with_watermark true wakeup_watermark a.

(** The result also says whether [use_clockid] is set, to [CLOCK_MONOTONIC]. *)
Definition prof_dev_env2attr (e : wakeup_env) (a : sample_attr) : sample_attr * bool :=
  (reduce_wakeup_times e a, monotonic e).

(** ** Hamming weight *)

(** The number of bits set among the low [n]. *)
Fixpoint popcount (n : nat) (w : Z) : Z :=
  match n with
  | O => 0
  | S n => Z.b2z (Z.testbit w (Z.of_nat n)) + popcount n w
  end.

(** ** Properties *)

(** The percentage the wake-up of a sampling event is set to: the option if given,
    half the buffer for an event of a child device or one that already uses a
    watermark, otherwise none. *)
Definition wakeup_percent (e : wakeup_env) (a : sample_attr) : Z :=
  if watermark_set e then env_watermark e
  else if watermark a || has_parent e then 50 else 0.

(** The watermark the event asked for, when the option does not override it. *)
Definition own_watermark (e : wakeup_env) (a : sample_attr) : Z :=
  if negb (watermark_set e) && watermark a then wakeup a else 0.

Lemma reduce_percent e a :
  pages e <> 0 -> speriod a <> 0 -> wakeup_percent e a <> 0 ->
  reduce_wakeup_times e a =
    with_watermark true
      (if own_watermark e a =? 0
       then u32 (u32 (Z.shiftl (pages e) 12) * wakeup_percent e a) / 100
       else own_watermark e a) a.
Proof.
  intros Hp Hs Hw. unfold reduce_wakeup_times, wakeup_percent, own_watermark in *.
  destruct (Z.eqb_spec (pages e) 0); [done|]. destruct (Z.eqb_spec (speriod a) 0); [done|].
  destruct (watermark_set e), (watermark a), (has_parent e); cbn [negb andb orb] in *; try done;
    destruct (Z.eqb_spec (env_watermark e) 0); done.
Qed.

(** Wake-ups of a sampling event: without a percentage the kernel wakes the program
    by event count, at least every event; with one it wakes it when the event's
    own watermark, or that share of the buffer rounded down, is filled, so never
    above the buffer's size; other events are left alone. *)
Theorem reduce_wakeup_share e a :
  0 < pages e < 2 ^ 20 -> 0 <= wakeup_percent e a <= 100 -> 0 <= wakeup a ->
  pages e * 4096 * wakeup_percent e a < 2 ^ 32 ->
  let r := reduce_wakeup_times e a in
  (speriod a = 0 -> r = a) /\
  (speriod a <> 0 -> wakeup_percent e a = 0 -> watermark r = false /\ 0 < wakeup r) /\
  (speriod a <> 0 -> wakeup_percent e a <> 0 ->
     watermark r = true /\
     (if own_watermark e a =? 0
      then wakeup r = pages e * 4096 * wakeup_percent e a / 100 /\ wakeup r <= pages e * 4096
      else wakeup r = wakeup a)).
Proof.
  intros Hp Hw Ha Hov. cbn zeta. split; [|split].
  - intros Hs. unfold reduce_wakeup_times. rewrite Hs. by destruct (pages e =? 0).
  - intros Hs H0. unfold reduce_wakeup_times, wakeup_percent in *.
    destruct (Z.eqb_spec (pages e) 0); [lia|]. destruct (Z.eqb_spec (speriod a) 0); [done|].
    destruct (watermark_set e), (watermark a), (has_parent e); cbn [negb andb orb] in *; try done;
      try (rewrite H0; split; [done|cbn; lia]).
    split; [done|]. cbn [wakeup with_watermark Z.eqb]. destruct (Z.eqb_spec (wakeup a) 0); lia.
  - intros Hs Hne. rewrite reduce_percent by (done || lia). split; [done|].
    cbn [wakeup with_watermark]. destruct (Z.eqb_spec (own_watermark e a) 0) as [E|E].
    + rewrite Z.shiftl_mul_pow2 by lia. change (2 ^ 12) with 4096.
      rewrite (u32_small (pages e * 4096)) by lia. rewrite u32_small by nia. split; [done|].
      apply Z.div_le_upper_bound; [lia|]. nia.
    + unfold own_watermark in *. by destruct (negb (watermark_set e) && watermark a).
Qed.

(** The share is computed in 32 bits: when [pages * 4096 * percent] does not fit,
    the watermark comes out lower than the share asked for (for 50 percent from
    20972 pages, 82 MiB, on), so the kernel wakes the program up too often. *)
Theorem reduce_wakeup_wraps e a :
  0 < pages e < 2 ^ 20 -> speriod a <> 0 -> 0 < wakeup_percent e a <= 100 ->
  own_watermark e a = 0 -> 2 ^ 32 <= pages e * 4096 * wakeup_percent e a ->
  wakeup (reduce_wakeup_times e a) < pages e * 4096 * wakeup_percent e a / 100.
Proof.
  intros Hp Hs Hw Ho Hov. rewrite reduce_percent by lia. rewrite Ho. cbn [wakeup with_watermark Z.eqb].
  rewrite Z.shiftl_mul_pow2 by lia. change (2 ^ 12) with 4096.
  rewrite (u32_small (pages e * 4096)) by lia. set (x := pages e * 4096 * wakeup_percent e a) in *.
  pose proof (Z.mod_pos_bound x (2 ^ 32) ltac:(lia)). unfold u32.
  apply Z.div_lt_upper_bound; [lia|].
  pose proof (Z.div_le_mono (2 ^ 32) x 100 ltac:(lia) Hov). change (2 ^ 32 / 100) with 42949672 in *.
  dlia.
Qed.

Module Example.
Definition tracepoint : sample_attr := SampleAttr 2 300 1 6 0 0 0 0 0 false 1.
Definition child_env : wakeup_env := WakeupEnv false 0 false 64 true.
Definition big_env : wakeup_env := WakeupEnv true 50 false 32768 false.
End Example.

Lemma reduce_wakeup_share_witness :
  wakeup (reduce_wakeup_times Example.child_env Example.tracepoint) = 64 * 4096 * 50 / 100.
Proof.
  destruct (reduce_wakeup_share Example.child_env Example.tracepoint) as (_ & _ & H);
    try (cbn; lia).
  exact (proj1 (proj2 (H ltac:(discriminate) ltac:(discriminate)))).
Defined.

Lemma reduce_wakeup_wraps_witness :
  wakeup (reduce_wakeup_times Example.big_env Example.tracepoint) < 32768 * 4096 * 50 / 100.
Proof.
  apply (reduce_wakeup_wraps Example.big_env Example.tracepoint); try (cbn; lia).
Defined.
