(* ===== verification/Order.v ===== *)
(** * Time ordering of events across ring buffers (order.c)

    Every ring buffer (and stream) of a device tree contributes its next event to
    one min-heap; [order_process] repeatedly takes the earliest one, hands it to
    the profiler and reads the next from the same source.  The state is a
    [world]: devices, heap events, ring buffers and streams under integer
    identifiers that stand for their addresses.  The kernel writes to the ring
    buffers while the program runs: [kern n i m] is what ring buffer [i] has
    become when it is looked at for the [n]-th time.  [None] is a failed
    assertion, a bad pointer, a signed overflow or an exhausted fuel. *)

From S2P Require Import Prelude Bytes MinHeap Mmap Convert Watermark.

Definition PERF_RECORD_LOST : Z := 2.
Definition PERF_RECORD_SAMPLE : Z := 9.
Definition PERF_RECORD_ORDER_TIME : Z := 85.

(** ** State *)

Inductive break_reason :=
  | ORDER_BREAK_NONE | ORDER_BREAK_EMPTY | ORDER_BREAK_LOST_WAIT
  | ORDER_BREAK_TARGET_MAP | ORDER_BREAK_TARGET_TIME | ORDER_BREAK_STREAM_STOP.

(** The counters of [struct order_ctx]. *)
Record order_stats := OrderStats {
  nr_unordered_events : Z;
  nr_fixed_events : Z;
  nr_lost : Z;
  nr_maybe_lost : Z;
  nr_maybe_lost_pause : Z;
  maybe_lost_pause_time : Z;
  nr_stream_pause : Z;
  stream_pause_time : Z
}.

(** [struct order_ctx].  [heapsort] holds pointers to heap events, its storage is
    [order.data]; [event_list] is [heap_event_list]. *)
Record order_ctx := OrderCtx {
  heapsort : min_heap Z;
  event_list : list Z;
  heap_size : Z;
  nr_mmaps : Z;
  nr_streams : Z;
  wakeup_watermark : Z;
  prev_lost_time : Z;
  heap_popped_time : Z;
  heap_popped_ins : Z;
  reason : break_reason;
  order_on : bool;        (** [order.enabled] *)
  inprocess : bool;
  stats : order_stats
}.

(** What ordering needs of [struct prof_dev]; [has_lost] is whether the profiler
    has a [lost] callback, [dev_mmaps] the ring buffers of its evlist. *)
Record odev := ODev {
  cv : Convert.dev;
  ctx : order_ctx;
  parent : option Z;
  children : list Z;
  sources : list Z;
  has_lost : bool;
  refs : Z;
  dev_mmaps : list Z;
  evlist : list sample_attr
}.

(** A [union perf_event *]: into a ring buffer, or a record a stream handed out. *)
Inductive ev_ptr :=
  | MapEvent (r : event_ref)
  | StreamEvent (bs : list Z).

(** The two structures that start with a [struct heap_event]. *)
Record mmap_part := MmapPart {
  emap : Z;
  event_mono_time : Z;
  maybe_lost_end : Z;
  mpause_start : Z;
  lost_pause : bool
}.
Record stream_part := StreamPart {
  stream : Z;
  spause_start : Z;
  empty_pause : bool
}.
Inductive source_part := PERF_MMAP_EVENT (p : mmap_part) | STREAM_EVENT (p : stream_part).

Record heap_event := HeapEvent {
  edev : Z;
  event : option ev_ptr;
  time : Z;
  ins : Z;
  writable : bool;
  ev_converted : bool;
  unconsumed : bool;
  part : source_part
}.

(** What [read_event] of a stream answers; [None] is no event for now. *)
Record stream_item := StreamItem { si_bytes : list Z; si_ins : Z; si_writable : bool; si_converted : bool }.

(** What the profiler sees: records and the reports of lost events. *)
Inductive entry :=
  | Rec (d : Z) (bs : list Z) (ins : Z) (wr conv : bool)
  | Lost (d : Z) (id lost ins t1 t2 : Z).

Record world := World {
  devs : gmap Z odev;
  events : gmap Z heap_event;
  mmaps : gmap Z perf_mmap;
  streams : gmap Z (list (bool -> option stream_item));
  kvmw : kvm;
  log : list entry;
  clk : nat
}.

(** *** Updates *)

Definition set_devs (f : gmap Z odev) (w : world) : world :=
  World f (events w) (mmaps w) (streams w) (kvmw w) (log w) (clk w).
Definition set_events (f : gmap Z heap_event) (w : world) : world :=
  World (devs w) f (mmaps w) (streams w) (kvmw w) (log w) (clk w).
Definition set_mmaps (f : gmap Z perf_mmap) (w : world) : world :=
  World (devs w) (events w) f (streams w) (kvmw w) (log w) (clk w).
Definition set_streams (f : gmap Z (list (bool -> option stream_item))) (w : world) : world :=
  World (devs w) (events w) (mmaps w) f (kvmw w) (log w) (clk w).
Definition add_log (e : entry) (w : world) : world :=
  World (devs w) (events w) (mmaps w) (streams w) (kvmw w) (log w ++ [e]) (clk w).
Definition tick (w : world) : world :=
  World (devs w) (events w) (mmaps w) (streams w) (kvmw w) (log w) (S (clk w)).

Definition put_event (i : Z) (he : heap_event) (w : world) : world :=
  set_events (<[i := he]> (events w)) w.
Definition put_mmap (i : Z) (m : perf_mmap) (w : world) : world :=
  set_mmaps (<[i := m]> (mmaps w)) w.

Definition set_ctx (c : order_ctx) (d : odev) : odev :=
  ODev (cv d) c (parent d) (children d) (sources d) (has_lost d) (refs d) (dev_mmaps d) (evlist d).
Definition set_cv (c : Convert.dev) (d : odev) : odev :=
  ODev c (ctx d) (parent d) (children d) (sources d) (has_lost d) (refs d) (dev_mmaps d) (evlist d).
Definition set_refs (r : Z) (d : odev) : odev :=
  ODev (cv d) (ctx d) (parent d) (children d) (sources d) (has_lost d) r (dev_mmaps d) (evlist d).

(** Apply [f] to the [order_ctx] of a device. *)
Definition upd_ctx (i : Z) (f : order_ctx -> order_ctx) (w : world) : option world :=
  d ← devs w !! i; Some (set_devs (<[i := set_ctx (f (ctx d)) d]> (devs w)) w).

Definition with_heap (h : min_heap Z) (c : order_ctx) : order_ctx :=
  OrderCtx h (event_list c) (heap_size c) (nr_mmaps c) (nr_streams c) (wakeup_watermark c)
    (prev_lost_time c) (heap_popped_time c) (heap_popped_ins c) (reason c) (order_on c) (inprocess c) (stats c).
Definition with_list (l : list Z) (c : order_ctx) : order_ctx :=
  OrderCtx (heapsort c) l (heap_size c) (nr_mmaps c) (nr_streams c) (wakeup_watermark c)
    (prev_lost_time c) (heap_popped_time c) (heap_popped_ins c) (reason c) (order_on c) (inprocess c) (stats c).
Definition with_size (n : Z) (c : order_ctx) : order_ctx :=
  OrderCtx (heapsort c) (event_list c) n (nr_mmaps c) (nr_streams c) (wakeup_watermark c)
    (prev_lost_time c) (heap_popped_time c) (heap_popped_ins c) (reason c) (order_on c) (inprocess c) (stats c).
Definition with_nr_streams (n : Z) (c : order_ctx) : order_ctx :=
  OrderCtx (heapsort c) (event_list c) (heap_size c) (nr_mmaps c) n (wakeup_watermark c)
    (prev_lost_time c) (heap_popped_time c) (heap_popped_ins c) (reason c) (order_on c) (inprocess c) (stats c).
Definition with_prev_lost (t : Z) (c : order_ctx) : order_ctx :=
  OrderCtx (heapsort c) (event_list c) (heap_size c) (nr_mmaps c) (nr_streams c) (wakeup_watermark c)
    t (heap_popped_time c) (heap_popped_ins c) (reason c) (order_on c) (inprocess c) (stats c).
Definition with_popped (t i : Z) (c : order_ctx) : order_ctx :=
  OrderCtx (heapsort c) (event_list c) (heap_size c) (nr_mmaps c) (nr_streams c) (wakeup_watermark c)
    (prev_lost_time c) t i (reason c) (order_on c) (inprocess c) (stats c).
Definition with_reason (r : break_reason) (c : order_ctx) : order_ctx :=
  OrderCtx (heapsort c) (event_list c) (heap_size c) (nr_mmaps c) (nr_streams c) (wakeup_watermark c)
    (prev_lost_time c) (heap_popped_time c) (heap_popped_ins c) r (order_on c) (inprocess c) (stats c).
Definition with_inprocess (b : bool) (c : order_ctx) : order_ctx :=
  OrderCtx (heapsort c) (event_list c) (heap_size c) (nr_mmaps c) (nr_streams c) (wakeup_watermark c)
    (prev_lost_time c) (heap_popped_time c) (heap_popped_ins c) (reason c) (order_on c) b (stats c).
Definition with_stats (f : order_stats -> order_stats) (c : order_ctx) : order_ctx :=
  OrderCtx (heapsort c) (event_list c) (heap_size c) (nr_mmaps c) (nr_streams c) (wakeup_watermark c)
    (prev_lost_time c) (heap_popped_time c) (heap_popped_ins c) (reason c) (order_on c) (inprocess c) (f (stats c)).

Definition inc_unordered (s : order_stats) : order_stats :=
  OrderStats (u64 (nr_unordered_events s + 1)) (nr_fixed_events s) (nr_lost s) (nr_maybe_lost s)
    (nr_maybe_lost_pause s) (maybe_lost_pause_time s) (nr_stream_pause s) (stream_pause_time s).
Definition inc_fixed (s : order_stats) : order_stats :=
  OrderStats (nr_unordered_events s) (u64 (nr_fixed_events s + 1)) (nr_lost s) (nr_maybe_lost s)
    (nr_maybe_lost_pause s) (maybe_lost_pause_time s) (nr_stream_pause s) (stream_pause_time s).
Definition inc_lost (s : order_stats) : order_stats :=
  OrderStats (nr_unordered_events s) (nr_fixed_events s) (u64 (nr_lost s + 1)) (nr_maybe_lost s)
    (nr_maybe_lost_pause s) (maybe_lost_pause_time s) (nr_stream_pause s) (stream_pause_time s).
Definition inc_maybe_lost (s : order_stats) : order_stats :=
  OrderStats (nr_unordered_events s) (nr_fixed_events s) (nr_lost s) (u64 (nr_maybe_lost s + 1))
    (nr_maybe_lost_pause s) (maybe_lost_pause_time s) (nr_stream_pause s) (stream_pause_time s).
Definition inc_lost_pause (s : order_stats) : order_stats :=
  OrderStats (nr_unordered_events s) (nr_fixed_events s) (nr_lost s) (nr_maybe_lost s)
    (u64 (nr_maybe_lost_pause s + 1)) (maybe_lost_pause_time s) (nr_stream_pause s) (stream_pause_time s).
Definition add_lost_pause_time (t : Z) (s : order_stats) : order_stats :=
  OrderStats (nr_unordered_events s) (nr_fixed_events s) (nr_lost s) (nr_maybe_lost s)
    (nr_maybe_lost_pause s) (u64 (maybe_lost_pause_time s + t)) (nr_stream_pause s) (stream_pause_time s).
Definition inc_stream_pause (s : order_stats) : order_stats :=
  OrderStats (nr_unordered_events s) (nr_fixed_events s) (nr_lost s) (nr_maybe_lost s)
    (nr_maybe_lost_pause s) (maybe_lost_pause_time s) (u64 (nr_stream_pause s + 1)) (stream_pause_time s).
Definition add_stream_pause_time (t : Z) (s : order_stats) : order_stats :=
  OrderStats (nr_unordered_events s) (nr_fixed_events s) (nr_lost s) (nr_maybe_lost s)
    (nr_maybe_lost_pause s) (maybe_lost_pause_time s) (nr_stream_pause s) (u64 (stream_pause_time s + t)).

Definition with_event (e : option ev_ptr) (t : Z) (wr : bool) (he : heap_event) : heap_event :=
  HeapEvent (edev he) e t (ins he) wr (ev_converted he) (unconsumed he) (part he).
Definition with_part (p : source_part) (he : heap_event) : heap_event :=
  HeapEvent (edev he) (event he) (time he) (ins he) (writable he) (ev_converted he) (unconsumed he) p.
Definition with_unconsumed (b : bool) (he : heap_event) : heap_event :=
  HeapEvent (edev he) (event he) (time he) (ins he) (writable he) (ev_converted he) b (part he).

Definition with_mono (t : Z) (p : mmap_part) : mmap_part :=
  MmapPart (emap p) t (maybe_lost_end p) (mpause_start p) (lost_pause p).
Definition with_lost_end (e : Z) (p : mmap_part) : mmap_part :=
  MmapPart (emap p) (event_mono_time p) e (mpause_start p) (lost_pause p).
Definition with_lost_pause (b : bool) (s : Z) (p : mmap_part) : mmap_part :=
  MmapPart (emap p) (event_mono_time p) (maybe_lost_end p) s b.

(** ** References to devices (monitor.c) *)

(** [prof_dev_get]: a device without users is not taken. *)
Definition prof_dev_get (i : Z) (w : world) : option (bool * world) :=
  d ← devs w !! i;
  if 0 <? refs d then Some (true, set_devs (<[i := set_refs (refs d + 1) d]> (devs w)) w)
  else Some (false, w).

(** [prof_dev_put]; freeing the device is not modelled: its count stays at 0. *)
Definition prof_dev_put (i : Z) (w : world) : option world :=
  d ← devs w !! i;
  Some (set_devs (<[i := set_refs (refs d - 1) d]> (devs w)) w).

(** The topmost device of the tree whose ordering is enabled. *)
Fixpoint order_main_dev (fuel : nat) (w : world) (i : Z) : option Z :=
  match fuel with
  | O => None
  | S fuel =>
      d ← devs w !! i;
      match parent d with
      | None => Some i
      | Some p =>
          pd ← devs w !! p;
          if order_on (ctx pd) then order_main_dev fuel w p else Some i
      end
  end.

(** The depth of the tree is less than the number of devices. *)
Definition main_of (w : world) (i : Z) : option Z := order_main_dev (S (stdpp.base.size (devs w))) w i.

(** [realloc_ok n] is whether there is memory for a heap of [n] pointers. *)
Section order.
Context (kern : nat -> Z -> perf_mmap -> perf_mmap) (ktime : nat -> Z) (realloc_ok : Z -> bool).

(** Look at ring buffer [i]: what the kernel wrote since becomes visible. *)
Definition sync (i : Z) (w : world) : option (perf_mmap * world) :=
  m ← mmaps w !! i;
  let m := kern (clk w) i m in
  Some (m, tick (put_mmap i m w)).

(** [get_ktime_ns] *)
Definition get_ktime_ns (w : world) : Z * world := (ktime (clk w), tick w).

(** The ring buffer operations on buffer [i] of the world. *)
Definition map_read_init (i : Z) (w : world) : option (Z * world) :=
  '(m, w) ← sync i w;
  '(r, m) ← perf_mmap__read_init m;
  Some (r, put_mmap i m w).

Definition map_read_event (i : Z) (w : world) : option (option event_ref * bool * world) :=
  '(m, w) ← sync i w;
  '(ev, wr, m) ← perf_mmap__read_event m;
  Some (ev, default false wr, put_mmap i m w).

Definition map_empty (i : Z) (w : world) : option (bool * world) :=
  '(m, w) ← sync i w; e ← perf_mmap__empty m; Some (e, w).

Definition map_consume (i : Z) (w : world) : option world :=
  '(m, w) ← sync i w; m ← perf_mmap__consume m; Some (put_mmap i m w).

Definition map_read_done (i : Z) (w : world) : option world :=
  '(m, w) ← sync i w; m ← perf_mmap__read_done m; Some (put_mmap i m w).

Definition map_unread (i : Z) (ev : option event_ref) (w : world) : option world :=
  m ← mmaps w !! i; m ← perf_mmap__unread_event m ev; Some (put_mmap i m w).

(** *** Reading an event through its pointer *)

Definition ptr_bytes (m : perf_mmap) (e : ev_ptr) : option (list Z) :=
  match e with
  | MapEvent r => event_bytes m r
  | StreamEvent bs => Some bs
  end.

Definition bytes_type (bs : list Z) : option Z := header_type bs 0.

(** The 8 bytes at [event->sample.array + time_pos]. *)
Definition bytes_time (d : odev) (bs : list Z) : option Z := get_le 8 bs (8 + time_pos (pos (cv d))).

(** *** Clocks of the heap *)

Definition heapclock (w : world) (main t : Z) : option Z :=
  d ← devs w !! main;
  if negb (nr_streams (ctx d) =? 0) && negb (bool_decide (need_conv (cv d) = CONVERT_NONE))
  then perfclock_to_evclock (kvmw w) (cv d) t
  else Some t.

Definition heapclock_to_evclock (w : world) (main t : Z) : option Z :=
  d ← devs w !! main;
  if bool_decide (need_conv (cv d) = CONVERT_NONE) || negb (nr_streams (ctx d) =? 0)
  then Some t
  else perfclock_to_evclock (kvmw w) (cv d) t.

Definition heapclock_to_perfclock (w : world) (i t : Z) : option Z :=
  main ← main_of w i;
  d ← devs w !! main;
  if negb (nr_streams (ctx d) =? 0) && negb (bool_decide (need_conv (cv d) = CONVERT_NONE))
  then evclock_to_perfclock (kvmw w) (cv d) t
  else Some t.

(** *** Handing records on

    [perf_event_process_record] and the [lost] callback belong to monitor.c and
    the profilers; here they only record what they are given. *)
Definition process_record (d : Z) (bs : list Z) (ins : Z) (wr conv : bool) (w : world) : world :=
  add_log (Rec d bs ins wr conv) w.

Definition report_lost (d id lost ins t1 t2 : Z) (w : world) : world :=
  add_log (Lost d id lost ins t1 t2) w.

(** [struct perf_record_lost]: [id] and [lost]. *)
Definition lost_fields (bs : list Z) : option (Z * Z) :=
  id ← get_le 8 bs 8; n ← get_le 8 bs 16; Some (id, n).

(** *** Repairing an event that is too early *)

(** Storing 8 bytes through an event pointer of the ring buffer. *)
Definition store_event (m : perf_mmap) (r : event_ref) (off v : Z) : option perf_mmap :=
  match r with
  | InRing o => b ← set_le 8 (ring m) (o + off) v;
                Some (PerfMmap (base m) b (mask m) (refcnt m) (prev m) (start m) (end_ m)
                        (overwrite m) (flush m) (event_copy m))
  | InCopy => b ← set_le 8 (event_copy m) off v; Some (with_copy b m)
  end.

(** The event goes to the copy unless it is there, and its time becomes
    [popped_time]. *)
Definition perf_mmap_fix_out_of_order (main dv i popped_time : Z) (w : world) : option world :=
  he ← events w !! i;
  d ← devs w !! dv;
  match event he, part he with
  | Some (MapEvent r), PERF_MMAP_EVENT p =>
      m ← mmaps w !! emap p;
      '(m, r) ← (if writable he then Some (m, r)
                 else
                   bs ← event_bytes m r;
                   c ← mem_write (event_copy m) 0 bs;
                   Some (with_copy c m, InCopy));
      t ← heapclock_to_perfclock w main popped_time;
      m ← store_event m r (8 + time_pos (pos (cv d))) t;
      let w := put_mmap (emap p) m w in
      let w := put_event i (with_event (Some (MapEvent r)) popped_time true he) w in
      upd_ctx dv (with_stats inc_fixed) w
  | _, _ => None
  end.

(** *** Space left for the kernel *)

Definition CIRC_CNT (head tail sz : Z) : Z := Z.land (u64 (head - tail)) (sz - 1).
Definition CIRC_SPACE (head tail sz : Z) : Z := CIRC_CNT tail (u64 (head + 1)) sz.

Definition perf_mmap_has_space (m : perf_mmap) (sz : Z) : bool :=
  u64 sz <=? CIRC_SPACE (end_ m) (start m) (mask m + 1).

(** *** The first event of a ring buffer *)

(** The [retry] loop: non-samples are processed at once, a lost record is kept
    for the profiler's callback. The sample, if any, and the kept record. *)
Fixpoint init_retry (fuel : nat) (dv mp insn : Z) (lost : Z * Z) (w : world)
  : option (option (event_ref * bool) * (Z * Z) * world) :=
  match fuel with
  | O => None
  | S fuel =>
      '(ev, wr, w) ← map_read_event mp w;
      match ev with
      | None => Some (None, lost, w)
      | Some r =>
          m ← mmaps w !! mp;
          bs ← event_bytes m r;
          ty ← bytes_type bs;
          if ty =? PERF_RECORD_SAMPLE then Some (Some (r, wr), lost, w)
          else
            d ← devs w !! dv;
            w ← (if ty =? PERF_RECORD_LOST then upd_ctx dv (with_stats inc_lost) w else Some w);
            '(lost, w) ← (if (ty =? PERF_RECORD_LOST) && has_lost d then
                            l ← lost_fields bs; Some (l, w)
                          else Some (lost, process_record dv bs insn wr false w));
            w ← map_consume mp w;
            init_retry fuel dv mp insn lost w
      end
  end.

Definition perf_mmap_event_init (fuel : nat) (i main : Z) (w : world) : option (Z * world) :=
  he ← events w !! i;
  match part he with
  | STREAM_EVENT _ => None
  | PERF_MMAP_EVENT p =>
      '(r, w) ← map_read_init (emap p) w;
      if r <? 0 then Some (-1, w)
      else
        '(ev, lost, w) ← init_retry fuel (edev he) (emap p) (ins he) (0, 0) w;
        match ev with
        | None => w ← map_read_done (emap p) w; Some (-1, w)
        | Some (r, wr) =>
            m ← mmaps w !! emap p;
            bs ← event_bytes m r;
            d ← devs w !! edev he;
            t ← bytes_time d bs;
            t ← heapclock w main t;
            let he := with_event (Some (MapEvent r)) t wr he in
            let w := put_event i he w in
            md ← devs w !! main;
            let popped := heap_popped_time (ctx md) in
            w ← (if t <? popped then perf_mmap_fix_out_of_order main (edev he) i popped w
                 else Some w);
            he ← events w !! i;
            w ← (if negb (snd lost =? 0) then
                   t1 ← heapclock_to_evclock w main (event_mono_time p);
                   t2 ← heapclock_to_evclock w main (time he);
                   Some (report_lost (edev he) (fst lost) (snd lost) (ins he) t1 t2 w)
                 else Some w);
            Some (0, w)
        end
  end.

(** *** Streams *)

Definition read_stream (s : Z) (init : bool) (w : world) : option (option stream_item * world) :=
  q ← streams w !! s;
  match q with
  | [] => Some (None, w)
  | x :: q => Some (x init, set_streams (<[s := q]> (streams w)) w)
  end.

Fixpoint stream_retry (fuel : nat) (dv s : Z) (init : bool) (w : world)
  : option (option stream_item * world) :=
  match fuel with
  | O => None
  | S fuel =>
      '(x, w) ← read_stream s init w;
      match x with
      | None => Some (None, w)
      | Some it =>
          ty ← bytes_type (si_bytes it);
          if negb (ty =? PERF_RECORD_SAMPLE) && negb (ty =? PERF_RECORD_ORDER_TIME) then
            stream_retry fuel dv s init
              (process_record dv (si_bytes it) (si_ins it) (si_writable it) (si_converted it) w)
          else Some (Some it, w)
      end
  end.

Definition stream_event_init (fuel : nat) (i : Z) (init : bool) (w : world) : option (Z * world) :=
  he ← events w !! i;
  match part he with
  | PERF_MMAP_EVENT _ => None
  | STREAM_EVENT p =>
      if unconsumed he then Some (0, put_event i (with_unconsumed false he) w)
      else
        '(x, w) ← stream_retry fuel (edev he) (stream p) init w;
        match x with
        | None => Some (-1, w)
        | Some it =>
            d ← devs w !! edev he;
            ty ← bytes_type (si_bytes it);
            t ← (if ty =? PERF_RECORD_ORDER_TIME then get_le 8 (si_bytes it) 8
                 else bytes_time d (si_bytes it));
            let he := HeapEvent (edev he) (Some (StreamEvent (si_bytes it))) t (si_ins it)
                        (si_writable it) (si_converted it) (unconsumed he) (part he) in
            Some (0, put_event i he w)
        end
  end.

(** *** The popped time

    Shared by both kinds of events: an event before the last popped one is
    counted, otherwise it advances the popped time. *)
Definition popped_update (main dv t insn : Z) (w : world) : option world :=
  w ← (if negb (dv =? main) then
         d ← devs w !! dv; upd_ctx dv (with_popped t (heap_popped_ins (ctx d))) w
       else Some w);
  md ← devs w !! main;
  if t <? heap_popped_time (ctx md) then upd_ctx dv (with_stats inc_unordered) w
  else upd_ctx main (with_popped t insn) w.

Definition stream_event_process (fuel : nat) (main i : Z) (w : world) : option (Z * world) :=
  he ← events w !! i;
  match part he, event he with
  | STREAM_EVENT p, Some (StreamEvent bs) =>
      w ← popped_update main (edev he) (time he) (ins he) w;
      let w := process_record (edev he) bs (ins he) (writable he) (ev_converted he) w in
      '(r, w) ← stream_event_init fuel i false w;
      he ← events w !! i;
      if r =? 0 then
        if empty_pause p then
          let '(now, w) := get_ktime_ns w in
          w ← upd_ctx (edev he) (with_stats (add_stream_pause_time (now - spause_start p))) w;
          Some (0, put_event i (with_part (STREAM_EVENT (StreamPart (stream p) (spause_start p) false)) he) w)
        else Some (0, w)
      else
        let '(now, w) := get_ktime_ns w in
        let w := put_event i (with_part (STREAM_EVENT (StreamPart (stream p) now true)) he) w in
        w ← upd_ctx (edev he) (with_stats inc_stream_pause) w;
        Some (-1, w)
  | _, _ => None
  end.

(** *** Filling the heap *)

(** The time of a heap event (an address without event is never in the heap), and
    the order of two of them. *)
Definition event_time (w : world) (i : Z) : Z := from_option time 0 (events w !! i).
Definition less_than (w : world) (x y : Z) : bool := event_time w x <? event_time w y.

(** [realloc] of the storage when it is full, by the heap size of [dv]; [false] when
    there is no memory. The sizes are [int]s. *)
Definition heap_expand (main dv : Z) (w : world) : option (bool * world) :=
  md ← devs w !! main;
  d ← devs w !! dv;
  let h := heapsort (ctx md) in
  if nr h =? MinHeap.size h then
    let n := MinHeap.size h + heap_size (ctx d) in
    if negb (n <? 2 ^ 31) then None
    else if negb (realloc_ok n) then Some (false, w)
    else
      let h := MinHeap (nr h) n (data h ++ replicate (Z.to_nat (heap_size (ctx d))) 0) in
      w ← upd_ctx main (fun c => with_size n (with_heap h c)) w;
      Some (true, w)
  else Some (true, w).

(** Append an event to the heap and take a reference to its device. *)
Definition heap_append (main dv i : Z) (w : world) : option (Z * world) :=
  '(ok, w) ← heap_expand main dv w;
  if negb ok then Some (-1, w)
  else
    md ← devs w !! main;
    he ← events w !! i;
    let h := heapsort (ctx md) in
    d ← set_elem 8 (data h) (nr h * 8) i;
    w ← upd_ctx main (with_heap (MinHeap (nr h + 1) (MinHeap.size h) d)) w;
    '(_, w) ← prof_dev_get (edev he) w;
    Some (0, w).

Fixpoint heap_init_list (fuel : nat) (main dv : Z) (l : list Z) (w : world) : option (Z * world) :=
  match l with
  | [] => Some (0, w)
  | i :: l =>
      he ← events w !! i;
      match part he with
      | PERF_MMAP_EVENT _ =>
          '(r, w) ← perf_mmap_event_init fuel i main w;
          if r <? 0 then heap_init_list fuel main dv l w
          else
            '(r, w) ← heap_append main dv i w;
            if r <? 0 then Some (-1, w) else heap_init_list fuel main dv l w
      | STREAM_EVENT _ =>
          '(r, w) ← stream_event_init fuel i true w;
          if r <? 0 then
            w ← upd_ctx main (with_reason ORDER_BREAK_STREAM_STOP) w; Some (1, w)
          else
            '(r, w) ← heap_append main dv i w;
            if r <? 0 then Some (-1, w) else heap_init_list fuel main dv l w
      end
  end.

(** [for_each_child_dev_get]: the early return does not put the child back. *)
Fixpoint each_child (f : Z -> world -> option (Z * world)) (cs : list Z) (w : world)
  : option (Z * world) :=
  match cs with
  | [] => Some (0, w)
  | c :: cs =>
      '(got, w) ← prof_dev_get c w;
      if got : bool then
        '(r, w) ← f c w;
        if negb (r =? 0) then Some (r, w)
        else w ← prof_dev_put c w; each_child f cs w
      else Some (0, w)
  end.

(** [depth] bounds the depth of the device tree, [fuel] the records read. *)
Fixpoint order_heap_init (depth fuel : nat) (main dv : Z) (w : world) : option (Z * world) :=
  match depth with
  | O => None
  | S depth =>
      d ← devs w !! dv;
      '(r, w) ← heap_init_list fuel main dv (event_list (ctx d)) w;
      if negb (r =? 0) then Some (r, w)
      else each_child (order_heap_init depth fuel main) (children d) w
  end.

(** *** One turn of the sort *)

(** Predict a lost event after [map->end]: [true] is a break. *)
Definition lost_guard (main i watermark : Z) (w : world) : option (bool * world) :=
  he ← events w !! i;
  match part he, event he with
  | PERF_MMAP_EVENT p, Some (MapEvent r) =>
      m ← mmaps w !! emap p;
      sz ← event_size m r;
      '(brk, w) ←
        (if negb (end_ m =? maybe_lost_end p) then
           if perf_mmap_has_space m (u64 (watermark + sz)) then
             Some (false, put_event i (with_part (PERF_MMAP_EVENT (with_lost_end (u64 (end_ m - 1)) p)) he) w)
           else
             w ← upd_ctx (edev he) (with_stats inc_maybe_lost)
                   (put_event i (with_part (PERF_MMAP_EVENT (with_lost_end (end_ m) p)) he) w);
             Some (false, w)
         else
           '(e, w) ← map_empty (emap p) w;
           if e : bool then
             if lost_pause p then Some (true, w)
             else
               w ← upd_ctx (edev he) (with_stats inc_lost_pause) w;
               let '(now, w) := get_ktime_ns w in
               let w := put_event i (with_part (PERF_MMAP_EVENT (with_lost_pause true now p)) he) w in
               w ← upd_ctx main (with_reason ORDER_BREAK_LOST_WAIT) w;
               Some (true, w)
           else Some (false, w));
      if brk : bool then Some (true, w)
      else
        he ← events w !! i;
        match part he with
        | PERF_MMAP_EVENT p =>
            if lost_pause p then
              let w := put_event i (with_part (PERF_MMAP_EVENT (with_lost_pause false (mpause_start p) p)) he) w in
              let '(now, w) := get_ktime_ns w in
              w ← upd_ctx (edev he) (with_stats (add_lost_pause_time (now - mpause_start p))) w;
              Some (false, w)
            else Some (false, w)
        | STREAM_EVENT _ => None
        end
  | _, _ => None
  end.

(** Keep the order within the ring buffer. *)
Definition keep_order (main i : Z) (w : world) : option world :=
  he ← events w !! i;
  match part he with
  | PERF_MMAP_EVENT p =>
      if time he <? event_mono_time p then
        perf_mmap_fix_out_of_order main (edev he) i (event_mono_time p) w
      else Some (put_event i (with_part (PERF_MMAP_EVENT (with_mono (time he) p)) he) w)
  | STREAM_EVENT _ => None
  end.

(** The labels [process] and [consume]: give the record (if any) to the profiler,
    its space to the kernel unless a lost event is expected there, and read on up
    to the next sample. The results are [need_break], the sample and the lost
    record kept for the callback. *)
Fixpoint process_consume (fuel : nat) (main i dv mp insn watermark : Z) (target : option Z) (target_end : Z)
    (rec : option (list Z * bool)) (brk : bool) (lost : Z * Z) (w : world)
  : option (bool * option (event_ref * bool) * (Z * Z) * world) :=
  match fuel with
  | O => None
  | S fuel =>
      let w := match rec with
               | Some (bs, wr) => process_record dv bs insn wr false w
               | None => w
               end in
      he ← events w !! i;
      match part he with
      | STREAM_EVENT _ => None
      | PERF_MMAP_EVENT p =>
          m ← mmaps w !! mp;
          w ← (if negb (end_ m =? maybe_lost_end p) || perf_mmap_has_space m (watermark / 2)
               then map_consume mp w else Some w);
          m ← mmaps w !! mp;
          let reached := bool_decide (target = Some mp) && (start m =? target_end) in
          w ← (if reached then upd_ctx main (with_reason ORDER_BREAK_TARGET_MAP) w else Some w);
          let brk := brk || reached in
          '(ev, wr, w) ← map_read_event mp w;
          match ev with
          | None => Some (brk, None, lost, w)
          | Some r =>
              m ← mmaps w !! mp;
              bs ← event_bytes m r;
              ty ← bytes_type bs;
              if ty =? PERF_RECORD_SAMPLE then Some (brk, Some (r, wr), lost, w)
              else if ty =? PERF_RECORD_LOST then
                w ← upd_ctx dv (with_stats inc_lost) w;
                d ← devs w !! dv;
                if has_lost d then
                  l ← lost_fields bs;
                  process_consume fuel main i dv mp insn watermark target target_end None brk l w
                else
                  process_consume fuel main i dv mp insn watermark target target_end (Some (bs, wr)) brk lost w
              else
                process_consume fuel main i dv mp insn watermark target target_end (Some (bs, wr)) brk lost w
          end
      end
  end.

(** Report the lost events before the sample now at the root. *)
Definition report_kept_lost (main i : Z) (lost : Z * Z) (w : world) : option world :=
  if snd lost =? 0 then Some w
  else
    he ← events w !! i;
    md ← devs w !! main;
    match part he with
    | STREAM_EVENT _ => None
    | PERF_MMAP_EVENT p =>
        w ← (if event_mono_time p <? prev_lost_time (ctx md) then Some w
             else upd_ctx main (with_prev_lost (event_mono_time p)) w);
        t1 ← heapclock_to_evclock w main (event_mono_time p);
        t2 ← heapclock_to_evclock w main (time he);
        Some (report_lost (edev he) (fst lost) (snd lost) (ins he) t1 t2 w)
    end.

(** [min_heap_sift_down(heap, 0)] and [min_heap_pop(heap)] on the main device. *)
Definition heap_sift_root (main : Z) (w : world) : option world :=
  md ← devs w !! main;
  h ← min_heap_sift_down (less_than w) 8 (heapsort (ctx md)) 0;
  upd_ctx main (with_heap h) w.

Definition heap_pop (main : Z) (w : world) : option world :=
  md ← devs w !! main;
  '(_, h) ← min_heap_pop (less_than w) 8 (heapsort (ctx md));
  upd_ctx main (with_heap h) w.

(** The next sample of the ring buffer replaces the root, or the empty ring buffer
    leaves the heap. *)
Definition next_sample (main i dv mp : Z) (next : option (event_ref * bool)) (brk : bool)
    (lost : Z * Z) (w : world) : option (bool * (Z * Z) * world) :=
  match next with
  | Some (r, wr) =>
      m ← mmaps w !! mp;
      bs ← event_bytes m r;
      d ← devs w !! dv;
      t ← bytes_time d bs;
      t ← heapclock w main t;
      he ← events w !! i;
      let w := put_event i (with_event (Some (MapEvent r)) t wr he) w in
      w ← heap_sift_root main w;
      w ← report_kept_lost main i lost w;
      Some (brk, (fst lost, 0), w)
  | None =>
      w ← map_read_done mp w;
      w ← heap_pop main w;
      w ← prof_dev_put dv w;
      Some (brk, lost, w)
  end.

(** The turn of a ring buffer's event. *)
Definition mmap_turn (fuel : nat) (main i : Z) (target : option Z) (target_end : Z)
    (lost : Z * Z) (w : world) : option (bool * (Z * Z) * world) :=
  he ← events w !! i;
  match part he with
  | STREAM_EVENT _ => None
  | PERF_MMAP_EVENT p =>
      let dv := edev he in
      d ← devs w !! dv;
      let watermark := wakeup_watermark (ctx d) in
      '(brk, w) ← lost_guard main i watermark w;
      if brk : bool then Some (true, lost, w)
      else
        w ← keep_order main i w;
        he ← events w !! i;
        w ← popped_update main dv (time he) (ins he) w;
        m ← mmaps w !! emap p;
        e ← event he;
        bs ← ptr_bytes m e;
        '(brk, next, lost, w) ←
          process_consume fuel main i dv (emap p) (ins he) watermark target target_end
            (Some (bs, writable he)) false lost w;
        next_sample main i dv (emap p) next brk lost w
  end.

(** One pass of [while (1)]: [true] leaves the loop. *)
Definition order_step (fuel : nat) (main : Z) (target : option Z) (target_end target_time : Z)
    (lost : Z * Z) (w : world) : option (bool * (Z * Z) * world) :=
  md ← devs w !! main;
  match min_heap_peek 8 (heapsort (ctx md)) with
  | None => w ← upd_ctx main (with_reason ORDER_BREAK_EMPTY) w; Some (true, lost, w)
  | Some i =>
      he ← events w !! i;
      match part he with
      | STREAM_EVENT _ =>
          '(r, w) ← stream_event_process fuel main i w;
          if r =? 0 then w ← heap_sift_root main w; Some (false, lost, w)
          else
            w ← heap_pop main w;
            w ← prof_dev_put (edev he) w;
            w ← upd_ctx main (with_reason ORDER_BREAK_STREAM_STOP) w;
            Some (true, lost, w)
      | PERF_MMAP_EVENT _ =>
          if target_time <? time he then
            w ← upd_ctx main (with_reason ORDER_BREAK_TARGET_TIME) w; Some (true, lost, w)
          else mmap_turn fuel main i target target_end lost w
      end
  end.

Fixpoint order_loop (turns fuel : nat) (main : Z) (target : option Z) (target_end target_time : Z)
    (lost : Z * Z) (w : world) : option world :=
  match turns with
  | O => None
  | S turns =>
      '(done, lost, w) ← order_step fuel main target target_end target_time lost w;
      if done : bool then Some w
      else order_loop turns fuel main target target_end target_time lost w
  end.

(** The label [stream_stop]: what is left in the heap goes back to its source. *)
Fixpoint put_back (fuel : nat) (main : Z) (w : world) : option world :=
  match fuel with
  | O => None
  | S fuel =>
      md ← devs w !! main;
      let h := heapsort (ctx md) in
      if nr h =? 0 then Some w
      else
        let n := nr h - 1 in
        i ← elem 8 (data h) (n * 8);
        w ← upd_ctx main (with_heap (MinHeap n (MinHeap.size h) (data h))) w;
        he ← events w !! i;
        w ← match part he with
            | PERF_MMAP_EVENT p =>
                w ← map_unread (emap p) (match event he with Some (MapEvent r) => Some r | _ => None end) w;
                map_consume (emap p) w
            | STREAM_EVENT _ => Some (put_event i (with_unconsumed true he) w)
            end;
        w ← prof_dev_put (edev he) w;
        put_back fuel main w
  end.

(** Heapify and sort, or clean up at once when the heap could not be filled. *)
Definition order_sort (turns fuel : nat) (main : Z) (target : option Z) (target_end target_time : Z)
    (w : world) : option world :=
  md ← devs w !! main;
  h ← min_heapify_all (less_than w) 8 (heapsort (ctx md));
  w ← upd_ctx main (with_heap h) w;
  order_loop turns fuel main target target_end target_time (0, 0) w.

Definition order_process (turns fuel : nat) (dv : Z) (target : option Z) (target_tm : Z) (w : world)
  : option world :=
  main ← main_of w dv;
  md ← devs w !! main;
  if inprocess (ctx md) then Some w
  else
    '(stop, w) ←
      match target with
      | None => Some (false, w)
      | Some t =>
          '(r, w) ← map_read_init t w;
          if r <? 0 then Some (true, w) else map_empty t w
      end;
    if stop : bool then Some w
    else
      '(_, w) ← prof_dev_get main w;
      w ← upd_ctx main (with_inprocess true) w;
      target_end ← match target with None => Some 0 | Some t => m ← mmaps w !! t; Some (end_ m) end;
      target_time ← (if target_tm =? 0 then Some U64_MAX else heapclock w main target_tm);
      w ← upd_ctx main (fun c => with_heap (MinHeap 0 (MinHeap.size (heapsort c)) (data (heapsort c))) c) w;
      '(r, w) ← order_heap_init (S (stdpp.base.size (devs w))) fuel main main w;
      w ← (if r =? 0 then order_sort turns fuel main target target_end target_time w else Some w);
      md ← devs w !! main;
      w ← put_back (S (Z.to_nat (nr (heapsort (ctx md))))) main w;
      w ← upd_ctx main (with_inprocess false) w;
      prof_dev_put main w.

(** *** Setting the ordering up and down *)

(** [permap d] is where [posix_memalign] puts the events of device [d], [pages n]
    the reads of ring buffer [n]'s page; [wm] is [perf_sample_watermark]. *)
Context (permap : Z -> Z) (pages : Z -> nat -> tsc_page) (clocksource_is_tsc : bool)
  (wm : list sample_attr -> Z).

Definition attrs (d : odev) : list event_attr :=
  (fun a => EventAttr (speriod a) (stype a)) <$> evlist d.

(** The ring buffers of the device become heap events, in order. *)
Fixpoint init_mmap_events (dv : Z) (idx : Z) (ms : list Z) (w : world) : option world :=
  match ms with
  | [] => Some w
  | m :: ms =>
      d ← devs w !! dv;
      let d := if idx =? 0
               then set_cv (perf_event_convert_read_tsc_conversion clocksource_is_tsc (pages m) (cv d)) d
               else d in
      let i := permap dv + idx in
      let he := HeapEvent dv None 0 idx false false false (PERF_MMAP_EVENT (MmapPart m 0 0 0 false)) in
      let d := set_ctx (with_list (event_list (ctx d) ++ [i]) (ctx d)) d in
      init_mmap_events dv (idx + 1) ms (put_event i he (set_devs (<[dv := d]> (devs w)) w))
  end.

(** Apply [f] to each source while it is referenced. *)
Fixpoint each_source (f : Z -> world -> option world) (ss : list Z) (w : world) : option world :=
  match ss with
  | [] => Some w
  | s :: ss =>
      '(got, w) ← prof_dev_get s w;
      if got : bool then w ← f s w; w ← prof_dev_put s w; each_source f ss w else Some w
  end.

(** [list_splice_tail_init] of a source's events. *)
Definition splice (dv s : Z) (w : world) : option world :=
  sd ← devs w !! s;
  let l := event_list (ctx sd) in
  w ← upd_ctx s (with_list []) w;
  upd_ctx dv (fun c => with_list (event_list c ++ l) c) w.

(** The return value and the new world. *)
Fixpoint order_init (depth : nat) (dv : Z) (w : world) : option (Z * world) :=
  match depth with
  | O => None
  | S depth =>
      d ← devs w !! dv;
      if order_on (ctx d) then Some (0, w)
      else
        let '(r, c) := perf_sample_time_init (attrs d) (cv d) in
        let w := set_devs (<[dv := set_cv c d]> (devs w)) w in
        if r <? 0 then Some (-1, w)
        else if negb (has (sample_type (pos c)) PERF_SAMPLE_TIME) then Some (-1, w)
        else
          w ← each_source (fun s w => '(_, w) ← order_init depth s w; Some w) (sources d) w;
          sizes ← mapM (fun s => sd ← devs w !! s; Some (nr_mmaps (ctx sd))) (sources d);
          d ← devs w !! dv;
          let n := Z.of_nat (length (dev_mmaps d)) in
          let size := foldr Z.add 0 sizes + n + nr_streams (ctx d) in
          let c := ctx d in
          let c := OrderCtx (min_heap_init (replicate (Z.to_nat size) 0) size) (event_list c) size n
                     (nr_streams c) (wm (evlist d)) (prev_lost_time c) 0 (heap_popped_ins c) (reason c)
                     (order_on c) (inprocess c) (stats c) in
          let w := set_devs (<[dv := set_ctx c d]> (devs w)) w in
          w ← init_mmap_events dv 0 (dev_mmaps d) w;
          w ← each_source (splice dv) (sources d) w;
          w ← upd_ctx dv (fun c => OrderCtx (heapsort c) (event_list c) (heap_size c) (nr_mmaps c)
                 (nr_streams c) (wakeup_watermark c) (prev_lost_time c) (heap_popped_time c)
                 (heap_popped_ins c) (reason c) true (inprocess c) (stats c)) w;
          Some (0, w)
  end.

(** The device's own ring buffer events leave whatever list they are on ([list_del]
    through their links), then its list is emptied and its streams freed. *)
Definition order_deinit (dv : Z) (w : world) : option world :=
  d ← devs w !! dv;
  let own := (fun k => permap dv + Z.of_nat k) <$> seq 0 (Z.to_nat (nr_mmaps (ctx d))) in
  let f := (fun d => set_ctx (with_list (filter (.∉ own) (event_list (ctx d))) (ctx d)) d) <$> devs w in
  d ← f !! dv;
  let rest := event_list (ctx d) in
  let gone i he := match part he with
                   | STREAM_EVENT _ => bool_decide (i ∈ rest) | PERF_MMAP_EVENT _ => bool_decide (i ∈ own)
                   end in
  let evs := filter (fun '(i, he) => gone i he = false) (events w) in
  Some (set_events evs (set_devs (<[dv := set_ctx (with_list [] (ctx d)) d]> f) w)).

(** [i] is where the stream event is allocated; it goes to the head of the main
    device's list, whose heap gets room for it when it exists. *)
Definition order_register (i dv s : Z) (w : world) : option (Z * world) :=
  main ← main_of w dv;
  md ← devs w !! main;
  let he := HeapEvent dv None 0 0 false false false (STREAM_EVENT (StreamPart s 0 false)) in
  let c := ctx md in
  let c := if order_on c then
             let n := heap_size c + 1 in
             with_size n (with_heap (min_heap_init (replicate (Z.to_nat n) 0) n) c)
           else c in
  let c := with_list (i :: event_list c) (with_nr_streams (nr_streams c + 1) c) in
  w ← upd_ctx main (fun _ => c) (put_event i he w);
  Some (0, w).

(** The first event of the stream on the list, if any. *)
Fixpoint find_stream (w : world) (s : Z) (l : list Z) : option Z :=
  match l with
  | [] => None
  | i :: l =>
      match part <$> events w !! i with
      | Some (STREAM_EVENT p) => if stream p =? s then Some i else find_stream w s l
      | _ => find_stream w s l
      end
  end.

Definition order_unregister (dv s : Z) (w : world) : option world :=
  main ← main_of w dv;
  md ← devs w !! main;
  match find_stream w s (event_list (ctx md)) with
  | None => Some w
  | Some i =>
      let c := ctx md in
      w ← upd_ctx main (fun _ => with_nr_streams (nr_streams c - 1)
             (with_list (filter (.≠ i) (event_list c)) c)) w;
      Some (set_events (delete i (events w)) w)
  end.
End order.
