(* ===== verification/OrderSafe.v ===== *)
(** * No event is delivered out of order: safety of [order_process] (order.c)

    For ring buffers only (no streams), whatever the kernel writes meanwhile: the
    popped time of the main device never goes back and no event is counted as
    unordered.  The invariant: every event in the heap is at or after the popped
    time, except at most one, whose ring buffer's own monotonic time is the
    popped time; that one is the root, and is repaired before it is delivered. *)

From S2P Require Import Prelude Bytes MinHeap Mmap Convert Watermark Order.

(** ** What matters of a world

    Of a heap event, whether it is a ring buffer's, its time and its monotonic
    time; of the main device, the heap, the popped time and the streams; of the
    devices, the unordered counters, the heap sizes and the structure of the tree. *)

Definition mono_of (he : heap_event) : option Z :=
  match part he with
  | PERF_MMAP_EVENT p => Some (event_mono_time p)
  | STREAM_EVENT _ => None
  end.

Definition view (he : heap_event) : Z * option Z * Z := (time he, mono_of he, edev he).

Definition ev_view (w : world) (i : Z) : option (Z * option Z * Z) := view <$> events w !! i.

Definition main_view (w : world) (m : Z) : option (min_heap Z * Z * Z * Z) :=
  (fun d => (heapsort (ctx d), heap_popped_time (ctx d), nr_streams (ctx d), heap_size (ctx d))) <$> devs w !! m.

Definition counts (w : world) (d : Z) : option (Z * Z) :=
  (fun d => (nr_unordered_events (stats (ctx d)), heap_size (ctx d))) <$> devs w !! d.

Definition tree (w : world) (d : Z) : option (list Z * list Z) :=
  (fun d => (event_list (ctx d), children d)) <$> devs w !! d.

(** Nothing of this changed. *)
Record keeps (w w' : world) : Prop := {
  keep_ev i : ev_view w' i = ev_view w i;
  keep_main m : main_view w' m = main_view w m;
  keep_unordered d : counts w' d = counts w d;
  keep_tree d : tree w' d = tree w d
}.

#[export] Instance keeps_preorder : PreOrder keeps.
Proof.
  split; [by split|]. intros a b c [H1 H2 H3 H4] [K1 K2 K3 K4].
  split; intros; [rewrite K1|rewrite K2|rewrite K3|rewrite K4]; auto.
Qed.

(** Worlds with the same events and devices. *)
Lemma keeps_same w w' : events w' = events w -> devs w' = devs w -> keeps w w'.
Proof. intros He Hd. split; intros; unfold ev_view, main_view, counts, tree; by rewrite ?He, ?Hd. Qed.

(** A device replaced by one that agrees with it. *)
Definition dev_agree (d d' : odev) : Prop :=
  heapsort (ctx d') = heapsort (ctx d) /\ heap_popped_time (ctx d') = heap_popped_time (ctx d) /\
  nr_streams (ctx d') = nr_streams (ctx d) /\ heap_size (ctx d') = heap_size (ctx d) /\
  nr_unordered_events (stats (ctx d')) = nr_unordered_events (stats (ctx d)) /\
  event_list (ctx d') = event_list (ctx d) /\ children d' = children d.

Lemma keeps_dev w i d d' :
  devs w !! i = Some d -> dev_agree d d' -> keeps w (set_devs (<[i := d']> (devs w)) w).
Proof.
  intros Hd (H1 & H2 & H3 & H4 & H5 & H6 & H7).
  split; intros j; unfold ev_view, main_view, counts, tree; cbn [events devs set_devs]; [done|..];
    (destruct (decide (i = j)) as [<-|Hne];
      [rewrite lookup_insert_eq, Hd; cbn [fmap option_fmap option_map]; congruence
      |by rewrite lookup_insert_ne]).
Qed.

Lemma keeps_event w i he he' :
  events w !! i = Some he -> view he' = view he -> keeps w (put_event i he' w).
Proof.
  intros Hi Hv. split; intros j; unfold ev_view, main_view, counts, tree; cbn; [|done..].
  destruct (decide (i = j)) as [<-|Hne]; [rewrite lookup_insert_eq, Hi; cbn; by rewrite Hv|].
  by rewrite lookup_insert_ne.
Qed.

(** [upd_ctx] with an update of something else. *)
Lemma keeps_upd_ctx i f w w' :
  upd_ctx i f w = Some w' ->
  (forall d, dev_agree d (set_ctx (f (ctx d)) d)) -> keeps w w'.
Proof.
  unfold upd_ctx. destruct (devs w !! i) as [d|] eqn:Hd; [|done]. intros [= <-] Hf.
  by apply (keeps_dev w i d).
Qed.

Lemma dev_agree_stats f d :
  nr_unordered_events (f (stats (ctx d))) = nr_unordered_events (stats (ctx d)) ->
  dev_agree d (set_ctx (with_stats f (ctx d)) d).
Proof. by repeat split. Qed.

Create HintDb keeps discriminated.
#[export] Hint Resolve dev_agree_stats : keeps.
#[export] Hint Extern 1 (dev_agree _ _) => (by repeat split) : keeps.
#[export] Hint Extern 1 (nr_unordered_events _ = nr_unordered_events _) => reflexivity : keeps.

(** Take apart the first step of a successful run. *)
Tactic Notation "bind" hyp(H) "as" simple_intropattern(p) :=
  apply bind_Some in H as p; cbn beta iota in *.

(** Take apart a successful run. *)
Ltac run_step H :=
  match type of H with
  | (_ ← ?x; _) = Some _ => let E := fresh "E" in destruct x as [?|] eqn:E; [|done]; cbn [mbind option_bind] in H
  | (let '(_, _) := ?x in _) = Some _ => destruct x as [? ?] eqn:?
  end.
Ltac run H := repeat (run_step H; cbn beta iota zeta in H).

Section keeps.
Context (kern : nat -> Z -> perf_mmap -> perf_mmap) (ktime : nat -> Z).

Lemma keeps_sync i w m w' : sync kern i w = Some (m, w') -> keeps w w'.
Proof. unfold sync. intros H. run H. simplify_eq. by apply keeps_same. Qed.

Lemma keeps_put_mmap i m w : keeps w (put_mmap i m w).
Proof. by apply keeps_same. Qed.

Lemma keeps_read_init i w r w' : map_read_init kern i w = Some (r, w') -> keeps w w'.
Proof.
  unfold map_read_init. intros H. run H. simplify_eq.
  etrans; [by eapply keeps_sync|apply keeps_put_mmap].
Qed.

Lemma keeps_read_event i w e wr w' : map_read_event kern i w = Some (e, wr, w') -> keeps w w'.
Proof.
  unfold map_read_event. intros H. run H. simplify_eq.
  etrans; [by eapply keeps_sync|apply keeps_put_mmap].
Qed.

Lemma keeps_empty i w e w' : map_empty kern i w = Some (e, w') -> keeps w w'.
Proof. unfold map_empty. intros H. run H. simplify_eq. by eapply keeps_sync. Qed.

Lemma keeps_consume i w w' : map_consume kern i w = Some w' -> keeps w w'.
Proof.
  unfold map_consume. intros H. run H. simplify_eq.
  etrans; [by eapply keeps_sync|apply keeps_put_mmap].
Qed.

Lemma keeps_read_done i w w' : map_read_done kern i w = Some w' -> keeps w w'.
Proof.
  unfold map_read_done. intros H. run H. simplify_eq.
  etrans; [by eapply keeps_sync|apply keeps_put_mmap].
Qed.

Lemma keeps_unread i e w w' : map_unread i e w = Some w' -> keeps w w'.
Proof. unfold map_unread. intros H. run H. simplify_eq. apply keeps_put_mmap. Qed.

Lemma keeps_log e w : keeps w (add_log e w).
Proof. by apply keeps_same. Qed.

Lemma keeps_get i w b w' : prof_dev_get i w = Some (b, w') -> keeps w w'.
Proof.
  unfold prof_dev_get. intros H. run H. destruct (0 <? refs o); simplify_eq; [|done].
  eapply keeps_dev; [done|]. by repeat split.
Qed.

Lemma keeps_put i w w' : prof_dev_put i w = Some w' -> keeps w w'.
Proof.
  unfold prof_dev_put. intros H. run H. simplify_eq. eapply keeps_dev; [done|]. by repeat split.
Qed.

Lemma keeps_process d bs n wr cv w : keeps w (process_record d bs n wr cv w).
Proof. apply keeps_log. Qed.

Lemma keeps_init_retry fuel : forall dv mp insn lost w r lost' w',
  init_retry kern fuel dv mp insn lost w = Some (r, lost', w') -> keeps w w'.
Proof.
  induction fuel as [|fuel IH]; intros dv mp insn lost w r lost' w' H; [done|].
  cbn [init_retry] in H. bind H as ([[ev wr] w1] & Er & H).
  apply keeps_read_event in Er as Hr. destruct ev as [e|]; [|by simplify_eq].
  bind H as (m & Em & H). bind H as (bs & Eb & H). bind H as (ty & Et & H).
  destruct (ty =? PERF_RECORD_SAMPLE); [by simplify_eq|].
  bind H as (d & Ed & H). bind H as (w2 & E2 & H). bind H as ([lost1 w3] & E3 & H).
  bind H as (w4 & E4 & H). apply keeps_consume in E4. apply IH in H.
  etrans; [exact Hr|]. transitivity w2.
  { destruct (ty =? PERF_RECORD_LOST); [|by simplify_eq].
    eapply keeps_upd_ctx; [done|]. auto with keeps. }
  transitivity w3; [|by etrans].
  destruct (_ && _); [|simplify_eq; apply keeps_process].
  bind E3 as (l & El & E3). by simplify_eq.
Qed.

Lemma keeps_process_consume fuel main : forall i dv mp insn wm tg te rec brk lost w brk' nx lost' w',
  process_consume kern fuel main i dv mp insn wm tg te rec brk lost w = Some (brk', nx, lost', w') ->
  keeps w w'.
Proof.
  induction fuel as [|fuel IH]; intros i dv mp insn wm tg te rec brk lost w brk' nx lost' w' H; [done|].
  cbn [process_consume] in H. cbv zeta in H.
  set (w0 := match rec with Some (bs, wr) => _ | None => w end) in *.
  transitivity w0.
  { unfold w0. destruct rec as [[bs wr]|]; [apply keeps_process|done]. }
  bind H as (he & Eh & H). destruct (part he) as [p|]; [|done].
  bind H as (m & Em & H). bind H as (w1 & E1 & H). bind H as (m1 & Em1 & H).
  bind H as (w1' & E1' & H). bind H as ([[ev wr] w2] & E2 & H). apply keeps_read_event in E2.
  transitivity w1.
  { destruct (_ || _); [by eapply keeps_consume|by simplify_eq]. }
  transitivity w1'.
  { destruct (_ && _); [|by simplify_eq]. eapply keeps_upd_ctx; [exact E1'|]. auto with keeps. }
  etrans; [exact E2|]. destruct ev as [r|]; [|by simplify_eq].
  bind H as (m2 & Em2 & H). bind H as (bs & Eb & H). bind H as (ty & Et & H).
  destruct (ty =? PERF_RECORD_SAMPLE); [by simplify_eq|].
  destruct (ty =? PERF_RECORD_LOST); [|by eapply IH].
  bind H as (w3 & E3 & H). bind H as (d & Ed & H).
  etrans; [eapply keeps_upd_ctx; [exact E3|]; auto with keeps|].
  destruct (has_lost d); [bind H as (l & El & H)|]; by eapply IH.
Qed.

Lemma empty_events i w e w' : map_empty kern i w = Some (e, w') -> events w' = events w.
Proof.
  unfold map_empty, sync. intros H. bind H as ([m v] & E & H). bind E as (m0 & E0 & E).
  bind H as (b & Eb & H). by simplify_eq.
Qed.

Lemma upd_ctx_events i f w w' : upd_ctx i f w = Some w' -> events w' = events w.
Proof. unfold upd_ctx. intros H. bind H as (d & Ed & H). by simplify_eq. Qed.

(** The part of a ring buffer's event changes, but not its monotonic time. *)
Lemma keeps_part i h p q w v :
  keeps w v -> events v = events w -> events w !! i = Some h -> part h = PERF_MMAP_EVENT p ->
  event_mono_time q = event_mono_time p -> keeps w (put_event i (with_part (PERF_MMAP_EVENT q) h) v).
Proof.
  intros Hv He Hh Hp Hq. etrans; [exact Hv|]. apply (keeps_event _ _ h); [congruence|].
  unfold view, mono_of. rewrite Hp. cbn. by rewrite Hq.
Qed.

Lemma keeps_lost_guard main i wm w b w' :
  lost_guard kern ktime main i wm w = Some (b, w') -> keeps w w'.
Proof.
  unfold lost_guard. intros H. bind H as (h & Eh & H).
  destruct (part h) as [p|] eqn:Hp; [|done]. destruct (event h) as [[r|]|]; try done.
  bind H as (m & Em & H). bind H as (sz & Es & H). bind H as ([brk w1] & E1 & H).
  transitivity w1.
  - destruct (negb _).
    + destruct (perf_mmap_has_space _ _); [simplify_eq; by eapply keeps_part|].
      bind E1 as (w2 & E2 & E1). simplify_eq.
      etrans; [by apply (keeps_part i h p (with_lost_end (end_ m) p))|]. eapply keeps_upd_ctx; [exact E2|]. auto with keeps.
    + bind E1 as ([e w2] & E2 & E1). apply keeps_empty in E2 as Hk. apply empty_events in E2.
      destruct e; [|by simplify_eq]. destruct (lost_pause p); [by simplify_eq|].
      bind E1 as (w3 & E3 & E1). unfold get_ktime_ns in E1. bind E1 as (w4 & E4 & E1). simplify_eq.
      apply upd_ctx_events in E3 as Hev3.
      etrans; [|eapply keeps_upd_ctx; [exact E4|]; auto with keeps].
      eapply (keeps_part i h p); [|cbn; congruence|done|done|done].
      etrans; [exact Hk|]. transitivity w3; [|by apply keeps_same].
      eapply keeps_upd_ctx; [exact E3|]. auto with keeps.
  - destruct brk; [by simplify_eq|]. bind H as (h' & Eh' & H).
    destruct (part h') as [q|] eqn:Hq; [|done]. destruct (lost_pause q); [|by simplify_eq].
    unfold get_ktime_ns in H. bind H as (w2 & E2 & H). simplify_eq.
    etrans; [|eapply keeps_upd_ctx; [exact E2|]; auto with keeps].
    etrans; [apply (keeps_part i h' q (with_lost_pause false (mpause_start q) q)); done|].
    by apply keeps_same.
Qed.
End keeps.

(** ** Steps that change one event *)

(** The view of event [i] becomes [v]; nothing else changes. *)
Record sets (i : Z) (v : Z * option Z * Z) (w w' : world) : Prop := {
  sets_at : ev_view w' i = Some v;
  sets_ev j : j <> i -> ev_view w' j = ev_view w j;
  sets_main m : main_view w' m = main_view w m;
  sets_unordered d : counts w' d = counts w d;
  sets_tree d : tree w' d = tree w d
}.

Lemma sets_put_event i he w : sets i (view he) w (put_event i he w).
Proof.
  split; unfold ev_view, main_view, counts, tree; cbn; [by rewrite lookup_insert_eq| |done..].
  intros j Hj. by rewrite lookup_insert_ne.
Qed.

Lemma keeps_sets i v w w1 w2 : keeps w w1 -> sets i v w1 w2 -> sets i v w w2.
Proof.
  intros [H1 H2 H3 H4] [K0 K1 K2 K3 K4].
  split; [done|..]; intros; [rewrite K1 by done|rewrite K2|rewrite K3|rewrite K4]; auto.
Qed.

Lemma sets_keeps i v w w1 w2 : sets i v w w1 -> keeps w1 w2 -> sets i v w w2.
Proof.
  intros [K0 K1 K2 K3 K4] [H1 H2 H3 H4].
  split; [congruence|..]; intros; [rewrite H1|rewrite H2|rewrite H3|rewrite H4]; auto.
Qed.

Lemma sets_sets i v v' w w1 w2 : sets i v w w1 -> sets i v' w1 w2 -> sets i v' w w2.
Proof.
  intros [K0 K1 K2 K3 K4] [H0 H1 H2 H3 H4].
  split; [done|..]; intros; [rewrite H1 by done|rewrite H2|rewrite H3|rewrite H4]; auto.
Qed.

Lemma fix_sets main dv i popped w w' t m dv' :
  perf_mmap_fix_out_of_order main dv i popped w = Some w' ->
  ev_view w i = Some (t, m, dv') -> sets i (popped, m, dv') w w'.
Proof.
  unfold perf_mmap_fix_out_of_order. intros H Hv. bind H as (he & Eh & H).
  bind H as (d & Ed & H). destruct (event he) as [[r|]|]; try done.
  destruct (part he) as [p|] eqn:Hp; [|done]. bind H as (mp & Em & H).
  bind H as ([mp1 r1] & E1 & H). bind H as (t1 & Et & H). bind H as (mp2 & E2 & H).
  cbv zeta in H.
  unfold ev_view in Hv. rewrite Eh in Hv. cbn in Hv. unfold view, mono_of in Hv. rewrite Hp in Hv.
  simplify_eq. eapply sets_keeps; [|eapply keeps_upd_ctx; [exact H|]; auto with keeps].
  eapply keeps_sets; [apply keeps_put_mmap|].
  pose proof (sets_put_event i (with_event (Some (MapEvent r1)) popped true he)
    (put_mmap (emap p) mp2 w)) as Hs.
  unfold view, mono_of in Hs. cbn [part with_event] in Hs. by rewrite Hp in Hs.
Qed.

(** Keeping the order within the ring buffer makes the event's time and the
    monotonic time the later of the two. *)
Lemma keep_order_sets main i w w' t m dv :
  keep_order main i w = Some w' -> ev_view w i = Some (t, Some m, dv) ->
  sets i (Z.max t m, Some (Z.max t m), dv) w w'.
Proof.
  unfold keep_order. intros H Hv. bind H as (he & Eh & H).
  pose proof Hv as Hv0. unfold ev_view in Hv. rewrite Eh in Hv. cbn in Hv. unfold view, mono_of in Hv.
  destruct (part he) as [p|] eqn:Hp; [|done]. simplify_eq.
  destruct (Z.ltb_spec (time he) (event_mono_time p)).
  - rewrite Z.max_r by lia. by eapply fix_sets.
  - rewrite Z.max_l by lia. simplify_eq.
    pose proof (sets_put_event i (with_part (PERF_MMAP_EVENT (with_mono (time he) p)) he) w) as Hs.
    done.
Qed.

(** ** The popped time *)

Definition popped_of (w : world) (m : Z) : option Z := (fun '(_, p, _, _) => p) <$> main_view w m.

Lemma popped_update_spec main dv t insn w w' h popped n hs :
  popped_update main dv t insn w = Some w' -> main_view w main = Some (h, popped, n, hs) ->
  popped <= t ->
  events w' = events w /\ main_view w' main = Some (h, t, n, hs) /\
  (forall d, counts w' d = counts w d) /\ (forall d, tree w' d = tree w d).
Proof.
  unfold popped_update. intros H Hm Ht. bind H as (w1 & E1 & H). bind H as (md & Emd & H).
  assert (events w1 = events w /\ main_view w1 main = main_view w main /\
    (forall d, counts w1 d = counts w d) /\ (forall d, tree w1 d = tree w d)) as (He & Hm1 & Hu & Htr).
  { destruct (Z.eqb_spec dv main) as [->|Hne]; cbn [negb] in E1; [by simplify_eq|].
    bind E1 as (d & Ed & E1). unfold upd_ctx in E1. rewrite Ed in E1. cbn in E1. simplify_eq.
    unfold main_view, counts, tree; cbn. split; [done|]. split; [by rewrite lookup_insert_ne|].
    split; intros j; (destruct (decide (dv = j)) as [<-|];
      [by rewrite lookup_insert_eq, Ed|by rewrite lookup_insert_ne]). }
  rewrite Hm in Hm1. unfold main_view in Hm1. rewrite Emd in Hm1. cbn in Hm1. simplify_eq.
  destruct (Z.ltb_spec t (heap_popped_time (ctx md))); [lia|].
  unfold upd_ctx in H. rewrite Emd in H. cbn in H. simplify_eq.
  unfold main_view, counts, tree in *; cbn. split; [done|].
  split; [by rewrite lookup_insert_eq|]. split; intros j.
  - rewrite <- Hu. destruct (decide (main = j)) as [<-|]; [by rewrite lookup_insert_eq, Emd|].
    by rewrite lookup_insert_ne.
  - rewrite <- Htr. destruct (decide (main = j)) as [<-|]; [by rewrite lookup_insert_eq, Emd|].
    by rewrite lookup_insert_ne.
Qed.

(** ** The invariant *)

Lemma event_time_view w i t m dv : ev_view w i = Some (t, m, dv) -> event_time w i = t.
Proof.
  unfold ev_view, event_time. destruct (events w !! i) as [he|]; [|done]. cbn. intros [= <- _ _]. done.
Qed.

Lemma event_time_eq w w' i : ev_view w' i = ev_view w i -> event_time w' i = event_time w i.
Proof.
  unfold ev_view, event_time, view.
  destruct (events w !! i), (events w' !! i); cbn; intros Heq; by simplify_eq.
Qed.

(** Every event is a ring buffer's, whose monotonic time is not after [popped]. *)
Definition all_mono (popped : Z) (w : world) : Prop :=
  forall j t m dv, ev_view w j = Some (t, m, dv) -> exists m', m = Some m' /\ m' <= popped.

(** The heap's storage: what [MinHeap.wf] asks for, with sizes that are [int]s. *)
Definition storage (h : min_heap Z) : Prop :=
  0 <= nr h <= MinHeap.size h /\ Z.of_nat (length (data h)) = MinHeap.size h /\ MinHeap.size h < 2 ^ 31.

Lemma storage_wf h : storage h -> wf 8 h.
Proof. intros (H1 & H2 & H3). split; [done..|]. unfold fits. lia. Qed.

Lemma storage_same h h' : storage h -> wf 8 h' -> MinHeap.size h' = MinHeap.size h -> storage h'.
Proof. intros (H1 & H2 & H3) [K1 K2 _] Hs. unfold storage. lia. Qed.

(** The root may be before the popped time, if its ring buffer's last event was
    the popped one; then all the others are not. *)
Record inv (main : Z) (h : min_heap Z) (popped hs : Z) (w : world) : Prop := {
  inv_main : main_view w main = Some (h, popped, 0, hs);
  inv_heap : good (less_than w) 8 h;
  inv_nodup : NoDup (elems h);
  inv_events j : j ∈ elems h -> exists t m dv, ev_view w j = Some (t, Some m, dv) /\
    (popped <= t \/ m = popped /\ forall j', j' ∈ elems h -> j' <> j -> popped <= event_time w j');
  inv_mono : all_mono popped w;
  inv_storage : storage h
}.

Lemma good_ext {A} (less less' : A -> A -> bool) es h :
  (forall x y, less' x y = less x y) -> good less es h -> good less' es h.
Proof. intros Heq [Hw Ho]. split; [done|]. intros j Hj Hlo x y Hx Hy. rewrite Heq. by eapply Ho. Qed.

Lemma inv_keeps main h popped hs w w' : keeps w w' -> inv main h popped hs w -> inv main h popped hs w'.
Proof.
  intros [H1 H2 H3 H4] [I1 I2 I3 I4 I5 I6].
  assert (forall j, event_time w' j = event_time w j) as Ht by (intros j; by apply event_time_eq).
  split.
  - by rewrite H2.
  - apply (good_ext (less_than w)); [|done]. intros x y. unfold less_than. by rewrite !Ht.
  - done.
  - intros j Hj. destruct (I4 j Hj) as (t & m & dv & Hv & Hc). exists t, m, dv.
    rewrite H1. split; [done|]. destruct Hc as [?|[? Ho]]; [by left|right]. split; [done|].
    intros j' ??. rewrite Ht. by apply Ho.
  - intros j t m dv. rewrite H1. apply I5.
  - done.
Qed.

(** ** One turn *)

Lemma ptr_size : 0 < 8 < 2 ^ 32.
Proof. lia. Qed.

#[export] Instance less_than_StrictWeak w : StrictWeak (less_than w) := key_StrictWeak (event_time w).

Lemma root_elem main h popped hs w i :
  inv main h popped hs w -> min_heap_peek 8 h = Some i ->
  0 < nr h /\ data h !! 0%nat = Some i /\ i ∈ elems h /\
  (forall j, j ∈ elems h -> event_time w i <= event_time w j).
Proof.
  intros [_ [Hwf Ho] _ _ _] Hpk. pose proof (wf_nr 8 h Hwf) as Hnr.
  assert (0 < nr h) as Hpos.
  { unfold min_heap_peek in Hpk. destruct (Z.eqb_spec (nr h) 0); [done|lia]. }
  destruct (peek_min (less_than w) 8 ptr_size h Hwf Ho Hpos) as (x & Hx & H0 & Hmin).
  assert (x = i) as -> by congruence. split; [done|]. split; [done|]. split.
  - unfold elems. apply list_elem_of_lookup. exists 0%nat. by rewrite lookup_take_lt by lia.
  - intros j Hj. specialize (Hmin j Hj). unfold less_than in Hmin. lia.
Qed.

(** The root [i] was just delivered at time [T]: nothing in the heap is before. *)
Record mid (main : Z) (h : min_heap Z) (T hs i dv : Z) (w : world) : Prop := {
  mid_main : main_view w main = Some (h, T, 0, hs);
  mid_heap : good (less_than w) 8 h;
  mid_nodup : NoDup (elems h);
  mid_root : 0 < nr h /\ data h !! 0%nat = Some i;
  mid_at : ev_view w i = Some (T, Some T, dv);
  mid_events j : j ∈ elems h -> exists t m dv, ev_view w j = Some (t, Some m, dv) /\ T <= t;
  mid_mono : all_mono T w;
  mid_storage : storage h
}.

Lemma mid_keeps main h T hs i dv w w' : keeps w w' -> mid main h T hs i dv w -> mid main h T hs i dv w'.
Proof.
  intros [H1 H2 H3 H4] [I1 I2 I3 I4 I5 I6 I7 I8]. split; try done.
  - by rewrite H2.
  - apply (good_ext (less_than w)); [|done]. intros x y. unfold less_than.
    by rewrite !(event_time_eq w w').
  - by rewrite H1.
  - intros j. rewrite H1. apply I6.
  - intros j t m dv'. rewrite H1. apply I7.
Qed.

(** The delivered time: not before the popped time nor after any other event. *)
Lemma turn_time main h popped hs w i t m dv :
  inv main h popped hs w -> min_heap_peek 8 h = Some i -> ev_view w i = Some (t, Some m, dv) ->
  popped <= Z.max t m /\
  (forall j, j ∈ elems h -> j <> i -> Z.max t m <= event_time w j).
Proof.
  intros Hinv Hpk Hv. destruct (root_elem _ _ _ _ _ _ Hinv Hpk) as (_ & _ & Hi & Hmin).
  destruct Hinv as [_ _ _ Hev Hmono _]. destruct (Hmono _ _ _ _ Hv) as (m1 & [= <-] & Hm1).
  destruct (Hev i Hi) as (t' & m' & dv' & Hv' & Hc).
  assert (t' = t /\ m' = m) as [-> ->] by (rewrite Hv in Hv'; by simplify_eq).
  pose proof (event_time_view _ _ _ _ _ Hv) as Hti. destruct Hc as [Hle|[Heq Hoth]].
  - split; [lia|]. intros j Hj Hne. specialize (Hmin j Hj). lia.
  - split; [lia|]. intros j Hj Hne. specialize (Hmin j Hj). specialize (Hoth j Hj Hne). lia.
Qed.

Lemma turn_mid main h popped hs w w1 w2 i t m dv insn :
  inv main h popped hs w -> min_heap_peek 8 h = Some i -> ev_view w i = Some (t, Some m, dv) ->
  sets i (Z.max t m, Some (Z.max t m), dv) w w1 ->
  popped_update main dv (Z.max t m) insn w1 = Some w2 ->
  mid main h (Z.max t m) hs i dv w2 /\ popped <= Z.max t m /\
  (forall d, counts w2 d = counts w d) /\ (forall d, tree w2 d = tree w d).
Proof.
  intros Hinv Hpk Hv [S0 S1 S2 S3 S4] Hu.
  destruct (turn_time _ _ _ _ _ _ _ _ _ Hinv Hpk Hv) as [Hge Hoth].
  destruct (root_elem _ _ _ _ _ _ Hinv Hpk) as (Hpos & H0 & Hi & Hmin).
  destruct Hinv as [Hm [Hwf Ho] Hnd Hev Hmono Hst]. set (T := Z.max t m) in *.
  destruct (popped_update_spec main dv T insn w1 w2 h popped 0 hs) as (He & Hm2 & Hu2 & Ht2);
    [done|by rewrite S2|done|].
  assert (forall j, ev_view w2 j = ev_view w1 j) as Hev2 by (intros j; unfold ev_view; by rewrite He).
  assert (forall j, j <> i -> event_time w2 j = event_time w j) as Hti.
  { intros j Hj. apply event_time_eq. by rewrite Hev2, S1. }
  assert (event_time w2 i = T) as HT by (eapply event_time_view; rewrite Hev2; exact S0).
  split; [|split; [done|split; [by intros d; rewrite Hu2|by intros d; rewrite Ht2]]].
  split; try done.
  - split; [done|]. apply (ordered_root_key (less_than w) _ _ _ i); try done.
    + pose proof (wf_nr 8 h Hwf). pose proof (wf_size 8 h Hwf). lia.
    + intros x y Hx Hy. unfold less_than. by rewrite !Hti.
    + intros y Hy. unfold less_than. rewrite HT. destruct (decide (y = i)) as [->|Hne]; [lia|].
      rewrite Hti by done. specialize (Hoth y Hy Hne). lia.
  - by rewrite Hev2.
  - intros j Hj. rewrite Hev2. destruct (decide (j = i)) as [->|Hne]; [by exists T, T, dv|].
    rewrite S1 by done. destruct (Hev j Hj) as (tj & mj & dj & Hvj & _). exists tj, mj, dj.
    split; [done|]. specialize (Hoth j Hj Hne). by rewrite (event_time_view _ _ _ _ _ Hvj) in Hoth.
  - intros j tj mj dj. rewrite Hev2. destruct (decide (j = i)) as [->|Hne].
    + rewrite S0. intros. simplify_eq. by eexists.
    + rewrite S1 by done. intros Hvj. destruct (Hmono _ _ _ _ Hvj) as (m' & -> & ?). exists m'. split; [done|lia].
Qed.

Lemma upd_heap_main main h h' T n hs w w' :
  main_view w main = Some (h, T, n, hs) -> upd_ctx main (with_heap h') w = Some w' ->
  main_view w' main = Some (h', T, n, hs) /\ events w' = events w /\
  (forall d, counts w' d = counts w d) /\ (forall d, tree w' d = tree w d).
Proof.
  unfold upd_ctx, main_view, counts, tree. intros Hm H. bind H as (d & Ed & H).
  rewrite Ed in Hm. cbn in Hm. simplify_eq. cbn.
  split; [by rewrite lookup_insert_eq|]. split; [done|].
  split; intros j; (destruct (decide (main = j)) as [<-|];
    [by rewrite lookup_insert_eq, Ed|by rewrite lookup_insert_ne]).
Qed.

(** The next event of the ring buffer takes the root and is sifted down. *)
Lemma sift_inv main h T hs i dv x w w1 w2 :
  mid main h T hs i dv w -> sets i (x, Some T, dv) w w1 -> heap_sift_root main w1 = Some w2 ->
  exists h', inv main h' T hs w2 /\ (forall d, counts w2 d = counts w d) /\
    (forall d, tree w2 d = tree w d).
Proof.
  intros [Hm [Hwf Ho] Hnd [Hpos H0] Hat Hev Hmono Hst] [S0 S1 S2 S3 S4] H.
  pose proof (wf_nr 8 h Hwf). pose proof (wf_size 8 h Hwf).
  unfold heap_sift_root in H. bind H as (md & Emd & H). bind H as (h' & Eh & H).
  assert (main_view w1 main = Some (h, T, 0, hs)) as Hm1 by (by rewrite S2).
  assert (heapsort (ctx md) = h) as Hh.
  { unfold main_view in Hm1. rewrite Emd in Hm1. cbn in Hm1. by simplify_eq. }
  rewrite Hh in Eh.
  destruct (sift_down_root (less_than w1) 8 ptr_size h) as (h2 & Heq & (Hwf2 & Hn2 & Hs2 & Hp2) & Ho2);
    [done| |].
  { apply (hole_root_key (less_than w) _ _ _ i); try done; [lia|].
    intros a b Ha Hb. unfold less_than. by rewrite !(event_time_eq w w1) by (by apply S1). }
  assert (h2 = h') as -> by congruence.
  destruct (upd_heap_main _ _ _ _ _ _ _ _ Hm1 H) as (Hm2 & He2 & Hu2 & Ht2).
  assert (forall j, ev_view w2 j = ev_view w1 j) as Hev2 by (intros j; unfold ev_view; by rewrite He2).
  assert (forall j, event_time w2 j = event_time w1 j) as Hti by (intros j; by apply event_time_eq).
  exists h'. split; [|split; intros d; [by rewrite Hu2|by rewrite Ht2]].
  assert (forall j, j ∈ elems h -> j <> i -> T <= event_time w1 j) as Hoth.
  { intros j Hj Hne. destruct (Hev j Hj) as (tj & mj & dj & Hvj & Hle).
    by rewrite (event_time_eq w w1), (event_time_view _ _ _ _ _ Hvj) by (by apply S1). }
  split; [done| |by rewrite Hp2| | |].
  - apply (good_ext (less_than w1)); [|done]. intros a b. unfold less_than. by rewrite !Hti.
  - intros j Hj. rewrite Hp2 in Hj. rewrite Hev2. destruct (decide (j = i)) as [->|Hne].
    + exists x, T, dv. split; [done|]. right. split; [done|].
      intros j' Hj' Hne'. rewrite Hp2 in Hj'. rewrite Hti. by apply Hoth.
    + rewrite S1 by done. destruct (Hev j Hj) as (tj & mj & dj & Hvj & Hle).
      exists tj, mj, dj. split; [done|by left].
  - intros j tj mj dj. rewrite Hev2. destruct (decide (j = i)) as [->|Hne].
    + rewrite S0. intros. simplify_eq. by eexists.
    + rewrite S1 by done. apply Hmono.
  - by apply (storage_same h).
Qed.

(** The ring buffer is empty and its event leaves the heap. *)
Lemma pop_inv main h T hs i dv w w2 :
  mid main h T hs i dv w -> heap_pop main w = Some w2 ->
  exists h', inv main h' T hs w2 /\ (forall d, counts w2 d = counts w d) /\
    (forall d, tree w2 d = tree w d).
Proof.
  intros [Hm [Hwf Ho] Hnd [Hpos H0] Hat Hev Hmono Hst] H.
  unfold heap_pop in H. bind H as (md & Emd & H). bind H as ([b h'] & Eh & H).
  assert (heapsort (ctx md) = h) as Hh.
  { unfold main_view in Hm. rewrite Emd in Hm. cbn in Hm. by simplify_eq. }
  rewrite Hh in Eh.
  destruct (pop_spec (less_than w) 8 ptr_size h) as (x & h2 & _ & Hpop & Hwf2 & Ho2 & _ & Hs2 & Hp2 & _);
    [done..|].
  rewrite Eh in Hpop. simplify_eq.
  destruct (upd_heap_main _ _ _ _ _ _ _ _ Hm H) as (Hm2 & He2 & Hu2 & Ht2).
  assert (forall j, ev_view w2 j = ev_view w j) as Hev2 by (intros j; unfold ev_view; by rewrite He2).
  exists h2. split; [|done]. rewrite Hp2 in Hnd. apply NoDup_cons in Hnd as [_ Hnd].
  split; try done.
  - apply (good_ext (less_than w)); [|done]. intros a c. unfold less_than.
    by rewrite !(event_time_eq w w2).
  - intros j Hj. rewrite Hev2. destruct (Hev j) as (tj & mj & dj & Hvj & Hle).
    { rewrite Hp2. set_solver. }
    exists tj, mj, dj. split; [done|by left].
  - intros j tj mj dj. rewrite Hev2. apply Hmono.
  - by apply (storage_same (heapsort (ctx md))).
Qed.

Definition advances (main popped hs : Z) (w w' : world) : Prop :=
  exists h' popped', inv main h' popped' hs w' /\ popped <= popped' /\
    (forall d, counts w' d = counts w d) /\ (forall d, tree w' d = tree w d).

Lemma advances_keeps main h popped hs w w' :
  inv main h popped hs w -> keeps w w' -> advances main popped hs w w'.
Proof.
  intros Hi Hk. exists h, popped. split; [by eapply inv_keeps|]. split; [done|].
  split; intros d; by apply Hk.
Qed.

Lemma keeps_upd_ctx_plain i f w w' :
  (forall d, dev_agree d (set_ctx (f (ctx d)) d)) -> upd_ctx i f w = Some w' -> keeps w w'.
Proof. intros. by eapply keeps_upd_ctx. Qed.

Lemma keeps_reason main r w w' : upd_ctx main (with_reason r) w = Some w' -> keeps w w'.
Proof. apply keeps_upd_ctx_plain. by repeat split. Qed.

Lemma keeps_report_kept_lost main i lost w w' :
  report_kept_lost main i lost w = Some w' -> keeps w w'.
Proof.
  unfold report_kept_lost. destruct (snd lost =? 0); [intros; by simplify_eq|].
  intros H. bind H as (he & Eh & H). bind H as (md & Emd & H).
  destruct (part he) as [p|]; [|done]. bind H as (w1 & E1 & H).
  bind H as (t1 & Et1 & H). bind H as (t2 & Et2 & H). simplify_eq.
  etrans; [|apply keeps_log]. destruct (event_mono_time p <? prev_lost_time (ctx md)); [by simplify_eq|].
  eapply keeps_upd_ctx_plain; [|exact E1]. by repeat split.
Qed.

Section safety.
Context (kern : nat -> Z -> perf_mmap -> perf_mmap) (ktime : nat -> Z).

Lemma ev_view_lookup w i t m dv he :
  ev_view w i = Some (t, m, dv) -> events w !! i = Some he -> time he = t /\ mono_of he = m /\ edev he = dv.
Proof. unfold ev_view. intros Hv He. rewrite He in Hv. cbn in Hv. unfold view in Hv. by simplify_eq. Qed.

(** The delivered record's successor enters the heap, or the ring buffer leaves it. *)
Lemma turn_tail main h T hs i dv mp w0 w next lost brk r :
  mid main h T hs i dv w ->
  (forall d, counts w d = counts w0 d) -> (forall d, tree w d = tree w0 d) ->
  next_sample kern main i dv mp next brk lost w = Some r ->
  exists h', inv main h' T hs (snd r) /\
    (forall d, counts (snd r) d = counts w0 d) /\ (forall d, tree (snd r) d = tree w0 d).
Proof.
  intros Hmid Hu Ht H. unfold next_sample in H. destruct next as [[rf wr]|].
  - bind H as (m & Em & H). bind H as (bs & Eb & H). bind H as (d & Ed & H).
    bind H as (t & Et & H). bind H as (t' & Et' & H). bind H as (he & Eh & H). cbv zeta in H.
    bind H as (w1 & E1 & H). bind H as (w2 & E2 & H). simplify_eq. cbn [snd].
    destruct (ev_view_lookup _ _ _ _ _ _ (mid_at _ _ _ _ _ _ _ Hmid) Eh) as (_ & Hmono & Hdv).
    pose proof (sets_put_event i (with_event (Some (MapEvent rf)) t' wr he) w) as Hs.
    unfold view in Hs. change (mono_of (with_event _ _ _ _)) with (mono_of he) in Hs. cbn [time edev with_event] in Hs.
    rewrite Hmono, Hdv in Hs.
    destruct (sift_inv _ _ _ _ _ _ _ _ _ _ Hmid Hs E1) as (h' & Hinv & Hu' & Ht').
    apply keeps_report_kept_lost in E2 as Hk. exists h'. split; [by eapply inv_keeps|].
    split; intros j; [rewrite (keep_unordered _ _ Hk), Hu'|rewrite (keep_tree _ _ Hk), Ht']; done.
  - bind H as (w1 & E1 & H). bind H as (w2 & E2 & H). bind H as (w3 & E3 & H). simplify_eq. cbn [snd].
    apply keeps_read_done in E1. apply keeps_put in E3.
    apply (mid_keeps _ _ _ _ _ _ _ _ E1) in Hmid.
    destruct (pop_inv _ _ _ _ _ _ _ _ Hmid E2) as (h' & Hinv & Hu' & Ht').
    exists h'. split; [by eapply inv_keeps|].
    split; intros j; [rewrite (keep_unordered _ _ E3), Hu', (keep_unordered _ _ E1)
                     |rewrite (keep_tree _ _ E3), Ht', (keep_tree _ _ E1)]; done.
Qed.

Lemma mmap_turn_advances fuel main h popped hs i tg te lost w r :
  inv main h popped hs w -> min_heap_peek 8 h = Some i ->
  mmap_turn kern ktime fuel main i tg te lost w = Some r -> advances main popped hs w (snd r).
Proof.
  intros Hinv Hpk H. unfold mmap_turn in H.
  bind H as (he & Eh & H). destruct (part he) as [p|] eqn:Hp; [|done].
  bind H as (d & Ed & H). bind H as ([brk w1] & E1 & H). apply keeps_lost_guard in E1.
  destruct brk; [simplify_eq; by eapply advances_keeps|].
  bind H as (w2 & E2 & H). bind H as (he2 & Eh2 & H). bind H as (w3 & E3 & H).
  bind H as (m & Em & H). bind H as (e & Ee & H). bind H as (bs & Eb & H).
  bind H as ([[[brk2 next] lost2] w4] & E4 & H). apply keeps_process_consume in E4.
  assert (ev_view w i = Some (time he, Some (event_mono_time p), edev he)) as Hv.
  { unfold ev_view. rewrite Eh. cbn. unfold view, mono_of. by rewrite Hp. }
  pose proof (keep_order_sets _ _ _ _ _ _ _ E2 ltac:(rewrite (keep_ev _ _ E1); exact Hv)) as Hs.
  destruct (ev_view_lookup _ _ _ _ _ _ (sets_at _ _ _ _ Hs) Eh2) as (Ht2 & _ & _).
  rewrite Ht2 in E3.
  apply (keeps_sets _ _ _ _ _ E1) in Hs.
  destruct (turn_mid _ _ _ _ _ _ _ _ _ _ _ _ Hinv Hpk Hv Hs E3) as (Hmid & Hle & Hu & Htr).
  apply (mid_keeps _ _ _ _ _ _ _ _ E4) in Hmid.
  destruct (turn_tail _ _ _ _ _ _ _ w _ _ _ _ _ Hmid
    ltac:(intros j; by rewrite (keep_unordered _ _ E4), Hu)
    ltac:(intros j; by rewrite (keep_tree _ _ E4), Htr) H) as (h' & Hi' & Hu' & Ht').
  by exists h', (Z.max (time he) (event_mono_time p)).
Qed.

Lemma order_step_advances fuel main h popped hs tg te tt lost w r :
  inv main h popped hs w ->
  order_step kern ktime fuel main tg te tt lost w = Some r -> advances main popped hs w (snd r).
Proof.
  intros Hinv H. unfold order_step in H. bind H as (md & Emd & H).
  assert (heapsort (ctx md) = h) as Hh.
  { pose proof (inv_main _ _ _ _ _ Hinv) as Hm. unfold main_view in Hm. rewrite Emd in Hm.
    cbn in Hm. by simplify_eq. }
  rewrite Hh in H. destruct (min_heap_peek 8 h) as [i|] eqn:Hpk.
  - bind H as (he & Eh & H).
    destruct (root_elem _ _ _ _ _ _ Hinv Hpk) as (_ & _ & Hi & _).
    destruct (inv_events _ _ _ _ _ Hinv i Hi) as (t & m & dv & Hv & _).
    unfold ev_view in Hv. rewrite Eh in Hv. cbn in Hv. unfold view, mono_of in Hv.
    destruct (part he) as [p|] eqn:Hp; [|done]. destruct (tt <? time he).
    + bind H as (w1 & E1 & H). simplify_eq. eapply advances_keeps; [done|]. by eapply keeps_reason.
    + by eapply mmap_turn_advances.
  - bind H as (w1 & E1 & H). simplify_eq. eapply advances_keeps; [done|]. by eapply keeps_reason.
Qed.

Lemma advances_trans main popped hs w w1 w2 h1 popped1 :
  inv main h1 popped1 hs w1 -> popped <= popped1 ->
  (forall d, counts w1 d = counts w d) -> (forall d, tree w1 d = tree w d) ->
  advances main popped1 hs w1 w2 -> advances main popped hs w w2.
Proof.
  intros _ Hle Hu Ht (h & p & Hi & Hle' & Hu' & Ht'). exists h, p. split; [done|]. split; [lia|].
  split; intros d; [by rewrite Hu', Hu|by rewrite Ht', Ht].
Qed.

(** The states the loop goes through. *)
Inductive turns_to (fuel : nat) (main : Z) (tg : option Z) (te tt : Z) : Z * Z -> world -> world -> Prop :=
  | turns_refl lost w : turns_to fuel main tg te tt lost w w
  | turns_step lost w done lost1 w1 w2 :
      order_step kern ktime fuel main tg te tt lost w = Some (done, lost1, w1) ->
      (done = true -> w2 = w1) ->
      turns_to fuel main tg te tt lost1 w1 w2 ->
      turns_to fuel main tg te tt lost w w2.

Lemma turns_advance fuel main tg te tt lost w w' :
  turns_to fuel main tg te tt lost w w' ->
  forall h popped hs, inv main h popped hs w -> advances main popped hs w w'.
Proof.
  induction 1 as [|lost w dn lost1 w1 w2 Hs _ _ IH]; intros h popped hs Hinv.
  - by eapply advances_keeps.
  - destruct (order_step_advances _ _ _ _ _ _ _ _ _ _ _ Hinv Hs) as (h1 & p1 & Hi1 & Hle & Hu & Ht).
    eapply advances_trans; [done..|]. by eapply IH.
Qed.

Lemma order_loop_turns turns fuel main tg te tt : forall lost w w',
  order_loop kern ktime turns fuel main tg te tt lost w = Some w' -> turns_to fuel main tg te tt lost w w'.
Proof.
  induction turns as [|turns IH]; intros lost w w' H; [done|].
  cbn [order_loop] in H. bind H as ([[dn lost1] w1] & E1 & H). destruct dn.
  - simplify_eq. econstructor; [done|done|constructor].
  - econstructor; [done|done|]. by apply IH.
Qed.
End safety.
