(* ===== verification/OrderProcess.v ===== *)
(** * No event is delivered out of order: the whole of [order_process] (order.c)

    Filling the heap from the device tree, the sort of [OrderSafe] and putting back
    what is left, between two states in which no sort is in progress. *)

From S2P Require Import Prelude Bytes MinHeap Mmap Convert Watermark Order OrderSafe.

(** The heap events of the devices below [d], in the order they are visited. *)
Fixpoint tree_events (depth : nat) (w : world) (d : Z) : list Z :=
  match depth, tree w d with
  | S depth, Some (l, cs) => l ++ flat_map (tree_events depth w) cs
  | _, _ => []
  end.

Lemma tree_events_ext w w' : (forall d, tree w' d = tree w d) ->
  forall depth d, tree_events depth w' d = tree_events depth w d.
Proof.
  intros Ht depth. induction depth as [|depth IH]; intros d; [done|]. cbn [tree_events]. rewrite Ht.
  destruct (tree w d) as [[l cs]|]; [|done]. f_equal.
  induction cs as [|c cs IHc]; [done|]. cbn. by rewrite IH, IHc.
Qed.

Definition unordered (w : world) (d : Z) : option Z := fst <$> counts w d.

Definition sizes_ok (w : world) : Prop :=
  forall d h p n s, main_view w d = Some (h, p, n, s) -> 0 <= s.

(** While the heap is filled: [rest] is yet to be visited. *)
Record filling (main : Z) (h : min_heap Z) (popped hs : Z) (rest : list Z) (w : world) : Prop := {
  fill_main : main_view w main = Some (h, popped, 0, hs);
  fill_storage : storage h;
  fill_nodup : NoDup (elems h ++ rest);
  fill_elems j : j ∈ elems h -> exists t m dv, ev_view w j = Some (t, Some m, dv) /\ popped <= t;
  fill_mono : all_mono popped w;
  fill_sizes : sizes_ok w
}.

Definition same_rest (w w' : world) : Prop :=
  (forall d, unordered w' d = unordered w d) /\ (forall d, tree w' d = tree w d).

#[export] Instance same_rest_preorder : PreOrder same_rest.
Proof.
  split; [by split|]. intros a b c [H1 H2] [K1 K2].
  split; intros; [rewrite K1|rewrite K2]; auto.
Qed.

Lemma keeps_same_rest w w' : keeps w w' -> same_rest w w'.
Proof. intros [_ _ Hu Ht]. split; [|done]. intros d. unfold unordered. by rewrite Hu. Qed.

Lemma sets_same_rest i v w w' : sets i v w w' -> same_rest w w'.
Proof. intros [_ _ _ Hu Ht]. split; [|done]. intros d. unfold unordered. by rewrite Hu. Qed.

Lemma filling_keeps main h popped hs rest w w' :
  keeps w w' -> filling main h popped hs rest w -> filling main h popped hs rest w'.
Proof.
  intros [H1 H2 _ _] [I1 I2 I3 I4 I5 I6]. split; try done.
  - by rewrite H2.
  - intros j. rewrite H1. apply I4.
  - intros j t m dv. rewrite H1. apply I5.
  - intros d h' p n s. rewrite H2. apply I6.
Qed.

Lemma filling_drop main h popped hs l rest w :
  filling main h popped hs (l ++ rest) w -> filling main h popped hs rest w.
Proof.
  intros [I1 I2 I3 I4 I5 I6]. split; try done.
  apply (sublist_NoDup _ (elems h ++ l ++ rest)); [done|].
  apply sublist_app; [done|]. by apply sublist_inserts_l.
Qed.

(** An event outside the heap gets a new event, whose time is not before. *)
Lemma filling_sets main h popped hs rest w w' i t m dv :
  sets i (t, Some m, dv) w w' -> m <= popped -> i ∉ elems h ->
  filling main h popped hs rest w -> filling main h popped hs rest w'.
Proof.
  intros [H0 H1 H2 _ _] Hm Hi [I1 I2 I3 I4 I5 I6]. split; try done.
  - by rewrite H2.
  - intros j Hj. rewrite H1 by (intros ->; done). by apply I4.
  - intros j t' m' dv'. destruct (decide (j = i)) as [->|Hne].
    + rewrite H0. intros [= <- <- <-]. by exists m.
    + rewrite H1 by done. apply I5.
  - intros d h' p n s. rewrite H2. apply I6.
Qed.

Section init.
Context (kern : nat -> Z -> perf_mmap -> perf_mmap) (ktime : nat -> Z) (realloc_ok : Z -> bool).

(** The first event of a ring buffer, repaired when it is before the popped time. *)
Lemma event_init_spec fuel i main w r w' h popped n hs t m dv :
  perf_mmap_event_init kern fuel i main w = Some (r, w') ->
  main_view w main = Some (h, popped, n, hs) -> ev_view w i = Some (t, Some m, dv) ->
  (r < 0 /\ keeps w w') \/ (r = 0 /\ exists t', popped <= t' /\ sets i (t', Some m, dv) w w').
Proof.
  unfold perf_mmap_event_init. intros H Hm Hv. bind H as (he & Eh & H).
  destruct (ev_view_lookup _ _ _ _ _ _ Hv Eh) as (_ & Hmono & Hdv).
  destruct (part he) as [p|] eqn:Hp; [|done]. bind H as ([r1 w1] & E1 & H).
  apply keeps_read_init in E1. destruct (Z.ltb_spec r1 0); [simplify_eq; left; split; [lia|done]|].
  bind H as ([[ev lost] w2] & E2 & H). apply keeps_init_retry in E2.
  assert (keeps w w2) as Hk by (by etrans). destruct ev as [[rf wr]|].
  - bind H as (mp & Emp & H). bind H as (bs & Eb & H). bind H as (d & Ed & H).
    bind H as (t1 & Et1 & H). bind H as (t2 & Et2 & H). cbv zeta in H.
    set (he2 := with_event (Some (MapEvent rf)) t2 wr he) in *.
    assert (sets i (t2, Some m, dv) w (put_event i he2 w2)) as Hs2.
    { eapply keeps_sets; [exact Hk|]. pose proof (sets_put_event i he2 w2) as Hs.
      unfold view in Hs. change (mono_of he2) with (mono_of he) in Hs. by rewrite Hmono in Hs; cbn in Hs; rewrite Hdv in Hs. }
    bind H as (md & Emd & H). bind H as (w3 & E3 & H). bind H as (he3 & Eh3 & H).
    bind H as (w4 & E4 & H). simplify_eq. right. split; [done|].
    assert (heap_popped_time (ctx md) = popped) as Hpop.
    { pose proof (sets_main _ _ _ _ Hs2 main) as Hmm. rewrite Hm in Hmm. unfold main_view in Hmm.
      cbn in Hmm, Emd. rewrite Emd in Hmm. cbn in Hmm. by simplify_eq. }
    assert (keeps w3 w') as Hk4.
    { destruct (negb _); [|by simplify_eq]. bind E4 as (a & Ea & E4). bind E4 as (b & Eb2 & E4).
      simplify_eq. apply keeps_log. }
    rewrite Hpop in E3. destruct (Z.ltb_spec t2 popped).
    + exists popped. split; [done|]. eapply sets_keeps; [|exact Hk4].
      eapply sets_sets; [exact Hs2|]. eapply fix_sets; [exact E3|]. apply Hs2.
    + simplify_eq. exists t2. split; [done|]. by eapply sets_keeps.
  - bind H as (w3 & E3 & H). simplify_eq. left. split; [lia|]. etrans; [exact Hk|].
    by eapply keeps_read_done.
Qed.

Lemma main_view_insert w main d c h popped n hs :
  devs w !! main = Some d -> heapsort c = h -> heap_popped_time c = popped -> nr_streams c = n ->
  heap_size c = hs -> stats c = stats (ctx d) -> event_list c = event_list (ctx d) ->
  let w' := set_devs (<[main := set_ctx c d]> (devs w)) w in
  main_view w' main = Some (h, popped, n, hs) /\
  (forall j, j <> main -> main_view w' j = main_view w j) /\ same_rest w w'.
Proof.
  intros Hd <- <- <- <- Hs Hl. unfold main_view, same_rest, unordered, counts, tree; cbn.
  split; [by rewrite lookup_insert_eq|]. split; [intros j Hj; by rewrite lookup_insert_ne|].
  split; intros j; (destruct (decide (main = j)) as [<-|];
    [rewrite lookup_insert_eq, Hd; cbn; by rewrite ?Hs, ?Hl|by rewrite lookup_insert_ne]).
Qed.

(** The heap of the main device is replaced by [h'], with a heap size [hs']. *)
Lemma filling_heap main h popped hs rest w c d :
  filling main h popped hs rest w -> devs w !! main = Some d ->
  heap_popped_time c = heap_popped_time (ctx d) ->
  nr_streams c = nr_streams (ctx d) -> 0 <= heap_size c ->
  stats c = stats (ctx d) -> event_list c = event_list (ctx d) ->
  storage (heapsort c) -> elems (heapsort c) = elems h ->
  let w' := set_devs (<[main := set_ctx c d]> (devs w)) w in
  filling main (heapsort c) popped (heap_size c) rest w' /\ same_rest w w'.
Proof.
  intros [I1 I2 I3 I4 I5 I6] Hd Hp Hn Hpos Hs Hl Hst He. cbv zeta.
  unfold main_view in I1. rewrite Hd in I1. cbn in I1. simplify_eq.
  destruct (main_view_insert w main d c (heapsort c) (heap_popped_time (ctx d)) 0 (heap_size c))
    as (Hm & Ho & Hr); [done..|congruence|done|done|done|].
  split; [|done]. split; try done.
  - by rewrite He.
  - intros j Hj. rewrite He in Hj. apply (I4 j Hj).
  - intros dd h p n s Hv. destruct (decide (dd = main)) as [->|Hne].
    + rewrite Hm in Hv. by simplify_eq.
    + rewrite Ho in Hv by done. by eapply I6.
Qed.

(** Both outcomes of a step that only moves the heap. *)
Definition fills (main popped : Z) (rest : list Z) (w w' : world) : Prop :=
  (exists h' hs', filling main h' popped hs' rest w') /\ same_rest w w'.

Lemma dev_hs main h popped n hs w d :
  main_view w main = Some (h, popped, n, hs) -> devs w !! main = Some d ->
  heapsort (ctx d) = h /\ heap_popped_time (ctx d) = popped /\ nr_streams (ctx d) = n /\ heap_size (ctx d) = hs.
Proof. unfold main_view. intros Hv Hd. rewrite Hd in Hv. cbn in Hv. by simplify_eq. Qed.

Lemma heap_expand_fills main dv h popped hs rest w ok w' :
  filling main h popped hs rest w -> heap_expand realloc_ok main dv w = Some (ok, w') ->
  fills main popped rest w w' /\ (forall j, ev_view w' j = ev_view w j).
Proof.
  intros Hf H. unfold heap_expand in H. bind H as (md & Emd & H). bind H as (d & Ed & H).
  destruct (dev_hs _ _ _ _ _ _ _ (fill_main _ _ _ _ _ _ Hf) Emd) as (Hh & Hp & Hn & Hhs).
  assert (0 <= heap_size (ctx d)) as Hpos.
  { eapply (fill_sizes _ _ _ _ _ _ Hf dv). unfold main_view. by rewrite Ed. }
  rewrite Hh in H. destruct (fill_storage _ _ _ _ _ _ Hf) as (Hnr & Hlen & Hlt).
  destruct (nr h =? MinHeap.size h); [|simplify_eq; split; [split; [by eexists _, _|done]|done]].
  destruct (Z.ltb_spec (MinHeap.size h + heap_size (ctx d)) (2 ^ 31)); [|done]. cbn [negb] in H.
  destruct (negb _); [simplify_eq; split; [split; [by eexists _, _|done]|done]|].
  bind H as (w1 & E1 & H). unfold upd_ctx in E1. rewrite Emd in E1. cbn in E1. simplify_eq.
  split; [|done].
  edestruct filling_heap as [Hf' Hr]; [exact Hf|exact Emd|..|split; [eexists _, _; exact Hf'|exact Hr]];
    try reflexivity.
  - cbn. lia.
  - cbn. split; [cbn; lia|]. split; [|cbn; lia]. cbn. rewrite length_app, length_replicate. lia.
  - cbn. unfold elems. cbn. rewrite take_app_le by lia. done.
Qed.

Lemma keeps_fills main h popped hs rest w w' :
  keeps w w' -> filling main h popped hs rest w -> fills main popped rest w w'.
Proof. intros Hk Hf. split; [exists h, hs; by eapply filling_keeps|by apply keeps_same_rest]. Qed.

Lemma heap_append_fills main dv i h popped hs rest w r w' t m dv' :
  filling main h popped hs (i :: rest) w -> ev_view w i = Some (t, Some m, dv') -> popped <= t ->
  heap_append realloc_ok main dv i w = Some (r, w') -> fills main popped rest w w'.
Proof.
  intros Hf Hv Ht H. unfold heap_append in H. bind H as ([ok w1] & E1 & H).
  destruct (heap_expand_fills _ _ _ _ _ _ _ _ _ Hf E1) as [[(h1 & hs1 & Hf1) Hr1] Hv1].
  destruct ok; cbn [negb] in H.
  2: { simplify_eq. split; [|done]. exists h1, hs1. by apply (filling_drop _ _ _ _ [i]). }
  bind H as (md & Emd & H). bind H as (he & Eh & H). bind H as (d & Ed & H). bind H as (w2 & E2 & H).
  bind H as ([b w3] & E3 & H). simplify_eq. apply keeps_get in E3.
  destruct Hf1 as [I1 (Hnr & Hlen & Hlt) I3 I4 I5 I6].
  destruct (dev_hs _ _ _ _ _ _ _ I1 Emd) as (Hh & Hp & Hn & Hhs). rewrite Hh in *.
  set (n := Z.to_nat (nr h1)) in *. replace (nr h1) with (Z.of_nat n) in Ed by lia.
  change (Z.of_nat n * 8) with (off 8 n) in Ed.
  destruct (decide (n < length (data h1))%nat) as [Hlt1|Hge].
  2: { unfold set_elem, elem in Ed. bind Ed as (x & Ex & Ed). destruct (_ =? 0); [|done].
    unfold off in Ex. rewrite Z.div_mul, Nat2Z.id in Ex by lia.
    by apply lookup_lt_Some in Ex. }
  rewrite (set_elem_off 8 ptr_size (data h1) n i) in Ed by done. injection Ed as <-.
  unfold upd_ctx in E2. rewrite Emd in E2. cbn in E2. injection E2 as <-.
  set (h2 := MinHeap (nr h1 + 1) (MinHeap.size h1) (<[n:=i]> (data h1))) in *.
  edestruct (main_view_insert w1 main md (with_heap h2 (ctx md))) as (Hm & Ho & Hr);
    [exact Emd|reflexivity..|].
  assert (elems h2 = elems h1 ++ [i]) as He.
  { unfold h2, elems. cbn. replace (Z.to_nat (nr h1 + 1)) with (S n) by lia.
    rewrite (take_S_r _ _ i) by (by apply list_lookup_insert_eq).
    fold n. by rewrite take_insert_ge by lia. }
  split; [|etrans; [exact Hr1|etrans; [exact Hr|by apply keeps_same_rest]]].
  exists h2, (heap_size (ctx md)). eapply filling_keeps; [exact E3|]. cbn in Hm. rewrite Hp, Hn in Hm.
  split; [exact Hm| | | |exact I5|].
  - unfold storage, h2. cbn. rewrite length_insert. lia.
  - rewrite He, <- app_assoc. done.
  - rewrite He. intros j [Hj|Hj]%elem_of_app; [exact (I4 j Hj)|].
    apply list_elem_of_singleton in Hj as ->. exists t, m, dv'. split; [|done].
    rewrite <- Hv, <- Hv1. reflexivity.
  - intros dd h3 p3 n3 s3 Hv3. destruct (decide (dd = main)) as [->|Hne].
    + rewrite Hm in Hv3. simplify_eq. by eapply I6.
    + rewrite Ho in Hv3 by done. by eapply I6.
Qed.
Lemma fills_same main popped rest w w1 w2 :
  same_rest w w1 -> fills main popped rest w1 w2 -> fills main popped rest w w2.
Proof. intros H1 [H2 H3]. split; [done|by etrans]. Qed.

Lemma heap_init_list_fills fuel main dv popped rest l : forall h hs w r w',
  filling main h popped hs (l ++ rest) w ->
  heap_init_list kern realloc_ok fuel main dv l w = Some (r, w') -> fills main popped rest w w'.
Proof.
  induction l as [|i l IH]; intros h hs w r w' Hf H.
  { cbn in H. simplify_eq. split; [by exists h, hs|done]. }
  cbn [heap_init_list] in H. bind H as (he & Eh & H).
  destruct (fill_mono _ _ _ _ _ _ Hf i (time he) (mono_of he) (edev he)) as (m & Hm & Hle).
  { unfold ev_view. by rewrite Eh. }
  assert (exists p, part he = PERF_MMAP_EVENT p) as [p Hp].
  { unfold mono_of in Hm. destruct (part he) as [p|]; [by exists p|done]. }
  rewrite Hp in H. bind H as ([r1 w1] & E1 & H).
  assert (ev_view w i = Some (time he, Some m, edev he)) as Hv.
  { unfold ev_view. rewrite Eh. cbn. unfold view. by rewrite Hm. }
  destruct (event_init_spec _ _ _ _ _ _ _ _ _ _ _ _ _ E1 (fill_main _ _ _ _ _ _ Hf) Hv)
    as [[Hneg Hk]|[-> (t' & Ht' & Hs)]].
  - rewrite (proj2 (Z.ltb_lt r1 0)) in H by done.
    eapply fills_same; [by apply keeps_same_rest|]. eapply IH; [|exact H].
    eapply filling_keeps; [exact Hk|]. by apply (filling_drop _ _ _ _ [i]).
  - change (0 <? 0) with false in H. cbn iota in H. bind H as ([r2 w2] & E2 & H).
    assert (filling main h popped hs (i :: l ++ rest) w1) as Hf1.
    { eapply filling_sets; [exact Hs|done| |exact Hf].
      pose proof (fill_nodup _ _ _ _ _ _ Hf) as Hnd. apply NoDup_app in Hnd as (_ & Hnd & _).
      intros Hi. apply (Hnd i Hi). set_solver. }
    pose proof (heap_append_fills _ _ _ _ _ _ _ _ _ _ _ _ _ Hf1 (sets_at _ _ _ _ Hs) Ht' E2)
      as [(h2 & hs2 & Hf2) Hr2].
    apply sets_same_rest in Hs. destruct (r2 <? 0).
    + simplify_eq. split; [|by etrans]. exists h2, hs2. by apply (filling_drop _ _ _ _ l).
    + eapply fills_same; [|by eapply IH]. by etrans.
Qed.

Lemma each_child_fills main popped depth f :
  (forall c w rest h hs r w', filling main h popped hs (tree_events depth w c ++ rest) w ->
     f c w = Some (r, w') -> fills main popped rest w w') ->
  forall cs w rest h hs r w', filling main h popped hs (flat_map (tree_events depth w) cs ++ rest) w ->
    each_child f cs w = Some (r, w') -> fills main popped rest w w'.
Proof.
  intros Hf cs. induction cs as [|c cs IH]; intros w rest h hs r w' Hi H; cbn [each_child flat_map] in *.
  { simplify_eq. by eapply keeps_fills. }
  rewrite <- app_assoc in Hi.
  bind H as ([got w1] & E1 & H). apply keeps_get in E1 as Hk.
  assert (forall d, tree w1 d = tree w d) as Ht by apply Hk.
  destruct got.
  2: { simplify_eq. eapply keeps_fills; [done|]. do 2 eapply filling_drop. exact Hi. }
  bind H as ([r1 w2] & E2 & H). apply (filling_keeps _ _ _ _ _ _ _ Hk) in Hi.
  rewrite <- (tree_events_ext _ _ Ht) in Hi.
  destruct (Hf _ _ _ _ _ _ _ Hi E2) as [(h2 & hs2 & Hf2) Hr2].
  apply keeps_same_rest in Hk. destruct (negb _).
  { simplify_eq. split; [|by etrans]. exists h2, hs2. by eapply filling_drop. }
  bind H as (w3 & E3 & H). apply keeps_put in E3 as Hk3.
  apply (filling_keeps _ _ _ _ _ _ _ Hk3) in Hf2. apply keeps_same_rest in Hk3.
  assert (same_rest w w3) as Hr by (etrans; [exact Hk|by etrans]).
  eapply fills_same; [exact Hr|]. eapply IH; [|exact H].
  rewrite (flat_map_ext (tree_events depth w3) (tree_events depth w)); [exact Hf2|].
  intros a. apply tree_events_ext. apply Hr.
Qed.

Lemma order_heap_init_fills fuel main popped depth : forall dv w rest h hs r w',
  filling main h popped hs (tree_events depth w dv ++ rest) w ->
  order_heap_init kern realloc_ok depth fuel main dv w = Some (r, w') -> fills main popped rest w w'.
Proof.
  induction depth as [|depth IH]; intros dv w rest h hs r w' Hf H; [done|].
  cbn [order_heap_init] in H. bind H as (d & Ed & H). bind H as ([r1 w1] & E1 & H).
  assert (tree w dv = Some (event_list (ctx d), children d)) as Ht by (unfold tree; by rewrite Ed).
  cbn [tree_events] in Hf. rewrite Ht, <- app_assoc in Hf.
  destruct (heap_init_list_fills _ _ _ _ _ _ _ _ _ _ _ Hf E1) as [(h1 & hs1 & Hf1) Hr1].
  destruct (negb _).
  { simplify_eq. split; [|done]. exists h1, hs1. by eapply filling_drop. }
  eapply fills_same; [exact Hr1|]. eapply each_child_fills; [exact IH| |exact H].
  rewrite (flat_map_ext (tree_events depth w1) (tree_events depth w)); [exact Hf1|].
  intros a. apply tree_events_ext. apply Hr1.
Qed.
End init.

(** ** Between two sorts *)

(** What a sort leaves of the main device, whatever is still in its heap. *)
Record resting (main popped : Z) (w : world) : Prop := {
  rest_main : exists h hs, main_view w main = Some (h, popped, 0, hs) /\ storage h;
  rest_mono : all_mono popped w;
  rest_sizes : sizes_ok w
}.

Definition heap_of (w : world) (m : Z) : option (min_heap Z) := (fun '(h, _, _, _) => h) <$> main_view w m.

(** No stream, every event is on one list of the tree. *)
Record idle (main popped : Z) (w : world) : Prop := {
  idle_resting : resting main popped w;
  idle_nodup depth : NoDup (tree_events depth w main)
}.

Lemma sizes_counts w w' : (forall d, counts w' d = counts w d) -> sizes_ok w -> sizes_ok w'.
Proof.
  intros Hc Hs d h p n s Hv. specialize (Hc d). unfold counts, main_view in *.
  destruct (devs w' !! d) as [x|]; [|done]. destruct (devs w !! d) as [y|] eqn:Hy; [|done].
  cbn in *. simplify_eq. assert (heap_size (ctx x) = heap_size (ctx y)) as -> by congruence.
  eapply (Hs d). unfold main_view. by rewrite Hy.
Qed.

Lemma resting_keeps main popped w w' : keeps w w' -> resting main popped w -> resting main popped w'.
Proof.
  intros [H1 H2 _ _] [(h & hs & Hm & Hst) Hmo Hsz]. split.
  - exists h, hs. by rewrite H2.
  - intros j t m dv. rewrite H1. apply Hmo.
  - intros d h' p n s. rewrite H2. apply Hsz.
Qed.

Lemma resting_filling main h popped hs rest w :
  filling main h popped hs rest w -> resting main popped w.
Proof. intros [I1 I2 I3 I4 I5 I6]. split; [by exists h, hs|done..]. Qed.

(** Replacing the main device's heap. *)
Lemma resting_heap main popped w w' h :
  resting main popped w -> upd_ctx main (with_heap h) w = Some w' -> storage h ->
  resting main popped w' /\ same_rest w w' /\ events w' = events w /\
  exists hs, main_view w' main = Some (h, popped, 0, hs).
Proof.
  intros [(h0 & hs & Hm & Hst) Hmo Hsz] H Hh. unfold upd_ctx in H. bind H as (d & Ed & H). simplify_eq.
  destruct (dev_hs _ _ _ _ _ _ _ Hm Ed) as (H1 & H2 & H3 & H4).
  destruct (main_view_insert w main d (with_heap h (ctx d)) h popped 0 hs) as (Hm' & Ho & Hr); [done..|].
  split; [|split; [done|split; [done|by exists hs]]].
  split; [by exists h, hs|done|]. intros dd h' p n s Hv. destruct (decide (dd = main)) as [->|Hne].
  - rewrite Hm' in Hv. simplify_eq. by eapply Hsz.
  - rewrite Ho in Hv by done. by eapply Hsz.
Qed.

Section process.
Context (kern : nat -> Z -> perf_mmap -> perf_mmap) (ktime : nat -> Z) (realloc_ok : Z -> bool).

Lemma put_back_rests fuel main popped : forall w w',
  resting main popped w -> put_back kern fuel main w = Some w' ->
  resting main popped w' /\ same_rest w w'.
Proof.
  induction fuel as [|fuel IH]; intros w w' Hr H; [done|]. cbn [put_back] in H.
  bind H as (md & Emd & H). pose proof (rest_main _ _ _ Hr) as (h & hs & Hm & Hst).
  destruct (dev_hs _ _ _ _ _ _ _ Hm Emd) as (Hh & _). rewrite Hh in H.
  destruct (Z.eqb_spec (nr h) 0); [by simplify_eq|].
  bind H as (i & Ei & H). bind H as (w1 & E1 & H). bind H as (he & Eh & H).
  bind H as (w2 & E2 & H). bind H as (w3 & E3 & H).
  destruct (resting_heap _ _ _ _ _ Hr E1) as (Hr1 & Hs1 & _).
  { destruct Hst as (H1 & H2 & H3). unfold storage. cbn. lia. }
  assert (keeps w1 w2) as Hk2.
  { destruct (part he).
    - bind E2 as (w4 & E4 & E2). etrans; [by eapply keeps_unread|by eapply keeps_consume].
    - simplify_eq. by apply (keeps_event _ _ he). }
  assert (keeps w1 w3) as Hk by (etrans; [exact Hk2|by eapply keeps_put]).
  destruct (IH w3 w') as [Hr' Hs']; [by eapply resting_keeps|done|].
  split; [done|]. etrans; [exact Hs1|]. etrans; [by apply keeps_same_rest|done].
Qed.

Lemma filling_inv main h popped hs w w' h' :
  filling main h popped hs [] w -> min_heapify_all (less_than w) 8 h = Some h' ->
  upd_ctx main (with_heap h') w = Some w' ->
  inv main h' popped hs w' /\ same_rest w w' /\ sizes_ok w'.
Proof.
  intros Hf Hh H. pose proof Hf as [I1 I2 I3 I4 I5 I6]. rewrite app_nil_r in I3.
  destruct (heapify_all_ordered (less_than w) 8 ptr_size h (storage_wf _ I2))
    as (h2 & Heq & (Hwf & Hn & Hs & Hp) & Ho).
  assert (h2 = h') as -> by congruence.
  destruct (resting_heap _ _ _ _ _ (resting_filling _ _ _ _ _ _ Hf) H) as (Hr & Hsr & He & hs' & Hm).
  { by apply (storage_same h). }
  destruct (upd_heap_main _ _ _ _ _ _ _ _ I1 H) as (Hm2 & _).
  assert (forall j, ev_view w' j = ev_view w j) as Hev by (intros j; unfold ev_view; by rewrite He).
  split; [|split; [done|by destruct Hr]]. split; [done| |by rewrite Hp| | |].
  - apply (good_ext (less_than w)).
    + intros x y. unfold less_than. by rewrite !(event_time_eq w w').
    + by split.
  - intros j Hj. rewrite Hp in Hj. rewrite Hev. destruct (I4 j Hj) as (t & m & dv & Hv & Hle).
    exists t, m, dv. split; [done|by left].
  - intros j t m dv. rewrite Hev. apply I5.
  - by apply (storage_same h).
Qed.

Lemma inv_resting main h popped hs w : inv main h popped hs w -> sizes_ok w -> resting main popped w.
Proof. intros [I1 I2 I3 I4 I5 I6] Hs. split; [by exists h, hs|done..]. Qed.

Lemma order_sort_rests turns fuel main h popped hs tg te tt w w' :
  filling main h popped hs [] w ->
  order_sort kern ktime turns fuel main tg te tt w = Some w' ->
  exists popped', resting main popped' w' /\ popped <= popped' /\ same_rest w w'.
Proof.
  intros Hf H. unfold order_sort in H. bind H as (md & Emd & H). bind H as (h' & Eh & H).
  bind H as (w1 & E1 & H).
  destruct (dev_hs _ _ _ _ _ _ _ (fill_main _ _ _ _ _ _ Hf) Emd) as (Hh & _). rewrite Hh in Eh.
  destruct (filling_inv _ _ _ _ _ _ _ Hf Eh E1) as (Hi & Hsr & Hsz).
  apply order_loop_turns in H.
  destruct (turns_advance _ _ _ _ _ _ _ _ _ _ H _ _ _ Hi) as (h2 & p2 & Hi2 & Hle & Hc & Ht).
  exists p2. split; [|split; [done|]].
  - eapply inv_resting; [done|]. by eapply sizes_counts.
  - etrans; [exact Hsr|]. split; [|done]. intros d. unfold unordered. by rewrite Hc.
Qed.

(** Filling, sorting and putting back. *)
Lemma sort_and_put_back turns fuel main popped tg te tt w w1 w2 r w' :
  idle main popped w -> 
  upd_ctx main (fun c => with_heap (MinHeap 0 (MinHeap.size (heapsort c)) (data (heapsort c))) c) w = Some w1 ->
  order_heap_init kern realloc_ok (S (stdpp.base.size (devs w1))) fuel main main w1 = Some (r, w2) ->
  (if r =? 0 then order_sort kern ktime turns fuel main tg te tt w2 else Some w2) = Some w' ->
  exists popped', resting main popped' w' /\ popped <= popped' /\ same_rest w w'.
Proof.
  intros [Hr Hnd] E1 E2 H. pose proof Hr as [(h & hs & Hm & Hst) Hmo Hsz].
  set (h0 := MinHeap 0 (MinHeap.size h) (data h)).
  assert (upd_ctx main (with_heap h0) w = Some w1) as E1'.
  { rewrite <- E1. unfold upd_ctx. destruct (devs w !! main) as [d|] eqn:Ed; [|done]. cbn.
    destruct (dev_hs _ _ _ _ _ _ _ Hm Ed) as (Hh & _). unfold h0. by rewrite Hh. }
  destruct (resting_heap _ _ _ _ _ Hr E1') as (Hr1 & Hs1 & He & hs' & Hm1).
  { destruct Hst as (H1 & H2 & H3). unfold storage. cbn. lia. }
  set (depth := S (stdpp.base.size (devs w1))) in *.
  assert (filling main h0 popped hs' (tree_events depth w1 main ++ []) w1) as Hf.
  { destruct Hr1 as [_ Hmo1 Hsz1]. split; [done| | | |done..].
    - destruct Hst as (H1 & H2 & H3). unfold storage. cbn. lia.
    - rewrite app_nil_r. change (elems h0) with (@nil Z). cbn [app]. rewrite (tree_events_ext w w1) by apply Hs1. apply Hnd.
    - intros j Hj. unfold elems in Hj. cbn in Hj. by apply not_elem_of_nil in Hj. }
  destruct (order_heap_init_fills kern ktime realloc_ok fuel main popped depth main w1 [] h0 hs' r w2 Hf E2) as [(h2 & hs2 & Hf2) Hs2].
  destruct (r =? 0).
  - destruct (order_sort_rests _ _ _ _ _ _ _ _ _ _ _ Hf2 H) as (p & Hr' & Hle & Hs').
    exists p. split; [done|]. split; [done|]. etrans; [exact Hs1|by etrans].
  - simplify_eq. exists popped. split; [by eapply resting_filling|]. split; [lia|by etrans].
Qed.
(** The states of a sort: those of the loop, from the heap as [order_heap_init] and
    the heapification leave it. *)
Lemma target_keeps target w stop w1 :
  match target with
  | None => Some (false, w)
  | Some t => '(r, w) ← map_read_init kern t w; if r <? 0 then Some (true, w) else map_empty kern t w
  end = Some (stop, w1) -> keeps w w1.
Proof.
  destruct target as [t|]; [|intros; by simplify_eq].
  intros H. bind H as ([r w2] & E2 & H). apply keeps_read_init in E2.
  destruct (r <? 0); [by simplify_eq|]. apply keeps_empty in H. by etrans.
Qed.

Lemma keeps_inprocess main b w w' : upd_ctx main (with_inprocess b) w = Some w' -> keeps w w'.
Proof. apply keeps_upd_ctx_plain. by repeat split. Qed.

Lemma order_process_rests turns fuel main dv popped target target_tm w w' :
  main_of w dv = Some main -> idle main popped w ->
  order_process kern ktime realloc_ok turns fuel dv target target_tm w = Some w' ->
  exists popped', resting main popped' w' /\ popped <= popped' /\ same_rest w w'.
Proof.
  intros Hmain Hidle H. pose proof Hidle as [Hr Hnd]. unfold order_process in H. rewrite Hmain in H. cbn in H.
  bind H as (md & Emd & H). destruct (inprocess (ctx md)); [simplify_eq; by exists popped|].
  bind H as ([stop w1] & E1 & H). apply target_keeps in E1 as Hk1.
  destruct stop.
  { simplify_eq. exists popped. split; [by eapply resting_keeps|].
    split; [lia|by apply keeps_same_rest]. }
  bind H as ([b w2] & E2 & H). apply keeps_get in E2. bind H as (w3 & E3 & H). apply keeps_inprocess in E3.
  bind H as (te & Ete & H). bind H as (tt & Ett & H). bind H as (w4 & E4 & H).
  bind H as ([r w5] & E5 & H). bind H as (w6 & E6 & H). bind H as (md6 & Emd6 & H).
  bind H as (w7 & E7 & H). bind H as (w8 & E8 & H). apply keeps_inprocess in E8. apply keeps_put in H.
  assert (keeps w w3) as Hk by (etrans; [exact Hk1|by etrans]).
  assert (idle main popped w3) as Hidle3.
  { split; [by eapply resting_keeps|]. intros depth. rewrite (tree_events_ext w w3); [done|apply Hk]. }
  destruct (sort_and_put_back _ _ _ _ _ _ _ _ _ _ _ _ Hidle3 E4 E5 E6) as (p & Hr6 & Hle & Hs6).
  destruct (put_back_rests (S (Z.to_nat (nr (heapsort (ctx md6))))) main p w6 w7 Hr6 E7) as [Hr7 Hs7].
  assert (keeps w7 w') as Hk7 by by etrans.
  exists p. split; [by eapply resting_keeps|]. split; [done|].
  etrans; [by apply keeps_same_rest|]. etrans; [exact Hs6|]. etrans; [exact Hs7|].
  by apply keeps_same_rest.
Qed.

(** C2: A sort over ring buffers never delivers an event out of order: whatever the
    kernel writes to the ring buffers meanwhile, wherever the sort stops, the popped
    time of the main device does not go back, no device counts an unordered event,
    and the devices are ready for the next sort. *)
Theorem order_process_ordered turns fuel main dv popped target target_tm w w' :
  main_of w dv = Some main -> idle main popped w ->
  order_process kern ktime realloc_ok turns fuel dv target target_tm w = Some w' ->
  exists popped', idle main popped' w' /\ popped <= popped' /\
    (forall d, unordered w' d = unordered w d).
Proof.
  intros Hmain Hidle H.
  destruct (order_process_rests _ _ _ _ _ _ _ _ _ Hmain Hidle H) as (p & Hr & Hle & Hu & Ht).
  exists p. split; [|done]. split; [done|]. intros depth. rewrite (tree_events_ext w w') by done.
  apply Hidle.
Qed.

(** C3: The same holds at every moment of a sort, also of one the kernel keeps from
    ending: from the heapified heap on, the root of each turn is a least event,
    what is delivered is not before the popped time, and no unordered event is
    counted. *)
Theorem order_turns_ordered fuel main h popped hs tg te tt lost w w' :
  filling main h popped hs [] w ->
  (exists h1 w1, min_heapify_all (less_than w) 8 h = Some h1 /\ upd_ctx main (with_heap h1) w = Some w1 /\
    turns_to kern ktime fuel main tg te tt lost w1 w') ->
  exists h' popped', popped_of w' main = Some popped' /\ popped <= popped' /\
    (forall d, unordered w' d = unordered w d) /\
    heap_of w' main = Some h' /\ forall i, min_heap_peek 8 h' = Some i ->
      forall j, j ∈ elems h' -> event_time w' i <= event_time w' j.
Proof.
  intros Hf (h1 & w1 & Hh & E & Ht).
  destruct (filling_inv _ _ _ _ _ _ _ Hf Hh E) as (Hi & [Hu _] & _).
  destruct (turns_advance _ _ _ _ _ _ _ _ _ _ Ht _ _ _ Hi) as (h2 & p & Hi2 & Hle & Hc & _).
  exists h2, p. unfold popped_of, heap_of. rewrite (inv_main _ _ _ _ _ Hi2).
  split; [done|]. split; [done|]. split; [intros d; rewrite <- Hu; unfold unordered; by rewrite Hc|].
  split; [done|]. intros i Hpk j Hj.
  by destruct (root_elem _ _ _ _ _ _ Hi2 Hpk) as (_ & _ & _ & Hmin); apply Hmin.
Qed.
End process.

(** ** A run

    Two ring buffers: events at 5 and 30 in the first, at 10, 20 and a late 15 in
    the second. *)
Module Example.
Definition sample (t : Z) : list Z := [9; 0; 0; 0; 0; 0; 16; 0; t; 0; 0; 0; 0; 0; 0; 0].
Definition map_of (ts : list Z) : perf_mmap :=
  let bs := ts ≫= sample in
  PerfMmap (Some (MmapPage (Z.of_nat (length bs)) 0 0))
    (bs ++ replicate (256 - length bs) 0) 255 1 0 0 0 false 0 (replicate 32 0).
Definition stats0 : order_stats := OrderStats 0 0 0 0 0 0 0 0.
Definition ctx0 : order_ctx :=
  OrderCtx (MinHeap 0 2 [0; 0]) [100; 101] 2 2 0 16 0 0 0 ORDER_BREAK_NONE true false stats0.
Definition cv0 : Convert.dev :=
  Dev (Env false None 0) (SamplePos PERF_SAMPLE_TIME (-1) 0 (-1) (-1)) CONVERT_NONE false
    (TscConversion 0 0 0 false) (TscConversion 0 0 0 false) None None (-1) 0 true.
Definition dev0 : odev := ODev cv0 ctx0 None [] [] false 1 [7; 8] [].
Definition ev0 (k m : Z) : heap_event :=
  HeapEvent 1 None 0 k false false false (PERF_MMAP_EVENT (Order.MmapPart m 0 0 0 false)).
Definition world0 : world :=
  World {[ 1 := dev0 ]} (<[100 := ev0 0 7]> {[ 101 := ev0 1 8 ]})
    (<[7 := map_of [5; 30]]> {[ 8 := map_of [10; 20; 15] ]}) ∅ (Kvm kvm_scaling0 ∅) [] 0.
Definition run : option world :=
  order_process (fun _ _ m => m) (fun _ => 0) (fun _ => true) 10 10 1 None 0 world0.
Definition delivered : option (list (Z * option Z)) :=
  w ← run; Some ((fun e => match e with Rec _ bs i _ _ => (i, bs !! 8%nat) | Lost _ _ _ i _ _ => (i, None) end) <$> log w).

(** The heap as it is filled: the first event of each ring buffer is at its start. *)
Definition ev1 (k m t : Z) : heap_event :=
  HeapEvent 1 (Some (MapEvent (InRing 0))) t k false false false (PERF_MMAP_EVENT (Order.MmapPart m 0 0 0 false)).
Definition dev1 : odev := set_ctx (with_heap (MinHeap 2 2 [101; 100]) ctx0) dev0.
Definition read_map (ts : list Z) : perf_mmap :=
  let m := map_of ts in
  let n := 16 * Z.of_nat (length ts) in
  PerfMmap (base m) (ring m) (mask m) 1 16 0 n false 0 (event_copy m).
Definition world1 : world :=
  World {[ 1 := dev1 ]} (<[100 := ev1 0 7 5]> {[ 101 := ev1 1 8 10 ]})
    (<[7 := read_map [5; 30]]> {[ 8 := read_map [10; 20; 15] ]}) ∅ (Kvm kvm_scaling0 ∅) [] 0.
Definition heaped1 : option (min_heap Z * world) :=
  h ← min_heapify_all (less_than world1) 8 (heapsort (ctx dev1));
  w ← upd_ctx 1 (with_heap h) world1; Some (h, w).
Definition turn1 : option (bool * (Z * Z) * world) :=
  '(_, w) ← heaped1;
  order_step (fun _ _ m => m) (fun _ => 0) 10 1 None 0 U64_MAX (0, 0) w.
End Example.

(** The late event is delivered at the time of the one before it. *)
Example delivered_run :
  Example.delivered = Some [(0, Some 5); (1, Some 10); (1, Some 20); (1, Some 20); (0, Some 30)].
Proof. vm_compute. reflexivity. Qed.

(** The events of the example's device. *)
Lemma ev_view_cases a b w j v :
  events w = <[100 := a]> {[ 101 := b ]} -> ev_view w j = Some v ->
  (j = 100 /\ v = view a) \/ (j = 101 /\ v = view b).
Proof.
  unfold ev_view. intros ->. destruct (decide (j = 100)) as [->|H1].
  { rewrite lookup_insert_eq. intros [= <-]. by left. }
  rewrite lookup_insert_ne by done. destruct (decide (j = 101)) as [->|H2].
  { rewrite lookup_singleton_eq. intros [= <-]. by right. }
  by rewrite lookup_singleton_ne.
Qed.

Lemma example_sizes w d : devs w = {[ 1 := d ]} -> 0 <= heap_size (ctx d) -> sizes_ok w.
Proof.
  intros Hd Hs i h p n s. unfold main_view. rewrite Hd. destruct (decide (i = 1)) as [->|H].
  - rewrite lookup_singleton_eq. intros. by simplify_eq/=.
  - by rewrite lookup_singleton_ne.
Qed.

Lemma world0_idle : idle 1 0 Example.world0.
Proof.
  split; [split|].
  - exists (MinHeap 0 2 [0; 0]), 2. split; [reflexivity|]. unfold storage. cbn. lia.
  - intros j t m dv Hv.
    apply (ev_view_cases (Example.ev0 0 7) (Example.ev0 1 8)) in Hv as [[_ Hv]|[_ Hv]];
      [| |reflexivity]; injection Hv as -> -> ->; exists 0; (split; [reflexivity|lia]).
  - by apply (example_sizes _ Example.dev0).
  - intros [|depth]; [constructor|]. cbn. apply NoDup_cons. split; [intros H%list_elem_of_singleton; lia|].
    apply NoDup_singleton.
Qed.

Lemma world1_filling : filling 1 (MinHeap 2 2 [101; 100]) 0 2 [] Example.world1.
Proof.
  split.
  - reflexivity.
  - unfold storage. cbn. lia.
  - cbn. apply NoDup_cons. split; [intros H%list_elem_of_singleton; lia|]. apply NoDup_singleton.
  - intros j Hj. cbn in Hj. apply elem_of_cons in Hj as [->|Hj].
    + exists 10, 0, 1. split; [reflexivity|lia].
    + apply list_elem_of_singleton in Hj as ->. exists 5, 0, 1. split; [reflexivity|lia].
  - intros j t m dv Hv.
    apply (ev_view_cases (Example.ev1 0 7 5) (Example.ev1 1 8 10)) in Hv as [[_ Hv]|[_ Hv]];
      [| |reflexivity]; injection Hv as -> -> ->; exists 0; (split; [reflexivity|lia]).
  - by apply (example_sizes _ Example.dev1).
Qed.

(** The run delivers all five events, in order. *)
Lemma order_process_ordered_witness :
  exists w', Example.run = Some w' /\ length (log w') = 5%nat /\
    exists popped', idle 1 popped' w' /\ 0 <= popped' /\
      (forall d, unordered w' d = unordered Example.world0 d).
Proof.
  destruct Example.run as [w'|] eqn:E; [|vm_compute in E; discriminate].
  exists w'. split; [reflexivity|]. split.
  - assert ((length ∘ log) <$> Example.run = Some 5%nat) as Hl by (vm_compute; reflexivity).
    rewrite E in Hl. cbn in Hl. congruence.
  - exact (order_process_ordered _ _ _ 10 10 1 1 0 None 0 Example.world0 w' eq_refl world0_idle E).
Defined.

(** After one turn. *)
Lemma order_turns_ordered_witness :
  exists w', snd <$> Example.turn1 = Some w' /\
    exists h' popped', popped_of w' 1 = Some popped' /\ 0 <= popped' /\
      (forall d, unordered w' d = unordered Example.world1 d) /\
      heap_of w' 1 = Some h' /\ forall i, min_heap_peek 8 h' = Some i ->
        forall j, j ∈ elems h' -> event_time w' i <= event_time w' j.
Proof.
  destruct (min_heapify_all (less_than Example.world1) 8 (MinHeap 2 2 [101; 100])) as [h1|] eqn:Eh;
    [|vm_compute in Eh; discriminate].
  destruct (upd_ctx 1 (with_heap h1) Example.world1) as [w1|] eqn:E1; [|vm_compute in E1; discriminate].
  assert (Example.turn1 = order_step (fun _ _ m => m) (fun _ => 0) 10 1 None 0 U64_MAX (0, 0) w1) as Ht.
  { unfold Example.turn1, Example.heaped1. cbn [heapsort ctx Example.dev1 set_ctx with_heap].
    rewrite Eh. cbn [mbind option_bind]. rewrite E1. reflexivity. }
  destruct Example.turn1 as [[[dn lost1] w']|] eqn:Et; [|vm_compute in Et; discriminate].
  exists w'. split; [reflexivity|].
  eapply (order_turns_ordered (fun _ _ m => m) (fun _ => 0) 10 1 _ 0 2 None 0 U64_MAX (0, 0)
    Example.world1 w' world1_filling).
  exists h1, w1. split; [exact Eh|]. split; [exact E1|].
  eapply turns_step; [symmetry; exact Ht|reflexivity|apply turns_refl].
Defined.
