(* ===== verification/Expr.v ===== *)
(** * The expression compiler and its machine (expr.c)

    A single pass compiles a C expression to the code of a stack machine, c4
    style.  The globals of the file are records passed along: [lexer] is what
    [next] reads and writes, [comp] adds the emitted code and the type of the
    last expression.  Characters are bytes.  [None] and [Undef] are accesses
    outside an object (or an exhausted fuel), [SynErr] is [synerr] followed by
    its [longjmp]. *)

From Stdlib Require Import Ascii String.
From S2P Require Import Prelude Bytes.

Definition ch (a : ascii) : Z := Z.of_N (N_of_ascii a).
Fixpoint chars (s : string) : list Z :=
  match s with EmptyString => [] | String a s => ch a :: chars s end.

(** ** Tokens, opcodes, types *)

Definition Num : Z := 128.
Definition Fun : Z := 129.
Definition Sys : Z := 130.
Definition Glo : Z := 131.
Definition Loc : Z := 132.
Definition Id : Z := 133.
Definition Int : Z := 134.
Definition Sizeof : Z := 135.
Definition Assign : Z := 136.
Definition Cond : Z := 137.
Definition Lor : Z := 138.
Definition Lan : Z := 139.
Definition Or : Z := 140.
Definition Xor : Z := 141.
Definition And : Z := 142.
Definition Eq : Z := 143.
Definition Ne : Z := 144.
Definition Lt : Z := 145.
Definition Gt : Z := 146.
Definition Le : Z := 147.
Definition Ge : Z := 148.
Definition Shl : Z := 149.
Definition Shr : Z := 150.
Definition Add : Z := 151.
Definition Sub : Z := 152.
Definition Mul : Z := 153.
Definition Div : Z := 154.
Definition Mod : Z := 155.
Definition Inc : Z := 156.
Definition Dec : Z := 157.
Definition Brak : Z := 158.

Module Op.
Definition LEA : Z := 0.
Definition IMM : Z := 1.
Definition JMP : Z := 2.
Definition JSR : Z := 3.
Definition BZ : Z := 4.
Definition BNZ : Z := 5.
Definition ENT : Z := 6.
Definition ADJ : Z := 7.
Definition LI : Z := 8.
Definition SI : Z := 9.
Definition LEV : Z := 10.
Definition PSH : Z := 11.
Definition OR : Z := 12.
Definition XOR : Z := 13.
Definition AND : Z := 14.
Definition EQ : Z := 15.
Definition NE : Z := 16.
Definition LT : Z := 17.
Definition GT : Z := 18.
Definition LE : Z := 19.
Definition GE : Z := 20.
Definition SHL : Z := 21.
Definition SHR : Z := 22.
Definition ADD : Z := 23.
Definition SUB : Z := 24.
Definition MUL : Z := 25.
Definition DIV : Z := 26.
Definition MOD : Z := 27.
Definition PRTF : Z := 28.
Definition KSYM : Z := 29.
Definition NTHL : Z := 30.
Definition NTHS : Z := 31.
Definition STRNCMP : Z := 32.
Definition EXIT : Z := 33.
End Op.

Definition CHAR : Z := 0.
Definition SHORT : Z := 1.
Definition INT : Z := 2.
Definition LONG : Z := 3.
Definition ARRAY : Z := 4.
Definition PTR : Z := 8.

(** ** Symbols and the lexer *)

(** [name] is the text from where the identifier was first seen. *)
Record symbol := Symbol {
  token : Z;
  class : Z;
  name : list Z;
  hash : Z;
  ref : Z;
  type : Z;
  nr_elm : Z;
  value : Z
}.

Definition symbol0 : symbol := Symbol 0 0 [] 0 0 0 0 0.

(** [src] is the text from [p] to its final NUL, [None] when [p] is past it; [str]
    what has been written to the string buffer. [nr_syms] is the length of
    [symtab]. *)
Record lexer := Lexer {
  src : option (list Z);
  tk : Z;
  ival : Z;
  id : nat;
  symtab : list symbol;
  n_syms : nat;
  str : list Z
}.

Definition set_src (p : option (list Z)) (s : lexer) : lexer :=
  Lexer p (tk s) (ival s) (id s) (symtab s) (n_syms s) (str s).
Definition set_symtab (t : list symbol) (s : lexer) : lexer :=
  Lexer (src s) (tk s) (ival s) (id s) t (n_syms s) (str s).
(** [tk] and [p]; also [ival]; also the string buffer. *)
Definition at_tok (p : list Z) (t : Z) (s : lexer) : lexer :=
  Lexer (Some p) t (ival s) (id s) (symtab s) (n_syms s) (str s).
Definition at_num (p : option (list Z)) (t i : Z) (s : lexer) : lexer :=
  Lexer p t i (id s) (symtab s) (n_syms s) (str s).

Definition TK_SHIFT : Z := 6.
Definition HASH (tk len : Z) : Z := s64 (Z.shiftl tk TK_SHIFT + len).
Definition LEN (hash : Z) : Z := Z.land hash (Z.shiftl 1 TK_SHIFT - 1).

Definition between (a c b : Z) : bool := (a <=? c) && (c <=? b).
Definition is_alpha (c : Z) : bool :=
  between (ch "a") c (ch "z") || between (ch "A") c (ch "Z") || (c =? ch "_").
Definition is_digit (c : Z) : bool := between (ch "0") c (ch "9").
Definition is_hex (c : Z) : bool :=
  is_digit c || between (ch "a") c (ch "f") || between (ch "A") c (ch "F").

(** The first character, NUL at the end. *)
Definition peek (l : list Z) : Z := default 0 (head l).

(** Up to the end of the line. *)
Fixpoint skip_line (l : list Z) : list Z :=
  match l with
  | [] => []
  | c :: l' => if c =? 10 then l else skip_line l'
  end.

(** The rest of an identifier, hashed into [tk]. *)
Fixpoint ident_loop (tk : Z) (l : list Z) : Z * list Z :=
  match l with
  | [] => (tk, [])
  | c :: l' => if is_alpha c || is_digit c then ident_loop (s64 (tk * 147 + c)) l' else (tk, l)
  end.

Fixpoint dec_loop (ival : Z) (l : list Z) : Z * list Z :=
  match l with
  | [] => (ival, [])
  | c :: l' => if is_digit c then dec_loop (s64 (ival * 10 + c - ch "0")) l' else (ival, l)
  end.

Fixpoint hex_loop (ival : Z) (l : list Z) : Z * list Z :=
  match l with
  | [] => (ival, [])
  | c :: l' => if is_hex c
               then hex_loop (s64 (ival * 16 + Z.land c 15 + (if ch "A" <=? c then 9 else 0))) l'
               else (ival, l)
  end.

Fixpoint oct_loop (ival : Z) (l : list Z) : Z * list Z :=
  match l with
  | [] => (ival, [])
  | c :: l' => if between (ch "0") c (ch "7") then oct_loop (s64 (ival * 8 + c - ch "0")) l' else (ival, l)
  end.

(** A number that starts with the digit [c]. *)
Definition number (c : Z) (l : list Z) : Z * list Z :=
  let ival := c - ch "0" in
  if negb (ival =? 0) then dec_loop ival l
  else if (peek l =? ch "x") || (peek l =? ch "X") then hex_loop ival (drop 1 l)
  else oct_loop ival l.

Definition DQUOTE : Z := 34.
Definition QUOTE : Z := 39.

(** The inside of a literal quoted by [q]: the last character, what a string adds to
    the buffer and the text from the closing quote, or from the NUL when there is
    none. A backslash before the NUL takes [p] past it. *)
Fixpoint lit_loop (q ival : Z) (out : list Z) (l : list Z) : option (Z * list Z * list Z) :=
  let push c := if q =? DQUOTE then out ++ [u8 c] else out in
  match l with
  | [] => Some (ival, out, [])
  | c :: l' =>
      if c =? q then Some (ival, out, l)
      else if c =? ch "\" then
        match l' with
        | [] => None
        | c' :: l'' => let ival := if c' =? ch "n" then 10 else s8 c' in lit_loop q ival (push ival) l''
        end
      else lit_loop q (s8 c) (push (s8 c)) l'
  end.

(** Where the search for the name [len] bytes at [pp] stops, and whether it found
    it. *)
Fixpoint find_sym (tab : list symbol) (k : nat) (h : Z) (pp : list Z) (len : nat) : bool * nat :=
  match tab with
  | [] => (false, k)
  | sym :: tab =>
      if token sym =? 0 then (false, k)
      else if (h =? hash sym) && bool_decide (take len (name sym) = take len pp) then (true, k)
      else find_sym tab (S k) h pp len
  end.

(** What a step of the compiler ends in. *)
Inductive outcome (A : Type) :=
  | Done (a : A)
  | SynErr (msg : string)
  | Undef.
Arguments Done {A}.
Arguments SynErr {A}.
Arguments Undef {A}.

#[export] Instance outcome_bind : MBind outcome := fun A B f m =>
  match m with Done a => f a | SynErr e => SynErr e | Undef => Undef end.

Definition get {A} (m : option A) : outcome A :=
  match m with Some a => Done a | None => Undef end.

Section expr.
(** Where the string buffer is, its size, the contents of the symbols [realloc]
    adds to the table, where the code is. *)
Context (STR : Z) (strsize : nat) (junk : nat -> symbol) (le : Z).

(** The identifier at [pp], whose first character is taken. *)
Definition next_ident (pp : list Z) (s : lexer) : lexer :=
  let '(h, rest) := ident_loop (peek pp) (drop 1 pp) in
  let len := (length pp - length rest)%nat in
  let h := HASH h (Z.of_nat len) in
  let '(found, k) := find_sym (symtab s) 0 h pp len in
  if found then
    Lexer (Some rest) (default 0 (token <$> symtab s !! k)) (ival s) k (symtab s) (n_syms s) (str s)
  else
    let '(tab, k) := if (k =? length (symtab s))%nat
                     then (symtab s ++ (junk <$> seq (length (symtab s)) 16), n_syms s)
                     else (symtab s, k) in
    let sym := default symbol0 (tab !! k) in
    let sym := Symbol Id (class sym) pp h (ref sym) (type sym) (nr_elm sym) (value sym) in
    Lexer (Some rest) Id (ival s) k (<[k := sym]> tab) (S (n_syms s)) (str s).

(** The literal quoted by [q], [l] being after the opening quote. *)
Definition next_literal (q : Z) (l : list Z) (s : lexer) : option lexer :=
  '(iv, out, rest) ← lit_loop q (ival s) [] l;
  let new := str s ++ out ++ [0] in
  let p := match rest with [] => None | _ :: rest => Some rest end in
  if (length new <=? strsize)%nat then
    Some (Lexer p (if q =? DQUOTE then q else Num)
            (if q =? DQUOTE then STR + Z.of_nat (length (str s)) else iv)
            (id s) (symtab s) (n_syms s) new)
  else None.

(** A token of one or two characters. *)
Definition op2 (c2 t2 t1 : Z) (l : list Z) (s : lexer) : lexer :=
  if peek l =? c2 then at_tok (drop 1 l) t2 s else at_tok l t1 s.
Definition op3 (c2 t2 c3 t3 t1 : Z) (l : list Z) (s : lexer) : lexer :=
  if peek l =? c2 then at_tok (drop 1 l) t2 s
  else if peek l =? c3 then at_tok (drop 1 l) t3 s
  else at_tok l t1 s.

(** The punctuation that is its own token. *)
Definition is_punct (c : Z) : bool :=
  bool_decide (c ∈ ch <$> ["~"; ";"; "{"; "}"; "("; ")"; "]"; ","; ":"]%char).

(** The operator that starts with [c], if one does. *)
Definition next_op (c : Z) (l : list Z) (s : lexer) : option lexer :=
  if c =? ch "=" then Some (op2 (ch "=") Eq Assign l s)
  else if c =? ch "+" then Some (op2 (ch "+") Inc Add l s)
  else if c =? ch "-" then Some (op2 (ch "-") Dec Sub l s)
  else if c =? ch "!" then Some (op2 (ch "=") Ne c l s)
  else if c =? ch "<" then Some (op3 (ch "=") Le (ch "<") Shl Lt l s)
  else if c =? ch ">" then Some (op3 (ch "=") Ge (ch ">") Shr Gt l s)
  else if c =? ch "|" then Some (op2 (ch "|") Lor Or l s)
  else if c =? ch "&" then Some (op2 (ch "&") Lan And l s)
  else if c =? ch "^" then Some (at_tok l Xor s)
  else if c =? ch "%" then Some (at_tok l Mod s)
  else if c =? ch "*" then Some (at_tok l Mul s)
  else if c =? ch "[" then Some (at_tok l Brak s)
  else if c =? ch "?" then Some (at_tok l Cond s)
  else if is_punct c then Some (at_tok l c s)
  else None.

(** What is neither a token nor a comment is skipped. *)
Fixpoint next_loop (fuel : nat) (l : list Z) (s : lexer) : option lexer :=
  match fuel, l with
  | O, _ => None
  | _, [] => Some (at_tok [] 0 s)
  | S fuel, c :: l' =>
      if c =? 10 then next_loop fuel l' s
      else if c =? ch "#" then next_loop fuel (skip_line l') s
      else if is_alpha c then Some (next_ident l s)
      else if is_digit c then
        let '(iv, rest) := number c l' in Some (at_num (Some rest) Num iv s)
      else if c =? ch "/" then
        if peek l' =? ch "/" then next_loop fuel (skip_line (drop 1 l')) s
        else Some (at_tok l' Div s)
      else if (c =? QUOTE) || (c =? DQUOTE) then next_literal c l' s
      else match next_op c l' s with
           | Some s => Some s
           | None => next_loop fuel l' s
           end
  end.

Definition next (s : lexer) : option lexer :=
  l ← src s; next_loop (S (length l)) l s.

(** ** The compiler *)

(** [code] is [le[1]] up to [*e]; [ty] the type of the last expression. *)
Record comp := Comp { lex : lexer; code : list Z; ty : Z }.

Definition with_ty (t : Z) (s : comp) : comp := Comp (lex s) (code s) t.
Definition with_code (c : list Z) (s : comp) : comp := Comp (lex s) c (ty s).

Definition advance (s : comp) : outcome comp :=
  l ← get (next (lex s)); Done (Comp l (code s) (ty s)).

(** [*++e = x]: the code has room for 1023 words after [le[0]]. *)
Definition nr_code : nat := 1023.
Definition emit (x : Z) (s : comp) : outcome comp :=
  if (length (code s) <? nr_code)%nat then Done (with_code (code s ++ [x]) s) else Undef.
Fixpoint emits (xs : list Z) (s : comp) : outcome comp :=
  match xs with [] => Done s | x :: xs => s ← emit x s; emits xs s end.

(** The address [e + n]. *)
Definition here (s : comp) (n : Z) : Z := le + 8 * (Z.of_nat (length (code s)) + n).

(** [*d = v] for the word [d] of the code. *)
Definition patch (d : nat) (v : Z) (s : comp) : comp := with_code (<[d := v]> (code s)) s.

(** [e[-1]]; [le[0]] is 0. *)
Definition prev_word (s : comp) : option Z :=
  match length (code s) with
  | O => None
  | S O => Some 0
  | S (S n) => code s !! n
  end.

(** The last instruction is a load: the expression is an lvalue (or its last two
    words look like one). *)
Definition at_load (err : string) (s : comp) : outcome unit :=
  w ← get (prev_word s); if w =? Op.LI then Done tt else SynErr err.

(** [*--e = PSH] instead of the load, of which the size is forgotten. *)
Definition load_to_push (s : comp) : comp :=
  with_code (take (length (code s) - 2) (code s) ++ [Op.PSH]) s.

Definition drop_load (s : comp) : comp := with_code (take (length (code s) - 2) (code s)) s.

(** [*(e-1) = PSH; ++e; *e = *(e-1); *(e-1) = LI] as it is written: the word before
    the size, where [LI] was, becomes [PSH], then [LI] overwrites the size, whose
    place after it is taken by a copy of itself. *)
Definition push_before_load (s : comp) : outcome comp :=
  let n := length (code s) in
  w ← get (code s !! (n - 1)%nat);
  s ← emit w (with_code (<[(n - 2)%nat := Op.PSH]> (code s)) s);
  Done (with_code (<[(n - 1)%nat := Op.LI]> (code s)) s).

(** [(ty >= PTR) ? sizeof(void * ) : (1 << ty)] *)
Definition size_of (ty : Z) : Z := if PTR <=? ty then 8 else Z.shiftl 1 ty.
(** How far [++] goes, and the scale of pointer arithmetic. *)
Definition scale (ty : Z) : Z := if PTR + PTR <=? ty then 8 else Z.shiftl 1 (ty - PTR).
Definition step_of (ty : Z) : Z := if PTR <=? ty then scale ty else 1.

(** Bitwise type tests: [ty & ARRAY], [(ty & ~ARRAY) | PTR]. *)
Definition is_array (ty : Z) : bool := negb (Z.land ty ARRAY =? 0).
Definition decay (ty : Z) : Z := Z.lor (Z.land ty (Z.lnot ARRAY)) PTR.

Definition bump (k : nat) (s : lexer) : lexer :=
  set_symtab (alter (fun sym => Symbol (token sym) (class sym) (name sym) (hash sym) (ref sym + 1)
                      (type sym) (nr_elm sym) (value sym)) k (symtab s)) s.
Definition bump_ref (k : nat) (s : comp) : comp := Comp (bump k (lex s)) (code s) (ty s).

(** [if (tk == t) next(); else synerr(err)] *)
Definition expect (t : Z) (err : string) (s : comp) : outcome comp :=
  if tk (lex s) =? t then advance s else SynErr err.

(** [while (tk == t) next()], adding [d] to the type [ty0] each time. *)
Fixpoint skip_tok (n : nat) (t d ty0 : Z) (s : comp) : outcome (Z * comp) :=
  match n with
  | O => Undef
  | S n => if tk (lex s) =? t then s ← advance s; skip_tok n t d (ty0 + d) s else Done (ty0, s)
  end.

Definition cur_type (s : comp) : option Z := type <$> symtab (lex s) !! id (lex s).

(** The symbol a pointer [&symtab[k]] taken when the table had [n] symbols points to:
    growing the table frees the old one. *)
Definition sym_at (n k : nat) (s : comp) : option symbol :=
  if (length (symtab (lex s)) =? n)%nat then symtab (lex s) !! k else None.

Section rec.
(** [expr] on what is inside. [fuel] bounds the loops. *)
Context (expr : Z -> comp -> outcome comp) (fuel : nat).

(** The arguments of a call and their number. *)
Fixpoint args (n : nat) (t : Z) (s : comp) : outcome (Z * comp) :=
  match n with
  | O => Undef
  | S n =>
      if tk (lex s) =? ch ")" then Done (t, s)
      else
        s ← expr Assign s;
        s ← emit Op.PSH s;
        s ← (if tk (lex s) =? ch "," then advance s else Done s);
        args n (t + 1) s
  end.

Definition call (nsym k : nat) (s : comp) : outcome comp :=
  s ← advance s;
  '(t, s) ← args fuel 0 s;
  s ← advance s;
  sym ← get (sym_at nsym k s);
  s ← (if class sym =? Sys then s ← emit (value sym) s; Done (bump_ref k s)
       else if class sym =? Fun then s ← emits [Op.JSR; value sym] s; Done (bump_ref k s)
       else SynErr "bad function call");
  s ← (if negb (t =? 0) then emits [Op.ADJ; t] s else Done s);
  Done (with_ty (type sym) s).

Definition variable (nsym k : nat) (s : comp) : outcome comp :=
  sym ← get (sym_at nsym k s);
  if class sym =? Num then s ← emits [Op.IMM; value sym] s; Done (with_ty INT s)
  else
    s ← (if class sym =? Loc then s ← emits [Op.LEA; 0 - value sym] s; Done (bump_ref k s)
         else if class sym =? Glo then s ← emits [Op.IMM; value sym] s; Done (bump_ref k s)
         else SynErr "undefined variable");
    let ty := type sym in
    if is_array ty then Done (with_ty (decay ty) s)
    else s ← emits [Op.LI; size_of ty] s; Done (with_ty ty s).

Definition sizeof (s : comp) : outcome comp :=
  s ← advance s;
  s ← expect (ch "(") "open paren expected in sizeof" s;
  t ← (if tk (lex s) =? Int then get (cur_type s) else SynErr "wrong type");
  s ← advance s;
  '(t, s) ← skip_tok fuel Mul PTR t s;
  s ← expect (ch ")") "close paren expected in sizeof" s;
  s ← emits [Op.IMM; size_of t] s;
  Done (with_ty INT s).

Definition paren (s : comp) : outcome comp :=
  s ← advance s;
  if tk (lex s) =? Int then
    t ← get (cur_type s);
    s ← advance s;
    '(t, s) ← skip_tok fuel Mul PTR t s;
    s ← expect (ch ")") "bad cast" s;
    s ← expr Inc s;
    Done (with_ty t s)
  else
    s ← expr Assign s;
    expect (ch ")") "close paren expected" s.

(** [++x] and [--x]. *)
Definition pre_incr (s : comp) : outcome comp :=
  let t := tk (lex s) in
  s ← advance s;
  s ← expr Inc s;
  _ ← at_load "bad lvalue in pre-increment" s;
  s ← push_before_load s;
  s ← emits [Op.PSH; Op.IMM; step_of (ty s); if t =? Inc then Op.ADD else Op.SUB;
             Op.SI; size_of (ty s)] s;
  Done s.

(** The first half of [expr]: what an expression starts with. *)
Definition unary (s : comp) : outcome comp :=
  let t := tk (lex s) in
  if t =? 0 then SynErr "unexpected eof in expression"
  else if t =? Num then
    s ← emits [Op.IMM; ival (lex s)] s; s ← advance s; Done (with_ty INT s)
  else if t =? DQUOTE then
    s ← emits [Op.IMM; ival (lex s)] s; s ← advance s;
    '(_, s) ← skip_tok fuel DQUOTE 0 0 s; Done (with_ty PTR s)
  else if t =? Sizeof then sizeof s
  else if t =? Id then
    let k := id (lex s) in
    let n := length (symtab (lex s)) in
    s ← advance s;
    if tk (lex s) =? ch "(" then call n k s else variable n k s
  else if t =? ch "(" then paren s
  else if t =? Mul then
    s ← advance s; s ← expr Inc s;
    s ← (if PTR <=? ty s then Done (with_ty (ty s - PTR) s) else SynErr "bad dereference");
    emits [Op.LI; size_of (ty s)] s
  else if t =? And then
    s ← advance s; s ← expr Inc s;
    _ ← at_load "bad address-of" s;
    Done (with_ty (ty s + PTR) (drop_load s))
  else if t =? ch "!" then
    s ← advance s; s ← expr Inc s;
    s ← emits [Op.PSH; Op.IMM; 0; Op.EQ] s; Done (with_ty INT s)
  else if t =? ch "~" then
    s ← advance s; s ← expr Inc s;
    s ← emits [Op.PSH; Op.IMM; -1; Op.XOR] s; Done (with_ty INT s)
  else if t =? Add then
    s ← advance s; s ← expr Inc s; Done (with_ty INT s)
  else if t =? Sub then
    s ← advance s;
    s ← emit Op.IMM s;
    s ← (if tk (lex s) =? Num then s ← emit (s64 (- ival (lex s))) s; advance s
         else s ← emits [-1; Op.PSH] s; s ← expr Inc s; emit Op.MUL s);
    Done (with_ty INT s)
  else if (t =? Inc) || (t =? Dec) then pre_incr s
  else SynErr "bad expression".

(** [PSH], the right operand, the operation. *)
Definition binary (lev op : Z) (s : comp) : outcome comp :=
  s ← advance s; s ← emit Op.PSH s; s ← expr lev s; s ← emit op s; Done (with_ty INT s).

(** [x++] and [x--]: the value is recomputed from the one stored. *)
Definition post_incr (s : comp) : outcome comp :=
  let inc := tk (lex s) =? Inc in
  _ ← at_load "bad lvalue in post-increment" s;
  s ← push_before_load s;
  s ← emits [Op.PSH; Op.IMM; step_of (ty s); if inc then Op.ADD else Op.SUB;
             Op.SI; size_of (ty s); Op.PSH; Op.IMM; step_of (ty s);
             if inc then Op.SUB else Op.ADD] s;
  advance s.

Definition conditional (s : comp) : outcome comp :=
  s ← advance s;
  s ← emits [Op.BZ; 0] s;
  let d := (length (code s) - 1)%nat in
  s ← expr Assign s;
  s ← expect (ch ":") "conditional missing colon" s;
  let s := patch d (here s 3) s in
  s ← emits [Op.JMP; 0] s;
  let d := (length (code s) - 1)%nat in
  s ← expr Cond s;
  Done (patch d (here s 1) s).

(** [||] and [&&]. *)
Definition shortcut (op lev : Z) (s : comp) : outcome comp :=
  s ← advance s;
  s ← emits [op; 0] s;
  let d := (length (code s) - 1)%nat in
  s ← expr lev s;
  Done (with_ty INT (patch d (here s 1) s)).

Definition scaled (t : Z) (s : comp) : outcome comp :=
  if PTR <? t then emits [Op.PSH; Op.IMM; scale t; Op.MUL] s else Done s.

(** One pass of the loop: what follows an expression of type [ty]. *)
Definition operator (s : comp) : outcome comp :=
  let t := ty s in
  let o := tk (lex s) in
  if o =? Assign then
    s ← advance s;
    _ ← at_load "bad lvalue in assignment" s;
    s ← expr Assign (load_to_push s);
    emits [Op.SI; size_of t] (with_ty t s)
  else if o =? Cond then conditional s
  else if o =? Lor then shortcut Op.BNZ Lan s
  else if o =? Lan then shortcut Op.BZ Or s
  else if o =? Or then binary Xor Op.OR s
  else if o =? Xor then binary And Op.XOR s
  else if o =? And then binary Eq Op.AND s
  else if o =? Eq then binary Lt Op.EQ s
  else if o =? Ne then binary Lt Op.NE s
  else if o =? Lt then binary Shl Op.LT s
  else if o =? Gt then binary Shl Op.GT s
  else if o =? Le then binary Shl Op.LE s
  else if o =? Ge then binary Shl Op.GE s
  else if o =? Shl then binary Add Op.SHL s
  else if o =? Shr then binary Add Op.SHR s
  else if o =? Add then
    s ← advance s; s ← emit Op.PSH s; s ← expr Mul s;
    s ← scaled t (with_ty t s);
    emit Op.ADD s
  else if o =? Sub then
    s ← advance s; s ← emit Op.PSH s; s ← expr Mul s;
    if (PTR <? t) && (t =? ty s) then
      s ← emits [Op.SUB; Op.PSH; Op.IMM; scale t; Op.DIV] s; Done (with_ty INT s)
    else
      s ← scaled t (with_ty t s);
      emit Op.SUB s
  else if o =? Mul then binary Inc Op.MUL s
  else if o =? Div then binary Inc Op.DIV s
  else if o =? Mod then binary Inc Op.MOD s
  else if (o =? Inc) || (o =? Dec) then post_incr s
  else if o =? Brak then
    s ← advance s; s ← emit Op.PSH s; s ← expr Assign s;
    s ← expect (ch "]") "close bracket expected" s;
    s ← (if PTR <? t then emits [Op.PSH; Op.IMM; scale t; Op.MUL] s
         else if t <? PTR then SynErr "pointer type expected" else Done s);
    s ← emit Op.ADD s;
    let s := with_ty (t - PTR) s in
    emits [Op.LI; size_of (ty s)] s
  else SynErr "compiler error".

(** [while (tk >= lev)] *)
Fixpoint climb (n : nat) (lev : Z) (s : comp) : outcome comp :=
  match n with
  | O => Undef
  | S n => if lev <=? tk (lex s) then s ← operator s; climb n lev s else Done s
  end.
End rec.

Fixpoint expr (fuel : nat) (lev : Z) (s : comp) : outcome comp :=
  match fuel with
  | O => Undef
  | S fuel => s ← unary (expr fuel) fuel s; climb (expr fuel) fuel lev s
  end.
End expr.

(** ** [expr_compile] *)

Record global_var_declare := GlobalVarDeclare {
  decl_name : list Z;
  offset : Z;
  decl_size : Z;
  elementsize : Z
}.

(** [prog_mem] is the memory of the data and of the strings. *)
Record expr_prog := ExprProg {
  prog_symtab : list symbol;
  prog_data : Z;
  datasize : Z;
  insn : list Z;
  insn_base : Z;
  prog_mem : gmap Z Z
}.

Definition start (text : list Z) (s : lexer) : lexer := set_src (Some text) s.

(** Update of the symbol [next] stopped at. *)
Definition set_id (f : symbol -> symbol) (s : lexer) : lexer :=
  set_symtab (alter f (id s) (symtab s)) s.

Fixpoint mem_of (a : Z) (bs : list Z) (m : gmap Z Z) : gmap Z Z :=
  match bs with [] => m | b :: bs => <[a := b]> (mem_of (a + 1) bs m) end.

Section compile.
(** [data_at n] is where [n] bytes of data are allocated, [insn_at] where the final
    [realloc] leaves the code. *)
Context (STR : Z) (junk : nat -> symbol) (le insn_at : Z) (data_at : Z -> Z).
Context (expr_str : list Z).
Let strsize : nat := length expr_str.

Definition ADD_KEY (text : string) (tok ty : Z) (s : lexer) : option lexer :=
  s ← next STR strsize junk (start (chars text) s);
  Some (set_id (fun y => Symbol tok 0 (name y) (hash y) (ref y) ty (nr_elm y) 0) s).
Definition ADD_LIB (text : string) (ty op : Z) (s : lexer) : option lexer :=
  s ← next STR strsize junk (start (chars text) s);
  Some (set_id (fun y => Symbol (token y) Sys (name y) (hash y) (ref y) ty (nr_elm y) op) s).

Definition add_builtins (s : lexer) : option lexer :=
  s ← ADD_KEY "char" Int CHAR s;
  s ← ADD_KEY "short" Int SHORT s;
  s ← ADD_KEY "int" Int INT s;
  s ← ADD_KEY "long" Int LONG s;
  s ← ADD_KEY "sizeof" Sizeof INT s;
  s ← ADD_LIB "printf" INT Op.PRTF s;
  s ← ADD_LIB "ksymbol" (Z.lor CHAR PTR) Op.KSYM s;
  s ← ADD_LIB "ntohl" INT Op.NTHL s;
  s ← ADD_LIB "ntohs" SHORT Op.NTHS s;
  ADD_LIB "strncmp" INT Op.STRNCMP s.

Definition elem_type (n : Z) : option Z :=
  if n =? 1 then Some CHAR else if n =? 2 then Some SHORT else if n =? 4 then Some INT
  else if n =? 8 then Some LONG else None.

(** One pass over the declarations with the data at [data]; the inner [None] is an
    element size that is refused. *)
Fixpoint declare_loop (data : Z) (ds : list global_var_declare) (max_offset : Z) (s : lexer)
  : option (option (Z * lexer)) :=
  match ds with
  | [] => Some (Some (max_offset, s))
  | d :: ds =>
      s ← next STR strsize junk (start (decl_name d) s);
      match elem_type (elementsize d) with
      | None => Some None
      | Some ty =>
          let ty := if negb (decl_size d =? elementsize d) then Z.lor ty ARRAY else ty in
          let s := set_id (fun y => Symbol (token y) Glo (name y) (hash y) (ref y) ty
                                      (Z.quot (decl_size d) (elementsize d)) (data + offset d)) s in
          declare_loop data ds (Z.max max_offset (offset d + decl_size d)) s
      end
  end.

(** The data grows by 256 bytes until the declarations fit. *)
Fixpoint declare_globals (fuel : nat) (size : Z) (ds : list global_var_declare) (s : lexer)
  : option (option (Z * Z * lexer)) :=
  match fuel with
  | O => None
  | S fuel =>
      r ← declare_loop (data_at size) ds 0 s;
      match r with
      | None => Some None
      | Some (max_offset, s) =>
          if size <? max_offset then declare_globals fuel (size + 256) ds s
          else Some (Some (size, max_offset, s))
      end
  end.

(** [do { next(); expr(Assign); } while (tk == ',')] *)
Fixpoint exprs (n fuel : nat) (s : comp) : outcome comp :=
  match n with
  | O => Undef
  | S n =>
      s ← advance STR strsize junk s;
      s ← expr STR strsize junk le fuel Assign s;
      if tk (lex s) =? ch "," then exprs n fuel s else Done s
  end.

Definition lexer0 : lexer := Lexer (Some []) 0 0 0 (replicate 16 symbol0) 0 [].

(** [Done None] is a refused declaration. *)
Definition expr_compile (fuel : nat) (ds : option (list global_var_declare))
  : outcome (option expr_prog) :=
  s ← get (add_builtins lexer0);
  r ← get (match ds with
           | None => Some (Some (256, 0, s))
           | Some ds => declare_globals fuel 256 ds s
           end);
  match r with
  | None => Done None
  | Some (size, used, l) =>
      s ← exprs fuel fuel (Comp (start expr_str l) [] 0);
      s ← emit Op.EXIT s;
      let data := data_at size in
      let m := mem_of STR (str (lex s) ++ replicate (strsize - length (str (lex s))) 0) ∅ in
      let m := if used =? 0 then m else mem_of data (replicate (Z.to_nat size) 0) m in
      Done (Some (ExprProg (symtab (lex s)) (if used =? 0 then 0 else data)
                    (if used =? 0 then 0 else size) (0 :: code s) insn_at m))
  end.
End compile.

(** ** The machine *)

(** [n] bytes at [a], and writing them where bytes are. *)
Fixpoint load_bytes (n : nat) (a : Z) (m : gmap Z Z) : option (list Z) :=
  match n with
  | O => Some []
  | S n => b ← m !! a; bs ← load_bytes n (a + 1) m; Some (b :: bs)
  end.
Fixpoint store_bytes (bs : list Z) (a : Z) (m : gmap Z Z) : option (gmap Z Z) :=
  match bs with
  | [] => Some m
  | b :: bs => _ ← m !! a; store_bytes bs (a + 1) (<[a := b]> m)
  end.

Definition width (sz : Z) : bool := bool_decide (sz ∈ [1; 2; 4; 8]).

(** A signed load and a store of [sz] bytes through a pointer. *)
Definition load (sz a : Z) (m : gmap Z Z) : option Z :=
  bs ← load_bytes (Z.to_nat sz) (u64 a) m; Some (sext (8 * sz) (le_val bs)).
Definition store (sz a v : Z) (m : gmap Z Z) : option (gmap Z Z) :=
  store_bytes (le_bytes (Z.to_nat sz) v) (u64 a) m.

Definition flag (b : bool) : Z := if b then 1 else 0.

(** The operations on the top of the stack and [a]; shifts by more than the width
    and divisions that trap are [None]. *)
Definition alu (op x a : Z) : option Z :=
  if op =? Op.OR then Some (Z.lor x a)
  else if op =? Op.XOR then Some (Z.lxor x a)
  else if op =? Op.AND then Some (Z.land x a)
  else if op =? Op.EQ then Some (flag (x =? a))
  else if op =? Op.NE then Some (flag (negb (x =? a)))
  else if op =? Op.LT then Some (flag (x <? a))
  else if op =? Op.GT then Some (flag (a <? x))
  else if op =? Op.LE then Some (flag (x <=? a))
  else if op =? Op.GE then Some (flag (a <=? x))
  else if op =? Op.SHL then if between 0 a 63 then Some (s64 (Z.shiftl x a)) else None
  else if op =? Op.SHR then if between 0 a 63 then Some (Z.shiftr x a) else None
  else if op =? Op.ADD then Some (s64 (x + a))
  else if op =? Op.SUB then Some (s64 (x - a))
  else if op =? Op.MUL then Some (s64 (x * a))
  else if op =? Op.DIV then
    if (a =? 0) || ((x =? - 2 ^ 63) && (a =? -1)) then None else Some (Z.quot x a)
  else if op =? Op.MOD then
    if (a =? 0) || ((x =? - 2 ^ 63) && (a =? -1)) then None else Some (Z.rem x a)
  else None.

Definition is_alu (op : Z) : bool := between Op.OR op Op.MOD.

(** Byte swaps of a little-endian machine. *)
Definition ntohl (x : Z) : Z := le_val (rev (le_bytes 4 x)).
Definition ntohs (x : Z) : Z := le_val (rev (le_bytes 2 x)).

(** The difference of the first bytes that differ, up to [n] bytes or a NUL. *)
Fixpoint strncmp_loop (fuel : nat) (m : gmap Z Z) (a b n : Z) : option Z :=
  match fuel with
  | O => None
  | S fuel =>
      if n =? 0 then Some 0
      else
        x ← m !! a; y ← m !! b;
        if negb (x =? y) then Some (x - y)
        else if x =? 0 then Some 0
        else strncmp_loop fuel m (a + 1) (b + 1) (n - 1)
  end.
Definition strncmp (m : gmap Z Z) (a b n : Z) : option Z :=
  strncmp_loop (S (stdpp.base.size m)) m (u64 a) (u64 b) (u64 n).

(** [pc] is the index of the next word of [prog->insn], [sp] and [bp] of words of
    [stack]. *)
Record vm := Vm { pc : Z; sp : Z; bp : Z; acc : Z; stack : list Z; vmem : gmap Z Z }.

Definition look (l : list Z) (i : Z) : option Z := if i <? 0 then None else l !! Z.to_nat i.

Section run.
(** [printf] on its format and six words, [ksymbol] on an address; the code's and
    the stack's addresses. *)
Context (printf : gmap Z Z -> list Z -> Z) (ksymbol : Z -> Z).
Context (insns : list Z) (base stack_at : Z).

(** [pc = (long * )t] *)
Definition jump (t : Z) : option Z :=
  if (t - base) mod 8 =? 0 then Some ((t - base) / 8) else None.

Definition top (s : vm) : option Z := look (stack s) (sp s).
Definition push (x : Z) (s : vm) : option vm :=
  _ ← look (stack s) (sp s - 1);
  Some (Vm (pc s) (sp s - 1) (bp s) (acc s) (<[Z.to_nat (sp s - 1) := x]> (stack s)) (vmem s)).

Definition set_pc (p : Z) (s : vm) : vm := Vm p (sp s) (bp s) (acc s) (stack s) (vmem s).
Definition set_acc (a : Z) (s : vm) : vm := Vm (pc s) (sp s) (bp s) a (stack s) (vmem s).
Definition set_sp (p : Z) (s : vm) : vm := Vm (pc s) p (bp s) (acc s) (stack s) (vmem s).
Definition set_vmem (m : gmap Z Z) (s : vm) : vm := Vm (pc s) (sp s) (bp s) (acc s) (stack s) m.

(** [*pc++] *)
Definition operand (s : vm) : option (Z * vm) :=
  x ← look insns (pc s); Some (x, set_pc (pc s + 1) s).

(** [t[-k]] where [t = sp + pc[1]]. *)
Definition arg (s : vm) (k : Z) : option Z :=
  n ← look insns (pc s + 1); look (stack s) (sp s + n - k).

Definition lib (i : Z) (s : vm) : option Z :=
  if i =? Op.PRTF then
    ws ← mapM (arg s) [1; 2; 3; 4; 5; 6; 7]; Some (printf (vmem s) ws)
  else if i =? Op.KSYM then x ← top s; Some (ksymbol x)
  else if i =? Op.NTHL then x ← top s; Some (s32 (ntohl (u32 x)))
  else if i =? Op.NTHS then x ← top s; Some (s16 (ntohs (u16 x)))
  else
    a ← arg s 1; b ← arg s 2; n ← arg s 3; strncmp (vmem s) a b n.

(** One instruction; [inr] is the value [expr_run] returns. *)
Definition vm_step (s : vm) : option (vm + Z) :=
  '(i, s) ← operand s;
  if i =? Op.LEA then
    '(n, s) ← operand s; Some (inl (set_acc (s64 (stack_at + 8 * (bp s + n))) s))
  else if i =? Op.IMM then '(n, s) ← operand s; Some (inl (set_acc n s))
  else if i =? Op.JMP then
    '(t, s) ← operand s; t ← jump t; Some (inl (set_pc t s))
  else if i =? Op.JSR then
    s ← push (base + 8 * (pc s + 1)) s;
    '(t, s) ← operand s; t ← jump t; Some (inl (set_pc t s))
  else if i =? Op.BZ then
    '(t, s) ← operand s;
    if acc s =? 0 then t ← jump t; Some (inl (set_pc t s)) else Some (inl s)
  else if i =? Op.BNZ then
    '(t, s) ← operand s;
    if acc s =? 0 then Some (inl s) else t ← jump t; Some (inl (set_pc t s))
  else if i =? Op.ENT then
    s ← push (stack_at + 8 * bp s) s;
    '(n, s) ← operand s;
    Some (inl (Vm (pc s) (sp s - n) (sp s) (acc s) (stack s) (vmem s)))
  else if i =? Op.ADJ then '(n, s) ← operand s; Some (inl (set_sp (sp s + n) s))
  else if i =? Op.LI then
    '(n, s) ← operand s;
    if width n then v ← load n (acc s) (vmem s); Some (inl (set_acc v s)) else Some (inr (-1))
  else if i =? Op.SI then
    '(n, s) ← operand s;
    if width n then
      a ← top s; m ← store n a (acc s) (vmem s);
      Some (inl (set_vmem m (set_sp (sp s + 1) s)))
    else Some (inr (-1))
  else if i =? Op.LEV then
    b ← look (stack s) (bp s); t ← look (stack s) (bp s + 1);
    b ← (if (b - stack_at) mod 8 =? 0 then Some ((b - stack_at) / 8) else None);
    p ← jump t;
    Some (inl (Vm p (bp s + 2) b (acc s) (stack s) (vmem s)))
  else if i =? Op.PSH then s ← push (acc s) s; Some (inl s)
  else if is_alu i then
    x ← top s; v ← alu i x (acc s); Some (inl (set_acc v (set_sp (sp s + 1) s)))
  else if between Op.PRTF i Op.STRNCMP then v ← lib i s; Some (inl (set_acc v s))
  else if i =? Op.EXIT then Some (inr (acc s))
  else Some (inr (-1)).

Fixpoint vm_run (fuel : nat) (s : vm) : option (Z * gmap Z Z) :=
  match fuel with
  | O => None
  | S fuel =>
      r ← vm_step s;
      match r with
      | inr v => Some (v, vmem s)
      | inl s => vm_run fuel s
      end
  end.

(** [stack0] is what the 512 words of the stack hold at first. *)
Definition expr_run (stack0 : list Z) (m : gmap Z Z) (fuel : nat) : option (Z * gmap Z Z) :=
  vm_run fuel (Vm 1 512 512 0 stack0 m).
End run.

(** ** Setting the variables *)

(** [memcmp(s->name, name, LEN(s->hash))]: at most as many bytes as the symbol is
    long are compared. *)
Fixpoint find_global (tab : list symbol) (text : list Z) : option symbol :=
  match tab with
  | [] => None
  | y :: tab =>
      match find_global tab text with
      | Some y => Some y
      | None =>
          let n := Z.to_nat (LEN (hash y)) in
          if (token y =? Id) && (class y =? Glo) && bool_decide (take n (name y) = take n (text ++ [0]))
          then Some y else None
      end
  end.

(** The return value and the memory; [None] is a store outside the data. *)
Definition expr_load_glo (p : expr_prog) (text : list Z) (v : Z) : option (Z * expr_prog) :=
  match find_global (prog_symtab p) text with
  | None => Some (-1, p)
  | Some y =>
      if between CHAR (type y) LONG then
        m ← store (size_of (type y)) (value y) v (prog_mem p);
        Some (0, ExprProg (prog_symtab p) (prog_data p) (datasize p) (insn p) (insn_base p) m)
      else Some (-1, p)
  end.

(** [d] is what the caller copies; one byte after it is cleared. *)
Definition expr_load_data (p : expr_prog) (d : list Z) : option (Z * expr_prog) :=
  if datasize p <? Z.of_nat (length d) then Some (-1, p)
  else
    m ← store_bytes (d ++ [0]) (prog_data p) (prog_mem p);
    Some (0, ExprProg (prog_symtab p) (prog_data p) (datasize p) (insn p) (insn_base p) m).
