(* ===== verification/ExprSem.v ===== *)
(** * What an expression means (expr.c)

    The syntax trees of the expressions the compiler accepts, their meaning and
    the code of each.  A tree says what is parenthesised, so that a text has one
    tree.  The meaning is that of the compiled code where it differs from C's: the
    value of an assignment is not narrowed to the variable's type, and [||] gives
    its left operand when that is not zero. *)

From S2P Require Import Prelude Bytes Expr.

(** ** Syntax *)

Inductive binop := BOr | BXor | BAnd | BEq | BNe | BLt | BGt | BLe | BGe | BShl | BShr | BMul | BDiv | BMod.

(** Variables and functions are indices of the symbol table; a type is an index of a
    keyword and a number of stars. *)
Inductive ex :=
  | EInt (n : Z)
  | ENegInt (n : Z)
  | EStr (a : Z)
  | ESizeof (k stars : nat)
  | EVar (k : nat)
  | ECall (k : nat) (es : exs)
  | EParen (e : ex)
  | ECast (k stars : nat) (e : ex)
  | EDeref (e : ex)
  | EAddr (e : ex)
  | ENot (e : ex)
  | EBnot (e : ex)
  | EPos (e : ex)
  | ENeg (e : ex)
  | EPre (inc : bool) (e : ex)
  | EPost (inc : bool) (e : ex)
  | EAssign (l r : ex)
  | ECond (a b c : ex)
  | ELor (a b : ex)
  | ELan (a b : ex)
  | EBin (o : binop) (a b : ex)
  | EAdd (a b : ex)
  | ESub (a b : ex)
  | EIndex (a b : ex)
with exs :=
  | ENil
  | ECons (e : ex) (es : exs).

Scheme ex_mut := Induction for ex Sort Prop
  with exs_mut := Induction for exs Sort Prop.
Combined Scheme ex_exs_ind from ex_mut, exs_mut.

Fixpoint nr_args (es : exs) : nat :=
  match es with ENil => 0 | ECons _ es => S (nr_args es) end.

(** The token, the level of the right operand and the instruction. *)
Definition tok_of (o : binop) : Z :=
  match o with
  | BOr => Or | BXor => Xor | BAnd => And | BEq => Eq | BNe => Ne | BLt => Lt | BGt => Gt
  | BLe => Le | BGe => Ge | BShl => Shl | BShr => Shr | BMul => Mul | BDiv => Div | BMod => Mod
  end.
Definition right_of (o : binop) : Z :=
  match o with
  | BOr => Xor | BXor => And | BAnd => Eq | BEq | BNe => Lt | BLt | BGt | BLe | BGe => Shl
  | BShl | BShr => Add | BMul | BDiv | BMod => Inc
  end.
Definition op_of (o : binop) : Z :=
  match o with
  | BOr => Op.OR | BXor => Op.XOR | BAnd => Op.AND | BEq => Op.EQ | BNe => Op.NE | BLt => Op.LT
  | BGt => Op.GT | BLe => Op.LE | BGe => Op.GE | BShl => Op.SHL | BShr => Op.SHR | BMul => Op.MUL
  | BDiv => Op.DIV | BMod => Op.MOD
  end.

Section semantics.
Context (tab : list symbol).

(** ** Types *)

Definition sym_type (k : nat) : Z := default 0 (type <$> tab !! k).
Definition decl_type (k stars : nat) : Z := sym_type k + PTR * Z.of_nat stars.

Definition var_type (y : symbol) : Z :=
  if class y =? Num then INT else if is_array (type y) then decay (type y) else type y.

Fixpoint typ (e : ex) : Z :=
  match e with
  | EInt _ | ENegInt _ | ESizeof _ _ | ENot _ | EBnot _ | EPos _ | ENeg _ => INT
  | EStr _ => PTR
  | EVar k => default 0 (var_type <$> tab !! k)
  | ECall k _ => sym_type k
  | EParen e => typ e
  | ECast k stars _ => decl_type k stars
  | EDeref e => typ e - PTR
  | EAddr e => typ e + PTR
  | EPre _ e | EPost _ e => typ e
  | EAssign l _ => typ l
  | ECond _ _ c => typ c
  | ELor _ _ | ELan _ _ | EBin _ _ _ => INT
  | EAdd a _ => typ a
  | ESub a b => if (PTR <? typ a) && (typ a =? typ b) then INT else typ a
  | EIndex a _ => typ a - PTR
  end.

(** ** Meaning *)

(** An object of [sz] bytes at [a], or a value. *)
Inductive res := LV (sz a : Z) | RV (v : Z).

Definition load_w (sz a : Z) (m : gmap Z Z) : option Z := if width sz then load sz a m else None.
Definition store_w (sz a v : Z) (m : gmap Z Z) : option (gmap Z Z) :=
  if width sz then store sz a v m else None.

Definition rval (r : res) (m : gmap Z Z) : option Z :=
  match r with LV sz a => load_w sz a m | RV v => Some v end.

Section eval.
(** What [printf] answers to the arguments it is given, if they are enough, and [ksymbol]. *)
Context (printf_args : gmap Z Z -> list Z -> option Z) (ksymbol : Z -> Z).

(** A library function on its arguments. *)
Definition lib_call (op : Z) (vs : list Z) (m : gmap Z Z) : option Z :=
  if op =? Op.PRTF then match vs with [] => None | _ => printf_args m (take 7 vs) end
  else if op =? Op.KSYM then x ← last vs; Some (ksymbol x)
  else if op =? Op.NTHL then x ← last vs; Some (s32 (ntohl (u32 x)))
  else if op =? Op.NTHS then x ← last vs; Some (s16 (ntohs (u16 x)))
  else if op =? Op.STRNCMP then
    match vs with a :: b :: n :: _ => strncmp m a b n | _ => None end
  else None.

Definition incr (up : bool) (t v : Z) : Z := s64 (if up then v + step_of t else v - step_of t).

(** The index as a distance in bytes from a pointer of type [t]. *)
Definition scale_by (t v : Z) : Z := if PTR <? t then s64 (v * scale t) else v.

(** Left to right, the memory passed along; [None] is a fault. *)
Fixpoint eval (e : ex) (m : gmap Z Z) : option (res * gmap Z Z) :=
  let ev e m := '(r, m) ← eval e m; v ← rval r m; Some (v, m) in
  match e with
  | EInt n => Some (RV n, m)
  | ENegInt n => Some (RV (s64 (- n)), m)
  | EStr a => Some (RV a, m)
  | ESizeof k stars => Some (RV (size_of (decl_type k stars)), m)
  | EVar k =>
      y ← tab !! k;
      if (class y =? Num) || is_array (type y) then Some (RV (value y), m)
      else Some (LV (size_of (type y)) (value y), m)
  | ECall k es =>
      y ← tab !! k; '(vs, m) ← evals es m; v ← lib_call (value y) vs m; Some (RV v, m)
  | EParen e | ECast _ _ e => eval e m
  | EDeref e => '(v, m) ← ev e m; Some (LV (size_of (typ e - PTR)) v, m)
  | EAddr e => '(r, m) ← eval e m; match r with LV _ a => Some (RV a, m) | RV _ => None end
  | ENot e => '(v, m) ← ev e m; Some (RV (flag (v =? 0)), m)
  | EBnot e => '(v, m) ← ev e m; Some (RV (Z.lxor v (-1)), m)
  | EPos e => '(v, m) ← ev e m; Some (RV v, m)
  | ENeg e => '(v, m) ← ev e m; Some (RV (s64 (-1 * v)), m)
  | EPre up e =>
      '(r, m) ← eval e m;
      match r with
      | LV sz a =>
          v ← load_w sz a m;
          let v := incr up (typ e) v in
          m ← store_w (size_of (typ e)) a v m; Some (RV v, m)
      | RV _ => None
      end
  | EPost up e =>
      '(r, m) ← eval e m;
      match r with
      | LV sz a =>
          v ← load_w sz a m;
          let v := incr up (typ e) v in
          m ← store_w (size_of (typ e)) a v m; Some (RV (incr (negb up) (typ e) v), m)
      | RV _ => None
      end
  | EAssign l r =>
      '(x, m) ← eval l m;
      match x with
      | LV _ a => '(v, m) ← ev r m; m ← store_w (size_of (typ l)) a v m; Some (RV v, m)
      | RV _ => None
      end
  | ECond a b c =>
      '(v, m) ← ev a m;
      '(v, m) ← (if v =? 0 then ev c m else ev b m); Some (RV v, m)
  | ELor a b => '(v, m) ← ev a m; if v =? 0 then '(v, m) ← ev b m; Some (RV v, m) else Some (RV v, m)
  | ELan a b => '(v, m) ← ev a m; if v =? 0 then Some (RV v, m) else '(v, m) ← ev b m; Some (RV v, m)
  | EBin o a b =>
      '(x, m) ← ev a m; '(y, m) ← ev b m; v ← alu (op_of o) x y; Some (RV v, m)
  | EAdd a b =>
      '(x, m) ← ev a m; '(y, m) ← ev b m; Some (RV (s64 (x + scale_by (typ a) y)), m)
  | ESub a b =>
      '(x, m) ← ev a m; '(y, m) ← ev b m;
      if (PTR <? typ a) && (typ a =? typ b) then
        v ← alu Op.DIV (s64 (x - y)) (scale (typ a)); Some (RV v, m)
      else Some (RV (s64 (x - scale_by (typ a) y)), m)
  | EIndex a b =>
      '(x, m) ← ev a m; '(y, m) ← ev b m;
      Some (LV (size_of (typ a - PTR)) (s64 (x + scale_by (typ a) y)), m)
  end
with evals (es : exs) (m : gmap Z Z) : option (list Z * gmap Z Z) :=
  match es with
  | ENil => Some ([], m)
  | ECons e es =>
      '(r, m) ← eval e m; v ← rval r m; '(vs, m) ← evals es m; Some (v :: vs, m)
  end.

Definition ev (e : ex) (m : gmap Z Z) : option (Z * gmap Z Z) :=
  '(r, m) ← eval e m; v ← rval r m; Some (v, m).
End eval.

(** ** Code *)

(** Code that ends with a load of an object is kept apart from the load. *)
Definition flat (g : list Z * option Z) : list Z :=
  match g with (c, Some sz) => c ++ [Op.LI; sz] | (c, None) => c end.

Section gen.
(** Where the code is. *)
Context (le : Z).

(** The address of the word after [n] words of code. *)
Definition addr (n : nat) : Z := le + 8 * (Z.of_nat n + 1).

Definition scaling (t : Z) : list Z := if PTR <? t then [Op.PSH; Op.IMM; scale t; Op.MUL] else [].

Definition updown (up : bool) : Z := if up then Op.ADD else Op.SUB.

(** The code of [e] after [n] words; [None] when the compiler refuses [e]. *)
Fixpoint gen (n : nat) (e : ex) : option (list Z * option Z) :=
  let gf n e := flat <$> gen n e in
  match e with
  | EInt v => Some ([Op.IMM; v], None)
  | ENegInt v => Some ([Op.IMM; s64 (- v)], None)
  | EStr a => Some ([Op.IMM; a], None)
  | ESizeof k stars => Some ([Op.IMM; size_of (decl_type k stars)], None)
  | EVar k =>
      y ← tab !! k;
      if class y =? Num then Some ([Op.IMM; value y], None)
      else if class y =? Glo then
        Some ([Op.IMM; value y], if is_array (type y) then None else Some (size_of (type y)))
      else None
  | ECall k es =>
      y ← tab !! k;
      if class y =? Sys then
        c ← gens n es;
        Some (c ++ [value y] ++ (if (nr_args es =? 0)%nat then [] else [Op.ADJ; Z.of_nat (nr_args es)]), None)
      else None
  | EParen e | ECast _ _ e => gen n e
  | EDeref e =>
      c ← gf n e; if PTR <=? typ e then Some (c, Some (size_of (typ e - PTR))) else None
  | EAddr e => g ← gen n e; match g with (c, Some _) => Some (c, None) | _ => None end
  | ENot e => c ← gf n e; Some (c ++ [Op.PSH; Op.IMM; 0; Op.EQ], None)
  | EBnot e => c ← gf n e; Some (c ++ [Op.PSH; Op.IMM; -1; Op.XOR], None)
  | EPos e => c ← gf n e; Some (c, None)
  | ENeg e => c ← gf (n + 3)%nat e; Some ([Op.IMM; -1; Op.PSH] ++ c ++ [Op.MUL], None)
  | EPre up e =>
      g ← gen n e;
      match g with
      | (c, Some sz) =>
          Some (c ++ [Op.PSH; Op.LI; sz; Op.PSH; Op.IMM; step_of (typ e); updown up;
                      Op.SI; size_of (typ e)], None)
      | _ => None
      end
  | EPost up e =>
      g ← gen n e;
      match g with
      | (c, Some sz) =>
          Some (c ++ [Op.PSH; Op.LI; sz; Op.PSH; Op.IMM; step_of (typ e); updown up;
                      Op.SI; size_of (typ e); Op.PSH; Op.IMM; step_of (typ e); updown (negb up)], None)
      | _ => None
      end
  | EAssign l r =>
      g ← gen n l;
      match g with
      | (c, Some _) =>
          d ← gf (n + length c + 1)%nat r; Some (c ++ [Op.PSH] ++ d ++ [Op.SI; size_of (typ l)], None)
      | _ => None
      end
  | ECond a b c =>
      ca ← gf n a;
      let nb := (n + length ca + 2)%nat in
      cb ← gf nb b;
      let nc := (nb + length cb + 2)%nat in
      cc ← gf nc c;
      Some (ca ++ [Op.BZ; addr nc] ++ cb ++ [Op.JMP; addr (nc + length cc)] ++ cc, None)
  | ELor a b =>
      ca ← gf n a; let nb := (n + length ca + 2)%nat in
      cb ← gf nb b; Some (ca ++ [Op.BNZ; addr (nb + length cb)] ++ cb, None)
  | ELan a b =>
      ca ← gf n a; let nb := (n + length ca + 2)%nat in
      cb ← gf nb b; Some (ca ++ [Op.BZ; addr (nb + length cb)] ++ cb, None)
  | EBin o a b =>
      ca ← gf n a; cb ← gf (n + length ca + 1)%nat b; Some (ca ++ [Op.PSH] ++ cb ++ [op_of o], None)
  | EAdd a b =>
      ca ← gf n a; cb ← gf (n + length ca + 1)%nat b;
      Some (ca ++ [Op.PSH] ++ cb ++ scaling (typ a) ++ [Op.ADD], None)
  | ESub a b =>
      ca ← gf n a; cb ← gf (n + length ca + 1)%nat b;
      if (PTR <? typ a) && (typ a =? typ b) then
        Some (ca ++ [Op.PSH] ++ cb ++ [Op.SUB; Op.PSH; Op.IMM; scale (typ a); Op.DIV], None)
      else Some (ca ++ [Op.PSH] ++ cb ++ scaling (typ a) ++ [Op.SUB], None)
  | EIndex a b =>
      ca ← gf n a; cb ← gf (n + length ca + 1)%nat b;
      if PTR <=? typ a then
        Some (ca ++ [Op.PSH] ++ cb ++ scaling (typ a) ++ [Op.ADD], Some (size_of (typ a - PTR)))
      else None
  end
with gens (n : nat) (es : exs) : option (list Z) :=
  match es with
  | ENil => Some []
  | ECons e es =>
      g ← gen n e;
      let c := flat g ++ [Op.PSH] in
      d ← gens (n + length c)%nat es; Some (c ++ d)
  end.
End gen.

(** The words pushed at once; [printf] looks at seven. *)
Fixpoint depth (e : ex) : nat :=
  match e with
  | EInt _ | ENegInt _ | EStr _ | ESizeof _ _ | EVar _ => 0
  | ECall _ es => depths es `max` 7
  | EParen e | ECast _ _ e | EDeref e | EAddr e | EPos e => depth e
  | ENot e | EBnot e => depth e `max` 1
  | ENeg e => S (depth e)
  | EPre _ e | EPost _ e => depth e `max` 2
  | EAssign l r => depth l `max` S (depth r)
  | ECond a b c => depth a `max` (depth b `max` depth c)
  | ELor a b | ELan a b => depth a `max` depth b
  | EBin _ a b => depth a `max` S (depth b)
  | EAdd a b | ESub a b | EIndex a b => depth a `max` (S (depth b) `max` 2)
  end
with depths (es : exs) : nat :=
  match es with ENil => 0 | ECons e es => depth e `max` S (depths es) end.
End semantics.
