(* ===== verification/ExprVm.v ===== *)
(** * The code of an expression computes its meaning (expr.c)

    A machine with a stack that is a list, refined by [vm_step], and the
    correctness of [gen] on it. *)

From stdpp Require Import relations.
From S2P Require Import Prelude Bytes Expr ExprSem.

(** ** The machine on lists

    A configuration is the index of the next word, the stack from its top, [a] and
    the memory. *)
Definition conf : Type := nat * list Z * Z * gmap Z Z.

Section machine.
Context (printf_args : gmap Z Z -> list Z -> option Z) (ksymbol : Z -> Z).
Context (insns : list Z) (base : Z).

Definition code_at (p : nat) (l : list Z) : Prop :=
  forall i x, l !! i = Some x -> insns !! (p + i)%nat = Some x.

Definition word (p : nat) (x : Z) : Prop := insns !! p = Some x.

Lemma code_at_app p l1 l2 : code_at p (l1 ++ l2) <-> code_at p l1 /\ code_at (p + length l1) l2.
Proof.
  unfold code_at. split.
  - intros H. split; intros i x Hi.
    + apply H. by apply lookup_app_l_Some.
    + rewrite <- Nat.add_assoc. apply H. rewrite lookup_app_r by lia. rewrite <- Hi. f_equal. lia.
  - intros [H1 H2] i x Hi. apply lookup_app_Some in Hi as [Hi|[Hle Hi]]; [by apply H1|].
    apply H2 in Hi. rewrite <- Hi. f_equal. lia.
Qed.

Lemma code_at_cons p x l : code_at p (x :: l) <-> word p x /\ code_at (S p) l.
Proof.
  unfold code_at, word. split.
  - intros H. split; [rewrite <- (Nat.add_0_r p); by apply H|].
    intros i y Hi. rewrite Nat.add_succ_comm. by apply H.
  - intros [H1 H2] [|i] y Hi; [rewrite Nat.add_0_r; by simplify_eq/=|].
    rewrite <- Nat.add_succ_comm. by apply H2.
Qed.

Lemma code_at_nil p : code_at p [].
Proof. intros i x Hi. by rewrite lookup_nil in Hi. Qed.

Lemma code_at_cons_2 p x l : word p x -> code_at (S p) l -> code_at p (x :: l).
Proof. intros. by apply code_at_cons. Qed.

Inductive astep : conf -> conf -> Prop :=
  | a_imm p st a m v : code_at p [Op.IMM; v] -> astep (p, st, a, m) ((p + 2)%nat, st, v, m)
  | a_psh p st a m : code_at p [Op.PSH] -> (length st < 512)%nat ->
      astep (p, st, a, m) ((p + 1)%nat, a :: st, a, m)
  | a_li p st a m sz v : code_at p [Op.LI; sz] -> load_w sz a m = Some v ->
      astep (p, st, a, m) ((p + 2)%nat, st, v, m)
  | a_si p st x a m sz m' : code_at p [Op.SI; sz] -> store_w sz x a m = Some m' ->
      astep (p, x :: st, a, m) ((p + 2)%nat, st, a, m')
  | a_alu p st x a m op v : code_at p [op] -> is_alu op = true -> alu op x a = Some v ->
      astep (p, x :: st, a, m) ((p + 1)%nat, st, v, m)
  | a_jmp p st a m t q : code_at p [Op.JMP; t] -> jump base t = Some (Z.of_nat q) ->
      astep (p, st, a, m) (q, st, a, m)
  | a_bz_next p st a m t : code_at p [Op.BZ; t] -> a <> 0 -> astep (p, st, a, m) ((p + 2)%nat, st, a, m)
  | a_bz_jump p st m t q : code_at p [Op.BZ; t] -> jump base t = Some (Z.of_nat q) ->
      astep (p, st, 0, m) (q, st, 0, m)
  | a_bnz_next p st m t : code_at p [Op.BNZ; t] -> astep (p, st, 0, m) ((p + 2)%nat, st, 0, m)
  | a_bnz_jump p st a m t q : code_at p [Op.BNZ; t] -> a <> 0 -> jump base t = Some (Z.of_nat q) ->
      astep (p, st, a, m) (q, st, a, m)
  | a_lib p st a m op vs v : code_at p [op; Op.ADJ; Z.of_nat (length vs)] ->
      vs <> [] -> (length st + 7 <= 512)%nat -> lib_call printf_args ksymbol op vs m = Some v ->
      astep (p, rev vs ++ st, a, m) ((p + 1)%nat, rev vs ++ st, v, m)
  | a_adj p st xs a m : code_at p [Op.ADJ; Z.of_nat (length xs)] ->
      astep (p, xs ++ st, a, m) ((p + 2)%nat, st, a, m).

Definition runs : conf -> conf -> Prop := rtc astep.

Lemma runs_step c1 c2 c3 : astep c1 c2 -> runs c2 c3 -> runs c1 c3.
Proof. apply rtc_l. Qed.

Lemma runs_trans c1 c2 c3 : runs c1 c2 -> runs c2 c3 -> runs c1 c3.
Proof. intros ??. by etrans. Qed.

Lemma runs_refl p q st a m : p = q -> runs (p, st, a, m) (q, st, a, m).
Proof. intros ->. apply rtc_refl. Qed.

Lemma runs_at p q st a m c : p = q -> runs (p, st, a, m) c -> runs (q, st, a, m) c.
Proof. by intros ->. Qed.

(** ** The code of an expression *)

Definition value_of (r : res) : Z := match r with LV _ a => a | RV v => v end.

(** A load is the code's when the expression is an object's. *)
Definition kind_ok (ld : option Z) (r : res) : Prop :=
  match ld, r with Some sz, LV sz' _ => sz = sz' | None, RV _ => True | _, _ => False end.

Context (tab : list symbol).
Local Abbreviation gen := (gen tab base).
Local Abbreviation gens := (gens tab base).
Local Abbreviation eval := (eval tab printf_args ksymbol).
Local Abbreviation evals := (evals tab printf_args ksymbol).

Definition gen_ok (e : ex) : Prop := forall n c ld m r m' st a,
  gen n e = Some (c, ld) -> code_at (S n) c -> eval e m = Some (r, m') ->
  (length st + depth e <= 512)%nat ->
  runs (S n, st, a, m) ((S n + length c)%nat, st, value_of r, m') /\ kind_ok ld r.

Definition gens_ok (es : exs) : Prop := forall n c m vs m' st a,
  gens n es = Some c -> code_at (S n) c -> evals es m = Some (vs, m') ->
  (length st + depths es <= 512)%nat ->
  length vs = nr_args es /\
  exists a', runs (S n, st, a, m) ((S n + length c)%nat, rev vs ++ st, a', m').

(** With the load, the value. *)
Lemma flat_ok e n c m v m' st a :
  gen_ok e -> flat <$> gen n e = Some c -> code_at (S n) c ->
  ('(r, m) ← eval e m; v ← rval r m; Some (v, m)) = Some (v, m') ->
  (length st + depth e <= 512)%nat ->
  runs (S n, st, a, m) ((S n + length c)%nat, st, v, m').
Proof.
  intros IH (g & Hg & ->)%fmap_Some Hc H Hd. apply bind_Some in H as ([r m1] & He & H).
  apply bind_Some in H as (v1 & Hv & H). simplify_eq. destruct g as [c [sz|]]; cbn [flat] in *.
  - apply code_at_app in Hc as [Hc1 Hc2].
    destruct (IH _ _ _ _ _ _ st a Hg Hc1 He Hd) as [Hr Hk].
    destruct r as [sz' b|b]; [|done]. cbn in Hk, Hv. subst sz'.
    eapply runs_trans; [exact Hr|]. eapply runs_step; [by eapply a_li|].
    apply runs_refl. rewrite length_app. cbn. lia.
  - destruct (IH _ _ _ _ _ _ st a Hg Hc He Hd) as [Hr Hk].
    destruct r as [sz' b|b]; [done|]. cbn in Hv. by simplify_eq.
Qed.

Lemma jump_addr n : jump base (addr base n) = Some (Z.of_nat (S n)).
Proof.
  unfold jump, addr. replace (base + 8 * (Z.of_nat n + 1) - base) with (Z.of_nat (S n) * 8) by lia.
  by rewrite Z.mod_mul, Z.div_mul by lia.
Qed.

(** Words of the program. *)
Ltac cells :=
  repeat match goal with
  | H : code_at _ (_ ++ _) |- _ => let H' := fresh in apply code_at_app in H as [H' H]
  | H : code_at _ (_ :: _) |- _ => let H' := fresh in apply code_at_cons in H as [H' H]
  | H : code_at _ [] |- _ => clear H
  end.
Ltac lens := rewrite ?length_app in *; cbn [length app] in *; lia.
Ltac here :=
  repeat match goal with |- code_at _ (_ :: _) => apply code_at_cons_2 end;
  try match goal with |- code_at _ [] => apply code_at_nil end;
  match goal with
  | H : word ?p _ |- word ?q _ => replace q with p by lens; exact H
  end.
(** One step; what remains is not about the words. *)
Ltac step rule := eapply runs_step; [eapply rule; try solve [here]|].
(** Run the code of a subexpression. *)
Ltac code_here :=
  match goal with H : code_at ?p ?l |- code_at ?q ?l => replace q with p by lens; exact H end.
Ltac sub IH :=
  eapply runs_trans; [eapply runs_at; [|eapply (flat_ok _ _ _ _ _ _ _ _ IH); [eassumption|code_here|eassumption|lens]]; lens|].
Ltac finish := apply runs_refl; lens.
Ltac parts H :=
  repeat match type of H with
  | mbind _ _ = Some _ =>
      let x := fresh "x" in let E := fresh "E" in apply bind_Some in H as (x & E & H);
      cbn beta iota zeta in H; try (match type of x with (_ * _)%type => destruct x as [? ?] end); cbn beta iota zeta in H
  end.

Lemma gen_leaf_ok e :
  match e with EInt _ | ENegInt _ | EStr _ | ESizeof _ _ => True | _ => False end -> gen_ok e.
Proof.
  intros Hl n c ld m r m' st a Hg Hc He Hd. destruct e; try done; cbn [ExprSem.gen ExprSem.eval] in *;
    simplify_eq; cells; (split; [step a_imm; finish|done]).
Qed.

Lemma gen_var_ok k : gen_ok (EVar k).
Proof.
  intros n c ld m r m' st a Hg Hc He Hd. cbn [ExprSem.gen ExprSem.eval] in *.
  destruct (tab !! k) as [y|]; [|done]. cbn [mbind option_bind] in *.
  destruct (class y =? Num); [|destruct (class y =? Glo); [|done]; destruct (is_array (type y))];
    cbn [orb] in *; simplify_eq; cells; (split; [step a_imm; finish|done]).
Qed.

Lemma gen_bin_ok o a b : gen_ok a -> gen_ok b -> gen_ok (EBin o a b).
Proof.
  intros IHa IHb n c ld m r m' st a0 Hg Hc He Hd. cbn [ExprSem.gen ExprSem.eval depth] in *.
  parts Hg. parts He. simplify_eq. cells. split; [|done].
  sub IHa. step a_psh; [lens|]. sub IHb. step a_alu; [by destruct o|eassumption|]. cbn [value_of].
  finish.
Qed.

Lemma gen_add_ok a b : gen_ok a -> gen_ok b -> gen_ok (EAdd a b).
Proof.
  intros IHa IHb n c ld m r m' st a0 Hg Hc He Hd. cbn [ExprSem.gen ExprSem.eval depth] in *.
  parts Hg. parts He. simplify_eq. unfold scaling, scale_by in *. cells. split; [|done].
  sub IHa. step a_psh; [lens|]. sub IHb. destruct (PTR <? typ tab a); cells.
  - step a_psh; [lens|]. step a_imm. step a_alu; [done|reflexivity|].
    step a_alu; [done|reflexivity|]. finish.
  - step a_alu; [done|reflexivity|]. finish.
Qed.

Lemma gen_sub_ok a b : gen_ok a -> gen_ok b -> gen_ok (ESub a b).
Proof.
  intros IHa IHb n c ld m r m' st a0 Hg Hc He Hd. cbn [ExprSem.gen ExprSem.eval depth] in *.
  parts Hg. parts He. unfold scaling, scale_by in *.
  destruct ((PTR <? typ tab a) && (typ tab a =? typ tab b)); [parts He|]; simplify_eq; cells;
    (split; [|done]); sub IHa; (step a_psh; [lens|]); sub IHb.
  - step a_alu; [done|reflexivity|]. step a_psh; [lens|]. step a_imm.
    step a_alu; [done|eassumption|]. finish.
  - destruct (PTR <? typ tab a); cells.
    + step a_psh; [lens|]. step a_imm. step a_alu; [done|reflexivity|].
      step a_alu; [done|reflexivity|]. finish.
    + step a_alu; [done|reflexivity|]. finish.
Qed.

Lemma gen_index_ok a b : gen_ok a -> gen_ok b -> gen_ok (EIndex a b).
Proof.
  intros IHa IHb n c ld m r m' st a0 Hg Hc He Hd. cbn [ExprSem.gen ExprSem.eval depth] in *.
  parts Hg. parts He. unfold scaling, scale_by in *.
  destruct (PTR <=? typ tab a); [|done]. simplify_eq. cells. split; [|done].
  sub IHa. step a_psh; [lens|]. sub IHb. destruct (PTR <? typ tab a); cells.
  - step a_psh; [lens|]. step a_imm. step a_alu; [done|reflexivity|].
    step a_alu; [done|reflexivity|]. finish.
  - step a_alu; [done|reflexivity|]. finish.
Qed.

(** The prefix operators on a value. *)
Lemma gen_prefix_ok e :
  gen_ok e -> gen_ok (ENot e) /\ gen_ok (EBnot e) /\ gen_ok (EPos e) /\ gen_ok (ENeg e).
Proof.
  intros IH. split; [|split; [|split]]; intros n c ld m r m' st a0 Hg Hc He Hd;
    cbn [ExprSem.gen ExprSem.eval depth] in *; parts Hg; parts He; simplify_eq; cells; (split; [|done]).
  - sub IH. step a_psh; [lens|]. step a_imm. step a_alu; [done|reflexivity|]. finish.
  - sub IH. step a_psh; [lens|]. step a_imm. step a_alu; [done|reflexivity|]. finish.
  - sub IH. finish.
  - step a_imm. step a_psh; [lens|]. sub IH. step a_alu; [done|reflexivity|]. finish.
Qed.

Lemma gen_deref_ok e : gen_ok e -> gen_ok (EDeref e).
Proof.
  intros IH n c ld m r m' st a0 Hg Hc He Hd. cbn [ExprSem.gen ExprSem.eval depth] in *.
  parts Hg. parts He. destruct (PTR <=? typ tab e); [|done]. simplify_eq. split; [|done].
  sub IH. finish.
Qed.

(** An object's address is what its code leaves before the load. *)
Lemma object_ok e n c sz m r m' st a :
  gen_ok e -> gen n e = Some (c, Some sz) -> code_at (S n) c -> eval e m = Some (r, m') ->
  (length st + depth e <= 512)%nat ->
  exists b, r = LV sz b /\ runs (S n, st, a, m) ((S n + length c)%nat, st, b, m').
Proof.
  intros IH Hg Hc He Hd. destruct (IH _ _ _ _ _ _ st a Hg Hc He Hd) as [Hr Hk].
  destruct r as [sz' b|b]; [|done]. cbn in Hk. subst sz'. by exists b.
Qed.

Lemma gen_addr_ok e : gen_ok e -> gen_ok (EAddr e).
Proof.
  intros IH n c ld m r m' st a0 Hg Hc He Hd. cbn [ExprSem.gen ExprSem.eval depth] in *.
  parts Hg. parts He. destruct o as [sz|]; [|done]. simplify_eq.
  destruct (object_ok e n c sz m r0 g st a0 IH E Hc E0 Hd) as (b & -> & Hr). simplify_eq.
  split; [exact Hr|done].
Qed.

Lemma alu_updown up t v : alu (updown up) v (step_of t) = Some (incr up t v).
Proof. by destruct up. Qed.

Lemma is_alu_updown up : is_alu (updown up) = true.
Proof. by destruct up. Qed.

Lemma gen_incr_ok up e : gen_ok e -> gen_ok (EPre up e) /\ gen_ok (EPost up e).
Proof.
  intros IH. split; intros n c ld m r m' st a0 Hg Hc He Hd;
    cbn [ExprSem.gen ExprSem.eval depth] in *;
    parts Hg; apply bind_Some in He as ([r0 m0] & He0 & He); cbn beta iota zeta in He;
    destruct o as [sz|]; try done; simplify_eq; cells;
    (destruct (object_ok e n l sz m r0 m0 st a0 IH E) as (b & -> & Hr); [done|done|lens|]);
    parts He; simplify_eq; (split; [|done]); (eapply runs_trans; [exact Hr|]);
    (step a_psh; [lens|]); (step a_li; [eassumption|]); (step a_psh; [lens|]); step a_imm;
    (step a_alu; [apply is_alu_updown|apply alu_updown|]); (step a_si; [eassumption|]).
  - finish.
  - step a_psh; [lens|]. step a_imm. step a_alu; [apply is_alu_updown|apply alu_updown|]. finish.
Qed.

Lemma gen_assign_ok l r : gen_ok l -> gen_ok r -> gen_ok (EAssign l r).
Proof.
  intros IHl IHr n c ld m x m' st a0 Hg Hc He Hd. cbn [ExprSem.gen ExprSem.eval depth] in *.
  apply bind_Some in Hg as ([cl [sz|]] & El & Hg); cbn beta iota zeta in Hg; [|done].
  apply bind_Some in He as ([r0 m0] & He0 & He); cbn beta iota zeta in He.
  parts Hg. simplify_eq. cells.
  destruct (object_ok l n cl sz m r0 m0 st a0 IHl El) as (b & -> & Hr); [done|done|lens|].
  parts He. simplify_eq. split; [|done]. eapply runs_trans; [exact Hr|].
  step a_psh; [lens|]. sub IHr. step a_si; [eassumption|]. finish.
Qed.

Lemma gen_cond_ok a b c : gen_ok a -> gen_ok b -> gen_ok c -> gen_ok (ECond a b c).
Proof.
  intros IHa IHb IHc n cd ld m x m' st a0 Hg Hc He Hd. cbn [ExprSem.gen ExprSem.eval depth] in *.
  parts Hg. apply bind_Some in He as ([v m1] & Ea & He). cbn beta iota zeta in He.
  apply bind_Some in He as ([v' m2] & Ebc & He). simplify_eq. cells. split; [|done].
  sub IHa. destruct (Z.eqb_spec v 0) as [->|Hv].
  - step a_bz_jump; [apply jump_addr|]. sub IHc. finish.
  - step a_bz_next; [done|]. sub IHb. step a_jmp; [apply jump_addr|]. finish.
Qed.

Lemma gen_logic_ok a b : gen_ok a -> gen_ok b -> gen_ok (ELor a b) /\ gen_ok (ELan a b).
Proof.
  intros IHa IHb. split; intros n cd ld m x m' st a0 Hg Hc He Hd;
    cbn [ExprSem.gen ExprSem.eval depth] in *; parts Hg;
    apply bind_Some in He as ([v m1] & Ea & He); cbn beta iota zeta in He; simplify_eq; cells;
    (destruct (Z.eqb_spec v 0) as [->|Hv]; parts He; simplify_eq; (split; [|done]); sub IHa).
  - step a_bnz_next. sub IHb. finish.
  - step a_bnz_jump; [done|apply jump_addr|]. finish.
  - step a_bz_jump; [apply jump_addr|]. finish.
  - step a_bz_next; [done|]. sub IHb. finish.
Qed.

Lemma gens_cons n e es : gens n (ECons e es) =
  (g ← gen n e; d ← gens (n + length (flat g ++ [Op.PSH]))%nat es; Some ((flat g ++ [Op.PSH]) ++ d)).
Proof. reflexivity. Qed.

Lemma evals_cons e es m : evals (ECons e es) m =
  ('(r, m) ← eval e m; v ← rval r m; '(vs, m) ← evals es m; Some (v :: vs, m)).
Proof. reflexivity. Qed.

(** Arguments are pushed in order. *)
Lemma gens_cons_ok e es : gen_ok e -> gens_ok es -> gens_ok (ECons e es).
Proof.
  intros IHe IHes n c m vs m' st a Hg Hc He Hd. rewrite gens_cons in Hg. rewrite evals_cons in He. cbn [depths nr_args] in *.
  apply bind_Some in Hg as (g & Eg & Hg). parts Hg. simplify_eq.
  apply bind_Some in He as ([r m1] & Er & He). cbn beta iota zeta in He.
  apply bind_Some in He as (v & Ev & He). apply bind_Some in He as ([vs' m2] & Evs & He).
  simplify_eq. cells.
  assert (flat <$> gen n e = Some (flat g)) as Eg' by exact (f_equal (fmap flat) Eg).
  assert (('(r, m) ← eval e m; v ← rval r m; Some (v, m)) = Some (v, m1)) as Ee.
  { apply bind_Some. exists (r, m1). split; [exact Er|]. apply bind_Some. by exists v. }
  destruct (IHes (n + length (flat g ++ [Op.PSH]))%nat x m1 vs' m' (v :: st) v) as (Hl & a' & Hr);
    [done|code_here|done|lens|].
  split; [lens|]. exists a'. sub IHe. step a_psh; [lens|].
  replace (rev (v :: vs') ++ st) with (rev vs' ++ v :: st) by (cbn; by rewrite <- app_assoc).
  eapply runs_trans; [eapply runs_at; [|exact Hr]; lens|]. finish.
Qed.

(** A library function: its arguments stay on the stack until [ADJ]. *)
Lemma gen_call_ok k es : gens_ok es -> gen_ok (ECall k es).
Proof.
  intros IH n c ld m r m' st a Hg Hc He Hd. cbn [ExprSem.gen ExprSem.eval depth] in *.
  destruct (tab !! k) as [y|]; [|done]. cbn [mbind option_bind] in *.
  destruct (class y =? Sys); [|done].
  apply bind_Some in Hg as (cs & Eg & Hg). simplify_eq.
  apply bind_Some in He as ([vs m1] & Evs & He). cbn beta iota in He.
  apply bind_Some in He as (v & Ev & He). simplify_eq. cells.
  destruct (IH n cs m vs m' st a) as (Hl & a' & Hr); [done|code_here|done|lens|].
  assert (vs <> []) as Hne.
  { intros ->. unfold lib_call in Ev. cbn in Ev. repeat case_match; done. }
  assert ((nr_args es =? 0)%nat = false) as Hz by (apply Nat.eqb_neq; destruct vs; [done|cbn in Hl; lia]).
  rewrite Hz in *. cells. rewrite <- Hl in *. split; [|done].
  eapply runs_trans; [exact Hr|].
  step a_lib; [exact Hne|lens|exact Ev|].
  eapply runs_step; [eapply (a_adj _ st (rev vs)); rewrite length_rev; here|]. finish.
Qed.

Lemma gen_correct : (forall e, gen_ok e) /\ (forall es, gens_ok es).
Proof.
  apply ex_exs_ind; intros; try (by apply gen_leaf_ok); try done.
  - apply gen_var_ok.
  - by apply gen_call_ok.
  - by apply gen_deref_ok.
  - by apply gen_addr_ok.
  - by apply gen_prefix_ok.
  - by apply gen_prefix_ok.
  - by apply gen_prefix_ok.
  - by apply gen_prefix_ok.
  - by apply gen_incr_ok.
  - by apply gen_incr_ok.
  - by apply gen_assign_ok.
  - by apply gen_cond_ok.
  - by apply gen_logic_ok.
  - by apply gen_logic_ok.
  - by apply gen_bin_ok.
  - by apply gen_add_ok.
  - by apply gen_sub_ok.
  - by apply gen_index_ok.
  - intros n c m vs m' st a Hg Hc He Hd. cbn in *. simplify_eq. split; [done|].
    exists a. finish.
  - by apply gens_cons_ok.
Qed.

(** ** The machine of the code refines it *)

Context (printf : gmap Z Z -> list Z -> Z) (stack_at : Z).

(** Given enough arguments, [printf] only looks at these, of the seven words. *)
Context (Hprintf : forall m vs ws v, vs <> [] -> length ws = 7%nat ->
  take (length vs) ws = take 7 vs -> printf_args m (take 7 vs) = Some v -> printf m ws = v).

Local Abbreviation vm_step := (vm_step printf ksymbol insns base stack_at).
Local Abbreviation vm_run := (vm_run printf ksymbol insns base stack_at).

Record refines (s : vm) (c : conf) : Prop := {
  ref_pc : pc s = Z.of_nat (c.1.1.1);
  ref_acc : acc s = c.1.2;
  ref_mem : vmem s = c.2;
  ref_len : length (stack s) = 512%nat;
  ref_sp : 0 <= sp s <= 512;
  ref_stack : drop (Z.to_nat (sp s)) (stack s) = c.1.1.2
}.

Lemma look_insns p x : word p x -> look insns (Z.of_nat p) = Some x.
Proof. unfold look, word. intros H. destruct (Z.ltb_spec (Z.of_nat p) 0); [lia|]. by rewrite Nat2Z.id. Qed.

Lemma fetch_operand s p x : pc s = Z.of_nat p -> word p x ->
  operand insns s = Some (x, set_pc (Z.of_nat (S p)) s).
Proof.
  intros Hp Hw. unfold operand. rewrite Hp, (look_insns _ _ Hw). cbn. do 3 f_equal. lia.
Qed.

Lemma ref_depth s c : refines s c -> Z.of_nat (length c.1.1.2) = 512 - sp s.
Proof. intros [_ _ _ Hl Hs Hst]. rewrite <- Hst, length_drop. lia. Qed.

(** The words of the stack, from its top. *)
Lemma look_stack s p st a m (i : nat) : refines s (p, st, a, m) ->
  look (stack s) (sp s + Z.of_nat i) = st !! i.
Proof.
  intros [_ _ _ Hl Hs Hst]. cbn in Hst. unfold look. destruct (Z.ltb_spec (sp s + Z.of_nat i) 0); [lia|].
  rewrite <- Hst, lookup_drop. f_equal. lia.
Qed.

Lemma top_ok s p x st a m : refines s (p, x :: st, a, m) -> top s = Some x.
Proof.
  intros H. unfold top. pose proof (look_stack _ _ _ _ _ 0 H) as Hl. by rewrite Z.add_0_r in Hl.
Qed.

Lemma pop_ok s p x st a m : refines s (p, x :: st, a, m) ->
  refines (set_sp (sp s + 1) s) (p, st, a, m).
Proof.
  intros H. pose proof (ref_depth _ _ H) as Hd. cbn in Hd. destruct H as [Hp Ha Hm Hl Hs Hst].
  cbn in *. split; cbn; [done..|lia|].
  replace (Z.to_nat (sp s + 1)) with (Z.to_nat (sp s) + 1)%nat by lia.
  by rewrite <- drop_drop, Hst.
Qed.

Lemma set_acc_ok s p st a m b : refines s (p, st, a, m) -> refines (set_acc b s) (p, st, b, m).
Proof. intros [H1 H2 H3 H4 H5 H6]. by split. Qed.

Lemma set_pc_ok s p q st a m : refines s (p, st, a, m) -> refines (set_pc (Z.of_nat q) s) (q, st, a, m).
Proof. intros [H1 H2 H3 H4 H5 H6]. by split. Qed.

Lemma set_vmem_ok s p st a m m' : refines s (p, st, a, m) -> refines (set_vmem m' s) (p, st, a, m').
Proof. intros [H1 H2 H3 H4 H5 H6]. by split. Qed.

Lemma push_ok s p st a m x : refines s (p, st, a, m) -> (length st < 512)%nat ->
  exists s', push x s = Some s' /\ refines s' (p, x :: st, a, m).
Proof.
  intros H Hlt. pose proof (ref_depth _ _ H) as Hd. cbn in Hd. destruct H as [Hp Ha Hm Hl Hs Hst].
  cbn in *. unfold push. unfold look. destruct (Z.ltb_spec (sp s - 1) 0); [lia|].
  destruct (lookup_lt_is_Some_2 (stack s) (Z.to_nat (sp s - 1))) as [y Hy]; [lia|].
  rewrite Hy. cbn. eexists. split; [reflexivity|]. split; cbn; [done..|by rewrite length_insert|lia|].
  rewrite drop_insert_ge by lia.
  replace (Z.to_nat (sp s - 1) - Z.to_nat (sp s - 1))%nat with 0%nat by lia.
  rewrite (drop_S _ y) by done. cbn. f_equal. rewrite <- Hst. f_equal. lia.
Qed.

(** Every opcode of the list machine is tested for before the ones after it. *)
Lemma alu_opcode op : is_alu op = true -> 12 <= op <= 27.
Proof. unfold is_alu, between, Op.OR, Op.MOD. lia. Qed.

Lemma fetch_ok s p st a m i : refines s (p, st, a, m) -> word p i ->
  operand insns s = Some (i, set_pc (Z.of_nat (S p)) s) /\
  refines (set_pc (Z.of_nat (S p)) s) (S p, st, a, m).
Proof.
  intros H Hw. split; [apply fetch_operand; [apply H|done]|]. by eapply set_pc_ok.
Qed.

Lemma alu_step_ok s p st x a m op v : refines s (p, x :: st, a, m) -> word p op ->
  is_alu op = true -> alu op x a = Some v ->
  exists s', vm_step s = Some (inl s') /\ refines s' ((p + 1)%nat, st, v, m).
Proof.
  intros H Hw Hop Hv. destruct (fetch_ok _ _ _ _ _ _ H Hw) as [Hf H1]. unfold Expr.vm_step. rewrite Hf.
  apply alu_opcode in Hop as Hr. cbn [mbind option_bind].
  unfold Op.LEA, Op.IMM, Op.JMP, Op.JSR, Op.BZ, Op.BNZ, Op.ENT, Op.ADJ, Op.LI, Op.SI, Op.LEV, Op.PSH.
  repeat match goal with |- context [op =? ?k] => replace (op =? k) with false by lia; cbn beta iota end.
  rewrite Hop, (top_ok _ _ _ _ _ _ H1). cbn [mbind option_bind].
  rewrite (ref_acc _ _ H1). cbn [fst snd]. rewrite Hv. cbn [mbind option_bind].
  eexists. split; [reflexivity|]. rewrite Nat.add_1_r. eapply set_acc_ok, pop_ok, H1.
Qed.

(** An instruction with an operand. *)
Lemma fetch2_ok s p st a m i n : refines s (p, st, a, m) -> word p i -> word (S p) n ->
  exists s2, operand insns s = Some (i, set_pc (Z.of_nat (S p)) s) /\
    operand insns (set_pc (Z.of_nat (S p)) s) = Some (n, s2) /\
    refines s2 ((p + 2)%nat, st, a, m).
Proof.
  intros H Hw Hn. destruct (fetch_ok _ _ _ _ _ _ H Hw) as [H1 H1'].
  destruct (fetch_ok _ _ _ _ _ _ H1' Hn) as [H2 H2'].
  eexists. split; [done|]. split; [done|]. by replace (p + 2)%nat with (S (S p)) by lia.
Qed.

Lemma adj_ok s p xs st a m : refines s (p, xs ++ st, a, m) ->
  refines (set_sp (sp s + Z.of_nat (length xs)) s) (p, st, a, m).
Proof.
  intros H. pose proof (ref_depth _ _ H) as Hd. cbn in Hd. rewrite length_app in Hd.
  destruct H as [H1 H2 H3 H4 H5 H6]. cbn in *. split; cbn; [done..|lia|].
  replace (Z.to_nat (sp s + Z.of_nat (length xs))) with (Z.to_nat (sp s) + length xs)%nat by lia.
  by rewrite <- drop_drop, H6, drop_app_length.
Qed.

(** Arguments counted from the first. *)
Lemma arg_ok s p vs st a m (k : nat) : refines s (p, rev vs ++ st, a, m) ->
  word (S p) (Z.of_nat (length vs)) -> (1 <= k <= length vs)%nat ->
  arg insns s (Z.of_nat k) = vs !! (k - 1)%nat.
Proof.
  intros H Hw Hk. unfold arg. rewrite (ref_pc _ _ H). cbn [fst].
  replace (Z.of_nat p + 1) with (Z.of_nat (S p)) by lia. rewrite (look_insns _ _ Hw). cbn.
  replace (sp s + Z.of_nat (length vs) - Z.of_nat k) with (sp s + Z.of_nat (length vs - k)) by lia.
  rewrite (look_stack _ _ _ _ _ _ H), lookup_app_l by (rewrite length_rev; lia).
  rewrite rev_alt. change (rev_append vs []) with (reverse vs).
  rewrite reverse_lookup by lia. f_equal. lia.
Qed.

Lemma arg_bound s p vs st a m (k : nat) : refines s (p, rev vs ++ st, a, m) ->
  word (S p) (Z.of_nat (length vs)) -> vs <> [] -> (length st + 7 <= 512)%nat -> (1 <= k <= 7)%nat ->
  is_Some (arg insns s (Z.of_nat k)).
Proof.
  intros H Hw Hne Hst Hk. pose proof (ref_depth _ _ H) as Hd. cbn in Hd.
  rewrite length_app, length_rev in Hd.
  assert (1 <= length vs)%nat by (destruct vs; [done|cbn; lia]).
  unfold arg. rewrite (ref_pc _ _ H). cbn [fst].
  replace (Z.of_nat p + 1) with (Z.of_nat (S p)) by lia. rewrite (look_insns _ _ Hw). cbn.
  pose proof (ref_len _ _ H). pose proof (ref_sp _ _ H).
  unfold look. destruct (Z.ltb_spec (sp s + Z.of_nat (length vs) - Z.of_nat k) 0); [lia|].
  apply lookup_lt_is_Some_2. lia.
Qed.

(** The seven words [printf] is given. *)
Lemma printf_words s p vs st a m : refines s (p, rev vs ++ st, a, m) ->
  word (S p) (Z.of_nat (length vs)) -> vs <> [] -> (length st + 7 <= 512)%nat ->
  exists ws, mapM (arg insns s) [1; 2; 3; 4; 5; 6; 7] = Some ws /\ length ws = 7%nat /\
    take (length vs) ws = take 7 vs.
Proof.
  intros H Hw Hne Hst.
  assert (forall k : nat, (1 <= k <= 7)%nat -> is_Some (arg insns s (Z.of_nat k))) as Hb
    by (intros k Hk; by eapply arg_bound).
  change [1; 2; 3; 4; 5; 6; 7] with (Z.of_nat <$> seq 1 7).
  destruct (mapM (arg insns s) (Z.of_nat <$> seq 1 7)) as [ws|] eqn:E.
  2: { exfalso. apply mapM_None in E. apply Exists_exists in E as (z & Hz & HN).
    apply list_elem_of_fmap in Hz as (k & -> & Hk). apply elem_of_seq in Hk.
    destruct (Hb k) as [x Hx]; [lia|]. congruence. }
  exists ws. split; [done|]. apply mapM_Some in E. pose proof (Forall2_length _ _ _ E) as Hl.
  rewrite length_fmap, length_seq in Hl. split; [done|].
  apply list_eq. intros i. destruct (decide (i < length vs)%nat) as [Hi|Hi].
  - rewrite lookup_take_lt by done. destruct (decide (i < 7)%nat) as [Hi7|Hi7].
    + rewrite lookup_take_lt by done.
      destruct (lookup_lt_is_Some_2 ws i) as [x Hx]; [lia|].
      destruct (Forall2_lookup_r _ _ _ _ _ E Hx) as (z & Hz & Harg).
      rewrite list_lookup_fmap, lookup_seq_lt in Hz by done. cbn in Hz. simplify_eq.
      rewrite (arg_ok _ _ _ _ _ _ (S i) H Hw) in Harg by lia. rewrite Hx, <- Harg. f_equal. lia.
    + rewrite (lookup_ge_None_2 ws) by lia. symmetry. apply lookup_ge_None_2.
      rewrite length_take. lia.
  - rewrite !(lookup_ge_None_2 (take _ _)); [done|rewrite length_take; lia..].
Qed.

Lemma lib_ok s p vs st a m op v : refines s (p, rev vs ++ st, a, m) ->
  word (S p) (Z.of_nat (length vs)) -> vs <> [] -> (length st + 7 <= 512)%nat ->
  lib_call printf_args ksymbol op vs m = Some v ->
  between Op.PRTF op Op.STRNCMP = true /\ lib printf ksymbol insns op s = Some v.
Proof.
  intros H Hw Hne Hst Hv.
  assert (top s = last vs) as Htop.
  { destruct (exists_last Hne) as (l & x & ->). rewrite rev_app_distr in H. cbn in H.
    rewrite (top_ok _ _ _ _ _ _ H), last_snoc. done. }
  unfold lib_call in Hv. unfold lib. rewrite Htop.
  destruct (Z.eqb_spec op Op.PRTF) as [->|N1].
  { split; [done|]. destruct (printf_words _ _ _ _ _ _ H Hw Hne Hst) as (ws & -> & Hl & Ht).
    cbn. rewrite (ref_mem _ _ H). cbn [snd]. destruct vs as [|v0 vs]; [done|]. f_equal.
    by apply (Hprintf m (v0 :: vs)). }
  destruct (Z.eqb_spec op Op.KSYM) as [->|N2]; [done|].
  destruct (Z.eqb_spec op Op.NTHL) as [->|N3]; [done|].
  destruct (Z.eqb_spec op Op.NTHS) as [->|N4]; [done|].
  destruct (Z.eqb_spec op Op.STRNCMP) as [->|N5]; [|done]. split; [done|].
  destruct vs as [|x [|y [|z vs]]]; try done.
  change 1 with (Z.of_nat 1). change 2 with (Z.of_nat 2). change 3 with (Z.of_nat 3).
  rewrite !(arg_ok _ _ _ _ _ _ _ H Hw) by (cbn; lia). cbn. by rewrite (ref_mem _ _ H).
Qed.

(** Each step of the list machine is one of [vm_step]. *)
Lemma vm_simulates s c c' : refines s c -> astep c c' ->
  exists s', vm_step s = Some (inl s') /\ refines s' c'.
Proof.
  intros H Hs. destruct Hs as [p st a m v Hc|p st a m Hc Hl|p st a m sz v Hc Hv|p st x a m sz m' Hc Hv
    |p st x a m op v Hc Hop Hv|p st a m t q Hc Hj|p st a m t Hc Ha|p st m t q Hc Hj|p st m t Hc
    |p st a m t q Hc Ha Hj|p st a m op vs v Hc Hne Hst Hv|p st xs a m Hc]; cells.
  5: { by eapply alu_step_ok. }
  1, 3-9, 11: destruct (fetch2_ok _ _ _ _ _ _ _ H ltac:(eassumption) ltac:(eassumption)) as (s2 & E1 & E2 & H2);
    unfold Expr.vm_step; rewrite E1; cbn [mbind option_bind]; cbn -[Expr.operand width jump]; rewrite ?E2; cbn;
    pose proof (ref_acc _ _ H2) as Hacc; pose proof (ref_mem _ _ H2) as Hmem; cbn in Hacc, Hmem.
  - eexists. split; [reflexivity|]. by eapply set_acc_ok.
  - unfold load_w in Hv. rewrite Hacc, Hmem. destruct (width sz); [|done]. rewrite Hv. cbn.
    eexists. split; [reflexivity|]. by eapply set_acc_ok.
  - unfold store_w in Hv. rewrite (top_ok _ _ _ _ _ _ H2), Hacc, Hmem. destruct (width sz); [|done].
    cbn. rewrite Hv. cbn. eexists. split; [reflexivity|].
    eapply set_vmem_ok, pop_ok, H2.
  - rewrite Hj. cbn. eexists. split; [reflexivity|]. by eapply set_pc_ok.
  - rewrite Hacc. destruct (Z.eqb_spec a 0); [done|]. by eexists.
  - rewrite Hacc, Hj. cbn. eexists. split; [reflexivity|]. by eapply set_pc_ok.
  - rewrite Hacc. by eexists.
  - rewrite Hacc. destruct (Z.eqb_spec a 0); [done|]. rewrite Hj. cbn. eexists.
    split; [reflexivity|]. by eapply set_pc_ok.
  - eexists. split; [reflexivity|]. by apply adj_ok.
  - destruct (fetch_ok _ _ _ _ _ _ H ltac:(eassumption)) as [E1 Hr1]. unfold Expr.vm_step. rewrite E1. cbn.
    destruct (push_ok _ _ _ _ _ a Hr1 Hl) as (s2 & E2 & Hr2). rewrite (ref_acc _ _ H) . cbn. rewrite E2. cbn.
    eexists. split; [reflexivity|]. by rewrite Nat.add_1_r.
  - destruct (fetch_ok _ _ _ _ _ _ H ltac:(eassumption)) as [E1 Hr1].
    destruct (lib_ok _ _ _ _ _ _ _ _ Hr1 ltac:(eassumption) Hne Hst Hv) as [Hb Hlib].
    assert (28 <= op <= 32) by (unfold between, Op.PRTF, Op.STRNCMP in Hb; lia).
    unfold Expr.vm_step. rewrite E1. cbn [mbind option_bind].
    unfold Op.LEA, Op.IMM, Op.JMP, Op.JSR, Op.BZ, Op.BNZ, Op.ENT, Op.ADJ, Op.LI, Op.SI, Op.LEV, Op.PSH.
    repeat match goal with |- context [op =? ?k] => replace (op =? k) with false by lia; cbn beta iota end.
    replace (is_alu op) with false by (unfold is_alu, between, Op.OR, Op.MOD; lia).
    rewrite Hb, Hlib. cbn. eexists. split; [reflexivity|]. rewrite Nat.add_1_r. by eapply set_acc_ok.
Qed.

Lemma vm_run_steps c c' : runs c c' -> forall s, refines s c ->
  exists n s', refines s' c' /\ forall fuel, vm_run (n + fuel) s = vm_run fuel s'.
Proof.
  induction 1 as [c|c c1 c2 H1 _ IH]; intros s Hs; [by exists 0%nat, s|].
  destruct (vm_simulates _ _ _ Hs H1) as (s1 & E1 & H1').
  destruct (IH s1 H1') as (n & s2 & H2 & Hr). exists (S n), s2. split; [done|].
  intros fuel. cbn [Nat.add Expr.vm_run]. rewrite E1. cbn. apply Hr.
Qed.
End machine.
