(* ===== verification/ExprParse.v ===== *)
(** * The compiler emits the code of the expression it reads (expr.c)

    The tokens of a tree, when a token sequence has only one reading, and the
    proof that the single pass of [expr] parses the tokens of a tree and emits
    [gen] of it. *)

From Stdlib Require Import Ascii String.
From S2P Require Import Prelude Bytes Expr ExprSem.

(** ** Lexers up to the reference counts of the symbols *)

(** A symbol without its reference count. *)
Definition core (y : symbol) : Z * Z * list Z * Z * Z * Z * Z :=
  (token y, class y, name y, hash y, type y, nr_elm y, value y).

Definition same_lexer (s s' : lexer) : Prop :=
  src s = src s' /\ tk s = tk s' /\ ival s = ival s' /\ id s = id s' /\ n_syms s = n_syms s' /\
  str s = str s' /\ core <$> symtab s = core <$> symtab s'.

#[export] Instance same_lexer_equiv : Equivalence same_lexer.
Proof.
  split; unfold same_lexer; [done| |].
  { intros a b (H1 & H2 & H3 & H4 & H5 & H6 & H7). by repeat split. }
  intros a b c (H1 & H2 & H3 & H4 & H5 & H6 & H7) (K1 & K2 & K3 & K4 & K5 & K6 & K7).
  repeat split; congruence.
Qed.

Lemma same_bump k s : same_lexer (bump k s) s.
Proof.
  unfold same_lexer, bump, set_symtab. cbn. repeat split.
  apply list_eq. intros i. rewrite !list_lookup_fmap.
  destruct (decide (i = k)) as [->|Hne].
  - rewrite list_lookup_alter_eq. by destruct (symtab s !! k).
  - by rewrite list_lookup_alter_ne.
Qed.

Lemma find_sym_core T T' k h pp len : core <$> T = core <$> T' ->
  find_sym T k h pp len = find_sym T' k h pp len.
Proof.
  revert T' k. induction T as [|y T IH]; intros [|y' T'] k Heq; try done.
  cbn in Heq. injection Heq as H1 H2 H3 H4 H5 H6 H7 HT. cbn [find_sym]. rewrite H1, H3, H4.
  by rewrite (IH T').
Qed.

Section lexing.
Context (STR : Z) (strsize : nat) (junk : nat -> symbol).
Local Abbreviation next := (next STR strsize junk).
Local Abbreviation next_loop := (next_loop STR strsize junk).
Local Abbreviation next_ident := (next_ident junk).

Lemma lookup_core (T T' : list symbol) k : core <$> T = core <$> T' -> core <$> T !! k = core <$> T' !! k.
Proof. intros H. rewrite <- !list_lookup_fmap. by rewrite H. Qed.

Lemma length_core (T T' : list symbol) : core <$> T = core <$> T' -> length T = length T'.
Proof. intros H. by rewrite <- (length_fmap core T), H, length_fmap. Qed.

Lemma next_ident_same pp s s' : same_lexer s s' -> same_lexer (next_ident pp s) (next_ident pp s').
Proof.
  intros (H1 & H2 & H3 & H4 & H5 & H6 & H7). unfold Expr.next_ident.
  destruct (ident_loop (peek pp) (drop 1 pp)) as [h rest].
  rewrite (find_sym_core _ _ 0 _ _ _ H7). pose proof (length_core _ _ H7) as Hl. rewrite Hl, H5.
  destruct (find_sym (symtab s') _ _ _ _) as [found k]. destruct found.
  - unfold same_lexer; cbn. repeat split; try done. pose proof (lookup_core _ _ k H7) as Hk.
    destruct (symtab s !! k), (symtab s' !! k); try done. cbn in Hk. by injection Hk.
  - set (T := if (k =? _)%nat then _ else _). set (T' := if (k =? _)%nat then _ else _).
    assert (core <$> T.1 = core <$> T'.1 /\ T.2 = T'.2) as [HT Hk].
    { unfold T, T'. destruct (k =? _)%nat; cbn; [|done]. by rewrite !fmap_app, H7. }
    destruct T as [T k1], T' as [T' k2]. cbn in HT, Hk. subst k2.
    pose proof (lookup_core _ _ k1 HT) as Hy.
    assert (core (default symbol0 (T !! k1)) = core (default symbol0 (T' !! k1))) as Hc
      by (destruct (T !! k1), (T' !! k1); try done; cbn in *; congruence).
    unfold core in Hc. injection Hc as C1 C2 C3 C4 C5 C6 C7.
    unfold same_lexer; cbn. repeat split; try congruence.
    rewrite !list_fmap_insert, HT. f_equal. unfold core; cbn. congruence.
Qed.

Definition same_opt (a b : option lexer) : Prop :=
  match a, b with Some s, Some s' => same_lexer s s' | None, None => True | _, _ => False end.

Lemma same_at p t i t' s s' : same_lexer s s' ->
  same_lexer (at_num p t i s) (at_num p t i s') /\ (forall q, same_lexer (at_tok q t' s) (at_tok q t' s')).
Proof. intros (H1 & H2 & H3 & H4 & H5 & H6 & H7). by repeat split. Qed.

Lemma next_op_same c l s s' : same_lexer s s' -> same_opt (next_op c l s) (next_op c l s').
Proof.
  intros H. unfold next_op, op2, op3.
  repeat (case_match; cbn [same_opt]; try (apply (same_at None 0 0); exact H)); done.
Qed.

Lemma next_literal_same q l s s' : same_lexer s s' ->
  same_opt (next_literal STR strsize q l s) (next_literal STR strsize q l s').
Proof.
  intros H. pose proof H as (H1 & H2 & H3 & H4 & H5 & H6 & H7). unfold next_literal. rewrite H3, H6.
  destruct (lit_loop q (ival s') [] l) as [[[iv out] rest]|]; [|done]. cbn.
  destruct (_ <=? strsize)%nat; [|done]. by repeat split.
Qed.

Lemma next_loop_same fuel : forall l s s', same_lexer s s' ->
  same_opt (next_loop fuel l s) (next_loop fuel l s').
Proof.
  induction fuel as [|fuel IH]; intros l s s' H; [by destruct l|]. destruct l as [|c l].
  { by apply (same_at None 0 0). }
  cbn [Expr.next_loop]. destruct (c =? 10); [by apply IH|]. destruct (c =? ch "#"); [by apply IH|].
  destruct (is_alpha c); [by apply next_ident_same|].
  destruct (is_digit c); [destruct (number c l); by apply (same_at _ _ _ 0)|].
  destruct (c =? ch "/").
  { destruct (peek l =? ch "/"); [by apply IH|by apply (same_at None 0 0)]. }
  destruct (_ || _); [by apply next_literal_same|].
  pose proof (next_op_same c l s s' H) as Ho. destruct (next_op c l s), (next_op c l s'); try done.
  by apply IH.
Qed.

Lemma next_same s s' : same_lexer s s' -> same_opt (next s) (next s').
Proof.
  intros H. pose proof H as (H1 & _). unfold Expr.next. rewrite H1. destruct (src s'); [|done].
  by apply next_loop_same.
Qed.

(** ** Token sequences *)

(** What [next] leaves in [tk], [ival] and [id]. *)
Record tok := Tok { t_tk : Z; t_ival : Z; t_id : nat }.

Definition op (t : Z) : tok := Tok t 0 0.
Definition num (n : Z) : tok := Tok Num n 0.
Definition text (a : Z) : tok := Tok DQUOTE a 0.
Definition word (k : nat) : tok := Tok Id 0 k.
Definition keyword (k : nat) : tok := Tok Int 0 k.

Context (tab : list symbol).

Definition shows (s : lexer) (t : tok) : Prop :=
  tk s = t_tk t /\ (t_tk t = Num \/ t_tk t = DQUOTE -> ival s = t_ival t) /\
  (t_tk t = Id \/ t_tk t = Int -> id s = t_id t /\ is_Some (tab !! t_id t)).

(** The tokens from the current one to the end of the text, every name of which is in
    the table. *)
Fixpoint stream (s : lexer) (ts : list tok) : Prop :=
  core <$> symtab s = core <$> tab /\
  match ts with
  | [] => tk s = 0
  | t :: ts => shows s t /\ exists s', next s = Some s' /\ stream s' ts
  end.

#[export] Instance stream_proper : Proper (same_lexer ==> eq ==> iff) stream.
Proof.
  assert (forall ts s s', same_lexer s s' -> stream s ts -> stream s' ts) as Hs.
  { induction ts as [|t ts IH]; intros s s' H; pose proof H as (H1 & H2 & H3 & H4 & H5 & H6 & H7);
      cbn [stream]; rewrite <- H7; [by rewrite <- H2|].
    intros [? [Hsh (s1 & E1 & Hst)]]. split; [done|]. split.
    { unfold shows in *. by rewrite <- H2, <- H3, <- H4. }
    pose proof (next_same _ _ H) as Hn. rewrite E1 in Hn. destruct (next s') as [s1'|]; [|done].
    exists s1'. split; [done|]. by eapply IH. }
  intros s s' H ts ? <-. split; apply Hs; [done|by symmetry].
Qed.

Definition head_tk (ts : list tok) : Z := match ts with [] => 0 | t :: _ => t_tk t end.

Lemma stream_tk s ts : stream s ts -> tk s = head_tk ts.
Proof. destruct ts as [|t ts]; cbn; [by intros [_ H]|]. by intros [_ [[H _] _]]. Qed.

Lemma stream_tab s ts : stream s ts -> core <$> symtab s = core <$> tab.
Proof. destruct ts; cbn; by intros [H _]. Qed.

(** ** The tokens of a tree *)

Definition chr (a : ascii) : tok := op (ch a).
Definition updown_tok (up : bool) : Z := if up then Inc else Dec.
Definition stars (n : nat) : list tok := replicate n (op Mul).

Fixpoint toks (e : ex) : list tok :=
  match e with
  | EInt n => [num n]
  | ENegInt n => [op Sub; num n]
  | EStr a => [text a]
  | ESizeof k n => [op Sizeof; chr "("; keyword k] ++ stars n ++ [chr ")"]
  | EVar k => [word k]
  | ECall k es => [word k; chr "("] ++ arg_toks es ++ [chr ")"]
  | EParen e => [chr "("] ++ toks e ++ [chr ")"]
  | ECast k n e => [chr "("; keyword k] ++ stars n ++ [chr ")"] ++ toks e
  | EDeref e => op Mul :: toks e
  | EAddr e => op And :: toks e
  | ENot e => chr "!" :: toks e
  | EBnot e => chr "~" :: toks e
  | EPos e => op Add :: toks e
  | ENeg e => op Sub :: toks e
  | EPre up e => op (updown_tok up) :: toks e
  | EPost up e => toks e ++ [op (updown_tok up)]
  | EAssign l r => toks l ++ [op Assign] ++ toks r
  | ECond a b c => toks a ++ [op Cond] ++ toks b ++ [chr ":"] ++ toks c
  | ELor a b => toks a ++ [op Lor] ++ toks b
  | ELan a b => toks a ++ [op Lan] ++ toks b
  | EBin o a b => toks a ++ [op (tok_of o)] ++ toks b
  | EAdd a b => toks a ++ [op Add] ++ toks b
  | ESub a b => toks a ++ [op Sub] ++ toks b
  | EIndex a b => toks a ++ [op Brak] ++ toks b ++ [chr "]"]
  end
with arg_toks (es : exs) : list tok :=
  match es with
  | ENil => []
  | ECons e es => toks e ++ match es with ENil => [] | _ => [chr ","] end ++ arg_toks es
  end.

(** What may follow the tokens of [e]: nothing its last operand would take. *)
Fixpoint closes (e : ex) (t : Z) : bool :=
  match e with
  | EInt _ | ENegInt _ | ESizeof _ _ | ECall _ _ | EParen _ | EPost _ _ | EIndex _ _ => true
  | EStr _ => negb (t =? DQUOTE)
  | EVar _ => negb (t =? ch "(")
  | ECast _ _ e | EDeref e | EAddr e | ENot e | EBnot e | EPos e | ENeg e | EPre _ e =>
      (t <? Inc) && closes e t
  | EAssign _ r => (t <? Assign) && closes r t
  | ECond _ _ c => (t <? Cond) && closes c t
  | ELor _ b => (t <? Lan) && closes b t
  | ELan _ b => (t <? Or) && closes b t
  | EBin o _ b => (t <? right_of o) && closes b t
  | EAdd _ b | ESub _ b => (t <? Mul) && closes b t
  end.

(** [e] can be read at level [lev]: every operator binds as the tree says. *)
Fixpoint fits (e : ex) (lev : Z) : bool :=
  let left t a := (lev <=? t) && fits a lev && closes a t in
  match e with
  | EInt _ | ENegInt _ | EStr _ | ESizeof _ _ | EVar _ => true
  | ECall _ es => all_fit es
  | EParen e => fits e Assign
  | ECast _ _ e | EDeref e | EAddr e | ENot e | EBnot e | EPos e | EPre _ e => fits e Inc
  | ENeg e => fits e Inc && negb (head_tk (toks e) =? Num)
  | EPost up e => left (updown_tok up) e
  | EAssign l r => left Assign l && fits r Assign
  | ECond a b c => left Cond a && fits b Assign && fits c Cond
  | ELor a b => left Lor a && fits b Lan
  | ELan a b => left Lan a && fits b Or
  | EBin o a b => left (tok_of o) a && fits b (right_of o)
  | EAdd a b => left Add a && fits b Mul
  | ESub a b => left Sub a && fits b Mul
  | EIndex a b => left Brak a && fits b Assign
  end
with all_fit (es : exs) : bool :=
  match es with ENil => true | ECons e es => fits e Assign && all_fit es end.

(** ** Single steps of the compiler *)

Context (le : Z).
Local Abbreviation gen := (gen tab le).
Local Abbreviation gens := (gens tab le).
Local Abbreviation typ := (typ tab).
Local Abbreviation advance := (advance STR strsize junk).
Local Abbreviation expr := (expr STR strsize junk le).
Local Abbreviation unary := (unary STR strsize junk).
Local Abbreviation operator := (operator STR strsize junk le).
Local Abbreviation climb := (climb STR strsize junk le).

Lemma advance_ok l x ts : stream l (x :: ts) ->
  exists l', (forall c t, advance (Comp l c t) = Done (Comp l' c t)) /\ stream l' ts.
Proof.
  intros [_ [_ (l' & E & Hs)]]. exists l'. split; [|done]. intros c t. unfold Expr.advance. cbn [lex].
  by rewrite E.
Qed.

Lemma emit_ok l c t x : (length c < nr_code)%nat -> emit x (Comp l c t) = Done (Comp l (c ++ [x]) t).
Proof. intros H. unfold emit. cbn [code]. by rewrite (proj2 (Nat.ltb_lt _ _) H). Qed.

Lemma emits_ok l t xs : forall c, (length c + length xs <= nr_code)%nat ->
  emits xs (Comp l c t) = Done (Comp l (c ++ xs) t).
Proof.
  induction xs as [|x xs IH]; intros c H; cbn [emits length] in *; [by rewrite app_nil_r|].
  rewrite emit_ok by lia. cbn. rewrite IH by (rewrite length_app; cbn; lia). by rewrite <- app_assoc.
Qed.

Lemma expect_ok a l ts : stream l (chr a :: ts) ->
  exists l', (forall err c t, expect STR strsize junk (ch a) err (Comp l c t) = Done (Comp l' c t)) /\
    stream l' ts.
Proof.
  intros H. destruct (advance_ok _ _ _ H) as (l' & E & H'). exists l'. split; [|done].
  intros err c t. unfold expect. cbn [lex]. rewrite (stream_tk _ _ H). cbn [head_tk t_tk chr op].
  by rewrite Z.eqb_refl.
Qed.

(** Stars after a type. *)
Lemma stars_ok n : forall m l ts, stream l (stars n ++ ts) -> head_tk ts <> Mul -> (n < m)%nat ->
  exists l', (forall d c t, skip_tok STR strsize junk m Mul PTR d (Comp l c t) =
                Done (d + PTR * Z.of_nat n, Comp l' c t)) /\ stream l' ts.
Proof.
  induction n as [|n IH]; intros m l ts H Hne Hm; (destruct m as [|m]; [lia|]);
    cbn [stars replicate app] in H.
  - exists l. split; [|done]. intros d c t. cbn [skip_tok lex]. rewrite (stream_tk _ _ H).
    rewrite (proj2 (Z.eqb_neq _ _) Hne). do 2 f_equal. lia.
  - destruct (advance_ok _ _ _ H) as (l1 & E1 & H1).
    destruct (IH m l1 ts H1 Hne ltac:(lia)) as (l' & E' & H'). exists l'. split; [|done].
    intros d c t. cbn [skip_tok lex]. rewrite (stream_tk _ _ H). cbn [head_tk t_tk op].
    rewrite Z.eqb_refl, E1. cbn [mbind outcome_bind]. rewrite E'. do 2 f_equal. lia.
Qed.

(** The table of a lexer on a known text. *)
Lemma symbol_ok l ts k y : stream l ts -> tab !! k = Some y ->
  exists y', symtab l !! k = Some y' /\ class y' = class y /\ type y' = type y /\ value y' = value y.
Proof.
  intros H Hy. pose proof (lookup_core _ _ k (stream_tab _ _ H)) as Hk. rewrite Hy in Hk.
  destruct (symtab l !! k) as [y'|]; [|done]. cbn in Hk. injection Hk as ? ? ? ? ? ? ?.
  by exists y'.
Qed.

Lemma bump_stream k l ts : stream l ts -> stream (bump k l) ts.
Proof. intros H. eapply stream_proper; [apply same_bump|reflexivity|done]. Qed.

(** The last two words are a load. *)
Lemma at_load_ok l c sz t err : at_load err (Comp l (c ++ [Op.LI; sz]) t) = Done tt.
Proof.
  unfold at_load, prev_word. cbn [code]. rewrite length_app, Nat.add_comm. cbn [length Nat.add].
  by rewrite lookup_app_r, Nat.sub_diag.
Qed.

Lemma drop_load_ok l c sz t : drop_load (Comp l (c ++ [Op.LI; sz]) t) = Comp l c t.
Proof.
  unfold drop_load, with_code. cbn [code lex ty]. rewrite length_app. cbn [length].
  by rewrite Nat.add_sub, take_app_length.
Qed.

Lemma load_to_push_ok l c sz t : load_to_push (Comp l (c ++ [Op.LI; sz]) t) = Comp l (c ++ [Op.PSH]) t.
Proof.
  unfold load_to_push, with_code. cbn [code lex ty]. rewrite length_app. cbn [length].
  by rewrite Nat.add_sub, take_app_length.
Qed.

Lemma push_before_load_ok l c sz t : (length c + 3 <= nr_code)%nat ->
  push_before_load (Comp l (c ++ [Op.LI; sz]) t) = Done (Comp l (c ++ [Op.PSH; Op.LI; sz]) t).
Proof.
  intros H. unfold push_before_load, with_code. cbn [code lex ty]. rewrite length_app. cbn [length].
  replace (length c + 2 - 1)%nat with (length c + 1)%nat by lia.
  rewrite Nat.add_sub, lookup_app_r by lia. replace (length c + 1 - length c)%nat with 1%nat by lia.
  cbn [lookup list_lookup get mbind outcome_bind].
  rewrite emit_ok by (rewrite length_insert, length_app; cbn; lia). cbn [mbind outcome_bind code lex ty].
  assert (<[length c := Op.PSH]> (c ++ [Op.LI; sz]) = c ++ [Op.PSH; sz]) as ->
    by (rewrite insert_app_r_alt by lia; by rewrite Nat.sub_diag).
  rewrite <- app_assoc. cbn [app]. rewrite insert_app_r_alt by lia.
  by replace (length c + 1 - length c)%nat with 1%nat by lia.
Qed.

(** ** Parsing a tree

    Reading the tokens of [e] at level [lev] is reading something up to the point
    where the loop of [expr] looks at what follows. *)
Definition parse_ok (e : ex) : Prop := forall f lev l c t rest g ld,
  gen (length c) e = Some (g, ld) -> (length c + length g + 2 <= nr_code)%nat ->
  fits e lev = true -> closes e (head_tk rest) = true -> stream l (toks e ++ rest) ->
  (length (toks e) <= f)%nat -> lev <= Inc ->
  exists k l', (k < length (toks e))%nat /\ stream l' rest /\
    expr (S f) lev (Comp l c t) = climb (expr f) (f - k) lev (Comp l' (c ++ flat (g, ld)) (typ e)).

(** All of an operand: what follows is for an outer level. *)
Lemma operand_ok e f lev l c t n rest g :
  parse_ok e -> gen n e = Some g -> n = length c -> (n + length g.1 + 2 <= nr_code)%nat ->
  fits e lev = true -> closes e (head_tk rest) = true -> stream l (toks e ++ rest) ->
  (length (toks e) < f)%nat -> head_tk rest < lev -> lev <= Inc ->
  exists l', stream l' rest /\ expr f lev (Comp l c t) = Done (Comp l' (c ++ flat g) (typ e)).
Proof.
  intros IH Hg -> Hroom Hfit Hcl Hs Hf Hlev Hinc. destruct g as [g ld]. destruct f as [|f]; [lia|].
  destruct (IH f lev l c t rest g ld) as (k & l' & Hk & Hs' & ->); [done..|lia|done|].
  exists l'. split; [done|]. destruct (f - k)%nat as [|m] eqn:E; [lia|]. cbn [Expr.climb lex].
  rewrite (stream_tk _ _ Hs'). by rewrite (proj2 (Z.leb_gt _ _) Hlev).
Qed.

(** What starts an expression. *)
Lemma of_unary e f lev l c t rest g ld l' :
  unary (expr f) f (Comp l c t) = Done (Comp l' (c ++ flat (g, ld)) (typ e)) -> stream l' rest ->
  (0 < length (toks e))%nat ->
  exists k l', (k < length (toks e))%nat /\ stream l' rest /\
    expr (S f) lev (Comp l c t) = climb (expr f) (f - k) lev (Comp l' (c ++ flat (g, ld)) (typ e)).
Proof.
  intros Hu Hs Hlen. exists 0%nat, l'. split; [done|]. split; [done|]. cbn [Expr.expr]. rewrite Hu.
  cbn [mbind outcome_bind]. by rewrite Nat.sub_0_r.
Qed.

Lemma toks_pos : (forall e, (0 < length (toks e))%nat) /\ (forall es : exs, True).
Proof. apply ex_exs_ind; intros; cbn; rewrite ?length_app; cbn; lia || done. Qed.

(** [flat] adds at most the load. *)
Lemma length_flat g : (length g.1 <= length (flat g) <= length g.1 + 2)%nat.
Proof. destruct g as [g [sz|]]; cbn; rewrite ?length_app; cbn; lia. Qed.

Ltac room :=
  unfold nr_code in *; do 3 (cbn [length app fst] in *; rewrite ?length_app in * ); cbn [length app fst] in *; lia.
(** Rewrite with the token, and reduce the tests on it. *)
Ltac tests :=
  repeat match goal with
  | |- context [?a =? ?b] =>
      let v := eval vm_compute in (a =? b) in
      match v with
      | true => change (a =? b) with true
      | false => change (a =? b) with false
      end; cbn beta iota delta [orb andb negb] zeta
  end.
Ltac token H := rewrite ?(stream_tk _ _ H); cbn [head_tk t_tk op chr num text word keyword]; tests.
(** The lexer after the token of [H]. *)
Ltac adv H l E H' := destruct (advance_ok _ _ _ H) as (l & E & H').
Ltac comp := unfold with_ty, with_code in *; cbn [mbind outcome_bind lex code ty] in *.

Ltac start :=
  intros f lev l c t rest g ld Hg Hroom Hfit Hcl Hs Hf Hinc; cbn [ExprSem.gen] in Hg;
  cbn [toks app] in Hs, Hf; do 3 (rewrite <- ?app_assoc in Hs; cbn [app] in Hs);
  cbn [closes] in Hcl; cbn [fits] in Hfit.

Lemma int_ok n : parse_ok (EInt n).
Proof.
  start. simplify_eq.   pose proof Hs as [_ [(_ & Hi & _) _]]. adv Hs l1 E1 H1.
  eapply of_unary; [|exact H1|cbn; lia]. unfold Expr.unary. cbn [lex]. token Hs.
  rewrite Hi by (by left). rewrite emits_ok by room. comp. rewrite E1. done.
Qed.

Lemma negint_ok n : parse_ok (ENegInt n).
Proof.
  start. simplify_eq.   adv Hs l1 E1 H1. pose proof H1 as [_ [(_ & Hi & _) _]]. adv H1 l2 E2 H2.
  eapply of_unary; [|exact H2|cbn; lia]. unfold Expr.unary. cbn [lex]. token Hs.
  rewrite E1. comp. rewrite emit_ok by room. comp. token H1.
  rewrite Hi by (by left). rewrite emit_ok by room. comp. rewrite E2. comp.
  by rewrite <- app_assoc.
Qed.

Lemma str_ok a : parse_ok (EStr a).
Proof.
  start. simplify_eq. pose proof Hs as [_ [(_ & Hi & _) _]]. adv Hs l1 E1 H1.
  eapply of_unary; [|exact H1|cbn; lia]. unfold Expr.unary. cbn [lex]. token Hs.
  rewrite Hi by (by right). rewrite emits_ok by room. comp. rewrite E1. comp.
  destruct f as [|f]; [cbn in Hf; lia|]. cbn [skip_tok lex]. rewrite (stream_tk _ _ H1).
  by destruct (head_tk rest =? DQUOTE).
Qed.

Lemma sizeof_ok k n : parse_ok (ESizeof k n).
Proof.
  start. simplify_eq.
  cbn [length] in Hf. rewrite length_app in Hf. unfold stars in Hf. rewrite length_replicate in Hf. cbn in Hf.
  adv Hs l1 E1 H1. destruct (expect_ok _ _ _ H1) as (l2 & E2 & H2).
  pose proof H2 as [_ [(_ & _ & Hi) _]]. destruct Hi as [Hid [y Hy]]; [by right|]. cbn in Hid, Hy.
  adv H2 l3 E3 H3. destruct (stars_ok n f l3 _ H3) as (l4 & E4 & H4); [done|lia|].
  destruct (expect_ok _ _ _ H4) as (l5 & E5 & H5). destruct (symbol_ok _ _ _ _ H2 Hy) as (y' & Hy' & _ & Ht & _).
  eapply of_unary; [|exact H5|cbn; lia]. unfold Expr.unary. cbn [lex]. token Hs.
  unfold sizeof. rewrite E1. comp. rewrite E2. comp. token H2. unfold cur_type. cbn [lex].
  rewrite Hid, Hy'. cbn [fmap option_fmap option_map get]. comp. rewrite E3. comp. rewrite E4. comp. rewrite E5. comp.
  rewrite emits_ok by room. comp. unfold decl_type, sym_type. rewrite Hy. cbn. by rewrite Ht.
Qed.

Lemma sym_at_ok l l' ts ts' k y c t : stream l ts -> stream l' ts' -> tab !! k = Some y ->
  exists y', sym_at (length (symtab l)) k (Comp l' c t) = Some y' /\
    class y' = class y /\ type y' = type y /\ value y' = value y.
Proof.
  intros H H' Hy. destruct (symbol_ok _ _ _ _ H' Hy) as (y' & Hy' & Hc). exists y'. split; [|done].
  unfold sym_at. cbn [lex].
  rewrite (length_core _ _ (stream_tab _ _ H)), (length_core _ _ (stream_tab _ _ H')), Nat.eqb_refl.
  done.
Qed.

Lemma var_ok k : parse_ok (EVar k).
Proof.
  start. destruct (tab !! k) as [y|] eqn:Hy; [|done]. cbn [mbind option_bind] in Hg.
  pose proof Hs as [_ [(_ & _ & Hi) _]]. destruct Hi as [Hid _]; [by left|]. cbn in Hid.
  adv Hs l1 E1 H1. destruct (sym_at_ok _ _ _ _ k y c t Hs H1 Hy) as (y' & Hy' & Hc & Ht & Hv).
  assert (forall l', stream l' rest -> unary (expr f) f (Comp l c t) =
    Done (Comp l' (c ++ flat (g, ld)) (typ (EVar k))) -> exists k0 l', (k0 < length (toks (EVar k)))%nat /\
    stream l' rest /\ expr (S f) lev (Comp l c t) =
      climb (expr f) (f - k0) lev (Comp l' (c ++ flat (g, ld)) (typ (EVar k)))) as Hu
    by (intros l' Hl' Hu; eapply (of_unary (EVar k)); [exact Hu|done|cbn; lia]).
  unfold Expr.unary in Hu. cbn [lex] in Hu. revert Hu. token Hs. rewrite E1. comp.
  rewrite (stream_tk _ _ H1). apply negb_true_iff in Hcl. rewrite Hcl. unfold variable.
  rewrite Hid, Hy'. cbn [get]. comp. rewrite Hc, Ht, Hv.
  cbn [ExprSem.typ]. unfold var_type. rewrite Hy. cbn [fmap option_fmap option_map default].
  destruct (class y =? Num) eqn:Hnum.
  - injection Hg as <- <-. rewrite emits_ok by room. comp. intros Hu. by apply (Hu l1).
  - destruct (class y =? Glo) eqn:Hglo; [|done].
    replace (class y =? Loc) with false by (unfold Loc, Glo in *; lia).
    injection Hg as <- <-. rewrite emits_ok by room. comp. unfold bump_ref. comp.
    destruct (is_array (type y)); intros Hu.
    + apply (Hu (bump k l1)); [by apply bump_stream|done].
    + apply (Hu (bump k l1)); [by apply bump_stream|].
      rewrite emits_ok by room. comp. by rewrite <- app_assoc.
Qed.

(** What closes a bracket, or separates, follows any expression. *)
Lemma closes_small e t : t < Assign -> t <> DQUOTE -> t <> ch "(" -> closes e t = true.
Proof.
  intros H H1 H2. induction e; cbn [closes]; try done.
  all: try (rewrite IHe || rewrite IHe2 || rewrite IHe3; unfold Assign, Inc, Cond, Lor, Lan, Mul, Or in *; lia).
  - unfold DQUOTE in *. lia.
  - lia.
  - rewrite IHe2, andb_true_r. destruct o; cbn [right_of]; apply Z.ltb_lt;
      unfold Assign, Inc, Xor, And, Eq, Lt, Shl, Add in *; lia.
Qed.

(** An operand read at level [lv] with the code [cd] before it. *)
Ltac operand IH H lv cd tt l E H' :=
  match type of IH with parse_ok ?e =>
    match type of H with stream ?l0 (_ ++ ?rest) =>
      match goal with Hg : ExprSem.gen _ _ ?n e = Some ?g, f : nat |- _ =>
        destruct (operand_ok e f lv l0 cd tt n rest g IH Hg) as (l & H' & E);
          [room|room|assumption|assumption || by apply closes_small|exact H|room|done|done|]
      end
    end
  end.

Lemma no_keyword e ts : head_tk (toks e ++ ts) <> Int.
Proof.
  revert ts. induction e; intros ts; cbn [toks]; rewrite <- ?app_assoc; try done.
  all: match goal with u : bool |- _ => by destruct u end.
Qed.

Lemma paren_ok e : parse_ok e -> parse_ok (EParen e).
Proof.
  intros IH. start. cbn [length] in Hf.
  rewrite length_app in Hf. cbn [length] in Hf. adv Hs l1 E1 H1.
  operand IH H1 Assign c t l2 E2 H2. destruct (expect_ok _ _ _ H2) as (l3 & E3 & H3).
  eapply (of_unary (EParen e)); [|exact H3|cbn; lia]. unfold Expr.unary. cbn [lex]. token Hs.
  unfold paren. rewrite E1. comp. rewrite (stream_tk _ _ H1).
  rewrite (proj2 (Z.eqb_neq _ _) (no_keyword e _)). rewrite E2. comp. rewrite E3. done.
Qed.

(** Take apart what is known of an operand. *)
Ltac split_bools :=
  repeat match goal with
  | H : _ && _ = true |- _ =>
      let H' := fresh "Hb" in apply andb_true_iff in H as [H' H]
  | H : (_ <? _) = true |- _ => apply Z.ltb_lt in H
  | H : (_ <=? _) = true |- _ => apply Z.leb_le in H
  end.
Ltac split_gen H :=
  repeat match type of H with
  | mbind _ (flat <$> _) = Some _ =>
      let x := fresh "g" in let E := fresh "Hg" in
      apply bind_Some in H as (? & (x & E & ->)%fmap_Some & H); cbn beta iota zeta in H
  end.

Lemma cast_ok k n e : parse_ok e -> parse_ok (ECast k n e).
Proof.
  intros IH. start. cbn [length] in Hf.
  rewrite !length_app in Hf. unfold stars in Hf. rewrite length_replicate in Hf. cbn [length] in Hf.
  split_bools. adv Hs l1 E1 H1.
  pose proof H1 as [_ [(_ & _ & Hi) _]]. destruct Hi as [Hid [y Hy]]; [by right|]. cbn in Hid, Hy.
  destruct (symbol_ok _ _ _ _ H1 Hy) as (y' & Hy' & _ & Ht & _).
  adv H1 l2 E2 H2. destruct (stars_ok n f l2 _ H2) as (l3 & E3 & H3); [done|lia|].
  destruct (expect_ok _ _ _ H3) as (l4 & E4 & H4).
  operand IH H4 Inc c t l5 E5 H5.
  eapply (of_unary (ECast k n e)); [|exact H5|cbn; lia]. unfold Expr.unary. cbn [lex]. token Hs.
  unfold paren. rewrite E1. comp. token H1. unfold cur_type. cbn [lex]. rewrite Hid, Hy'.
  cbn [fmap option_fmap option_map get]. comp. rewrite E2. comp. rewrite E3. comp. rewrite E4. comp.
  rewrite E5. comp. cbn [ExprSem.typ]. unfold decl_type, sym_type. rewrite Hy. cbn. by rewrite Ht.
Qed.

(** The prefix operators. *)
Lemma deref_ok e : parse_ok e -> parse_ok (EDeref e).
Proof.
  intros IH. start. cbn [length] in Hf. split_bools. split_gen Hg.
  destruct (PTR <=? typ e) eqn:Hp; [|done]. injection Hg as <- <-. pose proof (length_flat g0) as Hlen.
  adv Hs l1 E1 H1. operand IH H1 Inc c t l2 E2 H2.
  eapply (of_unary (EDeref e)); [|exact H2|cbn; lia]. unfold Expr.unary. cbn [lex]. token Hs.
  rewrite E1. comp. rewrite E2. comp. rewrite Hp. comp. rewrite emits_ok by room.
  cbn [flat]. by rewrite app_assoc.
Qed.

Lemma addr_ok e : parse_ok e -> parse_ok (EAddr e).
Proof.
  intros IH. start. cbn [length] in Hf. split_bools.
  apply bind_Some in Hg as ([g0 [sz|]] & Hg0 & Hg); [|done]. injection Hg as <- <-.
  adv Hs l1 E1 H1. operand IH H1 Inc c t l2 E2 H2.
  eapply (of_unary (EAddr e)); [|exact H2|cbn; lia]. unfold Expr.unary. cbn [lex]. token Hs.
  rewrite E1. comp. rewrite E2. comp. cbn [flat]. rewrite app_assoc, at_load_ok. comp.
  by rewrite drop_load_ok.
Qed.

Lemma prefix_ok e : parse_ok e ->
  parse_ok (ENot e) /\ parse_ok (EBnot e) /\ parse_ok (EPos e) /\ parse_ok (ENeg e).
Proof.
  intros IH. split; [|split; [|split]].
  all: start; cbn [length] in Hf; split_bools; split_gen Hg; injection Hg as <- <-;
    pose proof (length_flat g0) as Hlen; adv Hs l1 E1 H1.
  - operand IH H1 Inc c t l2 E2 H2. eapply (of_unary (ENot e)); [|exact H2|cbn; lia].
    unfold Expr.unary. cbn [lex]. token Hs. rewrite E1. comp. rewrite E2. comp.
    rewrite emits_ok by room. cbn [flat]. by rewrite app_assoc.
  - operand IH H1 Inc c t l2 E2 H2. eapply (of_unary (EBnot e)); [|exact H2|cbn; lia].
    unfold Expr.unary. cbn [lex]. token Hs. rewrite E1. comp. rewrite E2. comp.
    rewrite emits_ok by room. cbn [flat]. by rewrite app_assoc.
  - operand IH H1 Inc c t l2 E2 H2. eapply (of_unary (EPos e)); [|exact H2|cbn; lia].
    unfold Expr.unary. cbn [lex]. token Hs. rewrite E1. comp. by rewrite E2.
  - operand IH H1 Inc (c ++ [Op.IMM; -1; Op.PSH]) t l2 E2 H2.
    eapply (of_unary (ENeg e)); [|exact H2|cbn; lia].
    unfold Expr.unary. cbn [lex]. token Hs. rewrite E1. comp. rewrite emit_ok by room. comp.
    rewrite (stream_tk _ _ H1).
    assert (head_tk (toks e ++ rest) = head_tk (toks e)) as ->.
    { pose proof (proj1 toks_pos e). by destruct (toks e); [cbn in *; lia|]. }
    match goal with H : negb _ = true |- _ => apply negb_true_iff in H; rewrite H end.
    rewrite emits_ok by room. comp. rewrite <- app_assoc. cbn [app] in *. rewrite E2. comp.
    rewrite emit_ok by room. comp. cbn [flat]. by rewrite <- !app_assoc.
Qed.

Lemma pre_ok up e : parse_ok e -> parse_ok (EPre up e).
Proof.
  intros IH. start. cbn [length] in Hf. split_bools.
  apply bind_Some in Hg as ([g0 [sz|]] & Hg0 & Hg); [|done]. injection Hg as <- <-.
  adv Hs l1 E1 H1. operand IH H1 Inc c t l2 E2 H2.
  eapply (of_unary (EPre up e)); [|exact H2|cbn; lia]. unfold Expr.unary. cbn [lex].
  destruct up; cbn [updown_tok updown] in *; token Hs; unfold pre_incr; cbn [lex]; token Hs;
    rewrite E1; comp; rewrite E2; comp; cbn [flat]; rewrite app_assoc, at_load_ok; comp;
    rewrite push_before_load_ok by room; comp; rewrite emits_ok by room; comp; by rewrite <- !app_assoc.
Qed.

(** ** The loop

    An operator after the left operand [a]. *)
Lemma of_operator e a f lev l c t x ts rest ga g ld :
  parse_ok a -> gen (length c) a = Some ga -> (length c + length ga.1 + 2 <= nr_code)%nat ->
  fits a lev = true -> closes a (t_tk x) = true -> lev <= t_tk x -> lev <= Inc ->
  stream l (toks a ++ x :: ts) -> (length (toks a) < f)%nat -> (length (toks a) < length (toks e))%nat ->
  (forall l1, stream l1 (x :: ts) -> exists l', stream l' rest /\
     operator (expr f) (Comp l1 (c ++ flat ga) (typ a)) = Done (Comp l' (c ++ flat (g, ld)) (typ e))) ->
  exists k l', (k < length (toks e))%nat /\ stream l' rest /\
    expr (S f) lev (Comp l c t) = climb (expr f) (f - k) lev (Comp l' (c ++ flat (g, ld)) (typ e)).
Proof.
  intros IH Hga Hroom Hfit Hcl Hlev Hinc Hs Hf He Hop. destruct ga as [ga lda].
  destruct (IH f lev l c t (x :: ts) ga lda) as (k & l1 & Hk & H1 & ->); [done..|lia|done|].
  destruct (Hop l1 H1) as (l' & H' & E). exists (S k), l'. split; [lia|]. split; [done|].
  destruct (f - k)%nat as [|m] eqn:Em; [lia|]. cbn [Expr.climb lex].
  rewrite (stream_tk _ _ H1). cbn [head_tk]. rewrite (proj2 (Z.leb_le _ _) Hlev), E. comp.
  by replace (f - S k)%nat with m by lia.
Qed.

Ltac operator_of e a IHa Hga :=
  match goal with
  | Hs : stream ?l (toks a ++ ?x :: ?ts) |- _ =>
      eapply (of_operator e a _ _ l _ _ x ts _ _ _ _ IHa Hga);
        [room|assumption|assumption|assumption|assumption|exact Hs|room|cbn [toks]; room|]
  end.

Lemma bin_ok o a b : parse_ok a -> parse_ok b -> parse_ok (EBin o a b).
Proof.
  intros IHa IHb. start. rewrite length_app in Hf.
  cbn [length] in Hf. split_bools. split_gen Hg. injection Hg as <- <-.
  pose proof (length_flat g0) as Hla. pose proof (length_flat g1) as Hlb.
  assert (right_of o <= Inc) by (destruct o; done).
  operator_of (EBin o a b) a IHa Hg0.
  intros l1 H1. adv H1 l2 E2 H2.
  operand IHb H2 (right_of o) ((c ++ flat g0) ++ [Op.PSH]) (typ a) l3 E3 H3.
  exists l3. split; [done|]. unfold Expr.operator. cbn [lex].
  destruct o; cbn [tok_of right_of op_of] in *; token H1; unfold binary; rewrite E2; comp;
    rewrite emit_ok by room; comp; rewrite E3; comp; rewrite emit_ok by room; comp; cbn [flat];
    by rewrite <- !app_assoc.
Qed.

Ltac app_eq := cbn [flat]; do 4 (rewrite <- ?app_assoc; cbn [app]); done.

Lemma scaled_ok l c u t : (length c + length (scaling t) <= nr_code)%nat ->
  scaled t (Comp l c u) = Done (Comp l (c ++ scaling t) u).
Proof.
  intros H. unfold scaled, scaling in *. destruct (PTR <? t); [by apply emits_ok|].
  by rewrite app_nil_r.
Qed.

Lemma add_ok a b : parse_ok a -> parse_ok b -> parse_ok (EAdd a b).
Proof.
  intros IHa IHb. start. rewrite length_app in Hf.
  cbn [length] in Hf. split_bools. split_gen Hg. injection Hg as <- <-.
  pose proof (length_flat g0) as Hla. pose proof (length_flat g1) as Hlb.
  operator_of (EAdd a b) a IHa Hg0.
  intros l1 H1. adv H1 l2 E2 H2. operand IHb H2 Mul ((c ++ flat g0) ++ [Op.PSH]) (typ a) l3 E3 H3.
  exists l3. split; [done|]. unfold Expr.operator. cbn [lex]. token H1.
  rewrite E2; comp; rewrite emit_ok by room; comp; rewrite E3; comp.
  rewrite scaled_ok by room. comp. rewrite emit_ok by room. app_eq.
Qed.

Lemma sub_ok a b : parse_ok a -> parse_ok b -> parse_ok (ESub a b).
Proof.
  intros IHa IHb. start. rewrite length_app in Hf.
  cbn [length] in Hf. split_bools. split_gen Hg.
  pose proof (length_flat g0) as Hla. pose proof (length_flat g1) as Hlb.
  destruct ((PTR <? typ a) && (typ a =? typ b)) eqn:Hty; injection Hg as <- <-;
    operator_of (ESub a b) a IHa Hg0;
    intros l1 H1; adv H1 l2 E2 H2; operand IHb H2 Mul ((c ++ flat g0) ++ [Op.PSH]) (typ a) l3 E3 H3;
    (exists l3; split; [done|]); unfold Expr.operator; cbn [lex ExprSem.typ]; rewrite Hty; token H1;
    rewrite E2; comp; rewrite emit_ok by room; comp; rewrite E3; comp; rewrite Hty; cbn beta iota.
  - rewrite emits_ok by room. comp. app_eq.
  - rewrite scaled_ok by room. comp. rewrite emit_ok by room. app_eq.
Qed.

Lemma index_ok a b : parse_ok a -> parse_ok b -> parse_ok (EIndex a b).
Proof.
  intros IHa IHb. start. rewrite !length_app in Hf.
  cbn [length] in Hf. split_bools. split_gen Hg.
  destruct (PTR <=? typ a) eqn:Hp; [|done]. injection Hg as <- <-.
  pose proof (length_flat g0) as Hla. pose proof (length_flat g1) as Hlb.
  operator_of (EIndex a b) a IHa Hg0.
  intros l1 H1. adv H1 l2 E2 H2. operand IHb H2 Assign ((c ++ flat g0) ++ [Op.PSH]) (typ a) l3 E3 H3.
  destruct (expect_ok _ _ _ H3) as (l4 & E4 & H4).
  exists l4. split; [done|]. unfold Expr.operator. cbn [lex]. token H1.
  rewrite E2; comp; rewrite emit_ok by room; comp; rewrite E3; comp. rewrite E4. comp.
  apply Z.leb_le in Hp. rewrite (proj2 (Z.ltb_ge (typ a) PTR) Hp).
  unfold scaling in *. destruct (PTR <? typ a).
  - rewrite emits_ok by room. comp. rewrite emit_ok by room. comp. rewrite emits_ok by room.
    app_eq.
  - comp. rewrite emit_ok by room. comp. rewrite emits_ok by room. app_eq.
Qed.

(** The operand of a jump, set when its target is known. *)
Lemma patch_ok d v l c x y b t : d = (length (c ++ [x; y]) - 1)%nat ->
  patch d v (Comp l ((c ++ [x; y]) ++ b) t) = Comp l ((c ++ [x; v]) ++ b) t.
Proof.
  intros ->. unfold patch, with_code. cbn [lex code ty]. f_equal.
  rewrite insert_app_l by (rewrite length_app; cbn; lia). f_equal. rewrite length_app. cbn [length].
  rewrite insert_app_r_alt by lia. by replace (length c + 2 - 1 - length c)%nat with 1%nat by lia.
Qed.

Lemma here_ok l c t n k : Z.of_nat n + 1 = Z.of_nat (length c) + k -> here le (Comp l c t) k = addr le n.
Proof. intros H. unfold here, addr. cbn [code]. lia. Qed.

Lemma logic_ok a b : parse_ok a -> parse_ok b -> parse_ok (ELor a b) /\ parse_ok (ELan a b).
Proof.
  intros IHa IHb.
  split; start; rewrite length_app in Hf;
    cbn [length] in Hf; split_bools; split_gen Hg; injection Hg as <- <-;
    pose proof (length_flat g0) as Hla; pose proof (length_flat g1) as Hlb;
    match goal with |- context [typ ?e] => operator_of e a IHa Hg0 end;
    intros l1 H1; adv H1 l2 E2 H2.
  - operand IHb H2 Lan ((c ++ flat g0) ++ [Op.BNZ; 0]) (typ a) l3 E3 H3.
    exists l3. split; [done|]. unfold Expr.operator. cbn [lex]. token H1.
    unfold shortcut. rewrite E2. comp. rewrite emits_ok by room. comp. rewrite E3. comp.
    rewrite patch_ok by done. unfold with_ty. cbn [lex code].
    rewrite (here_ok _ _ _ (length c + length (flat g0) + 2 + length (flat g1))) by room.
    app_eq.
  - operand IHb H2 Or ((c ++ flat g0) ++ [Op.BZ; 0]) (typ a) l3 E3 H3.
    exists l3. split; [done|]. unfold Expr.operator. cbn [lex]. token H1.
    unfold shortcut. rewrite E2. comp. rewrite emits_ok by room. comp. rewrite E3. comp.
    rewrite patch_ok by done. unfold with_ty. cbn [lex code].
    rewrite (here_ok _ _ _ (length c + length (flat g0) + 2 + length (flat g1))) by room.
    app_eq.
Qed.
Lemma cond_ok a b e : parse_ok a -> parse_ok b -> parse_ok e -> parse_ok (ECond a b e).
Proof.
  intros IHa IHb IHe. start. rewrite !length_app in Hf. cbn [length] in Hf. rewrite !length_app in Hf.
  cbn [length] in Hf. split_bools. split_gen Hg. injection Hg as <- <-.
  pose proof (length_flat g0) as Hla. pose proof (length_flat g1) as Hlb.
  pose proof (length_flat g2) as Hle. operator_of (ECond a b e) a IHa Hg0.
  intros l1 H1. adv H1 l2 E2 H2.
  operand IHb H2 Assign ((c ++ flat g0) ++ [Op.BZ; 0]) (typ a) l3 E3 H3.
  destruct (expect_ok _ _ _ H3) as (l4 & E4 & H4).
  operand IHe H4 Cond ((((c ++ flat g0) ++ [Op.BZ; addr le (length c + length (flat g0) + 2 +
    length (flat g1) + 2)]) ++ flat g1) ++ [Op.JMP; 0]) (typ b) l5 E5 H5.
  exists l5. split; [done|]. unfold Expr.operator. cbn [lex]. token H1.
  unfold conditional. rewrite E2. comp. rewrite emits_ok by room. comp. rewrite E3. comp.
  rewrite E4. comp. rewrite patch_ok by done.
  rewrite (here_ok _ _ _ (length c + length (flat g0) + 2 + length (flat g1) + 2)) by room.
  rewrite emits_ok by room. comp. rewrite E5. comp. rewrite patch_ok by done.
  rewrite (here_ok _ _ _ (length c + length (flat g0) + 2 + length (flat g1) + 2 + length (flat g2)))
    by room. app_eq.
Qed.

Lemma assign_parses a b : parse_ok a -> parse_ok b -> parse_ok (EAssign a b).
Proof.
  intros IHa IHb. start. rewrite length_app in Hf. cbn [length] in Hf. split_bools.
  apply bind_Some in Hg as ([g0 [sz|]] & Hg0 & Hg); [|done]. split_gen Hg. injection Hg as <- <-.
  pose proof (length_flat g1) as Hlb. operator_of (EAssign a b) a IHa Hg0.
  intros l1 H1. adv H1 l2 E2 H2. operand IHb H2 Assign (c ++ g0 ++ [Op.PSH]) (typ a) l3 E3 H3.
  exists l3. split; [done|]. unfold Expr.operator. cbn [lex]. token H1.
  rewrite E2. comp. cbn [flat]. rewrite app_assoc, at_load_ok. comp. rewrite load_to_push_ok.
  rewrite <- app_assoc, E3. comp. rewrite emits_ok by room. app_eq.
Qed.

Lemma post_ok up e : parse_ok e -> parse_ok (EPost up e).
Proof.
  intros IH. start. rewrite length_app in Hf. cbn [length] in Hf. split_bools.
  apply bind_Some in Hg as ([g0 [sz|]] & Hg0 & Hg); [|done]. injection Hg as <- <-.
  operator_of (EPost up e) e IH Hg0.
  intros l1 H1. adv H1 l2 E2 H2. exists l2. split; [done|]. unfold Expr.operator. cbn [lex].
  destruct up; cbn [updown_tok updown negb] in *; token H1; unfold post_incr; cbn [lex]; token H1;
    cbn [flat]; rewrite app_assoc, at_load_ok; comp; rewrite push_before_load_ok by room; comp;
    rewrite emits_ok by room; comp; rewrite E2; app_eq.
Qed.

(** ** Calls *)

Lemma no_close e ts : head_tk (toks e ++ ts) <> ch ")".
Proof.
  revert ts. induction e; intros ts; cbn [toks]; rewrite <- ?app_assoc; try done.
  all: match goal with u : bool |- _ => by destruct u end.
Qed.

Definition args_ok (es : exs) : Prop := forall f n t l c u rest g,
  gens (length c) es = Some g -> (length c + length g + 2 <= nr_code)%nat -> all_fit es = true ->
  stream l (arg_toks es ++ chr ")" :: rest) -> (length (arg_toks es) < f)%nat ->
  (length (arg_toks es) < n)%nat ->
  exists l' u', stream l' (chr ")" :: rest) /\
    args STR strsize junk (expr f) n t (Comp l c u) =
      Done (t + Z.of_nat (nr_args es), Comp l' (c ++ g) u').

Lemma args_nil : args_ok ENil.
Proof.
  intros f n t l c u rest g Hg Hroom Hfit Hs Hf Hn. cbn in Hg, Hn. simplify_eq.
  destruct n as [|n]; [lia|]. cbn [arg_toks app] in Hs. exists l, u. split; [done|]. cbn [args lex]. token Hs. cbn [nr_args].
  by rewrite Z.add_0_r, app_nil_r.
Qed.

Lemma args_cons e es : parse_ok e -> args_ok es -> args_ok (ECons e es).
Proof.
  intros IHe IHs f n t l c u rest g Hg Hroom Hfit Hs Hf Hn. cbn [ExprSem.gens] in Hg.
  apply bind_Some in Hg as (g0 & Hg0 & Hg). apply bind_Some in Hg as (d & Hd & Hg).
  injection Hg as <-. cbn [all_fit] in Hfit. split_bools. cbn [arg_toks] in Hs, Hf, Hn.
  rewrite !length_app in Hf, Hn. rewrite <- !app_assoc in Hs. pose proof (length_flat g0) as Hl0.
  pose proof (proj1 toks_pos e) as Hpos. destruct n as [|n]; [lia|].
  set (tail := match es with ENil => [] | _ => [chr ","] end ++ arg_toks es ++ chr ")" :: rest) in *.
  assert (head_tk tail = ch "," \/ head_tk tail = ch ")") as Htail
    by (unfold tail; destruct es; [by right|by left]).
  assert (closes e (head_tk tail) = true) as Hcl
    by (destruct Htail as [-> | ->]; by apply closes_small).
  destruct (operand_ok e f Assign l c u (length c) tail g0) as (l1 & H1 & E1);
    [done|done|done|room|done|done|done|lia|by destruct Htail as [-> | ->]|done|].
  assert (exists l2, stream l2 (arg_toks es ++ chr ")" :: rest) /\ forall c' t',
    (if tk l1 =? ch "," then advance (Comp l1 c' t') else Done (Comp l1 c' t')) = Done (Comp l2 c' t'))
    as (l2 & H2 & E2).
  { rewrite (stream_tk _ _ H1). unfold tail in *. destruct es as [|e1 es].
    - exists l1. split; [exact H1|]. done.
    - cbn [app] in H1. adv H1 l2 E2 H2. exists l2. split; [exact H2|]. intros. apply E2. }
  destruct (IHs f n (t + 1) l2 (c ++ flat g0 ++ [Op.PSH]) (typ e) rest d) as (l' & u' & H' & E');
    [|room|done|done|lia|destruct es; cbn [length] in *; lia|].
  { rewrite <- Hd. f_equal. by rewrite length_app. }
  exists l', u'. split; [done|]. cbn [args lex]. rewrite (stream_tk _ _ Hs).
  rewrite (proj2 (Z.eqb_neq _ _) (no_close e _)), E1. comp. rewrite emit_ok by room. comp.
  rewrite E2. comp. rewrite <- app_assoc, E'. cbn [nr_args]. rewrite <- !app_assoc.
  do 2 f_equal. lia.
Qed.

Lemma call_parses k es : args_ok es -> parse_ok (ECall k es).
Proof.
  intros IH. start. destruct (tab !! k) as [y|] eqn:Hy; [|done]. cbn [mbind option_bind] in Hg.
  destruct (class y =? Sys) eqn:Hsys; [|done]. apply bind_Some in Hg as (d & Hd & Hg).
  injection Hg as <- <-. cbn [length] in Hf. rewrite length_app in Hf. cbn [length] in Hf.
  pose proof Hs as [_ [(_ & _ & Hi) _]]. destruct Hi as [Hid _]; [by left|]. cbn in Hid.
  adv Hs l1 E1 H1. adv H1 l2 E2 H2.
  destruct (IH f f 0 l2 c t rest d) as (l3 & u & H3 & E3); [done|room|done|done|lia|lia|].
  adv H3 l4 E4 H4. destruct (sym_at_ok _ _ _ _ k y (c ++ d) u Hs H4 Hy) as (y' & Hy' & Hc & Ht & Hv).
  eapply (of_unary (ECall k es)); [|exact (bump_stream k _ _ H4)|cbn; lia].
  unfold Expr.unary. cbn [lex]. token Hs. rewrite E1. comp. token H1. unfold call.
  rewrite E2. comp. rewrite E3. comp. rewrite E4. comp. rewrite Hid, Hy'. cbn [get]. comp.
  rewrite Hc, Ht, Hv, Hsys, emit_ok by room. comp. unfold bump_ref. comp.
  cbn [ExprSem.typ]. unfold sym_type. rewrite Hy. cbn [fmap option_fmap option_map default].
  destruct (nr_args es) as [|n] eqn:Hn; cbn [Nat.eqb] in *.
  - comp. app_eq.
  - replace (0 + Z.of_nat (S n) =? 0) with false by lia. cbn [negb].
    rewrite emits_ok by room. comp. app_eq.
Qed.

(** ** All trees *)

Lemma parse_trees : (forall e, parse_ok e) /\ (forall es, args_ok es).
Proof.
  apply ex_exs_ind.
  - apply int_ok.
  - apply negint_ok.
  - apply str_ok.
  - apply sizeof_ok.
  - apply var_ok.
  - apply call_parses.
  - apply paren_ok.
  - apply cast_ok.
  - apply deref_ok.
  - apply addr_ok.
  - intros e He. by apply prefix_ok.
  - intros e He. by apply prefix_ok.
  - intros e He. by apply prefix_ok.
  - intros e He. by apply prefix_ok.
  - apply pre_ok.
  - apply post_ok.
  - intros a Ha b Hb. by apply assign_parses.
  - intros a Ha b Hb e He. by apply cond_ok.
  - intros a Ha b Hb. by apply logic_ok.
  - intros a Ha b Hb. by apply logic_ok.
  - intros o a Ha b Hb. by apply bin_ok.
  - intros a Ha b Hb. by apply add_ok.
  - intros a Ha b Hb. by apply sub_ok.
  - intros a Ha b Hb. by apply index_ok.
  - apply args_nil.
  - intros e He es Hes. by apply args_cons.
Qed.
End lexing.
