(* ===== verification/ExprProgram.v ===== *)
(** * Compiling and running an expression (expr.c)

    The composition of the lexer, the compiler and the machine: a text whose
    tokens are those of expressions separated by commas compiles, and the program
    gives the value of the last one.  The string buffer is large enough for every
    text, and the lexer fails on no text but one whose last character is a backslash
    inside a literal. *)

From Stdlib Require Import Ascii String.
From stdpp Require Import relations.
From S2P Require Import Prelude Bytes Expr ExprSem ExprVm ExprParse.

(** ** Sequences of expressions *)

Section seq.
Context (tab : list symbol) (printf_args : gmap Z Z -> list Z -> option Z) (ksymbol : Z -> Z) (le : Z).

Fixpoint seq_toks (e : ex) (es : list ex) : list tok :=
  toks e ++ match es with [] => [] | e' :: es => chr "," :: seq_toks e' es end.

(** The code of the expressions one after the other. *)
Fixpoint gen_seq (n : nat) (e : ex) (es : list ex) : option (list Z) :=
  c ← flat <$> gen tab le n e;
  match es with
  | [] => Some c
  | e' :: es => d ← gen_seq (n + length c) e' es; Some (c ++ d)
  end.

(** The value of the last one. *)
Fixpoint ev_seq (e : ex) (es : list ex) (m : gmap Z Z) : option (Z * gmap Z Z) :=
  '(v, m) ← ev tab printf_args ksymbol e m;
  match es with [] => Some (v, m) | e' :: es => ev_seq e' es m end.

(** ** Running *)

Lemma seq_runs insns es : forall e n c m v m' a,
  gen_seq n e es = Some c -> code_at insns (S n) c -> ev_seq e es m = Some (v, m') ->
  Forall (fun e => (depth e <= 512)%nat) (e :: es) ->
  runs printf_args ksymbol insns le (S n, [], a, m) ((S n + length c)%nat, [], v, m').
Proof.
  induction es as [|e' es IH]; intros e n c m v m' a Hg Hc Hv Hd; cbn [gen_seq ev_seq] in Hg, Hv;
    apply bind_Some in Hg as (c1 & Hc1 & Hg); apply bind_Some in Hv as ([v1 m1] & Hv1 & Hv);
    inversion_clear Hd as [|? ? Hd1 Hd2].
  - simplify_eq. by eapply (flat_ok printf_args ksymbol insns le tab e n), Hd1; [apply gen_correct|..].
  - apply bind_Some in Hg as (d & Hg & Heq). injection Heq as <-.
    apply (code_at_app printf_args ksymbol) in Hc as [Hc1' Hc2]. rewrite length_app.
    eapply runs_trans;
      [by eapply (flat_ok printf_args ksymbol insns le tab e n), Hd1; [apply gen_correct|..]|].
    rewrite Nat.add_assoc. by eapply (IH e' (n + length c1)%nat).
Qed.

Context (printf : gmap Z Z -> list Z -> Z) (stack_at : Z).
(** Given enough arguments, [printf] looks at no more words than these. *)
Hypothesis Hprintf : forall m vs ws v, vs <> [] -> length ws = 7%nat ->
  take (length vs) ws = take 7 vs -> printf_args m (take 7 vs) = Some v -> printf m ws = v.

Lemma run_seq e es c m v m' stack0 :
  gen_seq 0 e es = Some c -> ev_seq e es m = Some (v, m') ->
  Forall (fun e => (depth e <= 512)%nat) (e :: es) -> length stack0 = 512%nat ->
  exists n, forall fuel,
    expr_run printf ksymbol (0 :: c ++ [Op.EXIT]) le stack_at stack0 m (n + fuel) = Some (v, m').
Proof.
  intros Hg Hv Hd Hl. set (insns := 0 :: c ++ [Op.EXIT]).
  assert (code_at insns 1 c) as Hc by (intros i x Hi; cbn; by apply lookup_app_l_Some).
  pose proof (seq_runs insns es e 0 c m v m' 0 Hg Hc Hv Hd) as Hr.
  destruct (vm_run_steps printf_args ksymbol insns le printf stack_at Hprintf _ _ Hr
    (Vm 1 512 512 0 stack0 m)) as (n & s' & Hs & E).
  { split; cbn; [done..|lia|]. rewrite drop_ge; [done|lia]. }
  exists (n + 1)%nat. intros fuel. unfold expr_run. rewrite <- Nat.add_assoc, E. cbn [Nat.add vm_run].
  pose proof (ref_pc _ _ Hs) as Hp. pose proof (ref_acc _ _ Hs) as Ha. pose proof (ref_mem _ _ Hs) as Hm.
  cbn in Hp, Ha, Hm.
  assert (ExprVm.word insns (S (length c)) Op.EXIT) as Hw
    by (unfold ExprVm.word, insns; rewrite lookup_cons, lookup_app_r, Nat.sub_diag by lia; done).
  unfold vm_step. rewrite (fetch_operand ksymbol _ _ _ _ Hp Hw). cbn. by rewrite Ha, Hm.
Qed.
End seq.

(** ** [printf]

    [takes] is how many arguments the conversions of the format at an address take.  With
    fewer the call is undefined; those beyond are ignored. *)

Definition printf_given (printf : gmap Z Z -> list Z -> Z) (takes : gmap Z Z -> Z -> nat) (m : gmap Z Z) (vs : list Z) : option Z :=
  match vs with
  | f :: ws => if (takes m f <=? length ws)%nat then Some (printf m (f :: take (takes m f) ws)) else None
  | [] => None
  end.

Lemma printf_given_ok printf takes :
  (forall m f ws, printf m (f :: ws) = printf m (f :: take (takes m f) ws)) ->
  forall m vs ws v, vs <> [] -> length ws = 7%nat -> take (length vs) ws = take 7 vs ->
  printf_given printf takes m (take 7 vs) = Some v -> printf m ws = v.
Proof.
  intros Hignores m [|f vs] [|f' ws] v Hv Hl Ht Hg; try done. cbn [length take printf_given] in *. injection Ht as -> Ht.
  destruct (Nat.leb_spec (takes m f) (length (take 6 vs))) as [Hle|]; [|done]. injection Hg as <-.
  rewrite Hignores, <- Ht, take_take. rewrite length_take in Hle. by rewrite Nat.min_l by lia.
Qed.

(** ** Compiling *)

Section compile.
Context (STR : Z) (junk : nat -> symbol) (tab : list symbol) (le : Z) (text : list Z).
Local Abbreviation stream := (stream STR (length text) junk tab).
Local Abbreviation exprs := (exprs STR junk le text).
Local Abbreviation next := (next STR (length text) junk).

Lemma seq_toks_length e es : (0 < length (seq_toks e es))%nat.
Proof. destruct es; cbn; rewrite length_app; pose proof (proj1 (toks_pos 0 junk) e); lia. Qed.

Lemma exprs_ok fuel es : forall n e l l0 c t g,
  gen_seq tab le (length c) e es = Some g -> (length c + length g + 2 <= nr_code)%nat ->
  Forall (fun e => fits e Assign = true) (e :: es) ->
  next l = Some l0 -> stream l0 (seq_toks e es) -> (length (seq_toks e es) < fuel)%nat ->
  (length es < n)%nat ->
  exists l' t', exprs n fuel (Comp l c t) = Done (Comp l' (c ++ g) t').
Proof.
  induction es as [|e' es IH]; intros n e l l0 c t g Hg Hroom Hfit Hn Hs Hf Hlt;
    (destruct n as [|n]; [cbn in Hlt; lia|]); cbn [gen_seq] in Hg; cbn [seq_toks] in Hs, Hf;
    apply bind_Some in Hg as (c1 & Hc1 & Hg); apply fmap_Some in Hc1 as (g1 & Hg1 & ->);
    pose proof (length_flat 0 junk g1) as Hl1; apply Forall_cons in Hfit as [Hfit1 Hfit2];
    rewrite length_app in Hf; cbn [length] in Hf, Hlt.
  - injection Hg as <-. destruct (operand_ok STR (length text) junk tab le e fuel Assign l0 c t _ [] g1
      (proj1 (parse_trees _ _ _ _ _) e) Hg1) as (l1 & H1 & E1); [done|lia|done|by apply (closes_small 0 junk)|done|lia|done|done|].
    exists l1, (typ tab e). cbn [Expr.exprs]. unfold advance. cbn [lex]. rewrite Hn.
    cbn [get mbind outcome_bind code ty]. rewrite E1. cbn [mbind outcome_bind lex].
    by rewrite (stream_tk _ _ _ _ _ _ H1).
  - apply bind_Some in Hg as (d & Hd & Hg). injection Hg as <-. rewrite length_app in Hroom.
    destruct (operand_ok STR (length text) junk tab le e fuel Assign l0 c t _ (chr "," :: seq_toks e' es) g1
      (proj1 (parse_trees _ _ _ _ _) e) Hg1) as (l1 & H1 & E1);
      [done|lia|done|by apply (closes_small 0 junk)|done|lia|done|done|].
    pose proof H1 as [_ [_ (l2 & E2 & H2)]].
    destruct (IH n e' l1 l2 (c ++ flat g1) (typ tab e) d) as (l' & t' & E');
      [by rewrite length_app|rewrite length_app; lia|done|done|done|lia|lia|].
    exists l', t'. cbn [Expr.exprs]. unfold advance. cbn [lex]. rewrite Hn.
    cbn [get mbind outcome_bind code ty]. rewrite E1. cbn [mbind outcome_bind lex].
    rewrite (stream_tk _ _ _ _ _ _ H1). cbn [head_tk t_tk chr op]. rewrite Z.eqb_refl, E'.
    by rewrite <- app_assoc.
Qed.

Lemma length_seq_toks e es : (length es < length (seq_toks e es))%nat.
Proof.
  revert e. induction es as [|e' es IH]; intros e; cbn [seq_toks]; rewrite length_app;
    pose proof (proj1 (toks_pos 0 junk) e); cbn [length]; [lia|]. specialize (IH e'). lia.
Qed.
End compile.

(** ** Reading off the tokens of a text *)

Section reads.
Context (STR : Z) (strsize : nat) (junk : nat -> symbol) (tab : list symbol).

Definition shows_b (s : lexer) (t : tok) : bool :=
  (tk s =? t_tk t) &&
  (if bool_decide (t_tk t = Num \/ t_tk t = DQUOTE) then ival s =? t_ival t else true) &&
  (if bool_decide (t_tk t = Id \/ t_tk t = Int)
   then bool_decide (id s = t_id t /\ is_Some (tab !! t_id t)) else true).

Fixpoint reads (s : lexer) (ts : list tok) : bool :=
  bool_decide (core <$> symtab s = core <$> tab) &&
  match ts with
  | [] => tk s =? 0
  | t :: ts => shows_b s t && match next STR strsize junk s with Some s => reads s ts | None => false end
  end.

Lemma shows_ok s t : shows_b s t = true -> shows tab s t.
Proof.
  unfold shows_b, shows. rewrite !andb_true_iff, Z.eqb_eq. intros [[H1 H2] H3]. split; [done|].
  split; intros Hc.
  - rewrite bool_decide_eq_true_2 in H2 by done. by apply Z.eqb_eq.
  - rewrite bool_decide_eq_true_2 in H3 by done. by apply bool_decide_eq_true in H3.
Qed.

Lemma reads_ok ts : forall s, reads s ts = true -> stream STR strsize junk tab s ts.
Proof.
  induction ts as [|t ts IH]; intros s; cbn [reads stream]; rewrite andb_true_iff, bool_decide_eq_true.
  - rewrite Z.eqb_eq. done.
  - rewrite andb_true_iff. intros (H1 & H2 & H3). split; [done|]. split; [by apply shows_ok|].
    destruct (next STR strsize junk s) as [s'|]; [|done]. exists s'. split; [done|]. by apply IH.
Qed.
End reads.

(** ** The string buffer *)

Section buffer.
Context (STR : Z) (strsize : nat) (junk : nat -> symbol).
Local Abbreviation next := (next STR strsize junk).
Local Abbreviation next_loop := (next_loop STR strsize junk).

Definition left (s : lexer) : nat := length (default [] (src s)).

(** From [l], what is left of the text is at its end, and what is written to the buffer
    was read. *)
Definition consumes (l : list Z) (s s' : lexer) : Prop :=
  (forall r, src s' = Some r -> r `suffix_of` l) /\
  (length (str s') + left s' <= length (str s) + length l)%nat.

Lemma consumes_cons c l s s' : consumes l s s' -> consumes (c :: l) s s'.
Proof.
  intros [H1 H2]. split; [intros r Hr; by apply suffix_cons_r, H1|]. cbn. lia.
Qed.

Lemma consumes_suffix l l' s s' : l' `suffix_of` l -> consumes l' s s' -> consumes l s s'.
Proof.
  intros Hl [H1 H2]. pose proof (suffix_length _ _ Hl). split; [|lia].
  intros r Hr. etrans; [by apply H1|done].
Qed.

Lemma consumes_at l r s s' : src s' = Some r -> r `suffix_of` l -> str s' = str s -> consumes l s s'.
Proof.
  intros Hr Hs E. pose proof (suffix_length _ _ Hs). split.
  - intros r' Hr'. by simplify_eq.
  - unfold left. rewrite Hr, E. cbn. lia.
Qed.

Lemma suffix_tail (n : nat) (l : list Z) : drop n l `suffix_of` l.
Proof. exists (take n l). by rewrite take_drop. Qed.

Lemma suffix_nil_l (l : list Z) : [] `suffix_of` l.
Proof. exists l. by rewrite app_nil_r. Qed.

Create HintDb suffixes discriminated.
#[local] Hint Resolve suffix_tail suffix_nil_l suffix_cons_r : suffixes.
#[local] Hint Extern 0 (_ `suffix_of` _) => reflexivity : suffixes.

Lemma skip_line_suffix l : skip_line l `suffix_of` l.
Proof. induction l as [|c l IH]; cbn; [done|]. destruct (c =? 10); auto with suffixes. Qed.

Lemma ident_suffix l : forall h, (ident_loop h l).2 `suffix_of` l.
Proof. induction l as [|c l IH]; intros h; cbn; [done|]. destruct (_ || _); auto with suffixes. Qed.

Lemma digits_suffix l : forall i,
  (dec_loop i l).2 `suffix_of` l /\ (hex_loop i l).2 `suffix_of` l /\ (oct_loop i l).2 `suffix_of` l.
Proof.
  induction l as [|c l IH]; intros i; cbn; [done|].
  split; [|split].
  - destruct (is_digit c); [|done]. apply suffix_cons_r, IH.
  - destruct (is_hex c); [|done]. apply suffix_cons_r, IH.
  - destruct (between _ _ _); [|done]. apply suffix_cons_r, IH.
Qed.

Lemma number_suffix c l : (number c l).2 `suffix_of` l.
Proof.
  unfold number. destruct (negb _); [apply digits_suffix|].
  destruct (_ || _); [|apply digits_suffix].
  etrans; [apply digits_suffix|apply suffix_tail].
Qed.

(** The inside of a literal. *)
Lemma lit_loop_ok q l0 : forall i out,
  match lit_loop q i out l0 with
  | Some (_, out', rest) => rest `suffix_of` l0 /\ (length out' + length rest <= length out + length l0)%nat
  | None => last l0 = Some (ch "\")
  end.
Proof.
  assert (forall l n i out, length l = n ->
    match lit_loop q i out l with
    | Some (_, out', rest) => rest `suffix_of` l /\ (length out' + length rest <= length out + length l)%nat
    | None => last l = Some (ch "\")
    end) as H; [|by intros; eapply H].
  intros l n. revert l. induction n as [n IH] using lt_wf_ind. intros [|c l] i out Hn; cbn [lit_loop].
  { split; [done|]. cbn. lia. }
  destruct (c =? q); [split; [done|cbn; lia]|].
  assert (forall x : Z, (length (if (q =? DQUOTE)%Z then out ++ [u8 x] else out) <= length out + 1)%nat) as Hpush
    by (intros x; destruct (q =? DQUOTE); rewrite ?length_app; cbn; lia).
  destruct (Z.eqb_spec c (ch "\")) as [->|Hc].
  - destruct l as [|c' l]; [done|].
    set (iv := if c' =? ch "n" then 10 else s8 c').
    set (o := if q =? DQUOTE then out ++ [u8 iv] else out).
    specialize (IH (length l) ltac:(cbn in Hn; lia) l iv o eq_refl).
    destruct (lit_loop q iv o l) as [[[? out'] rest]|].
    + destruct IH as [H1 H2]. split; [auto with suffixes|]. specialize (Hpush iv). fold o in Hpush. cbn. lia.
    + destruct l; [done|]. exact IH.
  - set (o := if q =? DQUOTE then out ++ [u8 (s8 c)] else out).
    specialize (IH (length l) ltac:(cbn in Hn; lia) l (s8 c) o eq_refl).
    destruct (lit_loop q (s8 c) o l) as [[[? out'] rest]|].
    + destruct IH as [H1 H2]. split; [auto with suffixes|]. specialize (Hpush (s8 c)). fold o in Hpush. cbn. lia.
    + destruct l; [done|]. exact IH.
Qed.

Lemma next_literal_ok q c l s : (length (str s) + S (length l) <= strsize)%nat ->
  match next_literal STR strsize q l s with
  | Some s' => consumes (c :: l) s s'
  | None => last (c :: l) = Some (ch "\")
  end.
Proof.
  intros Hsz. unfold next_literal. pose proof (lit_loop_ok q l (ival s) []) as H.
  destruct (lit_loop q (ival s) [] l) as [[[iv out] rest]|]; cbn.
  - destruct H as [H1 H2]. cbn in H2. rewrite !length_app. cbn.
    destruct (Nat.leb_spec (length (str s) + (length out + 1)) strsize); [|lia].
    unfold consumes, left. cbn. rewrite !length_app. cbn. destruct rest as [|x rest]; cbn in *.
    + split; [done|lia].
    + split; [|lia]. intros r [= <-]. etrans; [|apply suffix_cons_r, H1]. auto with suffixes.
  - by destruct l.
Qed.

Lemma next_op_ok c l s s' : next_op c l s = Some s' -> consumes (c :: l) s s'.
Proof.
  intros H. apply consumes_cons.
  assert (exists n t, s' = at_tok (drop n l) t s) as (n & t & ->).
  { revert H. unfold next_op, op2, op3.
    repeat (case_match; try (intros [= <-]; first [by eexists 1%nat, _ | by eexists 0%nat, _])); done. }
  eapply (consumes_at _ (drop n l)); auto with suffixes.
Qed.

Lemma next_ident_ok c l s : consumes (c :: l) s (next_ident junk (c :: l) s).
Proof.
  unfold next_ident. change (drop 1 (c :: l)) with l.
  pose proof (ident_suffix l (peek (c :: l))) as H.
  destruct (ident_loop (peek (c :: l)) l) as [h rest]. cbn [snd] in H.
  destruct (find_sym _ _ _ _ _) as [found k]. destruct found.
  - eapply (consumes_at _ rest); [done|auto with suffixes|done].
  - destruct (k =? _)%nat; (eapply (consumes_at _ rest); [done|auto with suffixes|done]).
Qed.

Lemma last_suffix (l l' : list Z) x : l' `suffix_of` l -> last l' = Some x -> last l = Some x.
Proof. intros [k ->] H. by rewrite last_app, H. Qed.

Lemma next_loop_ok n : forall l s, (length l < n)%nat -> (length (str s) + length l <= strsize)%nat ->
  match next_loop n l s with
  | Some s' => consumes l s s'
  | None => last l = Some (ch "\")
  end.
Proof.
  induction n as [|n IH]; intros l s Hn Hsz; [lia|].
  assert (forall l', l' `suffix_of` l -> (length l' < length l)%nat ->
    match next_loop n l' s with Some s' => consumes l s s' | None => last l = Some (ch "\") end) as Hrec.
  { intros l' Hl Hlt. specialize (IH l' s ltac:(lia) ltac:(lia)).
    destruct (next_loop n l' s); [by eapply consumes_suffix|by eapply last_suffix]. }
  destruct l as [|c l]; cbn [Expr.next_loop].
  { by eapply (consumes_at _ []). }
  pose proof (suffix_length _ _ (skip_line_suffix l)) as Hskip.
  destruct (c =? 10); [apply Hrec; [auto with suffixes|cbn; lia]|].
  destruct (c =? ch "#"); [apply Hrec; [apply suffix_cons_r, skip_line_suffix|cbn; lia]|].
  destruct (is_alpha c); [apply next_ident_ok|].
  destruct (is_digit c).
  { pose proof (number_suffix c l) as H. destruct (number c l) as [iv rest]. cbn in H.
    eapply (consumes_at _ rest); auto with suffixes. }
  destruct (c =? ch "/").
  { destruct (peek l =? ch "/"); [|eapply (consumes_at _ l); auto with suffixes].
    pose proof (suffix_length _ _ (skip_line_suffix (drop 1 l))) as H. rewrite length_drop in H.
    apply Hrec; [|cbn; lia]. apply suffix_cons_r. etrans; [apply skip_line_suffix|apply suffix_tail]. }
  destruct (_ || _); [apply next_literal_ok; cbn in Hsz; lia|].
  pose proof (next_op_ok c l s) as Hop. destruct (next_op c l s) as [s'|]; [by apply Hop|].
  apply Hrec; [auto with suffixes|cbn; lia].
Qed.

Lemma next_ok s l : src s = Some l -> (length (str s) + length l <= strsize)%nat ->
  match next s with Some s' => consumes l s s' | None => last l = Some (ch "\") end.
Proof. intros Hl Hsz. unfold Expr.next. rewrite Hl. cbn [mbind option_bind].
  apply next_loop_ok; [lia|done]. Qed.

Definition next_to (s s' : lexer) : Prop := next s = Some s'.

(** On a text the buffer is as long as. *)
Lemma text_consumed text s0 s : src s0 = Some text -> str s0 = [] -> length text = strsize ->
  rtc next_to s0 s -> consumes text s0 s.
Proof.
  intros Hsrc Hstr Hlen. revert s. apply rtc_ind_r; [by eapply consumes_at|].
  intros s s1 _ E [H1 H2]. unfold next_to in E. destruct (src s) as [l|] eqn:Hl.
  - unfold left in H2. rewrite Hl, Hstr in H2. cbn in H2.
    pose proof (next_ok s l Hl ltac:(lia)) as Hn. rewrite E in Hn. specialize (H1 l eq_refl).
    destruct Hn as [Hn1 Hn2]. split; [intros r Hr; etrans; [by apply Hn1|done]|].
    rewrite Hstr. cbn. lia.
  - unfold Expr.next in E. by rewrite Hl in E.
Qed.
End buffer.

(** ** Properties *)

Section properties.
Context (STR : Z) (junk : nat -> symbol) (le : Z).

(** C6: The compiler reads an expression the way the grammar says and emits its code:
    from the tokens of a tree that binds as the precedences say, followed by a token that
    closes it, [expr] at the lowest level stops at that token, having appended exactly the
    code [gen] of the tree and left the type of the tree. *)
Theorem expr_emits_code strsize tab e fuel l c t rest g :
  gen tab le (length c) e = Some g -> (length c + length g.1 + 2 <= nr_code)%nat ->
  fits e Assign = true -> closes e (head_tk rest) = true -> head_tk rest < Assign ->
  stream STR strsize junk tab l (toks e ++ rest) -> (length (toks e) < fuel)%nat ->
  exists l', stream STR strsize junk tab l' rest /\
    expr STR strsize junk le fuel Assign (Comp l c t) = Done (Comp l' (c ++ flat g) (typ tab e)).
Proof.
  intros Hg Hroom Hfit Hcl Hrest Hs Hf.
  by eapply (operand_ok STR strsize junk tab le e); [apply parse_trees|..].
Qed.

(** C11: The machine computes what an expression means: the code of a sequence of
    expressions, run by [expr_run] with any contents of its stack, returns the value of
    the last expression and leaves the memory that evaluating all of them leaves, when no
    expression needs more than the 512 words of the stack.  Of [printf], which is any
    function of the memory and its words that returns a number, it is assumed what C says:
    arguments beyond those the format takes ([takes]) are ignored.  Evaluating a call with
    fewer arguments than that has no value, so nothing is said of it. *)
Theorem expr_run_computes tab printf takes ksymbol stack_at e es c m v m' stack0
  (Hignores : forall m f ws, printf m (f :: ws) = printf m (f :: take (takes m f) ws)) :
  gen_seq tab le 0 e es = Some c -> ev_seq tab (printf_given printf takes) ksymbol e es m = Some (v, m') ->
  Forall (fun e => (depth e <= 512)%nat) (e :: es) -> length stack0 = 512%nat ->
  exists n, forall fuel,
    expr_run printf ksymbol (0 :: c ++ [Op.EXIT]) le stack_at stack0 m (n + fuel) = Some (v, m').
Proof. eapply run_seq, printf_given_ok, Hignores. Qed.

(** C4: Compiling a text and running the program gives the value of the text's last
    expression: when, after the keywords, the library and the variables are declared, the
    text reads as the tokens of expressions separated by commas, which bind as the
    precedences say, [expr_compile] succeeds, and [expr_run] of the program it returns
    computes the expressions in the memory the program is run in.  The conditions: the code
    and two more words fit in the [nr_code] words there are, no expression needs more than
    the 512 words of the stack, and evaluating them has a value; the code stays where it
    was emitted.  Of [printf] it is assumed, as C says, that arguments beyond those the
    format takes ([takes]) are ignored; a call with fewer has no value. *)
Theorem expr_compile_computes data_at text ds fuel s0 size used l l0 tab e es c
  printf takes ksymbol stack_at
  (Hignores : forall m f ws, printf m (f :: ws) = printf m (f :: take (takes m f) ws)) :
  add_builtins STR junk text lexer0 = Some s0 ->
  declare_globals STR junk data_at text fuel 256 ds s0 = Some (Some (size, used, l)) ->
  next STR (length text) junk (start text l) = Some l0 ->
  stream STR (length text) junk tab l0 (seq_toks e es) ->
  Forall (fun e => fits e Assign = true /\ (depth e <= 512)%nat) (e :: es) ->
  gen_seq tab le 0 e es = Some c -> (length c + 2 <= nr_code)%nat ->
  (length (seq_toks e es) < fuel)%nat ->
  exists p, expr_compile STR junk le le data_at text fuel (Some ds) = Done (Some p) /\
    forall m v m' stack0, ev_seq tab (printf_given printf takes) ksymbol e es m = Some (v, m') ->
      length stack0 = 512%nat ->
      exists n, forall more, expr_run printf ksymbol (insn p) (insn_base p) stack_at stack0 m (n + more)
        = Some (v, m').
Proof.
  intros H0 Hd Hn Hs [Hfit Hdep]%Forall_and Hg Hroom Hf. pose proof (length_seq_toks junk e es) as Hl.
  destruct (exprs_ok STR junk tab le text fuel es fuel e (start text l) l0 [] 0 c)
    as (l' & t' & E); [done..|lia|].
  eexists. split.
  - unfold expr_compile. rewrite H0. cbn [get mbind outcome_bind]. rewrite Hd.
    cbn [get mbind outcome_bind]. rewrite E. cbn [mbind outcome_bind app].
    rewrite emit_ok by lia. cbn [mbind outcome_bind lex code]. reflexivity.
  - intros m v m' stack0 Hv Hst. cbn [insn insn_base]. by eapply run_seq; [by apply printf_given_ok|..].
Qed.

(** The buffer for the strings of a text, as long as the text, is never overflown:
    however many tokens are read, what is written to it fits, and [next] fails only after
    a literal that is not closed or in a text that ends with a backslash inside one. *)
Theorem next_in_buffer text s0 s :
  src s0 = Some text -> str s0 = [] -> rtc (next_to STR (length text) junk) s0 s ->
  (length (str s) <= length text)%nat /\
  (next STR (length text) junk s = None -> src s = None \/ last text = Some (ch "\")).
Proof.
  intros Hsrc Hstr H. destruct (text_consumed _ _ _ text s0 s Hsrc Hstr eq_refl H) as [H1 H2].
  rewrite Hstr in H2. cbn in H2. split; [lia|]. intros Hn.
  destruct (src s) as [r|] eqn:Hr; [|by left]. right. unfold left in H2. rewrite Hr in H2. cbn in H2.
  pose proof (next_ok STR (length text) junk s r Hr ltac:(lia)) as H3. rewrite Hn in H3.
  eapply last_suffix; [by apply H1|done].
Qed.
(** The test for an lvalue looks at a word of the code, not at an instruction: any
    binary operation whose right operand is the constant 8, the number of [LI], passes
    it, though it is no object and no tree assigns to it. *)
Theorem lvalue_test_takes_eight tab o a n g l t err :
  gen tab le n (EBin o a (EInt 8)) = Some g ->
  at_load err (Comp l (flat g) t) = Done tt /\
  forall r, gen tab le n (EAssign (EBin o a (EInt 8)) r) = None.
Proof.
  cbn [gen]. destruct (flat <$> gen tab le n a) as [ca|]; [|done]. cbn. intros [= <-]. split; [|done].
  unfold at_load, prev_word. cbn [flat code]. rewrite length_app, Nat.add_comm. cbn [length Nat.add].
  rewrite lookup_app_r by lia. by replace (S (S (length ca)) - length ca)%nat with 2%nat by lia.
Qed.
End properties.

(** ** An example

    The text [x = 2 * (y + 1), x > 5 ? printf("%d", x) : -y] with two [int] variables in the
    data. *)

Definition ex_text : list Z :=
  chars "x = 2 * (y + 1), x > 5 ? printf("%string ++ [34] ++ chars "%d"%string ++ [34] ++ chars ", x) : -y"%string.
Definition ex_junk (n : nat) : symbol := symbol0.
Definition ex_vars : list global_var_declare :=
  [GlobalVarDeclare (chars "x") 0 4 4; GlobalVarDeclare (chars "y") 4 4 4].
Definition ex_builtins : option lexer := Eval vm_compute in add_builtins 8192 ex_junk ex_text lexer0.
Definition ex_declared : option (option (Z * Z * lexer)) :=
  Eval vm_compute in s ← ex_builtins; declare_globals 8192 ex_junk (fun _ => 4096) ex_text 40 256 ex_vars s.
Definition ex_lexer : lexer :=
  Eval vm_compute in match ex_declared with Some (Some (_, _, l)) => l | _ => lexer0 end.
Definition ex_start : lexer :=
  Eval vm_compute in default lexer0 (next 8192 (length ex_text) ex_junk (start ex_text ex_lexer)).
Definition ex_first : ex := EAssign (EVar 10) (EBin BMul (EInt 2) (EParen (EAdd (EVar 11) (EInt 1)))).
Definition ex_second : ex :=
  ECond (EBin BGt (EVar 10) (EInt 5)) (ECall 5 (ECons (EStr 8192) (ECons (EVar 10) ENil))) (ENeg (EVar 11)).
Definition ex_code : list Z :=
  Eval vm_compute in default [] (gen_seq (symtab ex_lexer) 16384 0 ex_first [ex_second]).
(** [y] is 3, and the format is where the compiler put it. *)
Definition ex_mem : gmap Z Z := mem_of 4096 [0; 0; 0; 0; 3; 0; 0; 0] (mem_of 8192 [37; 100; 0] ∅).
Definition ex_after : gmap Z Z := mem_of 4096 [8; 0; 0; 0; 3; 0; 0; 0] (mem_of 8192 [37; 100; 0] ∅).

(** A [printf] whose conversions all print a decimal number: how many arguments the format
    at an address takes, and how many characters are printed. *)
Fixpoint ex_width (k : nat) (x : Z) : Z :=
  match k with O => 1 | S k => if x <? 0 then 1 + ex_width k (- x) else if x <? 10 then 1 else 1 + ex_width k (x / 10) end.
Fixpoint ex_count (fuel : nat) (m : gmap Z Z) (a : Z) : nat :=
  match fuel, m !! a with
  | S fuel, Some c => if c =? 0 then O else if c =? ch "%" then S (ex_count fuel m (a + 2)) else ex_count fuel m (a + 1)
  | _, _ => O
  end.
Fixpoint ex_print (fuel : nat) (m : gmap Z Z) (a : Z) (ws : list Z) : Z :=
  match fuel, m !! a with
  | S fuel, Some c =>
      if c =? 0 then 0
      else if c =? ch "%" then ex_width 20 (default 0 (head ws)) + ex_print fuel m (a + 2) (tail ws)
      else 1 + ex_print fuel m (a + 1) ws
  | _, _ => 0
  end.
Definition ex_takes : gmap Z Z -> Z -> nat := ex_count 64.
Definition ex_printf (m : gmap Z Z) (ws : list Z) : Z := ex_print 64 m (default 0 (head ws)) (tail ws).
Definition ex_ksymbol (a : Z) : Z := a.

Lemma ex_print_ignores n m : forall a ws, ex_print n m a ws = ex_print n m a (take (ex_count n m a) ws).
Proof.
  induction n as [|n IH]; intros a ws; [done|]. cbn [ex_print ex_count]. destruct (m !! a) as [c|]; [|done]. destruct (c =? 0); [done|].
  destruct (c =? ch "%"); [|f_equal; apply IH]. destruct ws as [|w ws]; cbn [head tail take]; [done|]. f_equal. apply IH.
Qed.

Lemma ex_printf_ignores m f ws : ex_printf m (f :: ws) = ex_printf m (f :: take (ex_takes m f) ws).
Proof. apply ex_print_ignores. Qed.

(** The first expression, followed by a comma. *)
Lemma expr_emits_code_witness : exists l',
  expr 8192 (length ex_text) ex_junk 16384 40 Assign (Comp ex_start [] 0) =
    Done (Comp l' [1; 4096; 11; 1; 2; 11; 1; 4100; 8; 4; 11; 1; 1; 23; 25; 9; 4] INT).
Proof.
  destruct (expr_emits_code 8192 ex_junk 16384 (length ex_text) (symtab ex_lexer) ex_first 40 ex_start
    [] 0 (chr "," :: seq_toks ex_second []) (take 17 ex_code, None)) as (l' & _ & E).
  - by vm_compute.
  - vm_compute. lia.
  - by vm_compute.
  - by vm_compute.
  - by vm_compute.
  - apply reads_ok. by vm_compute.
  - vm_compute. lia.
  - exists l'. exact E.
Defined.

(** [x] becomes 8, and one character is printed. *)
Lemma expr_run_computes_witness : exists n, forall fuel,
  expr_run ex_printf ex_ksymbol (0 :: ex_code ++ [Op.EXIT]) 16384 65536 (replicate 512 0) ex_mem (n + fuel) =
    Some (1, ex_after).
Proof.
  apply (expr_run_computes 16384 (symtab ex_lexer) ex_printf ex_takes ex_ksymbol 65536 ex_first [ex_second]).
  - apply ex_printf_ignores.
  - by vm_compute.
  - by vm_compute.
  - repeat constructor; vm_compute; lia.
  - done.
Defined.

Lemma expr_compile_computes_witness : exists p,
  expr_compile 8192 ex_junk 16384 16384 (fun _ => 4096) ex_text 40 (Some ex_vars) = Done (Some p) /\
  exists n, forall more,
    expr_run ex_printf ex_ksymbol (insn p) (insn_base p) 65536 (replicate 512 0) ex_mem (n + more) =
      Some (1, ex_after).
Proof.
  destruct (expr_compile_computes 8192 ex_junk 16384 (fun _ => 4096) ex_text ex_vars 40
    (default lexer0 ex_builtins) 256 8 ex_lexer ex_start (symtab ex_lexer) ex_first [ex_second] ex_code
    ex_printf ex_takes ex_ksymbol 65536) as (p & Hp & H).
  - apply ex_printf_ignores.
  - by vm_compute.
  - by vm_compute.
  - by vm_compute.
  - apply reads_ok. by vm_compute.
  - repeat constructor; vm_compute; lia.
  - by vm_compute.
  - vm_compute. lia.
  - vm_compute. lia.
  - exists p. split; [exact Hp|]. apply H; [by vm_compute|done].
Defined.

(** A literal that is not closed: the text is over, the buffer full. *)
Lemma next_in_buffer_witness :
  let s0 := start (DQUOTE :: chars "ab"%string) lexer0 in
  exists s, next 8192 3 ex_junk s0 = Some s /\ str s = [97; 98; 0] /\ (length (str s) <= 3)%nat /\
    next 8192 3 ex_junk s = None.
Proof.
  cbv zeta. eexists. split; [vm_compute; reflexivity|]. split; [done|]. split; [|done].
  apply (next_in_buffer 8192 ex_junk (DQUOTE :: chars "ab"%string) (start (DQUOTE :: chars "ab"%string) lexer0)).
  - done.
  - done.
  - apply rtc_once. vm_compute. reflexivity.
Defined.

(** [x * 8] "is" an lvalue. *)
Lemma lvalue_test_takes_eight_witness :
  at_load "bad lvalue in assignment" (Comp ex_start [1; 4096; 8; 4; 11; 1; 8; 25] INT) = Done tt.
Proof.
  apply (lvalue_test_takes_eight ex_junk 16384 (symtab ex_lexer) BMul (EVar 10) 0
    ([1; 4096; 8; 4; 11; 1; 8; 25], None) ex_start INT).
  by vm_compute.
Defined.
