(* ===== verification/RbTree.v ===== *)
(** * Red-black trees, as the code has them (lib/rbtree.c, linux/rbtree.h)

    The nodes are in a memory indexed by their addresses, the parent and the colour of a
    node in one word.  The two branches of a rebalancing step, one the mirror of the other
    in the source, are one definition with the side as a parameter.  A null pointer or an
    address that is no node is [None]. *)

From S2P Require Import Prelude.

Record rb_node := Node { __rb_parent_color : Z; rb_right : Z; rb_left : Z }.

(** The nodes of a memory and the root of the tree looked at. *)
Record rbt := Rbt { nodes : gmap Z rb_node; root : Z }.

(** ** Access to the memory *)

Definition M (A : Type) : Type := rbt -> option (A * rbt).
#[export] Instance M_ret : MRet M := fun A a s => Some (a, s).
#[export] Instance M_bind : MBind M := fun A B f m s =>
  match m s with Some (a, s) => f a s | None => None end.

Definition get (p : Z) : M rb_node := fun s =>
  if p =? 0 then None else n ← nodes s !! p; Some (n, s).
Definition modify (p : Z) (f : rb_node -> rb_node) : M unit := fun s =>
  if p =? 0 then None
  else n ← nodes s !! p; Some (tt, Rbt (<[p := f n]> (nodes s)) (root s)).
Definition get_root : M Z := fun s => Some (root s, s).
Definition set_root (p : Z) : M unit := fun s => Some (tt, Rbt (nodes s) p).

(** ** Fields *)

Definition RB_RED : Z := 0.
Definition RB_BLACK : Z := 1.

Definition pc_parent (pc : Z) : Z := Z.land pc (Z.lnot 3).
Definition pc_color (pc : Z) : Z := Z.land pc 1.
Definition pc_is_black (pc : Z) : bool := negb (pc_color pc =? 0).

Definition parent_color (p : Z) : M Z := n ← get p; mret (__rb_parent_color n).
Definition set_parent_color_word (p pc : Z) : M unit :=
  modify p (fun n => Node pc (rb_right n) (rb_left n)).
Definition right (p : Z) : M Z := n ← get p; mret (rb_right n).
Definition left (p : Z) : M Z := n ← get p; mret (rb_left n).
Definition set_right (p x : Z) : M unit := modify p (fun n => Node (__rb_parent_color n) x (rb_left n)).
Definition set_left (p x : Z) : M unit := modify p (fun n => Node (__rb_parent_color n) (rb_right n) x).

Definition rb_parent (p : Z) : M Z := pc ← parent_color p; mret (pc_parent pc).
Definition rb_is_black (p : Z) : M bool := pc ← parent_color p; mret (pc_is_black pc).
Definition rb_is_red (p : Z) : M bool := pc ← parent_color p; mret (negb (pc_is_black pc)).
(** The word of a red node is its parent's address. *)
Definition rb_red_parent (p : Z) : M Z := parent_color p.

Definition rb_set_parent_color (rb p color : Z) : M unit := set_parent_color_word rb (Z.lor p color).
Definition rb_set_parent (rb p : Z) : M unit :=
  pc ← parent_color rb; set_parent_color_word rb (Z.lor (pc_color pc) p).
Definition rb_set_black (rb : Z) : M unit :=
  pc ← parent_color rb; set_parent_color_word rb (Z.lor pc RB_BLACK).

(** [p && test(p)], [!p || test(p)] *)
Definition and_then (p : Z) (test : Z -> M bool) : M bool := if p =? 0 then mret false else test p.
Definition or_else (p : Z) (test : Z -> M bool) : M bool := if p =? 0 then mret true else test p.
(** [if (p) f(p)] *)
Definition when (p : Z) (f : Z -> M unit) : M unit := if p =? 0 then mret tt else f p.

(** The child on a side, and on the other one. *)
Inductive side := L | R.
Definition opp (d : side) : side := match d with L => R | R => L end.
Definition child (d : side) (p : Z) : M Z := match d with L => left p | R => right p end.
Definition set_child (d : side) (p x : Z) : M unit :=
  match d with L => set_left p x | R => set_right p x end.

Definition __rb_change_child (old new parent : Z) : M unit :=
  if parent =? 0 then set_root new
  else l ← left parent; if l =? old then set_left parent new else set_right parent new.

Definition __rb_rotate_set_parents (old new color : Z) : M unit :=
  parent ← rb_parent old;
  pc ← parent_color old;
  set_parent_color_word new pc;;
  rb_set_parent_color old new color;;
  __rb_change_child old new parent.

(** ** Insertion *)

(** Case 2: the node is the inner child, the parent and what is to be [gparent]'s child
    after the rotation. *)
Definition insert_inner (d : side) (node parent tmp : Z) : M (Z * Z) :=
  if node =? tmp then
    tmp ← child d node;
    set_child (opp d) parent tmp;;
    set_child d node parent;;
    when tmp (fun tmp => rb_set_parent_color tmp parent RB_BLACK);;
    rb_set_parent_color parent node RB_RED;;
    tmp ← child (opp d) node;
    mret (node, tmp)
  else mret (parent, tmp).

(** Case 3. *)
Definition insert_outer (d : side) (parent gparent tmp : Z) : M unit :=
  set_child d gparent tmp;;
  set_child (opp d) parent gparent;;
  when tmp (fun tmp => rb_set_parent_color tmp gparent RB_BLACK);;
  __rb_rotate_set_parents gparent parent RB_RED.

(** Cases 2 and 3, the parent being the [d] child of [gparent]. *)
Definition insert_rotate (d : side) (node parent gparent : Z) : M unit :=
  tmp ← child (opp d) parent;
  '(parent, tmp) ← insert_inner d node parent tmp;
  insert_outer d parent gparent tmp.

(** The uncle is the [opp d] child; [again] is the next turn of the loop. *)
Definition insert_side (again : Z -> Z -> M unit) (d : side) (node parent gparent : Z) : M unit :=
  tmp ← child (opp d) gparent;
  red ← and_then tmp rb_is_red;
  if (red : bool) then
    rb_set_parent_color tmp gparent RB_BLACK;;
    rb_set_parent_color parent gparent RB_BLACK;;
    parent' ← rb_parent gparent;
    rb_set_parent_color gparent parent' RB_RED;;
    again gparent parent'
  else insert_rotate d node parent gparent.

Fixpoint insert_loop (fuel : nat) (node parent : Z) : M unit :=
  match fuel with
  | O => fun _ => None
  | S fuel =>
      if parent =? 0 then rb_set_parent_color node 0 RB_BLACK
      else
        black ← rb_is_black parent;
        if (black : bool) then mret tt
        else
          gparent ← rb_red_parent parent;
          tmp ← right gparent;
          if negb (parent =? tmp) then insert_side (insert_loop fuel) L node parent gparent
          else insert_side (insert_loop fuel) R node parent gparent
  end.

(** Each turn of the loop goes two levels up; the memory has more nodes than that. *)
Definition fuel_of : M nat := fun s => Some (S (size (nodes s)), s).

Definition rb_insert_color (node : Z) : M unit :=
  parent ← rb_red_parent node; fuel ← fuel_of; insert_loop fuel node parent.

(** Where a node is linked: the root or a child of a node. *)
Inductive link := Root | Child (d : side) (p : Z).
Definition set_link (l : link) (x : Z) : M unit :=
  match l with Root => set_root x | Child d p => set_child d p x end.
Definition get_link (l : link) : M Z := match l with Root => get_root | Child d p => child d p end.

Definition rb_link_node (node parent : Z) (l : link) : M unit :=
  modify node (fun _ => Node parent 0 0);; set_link l node.

(** ** Removal *)

(** Case 1: the sibling is red. *)
Definition erase_red_sibling (d : side) (parent sibling : Z) : M Z :=
  red ← rb_is_red sibling;
  if (red : bool) then
    tmp1 ← child d sibling;
    set_child (opp d) parent tmp1;;
    set_child d sibling parent;;
    rb_set_parent_color tmp1 parent RB_BLACK;;
    __rb_rotate_set_parents parent sibling RB_RED;;
    mret tmp1
  else mret sibling.

(** Case 3: the near nephew is red; [tmp1] and the sibling after the rotation. *)
Definition erase_near_red (d : side) (parent sibling tmp2 : Z) : M (Z * Z) :=
  tmp1 ← child (opp d) tmp2;
  set_child d sibling tmp1;;
  set_child (opp d) tmp2 sibling;;
  set_child (opp d) parent tmp2;;
  when tmp1 (fun tmp1 => rb_set_parent_color tmp1 sibling RB_BLACK);;
  mret (sibling, tmp2).

(** Case 4. *)
Definition erase_far_red (d : side) (parent sibling tmp1 : Z) : M unit :=
  tmp2 ← child d sibling;
  set_child (opp d) parent tmp2;;
  set_child d sibling parent;;
  rb_set_parent_color tmp1 sibling RB_BLACK;;
  when tmp2 (fun tmp2 => rb_set_parent tmp2 parent);;
  __rb_rotate_set_parents parent sibling RB_BLACK.

(** Case 2: both nephews are black. *)
Definition erase_flip (again : Z -> Z -> M unit) (parent sibling : Z) : M unit :=
  rb_set_parent_color sibling parent RB_RED;;
  red ← rb_is_red parent;
  if (red : bool) then rb_set_black parent
  else
    parent' ← rb_parent parent;
    if negb (parent' =? 0) then again parent parent' else mret tt.

(** Cases 2 to 4: the sibling is black. *)
Definition erase_black_sibling (again : Z -> Z -> M unit) (d : side) (parent sibling : Z) : M unit :=
  tmp1 ← child (opp d) sibling;
  black ← or_else tmp1 rb_is_black;
  if (black : bool) then
    tmp2 ← child d sibling;
    black ← or_else tmp2 rb_is_black;
    if (black : bool) then
      erase_flip again parent sibling
    else
      '(tmp1, sibling) ← erase_near_red d parent sibling tmp2;
      erase_far_red d parent sibling tmp1
  else erase_far_red d parent sibling tmp1.

(** The sibling is the [opp d] child of [parent]. *)
Definition erase_side (again : Z -> Z -> M unit) (d : side) (parent : Z) : M unit :=
  sibling ← child (opp d) parent;
  sibling ← erase_red_sibling d parent sibling;
  erase_black_sibling again d parent sibling.

Fixpoint erase_loop (fuel : nat) (node parent : Z) : M unit :=
  match fuel with
  | O => fun _ => None
  | S fuel =>
      sibling ← right parent;
      if negb (node =? sibling) then erase_side (erase_loop fuel) L parent
      else erase_side (erase_loop fuel) R parent
  end.

Definition ____rb_erase_color (parent : Z) : M unit := fuel ← fuel_of; erase_loop fuel 0 parent.

(** Down the left children of [tmp]: the successor and its parent. *)
Fixpoint successor_loop (fuel : nat) (successor tmp : Z) : M (Z * Z) :=
  match fuel with
  | O => fun _ => None
  | S fuel =>
      let parent := successor in
      let successor := tmp in
      tmp ← left successor;
      if negb (tmp =? 0) then successor_loop fuel successor tmp else mret (parent, successor)
  end.

(** The successor of a node whose children are both there is unlinked; its parent, itself
    and its right child. *)
Definition unlink_successor (child : Z) : M (Z * Z * Z) :=
  tmp ← left child;
  if tmp =? 0 then child2 ← right child; mret (child, child, child2)
  else
    fuel ← fuel_of;
    '(parent, successor) ← successor_loop fuel child tmp;
    child2 ← right successor;
    set_left parent child2;;
    set_right successor child;;
    rb_set_parent child successor;;
    mret (parent, successor, child2).

(** The node to rebalance from, or null. *)
Definition __rb_erase_augmented (node : Z) : M Z :=
  child ← right node;
  tmp ← left node;
  if tmp =? 0 then
    pc ← parent_color node;
    let parent := pc_parent pc in
    __rb_change_child node child parent;;
    if negb (child =? 0) then set_parent_color_word child pc;; mret 0
    else mret (if pc_is_black pc then parent else 0)
  else if child =? 0 then
    pc ← parent_color node;
    set_parent_color_word tmp pc;;
    __rb_change_child node tmp (pc_parent pc);;
    mret 0
  else
    '(parent, successor, child2) ← unlink_successor child;
    tmp ← left node;
    set_left successor tmp;;
    rb_set_parent tmp successor;;
    pc ← parent_color node;
    __rb_change_child node successor (pc_parent pc);;
    if negb (child2 =? 0) then
      set_parent_color_word successor pc;;
      rb_set_parent_color child2 parent RB_BLACK;;
      mret 0
    else
      pc2 ← parent_color successor;
      set_parent_color_word successor pc;;
      mret (if pc_is_black pc2 then parent else 0).

Definition rb_erase (node : Z) : M unit :=
  rebalance ← __rb_erase_augmented node;
  if negb (rebalance =? 0) then ____rb_erase_color rebalance else mret tt.

(** ** Walking *)

(** [while (n->rb_left) n = n->rb_left], or to the right. *)
Fixpoint descend (fuel : nat) (d : side) (n : Z) : M Z :=
  match fuel with
  | O => fun _ => None
  | S fuel => c ← child d n; if negb (c =? 0) then descend fuel d c else mret n
  end.

Definition rb_end (d : side) : M Z :=
  n ← get_root; if n =? 0 then mret 0 else fuel ← fuel_of; descend fuel d n.
Definition rb_first : M Z := rb_end L.
Definition rb_last : M Z := rb_end R.

Fixpoint ascend (fuel : nat) (d : side) (node : Z) : M Z :=
  match fuel with
  | O => fun _ => None
  | S fuel =>
      parent ← rb_parent node;
      if parent =? 0 then mret parent
      else c ← child d parent; if node =? c then ascend fuel d parent else mret parent
  end.

Definition RB_EMPTY_NODE (p : Z) : M bool := pc ← parent_color p; mret (pc =? p).
Definition RB_CLEAR_NODE (p : Z) : M unit := set_parent_color_word p p.

Definition rb_step (d : side) (node : Z) : M Z :=
  empty ← RB_EMPTY_NODE node;
  if (empty : bool) then mret 0
  else
    c ← child d node;
    fuel ← fuel_of;
    if negb (c =? 0) then descend fuel (opp d) c else ascend fuel d node.
Definition rb_next : Z -> M Z := rb_step R.
Definition rb_prev : Z -> M Z := rb_step L.

Definition rb_erase_init (n : Z) : M unit := rb_erase n;; RB_CLEAR_NODE n.

Definition rb_replace_node (victim new : Z) : M unit :=
  parent ← rb_parent victim;
  v ← get victim;
  modify new (fun _ => v);;
  l ← left victim;
  when l (fun l => rb_set_parent l new);;
  r ← right victim;
  when r (fun r => rb_set_parent r new);;
  __rb_change_child victim new parent.

Fixpoint rb_left_deepest_node (fuel : nat) (node : Z) : M Z :=
  match fuel with
  | O => fun _ => None
  | S fuel =>
      l ← left node;
      if negb (l =? 0) then rb_left_deepest_node fuel l
      else r ← right node; if negb (r =? 0) then rb_left_deepest_node fuel r else mret node
  end.

Definition rb_next_postorder (node : Z) : M Z :=
  if node =? 0 then mret 0
  else
    parent ← rb_parent node;
    if parent =? 0 then mret parent
    else
      l ← left parent;
      if node =? l then
        r ← right parent;
        if negb (r =? 0) then fuel ← fuel_of; rb_left_deepest_node fuel r else mret parent
      else mret parent.

Definition rb_first_postorder : M Z :=
  n ← get_root; if n =? 0 then mret 0 else fuel ← fuel_of; rb_left_deepest_node fuel n.

(** ** The leftmost node is cached *)

Record rb_root_cached := Cached { rb_root : rbt; rb_leftmost : Z }.

Definition rb_insert_color_cached (node : Z) (leftmost : bool) (t : rb_root_cached) : option rb_root_cached :=
  '(_, s) ← rb_insert_color node (rb_root t);
  Some (Cached s (if leftmost then node else rb_leftmost t)).

Definition rb_erase_cached (node : Z) (t : rb_root_cached) : option rb_root_cached :=
  '(l, s) ← (if rb_leftmost t =? node then rb_next node (rb_root t) else Some (rb_leftmost t, rb_root t));
  '(_, s) ← rb_erase node s;
  Some (Cached s l).
