(* ===== verification/RbShape.v ===== *)
(** * Red-black trees: shapes and invariants (lib/rbtree.c, lines 15-33)

    The trees the nodes of the memory form, the rules on colours, trees with a hole, and
    the height of a tree. *)

From S2P Require Import Prelude RbTree.

(** ** Trees *)

Inductive color := Red | Black.

Inductive tree := E | T (c : color) (x : Z) (l r : tree).

Definition is_black (c : color) : bool := match c with Red => false | Black => true end.

Definition top (t : tree) : Z := match t with E => 0 | T _ x _ _ => x end.

Fixpoint inorder (t : tree) : list Z :=
  match t with E => [] | T _ x l r => inorder l ++ x :: inorder r end.

Fixpoint height (t : tree) : nat :=
  match t with E => 0 | T _ _ l r => S (height l `max` height r) end.

Definition black (t : tree) : Prop := match t with T Red _ _ _ => False | _ => True end.
Definition top_black (t : tree) : bool := match t with T Red _ _ _ => false | _ => true end.

(** Rules 3 to 5, with [n] black nodes on every path. *)
Fixpoint rb (n : nat) (t : tree) : Prop :=
  match t with
  | E => n = 0%nat
  | T Red _ l r => rb n l /\ rb n r /\ black l /\ black r
  | T Black _ l r => match n with O => False | S n => rb n l /\ rb n r end
  end.

(** Rule 2. *)
Definition rb_tree (t : tree) : Prop := black t /\ exists n, rb n t.

(** ** Trees with a hole *)

(** What is around a child on a side: the colour and the name of its parent, its sibling. *)
Definition frame : Type := side * color * Z * tree.
Definition ctx : Type := list frame.

Definition node_on (d : side) (c : color) (x : Z) (near far : tree) : tree :=
  match d with L => T c x near far | R => T c x far near end.

Fixpoint plug (k : ctx) (t : tree) : tree :=
  match k with [] => t | (d, c, x, s) :: k => plug k (node_on d c x t s) end.

Definition above (k : ctx) : Z := match k with [] => 0 | (_, _, x, _) :: _ => x end.

Definition black_above (k : ctx) : Prop := match k with (_, Black, _, _) :: _ => True | _ => False end.

(** The hole is for a tree of [n] black nodes. *)
Fixpoint ctx_ok (n : nat) (k : ctx) : Prop :=
  match k with
  | [] => True
  | (_, Red, _, s) :: k => rb n s /\ black s /\ black_above k /\ ctx_ok n k
  | (_, Black, _, s) :: k => rb n s /\ ctx_ok (S n) k
  end.

Fixpoint before (k : ctx) : list Z :=
  match k with
  | [] => []
  | (L, _, x, s) :: k => before k
  | (R, _, x, s) :: k => before k ++ inorder s ++ [x]
  end.
Fixpoint after (k : ctx) : list Z :=
  match k with
  | [] => []
  | (L, _, x, s) :: k => x :: inorder s ++ after k
  | (R, _, x, s) :: k => after k
  end.

(** Equations between the orders of trees. *)
Ltac in_order :=
  cbn [inorder node_on before after]; repeat (progress (rewrite <- ?app_assoc; cbn [app])); reflexivity.

Lemma inorder_plug k : forall t, inorder (plug k t) = before k ++ inorder t ++ after k.
Proof.
  induction k as [|[[[d c] x] s] k IH]; intros t; cbn [plug before after]; [by rewrite app_nil_r|].
  rewrite IH. destruct d; cbn; by rewrite <- !app_assoc.
Qed.

Lemma plug_app k k' t : plug (k ++ k') t = plug k' (plug k t).
Proof. revert t. induction k as [|[[[d c] x] s] k IH]; intros t; cbn; [done|apply IH]. Qed.

Lemma before_app k k' : before (k ++ k') = before k' ++ before k.
Proof.
  induction k as [|[[[[|] c] x] s] k IH]; cbn; [by rewrite app_nil_r|done|]. by rewrite IH, <- app_assoc.
Qed.

Lemma after_app k k' : after (k ++ k') = after k ++ after k'.
Proof. induction k as [|[[[[|] c] x] s] k IH]; cbn; [done| |done]. by rewrite IH, <- app_assoc. Qed.

Lemma rb_black_child n x l r : rb n (T Red x l r) -> black l /\ black r.
Proof. cbn. tauto. Qed.

Lemma node_on_rb d n c x a b :
  rb n (node_on d c x a b) <->
  match c with
  | Red => rb n a /\ rb n b /\ black a /\ black b
  | Black => match n with O => False | S n => rb n a /\ rb n b end
  end.
Proof. destruct d, c; cbn; [tauto| |tauto|]; destruct n; tauto. Qed.

(** Filling the hole with a tree of the right height and colour. *)
Lemma plug_rb k : forall n t, rb n t -> ctx_ok n k -> black t \/ black_above k -> rb_tree (plug k t).
Proof.
  induction k as [|[[[d c] x] s] k IH]; intros n t Ht Hk Hb; cbn [plug].
  { destruct Hb as [Hb|[]]. split; [done|by exists n]. }
  destruct c; cbn in Hk.
  - destruct Hk as (Hs & Hbs & Ha & Hk). apply (IH n); [|done|by right].
    apply node_on_rb. destruct Hb as [Hb|[]]. done.
  - destruct Hk as [Hs Hk]. apply (IH (S n)); [by apply node_on_rb|done|]. left. by destruct d.
Qed.

Lemma unplug_rb k : forall t, rb_tree (plug k t) ->
  exists n, rb n t /\ ctx_ok n k /\ (black t \/ black_above k).
Proof.
  induction k as [|[[[d c] x] s] k IH]; intros t Ht; cbn [plug] in Ht.
  { destruct Ht as [Hb [n Ht]]. exists n. split; [done|]. split; [done|by left]. }
  destruct (IH _ Ht) as (n & Hn & Hk & Hb). apply node_on_rb in Hn. destruct c; cbn.
  - destruct Hn as (H1 & H2 & H3 & H4). exists n. split; [done|]. split; [|by left].
    split; [done|]. split; [done|]. split; [|done]. destruct Hb as [Hb|Hb]; [by destruct d|done].
  - destruct n as [|n]; [done|]. destruct Hn as [H1 H2]. exists n. split; [done|]. split; [done|].
    by right.
Qed.

(** ** A node of a tree is the top of the tree in a hole *)

Lemma find_node x t : x ∈ inorder t -> exists k c l r, t = plug k (T c x l r).
Proof.
  assert (forall k0, x ∈ inorder t -> exists k c l r, plug k0 t = plug k (T c x l r)) as H.
  { induction t as [|c y l IHl r IHr]; intros k0; cbn; [by intros ?%elem_of_nil|].
    rewrite elem_of_app, elem_of_cons. intros [H|[->|H]].
    - apply (IHl ((L, c, y, r) :: k0) H).
    - by exists k0, c, l, r.
    - apply (IHr ((R, c, y, l) :: k0) H). }
  apply (H []).
Qed.

(** ** Height *)

Lemma rb_size n t : rb n t -> (2 ^ n <= S (length (inorder t)))%nat.
Proof.
  revert n. induction t as [|c x l IHl r IHr]; intros n H; cbn in H; [subst; cbn; lia|].
  cbn [inorder]. rewrite length_app. cbn [length]. destruct c.
  - destruct H as (H1 & H2 & _ & _). apply IHl in H1. lia.
  - destruct n as [|n]; [done|]. destruct H as [H1 H2]. apply IHl in H1. apply IHr in H2. cbn. lia.
Qed.

Lemma rb_height n t : rb n t ->
  (height t <= 2 * n + match t with T Red _ _ _ => 1 | _ => 0 end)%nat.
Proof.
  revert n. induction t as [|c x l IHl r IHr]; intros n H; cbn in H; [cbn; lia|].
  cbn [height]. destruct c.
  - destruct H as (H1 & H2 & H3 & H4). apply IHl in H1. apply IHr in H2.
    destruct l as [|[] ? ? ?], r as [|[] ? ? ?]; cbn in *; lia || done.
  - destruct n as [|n]; [done|]. destruct H as [H1 H2]. apply IHl in H1. apply IHr in H2.
    destruct l as [|[] ? ? ?], r as [|[] ? ? ?]; cbn in *; lia.
Qed.

(** Searching takes at most twice the logarithm of the number of nodes. *)
Lemma rb_tree_height t : rb_tree t -> (height t <= 2 * Nat.log2 (S (length (inorder t))))%nat.
Proof.
  intros [Hb [n Hn]]. pose proof (rb_size n t Hn) as Hs. pose proof (rb_height n t Hn) as Hh.
  apply Nat.log2_le_mono in Hs. rewrite Nat.log2_pow2 in Hs by lia.
  destruct t as [|[] ? ? ?]; [cbn in *; lia|done|lia].
Qed.

(** ** The memory of a tree *)

Definition color_bit (c : color) : Z := match c with Red => RB_RED | Black => RB_BLACK end.
Definition word (p : Z) (c : color) : Z := Z.lor p (color_bit c).

Definition node_of (d : side) (pc : Z) (near far : Z) : rb_node :=
  match d with L => Node pc far near | R => Node pc near far end.

Fixpoint cells (p : Z) (t : tree) : list (Z * rb_node) :=
  match t with
  | E => []
  | T c x l r => (x, Node (word p c) (top r) (top l)) :: cells x l ++ cells x r
  end.

(** With [h] in the hole. *)
Fixpoint ctx_cells (h : Z) (k : ctx) : list (Z * rb_node) :=
  match k with
  | [] => []
  | (d, c, x, s) :: k =>
      (x, node_of d (word (above k) c) h (top s)) :: cells x s ++ ctx_cells x k
  end.

Fixpoint ctx_root (h : Z) (k : ctx) : Z :=
  match k with [] => h | (_, _, x, _) :: k => ctx_root x k end.

(** The cells of a path that ends below [b]. *)
Definition above_or (b : Z) (k : ctx) : Z := match k with [] => b | (_, _, x, _) :: _ => x end.

Fixpoint path_cells (b h : Z) (k : ctx) : list (Z * rb_node) :=
  match k with
  | [] => []
  | (d, c, x, s) :: k =>
      (x, node_of d (word (above_or b k) c) h (top s)) :: cells x s ++ path_cells b x k
  end.

Lemma cells_plug_path b k : forall t,
  cells b (plug k t) ≡ₚ path_cells b (top t) k ++ cells (above_or b k) t.
Proof.
  induction k as [|[[[d c] x] s] k IH]; intros t; cbn [plug path_cells above_or]; [done|].
  rewrite IH. cbn [app]. destruct d; cbn [node_on top cells node_of].
  - rewrite <- Permutation_middle, <- app_assoc. constructor. rewrite app_assoc. apply Permutation_app_comm.
  - rewrite <- Permutation_middle, <- app_assoc. constructor. rewrite !app_assoc. f_equiv.
    apply Permutation_app_comm.
Qed.

Lemma above_path k : above k = above_or 0 k.
Proof. by destruct k as [|[[[d c] x] s] k]. Qed.

Lemma ctx_cells_path h k : ctx_cells h k = path_cells 0 h k.
Proof.
  revert h. induction k as [|[[[d c] x] s] k IH]; intros h; cbn; [done|]. by rewrite IH, above_path.
Qed.

Lemma cells_plug k t : cells 0 (plug k t) ≡ₚ ctx_cells (top t) k ++ cells (above k) t.
Proof. by rewrite ctx_cells_path, above_path, cells_plug_path. Qed.

Lemma top_plug k : forall t, top (plug k t) = ctx_root (top t) k.
Proof. induction k as [|[[[[|] c] x] s] k IH]; intros t; cbn; [done|by rewrite IH..]. Qed.

Lemma cells_inorder p t : (cells p t).*1 ≡ₚ inorder t.
Proof.
  revert p. induction t as [|c x l IHl r IHr]; intros p; cbn; [done|].
  rewrite fmap_app, IHl, IHr. by rewrite Permutation_middle.
Qed.

Lemma length_ctx_cells h k : (length k <= length (ctx_cells h k))%nat.
Proof.
  revert h. induction k as [|[[[d c] x] s] k IH]; intros h; cbn; [done|]. rewrite length_app.
  specialize (IH x). lia.
Qed.

(** ** The path to the leftmost node of a right subtree *)

Definition all_left (k : ctx) : Prop := Forall (fun f : frame => match f with (d, _, _, _) => d = L end) k.

Lemma leftmost_path t : t <> E -> exists k c x r, t = plug k (T c x E r) /\ all_left k.
Proof.
  intros Ht. assert (forall k0, all_left k0 -> exists k c x r, plug k0 t = plug k (T c x E r) /\ all_left k) as H.
  { induction t as [|c x l IHl r IHr]; intros k0 Hk0; [done|].
    destruct l as [|c' x' l1 l2]; [by exists k0, c, x, r|].
    apply (IHl ltac:(done) ((L, c, x, r) :: k0)). by constructor. }
  apply (H []). constructor.
Qed.

Lemma before_left k : all_left k -> before k = [].
Proof. induction 1 as [|[[[d c] x] s] k -> _ IH]; [done|exact IH]. Qed.

Lemma above_app k k' : above (k ++ k') = above_or (above k') k.
Proof. by destruct k as [|[[[d c] x] s] k]. Qed.

Lemma ctx_cells_app k k' : forall h,
  ctx_cells h (k ++ k') = path_cells (above k') h k ++ ctx_cells (ctx_root h k) k'.
Proof.
  induction k as [|[[[d c] x] s] k IH]; intros h; cbn; [done|].
  by rewrite IH, above_app, <- app_assoc.
Qed.

Lemma above_or_app b k k' : above_or b (k ++ k') = above_or (above_or b k') k.
Proof. by destruct k as [|[[[d c] x] s] k]. Qed.

Lemma path_cells_app b k k' : forall h,
  path_cells b h (k ++ k') = path_cells (above_or b k') h k ++ path_cells b (ctx_root h k) k'.
Proof.
  induction k as [|[[[d c] x] s] k IH]; intros h; cbn; [done|].
  by rewrite IH, above_or_app, <- app_assoc.
Qed.

Lemma ctx_root_app k k' h : ctx_root h (k ++ k') = ctx_root (ctx_root h k) k'.
Proof. revert h. induction k as [|[[[d c] x] s] k IH]; intros h; cbn; [done|apply IH]. Qed.

(** Putting the path below another node changes the word of its first node. *)
Lemma path_cells_base k h : k <> [] -> exists c r l cs, forall b',
  path_cells b' h k ≡ₚ (ctx_root h k, Node (word b' c) r l) :: cs.
Proof.
  intros Hk. revert h. induction k as [|[[[d c] x] s] k IH]; intros h; [done|]. cbn [ctx_root path_cells].
  destruct k as [|f k].
  - exists c. destruct d; eexists _, _, (cells x s); intros b'; cbn; by rewrite app_nil_r.
  - destruct (IH ltac:(done) x) as (c' & r & l & cs & H).
    exists c', r, l, ((x, node_of d (word (above_or 0 (f :: k)) c) h (top s)) :: cells x s ++ cs).
    intros b'. rewrite H. destruct f as [[[? ?] ?] ?]. cbn [above_or].
    rewrite <- Permutation_middle. apply Permutation_swap.
Qed.

Lemma ctx_ok_rename k d c x y t k' : forall n,
  ctx_ok n (k ++ (d, c, x, t) :: k') -> ctx_ok n (k ++ (d, c, y, t) :: k').
Proof.
  induction k as [|[[[e ce] z] u] k IH]; intros n; [done|]. cbn [app ctx_ok]. destruct ce.
  - intros (H1 & H2 & H3 & H4). split; [done|]. split; [done|]. split; [|by apply IH].
    destruct k as [|[[[? ?] ?] ?] ?]; done.
  - intros [H1 H2]. split; [done|]. by apply IH.
Qed.

Lemma height_cells b t : (height t <= length (cells b t))%nat.
Proof.
  revert b. induction t as [|c x l IHl r IHr]; intros b; cbn; [done|]. rewrite length_app.
  specialize (IHl x). specialize (IHr x). lia.
Qed.

Lemma above_or_snoc q k d c x t : above_or q (k ++ [(d, c, x, t)]) = above_or x k.
Proof. by destruct k as [|[[[? ?] ?] ?] ?]. Qed.
