(* ===== verification/RbRep.v ===== *)
(** * The memory of a tree, and reasoning about programs on it

    What a memory holds is a list of cells; a program is run against it by giving the
    cells it reads and writes. *)

From S2P Require Import Prelude RbTree RbShape.

(** ** The word with the parent and the colour *)

(** Nodes are aligned. *)
Definition addr (p : Z) : Prop := 0 < p /\ p mod 8 = 0.
Definition ptr (p : Z) : Prop := p = 0 \/ addr p.

Lemma ptr_shift p : ptr p -> exists q, p = Z.shiftl q 2.
Proof.
  intros H. exists (2 * (p / 8)). rewrite Z.shiftl_mul_pow2 by lia.
  destruct H as [->|[H1 H2]]; [done|]. change (2 ^ 2) with 4. pose proof (Z.div_mod p 8 ltac:(lia)). lia.
Qed.

(** The bits of a small number. *)
Lemma high_bits m v n : 0 <= v < 2 ^ m -> 0 <= m <= n -> Z.testbit v n = false.
Proof.
  intros Hv Hn. destruct (decide (v = 0)) as [->|]; [apply Z.bits_0|].
  apply Z.bits_above_log2; [lia|]. apply Z.lt_le_trans with m; [|lia]. apply Z.log2_lt_pow2; lia.
Qed.

Lemma color_bit_range c : 0 <= color_bit c < 2 ^ 1.
Proof. by destruct c. Qed.

Lemma word_parent p c : ptr p -> pc_parent (word p c) = p.
Proof.
  intros [q ->]%ptr_shift. unfold pc_parent, word. apply Z.bits_inj'. intros n Hn.
  pose proof (color_bit_range c).
  rewrite Z.land_spec, Z.lor_spec, Z.lnot_spec by lia. destruct (decide (n < 2)).
  - assert (n = 0 \/ n = 1) as [-> | ->] by lia; rewrite Z.shiftl_spec_low by lia;
      by rewrite ?andb_false_r.
  - rewrite (high_bits 1 (color_bit c)), (high_bits 2 3) by lia. by rewrite orb_false_r, andb_true_r.
Qed.

Lemma word_color p c : ptr p -> pc_color (word p c) = color_bit c.
Proof.
  intros [q ->]%ptr_shift. unfold pc_color, word. apply Z.bits_inj'. intros n Hn.
  pose proof (color_bit_range c).
  rewrite Z.land_spec, Z.lor_spec. destruct (decide (n = 0)) as [->|].
  - rewrite Z.shiftl_spec_low by lia. by destruct c.
  - rewrite (high_bits 1 1), (high_bits 1 (color_bit c)) by lia. apply andb_false_r.
Qed.

Lemma word_black p c : ptr p -> pc_is_black (word p c) = is_black c.
Proof. intros H. unfold pc_is_black. rewrite word_color by done. by destruct c. Qed.

Lemma word_red p : word p Red = p.
Proof. apply Z.lor_0_r. Qed.

Lemma word_set_black p c : Z.lor (word p c) RB_BLACK = word p Black.
Proof. unfold word. rewrite <- Z.lor_assoc. by destruct c. Qed.

Lemma word_set_parent p c q : ptr p -> Z.lor (pc_color (word p c)) q = word q c.
Proof. intros H. rewrite word_color by done. apply Z.lor_comm. Qed.

(** ** Lists of cells up to order *)

Section perm.
Context {A : Type}.
Implicit Types (a e : A) (l k : list A).

Lemma perm_cons a e l l' : l ≡ₚ e :: l' -> a :: l ≡ₚ e :: a :: l'.
Proof. intros ->. apply Permutation_swap. Qed.
Lemma perm_app k e l l' : l ≡ₚ e :: l' -> k ++ l ≡ₚ e :: k ++ l'.
Proof. intros ->. by rewrite Permutation_middle. Qed.
Lemma perm_chunk_cons a k l l' : l ≡ₚ k ++ l' -> a :: l ≡ₚ k ++ a :: l'.
Proof. intros ->. by rewrite Permutation_middle. Qed.
Lemma perm_chunk_app k0 k l l' : l ≡ₚ k ++ l' -> k0 ++ l ≡ₚ k ++ k0 ++ l'.
Proof. intros ->. rewrite !app_assoc. f_equiv. apply Permutation_app_comm. Qed.
Lemma perm_cancel a l l' l'' : l' ≡ₚ a :: l'' -> l ≡ₚ l'' -> a :: l ≡ₚ l'.
Proof. intros -> ->. done. Qed.
Lemma perm_cancel_chunk k l l' l'' : l' ≡ₚ k ++ l'' -> l ≡ₚ l'' -> k ++ l ≡ₚ l'.
Proof. intros -> ->. done. Qed.
End perm.

(** Find a cell, or a sublist, that the goal names. *)
Ltac find_cell :=
  first [reflexivity | eapply perm_cons; find_cell | eapply perm_app; find_cell].
Ltac find_chunk :=
  first [reflexivity | eapply perm_chunk_cons; find_chunk | eapply perm_chunk_app; find_chunk].
Ltac perm :=
  lazymatch goal with
  | |- ?l ≡ₚ ?l => reflexivity
  | |- _ :: _ ≡ₚ _ => eapply perm_cancel; [solve [find_cell]|perm]
  | |- _ ++ _ ≡ₚ _ => eapply perm_cancel_chunk; [solve [find_chunk]|perm]
  end.

(** ** What a memory holds *)

Definition holds (s : rbt) (r : Z) (l : list (Z * rb_node)) : Prop :=
  NoDup l.*1 /\ Forall addr l.*1 /\ nodes s = list_to_map l /\ root s = r.

Lemma holds_perm s r l l' : l ≡ₚ l' -> holds s r l -> holds s r l'.
Proof.
  intros Hp (H1 & H2 & H3 & H4). assert (l.*1 ≡ₚ l'.*1) as Hk by by rewrite Hp.
  split; [by rewrite <- Hk|]. split; [by rewrite <- Hk|]. split; [|done].
  rewrite H3. by apply list_to_map_proper.
Qed.

#[export] Instance holds_proper s r : Proper (Permutation ==> iff) (holds s r).
Proof. intros l l' Hp. split; by apply holds_perm. Qed.

Lemma holds_addr s r l x n l' : holds s r l -> l ≡ₚ (x, n) :: l' -> addr x.
Proof. intros H Hp. apply (holds_perm _ _ _ _ Hp) in H as (_ & H & _). by inversion H. Qed.

Lemma holds_ptr s r l x n l' : holds s r l -> l ≡ₚ (x, n) :: l' -> ptr x.
Proof. right. by eapply holds_addr. Qed.

Lemma holds_pos s r l x n l' : holds s r l -> l ≡ₚ (x, n) :: l' -> x <> 0.
Proof. intros H Hp. pose proof (holds_addr _ _ _ _ _ _ H Hp) as [? _]. lia. Qed.

Lemma holds_ne s r l x n y m l' l'' : holds s r l -> l ≡ₚ (x, n) :: l' -> l' ≡ₚ (y, m) :: l'' -> x <> y.
Proof.
  intros H Hp Hq. rewrite Hq in Hp. apply (holds_perm _ _ _ _ Hp) in H as (H & _). cbn in H.
  apply NoDup_cons in H as [H _]. set_solver.
Qed.

(** A node is not the top of a tree beside it. *)
Lemma holds_top_ne s r l x n q t l' l'' :
  holds s r l -> l ≡ₚ (x, n) :: l' -> l' ≡ₚ cells q t ++ l'' -> x <> top t.
Proof.
  intros H Hp Hq. destruct t as [|c y t1 t2]; cbn in *; [by eapply holds_pos|].
  eapply holds_ne; [exact H|exact Hp|exact Hq].
Qed.

Lemma holds_above s r l h k l' : holds s r l -> l ≡ₚ ctx_cells h k ++ l' -> ptr (above k).
Proof.
  intros H Hp. destruct k as [|[[[d c] x] t] k]; [by left|]. cbn [ctx_cells above] in *.
  eapply holds_ptr; [done|]. exact Hp.
Qed.

Lemma holds_lookup s r l x n l' : holds s r l -> l ≡ₚ (x, n) :: l' -> nodes s !! x = Some n.
Proof.
  intros H Hp. apply (holds_perm _ _ _ _ Hp) in H as (_ & _ & -> & _). cbn.
  apply lookup_insert_eq.
Qed.

Lemma holds_size s r l : holds s r l -> size (nodes s) = length l.
Proof. intros (H & _ & -> & _). by apply map_size_list_to_map. Qed.

(** A whole tree, with other nodes. *)
Lemma holds_plug s k t rest :
  holds s (ctx_root (top t) k) (ctx_cells (top t) k ++ cells (above k) t ++ rest) <->
  holds s (top (plug k t)) (cells 0 (plug k t) ++ rest).
Proof.
  rewrite top_plug. split; apply holds_perm; rewrite cells_plug; by rewrite <- app_assoc.
Qed.

(** ** Weakest preconditions *)

Definition wp {A} (m : M A) (s : rbt) (Q : A -> rbt -> Prop) : Prop :=
  exists a s', m s = Some (a, s') /\ Q a s'.

Lemma wp_ret {A} (a : A) s (Q : A -> rbt -> Prop) : Q a s -> wp (mret a) s Q.
Proof. intros H. by exists a, s. Qed.

Lemma wp_bind {A B} (m : M A) (f : A -> M B) s Q :
  wp m s (fun a s' => wp (f a) s' Q) -> wp (m ≫= f) s Q.
Proof.
  intros (a & s1 & E1 & b & s2 & E2 & H). exists b, s2. split; [|done].
  unfold mbind, M_bind. by rewrite E1.
Qed.

Lemma wp_mono {A} (m : M A) s (P Q : A -> rbt -> Prop) :
  wp m s P -> (forall a s', P a s' -> Q a s') -> wp m s Q.
Proof. intros (a & s' & E & H) HPQ. exists a, s'. split; [done|by apply HPQ]. Qed.

Section steps.
Context (s : rbt) (r : Z) (l : list (Z * rb_node)).
Hypothesis Hs : holds s r l.

Lemma wp_get p n l' Q : l ≡ₚ (p, n) :: l' -> Q n s -> wp (get p) s Q.
Proof.
  intros Hp HQ. exists n, s. split; [|done]. unfold get.
  rewrite (proj2 (Z.eqb_neq _ _) (holds_pos _ _ _ _ _ _ Hs Hp)).
  by rewrite (holds_lookup _ _ _ _ _ _ Hs Hp).
Qed.

Lemma wp_modify p f n l' Q : l ≡ₚ (p, n) :: l' ->
  (forall s', holds s' r ((p, f n) :: l') -> Q tt s') -> wp (modify p f) s Q.
Proof.
  intros Hp HQ. unfold modify, wp.
  rewrite (proj2 (Z.eqb_neq _ _) (holds_pos _ _ _ _ _ _ Hs Hp)).
  rewrite (holds_lookup _ _ _ _ _ _ Hs Hp). cbn. eexists _, _. split; [reflexivity|]. apply HQ.
  pose proof (holds_perm _ _ _ _ Hp Hs) as (H1 & H2 & H3 & H4). cbn in H1, H2.
  split; [done|]. split; [done|]. split; [|done]. cbn. rewrite H3. cbn. apply insert_insert_eq.
Qed.

Lemma wp_parent_color p n l' Q :
  l ≡ₚ (p, n) :: l' -> Q (__rb_parent_color n) s -> wp (parent_color p) s Q.
Proof. intros Hp HQ. eapply wp_bind, wp_get; [done|]. by apply wp_ret. Qed.

Lemma wp_right p n l' Q : l ≡ₚ (p, n) :: l' -> Q (rb_right n) s -> wp (right p) s Q.
Proof. intros Hp HQ. eapply wp_bind, wp_get; [done|]. by apply wp_ret. Qed.

Lemma wp_left p n l' Q : l ≡ₚ (p, n) :: l' -> Q (rb_left n) s -> wp (left p) s Q.
Proof. intros Hp HQ. eapply wp_bind, wp_get; [done|]. by apply wp_ret. Qed.

Lemma wp_set_word p pc n l' Q : l ≡ₚ (p, n) :: l' ->
  (forall s', holds s' r ((p, Node pc (rb_right n) (rb_left n)) :: l') -> Q tt s') ->
  wp (set_parent_color_word p pc) s Q.
Proof. intros Hp HQ. eapply wp_modify; [done|exact HQ]. Qed.

Lemma wp_set_right p x n l' Q : l ≡ₚ (p, n) :: l' ->
  (forall s', holds s' r ((p, Node (__rb_parent_color n) x (rb_left n)) :: l') -> Q tt s') ->
  wp (set_right p x) s Q.
Proof. intros Hp HQ. eapply wp_modify; [done|exact HQ]. Qed.

Lemma wp_set_left p x n l' Q : l ≡ₚ (p, n) :: l' ->
  (forall s', holds s' r ((p, Node (__rb_parent_color n) (rb_right n) x) :: l') -> Q tt s') ->
  wp (set_left p x) s Q.
Proof. intros Hp HQ. eapply wp_modify; [done|exact HQ]. Qed.

Lemma wp_fuel Q : Q (S (length l)) s -> wp fuel_of s Q.
Proof. intros HQ. exists (S (length l)), s. split; [|done]. unfold fuel_of. by rewrite (holds_size _ _ _ Hs). Qed.

Lemma wp_rb_parent p q c a b l' Q :
  l ≡ₚ (p, Node (word q c) a b) :: l' -> ptr q -> Q q s -> wp (rb_parent p) s Q.
Proof.
  intros Hp Hq HQ. eapply wp_bind, wp_parent_color; [done|]. cbn. rewrite word_parent by done.
  by apply wp_ret.
Qed.

Lemma wp_is_black p q c a b l' Q : l ≡ₚ (p, Node (word q c) a b) :: l' -> ptr q ->
  Q (is_black c) s -> wp (rb_is_black p) s Q.
Proof.
  intros Hp Hq HQ. eapply wp_bind, wp_parent_color; [done|]. cbn. rewrite word_black by done.
  by apply wp_ret.
Qed.

Lemma wp_is_red p q c a b l' Q : l ≡ₚ (p, Node (word q c) a b) :: l' -> ptr q ->
  Q (negb (is_black c)) s -> wp (rb_is_red p) s Q.
Proof.
  intros Hp Hq HQ. eapply wp_bind, wp_parent_color; [done|]. cbn. rewrite word_black by done.
  apply wp_ret. by destruct c.
Qed.

Lemma wp_red_parent p q a b l' Q :
  l ≡ₚ (p, Node (word q Red) a b) :: l' -> Q q s -> wp (rb_red_parent p) s Q.
Proof. intros Hp HQ. eapply wp_parent_color; [done|]. cbn. by rewrite word_red. Qed.

Lemma wp_set_pc p q c n l' Q : l ≡ₚ (p, n) :: l' ->
  (forall s', holds s' r ((p, Node (word q c) (rb_right n) (rb_left n)) :: l') -> Q tt s') ->
  wp (rb_set_parent_color p q (color_bit c)) s Q.
Proof. intros Hp HQ. eapply wp_modify; [done|exact HQ]. Qed.

Lemma wp_set_parent p q c q' a b l' Q : l ≡ₚ (p, Node (word q c) a b) :: l' -> ptr q ->
  (forall s', holds s' r ((p, Node (word q' c) a b) :: l') -> Q tt s') -> wp (rb_set_parent p q') s Q.
Proof.
  intros Hp Hq HQ. eapply wp_bind, wp_parent_color; [done|]. cbn. rewrite word_set_parent by done.
  by eapply wp_set_word.
Qed.

Lemma wp_set_black p q c a b l' Q : l ≡ₚ (p, Node (word q c) a b) :: l' ->
  (forall s', holds s' r ((p, Node (word q Black) a b) :: l') -> Q tt s') -> wp (rb_set_black p) s Q.
Proof.
  intros Hp HQ. eapply wp_bind, wp_parent_color; [done|]. cbn. rewrite word_set_black.
  by eapply wp_set_word.
Qed.
End steps.

(** The test of a child that may be missing. *)
Lemma wp_or_black s r l q t l' Q : holds s r l -> l ≡ₚ cells q t ++ l' -> ptr q ->
  Q (top_black t) s -> wp (or_else (top t) rb_is_black) s Q.
Proof.
  intros H Hp Hq HQ. destruct t as [|c x t1 t2]; [by apply wp_ret|]. cbn [top] in *. unfold or_else.
  rewrite (proj2 (Z.eqb_neq _ _) (holds_pos _ _ _ _ _ _ H Hp)). eapply wp_is_black; [done|exact Hp|done|].
  by destruct c.
Qed.

(** Replacing the child [old] of the node above the hole. *)
Lemma wp_change_child s k old new n l l' Q :
  holds s (ctx_root old k) (ctx_cells old k ++ l) -> l ≡ₚ (old, n) :: l' ->
  (forall s', holds s' (ctx_root new k) (ctx_cells new k ++ l) -> Q tt s') ->
  wp (__rb_change_child old new (above k)) s Q.
Proof.
  intros Hs Hl HQ. unfold __rb_change_child. destruct k as [|[[[d c] x] t] k]; cbn [above ctx_cells ctx_root] in *.
  { eexists tt, _. split; [reflexivity|]. apply HQ. destruct Hs as (H1 & H2 & H3 & H4). by repeat split. }
  cbn [app] in Hs. rewrite <- app_assoc in Hs.
  assert (forall s', holds s' (ctx_root x k)
    ((x, node_of d (word (above k) c) new (top t)) :: cells x t ++ ctx_cells x k ++ l) -> Q tt s') as HQ'.
  { intros s' H. apply HQ. cbn [app]. by rewrite <- app_assoc. }
  rewrite (proj2 (Z.eqb_neq _ _) (holds_pos _ _ _ _ _ _ Hs ltac:(reflexivity))).
  eapply wp_bind, wp_left; [exact Hs|reflexivity|]. destruct d; cbn [node_of rb_left].
  - rewrite Z.eqb_refl. eapply wp_set_left; [exact Hs|reflexivity|]. exact HQ'.
  - assert (top t <> old) as Hne.
    { rewrite Hl in Hs. destruct t as [|c' y t1 t2]; cbn [top cells app] in *.
      - intros <-. eapply (holds_pos _ _ _ 0); [exact Hs|find_cell|done].
      - eapply (holds_ne _ _ _ y _ old); [exact Hs|find_cell|find_cell]. }
    rewrite (proj2 (Z.eqb_neq _ _) Hne). eapply wp_set_right; [exact Hs|reflexivity|]. exact HQ'.
Qed.

(** ** Running a program *)

(** Put a cell, or a sublist, of the memory first. *)
Ltac focus x :=
  match goal with H : holds _ _ _ |- _ =>
    eapply (holds_perm _ _ _ ((x, _) :: _)) in H; [|solve [find_cell]]
  end.
Ltac focus_chunk c :=
  match goal with H : holds _ _ _ |- _ =>
    eapply (holds_perm _ _ _ (c ++ _)) in H; [|solve [find_chunk]]
  end.

(** Lists in a flat form. *)
Ltac flatten := repeat (progress (rewrite <- ?app_assoc; cbn [app])).

(** The cells in a flat list. *)
Ltac flat :=
  match goal with H : holds _ _ _ |- _ =>
    cbn [cells ctx_cells path_cells ctx_root app top node_of node_on above above_or] in H;
    repeat (progress (rewrite <- ?app_assoc in H; cbn [app] in H))
  end.

Ltac is_ptr :=
  match goal with H : holds _ _ _ |- ptr _ =>
    first [ by left
          | eapply (holds_ptr _ _ _ _ _ _ H); solve [find_cell]
          | eapply (holds_above _ _ _ _ _ _ H); solve [find_chunk]
          | assumption ]
  end.
(** An address of a node is not null, and not that of another. *)
Ltac is_pos x :=
  match goal with H : holds _ _ _ |- _ =>
    let E := fresh in
    assert (x <> 0) as E by (eapply (holds_pos _ _ _ x _ _ H); solve [find_cell]);
    rewrite ?(proj2 (Z.eqb_neq x 0) E); clear E; cbn [negb]
  end.
Ltac differ x y :=
  match goal with H : holds _ _ _ |- _ =>
    let E := fresh in
    assert (x <> y) as E
      by (eapply (holds_ne _ _ _ x _ y _ _ _ H); [solve [find_cell]|solve [find_cell]]);
    rewrite ?(proj2 (Z.eqb_neq x y) E), ?(proj2 (Z.eqb_neq y x) (not_eq_sym E)); clear E; cbn [negb]
  end.

Ltac differ_top x t :=
  match goal with H : holds _ _ _ |- _ =>
    let E := fresh in
    assert (x <> top t) as E
      by (eapply (holds_top_ne _ _ _ x _ _ t _ _ H); [solve [find_cell]|solve [find_chunk]]);
    rewrite ?(proj2 (Z.eqb_neq x (top t)) E), ?(proj2 (Z.eqb_neq (top t) x) (not_eq_sym E));
    clear E; cbn [negb]
  end.

Ltac read lem := match goal with H : holds _ _ _ |- _ =>
  eapply (lem _ _ _ H); [solve [find_cell]|try is_ptr ..] end.
Ltac written := match goal with H : holds _ _ _ |- _ =>
  clear H; cbn [__rb_parent_color rb_right rb_left]; let s := fresh "s" in intros s H end.

Ltac test_black t :=
  match goal with H : holds _ _ _ |- _ =>
    eapply (wp_or_black _ _ _ _ t _ _ H); [solve [find_chunk]|is_ptr|] end.

Ltac step :=
  cbn [child set_child opp];
  lazymatch goal with
  | |- wp (mret _) _ _ => apply wp_ret
  | |- wp (_ ≫= _) _ _ => apply wp_bind
  | |- wp (get _) _ _ => read wp_get
  | |- wp (parent_color _) _ _ => read wp_parent_color; cbn [__rb_parent_color]
  | |- wp (right _) _ _ => read wp_right; cbn [rb_right]
  | |- wp (left _) _ _ => read wp_left; cbn [rb_left]
  | |- wp (rb_parent _) _ _ => read wp_rb_parent
  | |- wp (rb_is_black _) _ _ => read wp_is_black; cbn [is_black negb]
  | |- wp (rb_is_red _) _ _ => read wp_is_red; cbn [is_black negb]
  | |- wp (rb_red_parent _) _ _ => read wp_red_parent
  | |- wp (rb_set_parent _ _) _ _ => read wp_set_parent; written
  | |- wp (rb_set_black _) _ _ => read wp_set_black; written
  | |- wp (rb_set_parent_color _ _ RB_RED) _ _ => change RB_RED with (color_bit Red); read wp_set_pc; written
  | |- wp (rb_set_parent_color _ _ RB_BLACK) _ _ => change RB_BLACK with (color_bit Black); read wp_set_pc; written
  | |- wp (rb_set_parent_color _ _ (color_bit _)) _ _ => read wp_set_pc; written
  | |- wp (set_parent_color_word _ _) _ _ => read wp_set_word; written
  | |- wp (set_right _ _) _ _ => read wp_set_right; written
  | |- wp (set_left _ _) _ _ => read wp_set_left; written
  | |- wp (if 0 =? 0 then _ else _) _ _ => change (0 =? 0) with true; cbn iota
  | |- wp (when 0 _) _ _ => apply wp_ret
  | |- wp (when ?p ?f) _ _ => change (when p f) with (if p =? 0 then mret tt else f p); is_pos p
  | |- wp (and_then 0 _) _ _ => apply wp_ret
  | |- wp (and_then ?p _) _ _ => unfold and_then; is_pos p
  | |- wp (or_else 0 _) _ _ => apply wp_ret
  | |- wp (or_else ?p _) _ _ => unfold or_else; is_pos p
  | |- wp fuel_of _ _ => match goal with H : holds _ _ _ |- _ => eapply (wp_fuel _ _ _ H) end
  end.

(** What is held is what is asked for, up to order. *)
Ltac held :=
  match goal with H : holds _ _ _ |- holds _ _ _ =>
    cbn [cells ctx_cells path_cells ctx_root app top node_of node_on above above_or plug];
    repeat (progress (rewrite <- ?app_assoc; cbn [app])); eapply holds_perm, H; perm
  end.

(** The parent and colour of [old] pass to [new], which takes its place. *)
Lemma wp_rotate s k old new c c' w a b a' b' l Q :
  holds s (ctx_root old k)
    (ctx_cells old k ++ (old, Node (word (above k) c) a b) :: (new, Node w a' b') :: l) ->
  (forall s', holds s' (ctx_root new k) (ctx_cells new k ++ (old, Node (word new c') a b) ::
     (new, Node (word (above k) c) a' b') :: l) -> Q tt s') ->
  wp (__rb_rotate_set_parents old new (color_bit c')) s Q.
Proof.
  intros H HQ. unfold __rb_rotate_set_parents. step. step. step. step. step. step.
  step. read wp_set_pc. written. focus_chunk (ctx_cells old k).
  eapply wp_change_child; [exact H|find_cell|]. clear H. intros s' H. apply HQ. held.
Qed.

(** What rebalancing leaves: a red-black tree with the nodes of [l] around the hole. *)
Definition rebuilt (k : ctx) (l : list Z) (rest : list (Z * rb_node)) (s : rbt) : Prop :=
  exists t', rb_tree t' /\ inorder t' = before k ++ l ++ after k /\
    holds s (top t') (cells 0 t' ++ rest).

Lemma rebuilt_plug n k t l rest s : rb n t -> ctx_ok n k -> black t \/ black_above k ->
  inorder t = l ->
  holds s (ctx_root (top t) k) (ctx_cells (top t) k ++ cells (above k) t ++ rest) ->
  rebuilt k l rest s.
Proof.
  intros Ht Hk Hb <- H. exists (plug k t). split; [by eapply plug_rb|].
  split; [by rewrite inorder_plug|]. by apply holds_plug.
Qed.
