(* ===== verification/RbInsert.v ===== *)
(** * Insertion keeps the rules (lib/rbtree.c, lines 84-220) *)

From S2P Require Import Prelude RbTree RbShape RbRep.

Section insert.
Context (rest : list (Z * rb_node)).

(** A node [p] whose inner child is [c], to go above [g], whose child is out of date. *)
Lemma outer_ok d k nn near c p g u w o l s Q :
  rb nn near -> rb nn c -> black c -> black u -> rb nn u -> ctx_ok (S nn) k ->
  holds s (ctx_root g k) (ctx_cells g k ++
    (g, node_of d (word (above k) Black) o (top u)) ::
    (p, node_of d w (top near) (top c)) :: cells p near ++ cells p c ++ cells g u ++ rest) ->
  l = inorder (node_on d Black g (node_on d Red p near c) u) ->
  (forall s', rebuilt k l rest s' -> Q tt s') -> wp (insert_outer d p g (top c)) s Q.
Proof.
  intros Hn Hc Hbc Hbu Hu Hk H Hl HQ.
  assert (forall s', holds s' (ctx_root p k) (ctx_cells p k ++
      cells (above k) (node_on d Black p near (node_on d Red g c u)) ++ rest) -> Q tt s') as Hfin.
  { intros s' H'. apply HQ. apply (rebuilt_plug (S nn) k (node_on d Black p near (node_on d Red g c u)));
      [|done|left; by destruct d| |by destruct d].
    - apply node_on_rb. split; [done|]. by apply node_on_rb.
    - subst l. destruct d; in_order. }
  unfold insert_outer.
  destruct d; cbn [node_on node_of child opp] in *; flat; step; step; step; step;
    (destruct c as [|[] xc cl cr]; [|done|]); cbn [top] in *; flat; repeat step; change RB_RED with (color_bit Red);
    focus p; focus g; focus_chunk (ctx_cells g k);
    (eapply wp_rotate; [exact H|]); clear H; intros s' H; apply Hfin; held.
Qed.
(** Case 3: [p] and [n], both red, on the same side. *)
Lemma rotate_outer_ok d k nn n a b c p g u s Q :
  rb nn (T Red n a b) -> rb nn c -> black c -> black u -> rb nn u -> ctx_ok (S nn) k ->
  holds s (ctx_root g k) (ctx_cells g k ++
    cells (above k) (node_on d Black g (node_on d Red p (T Red n a b) c) u) ++ rest) ->
  (forall s', rebuilt k (inorder (node_on d Black g (node_on d Red p (T Red n a b) c) u)) rest s' -> Q tt s') ->
  wp (insert_rotate d n p g) s Q.
Proof.
  intros Hn Hc Hbc Hbu Hu Hk H HQ. unfold insert_rotate, insert_inner.
  destruct d; cbn [node_on] in *; flat; step; step; step; differ_top n c; step.
  - eapply (outer_ok L k nn (T Red n a b) c p g u _ p); [done..| |reflexivity|done]. cbn [node_of top]. held.
  - eapply (outer_ok R k nn (T Red n a b) c p g u _ p); [done..| |reflexivity|done]. cbn [node_of top]. held.
Qed.

(** Case 2: [n] is on the other side. *)
Lemma rotate_inner_ok d k nn n x b c p g u s Q :
  rb nn x -> black x -> rb nn (node_on d Red n b c) -> black u -> rb nn u -> ctx_ok (S nn) k ->
  holds s (ctx_root g k) (ctx_cells g k ++
    cells (above k) (node_on d Black g (node_on d Red p x (node_on d Red n b c)) u) ++ rest) ->
  (forall s', rebuilt k (inorder (node_on d Black g (node_on d Red p x (node_on d Red n b c)) u)) rest s' -> Q tt s') ->
  wp (insert_rotate d n p g) s Q.
Proof.
  intros Hx Hbx Hn Hbu Hu Hk H HQ. apply node_on_rb in Hn as (Hb & Hc & Hbb & Hbc).
  assert (rb nn (node_on d Red p x b)) as Hp by (by apply node_on_rb).
  unfold insert_rotate, insert_inner. destruct d; cbn [node_on] in *; flat; step; step; step;
    rewrite Z.eqb_refl; step; step; step; step; step; step; step;
    (destruct b as [|[] xb bl br]; [|done|]); cbn [top] in *; flat; repeat step.
  - eapply (outer_ok L k nn (T Red p x E) c n g u _ p); [done..| | |exact HQ]; [cbn [node_of top]; held|].
    in_order.
  - eapply (outer_ok L k nn (T Red p x (T Black xb bl br)) c n g u _ p); [done..| | |exact HQ];
      [cbn [node_of top]; held|]. in_order.
  - eapply (outer_ok R k nn (T Red p E x) c n g u _ p); [done..| | |exact HQ]; [cbn [node_of top]; held|].
    in_order.
  - eapply (outer_ok R k nn (T Red p (T Black xb bl br) x) c n g u _ p); [done..| | |exact HQ];
      [cbn [node_of top]; held|]. in_order.
Qed.

(** The uncle is black. *)
Lemma insert_side_black d f k nn n a b e p x g u s Q :
  rb nn (T Red n a b) -> rb nn x -> black x -> black u -> rb nn u -> ctx_ok (S nn) k ->
  holds s (ctx_root g k) (ctx_cells g k ++
    cells (above k) (node_on d Black g (node_on e Red p (T Red n a b) x) u) ++ rest) ->
  (forall s', rebuilt k (inorder (node_on d Black g (node_on e Red p (T Red n a b) x) u)) rest s' -> Q tt s') ->
  wp (insert_side f d n p g) s Q.
Proof.
  intros Hn Hx Hbx Hbu Hu Hk H HQ. unfold insert_side.
  assert (wp (insert_rotate d n p g) s Q) as Hrot.
  { destruct d, e.
    - by apply (rotate_outer_ok L k nn n a b x p g u).
    - by apply (rotate_inner_ok L k nn n x a b p g u).
    - by apply (rotate_inner_ok R k nn n x b a p g u).
    - by apply (rotate_outer_ok R k nn n a b x p g u). }
  destruct d; cbn [node_on] in *; flat; step; step; step;
    (destruct u as [|[] xu ul ur]; [|done|]); cbn [top] in *; flat; step; try step; exact Hrot.
Qed.

(** The uncle is red: the hole moves to the grandparent. *)
Lemma insert_side_red d e f k n a b p x g xu ul ur s Q :
  holds s (ctx_root g k) (ctx_cells g k ++
    cells (above k) (node_on d Black g (node_on e Red p (T Red n a b) x) (T Red xu ul ur)) ++ rest) ->
  (forall s', holds s' (ctx_root g k) (ctx_cells g k ++
      cells (above k) (node_on d Red g (node_on e Black p (T Red n a b) x) (T Black xu ul ur)) ++ rest) ->
    wp (f g (above k)) s' Q) ->
  wp (insert_side f d n p g) s Q.
Proof.
  intros H HQ. unfold insert_side.
  destruct d, e; cbn [node_on] in *; flat; repeat step; apply HQ; held.
Qed.

(** The loop, from a red node whose parent may be red. *)
Lemma insert_loop_ok fuel : forall k nn n a b s Q,
  (length k < fuel)%nat -> rb nn (T Red n a b) -> ctx_ok nn k ->
  holds s (ctx_root n k) (ctx_cells n k ++ cells (above k) (T Red n a b) ++ rest) ->
  (forall s', rebuilt k (inorder (T Red n a b)) rest s' -> Q tt s') ->
  wp (insert_loop fuel n (above k)) s Q.
Proof.
  induction fuel as [fuel IH] using lt_wf_ind. intros k nn n a b s Q Hf Hn Hk H HQ.
  destruct fuel as [|fuel]; [lia|]. cbn [insert_loop].
  destruct k as [|[[[e c] p] x] k]; cbn [above].
  { rewrite Z.eqb_refl. flat. step. apply HQ. destruct Hn as (Ha & Hb & _).
    eapply (rebuilt_plug (S nn) [] (T Black n a b)); [done|done|by left|done|]. held. }
  destruct c.
  - destruct Hk as (Hx & Hbx & Hab & Hk). destruct k as [|[[[d []] g] u] k]; try done.
    destruct Hk as [Hu Hk].
    assert (holds s (ctx_root g k) (ctx_cells g k ++
      cells (above k) (node_on d Black g (node_on e Red p (T Red n a b) x) u) ++ rest)) as H'.
    { destruct d, e; flat; held. }
    assert (forall s', rebuilt k (inorder (node_on d Black g (node_on e Red p (T Red n a b) x) u)) rest s' ->
      Q tt s') as HQ'.
    { intros s' (t' & Ht' & Hi & Hs). apply HQ. exists t'. split; [done|]. split; [|done].
      rewrite Hi. destruct d, e; in_order. }
    assert (wp (insert_side (insert_loop fuel) d n p g) s Q) as Hside.
    { destruct u as [|[] xu ul ur].
      - by apply (insert_side_black d _ k nn n a b e p x g E).
      - eapply insert_side_red; [exact H'|]. intros s' Hs'.
        assert (exists a' b', node_on d Red g (node_on e Black p (T Red n a b) x) (T Black xu ul ur) =
          T Red g a' b') as (a' & b' & E) by (destruct d; cbn; eauto).
        assert (rb (S nn) (T Red g a' b')) as Hg.
        { rewrite <- E. destruct Hu as (Hul & Hur & _ & _). apply node_on_rb. split; [by apply node_on_rb|].
          split; [done|]. by destruct e. }
        eapply (IH fuel ltac:(lia) k (S nn) g a' b'); [cbn in Hf; lia|done|done|by rewrite <- E|].
        intros s2 Hs2. apply HQ'. rewrite <- E in Hs2. by destruct d, e.
      - by apply (insert_side_black d _ k nn n a b e p x g (T Black xu ul ur)). }
    clear IH Hk Hu HQ' H'. destruct d, e; flat; is_pos p; step; step; step; step; step; step;
      (differ_top p u || rewrite Z.eqb_refl); exact Hside.
  - destruct Hk as [Hx Hk]. destruct e; flat; is_pos p; step; step; step; apply HQ;
      [eapply (rebuilt_plug nn ((L, Black, p, x) :: k) (T Red n a b))
      |eapply (rebuilt_plug nn ((R, Black, p, x) :: k) (T Red n a b))];
      [done|done|by right|done|held|done|done|by right|done|held].
Qed.
End insert.

(** Linking a new node at a hole and rebalancing. *)
Definition link_of (k : ctx) : link :=
  match k with [] => Root | (d, _, x, _) :: _ => Child d x end.

Lemma insert_ok k x n0 rest s Q :
  rb_tree (plug k E) -> holds s (top (plug k E)) (cells 0 (plug k E) ++ (x, n0) :: rest) ->
  (forall s', rebuilt k [x] rest s' -> Q tt s') ->
  wp (rb_link_node x (above k) (link_of k);; rb_insert_color x) s Q.
Proof.
  intros Ht H HQ. destruct (unplug_rb _ _ Ht) as (n & Hn & Hk & _). cbn in Hn. subst n.
  apply holds_plug in H. cbn [top cells app] in H. unfold rb_link_node, rb_insert_color.
  step. step. match goal with H : holds _ _ _ |- _ => eapply (wp_modify _ _ _ H); [find_cell|] end. written.
  rewrite <- (word_red (above k)) in H at 1.
  assert (wp (set_link (link_of k) x) s0 (fun _ s' =>
    holds s' (ctx_root x k) (ctx_cells x k ++ cells (above k) (T Red x E E) ++ rest))) as Hlink.
  { destruct k as [|[[[d c] p] t] k]; cbn [link_of set_link].
    - eexists tt, _. split; [reflexivity|]. destruct H as (H1 & H2 & H3 & H4). by repeat split.
    - destruct d; flat; step; held. }
  eapply wp_mono; [exact Hlink|]. clear Hlink H. cbn beta. intros _ s' H. flat.
  step. step. step. step.
  eapply (insert_loop_ok rest _ k 0 x E E); [|done|done|held|exact HQ].
  pose proof (length_ctx_cells x k). rewrite length_app. lia.
Qed.
