(* ===== verification/RbErase.v ===== *)
(** * Removal keeps the rules (lib/rbtree.c, lines 226-407) *)

From S2P Require Import Prelude RbTree RbShape RbRep.

(** The place of a node of colour [c] with [n] black nodes on the paths below it. *)
Definition place_ok (c : color) (n : nat) (k : ctx) : Prop :=
  match c with Red => black_above k /\ ctx_ok n k | Black => ctx_ok (S n) k end.

Lemma ctx_ok_cons n d c x t k : ctx_ok n ((d, c, x, t) :: k) <->
  rb n t /\ (c = Red -> black t) /\ place_ok c n k.
Proof. destruct c; cbn; naive_solver. Qed.

Lemma rebuilt_place d c n x a b k l rest s :
  rb n a -> rb n b -> (c = Red -> black a /\ black b) -> place_ok c n k ->
  inorder (node_on d c x a b) = l ->
  holds s (ctx_root x k) (ctx_cells x k ++ cells (above k) (node_on d c x a b) ++ rest) ->
  rebuilt k l rest s.
Proof.
  intros Ha Hb Hab Hk Hl H. destruct c; cbn in Hk.
  - destruct Hab as [Hba Hbb]; [done|]. destruct Hk as [Hk1 Hk2].
    apply (rebuilt_plug n k (node_on d Red x a b)); [by apply node_on_rb|done|by right|done|by destruct d].
  - apply (rebuilt_plug (S n) k (node_on d Black x a b));
      [by apply node_on_rb|done|left; by destruct d|done|by destruct d].
Qed.

Section erase.
Context (rest : list (Z * rb_node)).

(** Case 4: the far nephew [f], whose word and that of the sibling [sb] are overwritten,
    as is the far child of [p]. *)
Lemma far_ok d c k n t near fa fb p sb f w1 w2 o l s Q :
  rb n t -> rb n near -> rb n fa -> rb n fb -> place_ok c (S n) k ->
  holds s (ctx_root p k) (ctx_cells p k ++ (p, node_of d (word (above k) c) (top t) o) ::
    (sb, node_of d w1 (top near) f) :: (f, node_of d w2 (top fa) (top fb)) ::
    cells p t ++ cells sb near ++ cells f fa ++ cells f fb ++ rest) ->
  l = inorder (node_on d c p t (node_on d Black sb near (node_on d Black f fa fb))) ->
  (forall s', rebuilt k l rest s' -> Q tt s') ->
  wp (erase_far_red d p sb f) s Q.
Proof.
  intros Ht Hn Ha Hb Hk H Hl HQ.
  assert (forall s', holds s' (ctx_root sb k) (ctx_cells sb k ++
      cells (above k) (node_on d c sb (node_on d Black p t near) (node_on d Black f fa fb)) ++ rest) -> Q tt s')
    as Hfin.
  { intros s' H'. apply HQ. eapply (rebuilt_place d c (S n) sb); [| | |exact Hk| |exact H'].
    - by apply node_on_rb.
    - by apply node_on_rb.
    - intros _. by destruct d.
    - subst l. destruct d; in_order. }
  unfold erase_far_red.
  destruct d; cbn [node_on node_of] in *; flat; do 9 step; (destruct near as [|cn xn nl nr]; cbn [top] in *; flat; repeat step;
    change RB_BLACK with (color_bit Black);
    focus sb; focus p; focus_chunk (ctx_cells p k);
    (eapply wp_rotate; [exact H|]); clear H; intros s' H; apply Hfin; held).
Qed.

(** The memory around a hole below [p] with a black sibling. *)
Definition around (d : side) (c : color) (p : Z) (k : ctx) (t sib : tree) (s : rbt) : Prop :=
  holds s (ctx_root p k) (ctx_cells p k ++
    (p, node_of d (word (above k) c) (top t) (top sib)) :: cells p t ++ cells p sib ++ rest).

(** Cases 3 and 4: the near nephew is red, the far one black. *)
Lemma near_ok d c k n t p sb q qa qb far s Q :
  rb n t -> rb n (node_on d Red q qa qb) -> rb n far -> black far -> place_ok c (S n) k ->
  around d c p k t (node_on d Black sb (node_on d Red q qa qb) far) s ->
  (forall s', rebuilt k (inorder (node_on d c p t (node_on d Black sb (node_on d Red q qa qb) far))) rest s' ->
     Q tt s') ->
  wp ('(tmp1, sibling) ← erase_near_red d p sb q; erase_far_red d p sibling tmp1) s Q.
Proof.
  intros Ht Hq Hf Hbf Hk H HQ. unfold around in H. apply node_on_rb in Hq as (Ha & Hb & Hba & Hbb).
  unfold erase_near_red.
  destruct d; cbn [node_on node_of] in *; flat; do 10 step; (destruct qb as [|[] xq ql qr]; [|done|]); cbn [top] in *; flat; repeat step.
  - eapply (far_ok L c k n t qa E far p q sb); [done..| | |exact HQ]; [cbn [node_of top]; held|in_order].
  - eapply (far_ok L c k n t qa (T Black xq ql qr) far p q sb); [done..| | |exact HQ];
      [cbn [node_of top]; held|in_order].
  - eapply (far_ok R c k n t qa E far p q sb); [done..| | |exact HQ]; [cbn [node_of top]; held|in_order].
  - eapply (far_ok R c k n t qa (T Black xq ql qr) far p q sb); [done..| | |exact HQ];
      [cbn [node_of top]; held|in_order].
Qed.

(** Case 2: both nephews are black; with a black parent that is not the root, the hole
    moves up. *)
Lemma flip_ok again d c k n t p sb near far s Q :
  rb n t -> black t -> rb n near -> rb n far -> black near -> black far -> place_ok c (S n) k ->
  around d c p k t (node_on d Black sb near far) s ->
  (c = Black -> k <> [] -> forall s',
     holds s' (ctx_root p k) (ctx_cells p k ++
       cells (above k) (node_on d Black p t (node_on d Red sb near far)) ++ rest) ->
     rb (S n) (node_on d Black p t (node_on d Red sb near far)) ->
     wp (again p (above k)) s' Q) ->
  (forall s', rebuilt k (inorder (node_on d c p t (node_on d Black sb near far))) rest s' -> Q tt s') ->
  wp (erase_flip again p sb) s Q.
Proof.
  intros Ht Hbt Hn Hf Hbn Hbf Hk H Hagain HQ. unfold around in H. unfold erase_flip.
  assert (rb (S n) (node_on d Black p t (node_on d Red sb near far))) as Hflip
    by (apply node_on_rb; split; [done|]; by apply node_on_rb).
  assert (forall s', (c = Black -> k = []) -> holds s' (ctx_root p k) (ctx_cells p k ++
       cells (above k) (node_on d Black p t (node_on d Red sb near far)) ++ rest) -> Q tt s') as Hdone.
  { intros s' Hc H'. apply HQ.
    apply (rebuilt_plug (S n) k (node_on d Black p t (node_on d Red sb near far)));
      [done| |left; by destruct d|destruct d; in_order|by destruct d].
    destruct c; [by destruct Hk|]. by rewrite Hc. }
  destruct c, d; cbn [node_on node_of] in *; flat; step; step; step; step; step.
  1, 2: apply Hdone; [done|held].
  all: step; (destruct k as [|[[[e ce] x] u] k];
    [apply wp_ret, Hdone; [done|flat; held]|cbn [above] in *; flat; is_pos x; apply Hagain; [done|done|held|done]]).
Qed.

(** Cases 2 to 4. *)
Lemma black_sibling_ok again d c k n t p sb near far s Q :
  rb n t -> black t -> rb n near -> rb n far -> place_ok c (S n) k ->
  around d c p k t (node_on d Black sb near far) s ->
  (c = Black -> k <> [] -> forall s',
     holds s' (ctx_root p k) (ctx_cells p k ++
       cells (above k) (node_on d Black p t (node_on d Red sb near far)) ++ rest) ->
     rb (S n) (node_on d Black p t (node_on d Red sb near far)) ->
     wp (again p (above k)) s' Q) ->
  (forall s', rebuilt k (inorder (node_on d c p t (node_on d Black sb near far))) rest s' -> Q tt s') ->
  wp (erase_black_sibling again d p sb) s Q.
Proof.
  intros Ht Hbt Hn Hf Hk H0 Hagain HQ. unfold erase_black_sibling. pose proof H0 as H. unfold around in H.
  destruct d; cbn [node_on node_of] in *; flat; step; step; step; test_black far;
    (destruct far as [|[] f fa fb]; cbn [top_black top] in *; [|destruct Hf as (Hfa & Hfb & _ & _); flat|]).
  all: try (step; step; step; test_black near; destruct near as [|[] x a b]; cbn [top_black top] in *;
    [ eapply flip_ok; try exact H0; done
    | eapply near_ok; try exact H0; done
    | eapply flip_ok; try exact H0; done ]).
  all: clear H0 Hagain.
  - eapply (far_ok L c k n t near fa fb p sb f); [done..| | |exact HQ]; [cbn [node_of top]; held|in_order].
  - eapply (far_ok R c k n t near fb fa p sb f); [done..| | |exact HQ]; [cbn [node_of top]; held|in_order].
Qed.

(** Case 1: a red sibling is rotated above the parent, and the near nephew is the sibling. *)
Lemma red_sibling_ok again d c k n t p sib s Q :
  rb n t -> black t -> ctx_ok (S n) ((d, c, p, sib) :: k) ->
  around d c p k t sib s ->
  (c = Black -> k <> [] -> forall x a b s', rb (S n) (T Black x a b) ->
     inorder (T Black x a b) = inorder (node_on d c p t sib) ->
     holds s' (ctx_root x k) (ctx_cells x k ++ cells (above k) (T Black x a b) ++ rest) ->
     wp (again x (above k)) s' Q) ->
  (forall s', rebuilt k (inorder (node_on d c p t sib)) rest s' -> Q tt s') ->
  wp (sibling ← erase_red_sibling d p (top sib); erase_black_sibling again d p sibling) s Q.
Proof.
  intros Ht Hbt Hk H0 Hagain HQ. apply ctx_ok_cons in Hk as (Hsib & Hred & Hk).
  destruct sib as [|[] sb l r]; [done| |].
  - destruct c; [by destruct Hred|]. destruct Hsib as (Hl & Hr & Hbl & Hbr).
    destruct l as [|[] q ql qr]; try done. destruct r as [|[] q' ql' qr']; try done.
    destruct Hl as [Hql Hqr]. destruct Hr as [Hql' Hqr']. unfold around in H0. rename H0 into H.
    unfold erase_red_sibling. cbn [top]. destruct d; cbn [node_of node_on top] in *; flat.
    + do 11 step. change RB_RED with (color_bit Red). focus sb. focus p. focus_chunk (ctx_cells p k).
      apply wp_bind. eapply wp_rotate; [exact H|]. clear H. intros sr H. step.
      eapply (black_sibling_ok _ L Red ((L, Black, sb, T Black q' ql' qr') :: k) n t p q ql qr); try done;
        [unfold around; held|].
      intros s' (t' & Ht' & Hi & Hs'). apply HQ. exists t'. split; [done|]. split; [|done].
      rewrite Hi. in_order.
    + do 11 step. change RB_RED with (color_bit Red). focus sb. focus p. focus_chunk (ctx_cells p k).
      apply wp_bind. eapply wp_rotate; [exact H|]. clear H. intros sr H. step.
      eapply (black_sibling_ok _ R Red ((R, Black, sb, T Black q ql qr) :: k) n t p q' qr' ql'); try done;
        [unfold around; held|].
      intros s' (t' & Ht' & Hi & Hs'). apply HQ. exists t'. split; [done|]. split; [|done].
      rewrite Hi. in_order.
  - destruct Hsib as [Hl Hr]. unfold erase_red_sibling. cbn [top].
    pose proof H0 as H. unfold around in H. destruct d; cbn [node_of node_on top] in *; flat; do 4 step.
    + apply (black_sibling_ok _ L c k n t p sb l r); try done. cbn [node_on].
      intros Hc Hne s' Hs' Hrb. by eapply Hagain.
    + apply (black_sibling_ok _ R c k n t p sb r l); try done. cbn [node_on].
      intros Hc Hne s' Hs' Hrb. by eapply Hagain.
Qed.

(** The loop, from a hole whose paths are one black node short. *)
Lemma erase_loop_ok fuel : forall d c p sib k n t s Q,
  (length k < fuel)%nat -> rb n t -> black t -> ctx_ok (S n) ((d, c, p, sib) :: k) ->
  around d c p k t sib s ->
  (forall s', rebuilt k (inorder (node_on d c p t sib)) rest s' -> Q tt s') ->
  wp (erase_loop fuel (top t) p) s Q.
Proof.
  induction fuel as [|fuel IH]; intros d c p sib k n t s Q Hf Ht Hbt Hk H0 HQ; [lia|]. cbn [erase_loop].
  assert (wp (erase_side (erase_loop fuel) d p) s Q) as Hside.
  { unfold erase_side. pose proof H0 as H. unfold around in H.
    assert (wp (child (opp d) p) s (fun x s' => x = top sib /\ s' = s)) as Hc
      by (destruct d; cbn [node_of] in *; step; done).
    apply wp_bind. eapply wp_mono; [exact Hc|]. intros x s' [-> ->].
    eapply red_sibling_ok; [exact Ht|exact Hbt|exact Hk|exact H0| |exact HQ].
    intros -> Hne y a b s' Hy Hi Hs'. destruct k as [|[[[e ce] g] u] k]; [done|]. cbn [above].
    apply ctx_ok_cons in Hk as (_ & _ & Hk). cbn [place_ok] in Hk.
    eapply (IH e ce g u k (S n) (T Black y a b)); [cbn in Hf; lia|done|done|done| |].
    - unfold around. destruct e; flat; held.
    - intros s2 (t' & Ht' & Hi2 & Hs2). apply HQ. exists t'. split; [done|]. split; [|done].
      rewrite Hi2. rewrite <- Hi. destruct e; in_order. }
  pose proof H0 as H. unfold around in H. apply ctx_ok_cons in Hk as (Hsib & _ & _).
  destruct sib as [|cs xs l r]; [done|]. clear H0. destruct d; cbn [node_of top] in *; flat; step; step.
  - differ_top xs t. exact Hside.
  - rewrite Z.eqb_refl. exact Hside.
Qed.
End erase.
