(* ===== verification/RbUnlink.v ===== *)
(** * Removing a node (linux/rbtree_augmented.h, lines 186-288)

    The node is unlinked, its successor taking its place when it has two children; one
    black node may then be missing on the paths through a hole. *)

From S2P Require Import Prelude RbTree RbShape RbRep RbErase.

(** The loop to the successor only reads. *)
Lemma successor_ok t : forall fuel q s r l l' Q,
  t <> E -> holds s r l -> l ≡ₚ cells q t ++ l' -> (height t <= fuel)%nat ->
  (forall k cs sc cr, t = plug k (T cs sc E cr) -> all_left k -> Q (above_or q k, sc) s) ->
  wp (successor_loop fuel q (top t)) s Q.
Proof.
  induction t as [|c x a IHa b _]; intros fuel q s r l l' Q Ht H Hp Hf HQ; [done|].
  destruct fuel as [|fuel]; [cbn in Hf; lia|]. cbn [successor_loop top height] in *. cbn [cells] in Hp.
  cbn [app] in Hp. rewrite <- app_assoc in Hp. apply wp_bind. eapply wp_left; [exact H|exact Hp|]. cbn [rb_left].
  destruct a as [|ca xa al ar].
  - cbn [top]. apply wp_ret. apply (HQ [] c x b); [done|constructor].
  - set (a := T ca xa al ar) in *.
    assert (top a <> 0) as Hne.
    { eapply (holds_pos _ _ _ (top a)); [exact H|]. rewrite Hp. unfold a. cbn [cells app]. rewrite <- ?app_assoc.
      cbn [app]. find_cell. }
    rewrite (proj2 (Z.eqb_neq _ _) Hne). cbn [negb].
    eapply (IHa fuel x s r l ((x, Node (word q c) (top b) (top a)) :: cells x b ++ l'));
      [done|exact H|rewrite Hp; find_chunk|lia|].
    intros k cs sc cr Hk Hl. rewrite <- (above_or_snoc q k L c x b). apply (HQ _ cs sc cr).
    + by rewrite plug_app, <- Hk.
    + apply Forall_app. split; [done|]. by constructor.
Qed.

Lemma unlink_ok x r rt l' s Q : r <> E -> ptr x -> holds s rt (cells x r ++ l') ->
  (forall k cs sc cr q s', r = plug k (T cs sc E cr) -> all_left k -> ptr q ->
     holds s' rt ((sc, Node (word q cs) (ctx_root (top cr) k) 0) :: cells sc cr ++
       path_cells sc (top cr) k ++ l') ->
     Q (above_or sc k, sc, top cr) s') ->
  wp (unlink_successor (top r)) s Q.
Proof.
  intros Hr Hx H HQ. destruct r as [|c y a b]; [done|]. unfold unlink_successor. cbn [top].
  step. flat. step. destruct a as [|ca xa al ar].
  - cbn [top]. step. flat. do 3 step.
    apply (HQ [] c y b x); [done|constructor|done|]. held.
  - set (a := T ca xa al ar) in *.
    assert (top a <> 0) as Hne.
    { eapply (holds_pos _ _ _ (top a)); [exact H|]. unfold a. cbn [cells app]. rewrite <- ?app_assoc. cbn [app].
      find_cell. }
    rewrite (proj2 (Z.eqb_neq _ _) Hne). step. step. step.
    eapply (successor_ok a); [done|exact H|find_chunk| |].
    { pose proof (height_cells y a). cbn [length]. rewrite !length_app. lia. }
    intros k cs sc cr Ha Hl. assert (top a = ctx_root sc k) as Htop by (rewrite Ha; apply top_plug).
    rewrite Htop in H. rewrite Ha, cells_plug_path in H. clearbody a. clear Hne.
    destruct k as [|[[[d cp] p] u] k].
    + cbn [above_or top ctx_root plug] in *. flat. do 9 step.
      apply (HQ [(L, c, y, b)] cs sc cr y); [by rewrite Ha|by constructor|is_ptr|]. held.
    + assert (d = L) as -> by (by inversion Hl). cbn [above_or top ctx_root] in *. flat. do 9 step.
      eapply (HQ (((L, cp, p, u) :: k) ++ [(L, c, y, b)]) cs sc cr p);
        [rewrite plug_app; cbn [plug node_on] in Ha |- *; by rewrite <- Ha|apply Forall_app; split; [done|by constructor]|is_ptr|].
      rewrite path_cells_app, ctx_root_app. held.
Qed.

(** ** What unlinking leaves *)

(** The list [l] of nodes is left, in a red-black tree when there is nothing to rebalance,
    else around a hole below [reb] short of a black node. *)
Definition unlinked (k : ctx) (l : list Z) (rest : list (Z * rb_node)) (reb : Z) (s : rbt) : Prop :=
  reb = 0 /\ rebuilt k l rest s \/
  exists k', reb = above k' /\ reb <> 0 /\ ctx_ok 1 k' /\
    before k' ++ after k' = before k ++ l ++ after k /\
    holds s (ctx_root 0 k') (ctx_cells 0 k' ++ rest).

(** A hole left by a black node, or by a red one. *)
Lemma unlinked_hole c k k0 l rest s n :
  ctx_ok n k -> rb n (T c 0 E E) -> before k ++ after k = before k0 ++ l ++ after k0 ->
  holds s (ctx_root 0 k) (ctx_cells 0 k ++ rest) ->
  unlinked k0 l rest (if is_black c then above k else 0) s.
Proof.
  intros Hk Hn Hl H. assert (forall m, ctx_ok m k -> m = 0%nat \/ k = [] -> rebuilt k0 l rest s) as Hdone.
  { intros m Hm Hor. exists (plug k E). split.
    - destruct Hor as [-> | ->]; [|by split; [|exists 0%nat]]. eapply plug_rb; [|exact Hm|by left]. done.
    - split; [rewrite inorder_plug; cbn [inorder app]; done|]. apply holds_plug. exact H. }
  destruct c; cbn in *.
  - left. split; [done|]. apply (Hdone n); [done|]. left. tauto.
  - destruct n as [|n]; [done|]. destruct Hn as [Hn _]. cbn in Hn. subst n.
    destruct k as [|[[[d c] x] t] k].
    + left. split; [done|]. apply (Hdone 0%nat); [done|by right].
    + right. exists ((d, c, x, t) :: k). cbn [above]. split; [done|]. split; [|done].
      eapply (holds_pos _ _ _ x); [exact H|]. cbn [ctx_cells app]. find_cell.
Qed.

(** A red only child takes the place of its black parent. *)
Lemma unlinked_child k k0 y l rest s n :
  ctx_ok n k -> n = 1%nat -> before k ++ y :: after k = before k0 ++ l ++ after k0 ->
  holds s (ctx_root y k) (ctx_cells y k ++ (y, Node (word (above k) Black) 0 0) :: rest) ->
  unlinked k0 l rest 0 s.
Proof.
  intros Hk -> Hl H. left. split; [done|]. exists (plug k (T Black y E E)).
  split; [by eapply plug_rb; [|exact Hk|by left]|]. split; [by rewrite inorder_plug|].
  apply holds_plug. exact H.
Qed.

Section unlink.
Context (rest : list (Z * rb_node)).

(** At most one child. *)
Lemma unlink_leaf_ok k c x l r s Q :
  rb_tree (plug k (T c x l r)) -> l = E \/ r = E ->
  holds s (ctx_root x k) (ctx_cells x k ++ cells (above k) (T c x l r) ++ rest) ->
  (forall reb nx s', unlinked k (inorder l ++ inorder r) ((x, nx) :: rest) reb s' -> Q reb s') ->
  wp (__rb_erase_augmented x) s Q.
Proof.
  intros Ht Hlr H HQ. destruct (unplug_rb _ _ Ht) as (n & Hn & Hk & _). unfold __rb_erase_augmented.
  destruct l as [|cl y l1 l2]; [destruct r as [|cr y r1 r2]|].
  - flat. do 7 step. rewrite word_parent by is_ptr. focus_chunk (ctx_cells x k).
    apply wp_bind. eapply wp_change_child; [exact H|find_cell|]. written. cbn [negb]. step.
    rewrite word_black by (eapply holds_above; [exact H|find_chunk]).
    eapply HQ, unlinked_hole; [exact Hk|by destruct c|done|exact H].
  - destruct c; cbn in Hn; [destruct cr; naive_solver|]. destruct n as [|n]; [done|].
    destruct Hn as [Hn Hr]. cbn in Hn. subst n. destruct cr; [|done]. destruct Hr as (H1 & H2 & H3 & H4).
    destruct r1 as [|[] ? ? ?]; try done. destruct r2 as [|[] ? ? ?]; try done.
    flat. do 7 step. rewrite word_parent by is_ptr. focus_chunk (ctx_cells x k).
    apply wp_bind. eapply wp_change_child; [exact H|find_cell|]. written. is_pos y. do 3 step.
    eapply HQ, (unlinked_child k); [exact Hk|done|done|]. held.
  - destruct Hlr as [| ->]; [done|]. destruct c; cbn in Hn; [destruct cl; naive_solver|].
    destruct n as [|n]; [done|].
    destruct Hn as [Hl Hn]. cbn in Hn. subst n. destruct cl; [|done]. destruct Hl as (H1 & H2 & H3 & H4).
    destruct l1 as [|[] ? ? ?]; try done. destruct l2 as [|[] ? ? ?]; try done.
    flat. do 4 step. is_pos y. do 5 step. rewrite word_parent by is_ptr. focus_chunk (ctx_cells x k).
    apply wp_bind. eapply wp_change_child; [exact H|find_cell|]. written. step.
    eapply HQ, (unlinked_child k); [exact Hk|done|done|]. held.
Qed.

(** Two children: the successor takes the place of the node. *)
Lemma unlink_two_ok k c x l r s Q :
  rb_tree (plug k (T c x l r)) -> l <> E -> r <> E ->
  holds s (ctx_root x k) (ctx_cells x k ++ cells (above k) (T c x l r) ++ rest) ->
  (forall reb nx s', unlinked k (inorder l ++ inorder r) ((x, nx) :: rest) reb s' -> Q reb s') ->
  wp (__rb_erase_augmented x) s Q.
Proof.
  intros Ht Hl Hr H HQ. unfold __rb_erase_augmented. flat. do 4 step.
  destruct l as [|cl y l1 l2]; [done|]. cbn [top] in *. flat. is_pos y.
  assert (top r <> 0) as Hne.
  { destruct r as [|? z ? ?]; [done|]. cbn [top] in *. flat. eapply (holds_pos _ _ _ z); [exact H|find_cell]. }
  rewrite (proj2 (Z.eqb_neq _ _) Hne). apply wp_bind.
  focus_chunk (cells x r). eapply unlink_ok; [done| |exact H|].
  { eapply (holds_ptr _ _ _ x); [exact H|find_cell]. }
  intros kr cs sc cr q s' Hkr Hleft Hq Hs'. clear H. rename Hs' into H.
  do 8 step. rewrite word_parent by is_ptr. focus_chunk (ctx_cells x k). apply wp_bind.
  eapply wp_change_child; [exact H|find_cell|]. written.
  set (k' := kr ++ (R, c, sc, T cl y l1 l2) :: k).
  assert (plug k (T c x (T cl y l1 l2) r) = plug (kr ++ (R, c, x, T cl y l1 l2) :: k) (T cs sc E cr)) as Et
    by (rewrite plug_app, <- Hkr; done).
  rewrite Et in Ht. destruct (unplug_rb _ _ Ht) as (n & Hn & Hk & _). apply (ctx_ok_rename _ _ _ _ sc) in Hk.
  fold k' in Hk.
  assert (before k' ++ inorder cr ++ after k' =
    before k ++ (inorder (T cl y l1 l2) ++ inorder r) ++ after k) as Hord.
  { rewrite Hkr, inorder_plug. unfold k'. rewrite before_app, after_app, (before_left _ Hleft). in_order. }
  assert (above_or sc kr = above k') as Habove by (unfold k'; by rewrite above_app).
  assert (forall h, ctx_root h k' = ctx_root sc k) as Hroot by (intros h; unfold k'; apply ctx_root_app).
  assert (forall h, ctx_cells h k' = path_cells sc h kr ++
    (sc, Node (word (above k) c) (ctx_root h kr) y) :: cells sc (T cl y l1 l2) ++ ctx_cells sc k) as Hcells
    by (intros h; unfold k'; by rewrite ctx_cells_app).
  destruct cr as [|cz z z1 z2]; cbn [top] in *.
  - change (0 =? 0) with true. cbn [negb]. do 5 step. rewrite word_black by done. rewrite Habove.
    eapply HQ, unlinked_hole; [exact Hk| |exact Hord|].
    + destruct cs; cbn in *; [done|by destruct n].
    + rewrite Hroot, Hcells. flat. held.
  - destruct cs; cbn in Hn; [destruct cz; naive_solver|]. destruct n as [|n]; [done|].
    destruct Hn as [Hn Hz]. cbn in Hn. subst n. destruct cz; [|done]. destruct Hz as (H1 & H2 & H3 & H4).
    destruct z1 as [|[] ? ? ?]; try done. destruct z2 as [|[] ? ? ?]; try done.
    flat. is_pos z. do 5 step.
    eapply HQ, (unlinked_child k' k z); [exact Hk|done|exact Hord|].
    rewrite Hroot, Hcells, <- Habove. held.
Qed.

(** ** Removal *)

Lemma erase_ok k c x l r s Q :
  rb_tree (plug k (T c x l r)) ->
  holds s (top (plug k (T c x l r))) (cells 0 (plug k (T c x l r)) ++ rest) ->
  (forall nx s', rebuilt k (inorder l ++ inorder r) ((x, nx) :: rest) s' -> Q tt s') ->
  wp (rb_erase x) s Q.
Proof.
  intros Ht H HQ. apply holds_plug in H. unfold rb_erase. apply wp_bind.
  assert (forall reb nx s', unlinked k (inorder l ++ inorder r) ((x, nx) :: rest) reb s' ->
    wp (if negb (reb =? 0) then ____rb_erase_color reb else mret tt) s' Q) as Hnext.
  { intros reb nx s' [[-> Hs]|(k' & -> & Hne & Hk & Hi & Hs)]; [by apply wp_ret; eapply HQ|].
    rewrite (proj2 (Z.eqb_neq _ _) Hne). cbn [negb]. destruct k' as [|[[[d c'] p] u] k']; [done|].
    unfold ____rb_erase_color. apply wp_bind. eapply wp_fuel; [exact Hs|]. cbn [above] in *.
    eapply (erase_loop_ok ((x, nx) :: rest) _ d c' p u k' 0 E); [|done|done|done| |].
    - rewrite length_app. apply le_n_S. etrans; [|apply Nat.le_add_r].
      apply Nat.lt_le_incl, (length_ctx_cells 0 ((d, c', p, u) :: k')).
    - unfold around. clear H. flat. held.
    - intros s2 (t' & Ht' & Hi2 & Hs2). apply (HQ nx). exists t'. split; [done|]. split; [|done].
      rewrite Hi2, <- Hi. destruct d; in_order. }
  destruct l as [|cl y l1 l2].
  { eapply unlink_leaf_ok; [exact Ht|by left|exact H|exact Hnext]. }
  destruct r as [|cr z r1 r2].
  { eapply unlink_leaf_ok; [exact Ht|by right|exact H|exact Hnext]. }
  eapply unlink_two_ok; [exact Ht|done|done|exact H|exact Hnext].
Qed.
End unlink.
