(* ===== verification/RbWalk.v ===== *)
(** * Walking a tree and replacing a node (lib/rbtree.c, lines 459-597) *)

From S2P Require Import Prelude RbTree RbShape RbRep RbInsert RbUnlink.

(** The first node of a list, null when there is none, and the last. *)
Definition first0 (l : list Z) : Z := default 0 (head l).
Definition last0 (l : list Z) : Z := default 0 (last l).
Definition end0 (d : side) (l : list Z) : Z := match d with L => first0 l | R => last0 l end.

Lemma first0_app l l' : l <> [] -> first0 (l ++ l') = first0 l.
Proof. by destruct l. Qed.

Lemma last0_app l x l' : last0 (l ++ x :: l') = last0 (x :: l').
Proof. unfold last0. by rewrite last_app_cons. Qed.

Lemma inorder_nonempty t : t <> E -> inorder t <> [].
Proof. destruct t as [|c x l r]; [done|]. intros _. cbn. by destruct (inorder l). Qed.

(** The nodes after the ones in a hole, or before them. *)
Definition beyond (d : side) (k : ctx) : list Z := match d with L => before k | R => after k end.

Section walk.
Context (s : rbt) (r : Z) (cs : list (Z * rb_node)).
Hypothesis H : holds s r cs.

Lemma descend_ok d t : forall fuel q l' Q, t <> E -> cs ≡ₚ cells q t ++ l' -> (height t <= fuel)%nat ->
  Q (end0 d (inorder t)) s -> wp (descend fuel d (top t)) s Q.
Proof.
  assert (forall u : tree, top u <> 0 -> u <> E) as Hu by (by intros [|]).
  induction t as [|c x a IHa b IHb]; intros fuel q l' Q Ht Hp Hf HQ; [done|].
  destruct fuel as [|fuel]; [cbn in Hf; lia|]. cbn [descend top height cells inorder app] in *.
  rewrite <- app_assoc in Hp.
  assert (forall u : tree, u = a \/ u = b -> u <> E -> top u <> 0) as Hne.
  { intros u Hab Hn. destruct u as [|cu y u1 u2]; [done|]. cbn [top].
    destruct Hab as [<- | <-]; (eapply (holds_pos _ _ _ y); [exact H|]); rewrite Hp;
      cbn [cells app]; flatten; find_cell. }
  apply wp_bind. destruct d; cbn [child end0] in *.
  - eapply wp_left; [exact H|exact Hp|]. cbn [rb_left]. destruct (decide (top a = 0)) as [Ha|Ha].
    + assert (a = E) as -> by (destruct a; [done|]; by destruct (Hne _ (or_introl eq_refl) ltac:(done) Ha)).
      rewrite Ha. by apply wp_ret.
    + rewrite (proj2 (Z.eqb_neq _ _) Ha). cbn [negb]. eapply IHa; [by apply Hu|rewrite Hp; find_chunk|lia|].
      rewrite first0_app in HQ by (by apply inorder_nonempty, Hu). exact HQ.
  - eapply wp_right; [exact H|exact Hp|]. cbn [rb_right]. destruct (decide (top b = 0)) as [Hb|Hb].
    + assert (b = E) as -> by (destruct b; [done|]; by destruct (Hne _ (or_intror eq_refl) ltac:(done) Hb)).
      rewrite Hb. apply wp_ret. rewrite last0_app in HQ. exact HQ.
    + rewrite (proj2 (Z.eqb_neq _ _) Hb). cbn [negb]. eapply IHb; [by apply Hu|rewrite Hp; find_chunk|lia|].
      rewrite last0_app in HQ. pose proof (inorder_nonempty b (Hu _ Hb)) as Hne'.
      unfold last0 in *. by destruct (inorder b).
Qed.

Lemma ascend_ok d k : forall fuel t l' Q, t <> E -> cs ≡ₚ ctx_cells (top t) k ++ cells (above k) t ++ l' ->
  (length k < fuel)%nat -> Q (end0 (opp d) (beyond d k)) s -> wp (ascend fuel d (top t)) s Q.
Proof.
  induction k as [|[[[e c] x] u] k IH]; intros fuel t l' Q Ht Hp Hf HQ;
    (destruct fuel as [|fuel]; [cbn in Hf; lia|]); cbn [ascend].
  - destruct t as [|ct y a b]; [done|]. pose proof (holds_perm _ _ _ _ Hp H) as Hs. clear H Hp. flat.
    do 3 step. step. by destruct d.
  - assert (e = d -> wp (ascend fuel d x) s Q) as Hup.
    { intros ->. replace x with (top (node_on d c x t u)) by (by destruct d).
      apply (IH fuel (node_on d c x t u) l'); [by destruct d| |cbn in Hf; lia|by destruct d].
      rewrite Hp. destruct d; cbn [ctx_cells top node_on cells node_of above app]; flatten; perm. }
    assert (e = opp d -> Q x s) as Hstop.
    { intros ->. destruct d; cbn [beyond before after end0 opp] in HQ; [|exact HQ].
      by rewrite app_assoc, last0_app in HQ. }
    destruct t as [|ct y a b]; [done|]. pose proof (holds_perm _ _ _ _ Hp H) as Hs. clear H Hp IH HQ.
    destruct d, e; cbn [top]; flat; do 2 step; is_pos x; do 2 step.
    1, 4: rewrite Z.eqb_refl; by apply Hup.
    1, 2: differ_top y u; apply wp_ret; by apply Hstop.
Qed.
End walk.

(** ** Properties of the walks *)

Lemma holds_fuel s k t rest : holds s (ctx_root (top t) k) (ctx_cells (top t) k ++ cells (above k) t ++ rest) ->
  forall Q : nat -> rbt -> Prop, (forall fuel, (length k < fuel)%nat -> (height t <= fuel)%nat -> Q fuel s) ->
  wp fuel_of s Q.
Proof.
  intros H Q HQ. eapply wp_fuel; [exact H|]. apply HQ; rewrite !length_app.
  - pose proof (length_ctx_cells (top t) k). lia.
  - pose proof (height_cells (above k) t). lia.
Qed.

(** One step from a node in either direction. *)
Lemma step_ok d k c x l r rest s Q :
  holds s (ctx_root x k) (ctx_cells x k ++ cells (above k) (T c x l r) ++ rest) ->
  Q (match d with L => last0 (before k ++ inorder l) | R => first0 (inorder r ++ after k) end) s ->
  wp (rb_step d x) s Q.
Proof.
  intros H0 HQ. pose proof H0 as H. flat. unfold rb_step. apply wp_bind. unfold RB_EMPTY_NODE. do 3 step.
  assert (word (above k) c =? x = false) as ->.
  { apply Z.eqb_neq. intros Hw.
    assert (ptr (above k)) as Hk by is_ptr. assert (ptr x) as Hx by is_ptr.
    pose proof (word_parent _ c Hk) as E1. rewrite Hw, <- (word_red x), word_parent in E1 by done.
    destruct k as [|[[[d' c'] y] u] k]; cbn [above] in *; flat.
    - eapply (holds_pos _ _ _ x); [exact H|find_cell|done].
    - eapply (holds_ne _ _ _ x _ y); [exact H|find_cell|find_cell|done]. }
  cbn iota. destruct d; do 2 step; (apply wp_bind, (holds_fuel _ k (T c x l r) rest H0)); intros fuel Hf1 Hf2;
    cbn [height] in Hf2; cbn [opp].
  - destruct l as [|cl y l1 l2].
    + cbn [top negb Z.eqb]. rewrite app_nil_r in HQ. by eapply (ascend_ok s _ _ H0 L k fuel (T c x E r)).
    + cbn [top]. assert (y <> 0) as Hy by (flat; eapply (holds_pos _ _ _ y); [exact H|find_cell]).
      rewrite (proj2 (Z.eqb_neq _ _) Hy). cbn [negb].
      eapply (descend_ok s _ _ H R (T cl y l1 l2)); [done|find_chunk|lia|].
      cbn [inorder end0] in *. rewrite app_assoc, last0_app in HQ. by rewrite last0_app.
  - destruct r as [|cr y r1 r2].
    + cbn [top negb Z.eqb]. by eapply (ascend_ok s _ _ H0 R k fuel (T c x l E)).
    + cbn [top]. assert (y <> 0) as Hy by (flat; eapply (holds_pos _ _ _ y); [exact H|find_cell]).
      rewrite (proj2 (Z.eqb_neq _ _) Hy). cbn [negb].
      eapply (descend_ok s _ _ H L (T cr y r1 r2)); [done|find_chunk|lia|].
      rewrite first0_app in HQ by by apply inorder_nonempty. exact HQ.
Qed.

Lemma end_ok d t rest s Q : holds s (top t) (cells 0 t ++ rest) ->
  Q (end0 d (inorder t)) s -> wp (rb_end d) s Q.
Proof.
  intros H HQ. unfold rb_end. apply wp_bind. exists (top t), s.
  split; [unfold get_root; by destruct H as (_ & _ & _ & ->)|]. destruct t as [|c x l r].
  - cbn [top Z.eqb]. apply wp_ret. by destruct d.
  - cbn [top]. assert (x <> 0) as Hx by (eapply (holds_pos _ _ _ x); [exact H|cbn [cells app]; find_cell]).
    rewrite (proj2 (Z.eqb_neq _ _) Hx). apply wp_bind. eapply wp_fuel; [exact H|].
    eapply (descend_ok s _ _ H d (T c x l r)); [done|find_chunk| |done].
    pose proof (height_cells 0 (T c x l r)). rewrite length_app. lia.
Qed.

(** Replacing a node by one with the same place in the order. *)
Lemma replace_ok k c x y n l r rest s Q :
  holds s (top (plug k (T c x l r))) (cells 0 (plug k (T c x l r)) ++ (y, n) :: rest) ->
  (forall s', holds s' (top (plug k (T c y l r))) (cells 0 (plug k (T c y l r)) ++
     (x, Node (word (above k) c) (top r) (top l)) :: rest) -> Q tt s') ->
  wp (rb_replace_node x y) s Q.
Proof.
  intros H HQ. apply holds_plug in H.
  assert (forall s', holds s' (ctx_root y k) (ctx_cells y k ++ cells (above k) (T c y l r) ++
     (x, Node (word (above k) c) (top r) (top l)) :: rest) -> Q tt s') as Hfin.
  { intros s' H'. apply HQ. by apply holds_plug. }
  clear HQ. unfold rb_replace_node. flat. do 4 step.
  step. match goal with H : holds _ _ _ |- _ => eapply (wp_modify _ _ _ H); [find_cell|] end. written.
  do 3 step.
  destruct l as [|cl xl l1 l2], r as [|cr xr r1 r2]; cbn [top] in *; flat;
    repeat (step || (focus_chunk (ctx_cells x k); (eapply wp_change_child; [exact H|find_cell|]); written));
    apply Hfin; held.
Qed.
