(* ===== verification/RbMain.v ===== *)
(** * The red-black tree: properties (lib/rbtree.c)

    What the operations do to the memory of a red-black tree, other nodes being in the
    memory too. *)

From S2P Require Import Prelude RbTree RbShape RbRep RbInsert RbErase RbUnlink RbWalk.

Lemma holds_nodup s t rest : holds s (top t) (cells 0 t ++ rest) -> NoDup (inorder t).
Proof.
  intros (H & _). rewrite fmap_app, NoDup_app in H. destruct H as (H & _ & _).
  by rewrite (cells_inorder 0 t) in H.
Qed.

Lemma split_unique (x : Z) a b a' b' :
  NoDup (a ++ x :: b) -> a ++ x :: b = a' ++ x :: b' -> a = a' /\ b = b'.
Proof.
  revert a'. induction a as [|y a IH]; intros [|y' a'] Hd Heq; cbn in *.
  - by simplify_eq.
  - injection Heq as -> Heq. subst b. apply NoDup_cons in Hd as [Hd _]. set_solver.
  - injection Heq as -> Heq. apply NoDup_cons in Hd as [Hd _]. set_solver.
  - injection Heq as -> Heq. apply NoDup_cons in Hd as [_ Hd]. destruct (IH a' Hd Heq) as [-> ->]. done.
Qed.

(** The place of a node, from its position in the order. *)
Lemma place_of s t rest a x b : holds s (top t) (cells 0 t ++ rest) -> inorder t = a ++ x :: b ->
  exists k c l r, t = plug k (T c x l r) /\ a = before k ++ inorder l /\ b = inorder r ++ after k.
Proof.
  intros H Hi. destruct (find_node x t) as (k & c & l & r & ->); [rewrite Hi; set_solver|].
  exists k, c, l, r. split; [done|]. rewrite inorder_plug in Hi. cbn [inorder] in Hi.
  pose proof (holds_nodup _ _ _ H) as Hd. rewrite inorder_plug in Hd. cbn [inorder] in Hd.
  rewrite <- ?app_assoc in Hi, Hd. cbn [app] in Hi, Hd. rewrite app_assoc in Hi, Hd.
  destruct (split_unique x _ _ a b Hd Hi) as [<- <-]. done.
Qed.

(** C30: Inserting keeps a red-black tree: a node linked where a search ended, at an empty
    place of a red-black tree, and rebalanced from by [rb_insert_color], is in a red-black
    tree with the nodes that were before and after the place around it in the order; no
    other node of the memory changes. *)
Theorem rb_insert_keeps s k x n0 rest :
  rb_tree (plug k E) -> holds s (top (plug k E)) (cells 0 (plug k E) ++ (x, n0) :: rest) ->
  exists s' t', (rb_link_node x (above k) (link_of k);; rb_insert_color x) s = Some (tt, s') /\
    rb_tree t' /\ inorder t' = before k ++ x :: after k /\ holds s' (top t') (cells 0 t' ++ rest).
Proof.
  intros Ht H. destruct (insert_ok k x n0 rest s (fun _ => rebuilt k [x] rest) Ht H) as ([] & s' & E & H');
    [done|]. destruct H' as (t' & H1 & H2 & H3). by exists s', t'.
Qed.

Lemma erase_at s t a x b rest :
  rb_tree t -> holds s (top t) (cells 0 t ++ rest) -> inorder t = a ++ x :: b ->
  exists s' t' nx, rb_erase x s = Some (tt, s') /\ rb_tree t' /\ inorder t' = a ++ b /\
    holds s' (top t') (cells 0 t' ++ (x, nx) :: rest).
Proof.
  intros Ht H Hi. destruct (place_of _ _ _ _ _ _ H Hi) as (k & c & l & r & -> & -> & ->).
  destruct (erase_ok rest k c x l r s (fun _ s' => exists nx, rebuilt k (inorder l ++ inorder r) ((x, nx) :: rest) s')
    Ht H) as ([] & s' & E & nx & t' & H1 & H2 & H3); [by intros nx s' H'; exists nx|].
  exists s', t', nx. split; [done|]. split; [done|]. split; [|done]. rewrite H2. by rewrite <- !app_assoc.
Qed.

Lemma wp_reads {A} (m : M A) (v : A) s : wp m s (fun y s' => y = v /\ s' = s) -> m s = Some (v, s).
Proof. intros (y & s' & E & -> & ->). done. Qed.

Lemma step_at s t a x b rest : holds s (top t) (cells 0 t ++ rest) -> inorder t = a ++ x :: b ->
  rb_next x s = Some (first0 b, s) /\ rb_prev x s = Some (last0 a, s).
Proof.
  intros H Hi. destruct (place_of _ _ _ _ _ _ H Hi) as (k & c & l & r & -> & -> & ->). apply holds_plug in H.
  split; apply wp_reads; [by apply (step_ok R k c x l r rest)|by apply (step_ok L k c x l r rest)].
Qed.

(** C31: Erasing keeps a red-black tree: after [rb_erase] the other nodes of the tree are in
    a red-black tree in the order they were in, the erased node is in none, and no other
    node of the memory changes. *)
Theorem rb_erase_keeps s t a x b rest :
  rb_tree t -> holds s (top t) (cells 0 t ++ rest) -> inorder t = a ++ x :: b ->
  exists s' t' nx, rb_erase x s = Some (tt, s') /\ rb_tree t' /\ inorder t' = a ++ b /\
    holds s' (top t') (cells 0 t' ++ (x, nx) :: rest).
Proof. apply erase_at. Qed.

(** The walks follow the order: [rb_first] and [rb_last] give the ends of the tree,
    [rb_next] and [rb_prev] the neighbours of a node, a null pointer past an end, and the
    memory is only read. *)
Theorem rb_walk_in_order s t a x b rest :
  holds s (top t) (cells 0 t ++ rest) -> inorder t = a ++ x :: b ->
  rb_first s = Some (first0 (a ++ x :: b), s) /\ rb_last s = Some (last0 (a ++ x :: b), s) /\
  rb_next x s = Some (first0 b, s) /\ rb_prev x s = Some (last0 a, s).
Proof.
  intros H Hi. rewrite <- Hi. split; [|split].
  - by apply wp_reads, (end_ok L t rest).
  - by apply wp_reads, (end_ok R t rest).
  - by eapply step_at.
Qed.

(** A red-black tree is balanced: no path from its root is longer than twice the
    logarithm of one more than its number of nodes. *)
Theorem rb_height_logarithmic t :
  rb_tree t -> (height t <= 2 * Nat.log2 (S (length (inorder t))))%nat.
Proof. apply rb_tree_height. Qed.

(** [rb_replace_node] puts a node in the place of another: the tree has the same shape
    and colours with the new node where the old one was, and the old node's fields are
    left as they were. *)
Theorem rb_replace_keeps s k c x y n l r rest :
  holds s (top (plug k (T c x l r))) (cells 0 (plug k (T c x l r)) ++ (y, n) :: rest) ->
  exists s', rb_replace_node x y s = Some (tt, s') /\
    holds s' (top (plug k (T c y l r)))
      (cells 0 (plug k (T c y l r)) ++ (x, Node (word (above k) c) (top r) (top l)) :: rest).
Proof.
  intros H. destruct (replace_ok k c x y n l r rest s (fun _ s' => holds s' (top (plug k (T c y l r)))
    (cells 0 (plug k (T c y l r)) ++ (x, Node (word (above k) c) (top r) (top l)) :: rest)) H)
    as ([] & s' & E & H'); [done|]. by exists s'.
Qed.

(** ** An example

    Seven nodes inserted in ascending order, from 8 to 56. *)

Definition ex_add (x p : Z) (l : link) : M unit := rb_link_node x p l;; rb_insert_color x.
Definition ex_nodes : rbt :=
  Rbt (list_to_map ((fun k => (8 * k, Node 0 0 0)) <$> [1; 2; 3; 4; 5; 6; 7])) 0.
Definition ex_build : M unit :=
  ex_add 8 0 Root;; ex_add 16 8 (Child R 8);; ex_add 24 16 (Child R 16);; ex_add 32 24 (Child R 24);;
  ex_add 40 32 (Child R 32);; ex_add 48 40 (Child R 40).
Definition ex_state : rbt :=
  Eval vm_compute in match ex_build ex_nodes with Some (_, s) => s | None => ex_nodes end.
Definition ex_tree : tree :=
  T Black 16 (T Black 8 E E) (T Red 32 (T Black 24 E E) (T Black 40 E (T Red 48 E E))).

(** Whether a list of cells is what a memory holds. *)
Definition holds_b (s : rbt) (r : Z) (l : list (Z * rb_node)) : bool :=
  bool_decide (NoDup l.*1) && forallb (fun p => (0 <? p) && (p mod 8 =? 0)) l.*1 &&
  forallb (fun c => match nodes s !! c.1 with
    | Some n => (__rb_parent_color n =? __rb_parent_color c.2) && (rb_right n =? rb_right c.2) &&
                (rb_left n =? rb_left c.2)
    | None => false end) l &&
  (size (nodes s) =? length l)%nat && (root s =? r).

Lemma holds_b_ok s r l : holds_b s r l = true -> holds s r l.
Proof.
  unfold holds_b, holds. rewrite !andb_true_iff, bool_decide_eq_true, Z.eqb_eq, Nat.eqb_eq.
  intros ((((H1 & H2) & H3) & H4) & H5). split; [done|].
  rewrite !forallb_forall in *. split.
  { apply List.Forall_forall. intros p Hp. specialize (H2 p Hp). unfold addr. lia. }
  split; [|done]. symmetry. apply map_subseteq_size_eq.
  - apply map_subseteq_spec. intros p n Hn. apply elem_of_list_to_map in Hn; [|done].
    apply list_elem_of_In in Hn. specialize (H3 _ Hn). cbn in H3.
    destruct (nodes s !! p) as [[w rr ll]|]; [|done]. destruct n as [w' rr' ll']. cbn in H3.
    f_equal. rewrite !andb_true_iff, !Z.eqb_eq in H3. by destruct H3 as [[-> ->] ->].
  - rewrite H4. by rewrite map_size_list_to_map.
Qed.

Lemma ex_holds : holds ex_state (top ex_tree) (cells 0 ex_tree ++ [(56, Node 0 0 0)]).
Proof. apply holds_b_ok. by vm_compute. Qed.

Lemma ex_rb_tree : rb_tree ex_tree.
Proof. split; [done|]. exists 2%nat. by cbn. Qed.

(** 56 goes to the right of 48. *)
Lemma rb_insert_keeps_witness : exists s' t', ex_add 56 48 (Child R 48) ex_state = Some (tt, s') /\
  rb_tree t' /\ inorder t' = [8; 16; 24; 32; 40; 48; 56].
Proof.
  set (k := [(R, Red, 48, E); (R, Black, 40, E); (R, Red, 32, T Black 24 E E);
             (R, Black, 16, T Black 8 E E)]).
  destruct (rb_insert_keeps ex_state k 56 (Node 0 0 0) []) as (s' & t' & E & H1 & H2 & _).
  - exact ex_rb_tree.
  - exact ex_holds.
  - exists s', t'. split; [exact E|]. split; [exact H1|]. exact H2.
Defined.

Lemma rb_erase_keeps_witness : exists s' t', rb_erase 16 ex_state = Some (tt, s') /\
  rb_tree t' /\ inorder t' = [8; 24; 32; 40; 48].
Proof.
  destruct (rb_erase_keeps ex_state ex_tree [8] 16 [24; 32; 40; 48] [(56, Node 0 0 0)])
    as (s' & t' & nx & E & H1 & H2 & _).
  - exact ex_rb_tree.
  - exact ex_holds.
  - reflexivity.
  - exists s', t'. split; [exact E|]. split; [exact H1|]. exact H2.
Defined.

Lemma rb_walk_in_order_witness :
  rb_first ex_state = Some (8, ex_state) /\ rb_next 16 ex_state = Some (24, ex_state) /\
  rb_prev 16 ex_state = Some (8, ex_state).
Proof.
  destruct (rb_walk_in_order ex_state ex_tree [8] 16 [24; 32; 40; 48] [(56, Node 0 0 0)])
    as (H1 & _ & H2 & H3).
  - exact ex_holds.
  - reflexivity.
  - split; [exact H1|]. split; [exact H2|exact H3].
Defined.

Lemma rb_height_logarithmic_witness : (height ex_tree <= 2 * Nat.log2 7)%nat.
Proof. apply (rb_height_logarithmic ex_tree). exact ex_rb_tree. Defined.

(** 56 in the place of 16. *)
Lemma rb_replace_keeps_witness : exists s', rb_replace_node 16 56 ex_state = Some (tt, s') /\
  root s' = 56.
Proof.
  destruct (rb_replace_keeps ex_state [] Black 16 56 (Node 0 0 0) (T Black 8 E E)
    (T Red 32 (T Black 24 E E) (T Black 40 E (T Red 48 E E))) []) as (s' & E & _ & _ & _ & H).
  - exact ex_holds.
  - exists s'. split; [exact E|]. exact H.
Defined.
