(* ===== verification/RbList.v ===== *)
(** * Sorted lists on red-black trees (lib/rblist.c)

    The list with the callbacks that compare, make and free its nodes, a class its users
    instantiate; what the callbacks must satisfy, and the refinement of the sorted list of
    the nodes and their contents. *)

From Stdlib Require Import Sorted.
From S2P Require Import Prelude RbTree RbShape RbRep RbInsert RbWalk RbMain.

(** ** Operations *)

(** [node_cmp] and the contents [node_new] gives to a node. *)
Class NodeOps (V Ent : Type) := {
  node_cmp : V -> Ent -> Z;
  node_new : Ent -> V
}.

(** The contents of the nodes are apart from their tree fields. *)
Record rblist (V : Type) := RbList {
  entries : rb_root_cached;
  nr_entries : Z;
  contents : gmap Z V
}.
Arguments RbList {V}.
Arguments entries {V}.
Arguments nr_entries {V}.
Arguments contents {V}.

Definition EEXIST : Z := 17.
Definition ENOMEM : Z := 12.

Section rblist.
Context {V Ent : Type} `{NodeOps V Ent}.

(** Where the loop over [p] ends: at a node that compares equal, or at an empty place. *)
Inductive place := Found (n : Z) | Free (l : link) (parent : Z) (leftmost : bool).

Fixpoint search (fuel : nat) (vs : gmap Z V) (entry : Ent) (l : link) (parent : Z) (leftmost : bool)
  : M place :=
  match fuel with
  | O => fun _ => None
  | S fuel =>
      n ← get_link l;
      if n =? 0 then mret (Free l parent leftmost)
      else
        match vs !! n with
        | None => fun _ => None
        | Some v =>
            let rc := node_cmp v entry in
            if 0 <? rc then search fuel vs entry (Child L n) n leftmost
            else if rc <? 0 then search fuel vs entry (Child R n) n false
            else mret (Found n)
        end
  end.

Definition search_list (entry : Ent) (s : rblist V) : option place :=
  let t := rb_root (entries s) in
  '(p, _) ← search (S (S (size (nodes t)))) (contents s) entry Root 0 true t; Some p.

(** [alloc] is the memory a new node gets and what it holds, if it gets any. *)
Definition link_new (alloc : Z * rb_node) (entry : Ent) (l : link) (parent : Z) (leftmost : bool)
  (s : rblist V) : option (rblist V) :=
  let t := rb_root (entries s) in
  '(_, t) ← rb_link_node alloc.1 parent l (Rbt (<[alloc.1 := alloc.2]> (nodes t)) (root t));
  c ← rb_insert_color_cached alloc.1 leftmost (Cached t (rb_leftmost (entries s)));
  Some (RbList c (u32 (nr_entries s + 1)) (<[alloc.1 := node_new entry]> (contents s))).

Definition rblist__add_node (alloc : option (Z * rb_node)) (entry : Ent) (s : rblist V)
  : option (Z * rblist V) :=
  p ← search_list entry s;
  match p with
  | Found _ => Some (- EEXIST, s)
  | Free l parent leftmost =>
      match alloc with
      | None => Some (- ENOMEM, s)
      | Some a => s ← link_new a entry l parent leftmost s; Some (0, s)
      end
  end.

Definition __rblist__findnew (alloc : option (Z * rb_node)) (create : bool) (entry : Ent) (s : rblist V)
  : option (Z * rblist V) :=
  p ← search_list entry s;
  match p with
  | Found n => Some (n, s)
  | Free l parent leftmost =>
      if create then
        match alloc with
        | None => Some (0, s)
        | Some a => s ← link_new a entry l parent leftmost s; Some (a.1, s)
        end
      else Some (0, s)
  end.
Definition rblist__find (entry : Ent) (s : rblist V) : option Z :=
  '(n, _) ← __rblist__findnew None false entry s; Some n.
Definition rblist__findnew (alloc : option (Z * rb_node)) (entry : Ent) (s : rblist V)
  : option (Z * rblist V) := __rblist__findnew alloc true entry s.

(** [node_delete] frees the node. *)
Definition rblist__remove_node (n : Z) (s : rblist V) : option (rblist V) :=
  c ← rb_erase_cached n (entries s);
  let t := rb_root c in
  Some (RbList (Cached (Rbt (delete n (nodes t)) (root t)) (rb_leftmost c))
          (u32 (nr_entries s - 1)) (delete n (contents s))).

(** The loop of [rblist__find_first] below [node]. *)
Fixpoint first_loop (fuel : nat) (vs : gmap Z V) (entry : Ent) (node mtch : Z) : M Z :=
  match fuel with
  | O => fun _ => None
  | S fuel =>
      if node =? 0 then mret mtch
      else
        match vs !! node with
        | None => fun _ => None
        | Some v =>
            if 0 <=? node_cmp v entry then l ← left node; first_loop fuel vs entry l node
            else r ← right node; first_loop fuel vs entry r mtch
        end
  end.

(** The first node is compared whether there is one or not. *)
Definition rblist__find_first (entry : Ent) (s : rblist V) : option Z :=
  let t := rb_root (entries s) in
  let first := rb_leftmost (entries s) in
  v ← contents s !! first;
  if 0 <=? node_cmp v entry then Some first
  else '(n, _) ← first_loop (S (S (size (nodes t)))) (contents s) entry (root t) 0 t; Some n.

Definition rblist__init : rblist V := RbList (Cached (Rbt ∅ 0) 0) 0 ∅.

Fixpoint exit_loop (fuel : nat) (next : Z) (s : rblist V) : option (rblist V) :=
  match fuel with
  | O => None
  | S fuel =>
      if next =? 0 then Some s
      else
        '(next', _) ← rb_next next (rb_root (entries s));
        s ← rblist__remove_node next s;
        exit_loop fuel next' s
  end.
Definition rblist__exit (s : rblist V) : option (rblist V) :=
  exit_loop (S (size (nodes (rb_root (entries s))))) (rb_leftmost (entries s)) s.

Fixpoint entry_loop (fuel : nat) (node idx : Z) (s : rblist V) : option Z :=
  match fuel with
  | O => None
  | S fuel =>
      if node =? 0 then Some 0
      else if idx =? 0 then Some node
      else '(node', _) ← rb_next node (rb_root (entries s)); entry_loop fuel node' (u32 (idx - 1)) s
  end.
Definition rblist__entry (idx : Z) (s : rblist V) : option Z :=
  entry_loop (S (size (nodes (rb_root (entries s))))) (rb_leftmost (entries s)) idx s.

Definition rblist__empty (s : rblist V) : bool := nr_entries s =? 0.
Definition rblist__nr_entries (s : rblist V) : Z := nr_entries s.
End rblist.

(** ** The callbacks *)

(** The contents of a node and an entry have a key, and the callback compares keys in a
    total order. *)
Class NodeLaws (V Ent K : Type) `{NodeOps V Ent} := {
  key : V -> K;
  ekey : Ent -> K;
  before_key : K -> K -> Prop;
  before_irrefl : forall a, ~ before_key a a;
  before_trans : forall a b c, before_key a b -> before_key b c -> before_key a c;
  cmp_gt : forall v e, 0 < node_cmp v e <-> before_key (ekey e) (key v);
  cmp_lt : forall v e, node_cmp v e < 0 <-> before_key (key v) (ekey e);
  cmp_eq : forall v e, node_cmp v e = 0 <-> key v = ekey e;
  key_new : forall e, key (node_new e) = ekey e
}.

Section laws.
Context {V Ent K : Type} `{NodeLaws V Ent K}.
Implicit Types (s : rblist V) (e : Ent) (xs : list (Z * V)).

(** The nodes and their contents, in ascending order of their keys. *)
Record lists s xs : Prop := {
  lists_tree : exists t, rb_tree t /\ holds (rb_root (entries s)) (top t) (cells 0 t) /\ inorder t = xs.*1;
  lists_leftmost : rb_leftmost (entries s) = first0 xs.*1;
  lists_nr : nr_entries s = u32 (Z.of_nat (length xs));
  lists_contents : contents s = list_to_map xs;
  lists_sorted : StronglySorted (fun a b => before_key (key a.2) (key b.2)) xs
}.

(** ** The search *)

Definition less (o : NodeOps V Ent) e (vs : gmap Z V) (n : Z) : Prop := exists v, vs !! n = Some v /\ node_cmp v e < 0.
Definition more (o : NodeOps V Ent) e (vs : gmap Z V) (n : Z) : Prop := exists v, vs !! n = Some v /\ 0 < node_cmp v e.
Definition in_order_of (vs : gmap Z V) (n m : Z) : Prop :=
  exists v w, vs !! n = Some v /\ vs !! m = Some w /\ before_key (key v) (key w).

(** A comparison, not only that of the list, that an entry makes along the order: what is
    less comes before what is equal, and that before what is more. *)
Definition along (o : NodeOps V Ent) e : Prop := forall v w, before_key (key v) (key w) ->
  (node_cmp w e < 0 -> node_cmp v e < 0) /\ (0 < node_cmp v e -> 0 < node_cmp w e).

Lemma along_order e : along _ e.
Proof. intros v w Hk. rewrite !cmp_lt, !cmp_gt. split; intros; by eapply before_trans. Qed.

Lemma less_trans o e vs n m : along o e -> in_order_of vs n m -> less o e vs m -> less o e vs n.
Proof. intros Ho (v & w & Hn & Hm & Hk) (w' & Hm' & Hk'). assert (w' = w) as -> by congruence. exists v. split; [done|]. by apply (Ho v w Hk). Qed.

Lemma more_trans o e vs n m : along o e -> in_order_of vs n m -> more o e vs n -> more o e vs m.
Proof. intros Ho (v & w & Hn & Hm & Hk) (w' & Hm' & Hk'). assert (w' = v) as -> by congruence. exists w. split; [done|]. by apply (Ho v w Hk). Qed.

Lemma wp_get_link t k rest (t0 : rbt) (Q : Z -> rbt -> Prop) :
  holds t0 (ctx_root (top t) k) (ctx_cells (top t) k ++ cells (above k) t ++ rest) ->
  Q (top t) t0 -> wp (get_link (link_of k)) t0 Q.
Proof.
  intros H1 HQ. destruct k as [|[[[d c] x] u] k]; cbn [link_of get_link].
  - exists (top t), t0. split; [|done]. unfold get_root. by destruct H1 as (_ & _ & _ & ->).
  - destruct d; flat; step; done.
Qed.

(** Filters that keep all or nothing. *)
Lemma list_filter_all {A} (P : A -> Prop) `{!forall x, Decision (P x)} l : Forall P l -> filter P l = l.
Proof. induction 1; [done|]. rewrite filter_cons, decide_True by done. by f_equal. Qed.

Lemma list_filter_nil {A} (P : A -> Prop) `{!forall x, Decision (P x)} l :
  Forall (fun x => ~ P x) l -> filter P l = [].
Proof. induction 1; [done|]. by rewrite filter_cons, decide_False. Qed.

Lemma search_ok (o : NodeOps V Ent) vs e rest t0 : along o e -> forall t fuel k lm Q,
  (height t < fuel)%nat ->
  holds t0 (ctx_root (top t) k) (ctx_cells (top t) k ++ cells (above k) t ++ rest) ->
  (forall n, n ∈ inorder t -> is_Some (vs !! n)) -> StronglySorted (in_order_of vs) (inorder t) ->
  Forall (less o e vs) (before k) -> Forall (more o e vs) (after k) ->
  lm = bool_decide (before k = []) ->
  (forall n v, n ∈ inorder t -> vs !! n = Some v -> node_cmp v e = 0 -> Q (Found n) t0) ->
  (forall k', plug k' E = plug k t -> Forall (less o e vs) (before k') -> Forall (more o e vs) (after k') ->
     Q (Free (link_of k') (above k') (bool_decide (before k' = []))) t0) ->
  wp (search (H := o) fuel vs e (link_of k) (above k) lm) t0 Q.
Proof.
  intros Ho. induction t as [|c x l IHl r IHr]; intros fuel k lm Q Hf Ht Hvs Hso Hb Ha -> Hfound Hfree;
    (destruct fuel as [|fuel]; [cbn in Hf; lia|]); cbn [search]; apply wp_bind; (eapply wp_get_link; [exact Ht|]).
  { cbn [top]. apply wp_ret. by apply Hfree. }
  cbn [top inorder height] in *.
  assert (x <> 0) as Hx by (flat; eapply (holds_pos _ _ _ x); [exact Ht|find_cell]).
  rewrite (proj2 (Z.eqb_neq _ _) Hx).
  destruct (Hvs x) as [v Hv]; [set_solver|]. rewrite Hv.
  apply sorted_app in Hso as (Hsl & Hsr & Hlr). inversion Hsr as [|? ? Hsr' Hxr]; subst.
  rewrite Forall_forall in Hxr.
  destruct (Z.ltb_spec 0 (node_cmp v e)) as [Hc|Hc]; [|destruct (Z.ltb_spec (node_cmp v e) 0) as [Hc'|Hc']].
  - change (Child L x) with (link_of ((L, c, x, r) :: k)).
    apply (IHl fuel ((L, c, x, r) :: k)); [lia| |intros; apply Hvs; set_solver|done|done| |done| |done].
    + eapply holds_perm, Ht. cbn [top ctx_cells cells above node_of app]. flatten. perm.
    + cbn [after]. assert (more o e vs x) as Hmx by by exists v. constructor; [done|].
      apply Forall_app. split; [|done]. apply Forall_forall. intros n Hn. eapply more_trans; [done|by apply Hxr|done].
    + intros n w Hn. apply Hfound. set_solver.
  - change (Child R x) with (link_of ((R, c, x, l) :: k)).
    assert (less o e vs x) as Hlx by by exists v.
    apply (IHr fuel ((R, c, x, l) :: k)); [lia| |intros; apply Hvs; set_solver|done| |done| | |done].
    + eapply holds_perm, Ht. cbn [top ctx_cells cells above node_of app]. flatten. perm.
    + cbn [before]. apply Forall_app. split; [done|]. apply Forall_app. split; [|by constructor].
      apply Forall_forall. intros n Hn. eapply less_trans; [done| |done]. apply Hlr; set_solver.
    + cbn [before]. symmetry. apply bool_decide_eq_false. intros Hnil.
      apply app_nil in Hnil as [_ Hnil]. by apply app_nil in Hnil as [_ Hnil].
    + intros n w Hn. apply Hfound. set_solver.
  - apply wp_ret. eapply (Hfound x v); [set_solver|done|lia].
Qed.

(** ** From the tree to the list *)

Lemma holds_add (t : rbt) r l p n : holds t r l -> addr p -> p ∉ l.*1 ->
  holds (Rbt (<[p := n]> (nodes t)) (root t)) r ((p, n) :: l).
Proof.
  intros (H1 & H2 & H3 & H4) Hp Hn. split; [by constructor|]. split; [by constructor|].
  split; [|done]. cbn. by rewrite H3.
Qed.

Lemma holds_delete (t : rbt) r l p n : holds t r ((p, n) :: l) ->
  holds (Rbt (delete p (nodes t)) (root t)) r l.
Proof.
  intros (H1 & H2 & H3 & H4). cbn in H1, H2, H3. apply NoDup_cons in H1 as [Hn H1].
  apply Forall_cons in H2 as [_ H2]. split; [done|]. split; [done|]. split; [|done]. cbn. rewrite H3.
  apply delete_insert_id. by apply not_elem_of_list_to_map.
Qed.

Lemma lists_nodup s xs : lists s xs -> NoDup xs.*1.
Proof.
  intros Hl. destruct (lists_tree _ _ Hl) as (t & _ & Ht & <-).
  rewrite <- (app_nil_r (cells 0 t)) in Ht. by eapply holds_nodup.
Qed.

Lemma lists_lookup s xs n v : lists s xs -> contents s !! n = Some v <-> (n, v) ∈ xs.
Proof.
  intros Hl. rewrite (lists_contents _ _ Hl). symmetry. apply elem_of_list_to_map. by eapply lists_nodup.
Qed.

Lemma lists_in_order s xs : lists s xs -> StronglySorted (in_order_of (contents s)) xs.*1.
Proof.
  intros Hl. pose proof (fun n v => lists_lookup s xs n v Hl) as Hlk. pose proof (lists_sorted _ _ Hl) as Hs.
  assert (forall ys, (forall y, y ∈ ys -> y ∈ xs) -> StronglySorted (fun a b => before_key (key a.2) (key b.2)) ys ->
    StronglySorted (in_order_of (contents s)) ys.*1) as Hgen; [|by apply Hgen].
  intros ys Hin Hys. induction Hys as [|[n v] ys Hys IH Hall]; cbn; constructor; [apply IH; set_solver|].
  rewrite Forall_forall in Hall. apply Forall_forall. intros m Hm.
  apply list_elem_of_fmap in Hm as ([m' w] & -> & Hm).
  exists v, w. split; [apply Hlk, Hin; by left|]. split; [apply Hlk, Hin; by right|]. apply (Hall (m', w) Hm).
Qed.

Lemma search_list_ok (o : NodeOps V Ent) e s xs : along o e -> lists s xs ->
  (exists n v, (n, v) ∈ xs /\ node_cmp v e = 0 /\ search_list (H := o) e s = Some (Found n)) \/
  (exists k, rb_tree (plug k E) /\ holds (rb_root (entries s)) (top (plug k E)) (cells 0 (plug k E)) /\
     before k ++ after k = xs.*1 /\ Forall (less o e (contents s)) (before k) /\
     Forall (more o e (contents s)) (after k) /\
     search_list (H := o) e s = Some (Free (link_of k) (above k) (bool_decide (before k = [])))).
Proof.
  intros Ho Hl. destruct (lists_tree _ _ Hl) as (t & Hrb & Ht & Hi). unfold search_list.
  set (t0 := rb_root (entries s)) in *.
  assert (wp (search (H := o) (S (S (size (nodes t0)))) (contents s) e Root 0 true) t0 (fun p (s' : rbt) => s' = t0 /\
    ((exists n v, (n, v) ∈ xs /\ node_cmp v e = 0 /\ p = Found n) \/
     (exists k, plug k E = t /\ Forall (less o e (contents s)) (before k) /\ Forall (more o e (contents s)) (after k) /\
        p = Free (link_of k) (above k) (bool_decide (before k = [])))))) as Hw.
  { apply (search_ok o (contents s) e [] t0 Ho t _ []).
    - rewrite (holds_size _ _ _ Ht). pose proof (height_cells 0 t). lia.
    - cbn. by rewrite app_nil_r.
    - intros n Hn. rewrite Hi in Hn. apply list_elem_of_fmap in Hn as ([n' v] & -> & Hn).
      exists v. by apply (lists_lookup s xs).
    - rewrite Hi. by apply lists_in_order.
    - constructor.
    - constructor.
    - done.
    - intros n v Hn Hv Hk. split; [done|]. left. exists n, v. split; [by apply (lists_lookup s xs)|done].
    - intros k Hk Hb Ha. split; [done|]. right. by exists k. }
  destruct Hw as (p & s' & E & -> & Hp). rewrite E. cbn.
  destruct Hp as [(n & v & H1 & H2 & ->)|(k & <- & H1 & H2 & ->)]; [left; by exists n, v|right].
  exists k. rewrite inorder_plug in Hi. do 5 (split; [done|]). done.
Qed.

(** Taking the list apart where the tree is. *)
Lemma split_fmap xs (a b : list Z) : xs.*1 = a ++ b ->
  exists ys zs, xs = ys ++ zs /\ ys.*1 = a /\ zs.*1 = b.
Proof.
  intros Hx. exists (take (length a) xs), (drop (length a) xs). split; [by rewrite take_drop|].
  by rewrite fmap_take, fmap_drop, Hx, take_app_length, drop_app_length.
Qed.

Lemma u32_succ n : u32 (u32 n + 1) = u32 (n + 1).
Proof. unfold u32. by rewrite Zplus_mod_idemp_l. Qed.
Lemma u32_pred n : u32 (u32 n - 1) = u32 (n - 1).
Proof. unfold u32. by rewrite Zminus_mod_idemp_l. Qed.

Lemma link_new_ok e s xs k p raw :
  lists s xs -> rb_tree (plug k E) ->
  holds (rb_root (entries s)) (top (plug k E)) (cells 0 (plug k E)) -> before k ++ after k = xs.*1 ->
  Forall (less _ e (contents s)) (before k) -> Forall (more _ e (contents s)) (after k) ->
  addr p -> p ∉ xs.*1 ->
  exists s' ys zs, link_new (p, raw) e (link_of k) (above k) (bool_decide (before k = [])) s = Some s' /\
    xs = ys ++ zs /\ (forall y, y ∈ ys -> before_key (key y.2) (ekey e)) /\
    (forall z, z ∈ zs -> before_key (ekey e) (key z.2)) /\ lists s' (ys ++ (p, node_new e) :: zs).
Proof.
  intros Hl Hrb Ht Hi Hless Hmore Hp Hnew. symmetry in Hi.
  destruct (split_fmap _ _ _ Hi) as (ys & zs & -> & Hys & Hzs). unfold link_new.
  set (t0 := rb_root (entries s)) in *.
  assert (p ∉ (cells 0 (plug k E)).*1) as Hfresh
    by (rewrite (cells_inorder 0 (plug k E)), inorder_plug; cbn [inorder app]; by rewrite <- Hi).
  pose proof (holds_add _ _ _ p raw Ht Hp Hfresh) as Ht'. rewrite Permutation_cons_append in Ht'.
  destruct (insert_ok k p raw [] _ (fun _ => rebuilt k [p] []) Hrb Ht') as ([] & t2 & E & t' & Hrb' & Hi' & H');
    [done|].
  unfold mbind, M_bind in E. cbn [fst snd]. destruct (rb_link_node _ _ _ _) as [[[] t1]|]; [|done].
  cbn [mbind option_bind rb_insert_color_cached rb_root]. unfold rb_insert_color_cached. cbn [rb_root]. rewrite E.
  cbn [mbind option_bind rb_leftmost]. eexists _, ys, zs. split; [reflexivity|]. split; [done|].
  assert (forall y, y ∈ ys -> before_key (key y.2) (ekey e)) as H1.
  { intros [n v] Hy. rewrite Forall_forall in Hless. destruct (Hless n) as (w & Hw & Hk).
    { rewrite <- Hys. apply list_elem_of_fmap. by exists (n, v). }
    assert (contents s !! n = Some v) by (apply (lists_lookup _ _ _ _ Hl); set_solver). simplify_eq. by apply cmp_lt. }
  assert (forall z, z ∈ zs -> before_key (ekey e) (key z.2)) as H2.
  { intros [n v] Hz. rewrite Forall_forall in Hmore. destruct (Hmore n) as (w & Hw & Hk).
    { rewrite <- Hzs. apply list_elem_of_fmap. by exists (n, v). }
    assert (contents s !! n = Some v) by (apply (lists_lookup _ _ _ _ Hl); set_solver). simplify_eq. by apply cmp_gt. }
  split; [done|]. split; [done|]. split; cbn.
  - exists t'. rewrite app_nil_r in H'. split; [done|]. split; [done|].
    by rewrite Hi', fmap_app, fmap_cons, Hys, Hzs.
  - rewrite fmap_app, fmap_cons, Hys, Hzs. case_bool_decide as Hb; [by rewrite Hb|].
    rewrite (lists_leftmost _ _ Hl), Hi, !first0_app by done. done.
  - rewrite (lists_nr _ _ Hl), u32_succ, !length_app. cbn. f_equal. lia.
  - rewrite (lists_contents _ _ Hl). rewrite <- list_to_map_cons. apply list_to_map_proper.
    + cbn. rewrite fmap_app. apply NoDup_cons. split; [by rewrite <- fmap_app|]. rewrite <- fmap_app. by eapply lists_nodup.
    + by rewrite Permutation_middle.
  - pose proof (lists_sorted _ _ Hl) as Hs. apply sorted_app in Hs as (S1 & S2 & S3).
    apply sorted_app. split; [done|]. split.
    + constructor; [done|]. apply Forall_forall. intros z Hz. cbn. rewrite key_new. by apply H2.
    + intros a b Ha Hb. apply elem_of_cons in Hb as [->|Hb]; [|by apply S3]. cbn. rewrite key_new. by apply H1.
Qed.

Lemma remove_node_ok s ys p v zs : lists s (ys ++ (p, v) :: zs) ->
  exists s', rblist__remove_node p s = Some s' /\ lists s' (ys ++ zs).
Proof.
  intros Hl. destruct (lists_tree _ _ Hl) as (t & Hrb & Ht & Hi). rewrite fmap_app, fmap_cons in Hi. cbn in Hi.
  rewrite <- (app_nil_r (cells 0 t)) in Ht. unfold rblist__remove_node, rb_erase_cached.
  destruct (step_at _ _ _ _ _ _ Ht Hi) as [Hnext _].
  destruct (erase_at _ _ _ _ _ _ Hrb Ht Hi) as (t1 & t' & nx & E & Hrb' & Hi' & H').
  assert (forall l, exists s', (c ← '(_, t2) ← rb_erase p (rb_root (entries s)); Some (Cached t2 l);
    Some (RbList (Cached (Rbt (delete p (nodes (rb_root c))) (root (rb_root c))) (rb_leftmost c))
          (u32 (nr_entries s - 1)) (delete p (contents s)))) = Some s' /\
    (l = first0 (ys ++ zs).*1 -> lists s' (ys ++ zs))) as Hgen.
  { intros l. rewrite E. cbn. eexists. split; [reflexivity|]. intros ->.
    pose proof (lists_nodup _ _ Hl) as Hd. split; cbn; [|done| | |].
    - exists t'. split; [done|]. split; [|by rewrite fmap_app].
      rewrite <- Permutation_middle, app_nil_r in H'. by eapply holds_delete.
    - rewrite (lists_nr _ _ Hl), u32_pred, !length_app. cbn. f_equal. lia.
    - rewrite (lists_contents _ _ Hl). rewrite fmap_app, fmap_cons in Hd. cbn in Hd.
      erewrite (list_to_map_proper (ys ++ (p, v) :: zs)); [| |by rewrite <- Permutation_middle].
      + cbn. apply delete_insert_id, not_elem_of_list_to_map. rewrite fmap_app.
        rewrite <- Permutation_middle in Hd. by apply NoDup_cons in Hd as [? _].
      + by rewrite fmap_app, fmap_cons.
    - pose proof (lists_sorted _ _ Hl) as Hs. apply sorted_app in Hs as (S1 & S2 & S3).
      inversion S2; subst. apply sorted_app. split; [done|]. split; [done|]. intros a b Ha Hb. apply S3; [done|by right]. }
  rewrite (lists_leftmost _ _ Hl), fmap_app, fmap_cons. cbn [fst].
  pose proof (lists_nodup _ _ Hl) as Hd. rewrite fmap_app, fmap_cons in Hd. cbn [fst] in Hd.
  destruct (Z.eqb_spec (first0 (ys.*1 ++ p :: zs.*1)) p) as [Hp|Hp].
  - rewrite Hnext. cbn [mbind option_bind]. destruct (Hgen (first0 zs.*1)) as (s' & E' & Hs'). exists s'.
    split; [exact E'|]. apply Hs'. destruct ys as [|[q w] ys]; [done|]. cbn in Hp, Hd. unfold first0 in Hp. cbn in Hp. subst q.
    apply NoDup_cons in Hd. set_solver.
  - cbn [mbind option_bind]. destruct (Hgen (first0 (ys.*1 ++ p :: zs.*1))) as (s' & E' & Hs'). exists s'.
    split; [exact E'|]. apply Hs'. rewrite fmap_app. destruct ys as [|[q w] ys]; [done|done].
Qed.

Lemma lists_size s xs : lists s xs -> size (nodes (rb_root (entries s))) = length xs.
Proof.
  intros Hl. destruct (lists_tree _ _ Hl) as (t & _ & Ht & Hi). rewrite (holds_size _ _ _ Ht).
  rewrite <- (length_fmap fst xs), <- Hi. rewrite <- (length_fmap fst). by rewrite (cells_inorder 0 t).
Qed.

Lemma lists_next s ys p v zs : lists s (ys ++ (p, v) :: zs) ->
  rb_next p (rb_root (entries s)) = Some (first0 zs.*1, rb_root (entries s)).
Proof.
  intros Hl. destruct (lists_tree _ _ Hl) as (t & Hrb & Ht & Hi). rewrite fmap_app, fmap_cons in Hi.
  rewrite <- (app_nil_r (cells 0 t)) in Ht. by destruct (step_at _ _ _ _ _ _ Ht Hi).
Qed.

Lemma lists_addr s xs p v : lists s xs -> (p, v) ∈ xs -> addr p.
Proof.
  intros Hl Hp. destruct (lists_tree _ _ Hl) as (t & _ & (_ & Ha & _) & Hi). rewrite Forall_forall in Ha.
  apply Ha. rewrite (cells_inorder 0 t), Hi. apply list_elem_of_fmap. by exists (p, v).
Qed.

Lemma lists_pos s xs p v : lists s xs -> (p, v) ∈ xs -> p <> 0.
Proof. intros Hl Hp. destruct (lists_addr _ _ _ _ Hl Hp). lia. Qed.

(** The tree has a node for each element. *)
Lemma lists_node s xs p v : lists s xs -> (p, v) ∈ xs -> is_Some (nodes (rb_root (entries s)) !! p).
Proof.
  intros Hl Hp. destruct (lists_tree _ _ Hl) as (t & _ & (_ & _ & -> & _) & Hi).
  assert (p ∈ (cells 0 t).*1) as Hc by (rewrite (cells_inorder 0 t), Hi; apply list_elem_of_fmap; by exists (p, v)).
  destruct (list_to_map (cells 0 t) !! p) eqn:E; [by eexists|]. by apply not_elem_of_list_to_map in E.
Qed.

Lemma exit_loop_ok xs : forall s fuel, lists s xs -> (length xs < fuel)%nat ->
  exists s', exit_loop fuel (first0 xs.*1) s = Some s' /\ lists s' [].
Proof.
  induction xs as [|[p v] xs IH]; intros s [|fuel] Hl Hf; cbn in Hf; try lia; [by exists s|].
  change (first0 ((p, v) :: xs).*1) with p. cbn [exit_loop]. rewrite (proj2 (Z.eqb_neq _ _) (lists_pos _ _ p v Hl ltac:(by left))).
  rewrite (lists_next s [] p v xs Hl). cbn [mbind option_bind].
  destruct (remove_node_ok s [] p v xs Hl) as (s' & E & Hs'). rewrite E. cbn [mbind option_bind]. apply IH; [done|lia].
Qed.

Lemma entry_loop_ok ys : forall xs s fuel idx, lists s (xs ++ ys) -> (length ys < fuel)%nat -> 0 <= idx < 2 ^ 32 ->
  entry_loop fuel (first0 ys.*1) idx s = Some (default 0 (ys.*1 !! Z.to_nat idx)).
Proof.
  induction ys as [|[p v] ys IH]; intros xs s [|fuel] idx Hl Hf Hi; cbn in Hf; try lia; cbn [entry_loop]; [done|].
  change (first0 ((p, v) :: ys).*1) with p.
  rewrite (proj2 (Z.eqb_neq _ _) (lists_pos _ _ p v Hl ltac:(set_solver))).
  destruct (Z.eqb_spec idx 0) as [->|Hidx]; [done|].
  rewrite (lists_next s xs p v ys Hl). cbn [mbind option_bind].
  assert (u32 (idx - 1) = idx - 1) as -> by (unfold u32; apply Z.mod_small; lia).
  rewrite (IH (xs ++ [(p, v)])); [|by rewrite <- app_assoc|lia|lia].
  replace (Z.to_nat idx) with (S (Z.to_nat (idx - 1))) by lia. done.
Qed.

Definition reaches e (vs : gmap Z V) (n : Z) : bool :=
  match vs !! n with Some v => 0 <=? node_cmp v e | None => false end.

Lemma first_loop_ok vs e (t0 : rbt) r cs : holds t0 r cs -> forall t fuel q l' m Q,
  (height t < fuel)%nat -> cs ≡ₚ cells q t ++ l' -> (forall n, n ∈ inorder t -> is_Some (vs !! n)) ->
  StronglySorted (in_order_of vs) (inorder t) ->
  Q (default m (head (filter (reaches e vs) (inorder t)))) t0 -> wp (first_loop fuel vs e (top t) m) t0 Q.
Proof.
  intros Hh. induction t as [|c x l IHl r' IHr]; intros fuel q l' m Q Hf Hp Hvs Hso HQ;
    (destruct fuel as [|fuel]; [cbn in Hf; lia|]); cbn [first_loop top]; [by apply wp_ret|].
  cbn [cells app] in Hp. flatten. rewrite <- app_assoc in Hp. cbn [inorder height] in *.
  rewrite (proj2 (Z.eqb_neq _ _) (holds_pos _ _ _ _ _ _ Hh Hp)).
  destruct (Hvs x) as [v Hv]; [set_solver|]. rewrite Hv.
  apply sorted_app in Hso as (Hsl & Hsr & Hlr). inversion Hsr as [|? ? Hsr' Hxr]; subst.
  rewrite filter_app, filter_cons in HQ.
  assert (reaches e vs x = (0 <=? node_cmp v e)) as Hx by (unfold reaches; by rewrite Hv). rewrite Hx in HQ.
  destruct (Z.leb_spec 0 (node_cmp v e)) as [Hc|Hc].
  - eapply wp_bind, wp_left; [exact Hh|exact Hp|]. cbn [rb_left]. eapply (IHl fuel x); [lia| | |done|].
    + rewrite Hp. cbn [app]. flatten. find_chunk.
    + intros n Hn. apply Hvs. set_solver.
    + rewrite decide_True in HQ by done. destruct (filter _ (inorder l)); exact HQ.
  - eapply wp_bind, wp_right; [exact Hh|exact Hp|]. cbn [rb_right]. eapply (IHr fuel x); [lia| | |done|].
    + rewrite Hp. cbn [app]. flatten. find_chunk.
    + intros n Hn. apply Hvs. set_solver.
    + rewrite decide_False in HQ by (by intros []). rewrite (list_filter_nil _ (inorder l)) in HQ; [exact HQ|].
      apply Forall_forall. intros n Hn Hr. unfold reaches in Hr.
      destruct (Hlr n x Hn) as (u & w & Hu & Hw & Huw); [by left|]. rewrite Hu in Hr. simplify_eq.
      assert (node_cmp u e < 0); [|apply Is_true_true in Hr; lia].
      apply cmp_lt. eapply before_trans; [exact Huw|]. by apply cmp_lt.
Qed.

Lemma find_first_ok e s ys zs : lists s (ys ++ zs) -> ys ++ zs <> [] ->
  (forall y, y ∈ ys -> node_cmp y.2 e < 0) -> (forall z, z ∈ zs -> 0 <= node_cmp z.2 e) ->
  rblist__find_first e s = Some (first0 zs.*1).
Proof.
  intros Hl Hne Hy Hz. pose proof (fun n v => lists_lookup _ _ n v Hl) as Hlk.
  assert (filter (reaches e (contents s)) (ys ++ zs).*1 = zs.*1) as Hf.
  { rewrite fmap_app, filter_app, list_filter_nil.
    - cbn. apply list_filter_all. apply Forall_forall. intros n Hn.
      apply list_elem_of_fmap in Hn as ([m w] & -> & Hm). unfold reaches. cbn [fst].
      rewrite (proj2 (Hlk m w)) by set_solver. apply Is_true_true, Z.leb_le. by apply (Hz (m, w)).
    - apply Forall_forall. intros n Hn Hr. apply list_elem_of_fmap in Hn as ([m w] & -> & Hm).
      unfold reaches in Hr. cbn [fst] in Hr. rewrite (proj2 (Hlk m w)) in Hr by set_solver.
      specialize (Hy _ Hm). apply Is_true_true in Hr. cbn in *. lia. }
  destruct (lists_tree _ _ Hl) as (t & Hrb & Ht & Hi). unfold rblist__find_first.
  rewrite (lists_leftmost _ _ Hl).
  assert (exists n v, first0 (ys ++ zs).*1 = n /\ (n, v) ∈ ys ++ zs /\ (ys = [] -> first0 zs.*1 = n) /\
    (ys <> [] -> (n, v) ∈ ys)) as (n & v & -> & Hn & Hn0 & Hn1).
  { destruct ys as [|[n v] ys]; [|exists n, v; split; [done|]; split; [by left|]; split; [done|by left]].
    destruct zs as [|[n v] zs]; [done|]. exists n, v. split; [done|]. split; [by left|]. by split. }
  rewrite (proj2 (Hlk n v) Hn). cbn [mbind option_bind].
  destruct (Z.leb_spec 0 (node_cmp v e)) as [Hc|Hc].
  { destruct ys as [|y ys]; [by rewrite Hn0|]. specialize (Hy _ (Hn1 ltac:(done))). cbn in Hy. lia. }
  set (t0 := rb_root (entries s)) in *.
  assert (wp (first_loop (S (S (size (nodes t0)))) (contents s) e (top t) 0) t0
    (fun m (s' : rbt) => m = first0 zs.*1 /\ s' = t0)) as Hw.
  { eapply (first_loop_ok _ _ _ _ _ Ht t _ 0 []).
    - rewrite (holds_size _ _ _ Ht). pose proof (height_cells 0 t). lia.
    - by rewrite app_nil_r.
    - intros m Hm. rewrite Hi in Hm. apply list_elem_of_fmap in Hm as ([m' w] & -> & Hm). exists w. by apply Hlk.
    - rewrite Hi. by apply lists_in_order.
    - rewrite Hi, Hf. done. }
  destruct Ht as (_ & _ & _ & ->). apply wp_reads in Hw. by rewrite Hw.
Qed.

Lemma find_ok e s xs : lists s xs -> forall alloc create,
  (exists n v, (n, v) ∈ xs /\ key v = ekey e /\ __rblist__findnew alloc create e s = Some (n, s) /\
     rblist__add_node alloc e s = Some (- EEXIST, s)) \/
  ((forall n v, (n, v) ∈ xs -> key v <> ekey e) /\
   ((alloc = None /\ rblist__add_node alloc e s = Some (- ENOMEM, s)) \/ exists p, alloc = Some p) /\
   (create = false \/ alloc = None -> __rblist__findnew alloc create e s = Some (0, s)) /\
   forall p raw, alloc = Some (p, raw) -> addr p -> p ∉ xs.*1 ->
     exists s' ys zs, rblist__add_node alloc e s = Some (0, s') /\
       (create = true -> __rblist__findnew alloc create e s = Some (p, s')) /\
       xs = ys ++ zs /\ (forall y, y ∈ ys -> before_key (key y.2) (ekey e)) /\
       (forall z, z ∈ zs -> before_key (ekey e) (key z.2)) /\ lists s' (ys ++ (p, node_new e) :: zs)).
Proof.
  intros Hl alloc create. unfold __rblist__findnew, rblist__add_node.
  destruct (search_list_ok _ e s xs (along_order e) Hl) as [(n & v & Hn & Hk%cmp_eq & ->)|(k & Hrb & Ht & Hi & Hb & Ha & ->)].
  { left. exists n, v. by split. }
  right. cbn [mbind option_bind]. split; [|split; [|split]].
  - intros n v Hn Hk. assert (n ∈ before k \/ n ∈ after k) as Hin.
    { apply elem_of_app. rewrite Hi. apply list_elem_of_fmap. by exists (n, v). }
    rewrite Forall_forall in Hb. rewrite Forall_forall in Ha. apply (lists_lookup _ _ _ _ Hl) in Hn. apply cmp_eq in Hk.
    destruct Hin as [Hin|Hin]; [destruct (Hb n Hin) as (w & Hw & Hlt)|destruct (Ha n Hin) as (w & Hw & Hlt)]; simplify_eq; lia.
  - destruct alloc as [p|]; [right; by exists p|by left].
  - intros [->| ->]; [done|by destruct create].
  - intros p raw -> Hp Hfresh.
    destruct (link_new_ok e s xs k p raw Hl Hrb Ht Hi Hb Ha Hp Hfresh) as (s' & ys & zs & E & H1).
    exists s', ys, zs. rewrite E. cbn [mbind option_bind]. split; [done|]. split; [by intros ->|done].
Qed.

(** A lookup with another comparison finds some node that it makes equal, if there is one. *)
Lemma find_along (o : NodeOps V Ent) e s xs : along o e -> lists s xs ->
  (exists n v, (n, v) ∈ xs /\ node_cmp v e = 0 /\ rblist__find (H := o) e s = Some n) \/
  ((forall n v, (n, v) ∈ xs -> node_cmp v e <> 0) /\ rblist__find (H := o) e s = Some 0).
Proof.
  intros Ho Hl. unfold rblist__find, __rblist__findnew.
  destruct (search_list_ok o e s xs Ho Hl) as [(n & v & Hn & Hk & ->)|(k & _ & _ & Hi & Hb & Ha & ->)]; [left; by exists n, v|right].
  split; [|done]. intros n v Hn Hk. assert (n ∈ before k \/ n ∈ after k) as Hin.
  { apply elem_of_app. rewrite Hi. apply list_elem_of_fmap. by exists (n, v). }
  rewrite Forall_forall in Hb. rewrite Forall_forall in Ha. apply (lists_lookup _ _ _ _ Hl) in Hn.
  destruct Hin as [Hin|Hin]; [destruct (Hb n Hin) as (w & Hw & Hlt)|destruct (Ha n Hin) as (w & Hw & Hlt)]; simplify_eq; lia.
Qed.

(** The one node that compares equal is the first that does not compare less. *)
Lemma first_equal e s ys zs n v : lists s (ys ++ zs) -> (forall y, y ∈ ys -> node_cmp y.2 e < 0) ->
  (forall z, z ∈ zs -> 0 <= node_cmp z.2 e) -> (n, v) ∈ ys ++ zs -> node_cmp v e = 0 ->
  exists zs', zs = (n, v) :: zs'.
Proof.
  intros Hl Hy Hz Hn Hc. apply elem_of_app in Hn as [Hn|Hn]; [specialize (Hy _ Hn); cbn in Hy; lia|].
  apply list_elem_of_split in Hn as (z1 & z2 & ->). pose proof (lists_sorted _ _ Hl) as Hs.
  rewrite app_assoc in Hs. apply sorted_app in Hs as (_ & _ & Hs). destruct z1 as [|z z1]; [by exists z2|].
  assert (before_key (key z.2) (key v)) as Hk by (apply (Hs z (n, v)); set_solver).
  specialize (Hz z ltac:(set_solver)). apply cmp_eq in Hc. rewrite Hc in Hk. apply cmp_lt in Hk. lia.
Qed.

(** ** Properties *)

(** C32: [rblist__findnew] refines a lookup in a sorted list that adds what it does not find:
    it gives the node with the key of the entry and changes nothing, or puts a new node
    with that key, all keys before it smaller and all keys after it greater. *)
Theorem rblist_findnew_refines e s xs p raw :
  lists s xs -> addr p -> p ∉ xs.*1 ->
  exists n s', rblist__findnew (Some (p, raw)) e s = Some (n, s') /\
    ((s' = s /\ exists v, (n, v) ∈ xs /\ key v = ekey e) \/
     (n = p /\ exists ys zs, xs = ys ++ zs /\ lists s' (ys ++ (p, node_new e) :: zs) /\
        (forall y, y ∈ ys -> before_key (key y.2) (ekey e)) /\
        (forall z, z ∈ zs -> before_key (ekey e) (key z.2)))).
Proof.
  intros Hl Hp Hnew. unfold rblist__findnew.
  destruct (find_ok e s xs Hl (Some (p, raw)) true) as [(n & v & Hn & Hk & E & _)|(_ & _ & _ & Hadd)].
  - exists n, s. split; [done|]. left. split; [done|]. by exists v.
  - destruct (Hadd p raw eq_refl Hp Hnew) as (s' & ys & zs & _ & E & Hx & H1 & H2 & Hs').
    exists p, s'. split; [by apply E|]. right. split; [done|]. by exists ys, zs.
Qed.

(** [rblist__add_node] reports why it adds nothing: -EEXIST when a node has the key of
    the entry, whether there is memory or not, else -ENOMEM without memory, and the list
    is then as it was; with memory it gives 0 and the list has one more node. *)
Theorem rblist_add_errors e s xs alloc :
  lists s xs -> (forall p raw, alloc = Some (p, raw) -> addr p /\ p ∉ xs.*1) ->
  ((exists n v, (n, v) ∈ xs /\ key v = ekey e) -> rblist__add_node alloc e s = Some (- EEXIST, s)) /\
  (~ (exists n v, (n, v) ∈ xs /\ key v = ekey e) ->
   match alloc with
   | None => rblist__add_node alloc e s = Some (- ENOMEM, s)
   | Some (p, _) => exists s' ys zs, rblist__add_node alloc e s = Some (0, s') /\
       xs = ys ++ zs /\ lists s' (ys ++ (p, node_new e) :: zs)
   end).
Proof.
  intros Hl Ha.
  destruct (find_ok e s xs Hl alloc true) as [(n & v & Hn & Hk & _ & E)|(Hne & Hnone & _ & Hadd)].
  - split; [done|]. intros []. by exists n, v.
  - split; [intros (n & v & Hn & Hk); by destruct (Hne n v Hn)|]. intros _. destruct alloc as [[p raw]|].
    + destruct (Ha p raw eq_refl) as [Hp Hnew].
      destruct (Hadd p raw eq_refl Hp Hnew) as (s' & ys & zs & E & _ & Hx & _ & _ & Hs'). by exists s', ys, zs.
    + by destruct Hnone as [[_ E]|[? ?]].
Qed.

(** What the lookups give, on a list that has nodes, split where the keys reach that of
    the entry: [rblist__find_first] the first node whose key is not less, or none, and
    [rblist__find] that node when its key is equal, or none; [rblist__entry] gives the
    node at a position, or none past the end. *)
Theorem rblist_lookups e s ys zs idx :
  lists s (ys ++ zs) -> ys ++ zs <> [] -> 0 <= idx < 2 ^ 32 ->
  (forall y, y ∈ ys -> node_cmp y.2 e < 0) -> (forall z, z ∈ zs -> 0 <= node_cmp z.2 e) ->
  rblist__find_first e s = Some (first0 zs.*1) /\
  rblist__find e s = Some (match zs with (n, v) :: _ => if node_cmp v e =? 0 then n else 0 | [] => 0 end) /\
  rblist__entry idx s = Some (default 0 ((ys ++ zs).*1 !! Z.to_nat idx)).
Proof.
  intros Hl Hne Hi Hy Hz. split; [by apply (find_first_ok e s ys)|]. split.
  - unfold rblist__find. destruct (find_ok e s _ Hl None false) as [(n & v & Hn & Hk & -> & _)|(Hno & _ & -> & _)].
    + apply cmp_eq in Hk. cbn [mbind option_bind]. f_equal. destruct (first_equal e s ys zs n v Hl Hy Hz Hn Hk) as [zs' ->].
      by rewrite Hk.
    + cbn [mbind option_bind]. f_equal. destruct zs as [|[n v] zs]; [done|].
      destruct (Z.eqb_spec (node_cmp v e) 0) as [Hc|]; [|done]. apply cmp_eq in Hc. exfalso. apply (Hno n v); [set_solver|done].
    + by left.
  - unfold rblist__entry. rewrite (lists_leftmost _ _ Hl), (lists_size _ _ Hl).
    apply (entry_loop_ok _ []); [done|lia|done].
Qed.

(** Removing a node leaves the others in their order, and their number one less. *)
Theorem rblist_remove_keeps s ys p v zs :
  lists s (ys ++ (p, v) :: zs) ->
  exists s', rblist__remove_node p s = Some s' /\ lists s' (ys ++ zs) /\
    rblist__nr_entries s' = u32 (rblist__nr_entries s - 1).
Proof.
  intros Hl. destruct (remove_node_ok s ys p v zs Hl) as (s' & E & Hs'). exists s'. split; [done|].
  split; [done|]. unfold rblist__nr_entries. rewrite (lists_nr _ _ Hl), (lists_nr _ _ Hs'), u32_pred, !length_app.
  cbn. f_equal. lia.
Qed.

(** [rblist__exit] gets to the empty list from any list: every node it takes has its
    successor read before it is removed and freed, and none is left. *)
Theorem rblist_exit_empties s xs :
  lists s xs -> exists s', rblist__exit s = Some s' /\ lists s' [] /\ contents s' = ∅ /\ nodes (rb_root (entries s')) = ∅.
Proof.
  intros Hl. destruct (exit_loop_ok xs s (S (length xs)) Hl) as (s' & E & Hs'); [lia|]. exists s'.
  unfold rblist__exit. rewrite (lists_leftmost _ _ Hl), (lists_size _ _ Hl). split; [done|]. split; [done|].
  split; [exact (lists_contents _ _ Hs')|]. pose proof (lists_size _ _ Hs') as Hz. by apply map_size_empty_iff in Hz.
Qed.
End laws.

(** ** An example

    Numbers as contents and entries. *)

Local Instance number_ops : NodeOps Z Z := {| node_cmp v e := v - e; node_new e := e |}.
Local Instance number_laws : NodeLaws Z Z Z.
Proof.
  refine {| key v := v; ekey e := e; before_key := Z.lt |}; cbn; intros; lia.
Defined.

Definition two_numbers : rblist Z :=
  Eval vm_compute in
    default rblist__init (
      '(_, s) ← rblist__findnew (Some (8, Node 0 0 0)) 50 rblist__init;
      '(_, s) ← rblist__findnew (Some (16, Node 0 0 0)) 20 s; Some s).

Lemma two_numbers_lists : lists two_numbers [(16, 20); (8, 50)].
Proof.
  split; [|done|done|by apply map_eq; intros i; vm_compute|].
  - exists (T Black 8 (T Red 16 E E) E). split; [split; [done|]; exists 1%nat; by cbn|].
    split; [|done]. apply holds_b_ok. by vm_compute.
  - repeat constructor.
Qed.

Lemma rblist_findnew_refines_witness : exists n s',
  rblist__findnew (Some (24, Node 1 2 3)) 30 two_numbers = Some (n, s') /\ n = 24 /\ nr_entries s' = 3.
Proof.
  destruct (rblist_findnew_refines 30 two_numbers [(16, 20); (8, 50)] 24 (Node 1 2 3)) as (n & s' & E & _).
  - exact two_numbers_lists.
  - by split.
  - set_solver.
  - exists n, s'. split; [exact E|]. vm_compute in E. by injection E as <- <-.
Defined.

Lemma rblist_add_errors_witness :
  rblist__add_node None 50 two_numbers = Some (- EEXIST, two_numbers) /\
  rblist__add_node None 30 two_numbers = Some (- ENOMEM, two_numbers).
Proof.
  destruct (rblist_add_errors 50 two_numbers _ None two_numbers_lists) as [H1 _]; [done|].
  destruct (rblist_add_errors 30 two_numbers _ None two_numbers_lists) as [_ H2]; [done|].
  split; [apply H1; exists 8, 50; split; [set_solver|done]|apply H2].
  intros (n & v & Hn & Hk). cbn in Hk. subst v. set_solver.
Defined.

Lemma rblist_lookups_witness : rblist__find_first 30 two_numbers = Some 8 /\
  rblist__find 30 two_numbers = Some 0 /\ rblist__entry 1 two_numbers = Some 8.
Proof.
  destruct (rblist_lookups 30 two_numbers [(16, 20)] [(8, 50)] 1) as (H1 & H2 & H3).
  - exact two_numbers_lists.
  - done.
  - lia.
  - by intros y ->%list_elem_of_singleton.
  - by intros z ->%list_elem_of_singleton.
  - split; [exact H1|]. split; [exact H2|exact H3].
Defined.

Lemma rblist_remove_keeps_witness : exists s', rblist__remove_node 8 two_numbers = Some s' /\
  lists s' [(16, 20)].
Proof.
  destruct (rblist_remove_keeps two_numbers [(16, 20)] 8 50 [] two_numbers_lists) as (s' & E & H & _).
  by exists s'.
Defined.

Lemma rblist_exit_empties_witness : exists s', rblist__exit two_numbers = Some s' /\ contents s' = ∅.
Proof.
  destruct (rblist_exit_empties two_numbers _ two_numbers_lists) as (s' & E & _ & H & _). by exists s'.
Defined.
