(* ===== verification/RbMap.v ===== *)
(** * A sorted list as a finite map (lib/rblist.c)

    Its users look a node up by its key, make it when it is missing, and change what it
    holds: on the map from keys to contents that is one insertion. *)

From Stdlib Require Import Sorted.
From S2P Require Import Prelude RbTree RbShape RbRep RbWalk RbMain RbList.

Section keyed.
Context {V Ent K : Type} `{NodeLaws V Ent K} `{Countable K}.
Implicit Types (s : rblist V) (e : Ent) (xs ys zs : list (Z * V)).

(** What the nodes hold, by key. *)
Definition by_key xs : list (K * V) := (fun x => (key x.2, x.2)) <$> xs.
Definition as_map xs : gmap K V := list_to_map (by_key xs).

Lemma init_lists : lists (rblist__init : rblist V) [].
Proof.
  split; cbn; [|done|done|done|constructor].
  exists E. split; [split; [done|by exists 0%nat]|]. split; [|done]. by repeat split; try constructor.
Qed.

(** What a list has is determined. *)
Lemma lists_unique s xs ys : lists s xs -> lists s ys -> xs = ys.
Proof.
  intros Hx Hy. pose proof (lists_sorted _ _ Hx) as Sx. pose proof (lists_sorted _ _ Hy) as Sy.
  assert (forall x, x ∈ xs <-> x ∈ ys) as Hin.
  { intros [n v]. by rewrite <- (lists_lookup _ _ _ _ Hx), <- (lists_lookup _ _ _ _ Hy). }
  clear Hx Hy. revert ys Sy Hin. induction Sx as [|x xs Sx IH Hx]; intros ys Sy Hin.
  { destruct ys as [|y ys]; [done|]. exfalso. by apply (not_elem_of_nil y), Hin; left. }
  destruct Sy as [|y ys Sy Hy]; [exfalso; by apply (not_elem_of_nil x), Hin; left|].
  rewrite Forall_forall in Hx, Hy. assert (x = y) as <-.
  { assert (x ∈ y :: ys) as [->|Hxy]%elem_of_cons by (apply Hin; by left); [done|].
    assert (y ∈ x :: xs) as [->|Hyx]%elem_of_cons by (apply Hin; by left); [done|].
    exfalso. apply (before_irrefl (key x.2)). eapply before_trans; [by apply Hx|by apply Hy]. }
  f_equal. apply IH; [done|]. intros z. split; intros Hz.
  - assert (z ∈ x :: ys) as [->|?]%elem_of_cons by (apply Hin; by right); [|done]. by destruct (before_irrefl (key x.2) (Hx x Hz)).
  - assert (z ∈ x :: xs) as [->|?]%elem_of_cons by (apply Hin; by right); [|done]. by destruct (before_irrefl (key x.2) (Hy x Hz)).
Qed.

(** An empty list is as new. *)
Lemma lists_nil s : lists s [] -> s = rblist__init.
Proof.
  intros [(t & _ & Ht & Hi) L2 L3 L4 _]. destruct s as [[[m r] lm] k c]. cbn in *. subst. destruct t as [|c x l r']; [|exfalso; cbn in Hi; by apply app_nil in Hi as [_ Hi]].
  destruct Ht as (_ & _ & Hm & Hr). cbn in Hm, Hr. by subst.
Qed.

(** A node's contents replaced: the writes of a user to the fields of a node. *)
Definition set_contents (n : Z) (v : V) (s : rblist V) : rblist V :=
  RbList (entries s) (nr_entries s) (<[n := v]> (contents s)).

Lemma lists_keys_nodup s xs : lists s xs -> NoDup (by_key xs).*1.
Proof.
  intros Hl. pose proof (lists_sorted _ _ Hl) as Hs. clear Hl. induction Hs as [|x xs Hs IH Hall]; cbn; constructor; [|done].
  intros Hin. apply list_elem_of_fmap in Hin as (kv & Hk & Hin). apply list_elem_of_fmap in Hin as (y & -> & Hin).
  rewrite Forall_forall in Hall. specialize (Hall y Hin). cbn in Hk. rewrite Hk in Hall. by apply before_irrefl in Hall.
Qed.

Lemma as_map_lookup s xs k v : lists s xs -> as_map xs !! k = Some v <-> exists n, (n, v) ∈ xs /\ key v = k.
Proof.
  intros Hl. unfold as_map. rewrite <- elem_of_list_to_map by by eapply lists_keys_nodup.
  unfold by_key. rewrite list_elem_of_fmap. split.
  - intros ([n w] & Hkv & Hin). injection Hkv as -> ->. by exists n.
  - intros (n & Hin & <-). by exists (n, v).
Qed.

Lemma as_map_none s xs k : lists s xs -> (forall n v, (n, v) ∈ xs -> key v <> k) -> as_map xs !! k = None.
Proof.
  intros Hl Hno. destruct (as_map xs !! k) as [v|] eqn:E; [|done].
  apply (as_map_lookup s) in E as (n & Hin & Hk); [|done]. by destruct (Hno n v Hin).
Qed.

(** Splitting a node off splits its key off. *)
Lemma as_map_split s ys n v zs : lists s (ys ++ (n, v) :: zs) ->
  as_map (ys ++ (n, v) :: zs) = <[key v := v]> (as_map (ys ++ zs)).
Proof.
  intros Hl. apply lists_keys_nodup in Hl. unfold as_map. rewrite <- list_to_map_cons.
  apply list_to_map_proper; [done|]. unfold by_key. rewrite !fmap_app, fmap_cons. by rewrite Permutation_middle.
Qed.

Lemma set_ok s ys n v v' zs : lists s (ys ++ (n, v) :: zs) -> key v' = key v ->
  lists (set_contents n v' s) (ys ++ (n, v') :: zs).
Proof.
  intros Hl Hk. assert ((ys ++ (n, v') :: zs).*1 = (ys ++ (n, v) :: zs).*1) as Hn by by rewrite !fmap_app.
  pose proof (lists_nodup _ _ Hl) as Hd. destruct Hl as [L1 L2 L3 L4 L5].
  split; cbn; [by rewrite Hn|by rewrite Hn|by rewrite L3, !length_app| |].
  - rewrite L4. rewrite fmap_app, fmap_cons in Hd.
    rewrite (list_to_map_proper (ys ++ (n, v) :: zs) ((n, v) :: ys ++ zs)); [|by rewrite fmap_app|by rewrite Permutation_middle].
    rewrite (list_to_map_proper (ys ++ (n, v') :: zs) ((n, v') :: ys ++ zs)); [|by rewrite fmap_app|by rewrite Permutation_middle].
    cbn. by rewrite insert_insert_eq.
  - apply sorted_app in L5 as (S1 & S2 & S3). inversion S2; subst. apply sorted_app. split; [done|]. split.
    + constructor; [done|]. cbn. by rewrite Hk.
    + intros a b Ha Hb. apply elem_of_cons in Hb as [->|Hb]; [|apply S3; [done|by right]].
      cbn. rewrite Hk. apply (S3 a (n, v)); [done|by left].
Qed.

(** What a lookup of a node, made when it is missing, finds, and what writing it does. *)
Lemma findnew_map e s xs p raw : lists s xs -> addr p -> p ∉ xs.*1 ->
  exists n s' v, rblist__findnew (Some (p, raw)) e s = Some (n, s') /\ n <> 0 /\ contents s' !! n = Some v /\
    v = default (node_new e) (as_map xs !! ekey e) /\ key v = ekey e /\
    forall v', key v' = key v -> exists ys zs, lists (set_contents n v' s') (ys ++ (n, v') :: zs) /\
      as_map (ys ++ (n, v') :: zs) = <[ekey e := v']> (as_map xs) /\
      (forall x, x ∈ ys ++ zs -> x ∈ xs) /\ (n, v) ∉ ys ++ zs /\ (n = p \/ n ∈ xs.*1).
Proof.
  intros Hl Hp Hnew. unfold rblist__findnew.
  destruct (find_ok e s xs Hl (Some (p, raw)) true) as [(n & v & Hn & Hk & E & _)|(Hno & _ & _ & Hadd)].
  - exists n, s, v. rewrite (proj2 (as_map_lookup s xs (ekey e) v Hl)) by by exists n.
    split; [done|]. split; [by eapply lists_pos|]. split; [by apply (lists_lookup s xs)|]. split; [done|]. split; [done|].
    intros v' Hv'. apply list_elem_of_split in Hn as (ys & zs & ->). exists ys, zs.
    pose proof (set_ok s ys n v v' zs Hl Hv') as Hl'. split; [done|]. split; [|split; [set_solver|split; [|right; apply list_elem_of_fmap; exists (n, v); set_solver]]].
    + rewrite (as_map_split _ _ _ _ _ Hl'), (as_map_split _ _ _ _ _ Hl), Hv', Hk. by rewrite insert_insert_eq.
    + apply lists_nodup, NoDup_fmap_1 in Hl. rewrite <- Permutation_middle in Hl. by apply NoDup_cons in Hl as [? _].
  - destruct (Hadd p raw eq_refl Hp Hnew) as (s' & ys & zs & _ & E & -> & _ & _ & Hl').
    exists p, s', (node_new e). split; [by apply E|]. split; [by destruct Hp; lia|].
    split; [apply (lists_lookup _ _ _ _ Hl'); set_solver|]. rewrite (as_map_none s _ _ Hl Hno).
    split; [done|]. split; [apply key_new|]. intros v' Hv'. exists ys, zs.
    pose proof (set_ok _ _ _ _ v' _ Hl' Hv') as Hl2. split; [done|]. split; [|split; [set_solver|split; [|by left]]].
    + by rewrite (as_map_split _ _ _ _ _ Hl2), Hv', key_new.
    + intros Hin. apply Hnew. apply list_elem_of_fmap. by exists (p, node_new e).
Qed.

Lemma find_map e s xs : lists s xs ->
  match as_map xs !! ekey e with
  | Some v => exists n, rblist__find e s = Some n /\ n <> 0 /\ contents s !! n = Some v
  | None => rblist__find e s = Some 0
  end.
Proof.
  intros Hl. unfold rblist__find.
  destruct (find_ok e s xs Hl None false) as [(n & v & Hn & Hk & -> & _)|(Hno & _ & -> & _)]; [|rewrite (as_map_none s)|by left].
  - rewrite (proj2 (as_map_lookup s xs (ekey e) v Hl)) by by exists n. exists n. split; [done|].
    split; [by eapply lists_pos|]. by apply (lists_lookup s xs).
  - done.
  - done.
  - done.
Qed.
End keyed.

(** ** Keys of three words, in lexicographic order *)

Definition triple : Type := Z * Z * Z.
Definition triple_lt (a b : triple) : Prop :=
  a.1.1 < b.1.1 \/ a.1.1 = b.1.1 /\ (a.1.2 < b.1.2 \/ a.1.2 = b.1.2 /\ a.2 < b.2).

Lemma triple_eq (a b : triple) : a = b <-> a.1.1 = b.1.1 /\ a.1.2 = b.1.2 /\ a.2 = b.2.
Proof. destruct a as [[] ?], b as [[] ?]. cbn. split; [by intros [= -> -> ->]|by intros (-> & -> & ->)]. Qed.

(** ** Runs

    Each input goes to the contents under its key: what holds of the contents of a key and
    of the inputs with that key is to be shown for the key of the last input only. *)

Lemma grouped_step {X V K} `{Countable K} (kx : X -> K) (spec : list X -> option V -> Prop) l x
  (m : gmap K V) v :
  (forall k, spec (filter (fun x => kx x = k) l) (m !! k)) ->
  spec (filter (fun y => kx y = kx x) l ++ [x]) (Some v) ->
  forall k, spec (filter (fun x => kx x = k) (l ++ [x])) (<[kx x := v]> m !! k).
Proof.
  intros Hl Hx k. rewrite filter_app, filter_cons, filter_nil. destruct (decide (kx x = k)) as [<-|Hk].
  - by rewrite lookup_insert_eq.
  - rewrite lookup_insert_ne by done. rewrite app_nil_r. apply Hl.
Qed.
