(* ===== verification/RbReport.v ===== *)
(** * Reports of sorted lists (count_helpers.c, latency_helpers.c, kmemleak.c)

    Reports walk a list in order; or they take its nodes one by one and add each to a second
    list with another order, without copying: what the second list is then. *)

From Stdlib Require Import Sorted.
From S2P Require Import Prelude RbTree RbShape RbRep RbWalk RbMain RbList RbMap.

Lemma sorted_weaken {A} (R R' : A -> A -> Prop) (l m : list A) : (forall a, a ∈ l -> a ∈ m) ->
  (forall a b, a ∈ m -> b ∈ m -> R a b -> R' a b) -> StronglySorted R l -> StronglySorted R' l.
Proof.
  intros Hin HR Hs. induction Hs as [|a l Hs IH Ha]; constructor; [apply IH; intros; apply Hin; by right|].
  rewrite Forall_forall in *. intros b Hb. apply HR; [apply Hin; by left|apply Hin; by right|by apply Ha].
Qed.

(** The contents in order. *)
Fixpoint walk_loop {V} (fuel : nat) (node : Z) (l : rblist V) : option (list V) :=
  match fuel with
  | O => None
  | S fuel =>
      if node =? 0 then Some []
      else
        v ← contents l !! node;
        '(node, _) ← rb_next node (rb_root (entries l));
        vs ← walk_loop fuel node l;
        Some (v :: vs)
  end.

Section sort.
Context {V : Type} `{NodeOps V V}.

(** The first node moved from a list to the sorted one. *)
Definition move_first (s sorted : rblist V) : option (rblist V * rblist V) :=
  p ← rblist__entry 0 s;
  v ← contents s !! p;
  raw ← nodes (rb_root (entries s)) !! p;
  s ← rblist__remove_node p s;
  '(_, sorted) ← rblist__add_node (Some (p, Node p (rb_right raw) (rb_left raw))) v sorted;
  Some (s, sorted).
Fixpoint sort_loop (fuel : nat) (s sorted : rblist V) : option (rblist V * rblist V) :=
  match fuel with
  | O => None
  | S fuel =>
      '(s, sorted) ← move_first s sorted;
      if rblist__empty s then Some (s, sorted) else sort_loop fuel s sorted
  end.
End sort.

Lemma walk_loop_ok {V Ent K} `{NodeLaws V Ent K} (s : rblist V) (xs : list (Z * V)) : forall ys fuel,
  lists s (ys ++ xs) -> (length xs < fuel)%nat -> walk_loop fuel (first0 xs.*1) s = Some xs.*2.
Proof.
  induction xs as [|[p v] xs IH]; intros ys [|fuel] Hl Hf; cbn in Hf; try lia; [done|].
  change (first0 ((p, v) :: xs).*1) with p. cbn [walk_loop].
  rewrite (proj2 (Z.eqb_neq _ _) (lists_pos _ _ p v Hl ltac:(set_solver))).
  rewrite (proj2 (lists_lookup _ _ p v Hl) ltac:(set_solver)). cbn [mbind option_bind].
  rewrite (lists_next s ys p v xs Hl). cbn [mbind option_bind].
  by rewrite (IH (ys ++ [(p, v)])); [|rewrite <- app_assoc|lia].
Qed.

Lemma lists_nonempty {V Ent K} `{NodeLaws V Ent K} s xs : lists s xs -> Z.of_nat (length xs) < 2 ^ 32 ->
  rblist__empty s = bool_decide (xs = []).
Proof.
  intros Hl Hn. unfold rblist__empty. rewrite (lists_nr _ _ Hl), u32_small by lia.
  destruct xs; [done|]. rewrite bool_decide_eq_false_2 by done. cbn [length]. lia.
Qed.

Lemma lists_first {V Ent K} `{NodeLaws V Ent K} s p v xs : lists s ((p, v) :: xs) -> rblist__entry 0 s = Some p.
Proof.
  intros Hl. unfold rblist__entry. rewrite (lists_leftmost _ _ Hl), (lists_size _ _ Hl).
  by rewrite (entry_loop_ok ((p, v) :: xs) [] s _ 0 Hl) by (cbn; lia).
Qed.

Lemma contents_size {V Ent K} `{NodeLaws V Ent K} s xs : lists s xs -> size (contents s) = length xs.
Proof.
  intros Hl. rewrite (lists_contents _ _ Hl), <- size_dom, dom_list_to_map_L, size_list_to_set by by eapply lists_nodup.
  apply length_fmap.
Qed.

Lemma keys_sorted {V Ent K} `{NodeLaws V Ent K} s xs : lists s xs ->
  StronglySorted (fun v w => before_key (key v) (key w)) xs.*2.
Proof.
  intros Hl. apply lists_sorted in Hl. clear -Hl. induction Hl as [|x xs Hl IH Hall]; cbn; constructor; [done|].
  apply Forall_fmap. exact Hall.
Qed.

Section sorted.
Context {V Ent K K2 : Type} `{L1 : NodeLaws V Ent K} `{L2 : NodeLaws V V K2}.
(** A node is its own entry. *)
Hypothesis own : forall v : V, node_new (Ent := V) v = v /\ ekey (NodeLaws := L2) v = key (NodeLaws := L2) v.
Notation listed := (lists (H0 := L1)).
Notation resorted := (lists (H0 := L2)).
Notation skey := (key (NodeLaws := L2)).

Lemma move_first_ok p v xs ys s sorted : listed s ((p, v) :: xs) -> resorted sorted ys ->
  p ∉ ys.*1 -> (forall w, w ∈ ys.*2 -> skey w <> skey v) ->
  exists s' sorted' ys', move_first s sorted = Some (s', sorted') /\ listed s' xs /\ resorted sorted' ys' /\
    ys' ≡ₚ (p, v) :: ys.
Proof.
  intros Hl Hs Hp Hk. unfold move_first. rewrite (lists_first s p v xs Hl). cbn [mbind option_bind].
  rewrite (proj2 (lists_lookup _ _ p v Hl)) by by left. cbn [mbind option_bind].
  destruct (lists_node _ _ p v Hl) as [raw Hraw]; [by left|]. rewrite Hraw. cbn [mbind option_bind].
  destruct (remove_node_ok s [] p v xs Hl) as (s' & -> & Hs'). cbn [mbind option_bind].
  destruct (find_ok (H0 := L2) v sorted ys Hs (Some (p, Node p (rb_right raw) (rb_left raw))) true)
    as [(q & w & Hq & Heq & _)|(_ & _ & _ & Hadd)].
  { exfalso. rewrite (proj2 (own v)) in Heq. apply (Hk w); [apply list_elem_of_fmap; by exists (q, w)|done]. }
  destruct (Hadd _ _ eq_refl (lists_addr _ _ p v Hl ltac:(by left)) Hp) as (sorted' & y1 & y2 & -> & _ & -> & _ & _ & Hs2).
  rewrite (proj1 (own v)) in Hs2.
  cbn [mbind option_bind]. exists s', sorted', (y1 ++ (p, v) :: y2). split; [done|]. split; [exact Hs'|]. split; [exact Hs2|].
  by rewrite Permutation_middle.
Qed.

Lemma sort_loop_ok : forall xs s sorted ys fuel, listed s xs -> resorted sorted ys ->
  xs <> [] -> (length xs <= fuel)%nat -> Z.of_nat (length xs) < 2 ^ 32 -> NoDup (xs ++ ys).*1 ->
  NoDup (skey <$> (xs ++ ys).*2) ->
  exists s' sorted' zs, sort_loop fuel s sorted = Some (s', sorted') /\ listed s' [] /\
    resorted sorted' zs /\ zs ≡ₚ xs ++ ys.
Proof.
  induction xs as [|[p v] xs IH]; intros s sorted ys [|fuel] Hl Hs Hne Hf Hn Hd Hk; cbn in Hf; try lia; [done|done|].
  cbn [sort_loop]. cbn in Hd, Hk. apply NoDup_cons in Hd as [Hd1 Hd2]. apply NoDup_cons in Hk as [Hk1 Hk2].
  destruct (move_first_ok p v xs ys s sorted Hl Hs) as (s' & sorted' & ys' & -> & Hs' & Hsd & Hperm).
  { rewrite fmap_app in Hd1. set_solver. }
  { intros w Hw Heq. apply Hk1. rewrite <- Heq. apply list_elem_of_fmap_2. rewrite fmap_app. set_solver. }
  cbn [mbind option_bind]. cbn [length] in Hn. rewrite (lists_nonempty _ _ Hs') by lia.
  destruct xs as [|x xs]; [exists s', sorted', ys'; split; [done|]; split; [done|]; by split|].
  rewrite bool_decide_false by done.
  assert ((x :: xs) ++ ys' ≡ₚ ((p, v) :: x :: xs) ++ ys) as Hperm'.
  { rewrite Hperm. symmetry. apply (Permutation_middle (x :: xs)). }
  destruct (IH s' sorted' ys' fuel Hs' Hsd) as (s2 & sorted2 & zs & -> & H1 & H2 & H3); [done|lia|lia| | |].
  - rewrite Hperm'. cbn. by apply NoDup_cons.
  - rewrite Hperm'. cbn. by apply NoDup_cons.
  - exists s2, sorted2, zs. split; [done|]. split; [done|]. split; [done|]. by rewrite H3.
Qed.

(** All nodes of a list. *)
Lemma sorted_all xs s sorted : listed s xs -> resorted sorted [] -> xs <> [] -> Z.of_nat (length xs) < 2 ^ 32 ->
  NoDup (skey <$> xs.*2) ->
  exists s' sorted' zs, sort_loop (size (nodes (rb_root (entries s)))) s sorted = Some (s', sorted') /\ listed s' [] /\
    resorted sorted' zs /\ zs ≡ₚ xs.
Proof.
  intros Hl Hs Hne Hn Hk. rewrite (lists_size _ _ Hl).
  destruct (sort_loop_ok xs s sorted [] (length xs) Hl Hs) as (s' & sorted' & zs & E & H1 & H2 & H3);
    rewrite ?app_nil_r in *; try done.
  - by apply (lists_nodup (H0 := L1) s).
  - by exists s', sorted', zs.
Qed.
End sorted.
