(* ===== verification/CountDist.v ===== *)
(** * Histories of counts (count_helpers.c)

    Counts kept by instance, id and key, each with a history of fixed length, on a sorted
    list: the operations, the form their state keeps, and what a history holds after a
    sequence of inputs. *)

From Stdlib Require Import Sorted.
From S2P Require Import Prelude RbTree RbShape RbRep RbWalk RbMain RbList RbMap RbReport.

(** ** Operations *)

(** [dist] of an entry, the flags, is an argument of what compares entries.  An entry has
    the fields that the initialiser leaves out at zero. *)
Record count_node := CountNode {
  ins : Z;
  id : Z;
  key_ : Z;
  max : Z;
  sum : Z;
  hist_len : Z;
  hist : list Z
}.
Record flags := Flags { by_ins : bool; by_id : bool; by_key_ : bool; hist_size : Z }.

Definition count_dist_node_cmp (f : flags) (n e : count_node) : Z :=
  let rest_key := if by_key_ f then if key_ e <? key_ n then 1 else if key_ n <? key_ e then -1 else 0 else 0 in
  let rest_id := if by_id f then if id e <? id n then 1 else if id n <? id e then -1 else rest_key else rest_key in
  if by_ins f then if ins e <? ins n then 1 else if ins n <? ins e then -1 else rest_id else rest_id.

(** The size of a history is not negative. *)
Definition count_dist_node_new (f : flags) (e : count_node) : count_node :=
  CountNode (ins e) (id e) (key_ e) 0 0 0 (replicate (Z.to_nat (hist_size f)) 0).

#[export] Instance count_ops (f : flags) : NodeOps count_node count_node :=
  {| node_cmp := count_dist_node_cmp f; node_new := count_dist_node_new f |}.

Record count_dist := CountDist { dist : rblist count_node; shape : flags; dist_max : Z }.

(** The memory of the structure is there. *)
Definition count_dist_new (ins id key : bool) (hist_size : Z) : count_dist :=
  CountDist rblist__init (Flags ins id key hist_size) 0.

Definition count_entry (f : flags) (ins id key : Z) : count_node :=
  CountNode (if by_ins f then ins else 0) (if by_id f then id else 0) (if by_key_ f then key else 0) 0 0 0 [].

(** [count] is added in the slot [i] of a node; the node and the new count of the slot. *)
Definition add_slot (i : Z) (count : Z) (n : count_node) : option (count_node * Z) :=
  h ← hist n !! Z.to_nat i;
  let h := u64 (h + count) in
  Some (CountNode (ins n) (id n) (key_ n) (if max n <? h then h else max n) (u64 (sum n + count)) (hist_len n)
          (<[Z.to_nat i := h]> (hist n)), h).
Definition set_hist_len (l : Z) (n : count_node) : count_node :=
  CountNode (ins n) (id n) (key_ n) (max n) (sum n) l (hist n).

(** The slot of the next count. *)
Definition input_node (f : flags) (count : Z) (n : count_node) : option (count_node * Z) :=
  '(n, h) ← add_slot (hist_len n) count n;
  if hist_size f =? 0 then None else Some (set_hist_len (Z.rem (s32 (hist_len n + 1)) (hist_size f)) n, h).

(** The slot [i], counted round. *)
Definition insert_node (f : flags) (i count : Z) (n : count_node) : option (count_node * Z) :=
  if hist_size f =? 0 then None
  else
    let i := i mod u64 (hist_size f) in
    '(n, h) ← add_slot i count n;
    Some (if u64 (hist_len n) <? i then set_hist_len (s32 i) n else n, h).

(** The node of the entry is looked up or made, and changed; [dist->ins] is read before
    [dist] is tested. *)
Definition count_dist_update (change : flags -> count_node -> option (count_node * Z)) (alloc : option (Z * rb_node))
  (d : option count_dist) (ins id key : Z) : option count_dist :=
  d ← d;
  let f := shape d in
  '(n, l) ← rblist__findnew (H := count_ops f) alloc (count_entry f ins id key) (dist d);
  if n =? 0 then Some (CountDist l f (dist_max d))
  else
    v ← contents l !! n;
    '(v, h) ← change f v;
    Some (CountDist (set_contents n v l) f (if dist_max d <? h then h else dist_max d)).
Definition count_dist_input alloc d ins id key count := count_dist_update (fun f => input_node f count) alloc d ins id key.
Definition count_dist_insert alloc d ins id key i count := count_dist_update (fun f => insert_node f i count) alloc d ins id key.

(** What [printnode] is called with, in order. *)
Definition count_dist_print (d : option count_dist) : option (list count_node) :=
  match d with
  | None => Some []
  | Some d =>
      if rblist__empty (dist d) then Some []
      else walk_loop (S (size (nodes (rb_root (entries (dist d)))))) (rb_leftmost (entries (dist d))) (dist d)
  end.

Definition count_dist_max (d : option count_dist) : Z := match d with Some d => dist_max d | None => 0 end.
Definition count_dist_reset (d : option count_dist) : option (option count_dist) :=
  match d with
  | None => Some None
  | Some d => l ← rblist__exit (dist d); Some (Some (CountDist l (shape d) 0))
  end.
Definition count_dist_empty (d : option count_dist) : bool :=
  match d with Some d => rblist__empty (dist d) | None => true end.

(** ** The order of the nodes *)

Definition mask (f : flags) (i d k : Z) : triple :=
  (if by_ins f then i else 0, if by_id f then d else 0, if by_key_ f then k else 0).
Definition count_key (f : flags) (n : count_node) : triple := mask f (ins n) (id n) (key_ n).
#[export] Instance count_laws (f : flags) : NodeLaws (H := count_ops f) count_node count_node triple.
Proof.
  refine {| key := count_key f : count_node -> triple; ekey := count_key f; before_key := triple_lt |};
    unfold triple_lt; [lia|lia| | | |done].
  all: intros v e; cbn [node_cmp count_ops]; unfold count_dist_node_cmp, count_key, mask; rewrite ?triple_eq; cbn [fst snd].
  all: destruct f as [[] [] [] ?]; cbn [by_ins by_id by_key_]; repeat case_match; lia.
Defined.

(** ** The form of the state *)

(** A node has a history of the fixed length, the place of the next count in it, and a sum
    that is that of the history, in 64 bits. *)
Record node_ok (f : flags) (n : count_node) : Prop := {
  ok_hist : Z.of_nat (length (hist n)) = hist_size f;
  ok_range : Forall (fun h => 0 <= h < 2 ^ 64) (hist n);
  ok_len : 0 <= hist_len n < hist_size f;
  ok_sum : sum n = u64 (foldr Z.add 0 (hist n));
  ok_max : 0 <= max n < 2 ^ 64
}.

(** The contents by key. *)
Definition counts (f : flags) (xs : list (Z * count_node)) : gmap triple count_node := as_map (H0 := count_laws f) xs.

(** [dist_max] is the largest of the maxima of the nodes. *)
Record counted (d : count_dist) (xs : list (Z * count_node)) : Prop := {
  c_size : 0 < hist_size (shape d) < 2 ^ 31;
  c_lists : lists (H0 := count_laws (shape d)) (dist d) xs;
  c_nodes : forall k v, counts (shape d) xs !! k = Some v -> node_ok (shape d) v /\ max v <= dist_max d;
  c_top : dist_max d = 0 \/ exists k v, counts (shape d) xs !! k = Some v /\ max v = dist_max d
}.

Lemma sum_insert (l : list Z) i h h' : l !! i = Some h ->
  foldr Z.add 0 (<[i := h']> l) = foldr Z.add 0 l - h + h'.
Proof.
  revert i. induction l as [|x l IH]; intros [|i] Hi; [done|done|injection Hi as ->; cbn; lia|].
  change (<[S i:=h']> (x :: l)) with (x :: <[i := h']> l). cbn [foldr]. rewrite (IH i Hi). lia.
Qed.


(** What a change of a node does: the slot and what it held. *)
Record changed (f : flags) (i count : Z) (n n' : count_node) (h : Z) : Prop := {
  ch_ok : node_ok f n';
  ch_key : count_key f n' = count_key f n;
  ch_fields : ins n' = ins n /\ id n' = id n /\ key_ n' = key_ n;
  ch_max : max n' = Z.max (max n) h;
  ch_sum : sum n' = u64 (sum n + count);
  ch_slot : exists h0, hist n !! Z.to_nat i = Some h0 /\ h = u64 (h0 + count);
  ch_hist : hist n' = <[Z.to_nat i := h]> (hist n)
}.

Lemma add_slot_ok f i count n : node_ok f n -> 0 <= i < hist_size f ->
  exists n' h, add_slot i count n = Some (n', h) /\ changed f i count n n' h /\ hist_len n' = hist_len n.
Proof.
  intros [N1 N2 N3 N4 N5] Hi. unfold add_slot.
  destruct (lookup_lt_is_Some_2 (hist n) (Z.to_nat i)) as [h0 Hh]; [lia|]. rewrite Hh. cbn [mbind option_bind].
  set (h := u64 (h0 + count)). pose proof (u64_range (h0 + count)) as Hr. fold h in Hr.
  eexists _, h. split; [reflexivity|]. split; [|done]. split; cbn [ins id key_ max sum hist]; try done.
  - split; cbn [hist hist_len sum max]; [by rewrite length_insert|by apply Forall_insert|done| |case_match; lia].
    rewrite (sum_insert _ _ h0) by done. rewrite N4, u64_add_l. unfold h. rewrite u64_add_r. f_equal. lia.
  - case_match; lia.
  - by exists h0.
Qed.

Lemma set_hist_len_ok f i count n n' h l : changed f i count n n' h -> 0 <= l < hist_size f ->
  changed f i count n (set_hist_len l n') h.
Proof. intros [[] C2 C3 C4 C5 C6 C7] Hl. by repeat (split; try done). Qed.

Lemma input_slot_ok f count n : node_ok f n -> 0 < hist_size f < 2 ^ 31 ->
  exists n' h, input_node f count n = Some (n', h) /\ changed f (hist_len n) count n n' h /\
    hist_len n' = (hist_len n + 1) mod hist_size f.
Proof.
  intros Hn Hs. unfold input_node. destruct (add_slot_ok f (hist_len n) count n Hn) as (n' & h & -> & Hc & Hl).
  { apply Hn. }
  cbn [mbind option_bind]. destruct (Z.eqb_spec (hist_size f) 0); [lia|]. pose proof (ok_len _ _ Hn) as Hln.
  rewrite Hl. rewrite s32_small by lia. rewrite Z.rem_mod_nonneg by lia.
  eexists _, h. split; [reflexivity|]. split; [|done].
  apply set_hist_len_ok; [done|]. apply Z.mod_pos_bound. lia.
Qed.

Lemma insert_node_ok f i count n : node_ok f n -> 0 < hist_size f < 2 ^ 31 -> 0 <= i < 2 ^ 64 ->
  exists n' h, insert_node f i count n = Some (n', h) /\ changed f (i mod hist_size f) count n n' h /\
    hist_len n' = Z.max (hist_len n) (i mod hist_size f).
Proof.
  intros Hn Hs Hi. unfold insert_node. destruct (Z.eqb_spec (hist_size f) 0); [lia|].
  rewrite u64_small by lia. pose proof (Z.mod_pos_bound i (hist_size f) ltac:(lia)) as Hm.
  destruct (add_slot_ok f (i mod hist_size f) count n Hn Hm) as (n' & h & -> & Hc & Hl).
  cbn [mbind option_bind]. pose proof (ok_len _ _ Hn) as Hln. rewrite Hl, u64_small, s32_small by lia.
  eexists _, h. split; [reflexivity|]. destruct (Z.ltb_spec (hist_len n) (i mod hist_size f)).
  - split; [by apply set_hist_len_ok|]. cbn. lia.
  - split; [done|]. lia.
Qed.

Lemma new_node_ok f e : 0 < hist_size f < 2 ^ 31 -> node_ok f (count_dist_node_new f e).
Proof.
  intros Hs. split; cbn; [rewrite length_replicate; lia|by apply Forall_replicate|lia| |lia].
  assert (foldr Z.add 0 (replicate (Z.to_nat (hist_size f)) 0) = 0) as ->; [|done].
  by induction (Z.to_nat (hist_size f)).
Qed.

Lemma entry_key f i k ky : count_key f (count_entry f i k ky) = mask f i k ky.
Proof. by destruct f as [[] [] [] ?]. Qed.

(** One update: the contents under the key of the entry, new or not, are changed. *)
Lemma update_ok change (slot : count_node -> Z) count d xs p raw i k ky :
  let f := shape d in
  counted d xs -> addr p -> p ∉ xs.*1 ->
  (forall n, node_ok f n -> exists n' h, change f n = Some (n', h) /\ changed f (slot n) count n n' h) ->
  exists d' xs' v v' h, count_dist_update change (Some (p, raw)) (Some d) i k ky = Some d' /\
    counted d' xs' /\ shape d' = f /\
    v = default (count_dist_node_new f (count_entry f i k ky)) (counts f xs !! mask f i k ky) /\
    node_ok f v /\ change f v = Some (v', h) /\ counts f xs' = <[mask f i k ky := v']> (counts f xs) /\
    (forall q, q ∈ xs'.*1 -> q = p \/ q ∈ xs.*1).
Proof.
  intros f [Cs Cl Cn Ct] Hp Hnew Hch. unfold count_dist_update. cbn [mbind option_bind]. fold f in Cs, Cl, Cn, Ct. fold f.
  destruct (findnew_map (H0 := count_laws f) (count_entry f i k ky) _ _ p raw Cl Hp Hnew)
    as (n & s' & v & E & Hn0 & Hv & Hdef & Hkey & Hset).
  rewrite E. cbn [mbind option_bind]. rewrite (proj2 (Z.eqb_neq _ _) Hn0), Hv. cbn [mbind option_bind].
  assert (node_ok f v /\ max v <= dist_max d) as [Hok Hmv].
  { rewrite Hdef. destruct (as_map xs !! _) as [w|] eqn:Ew; cbn [default]; [by apply (Cn _ _ Ew)|].
    split; [by apply new_node_ok|]. cbn. destruct Ct as [Ct|(q & w & Hq & <-)]; [lia|]. destruct (Cn _ _ Hq) as [[] _]. lia. }
  destruct (Hch v Hok) as (v' & h & Ech & Hc). rewrite Ech.
  destruct (Hset v') as (ys & zs & Hl' & Hmap & Hsub & _ & Hin); [by apply Hc|].
  eexists _, (ys ++ (n, v') :: zs), v, v', h. split; [reflexivity|]. rewrite <- entry_key.
  set (kk := count_key f (count_entry f i k ky)) in *. split.
  2: { split; [done|]. split; [exact Hdef|]. split; [done|]. split; [done|]. split; [exact Hmap|].
       intros q Hq. apply list_elem_of_fmap in Hq as ([q' w] & -> & Hq). cbn.
       assert (q' = n \/ (q', w) ∈ ys ++ zs) as [->|Hq'] by set_solver; [done|]. right. apply list_elem_of_fmap.
       exists (q', w). split; [done|by apply Hsub]. }
  pose proof (ch_max _ _ _ _ _ _ Hc) as Hmax.
  assert ((if dist_max d <? h then h else dist_max d) = Z.max (dist_max d) h) as -> by (case_match; lia).
  assert (counts f (ys ++ (n, v') :: zs) = <[kk := v']> (counts f xs)) as Hmap' by exact Hmap.
  split; cbn [shape dist dist_max]; [done|done| |]; rewrite Hmap'.
  - intros q w Hq. apply lookup_insert_Some in Hq as [[_ <-]|[_ Hq]]; [split; [by apply Hc|lia]|].
    destruct (Cn _ _ Hq). split; [done|lia].
  - destruct (Z.le_gt_cases (dist_max d) h).
    + right. exists (kk), v'. rewrite lookup_insert_eq. split; [done|lia].
    + destruct Ct as [Ct|(q & w & Hq & Hw)]; [left; pose proof (ch_ok _ _ _ _ _ _ Hc) as [_ _ _ _ ?]; lia|right].
      destruct (decide (q = kk)) as [->|Hne].
      * exists (kk), v'. rewrite lookup_insert_eq. split; [done|].
        change (v = default (count_dist_node_new f (count_entry f i k ky)) (counts f xs !! kk)) in Hdef. rewrite Hq in Hdef. cbn in Hdef. subst w. lia.
      * exists q, w. rewrite lookup_insert_ne by done. split; [done|lia].
Qed.

(** ** Sequences of inputs *)

(** The memory a node gets, if one is made, and the arguments. *)
Record input := Input { mem : Z * rb_node; i_ins : Z; i_id : Z; i_key : Z; i_count : Z }.

Definition feed (d : option count_dist) (l : list input) : option count_dist :=
  foldl (fun d x => count_dist_input (Some (mem x)) d (i_ins x) (i_id x) (i_key x) (i_count x)) d l.

Definition input_key (f : flags) (x : input) : triple := mask f (i_ins x) (i_id x) (i_key x).

(** The counts that went to the slot [j] of [m] slots, when they go round. *)
Definition slot_sum (m j : nat) (cs : list Z) : Z :=
  foldr Z.add 0 (imap (fun i c => if decide (i mod m = j)%nat then c else 0) cs).

(** What the node of a key has after the inputs [l] with that key. *)
Definition history (f : flags) (l : list input) (o : option count_node) : Prop :=
  match o with
  | None => l = []
  | Some v =>
      let m := Z.to_nat (hist_size f) in
      let cs := i_count <$> l in
      l <> [] /\ hist_len v = Z.of_nat (length cs mod m) /\ sum v = u64 (foldr Z.add 0 cs) /\
      forall j, (j < m)%nat -> hist v !! j = Some (u64 (slot_sum m j cs))
  end.

Lemma sum_snoc l c : foldr Z.add 0 (l ++ [c]) = foldr Z.add 0 l + c.
Proof. induction l as [|x l IH]; cbn; [lia|]. rewrite IH. lia. Qed.

Lemma slot_sum_snoc m j cs c :
  slot_sum m j (cs ++ [c]) = slot_sum m j cs + if decide (length cs mod m = j)%nat then c else 0.
Proof. unfold slot_sum. rewrite imap_app. cbn [imap]. rewrite sum_snoc. cbn. by rewrite Nat.add_0_r. Qed.

Lemma history_snoc f l x v v' h : 0 < hist_size f ->
  history f l (Some v) \/ l = [] /\ v = count_dist_node_new f (count_entry f (i_ins x) (i_id x) (i_key x)) ->
  changed f (hist_len v) (i_count x) v v' h -> hist_len v' = (hist_len v + 1) mod hist_size f ->
  history f (l ++ [x]) (Some v').
Proof.
  intros Hs Hv Hc Hlen. cbn. set (m := Z.to_nat (hist_size f)) in *. set (cs := i_count <$> l).
  assert (hist_len v = Z.of_nat (length cs mod m) /\ sum v = u64 (foldr Z.add 0 cs) /\
    forall j, (j < m)%nat -> hist v !! j = Some (u64 (slot_sum m j cs))) as (H1 & H2 & H3).
  { destruct Hv as [(_ & H1 & H2 & H3)|[-> ->]]; [done|]. cbn. rewrite Nat.Div0.mod_0_l. split; [done|]. split; [done|].
    intros j Hj. by apply lookup_replicate. }
  split; [by destruct l|]. rewrite fmap_app. cbn. fold cs. rewrite length_app. cbn.
  split; [|split; [by rewrite (ch_sum _ _ _ _ _ _ Hc), H2, u64_add_l, sum_snoc|]].
  - rewrite Hlen, H1. replace (hist_size f) with (Z.of_nat m) by lia. rewrite Nat2Z.inj_mod, Zplus_mod_idemp_l.
    rewrite Nat2Z.inj_mod. f_equal. lia.
  - intros j Hj. destruct (ch_slot _ _ _ _ _ _ Hc) as (h0 & Hh0 & ->).
    rewrite (ch_hist _ _ _ _ _ _ Hc), H1, Nat2Z.id, slot_sum_snoc.
    rewrite H1, Nat2Z.id in Hh0. case_decide as Hd.
    + subst j. rewrite list_lookup_insert_eq by by eapply lookup_lt_Some. rewrite H3 in Hh0 by done. simplify_eq.
      by rewrite u64_add_l.
    + rewrite list_lookup_insert_ne by done. rewrite H3 by done. by rewrite Z.add_0_r.
Qed.

Lemma new_counted i k ky size : 0 < size < 2 ^ 31 -> counted (count_dist_new i k ky size) [].
Proof.
  intros Hs. split; cbn; [done| |by intros k' v|by left]. split; cbn; [|done|done|done|constructor].
  exists E. split; [split; [done|by exists 0%nat]|]. split; [|done]. by repeat split; try constructor.
Qed.

Lemma counts_fed f l : 0 < hist_size f < 2 ^ 31 -> NoDup (fst ∘ mem <$> l) -> Forall (fun x => addr (mem x).1) l ->
  exists d xs, feed (Some (count_dist_new (by_ins f) (by_id f) (by_key_ f) (hist_size f))) l = Some d /\ counted d xs /\ shape d = f /\
    (forall q, q ∈ xs.*1 -> q ∈ (fst ∘ mem <$> l)) /\
    forall t, history f (filter (fun x => input_key f x = t) l) (counts f xs !! t).
Proof.
  intros Hs Hd Ha. induction l as [|x l IH] using rev_ind.
  { exists (count_dist_new (by_ins f) (by_id f) (by_key_ f) (hist_size f)), []. split; [done|]. split; [by apply new_counted|]. by destruct f. }
  rewrite fmap_app, NoDup_app in Hd. destruct Hd as (Hd & Hx & _). rewrite Forall_app in Ha. destruct Ha as [Ha Hax].
  destruct (IH Hd Ha) as (d & xs & E & Hc & Hsh & Hsub & Hh). apply Forall_cons in Hax as [Hax' _].
  destruct x as [[p raw] xi xd xk c]. cbn in Hax'.
  assert (p ∉ xs.*1) as Hp by (intros Hin; apply (Hx p); [by apply Hsub|set_solver]).
  destruct (update_ok (fun f => input_node f c) hist_len c d xs p raw xi xd xk Hc Hax' Hp)
    as (d' & xs' & v & v' & h & E' & Hc' & Hsh' & Hv & Hok & Ech & Hmap & Hsub').
  { intros n Hn. destruct (input_slot_ok (shape d) c n Hn (c_size _ _ Hc)) as (n' & h & E1 & H1 & _). by exists n', h. }
  exists d', xs'. unfold feed in *. rewrite foldl_snoc, E. split; [exact E'|]. split; [done|]. split; [congruence|].
  split. { intros q Hq. rewrite fmap_app. destruct (Hsub' q Hq) as [->|Hq']; [|specialize (Hsub q Hq')]; set_solver. }
  rewrite Hsh in Hv, Hok, Ech, Hmap. rewrite Hmap. apply (grouped_step (input_key f) (history f) _ (Input (p, raw) xi xd xk c)); [done|].
  destruct (input_slot_ok f c v Hok Hs) as (n' & h' & E1 & H1 & H2). rewrite Ech in E1. injection E1 as <- <-.
  eapply history_snoc; [cbn; lia| |exact H1|exact H2]. cbn.
  specialize (Hh (mask f xi xd xk)). destruct (counts f xs !! mask f xi xd xk) as [w|] eqn:Ew; cbn in Hv; subst v; [by left|right]. by split.
Qed.

Lemma print_ok d xs : counted d xs -> Z.of_nat (length xs) < 2 ^ 32 -> count_dist_print (Some d) = Some xs.*2.
Proof.
  intros [_ Hl _ _] Hn. unfold count_dist_print, rblist__empty. rewrite (lists_nr (H0 := count_laws (shape d)) _ _ Hl).
  rewrite u32_small by lia. destruct xs as [|x xs]; [done|].
  destruct (Z.eqb_spec (Z.of_nat (length (x :: xs))) 0); [cbn in *; lia|].
  rewrite (lists_size (H0 := count_laws (shape d)) _ _ Hl), (lists_leftmost (H0 := count_laws (shape d)) _ _ Hl).
  apply (walk_loop_ok (H0 := count_laws (shape d)) _ _ []); [done|cbn; lia].
Qed.

(** ** Properties *)

(** What is printed after any inputs to a new structure, their nodes in memory of their
    own: one node for each key an input had, in ascending order of the keys, its history
    the ring of the counts with that key - each slot the 64-bit sum of every count that
    fell to it, the next slot the number of counts round the ring -, its sum the 64-bit
    sum of them all, and no maximum above [count_dist_max]. *)
Theorem count_histories f l :
  0 < hist_size f < 2 ^ 31 -> NoDup (fst ∘ mem <$> l) -> Forall (fun x => addr (mem x).1) l ->
  Z.of_nat (length l) < 2 ^ 32 ->
  exists d vs, feed (Some (count_dist_new (by_ins f) (by_id f) (by_key_ f) (hist_size f))) l = Some d /\
    count_dist_print (Some d) = Some vs /\
    StronglySorted (fun v w => triple_lt (count_key f v) (count_key f w)) vs /\
    (forall v, v ∈ vs -> history f (filter (fun x => input_key f x = count_key f v) l) (Some v) /\
       max v <= count_dist_max (Some d)) /\
    (forall x, x ∈ l -> exists v, v ∈ vs /\ count_key f v = input_key f x).
Proof.
  intros Hs Hd Ha Hn. destruct (counts_fed f l Hs Hd Ha) as (d & xs & E & Hc & Hsh & Hsub & Hh).
  pose proof (c_lists _ _ Hc) as Hl. assert (length xs <= length l)%nat as Hlen.
  { rewrite <- (length_fmap fst xs), <- (length_fmap (fst ∘ mem) l). apply submseteq_length, NoDup_submseteq; [|done].
    by eapply lists_nodup. }
  exists d, xs.*2. split; [done|]. split; [apply print_ok; [done|lia]|]. rewrite Hsh in Hl. split; [|split].
  - apply lists_sorted in Hl. clear -Hl. induction Hl as [|x xs Hl IH Hall]; cbn; constructor; [done|].
    apply Forall_fmap. exact Hall.
  - intros v Hv. apply list_elem_of_fmap in Hv as ([q w] & -> & Hv). cbn.
    assert (counts f xs !! count_key f w = Some w) as Hw by (apply (as_map_lookup _ _ _ _ Hl); by exists q).
    split; [specialize (Hh (count_key f w)); by rewrite Hw in Hh|]. rewrite <- Hsh in Hw. by apply (c_nodes _ _ Hc _ _ Hw).
  - intros x Hx. specialize (Hh (input_key f x)). destruct (counts f xs !! input_key f x) as [v|] eqn:Ev.
    + apply (as_map_lookup _ _ _ _ Hl) in Ev as (q & Hq & Hk). exists v. split; [|done].
      apply list_elem_of_fmap. by exists (q, v).
    + cbn in Hh. assert (x ∈ filter (fun y => input_key f y = input_key f x) l) as Hin by by apply list_elem_of_filter.
      rewrite Hh in Hin. by apply elem_of_nil in Hin.
Qed.

(** C40: The form of the state is kept: on a structure in which every node has a history of
    the fixed length, its place in it, the sum of it in 64 bits, and whose maximum is the
    largest of the nodes', [count_dist_input] and [count_dist_insert] - the latter to the
    slot of its index round the ring - succeed and leave such a structure, only the node
    of their key changed or made, and [count_dist_reset] leaves an empty one. *)
Theorem count_dist_keeps d xs p raw i k ky idx count :
  let f := shape d in
  counted d xs -> addr p -> p ∉ xs.*1 -> 0 <= idx < 2 ^ 64 ->
  (exists d' xs' v, count_dist_input (Some (p, raw)) (Some d) i k ky count = Some d' /\ counted d' xs' /\
     shape d' = f /\ counts f xs' = <[mask f i k ky := v]> (counts f xs)) /\
  (exists d' xs' n v h, count_dist_insert (Some (p, raw)) (Some d) i k ky idx count = Some d' /\ counted d' xs' /\
     shape d' = f /\ counts f xs' = <[mask f i k ky := v]> (counts f xs) /\
     n = default (count_dist_node_new f (count_entry f i k ky)) (counts f xs !! mask f i k ky) /\
     hist n !! Z.to_nat (idx mod hist_size f) = Some h /\
     hist v = <[Z.to_nat (idx mod hist_size f) := u64 (h + count)]> (hist n)) /\
  (exists d', count_dist_reset (Some d) = Some (Some d') /\ counted d' [] /\ shape d' = f).
Proof.
  intros f Hc Hp Hnew Hidx. pose proof (c_size _ _ Hc) as Hs. split; [|split].
  - destruct (update_ok (fun f => input_node f count) hist_len count d xs p raw i k ky Hc Hp Hnew)
      as (d' & xs' & v & v' & h & E & Hc' & Hsh & _ & _ & _ & Hmap & _); [|by exists d', xs', v'].
    intros n Hn. destruct (input_slot_ok _ count n Hn Hs) as (n' & h & E & H1 & _). by exists n', h.
  - destruct (update_ok (fun f => insert_node f idx count) (fun _ => idx mod hist_size f) count d xs p raw i k ky Hc Hp Hnew)
      as (d' & xs' & v & v' & h & E & Hc' & Hsh & Hv & Hok & Ech & Hmap & _).
    { intros n Hn. destruct (insert_node_ok _ idx count n Hn Hs Hidx) as (n' & h & E & H1 & _). by exists n', h. }
    destruct (insert_node_ok _ idx count v Hok Hs Hidx) as (n' & h' & Ech' & H1 & _). rewrite Ech in Ech'. injection Ech' as <- <-.
    destruct (ch_slot _ _ _ _ _ _ H1) as (h0 & Hh0 & Eh). exists d', xs', v, v', h0.
    do 4 (split; [done|]). split; [done|]. split; [done|]. rewrite (ch_hist _ _ _ _ _ _ H1). by rewrite Eh.
  - destruct (exit_loop_ok (H0 := count_laws f) xs (dist d) (S (length xs)) (c_lists _ _ Hc)) as (s' & E & Hs'); [lia|].
    unfold count_dist_reset, rblist__exit.
    rewrite (lists_size (H0 := count_laws f) _ _ (c_lists _ _ Hc)), (lists_leftmost (H0 := count_laws f) _ _ (c_lists _ _ Hc)), E.
    eexists. split; [reflexivity|]. split; [|done]. split; cbn; [done|done|by intros ? ?|by left].
Qed.

(** ** An example

    Three slots by instance: four counts of one instance and one of another. *)

Definition ex_flags : flags := Flags true false false 3.
Definition ex_inputs : list input :=
  (fun p => Input (p.1.1, Node 0 0 0) p.1.2 7 7 p.2) <$> [(8, 5, 10); (16, 5, 20); (24, 2, 1); (32, 5, 30); (40, 5, 40)].

Lemma count_histories_witness : exists d vs,
  feed (Some (count_dist_new true false false 3)) ex_inputs = Some d /\ count_dist_print (Some d) = Some vs /\
  vs = [CountNode 2 0 0 1 1 1 [1; 0; 0]; CountNode 5 0 0 50 100 1 [50; 20; 30]] /\ count_dist_max (Some d) = 50.
Proof.
  destruct (count_histories ex_flags ex_inputs) as (d & vs & E & Hp & _).
  - cbn. lia.
  - apply (bool_decide_unpack _). by vm_compute.
  - repeat constructor; cbn; lia.
  - cbn. lia.
  - exists d, vs. split; [exact E|]. split; [exact Hp|].
    vm_compute in E. injection E as <-. vm_compute in Hp. injection Hp as <-. by split.
Defined.

Lemma count_dist_keeps_witness : exists d',
  count_dist_input (Some (8, Node 0 0 0)) (Some (count_dist_new true false false 3)) 5 7 7 10 = Some d' /\
  count_dist_max (Some d') = 10.
Proof.
  destruct (count_dist_keeps (count_dist_new true false false 3) [] 8 (Node 0 0 0) 5 7 7 0 10) as ((d' & xs' & v & E & _) & _).
  - by apply new_counted.
  - by split.
  - by intros ?%elem_of_nil.
  - lia.
  - exists d'. split; [exact E|]. vm_compute in E. by injection E as <-.
Defined.
