(* ===== verification/LatencyDist.v ===== *)
(** * Latency statistics (latency_helpers.c)

    Latencies kept by instance and key on a sorted list: the operations with the reports,
    what the statistics of a key are after a sequence of inputs, and the order of the
    sorted report, which moves the nodes to a second list.  The digest of quantiles is a
    parameter. *)

From Stdlib Require Import Sorted.
From S2P Require Import Mmap.
From S2P Require Import Prelude RbTree RbShape RbRep RbWalk RbMain RbList RbMap RbReport.

(** ** Operations *)

Section latency.
Context {T : Type} (tdigest_new : T) (tdigest_add : T -> Z -> T).

Record latency_node := LatencyNode {
  td : option T;
  instance : Z;
  key_ : Z;
  min : Z;
  max : Z;
  n : Z;
  than : Z;
  sum : Z;
  extra : list Z
}.
Record kind := Kind { perins : bool; perkey : bool; quantile : bool; extra_size : Z }.
Record latency_dist := LatencyDist { lat : rblist latency_node; ref : Z; shape : kind }.

(** An entry of [lat]: its [dist] is an argument, its [node] is for the sorted list. *)
Record letency_entry := Entry { e_instance : Z; e_key : Z }.

Definition latency_stat_node_cmp (d : kind) (n : latency_node) (e : letency_entry) : Z :=
  let rest := if perkey d then if e_key e <? key_ n then 1 else if key_ n <? e_key e then -1 else 0 else 0 in
  if perins d then if e_instance e <? instance n then 1 else if instance n <? e_instance e then -1 else rest else rest.

(** The extra bytes are whole words. *)
Definition latency_stat_node_new (d : kind) (e : letency_entry) : latency_node :=
  LatencyNode (if quantile d then Some tdigest_new else None) (e_instance e) (e_key e) U64_MAX 0 0 0 0
    (replicate (Z.to_nat (extra_size d / 8)) 0).
#[local] Instance lat_ops (d : kind) : NodeOps latency_node letency_entry :=
  {| node_cmp := latency_stat_node_cmp d; node_new := latency_stat_node_new d |}.

(** The sorted list takes the nodes themselves. *)
Definition latency_stat__sorted_node_cmp (d : kind) (n e : latency_node) : Z :=
  let by_key := if perkey d then if key_ e <? key_ n then 1 else if key_ n <? key_ e then -1 else 0 else 0 in
  let by_sum := if sum e <? sum n then -1 else if sum n <? sum e then 1 else by_key in
  if perins d then if instance e <? instance n then 1 else if instance n <? instance e then -1 else by_sum else by_sum.
#[local] Instance sorted_ops (d : kind) : NodeOps latency_node latency_node :=
  {| node_cmp := latency_stat__sorted_node_cmp d; node_new := fun n => n |}.

(** The memory of the structure is there. *)
Definition latency_dist_new (perins perkey : bool) (extra_size : Z) : latency_dist :=
  LatencyDist rblist__init 1 (Kind perins perkey false extra_size).
Definition latency_dist_new_quantile (perins perkey : bool) (extra_size : Z) : latency_dist :=
  let d := latency_dist_new perins perkey extra_size in
  LatencyDist (lat d) (ref d) (Kind perins perkey true extra_size).

Definition latency_dist_ref (d : option latency_dist) : option (option latency_dist) :=
  match d with
  | None => Some None
  | Some d => r ← Mmap.refcount_inc (ref d); Some (Some (LatencyDist (lat d) r (shape d)))
  end.
(** What is left of the structure: none when it was freed. *)
Definition latency_dist_free (d : option latency_dist) : option (option latency_dist) :=
  match d with
  | None => Some None
  | Some d =>
      '(r, last) ← Mmap.refcount_dec_and_test (ref d);
      if (last : bool) then l ← rblist__exit (lat d); Some None
      else Some (Some (LatencyDist (lat d) r (shape d)))
  end.

(** The statistics of a node with a latency more. *)
Definition input_node (d : kind) (lat greater_than : Z) (ln : latency_node) : option latency_node :=
  td' ← (if quantile d then t ← td ln; Some (Some (tdigest_add t lat)) else Some (td ln));
  Some (LatencyNode td' (instance ln) (key_ ln) (if lat <? min ln then lat else min ln)
          (if max ln <? lat then lat else max ln) (u64 (n ln + 1))
          (if negb (greater_than =? 0) && (greater_than <? lat) then u64 (than ln + 1) else than ln)
          (u64 (sum ln + lat)) (extra ln)).

(** The node, or null. *)
Definition latency_dist_input (alloc : option (Z * rb_node)) (d : option latency_dist)
  (instance key l greater_than : Z) : option (Z * option latency_dist) :=
  match d with
  | None => Some (0, None)
  | Some d =>
      '(p, ls) ← rblist__findnew (H := lat_ops (shape d)) alloc (Entry instance key) (lat d);
      if p =? 0 then Some (0, Some (LatencyDist ls (ref d) (shape d)))
      else
        ln ← contents ls !! p;
        ln ← input_node (shape d) l greater_than ln;
        Some (p, Some (LatencyDist (set_contents p ln ls) (ref d) (shape d)))
  end.

Fixpoint greater_loop (fuel : nat) (node than : Z) (s : rblist latency_node) : option bool :=
  match fuel with
  | O => None
  | S fuel =>
      if node =? 0 then Some false
      else
        '(next, _) ← rb_next node (rb_root (entries s));
        ln ← contents s !! node;
        if than <? max ln then Some true else greater_loop fuel next than s
  end.
Definition latency_dist_greater_than (d : option latency_dist) (than : Z) : option bool :=
  match d with
  | None => Some false
  | Some d =>
      if rblist__empty (lat d) then Some false
      else greater_loop (S (size (nodes (rb_root (entries (lat d)))))) (rb_leftmost (entries (lat d))) than (lat d)
  end.

(** What [printnode] is called with, and the list that is left. *)
Fixpoint print_loop (fuel : nat) (node : Z) (s : rblist latency_node)
  : option (list latency_node * rblist latency_node) :=
  match fuel with
  | O => None
  | S fuel =>
      if node =? 0 then Some ([], s)
      else
        '(next, _) ← rb_next node (rb_root (entries s));
        ln ← contents s !! node;
        s ← rblist__remove_node node s;
        '(lns, s) ← print_loop fuel next s;
        Some (ln :: lns, s)
  end.
Definition print_list (s : rblist latency_node) : option (list latency_node * rblist latency_node) :=
  print_loop (S (size (nodes (rb_root (entries s))))) (rb_leftmost (entries s)) s.
Definition latency_dist_print (d : option latency_dist) : option (list latency_node * option latency_dist) :=
  match d with
  | None => Some ([], None)
  | Some d =>
      if rblist__empty (lat d) then Some ([], Some d)
      else '(lns, s) ← print_list (lat d); Some (lns, Some (LatencyDist s (ref d) (shape d)))
  end.

Definition latency_dist_print_sorted (d : option latency_dist) : option (list latency_node * option latency_dist) :=
  match d with
  | None => Some ([], None)
  | Some d =>
      if rblist__empty (lat d) then Some ([], Some d)
      else
        '(s, sorted) ← sort_loop (H := sorted_ops (shape d)) (size (nodes (rb_root (entries (lat d))))) (lat d) rblist__init;
        '(lns, _) ← print_list sorted;
        Some (lns, Some (LatencyDist s (ref d) (shape d)))
  end.

Definition latency_dist_find (d : option latency_dist) (instance key : Z) : option Z :=
  match d with
  | None => Some 0
  | Some d => rblist__find (H := lat_ops (shape d)) (Entry instance key) (lat d)
  end.
Definition latency_dist_empty (d : option latency_dist) : bool :=
  match d with Some d => rblist__empty (lat d) | None => true end.
Definition latency_dist_reset (d : option latency_dist) : option (option latency_dist) :=
  match d with
  | None => Some None
  | Some d => s ← rblist__exit (lat d); Some (Some (LatencyDist s (ref d) (shape d)))
  end.

(** ** The orders of the lists *)

Definition mask (d : kind) (i m k : Z) : triple := (if perins d then i else 0, m, if perkey d then k else 0).
Definition lat_key (d : kind) (v : latency_node) : triple := mask d (instance v) 0 (key_ v).
Definition sort_key (d : kind) (v : latency_node) : triple := mask d (instance v) (- sum v) (key_ v).

#[local] Instance lat_laws (d : kind) : NodeLaws (H := lat_ops d) latency_node letency_entry triple.
Proof.
  clear tdigest_add. refine {| key := lat_key d : latency_node -> triple; ekey := fun e => mask d (e_instance e) 0 (e_key e);
    before_key := triple_lt |}; unfold triple_lt; [lia|lia| | | |done].
  all: intros v e; cbn [node_cmp lat_ops]; unfold latency_stat_node_cmp, lat_key, mask; rewrite ?triple_eq; cbn [fst snd].
  all: destruct d as [[] [] ? ?]; cbn [perins perkey]; repeat case_match; lia.
Defined.
#[local] Instance sorted_laws (d : kind) : NodeLaws (H := sorted_ops d) latency_node latency_node triple.
Proof.
  clear tdigest_new tdigest_add. refine {| key := sort_key d : latency_node -> triple; ekey := sort_key d; before_key := triple_lt |};
    unfold triple_lt; [lia|lia| | | |done].
  all: intros v e; cbn [node_cmp sorted_ops]; unfold latency_stat__sorted_node_cmp, sort_key, mask; rewrite ?triple_eq; cbn [fst snd].
  all: destruct d as [[] [] ? ?]; cbn [perins perkey]; repeat case_match; lia.
Defined.

(** The contents by key. *)
Definition listed (d : kind) : rblist latency_node -> list (Z * latency_node) -> Prop := lists (H0 := lat_laws d).
Definition sorted_listed (d : kind) : rblist latency_node -> list (Z * latency_node) -> Prop := lists (H0 := sorted_laws d).
Definition stats (d : kind) (xs : list (Z * latency_node)) : gmap triple latency_node := as_map (H0 := lat_laws d) xs.

(** ** Statistics *)

Record input := Input { mem : Z * rb_node; i_instance : Z; i_key : Z; i_lat : Z; i_than : Z }.
Definition feed (d : option latency_dist) (l : list input) : option (option latency_dist) :=
  foldl (fun d x => d ← d; '(_, d) ← latency_dist_input (Some (mem x)) d (i_instance x) (i_key x) (i_lat x) (i_than x); Some d)
    (Some d) l.
Definition input_key (d : kind) (x : input) : triple := mask d (i_instance x) 0 (i_key x).

(** The statistics of the inputs [l] with one key. *)
Definition statistics (d : kind) (l : list input) (o : option latency_node) : Prop :=
  match o with
  | None => l = []
  | Some v =>
      let ls := i_lat <$> l in
      l <> [] /\ min v = foldr Z.min U64_MAX ls /\ max v = foldr Z.max 0 ls /\
      n v = u64 (Z.of_nat (length l)) /\ sum v = u64 (foldr Z.add 0 ls) /\
      than v = u64 (Z.of_nat (length (filter (fun x => i_than x <> 0 /\ i_than x < i_lat x) l))) /\
      td v = (if quantile d then Some (foldl tdigest_add tdigest_new ls) else None)
  end.

Lemma fold_snoc (f : Z -> Z -> Z) z l x : (forall a b c, f a (f b c) = f (f a b) c) -> (forall a b, f a b = f b a) ->
  foldr f z (l ++ [x]) = f (foldr f z l) x.
Proof. intros Ha Hc. induction l as [|y l IH]; cbn; [apply Hc|]. by rewrite IH, Ha. Qed.

Lemma input_stat_ok d l x v :
  statistics d l (Some v) \/ l = [] /\ v = latency_stat_node_new d (Entry (i_instance x) (i_key x)) ->
  exists v', input_node d (i_lat x) (i_than x) v = Some v' /\ instance v' = instance v /\ key_ v' = key_ v /\
    statistics d (l ++ [x]) (Some v').
Proof.
  intros Hv. assert (min v = foldr Z.min U64_MAX (i_lat <$> l) /\ max v = foldr Z.max 0 (i_lat <$> l) /\
      n v = u64 (Z.of_nat (length l)) /\ sum v = u64 (foldr Z.add 0 (i_lat <$> l)) /\
      than v = u64 (Z.of_nat (length (filter (fun x => i_than x <> 0 /\ i_than x < i_lat x) l))) /\
      td v = (if quantile d then Some (foldl tdigest_add tdigest_new (i_lat <$> l)) else None))
    as (H1 & H2 & H3 & H4 & H5 & H6) by (destruct Hv as [(_ & Hv)|[-> ->]]; [exact Hv|done]).
  unfold input_node. rewrite H6.
  set (td' := if quantile d then Some (tdigest_add (foldl tdigest_add tdigest_new (i_lat <$> l)) (i_lat x)) else None).
  exists (LatencyNode td' (instance v) (key_ v) (if i_lat x <? min v then i_lat x else min v)
          (if max v <? i_lat x then i_lat x else max v) (u64 (n v + 1))
          (if negb (i_than x =? 0) && (i_than x <? i_lat x) then u64 (than v + 1) else than v)
          (u64 (sum v + i_lat x)) (extra v)).
  split; [by unfold td'; destruct (quantile d)|]. split; [done|]. split; [done|].
  cbn. split; [by destruct l|]. rewrite fmap_app. cbn. rewrite (fold_snoc Z.min), (fold_snoc Z.max), (fold_snoc Z.add) by lia.
  split; [destruct (Z.ltb_spec (i_lat x) (min v)); lia|].
  split; [destruct (Z.ltb_spec (max v) (i_lat x)); lia|].
  split; [rewrite H3, length_app, u64_add_l; cbn; f_equal; lia|].
  split; [by rewrite H4, u64_add_l|].
  split; [|unfold td'; destruct (quantile d); [by rewrite foldl_snoc|done]].
  rewrite filter_app, filter_cons, filter_nil, H5, length_app.
  destruct (decide (i_than x <> 0 /\ i_than x < i_lat x)) as [Hd|Hd].
  - assert (negb (i_than x =? 0) && (i_than x <? i_lat x) = true) as -> by lia.
    rewrite u64_add_l. cbn. f_equal. lia.
  - assert (negb (i_than x =? 0) && (i_than x <? i_lat x) = false) as -> by lia. cbn. f_equal. lia.
Qed.

Lemma new_listed d : listed d rblist__init [].
Proof. apply (init_lists (H0 := lat_laws d)). Qed.
Lemma new_sorted d : sorted_listed d rblist__init [].
Proof. apply (init_lists (H0 := sorted_laws d)). Qed.

Definition start (d : kind) : latency_dist :=
  if quantile d then latency_dist_new_quantile (perins d) (perkey d) (extra_size d)
  else latency_dist_new (perins d) (perkey d) (extra_size d).

(** One input, whatever is written to the node found. *)
Lemma latency_input_ok d s r xs p raw i k l b v' : listed d s xs -> addr p -> p ∉ xs.*1 ->
  input_node d l b (default (latency_stat_node_new d (Entry i k)) (stats d xs !! mask d i 0 k)) = Some v' ->
  lat_key d v' = mask d i 0 k ->
  exists q s', q <> 0 /\
    latency_dist_input (Some (p, raw)) (Some (LatencyDist s r d)) i k l b = Some (q, Some (LatencyDist (set_contents q v' s') r d)) /\
    forall w, lat_key d w = mask d i 0 k -> exists xs', listed d (set_contents q w s') xs' /\
      stats d xs' = <[mask d i 0 k := w]> (stats d xs) /\ forall a, a ∈ xs'.*1 -> a = p \/ a ∈ xs.*1.
Proof.
  intros Hl Ha Hp Ein Hk'.
  destruct (findnew_map (H0 := lat_laws d) (Entry i k) s xs p raw Hl Ha Hp) as (q & s' & v & E & Hq & Hv & Hdef & Hkey & Hset).
  change (v = default (latency_stat_node_new d (Entry i k)) (stats d xs !! mask d i 0 k)) in Hdef. rewrite <- Hdef in Ein.
  exists q, s'. split; [done|]. split.
  - cbn [latency_dist_input lat shape ref]. rewrite E. cbn [mbind option_bind]. rewrite (proj2 (Z.eqb_neq _ _) Hq), Hv.
    cbn [mbind option_bind]. by rewrite Ein.
  - intros w Hw. assert (lat_key d w = lat_key d v) as Hwv by (rewrite Hw; symmetry; exact Hkey).
    destruct (Hset w Hwv) as (ys & zs & Hl' & Hmap & Hsub & _ & Hin). exists (ys ++ (q, w) :: zs). split; [exact Hl'|].
    split; [exact Hmap|]. intros a Hxs. apply list_elem_of_fmap in Hxs as ([a' u] & -> & Hxs). cbn.
    assert (a' = q \/ (a', u) ∈ ys ++ zs) as [->|Hxs'] by set_solver; [done|].
    right. apply list_elem_of_fmap. exists (a', u). split; [done|by apply Hsub].
Qed.

Lemma lats_fed d l : NoDup (fst ∘ mem <$> l) -> Forall (fun x => addr (mem x).1) l ->
  exists s xs, feed (Some (start d)) l = Some (Some (LatencyDist s 1 d)) /\ listed d s xs /\
    (forall q, q ∈ xs.*1 -> q ∈ (fst ∘ mem <$> l)) /\
    forall t, statistics d (filter (fun x => input_key d x = t) l) (stats d xs !! t).
Proof.
  intros Hd Ha. induction l as [|x l IH] using rev_ind.
  { exists rblist__init, []. split; [by destruct d as [? ? [] ?]|]. split; [apply new_listed|]. by split. }
  rewrite fmap_app, NoDup_app in Hd. destruct Hd as (Hd & Hx & _). rewrite Forall_app in Ha. destruct Ha as [Ha Hax].
  destruct (IH Hd Ha) as (s & xs & E & Hl & Hsub & Hh). apply Forall_cons in Hax as [Hax' _].
  assert ((mem x).1 ∉ xs.*1) as Hp by (intros Hin; apply (Hx (mem x).1); [by apply Hsub|by apply list_elem_of_singleton]).
  set (v := default (latency_stat_node_new d (Entry (i_instance x) (i_key x))) (stats d xs !! input_key d x)).
  assert (lat_key d v = input_key d x) as Hkv.
  { unfold v. destruct (stats d xs !! input_key d x) as [w|] eqn:Ew; [|done].
    by apply (as_map_lookup (H0 := lat_laws d) s) in Ew as (? & _ & Hw). }
  destruct (input_stat_ok d (filter (fun y => input_key d y = input_key d x) l) x v) as (v' & Ein & Hi & Hk & Hst).
  { specialize (Hh (input_key d x)). unfold v. destruct (stats d xs !! input_key d x); [by left|by right]. }
  assert (lat_key d v' = input_key d x) as Hkv' by (rewrite <- Hkv; unfold lat_key; by rewrite Hi, Hk).
  destruct (latency_input_ok d s 1 xs (mem x).1 (mem x).2 (i_instance x) (i_key x) (i_lat x) (i_than x) v' Hl Hax' Hp Ein Hkv')
    as (q & s' & _ & E' & Hset).
  destruct (Hset v' Hkv') as (xs' & Hl' & Hmap & Hin). exists (set_contents q v' s'), xs'. split.
  { unfold feed in *. rewrite foldl_snoc, E. cbn [mbind option_bind]. rewrite <- surjective_pairing in E'. by rewrite E'. }
  split; [exact Hl'|]. split.
  - intros a Hxs. rewrite fmap_app. apply elem_of_app. destruct (Hin a Hxs) as [->|Ha']; [right; by apply list_elem_of_singleton|left; by apply Hsub].
  - rewrite Hmap. by apply (grouped_step (input_key d) (statistics d)).
Qed.

Lemma found_stats d s r xs i k : listed d s xs ->
  exists p, latency_dist_find (Some (LatencyDist s r d)) i k = Some p /\ contents s !! p = stats d xs !! mask d i 0 k.
Proof.
  intros Hl. pose proof (find_map (H0 := lat_laws d) (Entry i k) s xs Hl) as Hf.
  change (ekey (Entry i k)) with (mask d i 0 k) in Hf. unfold stats. destruct (as_map xs !! mask d i 0 k) as [v|].
  - destruct Hf as (p & Hf & _ & Hv). by exists p.
  - exists 0. split; [exact Hf|]. destruct (contents s !! 0) as [v|] eqn:Ev; [|done].
    apply (lists_lookup (H0 := lat_laws d) _ _ _ _ Hl) in Ev. by destruct (lists_pos (H0 := lat_laws d) _ _ _ _ Hl Ev).
Qed.

Lemma lats_found d l s r xs : listed d s xs ->
  (forall t, statistics d (filter (fun x => input_key d x = t) l) (stats d xs !! t)) ->
  forall i k, exists p, latency_dist_find (Some (LatencyDist s r d)) i k = Some p /\
    statistics d (filter (fun x => input_key d x = mask d i 0 k) l) (contents s !! p).
Proof. intros Hl Hh i k. destruct (found_stats d s r xs i k Hl) as (p & E & Hp). exists p. by rewrite Hp. Qed.

(** ** The reports *)

Lemma greater_loop_ok d s than : forall xs ys fuel, listed d s (ys ++ xs) -> (length xs < fuel)%nat ->
  greater_loop fuel (first0 xs.*1) than s = Some (existsb (fun v => than <? max v) xs.*2).
Proof.
  induction xs as [|[p v] xs IH]; intros ys [|fuel] Hl Hf; cbn in Hf; try lia; [done|].
  change (first0 ((p, v) :: xs).*1) with p. cbn [greater_loop]. unfold listed in Hl.
  rewrite (proj2 (Z.eqb_neq _ _) (lists_pos _ _ p v Hl ltac:(set_solver))), (lists_next _ ys p v xs Hl). cbn [mbind option_bind].
  rewrite (proj2 (lists_lookup _ _ p v Hl) ltac:(set_solver)). cbn [mbind option_bind].
  rewrite (IH (ys ++ [(p, v)])); [|by unfold listed; rewrite <- app_assoc|lia]. cbn. by destruct (than <? max v).
Qed.

Lemma print_loop_ok {Ent K} `{NodeLaws latency_node Ent K} : forall xs s fuel, lists s xs -> (length xs < fuel)%nat ->
  exists s', print_loop fuel (first0 xs.*1) s = Some (xs.*2, s') /\ lists s' [].
Proof.
  induction xs as [|[p v] xs IH]; intros s [|fuel] Hl Hf; cbn in Hf; try lia; [by exists s|].
  change (first0 ((p, v) :: xs).*1) with p. cbn [print_loop].
  rewrite (proj2 (Z.eqb_neq _ _) (lists_pos _ _ p v Hl ltac:(set_solver))), (lists_next _ [] p v xs Hl). cbn [mbind option_bind].
  rewrite (proj2 (lists_lookup _ _ p v Hl) ltac:(set_solver)). cbn [mbind option_bind].
  destruct (remove_node_ok s [] p v xs Hl) as (s' & -> & Hs'). cbn [mbind option_bind].
  destruct (IH s' fuel Hs' ltac:(lia)) as (s2 & -> & Hs2). by exists s2.
Qed.

Lemma print_list_ok {Ent K} `{NodeLaws latency_node Ent K} xs s : lists s xs ->
  exists s', print_list s = Some (xs.*2, s') /\ lists s' [].
Proof.
  intros Hl. unfold print_list. rewrite (lists_size _ _ Hl), (lists_leftmost _ _ Hl). by apply print_loop_ok; [|lia].
Qed.

(** Some node has a maximum above a bound when some latency is. *)
Lemma exists_latency d l s xs b : listed d s xs ->
  (forall t, statistics d (filter (fun x => input_key d x = t) l) (stats d xs !! t)) -> 0 <= b ->
  existsb (fun v => b <? max v) xs.*2 = existsb (fun x => b <? i_lat x) l.
Proof.
  intros Hl Hh Hb. apply eq_true_iff_eq. rewrite !existsb_exists. split.
  - intros (v & Hv & Hm). apply list_elem_of_In, list_elem_of_fmap in Hv as ([q w] & -> & Hv). cbn in Hm.
    assert (stats d xs !! lat_key d w = Some w) as Hw by (apply (as_map_lookup (H0 := lat_laws d) s); [done|by exists q]).
    specialize (Hh (lat_key d w)). rewrite Hw in Hh. destruct Hh as (_ & _ & Hmax & _). rewrite Hmax in Hm.
    assert (forall ls, b < foldr Z.max 0 ls -> exists z, z ∈ ls /\ b < z) as Hg.
    { intros ls. induction ls as [|z ls IH]; cbn; [lia|]. intros Hz. destruct (Z.lt_ge_cases b z); [exists z; split; [by left|done]|].
      destruct IH as (z' & Hz' & Hlt); [lia|]. exists z'. split; [by right|done]. }
    destruct (Hg (i_lat <$> filter (fun x => input_key d x = lat_key d w) l)) as (z & Hz & Hlt); [lia|].
    apply list_elem_of_fmap in Hz as (x & -> & Hx). apply list_elem_of_filter in Hx as [_ Hx].
    exists x. split; [by apply list_elem_of_In|lia].
  - intros (x & Hx & Hlt). apply list_elem_of_In in Hx. specialize (Hh (input_key d x)).
    assert (x ∈ filter (fun y => input_key d y = input_key d x) l) as Hin by by apply list_elem_of_filter.
    destruct (stats d xs !! input_key d x) as [v|] eqn:Ev; [|cbn in Hh; rewrite Hh in Hin; by apply elem_of_nil in Hin].
    apply (as_map_lookup (H0 := lat_laws d) s) in Ev as (q & Hq & _); [|done]. exists v. split.
    + apply list_elem_of_In, list_elem_of_fmap. by exists (q, v).
    + destruct Hh as (_ & _ & -> & _). assert (forall ls z, z ∈ ls -> z <= foldr Z.max 0 ls) as Hg.
      { intros ls z Hz. induction Hz as [|y ls ? ? IH]; cbn; lia. }
      specialize (Hg (i_lat <$> filter (fun y => input_key d y = input_key d x) l) (i_lat x)).
      assert (i_lat x <= foldr Z.max 0 (i_lat <$> filter (fun y => input_key d y = input_key d x) l)); [|lia].
      apply Hg, list_elem_of_fmap. by exists x.
Qed.

(** ** Properties *)

(** C27: After any inputs to a new structure, their nodes in memory of their own, the node
    found for an instance and a key has the statistics of the inputs with them - the least
    and the greatest latency, and in 64 bits their number, their sum and how many exceeded
    the threshold given with them, and the digest of them in order -, there is none for
    other instances and keys, and [latency_dist_greater_than] tells whether some latency
    exceeded a bound. *)
Theorem latency_statistics d l :
  NoDup (fst ∘ mem <$> l) -> Forall (fun x => addr (mem x).1) l -> Z.of_nat (length l) < 2 ^ 32 ->
  exists s, feed (Some (start d)) l = Some (Some (LatencyDist s 1 d)) /\
    (forall i k, exists p, latency_dist_find (Some (LatencyDist s 1 d)) i k = Some p /\
       statistics d (filter (fun x => input_key d x = mask d i 0 k) l) (contents s !! p)) /\
    forall b, 0 <= b ->
      latency_dist_greater_than (Some (LatencyDist s 1 d)) b = Some (existsb (fun x => b <? i_lat x) l).
Proof.
  intros Hd Ha Hn. destruct (lats_fed d l Hd Ha) as (s & xs & E & Hl & Hsub & Hh). exists s. split; [done|].
  pose proof (lists_nodup (H0 := lat_laws d) _ _ Hl) as Hnd. split.
  - by apply (lats_found d l s 1 xs).
  - intros b Hb. assert (length xs <= length l)%nat as Hlen.
    { rewrite <- (length_fmap fst xs), <- (length_fmap (fst ∘ mem) l). by apply submseteq_length, NoDup_submseteq. }
    unfold latency_dist_greater_than. cbn [lat]. rewrite (lists_nonempty (H0 := lat_laws d) s xs Hl) by lia.
    assert (existsb (fun v => b <? max v) xs.*2 = existsb (fun x => b <? i_lat x) l) as Hex by by apply (exists_latency d l s xs).
    case_bool_decide as Hx; [subst xs; by rewrite <- Hex|]. rewrite (lists_size (H0 := lat_laws d) _ _ Hl), (lists_leftmost (H0 := lat_laws d) _ _ Hl).
    rewrite (greater_loop_ok d s b xs []) by (done || lia). by rewrite Hex.
Qed.

(** C28: The reports give every node once and leave the list empty: [latency_dist_print] in
    ascending order of instance and key; [latency_dist_print_sorted], which moves the
    nodes one by one to a second list and reports that, in ascending order of instance, in
    an instance by descending sum, with the same sum by key - no node is lost on the way
    for comparing equal. *)
Theorem latency_reports d s r xs :
  listed d s xs -> Z.of_nat (length xs) < 2 ^ 32 ->
  (exists s', latency_dist_print (Some (LatencyDist s r d)) = Some (xs.*2, Some (LatencyDist s' r d)) /\
     listed d s' [] /\ StronglySorted (fun v w => triple_lt (lat_key d v) (lat_key d w)) xs.*2) /\
  (exists s' vs, latency_dist_print_sorted (Some (LatencyDist s r d)) = Some (vs, Some (LatencyDist s' r d)) /\
     listed d s' [] /\ vs ≡ₚ xs.*2 /\ StronglySorted (fun v w => triple_lt (sort_key d v) (sort_key d w)) vs).
Proof.
  intros Hl Hn. pose proof (keys_sorted (H0 := lat_laws d) s xs Hl) as Hsort.
  unfold latency_dist_print, latency_dist_print_sorted. cbn [lat ref shape].
  rewrite (lists_nonempty (H0 := lat_laws d) s xs Hl) by lia. case_bool_decide as Hx.
  { subst xs. split; [exists s|exists s, []]; repeat (split; [done|]); [done|constructor]. }
  split.
  - destruct (print_list_ok (H0 := lat_laws d) xs s Hl) as (s' & -> & Hs'). by exists s'.
  - destruct (sorted_all (L1 := lat_laws d) (L2 := sorted_laws d) (fun v => conj eq_refl eq_refl) xs s rblist__init)
      as (s' & sorted & zs & -> & H1 & H2 & H3); [done|apply (new_sorted d)|done|done| |].
    { pose proof (lists_keys_nodup (H0 := lat_laws d) s xs Hl) as Hk. unfold by_key in Hk.
      apply (NoDup_fmap_1 (fun t : triple => (t.1.1, 0, t.2))). rewrite <- !list_fmap_compose in *. exact Hk. }
    cbn [mbind option_bind]. destruct (print_list_ok (H0 := sorted_laws d) zs sorted H2) as (s2 & -> & _).
    exists s', zs.*2. split; [done|]. split; [done|]. split; [by rewrite H3|].
    apply (keys_sorted (H0 := sorted_laws d) sorted zs H2).
Qed.
End latency.

(** ** An example

    The digest is the list of the latencies; three latencies of one instance and one of
    another. *)

Definition ex_kind : kind := Kind true false true 0.
Definition ex_inputs : list input :=
  (fun x => Input (x.1.1, Node 0 0 0) x.1.2 7 x.2 25) <$> [(8, 5, 10); (16, 5, 40); (24, 2, 70); (32, 5, 30)].

Lemma latency_statistics_witness : exists s,
  feed [] (fun t x => x :: t) (Some (start ex_kind)) ex_inputs = Some (Some (LatencyDist s 1 ex_kind)) /\
  latency_dist_find [] (Some (LatencyDist s 1 ex_kind)) 5 0 = Some 8 /\
  contents s !! 8 = Some (LatencyNode (Some [30; 40; 10]) 5 7 10 40 3 2 80 []) /\
  latency_dist_greater_than (Some (LatencyDist s 1 ex_kind)) 70 = Some false.
Proof.
  destruct (latency_statistics [] (fun t x => x :: t) ex_kind ex_inputs) as (s & E & _ & Hg).
  - apply (bool_decide_unpack _). by vm_compute.
  - repeat constructor; cbn; lia.
  - cbn. lia.
  - exists s. split; [exact E|]. specialize (Hg 70 ltac:(lia)). split; [|split; [|exact Hg]];
      vm_compute in E; injection E as <-; by vm_compute.
Defined.

Lemma latency_reports_witness : exists s vs d',
  feed [] (fun t x => x :: t) (Some (start ex_kind)) ex_inputs = Some (Some (LatencyDist s 1 ex_kind)) /\
  latency_dist_print_sorted (Some (LatencyDist s 1 ex_kind)) = Some (vs, d') /\ sum <$> vs = [70; 80].
Proof.
  destruct (lats_fed [] (fun t x => x :: t) ex_kind ex_inputs) as (s & xs & E & Hl & _).
  - apply (bool_decide_unpack _). by vm_compute.
  - repeat constructor; cbn; lia.
  - destruct (latency_reports [] (fun t x => x :: t) ex_kind s 1 xs Hl) as [_ (s' & vs & Hp & _)].
    + assert (size (nodes (rb_root (entries s))) = 2%nat) as Hz by (vm_compute in E; injection E as <-; by vm_compute).
      rewrite (lists_size (H0 := lat_laws [] ex_kind) _ _ Hl) in Hz. lia.
    + exists s, vs, (Some (LatencyDist s' 1 ex_kind)). split; [exact E|]. split; [exact Hp|].
      vm_compute in E. injection E as <-. vm_compute in Hp. by injection Hp as <- <-.
Defined.
