(* ===== verification/MultiTrace.v ===== *)
(** * Pairing events (multi-trace.c)

    Each sampled event looks for the event before it with the same key, which was backed
    up, and reports the two to a class of pairs; with details wanted, all events are kept
    on a timeline until nothing needs them.  The nodes are in one memory by address, the
    sorted lists (rblist.c, see [RbList]) are the lists of addresses they refine, searched
    with the source's comparisons.  What the classes do with pairs is a log; [None] is a
    bad address or an exhausted fuel. *)

From S2P Require Import Prelude.

(** ** Data *)

(** The attributes of an event on the command line; its number stands for its address. *)
Record tp := Tp { tp_id : Z; evsel : Z; untraced : bool; is_dev : bool }.

(** A record and the size in its header. *)
Record event := Event { event_id : Z; event_size : Z }.

Record timeline_node := TimelineNode {
  time : Z;
  key : Z;
  node_tp : tp;
  node_tp1 : option tp;
  unneeded : bool;
  need_find_prev : bool;
  need_backup : bool;
  need_remove_from_backup : bool;
  maybe_unpaired : bool;
  ins : Z;
  seq : Z;
  node_event : event;
  key_node_empty : bool
}.

Record timeline_stat := TimelineStat {
  st_new : Z;
  st_delete : Z;
  st_unneeded : Z;
  st_pending : Z;
  mem_bytes : Z;
  unneeded_bytes : Z;
  pending_bytes : Z
}.

Record lost_node := LostNode { lost_ins : Z; reclaimed : bool; start_time : Z; end_time : Z }.

Inductive remaining_reason := REMAINING_LOST | REMAINING_SYSCALLS | REMAINING_EXIT.

(** What the class is called with: the number of the first event's attributes and of the
    second's, the events with their times, the key, and where the iteration on the
    timeline starts, if there is one. *)
Inductive call :=
  | Two (tp1 : Z) (tp2 : option Z) (event1 : event) (time1 : Z) (event2 : option event) (time2 : Z) (k : Z)
      (iter : option Z)
  | Remaining (tp1 : Z) (event1 : event) (time1 k recent : Z) (rr : remaining_reason) (iter : option Z)
  | Interval.

(** [backup_stat] counts what is backed up without a timeline. *)
Record ctx := Ctx {
  nodes : gmap Z timeline_node;
  backup : list Z;
  timeline : list Z;
  perins_list : gmap Z (list Z);
  needed_list : list Z;
  pending_list : list Z;
  recent_time : Z;
  event_handled : Z;
  tl_stat : timeline_stat;
  backup_stat : timeline_stat;
  timeline_lost_list : list lost_node;
  perins_lost_list : gmap Z (list lost_node);
  log : list call
}.

(** The options. *)
Record config := Config {
  need_timeline : bool;
  nested : bool;
  impl_based_on_call : bool;
  lost_affect_all : bool;
  using_order : bool;
  before_event1 : Z;
  after_event2 : Z;
  greater_than : Z;
  cycle : bool;
  tp_list : list (list tp);
  extra_evsel : option Z
}.

(** ** Writes *)

Definition set_nodes m s := Ctx m (backup s) (timeline s) (perins_list s) (needed_list s) (pending_list s)
  (recent_time s) (event_handled s) (tl_stat s) (backup_stat s) (timeline_lost_list s) (perins_lost_list s) (log s).
Definition set_backup l s := Ctx (nodes s) l (timeline s) (perins_list s) (needed_list s) (pending_list s)
  (recent_time s) (event_handled s) (tl_stat s) (backup_stat s) (timeline_lost_list s) (perins_lost_list s) (log s).
Definition set_timeline l s := Ctx (nodes s) (backup s) l (perins_list s) (needed_list s) (pending_list s)
  (recent_time s) (event_handled s) (tl_stat s) (backup_stat s) (timeline_lost_list s) (perins_lost_list s) (log s).
Definition set_perins i l s := Ctx (nodes s) (backup s) (timeline s) (<[i := l]> (perins_list s)) (needed_list s)
  (pending_list s) (recent_time s) (event_handled s) (tl_stat s) (backup_stat s) (timeline_lost_list s)
  (perins_lost_list s) (log s).
Definition set_needed l s := Ctx (nodes s) (backup s) (timeline s) (perins_list s) l (pending_list s)
  (recent_time s) (event_handled s) (tl_stat s) (backup_stat s) (timeline_lost_list s) (perins_lost_list s) (log s).
Definition set_pending l s := Ctx (nodes s) (backup s) (timeline s) (perins_list s) (needed_list s) l
  (recent_time s) (event_handled s) (tl_stat s) (backup_stat s) (timeline_lost_list s) (perins_lost_list s) (log s).
Definition set_recent t s := Ctx (nodes s) (backup s) (timeline s) (perins_list s) (needed_list s) (pending_list s)
  t (event_handled s) (tl_stat s) (backup_stat s) (timeline_lost_list s) (perins_lost_list s) (log s).
Definition set_handled n s := Ctx (nodes s) (backup s) (timeline s) (perins_list s) (needed_list s) (pending_list s)
  (recent_time s) n (tl_stat s) (backup_stat s) (timeline_lost_list s) (perins_lost_list s) (log s).
Definition set_tl_stat st s := Ctx (nodes s) (backup s) (timeline s) (perins_list s) (needed_list s) (pending_list s)
  (recent_time s) (event_handled s) st (backup_stat s) (timeline_lost_list s) (perins_lost_list s) (log s).
Definition set_backup_stat st s := Ctx (nodes s) (backup s) (timeline s) (perins_list s) (needed_list s)
  (pending_list s) (recent_time s) (event_handled s) (tl_stat s) st (timeline_lost_list s) (perins_lost_list s) (log s).
Definition set_lost_all l s := Ctx (nodes s) (backup s) (timeline s) (perins_list s) (needed_list s) (pending_list s)
  (recent_time s) (event_handled s) (tl_stat s) (backup_stat s) l (perins_lost_list s) (log s).
Definition set_lost_ins i l s := Ctx (nodes s) (backup s) (timeline s) (perins_list s) (needed_list s)
  (pending_list s) (recent_time s) (event_handled s) (tl_stat s) (backup_stat s) (timeline_lost_list s)
  (<[i := l]> (perins_lost_list s)) (log s).
Definition add_log c s := Ctx (nodes s) (backup s) (timeline s) (perins_list s) (needed_list s) (pending_list s)
  (recent_time s) (event_handled s) (tl_stat s) (backup_stat s) (timeline_lost_list s) (perins_lost_list s)
  (log s ++ [c]).

Definition with_node (p : Z) (f : timeline_node -> timeline_node) (s : ctx) : option ctx :=
  n ← nodes s !! p; Some (set_nodes (<[p := f n]> (nodes s)) s).

Definition set_unneeded b n := TimelineNode (time n) (key n) (node_tp n) (node_tp1 n) b (need_find_prev n)
  (need_backup n) (need_remove_from_backup n) (maybe_unpaired n) (ins n) (seq n) (node_event n) (key_node_empty n).
Definition set_need_find_prev b n := TimelineNode (time n) (key n) (node_tp n) (node_tp1 n) (unneeded n) b
  (need_backup n) (need_remove_from_backup n) (maybe_unpaired n) (ins n) (seq n) (node_event n) (key_node_empty n).
Definition set_need_backup b n := TimelineNode (time n) (key n) (node_tp n) (node_tp1 n) (unneeded n)
  (need_find_prev n) b (need_remove_from_backup n) (maybe_unpaired n) (ins n) (seq n) (node_event n) (key_node_empty n).
Definition set_maybe_unpaired b n := TimelineNode (time n) (key n) (node_tp n) (node_tp1 n) (unneeded n)
  (need_find_prev n) (need_backup n) (need_remove_from_backup n) b (ins n) (seq n) (node_event n) (key_node_empty n).
Definition set_key_node b n := TimelineNode (time n) (key n) (node_tp n) (node_tp1 n) (unneeded n)
  (need_find_prev n) (need_backup n) (need_remove_from_backup n) (maybe_unpaired n) (ins n) (seq n) (node_event n) b.

(** The counters, in 64 bits. *)
Definition count_new (st : timeline_stat) (bytes : Z) :=
  TimelineStat (u64 (st_new st + 1)) (st_delete st) (st_unneeded st) (st_pending st) (u64 (mem_bytes st + bytes))
    (unneeded_bytes st) (pending_bytes st).
Definition count_delete (st : timeline_stat) (bytes : Z) :=
  TimelineStat (st_new st) (u64 (st_delete st + 1)) (st_unneeded st) (st_pending st) (u64 (mem_bytes st - bytes))
    (unneeded_bytes st) (pending_bytes st).
Definition count_unneeded (d bytes : Z) (st : timeline_stat) :=
  TimelineStat (st_new st) (st_delete st) (u64 (st_unneeded st + d)) (st_pending st) (mem_bytes st)
    (u64 (unneeded_bytes st + d * bytes)) (pending_bytes st).
Definition count_pending (d bytes : Z) (st : timeline_stat) :=
  TimelineStat (st_new st) (st_delete st) (st_unneeded st) (u64 (st_pending st + d)) (mem_bytes st)
    (unneeded_bytes st) (u64 (pending_bytes st + d * bytes)).
Definition one_unneeded (n : timeline_node) (s : ctx) : ctx :=
  set_tl_stat (count_unneeded 1 (event_size (node_event n)) (tl_stat s)) s.

(** The pairs [multi_trace_init] makes objects of: those of neighbouring lists, and each
    event1 alone for what remains. *)
Definition traced (l : list tp) : list tp := filter (fun t => negb (is_dev t) && negb (untraced t)) l.
Definition class_pairs (cfg : config) : list (Z * option Z) := (
  let n := length (tp_list cfg) in
  k ← List.seq 0 (n - if cycle cfg then 0 else 1);
  tp1 ← traced (default [] (tp_list cfg !! k));
  (tp_id tp1, None) :: ((fun t => (tp_id tp1, Some (tp_id t))) <$> traced (default [] (tp_list cfg !! (S k mod n)))))%nat.

(** Where [monitor_ctx_init] starts, with so many instances. *)
Definition per_ins (A : Type) (nr_ins : nat) : gmap Z (list A) := list_to_map ((fun i => (Z.of_nat i, [])) <$> List.seq 0 nr_ins).
Definition ctx_init (nr_ins : nat) : ctx :=
  Ctx ∅ [] [] (per_ins Z nr_ins) [] [] 0 0 (TimelineStat 0 0 0 0 0 0 0) (TimelineStat 0 0 0 0 0 0 0) []
    (per_ins lost_node nr_ins) [].

Section multi_trace.
(** The options, the pairs of the class, whether its [remaining] goes on, the key of an
    instance. *)
Context (cfg : config) (object_find : Z -> option Z -> bool) (go_on : call -> bool) (ins_key : Z -> Z).

(** ** The sorted lists *)

Definition perf_event_backup_node_cmp (b e : timeline_node) : Z :=
  if key e <? key b then 1 else if key b <? key e then -1 else 0.
Definition nested_perf_event_backup_node_cmp (b e : timeline_node) : Z :=
  if key e <? key b then 1 else if key b <? key e then -1
  else if time e <? time b then -1 else if time b <? time e then 1 else 0.
Definition backup_cmp : timeline_node -> timeline_node -> Z :=
  if nested cfg then nested_perf_event_backup_node_cmp else perf_event_backup_node_cmp.
Definition timeline_node_cmp (b e : timeline_node) : Z :=
  if time e <? time b then 1 else if time b <? time e then -1
  else if key e <? key b then 1 else if key b <? key e then -1
  else if seq e <? seq b then 1 else if seq b <? seq e then -1 else 0.

(** Where an entry is, or where a node for it goes: the addresses before it and from it
    on, and whether the first of these compares equal. *)
Fixpoint place (cmp : timeline_node -> timeline_node -> Z) (m : gmap Z timeline_node) (e : timeline_node) (l : list Z)
  : option (list Z * list Z * bool) :=
  match l with
  | [] => Some ([], [], false)
  | q :: l' =>
      n ← m !! q;
      if cmp n e <? 0 then '(a, b, eq) ← place cmp m e l'; Some (q :: a, b, eq)
      else Some ([], l, cmp n e =? 0)
  end.

(** [rblist__find_first], which compares the first node whether there is one or not. *)
Definition find_first cmp (m : gmap Z timeline_node) (e : timeline_node) (l : list Z) : option (option Z) :=
  match l with [] => None | _ => '(_, b, _) ← place cmp m e l; Some (head b) end.

(** ** Backing up *)

(** The node of the backup: the node of the timeline, or a copy in new memory. *)
Definition perf_event_backup_node_new (mem : option Z) (p : Z) (s : ctx) : option (option Z * ctx) :=
  n ← nodes s !! p;
  if need_timeline cfg then
    s ← with_node p (set_key_node true) (set_needed (needed_list s ++ [p]) s); Some (Some p, s)
  else
    match mem with
    | None => Some (None, s)
    | Some q =>
        let b := TimelineNode (time n) (key n) (node_tp n) (node_tp1 n) false (need_find_prev n) (need_backup n)
                   (need_remove_from_backup n) false (ins n) (seq n) (node_event n) true in
        l ← perins_list s !! ins n;
        let s := set_perins (ins n) (l ++ [q]) (set_nodes (<[q := b]> (nodes s)) s) in
        Some (Some q, set_backup_stat (count_new (backup_stat s) (event_size (node_event n))) s)
    end.

Definition perf_event_backup_node_delete (p : Z) (s : ctx) : option ctx :=
  n ← nodes s !! p;
  if need_timeline cfg then
    s ← with_node p (set_unneeded true) s;
    Some (one_unneeded n (set_needed (filter (fun q => q <> p) (needed_list s)) s))
  else
    l ← perins_list s !! ins n;
    let s := set_perins (ins n) (filter (fun q => q <> p) l) s in
    let s := set_backup_stat (count_delete (backup_stat s) (event_size (node_event n))) s in
    Some (set_nodes (delete p (nodes s)) s).

(** [rblist__findnew] on the backup: the node, and whether it is new. *)
Definition backup_findnew (mem : option Z) (p : Z) (s : ctx) : option (option (Z * bool) * ctx) :=
  e ← nodes s !! p;
  '(a, b, eq) ← place backup_cmp (nodes s) e (backup s);
  if (eq : bool) then q ← head b; Some (Some (q, false), s)
  else
    '(new, s) ← perf_event_backup_node_new mem p s;
    match new with
    | None => Some (None, s)
    | Some q =>
        s ← with_node q (set_key_node false) (set_backup (a ++ q :: b) s);
        Some (Some (q, true), s)
    end.

Definition backup_remove (p : Z) (s : ctx) : option ctx :=
  if bool_decide (p ∈ backup s) then
    perf_event_backup_node_delete p (set_backup (filter (fun q => q <> p) (backup s)) s)
  else None.

Fixpoint backup_exit (l : list Z) (s : ctx) : option ctx :=
  match l with [] => Some s | p :: l => s ← backup_remove p s; backup_exit l s end.

(** ** The timeline *)

Definition timeline_node_new (p : Z) (e : timeline_node) (s : ctx) : ctx :=
  let size := event_size (node_event e) in
  let b := TimelineNode (time e) (key e) (node_tp e) (node_tp1 e) (if untraced (node_tp e) then unneeded e else false)
             (need_find_prev e) (need_backup e) (need_remove_from_backup e) false (ins e) (seq e) (node_event e) true in
  let s := set_nodes (<[p := b]> (nodes s)) s in
  let s := if untraced (node_tp e) then s
           else set_tl_stat (count_pending 1 size (tl_stat s)) (set_pending (pending_list s ++ [p]) s) in
  let s := set_tl_stat (count_new (tl_stat s) size) s in
  if unneeded b then one_unneeded b s else s.

Definition EEXIST : Z := 17.
Definition ENOMEM : Z := 12.
(** [rblist__add_node] on the timeline. *)
Definition timeline_add (mem : option Z) (e : timeline_node) (s : ctx) : option (Z * ctx) :=
  '(a, b, eq) ← place timeline_node_cmp (nodes s) e (timeline s);
  if (eq : bool) then Some (- EEXIST, s)
  else
    match mem with
    | None => Some (- ENOMEM, s)
    | Some p => Some (0, set_timeline (a ++ p :: b) (timeline_node_new p e s))
    end.

Definition timeline_node_delete (p : Z) (s : ctx) : option ctx :=
  n ← nodes s !! p;
  let s := set_needed (filter (fun q => q <> p) (needed_list s)) (set_pending (filter (fun q => q <> p) (pending_list s)) s) in
  let s := set_tl_stat (count_delete (tl_stat s) (event_size (node_event n))) s in
  let s := if unneeded n then set_tl_stat (count_unneeded (-1) (event_size (node_event n)) (tl_stat s)) s else s in
  Some (set_nodes (delete p (nodes s)) s).

Definition timeline_remove (p : Z) (s : ctx) : option ctx :=
  if bool_decide (p ∈ timeline s) then
    timeline_node_delete p (set_timeline (filter (fun q => q <> p) (timeline s)) s)
  else None.

(** Up to which time events of the timeline are not needed before the first event1. *)
Definition unneeded_before (s : ctx) : option Z :=
  if before_event1 cfg =? 0 then Some 0
  else
    let needed_first := match head (needed_list s) with
                        | Some p => Some p
                        | None => match head (pending_list s) with Some p => Some p | None => last (timeline s) end
                        end in
    match needed_first with
    | None => Some 0
    | Some p => n ← nodes s !! p; Some (if before_event1 cfg <? time n then time n - before_event1 cfg else 0)
    end.

Fixpoint free_loop (fuel : nat) (before : Z) (s : ctx) : option ctx :=
  match fuel with
  | O => None
  | S fuel =>
      match head (timeline s) with
      | None => Some s
      | Some p =>
          n ← nodes s !! p;
          if ((before =? 0) && unneeded n) || (time n <? before) then
            s ← (if negb (unneeded n) && negb (key_node_empty n) then backup_remove p s else Some s);
            s ← timeline_remove p s;
            free_loop fuel before s
          else Some s
      end
  end.
Definition timeline_free_unneeded (s : ctx) : option ctx :=
  before ← unneeded_before s; free_loop (S (length (timeline s))) before s.

(** ** Iterating on the timeline *)

(** The first event of the timeline from [before_event1] before an event on. *)
Definition iter_start (n : timeline_node) (p : Z) (s : ctx) : option (option Z) :=
  if before_event1 cfg =? 0 then Some (Some p)
  else
    let e := TimelineNode (u64 (time n - before_event1 cfg)) (key n) (node_tp n) None false false false false false 0 0
               (node_event n) true in
    find_first timeline_node_cmp (nodes s) e (timeline s).

(** ** What remains *)

Definition multi_trace_call_remaining (p : Z) (rr : remaining_reason) (s : ctx) : option (bool * ctx) :=
  left ← nodes s !! p;
  if object_find (tp_id (node_tp left)) None then
    iter ← (if need_timeline cfg then iter_start left p s else Some None);
    s ← (if greater_than cfg <? u64 (recent_time s - time left) then with_node p (set_maybe_unpaired true) s else Some s);
    let c := Remaining (tp_id (node_tp left)) (node_event left) (time left) (key left) (recent_time s) rr iter in
    Some (go_on c, add_log c s)
  else Some (true, s).

Fixpoint remaining_loop (l : list Z) (rr : remaining_reason) (s : ctx) : option ctx :=
  match l with
  | [] => Some s
  | p :: l =>
      '(continue, s) ← multi_trace_call_remaining p rr s;
      if (continue : bool) then remaining_loop l rr s else Some s
  end.
Definition multi_trace_handle_remaining (rr : remaining_reason) (s : ctx) : option ctx :=
  remaining_loop (backup s) rr s.

(** The nodes of the backup with a key are next to each other. *)
Definition matches (k : Z) (s : ctx) : list Z :=
  filter (fun p => key <$> nodes s !! p = Some k) (backup s).

Fixpoint reclaim_loop (l : list Z) (rr : remaining_reason) (remaining : bool) (s : ctx) : option ctx :=
  match l with
  | [] => Some s
  | p :: l =>
      '(remaining, s) ← (if remaining : bool then multi_trace_call_remaining p rr s else Some (false, s));
      s ← backup_remove p s;
      reclaim_loop l rr remaining s
  end.
Definition reclaim (k : Z) (rr : remaining_reason) (s : ctx) : option ctx := reclaim_loop (matches k s) rr true s.

(** ** Lost events *)

Definition lost_reclaim (i : Z) (s : ctx) : option ctx :=
  if lost_affect_all cfg then
    s ← multi_trace_handle_remaining REMAINING_LOST s;
    backup_exit (backup s) s
  else reclaim (ins_key i) REMAINING_LOST s.

Fixpoint lost_insert (new : lost_node) (l : list lost_node) : list lost_node :=
  match l with
  | [] => [new]
  | pos :: l' => if start_time new <? start_time pos then new :: l else pos :: lost_insert new l'
  end.
(** [mem] says whether there is memory for the node of the lost events. *)
Definition multi_trace_lost (mem : bool) (i lost_start lost_end : Z) (s : ctx) : option ctx :=
  if negb (using_order cfg) && (after_event2 cfg =? 0) then
    s ← lost_reclaim i s;
    if need_timeline cfg then timeline_free_unneeded s else Some s
  else if mem then
    let new := LostNode i false lost_start lost_end in
    if lost_affect_all cfg then Some (set_lost_all (lost_insert new (timeline_lost_list s)) s)
    else l ← perins_lost_list s !! i; Some (set_lost_ins i (l ++ [new]) s)
  else Some s.

(** An event that is not backed up any more. *)
Definition drop_backup (p : Z) (s : ctx) : option ctx :=
  n ← nodes s !! p;
  if need_backup n then
    s ← with_node p (fun n => set_unneeded true (set_need_backup false n)) s; Some (one_unneeded n s)
  else Some s.

(** The loop over the lost events; what is left of the list. *)
Fixpoint lost_loop (l : list lost_node) (p : Z) (s : ctx) : option (list lost_node * ctx) :=
  match l with
  | [] => Some ([], s)
  | lost :: rest =>
      n ← nodes s !! p;
      if time n <? start_time lost then Some (l, s)
      else if time n =? start_time lost then s ← drop_backup p s; Some (l, s)
      else
        s ← (if reclaimed lost then Some s
             else
               let recent := recent_time s in
               s ← lost_reclaim (ins n) (set_recent (start_time lost) s);
               Some (set_recent recent s));
        if time n <? end_time lost then
          s ← with_node p (set_need_find_prev false) s;
          s ← drop_backup p s;
          Some (LostNode (lost_ins lost) true (start_time lost) (end_time lost) :: rest, s)
        else lost_loop rest p s
  end.
Definition multi_trace_event_lost (p : Z) (s : ctx) : option ctx :=
  n ← nodes s !! p;
  if lost_affect_all cfg then
    '(l, s) ← lost_loop (timeline_lost_list s) p s; Some (set_lost_all l s)
  else
    l ← perins_lost_list s !! ins n;
    '(l, s) ← lost_loop l p s;
    Some (set_lost_ins (ins n) l s).

(** ** Pairing *)

(** The first node of the backup with the key, of the given attributes if any. *)
Definition is_tp (m : gmap Z timeline_node) (t : option tp) (p : Z) : bool :=
  match t with
  | None => true
  | Some t => match m !! p with Some n => tp_id (node_tp n) =? tp_id t | None => false end
  end.
Definition multi_trace_find_prev (k : Z) (t : option tp) (s : ctx) : option Z :=
  head (filter (is_tp (nodes s) t) (matches k s)).

(** Whether something on the timeline got free. *)
Definition multi_trace_tryto_call_two (p : Z) (need_free : bool) (s : ctx) : option (bool * ctx) :=
  tl_event ← nodes s !! p;
  if need_find_prev tl_event then
    match multi_trace_find_prev (key tl_event) (node_tp1 tl_event) s with
    | Some q =>
        s ← with_node q (set_maybe_unpaired false) s;
        prev ← nodes s !! q;
        s ← (if object_find (tp_id (node_tp prev)) (Some (tp_id (node_tp tl_event))) && (time prev <? time tl_event) then
               iter ← (if need_timeline cfg then iter_start prev q s else Some None);
               Some (add_log (Two (tp_id (node_tp prev)) (Some (tp_id (node_tp tl_event))) (node_event prev) (time prev)
                       (Some (node_event tl_event)) (time tl_event) (key tl_event) iter) s)
             else Some s);
        if need_remove_from_backup tl_event then s ← backup_remove q s; Some (true, s) else Some (need_free, s)
    | None =>
        if impl_based_on_call cfg && object_find (tp_id (node_tp tl_event)) None then
          Some (need_free, add_log (Two (tp_id (node_tp tl_event)) None (node_event tl_event) (time tl_event) None 0
                  (key tl_event) None) s)
        else Some (need_free, s)
    end
  else Some (need_free, s).

(** Whether it was backed up, and whether something on the timeline got free.  An event
    with the same key is taken out first, then the search starts again. *)
Fixpoint backup_retry (fuel : nat) (mem : option Z) (p : Z) (need_free : bool) (s : ctx) : option (bool * bool * ctx) :=
  match fuel with
  | O => None
  | S fuel =>
      '(found, s) ← backup_findnew mem p s;
      tl_event ← nodes s !! p;
      match found with
      | Some (q, true) => Some (true, need_free, s)
      | Some (q, false) =>
          exist ← nodes s !! q;
          if time tl_event <? time exist then
            s ← with_node p (set_unneeded true) s; Some (false, true, one_unneeded tl_event s)
          else s ← backup_remove q s; backup_retry fuel mem p true s
      | None => s ← with_node p (set_unneeded true) s; Some (false, true, one_unneeded tl_event s)
      end
  end.
Definition multi_trace_tryto_backup (mem : option Z) (p : Z) (need_free : bool) (s : ctx) : option (bool * bool * ctx) :=
  tl_event ← nodes s !! p;
  if need_backup tl_event then backup_retry (S (S (length (backup s)))) mem p need_free s else Some (false, true, s).

Definition multi_trace_first_pending (tail : option timeline_node) (s : ctx) : option (option Z * ctx) :=
  match pending_list s with
  | [] => Some (None, s)
  | p :: rest =>
      first ← nodes s !! p;
      let deadline := match tail with
                      | Some tail => if after_event2 cfg =? 0 then U64_MAX else u64 (time tail - after_event2 cfg)
                      | None => U64_MAX
                      end in
      if time first <=? deadline then
        s ← with_node p (fun n => set_unneeded (negb (need_backup n)) n) (set_pending rest s);
        let s := set_tl_stat (count_pending (-1) (event_size (node_event first)) (tl_stat s)) s in
        Some (Some p, if need_backup first then s else one_unneeded first s)
      else Some (None, s)
  end.

(** ** Samples *)

(** A sample: its event and its time, whether another device forwarded it, what its fields
    say - the key of the attributes or of the instance, or the process of an exit, its role, and whether a wake-up is
    unnecessary -, and the memory for its node. *)
Record sample := Sample {
  s_event : event;
  s_time : Z;
  s_evsel : Z;
  s_key : Z;
  s_ins : Z;
  as_event1 : bool;
  as_event2 : bool;
  wakeup_unnecessary : bool;
  s_trigger : bool;
  s_mem : option Z
}.

(** The attributes of an event in a list, and those before it that are traced last. *)
Fixpoint find_tp (ev : Z) (tp1 : option tp) (l : list tp) : option (tp * option tp) :=
  match l with
  | [] => None
  | t :: l => if evsel t =? ev then Some (t, tp1) else find_tp ev (if untraced t then tp1 else Some t) l
  end.
Fixpoint find_list (i : Z) (ev : Z) (ls : list (list tp)) : option (Z * tp * option tp) :=
  match ls with
  | [] => None
  | l :: ls => match find_tp ev None l with Some (t, tp1) => Some (i, t, tp1) | None => find_list (i + 1) ev ls end
  end.

(** The node of an event, on the stack. *)
Definition current (x : sample) (i : Z) (t : tp) (tp1 : option tp) (n : Z) : timeline_node :=
  let last := i =? Z.of_nat (length (tp_list cfg)) - 1 in
  let find_prev := if nested cfg then impl_based_on_call cfg || bool_decide (is_Some tp1)
                   else (negb (i =? 0) || cycle cfg) && as_event2 x in
  let backup := if nested cfg then bool_decide (tp1 = None)
                else (if last then cycle cfg else negb (wakeup_unnecessary x)) && as_event1 x in
  let remove := if nested cfg then bool_decide (is_Some tp1) else true in
  TimelineNode (s_time x) (s_key x) t (if nested cfg then tp1 else None) (negb backup || untraced t) find_prev backup
    remove false (s_ins x) n (s_event x) true.

(** The address of [current]. *)
Definition CURRENT : Z := -1.

(** One event that is not pending any more. *)
Definition handle (mem : option Z) (p : Z) (need_free : bool) (s : ctx) : option (bool * bool * ctx) :=
  s ← multi_trace_event_lost p s;
  '(need_free, s) ← multi_trace_tryto_call_two p need_free s;
  multi_trace_tryto_backup mem p need_free s.

Fixpoint pending_loop (fuel : nat) (tail : timeline_node) (need_free : bool) (s : ctx) : option (bool * ctx) :=
  match fuel with
  | O => None
  | S fuel =>
      '(first, s) ← multi_trace_first_pending (Some tail) s;
      match first with
      | None => Some (need_free, s)
      | Some p => '(_, need_free, s) ← handle None p need_free s; pending_loop fuel tail need_free s
      end
  end.

Definition multi_trace_sample (x : sample) (s : ctx) : option ctx :=
  let s := if recent_time s <? s_time x then set_recent (s_time x) s else s in
  match find_list 0 (s_evsel x) (tp_list cfg) with
  | None => if bool_decide (extra_evsel cfg = Some (s_evsel x)) then reclaim (s_key x) REMAINING_SYSCALLS s else Some s
  | Some (i, t, tp1) =>
      let s := if s_trigger x then add_log Interval s else s in
      let cur := current x i t tp1 (event_handled s) in
      let s := set_handled (u64 (event_handled s + 1)) s in
      if need_timeline cfg then
        if bool_decide (timeline s = []) && unneeded cur && (before_event1 cfg =? 0) && (after_event2 cfg =? 0) then Some s
        else
          '(ret, s) ← timeline_add (s_mem x) cur s;
          if negb (ret =? 0) then Some s
          else
            '(need_free, s) ← pending_loop (S (length (pending_list s))) cur (unneeded cur) s;
            if (need_free : bool) then timeline_free_unneeded s else Some s
      else if untraced t then Some s
      else
        let s := set_nodes (<[CURRENT := cur]> (nodes s)) s in
        '(_, _, s) ← handle (s_mem x) CURRENT false s;
        Some (set_nodes (delete CURRENT (nodes s)) s)
  end.

(** ** The end, and the oldest event needed *)

Fixpoint pending_exit (fuel : nat) (s : ctx) : option ctx :=
  match fuel with
  | O => None
  | S fuel =>
      '(first, s) ← multi_trace_first_pending None s;
      match first with None => Some s | Some _ => pending_exit fuel s end
  end.
Fixpoint timeline_exit (l : list Z) (s : ctx) : option ctx :=
  match l with [] => Some s | p :: l => s ← timeline_remove p s; timeline_exit l s end.
Definition multi_trace_flush (s : ctx) : option ctx :=
  s ← multi_trace_handle_remaining REMAINING_EXIT s;
  s ← pending_exit (S (length (pending_list s))) s;
  s ← backup_exit (backup s) s;
  timeline_exit (timeline s) s.

(** The oldest event that may still be reported, of each instance's backups or of the
    timeline; with statistics by instance and command ([perins_comm]) also an interval back. *)
Fixpoint oldest (ls : list (list Z)) (m : gmap Z timeline_node) (node : option timeline_node) : option (option timeline_node) :=
  match ls with
  | [] => Some node
  | l :: ls =>
      tmp ← (match head l with None => Some None | Some p => n ← m !! p; Some (Some n) end);
      oldest ls m (match tmp with
                   | None => node
                   | Some t => match node with Some n => if time t <? time n then tmp else node | None => tmp end
                   end)
  end.
Definition multi_trace_minevtime (lower_than interval : Z) (perins_comm : bool) (s : ctx) : option Z :=
  minevtime ← (if (greater_than cfg =? 0) && (lower_than =? 0) then Some U64_MAX
               else
                 node ← oldest (if need_timeline cfg then [timeline s] else snd <$> map_to_list (perins_list s)) (nodes s) None;
                 Some (match node with Some n => Z.min (time n) U64_MAX | None => U64_MAX end));
  let mintime := if negb (interval =? 0) && (interval * 1000000 <? recent_time s)
                 then recent_time s - interval * 1000000 else 0 in
  Some (if perins_comm && (mintime <? minevtime) then mintime else minevtime).

(** The iteration on the timeline. *)
Inductive event_iter_command := CMD_RESET | CMD_EVENT1 | CMD_EVENT2 | CMD_PREV | CMD_NEXT | CMD_MAX.
Record event_iter := EventIter {
  i_start : option Z;
  i_event1 : option Z;
  i_event2 : option Z;
  i_curr : option Z;
  i_shown : option timeline_node
}.
Fixpoint rb_next_of (p : Z) (l : list Z) : option Z :=
  match l with [] => None | q :: l => if q =? p then head l else rb_next_of p l end.
Definition event_iter_cmd (iter : event_iter) (cmd : event_iter_command) (s : ctx) : option (bool * event_iter) :=
  let at_ c := p ← c; n ← nodes s !! p;
    Some (true, EventIter (i_start iter) (i_event1 iter) (i_event2 iter) (Some p) (Some n)) in
  let move l := match i_curr iter with
                | None => Some (false, iter)
                | Some c =>
                    match rb_next_of c l with
                    | None => Some (false, EventIter (i_start iter) (i_event1 iter) (i_event2 iter) None (i_shown iter))
                    | Some p => at_ (Some p)
                    end
                end in
  match cmd with
  | CMD_RESET => at_ (i_start iter)
  | CMD_EVENT1 => at_ (i_event1 iter)
  | CMD_EVENT2 => at_ (i_event2 iter)
  | CMD_PREV => move (reverse (timeline s))
  | CMD_NEXT => move (timeline s)
  | CMD_MAX => Some (false, iter)
  end.
End multi_trace.
