(* ===== verification/MultiPair.v ===== *)
(** * Which events are paired (multi-trace.c)

    Without a timeline: the form of the backup, and that the pairs reported are the
    neighbours in the sequence of the events with one key. *)

From Stdlib Require Import Sorted.
From S2P Require Import Prelude MultiTrace.

(** ** The backup *)

(** Its nodes in ascending order of their keys. *)
Record backed (s : ctx) (xs : list (Z * timeline_node)) : Prop := {
  b_list : backup s = xs.*1;
  b_nodes : forall p n, (p, n) ∈ xs -> nodes s !! p = Some n;
  b_sorted : StronglySorted (fun a b => key a.2 < key b.2) xs;
  b_perins : forall p n, (p, n) ∈ xs -> is_Some (perins_list s !! ins n);
  b_cur : CURRENT ∉ xs.*1
}.

(** What the operations on the backup leave as it is. *)
Record framed (s s' : ctx) : Prop := {
  f_log : log s' = log s;
  f_recent : recent_time s' = recent_time s;
  f_handled : event_handled s' = event_handled s;
  f_all : timeline_lost_list s' = timeline_lost_list s;
  f_ins : perins_lost_list s' = perins_lost_list s;
  f_perins : forall i, is_Some (perins_list s !! i) -> is_Some (perins_list s' !! i)
}.

Lemma framed_refl s : framed s s.
Proof. by split. Qed.
Lemma framed_trans s1 s2 s3 : framed s1 s2 -> framed s2 s3 -> framed s1 s3.
Proof. intros [] []. split; congruence || auto. Qed.

Lemma backed_unique s ys p n zs : backed s (ys ++ (p, n) :: zs) -> p ∉ (ys ++ zs).*1.
Proof.
  intros Hb Hin. apply list_elem_of_fmap in Hin as ([q n'] & -> & Hin). cbn in *.
  assert (n' = n) as ->.
  { assert (nodes s !! q = Some n') as H1 by (apply (b_nodes _ _ Hb); set_solver).
    assert (nodes s !! q = Some n) as H2 by (apply (b_nodes _ _ Hb); set_solver). congruence. }
  pose proof (b_sorted _ _ Hb) as Hs. apply sorted_app in Hs as (_ & Hs & Hlt). inversion Hs as [|? ? _ Hall]; subst.
  rewrite Forall_forall in Hall. apply elem_of_app in Hin as [Hin|Hin].
  - specialize (Hlt _ (q, n) Hin ltac:(by left)). cbn in Hlt. lia.
  - specialize (Hall _ Hin). cbn in Hall. lia.
Qed.

Lemma filter_out (l1 l2 : list Z) p : p ∉ l1 ++ l2 -> filter (fun q => q <> p) (l1 ++ p :: l2) = l1 ++ l2.
Proof.
  intros Hp. rewrite filter_app, filter_cons, decide_False by by intros [].
  assert (forall l : list Z, p ∉ l -> filter (fun q => q <> p) l = l) as Hall.
  { intros l. induction l as [|x l IH]; [done|]. intros Hx. rewrite filter_cons, decide_True by set_solver.
    f_equal. apply IH. set_solver. }
  rewrite !Hall by set_solver. done.
Qed.

(** The node with a key. *)
Lemma find_prev_ok s xs k : backed s xs ->
  match multi_trace_find_prev k None s with
  | Some q => exists n, (q, n) ∈ xs /\ key n = k
  | None => forall p n, (p, n) ∈ xs -> key n <> k
  end.
Proof.
  intros Hb. unfold multi_trace_find_prev. destruct (filter _ (matches k s)) as [|q l] eqn:E; cbn.
  - intros p n Hp Hk. assert (p ∈ filter (is_tp (nodes s) None) (matches k s)) as Hin; [|rewrite E in Hin; by apply elem_of_nil in Hin].
    apply list_elem_of_filter. split; [done|]. apply list_elem_of_filter. rewrite (b_nodes _ _ Hb _ _ Hp).
    split; [by rewrite <- Hk|]. rewrite (b_list _ _ Hb). apply list_elem_of_fmap. by exists (p, n).
  - assert (q ∈ matches k s) as Hin.
    { assert (q ∈ filter (is_tp (nodes s) None) (matches k s)) as Hin by (rewrite E; by left).
      by apply list_elem_of_filter in Hin as [_ Hin]. }
    apply list_elem_of_filter in Hin as [Hk Hin]. rewrite (b_list _ _ Hb) in Hin.
    apply list_elem_of_fmap in Hin as ([q' n] & -> & Hin). exists n. split; [done|].
    cbn in Hk. rewrite (b_nodes _ _ Hb _ _ Hin) in Hk. by injection Hk.
Qed.

Lemma with_node_ok s ys q n zs f : backed s (ys ++ (q, n) :: zs) -> (forall n, key (f n) = key n /\ ins (f n) = ins n) ->
  exists s', with_node q f s = Some s' /\ backed s' (ys ++ (q, f n) :: zs) /\ framed s s' /\
    nodes s' !! CURRENT = nodes s !! CURRENT /\ nodes s' !! q = Some (f n).
Proof.
  intros Hb Hf. pose proof (backed_unique _ _ _ _ _ Hb) as Hu. destruct (Hf n) as [Hk Hi].
  assert (q <> CURRENT) as Hc by (intros ->; apply (b_cur _ _ Hb); rewrite fmap_app; set_solver).
  unfold with_node. rewrite (b_nodes _ _ Hb q n) by set_solver. eexists. split; [reflexivity|].
  split; [|split; [by split|split; cbn; [by rewrite lookup_insert_ne|by rewrite lookup_insert_eq]]].
  split; cbn.
  - rewrite (b_list _ _ Hb), !fmap_app. done.
  - intros p m Hp. assert ((p, m) ∈ ys ++ zs \/ (p, m) = (q, f n)) as [Hp'|[= -> ->]] by set_solver.
    + rewrite lookup_insert_ne by (intros ->; apply Hu, list_elem_of_fmap; by exists (p, m)). apply (b_nodes _ _ Hb). set_solver.
    + by rewrite lookup_insert_eq.
  - pose proof (b_sorted _ _ Hb) as Hs. apply sorted_app in Hs as (S1 & S2 & S3). inversion S2 as [|? ? S4 S5]; subst.
    apply sorted_app. split; [done|]. split; [constructor; [done|]; cbn; by rewrite Hk|].
    intros a b Ha [->|Hb']%elem_of_cons; [cbn; rewrite Hk; apply (S3 a (q, n)); [done|by left]|apply S3; [done|by right]].
  - intros p m Hp. assert ((p, m) ∈ ys ++ zs \/ (p, m) = (q, f n)) as [Hp'|[= -> ->]] by set_solver.
    + apply (b_perins _ _ Hb p). set_solver.
    + rewrite Hi. apply (b_perins _ _ Hb q). set_solver.
  - pose proof (b_cur _ _ Hb) as Hcur. rewrite fmap_app in Hcur |- *. set_solver.
Qed.

(** The keys are different. *)
Lemma backed_key s ys q n zs x : backed s (ys ++ (q, n) :: zs) -> x ∈ ys ++ zs -> key x.2 <> key n.
Proof.
  intros Hb Hx. pose proof (b_sorted _ _ Hb) as Hs. apply sorted_app in Hs as (_ & Hs & Hlt).
  inversion Hs as [|? ? _ Hall]; subst. rewrite Forall_forall in Hall. apply elem_of_app in Hx as [Hx|Hx].
  - specialize (Hlt x (q, n) Hx ltac:(by left)). cbn in Hlt. lia.
  - specialize (Hall x Hx). cbn in Hall. lia.
Qed.

Lemma without_key s ys q n zs x : backed s (ys ++ (q, n) :: zs) ->
  x ∈ ys ++ zs <-> x ∈ ys ++ (q, n) :: zs /\ key x.2 <> key n.
Proof.
  intros Hb. split; [intros Hx; split; [set_solver|by eapply backed_key]|].
  intros [Hx Hk]. assert (x ∈ ys ++ zs \/ x = (q, n)) as [?| ->] by set_solver; [done|]. by destruct Hk.
Qed.

Lemma backed_cur s xs m : backed s xs -> (forall p, p <> CURRENT -> m !! p = nodes s !! p) -> backed (set_nodes m s) xs.
Proof.
  intros [H1 H2 H3 H4 H5] Hm. split; cbn; try done. intros p n Hp. rewrite Hm; [by apply H2|].
  intros ->. apply H5, list_elem_of_fmap. by exists (CURRENT, n).
Qed.

Lemma per_ins_lookup A (k : nat) i : 0 <= i < Z.of_nat k -> per_ins A k !! i = Some [].
Proof.
  intros Hi. unfold per_ins. apply elem_of_list_to_map_1.
  - rewrite <- list_fmap_compose. apply (NoDup_fmap_2 Z.of_nat), NoDup_seq.
  - apply list_elem_of_fmap. exists (Z.to_nat i). split; [f_equal; lia|]. apply elem_of_seq. lia.
Qed.

Lemma backed_init k : backed (ctx_init k) [].
Proof. split; cbn; [done|by intros ?? ?%elem_of_nil|constructor|by intros ?? ?%elem_of_nil|by intros ?%elem_of_nil]. Qed.

Section backup.
Context (cfg : config) (Htl : need_timeline cfg = false) (Hnested : nested cfg = false).


Lemma place_ok (m : gmap Z timeline_node) e xs : (forall p n, (p, n) ∈ xs -> m !! p = Some n) ->
  StronglySorted (fun a b => key a.2 < key b.2) xs ->
  exists ys zs, xs = ys ++ zs /\ (forall y, y ∈ ys -> key y.2 < key e) /\
    ((exists q n zs', zs = (q, n) :: zs' /\ key n = key e /\ place (backup_cmp cfg) m e xs.*1 = Some (ys.*1, zs.*1, true)) \/
     ((forall z, z ∈ zs -> key e < key z.2) /\ place (backup_cmp cfg) m e xs.*1 = Some (ys.*1, zs.*1, false))).
Proof using Htl Hnested.
  intros Hm Hs. unfold backup_cmp. rewrite Hnested. induction Hs as [|[q n] xs Hs IH Hall].
  { exists [], []. split; [done|]. split; [by intros ? ?%elem_of_nil|]. right. split; [by intros ? ?%elem_of_nil|done]. }
  rewrite Forall_forall in Hall. cbn [fmap list_fmap fst place]. rewrite (Hm q n) by by left. cbn [mbind option_bind].
  destruct (Z.lt_trichotomy (key n) (key e)) as [Hk|[Hk|Hk]].
  - assert (perf_event_backup_node_cmp n e = -1) as -> by (unfold perf_event_backup_node_cmp; repeat case_match; lia).
    destruct IH as (ys & zs & -> & Hy & Hz); [intros; apply Hm; by right|].
    exists ((q, n) :: ys), zs. split; [done|]. split; [intros y [->|Hin]%elem_of_cons; [done|by apply Hy]|].
    destruct Hz as [(q' & n' & zs' & -> & Hk' & E)|[Hz E]].
    + left. exists q', n', zs'. split; [done|]. split; [done|]. cbn. unfold list_fmap in *. by rewrite E.
    + right. split; [done|]. cbn. by rewrite E.
  - assert (perf_event_backup_node_cmp n e = 0) as -> by (unfold perf_event_backup_node_cmp; repeat case_match; lia).
    exists [], ((q, n) :: xs). split; [done|]. split; [by intros ? ?%elem_of_nil|]. left. by exists q, n, xs.
  - assert (perf_event_backup_node_cmp n e = 1) as -> by (unfold perf_event_backup_node_cmp; repeat case_match; lia).
    exists [], ((q, n) :: xs). split; [done|]. split; [by intros ? ?%elem_of_nil|]. right. split; [|done].
    intros z [->|Hz]%elem_of_cons; [done|]. specialize (Hall z Hz). cbn in *. lia.
Qed.

Lemma remove_ok s ys p n zs : backed s (ys ++ (p, n) :: zs) ->
  exists s', backup_remove cfg p s = Some s' /\ backed s' (ys ++ zs) /\ framed s s' /\
    nodes s' !! CURRENT = nodes s !! CURRENT.
Proof using Htl Hnested.
  intros Hb. pose proof (backed_unique _ _ _ _ _ Hb) as Hu. unfold backup_remove.
  rewrite bool_decide_true by (rewrite (b_list _ _ Hb), fmap_app; set_solver).
  unfold perf_event_backup_node_delete. cbn [nodes set_backup]. rewrite (b_nodes _ _ Hb p n) by set_solver.
  cbn [mbind option_bind]. rewrite Htl. cbn [perins_list set_backup].
  destruct (b_perins _ _ Hb p n) as [l Hl]; [set_solver|]. rewrite Hl. cbn [mbind option_bind].
  eexists. split; [reflexivity|]. assert (p <> CURRENT) as Hc by (intros ->; apply (b_cur _ _ Hb); rewrite fmap_app; set_solver).
  split; [|split; [split; cbn; try done|cbn; by rewrite lookup_delete_ne]].
  - split; cbn.
    + rewrite (b_list _ _ Hb), !fmap_app, fmap_cons. cbn. apply filter_out. by rewrite <- fmap_app.
    + intros q m Hq. rewrite lookup_delete_ne; [apply (b_nodes _ _ Hb); set_solver|].
      intros ->. apply Hu, list_elem_of_fmap. by exists (q, m).
    + pose proof (b_sorted _ _ Hb) as Hs. apply sorted_app in Hs as (H1 & H2 & H3). inversion H2; subst.
      apply sorted_app. split; [done|]. split; [done|]. intros; apply H3; [done|by right].
    + intros q m Hq. destruct (decide (ins m = ins n)) as [->|Hne]; [by rewrite lookup_insert_eq|].
      rewrite lookup_insert_ne by done. eapply (b_perins _ _ Hb q). set_solver.
    + pose proof (b_cur _ _ Hb) as Hcur. rewrite fmap_app in Hcur |- *. set_solver.
  - intros i Hi. destruct (decide (i = ins n)) as [->|Hne]; [by rewrite lookup_insert_eq|].
    by rewrite lookup_insert_ne.
Qed.

(** The copy that is backed up. *)
Definition stored (n : timeline_node) : timeline_node :=
  TimelineNode (time n) (key n) (node_tp n) (node_tp1 n) false (need_find_prev n) (need_backup n)
    (need_remove_from_backup n) false (ins n) (seq n) (node_event n) false.

Definition fresh (q : Z) (xs : list (Z * timeline_node)) : Prop := q <> CURRENT /\ q ∉ xs.*1.

Lemma findnew_ok s xs cur q : backed s xs -> nodes s !! CURRENT = Some cur -> is_Some (perins_list s !! ins cur) ->
  fresh q xs ->
  (exists ys p n zs, xs = ys ++ (p, n) :: zs /\ key n = key cur /\
     backup_findnew cfg (Some q) CURRENT s = Some (Some (p, false), s)) \/
  ((forall p n, (p, n) ∈ xs -> key n <> key cur) /\
   exists ys zs s', xs = ys ++ zs /\ backup_findnew cfg (Some q) CURRENT s = Some (Some (q, true), s') /\
     backed s' (ys ++ (q, stored cur) :: zs) /\ framed s s' /\ nodes s' !! CURRENT = Some cur).
Proof using Htl Hnested.
  intros Hb Hcur [l Hl] [Hq1 Hq2]. unfold backup_findnew. rewrite Hcur. cbn [mbind option_bind].
  destruct (place_ok (nodes s) cur xs (b_nodes _ _ Hb) (b_sorted _ _ Hb)) as (ys & zs & -> & Hy & [(p & n & zs' & -> & Hk & E)|[Hz E]]);
    rewrite (b_list _ _ Hb), E; cbn [mbind option_bind].
  - left. by exists ys, p, n, zs'.
  - right. split. { intros p n [Hp|Hp]%elem_of_app Hk; [specialize (Hy _ Hp)|specialize (Hz _ Hp)]; cbn in *; lia. }
    exists ys, zs. unfold perf_event_backup_node_new. rewrite Hcur, Htl. cbn [mbind option_bind]. rewrite Hl. cbn [mbind option_bind].
    unfold with_node. cbn [nodes set_backup set_backup_stat set_perins set_nodes]. rewrite lookup_insert_eq. cbn [mbind option_bind].
    eexists. split; [done|]. split; [reflexivity|]. split; [|split; [split; try done|]]; cbn.
    + split; cbn.
      * rewrite fmap_app. done.
      * intros p n Hp. assert ((p, n) ∈ ys ++ zs \/ (p, n) = (q, stored cur)) as [Hp'|[= -> ->]] by set_solver.
        -- assert (p <> q) by (intros ->; apply Hq2, list_elem_of_fmap; by exists (q, n)).
           rewrite !lookup_insert_ne by done. by apply (b_nodes _ _ Hb).
        -- by rewrite lookup_insert_eq.
      * pose proof (b_sorted _ _ Hb) as Hs. apply sorted_app in Hs as (S1 & S2 & S3). apply sorted_app. split; [done|].
        split; [constructor; [done|]; apply Forall_forall; intros z Hz'; by apply Hz|].
        intros a b Ha [->|Hb']%elem_of_cons; [by apply Hy|by apply S3].
      * intros p n Hp. destruct (decide (ins n = ins cur)) as [->|Hne]; [by rewrite lookup_insert_eq|].
        rewrite lookup_insert_ne by done. assert ((p, n) ∈ ys ++ zs) as Hp' by (apply elem_of_app in Hp as [Hp|[Hp|Hp]%elem_of_cons];
          [set_solver|injection Hp as -> ->; by destruct Hne|set_solver]). by apply (b_perins _ _ Hb p).
      * pose proof (b_cur _ _ Hb) as Hc. rewrite fmap_app in Hc |- *. set_solver.
    + intros i Hi. destruct (decide (i = ins cur)) as [->|Hne]; [by rewrite lookup_insert_eq|]. by rewrite lookup_insert_ne.
    + by rewrite !lookup_insert_ne.
Qed.

(** ** One event *)

Lemma tryto_backup_ok s xs cur q nf : backed s xs -> nodes s !! CURRENT = Some cur -> is_Some (perins_list s !! ins cur) ->
  fresh q xs -> need_backup cur = true -> (forall p n, (p, n) ∈ xs -> key n = key cur -> time n <= time cur) ->
  exists s' ys zs nf', multi_trace_tryto_backup cfg (Some q) CURRENT nf s = Some (true, nf', s') /\
    backed s' (ys ++ (q, stored cur) :: zs) /\ framed s s' /\
    forall x, x ∈ ys ++ zs <-> x ∈ xs /\ key x.2 <> key cur.
Proof using Htl Hnested.
  intros Hb Hcur Hi Hq Hnb Ht. unfold multi_trace_tryto_backup. rewrite Hcur. cbn [mbind option_bind]. rewrite Hnb.
  cbn [backup_retry]. destruct (findnew_ok s xs cur q Hb Hcur Hi Hq) as
    [(ys & p & n & zs & -> & Hk & E)|(Hne & ys & zs & s' & -> & E & Hb' & Hf & Hc)]; rewrite E; cbn [mbind option_bind].
  2: { rewrite Hc. cbn [mbind option_bind]. exists s', ys, zs, nf. split; [done|]. split; [done|]. split; [done|].
       intros [p n]. cbn. split; [intros Hx; split; [done|by eapply Hne]|by intros [? _]]. }
  rewrite Hcur. cbn [mbind option_bind]. rewrite (b_nodes _ _ Hb p n) by set_solver. cbn [mbind option_bind].
  destruct (Z.ltb_spec (time cur) (time n)) as [Hlt|_]; [specialize (Ht p n ltac:(set_solver) Hk); lia|].
  destruct (remove_ok s ys p n zs Hb) as (s1 & -> & Hb1 & Hf1 & Hc1). cbn [mbind option_bind].
  assert (fresh q (ys ++ zs)) as Hq1 by (destruct Hq as [? Hq]; split; [done|]; rewrite fmap_app in Hq |- *; set_solver).
  rewrite Hcur in Hc1. assert (is_Some (perins_list s1 !! ins cur)) as Hi1 by by apply (f_perins _ _ Hf1).
  destruct (findnew_ok s1 _ cur q Hb1 Hc1 Hi1 Hq1) as [(ys' & p' & n' & zs' & Hx & Hk' & _)|(_ & ys' & zs' & s' & Hx & E' & Hb' & Hf & Hc)].
  { exfalso. apply (backed_key s ys p n zs (p', n') Hb); [rewrite Hx; set_solver|]. cbn. congruence. }
  rewrite E'. cbn [mbind option_bind]. rewrite Hc. cbn [mbind option_bind].
  exists s', ys', zs', true. split; [done|]. split; [done|]. split; [by eapply framed_trans|].
  intros x. rewrite <- Hx, <- Hk. by eapply without_key.
Qed.
End backup.

Section pairs.
Context (cfg : config) (object_find : Z -> option Z -> bool).
Context (Htl : need_timeline cfg = false) (Hnested : nested cfg = false) (Hcall : impl_based_on_call cfg = false).

Definition logged (cs : list call) (s : ctx) : ctx := Ctx (nodes s) (backup s) (timeline s) (perins_list s) (needed_list s)
  (pending_list s) (recent_time s) (event_handled s) (tl_stat s) (backup_stat s) (timeline_lost_list s)
  (perins_lost_list s) (log s ++ cs).

Lemma logged_nil s : framed (logged [] s) s.
Proof. split; cbn; rewrite ?app_nil_r; done. Qed.

Definition two_call (prev cur : timeline_node) : list call :=
  if object_find (tp_id (node_tp prev)) (Some (tp_id (node_tp cur))) && (time prev <? time cur) then
    [Two (tp_id (node_tp prev)) (Some (tp_id (node_tp cur))) (node_event prev) (time prev) (Some (node_event cur))
       (time cur) (key cur) None]
  else [].

Lemma call_two_ok s xs cur nf : backed s xs -> nodes s !! CURRENT = Some cur ->
  need_remove_from_backup cur = true -> node_tp1 cur = None ->
  exists s' xs' nf' cs, multi_trace_tryto_call_two cfg object_find CURRENT nf s = Some (nf', s') /\ backed s' xs' /\
    framed (logged cs s) s' /\ nodes s' !! CURRENT = Some cur /\
    ((need_find_prev cur = true /\ exists p n, (p, n) ∈ xs /\ key n = key cur /\ cs = two_call n cur /\
        forall x, x ∈ xs' <-> x ∈ xs /\ key x.2 <> key cur) \/
     ((need_find_prev cur = false \/ forall p n, (p, n) ∈ xs -> key n <> key cur) /\ cs = [] /\ xs' = xs)).
Proof.
  intros Hb Hcur Hrm Htp1. unfold multi_trace_tryto_call_two. rewrite Hcur. cbn [mbind option_bind].
  destruct (need_find_prev cur) eqn:Hfp.
  2: { exists s, xs, nf, []. split; [done|]. split; [done|]. split; [apply logged_nil|]. split; [done|]. right.
       split; [by left|done]. }
  rewrite Htp1. pose proof (find_prev_ok s xs (key cur) Hb) as Hprev.
  destruct (multi_trace_find_prev (key cur) None s) as [q|].
  2: { rewrite Hcall. cbn [andb]. exists s, xs, nf, []. split; [done|]. split; [done|]. split; [apply logged_nil|].
       split; [done|]. right. split; [by right|done]. }
  destruct Hprev as (n & Hn & Hk). pose proof Hn as Hin. apply list_elem_of_split in Hn as (ys & zs & ->).
  destruct (with_node_ok s ys q n zs (set_maybe_unpaired false) Hb) as (s1 & -> & Hb1 & Hf1 & Hc1 & Hq1); [done|].
  cbn [mbind option_bind]. rewrite Hq1. cbn [mbind option_bind]. rewrite Htl, Hrm.
  assert (exists s2, (if object_find (tp_id (node_tp (set_maybe_unpaired false n))) (Some (tp_id (node_tp cur))) &&
      (time (set_maybe_unpaired false n) <? time cur)
    then iter ← Some None; Some (add_log (Two (tp_id (node_tp (set_maybe_unpaired false n))) (Some (tp_id (node_tp cur)))
      (node_event (set_maybe_unpaired false n)) (time (set_maybe_unpaired false n)) (Some (node_event cur)) (time cur) (key cur) iter) s1)
    else Some s1) = Some s2 /\ backed s2 (ys ++ (q, set_maybe_unpaired false n) :: zs) /\
    framed (logged (two_call n cur) s) s2 /\ nodes s2 !! CURRENT = Some cur) as (s2 & -> & Hb2 & Hf2 & Hc2).
  { unfold two_call. cbn [set_maybe_unpaired node_tp time node_event].
    destruct (object_find _ _ && _); cbn [mbind option_bind]; eexists; (split; [reflexivity|]).
    - split; [by destruct Hb1; split|]. split; [destruct Hf1; split; cbn; congruence || auto|cbn; by rewrite Hc1].
    - split; [done|]. split; [destruct Hf1; split; cbn; rewrite ?app_nil_r; congruence || auto|by rewrite Hc1]. }
  cbn [mbind option_bind]. destruct (remove_ok cfg Htl Hnested s2 ys q _ zs Hb2) as (s3 & -> & Hb3 & Hf3 & Hc3). cbn [mbind option_bind].
  exists s3, (ys ++ zs), true, (two_call n cur). split; [done|]. split; [done|]. split; [by eapply framed_trans|].
  split; [by rewrite Hc3|]. left. split; [done|]. exists q, n. split; [done|]. split; [done|]. split; [done|].
  intros x. rewrite <- Hk. by eapply without_key.
Qed.

Definition active (n : timeline_node) : bool := need_find_prev n || need_backup n.

(** The backup after an event. *)
Lemma handle_rest_ok s xs cur q : backed s xs -> nodes s !! CURRENT = Some cur -> is_Some (perins_list s !! ins cur) ->
  need_remove_from_backup cur = true -> node_tp1 cur = None ->
  fresh q xs -> (forall p n, (p, n) ∈ xs -> key n = key cur -> time n <= time cur) ->
  exists b nf s' xs' cs, ('(need_free, s) ← multi_trace_tryto_call_two cfg object_find CURRENT false s;
      multi_trace_tryto_backup cfg (Some q) CURRENT need_free s) = Some (b, nf, s') /\
    backed s' xs' /\ framed (logged cs s) s' /\
    ((need_find_prev cur = true /\ exists p n, (p, n) ∈ xs /\ key n = key cur /\ cs = two_call n cur) \/
     ((need_find_prev cur = false \/ forall p n, (p, n) ∈ xs -> key n <> key cur) /\ cs = [])) /\
    (forall x, x ∈ xs' <-> (need_backup cur = true /\ x = (q, stored cur)) \/
       (x ∈ xs /\ (active cur = true -> key x.2 <> key cur))).
Proof.
  intros Hb Hcur Hi Hrm Htp1 Hq Ht.
  destruct (call_two_ok s xs cur false Hb Hcur Hrm Htp1) as (s1 & xs1 & nf & cs & -> & Hb1 & Hf1 & Hc1 & Hcs).
  cbn [mbind option_bind]. assert (forall x, x ∈ xs1 -> x ∈ xs) as Hsub.
  { destruct Hcs as [(_ & p & n & _ & _ & _ & Hx)|(_ & _ & ->)]; [|done]. intros x Hx'. by apply Hx. }
  assert (forall x, x ∈ xs1 <-> x ∈ xs /\ (need_find_prev cur = true -> key x.2 <> key cur)) as Hx1.
  { destruct Hcs as [(Hfp & p & n & _ & _ & _ & Hx)|([Hfp|Hno] & _ & ->)]; intros x.
    - rewrite Hx, Hfp. clear. naive_solver.
    - rewrite Hfp. clear. naive_solver.
    - split; [|by intros [? _]]. intros Hin. split; [done|]. intros _. destruct x as [p n]. by eapply Hno. }
  assert ((need_find_prev cur = true /\ exists p n, (p, n) ∈ xs /\ key n = key cur /\ cs = two_call n cur) \/
     ((need_find_prev cur = false \/ forall p n, (p, n) ∈ xs -> key n <> key cur) /\ cs = [])) as Hcs'.
  { destruct Hcs as [(Hfp & p & n & H1 & H2 & H3 & _)|(Hfp & H1 & _)]; [left; split; [done|]; by exists p, n|by right]. }
  unfold active. destruct (need_backup cur) eqn:Hnb.
  - destruct (tryto_backup_ok cfg Htl Hnested s1 xs1 cur q nf Hb1 Hc1) as (s2 & ys & zs & nf' & -> & Hb2 & Hf2 & Hx2).
    + by apply (f_perins _ _ Hf1).
    + destruct Hq as [H1 H2]. split; [done|]. intros Hin. apply H2. apply list_elem_of_fmap in Hin as (x & -> & Hin).
      apply list_elem_of_fmap. exists x. split; [done|by apply Hsub].
    + done.
    + intros p n Hp. apply (Ht p), Hsub, Hp.
    + exists true, nf', s2, (ys ++ (q, stored cur) :: zs), cs. split; [done|]. split; [done|].
      split; [by eapply framed_trans|]. split; [done|]. intros x. rewrite orb_true_r.
      assert (x ∈ ys ++ (q, stored cur) :: zs <-> x = (q, stored cur) \/ x ∈ ys ++ zs) as -> by set_solver.
      rewrite Hx2, Hx1. clear. destruct (need_find_prev cur); naive_solver.
  - unfold multi_trace_tryto_backup. rewrite Hc1. cbn [mbind option_bind]. rewrite Hnb.
    exists false, true, s1, xs1, cs. split; [done|]. split; [done|]. split; [done|]. split; [done|].
    intros x. rewrite Hx1, orb_false_r. clear. naive_solver.
Qed.

Context (go_on : call -> bool) (ins_key : Z -> Z).

(** No events of the instance were lost. *)
Definition nothing_lost (i : Z) (s : ctx) : Prop :=
  if lost_affect_all cfg then timeline_lost_list s = [] else perins_lost_list s !! i = Some [].

Lemma event_lost_none s cur : nodes s !! CURRENT = Some cur -> nothing_lost (ins cur) s ->
  multi_trace_event_lost cfg object_find go_on ins_key CURRENT s = Some s.
Proof.
  intros Hcur Hl. unfold multi_trace_event_lost, nothing_lost in *. rewrite Hcur. cbn [mbind option_bind].
  destruct (lost_affect_all cfg).
  - rewrite Hl. cbn. unfold set_lost_all. destruct s. cbn in *. by subst.
  - rewrite Hl. cbn. unfold set_lost_ins. rewrite insert_id by done. by destruct s.
Qed.

Lemma handle_ok s cur q : nodes s !! CURRENT = Some cur -> nothing_lost (ins cur) s ->
  handle cfg object_find go_on ins_key (Some q) CURRENT false s =
    ('(need_free, s) ← multi_trace_tryto_call_two cfg object_find CURRENT false s;
     multi_trace_tryto_backup cfg (Some q) CURRENT need_free s).
Proof. intros Hcur Hl. unfold handle. by rewrite (event_lost_none s cur Hcur Hl). Qed.

(** ** A sequence of events *)

(** The event before, of those with the key that have a part in pairs. *)
Definition prev_of (done : list timeline_node) (k : Z) : option timeline_node :=
  last (filter (fun n => key n = k /\ active n = true) done).

Definition pair_calls (done : list timeline_node) (cur : timeline_node) : list call :=
  if need_find_prev cur then
    match prev_of done (key cur) with
    | Some prev => if need_backup prev then two_call prev cur else []
    | None => []
    end
  else [].

(** The pairs of the events [l] after [done]. *)
Fixpoint pairs (done l : list timeline_node) : list call :=
  match l with [] => [] | cur :: l => pair_calls done cur ++ pairs (done ++ [cur]) l end.

(** The traced event of a sample. *)
Definition traced_node (x : sample) : option timeline_node :=
  match find_list 0 (s_evsel x) (tp_list cfg) with
  | Some (i, t, tp1) => if untraced t then None else Some (current cfg x i t tp1 0)
  | None => None
  end.

Definition run (l : list sample) (s : ctx) : option ctx :=
  foldl (fun s x => s ← s; multi_trace_sample cfg object_find go_on ins_key x s) (Some s) l.

(** What a node in the backup has of the event it was made of. *)
Definition like (n p : timeline_node) : Prop :=
  node_tp n = node_tp p /\ node_event n = node_event p /\ time n = time p /\ key n = key p.

Lemma two_call_like n p c d : like n p -> like c d -> two_call n c = two_call p d.
Proof. intros (H1 & H2 & H3 & H4) (H5 & H6 & H7 & H8). unfold two_call. by rewrite H1, H2, H3, H5, H6, H7, H8. Qed.

(** The backup has the last active event of each key, if it was backed up. *)
Definition follows (done : list timeline_node) (xs : list (Z * timeline_node)) : Prop :=
  (forall q n, (q, n) ∈ xs -> exists p, prev_of done (key n) = Some p /\ need_backup p = true /\ like n p) /\
  (forall k p, prev_of done k = Some p -> need_backup p = true -> exists q n, (q, n) ∈ xs /\ key n = k).

Lemma prev_of_snoc done cur k :
  prev_of (done ++ [cur]) k = if decide (key cur = k /\ active cur = true) then Some cur else prev_of done k.
Proof.
  unfold prev_of. rewrite filter_app, filter_cons, filter_nil. case_decide; [by rewrite last_snoc|by rewrite app_nil_r].
Qed.

Lemma prev_of_in done k p : prev_of done k = Some p -> p ∈ done /\ key p = k /\ active p = true.
Proof.
  unfold prev_of. intros E. apply last_Some_elem_of in E. apply list_elem_of_filter in E as [[Hk Ha] Hin]. done.
Qed.

Lemma follows_snoc done xs xs' cur node q :
  follows done xs -> like cur node -> need_backup cur = need_backup node -> active cur = active node ->
  (forall x, x ∈ xs' <-> (need_backup cur = true /\ x = (q, stored cur)) \/
       (x ∈ xs /\ (active cur = true -> key x.2 <> key cur))) ->
  follows (done ++ [node]) xs'.
Proof.
  intros [Hf1 Hf2] Hlike Hnb Hact Hx. assert (key node = key cur) as Hk by by destruct Hlike as (_ & _ & _ & ->).
  split.
  - intros p n Hp. rewrite prev_of_snoc. apply Hx in Hp as [[Hb [= -> ->]]|[Hp Hne]]; cbn in *.
    + rewrite decide_True by (split; [done|]; rewrite <- Hact; unfold active; by rewrite Hb, orb_true_r).
      exists node. split; [done|]. split; [congruence|]. exact Hlike.
    + destruct (Hf1 p n Hp) as (m & Hm & Hb & Hl). exists m. rewrite decide_False; [done|].
      intros [Heq Ha]. apply Hne; [congruence|]. congruence.
  - intros k m. rewrite prev_of_snoc. case_decide as Hd.
    + intros [= <-] Hb. exists q, (stored cur). split; [apply Hx; left; split; [congruence|done]|]. cbn. destruct Hd. congruence.
    + intros Hm Hb. destruct (Hf2 k m Hm Hb) as (p & n & Hp & Hkn). exists p, n. split; [|done]. apply Hx. right.
      split; [done|]. intros Ha Heq. apply Hd. cbn in Heq. split; [congruence|congruence].
Qed.

Lemma pair_calls_ok done xs cur node cs : follows done xs -> like cur node -> need_find_prev cur = need_find_prev node ->
  ((need_find_prev cur = true /\ exists p n, (p, n) ∈ xs /\ key n = key cur /\ cs = two_call n cur) \/
   ((need_find_prev cur = false \/ forall p n, (p, n) ∈ xs -> key n <> key cur) /\ cs = [])) ->
  cs = pair_calls done node.
Proof.
  intros [Hf1 Hf2] Hlike Hfp Hcs. pose proof Hlike as (_ & _ & _ & Hk). unfold pair_calls. rewrite <- Hfp, <- Hk.
  destruct Hcs as [(-> & p & n & Hp & Hkn & ->)|[[->|Hno] ->]]; [|done|].
  - destruct (Hf1 p n Hp) as (m & Hm & Hb & Hl). rewrite Hkn in Hm. rewrite Hm, Hb. by apply two_call_like.
  - destruct (need_find_prev cur); [|done]. destruct (prev_of done (key cur)) as [m|] eqn:E; [|done].
    destruct (need_backup m) eqn:Hb; [|done]. destruct (Hf2 _ _ E Hb) as (p & n & Hp & Hkn). by destruct (Hno p n Hp).
Qed.

(** ** Samples *)

(** What a sample needs: an instance whose list is there, memory, no trigger. *)
Definition served (s : ctx) (x : sample) : Prop :=
  is_Some (perins_list s !! s_ins x) /\ nothing_lost (s_ins x) s /\ s_trigger x = false /\ is_Some (s_mem x).

Lemma served_framed s s' cs x : served s x -> framed (logged cs s) s' -> served s' x.
Proof.
  intros (H1 & H2 & H3 & H4) [F1 F2 F3 F4 F5 F6]. cbn in *. split; [by apply F6|]. split; [|done].
  unfold nothing_lost in *. by rewrite F4, F5.
Qed.

(** A traced event: the pairs and the backup afterwards. *)
Lemma sample_ok x done node s xs q : backed s xs -> follows done xs -> traced_node x = Some node ->
  served s x -> s_mem x = Some q -> fresh q xs -> (forall n, n ∈ done -> time n <= time node) ->
  exists s' xs', multi_trace_sample cfg object_find go_on ins_key x s = Some s' /\ backed s' xs' /\
    follows (done ++ [node]) xs' /\ log s' = log s ++ pair_calls done node /\
    (forall y, served s y -> served s' y) /\ (forall p, p ∈ xs'.*1 -> p = q \/ p ∈ xs.*1).
Proof.
  intros Hb Hfol Hx (Hi & Hl & Htr & _) Hq Hfresh Ht. unfold traced_node in Hx. unfold multi_trace_sample.
  destruct (find_list 0 (s_evsel x) (tp_list cfg)) as [[[i t] tp1]|]; [|done]. rewrite Htr, Htl.
  destruct (untraced t); [done|]. injection Hx as <-. set (h := event_handled _). set (cur := current cfg x i t tp1 h).
  set (node := current cfg x i t tp1 0) in *.
  rewrite Hq. match goal with |- context [handle _ _ _ _ _ _ _ ?z] => set (s1 := z) end.
  assert (backed s1 xs) as Hb1.
  { apply backed_cur; [|intros p Hp; by rewrite lookup_insert_ne]. destruct (recent_time s <? s_time x); by destruct Hb; split. }
  assert (exists r, s1 = set_nodes (<[CURRENT := cur]> (nodes s)) (set_handled (u64 (event_handled s + 1)) (set_recent r s))) as [r Hs1].
  { exists (if recent_time s <? s_time x then s_time x else recent_time s). unfold s1, cur, h.
    by destruct (recent_time s <? s_time x); destruct s. }
  assert (nodes s1 !! CURRENT = Some cur) as Hcur by (rewrite Hs1; cbn; by rewrite lookup_insert_eq).
  rewrite (handle_ok s1 cur q Hcur) by (rewrite Hs1; exact Hl).
  destruct (handle_rest_ok s1 xs cur q) as (b & nf & s2 & xs' & cs & -> & Hb2 & Hf2 & Hcs & Hx2); try done.
  - rewrite Hs1. exact Hi.
  - cbn. by rewrite Hnested.
  - cbn. by rewrite Hnested.
  - intros p n Hp Hk. destruct Hfol as [Hf1 _]. destruct (Hf1 p n Hp) as (m & Hm & _ & (_ & _ & -> & _)).
    apply prev_of_in in Hm as [Hm _]. by apply Ht.
  - cbn [mbind option_bind]. exists (set_nodes (delete CURRENT (nodes s2)) s2), xs'. split; [done|].
    assert (like cur node) as Hlike by done. split; [|split; [|split; [|split]]].
    + apply backed_cur; [done|]. intros p Hp. by rewrite lookup_delete_ne.
    + by eapply follows_snoc.
    + assert (log s1 = log s) as Hlog by by rewrite Hs1. change (log s2 = log s ++ pair_calls done node).
      rewrite (f_log _ _ Hf2). change (log s1 ++ cs = log s ++ pair_calls done node). rewrite Hlog. f_equal.
      by eapply pair_calls_ok.
    + intros y Hy. eapply (served_framed s1) in Hf2; [|rewrite Hs1; exact Hy]. exact Hf2.
    + intros p Hp. apply list_elem_of_fmap in Hp as (y & -> & Hy). apply Hx2 in Hy as [[_ ->]|[Hy _]]; [by left|right].
      apply list_elem_of_fmap. by exists y.
Qed.

(** A sample that is not traced. *)
Lemma sample_skipped x s : traced_node x = None -> extra_evsel cfg = None -> s_trigger x = false ->
  exists r h, multi_trace_sample cfg object_find go_on ins_key x s = Some (set_handled h (set_recent r s)).
Proof.
  intros Hx He Ht. unfold traced_node in Hx. unfold multi_trace_sample. rewrite He, Ht, Htl.
  exists (if recent_time s <? s_time x then s_time x else recent_time s).
  destruct (find_list 0 (s_evsel x) (tp_list cfg)) as [[[i t] tp1]|]; [destruct (untraced t); [|done]|].
  - exists (u64 (event_handled s + 1)). by destruct (recent_time s <? s_time x); destruct s.
  - exists (event_handled s). rewrite bool_decide_false by done. by destruct (recent_time s <? s_time x); destruct s.
Qed.

Lemma run_cons x l s : run (x :: l) s = s ← multi_trace_sample cfg object_find go_on ins_key x s; run l s.
Proof.
  unfold run. cbn. destruct (multi_trace_sample _ _ _ _ x s); [done|]. cbn. by induction l.
Qed.

Lemma run_ok : forall l done s xs, backed s xs -> follows done xs -> extra_evsel cfg = None ->
  Forall (served s) l -> NoDup (omap s_mem l) -> CURRENT ∉ omap s_mem l -> (forall p, p ∈ omap s_mem l -> p ∉ xs.*1) ->
  StronglySorted (fun x y => s_time x <= s_time y) l ->
  (forall n x, n ∈ done -> x ∈ l -> time n <= s_time x) ->
  exists s', run l s = Some s' /\ log s' = log s ++ pairs done (omap traced_node l).
Proof.
  induction l as [|x l IH]; intros done s xs Hb Hf He Hs Hd Hc Hnew Ht Hdone.
  { exists s. split; [done|]. cbn. by rewrite app_nil_r. }
  apply Forall_cons in Hs as [Hx Hs]. pose proof Hx as (_ & _ & Htr & [q Hq]). rewrite run_cons.
  inversion Ht as [|? ? Ht' Hx']; subst. rewrite Forall_forall in Hx'.
  cbn in Hd, Hc, Hnew. rewrite Hq in Hd, Hc, Hnew. apply NoDup_cons in Hd as [Hq' Hd]. cbn [omap list_omap].
  destruct (traced_node x) as [node|] eqn:Ex.
  - assert (time node = s_time x) as Htime.
    { unfold traced_node in Ex. destruct (find_list _ _ _) as [[[i t] tp1]|]; [|done]. destruct (untraced t); [done|].
      by injection Ex as <-. }
    destruct (sample_ok x done node s xs q Hb Hf Ex Hx Hq) as (s1 & xs1 & -> & Hb1 & Hf1 & Hlog & Hserved & Hsub).
    { split; [set_solver|]. apply Hnew. by left. }
    { intros n Hn. rewrite Htime. apply Hdone; [done|by left]. }
    cbn [mbind option_bind]. destruct (IH (done ++ [node]) s1 xs1) as (s2 & -> & Hlog2); try done.
    { eapply Forall_impl; [exact Hs|]. exact Hserved. }
    { set_solver. }
    { intros p Hp Hin. apply Hsub in Hin as [->|Hin]; [done|]. by apply (Hnew p); [right|]. }
    { intros n y Hn Hy. apply elem_of_app in Hn as [Hn|Hn]; [apply Hdone; [done|by right]|].
      apply list_elem_of_singleton in Hn as ->. rewrite Htime. by apply Hx'. }
    exists s2. split; [done|]. cbn [pairs]. by rewrite Hlog2, Hlog, app_assoc.
  - destruct (sample_skipped x s Ex He Htr) as (r & h & ->). cbn [mbind option_bind].
    apply (IH done (set_handled h (set_recent r s)) xs); try done.
    { by destruct Hb; split. }
    { set_solver. }
    { intros p Hp. apply Hnew. by right. }
    { intros n y Hn Hy. apply Hdone; [done|by right]. }
Qed.

Lemma served_init k x : 0 <= s_ins x < Z.of_nat k /\ s_trigger x = false /\ is_Some (s_mem x) -> served (ctx_init k) x.
Proof using Type.
  intros (Hi & Htr & Hm). split; [cbn; by rewrite per_ins_lookup|]. split; [|done].
  unfold nothing_lost. cbn. destruct (lost_affect_all cfg); [done|by rewrite per_ins_lookup].
Qed.

(** ** Property *)

(** C21: Without details, nested pairs, a class that follows calls, an extra event or a
    trigger, whatever the lists of events, the roles and the keys: for samples in the order
    of their times, each with memory at an address of its own, and nothing lost, what is
    reported is, for each event that may end a pair, the pair with the event before it among
    those of its key that have a part in pairs - when that one may begin a pair, the class
    has an object for the two, and it is earlier. *)
Theorem multi_trace_pairs l k :
  extra_evsel cfg = None ->
  Forall (fun x => 0 <= s_ins x < Z.of_nat k /\ s_trigger x = false /\ is_Some (s_mem x)) l ->
  NoDup (omap s_mem l) -> CURRENT ∉ omap s_mem l -> StronglySorted (fun x y => s_time x <= s_time y) l ->
  exists s, run l (ctx_init k) = Some s /\ log s = pairs [] (omap traced_node l).
Proof.
  intros He Hl Hd Hc Ht. destruct (run_ok l [] (ctx_init k) []) as (s & E & Hlog); try done.
  - apply backed_init.
  - split; [by intros ?? ?%elem_of_nil|done].
  - eapply Forall_impl; [exact Hl|]. apply served_init.
  - by intros p _ ?%elem_of_nil.
  - by intros n x ?%elem_of_nil.
  - by exists s.
Qed.
End pairs.

(** ** An example

    Starts and ends of system calls of two threads: 7 starts twice, so the later start is
    paired; 8 ends once without a start. *)

Definition enter : tp := Tp 1 101 false false.
Definition leave : tp := Tp 2 102 false false.
Definition ex_cfg : config := Config false false false true true 0 0 0 false [[enter]; [leave]] None.
Definition ex_sample (p : Z * Z * Z * Z) : sample :=
  let '(t, ev, k, mem) := p in Sample (Event t 64) t ev k 0 true true false false (Some mem).
Definition ex_samples : list sample :=
  ex_sample <$> [(10, 101, 7, 8); (20, 102, 8, 16); (30, 101, 7, 24); (40, 101, 8, 32); (50, 102, 7, 40); (60, 102, 8, 48)].

Lemma multi_trace_pairs_witness : exists s,
  run ex_cfg (fun a b => bool_decide ((a, b) ∈ class_pairs ex_cfg)) (fun _ => true) (fun i => i) ex_samples (ctx_init 1) = Some s /\
  log s = [Two 1 (Some 2) (Event 30 64) 30 (Some (Event 50 64)) 50 7 None;
           Two 1 (Some 2) (Event 40 64) 40 (Some (Event 60 64)) 60 8 None].
Proof.
  destruct (multi_trace_pairs ex_cfg (fun a b => bool_decide ((a, b) ∈ class_pairs ex_cfg)) eq_refl eq_refl eq_refl
    (fun _ => true) (fun i => i) ex_samples 1) as (s & E & Hl).
  - done.
  - repeat constructor; cbn; try lia; by eexists.
  - apply (bool_decide_unpack _). by vm_compute.
  - apply (bool_decide_unpack _). by vm_compute.
  - repeat constructor; cbn; lia.
  - exists s. split; [exact E|]. rewrite Hl. by vm_compute.
Defined.
