(* ===== verification/MultiLost.v ===== *)
(** * Pairs and lost events (multi-trace.c)

    When the kernel could not write events, the backup is given up: no pair reported has
    the lost events between its two. *)

From Stdlib Require Import Sorted.
From S2P Require Import Prelude MultiTrace MultiPair.

Section lost.
Context (cfg : config) (object_find : Z -> option Z -> bool) (go_on : call -> bool) (ins_key : Z -> Z).
Context (Htl : need_timeline cfg = false) (Hnested : nested cfg = false) (Hcall : impl_based_on_call cfg = false).
Context (Hall : lost_affect_all cfg = true) (Horder : using_order cfg = true).

Definition is_two (c : call) : Prop := match c with Two _ _ _ _ _ _ _ _ => True | _ => False end.

(** What giving up the backup leaves as it is; calls about what remains are logged. *)
Record given_up (s s' : ctx) : Prop := {
  g_log : exists cs, log s' = log s ++ cs /\ Forall (fun c => ~ is_two c) cs;
  g_all : timeline_lost_list s' = timeline_lost_list s;
  g_cur : nodes s' !! CURRENT = nodes s !! CURRENT;
  g_perins : forall i, is_Some (perins_list s !! i) -> is_Some (perins_list s' !! i)
}.

Lemma given_up_refl s : given_up s s.
Proof. split; try done. exists []. by rewrite app_nil_r. Qed.

Lemma given_up_trans s1 s2 s3 : given_up s1 s2 -> given_up s2 s3 -> given_up s1 s3.
Proof.
  intros [(cs & L1 & N1) A1 C1 P1] [(ds & L2 & N2) A2 C2 P2]. split; [|congruence|congruence|auto].
  exists (cs ++ ds). split; [by rewrite L2, L1, app_assoc|]. by apply Forall_app.
Qed.

Lemma framed_given_up s s' : framed s s' -> nodes s' !! CURRENT = nodes s !! CURRENT -> given_up s s'.
Proof. intros [] Hc. split; try done. exists []. by rewrite app_nil_r. Qed.

Lemma call_remaining_ok s xs q rr : backed s xs -> q ∈ xs.*1 ->
  exists b s' xs', multi_trace_call_remaining cfg object_find go_on q rr s = Some (b, s') /\ backed s' xs' /\
    xs'.*1 = xs.*1 /\ given_up s s'.
Proof.
  intros Hb Hq. apply list_elem_of_fmap in Hq as ([q' n] & -> & Hq). cbn. pose proof Hq as Hin.
  apply list_elem_of_split in Hin as (ys & zs & ->). unfold multi_trace_call_remaining.
  rewrite (b_nodes _ _ Hb q' n) by done. cbn [mbind option_bind].
  destruct (object_find (tp_id (node_tp n)) None).
  2: { eexists _, s, _. split; [done|]. split; [done|]. split; [done|]. apply given_up_refl. }
  rewrite Htl. cbn [mbind option_bind].
  assert (exists s1 xs1, (if greater_than cfg <? u64 (recent_time s - time n) then with_node q' (set_maybe_unpaired true) s
    else Some s) = Some s1 /\ backed s1 xs1 /\ xs1.*1 = (ys ++ (q', n) :: zs).*1 /\ given_up s s1) as (s1 & xs1 & -> & Hb1 & Hx1 & Hg1).
  { destruct (greater_than cfg <? _).
    - destruct (with_node_ok s ys q' n zs (set_maybe_unpaired true) Hb) as (s1 & -> & Hb1 & Hf1 & Hc1 & _); [done|].
      exists s1, (ys ++ (q', set_maybe_unpaired true n) :: zs). split; [done|]. split; [done|]. split; [by rewrite !fmap_app|].
      by apply framed_given_up.
    - exists s, (ys ++ (q', n) :: zs). split; [done|]. split; [done|]. split; [done|]. apply given_up_refl. }
  cbn [mbind option_bind]. eexists _, _, xs1. split; [reflexivity|]. split; [by destruct Hb1; split|]. split; [done|].
  eapply given_up_trans; [exact Hg1|]. split; cbn; try done. eexists. split; [reflexivity|]. constructor; [by intros []|constructor].
Qed.

Lemma remaining_loop_ok rr l : forall s xs, backed s xs -> (forall q, q ∈ l -> q ∈ xs.*1) ->
  exists s' xs', remaining_loop cfg object_find go_on l rr s = Some s' /\ backed s' xs' /\ xs'.*1 = xs.*1 /\ given_up s s'.
Proof.
  induction l as [|q l IH]; intros s xs Hb Hl; cbn.
  { exists s, xs. split; [done|]. split; [done|]. split; [done|]. apply given_up_refl. }
  destruct (call_remaining_ok s xs q rr Hb) as (b & s1 & xs1 & -> & Hb1 & Hx1 & Hg1); [apply Hl; by left|].
  cbn [mbind option_bind]. destruct b.
  - destruct (IH s1 xs1 Hb1) as (s2 & xs2 & -> & Hb2 & Hx2 & Hg2); [intros p Hp; rewrite Hx1; apply Hl; by right|].
    exists s2, xs2. split; [done|]. split; [done|]. split; [congruence|]. by eapply given_up_trans.
  - by exists s1, xs1.
Qed.

Lemma backup_exit_ok : forall xs s, backed s xs ->
  exists s', backup_exit cfg xs.*1 s = Some s' /\ backed s' [] /\ given_up s s'.
Proof.
  induction xs as [|[q n] xs IH]; intros s Hb; cbn.
  { exists s. split; [done|]. split; [done|]. apply given_up_refl. }
  destruct (remove_ok cfg Htl Hnested s [] q n xs Hb) as (s1 & -> & Hb1 & Hf1 & Hc1). cbn [mbind option_bind].
  destruct (IH s1 Hb1) as (s2 & -> & Hb2 & Hg2). exists s2. split; [done|]. split; [done|].
  eapply given_up_trans; [by apply framed_given_up|done].
Qed.

Lemma lost_reclaim_ok i s xs : backed s xs ->
  exists s', lost_reclaim cfg object_find go_on ins_key i s = Some s' /\ backed s' [] /\ given_up s s'.
Proof.
  intros Hb. unfold lost_reclaim, multi_trace_handle_remaining. rewrite Hall.
  destruct (remaining_loop_ok REMAINING_LOST (backup s) s xs Hb) as (s1 & xs1 & -> & Hb1 & Hx1 & Hg1).
  { by rewrite (b_list _ _ Hb). }
  cbn [mbind option_bind]. rewrite (b_list _ _ Hb1). destruct (backup_exit_ok xs1 s1 Hb1) as (s2 & -> & Hb2 & Hg2).
  exists s2. split; [done|]. split; [done|]. by eapply given_up_trans.
Qed.

(** ** The list of lost events *)

Definition ascending (l : list lost_node) : Prop := StronglySorted (fun a b => start_time a <= start_time b) l.

(** What the nodes in the backup and the lists of lost events have to do with each other. *)
Definition backup_before (l : list lost_node) (xs : list (Z * timeline_node)) : Prop :=
  forall x, x ∈ l -> (reclaimed x = true -> xs = []) /\ forall q n, (q, n) ∈ xs -> time n <= start_time x.

(** The event at hand: only what it still has to do changes. *)
Definition weaker (c c' : timeline_node) : Prop :=
  like c c' /\ ins c' = ins c /\ node_tp1 c' = node_tp1 c /\ need_remove_from_backup c' = need_remove_from_backup c /\
  (need_find_prev c' = true -> need_find_prev c = true) /\ (need_backup c' = true -> need_backup c = true).

Lemma backed_write s xs c : backed s xs -> backed (set_nodes (<[CURRENT := c]> (nodes s)) s) xs.
Proof. intros Hb. apply backed_cur; [done|]. intros p Hp. by rewrite lookup_insert_ne. Qed.

Lemma weaker_refl c : weaker c c.
Proof. by repeat split. Qed.

Lemma drop_backup_ok s xs c : backed s xs -> nodes s !! CURRENT = Some c ->
  exists s' c', drop_backup CURRENT s = Some s' /\ backed s' xs /\ nodes s' !! CURRENT = Some c' /\ weaker c c' /\
    need_backup c' = false /\ need_find_prev c' = need_find_prev c /\ log s' = log s /\
    (forall i, is_Some (perins_list s !! i) -> is_Some (perins_list s' !! i)).
Proof.
  intros Hb Hc. unfold drop_backup. rewrite Hc. cbn [mbind option_bind]. destruct (need_backup c) eqn:Hn.
  - unfold with_node. rewrite Hc. cbn [mbind option_bind]. eexists _, _. split; [reflexivity|].
    pose proof (backed_write s xs (set_unneeded true (set_need_backup false c)) Hb) as Hb'.
    split; [by destruct Hb'; split|]. cbn. rewrite lookup_insert_eq. split; [reflexivity|]. by repeat split.
  - exists s, c. do 3 (split; [done|]). split; [apply weaker_refl|]. done.
Qed.

(** What the loop leaves: [c'] is the event, [l'] the list. *)
Record lost_done (l l' : list lost_node) (xs xs' : list (Z * timeline_node)) (c c' : timeline_node) : Prop := {
  d_weaker : weaker c c';
  d_before : backup_before l' xs';
  d_ascending : ascending l';
  d_sub : xs' = xs \/ xs' = [];
  d_find : need_find_prev c' = true -> forall x, x ∈ l' -> time c <= start_time x;
  d_backup : need_backup c' = true -> forall x, x ∈ l' -> time c < start_time x;
  d_removed : forall x, x ∈ l -> (exists y, y ∈ l' /\ start_time y = start_time x /\ end_time y = end_time x) \/
                (end_time x <= time c /\ xs' = []);
  d_reclaimed : forall x, x ∈ l' -> reclaimed x = true -> x ∈ l \/ start_time x <= time c
}.

Lemma ascending_head x l y : ascending (x :: l) -> y ∈ x :: l -> start_time x <= start_time y.
Proof.
  intros Hs Hy. inversion Hs as [|? ? _ Hl]; subst. rewrite Forall_forall in Hl.
  apply elem_of_cons in Hy as [->|Hy]; [lia|by apply Hl].
Qed.

Lemma backup_before_nil l : backup_before l [].
Proof. intros x _. split; [done|]. by intros ?? ?%elem_of_nil. Qed.

(** What the loop does outside the nodes and the list. *)
Record went_on (s s' : ctx) : Prop := {
  w_log : exists cs, log s' = log s ++ cs /\ Forall (fun c => ~ is_two c) cs;
  w_perins : forall i, is_Some (perins_list s !! i) -> is_Some (perins_list s' !! i)
}.

Lemma went_on_trans s1 s2 s3 : went_on s1 s2 -> went_on s2 s3 -> went_on s1 s3.
Proof.
  intros [(cs & L1 & N1) P1] [(ds & L2 & N2) P2]. split; [|auto].
  exists (cs ++ ds). split; [by rewrite L2, L1, app_assoc|]. by apply Forall_app.
Qed.

Lemma went_on_same s s' : log s' = log s -> (forall i, is_Some (perins_list s !! i) -> is_Some (perins_list s' !! i)) -> went_on s s'.
Proof. intros Hlog Hp. split; [|done]. exists []. by rewrite app_nil_r. Qed.

(** Giving up the backup at the first event after the start of what is lost. *)
Lemma first_reclaim_ok lost i s xs c : backed s xs -> nodes s !! CURRENT = Some c -> (reclaimed lost = true -> xs = []) ->
  exists s', (if reclaimed lost then Some s
              else
                s1 ← lost_reclaim cfg object_find go_on ins_key i (set_recent (start_time lost) s);
                Some (set_recent (recent_time s) s1)) = Some s' /\
    backed s' [] /\ nodes s' !! CURRENT = Some c /\ went_on s s'.
Proof.
  intros Hb Hc Hr. destruct (reclaimed lost).
  - exists s. specialize (Hr eq_refl). subst xs. split; [done|]. split; [done|]. split; [done|]. by apply went_on_same.
  - assert (backed (set_recent (start_time lost) s) xs) as Hb1 by by destruct Hb; split.
    destruct (lost_reclaim_ok i _ xs Hb1) as (s1 & E & Hb2 & [L A C P]). cbn [set_recent recent_time].
    rewrite E. cbn [mbind option_bind]. eexists. split; [reflexivity|]. split; [by destruct Hb2; split|].
    split; [cbn; rewrite C; done|]. split; [exact L|exact P].
Qed.

Lemma lost_loop_ok : forall l s xs c, backed s xs -> nodes s !! CURRENT = Some c -> ascending l -> backup_before l xs ->
  exists l' s' xs' c', lost_loop cfg object_find go_on ins_key l CURRENT s = Some (l', s') /\ backed s' xs' /\
    nodes s' !! CURRENT = Some c' /\ lost_done l l' xs xs' c c' /\ went_on s s'.
Proof.
  induction l as [|lost l IH]; intros s xs c Hb Hc Ha Hbb; cbn [lost_loop].
  { exists [], s, xs, c. split; [done|]. split; [done|]. split; [done|]. split; [|by apply went_on_same].
    split; try done; [by left|by intros _ ? ?%elem_of_nil|by intros _ ? ?%elem_of_nil|by intros ? ?%elem_of_nil|by left]. }
  rewrite Hc. cbn [mbind option_bind]. pose proof (Hbb lost ltac:(by left)) as [Hr _].
  destruct (Z.ltb_spec (time c) (start_time lost)) as [H1|H1]; [|destruct (Z.eqb_spec (time c) (start_time lost)) as [H2|H2]].
  - exists (lost :: l), s, xs, c. split; [done|]. split; [done|]. split; [done|]. split; [|by apply went_on_same].
    split; try done; [by left| | | |].
    + intros _ x Hx. pose proof (ascending_head _ _ _ Ha Hx). lia.
    + intros _ x Hx. pose proof (ascending_head _ _ _ Ha Hx). lia.
    + intros x Hx. left. by exists x.
    + intros x Hx _. by left.
  - destruct (drop_backup_ok s xs c Hb Hc) as (s1 & c' & -> & Hb1 & Hc1 & Hw & Hnb & Hnf & Hlog & Hp). cbn [mbind option_bind].
    exists (lost :: l), s1, xs, c'. split; [done|]. split; [done|]. split; [done|]. split; [|by apply went_on_same].
    split; try done; [by left| |by rewrite Hnb| |by intros x Hx _; left].
    + intros _ x Hx. pose proof (ascending_head _ _ _ Ha Hx). lia.
    + intros x Hx. left. by exists x.
  - destruct (first_reclaim_ok lost (ins c) s xs c Hb Hc Hr) as (s1 & -> & Hb1 & Hc1 & Hw1). cbn [mbind option_bind].
    inversion Ha as [|? ? Ha' Hl]; subst. destruct (Z.ltb_spec (time c) (end_time lost)) as [H3|H3].
    + unfold with_node at 1. rewrite Hc1. cbn [mbind option_bind].
      set (c1 := set_need_find_prev false c). set (s2 := set_nodes (<[CURRENT := c1]> (nodes s1)) s1).
      assert (nodes s2 !! CURRENT = Some c1) as Hc2 by (cbn; by rewrite lookup_insert_eq).
      destruct (drop_backup_ok s2 [] c1 (backed_write s1 [] c1 Hb1) Hc2) as (s3 & c' & -> & Hb3 & Hc3 & Hw & Hnb & Hnf & Hlog & Hp).
      cbn [mbind option_bind]. eexists _, s3, [], c'. split; [reflexivity|]. split; [done|]. split; [done|].
      split; [|eapply went_on_trans; [exact Hw1|by apply went_on_same]].
      split; try done.
      * destruct Hw as (W1 & W2 & W3 & W4 & W5 & W6). repeat split; try done; [apply W1|apply W1|apply W1|apply W1|by rewrite Hnf].
      * apply backup_before_nil.
      * constructor; [done|]. exact Hl.
      * by right.
      * by rewrite Hnf.
      * by rewrite Hnb.
      * intros x [->|Hx]%elem_of_cons; left; [by eexists; split; [by left|]|]. exists x. split; [by right|done].
      * intros x [->|Hx]%elem_of_cons _; [right; cbn; lia|left; by right].
    + destruct (IH s1 [] c Hb1 Hc1 Ha' (backup_before_nil l)) as (l' & s2 & xs' & c' & -> & Hb2 & Hc2 & Hd & Hw2).
      assert (xs' = []) as -> by by destruct (d_sub _ _ _ _ _ _ Hd).
      exists l', s2, [], c'. split; [done|]. split; [done|]. split; [done|]. split; [|by eapply went_on_trans].
      destruct Hd as [D1 D2 D3 D4 D5 D6 D7 D8]. split; try done; [by right| |].
      * intros x [->|Hx]%elem_of_cons; [right; by split|by apply D7].
      * intros x Hx Hrx. destruct (D8 x Hx Hrx) as [?|?]; [left; by right|by right].
Qed.

(** ** Samples and notices of lost events *)

Inductive item := Sampled (x : sample) | Lost (i lost_start lost_end : Z).

Definition step (it : item) (s : ctx) : option ctx :=
  match it with
  | Sampled x => multi_trace_sample cfg object_find go_on ins_key x s
  | Lost i a b => multi_trace_lost cfg object_find go_on ins_key true i a b s
  end.
Definition run_items (l : list item) (s : ctx) : option ctx := foldl (fun s it => s ← s; step it s) (Some s) l.

(** A pair that the events lost from [a] to [b] do not touch. *)
Definition clear_of (a b : Z) (c : call) : Prop :=
  match c with Two _ _ _ time1 (Some _) time2 _ _ => time2 <= a \/ b <= time1 | _ => True end.

(** The state between two items: [t] is the last time of a sample, [reg] what was lost. *)
Record sound (t : Z) (reg : list (Z * Z)) (s : ctx) (xs : list (Z * timeline_node)) : Prop := {
  o_backed : backed s xs;
  o_ascending : ascending (timeline_lost_list s);
  o_before : backup_before (timeline_lost_list s) xs;
  o_reclaimed : forall x, x ∈ timeline_lost_list s -> reclaimed x = true -> start_time x <= t;
  o_times : forall q n, (q, n) ∈ xs -> time n <= t;
  o_reg : forall a b, (a, b) ∈ reg ->
    (exists x, x ∈ timeline_lost_list s /\ start_time x = a /\ end_time x = b) \/
    (b <= t /\ forall q n, (q, n) ∈ xs -> b <= time n);
  o_log : forall c, c ∈ log s -> (forall a b, (a, b) ∈ reg -> clear_of a b c) /\
    match c with Two _ _ _ _ (Some _) time2 _ _ => time2 <= t | _ => True end
}.

Lemma sound_later t t' reg s xs : sound t reg s xs -> t <= t' -> sound t' reg s xs.
Proof.
  intros [S1 S2 S3 S4 S5 S6 S7] Ht. split; try done.
  - intros x Hx Hr. specialize (S4 x Hx Hr). lia.
  - intros q n Hq. specialize (S5 q n Hq). lia.
  - intros a b Hab. destruct (S6 a b Hab) as [?|[? ?]]; [by left|right; split; [lia|done]].
  - intros c Hc. destruct (S7 c Hc) as [H1 H2]. split; [done|]. repeat case_match; try done; lia.
Qed.

Lemma not_two_clear c : ~ is_two c -> (forall a b, clear_of a b c) /\
  forall t, match c with Two _ _ _ _ (Some _) time2 _ _ => time2 <= t | _ => True end.
Proof. intros Hc. destruct c; [by destruct Hc|done|done]. Qed.

(** What is left of the event and the backup after the lost events, and the pair, if any. *)
Lemma sampled_sound t reg s s' xs xs1 xs' l' c c' q cs ds :
  sound t reg s xs -> t <= time c -> lost_done (timeline_lost_list s) l' xs xs1 c c' ->
  backed s' xs' -> timeline_lost_list s' = l' -> log s' = (log s ++ ds) ++ cs -> Forall (fun c => ~ is_two c) ds ->
  ((need_find_prev c' = true /\ exists p n, (p, n) ∈ xs1 /\ key n = key c' /\ cs = two_call object_find n c') \/ cs = []) ->
  (forall x, x ∈ xs' -> (need_backup c' = true /\ x = (q, stored c')) \/ x ∈ xs1) ->
  sound (time c) reg s' xs'.
Proof.
  intros [S1 S2 S3 S4 S5 S6 S7] Ht [D1 D2 D3 D4 D5 D6 D7 D8] Hb Hl Hlog Hds Hcs Hx.
  assert (time c' = time c) as Hc by by destruct D1 as [(_ & _ & -> & _) _].
  assert (forall y, y ∈ l' -> reclaimed y = true -> start_time y <= time c) as Hrec.
  { intros y Hy Hr. destruct (D8 y Hy Hr) as [Hy'|?]; [specialize (S4 y Hy' Hr); lia|done]. }
  assert (forall a b, (a, b) ∈ reg -> (exists y, y ∈ l' /\ start_time y = a /\ end_time y = b) \/
    (b <= time c /\ forall q n, (q, n) ∈ xs1 -> b <= time n)) as Hreg.
  { intros a b Hab. destruct (S6 a b Hab) as [(y & Hy & <- & <-)|[H1 H2]].
    - destruct (D7 y Hy) as [(z & Hz & <- & <-)|[H1 ->]]; [left; by exists z|]. right. split; [done|by intros ?? ?%elem_of_nil].
    - right. split; [lia|]. intros p n Hp. destruct D4 as [->| ->]; [by eapply H2|by apply elem_of_nil in Hp]. }
  split; [done|by rewrite Hl| |by rewrite Hl| | |].
  - rewrite Hl. intros y Hy. split.
    + intros Hr. destruct (D2 y Hy) as [Hnil _]. specialize (Hnil Hr). subst xs1. destruct xs' as [|x xs']; [done|].
      exfalso. destruct (Hx x ltac:(by left)) as [[Hn _]|Hin]; [|by apply elem_of_nil in Hin].
      specialize (D6 Hn y Hy). specialize (Hrec y Hy Hr). lia.
    + intros p n Hp. destruct (Hx _ Hp) as [[Hn [= -> ->]]|Hin]; [cbn; specialize (D6 Hn y Hy); lia|by apply (D2 y Hy) in Hin].
  - intros p n Hp. destruct (Hx _ Hp) as [[Hn [= -> ->]]|Hin]; [cbn; lia|].
    destruct D4 as [->| ->]; [specialize (S5 p n Hin); lia|by apply elem_of_nil in Hin].
  - intros a b Hab. rewrite Hl. destruct (Hreg a b Hab) as [?|[H1 H2]]; [by left|]. right. split; [done|].
    intros p n Hp. destruct (Hx _ Hp) as [[Hn [= -> ->]]|Hin]; [cbn; lia|by eapply H2].
  - intros k Hk. rewrite Hlog in Hk. apply elem_of_app in Hk as [[Hk|Hk]%elem_of_app|Hk].
    + destruct (S7 k Hk) as [H1 H2]. split; [done|]. repeat case_match; try done; lia.
    + rewrite Forall_forall in Hds. destruct (not_two_clear k (Hds k Hk)) as [H1 H2]. split; [intros; apply H1|apply H2].
    + destruct Hcs as [(Hf & p & n & Hp & Hkn & ->)| ->]; [|by apply elem_of_nil in Hk].
      unfold two_call in Hk. destruct (_ && _); [|by apply elem_of_nil in Hk]. apply list_elem_of_singleton in Hk as ->.
      split; [|cbn; lia]. intros a b Hab. cbn. destruct (Hreg a b Hab) as [(y & Hy & <- & <-)|[H1 H2]].
      * left. specialize (D5 Hf y Hy). lia.
      * right. by eapply H2.
Qed.

Lemma sampled_ok x t reg s xs q : sound t reg s xs -> t <= s_time x -> extra_evsel cfg = None -> s_trigger x = false ->
  is_Some (perins_list s !! s_ins x) -> s_mem x = Some q -> fresh q xs ->
  exists s' xs', step (Sampled x) s = Some s' /\ sound (s_time x) reg s' xs' /\
    (forall i, is_Some (perins_list s !! i) -> is_Some (perins_list s' !! i)) /\
    (forall p, p ∈ xs'.*1 -> p = q \/ p ∈ xs.*1).
Proof.
  intros Hsd Ht He Htr Hi Hq Hfresh. pose proof Hsd as [Hb Hasc Hbef Hrec Htimes _ _]. cbn [step].
  destruct (traced_node cfg x) as [node|] eqn:Ex.
  2: { destruct (sample_skipped cfg object_find Htl go_on ins_key x s Ex He Htr) as (r & h & ->). eexists _, xs. split; [reflexivity|].
       split; [|split; [done|by right]]. apply (sound_later t); [|done]. destruct Hsd. split; try done. by destruct Hb; split. }
  unfold traced_node in Ex. unfold multi_trace_sample.
  destruct (find_list 0 (s_evsel x) (tp_list cfg)) as [[[i tt] tp1]|]; [|done]. rewrite Htr, Htl.
  destruct (untraced tt); [done|]. clear Ex. set (c := current cfg x i tt tp1 _). rewrite Hq.
  match goal with |- context [handle _ _ _ _ _ _ _ ?z] => set (s1 := z) end.
  assert (exists r h, s1 = set_nodes (<[CURRENT := c]> (nodes s)) (set_handled h (set_recent r s))) as (r & h & Hs1).
  { exists (if recent_time s <? s_time x then s_time x else recent_time s), (u64 (event_handled s + 1)). unfold s1, c.
    by destruct (recent_time s <? s_time x); destruct s. }
  assert (backed s1 xs) as Hb1.
  { rewrite Hs1. apply (backed_cur (set_handled h (set_recent r s))); [by destruct Hb; split|].
    intros p Hp. cbn. by rewrite lookup_insert_ne. }
  assert (nodes s1 !! CURRENT = Some c) as Hc1 by (rewrite Hs1; cbn; by rewrite lookup_insert_eq).
  assert (timeline_lost_list s1 = timeline_lost_list s) as Hl1 by by rewrite Hs1.
  unfold handle, multi_trace_event_lost. rewrite Hc1. cbn [mbind option_bind]. rewrite Hall.
  destruct (lost_loop_ok (timeline_lost_list s1) s1 xs c) as (l' & s2 & xs1 & c' & -> & Hb2 & Hc2 & Hd & [(ds & Hlog2 & Hds) Hp2]);
    [done|done|by rewrite Hl1|by rewrite Hl1|]. cbn [mbind option_bind].
  assert (forall x, x ∈ xs1 -> x ∈ xs) as Hsub1 by (destruct (d_sub _ _ _ _ _ _ Hd) as [->| ->]; [done|by intros ? ?%elem_of_nil]).
  pose proof (d_weaker _ _ _ _ _ _ Hd) as ((_ & _ & Wt & _) & Wi & W1 & Wr & _).
  assert (backed (set_lost_all l' s2) xs1) as Hb3 by by destruct Hb2; split.
  destruct (handle_rest_ok cfg object_find Htl Hnested Hcall (set_lost_all l' s2) xs1 c' q) as
    (b & nf & s4 & xs' & cs & -> & Hb4 & Hf4 & Hcs & Hx4).
  - done.
  - exact Hc2.
  - rewrite Wi. cbn. apply Hp2. rewrite Hs1. exact Hi.
  - rewrite Wr. cbn. by rewrite Hnested.
  - rewrite W1. cbn. by rewrite Hnested.
  - destruct Hfresh as [F1 F2]. split; [done|]. intros Hin. apply F2. apply list_elem_of_fmap in Hin as (y & -> & Hin).
    apply list_elem_of_fmap. exists y. split; [done|by apply Hsub1].
  - intros p n Hp _. specialize (Htimes p n (Hsub1 _ Hp)). cbn in Wt. lia.
  - cbn [mbind option_bind]. eexists _, xs'. split; [reflexivity|]. split; [|split].
    + rewrite Hl1 in Hd. apply (sampled_sound t reg s _ xs xs1 xs' l' c c' q cs ds); try done.
      * apply backed_cur; [done|]. intros p Hp. by rewrite lookup_delete_ne.
      * cbn. by rewrite (f_all _ _ Hf4).
      * cbn. rewrite (f_log _ _ Hf4). cbn. rewrite Hlog2. by rewrite Hs1.
      * destruct Hcs as [?|[_ ?]]; [by left|by right].
      * intros y Hy. apply Hx4 in Hy as [?|[? _]]; [by left|by right].
    + intros j Hj. cbn. apply (f_perins _ _ Hf4). cbn. apply Hp2. rewrite Hs1. exact Hj.
    + intros p Hp. apply list_elem_of_fmap in Hp as (y & -> & Hy). apply Hx4 in Hy as [[_ ->]|[Hy _]]; [by left|right].
      apply list_elem_of_fmap. exists y. split; [done|by apply Hsub1].
Qed.

Lemma elem_of_lost_insert new x l : x ∈ lost_insert new l <-> x = new \/ x ∈ l.
Proof. induction l as [|pos l IH]; cbn; [set_solver|]. destruct (_ <? _); set_solver. Qed.

Lemma lost_insert_ascending new l : ascending l -> ascending (lost_insert new l).
Proof.
  induction 1 as [|pos l Hl IH Hle]; cbn; [by repeat constructor|]. rewrite Forall_forall in Hle.
  destruct (Z.ltb_spec (start_time new) (start_time pos)) as [H|H].
  - constructor; [by constructor; [|apply Forall_forall]|]. apply Forall_forall.
    intros x [->|Hx]%elem_of_cons; [lia|]. specialize (Hle x Hx). lia.
  - constructor; [done|]. apply Forall_forall. intros x [->|Hx]%elem_of_lost_insert; [lia|by apply Hle].
Qed.

(** A notice of lost events that start after all samples so far. *)
Lemma lost_ok i a b t reg s xs : sound t reg s xs -> t <= a ->
  exists s', step (Lost i a b) s = Some s' /\ sound t ((a, b) :: reg) s' xs /\ perins_list s' = perins_list s.
Proof.
  intros [S1 S2 S3 S4 S5 S6 S7] Ha. cbn [step]. unfold multi_trace_lost. rewrite Hall, Horder. cbn [negb andb].
  eexists. split; [reflexivity|]. split; [|done]. split; cbn [set_lost_all timeline_lost_list log]; try done.
  - by destruct S1; split.
  - by apply lost_insert_ascending.
  - intros x [->|Hx]%elem_of_lost_insert; [|by apply S3]. split; [done|]. intros q n Hq. cbn. specialize (S5 q n Hq). lia.
  - intros x [->|Hx]%elem_of_lost_insert; [done|by apply S4].
  - intros a' b' [[= -> ->]|Hab]%elem_of_cons; [left; eexists; split; [by apply elem_of_lost_insert; left|done]|].
    destruct (S6 a' b' Hab) as [(x & Hx & Hx')|?]; [left|by right]. exists x. split; [by apply elem_of_lost_insert; right|done].
  - intros c Hc. destruct (S7 c Hc) as [H1 H2]. split; [|done].
    intros a' b' [[= -> ->]|Hab]%elem_of_cons; [|by apply H1]. destruct c as [? ? ? ? [|] ? ? ?| |]; try done. cbn. lia.
Qed.

(** ** Sequences *)

(** Samples in the order of their times; what was lost starts after the samples before
    the notice. *)
Fixpoint ordered (t : Z) (l : list item) : Prop :=
  match l with
  | [] => True
  | Sampled x :: l => t <= s_time x /\ ordered (s_time x) l
  | Lost _ a _ :: l => t <= a /\ ordered t l
  end.

Definition mem_of (it : item) : option Z := match it with Sampled x => s_mem x | Lost _ _ _ => None end.
Definition lost_of (it : item) : option (Z * Z) := match it with Sampled _ => None | Lost _ a b => Some (a, b) end.
Definition served_item (s : ctx) (it : item) : Prop :=
  match it with
  | Sampled x => is_Some (perins_list s !! s_ins x) /\ s_trigger x = false /\ is_Some (s_mem x)
  | Lost _ _ _ => True
  end.

Lemma served_item_later s s' it : (forall i, is_Some (perins_list s !! i) -> is_Some (perins_list s' !! i)) ->
  served_item s it -> served_item s' it.
Proof. intros Hp. destruct it; [|done]. intros (? & ? & ?). split; [by apply Hp|done]. Qed.

Lemma run_items_cons it l s : run_items (it :: l) s = s ← step it s; run_items l s.
Proof. unfold run_items. cbn. destruct (step it s); [done|]. cbn. by induction l. Qed.

Lemma run_items_ok : forall l t reg s xs, sound t reg s xs -> extra_evsel cfg = None -> ordered t l ->
  Forall (served_item s) l -> NoDup (omap mem_of l) -> CURRENT ∉ omap mem_of l ->
  (forall p, p ∈ omap mem_of l -> p ∉ xs.*1) ->
  exists t' reg' s' xs', run_items l s = Some s' /\ sound t' reg' s' xs' /\
    forall ab, ab ∈ reg' <-> ab ∈ reg \/ ab ∈ omap lost_of l.
Proof.
  induction l as [|it l IH]; intros t reg s xs Hsd He Ho Hs Hd Hc Hnew.
  { exists t, reg, s, xs. split; [done|]. split; [done|]. cbn. set_solver. }
  apply Forall_cons in Hs as [Hit Hs]. rewrite run_items_cons. destruct it as [x|i a b]; cbn in Ho; destruct Ho as [Ht Ho].
  - destruct Hit as (Hi & Htr & [q Hq]). cbn in Hd, Hc, Hnew. rewrite Hq in Hd, Hc, Hnew. apply NoDup_cons in Hd as [Hq' Hd].
    destruct (sampled_ok x t reg s xs q Hsd Ht He Htr Hi Hq) as (s1 & xs1 & -> & Hsd1 & Hp & Hsub).
    { split; [set_solver|]. apply Hnew. by left. }
    cbn [mbind option_bind]. apply (IH (s_time x) reg s1 xs1); try done.
    + eapply Forall_impl; [exact Hs|]. intros it. by apply served_item_later.
    + set_solver.
    + intros p Hp' Hin. apply Hsub in Hin as [->|Hin]; [done|]. by apply (Hnew p); [right|].
  - destruct (lost_ok i a b t reg s xs Hsd Ht) as (s1 & -> & Hsd1 & Hp). cbn [mbind option_bind].
    destruct (IH t ((a, b) :: reg) s1 xs) as (t' & reg' & s' & xs' & E & Hsd' & Hreg); try done.
    { eapply Forall_impl; [exact Hs|]. intros it. apply served_item_later. intros j. by rewrite Hp. }
    exists t', reg', s', xs'. split; [done|]. split; [done|]. intros ab. rewrite Hreg. cbn. set_solver.
Qed.

Lemma sound_init t k : sound t [] (ctx_init k) [].
Proof. split; cbn; [apply backed_init|constructor|apply backup_before_nil| | | |]; by intros; set_solver. Qed.

(** ** Property *)

(** C22: Pairs of two events without --detail: no timeline, no pending nodes, no nested
    pairs, no class that follows calls, no extra event and no trigger.  Where lost
    events affect all instances and records are ordered, so that samples come in the order
    of their times and a notice before the samples after the start of what it tells of, and
    there is memory for each sample, at an address of its own: whatever the lists of events,
    the keys, the class's answers, the thresholds of time and how notices of lost events
    and samples follow each other, the run does not fail and no pair is reported that could
    have an event missing between its two - the pair ends before what was lost starts or
    begins after it ends. *)
Theorem lost_pairs_clear l k t :
  extra_evsel cfg = None -> ordered t l ->
  Forall (fun it => match it with Sampled x => 0 <= s_ins x < Z.of_nat k /\ s_trigger x = false /\ is_Some (s_mem x) | _ => True end) l ->
  NoDup (omap mem_of l) -> CURRENT ∉ omap mem_of l ->
  exists s, run_items l (ctx_init k) = Some s /\ forall i a b c, Lost i a b ∈ l -> c ∈ log s -> clear_of a b c.
Proof.
  intros He Ho Hl Hd Hc.
  destruct (run_items_ok l t [] (ctx_init k) [] (sound_init t k)) as (t' & reg & s & xs & E & Hsd & Hreg); try done.
  - eapply Forall_impl; [exact Hl|]. intros [x|? ? ?]; [|done]. intros (Hi & ? & ?). split; [cbn; by rewrite per_ins_lookup|done].
  - by intros p _ ?%elem_of_nil.
  - exists s. split; [done|]. intros i a b c Hin Hlog. apply (o_log _ _ _ _ Hsd c Hlog). apply Hreg. right.
    apply list_elem_of_omap. by exists (Lost i a b).
Qed.
End lost.

(** ** An example

    Of the three pairs the middle one is not reported: events from 35 to 45 were lost. *)

Definition lost_cfg : config := Config false false false true true 0 0 0 false [[enter]; [leave]] None.
Definition lost_items : list item :=
  (Sampled ∘ ex_sample <$> [(10, 101, 7, 8); (20, 102, 7, 16); (30, 101, 7, 24)]) ++
  Lost 0 35 45 :: (Sampled ∘ ex_sample <$> [(50, 102, 7, 32); (60, 101, 7, 40); (70, 102, 7, 48)]).

Lemma lost_pairs_clear_witness : exists s,
  run_items lost_cfg (fun a b => bool_decide ((a, b) ∈ class_pairs lost_cfg)) (fun _ => true) (fun i => i) lost_items (ctx_init 1) = Some s /\
  log s = [Two 1 (Some 2) (Event 10 64) 10 (Some (Event 20 64)) 20 7 None;
           Remaining 1 (Event 30 64) 30 7 35 REMAINING_LOST None;
           Two 1 (Some 2) (Event 60 64) 60 (Some (Event 70 64)) 70 7 None] /\
  (forall i a b c, Lost i a b ∈ lost_items -> c ∈ log s -> clear_of a b c).
Proof.
  destruct (lost_pairs_clear lost_cfg (fun a b => bool_decide ((a, b) ∈ class_pairs lost_cfg)) (fun _ => true) (fun i => i)
    eq_refl eq_refl eq_refl eq_refl eq_refl lost_items 1 0) as (s & E & Hl).
  - done.
  - cbn. lia.
  - repeat constructor; cbn; try lia; by eexists.
  - apply (bool_decide_unpack _). by vm_compute.
  - apply (bool_decide_unpack _). by vm_compute.
  - exists s. split; [exact E|]. split; [|exact Hl].
    match type of E with ?x = _ => let y := eval vm_compute in x in assert (x = y) as E' by by vm_compute end.
    rewrite E in E'. injection E' as ->. done.
Defined.
