(* ===== verification/TwoEvent.v ===== *)
(** * Classes of pairs (two-event.c)

    What is made of the pairs of [MultiTrace]: the objects of a class by their attributes
    and by number, the delays with their statistics (latency_helpers.c), the system calls
    with their errors, and the counts of pairs. *)

From stdpp Require Import strings.
From S2P Require Import MultiTrace.
From S2P Require Import Prelude RbTree RbShape RbRep RbWalk RbMain RbList RbMap LatencyDist.

(** ** Objects *)

Section objects.
(** What a class adds to its objects, zeroed. *)
Context {X : Type} (zero : X).

(** The attributes by address; the second may be null. *)
Record two_event := TwoEvent { tp1 : Z; tp2 : Z; id : Z; derived : X }.
Record two_entry := TwoEntry { en_tp1 : Z; en_tp2 : Z; en_id : Z }.

Definition two_event_node_cmp (two : two_event) (e : two_entry) : Z :=
  if en_tp1 e <? tp1 two then 1 else if tp1 two <? en_tp1 e then -1
  else if en_tp2 e <? tp2 two then 1 else if tp2 two <? en_tp2 e then -1 else 0.
#[local] Instance two_ops : NodeOps two_event two_entry :=
  {| node_cmp := two_event_node_cmp; node_new := fun e => TwoEvent (en_tp1 e) (en_tp2 e) (en_id e) zero |}.

(** The second list has the same objects by their numbers. *)
Definition two_event_node_cmp_byid (two e : Z) : Z := if e <? two then 1 else if two <? e then -1 else 0.
#[local] Instance byid_ops : NodeOps Z Z := {| node_cmp := two_event_node_cmp_byid; node_new := fun e => e |}.

Record two_event_class := Class {
  two_events : rblist two_event;
  two_events_byid : rblist Z;
  ids : Z
}.
Definition two_event_class_new : two_event_class := Class rblist__init rblist__init 0.

(** A node that is in no tree. *)
Definition clear_node (p : Z) : rb_node := Node p 0 0.

(** What [two_event_node_new] does outside the new node. *)
Definition two_event_node_new (p : Z) (c : two_event_class) : option two_event_class :=
  '(_, byid) ← rblist__findnew (Some (p, clear_node p)) (ids c) (two_events_byid c);
  Some (Class (two_events c) byid (u32 (ids c + 1))).
(** [mem] is the address of the memory for an object. *)
Definition two_event_new (mem : option Z) (t1 t2 : Z) (c : two_event_class) : option (Z * two_event_class) :=
  '(p, l) ← rblist__findnew ((fun p => (p, clear_node p)) <$> mem) (TwoEntry t1 t2 (ids c)) (two_events c);
  if (p =? 0) || bool_decide (is_Some (contents (two_events c) !! p)) then Some (p, Class l (two_events_byid c) (ids c))
  else c ← two_event_node_new p (Class l (two_events_byid c) (ids c)); Some (p, c).

Definition two_event_find (t1 t2 : Z) (c : two_event_class) : option Z :=
  rblist__find (TwoEntry t1 t2 0) (two_events c).
Definition two_event_find_byid (i : Z) (c : two_event_class) : option Z := rblist__find i (two_events_byid c).

(** An object that is not being deleted already; [two_event_node_delete] with it. *)
Definition two_event_delete (p : Z) (c : two_event_class) : option two_event_class :=
  l ← rblist__remove_node p (two_events c);
  byid ← rblist__remove_node p (two_events_byid c);
  Some (Class l byid (ids c)).
Fixpoint class_exit_loop (fuel : nat) (next : Z) (c : two_event_class) : option two_event_class :=
  match fuel with
  | O => None
  | S fuel =>
      if next =? 0 then Some c
      else
        '(next', _) ← rb_next next (rb_root (entries (two_events c)));
        c ← two_event_delete next c;
        class_exit_loop fuel next' c
  end.
Definition two_event_class_delete (c : two_event_class) : option two_event_class :=
  class_exit_loop (S (size (nodes (rb_root (entries (two_events c)))))) (rb_leftmost (entries (two_events c))) c.

(** ** The objects by attributes and by number *)

Definition pair_key (t1 t2 : Z) : triple := (t1, t2, 0).
#[local] Instance two_laws : NodeLaws (H := two_ops) two_event two_entry triple.
Proof.
  refine {| key := fun o => pair_key (tp1 o) (tp2 o) : triple; ekey := fun e => pair_key (en_tp1 e) (en_tp2 e);
    before_key := triple_lt |}; unfold triple_lt; [lia|lia| | | |done].
  all: intros v e; cbn [node_cmp two_ops]; unfold two_event_node_cmp; rewrite ?triple_eq; cbn [fst snd pair_key].
  all: repeat case_match; lia.
Defined.
#[local] Instance byid_laws : NodeLaws (H := byid_ops) Z Z Z.
Proof.
  refine {| key := fun v => v : Z; ekey := fun e => e; before_key := Z.lt |}; [lia|lia| | | |done].
  all: intros v e; cbn [node_cmp byid_ops]; unfold two_event_node_cmp_byid; repeat case_match; lia.
Defined.

Definition objects (l : rblist two_event) (xs : list (Z * two_event)) : Prop := lists (H0 := two_laws) l xs.

Definition numbered (xs : list (Z * two_event)) : list (Z * Z) := (fun x => (x.1, id x.2)) <$> xs.

(** The two lists have the same objects; their numbers are among those given out so far. *)
Record class_ok (c : two_event_class) (xs : list (Z * two_event)) : Prop := {
  c_objects : objects (two_events c) xs;
  c_byid : exists ys, lists (H0 := byid_laws) (two_events_byid c) ys /\ ys ≡ₚ numbered xs;
  c_ids : forall p o, (p, o) ∈ xs -> 0 <= id o < ids c
}.

Lemma numbered_addresses xs : (numbered xs).*1 = xs.*1.
Proof. unfold numbered. rewrite <- list_fmap_compose. done. Qed.

Lemma new_class_ok : class_ok two_event_class_new [].
Proof.
  split; cbn; [apply (init_lists (H0 := two_laws))| |by intros ?? ?%elem_of_nil].
  exists []. split; [apply (init_lists (H0 := byid_laws))|done].
Qed.

Lemma object_find_ok c xs t1 t2 : class_ok c xs ->
  (exists q o, (q, o) ∈ xs /\ tp1 o = t1 /\ tp2 o = t2 /\ two_event_find t1 t2 c = Some q /\ q <> 0) \/
  ((forall q o, (q, o) ∈ xs -> ~ (tp1 o = t1 /\ tp2 o = t2)) /\ two_event_find t1 t2 c = Some 0).
Proof.
  intros [Ho _ _]. unfold two_event_find, rblist__find.
  destruct (RbList.find_ok (H0 := two_laws) (TwoEntry t1 t2 0) (two_events c) xs Ho None false)
    as [(q & o & Hq & Hk & E & _)|(Hno & _ & E & _)].
  - left. exists q, o. injection Hk as H1 H2. split; [done|]. split; [done|]. split; [done|]. rewrite E. split; [done|].
    by eapply (lists_pos (H0 := two_laws)).
  - right. split; [|by rewrite E; [|left]]. intros q o Hq [<- <-]. by apply (Hno q o Hq).
Qed.

(** The object with a number is found by it. *)
Lemma object_byid_ok c xs q o : class_ok c xs -> (q, o) ∈ xs -> two_event_find_byid (id o) c = Some q.
Proof.
  intros [Ho (ys & Hy & Hp) _] Hq. unfold two_event_find_byid, rblist__find.
  assert ((q, id o) ∈ ys) as Hqy by (rewrite Hp; apply list_elem_of_fmap; by exists (q, o)).
  destruct (RbList.find_ok (H0 := byid_laws) (id o) (two_events_byid c) ys Hy None false) as [(a & i & Ha & Hk & E & _)|(Hno & _)].
  2: { by destruct (Hno q (id o) Hqy). }
  rewrite E. cbn. cbn in Hk. subst i. f_equal.
  pose proof (lists_keys_nodup (H0 := byid_laws) _ _ Hy) as Hd. unfold by_key in Hd.
  apply list_elem_of_lookup in Ha as [m Ha], Hqy as [m' Hqy].
  assert (m = m') as <-; [|congruence].
  eapply NoDup_lookup; [exact Hd| |]; rewrite !list_lookup_fmap; [by rewrite Ha|by rewrite Hqy].
Qed.

Lemma object_new_ok c xs p t1 t2 : class_ok c xs -> ids c < 2 ^ 32 - 1 -> 0 <= ids c -> addr p -> p ∉ xs.*1 ->
  exists q c', two_event_new (Some p) t1 t2 c = Some (q, c') /\ q <> 0 /\
    ((c' = c /\ exists o, (q, o) ∈ xs /\ tp1 o = t1 /\ tp2 o = t2) \/
     (q = p /\ (forall a o, (a, o) ∈ xs -> ~ (tp1 o = t1 /\ tp2 o = t2)) /\ ids c' = ids c + 1 /\
      exists xs', class_ok c' xs' /\ xs' ≡ₚ (p, TwoEvent t1 t2 (ids c) zero) :: xs)).
Proof.
  intros Hc Hi Hi0 Ha Hp. pose proof Hc as [Ho (ys & Hy & Hperm) Hids]. unfold two_event_new.
  destruct (RbList.find_ok (H0 := two_laws) (TwoEntry t1 t2 (ids c)) (two_events c) xs Ho (Some (p, clear_node p)) true)
    as [(q & o & Hq & Hk & E & _)|(Hno & _ & _ & Hadd)].
  - unfold rblist__findnew. cbn [fmap option_fmap option_map]. rewrite E. cbn [mbind option_bind].
    rewrite (proj2 (Z.eqb_neq _ _) (lists_pos (H0 := two_laws) _ _ _ _ Ho Hq)), bool_decide_true.
    2: { exists o. by apply (lists_lookup (H0 := two_laws) _ _ _ _ Ho). }
    exists q, c. split; [by destruct c|]. split; [by eapply (lists_pos (H0 := two_laws))|]. left. split; [done|].
    injection Hk as H1 H2. by exists o.
  - destruct (Hadd p (clear_node p) eq_refl Ha Hp) as (l & xs1 & xs2 & _ & E & -> & _ & _ & Hl).
    unfold rblist__findnew at 1. cbn [fmap option_fmap option_map]. rewrite (E eq_refl). cbn [mbind option_bind].
    assert (p <> 0) as Hp0 by (destruct Ha; lia).
    rewrite (proj2 (Z.eqb_neq _ _) Hp0), bool_decide_false.
    2: { intros [o Hlk]. apply (lists_lookup (H0 := two_laws) _ _ _ _ Ho) in Hlk. apply Hp, list_elem_of_fmap. by exists (p, o). }
    cbn [orb]. unfold two_event_node_new. cbn [two_events_byid ids two_events].
    assert (p ∉ ys.*1) as Hpy by (rewrite Hperm, numbered_addresses; done).
    destruct (RbList.find_ok (H0 := byid_laws) (ids c) (two_events_byid c) ys Hy (Some (p, clear_node p)) true)
      as [(a & i & Hin & Hk & _)|(_ & _ & _ & Hadd')].
    { exfalso. cbn in Hk. subst i. rewrite Hperm in Hin. apply list_elem_of_fmap in Hin as ([a' o] & [= -> Heq] & Hin).
      specialize (Hids a' o Hin). lia. }
    destruct (Hadd' p (clear_node p) eq_refl Ha Hpy) as (l2 & ys1 & ys2 & _ & E2 & -> & _ & _ & Hl2).
    unfold rblist__findnew. rewrite (E2 eq_refl). cbn [mbind option_bind].
    exists p, (Class l l2 (u32 (ids c + 1))). split; [done|]. split; [done|]. right. split; [done|].
    split; [intros a o Hin [<- <-]; by apply (Hno a o Hin)|]. cbn [ids].
    assert (u32 (ids c + 1) = ids c + 1) as Hu by (apply u32_small; lia). split; [done|].
    exists (xs1 ++ (p, TwoEvent t1 t2 (ids c) zero) :: xs2). split; [|by rewrite Permutation_middle].
    split; [exact Hl| |].
    + exists (ys1 ++ (p, ids c) :: ys2). split; [exact Hl2|]. unfold numbered in *. rewrite fmap_app in *. cbn.
      rewrite <- !Permutation_middle. by rewrite Hperm.
    + cbn. rewrite Hu. intros a o Hin. assert ((a, o) ∈ xs1 ++ xs2 \/ (a, o) = (p, TwoEvent t1 t2 (ids c) zero)) as [Hin'|[= -> ->]] by set_solver.
      * specialize (Hids a o Hin'). lia.
      * cbn. lia.
Qed.

Lemma object_delete_ok c xs p o : class_ok c xs -> (p, o) ∈ xs ->
  exists c' xs1 xs2, two_event_delete p c = Some c' /\ xs = xs1 ++ (p, o) :: xs2 /\ class_ok c' (xs1 ++ xs2) /\ ids c' = ids c.
Proof.
  intros [Ho (ys & Hy & Hperm) Hids] Hp. unfold two_event_delete.
  assert ((p, id o) ∈ ys) as Hpy by (rewrite Hperm; apply list_elem_of_fmap; by exists (p, o)).
  apply list_elem_of_split in Hp as (xs1 & xs2 & ->). apply list_elem_of_split in Hpy as (ys1 & ys2 & ->).
  destruct (remove_node_ok (H0 := two_laws) _ _ _ _ _ Ho) as (l & -> & Hl).
  destruct (remove_node_ok (H0 := byid_laws) _ _ _ _ _ Hy) as (l2 & -> & Hl2). cbn [mbind option_bind].
  eexists _, xs1, xs2. split; [reflexivity|]. split; [done|]. split; [|done]. split; [exact Hl| |].
  - exists (ys1 ++ ys2). split; [exact Hl2|]. unfold numbered in *. rewrite fmap_app in *. cbn in Hperm.
    rewrite <- !Permutation_middle in Hperm. by apply Permutation_cons_inv in Hperm.
  - cbn. intros a b Hab. apply (Hids a b). set_solver.
Qed.

Lemma class_exit_ok : forall xs c fuel, class_ok c xs -> (length xs < fuel)%nat ->
  exists c', class_exit_loop fuel (first0 xs.*1) c = Some c' /\ class_ok c' [].
Proof.
  induction xs as [|[p o] xs IH]; intros c [|fuel] Hc Hf; cbn in Hf; try lia; [by exists c|].
  change (first0 ((p, o) :: xs).*1) with p. cbn [class_exit_loop]. pose proof (c_objects _ _ Hc) as Ho.
  rewrite (proj2 (Z.eqb_neq _ _) (lists_pos (H0 := two_laws) _ _ p o Ho ltac:(by left))).
  rewrite (lists_next (H0 := two_laws) _ [] p o xs Ho). cbn [mbind option_bind].
  destruct (object_delete_ok c _ p o Hc ltac:(by left)) as (c' & xs1 & xs2 & -> & Hx & Hc' & _). cbn [mbind option_bind].
  assert (xs1 = []) as ->.
  { destruct xs1 as [|y xs1]; [done|]. exfalso. injection Hx as <- ->. pose proof (lists_nodup (H0 := two_laws) _ _ Ho) as Hd.
    cbn in Hd. apply NoDup_cons in Hd as [Hd _]. apply Hd. rewrite fmap_app. set_solver. }
  injection Hx as <-. apply IH; [done|lia].
Qed.

Lemma class_delete_ok c xs : class_ok c xs -> exists c', two_event_class_delete c = Some c' /\ class_ok c' [].
Proof.
  intros Hc. unfold two_event_class_delete. pose proof (c_objects _ _ Hc) as Ho.
  rewrite (lists_size (H0 := two_laws) _ _ Ho), (lists_leftmost (H0 := two_laws) _ _ Ho). apply class_exit_ok; [done|lia].
Qed.

(** What the class adds to an object is replaced. *)
Definition with_derived (q : Z) (o : two_event) (x : X) (c : two_event_class) : two_event_class :=
  Class (set_contents q (TwoEvent (tp1 o) (tp2 o) (id o) x) (two_events c)) (two_events_byid c) (ids c).
Lemma with_derived_ok c ys q o zs x : class_ok c (ys ++ (q, o) :: zs) ->
  class_ok (with_derived q o x c) (ys ++ (q, TwoEvent (tp1 o) (tp2 o) (id o) x) :: zs).
Proof.
  intros [Ho (l & Hl & Hperm) Hids]. split.
  - by apply (set_ok (H0 := two_laws) _ _ _ _ _ _ Ho).
  - exists l. split; [exact Hl|]. unfold numbered in *. rewrite fmap_app in *. exact Hperm.
  - intros a b Hab. assert ((a, b) ∈ ys ++ zs \/ (a, b) = (q, TwoEvent (tp1 o) (tp2 o) (id o) x)) as [Hab'|[= -> ->]] by set_solver.
    + apply (Hids a b). set_solver.
    + apply (Hids q o). set_solver.
Qed.

(** ** Creating and deleting objects *)

Inductive object_op := New (p t1 t2 : Z) | Delete (t1 t2 : Z).
Definition object_step (op : object_op) (c : two_event_class) : option two_event_class :=
  match op with
  | New p t1 t2 => '(_, c) ← two_event_new (Some p) t1 t2 c; Some c
  | Delete t1 t2 => p ← two_event_find t1 t2 c; if p =? 0 then Some c else two_event_delete p c
  end.
Definition run_objects (ops : list object_op) : option two_event_class :=
  foldl (fun c op => c ← c; object_step op c) (Some two_event_class_new) ops.

(** The attributes there are objects of. *)
Definition present (ops : list object_op) : gset (Z * Z) :=
  foldl (fun s op => match op with New _ t1 t2 => {[(t1, t2)]} ∪ s | Delete t1 t2 => s ∖ {[(t1, t2)]} end) ∅ ops.
Definition object_mem (op : object_op) : option Z := match op with New p _ _ => Some p | Delete _ _ => None end.

Lemma objects_unique c xs q q' o o' : class_ok c xs -> (q, o) ∈ xs -> (q', o') ∈ xs -> tp1 o = tp1 o' -> tp2 o = tp2 o' ->
  q = q' /\ o = o'.
Proof.
  intros [Ho _ _] Hq Hq' H1 H2. pose proof (lists_keys_nodup (H0 := two_laws) _ _ Ho) as Hd. unfold by_key in Hd.
  apply list_elem_of_lookup in Hq as [m Hq], Hq' as [m' Hq']. assert (m = m') as <-; [|by rewrite Hq in Hq'; injection Hq'].
  eapply NoDup_lookup; [exact Hd| |]; rewrite !list_lookup_fmap; [by rewrite Hq|rewrite Hq'; cbn; by rewrite H1, H2].
Qed.

Lemma run_objects_ok ops : NoDup (omap object_mem ops) -> Forall addr (omap object_mem ops) -> Z.of_nat (length ops) < 2 ^ 32 - 1 ->
  exists c xs, run_objects ops = Some c /\ class_ok c xs /\ 0 <= ids c <= Z.of_nat (length ops) /\
    (forall a, a ∈ xs.*1 -> a ∈ omap object_mem ops) /\
    forall t1 t2, (t1, t2) ∈ present ops <-> exists q o, (q, o) ∈ xs /\ tp1 o = t1 /\ tp2 o = t2.
Proof.
  induction ops as [|op ops IH] using rev_ind; intros Hd Ha Hn.
  { exists two_event_class_new, []. split; [done|]. split; [apply new_class_ok|]. split; [done|]. split; [done|].
    intros t1 t2. unfold present. cbn. set_solver. }
  rewrite omap_app in Hd, Ha. rewrite length_app in Hn. cbn in Hn. apply NoDup_app in Hd as (Hd & Hx & _). apply Forall_app in Ha as [Ha Hao].
  destruct (IH Hd Ha ltac:(lia)) as (c & xs & E & Hc & Hi & Hsub & Hp). unfold run_objects, present in *.
  setoid_rewrite foldl_snoc. rewrite E, length_app. cbn [mbind option_bind length]. setoid_rewrite omap_app. destruct op as [p t1 t2|t1 t2]; cbn [object_step].
  - cbn in Hao, Hx. apply Forall_cons in Hao as [Hap _].
    assert (p ∉ xs.*1) as Hpx by (intros Hin; apply (Hx p); [by apply Hsub|by left]).
    destruct (object_new_ok c xs p t1 t2 Hc ltac:(lia) ltac:(lia) Hap Hpx) as (q & c' & -> & Hq & [[-> (o & Ho & <- & <-)]|(-> & Hno & Hi' & xs' & Hc' & Hperm)]);
      cbn [mbind option_bind].
    + exists c, xs. split; [done|]. split; [done|]. split; [lia|]. split; [intros a Hin; apply elem_of_app; left; by apply Hsub|].
      intros u1 u2. rewrite elem_of_union, elem_of_singleton, Hp. split; [|by right]. intros [[= -> ->]|?]; [by exists q, o|done].
    + exists c', xs'. split; [done|]. split; [done|]. split; [lia|]. split.
      * intros a. rewrite Hperm. cbn. rewrite elem_of_cons. intros [->|Hin]; apply elem_of_app; [right; by left|left; by apply Hsub].
      * intros u1 u2. rewrite elem_of_union, elem_of_singleton, Hp. setoid_rewrite Hperm. setoid_rewrite elem_of_cons. split.
        -- intros [[= -> ->]|(a & o & H1 & H2)]; [by eexists _, _; split; [by left|]|exists a, o; split; [by right|done]].
        -- intros (a & o & [[= -> ->]|Hin] & <- & <-); [by left|]. right. by exists a, o.
  - assert (forall y, y ∈ omap object_mem ops ++ omap object_mem [Delete t1 t2] <-> y ∈ omap object_mem ops) as Hmem by (cbn; set_solver).
    destruct (object_find_ok c xs t1 t2 Hc) as [(q & o & Ho & <- & <- & -> & Hq)|[Hno ->]]; cbn [mbind option_bind].
    + rewrite (proj2 (Z.eqb_neq _ _) Hq). destruct (object_delete_ok c xs q o Hc Ho) as (c' & xs1 & xs2 & -> & -> & Hc' & Hi').
      exists c', (xs1 ++ xs2). split; [done|]. split; [done|]. split; [lia|]. split.
      * intros a Hin. apply Hmem, Hsub. rewrite fmap_app in *. set_solver.
      * intros u1 u2. rewrite elem_of_difference, elem_of_singleton, Hp. split.
        -- intros ((a & b & Hin & <- & <-) & Hne). exists a, b. split; [|done].
           assert ((a, b) ∈ xs1 ++ xs2 \/ (a, b) = (q, o)) as [?|[= -> ->]] by set_solver; [done|by destruct Hne].
        -- intros (a & b & Hin & <- & <-). split; [exists a, b; split; [set_solver|done]|]. intros [= H1 H2].
           destruct (objects_unique c _ a q b o Hc) as [-> ->]; [set_solver|done|done|done|].
           pose proof (lists_nodup (H0 := two_laws) _ _ (c_objects _ _ Hc)) as Hnd. rewrite fmap_app, fmap_cons in Hnd.
           rewrite <- Permutation_middle in Hnd. apply NoDup_cons in Hnd as [Hnd _]. apply Hnd. rewrite <- fmap_app.
           apply list_elem_of_fmap. by exists (q, o).
    + cbn. exists c, xs. split; [done|]. split; [done|]. split; [lia|]. split; [intros a Hin; by apply Hmem, Hsub|].
      intros u1 u2. rewrite elem_of_difference, elem_of_singleton, Hp. split; [by intros [? _]|].
      intros (a & b & Hin & <- & <-). split; [by exists a, b|]. intros [= H1 H2]. by apply (Hno a b Hin).
Qed.

(** However objects are created and deleted, each in memory of its own: the object of
    two attributes is found while it was created and not deleted since, and only then; by
    its number - which the statistics keep instead of the object - the same object is
    found, so numbers are never used twice; and deleting the class leaves no object in
    either list. *)
Theorem two_events_indexed ops :
  NoDup (omap object_mem ops) -> Forall addr (omap object_mem ops) -> Z.of_nat (length ops) < 2 ^ 32 - 1 ->
  exists c, run_objects ops = Some c /\
    (forall t1 t2, exists q, two_event_find t1 t2 c = Some q /\
       if decide ((t1, t2) ∈ present ops)
       then exists o, contents (two_events c) !! q = Some o /\ tp1 o = t1 /\ tp2 o = t2 /\ two_event_find_byid (id o) c = Some q
       else q = 0) /\
    exists c', two_event_class_delete c = Some c' /\ rblist__empty (two_events c') = true /\
      rblist__empty (two_events_byid c') = true.
Proof.
  intros Hd Ha Hn. destruct (run_objects_ok ops Hd Ha Hn) as (c & xs & E & Hc & _ & _ & Hp). exists c. split; [done|]. split.
  - intros t1 t2. destruct (object_find_ok c xs t1 t2 Hc) as [(q & o & Ho & H1 & H2 & -> & _)|[Hno ->]]; eexists; (split; [done|]).
    + rewrite decide_True by (apply Hp; by exists q, o). exists o. split; [by apply (lists_lookup (H0 := two_laws) _ _ _ _ (c_objects _ _ Hc))|].
      do 2 (split; [done|]). by apply (object_byid_ok c xs).
    + rewrite decide_False; [done|]. intros (q & o & Ho & H)%Hp. by apply (Hno q o).
  - destruct (class_delete_ok c xs Hc) as (c' & -> & [Ho (ys & Hy & Hperm) _]). exists c'. split; [done|].
    unfold rblist__empty. rewrite (lists_nr (H0 := two_laws) _ _ Ho), (lists_nr (H0 := byid_laws) _ _ Hy).
    cbn in Hperm. apply Permutation_nil_r in Hperm as ->. done.
Qed.
End objects.

Definition ex_ops : list object_op := [New 8 1 0; New 16 1 2; New 24 1 2; Delete 1 0; New 32 3 0].
Lemma two_events_indexed_witness : exists c, run_objects false ex_ops = Some c /\
  two_event_find false 1 0 c = Some 0 /\ two_event_find false 1 2 c = Some 16 /\ two_event_find false 3 0 c = Some 32 /\
  two_event_find_byid 1 c = Some 16 /\ two_event_find_byid 2 c = Some 32.
Proof.
  destruct (two_events_indexed false ex_ops) as (c & E & Hc & _).
  - apply (bool_decide_unpack _). by vm_compute.
  - repeat constructor.
  - done.
  - exists c. split; [exact E|].
    destruct (Hc 1 0) as (q & E1 & _), (Hc 1 2) as (q2 & E2 & _). rewrite E1, E2.
    vm_compute in E. injection E as <-. vm_compute in E1, E2. injection E1 as <-. injection E2 as <-. by vm_compute.
Defined.

(** ** Error numbers *)

Definition MAX_ERRNO : Z := 4095.
Definition IS_ERR_VALUE (x : Z) : bool := u64 (- MAX_ERRNO) <=? u64 x.

Definition is_long (z : Z) : Prop := - 2 ^ 63 <= z < 2 ^ 63.

Lemma err_value_ok z : is_long z -> IS_ERR_VALUE z = bool_decide (-4095 <= z < 0).
Proof.
  unfold is_long, IS_ERR_VALUE, MAX_ERRNO, u64. intros Hz. assert (- (4095) mod 2 ^ 64 = 2 ^ 64 - 4095) as -> by done.
  destruct (Z.lt_ge_cases z 0).
  - replace (z mod 2 ^ 64) with (z + 2 ^ 64) by (apply (Z.mod_unique_pos _ _ (-1)); lia).
    case_bool_decide; lia.
  - rewrite Z.mod_small by lia. case_bool_decide; lia.
Qed.

(** ** Delays *)

Section delays.
Context {T : Type} (tdigest_new : T) (tdigest_add : T -> Z -> T).
(** The length of the name of an event, and its system and name. *)
Context (name_len : Z -> Z) (event_name : Z -> string * string).

(** The options the classes use. *)
Record two_event_options := Options {
  o_perins : bool;
  o_only_print_greater_than : bool;
  o_greater_than : Z;
  o_lower_than : Z;
  o_heatmap : bool;
  o_sort_print : bool
}.

(** An object adds whether its heat map is open. *)
Notation object := (two_event bool).
(** [heat] is what was written to heat maps, by object with time and delay, [printed] the
    pairs printed, by object, times and key. *)
Record delay_class := DelayClass {
  base : two_event_class (X := bool);
  max_len1 : Z;
  max_len2 : Z;
  lat_dist : option (latency_dist (T := T));
  heat : list (Z * Z * Z);
  printed : list (Z * Z * option Z * Z)
}.

Definition delay_class_new (opts : two_event_options) : delay_class :=
  DelayClass two_event_class_new 5 3 (Some (latency_dist_new_quantile (o_perins opts) true 0)) [] [].
Definition syscalls_class_new (opts : two_event_options) : delay_class :=
  DelayClass two_event_class_new 0 0 (Some (latency_dist_new (o_perins opts) true 8)) [] [].

Definition with_base (b : two_event_class) (c : delay_class) : delay_class :=
  DelayClass b (max_len1 c) (max_len2 c) (lat_dist c) (heat c) (printed c).
Definition with_dist (d : option latency_dist) (c : delay_class) : delay_class :=
  DelayClass (base c) (max_len1 c) (max_len2 c) d (heat c) (printed c).
Definition add_heat (x : Z * Z * Z) (c : delay_class) : delay_class :=
  DelayClass (base c) (max_len1 c) (max_len2 c) (lat_dist c) (heat c ++ [x]) (printed c).
Definition add_printed (x : Z * Z * option Z * Z) (c : delay_class) : delay_class :=
  DelayClass (base c) (max_len1 c) (max_len2 c) (lat_dist c) (heat c) (printed c ++ [x]).

(** [opened] says whether the heat map could be opened. *)
Definition delay_new (opts : two_event_options) (mem : option Z) (opened : bool) (t1 t2 : Z) (c : delay_class)
  : option (Z * delay_class) :=
  '(p, b) ← two_event_new false mem t1 t2 (base c);
  let c := with_base b c in
  if (p =? 0) || (t2 =? 0) then Some (p, c)
  else
    let c := DelayClass b (Z.max (max_len1 c) (name_len t1)) (Z.max (max_len2 c) (name_len t2)) (lat_dist c) (heat c) (printed c) in
    if o_heatmap opts then
      o ← contents (two_events b) !! p;
      Some (p, with_base (with_derived p o opened b) c)
    else Some (p, c).

(** [two] is null or an object, [mem] the memory for a node of the statistics. *)
Definition delay_two (opts : two_event_options) (mem : option (Z * rb_node)) (two time1 time2 k : Z) (c : delay_class)
  : option delay_class :=
  if two =? 0 then Some c
  else
    o ← contents (two_events (base c)) !! two;
    if time1 <? time2 then
      let delta := time2 - time1 in
      '(_, d) ← latency_dist_input tdigest_new tdigest_add mem (lat_dist c) k (id o) delta (o_greater_than opts);
      let c := with_dist d c in
      let c := if (derived o : bool) then add_heat (two, time2, delta) c else c in
      Some (if (negb (o_greater_than opts =? 0) && (o_greater_than opts <? delta)) ||
               (negb (o_lower_than opts =? 0) && (delta <? o_lower_than opts))
            then add_printed (two, time1, Some time2, k) c else c)
    else Some c.

(** Whether the iteration over what remains goes on. *)
Definition delay_remaining (opts : two_event_options) (two time1 k recent : Z) (rr : remaining_reason) (iter : bool)
  (c : delay_class) : bool * delay_class :=
  match rr with
  | REMAINING_LOST =>
      if two =? 0 then (true, c)
      else if (o_greater_than opts =? 0) || negb iter then (false, c)
      else if o_greater_than opts <? u64 (recent - time1) then (true, add_printed (two, time1, None, k) c)
      else (true, c)
  | _ => (false, c)
  end.

(** Whether a header was printed - [delay_print] prints no more -, and the nodes of the
    statistics [delay_print_node] is called with. *)
Definition delay_print_header (opts : two_event_options) (two : Z) (c : delay_class)
  : option (bool * list (latency_node (T := T)) * delay_class) :=
  if two =? 0 then Some (false, [], c)
  else if latency_dist_empty (lat_dist c) then Some (true, [], c)
  else
    some ← latency_dist_greater_than (lat_dist c) (o_greater_than opts);
    if o_only_print_greater_than opts && negb some then Some (true, [], c)
    else
      '(ns, d) ← (if o_sort_print opts then latency_dist_print_sorted (lat_dist c) else latency_dist_print (lat_dist c));
      Some (true, ns, with_dist d c).

Definition delay_class_delete (c : delay_class) : option unit :=
  _ ← latency_dist_free (lat_dist c);
  _ ← two_event_class_delete (base c);
  Some tt.

(** ** System calls *)

(** The raw data of the two events. *)
Record sys_enter := SysEnter { enter_pid : Z; enter_id : Z }.
Record sys_exit := SysExit { exit_pid : Z; exit_id : Z; ret : Z }.

Definition is_event (sys name : string) (t : Z) : bool := bool_decide (event_name t = (sys, name)).
Definition syscalls_new (opts : two_event_options) (mem : option Z) (opened : bool) (t1 t2 : Z) (c : delay_class)
  : option (Z * delay_class) :=
  if negb (is_event "raw_syscalls"%string "sys_enter"%string t1) || negb ((t2 =? 0) || is_event "raw_syscalls"%string "sys_exit"%string t2)
  then Some (0, c)
  else delay_new opts mem opened t1 t2 c.

(** The node of the statistics is written to whether there is one or not. *)
Definition syscalls_two (opts : two_event_options) (mem : option (Z * rb_node)) (two time1 time2 : Z)
  (enter : sys_enter) (exit : sys_exit) (k : Z) (c : delay_class) : option delay_class :=
  if two =? 0 then Some c
  else
    o ← contents (two_events (base c)) !! two;
    if time1 <? time2 then
      let delta := time2 - time1 in
      if negb (enter_pid enter =? exit_pid exit) || negb (enter_id enter =? exit_id exit) then Some c
      else
        '(p, d) ← latency_dist_input tdigest_new tdigest_add mem (lat_dist c) (u64 (enter_pid enter)) (u64 (enter_id enter)) delta
                    (o_greater_than opts);
        d ← d;
        node ← contents (lat d) !! p;
        errors ← head (extra node);
        let node := LatencyNode (td node) (instance node) (key_ node) (min node) (max node) (n node) (than node) (sum node)
                      (u64 (errors + if IS_ERR_VALUE (ret exit) then 1 else 0) :: tail (extra node)) in
        let c := with_dist (Some (LatencyDist (set_contents p node (lat d)) (ref d) (shape d))) c in
        let c := if (derived o : bool) then add_heat (two, time2, delta) c else c in
        Some (if negb (o_greater_than opts =? 0) && (o_greater_than opts <? delta)
              then add_printed (two, time1, Some time2, k) c else c)
    else Some c.

(** A system call that never returns: the exit of its process ends it. *)
Definition syscalls_remaining (opts : two_event_options) (mem : option (Z * rb_node)) (two time1 recent : Z)
  (enter : sys_enter) (k : Z) (rr : remaining_reason) (c : delay_class) : option (bool * delay_class) :=
  match rr with
  | REMAINING_SYSCALLS =>
      if two =? 0 then Some (true, c)
      else
        o ← contents (two_events (base c)) !! two;
        if time1 <? recent then
          let delta := recent - time1 in
          '(_, d) ← latency_dist_input tdigest_new tdigest_add mem (lat_dist c) (u64 (enter_pid enter)) (u64 (enter_id enter)) delta
                      (o_greater_than opts);
          let c := with_dist d c in
          let c := if (derived o : bool) then add_heat (two, recent, delta) c else c in
          Some (true, if negb (o_greater_than opts =? 0) && (o_greater_than opts <? delta)
                      then add_printed (two, time1, Some recent, k) c else c)
        else Some (true, c)
  | _ => Some (false, c)
  end.

(** *** Their statistics *)

(** A call of [syscalls_two]. *)
Record syscall := Syscall {
  sc_mem : Z * rb_node;
  sc_two : Z;
  sc_time1 : Z;
  sc_time2 : Z;
  sc_enter : sys_enter;
  sc_exit : sys_exit;
  sc_key : Z
}.
Definition run_syscalls (opts : two_event_options) (l : list syscall) (c : delay_class) : option delay_class :=
  foldl (fun c x => c ← c; syscalls_two opts (Some (sc_mem x)) (sc_two x) (sc_time1 x) (sc_time2 x) (sc_enter x) (sc_exit x) (sc_key x) c)
    (Some c) l.

(** Whether the two events are of one call, and whether it failed. *)
Definition same_call (x : syscall) : Prop :=
  enter_pid (sc_enter x) = exit_pid (sc_exit x) /\ enter_id (sc_enter x) = exit_id (sc_exit x) /\ sc_time1 x < sc_time2 x.
Definition failed (x : syscall) : Prop := -4095 <= ret (sc_exit x) < 0.
#[local] Instance same_call_dec x : Decision (same_call x) := _.

Definition syscall_input (opts : two_event_options) (x : syscall) : input :=
  Input (sc_mem x) (u64 (enter_pid (sc_enter x))) (u64 (enter_id (sc_enter x))) (sc_time2 x - sc_time1 x) (o_greater_than opts).
Definition syscall_kind (opts : two_event_options) : kind := Kind (o_perins opts) true false 8.
Definition syscall_key (opts : two_event_options) (x : syscall) : triple := input_key (syscall_kind opts) (syscall_input opts x).

(** The statistics of calls, with the number of those that failed. *)
Definition syscall_statistics (opts : two_event_options) (l : list syscall) (o : option (latency_node (T := T))) : Prop :=
  statistics tdigest_new tdigest_add (syscall_kind opts) (syscall_input opts <$> l) o /\
  forall v, o = Some v -> extra v = [u64 (Z.of_nat (length (filter failed l)))].

Lemma syscall_stat_ok opts l x v : syscall_statistics opts l (Some v) \/
    l = [] /\ v = latency_stat_node_new tdigest_new (syscall_kind opts) (Entry (u64 (enter_pid (sc_enter x))) (u64 (enter_id (sc_enter x)))) ->
  is_long (ret (sc_exit x)) ->
  exists v' e, input_node tdigest_add (syscall_kind opts) (sc_time2 x - sc_time1 x) (o_greater_than opts) v = Some v' /\
    instance v' = instance v /\ key_ v' = key_ v /\ extra v' = [e] /\
    syscall_statistics opts (l ++ [x]) (Some (LatencyNode (td v') (instance v') (key_ v') (min v') (max v') (n v') (than v') (sum v')
      [u64 (e + if IS_ERR_VALUE (ret (sc_exit x)) then 1 else 0)])).
Proof.
  intros Hv Hlong. destruct (input_stat_ok tdigest_new tdigest_add (syscall_kind opts) (syscall_input opts <$> l) (syscall_input opts x) v)
    as (v' & E & Hi & Hk & Hst).
  { destruct Hv as [[Hv _]|[-> ->]]; [by left|by right]. }
  assert (extra v' = [u64 (Z.of_nat (length (filter failed l)))]) as He.
  { unfold input_node in E. cbn in E. injection E as <-. cbn. destruct Hv as [[_ Hv]|[-> ->]]; [by apply Hv|done]. }
  exists v', (u64 (Z.of_nat (length (filter failed l)))). split; [exact E|]. do 3 (split; [done|]). split.
  - rewrite fmap_app. exact Hst.
  - intros w [= <-]. cbn. rewrite filter_app, filter_cons, filter_nil, length_app, u64_add_l. do 2 f_equal. rewrite err_value_ok by done. unfold failed.
    case_bool_decide; [rewrite decide_True by done|rewrite decide_False by done]; cbn; lia.
Qed.

Definition known (c : delay_class) (x : syscall) : Prop :=
  sc_two x <> 0 /\ is_Some (contents (two_events (base c)) !! sc_two x) /\ addr (sc_mem x).1 /\ is_long (ret (sc_exit x)).

Lemma syscalls_fed opts c l : lat_dist c = Some (start (syscall_kind opts)) -> Forall (known c) l -> NoDup (fst ∘ sc_mem <$> l) ->
  exists c' s ys, run_syscalls opts l c = Some c' /\ base c' = base c /\ lat_dist c' = Some (LatencyDist s 1 (syscall_kind opts)) /\
    listed tdigest_new (syscall_kind opts) s ys /\ (forall q, q ∈ ys.*1 -> q ∈ (fst ∘ sc_mem <$> l)) /\
    forall t, syscall_statistics opts (filter (fun x => syscall_key opts x = t) (filter same_call l)) (stats tdigest_new (syscall_kind opts) ys !! t).
Proof.
  intros Hd Hl Hnd. induction l as [|x l IH] using rev_ind.
  { exists c, rblist__init, []. split; [done|]. split; [done|]. split; [done|]. split; [apply new_listed|]. split; [done|]. by split. }
  apply Forall_app in Hl as [Hl Hx]. apply Forall_cons in Hx as [(Hq0 & [o Hx] & Ha & Hlong) _]. rewrite fmap_app, NoDup_app in Hnd.
  destruct Hnd as (Hnd & Hnew & _). destruct (IH Hl Hnd) as (c1 & s & ys & E & Hb & Hd1 & Hys & Hsub & Hst). clear IH.
  unfold run_syscalls in *. setoid_rewrite foldl_snoc. rewrite E. cbn [mbind option_bind]. unfold syscalls_two at 1.
  rewrite Hb, (proj2 (Z.eqb_neq _ _) Hq0), Hx. cbn [mbind option_bind].
  rewrite filter_app, filter_cons, filter_nil.
  assert (forall q, q ∈ ys.*1 -> q ∈ (fst ∘ sc_mem <$> (l ++ [x]))) as Hsub' by (intros; rewrite fmap_app; apply elem_of_app; left; by apply Hsub).
  destruct (Z.ltb_spec (sc_time1 x) (sc_time2 x)) as [Ht|Ht].
  2: { rewrite decide_False, app_nil_r by by intros (_ & _ & ?); lia. by exists c1, s, ys. }
  destruct (negb (enter_pid _ =? _) || negb (enter_id _ =? _)) eqn:Hm.
  { rewrite decide_False, app_nil_r by by intros (? & ? & _); lia. by exists c1, s, ys. }
  rewrite decide_True by by split; lia. rewrite Hd1. set (k := syscall_kind opts).
  set (i := u64 (enter_pid (sc_enter x))). set (nr := u64 (enter_id (sc_enter x))).
  assert ((sc_mem x).1 ∉ ys.*1) as Hp by (intros Hin; apply (Hnew (sc_mem x).1); [by apply Hsub|by apply list_elem_of_singleton]).
  set (v := default (latency_stat_node_new tdigest_new k (Entry i nr)) (stats tdigest_new k ys !! mask k i 0 nr)).
  assert (lat_key k v = mask k i 0 nr) as Hkv.
  { unfold v. destruct (stats tdigest_new k ys !! mask k i 0 nr) as [w|] eqn:Ew; [|done].
    by apply (as_map_lookup (H0 := lat_laws tdigest_new k) s) in Ew as (? & _ & Hw). }
  destruct (syscall_stat_ok opts (filter (fun y => syscall_key opts y = syscall_key opts x) (filter same_call l)) x v) as (v' & e & Ein & Hi & Hk & He & Hst').
  2: { done. }
  { specialize (Hst (syscall_key opts x)). change (syscall_key opts x) with (mask k i 0 nr) in *. unfold v.
    destruct (stats tdigest_new k ys !! mask k i 0 nr) eqn:Es; fold k in Hst; rewrite Es in Hst; [by left|right].
    destruct Hst as [Hst _]. cbn in Hst. apply fmap_nil_inv in Hst. by split. }
  assert (lat_key k v' = mask k i 0 nr) as Hkv' by (rewrite <- Hkv; unfold lat_key; by rewrite Hi, Hk).
  destruct (latency_input_ok tdigest_new tdigest_add k s 1 ys (sc_mem x).1 (sc_mem x).2 i nr _ _ v' Hys Ha Hp Ein Hkv')
    as (a & s' & _ & Ein' & Hset). rewrite <- surjective_pairing in Ein'. rewrite Ein'. cbn [mbind option_bind lat contents set_contents].
  rewrite lookup_insert_eq. cbn [mbind option_bind]. rewrite He. cbn [head mbind option_bind tail ref shape].
  match goal with |- context [set_contents a ?z _] => set (w := z) end.
  destruct (Hset w) as (ys' & Hys' & Hmap & Hin); [exact Hkv'|]. eexists _, (set_contents a w s'), ys'. split; [reflexivity|].
  assert (set_contents a w (set_contents a v' s') = set_contents a w s') as -> by (unfold set_contents; cbn; by rewrite insert_insert_eq).
  split; [by repeat case_match|]. split; [by repeat case_match|]. split; [done|]. split.
  - intros b Hb'. rewrite fmap_app. apply elem_of_app. destruct (Hin b Hb') as [->|Hb'']; [right; by apply list_elem_of_singleton|left; by apply Hsub].
  - rewrite Hmap. by apply (grouped_step (syscall_key opts) (syscall_statistics opts)).
Qed.

(** C33: After the pairs of a new class, whichever objects they are of: the statistics of a
    process and a system call are those of the pairs where the two events have this
    process and number and the second is later - the number of calls, least, greatest and
    total time, how many took longer than the threshold - with how many of them returned
    an error number (-4095 to -1), in 64 bits; pairs whose two events differ count nowhere. *)
Theorem syscalls_counted opts c l :
  lat_dist c = lat_dist (syscalls_class_new opts) -> Forall (known c) l -> NoDup (fst ∘ sc_mem <$> l) ->
  exists c' d, run_syscalls opts l c = Some c' /\ lat_dist c' = Some d /\
    forall pid nr, exists p, latency_dist_find tdigest_new (lat_dist c') (u64 pid) (u64 nr) = Some p /\
      syscall_statistics opts
        (filter (fun x => syscall_key opts x = mask (syscall_kind opts) (u64 pid) 0 (u64 nr)) (filter same_call l)) (contents (lat d) !! p).
Proof.
  intros Hd Hl Hnd. destruct (syscalls_fed opts c l Hd Hl Hnd) as (c' & s & ys & E & _ & Hd' & Hys & _ & Hst).
  exists c', (LatencyDist s 1 (syscall_kind opts)). split; [done|]. split; [done|]. intros pid nr. rewrite Hd'.
  destruct (found_stats tdigest_new (syscall_kind opts) s 1 ys (u64 pid) (u64 nr) Hys) as (p & Ef & Hp).
  exists p. split; [exact Ef|]. cbn [lat]. rewrite Hp. apply Hst.
Qed.
End delays.

(** Process 9 calls 3 twice, once in vain, and 5 once; an exit that is not of its call. *)
Definition ex_opts : two_event_options := Options true false 50 0 false true.
Definition ex_name (t : Z) : string * string :=
  ("raw_syscalls"%string, if t =? 1 then "sys_enter"%string else "sys_exit"%string).
Definition ex_class : delay_class (T := unit) :=
  default (syscalls_class_new ex_opts)
    ('(_, c) ← syscalls_new (fun _ => 1) ex_name
                 ex_opts (Some 8) false 1 2 (syscalls_class_new ex_opts); Some c).
Definition ex_calls : list syscall :=
  [Syscall (8, clear_node 8) 8 10 100 (SysEnter 9 3) (SysExit 9 3 0) 9;
   Syscall (16, clear_node 16) 8 110 130 (SysEnter 9 3) (SysExit 9 3 (-2)) 9;
   Syscall (24, clear_node 24) 8 140 150 (SysEnter 9 3) (SysExit 9 4 0) 9;
   Syscall (32, clear_node 32) 8 160 200 (SysEnter 9 5) (SysExit 9 5 7) 9].

Lemma syscalls_counted_witness : exists c d, run_syscalls tt (fun _ _ => tt) ex_opts ex_calls ex_class = Some c /\
  lat_dist c = Some d /\ (exists p, latency_dist_find tt (Some d) 9 3 = Some p /\
    contents (lat d) !! p = Some (LatencyNode None 9 3 20 90 2 1 110 [1])) /\
  exists p, latency_dist_find tt (Some d) 9 4 = Some p /\ contents (lat d) !! p = None.
Proof.
  destruct (syscalls_counted tt (fun _ _ => tt) ex_opts ex_class ex_calls) as (c & d & E & Hd & Hs).
  - by vm_compute.
  - repeat constructor; vm_compute; (done || by eexists).
  - apply (bool_decide_unpack _). by vm_compute.
  - exists c, d. split; [exact E|]. split; [exact Hd|]. rewrite <- Hd.
    destruct (Hs 9 3) as (p & E1 & _), (Hs 9 4) as (p2 & E2 & _). rewrite u64_small, u64_small in E1, E2 by lia.
    vm_compute in E. injection E as <-. vm_compute in Hd. injection Hd as <-. vm_compute in E1, E2.
    injection E1 as <-. injection E2 as <-. split; eexists; split; by vm_compute.
Defined.

(** ** Counts of pairs *)

(** An object adds one counter, of pairs or of events that remained. *)
Definition pair_counts (p : Z) (f : Z -> Z) (c : two_event_class (X := Z)) : option (two_event_class (X := Z)) :=
  o ← contents (two_events c) !! p;
  Some (with_derived p o (f (derived o)) c).
Definition pair_two (two : Z) (c : two_event_class (X := Z)) : option (two_event_class (X := Z)) :=
  if two =? 0 then Some c else pair_counts two (fun n => u64 (n + 1)) c.
Definition pair_remaining (two : Z) (c : two_event_class (X := Z)) : option (bool * two_event_class (X := Z)) :=
  if two =? 0 then Some (true, c) else c ← pair_counts two (fun n => u64 (n + 1)) c; Some (true, c).
(** What is printed: whether the counter is of pairs, and the counter. *)
Definition pair_print (two : Z) (c : two_event_class (X := Z)) : option (option (bool * Z) * two_event_class (X := Z)) :=
  if two =? 0 then Some (None, c)
  else
    o ← contents (two_events c) !! two;
    c ← pair_counts two (fun _ => 0) c;
    Some (Some (negb (tp2 o =? 0), derived o), c).
