(* ===== verification/TwoDelay.v ===== *)
(** * Delays of pairs (multi-trace.c with two-event.c and latency_helpers.c)

    The calls of the profiler go to a class of delays: what its statistics are after a run
    from the pairs of neighbours of [MultiPair]. *)

From Stdlib Require Import Sorted.
From S2P Require Import MultiTrace MultiPair.
From S2P Require Import Prelude RbTree RbShape RbRep RbWalk RbMain RbList RbMap LatencyDist TwoEvent.

Section delays.
Context {T : Type} (tdigest_new : T) (tdigest_add : T -> Z -> T) (name_len : Z -> Z).
Notation class := (delay_class (T := T)).

(** ** The class of a profiler *)

(** The objects of the pairs, in the order of [multi_trace_init]: with the memory of each,
    and whether its heat map opens. *)
Definition delay_objects (opts : two_event_options) (opened : bool) (l : list (Z * (Z * option Z))) (c : class) : option class :=
  foldl (fun c x => c ← c; '(p, c) ← delay_new name_len opts (Some x.1) opened x.2.1 (default 0 x.2.2) c;
                    if p =? 0 then None else Some c) (Some c) l.

(** [multi_trace_interval]: the header of the first object that prints one has the
    statistics of all. *)
Fixpoint interval_loop (opts : two_event_options) (l : list (Z * option Z)) (header : bool) (c : class)
  : option (list (latency_node (T := T)) * class) :=
  match l with
  | [] => Some ([], c)
  | (t1, t2) :: l =>
      two ← two_event_find false t1 (default 0 t2) (base c);
      '(header, ns, c) ← (if header : bool then Some (true, [], c) else delay_print_header opts two c);
      '(ns', c) ← interval_loop opts l header c;
      Some (ns ++ ns', c)
  end.
Definition multi_trace_interval (cfg : config) (opts : two_event_options) (c : class) : option (list (latency_node (T := T)) * class) :=
  interval_loop opts (class_pairs cfg) false c.

(** A call of the profiler, [mem] the memory for a node of the statistics.  The second
    event is read, so there has to be one. *)
Definition delay_call (cfg : config) (opts : two_event_options) (x : call) (mem : Z * rb_node) (c : class) : option class :=
  match x with
  | Two t1 (Some t2) _ time1 (Some _) time2 k _ =>
      two ← two_event_find false t1 t2 (base c);
      delay_two tdigest_new tdigest_add opts (Some mem) two time1 time2 k c
  | Two _ _ _ _ _ _ _ _ => None
  | Remaining t1 _ time1 k recent rr iter =>
      two ← two_event_find false t1 0 (base c);
      Some (delay_remaining opts two time1 k recent rr (bool_decide (is_Some iter)) c).2
  | Interval => '(_, c) ← multi_trace_interval cfg opts c; Some c
  end.
Definition delay_calls (cfg : config) (opts : two_event_options) (l : list (call * (Z * rb_node))) (c : class) : option class :=
  foldl (fun c x => c ← c; delay_call cfg opts x.1 x.2 c) (Some c) l.

(** [object_find] of the class. *)
Definition has_object (c : class) (t1 : Z) (t2 : option Z) : bool :=
  match two_event_find false t1 (default 0 t2) (base c) with Some p => negb (p =? 0) | None => false end.

(** ** The objects *)

Definition has (xs : list (Z * two_event (X := bool))) (t1 t2 : Z) : Prop := exists q o, (q, o) ∈ xs /\ tp1 o = t1 /\ tp2 o = t2.

Lemma delay_new_ok opts opened p t1 t2 (c : class) xs :
  class_ok false (base c) xs -> 0 <= ids (base c) < 2 ^ 32 - 1 -> addr p -> p ∉ xs.*1 ->
  exists q c' xs', delay_new name_len opts (Some p) opened t1 t2 c = Some (q, c') /\ q <> 0 /\ class_ok false (base c') xs' /\
    ids (base c) <= ids (base c') <= ids (base c) + 1 /\ lat_dist c' = lat_dist c /\
    (forall a, a ∈ xs'.*1 -> a = p \/ a ∈ xs.*1) /\ forall u1 u2, has xs' u1 u2 <-> has xs u1 u2 \/ (u1, u2) = (t1, t2).
Proof.
  intros Hc Hi Ha Hp. unfold delay_new.
  destruct (object_new_ok false (base c) xs p t1 t2 Hc ltac:(lia) ltac:(lia) Ha Hp) as (q & b & -> & Hq & Hcase). cbn [mbind option_bind].
  assert (exists ys o, class_ok false b ys /\ (q, o) ∈ ys /\ ids (base c) <= ids b <= ids (base c) + 1 /\
    (forall a, a ∈ ys.*1 -> a = p \/ a ∈ xs.*1) /\ forall u1 u2, has ys u1 u2 <-> has xs u1 u2 \/ (u1, u2) = (t1, t2))
    as (ys & o & Hb & Ho & Hib & Hsub & Hhas).
  { destruct Hcase as [[-> (o & Ho & <- & <-)]|(-> & _ & Hib & ys & Hb & Hperm)].
    - exists xs, o. split; [done|]. split; [done|]. split; [lia|]. split; [by right|]. intros u1 u2. split; [by left|].
      intros [?|[= -> ->]]; [done|]. by exists q, o.
    - exists ys, (TwoEvent t1 t2 (ids (base c)) false). split; [done|]. split; [rewrite Hperm; by left|]. split; [lia|]. split.
      + intros a. rewrite Hperm. cbn. by rewrite elem_of_cons.
      + intros u1 u2. unfold has. setoid_rewrite Hperm. setoid_rewrite elem_of_cons. split.
        * intros (a & w & [[= -> ->]|Hin] & H1 & H2); [right; cbn in *; congruence|left; by exists a, w].
        * intros [(a & w & Hin & H)|[= -> ->]]; [exists a, w; split; [by right|done]|]. eexists _, _. split; [by left|done]. }
  rewrite (proj2 (Z.eqb_neq _ _) Hq). cbn [orb]. destruct (t2 =? 0); [by exists q, (with_base b c), ys|].
  destruct (o_heatmap opts); [|by eexists q, _, ys].
  rewrite (proj2 (lists_lookup (H0 := two_laws false) _ _ q o (c_objects _ _ _ Hb)) Ho). cbn [mbind option_bind].
  apply list_elem_of_split in Ho as (zs1 & zs2 & ->).
  eexists q, _, _. split; [reflexivity|]. split; [done|]. split; [by apply with_derived_ok|]. split; [done|]. split; [done|]. split.
  - intros a Hin. apply Hsub. rewrite fmap_app in *. exact Hin.
  - intros u1 u2. rewrite <- Hhas. unfold has. split; intros (a & w & Hin & <- & <-).
    + assert ((a, w) ∈ zs1 ++ zs2 \/ (a, w) = (q, TwoEvent (tp1 o) (tp2 o) (id o) opened)) as [?|[= -> ->]] by set_solver.
      * exists a, w. set_solver.
      * exists q, o. set_solver.
    + assert ((a, w) ∈ zs1 ++ zs2 \/ (a, w) = (q, o)) as [?|[= -> ->]] by set_solver.
      * exists a, w. set_solver.
      * exists q, (TwoEvent (tp1 o) (tp2 o) (id o) opened). set_solver.
Qed.

Lemma delay_objects_ok opts opened l (c : class) : NoDup l.*1 -> Forall addr l.*1 -> Z.of_nat (length l) < 2 ^ 32 - 1 ->
  base c = two_event_class_new ->
  exists c' xs, delay_objects opts opened l c = Some c' /\ class_ok false (base c') xs /\ lat_dist c' = lat_dist c /\
    (forall a, a ∈ xs.*1 -> a ∈ l.*1) /\ 0 <= ids (base c') <= Z.of_nat (length l) /\
    forall t1 t2, has xs t1 t2 <-> exists x, x ∈ l.*2 /\ x.1 = t1 /\ default 0 x.2 = t2.
Proof.
  intros Hd Ha Hn Hc0. unfold delay_objects. induction l as [|x l IH] using rev_ind.
  { exists c, []. cbn. rewrite Hc0. split; [done|]. split; [apply new_class_ok|]. split; [done|]. split; [done|]. split; [done|].
    intros t1 t2. split; [intros (? & ? & ?%elem_of_nil & _)|intros (? & ?%elem_of_nil & _)]; done. }
  rewrite fmap_app in Hd, Ha. rewrite length_app in Hn. cbn in Hn. apply NoDup_app in Hd as (Hd & Hx & _). apply Forall_app in Ha as [Ha Hax].
  apply Forall_cons in Hax as [Hax _]. destruct (IH Hd Ha ltac:(lia)) as (c1 & xs & E & Hc & Hlat & Hsub & Hi & Hp).
  rewrite foldl_snoc, E, length_app. cbn [mbind option_bind length].
  destruct (delay_new_ok opts opened x.1 x.2.1 (default 0 x.2.2) c1 xs Hc ltac:(lia) Hax) as (q & c2 & xs2 & -> & Hq & Hc2 & Hi2 & Hlat2 & Hsub2 & Hp2).
  { intros Hin. apply (Hx x.1); [by apply Hsub|by left]. }
  cbn [mbind option_bind]. rewrite (proj2 (Z.eqb_neq _ _) Hq). exists c2, xs2. split; [done|]. split; [done|]. split; [congruence|]. split.
  - intros a Hin. rewrite fmap_app. apply elem_of_app. destruct (Hsub2 a Hin) as [->|?]; [right; by left|left; by apply Hsub].
  - split; [lia|]. intros t1 t2. rewrite Hp2, Hp, fmap_app. setoid_rewrite elem_of_app. cbn. setoid_rewrite list_elem_of_singleton. split.
    + intros [(y & Hy & H)|[= -> ->]]; [exists y; split; [by left|done]|exists x.2; split; [by right|done]].
    + intros (y & [Hy| ->] & <- & <-); [left; by exists y|by right].
Qed.

(** ** The statistics of a run *)

(** The delays of the pairs of two attributes, of one key if the report is by key. *)
Definition delay_of (perins : bool) (t1 t2 k : Z) (c : call) : option Z :=
  match c with
  | Two a (Some b) _ time1 (Some _) time2 k' _ =>
      if (a =? t1) && (b =? t2) && (negb perins || (k' =? k)) then Some (time2 - time1) else None
  | _ => None
  end.

(** What the node of them holds. *)
Definition delay_statistics (opts : two_event_options) (ls : list Z) (o : option (latency_node (T := T))) : Prop :=
  match o with
  | None => ls = []
  | Some v =>
      ls <> [] /\ min v = foldr Z.min U64_MAX ls /\ max v = foldr Z.max 0 ls /\ n v = u64 (Z.of_nat (length ls)) /\
      sum v = u64 (foldr Z.add 0 ls) /\
      than v = u64 (Z.of_nat (length (filter (fun d => o_greater_than opts <> 0 /\ o_greater_than opts < d) ls))) /\
      td v = Some (foldl tdigest_add tdigest_new ls)
  end.

Definition delay_kind (opts : two_event_options) : kind := Kind (o_perins opts) true true 0.

Lemma delay_statistics_of opts l o : Forall (fun x => i_than x = o_greater_than opts) l ->
  statistics tdigest_new tdigest_add (delay_kind opts) l o -> delay_statistics opts (i_lat <$> l) o.
Proof.
  intros Hl Hs. destruct o as [v|]; cbn in *; [|by subst]. destruct Hs as (H1 & H2 & H3 & H4 & H5 & H6 & H7).
  split; [by intros ?%fmap_nil_inv|]. do 2 (split; [done|]). rewrite length_fmap. do 2 (split; [done|]). split; [|done].
  rewrite H6. f_equal. f_equal. clear -Hl. induction l as [|x l IH]; [done|].
  apply Forall_cons in Hl as [Hx Hl]. cbn [fmap list_fmap]. rewrite !filter_cons, Hx. specialize (IH Hl).
  repeat case_decide; cbn; solve [by f_equal | exact IH | tauto].
Qed.

(** The number of an object. *)
Definition object_number (c : class) (t1 t2 : Z) : Z :=
  match two_event_find false t1 t2 (base c) with
  | Some p => match contents (two_events (base c)) !! p with Some o => id o | None => 0 end
  | None => 0
  end.

Lemma number_object (c : class) xs q o : class_ok false (base c) xs -> (q, o) ∈ xs ->
  two_event_find false (tp1 o) (tp2 o) (base c) = Some q /\ q <> 0 /\
  contents (two_events (base c)) !! q = Some o /\ object_number c (tp1 o) (tp2 o) = id o.
Proof.
  intros Hc Ho. assert (contents (two_events (base c)) !! q = Some o) as Hq.
  { by apply (lists_lookup (H0 := two_laws false) _ _ _ _ (c_objects _ _ _ Hc)). }
  unfold object_number. destruct (object_find_ok false (base c) xs (tp1 o) (tp2 o) Hc) as [(q' & o' & Ho' & H1 & H2 & -> & Hq0)|[Hno _]].
  - destruct (objects_unique false (base c) xs q' q o' o) as [-> ->]; try done. by rewrite Hq.
  - exfalso. by apply (Hno q o Ho).
Qed.

(** Different objects have different numbers. *)
Lemma number_inj (c : class) xs q o q' o' : class_ok false (base c) xs -> (q, o) ∈ xs -> (q', o') ∈ xs -> id o = id o' ->
  tp1 o = tp1 o' /\ tp2 o = tp2 o'.
Proof.
  intros Hc Ho Ho' Hid. assert (q = q') as <-.
  { pose proof (object_byid_ok false _ _ _ _ Hc Ho) as E1. pose proof (object_byid_ok false _ _ _ _ Hc Ho') as E2. congruence. }
  assert (o = o') as <-; [|done].
  apply (lists_lookup (H0 := two_laws false) _ _ _ _ (c_objects _ _ _ Hc)) in Ho, Ho'. congruence.
Qed.

(** A call the class makes a latency of. *)
Definition is_pair (xs : list (Z * two_event (X := bool))) (c : call) : Prop :=
  match c with Two a (Some b) _ time1 (Some _) time2 _ _ => has xs a b /\ time1 < time2 | _ => False end.

Definition call_input (opts : two_event_options) (c : class) (x : call * (Z * rb_node)) : input :=
  match x.1 with
  | Two a (Some b) _ time1 (Some _) time2 k _ => Input x.2 k (object_number c a b) (time2 - time1) (o_greater_than opts)
  | _ => Input x.2 0 0 0 0
  end.

Lemma delay_calls_ok cfg opts xs l : forall c, class_ok false (base c) xs -> Forall (fun x => is_pair xs x.1) l ->
  is_Some (feed tdigest_new tdigest_add (lat_dist c) (call_input opts c <$> l)) ->
  exists c', delay_calls cfg opts l c = Some c' /\ base c' = base c /\
    feed tdigest_new tdigest_add (lat_dist c) (call_input opts c <$> l) = Some (lat_dist c').
Proof.
  induction l as [|[x mem] l IH]; intros c Hc Hl Hsome; [by exists c|]. apply Forall_cons in Hl as [Hx Hl].
  unfold is_pair in Hx. cbn [fst] in Hx. destruct x as [a [b|] e1 time1 [e2|] time2 k it| |]; try done. destruct Hx as [(q & o & Ho & <- & <-) Ht].
  unfold delay_calls, feed in *. cbn [fmap list_fmap foldl mbind option_bind fst snd delay_call] in *.
  destruct (number_object c xs q o Hc Ho) as (Hf & Hq & Hlk & Hnum). rewrite Hf. cbn [mbind option_bind]. unfold delay_two.
  rewrite (proj2 (Z.eqb_neq _ _) Hq), Hlk. cbn [mbind option_bind]. rewrite (proj2 (Z.ltb_lt _ _) Ht).
  assert (call_input opts c (Two (tp1 o) (Some (tp2 o)) e1 time1 (Some e2) time2 k it, mem) =
    Input mem k (id o) (time2 - time1) (o_greater_than opts)) as Hin by (unfold call_input; cbn; by rewrite Hnum).
  rewrite Hin in *. cbn [LatencyDist.mem i_instance i_key i_lat i_than] in *.
  destruct (latency_dist_input _ _ _ _ _ _ _ _) as [[p d]|]; cbn [mbind option_bind] in *.
  2: { exfalso. destruct Hsome as [? Hs]. clear -Hs. by induction l. }
  match goal with |- context [foldl _ (Some ?z) l] => set (c1 := z) end.
  assert (base c1 = base c) as Hb1 by (unfold c1; by repeat case_match).
  assert (lat_dist c1 = d) as Hd1 by (unfold c1; by repeat case_match).
  assert (call_input opts c1 <$> l = call_input opts c <$> l) as Hsame.
  { apply list_fmap_ext. intros i y _. unfold call_input, object_number. by rewrite Hb1. }
  destruct (IH c1) as (c' & E & Hb & Hfeed); [by rewrite Hb1|done|by rewrite Hsame, Hd1|].
  exists c'. split; [exact E|]. split; [congruence|]. by rewrite <- Hfeed, Hsame, Hd1.
Qed.

(** The latencies of an object and a key are the delays of the pairs. *)
Lemma call_inputs_of opts c xs q o k l : class_ok false (base c) xs -> (q, o) ∈ xs -> Forall (fun x => is_pair xs x.1) l ->
  i_lat <$> filter (fun x => input_key (delay_kind opts) x = mask (delay_kind opts) k 0 (id o)) (call_input opts c <$> l) =
  omap (delay_of (o_perins opts) (tp1 o) (tp2 o) k) l.*1.
Proof.
  intros Hc Ho. induction l as [|[x mem] l IH]; intros Hl; [done|]. apply Forall_cons in Hl as [Hx Hl].
  unfold is_pair in Hx. cbn [fst] in Hx. destruct x as [a [b|] e1 time1 [e2|] time2 k' it| |]; try done. destruct Hx as [(q' & o' & Ho' & <- & <-) Ht].
  cbn [fmap list_fmap]. rewrite filter_cons. cbn [omap list_omap fst delay_of]. specialize (IH Hl).
  destruct (number_object c xs q' o' Hc Ho') as (_ & _ & _ & Hnum).
  assert ((tp1 o' =? tp1 o) && (tp2 o' =? tp2 o) && (negb (o_perins opts) || (k' =? k)) =
    bool_decide (input_key (delay_kind opts) (call_input opts c (Two (tp1 o') (Some (tp2 o')) e1 time1 (Some e2) time2 k' it, mem)) =
      mask (delay_kind opts) k 0 (id o))) as ->.
  { unfold call_input, input_key, mask, delay_kind. cbn. rewrite Hnum. case_bool_decide as Hd.
    - injection Hd as H1 H2. destruct (number_inj c xs q' o' q o Hc Ho' Ho H2) as [-> ->]. rewrite !Z.eqb_refl. cbn.
      destruct (o_perins opts); cbn; lia.
    - apply not_true_iff_false. intros [[H1 H2]%andb_prop H3]%andb_prop. apply Hd.
      assert (object_number c (tp1 o') (tp2 o') = object_number c (tp1 o) (tp2 o)) as Heq by (f_equal; lia).
      rewrite Hnum in Heq. destruct (number_object c xs q o Hc Ho) as (_ & _ & _ & Hnum'). rewrite Hnum' in Heq. rewrite Heq.
      destruct (o_perins opts); [|done]. do 3 f_equal. cbn in H3. lia. }
  case_bool_decide; [rewrite decide_True by done|by rewrite decide_False]. cbn [fmap list_fmap]. f_equal. exact IH.
Qed.

Lemma pairs_are_pairs object_find (xs : list (Z * two_event (X := bool))) l :
  (forall a b, object_find a (Some b) = true -> has xs a b) -> forall done, Forall (is_pair xs) (pairs object_find done l).
Proof.
  intros Hf. induction l as [|cur l IH]; intros done; cbn; [constructor|]. apply Forall_app. split; [|apply IH].
  unfold pair_calls. destruct (need_find_prev cur); [|constructor]. destruct (prev_of done _) as [prev|]; [|constructor].
  destruct (need_backup prev); [|constructor]. unfold two_call. destruct (object_find _ _ && _) eqn:E; [|constructor].
  apply andb_prop in E as [E1 E2]. constructor; [|constructor]. cbn. split; [by apply Hf|lia].
Qed.

Lemma has_object_ok (c : class) xs a b : class_ok false (base c) xs -> has_object c a b = true <-> has xs a (default 0 b).
Proof.
  intros Hc. unfold has_object. destruct (object_find_ok false (base c) xs a (default 0 b) Hc) as [(q & o & Ho & H1 & H2 & -> & Hq)|[Hno ->]].
  - rewrite (proj2 (Z.eqb_neq _ _) Hq). split; [intros _; by exists q, o|done].
  - split; [done|]. intros (q & o & Ho & H). by destruct (Hno q o Ho).
Qed.

(** ** Property *)

(** C16: The delay profiler without details, from its start: with the objects of its pairs
    made, whatever the lists of events, the roles and the keys, for samples in the order of
    their times the statistics of each pair of attributes and key - of the attributes
    alone, if reports are not by key - are those of the delays between neighbours with
    that key: their number, sum and extremes, how many exceed the threshold, and their
    digest in order. *)
Theorem delays_of_neighbours cfg go_on ins_key opts opened ms l k :
  need_timeline cfg = false -> nested cfg = false -> impl_based_on_call cfg = false -> extra_evsel cfg = None ->
  length ms = length (class_pairs cfg) -> NoDup ms -> Forall addr ms -> Z.of_nat (length ms) < 2 ^ 32 - 1 ->
  Forall (fun x => 0 <= s_ins x < Z.of_nat k /\ s_trigger x = false /\ is_Some (s_mem x)) l ->
  NoDup (omap s_mem l) -> CURRENT ∉ omap s_mem l -> StronglySorted (fun x y => s_time x <= s_time y) l ->
  exists c0 s, delay_objects opts opened (zip ms (class_pairs cfg)) (delay_class_new opts) = Some c0 /\
    run cfg (has_object c0) go_on ins_key l (ctx_init k) = Some s /\
    forall lm, length lm = length (log s) -> NoDup lm.*1 -> Forall addr lm.*1 ->
      exists c d, delay_calls cfg opts (zip (log s) lm) c0 = Some c /\ lat_dist c = Some d /\
        forall t1 t2 key, (t1, Some t2) ∈ class_pairs cfg -> exists p,
          latency_dist_find tdigest_new (lat_dist c) key (object_number c t1 t2) = Some p /\
          delay_statistics opts
            (omap (delay_of (o_perins opts) t1 t2 key) (pairs (has_object c0) [] (omap (traced_node cfg) l)))
            (contents (lat d) !! p).
Proof.
  intros Htl Hn Hcall He Hms Hd Ha Hlen Hl Hmem Hcur Hsort.
  destruct (delay_objects_ok opts opened (zip ms (class_pairs cfg)) (delay_class_new opts)) as (c0 & xs & E & Hc & Hlat & _ & _ & Hhas);
    [by rewrite fst_zip by lia..|by rewrite length_zip; lia|done|].
  exists c0. destruct (run_ok cfg (has_object c0) Htl Hn Hcall go_on ins_key l [] (ctx_init k) []) as (s & Er & Hlog); try done.
  - apply backed_init.
  - split; [by intros ?? ?%elem_of_nil|done].
  - eapply Forall_impl; [exact Hl|]. apply served_init.
  - by intros p _ ?%elem_of_nil.
  - by intros n x ?%elem_of_nil.
  - exists s. split; [done|]. split; [done|]. cbn in Hlog. rewrite Hlog. intros lm Hlm Hlmd Hlma.
    set (ps := pairs (has_object c0) [] (omap (traced_node cfg) l)) in *.
    assert (Forall (fun x => is_pair xs x.1) (zip ps lm)) as Hps.
    { assert (Forall (is_pair xs) (zip ps lm).*1) as Hps; [|exact (proj1 (Forall_fmap _ _ _) Hps)]. rewrite fst_zip by lia.
      apply pairs_are_pairs. intros a b. apply (proj1 (has_object_ok c0 xs a (Some b) Hc)). }
    assert (fst ∘ mem <$> (call_input opts c0 <$> zip ps lm) = lm.*1) as Hmems.
    { rewrite <- list_fmap_compose. transitivity ((zip ps lm).*2.*1); [|by rewrite snd_zip by lia].
      rewrite <- list_fmap_compose. apply list_fmap_ext. intros i [x m] Hin. cbn. unfold call_input. cbn. by repeat case_match. }
    destruct (lats_fed tdigest_new tdigest_add (delay_kind opts) (call_input opts c0 <$> zip ps lm)) as (ls & ys & Ef & Hys & _ & Hst).
    { by rewrite Hmems. } { rewrite <- Hmems in Hlma. exact (proj1 (Forall_fmap _ _ _) Hlma). }
    change (Some (start (delay_kind opts))) with (lat_dist (delay_class_new opts : class)) in Ef. rewrite <- Hlat in Ef.
    destruct (delay_calls_ok cfg opts xs (zip ps lm) c0 Hc Hps) as (c & Ec & Hb & Ef'); [by rewrite Ef|].
    rewrite Ef in Ef'. injection Ef' as Ed. exists c, (LatencyDist ls 1 (delay_kind opts)). split; [done|]. split; [done|].
    intros t1 t2 key Hin. assert (has xs t1 t2) as (q & o & Ho & <- & <-).
    { apply Hhas. exists (t1, Some t2). rewrite snd_zip by lia. done. }
    destruct (number_object c0 xs q o Hc Ho) as (_ & _ & _ & Hnum).
    assert (object_number c (tp1 o) (tp2 o) = id o) as -> by (rewrite <- Hnum; unfold object_number; by rewrite Hb).
    destruct (lats_found tdigest_new tdigest_add (delay_kind opts) _ ls 1 ys Hys Hst key (id o)) as (p & Ep & Hp).
    exists p. rewrite <- Ed. split; [exact Ep|]. cbn [lat].
    rewrite <- (fst_zip ps lm) by lia. rewrite <- (call_inputs_of opts c0 xs q o key (zip ps lm) Hc Ho Hps).
    apply delay_statistics_of; [|exact Hp]. apply Forall_forall. intros x Hx. apply list_elem_of_filter in Hx as [_ Hx].
    apply list_elem_of_fmap in Hx as ([y m] & -> & Hy). rewrite Forall_forall in Hps. specialize (Hps _ Hy).
    unfold is_pair in Hps. cbn in Hps. unfold call_input. cbn. by repeat case_match.
Qed.
End delays.

(** ** An example

    The system calls of [MultiPair], with the list of the delays as the digest. *)

Definition delay_opts : two_event_options := Options true false 15 0 false true.
Definition delay_mems : list Z := (fun i => 8 * (Z.of_nat i + 1)) <$> List.seq 0 (length (class_pairs ex_cfg)).
Definition delay_profiler : option (delay_class (T := list Z)) :=
  delay_objects (fun _ => 4) delay_opts false (zip delay_mems (class_pairs ex_cfg)) (delay_class_new delay_opts).

Lemma delays_of_neighbours_witness : exists c0 s c d,
  delay_profiler = Some c0 /\ run ex_cfg (has_object c0) (fun _ => true) (fun i => i) ex_samples (ctx_init 1) = Some s /\
  delay_calls [] (fun t x => x :: t) ex_cfg delay_opts (zip (log s) [(8, clear_node 8); (16, clear_node 16)]) c0 = Some c /\
  lat_dist c = Some d /\ exists p, latency_dist_find [] (lat_dist c) 7 (object_number c 1 2) = Some p /\
  (fun v => (n v, sum v, min v, max v, than v, td v)) <$> contents (lat d) !! p = Some (1, 20, 20, 20, 1, Some [20]).
Proof.
  destruct (delays_of_neighbours [] (fun t x => x :: t) (fun _ => 4) ex_cfg (fun _ => true) (fun i => i) delay_opts false delay_mems
    ex_samples 1 eq_refl eq_refl eq_refl eq_refl eq_refl) as (c0 & s & E0 & Er & Hc).
  - apply (bool_decide_unpack _). by vm_compute.
  - repeat constructor.
  - by vm_compute.
  - repeat constructor; cbn; try lia; by eexists.
  - apply (bool_decide_unpack _). by vm_compute.
  - apply (bool_decide_unpack _). by vm_compute.
  - repeat constructor; cbn; lia.
  - exists c0, s. vm_compute in E0. injection E0 as <-. vm_compute in Er. injection Er as <-.
    destruct (Hc [(8, clear_node 8); (16, clear_node 16)]) as (c & d & Ec & Ed & Hs); [done| |by repeat constructor|].
    { apply (bool_decide_unpack _). by vm_compute. }
    exists c, d. destruct (Hs 1 2 7) as (p & Ep & _); [apply (bool_decide_unpack _); by vm_compute|].
    split; [by vm_compute|]. split; [by vm_compute|]. split; [exact Ec|]. split; [exact Ed|]. exists p. split; [exact Ep|].
    vm_compute in Ec. injection Ec as <-. vm_compute in Ed. injection Ed as <-. vm_compute in Ep. injection Ep as <-. by vm_compute.
Defined.
