(* ===== verification/TwoCall.v ===== *)
(** * The graph of calls (two-event.c)

    The class that arranges functions by who calls them: each caller has the list of its
    callees, linked through the callees, and a callee one parent.  The memory of callers is
    by address, a node's membership of a list by the list it is linked into. *)

From S2P Require Import MultiTrace.
From S2P Require Import Prelude RbTree RbShape RbRep RbWalk RbMain RbList RbMap LatencyDist TwoEvent.

(** ** State *)

(** [caller_link] is the caller on whose list of callees the node is, or null; whether
    [class_link] is linked says the list of the class. *)
Record caller := Caller {
  ca_tp2 : Z;
  depth : Z;
  recursive : bool;
  parent : Z;
  callee_head : list Z;
  caller_link : Z
}.

(** The objects give the address of a caller; [shown] are the graphs printed, as callers
    with their depth and whether they are marked recursive. *)
Record call_class := CallClass {
  objects_of : two_event_class (X := unit);
  callers : gmap Z caller;
  caller_head : list Z;
  calls : Z;
  max_depth : Z;
  shown : list (list (Z * Z * bool))
}.
Definition call_class_new : call_class := CallClass two_event_class_new ∅ [] 0 0 [].

Definition set_callers m s := CallClass (objects_of s) m (caller_head s) (calls s) (max_depth s) (shown s).
Definition set_head l s := CallClass (objects_of s) (callers s) l (calls s) (max_depth s) (shown s).
Definition set_calls n s := CallClass (objects_of s) (callers s) (caller_head s) n (max_depth s) (shown s).
Definition set_max n s := CallClass (objects_of s) (callers s) (caller_head s) (calls s) n (shown s).
Definition add_shown l s := CallClass (objects_of s) (callers s) (caller_head s) (calls s) (max_depth s) (shown s ++ [l]).
Definition set_objects b s := CallClass b (callers s) (caller_head s) (calls s) (max_depth s) (shown s).

Definition set_depth d c := Caller (ca_tp2 c) d (recursive c) (parent c) (callee_head c) (caller_link c).
Definition set_recursive b c := Caller (ca_tp2 c) (depth c) b (parent c) (callee_head c) (caller_link c).
Definition set_parent p c := Caller (ca_tp2 c) (depth c) (recursive c) p (callee_head c) (caller_link c).
Definition set_callees l c := Caller (ca_tp2 c) (depth c) (recursive c) (parent c) l (caller_link c).
Definition set_link h c := Caller (ca_tp2 c) (depth c) (recursive c) (parent c) (callee_head c) h.

Definition with_caller (p : Z) (f : caller -> caller) (s : call_class) : option call_class :=
  c ← callers s !! p; Some (set_callers (<[p := f c]> (callers s)) s).

(** ** Lists *)

(** [list_del_init] of the two links, and [list_move_tail] to the callees of [h]. *)
Definition del_caller_link (p : Z) (s : call_class) : option call_class :=
  c ← callers s !! p;
  if caller_link c =? 0 then Some s
  else
    s ← with_caller (caller_link c) (fun h => set_callees (filter (fun q => q <> p) (callee_head h)) h) s;
    with_caller p (set_link 0) s.
Definition move_caller_link (p h : Z) (s : call_class) : option call_class :=
  s ← del_caller_link p s;
  s ← with_caller h (fun c => set_callees (callee_head c ++ [p]) c) s;
  with_caller p (set_link h) s.
Definition del_class_link (p : Z) (s : call_class) : call_class := set_head (filter (fun q => q <> p) (caller_head s)) s.
Definition class_link_empty (p : Z) (s : call_class) : bool := bool_decide (p ∉ caller_head s).

(** ** Callers *)

(** Their recursions go over callers no more often than there are callers. *)
Definition call_fuel (s : call_class) : nat := S (size (callers s)).

Fixpoint call_iterate (fuel : nat) (p : Z) (s : call_class) : option (list (Z * Z * bool)) :=
  match fuel with
  | O => None
  | S fuel =>
      c ← callers s !! p;
      rest ← foldr (fun q l => l' ← call_iterate fuel q s; l ← l; Some (l' ++ l)) (Some []) (callee_head c);
      Some ((p, depth c, recursive c) :: rest)
  end.
Definition call_class_iterate (s : call_class) : option (list (Z * Z * bool)) :=
  foldr (fun q l => l' ← call_iterate (call_fuel s) q s; l ← l; Some (l' ++ l)) (Some []) (caller_head s).
Definition call_class_print (s : call_class) : option call_class :=
  if calls s =? 0 then Some s else l ← call_class_iterate s; Some (set_calls 0 (add_shown l s)).

(** An object that is there already starts anew, as in the code. *)
Definition call_new (mem : option Z) (t1 t2 : Z) (s : call_class) : option (Z * call_class) :=
  '(p, b) ← two_event_new tt mem t1 0 (objects_of s);
  let s := set_objects b s in
  if p =? 0 then Some (0, s)
  else
    let old := default (Caller 0 0 false 0 [] 0) (callers s !! p) in
    Some (p, set_callers (<[p := Caller t2 (depth old) (recursive old) 0 [] 0]> (callers s)) s).
Definition call_find (t1 : Z) (s : call_class) : option Z := two_event_find tt t1 0 (objects_of s).

Fixpoint call_update_depth (fuel : nat) (p : Z) (s : call_class) : option call_class :=
  match fuel with
  | O => None
  | S fuel =>
      c ← callers s !! p;
      d ← (if parent c =? 0 then Some 0 else h ← callers s !! parent c; Some (depth h + 1));
      s ← with_caller p (set_depth d) s;
      let s := if max_depth s <? d then set_max d s else s in
      foldl (fun s q => s ← s; call_update_depth fuel q s) (Some s) (callee_head c)
  end.

Fixpoint call_recursive (fuel : nat) (caller callee : Z) (s : call_class) : option bool :=
  match fuel with
  | O => None
  | S fuel =>
      if caller =? 0 then Some false
      else if caller =? callee then Some true
      else c ← callers s !! caller; call_recursive fuel (parent c) callee s
  end.

(** [two] is the caller, [tp2] what it calls: null for the first call of the function. *)
Definition call_root (two : Z) (s : call_class) : option call_class :=
  c ← callers s !! two;
  s ← (if caller_link c =? 0 then Some s
       else
         s ← call_class_print s;
         s ← del_caller_link two s;
         s ← with_caller two (set_parent 0) s;
         call_update_depth (call_fuel s) two s);
  Some (if class_link_empty two s then set_head (caller_head s ++ [two]) s else s).
Definition call_edge (two callee : Z) (s : call_class) : option call_class :=
  rec ← call_recursive (call_fuel s) two callee s;
  s ← with_caller two (set_recursive rec) s;
  c ← callers s !! callee;
  if negb (parent c =? two) && negb rec then
    s ← (if negb (parent c =? 0) || negb (class_link_empty callee s) then call_class_print s else Some s);
    s ← move_caller_link callee two s;
    s ← with_caller callee (set_parent two) (del_class_link callee s);
    call_update_depth (call_fuel s) callee s
  else Some s.
Definition call_link (two tp2 : Z) (s : call_class) : option (bool * call_class) :=
  if two =? 0 then Some (false, s)
  else if tp2 =? 0 then s ← call_root two s; Some (true, set_calls (u64 (calls s + 1)) s)
  else
    callee ← call_find tp2 s;
    if callee =? 0 then Some (false, s)
    else s ← call_edge two callee s; Some (true, set_calls (u64 (calls s + 1)) s).
Definition call_two (two tp2 : Z) (s : call_class) : option call_class := '(_, s) ← call_link two tp2 s; Some s.
Definition call_print_header (two : Z) (s : call_class) : option call_class :=
  if two =? 0 then Some s else call_class_print s.

(** ** Forests *)

(** The links of a caller. *)
Record links := Links { l_parent : Z; l_callees : list Z; l_link : Z }.
Definition links_of (c : caller) : links := Links (parent c) (callee_head c) (caller_link c).
Definition skeleton (s : call_class) : gmap Z links := links_of <$> callers s.
Implicit Types (k : gmap Z links) (s : call_class).

(** From a caller to its parent. *)
Definition up k (x y : Z) : Prop := exists l, k !! x = Some l /\ l_parent l = y /\ y <> 0.
Definition acyclic k : Prop := forall x, Acc (fun y x => up k x y) x.

(** Each caller is linked to its parent's list and to no other. *)
Record forest k (heads : list Z) : Prop := {
  fo_null : k !! 0 = None;
  fo_link : forall p l, k !! p = Some l -> l_link l = l_parent l;
  fo_parent : forall p l, k !! p = Some l -> l_parent l <> 0 -> exists h, k !! l_parent l = Some h /\ p ∈ l_callees h;
  fo_callee : forall p l q, k !! p = Some l -> q ∈ l_callees l -> exists m, k !! q = Some m /\ l_parent m = p;
  fo_nodup : forall p l, k !! p = Some l -> NoDup (l_callees l);
  fo_heads : NoDup heads /\ forall p, p ∈ heads -> exists l, k !! p = Some l /\ l_parent l = 0;
  fo_acyclic : acyclic k
}.

Lemma acyclic_irrefl k x : acyclic k -> ~ tc (up k) x x.
Proof.
  intros Hk. induction (Hk x) as [x _ IH]. intros Hx. assert (exists y, up k x y /\ rtc (up k) y x) as (y & Hy & Hyx).
  { inversion Hx; subst; [by exists x|]. eexists. split; [done|]. by apply tc_rtc. }
  apply (IH y Hy). eapply tc_rtc_l; [exact Hyx|]. by apply tc_once.
Qed.

Lemma up_fun k x y z : up k x y -> up k x z -> y = z.
Proof. intros (l & H1 & <- & _) (m & H2 & <- & _). congruence. Qed.

Lemma up_linear k x y z : rtc (up k) x y -> rtc (up k) x z -> rtc (up k) y z \/ rtc (up k) z y.
Proof.
  intros Hy. induction Hy as [x|x x' y Hx Hy IH]; [by left|]. intros Hz. inversion Hz as [|? x2 ? Hx2 Hz2]; subst.
  - right. by eapply rtc_l.
  - rewrite (up_fun _ _ _ _ Hx2 Hx) in Hz2. by apply IH.
Qed.

(** Different callers there are are no more than there are. *)
Lemma path_length k (l : list Z) : NoDup l -> (forall x, x ∈ l -> is_Some (k !! x)) -> (length l <= size k)%nat.
Proof.
  intros Hd Hl. rewrite <- (size_list_to_set (C := gset Z) l), <- size_dom by done. apply subseteq_size.
  intros x Hx. apply elem_of_dom, Hl. set_solver.
Qed.

Lemma skeleton_lookup s p l : skeleton s !! p = Some l <-> exists c, callers s !! p = Some c /\ links_of c = l.
Proof.
  unfold skeleton. rewrite lookup_fmap. destruct (callers s !! p); cbn; [|split; [done|by intros (? & ? & ?)]].
  split; [intros [= <-]; by eexists|intros (? & [= <-] & <-); done].
Qed.

Lemma skeleton_write s p c f : callers s !! p = Some c ->
  with_caller p f s = Some (set_callers (<[p := f c]> (callers s)) s) /\
  skeleton (set_callers (<[p := f c]> (callers s)) s) = <[p := links_of (f c)]> (skeleton s).
Proof. intros Hc. unfold with_caller, skeleton. rewrite Hc. cbn. by rewrite fmap_insert. Qed.

(** ** Going over a tree *)

Section walk.
Context (k : gmap Z links) (heads : list Z) (Hk : forest k heads).

(** The callers gone through, from the top to one below [p]. *)
Record path (p : Z) (above : list Z) : Prop := {
  pa_in : is_Some (k !! p);
  pa_above : forall x, x ∈ above -> is_Some (k !! x) /\ tc (up k) p x;
  pa_nodup : NoDup above
}.

Lemma path_here p above : path p above -> p ∉ above.
Proof. intros [_ H _] Hin. by apply (acyclic_irrefl k p (fo_acyclic _ _ Hk)), H. Qed.

Lemma path_fuel p above : path p above -> (length above < size k)%nat.
Proof.
  intros Hp. assert (length (p :: above) <= size k)%nat as H; [|cbn in H; lia]. apply path_length.
  - constructor; [by apply path_here|apply Hp].
  - intros x [->|Hx]%elem_of_cons; [apply Hp|]. by apply (pa_above _ _ Hp).
Qed.

Lemma callee_up p l q : k !! p = Some l -> q ∈ l_callees l -> is_Some (k !! q) /\ up k q p.
Proof.
  intros Hp Hq. destruct (fo_callee _ _ Hk p l q Hp Hq) as (m & Hm & Hmp). split; [by eexists|]. exists m.
  split; [done|]. split; [done|]. intros ->. by rewrite (fo_null _ _ Hk) in Hp.
Qed.

Lemma up_callee q p : up k q p -> exists l, k !! p = Some l /\ q ∈ l_callees l.
Proof. intros (m & Hm & <- & Hp). destruct (fo_parent _ _ Hk q m Hm Hp) as (h & Hh & Hin). by exists h. Qed.

Lemma path_down p above l q : path p above -> k !! p = Some l -> q ∈ l_callees l -> path q (p :: above).
Proof.
  intros Hp Hl Hq. destruct (callee_up p l q Hl Hq) as [H1 H2]. split; [done| |constructor; [by apply path_here|apply Hp]].
  intros x [->|Hx]%elem_of_cons; [split; [apply Hp|by apply tc_once]|].
  destruct (pa_above _ _ Hp x Hx) as [H3 H4]. split; [done|]. by eapply tc_l.
Qed.

(** ** Depths *)

Definition right (m : gmap Z caller) (c : caller) : Prop :=
  if decide (parent c = 0) then depth c = 0 else exists h, m !! parent c = Some h /\ depth c = depth h + 1.
Definition bounded s : Prop := forall p c, callers s !! p = Some c -> depth c <= max_depth s.
Record keeps s s' : Prop := {
  ke_objects : objects_of s' = objects_of s;
  ke_head : caller_head s' = caller_head s;
  ke_calls : calls s' = calls s;
  ke_shown : shown s' = shown s
}.
Lemma keeps_refl s : keeps s s.
Proof. done. Qed.
Lemma keeps_trans s1 s2 s3 : keeps s1 s2 -> keeps s2 s3 -> keeps s1 s3.
Proof. intros [] []. split; congruence. Qed.

(** What writing the depth of [p] does: its callees may be wrong then. *)
Lemma depth_written s p c (bad : Z -> Prop) : skeleton s = k -> callers s !! p = Some c ->
  (forall q d, callers s !! q = Some d -> bad q \/ right (callers s) d) ->
  exists d s', (if parent c =? 0 then Some 0 else h ← callers s !! parent c; Some (depth h + 1)) = Some d /\
    (s1 ← with_caller p (set_depth d) s; Some (if max_depth s1 <? d then set_max d s1 else s1)) = Some s' /\
    skeleton s' = k /\ keeps s s' /\ (bounded s -> bounded s') /\
    forall q e, callers s' !! q = Some e -> (bad q /\ q <> p) \/ q ∈ callee_head c \/ right (callers s') e.
Proof.
  intros Hs Hc Hbad. assert (k !! p = Some (links_of c)) as Hp by (rewrite <- Hs; apply skeleton_lookup; by exists c).
  assert (parent c <> p) as Hne.
  { intros Heq. apply (acyclic_irrefl k p (fo_acyclic _ _ Hk)). apply tc_once. exists (links_of c). split; [done|]. split; [done|].
    intros ->. by rewrite (fo_null _ _ Hk) in Hp. }
  assert (exists d, (if parent c =? 0 then Some 0 else h ← callers s !! parent c; Some (depth h + 1)) = Some d /\
    forall m, (forall q, q <> p -> m !! q = callers s !! q) -> right m (set_depth d c)) as (d & -> & Hd).
  { destruct (Z.eqb_spec (parent c) 0) as [H0|H0].
    - exists 0. split; [done|]. intros m _. unfold right. cbn. by rewrite decide_True.
    - destruct (fo_parent _ _ Hk p _ Hp H0) as (h & Hh & _). rewrite <- Hs in Hh. apply skeleton_lookup in Hh as (e & He & _).
      cbn in He. rewrite He. exists (depth e + 1). split; [done|]. intros m Hm. unfold right. cbn. rewrite decide_False by done.
      exists e. split; [by rewrite Hm|done]. }
  destruct (skeleton_write s p c (set_depth d) Hc) as [Hw Hsk]. exists d. rewrite Hw. cbn [mbind option_bind].
  set (s1 := set_callers (<[p := set_depth d c]> (callers s)) s) in *.
  assert (skeleton s1 = k) as Hs1. { rewrite Hsk, <- Hs. apply insert_id. rewrite Hs. exact Hp. }
  eexists. split; [done|]. split; [reflexivity|]. split; [by destruct (max_depth s1 <? d)|].
  split; [by destruct (max_depth s1 <? d)|]. split.
  - intros Hb q e He. assert (callers (if max_depth s1 <? d then set_max d s1 else s1) = callers s1) as Heq by by destruct (max_depth s1 <? d).
    rewrite Heq in He. clear Heq. cbn in He. assert (max_depth s1 = max_depth s) as Hm1 by done.
    destruct (decide (q = p)) as [->|Hq].
    + rewrite lookup_insert_eq in He. injection He as <-. cbn [set_depth depth]. destruct (Z.ltb_spec (max_depth s1) d); cbn; lia.
    + rewrite lookup_insert_ne in He by done. specialize (Hb q e He). destruct (Z.ltb_spec (max_depth s1) d); cbn; lia.
  - intros q e. assert (callers (if max_depth s1 <? d then set_max d s1 else s1) = callers s1) as -> by by destruct (max_depth s1 <? d).
    cbn. intros He. destruct (decide (q = p)) as [->|Hq].
    + rewrite lookup_insert_eq in He. injection He as <-. right. right. apply Hd. intros. by rewrite lookup_insert_ne.
    + rewrite lookup_insert_ne in He by done. destruct (Hbad q e He) as [?|Hr]; [by left|]. right.
      unfold right in *. destruct (decide (parent e = 0)); [by right|]. destruct Hr as (h & Hh & Hr).
      destruct (decide (parent e = p)) as [Hep|Hep]; [left|right; exists h; by rewrite lookup_insert_ne].
      assert (k !! q = Some (links_of e)) as Hkq by (rewrite <- Hs; apply skeleton_lookup; by exists e).
      destruct (fo_parent _ _ Hk q _ Hkq ltac:(done)) as (h' & Hh' & Hin). cbn in Hh'. rewrite Hep, Hp in Hh'. by injection Hh' as <-.
Qed.

Lemma update_depth_ok : forall fuel p s above (bad : Z -> Prop), skeleton s = k -> path p above -> (size k < fuel + length above)%nat ->
  (forall q d, callers s !! q = Some d -> bad q \/ right (callers s) d) ->
  exists s', call_update_depth fuel p s = Some s' /\ skeleton s' = k /\ keeps s s' /\ (bounded s -> bounded s') /\
    forall q d, callers s' !! q = Some d -> (bad q /\ q <> p) \/ right (callers s') d.
Proof.
  induction fuel as [|fuel IH]; intros p s above bad Hs Hp Hf Hbad; [pose proof (path_fuel _ _ Hp); lia|].
  destruct (pa_in _ _ Hp) as [l Hl]. pose proof Hl as Hl'. rewrite <- Hs in Hl'. apply skeleton_lookup in Hl' as (c & Hc & <-).
  cbn [call_update_depth]. rewrite Hc. cbn [mbind option_bind].
  destruct (depth_written s p c bad Hs Hc Hbad) as (d & s1 & -> & E & Hs1 & Hk1 & Hb1 & Hbad1). cbn [mbind option_bind].
  destruct (with_caller p (set_depth d) s) as [s0|]; [|done]. cbn [mbind option_bind] in *. injection E as ->.
  assert (forall qs s2 (bad2 : Z -> Prop), (forall q, q ∈ qs -> q ∈ callee_head c) -> skeleton s2 = k ->
    (forall q e, callers s2 !! q = Some e -> bad2 q \/ right (callers s2) e) ->
    exists s', foldl (fun o q => s ← o; call_update_depth fuel q s) (Some s2) qs = Some s' /\ skeleton s' = k /\ keeps s2 s' /\
      (bounded s2 -> bounded s') /\ forall q e, callers s' !! q = Some e -> (bad2 q /\ q ∉ qs) \/ right (callers s') e) as Hfold.
  { induction qs as [|q qs IHq]; intros s2 bad2 Hqs Hs2 Hbad2.
    - exists s2. do 4 (split; [done|]). intros q e He. destruct (Hbad2 q e He); [left; split; [done|by intros ?%elem_of_nil]|by right].
    - cbn [foldl mbind option_bind].
      destruct (IH q s2 (p :: above) bad2 Hs2) as (s3 & -> & Hs3 & Hk3 & Hb3 & Hbad3).
      { eapply path_down; [done|exact Hl|]. apply Hqs. by left. } { cbn. lia. } { done. }
      destruct (IHq s3 (fun x => bad2 x /\ x <> q)) as (s4 & -> & Hs4 & Hk4 & Hb4 & Hbad4); [intros; apply Hqs; by right|done|done|].
      exists s4. split; [done|]. split; [done|]. split; [by eapply keeps_trans|]. split; [auto|].
      intros x e He. destruct (Hbad4 x e He) as [[[H1 H2] H3]|?]; [left; split; [done|set_solver]|by right]. }
  destruct (Hfold (callee_head c) s1 (fun q => (bad q /\ q <> p) \/ q ∈ callee_head c)) as (s' & E' & Hs' & Hk' & Hb' & Hbad'); [done|done| |].
  { intros q e He. destruct (Hbad1 q e He) as [?|[?|?]]; [left; by left|left; by right|by right]. }
  exists s'. split; [exact E'|]. split; [done|]. split; [by eapply keeps_trans|]. split; [auto|].
  intros q e He. destruct (Hbad' q e He) as [[[?|?] ?]|?]; [by left|done|by right].
Qed.
End walk.

(** ** Links *)

Definition remove (p : Z) (l : list Z) : list Z := filter (fun q => q <> p) l.
Lemma elem_of_remove p q l : q ∈ remove p l <-> q ∈ l /\ q <> p.
Proof. unfold remove. rewrite list_elem_of_filter. tauto. Qed.
Lemma remove_id p l : p ∉ l -> remove p l = l.
Proof.
  unfold remove. induction l as [|x l IH]; [done|]. intros Hp. rewrite filter_cons, decide_True by set_solver.
  f_equal. apply IH. set_solver.
Qed.

(** [p] taken from its parent, and hung on [h]. *)
Definition detached (p x : Z) (l : links) : links :=
  Links (if decide (x = p) then 0 else l_parent l) (remove p (l_callees l)) (if decide (x = p) then 0 else l_link l).
Definition attached (h q x : Z) (l : links) : links :=
  Links (if decide (x = q) then h else l_parent l) (if decide (x = h) then l_callees l ++ [q] else l_callees l)
    (if decide (x = q) then h else l_link l).
Definition detach (p : Z) k : gmap Z links := map_imap (fun x l => Some (detached p x l)) k.
Definition attach (h q : Z) k : gmap Z links := map_imap (fun x l => Some (attached h q x l)) k.

Lemma detach_lookup p k x : detach p k !! x = detached p x <$> k !! x.
Proof. unfold detach. rewrite map_lookup_imap. by destruct (k !! x). Qed.
Lemma attach_lookup h q k x : attach h q k !! x = attached h q x <$> k !! x.
Proof. unfold attach. rewrite map_lookup_imap. by destruct (k !! x). Qed.

Lemma acyclic_sub k k' : (forall x y, up k' x y -> up k x y) -> acyclic k -> acyclic k'.
Proof. intros Hsub Hk x. induction (Hk x) as [x _ IH]. constructor. intros y Hy. by apply IH, Hsub. Qed.

Lemma forest_detach k heads p : forest k heads -> p <> 0 -> forest (detach p k) heads.
Proof.
  intros [F1 F2 F3 F4 F5 F6 F7] Hp0. split.
  - by rewrite detach_lookup, F1.
  - intros x l. rewrite detach_lookup. intros (m & Hm & ->)%fmap_Some_1. cbn. case_decide; [done|by eapply F2].
  - intros x l. rewrite detach_lookup. intros (m & Hm & ->)%fmap_Some_1. cbn. case_decide as Hx; [done|]. intros H0.
    destruct (F3 x m Hm H0) as (h & Hh & Hin). rewrite detach_lookup, Hh. eexists. split; [reflexivity|]. cbn. by apply elem_of_remove.
  - intros x l q. rewrite detach_lookup. intros (m & Hm & ->)%fmap_Some_1. cbn. intros [Hq Hne]%elem_of_remove.
    destruct (F4 x m q Hm Hq) as (n & Hn & Hnp). rewrite detach_lookup, Hn. eexists. split; [reflexivity|]. cbn. by rewrite decide_False.
  - intros x l. rewrite detach_lookup. intros (m & Hm & ->)%fmap_Some_1. cbn. by apply NoDup_filter, (F5 x).
  - destruct F6 as [F6 F6']. split; [done|]. intros x Hx. destruct (F6' x Hx) as (m & Hm & H0). rewrite detach_lookup, Hm.
    eexists. split; [reflexivity|]. cbn. by case_decide.
  - apply (acyclic_sub k); [|done]. intros x y (l & Hl & <- & Hy). rewrite detach_lookup in Hl. apply fmap_Some_1 in Hl as (m & Hm & ->).
    cbn in *. case_decide; [done|]. by exists m.
Qed.

Lemma forest_attach k heads h q lq : forest k heads -> k !! q = Some lq -> l_parent lq = 0 -> is_Some (k !! h) ->
  ~ rtc (up k) h q -> forest (attach h q k) (remove q heads).
Proof.
  intros [F1 F2 F3 F4 F5 F6 F7] Hq Hq0 [lh Hh] Hnot. assert (h <> q) as Hhq by (intros ->; by apply Hnot).
  assert (h <> 0) as Hh0 by (intros ->; by rewrite F1 in Hh). split.
  - by rewrite attach_lookup, F1.
  - intros x l. rewrite attach_lookup. intros (m & Hm & ->)%fmap_Some_1. cbn. case_decide; [done|by eapply F2].
  - intros x l. rewrite attach_lookup. intros (m & Hm & ->)%fmap_Some_1. cbn. case_decide as Hx.
    + intros _. subst x. rewrite attach_lookup, Hh. eexists. split; [reflexivity|]. cbn. rewrite decide_True by done. set_solver.
    + intros H0. destruct (F3 x m Hm H0) as (n & Hn & Hin). rewrite attach_lookup, Hn. eexists. split; [reflexivity|]. cbn.
      case_decide; [set_solver|done].
  - intros x l y. rewrite attach_lookup. intros (m & Hm & ->)%fmap_Some_1. cbn. intros Hy.
    assert (y ∈ l_callees m \/ x = h /\ y = q) as [Hy'|[-> ->]] by (case_decide; set_solver); clear Hy.
    + destruct (F4 x m y Hm Hy') as (n & Hn & Hnp). rewrite attach_lookup, Hn. eexists. split; [reflexivity|]. cbn.
      case_decide as Hyq; [|done]. subst y. exfalso. rewrite Hq in Hn. injection Hn as <-. rewrite Hq0 in Hnp. rewrite <- Hnp, F1 in Hm. done.
    + rewrite attach_lookup, Hq. eexists. split; [reflexivity|]. cbn. by rewrite decide_True.
  - intros x l. rewrite attach_lookup. intros (m & Hm & ->)%fmap_Some_1. cbn. specialize (F5 x m Hm). case_decide as Hx; [|done].
    apply NoDup_app. split; [done|]. split; [|apply NoDup_singleton]. intros y Hy ->%list_elem_of_singleton.
    destruct (F4 x m q Hm Hy) as (n & Hn & Hnp). rewrite Hq in Hn. injection Hn as <-. rewrite Hq0 in Hnp. rewrite <- Hnp, F1 in Hm. done.
  - destruct F6 as [F6 F6']. split; [by apply NoDup_filter|]. intros x [Hx Hxq]%elem_of_remove. destruct (F6' x Hx) as (m & Hm & H0).
    rewrite attach_lookup, Hm. eexists. split; [reflexivity|]. cbn. by rewrite decide_False.
  - assert (forall x y, up (attach h q k) x y -> x <> q -> up k x y) as Hup.
    { intros x y (l & Hl & <- & Hy) Hx. rewrite attach_lookup in Hl. apply fmap_Some_1 in Hl as (m & Hm & ->). cbn in *.
      destruct (decide (x = q)); [done|]. by exists m. }
    assert (forall z, ~ rtc (up k) z q -> Acc (fun y x => up (attach h q k) x y) z) as Hacc.
    { intros z. induction (F7 z) as [x _ IH]. intros Hn. constructor. intros y Hy. assert (x <> q) as Hx by (intros ->; by apply Hn).
      apply Hup in Hy; [|done]. apply IH; [done|]. intros Hr. apply Hn. by eapply rtc_l. }
    intros x. induction (F7 x) as [x _ IH]. destruct (decide (x = q)) as [->|Hx].
    + constructor. intros y (l & Hl & <- & Hy). rewrite attach_lookup, Hq in Hl. injection Hl as <-. cbn. rewrite decide_True by done. by apply Hacc.
    + constructor. intros y Hy. apply IH. by apply Hup.
Qed.

(** What the code does to the links; the depths stay. *)
Definition depths_of s : gmap Z Z := depth <$> callers s.
Record relinked s s' : Prop := {
  re_depths : depths_of s' = depths_of s;
  re_objects : objects_of s' = objects_of s;
  re_calls : calls s' = calls s;
  re_max : max_depth s' = max_depth s;
  re_shown : shown s' = shown s
}.
Lemma relinked_trans s1 s2 s3 : relinked s1 s2 -> relinked s2 s3 -> relinked s1 s3.
Proof. intros [] []. split; congruence. Qed.

Lemma relinked_write s p c f : callers s !! p = Some c -> depth (f c) = depth c ->
  relinked s (set_callers (<[p := f c]> (callers s)) s).
Proof.
  intros Hc Hd. split; try done. unfold depths_of. cbn. rewrite fmap_insert, Hd. apply insert_id. by rewrite lookup_fmap, Hc.
Qed.

Lemma detach_root k heads p l : forest k heads -> k !! p = Some l -> l_parent l = 0 -> detach p k = k.
Proof.
  intros F Hp H0. apply map_eq. intros x. rewrite detach_lookup. destruct (k !! x) as [m|] eqn:Hm; [|done]. cbn. f_equal.
  assert (p ∉ l_callees m) as Hno.
  { intros Hin. destruct (fo_callee _ _ F x m p Hm Hin) as (n & Hn & Hnp). rewrite Hp in Hn. injection Hn as <-.
    rewrite H0 in Hnp. subst x. by rewrite (fo_null _ _ F) in Hm. }
  unfold detached. rewrite remove_id by done. destruct (decide (x = p)) as [->|]; [|by destruct m].
  rewrite Hp in Hm. injection Hm as <-. pose proof (fo_link _ _ F p l Hp) as Hl. destruct l. cbn in *. by subst.
Qed.

(** [list_del_init] on the link to the parent, the parent still set. *)
Lemma del_link_ok s heads p c : forest (skeleton s) heads -> callers s !! p = Some c -> p <> 0 ->
  exists s' c', del_caller_link p s = Some s' /\ callers s' !! p = Some c' /\ callee_head c' = callee_head c /\ caller_link c' = 0 /\
    caller_head s' = caller_head s /\ relinked s s' /\ forall par lk, <[p := Links par (callee_head c) lk]> (skeleton s') = <[p := Links par (callee_head c) lk]> (detach p (skeleton s)).
Proof.
  intros F Hc Hp0. assert (skeleton s !! p = Some (links_of c)) as Hp by (apply skeleton_lookup; by exists c).
  pose proof (fo_link _ _ F p _ Hp) as Hl. cbn in Hl. unfold del_caller_link. rewrite Hc. cbn [mbind option_bind].
  destruct (Z.eqb_spec (caller_link c) 0) as [H0|H0].
  { exists s, c. do 6 (split; [done|]). intros par lk. rewrite (detach_root _ _ _ _ F Hp); [done|]. cbn. congruence. }
  rewrite Hl in *. destruct (fo_parent _ _ F p _ Hp ltac:(done)) as (h & Hh & Hin). cbn in Hh. pose proof Hh as Hh'.
  apply skeleton_lookup in Hh' as (e & He & <-).
  assert (parent c <> p) as Hne.
  { intros Heq. apply (acyclic_irrefl _ p (fo_acyclic _ _ F)), tc_once. by exists (links_of c). }
  destruct (skeleton_write s (parent c) e (fun h => set_callees (filter (fun q => q <> p) (callee_head h)) h) He) as [-> Hs1].
  cbn [mbind option_bind]. set (s1 := set_callers _ s) in *. assert (callers s1 !! p = Some c) as Hc1 by (unfold s1; cbn; by rewrite lookup_insert_ne).
  destruct (skeleton_write s1 p c (set_link 0) Hc1) as [-> Hs2]. set (s2 := set_callers _ s1) in *.
  exists s2, (set_link 0 c). split; [done|]. split; [unfold s2; cbn; by rewrite lookup_insert_eq|]. do 3 (split; [done|]). split.
  { eapply relinked_trans; [by apply (relinked_write s (parent c) e (fun h => set_callees (filter (fun q => q <> p) (callee_head h)) h))|].
    by apply (relinked_write s1 p c (set_link 0)). }
  intros par lk. rewrite Hs2, Hs1. rewrite insert_insert_eq. apply map_eq. intros x. destruct (decide (x = p)) as [->|Hx]; [by rewrite !lookup_insert_eq|].
  rewrite !(lookup_insert_ne _ p x) by done. rewrite detach_lookup. destruct (decide (x = parent c)) as [->|Hxp].
  - rewrite lookup_insert_eq, Hh. cbn. unfold detached. by rewrite !decide_False.
  - rewrite lookup_insert_ne by done. destruct (skeleton s !! x) as [m|] eqn:Hm; [|done]. cbn. f_equal. unfold detached.
    rewrite !decide_False, remove_id by done || (intros Hin'; destruct (fo_callee _ _ F x m p Hm Hin') as (n & Hn & Hnp);
      rewrite Hp in Hn; injection Hn as <-; by apply Hxp). by destruct m.
Qed.

Lemma detach_ok s heads p c : forest (skeleton s) heads -> callers s !! p = Some c -> p <> 0 ->
  exists s', (s ← del_caller_link p s; with_caller p (set_parent 0) s) = Some s' /\ skeleton s' = detach p (skeleton s) /\
    caller_head s' = caller_head s /\ relinked s s'.
Proof.
  intros F Hc Hp0. destruct (del_link_ok s heads p c F Hc Hp0) as (s1 & c1 & -> & Hc1 & Hce & Hl & Hh & Hr & Heq). cbn [mbind option_bind].
  destruct (skeleton_write s1 p c1 (set_parent 0) Hc1) as [-> Hs2]. eexists. split; [done|]. rewrite Hs2. split; [|split; [done|]].
  - assert (skeleton s !! p = Some (links_of c)) as Hp by (apply skeleton_lookup; by exists c).
    unfold links_of. cbn [set_parent parent callee_head caller_link]. rewrite Hce, Hl, Heq. apply insert_id.
    rewrite detach_lookup, Hp. cbn. unfold detached. rewrite !decide_True by done. cbn. f_equal. f_equal. apply remove_id.
    intros Hin. destruct (callee_up _ _ F p _ p Hp Hin) as [_ Hup]. by apply (acyclic_irrefl _ p (fo_acyclic _ _ F)), tc_once.
  - eapply relinked_trans; [exact Hr|]. by apply relinked_write.
Qed.

Lemma attach_ok s heads h q c : forest (skeleton s) heads -> callers s !! q = Some c -> is_Some (callers s !! h) -> h <> q -> q <> 0 ->
  exists s', (s ← move_caller_link q h s; with_caller q (set_parent h) (del_class_link q s)) = Some s' /\
    skeleton s' = attach h q (detach q (skeleton s)) /\ caller_head s' = remove q (caller_head s) /\ relinked s s'.
Proof.
  intros F Hc Hhs Hhq Hq0. assert (skeleton s !! q = Some (links_of c)) as Hq by (apply skeleton_lookup; by exists c).
  destruct (del_link_ok s heads q c F Hc Hq0) as (s1 & c1 & E1 & Hc1 & Hce & _ & Hh & Hr & Heq).
  unfold move_caller_link. rewrite E1. cbn [mbind option_bind].
  assert (exists e, callers s1 !! h = Some e) as [e He].
  { assert (is_Some (depths_of s1 !! h)) as Hs; [|unfold depths_of in Hs; rewrite lookup_fmap in Hs; by apply fmap_is_Some in Hs].
    rewrite (re_depths _ _ Hr). unfold depths_of. rewrite lookup_fmap. by apply fmap_is_Some. }
  destruct (skeleton_write s1 h e (fun c => set_callees (callee_head c ++ [q]) c) He) as [-> Hs2]. cbn [mbind option_bind].
  set (s2 := set_callers _ s1) in *. assert (callers s2 !! q = Some c1) as Hc2 by (unfold s2; cbn; by rewrite lookup_insert_ne).
  destruct (skeleton_write s2 q c1 (set_link h) Hc2) as [-> Hs3]. cbn [mbind option_bind]. set (s3 := set_callers _ s2) in *.
  assert (callers (del_class_link q s3) !! q = Some (set_link h c1)) as Hc3 by (unfold s3; cbn; by rewrite lookup_insert_eq).
  destruct (skeleton_write (del_class_link q s3) q _ (set_parent h) Hc3) as [-> Hs4]. eexists. split; [done|]. rewrite Hs4. split; [|split].
  - change (skeleton (del_class_link q s3)) with (skeleton s3). rewrite Hs3, insert_insert_eq, Hs2.
    assert (links_of (set_parent h (set_link h c1)) = Links h (callee_head c) h) as -> by (unfold links_of; cbn; by rewrite Hce).
    rewrite insert_insert_ne by done. rewrite Heq. apply map_eq. intros x. rewrite attach_lookup, detach_lookup.
    destruct (decide (x = h)) as [->|Hxh]; [|destruct (decide (x = q)) as [->|Hxq]].
    + rewrite lookup_insert_eq. assert (skeleton s1 !! h = detached q h <$> skeleton s !! h) as Hsh.
      { assert ((<[q := Links 0 (callee_head c) 0]> (skeleton s1)) !! h = (<[q := Links 0 (callee_head c) 0]> (detach q (skeleton s))) !! h) as Hs by by rewrite Heq.
        rewrite !lookup_insert_ne, detach_lookup in Hs by done. exact Hs. }
      assert (skeleton s1 !! h = Some (links_of e)) as Hse by (apply skeleton_lookup; by exists e). rewrite Hse in Hsh.
      rewrite <- Hsh. cbn. unfold attached. by destruct (decide (h = q)), (decide (h = h)).
    + rewrite lookup_insert_ne, lookup_insert_eq, Hq by done. cbn. unfold attached, detached. cbn.
      destruct (decide (q = q)), (decide (q = h)); try done. do 2 f_equal. symmetry. apply remove_id. intros Hin.
      destruct (callee_up _ _ F q _ q Hq Hin) as [_ Hup]. by apply (acyclic_irrefl _ q (fo_acyclic _ _ F)), tc_once.
    + rewrite !lookup_insert_ne, detach_lookup by done. destruct (skeleton s !! x) as [m|]; [|done]. cbn. unfold attached, detached. cbn.
      by destruct (decide (x = q)), (decide (x = h)).
  - cbn. unfold s3, s2. cbn. by rewrite Hh.
  - eapply relinked_trans; [exact Hr|]. eapply relinked_trans; [by apply (relinked_write s1 h e (fun c => set_callees (callee_head c ++ [q]) c))|].
    eapply relinked_trans; [by apply (relinked_write s2 q c1 (set_link h))|].
    eapply relinked_trans; [|by apply (relinked_write (del_class_link q s3) q _ (set_parent h))]. done.
Qed.

(** ** Going up and down *)

(** Whether a caller is above another one, itself included. *)
Lemma recursive_ok k heads s q : forest k heads -> skeleton s = k -> forall fuel p below,
  (forall x, x ∈ below -> is_Some (k !! x) /\ (p <> 0 -> tc (up k) x p)) -> NoDup below -> p = 0 \/ is_Some (k !! p) ->
  (size k < fuel + length below)%nat ->
  exists b, call_recursive fuel p q s = Some b /\ (b = true <-> p <> 0 /\ rtc (up k) p q).
Proof.
  intros F Hs. induction fuel as [|fuel IH]; intros p below Hb Hd Hp Hf.
  { pose proof (path_length k below Hd (fun x Hx => proj1 (Hb x Hx))). lia. }
  cbn [call_recursive]. destruct (Z.eqb_spec p 0) as [->|Hp0]; [exists false; split; [done|]; split; [done|by intros []]|].
  destruct Hp as [->|[l Hl]]; [done|]. destruct (Z.eqb_spec p q) as [->|Hpq]; [by exists true|].
  pose proof Hl as Hl'. rewrite <- Hs in Hl'. apply skeleton_lookup in Hl' as (c & -> & <-). cbn [mbind option_bind].
  assert (parent c = 0 \/ is_Some (k !! parent c)) as Hpar.
  { destruct (decide (parent c = 0)); [by left|right]. destruct (fo_parent _ _ F p _ Hl ltac:(done)) as (h & Hh & _). by exists h. }
  assert (parent c <> 0 -> up k p (parent c)) as Hup by (intros; by exists (links_of c)).
  destruct (IH (parent c) (p :: below)) as (b & -> & Hbb).
  - intros x [->|Hx]%elem_of_cons; [split; [by eexists|intros; apply tc_once; by apply Hup]|]. destruct (Hb x Hx) as [H1 H2].
    split; [done|]. intros H0. eapply tc_r; [by apply H2|by apply Hup].
  - constructor; [|done]. intros Hin. destruct (Hb p Hin) as [_ Ht]. by apply (acyclic_irrefl k p (fo_acyclic _ _ F)), Ht.
  - done.
  - cbn. lia.
  - exists b. split; [done|]. rewrite Hbb. split.
    + intros [H1 H2]. split; [done|]. eapply rtc_l; [by apply Hup|done].
    + intros [_ Hr]. apply rtc_inv in Hr as [->|(y & Hy & Hr')]; [done|]. destruct (decide (parent c = 0)) as [H0|H0].
      * destruct Hy as (l & Hl2 & <- & Hy0). rewrite Hl in Hl2. injection Hl2 as <-. done.
      * split; [done|]. by rewrite (up_fun _ _ _ _ (Hup H0) Hy).
Qed.

(** What the lists of several callers give, one after the other. *)
Definition gather (f : Z -> option (list (Z * Z * bool))) (qs : list Z) : option (list (Z * Z * bool)) :=
  foldr (fun q o => l' ← f q; l ← o; Some (l' ++ l)) (Some []) qs.

(** An entry is as the caller says. *)
Definition entry_of s (e : Z * Z * bool) : Prop :=
  exists c, callers s !! e.1.1 = Some c /\ e = (e.1.1, depth c, recursive c).

Lemma gather_ok k heads s (f : Z -> option (list (Z * Z * bool))) : forest k heads -> forall qs,
  NoDup qs -> (forall q q' x, q ∈ qs -> q' ∈ qs -> rtc (up k) x q -> rtc (up k) x q' -> q = q') ->
  (forall q, q ∈ qs -> exists l, f q = Some l /\ NoDup l.*1.*1 /\ Forall (entry_of s) l /\
     forall x, x ∈ l.*1.*1 <-> is_Some (k !! x) /\ rtc (up k) x q) ->
  exists l, gather f qs = Some l /\ NoDup l.*1.*1 /\ Forall (entry_of s) l /\
    forall x, x ∈ l.*1.*1 <-> is_Some (k !! x) /\ exists q, q ∈ qs /\ rtc (up k) x q.
Proof.
  intros F. induction qs as [|q qs IH]; intros Hd Hdis Hf.
  { exists []. split; [done|]. split; [constructor|]. split; [constructor|]. intros x. split; [by intros ?%elem_of_nil|by intros (_ & ? & ?%elem_of_nil & _)]. }
  apply NoDup_cons in Hd as [Hq Hd]. cbn [gather foldr]. destruct (Hf q ltac:(by left)) as (l' & -> & N1 & E1 & M1). cbn [mbind option_bind].
  destruct IH as (l & E & N2 & E2 & M2); [done| | |].
  { intros a b x Ha Hb. apply Hdis; by right. } { intros a Ha. apply Hf. by right. }
  unfold gather in E. rewrite E. cbn [mbind option_bind]. exists (l' ++ l). split; [done|]. rewrite !fmap_app. split; [|split].
  - apply NoDup_app. split; [done|]. split; [|done]. intros x [_ Hx]%M1 [_ (q' & Hq' & Hx')]%M2.
    rewrite (Hdis q q' x) in Hq; [done|by left|by right|done|done].
  - by apply Forall_app.
  - intros x. rewrite elem_of_app, M1, M2. setoid_rewrite elem_of_cons. split.
    + intros [[H1 H2]|(H1 & q' & H2 & H3)]; (split; [done|]); [exists q; by split; [left|]|exists q'; by split; [right|]].
    + intros (H1 & q' & [->|H2] & H3); [by left|right]. split; [done|]. by exists q'.
Qed.

(** A tree is gone over once. *)
Lemma iterate_ok k heads s : forest k heads -> skeleton s = k -> forall fuel p above, path k p above ->
  (size k < fuel + length above)%nat ->
  exists l, call_iterate fuel p s = Some l /\ NoDup l.*1.*1 /\ Forall (entry_of s) l /\
    forall x, x ∈ l.*1.*1 <-> is_Some (k !! x) /\ rtc (up k) x p.
Proof.
  intros F Hs. induction fuel as [|fuel IH]; intros p above Hp Hf; [pose proof (path_fuel k heads F _ _ Hp); lia|].
  destruct (pa_in _ _ _ Hp) as [l Hl]. pose proof Hl as Hl'. rewrite <- Hs in Hl'. apply skeleton_lookup in Hl' as (c & Hc & <-).
  cbn [call_iterate]. rewrite Hc. cbn [mbind option_bind].
  assert (forall q, q ∈ callee_head c -> up k q p) as Hup by (intros q Hq; by apply (callee_up k heads F p _ q Hl)).
  destruct (gather_ok k heads s (fun q => call_iterate fuel q s) F (callee_head c)) as (rest & E & N & En & M).
  - by apply (fo_nodup _ _ F p _ Hl).
  - assert (forall a b, a ∈ callee_head c -> b ∈ callee_head c -> rtc (up k) a b -> a = b) as Hab.
    { intros a b Ha Hb Hr. apply rtc_inv in Hr as [->|(y & Hy & Hr')]; [done|]. exfalso.
      rewrite (up_fun _ _ _ _ Hy (Hup a Ha)) in Hr'. apply (acyclic_irrefl k p (fo_acyclic _ _ F)).
      eapply tc_rtc_l; [exact Hr'|]. apply tc_once. by apply Hup. }
    intros a b x Ha Hb Hxa Hxb. destruct (up_linear _ _ _ _ Hxa Hxb); [by apply Hab|symmetry; by apply Hab].
  - intros q Hq. apply (IH q (p :: above)); [by apply (path_down k heads F p above _ q Hp Hl)|cbn; lia].
  - unfold gather in E. rewrite E. cbn [mbind option_bind]. exists ((p, depth c, recursive c) :: rest). split; [done|]. cbn [fmap list_fmap fst].
    split; [|split].
    + constructor; [|done]. intros [_ (q & Hq & Hr)]%M. apply (acyclic_irrefl k p (fo_acyclic _ _ F)).
      eapply tc_rtc_l; [exact Hr|]. apply tc_once. by apply Hup.
    + constructor; [by exists c|done].
    + intros x. rewrite elem_of_cons, M. split.
      * intros [->|(H1 & q & Hq & Hr)]; [split; [by apply Hp|done]|]. split; [done|]. eapply rtc_r; [exact Hr|by apply Hup].
      * intros [H1 Hr]. apply rtc_inv_r in Hr as [->|(q & Hr & Hq)]; [by left|right]. split; [done|]. exists q. split; [|done].
        destruct (up_callee k heads F q p Hq) as (m & Hm & Hin). rewrite Hl in Hm. by injection Hm as <-.
Qed.

(** The whole graph. *)
Lemma class_iterate_ok s : forest (skeleton s) (caller_head s) ->
  exists l, call_class_iterate s = Some l /\ NoDup l.*1.*1 /\ Forall (entry_of s) l /\
    forall x, x ∈ l.*1.*1 <-> is_Some (callers s !! x) /\ exists p, p ∈ caller_head s /\ rtc (up (skeleton s)) x p.
Proof.
  intros F. destruct (fo_heads _ _ F) as [Hd Hh].
  assert (size (skeleton s) = size (callers s)) as Hsize by apply map_size_fmap.
  destruct (gather_ok (skeleton s) (caller_head s) s (fun q => call_iterate (call_fuel s) q s) F (caller_head s) Hd) as (l & E & N & En & M).
  - assert (forall a b, a ∈ caller_head s -> rtc (up (skeleton s)) a b -> a = b) as Hab.
    { intros a b Ha Hr. apply rtc_inv in Hr as [->|(y & Hy & Hr')]; [done|]. exfalso. destruct Hy as (m & Hm & <- & Hy).
      destruct (Hh a Ha) as (n & Hn & H0). congruence. }
    intros a b x Ha Hb Hxa Hxb. destruct (up_linear _ _ _ _ Hxa Hxb); [by apply Hab|symmetry; by apply Hab].
  - intros q Hq. destruct (Hh q Hq) as (m & Hm & _). apply (iterate_ok _ _ s F eq_refl (call_fuel s) q []).
    + split; [by eexists|by intros x ?%elem_of_nil|constructor].
    + unfold call_fuel. cbn. lia.
  - exists l. split; [exact E|]. split; [done|]. split; [done|]. intros x. rewrite M. unfold skeleton at 1. rewrite lookup_fmap, fmap_is_Some. done.
Qed.

(** ** Linking *)

(** The state between two calls. *)
Record call_ok s : Prop := {
  k_forest : forest (skeleton s) (caller_head s);
  k_depths : forall p c, callers s !! p = Some c -> right (callers s) c;
  k_bounded : bounded s;
  k_found : forall t, exists q, call_find t s = Some q /\ (q = 0 \/ is_Some (callers s !! q))
}.

(** A report changes nothing but the number of calls. *)
Lemma graph_print_ok s : forest (skeleton s) (caller_head s) ->
  exists n l, call_class_print s = Some (CallClass (objects_of s) (callers s) (caller_head s) n (max_depth s) l).
Proof.
  intros F. unfold call_class_print. destruct (calls s =? 0); [exists (calls s), (shown s); by destruct s|].
  destruct (class_iterate_ok s F) as (l & -> & _). cbn. by eexists _, _.
Qed.

Definition parents s : gmap Z Z := parent <$> callers s.
Lemma parents_skeleton s : parents s = l_parent <$> skeleton s.
Proof. unfold parents, skeleton. by rewrite <- map_fmap_compose. Qed.

(** Depths are right after new links but for [q], when only its parent changed. *)
Lemma right_relinked s s' q : relinked s s' -> (forall x, x <> q -> parents s' !! x = parents s !! x) ->
  (forall p c, callers s !! p = Some c -> right (callers s) c) ->
  forall p c, callers s' !! p = Some c -> p = q \/ right (callers s') c.
Proof.
  intros Hr Hp Hright p c Hc. destruct (decide (p = q)) as [?|Hpq]; [by left|right].
  assert (forall x e, callers s' !! x = Some e -> exists d, callers s !! x = Some d /\ depth d = depth e) as Hback.
  { intros x e He. pose proof (re_depths _ _ Hr) as Hd. apply (f_equal (.!! x)) in Hd. unfold depths_of in Hd.
    rewrite !lookup_fmap, He in Hd. symmetry in Hd. apply fmap_Some_1 in Hd as (d & Hd & Heq). by exists d. }
  destruct (Hback p c Hc) as (d & Hd & Hdep). specialize (Hright p d Hd). specialize (Hp p Hpq). unfold parents in Hp.
  rewrite !lookup_fmap, Hc, Hd in Hp. injection Hp as Hpar. unfold right in *. rewrite Hpar.
  destruct (decide (parent d = 0)); [congruence|]. destruct Hright as (h & Hh & Hdh).
  pose proof (re_depths _ _ Hr) as Hds. apply (f_equal (.!! (parent d))) in Hds. unfold depths_of in Hds.
  rewrite !lookup_fmap, Hh in Hds. apply fmap_Some_1 in Hds as (h' & Hh' & Heq). exists h'. split; [done|]. congruence.
Qed.

Lemma bounded_relinked s s' : relinked s s' -> bounded s -> bounded s'.
Proof.
  intros Hr Hb p c Hc. pose proof (re_depths _ _ Hr) as Hd. apply (f_equal (.!! p)) in Hd. unfold depths_of in Hd.
  rewrite !lookup_fmap, Hc in Hd. symmetry in Hd. apply fmap_Some_1 in Hd as (d & Hd & Heq). rewrite (re_max _ _ Hr).
  specialize (Hb p d Hd). congruence.
Qed.

Lemma found_same s s' : objects_of s' = objects_of s -> (forall x, is_Some (callers s !! x) -> is_Some (callers s' !! x)) ->
  (forall t, exists q, call_find t s = Some q /\ (q = 0 \/ is_Some (callers s !! q))) ->
  forall t, exists q, call_find t s' = Some q /\ (q = 0 \/ is_Some (callers s' !! q)).
Proof.
  intros Ho Hx Hf t. destruct (Hf t) as (q & E & Hq). exists q. unfold call_find in *. rewrite Ho. split; [done|].
  destruct Hq; [by left|right; by apply Hx].
Qed.

Lemma skeleton_some s x : is_Some (skeleton s !! x) <-> is_Some (callers s !! x).
Proof. unfold skeleton. by rewrite lookup_fmap, fmap_is_Some. Qed.

(** Once the links are those of a forest, the depths below [q] are set. *)
Lemma depths_set s s1 q heads : call_ok s -> relinked s s1 -> forest (skeleton s1) heads -> caller_head s1 = heads ->
  is_Some (callers s1 !! q) -> (forall x, x <> q -> parents s1 !! x = parents s !! x) ->
  (forall x, is_Some (callers s !! x) -> is_Some (callers s1 !! x)) ->
  exists s2, call_update_depth (call_fuel s1) q s1 = Some s2 /\ call_ok s2 /\ skeleton s2 = skeleton s1 /\ keeps s1 s2.
Proof.
  intros [F D B Fd] Hr F1 Hh Hq Hp Hx.
  destruct (update_depth_ok (skeleton s1) heads F1 (call_fuel s1) q s1 [] (fun x => x = q) eq_refl) as (s2 & E & Hs2 & Hk & Hb & Hbad).
  - split; [by apply skeleton_some|by intros x ?%elem_of_nil|constructor].
  - unfold call_fuel, skeleton. rewrite map_size_fmap. cbn. lia.
  - by apply (right_relinked s).
  - exists s2. split; [done|]. split; [|done]. split.
    + rewrite Hs2, (ke_head _ _ Hk), Hh. done.
    + intros p c Hc. destruct (Hbad p c Hc) as [[? ?]|?]; done.
    + by apply Hb, (bounded_relinked s).
    + apply (found_same s); [by rewrite (ke_objects _ _ Hk), (re_objects _ _ Hr)| |done].
      intros x Hx'. apply Hx, skeleton_some in Hx'. apply skeleton_some. by rewrite Hs2.
Qed.

Lemma call_ok_same s n l h : call_ok s -> forest (skeleton s) h ->
  call_ok (CallClass (objects_of s) (callers s) h n (max_depth s) l).
Proof. intros [F D B Fd] F'. by split. Qed.

Lemma forest_root k heads p l : forest k heads -> k !! p = Some l -> l_parent l = 0 -> p ∉ heads -> forest k (heads ++ [p]).
Proof.
  intros [F1 F2 F3 F4 F5 [F6 F6'] F7] Hp H0 Hno. split; try done. split.
  - apply NoDup_app. split; [done|]. split; [by intros x Hx ->%list_elem_of_singleton|apply NoDup_singleton].
  - intros x [Hx| ->%list_elem_of_singleton]%elem_of_app; [by apply F6'|by exists l].
Qed.

(** A caller gets a root: [p] has no parent then, the others keep theirs. *)
Lemma call_root_ok s p : call_ok s -> is_Some (callers s !! p) ->
  exists s', call_root p s = Some s' /\ call_ok s' /\ parents s' = <[p := 0]> (parents s) /\ p ∈ caller_head s' /\
    (forall x, x ∈ caller_head s -> x ∈ caller_head s').
Proof.
  intros Hok [c Hc]. pose proof (k_forest _ Hok) as F. unfold call_root. rewrite Hc. cbn [mbind option_bind].
  assert (skeleton s !! p = Some (links_of c)) as Hp by (apply skeleton_lookup; by exists c).
  assert (p <> 0) as Hp0 by (intros ->; by rewrite (fo_null _ _ F) in Hp).
  assert (exists s1, (if caller_link c =? 0 then Some s else
      s ← call_class_print s; s ← del_caller_link p s; s ← with_caller p (set_parent 0) s; call_update_depth (call_fuel s) p s) = Some s1 /\
    call_ok s1 /\ parents s1 = <[p := 0]> (parents s) /\ caller_head s1 = caller_head s) as (s1 & -> & Hok1 & Hpar & Hh1).
  { pose proof (fo_link _ _ F p _ Hp) as Hl. cbn in Hl. destruct (Z.eqb_spec (caller_link c) 0) as [H0|H0].
    - exists s. split; [done|]. split; [done|]. split; [|done]. symmetry. apply insert_id. unfold parents. rewrite lookup_fmap, Hc. cbn. congruence.
    - destruct (graph_print_ok s F) as (n & l & ->). cbn [mbind option_bind]. set (s0 := CallClass _ _ _ _ _ _).
      destruct (detach_ok s0 (caller_head s) p c F Hc Hp0) as (s1 & E & Hs1 & Hh & Hr). 
      destruct (del_caller_link p s0) as [s0'|]; [|done]. cbn [mbind option_bind] in *. rewrite E. cbn [mbind option_bind].
      assert (parents s1 = <[p := 0]> (parents s)) as Hpar.
      { apply map_eq. intros x. rewrite (parents_skeleton s1), Hs1, lookup_fmap, detach_lookup. change (skeleton s0) with (skeleton s).
        rewrite parents_skeleton. destruct (decide (x = p)) as [->|Hx].
        - rewrite lookup_insert_eq, Hp. cbn. by rewrite decide_True.
        - rewrite lookup_insert_ne, lookup_fmap by done. destruct (skeleton s !! x); cbn; [by rewrite decide_False|done]. }
      destruct (depths_set s0 s1 p (caller_head s)) as (s2 & -> & Hok2 & Hs2 & Hk2).
      { by apply call_ok_same. }
      { exact Hr. }
      { rewrite Hs1. by apply forest_detach. }
      { exact Hh. }
      { apply skeleton_some. rewrite Hs1, detach_lookup. change (skeleton s0) with (skeleton s). by rewrite Hp. }
      { intros x Hx. rewrite Hpar, lookup_insert_ne by done. done. }
      { intros x Hx. apply skeleton_some. rewrite Hs1, detach_lookup. change (skeleton s0) with (skeleton s).
        apply fmap_is_Some. by apply (skeleton_some s). }
      exists s2. split; [done|]. split; [done|]. split; [by rewrite parents_skeleton, Hs2, <- parents_skeleton|].
      by rewrite (ke_head _ _ Hk2). }
  cbn [mbind option_bind]. eexists. split; [done|]. unfold class_link_empty. case_bool_decide as Hin.
  - split; [|split; [done|split; [cbn; apply elem_of_app; right; by left|intros x Hx; cbn; rewrite Hh1; apply elem_of_app; by left]]].
    apply call_ok_same; [done|]. assert (parents s1 !! p = Some 0) as Hp1 by by rewrite Hpar, lookup_insert_eq.
    rewrite parents_skeleton, lookup_fmap in Hp1. apply fmap_Some_1 in Hp1 as (m & Hm & H0).
    apply (forest_root _ _ p m); [by apply k_forest|done|done|done].
  - split; [done|]. split; [done|]. split; [done|]. intros x Hx. by rewrite Hh1.
Qed.

(** [q] below [p]: unless [q] is above [p], [p] is its parent then. *)
Lemma call_edge_ok s p q : call_ok s -> is_Some (callers s !! p) -> is_Some (callers s !! q) ->
  exists s' b, call_edge p q s = Some s' /\ call_ok s' /\ (b = true <-> rtc (up (skeleton s)) p q) /\
    parents s' = (if b then parents s else <[q := p]> (parents s)) /\
    (forall x, x ∈ caller_head s' <-> x ∈ caller_head s /\ (b = false -> x <> q)).
Proof.
  intros Hok [cp Hcp] [cq Hcq]. pose proof (k_forest _ Hok) as F. unfold call_edge.
  assert (skeleton s !! p = Some (links_of cp)) as Hp by (apply skeleton_lookup; by exists cp).
  assert (skeleton s !! q = Some (links_of cq)) as Hq by (apply skeleton_lookup; by exists cq).
  assert (p <> 0) as Hp0 by (intros ->; by rewrite (fo_null _ _ F) in Hp).
  assert (q <> 0) as Hq0 by (intros ->; by rewrite (fo_null _ _ F) in Hq).
  destruct (recursive_ok (skeleton s) (caller_head s) s q F eq_refl (call_fuel s) p []) as (b & -> & Hb);
    [by intros x ?%elem_of_nil|constructor|right; by eexists|unfold call_fuel, skeleton; rewrite map_size_fmap; cbn; lia|].
  cbn [mbind option_bind]. destruct (skeleton_write s p cp (set_recursive b) Hcp) as [-> Hs0]. cbn [mbind option_bind].
  set (s0 := set_callers _ s) in *. assert (skeleton s0 = skeleton s) as Hsk by (rewrite Hs0; by apply insert_id).
  assert (exists cq', callers s0 !! q = Some cq' /\ parent cq' = parent cq) as (cq' & Hcq' & Hpq).
  { unfold s0. cbn. destruct (decide (q = p)) as [->|?]; [rewrite lookup_insert_eq|rewrite lookup_insert_ne by done; by exists cq].
    eexists. split; [done|]. cbn. congruence. }
  rewrite Hcq'. cbn [mbind option_bind]. rewrite Hpq.
  assert (relinked s s0) as Hr0 by by apply relinked_write.
  assert (parents s0 = parents s) as Hpar0 by by rewrite !parents_skeleton, Hsk.
  assert (forall x, is_Some (callers s !! x) -> is_Some (callers s0 !! x)) as Hx0.
  { intros x Hx. apply skeleton_some in Hx. apply skeleton_some. by rewrite Hsk. }
  assert (call_ok s0) as Hok0.
  { split; [by rewrite Hsk| |by apply (bounded_relinked s), k_bounded|by apply (found_same s); [|exact Hx0|apply k_found]].
    intros x c Hc. destruct (right_relinked s s0 0 Hr0) with (p := x) (c := c) as [->|?]; try done; [by intros; rewrite Hpar0|by apply k_depths|].
    exfalso. assert (is_Some (skeleton s0 !! 0)) as Hs by (apply skeleton_some; by exists c). rewrite Hsk, (fo_null _ _ F) in Hs. by destruct Hs. }
  assert (b = true <-> rtc (up (skeleton s)) p q) as Hbr by (rewrite Hb; tauto).
  destruct (negb (parent cq =? p) && negb b) eqn:Hcond.
  2: { exists s0, b. split; [done|]. split; [done|]. split; [done|]. destruct b.
       - split; [done|]. intros x. split; [by split|by intros [? _]].
       - rewrite andb_true_r in Hcond. apply negb_false_iff, Z.eqb_eq in Hcond. split.
         + rewrite Hpar0. symmetry. apply insert_id. unfold parents. by rewrite lookup_fmap, Hcq, <- Hcond.
         + intros x. split; [|by intros [? _]]. intros Hx. split; [done|]. intros _ ->. destruct (fo_heads _ _ F) as [_ Hh].
           destruct (Hh q Hx) as (m & Hm & H0). rewrite Hq in Hm. injection Hm as <-. cbn in H0. congruence. }
  apply andb_prop in Hcond as [Hne Hbf]. apply negb_true_iff in Hne, Hbf. subst b.
  assert (p <> q) as Hpq' by (intros ->; destruct Hbr as [_ Hbr]; by specialize (Hbr (rtc_refl _ _))).
  assert (exists n l, (if negb (parent cq =? 0) || negb (class_link_empty q s0) then call_class_print s0 else Some s0) =
    Some (CallClass (objects_of s0) (callers s0) (caller_head s0) n (max_depth s0) l)) as (n & l & ->).
  { destruct (_ || _); [by apply graph_print_ok, k_forest|]. exists (calls s0), (shown s0). by destruct s0. }
  cbn [mbind option_bind]. set (s1 := CallClass _ _ _ _ _ _).
  assert (forest (skeleton s1) (caller_head s)) as F1 by (change (skeleton s1) with (skeleton s0); by rewrite Hsk).
  destruct (attach_ok s1 (caller_head s) p q cq' F1 Hcq') as (s2 & E & Hs2 & Hh2 & Hr2); [by apply Hx0; eexists|done|done|].
  change (skeleton s1) with (skeleton s0) in Hs2. rewrite Hsk in Hs2.
  destruct (move_caller_link q p s1) as [s1'|]; [|done]. cbn [mbind option_bind] in *. rewrite E. cbn [mbind option_bind].
  assert (forall x, skeleton s2 !! x = attached p q x ∘ detached q x <$> skeleton s !! x) as Hlk.
  { intros x. rewrite Hs2, attach_lookup, detach_lookup. by destruct (skeleton s !! x). }
  assert (parents s2 = <[q := p]> (parents s)) as Hpar2.
  { apply map_eq. intros x. rewrite (parents_skeleton s2), lookup_fmap, Hlk, parents_skeleton. destruct (decide (x = q)) as [->|Hx].
    - rewrite lookup_insert_eq, Hq. cbn. by rewrite decide_True.
    - rewrite lookup_insert_ne, lookup_fmap by done. destruct (skeleton s !! x); cbn; [by rewrite !decide_False|done]. }
  destruct (depths_set s1 s2 q (remove q (caller_head s))) as (s3 & -> & Hok3 & Hs3 & Hk3).
  - apply call_ok_same; [done|]. by rewrite Hsk.
  - done.
  - rewrite Hs2. pose proof (forest_detach _ _ q F Hq0) as Fd.
    apply (forest_attach _ _ p q (detached q q (links_of cq)) Fd); [by rewrite detach_lookup, Hq|cbn; by rewrite decide_True| |].
    + rewrite detach_lookup. apply fmap_is_Some. by eexists.
    + intros Hr. destruct Hbr as [_ Hbr]. enough (false = true) by done. apply Hbr. clear -Hr.
      induction Hr as [x|x y z (m & Hm & <- & Hy) Hr IH]; [done|]. rewrite detach_lookup in Hm. apply fmap_Some_1 in Hm as (m' & Hm' & ->).
      cbn in *. destruct (decide (x = q)); [done|]. eapply rtc_l; [|exact IH]. by exists m'.
  - done.
  - apply skeleton_some. rewrite Hlk, Hq. by eexists.
  - intros x Hx. rewrite Hpar2, lookup_insert_ne by done. change (parents s1) with (parents s0). by rewrite Hpar0.
  - intros x Hx. apply skeleton_some. rewrite Hlk. apply fmap_is_Some. apply (skeleton_some s0) in Hx. by rewrite Hsk in Hx.
  - exists s3, false. split; [done|]. split; [done|]. split; [done|]. split; [by rewrite parents_skeleton, Hs3, <- parents_skeleton|].
    intros x. rewrite (ke_head _ _ Hk3), Hh2, elem_of_remove. change (caller_head s1) with (caller_head s). tauto.
Qed.

(** ** From the start *)

(** The objects of a class, and calls by attributes: what calls, and what is called, or
    null for a first call. *)
Definition call_objects (l : list (Z * (Z * Z))) (s : call_class) : option call_class :=
  foldl (fun o x => s ← o; '(p, s) ← call_new (Some x.1) x.2.1 x.2.2 s; if p =? 0 then None else Some s) (Some s) l.
Definition call_event (t1 t2 : Z) (s : call_class) : option call_class :=
  two ← call_find t1 s; call_two two t2 s.
Definition call_events (l : list (Z * Z)) (s : call_class) : option call_class :=
  foldl (fun o x => s ← o; call_event x.1 x.2 s) (Some s) l.

(** Nothing is linked yet. *)
Record loose s (xs : list (Z * two_event (X := unit))) : Prop := {
  lo_objects : class_ok tt (objects_of s) xs;
  lo_callers : forall q, is_Some (callers s !! q) <-> q ∈ xs.*1;
  lo_links : forall p c, callers s !! p = Some c -> links_of c = Links 0 [] 0 /\ depth c = 0;
  lo_head : caller_head s = [];
  lo_max : max_depth s = 0
}.

Lemma loose_new : loose call_class_new [].
Proof. split; try done; [apply new_class_ok|]. intros q. cbn. split; [by intros []|by intros ?%elem_of_nil]. Qed.

Lemma call_new_ok s xs p t1 t2 : loose s xs -> 0 <= ids (objects_of s) < 2 ^ 32 - 1 -> addr p -> p ∉ xs.*1 ->
  exists q s' xs', call_new (Some p) t1 t2 s = Some (q, s') /\ q <> 0 /\ loose s' xs' /\
    0 <= ids (objects_of s') <= ids (objects_of s) + 1 /\ forall a, a ∈ xs'.*1 -> a = p \/ a ∈ xs.*1.
Proof.
  intros [L1 L2 L3 L4 L5] Hi Ha Hp. unfold call_new.
  destruct (object_new_ok tt (objects_of s) xs p t1 0 L1 ltac:(lia) ltac:(lia) Ha Hp) as (q & b & -> & Hq & Hcase). cbn [mbind option_bind].
  rewrite (proj2 (Z.eqb_neq _ _) Hq). cbn [callers set_objects].
  assert (exists xs', class_ok tt b xs' /\ 0 <= ids b <= ids (objects_of s) + 1 /\ (forall a, a ∈ xs'.*1 <-> a = q \/ a ∈ xs.*1) /\
    (q = p \/ q ∈ xs.*1)) as (xs' & Hb & Hib & Hx & Hqp).
  { destruct Hcase as [[-> (o & Ho & _)]|(-> & _ & Hib & xs' & Hb & Hperm)].
    - assert (q ∈ xs.*1) as Hin by (apply list_elem_of_fmap; by exists (q, o)). exists xs. split; [done|]. split; [lia|]. split; [|by right].
      intros a. split; [by right|by intros [->|?]].
    - exists xs'. split; [done|]. split; [lia|]. split; [|by left]. intros a. rewrite Hperm. cbn. by rewrite elem_of_cons. }
  eexists q, _, xs'. split; [reflexivity|]. split; [done|]. split; [|split; [done|]].
  - split; cbn; try done.
    + intros a. rewrite Hx. destruct (decide (a = q)) as [->|Haq]; [rewrite lookup_insert_eq; split; [by left|by eexists]|].
      rewrite lookup_insert_ne, L2 by done. split; [by right|by intros [?|?]].
    + intros a c. destruct (decide (a = q)) as [->|Haq]; [rewrite lookup_insert_eq|rewrite lookup_insert_ne by done; apply L3].
      intros [= <-]. cbn. split; [done|]. destruct (callers s !! q) as [c|] eqn:Hc; [|done]. cbn. by apply (L3 q).
  - intros a Hin. apply Hx in Hin as [->|?]; [|by right]. done.
Qed.

Lemma call_objects_ok l : NoDup l.*1 -> Forall addr l.*1 -> Z.of_nat (length l) < 2 ^ 32 - 1 ->
  exists s xs, call_objects l call_class_new = Some s /\ loose s xs /\ 0 <= ids (objects_of s) <= Z.of_nat (length l) /\
    forall a, a ∈ xs.*1 -> a ∈ l.*1.
Proof.
  unfold call_objects. induction l as [|x l IH] using rev_ind; intros Hd Ha Hn; [exists call_class_new, []; split; [done|]; split; [apply loose_new|done]|].
  rewrite fmap_app in Hd, Ha. rewrite length_app in Hn. cbn in Hn. apply NoDup_app in Hd as (Hd & Hx & _). apply Forall_app in Ha as [Ha Hax].
  apply Forall_cons in Hax as [Hax _]. destruct (IH Hd Ha ltac:(lia)) as (s & xs & E & Hl & Hi & Hsub).
  rewrite foldl_snoc, E, length_app. cbn [mbind option_bind length].
  destruct (call_new_ok s xs x.1 x.2.1 x.2.2 Hl ltac:(lia) Hax) as (q & s' & xs' & -> & Hq & Hl' & Hi' & Hsub').
  { intros Hin. apply (Hx x.1); [by apply Hsub|by left]. }
  cbn [mbind option_bind]. rewrite (proj2 (Z.eqb_neq _ _) Hq). exists s', xs'. split; [done|]. split; [done|]. split; [lia|].
  intros a Hin. rewrite fmap_app. apply elem_of_app. destruct (Hsub' a Hin) as [->|?]; [right; by left|left; by apply Hsub].
Qed.

Lemma loose_ok s xs : loose s xs -> call_ok s.
Proof.
  intros [L1 L2 L3 L4 L5]. assert (forall p l, skeleton s !! p = Some l -> l = Links 0 [] 0) as Hk.
  { intros p l (c & Hc & <-)%skeleton_lookup. by apply (L3 p). }
  split.
  - split.
    + destruct (skeleton s !! 0) as [l|] eqn:E; [|done]. assert (is_Some (callers s !! 0)) as Hs by (apply skeleton_some; by exists l).
      apply L2, list_elem_of_fmap in Hs as ([q o] & Hq & Hin). cbn in Hq. subst q. by destruct (lists_pos (H0 := two_laws tt) _ _ _ _ (c_objects _ _ _ L1) Hin).
    + by intros p l ->%Hk.
    + by intros p l ->%Hk.
    + intros p l q ->%Hk. by intros ?%elem_of_nil.
    + intros p l ->%Hk. constructor.
    + rewrite L4. split; [constructor|by intros p ?%elem_of_nil].
    + intros x. constructor. intros y (l & ->%Hk & <- & Hy). done.
  - intros p c Hc. destruct (L3 p c Hc) as [Hl Hd]. unfold right. injection Hl as -> _ _. by rewrite decide_True.
  - intros p c Hc. destruct (L3 p c Hc) as [_ ->]. lia.
  - intros t. unfold call_find. destruct (object_find_ok tt (objects_of s) xs t 0 L1) as [(q & o & Ho & _ & _ & E & _)|[_ E]]; eexists; (split; [exact E|]); [|by left].
    right. apply L2, list_elem_of_fmap. by exists (q, o).
Qed.

(** What a call does to the parents. *)
Lemma call_event_ok t1 t2 s : call_ok s -> exists s', call_event t1 t2 s = Some s' /\ call_ok s' /\
  forall p, call_find t1 s = Some p -> p <> 0 ->
    (t2 = 0 -> parents s' = <[p := 0]> (parents s) /\ p ∈ caller_head s') /\
    (forall q, t2 <> 0 -> call_find t2 s = Some q -> q <> 0 -> exists b, (b = true <-> rtc (up (skeleton s)) p q) /\
       parents s' = if b then parents s else <[q := p]> (parents s)).
Proof.
  intros Hok. unfold call_event, call_two, call_link. destruct (k_found _ Hok t1) as (p & E & Hp). rewrite E. cbn [mbind option_bind].
  destruct (Z.eqb_spec p 0) as [->|Hp0]; [exists s; split; [done|]; split; [done|]; by intros ? [= <-]|]. destruct Hp as [?|Hp]; [done|].
  assert (forall s1 n, call_ok s1 -> call_ok (set_calls n s1)) as Hcalls by (intros s1 n []; by split).
  destruct (Z.eqb_spec t2 0) as [->|Ht2].
  - destruct (call_root_ok s p Hok Hp) as (s1 & -> & Hok1 & Hpar & Hin & _). cbn [mbind option_bind]. eexists. split; [reflexivity|].
    split; [by apply Hcalls|]. intros ? [= <-] _. split; [done|]. by intros ? [].
  - destruct (k_found _ Hok t2) as (q & E2 & Hq). rewrite E2. cbn [mbind option_bind].
    destruct (Z.eqb_spec q 0) as [->|Hq0].
    { cbn. exists s. split; [done|]. split; [done|]. intros ? [= <-] _. split; [done|]. by intros ? _ [= <-]. }
    destruct Hq as [?|Hq]; [done|]. destruct (call_edge_ok s p q Hok Hp Hq) as (s1 & b & -> & Hok1 & Hb & Hpar & _). cbn [mbind option_bind].
    eexists. split; [reflexivity|]. split; [by apply Hcalls|]. intros ? [= <-] _. split; [done|]. intros ? _ [= <-] _. by exists b.
Qed.

Lemma call_events_ok l : forall s, call_ok s -> exists s', call_events l s = Some s' /\ call_ok s'.
Proof.
  unfold call_events. induction l as [|x l IH]; intros s Hok; [by exists s|]. cbn [foldl mbind option_bind].
  destruct (call_event_ok x.1 x.2 s Hok) as (s1 & -> & Hok1 & _). by apply IH.
Qed.

(** A state of the class: objects made in memory of their own, and calls. *)
Definition reached (objs : list (Z * (Z * Z))) (l : list (Z * Z)) s : Prop :=
  NoDup objs.*1 /\ Forall addr objs.*1 /\ Z.of_nat (length objs) < 2 ^ 32 - 1 /\
  (s0 ← call_objects objs call_class_new; call_events l s0) = Some s.

Lemma reached_ok objs l s : reached objs l s -> call_ok s.
Proof.
  intros (Hd & Ha & Hn & E). destruct (call_objects_ok objs Hd Ha Hn) as (s0 & xs & E0 & Hl & _). rewrite E0 in E. cbn in E.
  destruct (call_events_ok l s0 (loose_ok _ _ Hl)) as (s' & E' & Hok). congruence.
Qed.

(** The depth is the way to the root. *)
Lemma depth_steps s x c p : call_ok s -> callers s !! x = Some c -> p ∈ caller_head s -> rtc (up (skeleton s)) x p ->
  0 <= depth c /\ nsteps (up (skeleton s)) (Z.to_nat (depth c)) x p.
Proof.
  intros Hok Hc Hp Hr. revert c Hc. induction Hr as [x|x y p Hxy Hr IH]; intros c Hc; pose proof (k_depths _ Hok _ c Hc) as Hright; unfold right in Hright.
  - destruct (fo_heads _ _ (k_forest _ Hok)) as [_ Hh]. destruct (Hh x Hp) as (m & Hm & H0). apply skeleton_lookup in Hm as (e & He & <-).
    rewrite Hc in He. injection He as <-. cbn in H0. rewrite decide_True in Hright by done. rewrite Hright. split; [lia|constructor].
  - pose proof Hxy as (m & Hm & Hmp & Hy). apply skeleton_lookup in Hm as (e & He & <-). rewrite Hc in He. injection He as <-. cbn in Hmp.
    rewrite Hmp in Hright. rewrite decide_False in Hright by done. destruct Hright as (h & Hh & Hd).
    destruct (IH Hp h Hh) as [H1 H2]. split; [lia|]. replace (Z.to_nat (depth c)) with (S (Z.to_nat (depth h))) by lia. by econstructor.
Qed.

(** ** Properties *)

(** C23: Whatever calls what, recursions included: every call of the class returns, each
    caller is on the list of its parent and on no other, nothing is above itself, roots
    have no parent, and the depth kept is one more than the parent's, zero without one,
    and no more than the greatest depth kept. *)
Theorem call_graph_kept objs l :
  NoDup objs.*1 -> Forall addr objs.*1 -> Z.of_nat (length objs) < 2 ^ 32 - 1 ->
  exists s, reached objs l s /\ forest (skeleton s) (caller_head s) /\ bounded s /\
    forall p c, callers s !! p = Some c -> right (callers s) c.
Proof.
  intros Hd Ha Hn. destruct (call_objects_ok objs Hd Ha Hn) as (s0 & xs & E0 & Hl & _).
  destruct (call_events_ok l s0 (loose_ok _ _ Hl)) as (s & E & Hok). exists s. split; [|by destruct Hok].
  split; [done|]. split; [done|]. split; [done|]. by rewrite E0.
Qed.

(** The report of a graph lists the callers below the roots, each once, with the number
    of steps to its root as the depth. *)
Theorem call_graph_printed objs l s : reached objs l s ->
  exists es, call_class_iterate s = Some es /\ NoDup es.*1.*1 /\
    (forall p, p ∈ es.*1.*1 <-> is_Some (callers s !! p) /\ exists r, r ∈ caller_head s /\ rtc (up (skeleton s)) p r) /\
    forall p d b, (p, d, b) ∈ es -> 0 <= d /\ exists r, r ∈ caller_head s /\ nsteps (up (skeleton s)) (Z.to_nat d) p r.
Proof.
  intros Hok%reached_ok. destruct (class_iterate_ok s (k_forest _ Hok)) as (es & E & N & En & M). exists es.
  split; [done|]. split; [done|]. split; [done|]. intros p d b Hin. rewrite Forall_forall in En. destruct (En _ Hin) as (c & Hc & Heq).
  cbn in Hc. injection Heq as -> ->. assert (p ∈ es.*1.*1) as Hp.
  { apply list_elem_of_fmap. exists (p, depth c). split; [done|]. apply list_elem_of_fmap. by exists (p, depth c, recursive c). }
  apply M in Hp as (_ & r & Hr & Hrt). destruct (depth_steps s p c r Hok Hc Hr Hrt) as [H1 H2]. split; [done|]. by exists r.
Qed.

(** What one call changes: a first call makes its function a root; a call of one
    function by another makes the caller the parent of the callee, unless the callee is
    the caller or above it; no other parent changes. *)
Theorem call_event_links objs l s t1 t2 p q : reached objs l s ->
  call_find t1 s = Some p -> p <> 0 -> (t2 <> 0 -> call_find t2 s = Some q /\ q <> 0) ->
  exists s', call_event t1 t2 s = Some s' /\
    if t2 =? 0 then parents s' = <[p := 0]> (parents s) /\ p ∈ caller_head s'
    else (rtc (up (skeleton s)) p q /\ parents s' = parents s) \/
      (~ rtc (up (skeleton s)) p q /\ parents s' = <[q := p]> (parents s)).
Proof.
  intros Hok%reached_ok Hp Hp0 Hq. destruct (call_event_ok t1 t2 s Hok) as (s' & E & _ & H). exists s'. split; [done|].
  destruct (H p Hp Hp0) as [H1 H2]. destruct (Z.eqb_spec t2 0) as [H0|H0]; [by apply H1|]. destruct (Hq H0) as [Hq1 Hq2].
  destruct (H2 q H0 Hq1 Hq2) as (b & Hb & Hpar). destruct b; [left; split; [by apply Hb|done]|right; split; [|done]].
  intros Hr. by apply Hb in Hr.
Qed.

(** ** An example

    1 calls 2, 2 calls 3, 3 calls 1 again; then 1 calls 3 itself. *)

Definition graph_objects : list (Z * (Z * Z)) := [(8, (1, 11)); (16, (2, 12)); (24, (3, 13))].
Definition graph_events : list (Z * Z) := [(1, 0); (1, 2); (2, 3); (3, 1); (1, 3)].

Lemma call_graph_kept_witness : exists s, reached graph_objects graph_events s /\ forest (skeleton s) (caller_head s) /\
  shown s = [[(8, 0, false); (16, 1, false); (24, 2, true)]] /\ parents s = {[8 := 0; 16 := 8; 24 := 8]}.
Proof.
  destruct (call_graph_kept graph_objects graph_events) as (s & (Hd & Ha & Hn & E) & F & _).
  - apply (bool_decide_unpack _). by vm_compute.
  - repeat constructor.
  - by vm_compute.
  - exists s. split; [exact (conj Hd (conj Ha (conj Hn E)))|]. split; [exact F|]. clear F. vm_compute in E. injection E as <-. by vm_compute.
Defined.

Lemma call_graph_printed_witness : exists s es, reached graph_objects graph_events s /\ call_class_iterate s = Some es /\
  es = [(8, 0, false); (16, 1, false); (24, 1, true)] /\ NoDup es.*1.*1.
Proof.
  assert (exists s, (s0 ← call_objects graph_objects call_class_new; call_events graph_events s0) = Some s) as [s E].
  { eexists. vm_compute. reflexivity. }
  assert (reached graph_objects graph_events s) as Hr.
  { split; [apply (bool_decide_unpack _); by vm_compute|]. split; [repeat constructor|]. split; [by vm_compute|exact E]. }
  destruct (call_graph_printed graph_objects graph_events s Hr) as (es & Ees & Hn & _). exists s, es. split; [exact Hr|]. split; [exact Ees|].
  split; [|exact Hn]. clear Hr. vm_compute in E. injection E as <-. vm_compute in Ees. by injection Ees as <-.
Defined.

Lemma call_event_links_witness : exists s s', reached graph_objects graph_events s /\ call_event 2 1 s = Some s' /\
  parents s' = parents s /\ parents s' = {[8 := 0; 16 := 8; 24 := 8]}.
Proof.
  assert (exists s, (s0 ← call_objects graph_objects call_class_new; call_events graph_events s0) = Some s) as [s E].
  { eexists. vm_compute. reflexivity. }
  assert (reached graph_objects graph_events s) as Hr.
  { split; [apply (bool_decide_unpack _); by vm_compute|]. split; [repeat constructor|]. split; [by vm_compute|exact E]. }
  destruct (call_event_links graph_objects graph_events s 2 1 16 8 Hr) as (s' & E' & _).
  - clear Hr. vm_compute in E. injection E as <-. by vm_compute.
  - done.
  - intros _. clear Hr. vm_compute in E. injection E as <-. split; [by vm_compute|done].
  - exists s, s'. split; [exact Hr|]. split; [exact E'|]. clear Hr. vm_compute in E. injection E as <-. vm_compute in E'. injection E' as <-.
    split; by vm_compute.
Defined.
