(* ===== verification/KeyValue.v ===== *)
(** * Values by stack (stack_helpers.c)

    Values kept under keys that are stacks, sequences of instruction pointers, on a sorted
    list: the operations and the map from stacks to values that they implement; and the
    report, sorted by [qsort], whose result is a parameter with what the standard says. *)

From Stdlib Require Import Sorted.
From S2P Require Import Prelude RbTree RbShape RbRep RbWalk RbMain RbList RbMap RbReport.

(** ** Operations *)

(** A key has [nr] pointers; a record of the kernel has room for fewer than 2^13, so the
    conversions of [nr] to int change nothing. *)
Definition struct_key : Type := list Z.
Definition nr (key : struct_key) : Z := Z.of_nat (length key).

(** The value is words, zero at first. *)
Record key_value := KeyValue { n : Z; kv_key : struct_key; value : list Z }.

Fixpoint cmp_ips (kv key : struct_key) (rest : Z) : Z :=
  match kv, key with
  | i :: kv, j :: key => if j <? i then 1 else if i <? j then -1 else cmp_ips kv key rest
  | _, _ => rest
  end.
Definition key_value_node_cmp (kv : key_value) (key : struct_key) : Z :=
  cmp_ips (kv_key kv) key (nr (kv_key kv) - nr key).
Definition key_value_node_new (value_size : Z) (key : struct_key) : key_value :=
  KeyValue 0 key (replicate (Z.to_nat (value_size / 8)) 0).
#[export] Instance kv_ops (value_size : Z) : NodeOps key_value struct_key :=
  {| node_cmp := key_value_node_cmp; node_new := key_value_node_new value_size |}.

Record key_value_paires := Pairs { kv_pairs : rblist key_value; value_size : Z }.

Definition ALIGN (x a : Z) : Z := Z.land (x + (a - 1)) (Z.lnot (a - 1)).
(** The memory of the structure is there. *)
Definition keyvalue_pairs_new (size : Z) : key_value_paires := Pairs rblist__init (ALIGN size 8).

(** The address of the value, which is that of its node; null when there is no value. *)
Definition keyvalue_pairs_add_key (alloc : option (Z * rb_node)) (pairs : option key_value_paires) (key : struct_key)
  : option (Z * option key_value_paires) :=
  match pairs with
  | None => Some (0, None)
  | Some pairs =>
      '(p, l) ← rblist__findnew (H := kv_ops (value_size pairs)) alloc key (kv_pairs pairs);
      if p =? 0 then Some (0, Some (Pairs l (value_size pairs)))
      else
        kv ← contents l !! p;
        let kv := KeyValue (u32 (n kv + 1)) (kv_key kv) (value kv) in
        Some (if value_size pairs =? 0 then 0 else p, Some (Pairs (set_contents p kv l) (value_size pairs)))
  end.
(** A write through the pointer to a value. *)
Definition write_value (p : Z) (f : list Z -> option (list Z)) (pairs : option key_value_paires) : option (option key_value_paires) :=
  pairs ← pairs;
  kv ← contents (kv_pairs pairs) !! p;
  v ← f (value kv);
  Some (Some (Pairs (set_contents p (KeyValue (n kv) (kv_key kv) v) (kv_pairs pairs)) (value_size pairs))).

(** What the function is called with, in order. *)
Definition keyvalue_pairs_foreach (pairs : option key_value_paires) : option (list key_value) :=
  match pairs with
  | None => Some []
  | Some pairs =>
      let l := kv_pairs pairs in
      walk_loop (S (size (nodes (rb_root (entries l))))) (rb_leftmost (entries l)) l
  end.
Definition keyvalue_pairs_reinit (pairs : option key_value_paires) : option (option key_value_paires) :=
  match pairs with
  | None => Some None
  | Some pairs => l ← rblist__exit (kv_pairs pairs); Some (Some (Pairs l (value_size pairs)))
  end.
Definition keyvalue_pairs_free (pairs : option key_value_paires) : option unit :=
  match pairs with None => Some tt | Some pairs => _ ← rblist__exit (kv_pairs pairs); Some tt end.
Definition keyvalue_pairs_nr_entries (pairs : option key_value_paires) : Z :=
  match pairs with None => 0 | Some pairs => rblist__nr_entries (kv_pairs pairs) end.
Definition keyvalue_pairs_empty (pairs : option key_value_paires) : bool :=
  match pairs with None => true | Some pairs => rblist__empty (kv_pairs pairs) end.

Section sorted.
(** The order [qsort] leaves in the array, as the comparison says. *)
Context (qsort : (key_value -> key_value -> Z) -> list key_value -> list key_value).

(** [mem] says whether there is memory for the array. *)
Definition keyvalue_pairs_sorted_firstn (mem : bool) (pairs : option key_value_paires) (cmp : key_value -> key_value -> Z) (first_n : Z)
  : option (list key_value) :=
  match pairs with
  | None => Some []
  | Some p =>
      if rblist__empty (kv_pairs p) then Some []
      else if value_size p =? 0 then keyvalue_pairs_foreach pairs
      else if negb mem then Some []
      else
        l ← keyvalue_pairs_foreach pairs;
        let l := qsort cmp l in
        Some (if negb (first_n =? 0) && (first_n <? u32 (Z.of_nat (length l))) then take (Z.to_nat first_n) l else l)
  end.
Definition keyvalue_pairs_sorted_foreach (mem : bool) (pairs : option key_value_paires) (cmp : key_value -> key_value -> Z) :=
  keyvalue_pairs_sorted_firstn mem pairs cmp 0.
End sorted.

(** ** The order of stacks *)

Fixpoint stack_lt (a b : struct_key) : Prop :=
  match a, b with
  | [], _ :: _ => True
  | i :: a, j :: b => i < j \/ i = j /\ stack_lt a b
  | _, [] => False
  end.

Lemma stack_lt_irrefl a : ~ stack_lt a a.
Proof. induction a; cbn; [tauto|]. intros [?|[_ ?]]; [lia|done]. Qed.

Lemma stack_lt_trans : forall a b c, stack_lt a b -> stack_lt b c -> stack_lt a c.
Proof.
  induction a as [|i a IH]; intros [|j b] [|k c]; cbn; try tauto.
  intros [?|[-> H1]] [?|[-> H2]]; [left; lia|by left|by left|right]. split; [done|]. by eapply IH.
Qed.

Lemma cmp_ips_ok : forall a b rest, rest = nr a - nr b ->
  (0 < cmp_ips a b rest <-> stack_lt b a) /\ (cmp_ips a b rest < 0 <-> stack_lt a b) /\ (cmp_ips a b rest = 0 <-> a = b).
Proof.
  induction a as [|i a IH]; intros [|j b] rest ->; unfold nr; cbn [cmp_ips length stack_lt].
  - split; [lia|]. split; [lia|]. done.
  - split; [lia|]. split; [lia|]. split; [lia|done].
  - split; [lia|]. split; [lia|]. split; [lia|done].
  - destruct (IH b (Z.of_nat (S (length a)) - Z.of_nat (S (length b)))) as (H1 & H2 & H3); [unfold nr; lia|].
    destruct (Z.ltb_spec j i); [|destruct (Z.ltb_spec i j)].
    + split; [split; [by left|done]|]. split; [lia|]. split; [done|]. intros [= -> ->]. lia.
    + split; [lia|]. split; [split; [by left|done]|]. split; [done|]. intros [= -> ->]. lia.
    + assert (i = j) as -> by lia. rewrite H1, H2, H3. split; [split; [by right|intros [?|[_ ?]]; [lia|done]]|].
      split; [split; [by right|intros [?|[_ ?]]; [lia|done]]|]. split; [by intros ->|by intros [= ->]].
Qed.

#[export] Instance kv_laws (value_size : Z) : NodeLaws (H := kv_ops value_size) key_value struct_key struct_key.
Proof.
  refine {| key := kv_key; ekey := fun k => k : struct_key; before_key := stack_lt |};
    [apply stack_lt_irrefl|apply stack_lt_trans| | | |done].
  all: intros v e; cbn; unfold key_value_node_cmp; by apply cmp_ips_ok.
Defined.

(** ** The map *)

Definition pairs_listed (s : key_value_paires) (xs : list (Z * key_value)) : Prop :=
  lists (H0 := kv_laws (value_size s)) (kv_pairs s) xs.
Definition stacks (size : Z) (xs : list (Z * key_value)) : gmap struct_key key_value := as_map (H0 := kv_laws size) xs.

(** A value added to, as the users do: the key is added and the value written to. *)
Definition add_value (alloc : option (Z * rb_node)) (key : struct_key) (f : list Z -> option (list Z)) (pairs : option key_value_paires)
  : option (option key_value_paires) :=
  '(p, pairs) ← keyvalue_pairs_add_key alloc pairs key;
  write_value p f pairs.

Definition old_value (size : Z) (m : gmap struct_key key_value) (key : struct_key) : key_value :=
  default (key_value_node_new size key) (m !! key).

Lemma add_key_ok s xs p raw key : pairs_listed s xs -> addr p -> p ∉ xs.*1 ->
  let old := old_value (value_size s) (stacks (value_size s) xs) key in
  exists q s', q <> 0 /\ keyvalue_pairs_add_key (Some (p, raw)) (Some s) key = Some (if value_size s =? 0 then 0 else q, Some s') /\
    value_size s' = value_size s /\ contents (kv_pairs s') !! q = Some (KeyValue (u32 (n old + 1)) key (value old)) /\
    forall m v, exists xs', pairs_listed (Pairs (set_contents q (KeyValue m key v) (kv_pairs s')) (value_size s)) xs' /\
      stacks (value_size s) xs' = <[key := KeyValue m key v]> (stacks (value_size s) xs) /\
      (forall a, a ∈ xs'.*1 -> a = p \/ a ∈ xs.*1).
Proof.
  intros Hl Hp Hnew old. unfold keyvalue_pairs_add_key.
  destruct (findnew_map (H0 := kv_laws (value_size s)) key (kv_pairs s) xs p raw Hl Hp Hnew) as (q & l & v & E & Hq & Hv & Hdef & Hkey & Hset).
  rewrite E. cbn [mbind option_bind]. rewrite (proj2 (Z.eqb_neq _ _) Hq), Hv. cbn [mbind option_bind].
  change (v = old) in Hdef. subst v. change (kv_key old = key) in Hkey. rewrite Hkey.
  exists q, (Pairs (set_contents q (KeyValue (u32 (n old + 1)) key (value old)) l) (value_size s)).
  split; [done|]. split; [done|]. split; [done|]. split; [by cbn; rewrite lookup_insert_eq|]. intros m v. cbn [kv_pairs value_size].
  destruct (Hset (KeyValue m key v)) as (ys & zs & Hl' & Hmap & Hsub & _ & Hin); [done|].
  exists (ys ++ (q, KeyValue m key v) :: zs). split; [|split; [exact Hmap|]].
  - unfold pairs_listed. cbn [kv_pairs value_size]. assert (set_contents q (KeyValue m key v)
      (set_contents q (KeyValue (u32 (n old + 1)) key (value old)) l) = set_contents q (KeyValue m key v) l) as ->; [|exact Hl'].
    unfold set_contents. cbn. by rewrite insert_insert_eq.
  - intros a Ha. apply list_elem_of_fmap in Ha as ([a' w] & -> & Ha). cbn.
    assert (a' = q \/ (a', w) ∈ ys ++ zs) as [->|Ha'] by set_solver; [done|]. right. apply list_elem_of_fmap.
    exists (a', w). split; [done|by apply Hsub].
Qed.

Lemma add_value_ok s xs p raw key f v : pairs_listed s xs -> addr p -> p ∉ xs.*1 -> value_size s <> 0 ->
  let old := old_value (value_size s) (stacks (value_size s) xs) key in
  f (value old) = Some v ->
  exists s' xs', add_value (Some (p, raw)) key f (Some s) = Some (Some s') /\ value_size s' = value_size s /\ pairs_listed s' xs' /\
    stacks (value_size s) xs' = <[key := KeyValue (u32 (n old + 1)) key v]> (stacks (value_size s) xs) /\
    (forall a, a ∈ xs'.*1 -> a = p \/ a ∈ xs.*1).
Proof.
  intros Hl Hp Hnew Hz old Hf. unfold add_value.
  destruct (add_key_ok s xs p raw key Hl Hp Hnew) as (q & s' & Hq & -> & Hsz & Hv & Hset). fold old in Hv.
  rewrite (proj2 (Z.eqb_neq _ _) Hz). cbn [mbind option_bind]. unfold write_value. cbn [mbind option_bind]. rewrite Hv. cbn [mbind option_bind value n kv_key].
  rewrite Hf. cbn [mbind option_bind]. rewrite Hsz.
  destruct (Hset (u32 (n old + 1)) v) as (xs' & H1 & H2 & H3). eexists _, xs'. split; [reflexivity|]. by cbn.
Qed.

Lemma foreach_ok s xs : pairs_listed s xs -> keyvalue_pairs_foreach (Some s) = Some xs.*2.
Proof.
  intros Hl. unfold keyvalue_pairs_foreach. rewrite (lists_size (H0 := kv_laws (value_size s)) _ _ Hl), (lists_leftmost (H0 := kv_laws (value_size s)) _ _ Hl).
  apply (walk_loop_ok (H0 := kv_laws (value_size s)) _ _ []); [exact Hl|lia].
Qed.

Lemma exit_pairs_ok s xs : pairs_listed s xs -> exists l, rblist__exit (kv_pairs s) = Some l /\ pairs_listed (Pairs l (value_size s)) [].
Proof.
  intros Hl. unfold rblist__exit. rewrite (lists_size (H0 := kv_laws (value_size s)) _ _ Hl), (lists_leftmost (H0 := kv_laws (value_size s)) _ _ Hl).
  apply (exit_loop_ok (H0 := kv_laws (value_size s))); [exact Hl|lia].
Qed.

Lemma new_pairs_ok size : pairs_listed (keyvalue_pairs_new size) [].
Proof. apply (init_lists (H0 := kv_laws (ALIGN size 8))). Qed.

Lemma align_words size : ALIGN size 8 = (size + 7) / 8 * 8.
Proof.
  unfold ALIGN. rewrite <- Z.ldiff_land. change (8 - 1) with (Z.ones 3).
  by rewrite Z.ldiff_ones_r, Z.shiftl_mul_pow2, Z.shiftr_div_pow2 by lia.
Qed.

Lemma align_least size : 0 < size -> 8 <= ALIGN size 8.
Proof. intros Hs. rewrite align_words. assert (1 <= (size + 7) / 8) by (apply Z.div_le_lower_bound; lia). lia. Qed.

(** ** Sums by stack *)

(** The memory a node gets, if one is made, the stack, what is added to its first word, and
    what is written to the second, if anything is. *)
Record amount := Amount { mem : Z * rb_node; stack : struct_key; bytes : Z; second : option Z }.
Definition add_word (b : Z) (s : option Z) (v : list Z) : option (list Z) :=
  match v, s with
  | w :: v, None => Some (u64 (w + b) :: v)
  | w :: _ :: v, Some s => Some (u64 (w + b) :: s :: v)
  | _, _ => None
  end.
Definition add_amounts (l : list amount) (pairs : option key_value_paires) : option (option key_value_paires) :=
  foldl (fun s x => s ← s; add_value (Some (mem x)) (stack x) (add_word (bytes x) (second x)) s) (Some pairs) l.

Definition total (l : list amount) : Z := u64 (foldr Z.add 0 (bytes <$> l)).

(** What a stack has after the amounts [l] with it: their number and sum, and what was
    written last to the second word. *)
Definition sums (size : Z) (l : list amount) (o : option key_value) : Prop :=
  match o with
  | None => l = []
  | Some kv => l <> [] /\ n kv = u32 (Z.of_nat (length l)) /\ length (value kv) = Z.to_nat (size / 8) /\ head (value kv) = Some (total l) /\
      forall o, last (second <$> l) = Some (Some o) -> value kv !! 1%nat = Some o
  end.

Lemma foldr_snoc_add (l : list Z) c : foldr Z.add 0 (l ++ [c]) = foldr Z.add 0 l + c.
Proof. induction l as [|x l IH]; cbn; [lia|]. rewrite IH. lia. Qed.

Lemma total_snoc l x : total (l ++ [x]) = u64 (total l + bytes x).
Proof. unfold total. rewrite fmap_app. cbn [fmap list_fmap]. by rewrite foldr_snoc_add, u64_add_l. Qed.

(** There is room for what is written. *)
Definition fits (size : Z) (x : amount) : Prop := if second x then 16 <= size else 8 <= size.

Lemma sums_snoc size l x m : fits size x -> sums size l (m !! stack x) ->
  let old := old_value size m (stack x) in
  exists v, add_word (bytes x) (second x) (value old) = Some v /\
    sums size (l ++ [x]) (Some (KeyValue (u32 (n old + 1)) (stack x) v)).
Proof.
  intros Hs Hl old.
  assert (n old = u32 (Z.of_nat (length l)) /\ length (value old) = Z.to_nat (size / 8) /\
    (size < 8 \/ head (value old) = Some (total l))) as (H1 & H2 & H3).
  { unfold old, old_value. destruct (m !! stack x) as [kv|]; cbn [from_option id].
    - destruct Hl as (_ & H1 & H2 & H3 & _). split; [done|]. split; [done|by right].
    - cbn in Hl. subst l. split; [done|]. cbn [value key_value_node_new]. rewrite length_replicate. split; [done|].
      destruct (Z.to_nat (size / 8)) eqn:Hk; [left|by right]. assert (size / 8 <= 0) by lia. pose proof (Z.div_mod size 8). lia. }
  destruct (value old) as [|w v] eqn:Hv.
  { exfalso. destruct H3 as [H3|H3]; [|done]. unfold fits in Hs. destruct (second x); lia. }
  destruct H3 as [H3|H3]; [unfold fits in Hs; destruct (second x); lia|]. cbn in H3. injection H3 as ->.
  assert (exists v', add_word (bytes x) (second x) (total l :: v) = Some (u64 (total l + bytes x) :: v') /\ length v' = length v /\
    forall o, second x = Some o -> v' !! 0%nat = Some o) as (v' & E & Hlen & Ho).
  { unfold fits in Hs. cbn. destruct (second x) as [o|]; [|destruct v as [|w v]; [by exists []|by exists (w :: v)]]. destruct v as [|w v]; [|by exists (o :: v)].
    cbn in H2. assert (2 <= size / 8) by by apply Z.div_le_lower_bound. lia. }
  eexists. split; [exact E|]. split; [by destruct l|]. split; [|split; [|split]].
  - cbn. rewrite H1, u32_succ, length_app. cbn. f_equal. lia.
  - cbn in *. lia.
  - cbn. by rewrite total_snoc.
  - intros o. rewrite fmap_app. cbn [fmap list_fmap]. rewrite last_snoc. intros [= H]. by apply Ho.
Qed.

Lemma amounts_added l : forall s xs (l0 : list amount), Forall (fits (value_size s)) l -> pairs_listed s xs ->
  NoDup (fst ∘ mem <$> l) -> Forall (fun x => addr (mem x).1) l -> (forall a, a ∈ xs.*1 -> a ∉ (fst ∘ mem <$> l)) ->
  (forall k, sums (value_size s) (filter (fun x => stack x = k) l0) (stacks (value_size s) xs !! k)) ->
  exists s' xs', add_amounts l (Some s) = Some (Some s') /\ value_size s' = value_size s /\ pairs_listed s' xs' /\
    (forall a, a ∈ xs'.*1 -> a ∈ xs.*1 \/ a ∈ (fst ∘ mem <$> l)) /\
    forall k, sums (value_size s) (filter (fun x => stack x = k) (l0 ++ l)) (stacks (value_size s) xs' !! k).
Proof.
  induction l as [|x l IH]; intros s xs l0 Hz Hl Hd Ha Hnew Hs.
  { exists s, xs. rewrite app_nil_r. split; [done|]. split; [done|]. split; [done|]. split; [by left|done]. }
  cbn in Hd. apply NoDup_cons in Hd as [Hd1 Hd]. apply Forall_cons in Ha as [Hax Ha]. apply Forall_cons in Hz as [Hzx Hz].
  destruct (sums_snoc (value_size s) (filter (fun y => stack y = stack x) l0) x (stacks (value_size s) xs) Hzx (Hs (stack x))) as (v & Hv & Hsv).
  destruct (add_value_ok s xs (mem x).1 (mem x).2 (stack x) (add_word (bytes x) (second x)) v Hl Hax) as (s1 & xs1 & E & Hz1 & Hl1 & Hm1 & Hin1); [|unfold fits in Hzx; destruct (second x); lia|done|].
  { intros Hin. apply (Hnew _ Hin). by left. }
  rewrite <- surjective_pairing in E. destruct (IH s1 xs1 (l0 ++ [x])) as (s2 & xs2 & E2 & Hz2 & Hl2 & Hin2 & Hs2);
    [by rewrite Hz1|done|done|done| | |].
  - intros a [->|Hin]%Hin1; [done|]. specialize (Hnew a Hin). cbn in Hnew. set_solver.
  - rewrite Hz1, Hm1. by apply (grouped_step stack (sums (value_size s))).
  - exists s2, xs2. rewrite Hz1 in *. split; [|split; [done|split; [done|split]]].
    + unfold add_amounts in *. cbn [foldl mbind option_bind]. by rewrite E.
    + intros a [Hin|Hin]%Hin2; [apply Hin1 in Hin as [->|Hin]; [right; by left|by left]|right; by right].
    + intros k. specialize (Hs2 k). by rewrite <- app_assoc in Hs2.
Qed.

(** Whatever is added, some stack has it: the sums of the stacks are what was added. *)
Lemma sums_partition (ks : list struct_key) (l : list amount) : NoDup ks -> (forall x, x ∈ l -> stack x ∈ ks) ->
  foldr Z.add 0 ((fun k => foldr Z.add 0 (bytes <$> filter (fun x => stack x = k) l)) <$> ks) = foldr Z.add 0 (bytes <$> l).
Proof.
  intros Hd. induction l as [|x l IH]; intros Hin; [clear; induction ks as [|k ks IHk]; [done|exact IHk]|]. cbn [fmap list_fmap foldr]. rewrite <- IH by (intros y Hy; apply Hin; by right).
  specialize (Hin x ltac:(by left)). clear IH. induction Hd as [|k ks Hk Hd IHk]; [by apply elem_of_nil in Hin|].
  cbn [fmap list_fmap foldr]. rewrite filter_cons. apply elem_of_cons in Hin as [Hin|Hin].
  - rewrite decide_True by done. cbn [fmap list_fmap foldr].
    assert ((fun k => foldr Z.add 0 (bytes <$> filter (fun x => stack x = k) (x :: l))) <$> ks =
            (fun k => foldr Z.add 0 (bytes <$> filter (fun x => stack x = k) l)) <$> ks) as ->; [|unfold fmap; lia].
    apply list_fmap_ext. intros i y Hy. rewrite filter_cons, decide_False; [done|]. intros Heq. apply Hk. rewrite <- Hin, Heq.
    by eapply list_elem_of_lookup_2.
  - rewrite decide_False by (intros Heq; apply Hk; by rewrite <- Heq). rewrite IHk by done. unfold fmap. lia.
Qed.

Lemma u64_sum (l : list Z) : u64 (foldr Z.add 0 (u64 <$> l)) = u64 (foldr Z.add 0 l).
Proof. induction l as [|x l IH]; [done|]. cbn. by rewrite u64_add_l, <- u64_add_r, IH, u64_add_r. Qed.

(** What a report of the amounts has: each stack once, its amounts, and all of them. *)
Record reports (size : Z) (l : list amount) (vs : list key_value) : Prop := {
  re_once : NoDup (kv_key <$> vs);
  re_sums : forall kv, kv ∈ vs -> sums size (filter (fun x => stack x = kv_key kv) l) (Some kv);
  re_all : forall x, x ∈ l -> stack x ∈ (kv_key <$> vs)
}.

Definition first_word (kv : key_value) : Z := default 0 (head (value kv)).

Lemma reports_total size l vs : reports size l vs -> u64 (foldr Z.add 0 (first_word <$> vs)) = total l.
Proof.
  intros [H1 H2 H3]. unfold total. rewrite <- (sums_partition (kv_key <$> vs)) by done.
  match goal with |- _ = u64 (foldr _ _ ?ks) => rewrite <- (u64_sum ks) end. rewrite <- !list_fmap_compose. do 2 f_equal.
  apply list_fmap_ext. intros i kv Hkv. destruct (H2 kv) as (_ & _ & Hv); [by eapply list_elem_of_lookup_2|].
  cbn. unfold first_word. destruct Hv as (_ & Hv & _). by rewrite Hv.
Qed.

Lemma listed_reports s xs l : pairs_listed s xs ->
  (forall k, sums (value_size s) (filter (fun x => stack x = k) l) (stacks (value_size s) xs !! k)) -> reports (value_size s) l xs.*2.
Proof.
  intros Hl Hs. split.
  - pose proof (lists_keys_nodup (H0 := kv_laws (value_size s)) _ _ Hl) as Hd. unfold by_key in Hd.
    rewrite <- list_fmap_compose in Hd. rewrite <- list_fmap_compose. exact Hd.
  - intros kv Hkv. apply list_elem_of_fmap in Hkv as ([q w] & -> & Hkv). specialize (Hs (kv_key w)).
    assert (stacks (value_size s) xs !! kv_key w = Some w) as Hw by (apply (as_map_lookup (H0 := kv_laws (value_size s)) (kv_pairs s)); [done|by exists q]).
    by rewrite Hw in Hs.
  - intros x Hx. specialize (Hs (stack x)). destruct (stacks (value_size s) xs !! stack x) as [kv|] eqn:Ek.
    + apply (as_map_lookup (H0 := kv_laws (value_size s)) (kv_pairs s)) in Ek as (q & Hq & Hk); [|done]. rewrite <- Hk.
      apply list_elem_of_fmap. exists kv. split; [done|]. apply list_elem_of_fmap. by exists (q, kv).
    + cbn in Hs. exfalso. assert (x ∈ filter (fun y => stack y = stack x) l) as Hin by by apply list_elem_of_filter.
      rewrite Hs in Hin. by apply elem_of_nil in Hin.
Qed.

Lemma reports_perm size l vs vs' : vs' ≡ₚ vs -> reports size l vs -> reports size l vs'.
Proof.
  intros Hp [H1 H2 H3]. split; [by rewrite Hp|intros kv; rewrite Hp; apply H2|intros x Hx; rewrite Hp; by apply H3].
Qed.

(** There are no more stacks than amounts. *)
Lemma reports_length size l vs : reports size l vs -> (length vs <= length l)%nat.
Proof.
  intros [H1 H2 _]. rewrite <- (length_fmap kv_key vs), <- (length_fmap stack l). apply submseteq_length, NoDup_submseteq; [done|].
  intros k Hk. apply list_elem_of_fmap in Hk as (kv & -> & Hkv). destruct (H2 kv Hkv) as (Hne & _).
  destruct (filter (fun x => stack x = kv_key kv) l) as [|x r] eqn:E; [done|]. assert (x ∈ filter (fun x => stack x = kv_key kv) l) as Hx by (rewrite E; by left).
  apply list_elem_of_filter in Hx as [<- Hx]. apply list_elem_of_fmap. by exists x.
Qed.

(** The sorted report. *)
Definition shown (first_n : Z) (vs : list key_value) : list key_value :=
  if decide (first_n = 0) then vs else take (Z.to_nat first_n) vs.

Lemma sorted_ok qsort cmp s xs first_n : sorts qsort -> pairs_listed s xs -> value_size s <> 0 -> Z.of_nat (length xs) < 2 ^ 32 ->
  0 <= first_n -> keyvalue_pairs_sorted_firstn qsort true (Some s) cmp first_n = Some (shown first_n (qsort cmp xs.*2)).
Proof.
  intros Hq Hl Hz Hn Hf. unfold keyvalue_pairs_sorted_firstn, shown. unfold pairs_listed in Hl.
  rewrite (lists_nonempty (H0 := kv_laws (value_size s)) _ _ Hl) by done.
  case_bool_decide as Hx.
  { subst xs. assert (qsort cmp [].*2 = []) as -> by (apply Permutation_nil_r; by rewrite (proj1 (Hq cmp _))).
    case_decide; [done|by rewrite take_nil]. }
  rewrite (proj2 (Z.eqb_neq _ _) Hz). cbn [negb]. rewrite (foreach_ok s xs Hl). cbn [mbind option_bind].
  assert (length (qsort cmp xs.*2) = length xs) as Hlen by by rewrite (proj1 (Hq cmp _)), length_fmap.
  rewrite Hlen, u32_small by lia. destruct (decide (first_n = 0)) as [->|]; [done|].
  rewrite (proj2 (Z.eqb_neq first_n 0)) by done. cbn [negb andb]. destruct (Z.ltb_spec first_n (Z.of_nat (length xs))); [done|].
  by rewrite take_ge by lia.
Qed.

(** Amounts added under stacks to new pairs with a value of a word or more: a stack has
    the number of its amounts, in 32 bits, and their sum, in 64, others are not there; what
    is walked is every stack once, in ascending order. *)
Theorem amounts_by_stack size l :
  0 < size < 2 ^ 31 -> Forall (fits (ALIGN size 8)) l -> NoDup (fst ∘ mem <$> l) -> Forall (fun x => addr (mem x).1) l ->
  exists s vs, add_amounts l (Some (keyvalue_pairs_new size)) = Some (Some s) /\ keyvalue_pairs_foreach (Some s) = Some vs /\
    StronglySorted (fun a b => stack_lt (kv_key a) (kv_key b)) vs /\ reports (ALIGN size 8) l vs.
Proof.
  intros Hs Hf Hd Ha.
  destruct (amounts_added l (keyvalue_pairs_new size) [] []) as (s & xs & E & Hz & Hl & _ & Hsum).
  - done.
  - apply new_pairs_ok.
  - done.
  - done.
  - by intros a ?%elem_of_nil.
  - intros k. done.
  - exists s, xs.*2. split; [exact E|]. split; [by apply foreach_ok|]. split.
    + apply (keys_sorted (H0 := kv_laws (value_size s)) (kv_pairs s) xs Hl).
    + change (ALIGN size 8) with (value_size (keyvalue_pairs_new size)). rewrite <- Hz in *. by apply listed_reports.
Qed.
