(* ===== verification/MemProfile.v ===== *)
(** * Memory by stack (two-event.c)

    The class of pairs that profiles memory: what each object counts of allocations and of
    their pairs with the event that frees, with the bytes by stack of [KeyValue], and what
    it reports. *)

From Stdlib Require Import Sorted.
From S2P Require Import Prelude RbTree RbShape RbRep RbWalk RbMain RbList RbMap RbReport KeyValue.
From S2P Require Import TwoEvent.

Lemma omap_length {A B} (f : A -> option B) l : (length (omap f l) <= length l)%nat.
Proof. induction l as [|x l IH]; cbn; [done|]. destruct (f x); cbn; lia. Qed.

Section profile.
(** An event with its stack, and the size an attribute computes on it (tep.c). *)
Context {E : Type} (callchain : E -> struct_key) (tp_get_mem_size : Z -> E -> Z).
(** Whether an attribute, by address, asks for the stack. *)
Context (with_stack : Z -> bool).

(** ** Operations *)

Record mem_profile := MemProfile {
  alloc : option key_value_paires;
  free : option key_value_paires;
  nr_alloc : Z;
  alloc_bytes : Z;
  nr_free : Z;
  free_bytes : Z
}.
Definition zeroed : mem_profile := MemProfile None None 0 0 0 0.
Notation class := (two_event_class (X := mem_profile)).

Definition set_profile (two : Z) (f : mem_profile -> option mem_profile) (c : class) : option class :=
  o ← contents (two_events c) !! two;
  x ← f (derived o);
  Some (with_derived two o x c).

(** [mem_size_prog] says which attributes have a size, [got] for the two pairs whether there
    is memory for them. *)
Definition mem_profile_new (mem_size_prog : Z -> bool) (mem : option Z) (got : bool * bool) (t1 t2 : Z) (c : class) : option (Z * class) :=
  if negb (mem_size_prog t1) then Some (0, c)
  else
    '(two, c) ← two_event_new zeroed mem t1 t2 c;
    if two =? 0 then Some (0, c)
    else
      let pairs (b : bool) := if b then Some (keyvalue_pairs_new 8) else None in
      c ← set_profile two (fun x => Some (MemProfile (pairs got.1) (pairs got.2) (nr_alloc x) (alloc_bytes x) (nr_free x) (free_bytes x))) c;
      Some (two, c).

Definition mem_profile_delete (two : Z) (c : class) : option class :=
  if two =? 0 then Some c
  else
    o ← contents (two_events c) !! two;
    _ ← keyvalue_pairs_free (alloc (derived o));
    _ ← keyvalue_pairs_free (free (derived o));
    two_event_delete two c.

(** The bytes of an event counted: in the numbers, and under its stack. *)
Definition count_bytes (mem : Z * rb_node) (t : Z) (event : E) (b : Z) (pairs : option key_value_paires)
  : option (option key_value_paires) :=
  if t =? 0 then None
  else if with_stack t then add_value (Some mem) (callchain event) (add_word b None) pairs
  else Some pairs.

(** [mem] is the memory for the nodes of the two pairs. *)
Definition mem_profile_two (mem : (Z * rb_node) * (Z * rb_node)) (two : Z) (event1 : E) (event2 : option E) (c : class)
  : option class :=
  if two =? 0 then Some c
  else
    o ← contents (two_events c) !! two;
    let b := tp_get_mem_size (tp1 o) event1 in
    c ← set_profile two (fun x =>
          a ← count_bytes mem.1 (tp1 o) event1 b (alloc x);
          Some (MemProfile a (free x) (u32 (nr_alloc x + 1)) (u64 (alloc_bytes x + b)) (nr_free x) (free_bytes x))) c;
    match event2 with
    | None => Some c
    | Some event2 =>
        set_profile two (fun x =>
          f ← count_bytes mem.2 (tp2 o) event2 b (free x);
          Some (MemProfile (alloc x) f (nr_alloc x) (alloc_bytes x) (u32 (nr_free x + 1)) (u64 (free_bytes x + b)))) c
    end.
Definition mem_profile_remaining (mem : (Z * rb_node) * (Z * rb_node)) (two : Z) (event1 : E) (c : class) : option (bool * class) :=
  c ← mem_profile_two mem two event1 None c; Some (true, c).

(** Descending by bytes; both are read. *)
Definition __cmp (kv1 kv2 : key_value) : Z :=
  match value kv1, value kv2 with
  | b1 :: _, b2 :: _ => if b1 <? b2 then 1 else if b2 <? b1 then -1 else 0
  | _, _ => 0
  end.

(** A part of a report: the number, the bytes, the stacks in order and how many there are. *)
Record part := Part { p_nr : Z; p_bytes : Z; p_stacks : list key_value; p_entries : Z }.

Context (qsort : (key_value -> key_value -> Z) -> list key_value -> list key_value).
(** [mem] says whether there is memory for the arrays. *)
Definition print_part (mem : bool) (first_n nr bytes : Z) (pairs : option key_value_paires) : option part :=
  l ← keyvalue_pairs_sorted_firstn qsort mem pairs __cmp first_n;
  Some (Part nr bytes l (keyvalue_pairs_nr_entries pairs)).
Definition reset_profile (x : mem_profile) : option mem_profile :=
  a ← keyvalue_pairs_reinit (alloc x);
  f ← keyvalue_pairs_reinit (free x);
  Some (MemProfile a f 0 0 0 0).
Definition mem_profile_print (mem : bool) (first_n two : Z) (c : class) : option (list part * class) :=
  if two =? 0 then Some ([], c)
  else
    o ← contents (two_events c) !! two;
    let x := derived o in
    if (tp2 o =? 0) && (nr_alloc x =? 0) then Some ([], c)
    else
      a ← print_part mem first_n (nr_alloc x) (alloc_bytes x) (alloc x);
      parts ← (if tp2 o =? 0 then Some [a]
               else f ← print_part mem first_n (nr_free x) (free_bytes x) (free x); Some [a; f]);
      c ← set_profile two reset_profile c;
      Some (parts, c).

(** ** What is counted *)

(** A count of events with its bytes: after the amounts [l], those with a stack by stack. *)
Record counted (stacked : bool) (l : list amount) (k m : Z) (pairs : option key_value_paires) : Prop := {
  co_nr : k = u32 (Z.of_nat (length l));
  co_bytes : m = total l;
  co_stacks : exists s xs, pairs = Some s /\ value_size s = 8 /\ pairs_listed s xs /\
    (forall a, a ∈ xs.*1 -> a ∈ (fst ∘ KeyValue.mem <$> l)) /\
    forall key, sums 8 (filter (fun x => stack x = key) (if stacked then l else [])) (stacks 8 xs !! key)
}.

Lemma new_bytes stacked : counted stacked [] 0 0 (Some (keyvalue_pairs_new 8)).
Proof.
  split; [done|done|]. exists (keyvalue_pairs_new 8), []. split; [done|]. split; [done|]. split; [apply new_pairs_ok|].
  split; [done|]. intros key. by destruct stacked.
Qed.

Lemma count_ok l k m pairs mem t event b : t <> 0 -> counted (with_stack t) l k m pairs ->
  addr mem.1 -> mem.1 ∉ (fst ∘ KeyValue.mem <$> l) ->
  exists pairs', count_bytes mem t event b pairs = Some pairs' /\
    counted (with_stack t) (l ++ [Amount mem (callchain event) b None]) (u32 (k + 1)) (u64 (m + b)) pairs'.
Proof.
  intros Ht [-> -> (s & xs & -> & Hs & Hl & Hin & Hsum)] Ha Hnew. unfold count_bytes. rewrite (proj2 (Z.eqb_neq _ _) Ht).
  assert (u32 (u32 (Z.of_nat (length l)) + 1) = u32 (Z.of_nat (length (l ++ [Amount mem (callchain event) b None])))) as Hn.
  { rewrite u32_succ, length_app. f_equal. cbn. lia. }
  assert (forall a, a ∈ (fst ∘ KeyValue.mem <$> l) -> a ∈ (fst ∘ KeyValue.mem <$> l ++ [Amount mem (callchain event) b None])) as Hmono.
  { intros a Hal. rewrite fmap_app. apply elem_of_app. by left. }
  destruct (with_stack t); [|exists (Some s); split; [done|]; split; [done|by rewrite total_snoc|]].
  2: { exists s, xs. split; [done|]. split; [done|]. split; [done|]. split; [auto|done]. }
  destruct (sums_snoc 8 (filter (fun y => stack y = callchain event) l) (Amount mem (callchain event) b None) (stacks 8 xs)) as (v & Hv & Hsv); [done|apply Hsum|].
  cbn [stack bytes second] in Hv, Hsv. rewrite <- Hs in Hv at 1.
  destruct (add_value_ok s xs mem.1 mem.2 (callchain event) (add_word b None) v Hl Ha) as (s' & xs' & E1 & Hs' & Hl' & Hm' & Hin'); [auto|lia|by rewrite Hs in *|].
  rewrite <- surjective_pairing in E1. exists (Some s'). split; [exact E1|]. split; [done|by rewrite total_snoc|].
  exists s', xs'. split; [done|]. split; [by rewrite Hs'|]. split; [done|]. split.
  - intros a [->|Ha']%Hin'; [rewrite fmap_app; apply elem_of_app; right; by left|by apply Hmono, Hin].
  - rewrite Hs in Hm'. rewrite Hm'. exact (grouped_step stack (sums 8) l (Amount mem (callchain event) b None) (stacks 8 xs) _ Hsum Hsv).
Qed.

Lemma words_ordered vs size l : reports size l vs ->
  orders __cmp vs /\ forall a b, a ∈ vs -> b ∈ vs -> __cmp a b <= 0 -> first_word b <= first_word a.
Proof.
  intros Hr. assert (forall a b, a ∈ vs -> b ∈ vs ->
    __cmp a b = if first_word a <? first_word b then 1 else if first_word b <? first_word a then -1 else 0) as Hc.
  { intros a b Ha Hb. destruct (re_sums _ _ _ Hr a Ha) as (_ & _ & Hva), (re_sums _ _ _ Hr b Hb) as (_ & _ & Hvb).
    unfold __cmp, first_word. destruct Hva as (_ & Hva & _), Hvb as (_ & Hvb & _).
    destruct (value a); [done|]. by destruct (value b). }
  split; [split|].
  - intros a b c Ha Hb Hcl. rewrite !Hc by done. repeat case_match; lia.
  - intros a b Ha Hb. rewrite !Hc by done. repeat case_match; lia.
  - intros a b Ha Hb. rewrite Hc by done. repeat case_match; lia.
Qed.

(** The report of a count. *)
Record reported (stacked : bool) (l : list amount) (first_n : Z) (p : part) : Prop := {
  rp_nr : p_nr p = u32 (Z.of_nat (length l));
  rp_bytes : p_bytes p = total l;
  rp_stacks : exists vs, reports 8 (if stacked then l else []) vs /\
    StronglySorted (fun a b => first_word b <= first_word a) vs /\
    p_stacks p = shown first_n vs /\ p_entries p = Z.of_nat (length vs) /\
    (stacked = true -> u64 (foldr Z.add 0 (first_word <$> vs)) = p_bytes p)
}.

Lemma part_ok stacked l k m pairs first_n : sorts qsort -> counted stacked l k m pairs -> Z.of_nat (length l) < 2 ^ 32 ->
  0 <= first_n -> exists p, print_part true first_n k m pairs = Some p /\ reported stacked l first_n p.
Proof.
  intros Hq [Hk Hm (s & xs & -> & Hs & Hl & _ & Hsum)] Hn Hall. unfold print_part.
  assert (reports 8 (if stacked then l else []) xs.*2) as Hr by (rewrite <- Hs in *; by apply (listed_reports s)).
  assert (length xs <= length l)%nat as Hlen.
  { pose proof (reports_length _ _ _ Hr) as H. rewrite length_fmap in H. destruct stacked; cbn in H; lia. }
  rewrite (sorted_ok qsort __cmp s xs first_n Hq Hl) by lia. cbn [mbind option_bind].
  eexists. split; [reflexivity|]. split; [done|done|]. exists (qsort __cmp xs.*2).
  destruct (Hq __cmp xs.*2) as [Hp Hsorted]. destruct (words_ordered _ _ _ Hr) as [Ho Hw].
  split; [by apply (reports_perm _ _ xs.*2)|]. specialize (Hsorted Ho). split.
  - apply (sorted_weaken (fun a b => __cmp a b <= 0) _ _ xs.*2); [intros a; by rewrite Hp|exact Hw|exact Hsorted].
  - split; [done|]. cbn [p_entries]. unfold keyvalue_pairs_nr_entries, rblist__nr_entries.
    unfold pairs_listed in Hl. rewrite (lists_nr (H0 := kv_laws (value_size s)) _ _ Hl).
    split; [rewrite Hp, length_fmap; apply u32_small; lia|].
    intros ->. cbn [p_bytes]. rewrite Hm. apply (reports_total 8). by apply (reports_perm _ _ xs.*2).
Qed.

(** ** Runs *)

(** A new profile. *)
Definition fresh : mem_profile := MemProfile (Some (keyvalue_pairs_new 8)) (Some (keyvalue_pairs_new 8)) 0 0 0 0.

(** A call of the class, for a pair or for an event that remained. *)
Record call := Call { c_two : Z; c_event1 : E; c_event2 : option E; c_mem : (Z * rb_node) * (Z * rb_node) }.
Definition run_profile (l : list call) (c : class) : option class :=
  foldl (fun c x => c ← c; mem_profile_two (c_mem x) (c_two x) (c_event1 x) (c_event2 x) c) (Some c) l.

(** The amounts of the calls [l] of an object with the first attribute [t]. *)
Definition allocated (t : Z) (l : list call) : list amount :=
  (fun x => Amount (c_mem x).1 (callchain (c_event1 x)) (tp_get_mem_size t (c_event1 x)) None) <$> l.
Definition freed (t : Z) (l : list call) : list amount :=
  omap (fun x => e ← c_event2 x; Some (Amount (c_mem x).2 (callchain e) (tp_get_mem_size t (c_event1 x)) None)) l.

Record profiled (o : two_event (X := mem_profile)) (l : list call) : Prop := {
  pr_alloc : counted (with_stack (tp1 o)) (allocated (tp1 o) l) (nr_alloc (derived o)) (alloc_bytes (derived o)) (alloc (derived o));
  pr_free : counted (with_stack (tp2 o)) (freed (tp1 o) l) (nr_free (derived o)) (free_bytes (derived o)) (free (derived o))
}.

Definition same_object (o o' : two_event (X := mem_profile)) : Prop := tp1 o' = tp1 o /\ tp2 o' = tp2 o /\ id o' = id o.

Lemma freed_mem t l a : a ∈ (fst ∘ KeyValue.mem <$> freed t l) -> a ∈ (fst ∘ snd ∘ c_mem <$> l).
Proof.
  intros Ha. apply list_elem_of_fmap in Ha as (y & -> & Hy). apply list_elem_of_omap in Hy as (x & Hx & Ey).
  destruct (c_event2 x); [|done]. injection Ey as <-. apply list_elem_of_fmap. by exists x.
Qed.

Lemma profile_step c x o l : contents (two_events c) !! c_two x = Some o -> c_two x <> 0 -> tp1 o <> 0 ->
  (c_event2 x <> None -> tp2 o <> 0) -> addr (c_mem x).1.1 -> addr (c_mem x).2.1 -> profiled o l ->
  (c_mem x).1.1 ∉ (fst ∘ fst ∘ c_mem <$> l) -> (c_mem x).2.1 ∉ (fst ∘ snd ∘ c_mem <$> l) ->
  exists c' o', mem_profile_two (c_mem x) (c_two x) (c_event1 x) (c_event2 x) c = Some c' /\ same_object o o' /\
    contents (two_events c') = <[c_two x := o']> (contents (two_events c)) /\ profiled o' (l ++ [x]).
Proof.
  intros Ho Hq Ht1 Ht2 Ha1 Ha2 [Hal Hfr] Hn1 Hn2. unfold mem_profile_two. rewrite (proj2 (Z.eqb_neq _ _) Hq). unfold set_profile. rewrite !Ho.
  cbn [mbind option_bind].
  destruct (count_ok _ _ _ _ (c_mem x).1 (tp1 o) (c_event1 x) (tp_get_mem_size (tp1 o) (c_event1 x)) Ht1 Hal Ha1) as (a & -> & Hal').
  { unfold allocated. by rewrite <- list_fmap_compose. }
  cbn [mbind option_bind]. assert (allocated (tp1 o) (l ++ [x]) = allocated (tp1 o) l ++
    [Amount (c_mem x).1 (callchain (c_event1 x)) (tp_get_mem_size (tp1 o) (c_event1 x)) None]) as Hala by (unfold allocated; by rewrite fmap_app).
  rewrite <- Hala in Hal'. destruct (c_event2 x) as [event2|] eqn:E2.
  2: { eexists _, _. split; [reflexivity|]. split; [|split; [reflexivity|]]; [done|]. split; cbn [tp1 tp2 derived]; [exact Hal'|].
       unfold freed in *. rewrite omap_app. cbn. rewrite E2. cbn. by rewrite app_nil_r. }
  cbn [two_events with_derived contents set_contents]. rewrite lookup_insert_eq. cbn [mbind option_bind derived free].
  destruct (count_ok _ _ _ _ (c_mem x).2 (tp2 o) event2 (tp_get_mem_size (tp1 o) (c_event1 x)) (Ht2 ltac:(done)) Hfr Ha2) as (f & -> & Hfr').
  { intros Hin. by apply Hn2, (freed_mem (tp1 o)). }
  cbn [mbind option_bind]. eexists _, _. split; [reflexivity|]. split; [|split; [by cbn; rewrite insert_insert_eq|]]; [done|].
  split; cbn [tp1 tp2 derived]; [exact Hal'|]. unfold freed in *. rewrite omap_app. cbn. rewrite E2. exact Hfr'.
Qed.

Record callable (c : class) (x : call) : Prop := {
  cl_two : c_two x <> 0;
  cl_object : exists o, contents (two_events c) !! c_two x = Some o /\ tp1 o <> 0 /\ (c_event2 x <> None -> tp2 o <> 0);
  cl_mem : addr (c_mem x).1.1 /\ addr (c_mem x).2.1
}.

(** The objects have profiles of their calls. *)
Definition after (c c' : class) (l : list call) : Prop := forall q,
  match contents (two_events c) !! q, contents (two_events c') !! q with
  | Some o, Some o' => same_object o o' /\ profiled o' (filter (fun x => c_two x = q) l)
  | None, None => True
  | _, _ => False
  end.

Lemma fresh_profiled o : derived o = fresh -> profiled o [].
Proof. intros Ho. split; rewrite Ho; apply new_bytes. Qed.

Lemma profiles_run c l : (forall q o, contents (two_events c) !! q = Some o -> derived o = fresh) -> Forall (callable c) l ->
  NoDup (fst ∘ fst ∘ c_mem <$> l) -> NoDup (fst ∘ snd ∘ c_mem <$> l) -> exists c', run_profile l c = Some c' /\ after c c' l.
Proof.
  intros Hf. induction l as [|x l IH] using rev_ind; intros Hl Hd1 Hd2.
  { exists c. split; [done|]. intros q. destruct (contents (two_events c) !! q) as [o|] eqn:Ho; [|done].
    split; [done|]. by apply fresh_profiled, (Hf q). }
  apply Forall_app in Hl as [Hl Hx]. apply Forall_cons in Hx as [[Hq (o & Ho & Ht1 & Ht2) [Ha1 Ha2]] _].
  rewrite fmap_app, NoDup_app in Hd1, Hd2. destruct Hd1 as (Hd1 & Hn1 & _), Hd2 as (Hd2 & Hn2 & _).
  destruct (IH Hl Hd1 Hd2) as (c1 & E1 & Hc1). pose proof (Hc1 (c_two x)) as Hx. rewrite Ho in Hx.
  destruct (contents (two_events c1) !! c_two x) as [o1|] eqn:Ho1; [|done]. destruct Hx as [(Hs1 & Hs2 & Hs3) Hpr].
  assert (forall B (f : call -> B) b, b ∉ (f <$> l) -> b ∉ (f <$> filter (fun y => c_two y = c_two x) l)) as Hsub.
  { intros B f b Hb Hin. apply Hb. apply list_elem_of_fmap in Hin as (y & -> & Hy). apply list_elem_of_filter in Hy as [_ Hy].
    apply list_elem_of_fmap. by exists y. }
  destruct (profile_step c1 x o1 (filter (fun y => c_two y = c_two x) l) Ho1 Hq) as (c2 & o2 & E2 & (Hs1' & Hs2' & Hs3') & Hc2 & Hpr2); [congruence|intros; rewrite Hs2; auto|done|done|exact Hpr| | |].
  { apply Hsub. intros Hin. apply (Hn1 _ Hin). by apply list_elem_of_singleton. }
  { apply Hsub. intros Hin. apply (Hn2 _ Hin). by apply list_elem_of_singleton. }
  exists c2. split; [unfold run_profile in *; by rewrite foldl_snoc, E1|]. intros q. rewrite Hc2, filter_app, filter_cons, filter_nil.
  destruct (decide (c_two x = q)) as [<-|Hne].
  - rewrite Ho, lookup_insert_eq. split; [|done]. split; [congruence|]. split; congruence.
  - rewrite lookup_insert_ne by done. rewrite app_nil_r. apply Hc1.
Qed.

Lemma exit_fresh s xs : value_size s = 8 -> pairs_listed s xs -> keyvalue_pairs_reinit (Some s) = Some (Some (keyvalue_pairs_new 8)).
Proof.
  intros Hs Hl. unfold keyvalue_pairs_reinit. destruct (exit_pairs_ok s xs Hl) as (l & -> & He). cbn [mbind option_bind].
  apply (lists_nil (H0 := kv_laws (value_size s))) in He. cbn in He. by rewrite He, Hs.
Qed.

(** A print of a profile, which starts anew. *)
Lemma profile_printed c q o l first_n : sorts qsort -> contents (two_events c) !! q = Some o -> q <> 0 -> profiled o l ->
  Z.of_nat (length l) < 2 ^ 32 -> 0 <= first_n -> (tp2 o = 0 -> l <> []) ->
  exists parts c', mem_profile_print true first_n q c = Some (parts, c') /\
    (exists a, reported (with_stack (tp1 o)) (allocated (tp1 o) l) first_n a /\
       (if decide (tp2 o = 0) then parts = [a]
        else exists f, reported (with_stack (tp2 o)) (freed (tp1 o) l) first_n f /\ parts = [a; f])) /\
    contents (two_events c') = <[q := TwoEvent (tp1 o) (tp2 o) (id o) fresh]> (contents (two_events c)).
Proof.
  intros Hq Ho Hq0 [Hal Hfr] Hn Hf Hne. unfold mem_profile_print. rewrite (proj2 (Z.eqb_neq _ _) Hq0), Ho. cbn [mbind option_bind].
  assert (length (freed (tp1 o) l) <= length l)%nat as Hlf by apply omap_length.
  destruct (part_ok _ _ _ _ _ first_n Hq Hal) as (a & Ea & Ha); [unfold allocated; by rewrite length_fmap|done|].
  destruct (part_ok _ _ _ _ _ first_n Hq Hfr) as (f & Ef & Hff); [lia|done|].
  assert ((tp2 o =? 0) && (nr_alloc (derived o) =? 0) = false) as ->.
  { destruct (Z.eqb_spec (tp2 o) 0) as [H0|]; [|done]. rewrite (co_nr _ _ _ _ _ Hal). unfold allocated. rewrite length_fmap, u32_small by lia.
    specialize (Hne H0). destruct l; [done|]. cbn [length]. lia. }
  rewrite Ea. cbn [mbind option_bind].
  assert (reset_profile (derived o) = Some fresh) as Hr.
  { destruct Hal as [_ _ (s & xs & E1 & Hs & Hxs & _)], Hfr as [_ _ (s2 & ys & E2 & Hs2 & Hys & _)]. unfold reset_profile.
    by rewrite E1, E2, (exit_fresh s xs), (exit_fresh s2 ys). }
  assert (set_profile q reset_profile c = Some (with_derived q o fresh c)) as Hset by (unfold set_profile; rewrite Ho; cbn; by rewrite Hr).
  destruct (Z.eqb_spec (tp2 o) 0) as [H0|H0].
  - cbn [mbind option_bind]. rewrite Hset. eexists _, _. split; [reflexivity|]. split; [|done]. exists a. split; [done|]. by rewrite decide_True.
  - rewrite Ef. cbn [mbind option_bind]. rewrite Hset. eexists _, _. split; [reflexivity|]. split; [|done].
    exists a. split; [done|]. rewrite decide_False by done. by exists f.
Qed.

(** C34: After the pairs and the events that remained of an interval, in whatever order the
    objects of the class get them: an object reports how many allocations it had and their
    bytes, in 32 and 64 bits, and the same of those that were paired with the event that
    frees; under each stack the number and the bytes of the allocations - of the frees,
    the bytes of the allocation under the stack of the free -, every stack once, by
    descending bytes, as many as asked for.  Then the object is as new.  An object without
    second event reports only if it had something. *)
Theorem memory_profiled c l first_n :
  sorts qsort -> (forall q o, contents (two_events c) !! q = Some o -> derived o = fresh) -> Forall (callable c) l ->
  NoDup (fst ∘ fst ∘ c_mem <$> l) -> NoDup (fst ∘ snd ∘ c_mem <$> l) -> Z.of_nat (length l) < 2 ^ 32 -> 0 <= first_n ->
  exists c', run_profile l c = Some c' /\
    forall q o, contents (two_events c) !! q = Some o -> q <> 0 ->
      let lq := filter (fun x => c_two x = q) l in
      if decide (tp2 o = 0 /\ lq = []) then mem_profile_print true first_n q c' = Some ([], c')
      else exists a parts c'', mem_profile_print true first_n q c' = Some (a :: parts, c'') /\
        reported (with_stack (tp1 o)) (allocated (tp1 o) lq) first_n a /\
        (if decide (tp2 o = 0) then parts = []
         else exists f, reported (with_stack (tp2 o)) (freed (tp1 o) lq) first_n f /\ parts = [f]) /\
        contents (two_events c'') !! q = Some o.
Proof.
  intros Hq Hf Hl Hd1 Hd2 Hn Hfn. destruct (profiles_run c l Hf Hl Hd1 Hd2) as (c' & Er & Hc). exists c'. split; [done|].
  intros q o Ho Hq0 lq. specialize (Hc q). rewrite Ho in Hc. destruct (contents (two_events c') !! q) as [o'|] eqn:Ho'; [|done].
  destruct Hc as [(H1 & H2 & H3) Hp]. fold lq in Hp. pose proof (length_filter (fun x => c_two x = q) l) as Hlen.
  destruct (decide (tp2 o = 0 /\ lq = [])) as [[Ht0 Hlq]|Hno].
  - unfold mem_profile_print. rewrite (proj2 (Z.eqb_neq _ _) Hq0), Ho'. cbn [mbind option_bind].
    destruct Hp as [[Hnr _ _] _]. rewrite Hlq in Hnr. cbn in Hnr. by rewrite H2, Ht0, Hnr.
  - destruct (profile_printed c' q o' lq first_n Hq Ho' Hq0 Hp) as (parts & c'' & E2 & (a & Ha & Hparts) & Hc''); [fold lq in Hlen; lia|done|intros H0 Hnil; apply Hno; by split; [congruence|]|].
    rewrite H1, H2 in *. assert (contents (two_events c'') !! q = Some o) as Hend.
    { rewrite Hc'', lookup_insert_eq, H3. pose proof (Hf q o Ho) as Hd. destruct o. cbn in Hd. by subst. }
    destruct (decide (tp2 o = 0)); [subst parts; exists a, [], c''; done|].
    destruct Hparts as (f & Hf' & ->). exists a, [f], c''. split; [done|]. split; [done|]. split; [by exists f|done].
Qed.
End profile.

(** ** An example

    Two attributes; an event is its bytes and its stack. *)

Definition ex_new (c : two_event_class (X := mem_profile)) (p t1 t2 : Z) : two_event_class (X := mem_profile) :=
  default c ('(_, c) ← mem_profile_new (fun _ => true) (Some p) (true, true) t1 t2 c; Some c).
Definition ex_profiles : two_event_class (X := mem_profile) := ex_new (ex_new two_event_class_new 8 1 0) 16 1 2.
Definition ex_call (two : Z) (e1 : Z * struct_key) (e2 : option (Z * struct_key)) (p : Z) : call :=
  Call two e1 e2 ((p, clear_node p), (p + 8, clear_node (p + 8))).
Definition ex_profile_calls : list call :=
  [ex_call 16 (100, [5; 6]) (Some (0, [7])) 32; ex_call 16 (40, [5]) (Some (0, [7])) 64; ex_call 8 (30, [5]) None 96;
   ex_call 16 (200, [5]) (Some (0, [8; 9])) 128].

Lemma ex_profiles_fresh q o : contents (two_events ex_profiles) !! q = Some o -> derived o = fresh.
Proof.
  assert (contents (two_events ex_profiles) = <[16 := TwoEvent 1 2 1 fresh]> {[8 := TwoEvent 1 0 0 fresh]}) as -> by by vm_compute.
  rewrite lookup_insert_Some, lookup_singleton_Some. by intros [[_ <-]|[_ [_ <-]]].
Qed.

Lemma memory_profiled_witness : exists c,
  run_profile snd (fun _ e => e.1) (fun _ => true) ex_profile_calls ex_profiles = Some c /\
  exists a f c', mem_profile_print insertion_sort true 10 16 c = Some ([a; f], c') /\
    p_bytes a = 340 /\ p_stacks a = [KeyValue 2 [5] [240]; KeyValue 1 [5; 6] [100]] /\
    p_nr f = 3 /\ p_stacks f = [KeyValue 1 [8; 9] [200]; KeyValue 2 [7] [140]].
Proof.
  destruct (memory_profiled snd (fun _ e => e.1) (fun _ => true) insertion_sort ex_profiles ex_profile_calls 10)
    as (c & Er & Hp).
  - apply insertion_sorts.
  - apply ex_profiles_fresh.
  - repeat constructor; try (vm_compute; congruence); eexists; (split; [by vm_compute|done]).
  - apply (bool_decide_unpack _). by vm_compute.
  - apply (bool_decide_unpack _). by vm_compute.
  - done.
  - done.
  - exists c. split; [exact Er|].
    destruct (Hp 16 (TwoEvent 1 2 1 fresh)) as (a & parts & c' & E & _); [by vm_compute|done|].
    vm_compute in Er. injection Er as <-. vm_compute in E. injection E as <- <- <-.
    by do 3 eexists.
Defined.
