(* ===== verification/Kmemleak.v ===== *)
(** * Memory leaks (kmemleak.c)

    The profiler that matches allocations with the events that free them, by pointer: the
    list of allocations that are not freed, the list of frees whose allocation has not been
    seen, which may be still to come from another buffer, their ageing, lost events, and
    the report of what leaked. *)

From Stdlib Require Import Sorted.
From S2P Require Import Prelude RbTree RbShape RbRep RbWalk RbMain RbList RbMap RbReport KeyValue.

(** ** State *)

(** Of an attribute: its number, whether it asks for a stack and whether it has a size. *)
Record tp := Tp { tp_id : Z; tp_stack : bool; mem_size_prog : bool }.

Section kmemleak.
(** What an event has besides what is used here, and the address and size that attributes
    compute on it (tep.c). *)
Context {R : Type} (tp_get_mem_ptr tp_get_mem_size : tp -> R -> Z).

(** A sample: [e_stack] is there when the event was opened with a stack. *)
Record event := Event { e_pid : Z; e_time : Z; e_id : Z; e_size : Z; e_stack : struct_key; e_raw : R }.

Record perf_event_backup := Backup {
  ptr : Z;
  bytes_alloc : Z;
  is_alloc : bool;
  is_free : bool;
  callchain : bool;
  ev : event
}.
(** [insert] of an entry is an argument of what compares. *)
Record perf_event_entry := Entry {
  en_ptr : Z;
  en_bytes_alloc : Z;
  en_is_alloc : bool;
  en_is_free : bool;
  en_callchain : bool;
  en_event : event
}.

Record kmemleak_stat := Stat {
  alloc_num : Z;
  free_num : Z;
  alloc_mem : Z;
  free_mem : Z;
  total_alloc : Z;
  total_free : Z
}.
Record kmemleak_lost_node := Lost { lost_ins : Z; reclaim : bool; start_time : Z; end_time : Z; lost : Z }.

(** A report: the totals printed, the number of leaks and the allocations when they are
    printed one by one, and the leaked bytes by stack when they are. *)
Record report := Report {
  rp_total : option (Z * Z);
  rp_leaks : option (Z * list perf_event_backup);
  rp_bytes : option (list key_value)
}.

(** [reports] is what was printed. *)
Record kmemleak_ctx := Ctx {
  alloc : rblist perf_event_backup;
  gc_free : rblist perf_event_backup;
  stat : kmemleak_stat;
  lost_list : list kmemleak_lost_node;
  reports : list report
}.

Definition with_alloc l s c := Ctx l (gc_free c) s (lost_list c) (reports c).
Definition with_free l s c := Ctx (alloc c) l s (lost_list c) (reports c).
Definition with_stat s c := Ctx (alloc c) (gc_free c) s (lost_list c) (reports c).
Definition with_lost l c := Ctx (alloc c) (gc_free c) (stat c) l (reports c).
Definition add_report r c := Ctx (alloc c) (gc_free c) (stat c) (lost_list c) (reports c ++ [r]).

Definition monitor_ctx_init : kmemleak_ctx := Ctx rblist__init rblist__init (Stat 0 0 0 0 0 0) [] [].

(** ** The lists *)

Definition perf_event_backup_node_cmp (insert : bool) (b : perf_event_backup) (e : perf_event_entry) : Z :=
  if en_ptr e <? ptr b then 1
  else if ptr b <? en_ptr e then -1
  else if e_time (en_event e) <? e_time (ev b) then 1
  else if insert && (e_time (ev b) <? e_time (en_event e)) then -1
  else 0.
Definition perf_event_backup_gc_free_node_cmp (b : perf_event_backup) (e : perf_event_entry) : Z :=
  if e_time (en_event e) <? e_time (ev b) then 1
  else if e_time (ev b) <? e_time (en_event e) then -1
  else if en_ptr e <? ptr b then 1
  else if ptr b <? en_ptr e then -1
  else 0.
Definition perf_event_backup_sorted_node_cmp (b e : perf_event_backup) : Z :=
  if e_time (ev e) <? e_time (ev b) then 1
  else if e_time (ev b) <? e_time (ev e) then -1
  else if ptr e <? ptr b then 1
  else if ptr b <? ptr e then -1
  else 0.

(** The contents of a new node. *)
Definition perf_event_backup_node_new (e : perf_event_entry) : perf_event_backup :=
  Backup (en_ptr e) (en_bytes_alloc e) (en_is_alloc e) (en_is_free e) (en_callchain e) (en_event e).

#[export] Instance alloc_ops (insert : bool) : NodeOps perf_event_backup perf_event_entry :=
  {| node_cmp := perf_event_backup_node_cmp insert; node_new := perf_event_backup_node_new |}.
#[export] Instance gc_ops : NodeOps perf_event_backup perf_event_entry :=
  {| node_cmp := perf_event_backup_gc_free_node_cmp; node_new := perf_event_backup_node_new |}.
#[export] Instance sorted_ops : NodeOps perf_event_backup perf_event_backup :=
  {| node_cmp := perf_event_backup_sorted_node_cmp; node_new := fun b => b |}.

(** The size of a node; [d] is one or minus one. *)
Definition backup_size (b : perf_event_backup) : Z := 48 + e_size (ev b).
Definition count_node (d : Z) (b : perf_event_backup) (s : kmemleak_stat) : kmemleak_stat :=
  if is_alloc b then
    Stat (u64 (alloc_num s + d)) (free_num s) (u64 (alloc_mem s + d * backup_size b)) (free_mem s) (total_alloc s) (total_free s)
  else if is_free b then
    Stat (alloc_num s) (u64 (free_num s + d)) (alloc_mem s) (u64 (free_mem s + d * backup_size b)) (total_alloc s) (total_free s)
  else s.

(** [rblist__add_node] and [rblist__remove_node] with the callbacks, which count. *)
Definition alloc_add (mem : option (Z * rb_node)) (e : perf_event_entry) (c : kmemleak_ctx) : option (Z * kmemleak_ctx) :=
  '(rc, l) ← rblist__add_node (H := alloc_ops true) mem e (alloc c);
  Some (rc, with_alloc l (if rc =? 0 then count_node 1 (perf_event_backup_node_new e) (stat c) else stat c) c).
Definition alloc_remove (p : Z) (c : kmemleak_ctx) : option kmemleak_ctx :=
  b ← contents (alloc c) !! p;
  l ← rblist__remove_node p (alloc c);
  Some (with_alloc l (count_node (-1) b (stat c)) c).
Definition gc_add (mem : option (Z * rb_node)) (e : perf_event_entry) (c : kmemleak_ctx) : option (Z * kmemleak_ctx) :=
  '(rc, l) ← rblist__add_node (H := gc_ops) mem e (gc_free c);
  Some (rc, with_free l (if rc =? 0 then count_node 1 (perf_event_backup_node_new e) (stat c) else stat c) c).
Definition gc_remove (p : Z) (c : kmemleak_ctx) : option kmemleak_ctx :=
  b ← contents (gc_free c) !! p;
  l ← rblist__remove_node p (gc_free c);
  Some (with_free l (count_node (-1) b (stat c)) c).

(** [rblist__exit] of the frees. *)
Fixpoint gc_exit_loop (fuel : nat) (next : Z) (c : kmemleak_ctx) : option kmemleak_ctx :=
  match fuel with
  | O => None
  | S fuel =>
      if next =? 0 then Some c
      else
        '(next', _) ← rb_next next (rb_root (entries (gc_free c)));
        c ← gc_remove next c;
        gc_exit_loop fuel next' c
  end.
Definition gc_exit (c : kmemleak_ctx) : option kmemleak_ctx :=
  gc_exit_loop (S (size (nodes (rb_root (entries (gc_free c)))))) (rb_leftmost (entries (gc_free c))) c.

(** ** Frees before their allocation *)

Definition NSEC_PER_SEC : Z := 1000000000.
Definition gc_need_free (event : event) (c : kmemleak_ctx) : option bool :=
  if 1 <? rblist__nr_entries (gc_free c) then
    p ← rblist__entry 0 (gc_free c);
    free ← contents (gc_free c) !! p;
    Some ((e_time (ev free) <? e_time event) && (NSEC_PER_SEC <? e_time event - e_time (ev free)))
  else Some false.

(** The entry has the pointer and the event of the free; its other fields are not set. *)
Definition entry_of (b : perf_event_backup) : perf_event_entry := Entry (ptr b) 0 false false false (ev b).
Definition __gc_free_first (c : kmemleak_ctx) : option kmemleak_ctx :=
  p ← rblist__entry 0 (gc_free c);
  free ← contents (gc_free c) !! p;
  a ← rblist__find (H := alloc_ops false) (entry_of free) (alloc c);
  c ← (if a =? 0 then Some c else alloc_remove a c);
  gc_remove p c.
Fixpoint gc_free_loop (fuel : nat) (event : event) (c : kmemleak_ctx) : option kmemleak_ctx :=
  match fuel with
  | O => None
  | S fuel =>
      c ← __gc_free_first c;
      more ← gc_need_free event c;
      if (more : bool) then gc_free_loop fuel event c else Some c
  end.
(** No more often than there are frees. *)
Definition gc_free_all (event : event) (c : kmemleak_ctx) : option kmemleak_ctx :=
  gc_free_loop (size (contents (gc_free c))) event c.

(** ** Reports *)

(** What is set for the profiler: whether the leaked bytes are reported, whether the
    processes are of interest, whether the command line asks for all stacks and for more
    output, whether events are put in order, and the attributes. *)
Record config := Config { report_leaked_bytes : bool; user : bool; env_callchain : bool; verbose : bool; using_order : bool;
  tp_alloc : list tp; tp_free : list tp }.
Context (cfg : config) (qsort : (key_value -> key_value -> Z) -> list key_value -> list key_value).

(** The value is the leaked bytes and the process; nothing checks the pointer. *)
Definition collect_leaked_bytes (mem : Z * rb_node) (b : perf_event_backup) (pairs : option key_value_paires)
  : option (option key_value_paires) :=
  if callchain b then
    add_value (Some mem) (e_stack (ev b)) (add_word (bytes_alloc b) (Some (if user cfg then e_pid (ev b) else 0))) pairs
  else Some pairs.

Definition __leak_cmp (kv1 kv2 : key_value) : Z :=
  match value kv1, value kv2 with
  | l1 :: p1 :: _, l2 :: p2 :: _ => if l1 <? l2 then 1 else if l2 <? l1 then -1 else s32 (p1 - p2)
  | _, _ => 0
  end.

Definition report_kmemleak_stat (c : kmemleak_ctx) : option (Z * Z) :=
  if total_alloc (stat c) =? 0 then None else Some (total_alloc (stat c), total_free (stat c)).

Fixpoint drain_free (fuel : nat) (c : kmemleak_ctx) : option kmemleak_ctx :=
  if rblist__empty (gc_free c) then Some c
  else match fuel with O => None | S fuel => c ← __gc_free_first c; drain_free fuel c end.

(** The sorted list is taken apart from the front; [mems] is the memory for the stacks. *)
Fixpoint collect_loop (fuel : nat) (mems : list (Z * rb_node)) (pairs : option key_value_paires)
  (sorted : rblist perf_event_backup) : option (list perf_event_backup * option key_value_paires) :=
  match fuel with
  | O => None
  | S fuel =>
      p ← rblist__entry 0 sorted;
      b ← contents sorted !! p;
      pairs ← (match pairs with
               | None => Some None
               | Some _ => mem ← head mems; collect_leaked_bytes mem b pairs
               end);
      sorted ← rblist__remove_node p sorted;
      '(bs, pairs) ← (if rblist__empty sorted then Some ([], pairs) else collect_loop fuel (tail mems) pairs sorted);
      Some (b :: bs, pairs)
  end.

(** [kv] says whether there is memory for the pairs, [arr] for their array. *)
Record memory := Memory { m_kv : bool; m_arr : bool; m_nodes : list (Z * rb_node) }.
Definition report_kmemleak (m : memory) (c : kmemleak_ctx) : option kmemleak_ctx :=
  c ← drain_free (size (contents (gc_free c))) c;
  let total := report_kmemleak_stat c in
  if rblist__empty (alloc c) then Some (add_report (Report total None None) c)
  else
    '(left, sorted) ← sort_loop (H := sorted_ops) (size (nodes (rb_root (entries (alloc c))))) (alloc c) rblist__init;
    let pairs := if report_leaked_bytes cfg && m_kv m then Some (keyvalue_pairs_new 16) else None in
    let each := bool_decide (pairs = None) || verbose cfg in
    let n := rblist__nr_entries sorted in
    '(bs, pairs) ← collect_loop (size (contents sorted)) (m_nodes m) pairs sorted;
    bytes ← (match pairs with
             | None => Some None
             | Some _ => l ← keyvalue_pairs_sorted_foreach qsort (m_arr m) pairs __leak_cmp; Some (Some l)
             end);
    Some (add_report (Report total (if each then Some (n, bs) else None) bytes) (with_alloc left (stat c) c)).
Definition kmemleak_exit (m : memory) (c : kmemleak_ctx) : option kmemleak_ctx := report_kmemleak m c.

(** ** Lost events *)

Definition lost_reclaim (m : memory) (c : kmemleak_ctx) : option kmemleak_ctx :=
  if negb (rblist__empty (alloc c)) then report_kmemleak m c else gc_exit c.

(** Before the first range that starts later; [got] says whether there is memory for it. *)
Fixpoint insert_lost (x : kmemleak_lost_node) (l : list kmemleak_lost_node) : list kmemleak_lost_node :=
  match l with
  | [] => [x]
  | y :: l' => if start_time x <? start_time y then x :: l else y :: insert_lost x l'
  end.
Definition kmemleak_lost (m : memory) (got : bool) (ins lost_start lost_end n : Z) (c : kmemleak_ctx) : option kmemleak_ctx :=
  if negb (using_order cfg) then lost_reclaim m c
  else if got then Some (with_lost (insert_lost (Lost ins false lost_start lost_end n) (lost_list c)) c)
  else Some c.

(** Whether the event is to be skipped, and the ranges that are left. *)
Fixpoint event_lost_loop (m : memory) (event : event) (l : list kmemleak_lost_node) (c : kmemleak_ctx)
  : option (bool * list kmemleak_lost_node * kmemleak_ctx) :=
  match l with
  | [] => Some (false, [], c)
  | x :: l' =>
      if e_time event <=? start_time x then Some (false, l, c)
      else
        c ← (if reclaim x then Some c else lost_reclaim m c);
        if e_time event <? end_time x then
          Some (true, Lost (lost_ins x) true (start_time x) (end_time x) (lost x) :: l', c)
        else event_lost_loop m event l' c
  end.
Definition kmemleak_event_lost (m : memory) (event : event) (c : kmemleak_ctx) : option (bool * kmemleak_ctx) :=
  '(skip, l, c) ← event_lost_loop m event (lost_list c) c;
  Some (skip, with_lost l c).

(** ** Samples *)

Definition find_tp (config : Z) (l : list tp) : option tp := find (fun t => tp_id t =? config) l.

Definition add_total (alloc : bool) (c : kmemleak_ctx) : kmemleak_ctx :=
  let s := stat c in
  with_stat (if alloc then Stat (alloc_num s) (free_num s) (alloc_mem s) (free_mem s) (u64 (total_alloc s + 1)) (total_free s)
             else Stat (alloc_num s) (free_num s) (alloc_mem s) (free_mem s) (total_alloc s) (u64 (total_free s + 1))) c.

(** An allocation.  One with the pointer and the time of another replaces it. *)
Definition sample_alloc (mem : option (Z * rb_node)) (e : perf_event_entry) (c : kmemleak_ctx) : option kmemleak_ctx :=
  '(rc, c) ← alloc_add mem e c;
  c ← (if rc =? - EEXIST then
         p ← rblist__find (H := alloc_ops true) e (alloc c);
         c ← alloc_remove p c;
         '(_, c) ← alloc_add mem e c; Some c
       else Some c);
  Some (add_total true c).

Definition sample_free (mem : option (Z * rb_node)) (e : perf_event_entry) (c : kmemleak_ctx) : option kmemleak_ctx :=
  p ← rblist__find (H := alloc_ops false) e (alloc c);
  c ← (if p =? 0 then
         '(_, c) ← gc_add mem e c;
         need ← gc_need_free (en_event e) c;
         if (need : bool) then gc_free_all (en_event e) c else Some c
       else alloc_remove p c);
  Some (add_total false c).

(** [config_of] gives the number of the attribute an event is of (lib/perf/evlist.c). *)
Definition kmemleak_sample (config_of : Z -> option Z) (mem : option (Z * rb_node)) (m : memory) (event : event) (c : kmemleak_ctx)
  : option kmemleak_ctx :=
  match config_of (e_id event) with
  | None => Some c
  | Some config =>
      let a := find_tp config (tp_alloc cfg) in
      t ← (match a with Some t => Some t | None => find_tp config (tp_free cfg) end);
      let is_alloc := bool_decide (is_Some a) in
      let callchain := is_alloc && env_callchain cfg || tp_stack t in
      '(skip, c) ← kmemleak_event_lost m event c;
      if (skip : bool) then Some c
      else if is_alloc then
        let bytes := if mem_size_prog t then u64 (tp_get_mem_size t (e_raw event)) else 0 in
        sample_alloc mem (Entry (u64 (tp_get_mem_ptr t (e_raw event))) bytes true false callchain event) c
      else sample_free mem (Entry (u64 (tp_get_mem_ptr t (e_raw event))) 0 false true callchain event) c
  end.

(** ** The orders of the lists *)

Definition alloc_key (b : perf_event_backup) : triple := (ptr b, e_time (ev b), 0).
Definition gc_key (b : perf_event_backup) : triple := (e_time (ev b), ptr b, 0).

#[export] Instance alloc_laws : NodeLaws (H := alloc_ops true) perf_event_backup perf_event_entry triple.
Proof.
  clear tp_get_mem_ptr tp_get_mem_size cfg qsort.
  refine {| key := alloc_key : perf_event_backup -> triple; ekey := fun e => alloc_key (perf_event_backup_node_new e);
    before_key := triple_lt |}; unfold triple_lt; [lia|lia| | | |done].
  all: intros v e; cbn [node_cmp alloc_ops]; unfold perf_event_backup_node_cmp, alloc_key; rewrite ?triple_eq; cbn [fst snd ptr ev perf_event_backup_node_new andb].
  all: repeat case_match; lia.
Defined.
#[export] Instance gc_laws : NodeLaws (H := gc_ops) perf_event_backup perf_event_entry triple.
Proof.
  clear tp_get_mem_ptr tp_get_mem_size cfg qsort.
  refine {| key := gc_key : perf_event_backup -> triple; ekey := fun e => gc_key (perf_event_backup_node_new e);
    before_key := triple_lt |}; unfold triple_lt; [lia|lia| | | |done].
  all: intros v e; cbn [node_cmp gc_ops]; unfold perf_event_backup_gc_free_node_cmp, gc_key; rewrite ?triple_eq; cbn [fst snd ptr ev perf_event_backup_node_new].
  all: repeat case_match; lia.
Defined.
#[export] Instance sorted_laws : NodeLaws (H := sorted_ops) perf_event_backup perf_event_backup triple.
Proof.
  clear tp_get_mem_ptr tp_get_mem_size cfg qsort.
  refine {| key := gc_key : perf_event_backup -> triple; ekey := gc_key; before_key := triple_lt |}; unfold triple_lt; [lia|lia| | | |done].
  all: intros v e; cbn [node_cmp sorted_ops]; unfold perf_event_backup_sorted_node_cmp, gc_key; rewrite ?triple_eq; cbn [fst snd].
  all: repeat case_match; lia.
Defined.

(** What a free frees: an allocation of the pointer that is not later. *)
Definition frees (p t : Z) (a : perf_event_backup) : Prop := ptr a = p /\ e_time (ev a) <= t.
#[local] Instance frees_dec p t a : Decision (frees p t a) := _.

Lemma lookup_along e : along (H0 := alloc_laws) (alloc_ops false) e.
Proof.
  intros v w. cbn. unfold perf_event_backup_node_cmp, triple_lt, alloc_key. cbn. intros Hk. repeat case_match; cbn in *; lia.
Qed.

(** ** The lists as what is kept *)

Definition alloc_listed : rblist perf_event_backup -> list (Z * perf_event_backup) -> Prop := lists (H0 := alloc_laws).
Definition gc_listed : rblist perf_event_backup -> list (Z * perf_event_backup) -> Prop := lists (H0 := gc_laws).

(** The state keeps the allocations [A] and the frees [G], the first the earliest, in memory
    among [U]; [k] allocations were reported and are counted still. *)
Record tracked (U : list Z) (k : Z) (c : kmemleak_ctx) (A G : list perf_event_backup) : Prop := {
  t_alloc : exists xs, alloc_listed (alloc c) xs /\ xs.*2 ≡ₚ A /\ forall a, a ∈ xs.*1 -> a ∈ U;
  t_free : exists ys, gc_listed (gc_free c) ys /\ ys.*2 = G /\ forall a, a ∈ ys.*1 -> a ∈ U;
  t_allocs : forall b, b ∈ A -> is_alloc b = true;
  t_frees : forall b, b ∈ G -> is_alloc b = false /\ is_free b = true;
  t_alloc_num : alloc_num (stat c) = u64 (k + Z.of_nat (length A));
  t_free_num : free_num (stat c) = u64 (Z.of_nat (length G))
}.

(** What the lists do not hold. *)
Record same_else (c c' : kmemleak_ctx) : Prop := {
  se_lost : lost_list c' = lost_list c;
  se_reports : reports c' = reports c;
  se_total : total_alloc (stat c') = total_alloc (stat c) /\ total_free (stat c') = total_free (stat c)
}.

Lemma same_else_refl c : same_else c c.
Proof. done. Qed.
Lemma same_else_trans c1 c2 c3 : same_else c1 c2 -> same_else c2 c3 -> same_else c1 c3.
Proof. intros [H1 H2 [H3 H4]] [H5 H6 [H7 H8]]. split; [congruence|congruence|split; congruence]. Qed.

Lemma count_alloc d b s : is_alloc b = true -> count_node d b s =
  Stat (u64 (alloc_num s + d)) (free_num s) (u64 (alloc_mem s + d * backup_size b)) (free_mem s) (total_alloc s) (total_free s).
Proof. unfold count_node. by intros ->. Qed.
Lemma count_free d b s : is_alloc b = false -> is_free b = true -> count_node d b s =
  Stat (alloc_num s) (u64 (free_num s + d)) (alloc_mem s) (u64 (free_mem s + d * backup_size b)) (total_alloc s) (total_free s).
Proof. unfold count_node. by intros -> ->. Qed.

Lemma u64_shift n d : u64 (u64 n + d) = u64 (n + d).
Proof. apply u64_add_l. Qed.

(** An allocation taken out. *)
Lemma alloc_remove_ok U k c A G xs p b : tracked U k c A G -> alloc_listed (alloc c) xs -> (p, b) ∈ xs ->
  exists c' A', alloc_remove p c = Some c' /\ A ≡ₚ b :: A' /\ tracked U k c' A' G /\ same_else c c' /\ gc_free c' = gc_free c.
Proof.
  intros [(xs' & Hl' & HA & HU) Tf Ta Tg Tn Tm] Hl Hp. unfold alloc_remove.
  assert (xs' = xs) as ->.
  { apply (lists_unique (H0 := alloc_laws) (alloc c)); done. }
  rewrite (proj2 (lists_lookup (H0 := alloc_laws) _ _ p b Hl) Hp). cbn [mbind option_bind].
  apply list_elem_of_split in Hp as (x1 & x2 & ->).
  destruct (remove_node_ok (H0 := alloc_laws) _ _ _ _ _ Hl) as (l & -> & Hl2). cbn [mbind option_bind].
  rewrite fmap_app, fmap_cons, <- Permutation_middle in HA. cbn in HA.
  assert (is_alloc b = true) as Hb by (apply Ta; rewrite <- HA; by left).
  eexists _, ((x1 ++ x2).*2). split; [reflexivity|]. split; [by rewrite <- HA, fmap_app|]. split; [|split; [|done]].
  - split; cbn [alloc gc_free stat with_alloc].
    + exists (x1 ++ x2). split; [exact Hl2|]. split; [done|]. intros a Ha. apply HU. rewrite fmap_app in *. set_solver.
    + done.
    + intros a Ha. apply Ta. rewrite <- HA. right. by rewrite <- fmap_app.
    + done.
    + rewrite count_alloc by done. cbn [alloc_num]. rewrite Tn, u64_shift, <- HA. cbn [length]. rewrite fmap_app. f_equal. lia.
    + rewrite count_alloc by done. done.
  - split; cbn; [done|done|]. by rewrite count_alloc.
Qed.

(** The lookup of an allocation to free, and taking it out. *)
Lemma alloc_free_ok U k c A G e : tracked U k c A G ->
  (exists p b c' A', rblist__find (H := alloc_ops false) e (alloc c) = Some p /\ p <> 0 /\ frees (en_ptr e) (e_time (en_event e)) b /\
     A ≡ₚ b :: A' /\ alloc_remove p c = Some c' /\ tracked U k c' A' G /\ same_else c c' /\ gc_free c' = gc_free c) \/
  (rblist__find (H := alloc_ops false) e (alloc c) = Some 0 /\ forall b, b ∈ A -> ~ frees (en_ptr e) (e_time (en_event e)) b).
Proof.
  intros Ht. destruct (t_alloc _ _ _ _ _ Ht) as (xs & Hl & HA & HU).
  assert (forall v, node_cmp (NodeOps := alloc_ops false) v e = 0 <-> frees (en_ptr e) (e_time (en_event e)) v) as Hcmp.
  { intros v. cbn. unfold perf_event_backup_node_cmp, frees. cbn. repeat case_match; lia. }
  destruct (find_along (H0 := alloc_laws) (alloc_ops false) e (alloc c) xs (lookup_along e) Hl)
    as [(p & b & Hp & Hc & E)|[Hno E]].
  - left. destruct (alloc_remove_ok U k c A G xs p b Ht Hl Hp) as (c' & A' & E' & HA' & Ht' & Hs & Hg).
    exists p, b, c', A'. split; [done|]. split; [by apply (lists_pos (H0 := alloc_laws) _ _ _ _ Hl Hp)|]. by split; [apply Hcmp|].
  - right. split; [done|]. intros b Hb Hf. rewrite <- HA in Hb. apply list_elem_of_fmap in Hb as ([p v] & -> & Hp).
    by apply (Hno p v Hp), Hcmp.
Qed.

(** The first free taken out. *)
Lemma gc_remove_ok U k c A G ys p g : tracked U k c A (g :: G) -> gc_listed (gc_free c) ((p, g) :: ys) -> ys.*2 = G ->
  exists c', gc_remove p c = Some c' /\ tracked U k c' A G /\ same_else c c'.
Proof.
  intros [Ta (ys' & Hl' & HG & HU) Tfa Tfg Tn Tm] Hl Hys. unfold gc_remove.
  assert (ys' = (p, g) :: ys) as -> by by apply (lists_unique (H0 := gc_laws) (gc_free c)).
  rewrite (proj2 (lists_lookup (H0 := gc_laws) _ _ p g Hl)) by by left. cbn [mbind option_bind].
  destruct (remove_node_ok (H0 := gc_laws) _ [] p g ys Hl) as (l & -> & Hl2). cbn [mbind option_bind].
  destruct (Tfg g ltac:(by left)) as [H1 H2]. eexists. split; [reflexivity|]. split.
  - split; cbn [alloc gc_free stat with_free]; [done| |done|by intros b Hb; apply Tfg; right| |].
    + exists ys. split; [exact Hl2|]. split; [done|]. intros a Ha. apply HU. by right.
    + by rewrite count_free.
    + rewrite count_free by done. cbn [free_num]. rewrite Tm, u64_shift. cbn [length]. f_equal. lia.
  - split; cbn; [done|done|]. by rewrite count_free.
Qed.

Lemma gc_front U k c A G g : tracked U k c A (g :: G) ->
  exists p ys, gc_listed (gc_free c) ((p, g) :: ys) /\ ys.*2 = G /\ rblist__entry 0 (gc_free c) = Some p /\
    contents (gc_free c) !! p = Some g.
Proof.
  intros [_ (ys & Hl & HG & _) _ _ _ _]. destruct ys as [|[p b] ys]; [done|]. injection HG as -> <-.
  exists p, ys. split; [done|]. split; [done|]. split; [by apply (lists_first (H0 := gc_laws) _ p g ys)|].
  apply (lists_lookup (H0 := gc_laws) _ _ p g Hl). by left.
Qed.

(** What handling the first free does to the allocations. *)
Definition collected (A : list perf_event_backup) (g : perf_event_backup) (A' : list perf_event_backup) : Prop :=
  (exists a, frees (ptr g) (e_time (ev g)) a /\ A ≡ₚ a :: A') \/ ((forall a, a ∈ A -> ~ frees (ptr g) (e_time (ev g)) a) /\ A' = A).

Lemma gc_first_ok U k c A G g : tracked U k c A (g :: G) ->
  exists c' A', __gc_free_first c = Some c' /\ collected A g A' /\ tracked U k c' A' G /\ same_else c c'.
Proof.
  intros Ht. destruct (gc_front _ _ _ _ _ _ Ht) as (p & ys & Hl & HG & E & Hg). unfold __gc_free_first. rewrite E. cbn [mbind option_bind].
  rewrite Hg. cbn [mbind option_bind].
  destruct (alloc_free_ok U k c A (g :: G) (entry_of g) Ht) as [(q & b & c1 & A1 & -> & Hq & Hf & HA & E1 & Ht1 & Hs1 & Hgc)|[-> Hno]];
    cbn [mbind option_bind].
  - rewrite (proj2 (Z.eqb_neq _ _) Hq), E1. cbn [mbind option_bind]. rewrite <- Hgc in Hl.
    destruct (gc_remove_ok U k c1 A1 G ys p g Ht1 Hl HG) as (c2 & -> & Ht2 & Hs2). exists c2, A1. split; [done|].
    split; [left; by exists b|]. split; [done|]. by eapply same_else_trans.
  - cbn. destruct (gc_remove_ok U k c A G ys p g Ht Hl HG) as (c2 & -> & Ht2 & Hs2). exists c2, A. split; [done|].
    split; [by right|]. by split.
Qed.

(** When frees are old enough to be handled: not the only one. *)
Definition overdue (t : Z) (G : list perf_event_backup) : Prop :=
  match G with g :: _ :: _ => e_time (ev g) + NSEC_PER_SEC < t | _ => False end.
#[local] Instance overdue_dec t G : Decision (overdue t G).
Proof. destruct G as [|g [|]]; unfold overdue; apply _. Defined.

Lemma gc_need_ok U k c A G e : tracked U k c A G -> Z.of_nat (length G) < 2 ^ 32 ->
  gc_need_free e c = Some (bool_decide (overdue (e_time e) G)).
Proof.
  intros Ht Hn. unfold gc_need_free. destruct (t_free _ _ _ _ _ Ht) as (ys & Hl & HG & _).
  unfold rblist__nr_entries. rewrite (lists_nr (H0 := gc_laws) _ _ Hl), <- (length_fmap snd ys), HG, u32_small by lia.
  destruct G as [|g [|g' G]]; [done|done|]. destruct (Z.ltb_spec 1 (Z.of_nat (length (g :: g' :: G)))); [|cbn [length] in *; lia].
  destruct (gc_front _ _ _ _ _ _ Ht) as (p & ys' & _ & _ & -> & Hg). cbn [mbind option_bind]. rewrite Hg. cbn [mbind option_bind].
  f_equal. apply eq_true_iff_eq. rewrite bool_decide_eq_true. unfold overdue, NSEC_PER_SEC. lia.
Qed.

(** The frees handled while they are overdue. *)
Inductive collects (t : Z) : list perf_event_backup -> list perf_event_backup -> list perf_event_backup -> list perf_event_backup -> Prop :=
  | collects_done A G : ~ overdue t G -> collects t A G A G
  | collects_more A g G A1 A' G' : overdue t (g :: G) -> collected A g A1 -> collects t A1 G A' G' -> collects t A (g :: G) A' G'.

Lemma gc_loop_ok U k e : forall fuel c A G, tracked U k c A G -> (length G <= fuel)%nat -> Z.of_nat (length G) < 2 ^ 32 ->
  overdue (e_time e) G -> exists c' A' G', gc_free_loop fuel e c = Some c' /\ collects (e_time e) A G A' G' /\
    tracked U k c' A' G' /\ same_else c c'.
Proof.
  induction fuel as [|fuel IH]; intros c A [|g G] Ht Hf Hn Ho; cbn [length] in Hf; try lia; try done.
  cbn [gc_free_loop]. destruct (gc_first_ok U k c A G g Ht) as (c1 & A1 & -> & Hc & Ht1 & Hs1). cbn [mbind option_bind].
  cbn [length] in Hn. rewrite (gc_need_ok U k c1 A1 G e Ht1) by lia. cbn [mbind option_bind]. case_bool_decide as Hov.
  - destruct (IH c1 A1 G Ht1) as (c2 & A2 & G2 & -> & Hc2 & Ht2 & Hs2); [lia|lia|done|]. exists c2, A2, G2. split; [done|].
    split; [by eapply collects_more|]. split; [done|]. by eapply same_else_trans.
  - exists c1, A1, G. split; [done|]. split; [eapply collects_more; [done|done|by constructor]|]. by split.
Qed.

(** ** Samples *)

Notation new := perf_event_backup_node_new.

Lemma tracked_more U U' k c A G : (forall a, a ∈ U -> a ∈ U') -> tracked U k c A G -> tracked U' k c A G.
Proof.
  intros HU [(xs & H1 & H2 & H3) (ys & H4 & H5 & H6) ? ? ? ?]. split; try done; [exists xs|exists ys]; auto.
Qed.

Lemma tracked_perm U k c A A' G : A ≡ₚ A' -> tracked U k c A G -> tracked U k c A' G.
Proof.
  intros Hp [(xs & H1 & H2 & H3) Tf Ta Tg Tn Tm]. split; [|done| |done|by rewrite <- Hp|done].
  - exists xs. split; [done|]. split; [by rewrite H2|done].
  - intros b. rewrite <- Hp. apply Ta.
Qed.

Lemma alloc_add_ok U k c A G p raw e : tracked U k c A G -> addr p -> p ∉ U -> en_is_alloc e = true ->
  (exists b, b ∈ A /\ alloc_key b = alloc_key (new e) /\ alloc_add (Some (p, raw)) e c = Some (- EEXIST, c)) \/
  ((forall b, b ∈ A -> alloc_key b <> alloc_key (new e)) /\
   exists c', alloc_add (Some (p, raw)) e c = Some (0, c') /\ tracked (p :: U) k c' (new e :: A) G /\ same_else c c').
Proof.
  intros [(xs & Hl & HA & HU) Tf Ta Tg Tn Tm] Hp Hnew He. unfold alloc_add.
  assert (p ∉ xs.*1) as Hpx by (intros Hin; by apply Hnew, HU).
  destruct (find_ok (H0 := alloc_laws) e (alloc c) xs Hl (Some (p, raw)) true) as [(q & b & Hq & Hk & _ & ->)|(Hno & _ & _ & Hadd)].
  - left. exists b. split; [rewrite <- HA; apply list_elem_of_fmap; by exists (q, b)|]. split; [done|]. cbn. by destruct c.
  - right. split; [intros b Hb Hk; rewrite <- HA in Hb; apply list_elem_of_fmap in Hb as ([q v] & -> & Hq); by apply (Hno q v)|].
    destruct (Hadd p raw eq_refl Hp Hpx) as (l & x1 & x2 & -> & _ & -> & _ & _ & Hl2). cbn [mbind option_bind].
    assert (is_alloc (new e) = true) as Hal by done. eexists. split; [reflexivity|]. cbn [Z.eqb]. split.
    + split; cbn [alloc gc_free stat with_alloc].
      * exists (x1 ++ (p, new e) :: x2). split; [exact Hl2|]. split; [rewrite fmap_app, fmap_cons, <- Permutation_middle, <- fmap_app; by constructor|].
        intros a. rewrite fmap_app, fmap_cons, <- Permutation_middle, <- fmap_app. intros [->|Ha]%elem_of_cons; [by left|right; by apply HU].
      * destruct Tf as (ys & H1 & H2 & H3). exists ys. split; [done|]. split; [done|]. intros a Ha. right. by apply H3.
      * intros b [->|Hb]%elem_of_cons; [done|by apply Ta].
      * done.
      * rewrite count_alloc by done. cbn [alloc_num length]. rewrite Tn, u64_shift. f_equal. lia.
      * by rewrite count_alloc.
    + split; cbn; [done|done|]. by rewrite count_alloc.
Qed.

Lemma add_total_ok b U k c A G : tracked U k c A G -> tracked U k (add_total b c) A G.
Proof. intros []. by destruct b. Qed.

(** An allocation replaces the one with its pointer and time. *)
Lemma sample_alloc_ok U k c A G p raw e : tracked U k c A G -> addr p -> p ∉ U -> en_is_alloc e = true ->
  exists c', sample_alloc (Some (p, raw)) e c = Some c' /\
    tracked (p :: U) k c' (new e :: filter (fun b => alloc_key b <> alloc_key (new e)) A) G /\
    lost_list c' = lost_list c /\ reports c' = reports c.
Proof.
  intros Ht Hp Hnew He. unfold sample_alloc.
  destruct (alloc_add_ok U k c A G p raw e Ht Hp Hnew He) as [(b & Hb & Hk & ->)|(Hno & c' & -> & Ht' & Hs)]; cbn [mbind option_bind].
  - destruct (t_alloc _ _ _ _ _ Ht) as (xs & Hl & HA & HU).
    destruct (find_ok (H0 := alloc_laws) e (alloc c) xs Hl None false) as [(q & v & Hq & Hkq & E & _)|(Hno & _)].
    2: { exfalso. rewrite <- HA in Hb. apply list_elem_of_fmap in Hb as ([q v] & -> & Hq). by apply (Hno q v Hq). }
    rewrite Z.eqb_refl. unfold rblist__find. rewrite E. cbn [mbind option_bind].
    destruct (alloc_remove_ok U k c A G xs q v Ht Hl Hq) as (c1 & A1 & -> & HA1 & Ht1 & Hs1 & Hg1). cbn [mbind option_bind].
    assert (filter (fun b => alloc_key b <> alloc_key (new e)) A ≡ₚ A1) as HAf.
    { rewrite HA1, filter_cons, decide_False by by intros []. rewrite list_filter_all; [done|]. apply Forall_forall. intros a Ha Hka.
      pose proof (lists_keys_nodup (H0 := alloc_laws) _ _ Hl) as Hd. unfold by_key in Hd. rewrite <- list_fmap_compose in Hd.
      change (NoDup (alloc_key ∘ snd <$> xs)) in Hd. rewrite list_fmap_compose in Hd. rewrite HA, HA1 in Hd. cbn in Hd.
      apply NoDup_cons in Hd as [Hd _]. apply Hd. apply list_elem_of_fmap. exists a. split; [|done]. rewrite Hka. exact Hkq. }
    destruct (alloc_add_ok U k c1 A1 G p raw e Ht1 Hp Hnew He) as [(b2 & Hb2 & Hk2 & _)|(_ & c2 & -> & Ht2 & Hs2)].
    + exfalso. rewrite <- HAf in Hb2. apply list_elem_of_filter in Hb2 as [? _]. done.
    + cbn [mbind option_bind]. eexists. split; [reflexivity|]. split; [apply add_total_ok; eapply tracked_perm; [|exact Ht2]; by rewrite HAf|].
      pose proof (same_else_trans _ _ _ Hs1 Hs2) as []. done.
  - assert ((0 =? - EEXIST) = false) as -> by done. cbn [mbind option_bind]. eexists. split; [reflexivity|].
    rewrite list_filter_all; [|by apply Forall_forall]. split; [by apply add_total_ok|]. by destruct Hs.
Qed.

(** A free put in its place, unless there is one with its time and pointer. *)
Definition added (b : perf_event_backup) (G G' : list perf_event_backup) : Prop :=
  (exists g, g ∈ G /\ gc_key g = gc_key b /\ G' = G) \/
  (exists G1 G2, G = G1 ++ G2 /\ G' = G1 ++ b :: G2 /\ forall g, g ∈ G -> gc_key g <> gc_key b).

Lemma gc_add_ok U k c A G p raw e : tracked U k c A G -> addr p -> p ∉ U -> en_is_alloc e = false -> en_is_free e = true ->
  exists rc c' G', gc_add (Some (p, raw)) e c = Some (rc, c') /\ added (new e) G G' /\ tracked (p :: U) k c' A G' /\ same_else c c'.
Proof.
  intros [Ta (ys & Hl & HG & HU) Tfa Tfg Tn Tm] Hp Hnew He1 He2. unfold gc_add.
  assert (p ∉ ys.*1) as Hpy by (intros Hin; by apply Hnew, HU).
  destruct (find_ok (H0 := gc_laws) e (gc_free c) ys Hl (Some (p, raw)) true) as [(q & b & Hq & Hk & _ & ->)|(Hno & _ & _ & Hadd)].
  - cbn. exists (- EEXIST), c, G. split; [by destruct c|]. split.
    { left. exists b. split; [rewrite <- HG; apply list_elem_of_fmap; by exists (q, b)|]. by split. }
    split; [|done]. apply (tracked_more U); [by right|]. split; try done. by exists ys.
  - destruct (Hadd p raw eq_refl Hp Hpy) as (l & y1 & y2 & -> & _ & -> & _ & _ & Hl2). cbn [mbind option_bind].
    assert (is_alloc (new e) = false) as H1 by done. assert (is_free (new e) = true) as H2 by done.
    eexists 0, _, (y1.*2 ++ new e :: y2.*2). split; [reflexivity|]. cbn [Z.eqb].
    split; [|split].
    + right. exists y1.*2, y2.*2. rewrite <- HG, fmap_app. split; [done|]. split; [done|]. intros g Hg Hk. rewrite <- fmap_app in Hg.
      apply list_elem_of_fmap in Hg as ([q v] & -> & Hq). by apply (Hno q v).
    + split; cbn [alloc gc_free stat with_free].
      * destruct Ta as (xs & H3 & H4 & H5). exists xs. split; [done|]. split; [done|]. intros a Ha. right. by apply H5.
      * exists (y1 ++ (p, new e) :: y2). split; [exact Hl2|]. split; [by rewrite fmap_app|].
        intros a. rewrite fmap_app, fmap_cons, <- Permutation_middle, <- fmap_app. intros [->|Ha]%elem_of_cons; [by left|right; by apply HU].
      * done.
      * intros b. rewrite <- Permutation_middle, <- fmap_app, HG. intros [->|Hb]%elem_of_cons; [done|by apply Tfg].
      * by rewrite count_free.
      * rewrite count_free by done. cbn [free_num]. rewrite Tm, u64_shift, <- HG, fmap_app, !length_app. cbn. f_equal. lia.
    + split; cbn; [done|done|]. by rewrite count_free.
Qed.

(** What a free, of [b], does. *)
Definition freed (b : perf_event_backup) (A G A' G' : list perf_event_backup) : Prop :=
  (exists a, frees (ptr b) (e_time (ev b)) a /\ A ≡ₚ a :: A' /\ G' = G) \/
  ((forall a, a ∈ A -> ~ frees (ptr b) (e_time (ev b)) a) /\
   exists G1, added b G G1 /\ collects (e_time (ev b)) A G1 A' G').

Lemma added_length b G G' : added b G G' -> (length G' <= S (length G))%nat.
Proof. intros [(g & _ & _ & ->)|(G1 & G2 & -> & -> & _)]; [lia|]. rewrite !length_app. cbn. lia. Qed.

Lemma sample_free_ok U k c A G p raw e : tracked U k c A G -> addr p -> p ∉ U -> en_is_alloc e = false -> en_is_free e = true ->
  Z.of_nat (length G) < 2 ^ 32 - 1 ->
  exists c' A' G', sample_free (Some (p, raw)) e c = Some c' /\ freed (new e) A G A' G' /\ tracked (p :: U) k c' A' G' /\
    lost_list c' = lost_list c /\ reports c' = reports c.
Proof.
  intros Ht Hp Hnew He1 He2 Hn. unfold sample_free.
  destruct (alloc_free_ok U k c A G e Ht) as [(q & b & c1 & A1 & -> & Hq & Hf & HA & E1 & Ht1 & Hs1 & _)|[-> Hno]]; cbn [mbind option_bind].
  - rewrite (proj2 (Z.eqb_neq _ _) Hq), E1. cbn [mbind option_bind]. eexists _, A1, G. split; [reflexivity|].
    split; [left; by exists b|]. split; [apply add_total_ok; eapply tracked_more; [|exact Ht1]; by right|]. by destruct Hs1.
  - cbn [Z.eqb]. destruct (gc_add_ok U k c A G p raw e Ht Hp Hnew He1 He2) as (rc & c1 & G1 & -> & Hadd & Ht1 & Hs1). cbn [mbind option_bind].
    pose proof (added_length _ _ _ Hadd) as Hlen. rewrite (gc_need_ok _ k c1 A G1 (en_event e) Ht1) by lia. cbn [mbind option_bind].
    case_bool_decide as Hov.
    + unfold gc_free_all. assert (size (contents (gc_free c1)) = length G1) as ->.
      { destruct (t_free _ _ _ _ _ Ht1) as (ys & Hl & HG & _). rewrite <- HG, length_fmap. by apply (contents_size (H0 := gc_laws)). }
      destruct (gc_loop_ok _ k (en_event e) (length G1) c1 A G1 Ht1) as (c2 & A2 & G2 & -> & Hc & Ht2 & Hs2); [done|lia|done|].
      cbn [mbind option_bind]. eexists _, A2, G2. split; [reflexivity|]. split; [right; split; [done|]; by exists G1|].
      split; [by apply add_total_ok|]. by pose proof (same_else_trans _ _ _ Hs1 Hs2) as [].
    + cbn [mbind option_bind]. eexists _, A, G1. split; [reflexivity|]. split; [right; split; [done|]; exists G1; split; [done|by constructor]|].
      split; [by apply add_total_ok|]. by destruct Hs1.
Qed.

(** ** Reports *)

(** All frees handled, the earliest first. *)
Inductive drains : list perf_event_backup -> list perf_event_backup -> list perf_event_backup -> Prop :=
  | drains_nil A : drains A [] A
  | drains_cons A g G A1 A' : collected A g A1 -> drains A1 G A' -> drains A (g :: G) A'.

Lemma collected_length A g A' : collected A g A' -> (length A' <= length A)%nat.
Proof. intros [(a & _ & ->)|[_ ->]]; cbn; lia. Qed.
Lemma drains_length A G A' : drains A G A' -> (length A' <= length A)%nat.
Proof. induction 1 as [|A g G A1 A' Hc _ IH]; [done|]. apply collected_length in Hc. lia. Qed.

Lemma collected_sub A g A' : collected A g A' -> forall b, b ∈ A' -> b ∈ A.
Proof. intros [(a & _ & Hp)|[_ ->]] b Hb; [rewrite Hp; by right|done]. Qed.
Lemma drains_sub A G A' : drains A G A' -> forall b, b ∈ A' -> b ∈ A.
Proof. induction 1 as [|A g G A1 A' Hc _ IH]; [done|]. intros b Hb. by eapply collected_sub, IH. Qed.

Lemma drain_ok U k : forall G c A fuel, tracked U k c A G -> (length G <= fuel)%nat -> Z.of_nat (length G) < 2 ^ 32 ->
  exists c' A', drain_free fuel c = Some c' /\ drains A G A' /\ tracked U k c' A' [] /\ same_else c c'.
Proof.
  induction G as [|g G IH]; intros c A fuel Ht Hf Hn; destruct (t_free _ _ _ _ _ Ht) as (ys & Hl & HG & _).
  - apply fmap_nil_inv in HG. subst ys. exists c, A.
    assert (drain_free fuel c = Some c) as -> by by destruct fuel; cbn [drain_free]; rewrite (lists_nonempty (H0 := gc_laws) _ _ Hl).
    split; [done|]. split; [constructor|]. by split.
  - destruct fuel as [|fuel]; cbn [length] in *; [lia|]. cbn [drain_free].
    assert (length ys = S (length G)) as Hlen by by rewrite <- (length_fmap snd ys), HG.
    rewrite (lists_nonempty (H0 := gc_laws) _ _ Hl) by lia. rewrite bool_decide_false by by intros ->.
    destruct (gc_first_ok U k c A G g Ht) as (c1 & A1 & -> & Hc & Ht1 & Hs1). cbn [mbind option_bind].
    destruct (IH c1 A1 fuel Ht1) as (c2 & A2 & -> & Hd & Ht2 & Hs2); [lia|lia|]. exists c2, A2. split; [done|].
    split; [by eapply drains_cons|]. split; [done|]. by eapply same_else_trans.
Qed.

(** What the leaks [bs] add under their stacks, with the memory for each. *)
Definition leak_amount (mem : Z * rb_node) (b : perf_event_backup) : amount :=
  Amount mem (e_stack (ev b)) (bytes_alloc b) (Some (if user cfg then e_pid (ev b) else 0)).
Fixpoint leak_amounts (mems : list (Z * rb_node)) (bs : list perf_event_backup) : list amount :=
  match mems, bs with
  | mem :: mems, b :: bs => if callchain b then leak_amount mem b :: leak_amounts mems bs else leak_amounts mems bs
  | _, _ => []
  end.

Lemma add_amounts_none l : foldl (fun s x => s ← s; add_value (Some (KeyValue.mem x)) (stack x) (add_word (bytes x) (second x)) s) None l = None.
Proof. by induction l. Qed.

Lemma collect_loop_ok : forall zs sorted fuel mems (pairs pairs' : option key_value_paires), lists (H0 := sorted_laws) sorted zs -> zs <> [] ->
  (length zs <= fuel)%nat -> Z.of_nat (length zs) < 2 ^ 32 ->
  (if pairs then (length zs <= length mems)%nat /\ add_amounts (leak_amounts mems zs.*2) pairs = Some pairs' else pairs' = None) ->
  collect_loop fuel mems pairs sorted = Some (zs.*2, pairs').
Proof.
  induction zs as [|[p b] zs IH]; intros sorted [|fuel] mems pairs pairs' Hl Hne Hf Hn Hp; cbn [length] in *; try lia; [done|done|].
  cbn [collect_loop]. rewrite (lists_first (H0 := sorted_laws) _ p b zs Hl). cbn [mbind option_bind].
  rewrite (proj2 (lists_lookup (H0 := sorted_laws) _ _ p b Hl)) by by left. cbn [mbind option_bind].
  destruct (remove_node_ok (H0 := sorted_laws) _ [] p b zs Hl) as (sorted' & Er & Hl'). cbn [app] in Hl'.
  assert (forall pairs1 : option key_value_paires, (if pairs1 then (length zs <= length (tail mems))%nat /\ add_amounts (leak_amounts (tail mems) zs.*2) pairs1 = Some pairs'
     else pairs' = None) ->
    (sorted ← rblist__remove_node p sorted;
     '(bs, pairs) ← (if rblist__empty sorted then Some ([], pairs1) else collect_loop fuel (tail mems) pairs1 sorted);
     Some (b :: bs, pairs)) = Some (b :: zs.*2, pairs')) as Hrest.
  { intros pairs1 Hp1. rewrite Er. cbn [mbind option_bind]. rewrite (lists_nonempty (H0 := sorted_laws) _ _ Hl') by lia.
    case_bool_decide as Hz; [subst zs|].
    - cbn. destruct pairs1 as [s|]; [|by subst]. destruct Hp1 as [_ Hp1]. destruct (tail mems); cbn in Hp1; by injection Hp1 as <-.
    - by rewrite (IH sorted' fuel (tail mems) pairs1 pairs' Hl') by (done || lia). }
  destruct pairs as [s|]; cbn [mbind option_bind].
  2: { by apply Hrest. }
  destruct Hp as [Hm Hp]. destruct mems as [|mem mems]; cbn [length] in Hm; [lia|]. cbn [head mbind option_bind tail] in *.
  cbn [fmap list_fmap leak_amounts snd] in Hp. unfold collect_leaked_bytes. destruct (callchain b) eqn:Hcc; cbn [mbind option_bind].
  - unfold add_amounts in Hp. cbn [foldl mbind option_bind] in Hp.
    match type of Hp with foldl _ ?o _ = _ => destruct o as [pairs1|] eqn:E end; [|by rewrite add_amounts_none in Hp].
    cbn [leak_amount KeyValue.mem stack bytes second] in E. rewrite E. cbn [mbind option_bind]. apply Hrest.
    destruct pairs1 as [s1|]; [split; [lia|done]|]. exfalso. revert E. unfold add_value, write_value.
    destruct (keyvalue_pairs_add_key _ _ _) as [[q [s2|]]|]; cbn; try done. destruct (contents _ !! q); cbn; [|done].
    by destruct (value _) as [|? [|]].
  - apply Hrest. split; [lia|done].
Qed.

(** There is memory for the report of [n] leaks. *)
Record enough (m : memory) (n : nat) : Prop := {
  en_array : m_arr m = true;
  en_apart : NoDup (m_nodes m).*1;
  en_addr : Forall (fun x => addr x.1) (m_nodes m);
  en_number : (n <= length (m_nodes m))%nat
}.
Definition pid_ok (b : perf_event_backup) : Prop := 0 <= e_pid (ev b) < 2 ^ 31.

(** A report of the allocations [A]: in the order of their times, one by one; or their bytes
    by stack. *)
Definition by_stack (m : memory) : bool := report_leaked_bytes cfg && m_kv m.
Definition leaks_reported (m : memory) (A : list perf_event_backup) (r : report) : Prop :=
  exists bs, bs ≡ₚ A /\ StronglySorted (fun a b => triple_lt (gc_key a) (gc_key b)) bs /\
    rp_leaks r = (if bool_decide (A = []) || by_stack m && negb (verbose cfg) then None else Some (Z.of_nat (length A), bs)) /\
    match rp_bytes r with
    | None => A = [] \/ by_stack m = false
    | Some vs => by_stack m = true /\ KeyValue.reports 16 (leak_amounts (m_nodes m) bs) vs /\
        StronglySorted (fun a b => first_word b <= first_word a) vs
    end.

Lemma leak_amounts_mem mems bs x : x ∈ leak_amounts mems bs -> KeyValue.mem x ∈ mems /\ exists b, b ∈ bs /\ second x = Some (if user cfg then e_pid (ev b) else 0).
Proof.
  revert bs. induction mems as [|mem mems IH]; intros [|b bs] Hx; cbn in Hx; try by apply elem_of_nil in Hx.
  assert (x = leak_amount mem b \/ x ∈ leak_amounts mems bs) as [->|Hx'] by (destruct (callchain b); [by apply elem_of_cons in Hx|by right]).
  - split; [by left|]. exists b. split; [by left|done].
  - destruct (IH bs Hx') as (H1 & b' & H2 & H3). split; [by right|]. exists b'. split; [by right|done].
Qed.
Lemma leak_amounts_nodup mems bs : NoDup mems.*1 -> NoDup (fst ∘ KeyValue.mem <$> leak_amounts mems bs).
Proof.
  revert bs. induction mems as [|mem mems IH]; intros [|b bs] Hd; cbn; try constructor. cbn in Hd. apply NoDup_cons in Hd as [Hn Hd].
  destruct (callchain b); [|by apply IH]. constructor; [|by apply IH]. intros Hin. apply Hn.
  apply list_elem_of_fmap in Hin as (x & Hx & Hin). apply leak_amounts_mem in Hin as [Hin _]. cbn in Hx. rewrite Hx. by apply list_elem_of_fmap_2.
Qed.
Lemma leak_amounts_length mems bs : (length (leak_amounts mems bs) <= length bs)%nat.
Proof. revert bs. induction mems as [|mem mems IH]; intros [|b bs]; cbn; try lia. specialize (IH bs). destruct (callchain b); cbn; lia. Qed.

Lemma leaks_ordered mems bs vs : (forall b, b ∈ bs -> pid_ok b) -> KeyValue.reports 16 (leak_amounts mems bs) vs ->
  orders __leak_cmp vs /\ forall a b, a ∈ vs -> b ∈ vs -> __leak_cmp a b <= 0 -> first_word b <= first_word a.
Proof.
  intros Hpid Hr. assert (forall kv, kv ∈ vs -> exists l q r, value kv = l :: q :: r /\ 0 <= q < 2 ^ 31) as Hv.
  { intros kv Hkv. destruct (re_sums _ _ _ Hr kv Hkv) as (Hne & _ & H1 & _ & H2). destruct (value kv) as [|l [|q r]]; try done.
    exists l, q, r. split; [done|]. destruct (last_is_Some (filter (fun x => stack x = kv_key kv) (leak_amounts mems bs))) as [_ Hlast].
    destruct (Hlast Hne) as [x Hx]. assert (x ∈ leak_amounts mems bs) as Hin.
    { apply last_Some_elem_of in Hx. by apply list_elem_of_filter in Hx as [_ Hx]. }
    apply leak_amounts_mem in Hin as (_ & b & Hb & Hs). specialize (H2 (if user cfg then e_pid (ev b) else 0)).
    rewrite fmap_last, Hx in H2. cbn in H2. rewrite Hs in H2. injection (H2 eq_refl) as ->.
    specialize (Hpid b Hb). unfold pid_ok in Hpid. destruct (user cfg); lia. }
  assert (forall a b, a ∈ vs -> b ∈ vs -> exists q q', 0 <= q < 2 ^ 31 /\ 0 <= q' < 2 ^ 31 /\ value a !! 1%nat = Some q /\ value b !! 1%nat = Some q' /\
    __leak_cmp a b = if first_word a <? first_word b then 1 else if first_word b <? first_word a then -1 else q - q') as Hc.
  { intros a b Ha Hb. destruct (Hv a Ha) as (l & q & r & Ea & Hq), (Hv b Hb) as (l' & q' & r' & Eb & Hq').
    exists q, q'. unfold __leak_cmp, first_word. rewrite Ea, Eb. cbn. rewrite s32_small by lia. done. }
  split; [split|].
  - intros a b c Ha Hb Hcl. destruct (Hc a b Ha Hb) as (q1 & q2 & ? & ? & E1 & E2 & ->), (Hc b c Hb Hcl) as (q2' & q3 & ? & ? & E2' & E3 & ->),
      (Hc a c Ha Hcl) as (q1' & q3' & ? & ? & E1' & E3' & ->). simplify_eq. repeat case_match; lia.
  - intros a b Ha Hb. destruct (Hc a b Ha Hb) as (q1 & q2 & ? & ? & E1 & E2 & ->), (Hc b a Hb Ha) as (q2' & q1' & ? & ? & E2' & E1' & ->).
    simplify_eq. repeat case_match; lia.
  - intros a b Ha Hb. destruct (Hc a b Ha Hb) as (q1 & q2 & ? & ? & E1 & E2 & ->). repeat case_match; lia.
Qed.

Lemma new_leaks_sorted : lists (H0 := sorted_laws) rblist__init [].
Proof. apply (init_lists (H0 := sorted_laws)). Qed.

(** The leaked bytes, from an empty list. *)
Lemma bytes_ok m bs : sorts qsort -> enough m (length bs) -> (forall b, b ∈ bs -> pid_ok b) -> Z.of_nat (length bs) < 2 ^ 32 ->
  exists s vs, add_amounts (leak_amounts (m_nodes m) bs) (Some (keyvalue_pairs_new 16)) = Some (Some s) /\
    keyvalue_pairs_sorted_foreach qsort (m_arr m) (Some s) __leak_cmp = Some vs /\
    KeyValue.reports 16 (leak_amounts (m_nodes m) bs) vs /\ StronglySorted (fun a b => first_word b <= first_word a) vs.
Proof.
  intros Hq [H1 H2 H3 H4] Hpid Hn. set (l := leak_amounts (m_nodes m) bs).
  assert (forall x, x ∈ l -> KeyValue.mem x ∈ m_nodes m /\ exists o, second x = Some o) as Hl.
  { intros x Hx. apply leak_amounts_mem in Hx as (Hx & b & _ & E). split; [done|]. by eexists. }
  destruct (amounts_added l (keyvalue_pairs_new 16) [] []) as (s & xs & E & Hs & Hxs & _ & Hsum).
  - apply Forall_forall. intros x Hx. destruct (Hl x Hx) as (_ & o & Ho). unfold fits. by rewrite Ho.
  - apply new_pairs_ok.
  - by apply leak_amounts_nodup.
  - apply Forall_forall. intros x Hx. rewrite Forall_forall in H3. by apply H3, Hl.
  - by intros a ?%elem_of_nil.
  - done.
  - change (value_size (keyvalue_pairs_new 16)) with 16 in Hs, Hsum. cbn [app] in Hsum.
    assert (KeyValue.reports 16 l xs.*2) as Hr by (rewrite <- Hs in *; by apply (listed_reports s)).
    assert (length xs <= length bs)%nat as Hlen.
    { pose proof (reports_length _ _ _ Hr) as Hlen. rewrite length_fmap in Hlen. pose proof (leak_amounts_length (m_nodes m) bs). fold l in H. lia. }
    exists s, (qsort __leak_cmp xs.*2). split; [exact E|]. unfold keyvalue_pairs_sorted_foreach. rewrite H1.
    split; [by rewrite (sorted_ok qsort __leak_cmp s xs 0 Hq Hxs) by lia|]. destruct (Hq __leak_cmp xs.*2) as [Hp Hsorted].
    destruct (leaks_ordered _ _ _ Hpid Hr) as [Ho Hw]. split; [by apply (reports_perm _ _ xs.*2)|].
    apply (sorted_weaken (fun a b => __leak_cmp a b <= 0) _ _ xs.*2); [intros a; by rewrite Hp|exact Hw|by apply Hsorted].
Qed.

Lemma report_ok m U k c A G : sorts qsort -> tracked U k c A G -> Z.of_nat (length A) < 2 ^ 32 -> Z.of_nat (length G) < 2 ^ 32 ->
  (by_stack m = true -> enough m (length A)) -> (forall b, b ∈ A -> pid_ok b) ->
  exists c' A' r, report_kmemleak m c = Some c' /\ drains A G A' /\ leaks_reported m A' r /\
    tracked U (k + Z.of_nat (length A')) c' [] [] /\ lost_list c' = lost_list c /\ reports c' = reports c ++ [r].
Proof.
  intros Hq Ht HnA HnG Hm Hpid. unfold report_kmemleak.
  assert (size (contents (gc_free c)) = length G) as ->.
  { destruct (t_free _ _ _ _ _ Ht) as (ys & Hl & HG & _). rewrite <- HG, length_fmap. by apply (contents_size (H0 := gc_laws)). }
  destruct (drain_ok U k G c A (length G) Ht) as (c1 & A' & -> & Hd & Ht1 & [Hl1 Hr1 _]); [done|done|]. cbn [mbind option_bind].
  pose proof (drains_length _ _ _ Hd) as HlenA. assert (forall b, b ∈ A' -> b ∈ A) as Hsub by by apply (drains_sub A G).
  destruct Ht1 as [(xs & Hl & HA & HU) Tf Ta Tg Tn Tm]. assert (length xs = length A') as Hlen by by rewrite <- HA, length_fmap.
  rewrite (lists_nonempty (H0 := alloc_laws) _ _ Hl) by lia. case_bool_decide as Hx.
  { subst xs. apply Permutation_nil_l in HA. subst A'. eexists _, [], (Report (report_kmemleak_stat c1) None None). split; [reflexivity|]. split; [done|]. split.
    { exists []. split; [done|]. split; [constructor|]. split; [by rewrite bool_decide_true|by left]. }
    split; [|split; [done|by cbn; rewrite Hr1]]. split; [by exists []|done|done|done|by rewrite Z.add_0_r|done]. }
  destruct (sorted_all (L1 := alloc_laws) (L2 := sorted_laws) (fun v => conj eq_refl eq_refl) xs (alloc c1) rblist__init)
    as (left & sorted & zs & -> & Hleft & Hz & Hperm); [exact Hl|apply new_leaks_sorted|done|lia| |].
  { pose proof (lists_keys_nodup (H0 := alloc_laws) _ _ Hl) as Hk. unfold by_key in Hk.
    apply (NoDup_fmap_1 (fun t : triple => (t.1.2, t.1.1, t.2))). rewrite <- !list_fmap_compose in *. exact Hk. }
  cbn [mbind option_bind]. assert (zs.*2 ≡ₚ A') as HzA by by rewrite Hperm. assert (length zs = length A') as Hlz by by rewrite Hperm.
  assert (zs <> []) as Hzne by (intros ->; apply Hx; destruct xs; cbn in *; [done|lia]).
  assert (A' <> []) as HAne by (intros ->; by destruct xs).
  rewrite (contents_size (H0 := sorted_laws) _ _ Hz). unfold rblist__nr_entries. rewrite (lists_nr (H0 := sorted_laws) _ _ Hz), u32_small by lia.
  assert (forall r, tracked U (k + Z.of_nat (length A')) (add_report r (with_alloc left (stat c1) c1)) [] []) as Hend.
  { intros r. split; cbn [alloc gc_free stat add_report with_alloc]; [|done|by intros b ?%elem_of_nil|done| |done].
    - exists []. split; [exact Hleft|]. split; [done|]. by intros a ?%elem_of_nil.
    - rewrite Tn. f_equal. cbn. lia. }
  assert (StronglySorted (fun a b => triple_lt (gc_key a) (gc_key b)) zs.*2) as Hzs by apply (keys_sorted (H0 := sorted_laws) sorted zs Hz).
  fold (by_stack m). destruct (by_stack m) eqn:Hb.
  - destruct (bytes_ok m zs.*2 Hq) as (s & vs & E1 & E2 & Hr & Hvs).
    { destruct (Hm eq_refl) as [M1 M2 M3 M4]. split; [done|done|done|]. rewrite length_fmap. lia. }
    { intros b. rewrite HzA. auto. } { by rewrite length_fmap, Hlz; lia. }
    rewrite (collect_loop_ok zs sorted (length zs) (m_nodes m) _ (Some s) Hz Hzne); [|done|lia|].
    2: { split; [|exact E1]. destruct (Hm eq_refl). lia. }
    cbn [mbind option_bind]. rewrite E2. cbn [mbind option_bind].
    set (r := Report (report_kmemleak_stat c1) (if verbose cfg then Some (Z.of_nat (length A'), zs.*2) else None) (Some vs)).
    exists (add_report r (with_alloc left (stat c1) c1)), A', r. split; [by cbn; rewrite Hlz; destruct (verbose cfg)|]. split; [done|]. split; [|split; [apply Hend|split; [exact Hl1|by cbn; rewrite Hr1]]].
    exists zs.*2. split; [done|]. split; [done|]. cbn [rp_leaks rp_bytes]. rewrite (bool_decide_false (A' = [])) by done. rewrite Hb.
    split; [by destruct (verbose cfg)|]. done.
  - rewrite (collect_loop_ok zs sorted (length zs) (m_nodes m) None None Hz Hzne); [|done|lia|done].
    cbn [mbind option_bind]. set (r := Report (report_kmemleak_stat c1) (Some (Z.of_nat (length A'), zs.*2)) None).
    exists (add_report r (with_alloc left (stat c1) c1)), A', r.
    split; [by cbn; rewrite Hlz|]. split; [done|]. split; [|split; [apply Hend|split; [exact Hl1|by cbn; rewrite Hr1]]].
    exists zs.*2. split; [done|]. split; [done|]. cbn [rp_leaks rp_bytes]. rewrite (bool_decide_false (A' = [])) by done. rewrite Hb. cbn [orb andb].
    split; [done|by right].
Qed.

(** What is known of a sample: its attribute, and whether that is of an allocation. *)
Definition sample_tp (config_of : Z -> option Z) (e : event) : option (bool * tp) :=
  config ← config_of (e_id e);
  match find_tp config (tp_alloc cfg) with
  | Some t => Some (true, t)
  | None => t ← find_tp config (tp_free cfg); Some (false, t)
  end.
Definition sampled (config_of : Z -> option Z) (e : event) : option perf_event_backup :=
  '(a, t) ← sample_tp config_of e;
  Some (Backup (u64 (tp_get_mem_ptr t (e_raw e)))
          (if (a : bool) && mem_size_prog t then u64 (tp_get_mem_size t (e_raw e)) else 0) a (negb a)
          (a && env_callchain cfg || tp_stack t) e).

(** The step of a sample. *)
Definition step (b : perf_event_backup) (A G A' G' : list perf_event_backup) : Prop :=
  if is_alloc b then A' = b :: filter (fun a => alloc_key a <> alloc_key b) A /\ G' = G else freed b A G A' G'.

Lemma leak_sample_ok config_of m U k c A G p raw e b : tracked U k c A G -> lost_list c = [] -> addr p -> p ∉ U ->
  sampled config_of e = Some b -> Z.of_nat (length G) < 2 ^ 32 - 1 ->
  exists c' A' G', kmemleak_sample config_of (Some (p, raw)) m e c = Some c' /\ step b A G A' G' /\
    tracked (p :: U) k c' A' G' /\ lost_list c' = [] /\ reports c' = reports c.
Proof.
  intros Ht Hlost Hp Hnew Hb Hn. unfold sampled, sample_tp in Hb. unfold kmemleak_sample.
  destruct (config_of (e_id e)) as [config|]; [|done]. cbn [mbind option_bind] in Hb.
  assert (kmemleak_event_lost m e c = Some (false, c)) as -> by (unfold kmemleak_event_lost; rewrite Hlost; cbn; rewrite <- Hlost; by destruct c).
  destruct (find_tp config (tp_alloc cfg)) as [t|].
  - rewrite bool_decide_true by done. cbn [mbind option_bind] in *. injection Hb as <-. cbn [andb negb orb] in *.
    match goal with |- context [sample_alloc _ ?x _] => destruct (sample_alloc_ok U k c A G p raw x Ht Hp Hnew eq_refl) as (c' & E & Ht' & H1 & H2) end.
    eexists c', _, G. split; [exact E|]. split; [by split|]. split; [exact Ht'|]. split; congruence.
  - rewrite bool_decide_false by by intros [? ?]. destruct (find_tp config (tp_free cfg)) as [t|]; [|done]. cbn [mbind option_bind] in *.
    injection Hb as <-. cbn [andb negb orb] in *.
    match goal with |- context [sample_free _ ?x _] =>
      destruct (sample_free_ok U k c A G p raw x Ht Hp Hnew eq_refl eq_refl Hn) as (c' & A' & G' & E & Hf & Ht' & H1 & H2) end.
    exists c', A', G'. split; [exact E|]. split; [exact Hf|]. split; [exact Ht'|]. split; congruence.
Qed.

(** ** Lost events *)

Lemma gc_exit_loop_ok U k A : forall G c ys fuel, tracked U k c A G -> gc_listed (gc_free c) ys -> ys.*2 = G -> (length G < fuel)%nat ->
  exists c', gc_exit_loop fuel (first0 ys.*1) c = Some c' /\ tracked U k c' A [] /\ same_else c c'.
Proof.
  induction G as [|g G IH]; intros c ys [|fuel] Ht Hl HG Hf; cbn [length] in Hf; try lia.
  { apply fmap_nil_inv in HG. subst ys. by exists c. }
  destruct ys as [|[p b] ys]; [done|]. injection HG as -> HG. change (first0 ((p, g) :: ys).*1) with p. cbn [gc_exit_loop].
  rewrite (proj2 (Z.eqb_neq _ _) (lists_pos (H0 := gc_laws) _ _ p g Hl ltac:(by left))).
  rewrite (lists_next (H0 := gc_laws) _ [] p g ys Hl). cbn [mbind option_bind].
  destruct (gc_remove_ok U k c A G ys p g Ht Hl HG) as (c1 & E1 & Ht1 & Hs1). rewrite E1. cbn [mbind option_bind].
  assert (gc_listed (gc_free c1) ys) as Hl1.
  { unfold gc_remove in E1. rewrite (proj2 (lists_lookup (H0 := gc_laws) _ _ p g Hl)) in E1 by by left. cbn [mbind option_bind] in E1.
    destruct (remove_node_ok (H0 := gc_laws) _ [] p g ys Hl) as (l & El & Hl2). rewrite El in E1. by injection E1 as <-. }
  destruct (IH c1 ys fuel Ht1 Hl1 HG) as (c2 & -> & Ht2 & Hs2); [lia|]. exists c2. split; [done|]. split; [done|]. by eapply same_else_trans.
Qed.

Lemma gc_exit_ok U k c A G : tracked U k c A G -> exists c', gc_exit c = Some c' /\ tracked U k c' A [] /\ same_else c c'.
Proof.
  intros Ht. destruct (t_free _ _ _ _ _ Ht) as (ys & Hl & HG & _). unfold gc_exit.
  rewrite (lists_size (H0 := gc_laws) _ _ Hl), (lists_leftmost (H0 := gc_laws) _ _ Hl).
  apply (gc_exit_loop_ok U k A G); [done|done|done|]. rewrite <- HG, length_fmap. lia.
Qed.

(** What is asked of a state for a report. *)
Record reportable (m : memory) (A G : list perf_event_backup) : Prop := {
  ra_alloc : Z.of_nat (length A) < 2 ^ 32;
  ra_free : Z.of_nat (length G) < 2 ^ 32;
  ra_mem : by_stack m = true -> enough m (length A);
  ra_pid : forall b, b ∈ A -> pid_ok b
}.
Lemma reportable_nil m A G : reportable m A G -> reportable m [] [].
Proof. intros [H1 H2 H3 H4]. split; [done|done| |by intros ? ?%elem_of_nil]. intros Hb. destruct (H3 Hb). split; [done|done|done|cbn; lia]. Qed.

(** All that is kept is given up: what leaked so far is reported, if something may have. *)
Definition reclaimed (m : memory) (U : list Z) (k : Z) (c : kmemleak_ctx) (A G : list perf_event_backup) (c' : kmemleak_ctx) : Prop :=
  if decide (A = []) then tracked U k c' [] [] /\ reports c' = reports c
  else exists A' r, drains A G A' /\ leaks_reported m A' r /\ reports c' = reports c ++ [r] /\
    tracked U (k + Z.of_nat (length A')) c' [] [].

Lemma leak_reclaim_ok m U k c A G : sorts qsort -> tracked U k c A G -> reportable m A G ->
  exists c', lost_reclaim m c = Some c' /\ reclaimed m U k c A G c' /\ lost_list c' = lost_list c.
Proof.
  intros Hq Ht [H1 H2 H3 H4]. unfold lost_reclaim, reclaimed. destruct (t_alloc _ _ _ _ _ Ht) as (xs & Hl & HA & _).
  assert (length xs = length A) as Hlen by by rewrite <- HA, length_fmap.
  rewrite (lists_nonempty (H0 := alloc_laws) _ _ Hl) by lia. destruct (decide (A = [])) as [->|Hne].
  - destruct xs; [|done]. rewrite bool_decide_true by done. cbn [negb].
    destruct (gc_exit_ok U k c [] G Ht) as (c' & -> & Ht' & [Hs1 Hs2 _]). by exists c'.
  - rewrite bool_decide_false by (intros ->; by destruct A). cbn [negb].
    destruct (report_ok m U k c A G Hq Ht H1 H2 H3 H4) as (c' & A' & r & E & Hd & Hr & Ht' & Hl' & Hr'). exists c'. split; [done|].
    split; [|done]. by exists A', r.
Qed.

(** The ranges an event at [t] goes past or into, up to the first it is in. *)
Fixpoint met (t : Z) (l : list kmemleak_lost_node) : list kmemleak_lost_node :=
  match l with
  | [] => []
  | x :: l' => if t <=? start_time x then [] else if t <? end_time x then [x] else x :: met t l'
  end.
Definition inside (t : Z) (x : kmemleak_lost_node) : Prop := start_time x < t < end_time x.
#[local] Instance inside_dec t x : Decision (inside t x) := _.
Definition news (l : list kmemleak_lost_node) : Prop := Exists (fun x => reclaim x = false) l.
#[local] Instance news_dec l : Decision (news l).
Proof. apply Exists_dec. intros x. apply _. Defined.

Lemma reclaimed_lost m U k c A G c' l : reclaimed m U k c A G c' -> reclaimed m U k c A G (with_lost l c').
Proof.
  unfold reclaimed. case_decide.
  - intros [[] ?]. done.
  - intros (A' & r & H1 & H2 & H3 & []). by exists A', r.
Qed.

(** Giving up again changes nothing. *)
Lemma reclaimed_again m U k c A G c1 : reclaimed m U k c A G c1 ->
  exists k1, tracked U k1 c1 [] [] /\ forall c2, reclaimed m U k1 c1 [] [] c2 -> reclaimed m U k c A G c2.
Proof.
  assert (forall k c1 c2, reclaimed m U k c1 [] [] c2 -> tracked U k c2 [] [] /\ reports c2 = reports c1) as Hnil.
  { intros k' c2 c3. unfold reclaimed. by case_decide. }
  unfold reclaimed at 1 3. destruct (decide (A = [])).
  - intros [Ht Hr]. exists k. split; [done|]. intros c2 [Ht2 Hr2]%Hnil. split; [done|congruence].
  - intros (A' & r & H1 & H2 & H3 & Ht). exists (k + Z.of_nat (length A')). split; [done|]. intros c2 [Ht2 Hr2]%Hnil. exists A', r.
    do 2 (split; [done|]). split; [congruence|done].
Qed.

Definition lost_bounds (x : kmemleak_lost_node) : Z * Z := (start_time x, end_time x).
Lemma event_lost_ok m U e : sorts qsort -> forall l k c A G, reportable m A G -> tracked U k c A G ->
  StronglySorted (fun x y => start_time x <= start_time y) l ->
  exists l' c', event_lost_loop m e l c = Some (bool_decide (Exists (inside (e_time e)) l), l', c') /\
    (if decide (news (met (e_time e) l)) then reclaimed m U k c A G c' else c' = c) /\
    exists l1 l2, l = l1 ++ l2 /\ Forall (fun x => start_time x < e_time e /\ end_time x <= e_time e) l1 /\
      (lost_bounds <$> l') = (lost_bounds <$> l2).
Proof.
  intros Hq. induction l as [|x l IH]; intros k c A G Hra Ht Hs; [exists [], c; split; [done|]; split; [done|]; by exists [], []|].
  inversion Hs as [|? ? Hs' Hx]; subst. cbn [event_lost_loop met]. rewrite Forall_forall in Hx. destruct (Z.leb_spec (e_time e) (start_time x)) as [Hle|Hlt].
  { exists (x :: l), c. split; [|split; [by destruct (decide (news [])) as [Hn|]; [inversion Hn|]|exists [], (x :: l); by split]].
    rewrite bool_decide_false; [done|]. unfold inside. rewrite Exists_cons, Exists_exists. intros [Hin|(y & Hy & Hin)]; [lia|].
    specialize (Hx y Hy). cbn in Hx. lia. }
  assert (exists c1, (if reclaim x then Some c else lost_reclaim m c) = Some c1 /\
    if reclaim x then c1 = c else reclaimed m U k c A G c1) as (c1 & -> & Hc1).
  { destruct (reclaim x); [by exists c|]. destruct (leak_reclaim_ok m U k c A G Hq Ht Hra) as (c1 & E & Hc1 & _). by exists c1. }
  cbn [mbind option_bind]. destruct (Z.ltb_spec (e_time e) (end_time x)) as [Hend|Hend].
  { eexists _, c1. split; [rewrite bool_decide_true; [reflexivity|left; by unfold inside]|]. split; [|by exists [], (x :: l)].
    destruct (reclaim x) eqn:Hrx; destruct (decide (news [x])) as [Hn|Hn]; try done.
    - apply Exists_cons in Hn as [Hn|Hn]; [congruence|inversion Hn].
    - exfalso. apply Hn. by left. }
  assert (bool_decide (Exists (inside (e_time e)) (x :: l)) = bool_decide (Exists (inside (e_time e)) l)) as ->.
  { apply bool_decide_ext. rewrite Exists_cons. unfold inside at 1. split; [intros [?|?]; [lia|done]|by right]. }
  destruct (reclaim x) eqn:Hrx.
  - subst c1. destruct (IH k c A G Hra Ht Hs') as (l' & c' & -> & Hc' & l1 & l2 & -> & Hl1 & Hl2). exists l', c'. split; [done|]. split.
    + rewrite (decide_ext _ (news (met (e_time e) (l1 ++ l2)))); [done|]. unfold news at 1. rewrite Exists_cons. split; [by intros [?|?]; [congruence|]|by right].
    + exists (x :: l1), l2. split; [done|]. split; [by constructor|done].
  - destruct (reclaimed_again m U k c A G c1 Hc1) as (k1 & Ht1 & Hagain).
    destruct (IH k1 c1 [] [] (reportable_nil _ _ _ Hra) Ht1 Hs') as (l' & c' & -> & Hc' & l1 & l2 & -> & Hl1 & Hl2). exists l', c'. split; [done|]. split.
    + rewrite decide_True by by left. destruct (decide (news (met (e_time e) (l1 ++ l2)))); [by apply Hagain|by subst].
    + exists (x :: l1), l2. split; [done|]. split; [by constructor|done].
Qed.
End kmemleak.
