(* ===== verification/KmemleakSafe.v ===== *)
(** * Which memory leaked (kmemleak.c)

    What the profiler reports, for events that arrive in the order of their times and for
    events that are late by at most a second; what lost events do; and what the counts of
    the lists are. *)

From stdpp Require Import sorting.
From Stdlib Require Import Sorted.
From S2P Require Import Prelude RbTree RbShape RbRep RbWalk RbMain RbList RbMap RbReport KeyValue Kmemleak.

Section leaks.
Context {R : Type}.
Notation backup := (perf_event_backup (R := R)).
Notation time b := (e_time (ev b)).
Implicit Types (b a f g : backup) (bs A G : list backup).

(** ** Sequences of samples *)

Inductive reaches : list backup -> list backup -> list backup -> Prop :=
  | reaches_nil : reaches [] [] []
  | reaches_snoc bs b A G A' G' : reaches bs A G -> step b A G A' G' -> reaches (bs ++ [b]) A' G'.

Lemma collects_keeps t (I : list backup -> list backup -> Prop) :
  (forall A g G A1, overdue t (g :: G) -> I A (g :: G) -> collected A g A1 -> I A1 G) ->
  forall A G A' G', collects t A G A' G' -> I A G -> I A' G'.
Proof. intros HI A G A' G' Hc. induction Hc as [|A g G A1 A' G' Ho Hc _ IH]; [done|]. intros H. by apply IH, (HI A g). Qed.

Lemma drains_keeps (I : list backup -> list backup -> Prop) :
  (forall A g G A1, I A (g :: G) -> collected A g A1 -> I A1 G) -> forall A G A', drains A G A' -> I A G -> I A' [].
Proof. intros HI A G A' Hd. induction Hd as [|A g G A1 A' Hc _ IH]; [done|]. intros H. by apply IH, (HI A g). Qed.

Lemma added_in b G G' g : added b G G' -> g ∈ G' -> g = b \/ g ∈ G.
Proof.
  intros [(x & _ & _ & ->)|(G1 & G2 & -> & -> & _)] Hg; [by right|]. rewrite <- Permutation_middle in Hg.
  apply elem_of_cons in Hg as [->|Hg]; [by left|by right].
Qed.

Lemma collected_in A g A' a : collected A g A' -> a ∈ A' -> a ∈ A.
Proof. intros. by eapply collected_sub. Qed.

(** ** Events in order *)

(** The allocations that are not freed, and when events make sense: a pointer is not
    allocated again before it is freed, and what happens with it has ascending times. *)
Definition live (bs : list backup) : list backup :=
  foldl (fun l b => if is_alloc b then b :: l else filter (fun a => ptr a <> ptr b) l) [] bs.
Definition in_order bs : Prop := StronglySorted (fun x y => ptr x = ptr y -> time x < time y) bs.
Definition no_reuse bs : Prop := forall bs1 b bs2, bs = bs1 ++ b :: bs2 -> is_alloc b = true -> forall a, a ∈ live bs1 -> ptr a <> ptr b.

Lemma live_snoc bs b : live (bs ++ [b]) = if is_alloc b then b :: live bs else filter (fun a => ptr a <> ptr b) (live bs).
Proof. unfold live. by rewrite foldl_snoc. Qed.

Lemma live_in bs a : a ∈ live bs -> a ∈ bs /\ is_alloc a = true.
Proof.
  induction bs as [|b bs IH] using rev_ind; [by intros ?%elem_of_nil|]. rewrite live_snoc, elem_of_app. destruct (is_alloc b) eqn:Hb.
  - intros [->|Ha]%elem_of_cons; [split; [right; by left|done]|]. destruct (IH Ha). by split; [left|].
  - intros [_ Ha]%list_elem_of_filter. destruct (IH Ha). by split; [left|].
Qed.

Record ordered_inv (bs A G : list backup) : Prop := {
  oi_live : A ≡ₚ live bs;
  oi_once : NoDup (ptr <$> A);
  oi_frees : forall g, g ∈ G -> g ∈ bs;
  oi_later : forall g a, g ∈ G -> a ∈ A -> ptr a = ptr g -> time g < time a
}.

Lemma collected_none bs A g G A1 : ordered_inv bs A (g :: G) -> collected A g A1 -> A1 = A.
Proof.
  intros [_ _ _ Hl] [(a & [Hp Ht] & HA)|[_ ->]]; [|done]. assert (a ∈ A) as Ha by (rewrite HA; by left).
  specialize (Hl g a ltac:(by left) Ha Hp). lia.
Qed.

Lemma ordered_collected bs A g G A1 : ordered_inv bs A (g :: G) -> collected A g A1 -> ordered_inv bs A1 G.
Proof.
  intros Hi Hc. rewrite (collected_none bs A g G A1 Hi Hc). destruct Hi as [H1 H2 H3 H4]. split; [done|done| |].
  - intros x Hx. apply H3. by right.
  - intros x a Hx. apply H4. by right.
Qed.

Lemma ordered_step bs b A G A' G' : in_order (bs ++ [b]) -> no_reuse (bs ++ [b]) -> ordered_inv bs A G -> step b A G A' G' ->
  ordered_inv (bs ++ [b]) A' G'.
Proof.
  intros Ho Hr [H1 H2 H3 H4] Hs. assert (forall x, x ∈ bs -> ptr x = ptr b -> time x < time b) as Hlt.
  { intros x Hx. apply sorted_app in Ho as (_ & _ & Ho). apply (Ho x b Hx). by left. }
  assert (forall a, a ∈ A -> a ∈ bs) as Hin by (intros a; rewrite H1; intros Ha; by apply live_in).
  unfold step in Hs. destruct (is_alloc b) eqn:Hb.
  - destruct Hs as [-> ->]. specialize (Hr bs b [] eq_refl Hb).
    assert (forall a, a ∈ A -> ptr a <> ptr b) as Hne by (intros a; rewrite H1; apply Hr).
    rewrite list_filter_all; [|apply Forall_forall; intros a Ha Hk; injection Hk as Hk; by apply (Hne a)]. split.
    + by rewrite live_snoc, Hb, H1.
    + cbn. constructor; [|done]. intros (a & Hk & Ha)%list_elem_of_fmap. by apply (Hne a).
    + intros g Hg. apply elem_of_app. left. by apply H3.
    + intros g a Hg [->|Ha]%elem_of_cons Hp; [apply Hlt; [by apply H3|done]|by apply H4].
  - assert (forall g, g ∈ G -> g ∈ bs ++ [b]) as Hg by (intros g Hg; apply elem_of_app; left; by apply H3).
    destruct Hs as [(a & [Hp Ht] & HA & ->)|(Hno & G1 & Ha & Hc)].
    + assert (A' ≡ₚ filter (fun x => ptr x <> ptr b) A) as HA'.
      { rewrite HA in H2. cbn in H2. apply NoDup_cons in H2 as [Hn _]. rewrite HA, filter_cons, decide_False by by intros [].
        rewrite list_filter_all; [done|]. apply Forall_forall. intros x Hx Hpx. apply Hn. apply list_elem_of_fmap. exists x. by rewrite Hp. }
      assert (forall x, x ∈ A' -> x ∈ A) as Hsub by (intros x Hx; rewrite HA; by right). split; [|by rewrite HA in H2; cbn in H2; apply NoDup_cons in H2 as [_ ?]|done|].
      * by rewrite live_snoc, Hb, HA', H1.
      * intros g x Hgg Hx. apply H4; [done|by apply Hsub].
    + assert (ordered_inv (bs ++ [b]) A G1) as Hi; [|eapply (collects_keeps _ (ordered_inv (bs ++ [b]))); [|exact Hc|exact Hi]; intros; by eapply ordered_collected].
      assert (forall x, x ∈ A -> ptr x <> ptr b) as Hne.
      { intros x Hx Hp. apply (Hno x Hx). split; [done|]. specialize (Hlt x (Hin x Hx) Hp). lia. }
      split; [|done| |].
      * rewrite live_snoc, Hb, H1. rewrite list_filter_all; [done|]. apply Forall_forall. intros x Hx. apply Hne. by rewrite H1.
      * intros g Hgg. destruct (added_in b G G1 g Ha Hgg) as [->|?]; [apply elem_of_app; right; by left|by apply Hg].
      * intros g x Hgg Hx Hp. destruct (added_in b G G1 g Ha Hgg) as [->|?]; [by destruct (Hne x Hx)|by apply H4].
Qed.

Lemma ordered_reaches bs A G : reaches bs A G -> in_order bs -> no_reuse bs -> ordered_inv bs A G.
Proof.
  intros Hs. induction Hs as [|bs b A G A' G' Hs IH Hst]; intros Ho Hr.
  { split; [done|constructor|by intros ? ?%elem_of_nil|by intros ?? ?%elem_of_nil]. }
  eapply ordered_step; [done|done| |exact Hst]. apply IH.
  - apply sorted_app in Ho as (Ho & _). exact Ho.
  - intros bs1 x bs2 ->. apply (Hr bs1 x (bs2 ++ [b])). by rewrite <- app_assoc.
Qed.

Lemma ordered_leaks bs A G A' : reaches bs A G -> drains A G A' -> in_order bs -> no_reuse bs -> A' ≡ₚ live bs.
Proof.
  intros Hs Hd Ho Hr. eapply oi_live, (drains_keeps (ordered_inv bs)); [|exact Hd|by apply ordered_reaches].
  intros. by eapply ordered_collected.
Qed.

(** ** Events that are late

    Each pointer is used once, and an event arrives at most a second late: then a free that
    comes before its allocation waits long enough. *)

Definition is_late bs : Prop := StronglySorted (fun x y => time x <= time y + NSEC_PER_SEC) bs.
Record used_once bs : Prop := {
  uo_alloc : NoDup (ptr <$> filter (fun b => is_alloc b = true) bs);
  uo_free : NoDup (ptr <$> filter (fun b => is_alloc b = false) bs);
  uo_order : forall a f, a ∈ bs -> f ∈ bs -> is_alloc a = true -> is_alloc f = false -> ptr a = ptr f -> time a <= time f
}.
(** The allocations without a free. *)
Definition unfreed bs : list backup :=
  filter (fun a => Forall (fun f => is_alloc f = true \/ ptr f <> ptr a) bs) (filter (fun b => is_alloc b = true) bs).

Lemma once_same bs (d : bool) x y : NoDup (ptr <$> filter (fun b => is_alloc b = d) bs) -> x ∈ bs -> y ∈ bs ->
  is_alloc x = d -> is_alloc y = d -> ptr x = ptr y -> x = y.
Proof.
  intros Hd Hx Hy Hxd Hyd Hp. assert (x ∈ filter (fun b => is_alloc b = d) bs) as Hx' by by apply list_elem_of_filter.
  assert (y ∈ filter (fun b => is_alloc b = d) bs) as Hy' by by apply list_elem_of_filter.
  apply list_elem_of_lookup in Hx' as [i Hi], Hy' as [j Hj]. assert (i = j) as <-; [|congruence].
  eapply NoDup_lookup; [exact Hd| |]; rewrite list_lookup_fmap; [by rewrite Hi|rewrite Hj; cbn; by rewrite Hp].
Qed.

(** The last event is new. *)
Lemma once_last bs (d : bool) b x : NoDup (ptr <$> filter (fun b => is_alloc b = d) (bs ++ [b])) -> is_alloc b = d ->
  x ∈ bs -> is_alloc x = d -> ptr x <> ptr b.
Proof.
  intros Hd Hb Hx Hxd Hp. rewrite filter_app, filter_cons, decide_True, filter_nil, fmap_app, NoDup_app in Hd by done.
  destruct Hd as (_ & Hd & _). apply (Hd (ptr x)).
  - apply list_elem_of_fmap. exists x. split; [done|]. by apply list_elem_of_filter.
  - rewrite Hp. by left.
Qed.

Lemma once_prefix bs b : used_once (bs ++ [b]) -> used_once bs.
Proof.
  intros [H1 H2 H3]. rewrite filter_app, fmap_app, NoDup_app in H1, H2. split; [by apply H1|by apply H2|].
  intros a f Ha Hf. apply H3; apply elem_of_app; by left.
Qed.

Record matched (bs A G : list backup) : Prop := {
  ma_alloc : forall a, a ∈ A -> a ∈ bs /\ is_alloc a = true;
  ma_free : forall g, g ∈ G -> g ∈ bs /\ is_alloc g = false;
  ma_kept : forall a, a ∈ bs -> is_alloc a = true -> a ∈ A \/ exists f, f ∈ bs /\ is_alloc f = false /\ ptr f = ptr a;
  ma_waits : forall a f, a ∈ A -> f ∈ bs -> is_alloc f = false -> ptr f = ptr a -> f ∈ G;
  ma_once : NoDup A
}.
(** A free without its allocation waits, unless an event a second later was seen. *)
Definition waiting (bs G : list backup) : Prop := forall f, f ∈ bs -> is_alloc f = false ->
  (forall a, a ∈ bs -> is_alloc a = true -> ptr a <> ptr f) -> f ∈ G \/ exists e, e ∈ bs /\ time f + NSEC_PER_SEC < time e.

(** A free is handled. *)
Lemma late_handled bs A g G A1 : used_once bs -> matched bs A (g :: G) -> collected A g A1 -> matched bs A1 G.
Proof.
  intros Hu [H1 H2 H3 H4 H6] Hc. destruct (H2 g ltac:(by left)) as [Hg Hgf].
  assert (forall a, a ∈ A1 -> a ∈ A) as Hsub by (intros a; by eapply collected_in).
  assert (forall a, a ∈ A1 -> ptr g <> ptr a) as Hne.
  { intros a Ha Hp. destruct (H1 a (Hsub a Ha)) as [Hab Haa]. destruct Hc as [(x & [Hx Ht] & HA)|[Hno ->]].
    - assert (a = x) as ->.
      { apply (once_same bs true); [apply Hu|done|apply H1; rewrite HA; by left|done|apply H1; rewrite HA; by left|congruence]. }
      rewrite HA in H6. by apply NoDup_cons in H6 as [? _].
    - apply (Hno a Ha). split; [done|]. by apply (uo_order _ Hu). }
  split.
  - intros a Ha. by apply H1, Hsub.
  - intros x Hx. apply H2. by right.
  - intros a Ha Haa. destruct (H3 a Ha Haa) as [HA|?]; [|by right]. destruct Hc as [(x & [Hx Ht] & Hperm)|[_ ->]]; [|by left].
    rewrite Hperm in HA. apply elem_of_cons in HA as [->|HA]; [|by left]. right. exists g. by rewrite Hx.
  - intros a f Ha Hf Hff Hp. specialize (H4 a f (Hsub a Ha) Hf Hff Hp).
    apply elem_of_cons in H4 as [->|?]; [by destruct (Hne a Ha)|done].
  - destruct Hc as [(x & _ & Hperm)|[_ ->]]; [|done]. rewrite Hperm in H6. by apply NoDup_cons in H6 as [_ ?].
Qed.

Lemma late_collects bs b A G A' G' : used_once bs -> b ∈ bs -> collects (time b) A G A' G' ->
  matched bs A G /\ waiting bs G -> matched bs A' G' /\ waiting bs G'.
Proof.
  intros Hu Hb Hc. revert Hc. apply (collects_keeps _ (fun A G => matched bs A G /\ waiting bs G)). intros A0 g G0 A1 Ho [Hm Hw] Hc.
  split; [by apply (late_handled bs A0 g G0 A1)|]. intros f Hf Hff Hno.
  destruct (Hw f Hf Hff Hno) as [[->|?]%elem_of_cons|?]; [|by left|by right]. right. exists b. split; [done|]. by destruct G0.
Qed.

Lemma late_step bs b A G A' G' : is_late (bs ++ [b]) -> used_once (bs ++ [b]) -> matched bs A G /\ waiting bs G -> step b A G A' G' ->
  matched (bs ++ [b]) A' G' /\ waiting (bs ++ [b]) G'.
Proof.
  intros Hl Hu Hi Hs. assert (forall x, x ∈ bs -> x ∈ bs ++ [b]) as Hold by (intros; apply elem_of_app; by left).
  assert (b ∈ bs ++ [b]) as Hbin by (apply elem_of_app; right; by left).
  assert (forall x, x ∈ bs ++ [b] -> x = b \/ x ∈ bs) as Hcase by (intros x [?|[->|?%elem_of_nil]%elem_of_cons]%elem_of_app; [by right|by left|done]).
  assert (forall x, x ∈ bs -> time x <= time b + NSEC_PER_SEC) as Hlt.
  { intros x Hx. apply sorted_app in Hl as (_ & _ & Hl). apply (Hl x b Hx). by left. }
  destruct Hi as [[H1 H2 H3 H4 H6] H5]. unfold step in Hs. destruct (is_alloc b) eqn:Hb.
  - destruct Hs as [-> ->]. pose proof (fun x => once_last bs true b x (uo_alloc _ Hu) Hb) as Hnew.
    assert (filter (fun a => alloc_key a <> alloc_key b) A = A) as ->.
    { apply list_filter_all, Forall_forall. intros a Ha Hk. injection Hk as Hk. destruct (H1 a Ha). by apply (Hnew a). }
    split; [split|].
    + intros a [->|Ha]%elem_of_cons; [done|]. destruct (H1 a Ha). auto.
    + intros g Hg. destruct (H2 g Hg). auto.
    + intros a Ha Haa. destruct (Hcase a Ha) as [->|Ha']; [left; by left|].
      destruct (H3 a Ha' Haa) as [?|(f & Hf & Hff & Hp)]; [left; by right|right; exists f; auto].
    + intros a f Ha Hf Hff Hp. destruct (Hcase f Hf) as [->|Hf']; [congruence|]. apply elem_of_cons in Ha as [->|Ha]; [|by apply (H4 a f)].
      destruct (H5 f Hf' Hff) as [?|(e & He & Het)]; [|done|].
      * intros x Hx Hxa Hxp. apply (Hnew x Hx Hxa). congruence.
      * pose proof (Hlt e He). pose proof (uo_order _ Hu b f Hbin Hf Hb Hff (eq_sym Hp)). lia.
    + constructor; [|done]. intros Hin. destruct (H1 b Hin) as [Hin' _]. by apply (Hnew b Hin' Hb).
    + intros f Hf Hff Hno. destruct (Hcase f Hf) as [->|Hf']; [congruence|].
      destruct (H5 f Hf' Hff) as [?|(e & He & Het)]; [intros; apply Hno; auto|by left|right; exists e; auto].
  - pose proof (fun x => once_last bs false b x (uo_free _ Hu) Hb) as Hnew.
    destruct Hs as [(a & [Hp Ht] & HA & ->)|(Hno & G1 & Ha & Hc)].
    + destruct (H1 a ltac:(rewrite HA; by left)) as [Hain Haa].
      assert (forall x, x ∈ A' -> x ∈ A) as Hsub by (intros x Hx; rewrite HA; by right).
      rewrite HA in H6. apply NoDup_cons in H6 as [Hna H6]. split; [split; [|intros g Hg; destruct (H2 g Hg); auto| | |done]|].
      * intros x Hx. destruct (H1 x (Hsub x Hx)). auto.
      * intros x Hx Hxa. destruct (Hcase x Hx) as [->|Hx']; [congruence|].
        destruct (H3 x Hx' Hxa) as [HxA|(f & Hf & Hff & Hfp)]; [|right; exists f; auto].
        rewrite HA in HxA. apply elem_of_cons in HxA as [->|?]; [right; exists b; auto|by left].
      * intros x f Hx Hf Hff Hfp. destruct (Hcase f Hf) as [->|Hf']; [|by apply (H4 x f); [apply Hsub|..]]. exfalso. apply Hna.
        destruct (H1 x (Hsub x Hx)) as [Hxin Hxa]. assert (x = a) as <-; [|done].
        apply (once_same (bs ++ [b]) true); [apply Hu|auto|auto|done|done|congruence].
      * intros f Hf Hff Hnone. destruct (Hcase f Hf) as [->|Hf']; [by destruct (Hnone a (Hold a Hain) Haa)|].
        destruct (H5 f Hf' Hff) as [?|(e & He & Het)]; [intros; apply Hnone; auto|by left|right; exists e; auto].
    + apply (late_collects _ b A G1 A' G' Hu Hbin); [done|].
      destruct Ha as [(g & Hg & Hk & ->)|(G2 & G3 & HG & -> & _)].
      { exfalso. destruct (H2 g Hg) as [Hgin Hgf]. injection Hk as _ Hk. by apply (Hnew g). }
      assert (forall x, x ∈ G -> x ∈ G2 ++ b :: G3) as Hsub by (intros x; rewrite HG, <- Permutation_middle; intros; by right).
      split; [split; [intros x Hx; destruct (H1 x Hx); auto| | | |done]|].
      * intros x. rewrite <- Permutation_middle, <- HG. intros [->|Hx]%elem_of_cons; [done|]. destruct (H2 x Hx). auto.
      * intros x Hx Hxa. destruct (Hcase x Hx) as [->|Hx']; [congruence|].
        destruct (H3 x Hx' Hxa) as [?|(f & Hf & Hff & Hfp)]; [by left|right; exists f; auto].
      * intros x f Hx Hf Hff Hfp. destruct (Hcase f Hf) as [->|Hf']; [rewrite <- Permutation_middle; by left|by apply Hsub, (H4 x f)].
      * intros f Hf Hff Hnone. destruct (Hcase f Hf) as [->|Hf']; [left; rewrite <- Permutation_middle; by left|].
        destruct (H5 f Hf' Hff) as [?|(e & He & Het)]; [intros; apply Hnone; auto|left; by apply Hsub|right; exists e; auto].
Qed.

Lemma late_reaches bs A G : reaches bs A G -> is_late bs -> used_once bs -> matched bs A G /\ waiting bs G.
Proof.
  intros Hs. induction Hs as [|bs b A G A' G' Hs IH Hst]; intros Hl Hu.
  { split; [|by intros ? ?%elem_of_nil]. split; try by intros ? ?%elem_of_nil. - by intros ? ? ?%elem_of_nil. - constructor. }
  eapply late_step; [done|done| |exact Hst]. apply IH; [|by eapply once_prefix].
  apply sorted_app in Hl as (Hl & _). exact Hl.
Qed.

Lemma late_leaks bs A G A' : reaches bs A G -> drains A G A' -> is_late bs -> used_once bs -> A' ≡ₚ unfreed bs.
Proof.
  intros Hs Hd Hl Hu. destruct (late_reaches bs A G Hs Hl Hu) as [Hm _].
  assert (matched bs A' []) as [H1 _ H3 H4 H5].
  { revert Hm. apply (drains_keeps (matched bs)); [|exact Hd]. intros. by eapply late_handled. }
  apply NoDup_Permutation; [done| |].
  - apply NoDup_filter, (NoDup_fmap_1 ptr), Hu.
  - intros a. unfold unfreed. rewrite !list_elem_of_filter, Forall_forall. split.
    + intros Ha. destruct (H1 a Ha) as [Hin Haa]. split; [|done]. intros f Hf. destruct (is_alloc f) eqn:Hff; [by left|right].
      intros Hp. by apply (not_elem_of_nil f), (H4 a f).
    + intros (Hno & Haa & Hin). destruct (H3 a Hin Haa) as [?|(f & Hf & Hff & Hp)]; [done|]. destruct (Hno f Hf); congruence.
Qed.

(** There is never more in the lists than was sampled. *)
Lemma collects_length t A G A' G' : collects t A G A' G' -> (length A' <= length A)%nat /\ (length G' <= length G)%nat.
Proof. induction 1 as [|A g G A1 A' G' _ Hc _ IH]; [done|]. apply collected_length in Hc. cbn. lia. Qed.

Lemma reaches_length bs A G : reaches bs A G -> (length A <= length bs)%nat /\ (length G <= length bs)%nat.
Proof.
  induction 1 as [|bs b A G A' G' _ IH Hs]; [done|]. rewrite length_app. cbn. unfold step in Hs. destruct (is_alloc b).
  - destruct Hs as [-> ->]. cbn. pose proof (length_filter (fun a => alloc_key a <> alloc_key b) A). lia.
  - destruct Hs as [(a & _ & HA & ->)|(_ & G1 & Ha & Hc)].
    + rewrite HA in IH. cbn in IH. lia.
    + apply added_length in Ha. apply collects_length in Hc. lia.
Qed.

Lemma reaches_in bs A G : reaches bs A G -> forall a, a ∈ A -> a ∈ bs.
Proof.
  induction 1 as [|bs b A G A' G' _ IH Hs]; [by intros ? ?%elem_of_nil|]. intros a Ha. apply elem_of_app. unfold step in Hs. destruct (is_alloc b).
  - destruct Hs as [-> _]. apply elem_of_cons in Ha as [->|Ha]; [right; by left|]. apply list_elem_of_filter in Ha as [_ Ha]. left. by apply IH.
  - left. apply IH. destruct Hs as [(x & _ & -> & _)|(_ & G1 & _ & Hc)]; [by right|]. clear -Hc Ha.
    induction Hc as [|A g G A1 A' G' _ Hc _ IH]; [done|]. eapply collected_in; [exact Hc|by apply IH].
Qed.
End leaks.

(** ** The profiler *)

Section runs.
Context {R : Type} (tp_get_mem_ptr tp_get_mem_size : tp -> R -> Z) (cfg : config)
  (qsort : (key_value -> key_value -> Z) -> list key_value -> list key_value) (config_of : Z -> option Z).
Notation ctx := (kmemleak_ctx (R := R)).
Notation sampled := (sampled tp_get_mem_ptr tp_get_mem_size cfg config_of).

(** Samples, each with the memory for a node; [m] is for a report on the way. *)
Definition run_samples (m : memory) (l : list ((Z * rb_node) * event)) (c : ctx) : option ctx :=
  foldl (fun c x => c ← c; kmemleak_sample tp_get_mem_ptr tp_get_mem_size cfg qsort config_of (Some x.1) m x.2 c) (Some c) l.

(** Events of other attributes than the two lists are of have no sample. *)
Definition known (e : event) : Prop := config_of (e_id e) = None \/ is_Some (sampled e).
Definition backups (l : list ((Z * rb_node) * event)) : list perf_event_backup := omap (fun x => sampled x.2) l.
Record samples_ok (l : list ((Z * rb_node) * event)) : Prop := {
  so_known : Forall (fun x => known x.2) l;
  so_mem : Forall (fun x => addr x.1.1) l;
  so_apart : NoDup (fst ∘ fst <$> l);
  so_length : Z.of_nat (length l) < 2 ^ 32 - 1
}.

Lemma omap_le {A B} (f : A -> option B) (l : list A) : (length (omap f l) <= length l)%nat.
Proof. induction l as [|x l IH]; cbn; [done|]. destruct (f x); cbn; lia. Qed.

Lemma samples_run m l : samples_ok l -> exists c A G, run_samples m l monitor_ctx_init = Some c /\ reaches (backups l) A G /\
  tracked (fst ∘ fst <$> l) 0 c A G /\ lost_list c = [] /\ reports c = [].
Proof.
  induction l as [|x l IH] using rev_ind; intros [Hk Hm Hd Hn].
  { exists monitor_ctx_init, [], []. split; [done|]. split; [constructor|]. split; [|done].
    split; try done; [exists []; split; [apply (init_lists (H0 := alloc_laws))|done]|exists []; split; [apply (init_lists (H0 := gc_laws))|done]|..];
      by intros ? ?%elem_of_nil. }
  apply Forall_app in Hk as [Hk Hkx]. apply Forall_app in Hm as [Hm Hmx]. apply Forall_cons in Hkx as [Hkx _]. apply Forall_cons in Hmx as [Hmx _].
  rewrite fmap_app, NoDup_app in Hd. destruct Hd as (Hd & Hnew & _). rewrite length_app in Hn. cbn in Hn.
  destruct IH as (c & A & G & E & Hr & Ht & Hl & Hrep); [split; [done|done|done|lia]|]. unfold run_samples in *. setoid_rewrite foldl_snoc.
  rewrite E. cbn [mbind option_bind]. unfold backups in *. rewrite omap_app, fmap_app.
  destruct (sampled x.2) as [b|] eqn:Hb.
  - destruct (reaches_length _ _ _ Hr) as [_ HG]. pose proof (omap_le (fun x => sampled x.2) l) as Hle.
    destruct (leak_sample_ok tp_get_mem_ptr tp_get_mem_size cfg qsort config_of m _ 0 c A G x.1.1 x.1.2 x.2 b Ht Hl Hmx) as (c' & A' & G' & E' & Hs & Ht' & Hl' & Hr');
      [intros Hin; apply (Hnew _ Hin); by apply list_elem_of_singleton|done|lia|].
    rewrite <- surjective_pairing in E'. exists c', A', G'. split; [done|]. cbn [omap list_omap]. rewrite Hb. split; [by econstructor|].
    split; [|split; [done|congruence]]. eapply tracked_more; [|exact Ht']. intros a [->|Ha]%elem_of_cons; apply elem_of_app; [right; by left|by left].
  - exists c, A, G. cbn [omap list_omap]. rewrite Hb, app_nil_r. split.
    + unfold kmemleak_sample. destruct Hkx as [->|[? Hx]]; [done|congruence].
    + split; [done|]. split; [|done]. eapply tracked_more; [|exact Ht]. intros a Ha. apply elem_of_app. by left.
Qed.

Lemma leaks_reported_perm m (A A' : list (perf_event_backup (R := R))) r : A ≡ₚ A' -> leaks_reported cfg m A r -> leaks_reported cfg m A' r.
Proof.
  intros Hp (bs & H1 & H2 & H3 & H4). exists bs. assert (A = [] <-> A' = []) as Hnil.
  { split; intros ->; [by apply Permutation_nil_l in Hp|by apply Permutation_nil_r in Hp]. }
  split; [by rewrite H1|]. split; [done|]. split; [|destruct (rp_bytes r); [done|rewrite <- Hnil; done]].
  rewrite H3. rewrite (bool_decide_ext _ _ Hnil). assert (length A = length A') as -> by by rewrite Hp. done.
Qed.

(** A run up to its end, however what is kept comes about. *)
Lemma run_reported m m' l (leaks : list (perf_event_backup (R := R))) : sorts qsort -> samples_ok l ->
  (by_stack cfg m' = true -> enough m' (length l)) -> Forall (fun x => 0 <= e_pid x.2 < 2 ^ 31) l ->
  (forall A G A', reaches (backups l) A G -> drains A G A' -> A' ≡ₚ leaks) ->
  exists c c' r, run_samples m l monitor_ctx_init = Some c /\ kmemleak_exit cfg qsort m' c = Some c' /\
    reports c' = [r] /\ leaks_reported cfg m' leaks r /\ rblist__empty (alloc c') = true /\ rblist__empty (gc_free c') = true.
Proof.
  intros Hq Hok Hm Hpid Hleaks. destruct (samples_run m l Hok) as (c & A & G & E & Hr & Ht & Hl & Hrep).
  destruct (reaches_length _ _ _ Hr) as [HA HG]. pose proof (omap_le (fun x => sampled x.2) l) as Hle. fold (backups l) in Hle.
  pose proof (so_length _ Hok) as Hn.
  destruct (report_ok cfg qsort m' _ 0 c A G Hq Ht) as (c' & A' & r & E' & Hd & Hrp & Ht' & _ & Hr'); [lia|lia| | |].
  { intros Hb. destruct (Hm Hb). split; [done|done|done|lia]. }
  { intros b Hb. apply (reaches_in _ _ _ Hr) in Hb. apply list_elem_of_omap in Hb as (x & Hx & Hs).
    rewrite Forall_forall in Hpid. specialize (Hpid x Hx). unfold pid_ok. assert (ev b = x.2) as ->; [|done].
    unfold Kmemleak.sampled in Hs. destruct (sample_tp _ _ _) as [[? ?]|]; [|done]. by injection Hs as <-. }
  exists c, c', r. split; [done|]. split; [done|]. split; [by rewrite Hr', Hrep|].
  split; [by apply (leaks_reported_perm m' A'); [apply (Hleaks A G)|]|].
  destruct Ht' as [(xs & H1 & H2 & _) (ys & H3 & H4 & _) _ _ _ _]. apply Permutation_nil_r, fmap_nil_inv in H2 as ->. apply fmap_nil_inv in H4 as ->.
  rewrite (lists_nonempty (H0 := alloc_laws) _ _ H1), (lists_nonempty (H0 := gc_laws) _ _ H3) by done. done.
Qed.

(** C12: For events in the order of their times, a pointer allocated again only after it was
    freed: what is reported when the profiler ends is exactly the allocations that were not
    freed since - in the order of their times, one by one, or by stack their number and
    bytes -, and both lists are empty.  Frees whose allocation was before the profiler
    started change nothing. *)
Theorem kmemleak_in_order m m' l : sorts qsort -> samples_ok l ->
  (by_stack cfg m' = true -> enough m' (length l)) -> Forall (fun x => 0 <= e_pid x.2 < 2 ^ 31) l ->
  in_order (backups l) -> no_reuse (backups l) ->
  exists c c' r, run_samples m l monitor_ctx_init = Some c /\ kmemleak_exit cfg qsort m' c = Some c' /\
    reports c' = [r] /\ leaks_reported cfg m' (live (backups l)) r /\ rblist__empty (alloc c') = true /\ rblist__empty (gc_free c') = true.
Proof. intros Hq Hok Hm Hpid Ho Hr. apply run_reported; [done..|]. intros. by eapply ordered_leaks. Qed.

(** C13: For events that come at most a second late, each pointer used once: however allocations
    and their frees are interleaved, also when the free comes first, what is reported when
    the profiler ends is exactly the allocations without a free - a free that came first
    waits long enough for its allocation. *)
Theorem kmemleak_late m m' l : sorts qsort -> samples_ok l ->
  (by_stack cfg m' = true -> enough m' (length l)) -> Forall (fun x => 0 <= e_pid x.2 < 2 ^ 31) l ->
  is_late (backups l) -> used_once (backups l) ->
  exists c c' r, run_samples m l monitor_ctx_init = Some c /\ kmemleak_exit cfg qsort m' c = Some c' /\
    reports c' = [r] /\ leaks_reported cfg m' (unfreed (backups l)) r /\ rblist__empty (alloc c') = true /\ rblist__empty (gc_free c') = true.
Proof. intros Hq Hok Hm Hpid Hl Hu. apply run_reported; [done..|]. intros. by eapply late_leaks. Qed.

(** ** Lost events *)

Notation by_start := (StronglySorted (fun x y => start_time x <= start_time y)).

Lemma insert_lost_perm x l : insert_lost x l ≡ₚ x :: l.
Proof. induction l as [|y l IH]; cbn; [done|]. case_match; [done|]. rewrite IH. apply Permutation_swap. Qed.

Lemma insert_lost_sorted x l : by_start l -> by_start (insert_lost x l).
Proof.
  intros Hs. induction Hs as [|y l Hs IH Hy]; cbn; [by repeat constructor|]. rewrite Forall_forall in Hy.
  destruct (Z.ltb_spec (start_time x) (start_time y)).
  - constructor; [by constructor; [|apply Forall_forall]|]. constructor; [lia|]. apply Forall_forall. intros z Hz. specialize (Hy z Hz). cbn in Hy. lia.
  - constructor; [done|]. rewrite insert_lost_perm. constructor; [lia|by apply Forall_forall].
Qed.

Lemma bounds_sorted l l1 l2 l' : l = l1 ++ l2 -> (lost_bounds <$> l') = (lost_bounds <$> l2) -> by_start l -> by_start l'.
Proof.
  intros -> Hb Hs. apply sorted_app in Hs as (_ & Hs & _). revert l' Hb. induction Hs as [|y l2 Hs IH Hy]; intros [|x l'] Hb; try done; [constructor|].
  cbn in Hb. injection Hb as Hx _ Hb. constructor; [by apply IH|]. rewrite Hx. clear -Hb Hy. revert l' Hb.
  induction Hy as [|z l Hz Hy IH]; intros [|w l'] Hb; try done. cbn in Hb. injection Hb as Hw _ Hb. constructor; [by rewrite Hw|by apply IH].
Qed.

(** C36: With ranges of lost events known, in the order of their starts: an event after the
    start of a new one has all that is kept given up first - what leaked so far is reported,
    if anything may have - and an event inside a range is not looked at further; ranges the
    event is past are forgotten, but only up to the first it is in.  The counts of the
    list of allocations then stay, although the list is empty. *)
Theorem kmemleak_lost_events m U k c A G e mem : sorts qsort -> tracked U k c A G -> reportable cfg m A G -> by_start (lost_list c) ->
  is_Some (sampled e) -> exists c', kmemleak_event_lost cfg qsort m e c = Some (bool_decide (Exists (inside (e_time e)) (lost_list c)), c') /\
    (if decide (news (met (e_time e) (lost_list c))) then reclaimed cfg m U k c A G c' else tracked U k c' A G /\ reports c' = reports c) /\
    (Exists (inside (e_time e)) (lost_list c) ->
       kmemleak_sample tp_get_mem_ptr tp_get_mem_size cfg qsort config_of mem m e c = Some c') /\
    (exists l1 l2, lost_list c = l1 ++ l2 /\ Forall (fun x => start_time x < e_time e /\ end_time x <= e_time e) l1 /\
       (lost_bounds <$> lost_list c') = (lost_bounds <$> l2)) /\
    forall got ins start end_ n, using_order cfg = true -> exists c'',
      kmemleak_lost cfg qsort m got ins start end_ n c' = Some c'' /\ by_start (lost_list c'').
Proof.
  intros Hq Ht Hra Hs Hsamp. destruct (event_lost_ok cfg qsort m U e Hq (lost_list c) k c A G Hra Ht Hs) as (l' & c1 & E & Hc1 & l1 & l2 & Hl & Hl1 & Hl2).
  exists (with_lost l' c1). assert (kmemleak_event_lost cfg qsort m e c =
    Some (bool_decide (Exists (inside (e_time e)) (lost_list c)), with_lost l' c1)) as E1 by (unfold kmemleak_event_lost; by rewrite E).
  split; [done|]. split.
  { destruct (decide _) as [_|_]; [by apply reclaimed_lost|]. subst c1. split; [by destruct Ht|done]. }
  split; [|split; [by exists l1, l2|]].
  - intros Hin. unfold kmemleak_sample. destruct Hsamp as [b Hb]. unfold Kmemleak.sampled, sample_tp in Hb.
    destruct (config_of (e_id e)) as [config|]; [|done]. cbn [mbind option_bind] in Hb. rewrite E1, (bool_decide_true (Exists _ _)) by exact Hin.
    destruct (find_tp config (tp_alloc cfg)) as [t|]; [done|]. by destruct (find_tp config (tp_free cfg)).
  - intros got ins start end_ n Ho. unfold kmemleak_lost. rewrite Ho. cbn [negb]. pose proof (bounds_sorted _ _ _ _ Hl Hl2 Hs) as Hs'.
    destruct got; eexists; (split; [reflexivity|]); [by apply insert_lost_sorted|done].
Qed.
End runs.

(** ** Examples

    Attribute 1 allocates and attribute 2 frees; an event carries its pointer and size. *)

Definition ex_cfg : config := Config true false true true true [Tp 1 true true] [Tp 2 false false].
Definition ex_sample (p id t ptr size : Z) (stack : struct_key) : (Z * rb_node) * event (R := Z * Z) :=
  ((p, Node p 0 0), Event 7 t id 100 stack (ptr, size)).
Definition ex_memory : memory := Memory true true [(1008, Node 1008 0 0); (1016, Node 1016 0 0); (1024, Node 1024 0 0);
  (1032, Node 1032 0 0); (1040, Node 1040 0 0)].
Notation ex_run := (run_samples (fun _ r => fst r) (fun _ r => snd r) ex_cfg insertion_sort Some ex_memory).
Notation ex_backups := (backups (fun _ r => fst r) (fun _ r => snd r) ex_cfg Some).

Lemma ex_samples_ok (l : list ((Z * rb_node) * event (R := Z * Z))) :
  Forall (fun x => is_Some (sampled (fun _ r => fst r) (fun _ r => snd r) ex_cfg Some x.2)) l ->
  Forall (fun x => addr x.1.1) l -> NoDup (fst ∘ fst <$> l) -> Z.of_nat (length l) < 2 ^ 32 - 1 ->
  samples_ok (fun _ r => fst r) (fun _ r => snd r) ex_cfg Some l.
Proof. intros H1 H2 H3 H4. split; [|done|done|done]. eapply Forall_impl; [exact H1|]. intros x Hx. by right. Qed.

(** Two allocations of one pointer, the first freed; a free of an unknown pointer. *)
Definition ex_ordered : list ((Z * rb_node) * event (R := Z * Z)) :=
  [ex_sample 8 1 10 4096 100 [1; 2]; ex_sample 16 1 20 8192 30 [1; 2]; ex_sample 24 2 30 4096 0 [];
   ex_sample 32 1 40 4096 100 [1; 2]; ex_sample 40 2 50 12288 0 []].

Lemma kmemleak_in_order_witness : exists c c' bs,
  ex_run ex_ordered monitor_ctx_init = Some c /\ kmemleak_exit ex_cfg insertion_sort ex_memory c = Some c' /\
  reports c' = [Report (Some (3, 2)) (Some (2, bs)) (Some [KeyValue 2 [1; 2] [130; 0]])] /\
  ptr <$> bs = [8192; 4096].
Proof.
  destruct (kmemleak_in_order (fun _ r => fst r) (fun _ r => snd r) ex_cfg insertion_sort Some ex_memory ex_memory ex_ordered)
    as (c & c' & r & E & E' & Hr & _).
  - apply insertion_sorts.
  - apply ex_samples_ok; [repeat constructor; by eexists|repeat constructor|apply (bool_decide_unpack _); by vm_compute|done].
  - intros _. split; [done|apply (bool_decide_unpack _); by vm_compute|repeat constructor|cbn; lia].
  - repeat constructor; cbn; lia.
  - apply (bool_decide_unpack (StronglySorted _ _)). by vm_compute.
  - intros bs1 b bs2 H Hb a. vm_compute in H.
    do 5 (destruct bs1 as [|? bs1]; [injection H as <- <-; vm_compute in Hb; try done; vm_compute live; intros Ha;
      repeat (apply elem_of_cons in Ha as [->|Ha]; [done|]); by apply elem_of_nil in Ha|injection H as <- H]).
    by destruct bs1.
  - exists c, c'. vm_compute in E. injection E as <-. vm_compute in E'. injection E' as <-. eexists.
    split; [by vm_compute|]. split; [by vm_compute|]. split; by vm_compute.
Defined.

(** A free that comes before its allocation. *)
Definition ex_late : list ((Z * rb_node) * event (R := Z * Z)) :=
  [ex_sample 8 2 50 4096 0 []; ex_sample 16 1 20 4096 100 [1; 2]; ex_sample 24 1 30 8192 30 [1; 2]].

Lemma kmemleak_late_witness : exists c c' bs,
  ex_run ex_late monitor_ctx_init = Some c /\ kmemleak_exit ex_cfg insertion_sort ex_memory c = Some c' /\
  reports c' = [Report (Some (2, 1)) (Some (1, bs)) (Some [KeyValue 1 [1; 2] [30; 0]])] /\ ptr <$> bs = [8192].
Proof.
  destruct (kmemleak_late (fun _ r => fst r) (fun _ r => snd r) ex_cfg insertion_sort Some ex_memory ex_memory ex_late)
    as (c & c' & r & E & E' & Hr & _).
  - apply insertion_sorts.
  - apply ex_samples_ok; [repeat constructor; by eexists|repeat constructor|apply (bool_decide_unpack _); by vm_compute|done].
  - intros _. split; [done|apply (bool_decide_unpack _); by vm_compute|repeat constructor|cbn; lia].
  - repeat constructor; cbn; lia.
  - apply (bool_decide_unpack (StronglySorted _ _)). by vm_compute.
  - split; [apply (bool_decide_unpack _); by vm_compute|apply (bool_decide_unpack _); by vm_compute|].
    intros a f Ha Hf. cbn in Ha, Hf. rewrite !elem_of_cons, elem_of_nil in Ha, Hf.
    destruct Ha as [->|[->|[->|[]]]], Hf as [->|[->|[->|[]]]]; vm_compute; congruence.
  - exists c, c'. vm_compute in E. injection E as <-. vm_compute in E'. injection E' as <-. eexists.
    split; [by vm_compute|]. split; [by vm_compute|]. split; by vm_compute.
Defined.

(** When a pointer is used again, events that are late by less than a second are enough for
    a wrong report: the second free takes the first allocation, and the second allocation,
    which is freed, is reported. *)
Definition ex_reused : list ((Z * rb_node) * event (R := Z * Z)) :=
  [ex_sample 8 2 20 4096 0 []; ex_sample 16 1 10 4096 100 [1; 2]; ex_sample 24 1 30 4096 30 [3; 4]; ex_sample 32 2 40 4096 0 []].
Lemma reuse_misreported : exists c c' bs, is_late (ex_backups ex_reused) /\
  ex_run ex_reused monitor_ctx_init = Some c /\ kmemleak_exit ex_cfg insertion_sort ex_memory c = Some c' /\
  reports c' = [Report (Some (2, 2)) (Some (1, bs)) (Some [KeyValue 1 [3; 4] [30; 0]])].
Proof.
  eexists _, _, _. split; [apply (bool_decide_unpack (StronglySorted _ _)); by vm_compute|]. split; [by vm_compute|]. split; by vm_compute.
Qed.

(** An event in a range of lost events, when one allocation is kept. *)
Definition ex_kept : kmemleak_ctx (R := Z * Z) :=
  default monitor_ctx_init (ex_run [ex_sample 8 1 10 4096 100 [1; 2]] monitor_ctx_init).
Definition ex_lost : kmemleak_ctx (R := Z * Z) := with_lost [Lost 0 false 20 40 5] ex_kept.

Lemma kmemleak_lost_events_witness : exists c',
  kmemleak_event_lost ex_cfg insertion_sort ex_memory (ex_sample 16 1 30 8192 100 []).2 ex_lost = Some (true, c') /\
  rblist__empty (alloc c') = true /\ length (reports c') = 1%nat /\ alloc_num (stat c') = 1.
Proof.
  destruct (leak_sample_ok (fun _ r => fst r) (fun _ r => snd r) ex_cfg insertion_sort Some ex_memory [] 0 (monitor_ctx_init (R := Z * Z)) [] [] 8 (Node 8 0 0)
    (ex_sample 8 1 10 4096 100 [1; 2]).2 (Backup 4096 100 true false true (ex_sample 8 1 10 4096 100 [1; 2]).2)) as (c & A & G & E & Hs & Ht & _).
  - split; try done; [exists []; split; [apply (init_lists (H0 := alloc_laws))|done]|exists []; split; [apply (init_lists (H0 := gc_laws))|done]|..];
      by intros ? ?%elem_of_nil.
  - done.
  - repeat constructor.
  - by intros ?%elem_of_nil.
  - by vm_compute.
  - done.
  - destruct Hs as [-> ->]. assert (ex_kept = c) as Hc by (vm_compute in E; injection E as <-; by vm_compute).
    destruct (kmemleak_lost_events (fun _ r => fst r) (fun _ r => snd r) ex_cfg insertion_sort Some ex_memory [8] 0 ex_lost
      [Backup 4096 100 true false true (ex_sample 8 1 10 4096 100 [1; 2]).2] [] (ex_sample 16 1 30 8192 100 []).2 None) as (c' & E' & _).
    + apply insertion_sorts.
    + unfold ex_lost. rewrite Hc. by destruct Ht.
    + split; [done|done| |].
      * intros _. split; [done|apply (bool_decide_unpack _); by vm_compute|repeat constructor|cbn; lia].
      * intros b Hb. apply list_elem_of_singleton in Hb as ->. by split.
    + unfold ex_lost. repeat constructor.
    + by eexists.
    + exists c'. clear E Ht Hc. vm_compute in E'. injection E' as <-. split; [by vm_compute|]. split; [by vm_compute|]. split; by vm_compute.
Defined.
