(* ===== verification/CpuMap.v ===== *)
(** * Maps of processors (lib/perf/cpumap.c)

    A map is a sorted array of numbers of processors that is shared by reference: -1 alone
    is any processor, and null is no map.  The functions that combine two maps take over
    the reference to the first and give one to the result. *)

From stdpp Require Import sorting.
From S2P Require Import Prelude Bytes Mmap.

(** ** Data *)

(** [struct perf_cpu_map], with [nr] the length of [map]. *)
Record cpu_map := CpuMap { refcnt : Z; cpus : list Z }.

(** The maps by their address; null is zero. *)
Abbreviation memory := (gmap Z cpu_map).

Definition INT_MAX : Z := 2 ^ 31 - 1.

(** ** References *)

Definition perf_cpu_map__get (p : Z) (M : memory) : option (Z * memory) :=
  if p =? 0 then Some (p, M)
  else m ← M !! p; r ← refcount_inc (refcnt m); Some (p, <[p := CpuMap r (cpus m)]> M).

Definition perf_cpu_map__put (p : Z) (M : memory) : option memory :=
  if p =? 0 then Some M
  else
    m ← M !! p;
    '(r, last) ← refcount_dec_and_test (refcnt m);
    Some (if last : bool then delete p M else <[p := CpuMap r (cpus m)]> M).

(** ** New maps *)

(** A map at new memory [a]; there is none when [a] is null. *)
Definition new_map (a : Z) (l : list Z) (M : memory) : Z * memory :=
  if a =? 0 then (0, M) else (a, <[a := CpuMap 1 l]> M).

Definition perf_cpu_map__dummy_new (a : Z) (M : memory) : Z * memory := new_map a [-1] M.

(** [nr_cpus] is what [sysconf] says. *)
Definition cpu_map__default_new (nr_cpus a : Z) (M : memory) : Z * memory :=
  if nr_cpus <? 0 then (0, M) else new_map a (seqZ 0 nr_cpus) M.

Definition cmp_int (a b : Z) : Z := s32 (a - b).

(** The array is overwritten from its start while it is read; the result is its new length
    and what is in it. *)
Fixpoint remove_dups (k i j : nat) (m : list Z) : nat * list Z :=
  match k with
  | O => (j, m)
  | S k =>
      if bool_decide (i = O \/ m !! i <> m !! (i - 1)%nat)
      then remove_dups k (S i) (S j) (match m !! i with Some c => <[j := c]> m | None => m end)
      else remove_dups k (S i) j m
  end.

Section maps.
Variable qsort : (Z -> Z -> Z) -> list Z -> list Z.

(** The contents of a new map. *)
Definition trimmed (tmp_cpus : list Z) : list Z :=
  let '(j, m) := remove_dups (length tmp_cpus) 0 0 (qsort cmp_int tmp_cpus) in take j m.

Definition cpu_map__trim_new (a : Z) (tmp_cpus : list Z) (M : memory) : Z * memory :=
  new_map a (trimmed tmp_cpus) M.

(** ** Combining maps *)

(** What the loops write to [tmp_cpus]; the indices [i] and [j] are the rests of the maps. *)
Fixpoint merge_loop (a : list Z) : list Z -> list Z :=
  fix loop (b : list Z) : list Z :=
    match a, b with
    | x :: a', y :: b' => if x <=? y then x :: merge_loop a' (if x =? y then b' else b) else y :: loop b'
    | _, _ => a ++ b
    end.

Fixpoint and_loop (a : list Z) : list Z -> list Z :=
  fix loop (b : list Z) : list Z :=
    match a, b with
    | x :: a', y :: b' => if x <=? y then (if x =? y then y :: and_loop a' b' else and_loop a' b) else loop b'
    | _, _ => []
    end.

(** The two functions differ in the loop; [tmp] is whether there is memory for [tmp_cpus],
    [a] that for the map. *)
Definition combine (loop : list Z -> list Z -> list Z) (tmp : bool) (a orig other : Z) (M : memory) : option (Z * memory) :=
  if (orig =? 0) && (other =? 0) then Some (0, M)
  else if orig =? 0 then perf_cpu_map__get other M
  else if other =? 0 then Some (orig, M)
  else
    x ← M !! orig;
    y ← M !! other;
    if bool_decide (cpus x = cpus y) then Some (orig, M)
    else if tmp then
      let '(p, M) := cpu_map__trim_new a (loop (cpus x) (cpus y)) M in
      M ← perf_cpu_map__put orig M;
      Some (p, M)
    else Some (0, M).
Definition perf_cpu_map__merge : bool -> Z -> Z -> Z -> memory -> option (Z * memory) := combine merge_loop.
Definition perf_cpu_map__and : bool -> Z -> Z -> Z -> memory -> option (Z * memory) := combine and_loop.
End maps.

(** ** Looking things up *)

Definition perf_cpu_map__cpu (m : option (list Z)) (idx : nat) : Z :=
  match m with Some l => default (-1) (l !! idx) | None => -1 end.

Definition perf_cpu_map__nr (m : option (list Z)) : Z := match m with Some l => Z.of_nat (length l) | None => 1 end.

(** An empty array has no first element. *)
Definition perf_cpu_map__empty (m : option (list Z)) : option bool :=
  match m with
  | Some l => c ← head l; Some (c =? -1)
  | None => Some true
  end.

(** The search; [None] is an access out of bounds, or no end. *)
Fixpoint cpu_idx_loop (fuel : nat) (cpus : list Z) (cpu low high : Z) : option Z :=
  match fuel with
  | O => None
  | S fuel =>
      if low <? high then
        let idx := (low + high) / 2 in
        cpu_at_idx ← cpus !! Z.to_nat idx;
        if cpu_at_idx =? cpu then Some idx
        else if cpu <? cpu_at_idx then cpu_idx_loop fuel cpus cpu low idx
        else cpu_idx_loop fuel cpus cpu (idx + 1) high
      else Some (-1)
  end.

Definition perf_cpu_map__idx (cpus : list Z) (cpu : Z) : option Z :=
  cpu_idx_loop (S (length cpus)) cpus cpu 0 (Z.of_nat (length cpus)).

Definition perf_cpu_map__max (l : list Z) : Z := default (-1) (last l).

(** ** Sorted maps *)

(** What every map is: in ascending order, of processors, or of -1. *)
Definition sorted (l : list Z) : Prop := StronglySorted Z.lt l /\ forall c, c ∈ l -> -1 <= c < INT_MAX.

Lemma sorted_nth (R : Z -> Z -> Prop) l i j x y : StronglySorted R l -> l !! i = Some x -> l !! j = Some y -> (i < j)%nat -> R x y.
Proof.
  intros Hs Hx Hy Hij. rewrite <- (take_drop j l) in Hs. apply sorted_app in Hs as (_ & _ & Hs). apply Hs.
  - apply list_elem_of_lookup. exists i. by rewrite lookup_take_lt.
  - apply list_elem_of_lookup. exists O. by rewrite lookup_drop, Nat.add_0_r.
Qed.

Lemma sorted_impl (R R' : Z -> Z -> Prop) l :
  (forall a b, a ∈ l -> b ∈ l -> R a b -> R' a b) -> StronglySorted R l -> StronglySorted R' l.
Proof.
  intros Hi Hs. induction Hs as [|x l Hs IH Hx]; constructor.
  - apply IH. intros a b Ha Hb. apply Hi; by right.
  - rewrite Forall_forall in *. intros b Hb. apply Hi; [by left|by right|by apply Hx].
Qed.

Lemma strict_NoDup l : StronglySorted Z.lt l -> NoDup l.
Proof.
  induction 1 as [|x l Hs IH Hx]; constructor; [|done]. intros Hin. rewrite Forall_forall in Hx. specialize (Hx x Hin). lia.
Qed.

(** A sorted map is what is in it. *)
Lemma strict_ext l l' : StronglySorted Z.lt l -> StronglySorted Z.lt l' -> (forall c, c ∈ l <-> c ∈ l') -> l = l'.
Proof.
  intros Hs Hs' He. assert (l ≡ₚ l') as Hp by (apply NoDup_Permutation; [by apply strict_NoDup..|done]).
  apply (StronglySorted_unique_strong Z.lt); [intros; lia|done..].
Qed.

Lemma cmp_int_orders l : (forall c, c ∈ l -> -1 <= c < INT_MAX) -> orders cmp_int l.
Proof.
  intros Hl. assert (forall a b, a ∈ l -> b ∈ l -> cmp_int a b = a - b) as He.
  { intros a b Ha%Hl Hb%Hl. apply s32_small. unfold INT_MAX in *. lia. }
  split; intros a b; [intros c Ha Hb Hc|intros Ha Hb]; rewrite !He by done; lia.
Qed.

(** The loop that removes duplicates, after [i] elements of [s]: [j] are left. *)
Definition removed (s : list Z) (i j : nat) (m : list Z) : Prop :=
  length m = length s /\ (j <= i)%nat /\ StronglySorted Z.lt (take j m) /\ (forall c, c ∈ take j m <-> c ∈ take i s) /\
  (forall k, (i <= S k)%nat -> m !! k = s !! k).

Lemma elem_of_take_S (s : list Z) i x c : s !! i = Some x -> c ∈ take (S i) s <-> c ∈ take i s \/ c = x.
Proof. intros Hx. rewrite (take_S_r _ _ _ Hx), elem_of_app, list_elem_of_singleton. done. Qed.

Lemma remove_dups_step s i j m x :
  StronglySorted Z.le s -> removed s i j m -> s !! i = Some x ->
  removed s (S i) (if bool_decide (i = O \/ m !! i <> m !! (i - 1)%nat) then S j else j)
    (if bool_decide (i = O \/ m !! i <> m !! (i - 1)%nat) then <[j := x]> m else m).
Proof.
  intros Hs (Hlen & Hj & Hsm & Hin & Heq) Hx. assert (i < length s)%nat as Hi by by eapply lookup_lt_Some.
  assert (forall c, c ∈ take i s -> c <= x) as Hle.
  { intros c (k & Hc)%list_elem_of_lookup_1. rewrite lookup_take_Some in Hc. destruct Hc as [Hc Hk].
    by apply (sorted_nth Z.le s k i). }
  rewrite (Heq i), (Heq (i - 1)%nat), Hx by lia. case_bool_decide as Hd.
  - assert (take (S j) (<[j := x]> m) = take j m ++ [x]) as Ht.
    { rewrite (take_S_r _ _ x) by (apply list_lookup_insert_eq; lia). by rewrite take_insert_ge by lia. }
    split; [by rewrite length_insert|]. split; [lia|]. rewrite Ht. split; [|split].
    + apply sorted_app. split; [done|]. split; [by repeat constructor|]. intros a b Ha ->%list_elem_of_singleton.
      apply Hin in Ha. pose proof (Hle a Ha). destruct Hd as [->|Hd]; [by apply elem_of_nil in Ha|].
      enough (a <> x) by lia. intros ->. apply Hd. apply list_elem_of_lookup_1 in Ha as (k & Ha).
      rewrite lookup_take_Some in Ha. destruct Ha as [Ha Hk]. destruct (lookup_lt_is_Some_2 s (i - 1)) as [y Hy]; [lia|]. rewrite Hy.
      pose proof (sorted_nth Z.le s (i - 1) i y x Hs Hy Hx ltac:(lia)).
      destruct (decide (k = (i - 1)%nat)) as [->|]; [congruence|].
      pose proof (sorted_nth Z.le s k (i - 1) x y Hs Ha Hy ltac:(lia)). f_equal. lia.
    + intros c. rewrite (elem_of_take_S s i x c Hx), elem_of_app, Hin, list_elem_of_singleton. done.
    + intros k Hk. destruct (decide (j = k)) as [->|].
      * rewrite list_lookup_insert_eq by lia. by replace k with i by lia.
      * rewrite list_lookup_insert_ne by done. apply Heq. lia.
  - split; [done|]. split; [lia|]. split; [done|]. split; [|intros k Hk; apply Heq; lia].
    intros c. rewrite Hin, (elem_of_take_S s i x c Hx). split; [by left|]. intros [? | ->]; [done|].
    apply list_elem_of_lookup. exists (i - 1)%nat. rewrite lookup_take_lt by lia.
    destruct (decide (s !! (i - 1)%nat = Some x)); [done|]. destruct Hd. right. congruence.
Qed.

Lemma remove_dups_ok s : StronglySorted Z.le s -> forall k i j m, (i + k = length s)%nat -> removed s i j m ->
  exists j' m', remove_dups k i j m = (j', m') /\ removed s (length s) j' m'.
Proof.
  intros Hs. induction k as [|k IH]; intros i j m Hi Hr.
  - exists j, m. split; [done|]. by replace (length s) with i by lia.
  - destruct (lookup_lt_is_Some_2 s i) as [x Hx]; [lia|]. pose proof (remove_dups_step s i j m x Hs Hr Hx) as Hstep.
    assert (m !! i = Some x) as Hm by (rewrite <- Hx; apply Hr; lia). cbn. rewrite Hm in Hstep |- *.
    destruct (bool_decide _); apply IH; (lia || done).
Qed.

Section qsorted.
Context (qsort : (Z -> Z -> Z) -> list Z -> list Z) (Hq : sorts qsort).

(** The map made of an array: sorted, with what is in the array. *)
Lemma trimmed_ok l : (forall c, c ∈ l -> -1 <= c < INT_MAX) -> sorted (trimmed qsort l) /\ forall c, c ∈ trimmed qsort l <-> c ∈ l.
Proof using Hq.
  intros Hl. destruct (Hq cmp_int l) as [Hp Hs]. specialize (Hs (cmp_int_orders l Hl)). unfold trimmed.
  set (s := qsort cmp_int l) in *. assert (forall c, c ∈ s <-> c ∈ l) as Hin by (intros c; by rewrite Hp).
  assert (StronglySorted Z.le s) as Hle.
  { eapply sorted_impl, Hs. intros a b Ha%Hin%Hl Hb%Hin%Hl. unfold cmp_int, INT_MAX in *. rewrite s32_small; lia. }
  destruct (remove_dups_ok s Hle (length l) 0 0 s) as (j & m & E & Hlen & _ & Hst & Hm & _).
  - by rewrite Hp.
  - split; [done|]. split; [done|]. split; [constructor|]. by split.
  - rewrite E. rewrite (take_ge s) in Hm by done. split; [split; [done|]|]; intros c; rewrite Hm, Hin; [apply Hl|done].
Qed.

(** A sorted map is not changed. *)
Lemma trimmed_is l l' : sorted l -> (forall c, c ∈ l' <-> c ∈ l) -> trimmed qsort l' = l.
Proof using Hq.
  intros [Hs Hl] He. destruct (trimmed_ok l') as [[Ht _] Hin]; [intros c; rewrite He; apply Hl|].
  apply strict_ext; [done|done|]. intros c. by rewrite Hin, He.
Qed.
End qsorted.

(** ** What the loops write *)

Lemma merge_loop_elem a : forall b c, c ∈ merge_loop a b <-> c ∈ a \/ c ∈ b.
Proof.
  induction a as [|x a IHa]; [intros b c; destruct b; set_solver|].
  induction b as [|y b IHb]; intros c; [cbn; rewrite app_nil_r; set_solver|].
  change (merge_loop (x :: a) (y :: b)) with
    (if x <=? y then x :: merge_loop a (if x =? y then b else y :: b) else y :: merge_loop (x :: a) b).
  destruct (x <=? y); rewrite elem_of_cons; [|rewrite IHb; set_solver].
  rewrite IHa. destruct (Z.eqb_spec x y) as [->|]; set_solver.
Qed.

Lemma and_loop_elem a : StronglySorted Z.lt a -> forall b, StronglySorted Z.lt b -> forall c, c ∈ and_loop a b <-> c ∈ a /\ c ∈ b.
Proof.
  induction 1 as [|x a Ha IHa Hx]; [intros b _ c; destruct b; set_solver|].
  induction 1 as [|y b Hb IHb Hy]; intros c; [set_solver|].
  change (and_loop (x :: a) (y :: b)) with
    (if x <=? y then (if x =? y then y :: and_loop a b else and_loop a (y :: b)) else and_loop (x :: a) b).
  rewrite Forall_forall in Hx, Hy. destruct (Z.leb_spec x y) as [Hle|Hlt].
  - destruct (Z.eqb_spec x y) as [->|Hne].
    + rewrite !elem_of_cons, IHa by done. split; [set_solver|]. intros [[->|Hca] [?|Hcb]]; set_solver.
    + rewrite IHa by by (constructor; [|apply Forall_forall]). rewrite !elem_of_cons. split; [set_solver|].
      intros [[->|Hca] Hcb]; [|done]. destruct Hcb as [->|Hcb]; [done|]. specialize (Hy _ Hcb). lia.
  - rewrite IHb, !elem_of_cons. split; [set_solver|]. intros [Hca [->|Hcb]]; [|done].
    destruct Hca as [->|Hca]; [lia|]. specialize (Hx _ Hca). lia.
Qed.

(** ** Memory *)

(** The references to a map; none when it is freed. *)
Definition refs (M : memory) (p : Z) : Z := match M !! p with Some m => refcnt m | None => 0 end.

(** A reference to a map, and not so many that the count stays where it is. *)
Definition held (M : memory) (p : Z) : Prop := exists m, M !! p = Some m /\ 0 < refcnt m < UINT_MAX - 1 /\ sorted (cpus m).

(** Processor [c] is in the map at [p]. *)
Definition in_map (M : memory) (p c : Z) : Prop := exists m, M !! p = Some m /\ c ∈ cpus m.

(** No map but [r] has other contents than before. *)
Definition kept (M M' : memory) (r : Z) : Prop :=
  forall p m', M' !! p = Some m' -> p <> r -> exists m, M !! p = Some m /\ cpus m' = cpus m.

Lemma map_get_ok M p : held M p -> p <> 0 -> exists M', perf_cpu_map__get p M = Some (p, M') /\
  (forall x, refs M' x = refs M x + (if decide (x = p) then 1 else 0)) /\ (exists m m', M !! p = Some m /\ M' !! p = Some m' /\ cpus m' = cpus m) /\ kept M M' p.
Proof.
  intros (m & Hm & Hr & Hs) Hp. unfold perf_cpu_map__get. rewrite (proj2 (Z.eqb_neq _ _) Hp), Hm. cbn.
  assert (refcount_inc (refcnt m) = Some (refcnt m + 1)) as ->.
  { unfold refcount_inc. rewrite u32_small by (unfold UINT_MAX in *; lia).
    by rewrite !(proj2 (Z.eqb_neq _ _)) by lia. }
  cbn. eexists. split; [done|]. split; [|split].
  - intros x. unfold refs. case_decide as Hx; [subst x; by rewrite lookup_insert_eq, Hm|]. rewrite lookup_insert_ne by done. lia.
  - exists m. rewrite lookup_insert_eq. by eexists.
  - intros x m' Hx Hne. rewrite lookup_insert_ne in Hx by done. by exists m'.
Qed.

Lemma map_put_ok M p : held M p -> p <> 0 -> exists M', perf_cpu_map__put p M = Some M' /\
  (forall x, refs M' x = refs M x - (if decide (x = p) then 1 else 0)) /\ (forall x, x <> p -> M' !! x = M !! x) /\
  (forall m', M' !! p = Some m' -> exists m, M !! p = Some m /\ cpus m' = cpus m).
Proof.
  intros (m & Hm & Hr & Hs) Hp. unfold perf_cpu_map__put. rewrite (proj2 (Z.eqb_neq _ _) Hp), Hm. cbn.
  assert (refcount_dec_and_test (refcnt m) = Some (refcnt m - 1, refcnt m - 1 =? 0)) as ->.
  { unfold refcount_dec_and_test, refcount_sub_and_test. rewrite u32_small by (unfold UINT_MAX in *; lia).
    rewrite (proj2 (Z.eqb_neq _ _)), (proj2 (Z.ltb_ge _ _)) by lia. done. }
  cbn. eexists. split; [done|]. destruct (Z.eqb_spec (refcnt m - 1) 0) as [E|E].
  - split; [|split].
    + intros x. unfold refs. case_decide as Hx; [subst x; rewrite lookup_delete_eq, Hm; lia|]. rewrite lookup_delete_ne by done. lia.
    + intros x Hx. by rewrite lookup_delete_ne.
    + intros m' Hx. by rewrite lookup_delete_eq in Hx.
  - split; [|split].
    + intros x. unfold refs. case_decide as Hx; [subst x; by rewrite lookup_insert_eq, Hm|]. rewrite lookup_insert_ne by done. lia.
    + intros x Hx. by rewrite lookup_insert_ne.
    + intros m' Hx. rewrite lookup_insert_eq in Hx. injection Hx as <-. by exists m.
Qed.

(** The reference to [p] has become one to [r], whose contents are those of [S]. *)
Definition combined (M M' : memory) (p r : Z) (S : Z -> Prop) : Prop :=
  (forall x, x <> 0 -> refs M' x = refs M x - (if decide (x = p) then 1 else 0) + (if decide (x = r) then 1 else 0)) /\
  kept M M' r /\ (r = 0 \/ exists m, M' !! r = Some m /\ sorted (cpus m)) /\ (forall c, in_map M' r c <-> S c).

Lemma kept_refl M r : kept M M r.
Proof. intros x m' Hx _. by exists m'. Qed.

Lemma combined_same M p (S : Z -> Prop) : p = 0 \/ held M p -> (forall c, in_map M p c <-> S c) -> combined M M p p S.
Proof.
  intros Hp HS. split; [intros x _; case_decide; lia|]. split; [apply kept_refl|]. split; [|done].
  destruct Hp as [?|(m & ? & _ & ?)]; [by left|right; by exists m].
Qed.

Section combine.
Context (qsort : (Z -> Z -> Z) -> list Z -> list Z) (Hq : sorts qsort).

Lemma in_map_at M p m c : M !! p = Some m -> in_map M p c <-> c ∈ cpus m.
Proof using. intros Hm. unfold in_map. rewrite Hm. split; [by intros (? & [= <-] & ?)|intros ?; by exists m]. Qed.

Lemma combine_new M M' p a l : held M p -> p <> 0 -> a <> 0 -> M !! a = None -> (forall c, c ∈ l -> -1 <= c < INT_MAX) ->
  perf_cpu_map__put p (<[a := CpuMap 1 (trimmed qsort l)]> M) = Some M' -> combined M M' p a (fun c => c ∈ l).
Proof using Hq.
  intros Hp Hp0 Ha0 Ha Hl HM'. assert (a <> p) as Hne by (intros ->; destruct Hp as (m & Hm & _); congruence).
  destruct (map_put_ok (<[a := CpuMap 1 (trimmed qsort l)]> M) p) as (M2 & E & Hrefs & Hother & Hself).
  { destruct Hp as (m & Hm & ?). exists m. by rewrite lookup_insert_ne. }
  { done. }
  rewrite E in HM'. injection HM' as ->. destruct (trimmed_ok qsort Hq l Hl) as [Hs Hin].
  assert (M' !! a = Some (CpuMap 1 (trimmed qsort l))) as HMa by (rewrite Hother by done; apply lookup_insert_eq).
  split; [|split; [|split]].
  - intros x Hx. rewrite Hrefs. unfold refs at 1 2. destruct (decide (x = a)) as [->|Hxa].
    + rewrite lookup_insert_eq, Ha. cbn. case_decide; lia.
    + rewrite lookup_insert_ne by done. lia.
  - intros x m' Hx Hxa. destruct (decide (x = p)) as [->|Hxp].
    + destruct (Hself m' Hx) as (m & Hm & ?). exists m. by rewrite lookup_insert_ne in Hm by done.
    + rewrite Hother, lookup_insert_ne in Hx by done. by exists m'.
  - right. by exists (CpuMap 1 (trimmed qsort l)).
  - intros c. rewrite (in_map_at _ _ _ _ HMa). cbn. apply Hin.
Qed.

(** Two maps are combined in new memory, and there is not enough: [tmp] is whether there is
    some for the array, [a] that for the map. *)
Definition short (tmp : bool) (a p q : Z) (M : memory) : Prop :=
  p <> 0 /\ q <> 0 /\ cpus <$> M !! p <> cpus <$> M !! q /\ (tmp = false \/ a = 0).

(** What is left then: without the array everything as it was, the reference to the first
    still with the caller; without the map that reference has been put. *)
Definition unfinished (tmp : bool) (M M' : memory) (p : Z) : Prop :=
  if tmp then (forall x, refs M' x = refs M x - (if decide (x = p) then 1 else 0)) /\ kept M M' 0 else M' = M.

Lemma combine_ok loop (S : Z -> Prop) tmp a p q M :
  p = 0 \/ held M p -> q = 0 \/ held M q -> M !! 0 = None -> M !! a = None ->
  (p = 0 -> forall c, in_map M q c <-> S c) -> (q = 0 -> p <> 0 -> forall c, in_map M p c <-> S c) ->
  (forall x y c, M !! p = Some x -> M !! q = Some y -> p <> 0 -> q <> 0 -> sorted (cpus x) -> sorted (cpus y) ->
    (c ∈ loop (cpus x) (cpus y) <-> S c) /\ (cpus x = cpus y -> c ∈ cpus x <-> S c) /\ (S c -> c ∈ cpus x \/ c ∈ cpus y)) ->
  exists r M', combine qsort loop tmp a p q M = Some (r, M') /\
    (short tmp a p q M -> r = 0 /\ unfinished tmp M M' p) /\
    (~ short tmp a p q M -> (r = 0 <-> p = 0 /\ q = 0) /\ combined M M' p r S).
Proof using Hq.
  intros Hp Hq' HM0 Ha H0 H1 H2. unfold combine.
  destruct (Z.eqb_spec p 0) as [->|Hp0]; destruct (Z.eqb_spec q 0) as [->|Hq0]; cbn [andb].
  - exists 0, M. split; [done|]. split; [by intros [? _]|]. intros _. split; [done|]. apply combined_same; [by left|by apply H0].
  - destruct Hq' as [?|Hq']; [done|]. destruct (map_get_ok M q Hq' Hq0) as (M' & -> & Hrefs & (m & m' & Hm & Hm' & Hc) & Hk).
    exists q, M'. split; [done|]. split; [by intros [? _]|]. intros _. split; [tauto|]. split; [|split; [done|split]].
    + intros x Hx. rewrite Hrefs, (decide_False (P := x = 0)) by done. lia.
    + right. exists m'. split; [done|]. destruct Hq' as (m0 & Hm0 & _ & Hs). rewrite Hc. congruence.
    + intros c. rewrite <- H0 by done. by rewrite (in_map_at _ _ _ _ Hm), (in_map_at _ _ _ _ Hm'), Hc.
  - exists p, M. split; [done|]. split; [by intros (_ & ? & _)|]. intros _. split; [tauto|]. apply combined_same; [done|by apply H1].
  - destruct Hp as [?|Hp]; [done|]. destruct Hq' as [?|Hq']; [done|].
    destruct Hp as (x & Hx & Hrx & Hsx), Hq' as (y & Hy & Hry & Hsy). rewrite Hx, Hy. cbn [mbind option_bind].
    assert (held M p) as Hp by (by exists x). unfold short. rewrite Hx, Hy. cbn [fmap option_fmap option_map]. case_bool_decide as He.
    + exists p, M. split; [done|]. split; [intros (_ & _ & Hn & _); by rewrite He in Hn|]. intros _. split; [tauto|].
      apply combined_same; [by right|]. intros c. rewrite (in_map_at _ _ _ _ Hx). by apply (H2 x y c).
    + assert (Some (cpus x) <> Some (cpus y)) as He' by congruence.
      destruct tmp; [|exists 0, M; split; [done|]; split; [done|]; intros Hn; exfalso; apply Hn; auto].
      assert (forall c, c ∈ loop (cpus x) (cpus y) -> -1 <= c < INT_MAX) as Hl.
      { intros c Hc. destruct (H2 x y c) as (Hc' & _ & Hb); [done..|]. apply Hc', Hb in Hc as [?|?]; [by apply Hsx|by apply Hsy]. }
      unfold cpu_map__trim_new, new_map. destruct (Z.eqb_spec a 0) as [->|Ha0].
      * destruct (map_put_ok M p Hp Hp0) as (M' & -> & Hrefs & Hother & Hself). cbn. exists 0, M'. split; [done|].
        split; [|intros Hn; exfalso; apply Hn; auto]. intros _. split; [done|]. split; [done|]. intros z m' Hz _.
        destruct (decide (z = p)) as [->|Hzp]; [by apply Hself|]. rewrite Hother in Hz by done. by exists m'.
      * destruct (map_put_ok (<[a := CpuMap 1 (trimmed qsort (loop (cpus x) (cpus y)))]> M) p) as (M2 & E & _).
        { exists x. rewrite lookup_insert_ne by congruence. done. }
        { done. }
        rewrite E. cbn. exists a, M2. split; [done|]. split; [by intros (_ & _ & _ & [?|?])|]. intros _. split; [tauto|].
        destruct (combine_new M M2 p a (loop (cpus x) (cpus y)) Hp Hp0 Ha0 Ha Hl E) as (R & K & Sm & I).
        split; [done|]. split; [done|]. split; [done|]. intros c. rewrite I. by apply (H2 x y c).
Qed.
End combine.

(** ** The index of a processor *)

Lemma cpu_loop_total cpus cpu fuel low high : 0 <= low <= high -> high <= Z.of_nat (length cpus) -> high - low < Z.of_nat fuel ->
  is_Some (cpu_idx_loop fuel cpus cpu low high).
Proof.
  revert low high. induction fuel as [|fuel IH]; intros low high Hl Hh Hf; cbn.
  - destruct (Z.ltb_spec low high); lia.
  - destruct (Z.ltb_spec low high); [|done]. assert (low <= (low + high) / 2 < high) as Hm by dlia.
    destruct (lookup_lt_is_Some_2 cpus (Z.to_nat ((low + high) / 2))) as [x ->]; [lia|]. cbn.
    destruct (x =? cpu); [done|]. destruct (cpu <? x); apply IH; lia.
Qed.

Lemma cpu_idx_total cpus cpu : is_Some (perf_cpu_map__idx cpus cpu).
Proof. apply cpu_loop_total; lia. Qed.

(** In ascending order a processor has its index, and others have none. *)
Lemma cpu_loop_ok cpus cpu fuel low high i : (forall j k x y, (j < k)%nat -> cpus !! j = Some x -> cpus !! k = Some y -> x < y) ->
  0 <= low -> high <= Z.of_nat (length cpus) ->
  (forall j x, cpus !! j = Some x -> Z.of_nat j < low -> x < cpu) ->
  (forall j x, cpus !! j = Some x -> high <= Z.of_nat j -> cpu < x) ->
  cpu_idx_loop fuel cpus cpu low high = Some i ->
  (i = -1 /\ ~ cpu ∈ cpus) \/ (0 <= i /\ cpus !! Z.to_nat i = Some cpu).
Proof.
  intros Hs. revert low high. induction fuel as [|fuel IH]; intros low high Hl Hh Hlow Hhigh E; cbn in E; [done|].
  destruct (Z.ltb_spec low high) as [Hlt|Hge].
  - assert (low <= (low + high) / 2 < high) as Hm by dlia. set (m := (low + high) / 2) in *.
    destruct (cpus !! Z.to_nat m) as [x|] eqn:Ex; [|done]. cbn in E.
    destruct (Z.eqb_spec x cpu) as [->|Hne]; [injection E as <-; right; split; [lia|done]|].
    destruct (Z.ltb_spec cpu x).
    + apply (IH low m) in E; [done|lia|lia|done|]. intros j y Hy Hj.
      destruct (decide (j = Z.to_nat m)) as [->|]; [congruence|]. pose proof (Hs (Z.to_nat m) j x y ltac:(lia) Ex Hy). lia.
    + apply (IH (m + 1) high) in E; [done|lia|lia| |done]. intros j y Hy Hj.
      destruct (decide (j = Z.to_nat m)) as [->|]; [assert (x = y) by congruence; lia|].
      pose proof (Hs j (Z.to_nat m) y x ltac:(lia) Hy Ex). lia.
  - injection E as <-. left. split; [done|]. intros (j & Hj)%list_elem_of_lookup.
    destruct (decide (Z.of_nat j < low)); [specialize (Hlow j _ Hj)|specialize (Hhigh j _ Hj)]; lia.
Qed.

(** ** Properties *)

(** C35: Merging and intersecting maps.  Whatever two maps are held, or none, and none is not
    an empty map: the result of [perf_cpu_map__merge] has the processors of both, that of
    [perf_cpu_map__and] those of both at once, for which no map is all processors; it is
    sorted, it takes over the reference to the first, and a map whose last reference that
    was is freed; no other map changes and no other count of references, so that of the
    second is raised only where there is no first and the second is the result.  The comments
    above both functions say that it is raised always: where both are given the code does
    not, and this states what the code does.  Where two different maps need memory and it is
    [short], the result is null: without the array nothing changes, and the caller still has
    the reference to the first; without the map that reference is put. *)
Theorem cpu_maps_combined qsort tmp a p q M :
  sorts qsort -> p = 0 \/ held M p -> q = 0 \/ held M q -> M !! 0 = None -> M !! a = None ->
  (exists r M', perf_cpu_map__merge qsort tmp a p q M = Some (r, M') /\
     (short tmp a p q M -> r = 0 /\ unfinished tmp M M' p) /\
     (~ short tmp a p q M -> (r = 0 <-> p = 0 /\ q = 0) /\
        combined M M' p r (fun c => in_map M p c \/ in_map M q c))) /\
  (exists r M', perf_cpu_map__and qsort tmp a p q M = Some (r, M') /\
     (short tmp a p q M -> r = 0 /\ unfinished tmp M M' p) /\
     (~ short tmp a p q M -> (r = 0 <-> p = 0 /\ q = 0) /\
        combined M M' p r (fun c => (p = 0 \/ in_map M p c) /\ (q = 0 \/ in_map M q c) /\ (p = 0 -> q <> 0)))).
Proof.
  intros Hqs Hp Hq HM0 Ha. assert (forall c, ~ in_map M 0 c) as Hno by (intros c (m & Hm & _); congruence).
  split; apply (combine_ok qsort Hqs); try done.
  - intros -> c. specialize (Hno c). tauto.
  - intros -> _ c. specialize (Hno c). tauto.
  - intros x y c Hx Hy _ _ _ _. rewrite (in_map_at _ _ _ _ Hx), (in_map_at _ _ _ _ Hy), merge_loop_elem.
    split; [done|]. split; [intros ->; tauto|tauto].
  - intros -> c. specialize (Hno c). destruct (decide (q = 0)) as [->|]; tauto.
  - intros -> Hp0 c. tauto.
  - intros x y c Hx Hy Hp0 Hq0 [Hsx _] [Hsy _]. rewrite (in_map_at _ _ _ _ Hx), (in_map_at _ _ _ _ Hy), and_loop_elem by done.
    split; [tauto|]. split; [intros ->; tauto|tauto].
Qed.

(** The first map of the example has one reference and is freed. *)
Lemma cpu_maps_combined_witness :
  let M : memory := {[8 := CpuMap 1 [0; 1; 2; 3]; 16 := CpuMap 2 [2; 3; 7]]} in
  (forall r M', perf_cpu_map__and insertion_sort true 24 8 16 M = Some (r, M') ->
     r = 24 /\ M' = {[16 := CpuMap 2 [2; 3; 7]; 24 := CpuMap 1 [2; 3]]}) /\
  exists r M', perf_cpu_map__merge insertion_sort true 24 8 16 M = Some (r, M') /\ r <> 0 /\ in_map M' r 7 /\ refs M' 8 = 0.
Proof.
  intros M. split; [intros r M' E; vm_compute in E; injection E as <- <-; split; vm_compute; reflexivity|].
  assert (forall l, bool_decide (Sorted Z.lt l /\ Forall (fun c => -1 <= c < INT_MAX) l) = true -> sorted l) as Hdec.
  { intros l [H1 H2]%bool_decide_eq_true. split; [by apply Sorted_StronglySorted; [intros x y z; lia|]|by apply Forall_forall]. }
  destruct (cpu_maps_combined insertion_sort true 24 8 16 M) as [(r & M' & E & _ & Hok) _].
  - apply insertion_sorts.
  - right. exists (CpuMap 1 [0; 1; 2; 3]). split; [reflexivity|]. split; [vm_compute; split; reflexivity|]. apply Hdec. vm_compute. reflexivity.
  - right. exists (CpuMap 2 [2; 3; 7]). split; [reflexivity|]. split; [vm_compute; split; reflexivity|]. apply Hdec. vm_compute. reflexivity.
  - reflexivity.
  - reflexivity.
  - destruct Hok as (Hr0 & Hrefs & _ & _ & Hin); [intros (_ & _ & _ & [?|?]); discriminate|].
    exists r, M'. split; [exact E|]. assert (r <> 0) as Hr by (intros [? _]%Hr0; discriminate). split; [exact Hr|]. split.
    + apply Hin. right. exists (CpuMap 2 [2; 3; 7]). split; [reflexivity|]. cbn. repeat ((left; reflexivity) || right).
    + vm_compute in E. injection E as <- <-. vm_compute. reflexivity.
Defined.

(** The binary search ends within the array; it finds the processor, or tells that it is
    not in the map. *)
Theorem cpu_index_found l cpu : StronglySorted Z.lt l ->
  exists r, perf_cpu_map__idx l cpu = Some r /\ ((r = -1 /\ cpu ∉ l) \/ exists i, r = Z.of_nat i /\ l !! i = Some cpu).
Proof.
  intros Hs. destruct (cpu_idx_total l cpu) as [r E]. exists r. split; [done|].
  destruct (cpu_loop_ok l cpu (S (length l)) 0 (Z.of_nat (length l)) r) as [?|[Hr Hi]]; [|lia|lia|lia| |done|by left|].
  - intros j k x y Hjk Hx Hy. by apply (sorted_nth Z.lt l j k).
  - intros j x Hx%lookup_lt_Some. lia.
  - right. exists (Z.to_nat r). split; [lia|done].
Qed.

Lemma cpu_index_found_witness :
  StronglySorted Z.lt [0; 2; 3; 7] /\ exists r, perf_cpu_map__idx [0; 2; 3; 7] 3 = Some r /\ [0; 2; 3; 7] !! Z.to_nat r = Some 3.
Proof.
  assert (StronglySorted Z.lt [0; 2; 3; 7]) as Hs by (repeat constructor).
  split; [exact Hs|]. destruct (cpu_index_found [0; 2; 3; 7] 3 Hs) as (r & E & [[_ Hn]|(i & -> & Hi)]).
  - destruct Hn. right. right. left.
  - exists (Z.of_nat i). split; [exact E|]. by rewrite Nat2Z.id.
Defined.

(** Maps with no processor in common have an empty intersection, which is not null, and
    whose first element is looked at nevertheless. *)
Example disjoint_maps :
  let M : memory := {[8 := CpuMap 1 [4; 5]; 16 := CpuMap 1 [0; 1]]} in
  perf_cpu_map__and insertion_sort true 24 8 16 M = Some (24, {[16 := CpuMap 1 [0; 1]; 24 := CpuMap 1 []]}) /\
  perf_cpu_map__empty (Some []) = None.
Proof. vm_compute. split; reflexivity. Qed.
