(* ===== verification/CpuText.v ===== *)
(** * Maps of processors as text (lib/perf/cpumap.c, lib/string.c)

    A map is printed as a list of processors and ranges in a buffer whose size is computed
    first, and read back from a string or from a file of the kernel.  Characters are bytes,
    a string has no terminator, and the character after its end is zero.  What is used of
    the library - [strtoul] in base 0, [fscanf] and [snprintf] of decimal numbers - is
    defined as the standard has it. *)

From stdpp Require Import sorting.
From S2P Require Import Prelude CpuMap.

(** The result of a function: a value, null, or something undefined. *)
Inductive res (A : Type) : Type := Ok (x : A) | Null | Undef.
Arguments Ok {A} x.
Arguments Null {A}.
Arguments Undef {A}.
#[export] Instance res_bind : MBind res := fun A B f m => match m with Ok x => f x | Null => Null | Undef => Undef end.

Definition COMMA : Z := 44.
Definition DASH : Z := 45.
Definition NEWLINE : Z := 10.

Definition MAX_NR_CPUS : Z := 2048.

(** ** Numbers as text *)

(** The decimal digits of a number of at most [k] + 1 digits. *)
Fixpoint digits (k : nat) (n : Z) : list Z :=
  match k with
  | O => [48 + n]
  | S k => if n <? 10 then [48 + n] else digits k (n / 10) ++ [48 + n mod 10]
  end.
(** [%d] of an integer. *)
Definition decimal (n : Z) : list Z := if n <? 0 then DASH :: digits 9 (- n) else digits 9 n.

Definition table : list Z :=
  [9; 99; 999; 9999; 99999; 999999; 9999999; 99999999; 999999999; 9999999999; 99999999999; 999999999999; 9999999999999;
   99999999999999; 999999999999999; 9999999999999999; 99999999999999999; 999999999999999999; 9999999999999999999; U64_MAX].

(** The first entry that is not less; the last is. *)
Definition strsize (u : Z) : Z := match list_find (fun t => u <= t) table with Some (i, _) => Z.of_nat i + 1 | None => 0 end.

(** What is read of a number: blanks, a sign, digits of a base. *)
Definition isspace (c : Z) : bool := (c =? 32) || ((9 <=? c) && (c <=? 13)).
Definition isdigit (c : Z) : bool := (48 <=? c) && (c <=? 57).
Definition digit_value (c : Z) : Z :=
  if isdigit c then c - 48
  else if (97 <=? c) && (c <=? 122) then c - 87
  else if (65 <=? c) && (c <=? 90) then c - 55
  else 36.

Fixpoint skip_space (l : list Z) : list Z :=
  match l with c :: l' => if isspace c then skip_space l' else l | [] => [] end.

Definition sign (l : list Z) : bool * list Z :=
  match l with c :: l' => if c =? DASH then (true, l') else if c =? 43 then (false, l') else (false, l) | [] => (false, l) end.

Fixpoint read_digits (base acc : Z) (l : list Z) : Z * list Z :=
  match l with
  | c :: l' => if digit_value c <? base then read_digits base (acc * base + digit_value c) l' else (acc, l)
  | [] => (acc, l)
  end.

(** The character at the start. *)
Definition peek (l : list Z) : Z := default 0 (head l).

(** A number in base 10; [None] when there is no digit. *)
Definition decimal_number (l : list Z) : option (Z * list Z) :=
  if isdigit (peek l) then Some (read_digits 10 0 l) else None.

(** A number in the base its prefix tells. *)
Definition prefixed_number (l : list Z) : option (Z * list Z) :=
  if peek l =? 48 then
    let x := peek (drop 1 l) in
    if ((x =? 120) || (x =? 88)) && (digit_value (peek (drop 2 l)) <? 16) then Some (read_digits 16 0 (drop 2 l))
    else Some (read_digits 8 0 l)
  else decimal_number l.

(** The value of an [unsigned long]. *)
Definition converted (neg : bool) (v : Z) : Z := if U64_MAX <? v then U64_MAX else if neg then u64 (- v) else v.

(** [strtoul] in base 0: the value and where the number ends, the start when there is none. *)
Definition strtoul (l : list Z) : Z * list Z :=
  let '(neg, l') := sign (skip_space l) in
  match prefixed_number l' with
  | Some (v, rest) => (converted neg v, rest)
  | None => (0, l)
  end.

(** [fscanf] of [%u%c]: how many were read, and the values read; [sep] keeps its own when it is
    not. *)
Definition fscanf (file : list Z) (cpu sep : Z) : Z * Z * Z * list Z :=
  let l := skip_space file in
  if bool_decide (l = []) then (-1, cpu, sep, [])
  else
    let '(neg, l') := sign l in
    match decimal_number l' with
    | None => (0, cpu, sep, l')
    | Some (v, c :: rest) => (2, s32 (converted neg v), c, rest)
    | Some (v, []) => (1, s32 (converted neg v), sep, [])
    end.

(** ** Printing *)

(** The end of the range that starts before [l], and what is after it. *)
Fixpoint range (end_cpu : Z) (l : list Z) : Z * list Z :=
  match l with
  | c :: l' => if end_cpu + 1 =? c then range c l' else (end_cpu, l)
  | [] => (end_cpu, [])
  end.

(** [snprintf] of [text] at [pos]; the size that is left is a [size_t], so a position beyond
    the buffer is an access outside it. *)
Definition snprintf (pos size : nat) (text str : list Z) : res (list Z) :=
  if (size <? pos)%nat then Undef
  else if (pos =? size)%nat then Ok str
  else Ok (list_inserts pos (take (size - pos - 1) text ++ [0]) str).

Fixpoint print_loop (k pos size : nat) (l str : list Z) : res (nat * list Z) :=
  match k with
  | O => Undef
  | S k =>
      match l with
      | [] => Undef
      | start_cpu :: l =>
          let '(end_cpu, l) := range start_cpu l in
          let c := if bool_decide (l = []) then 0 else COMMA in
          let text := if start_cpu =? end_cpu then decimal start_cpu ++ [c] else decimal start_cpu ++ DASH :: decimal end_cpu ++ [c] in
          str ← snprintf pos size text str;
          let pos := (pos + length text)%nat in
          if bool_decide (l = []) then Ok (pos, str) else print_loop k pos size l str
      end
  end.

(** A string ends at the first zero. *)
Fixpoint cstring (l : list Z) : list Z := match l with c :: l => if c =? 0 then [] else c :: cstring l | [] => [] end.

(** The size of the buffer, computed with integers. *)
Definition text_size (l : list Z) : Z := s32 (s32 (Z.of_nat (length l) * (strsize (u64 (perf_cpu_map__max l)) + 1)) + 1).

(** [mem] is whether there is memory of a size; [junk] is what is in it. *)
Definition perf_cpu_map__string (mem : Z -> bool) (junk : nat -> list Z) (cpus : option (list Z)) : res (list Z) :=
  match cpus with
  | None => Null
  | Some l =>
      let size := u64 (text_size l) in
      if mem size then
        '(pos, str) ← print_loop (S (length l)) 0 (Z.to_nat size) l (junk (Z.to_nat size));
        let pos := (pos + 1)%nat in
        if (Z.of_nat pos =? size) || mem (Z.of_nat pos) then Ok (cstring (take pos str)) else Null
      else Null
  end.

(** ** Reading *)

Section read.
Variable mem : Z -> bool.

(** The array of processors and the number for which there is room. *)
Definition array : Type := list Z * Z.

Definition room (n : Z) (tmp : array) : res array := if mem (u64 (n * 4)) then Ok (tmp.1, n) else Null.

(** A store; [Undef] is beyond the room. *)
Definition put_cpu (cpu : Z) (tmp : array) : res array :=
  if Z.of_nat (length tmp.1) <? tmp.2 then Ok (tmp.1 ++ [cpu], tmp.2) else Undef.

Definition append (cpu : Z) (tmp : array) : res array :=
  tmp ← (if Z.of_nat (length tmp.1) =? tmp.2 then room (s32 (tmp.2 + MAX_NR_CPUS)) tmp else Ok tmp);
  put_cpu cpu tmp.

(** [n] processors from [start_cpu] on, none of them there before. *)
Fixpoint append_range (n : nat) (start_cpu : Z) (tmp : array) : res array :=
  match n with
  | O => Ok tmp
  | S n =>
      if bool_decide (start_cpu ∈ tmp.1) then Null
      else tmp ← append start_cpu tmp; append_range n (start_cpu + 1) tmp
  end.

(** Where a number may end. *)
Definition ends (c : Z) : bool := (c =? 0) || (c =? NEWLINE) || (c =? COMMA).

Fixpoint new_loop (k : nat) (cpu_list : list Z) (tmp : array) : res (array * list Z) :=
  match k with
  | O => Undef
  | S k =>
      if isdigit (peek cpu_list) then
        let '(start_cpu, p) := strtoul cpu_list in
        if (INT_MAX <=? start_cpu) || negb (ends (peek p) || (peek p =? DASH)) then Null
        else
          '(end_cpu, p) ← (if peek p =? DASH then
              let '(end_cpu, p) := strtoul (drop 1 p) in
              if (INT_MAX <=? end_cpu) || negb (ends (peek p)) || (end_cpu <? start_cpu) then Null else Ok (end_cpu, p)
            else Ok (start_cpu, p));
          tmp ← append_range (Z.to_nat (end_cpu - start_cpu + 1)) start_cpu tmp;
          new_loop k (drop 1 p) tmp
      else Ok (tmp, cpu_list)
  end.

Section maps.
Variable qsort : (Z -> Z -> Z) -> list Z -> list Z.
(** The number of processors the system tells. *)
Variable nr_cpus : Z.

Definition default_map : res (list Z) := if nr_cpus <? 0 then Null else Ok (seqZ 0 nr_cpus).

(** [perf_cpu_map__new] of a string: the contents of the map. *)
Definition perf_cpu_map__new (cpu_list : list Z) : res (list Z) :=
  if negb (isdigit (peek cpu_list)) && negb (bool_decide (cpu_list = [])) then Null
  else
    '(tmp, cpu_list) ← new_loop (S (length cpu_list)) cpu_list ([], 0);
    if bool_decide (tmp.1 = []) then (if bool_decide (cpu_list = []) then Ok [-1] else default_map)
    else Ok (trimmed qsort tmp.1).

(** The processors between the ends of a range, stored without a look at the room. *)
Fixpoint fill (n : nat) (prev : Z) (tmp : array) : res array :=
  match n with O => Ok tmp | S n => tmp ← put_cpu (prev + 1) tmp; fill n (prev + 1) tmp end.

Fixpoint read_loop (k : nat) (file : list Z) (cpu sep prev : Z) (tmp : array) : res array :=
  match k with
  | O => Undef
  | S k =>
      let '(n, cpu, sep, file) := fscanf file cpu sep in
      if n <=? 0 then Ok tmp
      else
        tmp ← (if 0 <=? prev then
            let new_max := s32 (Z.of_nat (length tmp.1) + cpu - prev - 1) in
            tmp ← (if tmp.2 <=? new_max then room (s32 (new_max + MAX_NR_CPUS / 2)) tmp else Ok tmp);
            fill (Z.to_nat (cpu - prev - 1)) prev tmp
          else Ok tmp);
        tmp ← append cpu tmp;
        let prev := if (n =? 2) && (sep =? DASH) then cpu else -1 in
        if (n =? 1) || (sep =? NEWLINE) then Ok tmp else read_loop k file cpu sep prev tmp
  end.

Definition perf_cpu_map__read (file : list Z) : res (list Z) :=
  tmp ← read_loop (S (length file)) file 0 0 (-1) ([], 0);
  if bool_decide (tmp.1 = []) then default_map else Ok (trimmed qsort tmp.1).

(** The processors that are online; the file may not be there. *)
Definition cpu_map__read_all_cpu_map (onlnf : option (list Z)) : res (list Z) :=
  match onlnf with Some file => perf_cpu_map__read file | None => default_map end.
End maps.
End read.

(** ** Numbers are read back *)

(** Where the digits of a number end. *)
Definition stops (l : list Z) : Prop := l = [] \/ exists c l', l = c :: l' /\ (c = COMMA \/ c = DASH \/ c = NEWLINE).

Lemma stops_digit l base acc : stops l -> base <= 16 -> read_digits base acc l = (acc, l).
Proof.
  intros [->|(c & l' & -> & Hc)] Hb; [done|]. cbn. assert (digit_value c = 36) as ->.
  { destruct Hc as [->| [->| ->]]; reflexivity. }
  by rewrite (proj2 (Z.ltb_ge 36 base)) by lia.
Qed.

Lemma isdigit_value c : isdigit c = true -> digit_value c = c - 48 /\ 0 <= c - 48 < 10.
Proof. unfold digit_value. intros Hc. rewrite Hc. unfold isdigit in Hc. lia. Qed.

Lemma digit_is d : 0 <= d < 10 -> isdigit (48 + d) = true.
Proof. unfold isdigit. lia. Qed.

Lemma digits_length k : forall n j, 0 <= n < 10 ^ (Z.of_nat j + 1) -> (length (digits k n) <= S j)%nat.
Proof.
  induction k as [|k IH]; intros n j Hn; cbn; [lia|]. destruct (Z.ltb_spec n 10); cbn; [lia|].
  rewrite length_app. cbn. destruct j as [|j]; [cbn in Hn; lia|]. specialize (IH (n / 10) j).
  rewrite Nat2Z.inj_succ, <- Z.add_1_r, Z.pow_add_r in Hn by lia. enough (0 <= n / 10 < 10 ^ (Z.of_nat j + 1)) by (specialize (IH ltac:(done)); lia).
  split; [apply Z.div_pos; lia|apply Z.div_lt_upper_bound; lia].
Qed.

Lemma read_digits_app k : forall n l acc, 0 <= n < 10 ^ (Z.of_nat k + 1) ->
  read_digits 10 acc (digits k n ++ l) = read_digits 10 (acc * 10 ^ Z.of_nat (length (digits k n)) + n) l.
Proof.
  assert (forall d l acc, 0 <= d < 10 -> read_digits 10 acc ((48 + d) :: l) = read_digits 10 (acc * 10 + d) l) as Hone.
  { intros d l acc Hd. cbn [read_digits]. destruct (isdigit_value (48 + d) (digit_is d Hd)) as [-> _].
    replace (48 + d - 48) with d by lia. by rewrite (proj2 (Z.ltb_lt d 10)) by lia. }
  induction k as [|k IH]; intros n l acc Hn.
  - cbn [digits app length]. rewrite Hone by (cbn in Hn; lia). done.
  - cbn [digits]. destruct (Z.ltb_spec n 10) as [Hlt|Hge].
    + cbn [app length]. rewrite Hone by lia. done.
    + rewrite <- app_assoc, IH.
      * cbn [app]. rewrite Hone by (apply Z.mod_pos_bound; lia). f_equal. rewrite length_app. cbn [length].
        rewrite Nat2Z.inj_add, Z.pow_add_r by lia. pose proof (Z.div_mod n 10). lia.
      * rewrite Nat2Z.inj_succ, <- Z.add_1_r, Z.pow_add_r in Hn by lia.
        split; [apply Z.div_pos; lia|apply Z.div_lt_upper_bound; lia].
Qed.

(** The first digit is not zero, but for zero. *)
Lemma digits_head k : forall n, 0 <= n < 10 ^ (Z.of_nat k + 1) ->
  exists c l, digits k n = c :: l /\ isdigit c = true /\ (c = 48 -> n = 0 /\ l = []).
Proof.
  induction k as [|k IH]; intros n Hn.
  - exists (48 + n), []. cbn in Hn. split; [done|]. split; [apply digit_is; lia|]. intros. split; [lia|done].
  - cbn [digits]. destruct (Z.ltb_spec n 10) as [Hlt|Hge].
    + exists (48 + n), []. split; [done|]. split; [apply digit_is; lia|]. intros. split; [lia|done].
    + rewrite Nat2Z.inj_succ, <- Z.add_1_r, Z.pow_add_r in Hn by lia.
      destruct (IH (n / 10)) as (c & l & -> & Hc & H0); [split; [apply Z.div_pos; lia|apply Z.div_lt_upper_bound; lia]|].
      exists c, (l ++ [48 + n mod 10]). split; [done|]. split; [done|]. intros [E _]%H0.
      pose proof (Z.div_mod n 10). pose proof (Z.mod_pos_bound n 10). lia.
Qed.

(** Processors are read back, with what is after them. *)
Definition is_cpu (c : Z) : Prop := 0 <= c < INT_MAX.

Lemma decimal_head n l : is_cpu n -> exists c l', decimal n ++ l = c :: l' /\ isdigit c = true /\ (c = 48 -> n = 0 /\ l' = l).
Proof.
  intros Hn. unfold is_cpu, INT_MAX in Hn. unfold decimal. rewrite (proj2 (Z.ltb_ge n 0)) by lia.
  destruct (digits_head 9 n) as (c & l' & -> & Hc & H0); [cbn; lia|]. exists c, (l' ++ l). split; [done|]. split; [done|].
  intros [-> ->]%H0. done.
Qed.

Lemma decimal_ok n l : is_cpu n -> stops l -> decimal_number (decimal n ++ l) = Some (n, l).
Proof.
  intros Hn Hl. unfold decimal_number. destruct (decimal_head n l Hn) as (c & l' & E & Hc & _). rewrite E.
  change (peek (c :: l')) with c. rewrite Hc, <- E. unfold is_cpu, INT_MAX in Hn. unfold decimal. rewrite (proj2 (Z.ltb_ge n 0)) by lia.
  rewrite read_digits_app by (cbn; lia). by rewrite stops_digit by (done || lia).
Qed.

Lemma digit_not c : isdigit c = true -> isspace c = false /\ (c =? DASH) = false /\ (c =? 43) = false.
Proof. unfold isdigit, isspace, DASH. lia. Qed.

Lemma number_start n l : is_cpu n -> skip_space (decimal n ++ l) = decimal n ++ l /\ sign (decimal n ++ l) = (false, decimal n ++ l).
Proof.
  intros Hn. destruct (decimal_head n l Hn) as (c & l' & -> & Hc & _). destruct (digit_not c Hc) as (H1 & H2 & H3).
  cbn. by rewrite H1, H2, H3.
Qed.

Lemma converted_ok n : is_cpu n -> converted false n = n.
Proof. intros Hn. unfold is_cpu, INT_MAX in Hn. unfold converted. by rewrite (proj2 (Z.ltb_ge _ _)) by lia. Qed.

Lemma strtoul_ok n l : is_cpu n -> stops l -> strtoul (decimal n ++ l) = (n, l).
Proof.
  intros Hn Hl. unfold strtoul. destruct (number_start n l Hn) as [-> ->].
  assert (prefixed_number (decimal n ++ l) = Some (n, l)) as ->; [|by rewrite converted_ok].
  unfold prefixed_number. destruct (decimal_head n l Hn) as (c & l' & E & Hc & H0).
  destruct (Z.eqb_spec (peek (decimal n ++ l)) 48) as [Hz|]; [|by apply decimal_ok].
  rewrite E in Hz. cbn in Hz. destruct (H0 Hz) as [-> ->]. rewrite E, Hz.
  assert ((peek l =? 120) = false /\ (peek l =? 88) = false) as [H1 H2].
  { destruct Hl as [->|(x & r & -> & [->| [->| ->]])]; by split. }
  cbn [drop]. change (drop 0 l) with l. rewrite H1, H2. cbn [orb andb].
  change (read_digits 8 0 (48 :: l)) with (read_digits 8 0 l). by rewrite stops_digit by (done || lia).
Qed.

Lemma fscanf_ok n c l cpu sep : is_cpu n -> stops (c :: l) -> fscanf (decimal n ++ c :: l) cpu sep = (2, n, c, l).
Proof.
  intros Hn Hc. unfold fscanf. destruct (number_start n (c :: l) Hn) as [-> ->]. rewrite bool_decide_eq_false_2.
  - rewrite decimal_ok by done. rewrite converted_ok by done. unfold is_cpu, INT_MAX in Hn. by rewrite s32_small by lia.
  - destruct (decimal_head n (c :: l) Hn) as (? & ? & -> & _). done.
Qed.

(** [strsize] is enough for all numbers up to its own. *)
Lemma strsize_ok u c : 0 <= c <= u -> is_cpu u -> Z.of_nat (length (decimal c)) <= strsize u /\ strsize u <= 10.
Proof.
  intros Hc Hu. unfold is_cpu, INT_MAX in Hu.
  assert (Forall (fun k => u < 10 ^ (Z.of_nat k + 1) -> Z.of_nat (length (decimal c)) <= Z.of_nat k + 1) (seq 0 10)) as Hlen.
  { apply Forall_forall. intros k _ Hk. unfold decimal. rewrite (proj2 (Z.ltb_ge c 0)) by lia.
    pose proof (digits_length 9 c k ltac:(lia)). lia. }
  unfold strsize. destruct (list_find _ table) as [[i t]|] eqn:E.
  - apply list_find_Some in E as (Hi & Ht & Hmin). assert (i < 10)%nat as Hlt.
    { destruct (decide (i < 10)%nat) as [|Hge]; [done|]. exfalso. apply (Hmin 9%nat 9999999999); [done|lia|lia]. }
    rewrite Forall_forall in Hlen. specialize (Hlen i). rewrite elem_of_seq in Hlen. specialize (Hlen ltac:(lia)).
    split; [|lia]. apply Hlen. do 10 (destruct i as [|i]; [cbn in Hi |- *; injection Hi as <-; lia|]). lia.
  - exfalso. apply list_find_None in E. rewrite Forall_forall in E. apply (E U64_MAX); [|lia]. repeat ((left; reflexivity) || right).
Qed.

(** ** Ranges *)

Lemma range_ok l : forall c e r, range c l = (e, r) -> c :: l = seqZ c (e - c + 1) ++ r /\ c <= e /\ (length r <= length l)%nat.
Proof.
  induction l as [|x l IH]; intros c e r; cbn.
  - intros [= <- <-]. replace (c - c + 1) with 1 by lia. done.
  - destruct (Z.eqb_spec (c + 1) x) as [<-|Hne].
    + intros (E & Hle & Hlen)%IH. split; [|lia]. rewrite E, (seqZ_cons c) by lia. cbn. do 3 f_equal; lia.
    + intros [= <- <-]. replace (c - c + 1) with 1 by lia. done.
Qed.

(** The text of a range, and of a map, for [k] more than there are processors. *)
Definition range_text (c e : Z) : list Z := if c =? e then decimal c else decimal c ++ DASH :: decimal e.
Fixpoint map_text (k : nat) (l : list Z) : list Z :=
  match k, l with
  | S k, c :: l => let '(e, r) := range c l in range_text c e ++ (if bool_decide (r = []) then [] else COMMA :: map_text k r)
  | _, _ => []
  end.

Lemma no_zero c e x : is_cpu c -> is_cpu e -> x ∈ range_text c e -> x <> 0.
Proof.
  assert (forall k n x, 0 <= n < 10 ^ (Z.of_nat k + 1) -> x ∈ digits k n -> x <> 0) as Hdig.
  { induction k as [|k IH]; intros n y Hn; cbn [digits]; [intros ->%list_elem_of_singleton; lia|].
    destruct (n <? 10); [intros ->%list_elem_of_singleton; lia|]. rewrite elem_of_app, list_elem_of_singleton.
    pose proof (Z.mod_pos_bound n 10). intros [Hy | ->]; [|lia]. revert Hy. apply IH.
    rewrite Nat2Z.inj_succ, <- Z.add_1_r, Z.pow_add_r in Hn by lia. split; [apply Z.div_pos; lia|apply Z.div_lt_upper_bound; lia]. }
  assert (forall n, is_cpu n -> x ∈ decimal n -> x <> 0) as Hdec.
  { intros n Hn. unfold is_cpu, INT_MAX in Hn. unfold decimal. rewrite (proj2 (Z.ltb_ge n 0)) by lia. apply Hdig. cbn. lia. }
  intros Hc He. unfold range_text, DASH. case_match; [by apply Hdec|]. rewrite elem_of_app, elem_of_cons.
  intros [Hx | [-> | Hx]]; [by apply (Hdec c)|done|by apply (Hdec e)].
Qed.

(** A range of a map and the rest of it. *)
Lemma range_step c l e r : (forall x, x ∈ c :: l -> is_cpu x) -> range c l = (e, r) ->
  is_cpu c /\ is_cpu e /\ (forall x, x ∈ r -> is_cpu x) /\ e ∈ c :: l /\ c <= e /\ length (c :: l) = (Z.to_nat (e - c + 1) + length r)%nat.
Proof.
  intros Hl (E & Hle & Hlen)%range_ok. assert (e ∈ c :: l) as He by (rewrite E, elem_of_app, elem_of_seqZ; left; lia).
  split; [apply Hl; by left|]. split; [by apply Hl|]. split; [intros x Hx; apply Hl; rewrite E, elem_of_app; by right|].
  split; [done|]. split; [done|]. by rewrite E, length_app, length_seqZ.
Qed.

Lemma map_text_nonzero k : forall l x, (forall c, c ∈ l -> is_cpu c) -> x ∈ map_text k l -> x <> 0.
Proof.
  induction k as [|k IH]; intros l x Hl; [by intros ?%elem_of_nil|]. destruct l as [|c l]; cbn [map_text]; [by intros ?%elem_of_nil|].
  destruct (range c l) as [e r] eqn:E. destruct (range_step c l e r Hl E) as (Hc & He & Hr & _).
  rewrite elem_of_app. intros [Hx | Hx]; [by apply (no_zero c e)|]. case_bool_decide; [by apply elem_of_nil in Hx|].
  apply elem_of_cons in Hx as [-> | Hx]; [done|by apply (IH r)].
Qed.

(** The buffer has room: a processor takes its digits and one character. *)
Lemma map_text_length k : forall l s, (length l < k)%nat -> (forall c, c ∈ l -> is_cpu c /\ Z.of_nat (length (decimal c)) <= s) -> l <> [] ->
  Z.of_nat (length (map_text k l)) + 1 <= Z.of_nat (length l) * (s + 1).
Proof.
  induction k as [|k IH]; intros l s Hk Hl Hne; [lia|]. destruct l as [|c l]; [done|]. cbn [map_text].
  destruct (range c l) as [e r] eqn:E. destruct (range_step c l e r) as (_ & _ & _ & He & Hle & Hlen); [apply Hl|done|].
  destruct (Hl c) as [_ Hc]; [by left|]. destruct (Hl e He) as [_ Hce].
  assert (Z.of_nat (length (range_text c e)) + 1 <= Z.of_nat (Z.to_nat (e - c + 1)) * (s + 1)) as Hrt.
  { unfold range_text. destruct (Z.eqb_spec c e) as [->|Hne']; [nia|]. rewrite length_app. cbn [length]. nia. }
  rewrite length_app, Hlen. case_bool_decide as Hr; cbn [length]; [subst r; cbn in *; lia|].
  specialize (IH r s). cbn in Hk, Hlen. pose proof (range_ok l c e r E) as (_ & _ & Hrl).
  assert (forall c, c ∈ r -> is_cpu c /\ Z.of_nat (length (decimal c)) <= s) as Hr'.
  { intros x Hx. apply Hl. rewrite (proj1 (range_ok l c e r E)), elem_of_app. by right. }
  specialize (IH ltac:(lia) Hr' Hr). nia.
Qed.

(** ** What is printed *)

Lemma snprintf_ok text out rest : (length text < length rest)%nat ->
  exists rest', snprintf (length out) (length out + length rest) text (out ++ rest) = Ok ((out ++ text) ++ 0 :: rest') /\
    length rest = (length text + S (length rest'))%nat.
Proof.
  intros Hlen. unfold snprintf. rewrite (proj2 (Nat.ltb_ge _ _)) by lia. rewrite (proj2 (Nat.eqb_neq _ _)) by lia.
  exists (drop (length text + 1) rest). split; [|rewrite length_drop; lia]. f_equal.
  rewrite take_ge by lia. rewrite <- (Nat.add_0_r (length out)) at 1. rewrite list_inserts_app_r, <- app_assoc. f_equal.
  rewrite <- (take_drop (length text + 1) rest) at 1. rewrite list_inserts_0_r by (rewrite length_app, length_take; cbn; lia).
  by rewrite <- app_assoc.
Qed.

Lemma text_print_ok k : forall l out rest, (length l < k)%nat -> (forall c, c ∈ l -> is_cpu c) -> l <> [] ->
  (length (map_text k l) + 1 < length rest)%nat ->
  exists rest', print_loop k (length out) (length out + length rest) l (out ++ rest) =
    Ok ((length out + length (map_text k l) + 1)%nat, (out ++ map_text k l) ++ 0 :: rest').
Proof.
  induction k as [|k IH]; intros l out rest Hk Hl Hne Hroom; [lia|]. destruct l as [|c l]; [done|].
  cbn [print_loop map_text] in *. destruct (range c l) as [e r] eqn:E. destruct (range_step c l e r Hl E) as (Hc & He & Hr & _).
  pose proof (range_ok l c e r E) as (_ & _ & Hlen). cbn in Hk.
  set (t := if c =? e then _ else _). assert (t = range_text c e ++ [if bool_decide (r = []) then 0 else COMMA]) as Ht.
  { unfold t, range_text. destruct (c =? e); [done|]. by rewrite <- app_assoc. }
  rewrite length_app in Hroom. rewrite Ht. clear t Ht. case_bool_decide as Hre; cbn [length] in Hroom.
  - destruct (snprintf_ok (range_text c e ++ [0]) out rest) as (rest' & -> & Hrest); [rewrite length_app; cbn; lia|].
    cbn [mbind res_bind]. exists (0 :: rest'). rewrite !length_app, <- !app_assoc. cbn. do 2 f_equal. lia.
  - destruct (snprintf_ok (range_text c e ++ [COMMA]) out rest) as (rest' & -> & Hrest); [rewrite length_app; cbn; lia|].
    cbn [mbind res_bind]. destruct (IH r (out ++ range_text c e ++ [COMMA]) (0 :: rest')) as (rest2 & E2); [lia|done|done|..].
    { rewrite length_app in Hrest. cbn in Hrest |- *. lia. }
    exists rest2. rewrite length_app in E2. cbn [length] in E2. replace (length out + length (range_text c e ++ [COMMA]) + S (length rest'))%nat
      with (length out + length rest)%nat in E2 by lia. rewrite E2. f_equal. rewrite !length_app, <- !app_assoc. cbn. f_equal. lia.
Qed.

Lemma cstring_ok l rest : (forall c, c ∈ l -> c <> 0) -> cstring (l ++ 0 :: rest) = l.
Proof.
  induction l as [|c l IH]; intros Hl; [done|]. cbn. rewrite (proj2 (Z.eqb_neq c 0)) by (apply Hl; by left).
  rewrite IH; [done|]. intros x Hx. apply Hl. by right.
Qed.

Definition cpu_list (l : list Z) : Prop := StronglySorted Z.lt l /\ (forall c, c ∈ l -> is_cpu c) /\ l <> [] /\ Z.of_nat (length l) < 2 ^ 27.

Lemma max_ok l : cpu_list l -> is_cpu (perf_cpu_map__max l) /\ forall c, c ∈ l -> c <= perf_cpu_map__max l.
Proof.
  intros (Hs & Hl & Hne & _). unfold perf_cpu_map__max. destruct (last l) as [m|] eqn:E; [|by apply last_None in E].
  cbn. rewrite last_lookup in E. split; [apply Hl; by eapply list_elem_of_lookup_2|].
  intros c (i & Hi)%list_elem_of_lookup. apply lookup_lt_Some in Hi as Hlt. destruct (decide (i = pred (length l))) as [->|]; [assert (c = m) by congruence; lia|].
  pose proof (sorted_nth Z.lt l i _ c m Hs Hi E ltac:(lia)). lia.
Qed.

Lemma string_ok mem junk l : cpu_list l -> (forall n, mem n = true) -> (forall n, length (junk n) = n) ->
  perf_cpu_map__string mem junk (Some l) = Ok (map_text (S (length l)) l).
Proof.
  intros Hcl Hmem Hjunk. pose proof (max_ok l Hcl) as [Hm Hle]. destruct Hcl as (Hs & Hl & Hne & Hlen).
  assert (forall c, c ∈ l -> is_cpu c /\ Z.of_nat (length (decimal c)) <= strsize (perf_cpu_map__max l)) as Hdec.
  { intros c Hc. split; [by apply Hl|]. apply strsize_ok; [|done]. split; [apply (Hl c Hc)|by apply Hle]. }
  pose proof (map_text_length (S (length l)) l _ ltac:(lia) Hdec Hne) as Htl.
  assert (strsize (perf_cpu_map__max l) <= 10) as Hss by (apply (strsize_ok _ 0); [unfold is_cpu in Hm; lia|done]).
  unfold perf_cpu_map__string, text_size. assert (u64 (perf_cpu_map__max l) = perf_cpu_map__max l) as ->.
  { unfold is_cpu, INT_MAX in Hm. apply u64_small. lia. }
  set (s := strsize _) in *. assert (0 <= Z.of_nat (length l) * (s + 1) <= Z.of_nat (length l) * 11) as Hb by nia.
  rewrite (s32_small (_ * _)) by lia. rewrite s32_small by lia. rewrite u64_small by lia. rewrite Hmem.
  set (size := Z.of_nat (length l) * (s + 1) + 1) in *.
  destruct (text_print_ok (S (length l)) l [] (junk (Z.to_nat size))) as (rest & E); [lia|done|done|rewrite Hjunk; lia|].
  cbn [app length] in E. rewrite Hjunk in E. cbn [Nat.add] in E. rewrite E. cbn [mbind res_bind].
  rewrite Hmem, orb_true_r. f_equal.
  replace (length (map_text (S (length l)) l) + 1 + 1)%nat with (length (map_text (S (length l)) l) + 2)%nat by lia.
  rewrite take_app_add. cbn [take]. apply cstring_ok. intros c Hc. by apply (map_text_nonzero _ _ _ Hl Hc).
Qed.

(** ** What is read *)

Section reading.
Context (mem : Z -> bool) (mem_ok : forall n, mem n = true).

(** An array with room for what is in it. *)
Definition roomy (tmp : array) : Prop := Z.of_nat (length tmp.1) <= tmp.2 < 2 ^ 28.

Lemma put_cpu_ok c tmp : Z.of_nat (length tmp.1) < tmp.2 -> put_cpu c tmp = Ok (tmp.1 ++ [c], tmp.2).
Proof using. intros Hlt. unfold put_cpu. by rewrite (proj2 (Z.ltb_lt _ _)). Qed.

Lemma append_ok c tmp : roomy tmp -> Z.of_nat (length tmp.1) < 2 ^ 27 -> exists n, append mem c tmp = Ok (tmp.1 ++ [c], n) /\ roomy (tmp.1 ++ [c], n).
Proof using mem_ok.
  intros Hr Hb. unfold roomy, append in *. destruct (Z.eqb_spec (Z.of_nat (length tmp.1)) tmp.2) as [E|E].
  - unfold room. rewrite mem_ok. unfold MAX_NR_CPUS. cbn [mbind res_bind]. rewrite s32_small by lia. rewrite put_cpu_ok by (cbn; lia).
    eexists. split; [done|]. cbn. rewrite length_app. cbn. lia.
  - cbn [mbind res_bind]. rewrite put_cpu_ok by lia. eexists. split; [done|]. cbn. rewrite length_app. cbn. lia.
Qed.

Lemma append_range_ok n : forall c tmp, roomy tmp -> Z.of_nat (length tmp.1 + n) < 2 ^ 27 -> NoDup (tmp.1 ++ seqZ c (Z.of_nat n)) ->
  exists m, append_range mem n c tmp = Ok (tmp.1 ++ seqZ c (Z.of_nat n), m) /\ roomy (tmp.1 ++ seqZ c (Z.of_nat n), m).
Proof using mem_ok.
  induction n as [|n IH]; intros c tmp Hr Hb Hd.
  - exists tmp.2. cbn. rewrite app_nil_r. by destruct tmp.
  - rewrite seqZ_cons in Hd |- * by lia. replace (Z.pred (Z.of_nat (S n))) with (Z.of_nat n) in * by lia. cbn [append_range].
    rewrite bool_decide_eq_false_2.
    + destruct (append_ok c tmp Hr ltac:(lia)) as (m & -> & Hm). cbn [mbind res_bind].
      destruct (IH (c + 1) (tmp.1 ++ [c], m) Hm) as (m' & E & Hm').
      * cbn. rewrite length_app. cbn. lia.
      * cbn. by rewrite <- app_assoc.
      * exists m'. cbn in E, Hm'. rewrite E. rewrite <- app_assoc in *. done.
    + intros Hin. apply NoDup_app in Hd as (_ & Hd & _). apply (Hd c Hin). by left.
Qed.

Lemma fill_ok n : forall c tmp, Z.of_nat (length tmp.1 + n) <= tmp.2 -> fill n c tmp = Ok (tmp.1 ++ seqZ (c + 1) (Z.of_nat n), tmp.2).
Proof using.
  induction n as [|n IH]; intros c tmp Hr; [cbn; rewrite app_nil_r; by destruct tmp|]. cbn [fill].
  rewrite put_cpu_ok by lia. cbn [mbind res_bind]. rewrite IH by (cbn; rewrite length_app; cbn; lia). cbn [fst snd].
  rewrite (seqZ_cons (c + 1) (Z.of_nat (S n))) by lia. rewrite <- app_assoc.
  by replace (Z.pred (Z.of_nat (S n))) with (Z.of_nat n) by lia.
Qed.

(** What follows a range, and the rest of the text after one character. *)
Definition tail (k : nat) (r : list Z) : list Z := if bool_decide (r = []) then [] else COMMA :: map_text k r.

Lemma tail_ok k r : stops (tail k r) /\ drop 1 (tail k r) = map_text k r /\ ends (peek (tail k r)) = true /\ peek (tail k r) <> DASH.
Proof using.
  unfold tail. case_bool_decide as Hr; [subst r; by split; [left|destruct k]|].
  split; [right; exists COMMA, (map_text k r); split; [done|by left]|done].
Qed.

Lemma decimal_long c : is_cpu c -> (0 < length (decimal c))%nat.
Proof using. intros Hc. destruct (decimal_head c [] Hc) as (x & l & E & _). rewrite app_nil_r in E. rewrite E. cbn. lia. Qed.

Lemma peek_decimal c l : is_cpu c -> isdigit (peek (decimal c ++ l)) = true.
Proof using. intros Hc. by destruct (decimal_head c l Hc) as (x & l' & -> & Hx & _). Qed.

(** One turn of the loop reads a range. *)
Lemma new_step k' c e t tmp : is_cpu c -> is_cpu e -> c <= e -> stops t -> ends (peek t) = true -> peek t <> DASH ->
  new_loop mem (S k') (range_text c e ++ t) tmp =
    tmp ← append_range mem (Z.to_nat (e - c + 1)) c tmp; new_loop mem k' (drop 1 t) tmp.
Proof using.
  intros Hc He Hle Ht Hends Hdash. assert (forall x, is_cpu x -> (INT_MAX <=? x) = false) as Hmax by (unfold is_cpu; lia).
  cbn [new_loop]. unfold range_text. destruct (Z.eqb_spec c e) as [<-|Hne].
  - rewrite peek_decimal, strtoul_ok, Hmax, Hends by done. cbn [orb negb]. by rewrite (proj2 (Z.eqb_neq _ _) Hdash).
  - rewrite <- app_assoc. cbn [app].
    rewrite peek_decimal, strtoul_ok, Hmax by (done || (right; exists DASH; eexists; split; [done|by right; left])).
    change (peek (DASH :: decimal e ++ t)) with DASH. change (drop 1 (DASH :: decimal e ++ t)) with (decimal e ++ t).
    change (ends DASH) with false. change (DASH =? DASH) with true. cbn [orb negb].
    rewrite strtoul_ok, Hmax, Hends by done. rewrite (proj2 (Z.ltb_ge e c)) by lia. done.
Qed.

Lemma new_loop_ok k : forall l k' tmp, (length l < k)%nat -> (length (map_text k l) < k')%nat -> (forall c, c ∈ l -> is_cpu c) ->
  roomy tmp -> Z.of_nat (length tmp.1 + length l) < 2 ^ 27 -> NoDup (tmp.1 ++ l) ->
  exists m, new_loop mem k' (map_text k l) tmp = Ok ((tmp.1 ++ l, m), []).
Proof using mem_ok.
  induction k as [|k IH]; intros l k' tmp Hk Hk' Hl Hr Hb Hd; [lia|]. destruct k' as [|k']; [lia|]. destruct l as [|c l].
  - exists tmp.2. cbn. rewrite app_nil_r. by destruct tmp.
  - cbn [map_text] in *. destruct (range c l) as [e r] eqn:E. change (if bool_decide (r = []) then _ else _) with (tail k r) in *.
    destruct (range_step c l e r Hl E) as (Hc & He & Hrc & _ & Hle & Hlen). destruct (range_ok l c e r E) as (El & _ & Hrl).
    destruct (tail_ok k r) as (Hst & Hdrop & Hends & Hdash). rewrite new_step, Hdrop by done. cbn [length] in Hk, Hlen, Hb.
    rewrite El, app_assoc in Hd. apply NoDup_app in Hd as Hd'. destruct Hd' as (Hd1 & _ & _).
    set (n := Z.to_nat (e - c + 1)) in *. assert (e - c + 1 = Z.of_nat n) as En by lia. rewrite En in *.
    destruct (append_range_ok n c tmp Hr ltac:(lia) Hd1) as (m & -> & Hm). cbn [mbind res_bind].
    destruct (IH r k' (tmp.1 ++ seqZ c (Z.of_nat n), m)) as (m' & E'); [lia| |done|done|..].
    + rewrite length_app in Hk'. assert (0 < length (range_text c e))%nat as Hpos.
      { unfold range_text. pose proof (decimal_long c Hc). destruct (c =? e); rewrite ?length_app; lia. }
      unfold tail in Hk'. case_bool_decide as Hre; [subst r; destruct k; cbn in *; lia|cbn in Hk'; lia].
    + cbn. rewrite length_app, length_seqZ. lia.
    + done.
    + exists m'. rewrite E'. cbn. by rewrite El, app_assoc.
Qed.

(** A turn that reads one number. *)
Lemma read_number k' n s t cpu sep prev tmp : is_cpu n -> stops (s :: t) ->
  read_loop mem (S k') (decimal n ++ s :: t) cpu sep prev tmp =
    tmp ← (if 0 <=? prev then
             let new_max := s32 (Z.of_nat (length tmp.1) + n - prev - 1) in
             tmp ← (if tmp.2 <=? new_max then room mem (s32 (new_max + MAX_NR_CPUS / 2)) tmp else Ok tmp);
             fill (Z.to_nat (n - prev - 1)) prev tmp
           else Ok tmp);
    tmp ← append mem n tmp;
    if s =? NEWLINE then Ok tmp else read_loop mem k' t n s (if s =? DASH then n else -1) tmp.
Proof using. intros Hn Hs. cbn [read_loop]. rewrite fscanf_ok by done. reflexivity. Qed.

(** The turns that read a range, and what follows it. *)
Lemma read_step k' c e s t cpu sep tmp :
  is_cpu c -> is_cpu e -> c <= e -> s = COMMA \/ s = NEWLINE -> roomy tmp -> Z.of_nat (length tmp.1) + (e - c + 1) < 2 ^ 27 ->
  exists m k'' cpu', (k' <= k'')%nat /\ roomy (tmp.1 ++ seqZ c (e - c + 1), m) /\
    read_loop mem (S (S k')) (range_text c e ++ s :: t) cpu sep (-1) tmp =
      if s =? NEWLINE then Ok (tmp.1 ++ seqZ c (e - c + 1), m) else read_loop mem k'' t cpu' s (-1) (tmp.1 ++ seqZ c (e - c + 1), m).
Proof using mem_ok.
  intros Hc He Hle Hs Hr Hb. assert (stops (s :: t)) as Hst by (right; exists s, t; destruct Hs as [-> | ->]; auto).
  assert ((s =? DASH) = false) as Hsd by (by destruct Hs as [-> | ->]). unfold range_text. destruct (Z.eqb_spec c e) as [<-|Hne].
  - rewrite read_number by done. change (0 <=? -1) with false. cbn [mbind res_bind].
    destruct (append_ok c tmp Hr ltac:(lia)) as (m & -> & Hm). cbn [mbind res_bind]. rewrite Hsd.
    replace (c - c + 1) with 1 by lia. exists m, (S k'), c. split; [lia|]. by split.
  - rewrite <- app_assoc. cbn [app]. rewrite read_number by (done || (right; exists DASH; eexists; split; [done|by right; left])).
    change (0 <=? -1) with false. cbn [mbind res_bind]. destruct (append_ok c tmp Hr ltac:(lia)) as (m & -> & Hm). cbn [mbind res_bind].
    change (DASH =? NEWLINE) with false. change (DASH =? DASH) with true. cbn [fst snd].
    rewrite read_number by done. rewrite (proj2 (Z.leb_le 0 c)) by (unfold is_cpu in Hc; lia). cbn [fst snd].
    rewrite length_app. cbn [length]. set (new_max := Z.of_nat (length tmp.1 + 1) + e - c - 1).
    assert (0 <= new_max < 2 ^ 27) as Hnm by lia. rewrite (s32_small new_max) by lia. unfold MAX_NR_CPUS. change (2048 / 2) with 1024.
    rewrite (s32_small (_ + 1024)) by lia.
    set (grown := if m <=? new_max then _ else _).
    assert (exists m', grown = Ok (tmp.1 ++ [c], m') /\ new_max < m' < 2 ^ 28) as (m' & -> & Hm').
    { unfold grown, room. rewrite mem_ok. unfold roomy in Hm. cbn in Hm. destruct (Z.leb_spec m new_max); eexists; (split; [done|lia]). }
    cbn [mbind res_bind]. set (n := Z.to_nat (e - c - 1)). rewrite fill_ok by (cbn; rewrite length_app; cbn; lia). cbn [mbind res_bind fst snd].
    destruct (append_ok e ((tmp.1 ++ [c]) ++ seqZ (c + 1) (Z.of_nat n), m')) as (m2 & -> & Hm2).
    { unfold roomy. cbn. rewrite !length_app, length_seqZ. cbn. lia. }
    { cbn. rewrite !length_app, length_seqZ. cbn. lia. }
    cbn [mbind res_bind fst] in *. rewrite Hsd. exists m2, k', e. split; [lia|].
    assert (((tmp.1 ++ [c]) ++ seqZ (c + 1) (Z.of_nat n)) ++ [e] = tmp.1 ++ seqZ c (e - c + 1)) as <-; [|by split].
    rewrite <- !app_assoc. f_equal. rewrite (seqZ_cons c) by lia. cbn [app]. f_equal.
    replace (Z.pred (e - c + 1)) with (Z.of_nat n + 1) by lia. rewrite seqZ_app by lia. change (Z.succ c) with (c + 1).
    by replace (c + 1 + Z.of_nat n) with e by lia.
Qed.

Lemma read_loop_ok k : forall l k' cpu sep tmp, (length l < k)%nat -> (length (map_text k l) + 1 < k')%nat -> (forall c, c ∈ l -> is_cpu c) ->
  l <> [] -> roomy tmp -> Z.of_nat (length tmp.1 + length l) < 2 ^ 27 ->
  exists m, read_loop mem k' (map_text k l ++ [NEWLINE]) cpu sep (-1) tmp = Ok (tmp.1 ++ l, m).
Proof using mem_ok.
  induction k as [|k IH]; intros l k' cpu sep tmp Hk Hk' Hl Hne Hr Hb; [lia|]. destruct l as [|c l]; [done|].
  cbn [map_text] in *. destruct (range c l) as [e r] eqn:E. destruct (range_step c l e r Hl E) as (Hc & He & Hrc & _ & Hle & Hlen).
  destruct (range_ok l c e r E) as (El & _ & Hrl). cbn [length] in Hk, Hlen, Hb. rewrite length_app in Hk'.
  assert (0 < length (range_text c e))%nat as Hpos.
  { unfold range_text. pose proof (decimal_long c Hc). destruct (c =? e); rewrite ?length_app; lia. }
  destruct k' as [|[|k']]; [lia|lia|]. rewrite <- app_assoc. case_bool_decide as Hre.
  - destruct (read_step k' c e NEWLINE [] cpu sep tmp) as (m & k'' & cpu' & _ & _ & E'); [done|done|done|by right|done|lia|].
    exists m. cbn [app]. rewrite E'. change (NEWLINE =? NEWLINE) with true. subst r. rewrite app_nil_r in El. by rewrite El.
  - cbn [app]. destruct (read_step k' c e COMMA (map_text k r ++ [NEWLINE]) cpu sep tmp) as (m & k'' & cpu' & Hk'' & Hm & ->); [done|done|done|by left|done|lia|].
    change (COMMA =? NEWLINE) with false. cbn [length] in Hk'.
    destruct (IH r k'' cpu' COMMA (tmp.1 ++ seqZ c (e - c + 1), m)) as (m' & E'); [lia|lia|done|done|done|..].
    + cbn. rewrite length_app, length_seqZ. lia.
    + exists m'. rewrite E', El. cbn. by rewrite <- app_assoc.
Qed.
End reading.

(** ** Properties *)

(** The map of any processor, and an empty one. *)
Lemma dummy_text mem junk qsort nr_cpus :
  sorts qsort -> (forall n, mem n = true) -> (forall n, length (junk n) = n) ->
  perf_cpu_map__string mem junk (Some [-1]) = Ok [DASH; 49] /\
  perf_cpu_map__new mem qsort nr_cpus [DASH; 49] = Null /\ perf_cpu_map__read mem qsort nr_cpus [DASH; 49; NEWLINE] = Ok [-1].
Proof.
  intros Hq Hmem Hjunk. split; [|split; [done|]].
  - unfold perf_cpu_map__string. change (u64 (text_size [-1])) with 22. rewrite Hmem. change (Z.to_nat 22) with 22%nat.
    specialize (Hjunk 22%nat). cbn [print_loop range]. change (snprintf 0 22 _ (junk 22%nat)) with (Ok (list_inserts 0 [DASH; 49; 0; 0] (junk 22%nat))).
    rewrite <- (take_drop 4 (junk 22%nat)), list_inserts_0_r by (rewrite length_take, Hjunk; done). cbn [mbind res_bind]. rewrite bool_decide_eq_true_2 by done. cbn [mbind res_bind].
    by rewrite Hmem, orb_true_r.
  - assert (perf_cpu_map__read mem qsort nr_cpus [DASH; 49; NEWLINE] = Ok (trimmed qsort [-1])) as ->.
    { unfold perf_cpu_map__read. cbn. unfold append, room. cbn. by rewrite Hmem. }
    f_equal. apply trimmed_is; [done| |done]. split; [by repeat constructor|]. intros c ->%list_elem_of_singleton. done.
Qed.

Lemma empty_text mem junk : (forall n, mem n = true) -> perf_cpu_map__string mem junk (Some []) = Undef.
Proof. intros Hmem. unfold perf_cpu_map__string. change (u64 (text_size [])) with 1. by rewrite Hmem. Qed.

(** C24: A map of processors is read back from its text: one in ascending order that is not
    empty, of fewer than 2^27 processors below INT_MAX, with memory.  [perf_cpu_map__string]
    writes no further than the buffer whose size it computed from the largest processor, and
    does not cut the text short; [perf_cpu_map__new] of the text, and [perf_cpu_map__read] of
    the text as the kernel writes it, a line, make the same map, and never store beyond the
    array they grow.  The two maps that are not such are not read back: the text of the map
    of any processor is that of -1, which [perf_cpu_map__new] refuses with null though
    [perf_cpu_map__read] reads it, and to print an empty map is undefined. *)
Theorem cpu_map_read_back mem junk qsort nr_cpus l :
  sorts qsort -> (forall n, mem n = true) -> (forall n, length (junk n) = n) -> cpu_list l ->
  (exists text, perf_cpu_map__string mem junk (Some l) = Ok text /\
     perf_cpu_map__new mem qsort nr_cpus text = Ok l /\ perf_cpu_map__read mem qsort nr_cpus (text ++ [NEWLINE]) = Ok l) /\
  (perf_cpu_map__string mem junk (Some [-1]) = Ok [DASH; 49] /\
     perf_cpu_map__new mem qsort nr_cpus [DASH; 49] = Null /\ perf_cpu_map__read mem qsort nr_cpus [DASH; 49; NEWLINE] = Ok [-1]) /\
  perf_cpu_map__string mem junk (Some []) = Undef.
Proof.
  intros Hq Hmem Hjunk Hcl. split; [|split; [by apply dummy_text|by apply empty_text]].
  exists (map_text (S (length l)) l). split; [by apply string_ok|]. destruct Hcl as (Hs & Hl & Hne & Hb).
  assert (sorted l) as Hsl by (split; [done|]; intros c Hc%Hl; unfold is_cpu in Hc; lia).
  assert (trimmed qsort l = l) as Ht by (by apply trimmed_is). assert (roomy ([], 0)) as Hr by (unfold roomy; cbn; lia).
  split.
  - unfold perf_cpu_map__new. destruct (new_loop_ok mem Hmem (S (length l)) l (S (length (map_text (S (length l)) l))) ([], 0))
      as (m & ->); [lia|lia|done|done|done|by apply strict_NoDup|].
    assert (isdigit (peek (map_text (S (length l)) l)) = true) as ->.
    { destruct l as [|c l]; [done|]. cbn [map_text]. destruct (range c l) as [e r]. unfold range_text.
      assert (is_cpu c) as Hc by (apply Hl; by left). destruct (c =? e); rewrite <- ?app_assoc; by apply peek_decimal. }
    cbn. by rewrite bool_decide_eq_false_2, Ht.
  - unfold perf_cpu_map__read. destruct (read_loop_ok mem Hmem (S (length l)) l (S (length (map_text (S (length l)) l ++ [NEWLINE]))) 0 0 ([], 0))
      as (m & ->); [lia|rewrite length_app; cbn; lia|done|done|done|done|].
    cbn. by rewrite bool_decide_eq_false_2, Ht.
Qed.

Lemma cpu_map_read_back_witness :
  exists text, perf_cpu_map__string (fun _ => true) (fun n => replicate n 7) (Some [0; 1; 2; 5; 7; 8; 2000]) = Ok text /\
    length text = 14%nat /\ perf_cpu_map__new (fun _ => true) insertion_sort 1 text = Ok [0; 1; 2; 5; 7; 8; 2000].
Proof.
  destruct (cpu_map_read_back (fun _ => true) (fun n => replicate n 7) insertion_sort 1 [0; 1; 2; 5; 7; 8; 2000]) as [(text & E & Hn & _) _].
  - apply insertion_sorts.
  - reflexivity.
  - intros n. apply length_replicate.
  - split; [repeat constructor|]. split; [apply Forall_forall; repeat (constructor; [split; [discriminate|reflexivity]|]); constructor|].
    split; [discriminate|reflexivity].
  - exists text. split; [exact E|]. split; [|exact Hn]. vm_compute in E. injection E as <-. reflexivity.
Defined.

(** A processor that is listed twice is refused, one of a base other than ten is read. *)
Example lists_read :
  perf_cpu_map__new (fun _ => true) insertion_sort 4 [49; COMMA; 48; DASH; 49] = Null /\
  perf_cpu_map__new (fun _ => true) insertion_sort 4 [48; 120; 49; 48; COMMA; 57] = Ok [9; 16] /\
  perf_cpu_map__new (fun _ => true) insertion_sort 4 [] = Ok [-1].
Proof. vm_compute. repeat split. Qed.

(** The text of an empty map is read from beyond its array. *)
Example empty_map_printed : perf_cpu_map__string (fun _ => true) (fun n => replicate n 7) (Some []) = Undef.
Proof. vm_compute. reflexivity. Qed.
