(* ===== verification/Comm.v ===== *)
(** * The names of tasks (comm.c)

    The names that other profilers print are kept by a profiler of its own, from the events
    of new, renamed and freed tasks.  A task that was freed waits in a second tree, in the
    order of its time, until no event that could name it is left, and is then collected;
    whoever registered is told.  A node is in both trees; that of the names is a finite map
    here and that of the freed tasks a list in its order, which is what [RbList] shows of
    them. *)

From stdpp Require Import sorting.
From S2P Require Import Prelude Bytes Mmap.

(** ** Data *)

(** [struct pid_comm_node]; [linked] is whether its [exit_node] is in a tree. *)
Record pid_comm_node := Node { update_time : Z; flush : bool; comm : list Z; linked : bool }.

(** [struct comm_ctx]: the nodes by [pid], and the freed tasks in the order of their tree. *)
Record comm_ctx := CommCtx { ref : Z; pid_comm : gmap Z pid_comm_node; exited : list Z }.

(** The context, who is to be told, and what was told to whom: the task and the time of its
    node. *)
Record world := World { global_comm_ctx : option comm_ctx; notify_list : list Z; notified : list (Z * (Z * Z)) }.

Definition set_ctx (c : option comm_ctx) (w : world) : world := World c (notify_list w) (notified w).

Definition TASK_COMM_LEN : Z := 16.

(** ** The tree of freed tasks *)

(** A task is in the tree under the time of its node, then its number. *)
Definition pid_comm_exit_cmp (b e : pid_comm_node) (b_pid e_pid : Z) : Z :=
  if update_time e <? update_time b then 1
  else if update_time b <? update_time e then -1
  else s32 (b_pid - e_pid).

(** [rblist__add_node]: the new list, or that there is one already; [None] is the use of a
    node that was freed. *)
Fixpoint exited_add (m : gmap Z pid_comm_node) (pid : Z) (e : pid_comm_node) (l : list Z) : option (option (list Z)) :=
  match l with
  | [] => Some (Some [pid])
  | b_pid :: l' =>
      b ← m !! b_pid;
      let rc := pid_comm_exit_cmp b e b_pid pid in
      if 0 <? rc then Some (Some (pid :: l))
      else if rc <? 0 then r ← exited_add m pid e l'; Some (match r with Some l => Some (b_pid :: l) | None => None end)
      else Some None
  end.

(** [pid_comm_exit_delete]: everyone registered is told. *)
Definition pid_comm_exit_delete (pid time : Z) (w : world) : world :=
  World (global_comm_ctx w) (notify_list w) (notified w ++ map (fun n => (n, (pid, time))) (notify_list w)).

(** ** Updates *)

Section comm.
(** What the memory of a new node holds. *)
Variable junk : list Z.
(** The numbers of the three events. *)
Variables task_newtask task_rename sched_process_free : Z.

(** [mem] is whether there is memory for a new node. *)
Definition comm_update (mem : bool) (time : Z) (exit : bool) (pid : Z) (name : list Z) (c : comm_ctx) (w : world) : option (comm_ctx * world) :=
  match (match pid_comm c !! pid with Some n => Some n | None => if mem then Some (Node 0 false junk false) else None end) with
  | None => Some (c, w)
  | Some node =>
      let '(node, exited, w) :=
        if update_time node <? time then
          let '(exited, w) :=
            if linked node then (filter (fun q => q <> pid) (exited c), pid_comm_exit_delete pid (update_time node) w) else (exited c, w) in
          (Node time false name false, exited, w)
        else (node, exited c, w) in
      if exit then
        r ← exited_add (<[pid := node]> (pid_comm c)) pid node exited;
        match r with
        | Some exited => Some (CommCtx (ref c) (<[pid := Node (update_time node) (flush node) (comm node) true]> (pid_comm c)) exited, w)
        | None => Some (CommCtx (ref c) (<[pid := node]> (pid_comm c)) exited, w)
        end
      else Some (CommCtx (ref c) (<[pid := node]> (pid_comm c)) exited, w)
  end.

(** The fields of an event, by its kind: the time, whether the task is freed, its number and
    its name.  [Some None] is another event. *)
Definition sample_fields (ev : list Z) : option (option (Z * bool * Z * list Z)) :=
  time ← get_le 8 ev 8;
  common_type ← get_le 2 ev 20;
  if common_type =? task_newtask then
    pid ← get_le 4 ev 28; name ← mem_read ev 32 TASK_COMM_LEN; Some (Some (time, false, s32 pid, name))
  else if common_type =? task_rename then
    pid ← get_le 4 ev 28; name ← mem_read ev 48 TASK_COMM_LEN; Some (Some (time, false, s32 pid, name))
  else if common_type =? sched_process_free then
    pid ← get_le 4 ev 44; name ← mem_read ev 28 TASK_COMM_LEN; Some (Some (time, true, s32 pid, name))
  else Some None.

Definition comm_sample (mem : bool) (ev : list Z) (c : comm_ctx) (w : world) : option (comm_ctx * world) :=
  f ← sample_fields ev;
  match f with
  | Some (time, exit, pid, name) => comm_update mem time exit pid name c w
  | None => Some (c, w)
  end.

(** [comm_gc]: the first of the freed tasks, while it is older than [time_before]. *)
Fixpoint gc_loop (time_before : Z) (l : list Z) (c : comm_ctx) (w : world) : option (comm_ctx * world) :=
  match l with
  | [] => Some (c, w)
  | pid :: l =>
      node ← pid_comm c !! pid;
      if time_before <=? update_time node then Some (c, w)
      else gc_loop time_before l (CommCtx (ref c) (delete pid (pid_comm c)) l) (pid_comm_exit_delete pid (update_time node) w)
  end.
Definition comm_gc (time_before : Z) (c : comm_ctx) (w : world) : option (comm_ctx * world) := gc_loop time_before (exited c) c w.

(** [comm_deinit]: the freed tasks are removed one after the other, then all nodes. *)
Fixpoint exit_loop (l : list Z) (m : gmap Z pid_comm_node) (w : world) : option world :=
  match l with
  | [] => Some w
  | pid :: l => node ← m !! pid; exit_loop l m (pid_comm_exit_delete pid (update_time node) w)
  end.
Definition comm_deinit (c : comm_ctx) (w : world) : option world :=
  w ← exit_loop (exited c) (pid_comm c) w;
  Some (set_ctx None w).

(** ** The names of the tasks there are *)

Definition NEWLINE : Z := 10.

(** [get_comm] of a file, if it can be opened: what is read overwrites the start of the
    buffer, and its last character is overwritten when it is the end of the line or the
    buffer is full. *)
Definition get_comm (file : option (list Z)) (buff : list Z) : option (list Z) :=
  text ← file;
  let data := take 16 text in
  let len := (length data - 1)%nat in
  if bool_decide (data = []) then None
  else
    let buff := data ++ drop (length data) buff in
    Some (if (default 0 (buff !! len) =? NEWLINE) || bool_decide (len = 15%nat) then <[len := 0]> buff else buff).

(** The tasks in /proc, each with the file of its name and whether there is memory. *)
Fixpoint enabled_loop (l : list (Z * option (list Z) * bool)) (buff : list Z) (c : comm_ctx) (w : world) : option (comm_ctx * world) :=
  match l with
  | [] => Some (c, w)
  | (tid, file, mem) :: l =>
      match get_comm file buff with
      | Some buff => '(c, w) ← comm_update mem 1 false tid buff c w; enabled_loop l buff c w
      | None => enabled_loop l buff c w
      end
  end.

Definition swapper : list Z := [115; 119; 97; 112; 112; 101; 114] ++ replicate 9 0.

Definition comm_enabled (mem : bool) (proc : list (Z * option (list Z) * bool)) (c : comm_ctx) (w : world) : option (comm_ctx * world) :=
  '(c, w) ← comm_update mem 1 false 0 swapper c w;
  enabled_loop proc swapper c w.

(** ** What other profilers call *)

(** What [prof_dev_flush] of the profiler's device finds in its ring buffers. *)
Definition pending : Type := list (bool * list Z).
Fixpoint process (l : pending) (c : comm_ctx) (w : world) : option (comm_ctx * world) :=
  match l with
  | [] => Some (c, w)
  | (mem, ev) :: l => '(c, w) ← comm_sample mem ev c w; process l c w
  end.

(** The name of a task: null when it has none. *)
Definition global_comm_get (pid : Z) (l : pending) (w : world) : option (option (list Z) * world) :=
  match global_comm_ctx w with
  | None => Some (None, w)
  | Some c =>
      let fresh := match pid_comm c !! pid with Some n => negb (flush n) | None => false end in
      '(c, w) ← (if fresh then Some (c, w) else process l c w);
      Some (comm <$> pid_comm c !! pid, set_ctx (Some c) w)
  end.

Definition global_comm_flush (pid : Z) (w : world) : world :=
  match global_comm_ctx w with
  | None => w
  | Some c =>
      if pid =? 0 then w
      else set_ctx (Some (CommCtx (ref c) (alter (fun n => Node (update_time n) true (comm n) (linked n)) pid (pid_comm c)) (exited c))) w
  end.

(** [opens] is whether the device can be opened; it is enabled then. *)
Definition global_comm_ref (opens mem : bool) (proc : list (Z * option (list Z) * bool)) (w : world) : option (Z * world) :=
  match global_comm_ctx w with
  | None =>
      if opens then '(c, w) ← comm_enabled mem proc (CommCtx 1 ∅ []) w; Some (0, set_ctx (Some c) w)
      else Some (-1, w)
  | Some c => r ← refcount_inc (ref c); Some (0, set_ctx (Some (CommCtx r (pid_comm c) (exited c))) w)
  end.

Definition global_comm_unref (w : world) : option world :=
  match global_comm_ctx w with
  | None => Some w
  | Some c =>
      '(r, last) ← refcount_dec_and_test (ref c);
      let c := CommCtx r (pid_comm c) (exited c) in
      if last : bool then comm_deinit c w else Some (set_ctx (Some c) w)
  end.

(** A node is registered when it is not on the list: linking it twice would tear the list
    apart, and no caller does that. *)
Definition global_comm_register_notify (node : Z) (w : world) : world :=
  World (global_comm_ctx w) (node :: notify_list w) (notified w).
Definition global_comm_unregister_notify (node : Z) (w : world) : world :=
  World (global_comm_ctx w) (filter (fun n => n <> node) (notify_list w)) (notified w).

(** What happens: the profiler's device has records or its timer expires, and calls. *)
Inductive input :=
  | Samples (l : pending)
  | Interval (time_before : Z)
  | Get (pid : Z) (l : pending)
  | Flush (pid : Z)
  | Ref (opens mem : bool) (proc : list (Z * option (list Z) * bool))
  | Unref
  | Register (node : Z)
  | Unregister (node : Z).

(** On the device, when it is open. *)
Definition on_ctx (f : comm_ctx -> world -> option (comm_ctx * world)) (w : world) : option world :=
  match global_comm_ctx w with
  | Some c => '(c, w) ← f c w; Some (set_ctx (Some c) w)
  | None => Some w
  end.

Definition step (w : world) (i : input) : option world :=
  match i with
  | Samples l => on_ctx (process l) w
  | Interval t => on_ctx (comm_gc t) w
  | Get pid l => '(_, w) ← global_comm_get pid l w; Some w
  | Flush pid => Some (global_comm_flush pid w)
  | Ref opens mem proc => '(_, w) ← global_comm_ref opens mem proc w; Some w
  | Unref => global_comm_unref w
  | Register n => Some (global_comm_register_notify n w)
  | Unregister n => Some (global_comm_unregister_notify n w)
  end.

Definition run (w : world) (l : list input) : option world := foldl (fun o i => w ← o; step w i) (Some w) l.
Definition nothing : world := World None [] [].
End comm.

(** ** What is promised

    Without the second tree: a map of the tasks, of which [linked] says that they were
    freed. *)

Abbreviation tasks := (gmap Z pid_comm_node).

(** Freed tasks in order: by time, then by number. *)
Definition key_le (a b : Z * Z) : Prop := a.1 < b.1 \/ (a.1 = b.1 /\ a.2 <= b.2).
#[export] Instance key_le_dec a b : Decision (key_le a b).
Proof. unfold key_le. apply _. Defined.
#[export] Instance key_le_trans : Transitive key_le.
Proof. intros a b c. unfold key_le. lia. Qed.
#[export] Instance key_le_total : Total key_le.
Proof. intros a b. unfold key_le. lia. Qed.
#[export] Instance key_le_antisym : AntiSymm eq key_le.
Proof. intros [a1 a2] [b1 b2]. unfold key_le. cbn. intros ? ?. f_equal; lia. Qed.

Definition keys (m : tasks) : list (Z * Z) := (fun p => (update_time p.2, p.1)) <$> map_to_list m.
Definition freed (m : tasks) : list (Z * Z) := merge_sort key_le (keys (filter (fun p => linked p.2 = true) m)).

(** Each of [l] is told, in order, to everyone. *)
Definition tell (listeners : list Z) (l : list (Z * Z)) : list (Z * (Z * Z)) :=
  l ≫= fun k => map (fun n => (n, (k.2, k.1))) listeners.

(** The state without the second tree. *)
Record names := Names { table : option (Z * tasks); listeners : list Z; told : list (Z * (Z * Z)) }.
Definition with_tasks (r : Z) (m : tasks) (told_more : list (Z * (Z * Z))) (s : names) : names :=
  Names (Some (r, m)) (listeners s) (told s ++ told_more).

Section spec.
Variable junk : list Z.
Variables task_newtask task_rename sched_process_free : Z.

(** The latest event names a task and says whether it is freed; an older one only that it
    is. *)
Definition updated (time : Z) (exit : bool) (name : list Z) (n : pid_comm_node) : pid_comm_node :=
  if update_time n <? time then Node time false name exit else Node (update_time n) (flush n) (comm n) (linked n || exit).

(** A task that was freed and is named again is told, for its number is another task's. *)
Definition spec_update (mem : bool) (time : Z) (exit : bool) (pid : Z) (name : list Z) (r : Z) (m : tasks) (s : names) : names :=
  match m !! pid with
  | Some n =>
      with_tasks r (<[pid := updated time exit name n]> m)
        (if (update_time n <? time) && linked n then tell (listeners s) [(update_time n, pid)] else []) s
  | None => if mem then with_tasks r (<[pid := updated time exit name (Node 0 false junk false)]> m) [] s else with_tasks r m [] s
  end.

Definition spec_sample (mem : bool) (ev : list Z) (r : Z) (m : tasks) (s : names) : names :=
  match sample_fields task_newtask task_rename sched_process_free ev with
  | Some (Some (time, exit, pid, name)) => spec_update mem time exit pid name r m s
  | _ => with_tasks r m [] s
  end.

(** A number of updates one after the other. *)
Definition spec_all {A} (f : A -> Z -> tasks -> names -> names) (l : list A) (s : names) : names :=
  foldl (fun s x => match table s with Some (r, m) => f x r m s | None => s end) s l.

Definition spec_process (l : pending) (s : names) : names := spec_all (fun p => spec_sample p.1 p.2) l s.

(** The freed tasks before [time_before] are collected and told. *)
Definition old (time_before : Z) (p : Z * pid_comm_node) : Prop := linked p.2 = true /\ update_time p.2 < time_before.
#[export] Instance old_dec t p : Decision (old t p).
Proof. unfold old. apply _. Defined.
Definition spec_gc (time_before r : Z) (m : tasks) (s : names) : names :=
  with_tasks r (filter (fun p => ~ old time_before p) m) (tell (listeners s) (freed (filter (old time_before) m))) s.

(** The names read from /proc. *)
Fixpoint proc_names (l : list (Z * option (list Z) * bool)) (buff : list Z) : list (Z * list Z * bool) :=
  match l with
  | [] => []
  | (tid, file, mem) :: l => match get_comm file buff with Some buff => (tid, buff, mem) :: proc_names l buff | None => proc_names l buff end
  end.
Definition spec_enabled (mem : bool) (proc : list (Z * option (list Z) * bool)) (s : names) : names :=
  spec_all (fun p => let '(tid, name, mem) := p in spec_update mem 1 false tid name) ((0, swapper, mem) :: proc_names proc swapper) s.

Definition spec_step (s : names) (i : input) : names :=
  match i, table s with
  | Samples l, _ => spec_process l s
  | Interval t, Some (r, m) => spec_gc t r m s
  | Get pid l, Some (r, m) => if match m !! pid with Some n => negb (flush n) | None => false end then s else spec_process l s
  | Flush pid, Some (r, m) =>
      if pid =? 0 then s
      else Names (Some (r, alter (fun n => Node (update_time n) true (comm n) (linked n)) pid m)) (listeners s) (told s)
  | Ref opens mem proc, None => if opens then spec_enabled mem proc (Names (Some (1, ∅)) (listeners s) (told s)) else s
  | Ref _ _ _, Some (r, m) => Names (Some (r + 1, m)) (listeners s) (told s)
  | Unref, Some (r, m) =>
      if r =? 1 then Names None (listeners s) (told s ++ tell (listeners s) (freed m)) else Names (Some (r - 1, m)) (listeners s) (told s)
  | Register n, _ => Names (table s) (n :: listeners s) (told s)
  | Unregister n, _ => Names (table s) (filter (fun k => k <> n) (listeners s)) (told s)
  | _, None => s
  end.
End spec.

(** ** Freed tasks in order *)

Definition key_lt (a b : Z * Z) : Prop := a.1 < b.1 \/ (a.1 = b.1 /\ a.2 < b.2).

(** [l] are the keys of the tasks of [m] that are freed, in ascending order. *)
Definition in_order (m : tasks) (l : list (Z * Z)) : Prop :=
  StronglySorted key_lt l /\ forall t p, (t, p) ∈ l <-> exists n, m !! p = Some n /\ linked n = true /\ update_time n = t.

Lemma keys_NoDup m : NoDup (keys m).
Proof.
  unfold keys. apply NoDup_fmap_2_strong; [|apply NoDup_map_to_list]. intros [p n] [q n'] Hp Hq [= _ ->].
  apply elem_of_map_to_list in Hp, Hq. f_equal. congruence.
Qed.

Lemma freed_elem m t p : (t, p) ∈ freed m <-> exists n, m !! p = Some n /\ linked n = true /\ update_time n = t.
Proof.
  unfold freed. rewrite merge_sort_Permutation. unfold keys. rewrite list_elem_of_fmap. split.
  - intros ([q n] & [= -> ->] & Hq). apply elem_of_map_to_list, map_lookup_filter_Some in Hq as [? ?]. by exists n.
  - intros (n & Hn & Hl & <-). exists (p, n). split; [done|]. by apply elem_of_map_to_list, map_lookup_filter_Some.
Qed.

Lemma key_lt_le a b : key_lt a b -> key_le a b.
Proof. unfold key_lt, key_le. lia. Qed.

Lemma key_lt_NoDup l : StronglySorted key_lt l -> NoDup l.
Proof.
  induction 1 as [|x l Hs IH Hx]; constructor; [|done]. intros Hin. rewrite Forall_forall in Hx.
  specialize (Hx x Hin). unfold key_lt in Hx. lia.
Qed.

Lemma in_order_freed m l : in_order m l -> l = freed m.
Proof.
  intros [Hs Hl]. apply (StronglySorted_unique key_le).
  - clear Hl. induction Hs as [|x l Hs IH Hx]; constructor; [done|]. rewrite Forall_forall in *. intros y Hy. by apply key_lt_le, Hx.
  - apply StronglySorted_merge_sort; apply _.
  - apply NoDup_Permutation; [by apply key_lt_NoDup|unfold freed; rewrite merge_sort_Permutation; apply keys_NoDup|].
    intros [t p]. by rewrite Hl, freed_elem.
Qed.

Lemma freed_in_order m : in_order m (freed m).
Proof.
  split; [|apply freed_elem]. assert (NoDup (freed m)) as Hd by (unfold freed; rewrite merge_sort_Permutation; apply keys_NoDup).
  assert (StronglySorted key_le (freed m)) as Hs by (apply StronglySorted_merge_sort; apply _). revert Hd.
  induction Hs as [|x l Hs IH Hx]; intros Hd; constructor; inversion Hd as [|? ? Hni Hd']; subst; [by apply IH|].
  rewrite Forall_forall in *. intros y Hy. specialize (Hx y Hy). assert (x <> y) as Hne by congruence.
  destruct x as [x1 x2], y as [y1 y2]. unfold key_le, key_lt in *. cbn in *. destruct (decide (x1 = y1 /\ x2 = y2)) as [[-> ->]|]; [done|lia].
Qed.

Definition pid_ok (p : Z) : Prop := 0 <= p < 2 ^ 31.

(** The keys of freed tasks, as the nodes have them. *)
Definition keyed (m : tasks) (l : list (Z * Z)) : Prop := forall t p, (t, p) ∈ l -> pid_ok p /\ exists n, m !! p = Some n /\ update_time n = t.

Lemma exit_cmp_ok b e p q : pid_ok p -> pid_ok q ->
  (0 < pid_comm_exit_cmp b e p q <-> key_lt (update_time e, q) (update_time b, p)) /\
  (pid_comm_exit_cmp b e p q < 0 <-> key_lt (update_time b, p) (update_time e, q)).
Proof.
  intros Hp Hq. unfold pid_ok in *. unfold pid_comm_exit_cmp, key_lt. cbn. rewrite s32_small by lia.
  destruct (Z.ltb_spec (update_time e) (update_time b)); [lia|]. destruct (Z.ltb_spec (update_time b) (update_time e)); lia.
Qed.

Lemma exited_add_ok m pid e l : pid_ok pid -> keyed m l -> StronglySorted key_lt l ->
  if decide ((update_time e, pid) ∈ l) then exited_add m pid e l.*2 = Some None
  else exists l', exited_add m pid e l.*2 = Some (Some l'.*2) /\ StronglySorted key_lt l' /\
    forall x, x ∈ l' <-> x = (update_time e, pid) \/ x ∈ l.
Proof.
  intros Hpid Hk Hs. induction Hs as [|[t p] l Hs IH Hx]; cbn [fmap list_fmap exited_add snd].
  - rewrite decide_False by apply not_elem_of_nil. exists [(update_time e, pid)]. split; [done|]. split; [by repeat constructor|].
    intros x. rewrite elem_of_cons. done.
  - destruct (Hk t p) as (Hp & b & -> & Hb); [by left|]. cbn [mbind option_bind]. rewrite Forall_forall in Hx.
    destruct (exit_cmp_ok b e p pid Hp Hpid) as [Hgt Hlt]. rewrite Hb in Hgt, Hlt.
    assert (keyed m l) as Hk' by (intros ? ? Hin; apply Hk; by right). specialize (IH Hk').
    destruct (Z.ltb_spec 0 (pid_comm_exit_cmp b e p pid)) as [H1|H1]; [|destruct (Z.ltb_spec (pid_comm_exit_cmp b e p pid) 0) as [H2|H2]].
    + apply Hgt in H1. rewrite decide_False.
      * exists ((update_time e, pid) :: (t, p) :: l). split; [done|]. split; [|intros x; by rewrite elem_of_cons].
        constructor; [constructor; [done|by apply Forall_forall]|]. apply Forall_forall. intros y [->|Hy]%elem_of_cons; [done|].
        specialize (Hx y Hy). unfold key_lt in *. cbn in *. lia.
      * intros [[= <- <-]|Hin]%elem_of_cons; [unfold key_lt in H1; cbn in H1; lia|]. specialize (Hx _ Hin). unfold key_lt in *. cbn in *. lia.
    + apply Hlt in H2. destruct (decide ((update_time e, pid) ∈ l)) as [Hin|Hni].
      * rewrite decide_True by by right. by rewrite IH.
      * rewrite decide_False; [|intros [[= <- <-]|?]%elem_of_cons; [unfold key_lt in H2; cbn in H2; lia|done]].
        destruct IH as (l' & -> & Hs' & Hl'). exists ((t, p) :: l'). split; [done|]. split.
        -- constructor; [done|]. apply Forall_forall. intros y [->|Hy]%Hl'; [done|by apply Hx].
        -- intros x. rewrite !elem_of_cons, Hl'. tauto.
    + rewrite decide_True; [done|]. rewrite elem_of_cons. left. f_equal; unfold key_lt in *; cbn in *; lia.
Qed.

Lemma sorted_filter P `{!forall x, Decision (P x)} l : StronglySorted key_lt l -> StronglySorted key_lt (filter P l).
Proof.
  induction 1 as [|x l Hs IH Hx]; [constructor|]. rewrite filter_cons. case_decide; [|done]. constructor; [done|].
  rewrite Forall_forall in *. intros y [_ Hy]%list_elem_of_filter. by apply Hx.
Qed.

Lemma filter_snd (pid : Z) (l : list (Z * Z)) : filter (fun q => q <> pid) l.*2 = (filter (fun k => k.2 <> pid) l).*2.
Proof. induction l as [|k l IH]; [done|]. cbn [fmap list_fmap]. rewrite !filter_cons. case_decide; cbn; by rewrite IH. Qed.

(** ** The steps *)

(** The context is consistent, and its references [k] at most. *)
Definition ctx_ok (k : Z) (c : comm_ctx) : Prop :=
  (exists l, in_order (pid_comm c) l /\ exited c = l.*2) /\ (forall p, is_Some (pid_comm c !! p) -> pid_ok p) /\ 1 <= ref c <= k.

Lemma ctx_keyed m l : (forall p, is_Some (m !! p) -> pid_ok p) -> in_order m l -> keyed m l.
Proof. intros Hm [_ Hl] t p (n & Hn & _ & Ht)%Hl. split; [apply Hm; by exists n|by exists n]. Qed.

Definition abs (c : comm_ctx) (w : world) : names := Names (Some (ref c, pid_comm c)) (notify_list w) (notified w).

Lemma tell_one ls t p : tell ls [(t, p)] = map (fun n => (n, (p, t))) ls.
Proof. unfold tell. cbn. by rewrite app_nil_r. Qed.

Section steps.
Context (junk : list Z) (task_newtask task_rename sched_process_free : Z).

(** A step on the context does what it does to the map. *)
Definition steps_to (k : Z) (o : option (comm_ctx * world)) (s : names) : Prop :=
  exists c w, o = Some (c, w) /\ ctx_ok k c /\ s = abs c w.

(** A node that is not freed replaces one: the tree of the freed loses its entry. *)
Lemma replaced m l pid n n' : in_order m l -> m !! pid = Some n -> linked n' = false ->
  in_order (<[pid := n']> m) (if linked n then filter (fun k => k.2 <> pid) l else l) /\
  (forall t, (t, pid) ∉ (if linked n then filter (fun k => k.2 <> pid) l else l)).
Proof using.
  intros [Hs Hl] Hn Hn'. set (l' := if linked n then _ else _).
  assert (forall t p, (t, p) ∈ l' <-> p <> pid /\ (t, p) ∈ l) as Hl'.
  { intros t p. unfold l'. destruct (linked n) eqn:E; [rewrite list_elem_of_filter; done|].
    split; [|tauto]. intros Hin. split; [|done]. intros ->. apply Hl in Hin as (n0 & ? & ? & _). congruence. }
  split; [split|].
  - unfold l'. destruct (linked n); [by apply sorted_filter|done].
  - intros t p. rewrite Hl', Hl. split.
    + intros (Hp & n0 & ? & ?). exists n0. by rewrite lookup_insert_ne by done.
    + intros (n0 & Hp & Hl0 & Ht). apply lookup_insert_Some in Hp as [[-> ->]|[Hne Hp]]; [congruence|]. split; [done|by exists n0].
  - intros t Hin. by apply Hl' in Hin as [? _].
Qed.

(** A node that is freed now, or was. *)
Lemma add_freed k c w s l m pid node : pid_ok pid -> m = <[pid := node]> (pid_comm c) -> in_order m l ->
  (forall p, is_Some (pid_comm c !! p) -> pid_ok p) -> 1 <= ref c <= k ->
  s = Names (Some (ref c, <[pid := Node (update_time node) (flush node) (comm node) true]> (pid_comm c))) (notify_list w) (notified w) ->
  steps_to k (r ← exited_add m pid node l.*2;
    match r with
    | Some exited => Some (CommCtx (ref c) (<[pid := Node (update_time node) (flush node) (comm node) true]> (pid_comm c)) exited, w)
    | None => Some (CommCtx (ref c) (<[pid := node]> (pid_comm c)) l.*2, w)
    end) s.
Proof using.
  intros Hpid -> Hl Hdom Hr ->. set (m := <[pid := node]> (pid_comm c)) in *.
  assert (forall p, is_Some (m !! p) -> pid_ok p) as Hm.
  { intros p. unfold m. rewrite lookup_insert_is_Some. intros [<-|[_ ?]]; [done|by apply Hdom]. }
  destruct Hl as [Hs Hl]. pose proof (exited_add_ok m pid node l Hpid (ctx_keyed m l Hm (conj Hs Hl)) Hs) as Ha.
  case_decide as Hin.
  - rewrite Ha. cbn. apply Hl in Hin as Hnode. destruct Hnode as (n & Hn & Hlk & _). unfold m in Hn. rewrite lookup_insert_eq in Hn. injection Hn as <-.
    eexists _, w. split; [done|]. split; [split; [|done]; by exists l|]. unfold abs. cbn. rewrite <- Hlk. by destruct node.
  - destruct Ha as (l' & -> & Hs' & Hl'). cbn. eexists _, w. split; [done|]. split; [split; [|split; [|done]]|done]; cbn.
    + exists l'. split; [|done]. split; [done|]. intros t p. rewrite Hl', Hl. split.
      * intros [[= -> ->]|(n & Hn & Hlk & Ht)]; [eexists; by rewrite lookup_insert_eq|].
        unfold m in Hn. apply lookup_insert_Some in Hn as [[-> ->]|[Hne Hn]].
        -- eexists. rewrite lookup_insert_eq. done.
        -- exists n. by rewrite lookup_insert_ne by done.
      * intros (n & Hn & Hlk & Ht). apply lookup_insert_Some in Hn as [[<- <-]|[Hne Hn]]; [left; by subst t|].
        right. exists n. unfold m. by rewrite lookup_insert_ne by done.
    + intros p. rewrite lookup_insert_is_Some. intros [<-|[_ ?]]; [done|by apply Hdom].
Qed.

Lemma comm_update_ok k mem time exit pid name c w : ctx_ok k c -> pid_ok pid ->
  steps_to k (comm_update junk mem time exit pid name c w) (spec_update junk mem time exit pid name (ref c) (pid_comm c) (abs c w)).
Proof using.
  intros ((l & Hl & Hex) & Hdom & Hr) Hpid. unfold comm_update, spec_update.
  (* a node, found or new, and the list without it *)
  assert (forall node told, pid_comm c !! pid = Some node \/ (pid_comm c !! pid = None /\ linked node = false) ->
    told = (if (update_time node <? time) && linked node then tell (notify_list w) [(update_time node, pid)] else []) ->
    steps_to k (let '(node, exited, w) :=
        if update_time node <? time then
          let '(exited, w) :=
            if linked node then (filter (fun q => q <> pid) (exited c), pid_comm_exit_delete pid (update_time node) w) else (exited c, w) in
          (Node time false name false, exited, w)
        else (node, exited c, w) in
      if exit then
        r ← exited_add (<[pid := node]> (pid_comm c)) pid node exited;
        match r with
        | Some exited => Some (CommCtx (ref c) (<[pid := Node (update_time node) (flush node) (comm node) true]> (pid_comm c)) exited, w)
        | None => Some (CommCtx (ref c) (<[pid := node]> (pid_comm c)) exited, w)
        end
      else Some (CommCtx (ref c) (<[pid := node]> (pid_comm c)) exited, w))
    (with_tasks (ref c) (<[pid := updated time exit name node]> (pid_comm c)) told (abs c w))) as Hmain.
  { intros node told Hnode ->. unfold updated.
    assert (in_order (<[pid := node]> (pid_comm c)) l) as Hsame.
    { destruct Hnode as [Hn|[Hn Hlk]]; [by rewrite insert_id|]. destruct Hl as [Hs Hl]. split; [done|]. intros t p. rewrite Hl. split.
      - intros (n & ? & ?). exists n. rewrite lookup_insert_ne; [done|congruence].
      - intros (n & Hp & Hnl & Ht). apply lookup_insert_Some in Hp as [[-> ->]|[_ Hp]]; [congruence|by exists n]. }
    destruct (Z.ltb_spec (update_time node) time) as [Hlt|Hge]; cbn [andb].
    - destruct (replaced (<[pid := node]> (pid_comm c)) l pid node (Node time false name false) Hsame) as [Hrep _]; [apply lookup_insert_eq|done|].
      rewrite insert_insert_eq in Hrep. set (l' := if linked node then filter (fun k => k.2 <> pid) l else l) in *.
      set (w' := if linked node then pid_comm_exit_delete pid (update_time node) w else w).
      replace (if linked node then _ else _) with (l'.*2, w') by (unfold l', w'; rewrite Hex, filter_snd; by destruct (linked node)).
      assert (notify_list w' = notify_list w /\ notified w' = notified w ++ (if linked node then tell (notify_list w) [(update_time node, pid)] else [])) as [Ew En].
      { unfold w'. destruct (linked node); [by rewrite tell_one|]. by rewrite app_nil_r. }
      destruct exit.
      + eapply add_freed; [done|done|done|done|done|]. unfold with_tasks, abs. cbn. by rewrite Ew, En.
      + eexists _, w'. split; [done|]. split; [split; [|split; [|done]]|]; cbn.
        * by exists l'.
        * intros p. rewrite lookup_insert_is_Some. intros [<-|[_ ?]]; [done|by apply Hdom].
        * unfold with_tasks, abs. cbn. by rewrite Ew, En.
    - unfold with_tasks. cbn [abs listeners told]. rewrite app_nil_r, Hex. destruct exit.
      + eapply add_freed; [done|done|done|done|done|]. by rewrite orb_true_r.
      + eexists _, w. split; [done|]. split; [split; [|split; [|done]]|]; cbn.
        * by exists l.
        * intros p. rewrite lookup_insert_is_Some. intros [<-|[_ ?]]; [done|by apply Hdom].
        * unfold abs. cbn. rewrite orb_false_r. by destruct node. }
  destruct (pid_comm c !! pid) as [node|] eqn:E.
  - apply Hmain; [by left|done].
  - destruct mem.
    + apply Hmain; [by right|]. by rewrite andb_false_r.
    + exists c, w. split; [done|]. split; [split; [by exists l|done]|]. unfold with_tasks, abs. cbn. by rewrite app_nil_r.
Qed.

(** An event that has its fields, and the number of a task. *)
Definition event_ok (ev : list Z) : Prop :=
  exists f, sample_fields task_newtask task_rename sched_process_free ev = Some f /\
    match f with Some (_, _, pid, _) => pid_ok pid | None => True end.

Lemma unchanged k c w : ctx_ok k c -> steps_to k (Some (c, w)) (with_tasks (ref c) (pid_comm c) [] (abs c w)).
Proof using. intros Hc. exists c, w. split; [done|]. split; [done|]. unfold with_tasks, abs. cbn. by rewrite app_nil_r. Qed.

Lemma comm_sample_ok k mem ev c w : ctx_ok k c -> event_ok ev ->
  steps_to k (comm_sample junk task_newtask task_rename sched_process_free mem ev c w)
    (spec_sample junk task_newtask task_rename sched_process_free mem ev (ref c) (pid_comm c) (abs c w)).
Proof using.
  intros Hc (f & E & Hf). unfold comm_sample, spec_sample. rewrite E. cbn [mbind option_bind].
  destruct f as [[[[time exit] pid] name]|]; [by apply comm_update_ok|by apply unchanged].
Qed.

(** One step after the other. *)
Lemma all_ok {A} k (f : A -> comm_ctx -> world -> option (comm_ctx * world)) g (ok : A -> Prop) :
  (forall x c w, ctx_ok k c -> ok x -> steps_to k (f x c w) (g x (ref c) (pid_comm c) (abs c w))) ->
  forall l c w, ctx_ok k c -> Forall ok l ->
  steps_to k (foldr (fun x rest c w => '(c, w) ← f x c w; rest c w) (fun c w => Some (c, w)) l c w) (spec_all g l (abs c w)).
Proof using.
  intros Hf l. induction l as [|x l IH]; intros c w Hc Hl; [by exists c, w|]. inversion Hl as [|? ? Hx Hl']; subst. cbn.
  destruct (Hf x c w Hc Hx) as (c' & w' & E & Hc' & ->). rewrite E. cbn. by apply IH.
Qed.

Lemma process_ok k l c w : ctx_ok k c -> Forall (fun p => event_ok p.2) l ->
  steps_to k (process junk task_newtask task_rename sched_process_free l c w)
    (spec_process junk task_newtask task_rename sched_process_free l (abs c w)).
Proof using.
  intros Hc Hl. pose proof (all_ok k (fun p => comm_sample junk task_newtask task_rename sched_process_free p.1 p.2)
    (fun p => spec_sample junk task_newtask task_rename sched_process_free p.1 p.2) (fun p => event_ok p.2)
    (fun p c w Hc Hp => comm_sample_ok k p.1 p.2 c w Hc Hp) l c w Hc Hl) as H. unfold spec_process.
  enough (forall c w, process junk task_newtask task_rename sched_process_free l c w =
    foldr (fun x rest c w => '(c, w) ← comm_sample junk task_newtask task_rename sched_process_free x.1 x.2 c w; rest c w)
      (fun c w => Some (c, w)) l c w) as -> by done.
  clear. induction l as [|[mem ev] l IH]; intros c w; [done|]. cbn. destruct (comm_sample _ _ _ _ _ _ _ _) as [[c' w']|]; [apply IH|done].
Qed.

Lemma enabled_ok k mem proc c w : ctx_ok k c -> Forall (fun p => pid_ok p.1.1) proc ->
  steps_to k (comm_enabled junk mem proc c w) (spec_enabled junk mem proc (abs c w)).
Proof using.
  intros Hc Hl. unfold comm_enabled, spec_enabled, spec_all. cbn [foldl table abs].
  destruct (comm_update_ok k mem 1 false 0 swapper c w Hc) as (c' & w' & -> & Hc' & ->); [unfold pid_ok; lia|]. cbn [mbind option_bind].
  clear Hc c w. revert c' w' Hc'. generalize swapper. induction Hl as [|[[tid file] m] l Hp Hl IH]; intros buff c w Hc; [by exists c, w|].
  cbn [enabled_loop proc_names]. destruct (get_comm file buff) as [buff'|]; [|by apply IH]. cbn [foldl table abs].
  destruct (comm_update_ok k m 1 false tid buff' c w Hc Hp) as (c' & w' & -> & Hc' & ->). cbn [mbind option_bind]. by apply IH.
Qed.

(** ** Collecting *)

Lemma in_order_cons m t p l : in_order m ((t, p) :: l) ->
  (exists n, m !! p = Some n /\ linked n = true /\ update_time n = t) /\ in_order (delete p m) l /\ forall k, k ∈ l -> key_lt (t, p) k.
Proof using.
  intros [Hs Hl]. inversion Hs as [|? ? Hs' Hx]; subst. rewrite Forall_forall in Hx. destruct (proj1 (Hl t p)) as (n & Hn & Hlk & Ht); [by left|].
  split; [by exists n|]. split; [|done]. split; [done|]. intros t' q. split.
  - intros Hin. destruct (proj1 (Hl t' q)) as (n' & Hn' & ? & ?); [by right|]. exists n'. split; [|done].
    rewrite lookup_delete_ne; [done|]. intros <-. specialize (Hx _ Hin). unfold key_lt in Hx. cbn in Hx. assert (n = n') by congruence. subst. lia.
  - intros (n' & Hq & ? & ?). apply lookup_delete_Some in Hq as [Hne Hq]. assert ((t', q) ∈ (t, p) :: l) as Hin by (apply Hl; by exists n').
    apply elem_of_cons in Hin as [[= -> ->]|?]; done.
Qed.

Lemma gc_ok k t l : forall c w, in_order (pid_comm c) l -> exited c = l.*2 -> (forall p, is_Some (pid_comm c !! p) -> pid_ok p) -> 1 <= ref c <= k ->
  steps_to k (gc_loop t l.*2 c w) (spec_gc t (ref c) (pid_comm c) (abs c w)).
Proof using.
  assert (forall (m : tasks) l, in_order m l -> (forall k, k ∈ l -> t <= k.1) ->
    filter (fun p => ~ old t p) m = m /\ freed (filter (old t) m) = []) as Hnone.
  { intros m l' [_ Hl'] Hge. assert (forall p n, m !! p = Some n -> ~ old t (p, n)) as Hno.
    { intros p n Hn [Hlk Hlt]. cbn in *. specialize (Hge (update_time n, p)). cbn in Hge. enough (t <= update_time n) by lia. apply Hge, Hl'. by exists n. }
    split; [apply map_filter_id; intros p n Hn; by apply Hno|].
    assert (filter (old t) m = ∅) as ->; [|unfold freed, keys; by rewrite map_filter_empty, map_to_list_empty].
    apply map_empty. intros p. apply map_lookup_filter_None. right. intros n Hn. by apply Hno. }
  induction l as [|[t' p] l IH]; intros c w Hl Hex Hdom Hr; cbn [fmap list_fmap gc_loop snd].
  - destruct (Hnone _ _ Hl) as [E1 E2]; [by intros ? ?%elem_of_nil|]. unfold spec_gc. rewrite E1, E2. cbn [tell mbind list_bind].
    apply unchanged. split; [by exists []|done].
  - destruct (in_order_cons _ _ _ _ Hl) as ((n & Hn & Hlk & Ht') & Hl' & Hx). rewrite Hn. cbn [mbind option_bind].
    destruct (Z.leb_spec t (update_time n)) as [Hge|Hlt].
    + destruct (Hnone _ _ Hl) as [E1 E2].
      { intros q [->|Hq]%elem_of_cons; [cbn; lia|]. specialize (Hx q Hq). unfold key_lt in Hx. cbn in Hx. lia. }
      unfold spec_gc. rewrite E1, E2. apply unchanged. split; [by exists ((t', p) :: l)|done].
    + destruct (IH (CommCtx (ref c) (delete p (pid_comm c)) l.*2) (pid_comm_exit_delete p (update_time n) w)) as (c' & w' & E & Hc' & Hs); [done|done|..].
      { intros q [n' Hq]. cbn in Hq. apply lookup_delete_Some in Hq as [_ Hq]. apply Hdom. by exists n'. }
      { done. }
      exists c', w'. split; [exact E|]. split; [done|]. rewrite <- Hs. unfold spec_gc, with_tasks, abs. cbn [ref pid_comm listeners told notify_list notified pid_comm_exit_delete].
      assert (old t (p, n)) as Hold by done.
      assert (filter (fun q => ~ old t q) (pid_comm c) = filter (fun q => ~ old t q) (delete p (pid_comm c))) as ->.
      { rewrite map_filter_delete, delete_id; [done|]. apply map_lookup_filter_None. right. intros n' Hn'. assert (n' = n) as -> by congruence. tauto. }
      assert (freed (filter (old t) (pid_comm c)) = (t', p) :: freed (filter (old t) (delete p (pid_comm c)))) as ->.
      { symmetry. apply in_order_freed. split.
        - constructor; [|apply Forall_forall].
          + apply (freed_in_order (filter (old t) (delete p (pid_comm c)))).
          + intros [t2 q] (n' & Hq & Hlk' & Ht2)%freed_elem. apply map_lookup_filter_Some in Hq as [Hq _]. apply Hx, Hl'. by exists n'.
        - intros t2 q. rewrite elem_of_cons, freed_elem. split.
          + intros [[= -> ->]|(n' & Hq & ? & ?)]; [exists n; by rewrite map_lookup_filter_Some|].
            apply map_lookup_filter_Some in Hq as [[_ Hq]%lookup_delete_Some Ho]. exists n'. by rewrite map_lookup_filter_Some.
          + intros (n' & Hq & Hlk' & Ht2). apply map_lookup_filter_Some in Hq as [Hq Ho]. destruct (decide (p = q)) as [->|Hne].
            * left. assert (n' = n) as -> by congruence. congruence.
            * right. exists n'. rewrite map_lookup_filter_Some. by rewrite lookup_delete_ne. }
      unfold tell. cbn. by rewrite <- app_assoc, Ht'.
Qed.

Lemma comm_exit_ok l m w : (forall t p, (t, p) ∈ l -> exists n, m !! p = Some n /\ update_time n = t) ->
  exit_loop l.*2 m w = Some (World (global_comm_ctx w) (notify_list w) (notified w ++ tell (notify_list w) l)).
Proof using.
  revert w. induction l as [|[t p] l IH]; intros w Hl; cbn [fmap list_fmap exit_loop snd].
  - unfold tell. cbn. rewrite app_nil_r. by destruct w.
  - destruct (Hl t p) as (n & -> & <-); [by left|]. cbn [mbind option_bind]. rewrite IH by (intros ? ? ?; apply Hl; by right).
    cbn. do 2 f_equal. by rewrite <- app_assoc.
Qed.

(** ** Everything that happens *)

Definition input_ok (i : input) : Prop :=
  match i with
  | Samples l | Get _ l => Forall (fun p => event_ok p.2) l
  | Ref _ _ proc => Forall (fun p => pid_ok p.1.1) proc
  | _ => True
  end.

Definition world_ok (k : Z) (w : world) : Prop := match global_comm_ctx w with Some c => ctx_ok k c | None => True end.

(** What is there of the state but for the second tree. *)
Definition names_of (w : world) : names :=
  Names (match global_comm_ctx w with Some c => Some (ref c, pid_comm c) | None => None end) (notify_list w) (notified w).

Lemma ctx_more k k' c : k <= k' -> ctx_ok k c -> ctx_ok k' c.
Proof using. intros Hk (? & ? & ?). split; [done|]. split; [done|lia]. Qed.

Lemma done_ok k o s : k < UINT_MAX - 2 -> steps_to k o s -> exists w',
  ('(c, w) ← o; Some (set_ctx (Some c) w)) = Some w' /\ world_ok (k + 1) w' /\ names_of w' = s.
Proof using.
  intros Hk (c & w' & -> & Hc & ->). exists (set_ctx (Some c) w'). split; [done|]. split; [|done]. apply (ctx_more k); [lia|done].
Qed.

Lemma flushed m l f p : in_order m l -> (forall n, linked (f n) = linked n /\ update_time (f n) = update_time n) ->
  (forall q, is_Some (m !! q) -> pid_ok q) -> in_order (alter f p m) l /\ (forall q, is_Some (alter f p m !! q) -> pid_ok q).
Proof using.
  intros [Hs Hl] Hf Hdom. split; [split; [done|]|].
  - intros t q. rewrite Hl. destruct (decide (p = q)) as [->|Hne]; [|by rewrite lookup_alter_ne].
    rewrite lookup_alter_eq. destruct (m !! q) as [n|]; cbn; [|by split; intros (? & ? & _)]. destruct (Hf n) as [E1 E2].
    split; intros (n' & [= <-] & Hlk & Ht); [exists (f n)|exists n]; (split; [done|]); split; congruence.
  - intros q [n Hq]. apply Hdom. destruct (decide (p = q)) as [->|Hne]; [|by rewrite lookup_alter_ne in Hq by done].
    rewrite lookup_alter_eq in Hq. destruct (m !! q); [by eexists|done].
Qed.

Lemma comm_step_ok k w i : world_ok k w -> 1 <= k < UINT_MAX - 2 -> input_ok i ->
  exists w', step junk task_newtask task_rename sched_process_free w i = Some w' /\ world_ok (k + 1) w' /\
    names_of w' = spec_step junk task_newtask task_rename sched_process_free (names_of w) i.
Proof using.
  intros Hw Hk Hi. unfold world_ok in Hw. destruct i as [l|t|pid l|pid|opens mem proc| |n|n]; cbn [step input_ok] in *.
  - unfold on_ctx, names_of, spec_step. destruct (global_comm_ctx w) as [c|] eqn:E.
    + apply (done_ok k); [lia|]. by apply process_ok.
    + exists w. split; [done|]. split; [unfold world_ok; by rewrite E|]. rewrite E. cbn. unfold spec_process, spec_all.
      induction l as [|x l IH]; [done|]. cbn. apply IH. by inversion Hi.
  - unfold on_ctx, names_of, spec_step. destruct (global_comm_ctx w) as [c|] eqn:E.
    + apply (done_ok k); [lia|]. destruct Hw as ((l & Hl & Hex) & Hdom & Hr). unfold comm_gc. rewrite Hex. by apply gc_ok.
    + exists w. split; [done|]. split; [unfold world_ok; by rewrite E|]. by rewrite E.
  - unfold global_comm_get, names_of, spec_step. destruct (global_comm_ctx w) as [c|] eqn:E; cbn [table].
    + destruct (match pid_comm c !! pid with Some n => negb (flush n) | None => false end).
      * exists (set_ctx (Some c) w). split; [done|]. split; [by apply (ctx_more k); [lia|]|done].
      * destruct (process_ok k l c w Hw Hi) as (c' & w' & -> & Hc' & Hs). exists (set_ctx (Some c') w'). split; [done|].
        split; [by apply (ctx_more k); [lia|]|]. unfold abs in Hs. rewrite Hs. done.
    + exists w. split; [done|]. split; [unfold world_ok; by rewrite E|]. by rewrite E.
  - unfold global_comm_flush, names_of, spec_step. eexists. split; [done|]. destruct (global_comm_ctx w) as [c|] eqn:E; cbn [table].
    + destruct (pid =? 0); [unfold world_ok; rewrite E; split; [by apply (ctx_more k); [lia|]|done]|]. split; [|done].
      destruct Hw as ((l & Hl & Hex) & Hdom & Hr). cbn. edestruct (flushed (pid_comm c) l) as [H1 H2]; [done| |done|].
      2: { split; [exists l; split; [exact H1|done]|]. split; [exact H2|cbn; lia]. }
      intros n. by split.
    + unfold world_ok. rewrite E. done.
  - unfold global_comm_ref, names_of, spec_step. destruct (global_comm_ctx w) as [c|] eqn:E; cbn [table].
    + destruct Hw as (Hl & Hdom & Hr). assert (refcount_inc (ref c) = Some (ref c + 1)) as ->.
      { unfold refcount_inc. rewrite u32_small by (unfold UINT_MAX in *; lia). by rewrite !(proj2 (Z.eqb_neq _ _)) by lia. }
      eexists. split; [done|]. split; [|done]. split; [done|]. split; [done|cbn; lia].
    + destruct opens; [|exists w; split; [done|]; split; [unfold world_ok; by rewrite E|by rewrite E]].
      destruct (enabled_ok k mem proc (CommCtx 1 ∅ []) w) as (c' & w' & -> & Hc' & Hs).
      { split; [exists []; split; [split; [constructor|]|done]|split; [|cbn; lia]].
        - intros t p. split; [by intros ?%elem_of_nil|]. intros (? & ? & _). cbn in *. by rewrite lookup_empty in *.
        - intros p [n Hp]. cbn in Hp. by rewrite lookup_empty in Hp. }
      { done. }
      exists (set_ctx (Some c') w'). split; [done|]. split; [by apply (ctx_more k); [lia|]|]. unfold abs in Hs. cbn [ref pid_comm listeners told] in *. rewrite Hs. done.
  - unfold global_comm_unref, names_of, spec_step. destruct (global_comm_ctx w) as [c|] eqn:E; cbn [table].
    + destruct Hw as ((l & Hl & Hex) & Hdom & Hr). assert (refcount_dec_and_test (ref c) = Some (ref c - 1, ref c - 1 =? 0)) as ->.
      { unfold refcount_dec_and_test, refcount_sub_and_test. rewrite u32_small by (unfold UINT_MAX in *; lia).
        rewrite (proj2 (Z.eqb_neq _ _)), (proj2 (Z.ltb_ge _ _)) by lia. done. }
      cbn [mbind option_bind]. replace (ref c - 1 =? 0) with (ref c =? 1) by lia. destruct (Z.eqb_spec (ref c) 1) as [H1|H1].
      * unfold comm_deinit. cbn [exited pid_comm]. rewrite Hex, comm_exit_ok.
        -- cbn. eexists. split; [done|]. split; [done|]. cbn. by rewrite <- (in_order_freed _ _ Hl).
        -- intros t p (n & Hn & _ & Ht)%Hl. by exists n.
      * eexists. split; [done|]. split; [|done]. split; [by exists l|]. split; [done|cbn; lia].
    + exists w. split; [done|]. split; [unfold world_ok; by rewrite E|]. by rewrite E.
  - eexists. split; [done|]. split; [|done]. unfold world_ok. cbn. destruct (global_comm_ctx w); [by apply (ctx_more k); [lia|]|done].
  - eexists. split; [done|]. split; [|done]. unfold world_ok. cbn. destruct (global_comm_ctx w); [by apply (ctx_more k); [lia|]|done].
Qed.
End steps.

(** ** Properties *)

(** C29: Whatever happens to the names - events in any order, memory or none, timers, lookups,
    references taken and put, listeners registered and not - no node that was freed is used,
    the tree of freed tasks has the tasks that were freed, once each and by time, and the
    names, the references and who was told of what, in which order, are those of the map
    without that tree: the latest event of a task names it, a task is collected when it was
    freed before the oldest event that is left, and then, or when its number is used again,
    or when the last reference is put, its listeners are told. *)
Theorem comm_names_kept junk newtask rename process_free l :
  Forall (input_ok newtask rename process_free) l -> Z.of_nat (length l) < UINT_MAX - 3 ->
  exists w, run junk newtask rename process_free nothing l = Some w /\
    names_of w = foldl (spec_step junk newtask rename process_free) (Names None [] []) l /\
    (forall c, global_comm_ctx w = Some c -> exited c = (freed (pid_comm c)).*2).
Proof.
  intros Hl Hlen.
  assert (forall l k w, Forall (input_ok newtask rename process_free) l -> world_ok k w -> 1 <= k -> k + Z.of_nat (length l) < UINT_MAX - 1 ->
    exists w', run junk newtask rename process_free w l = Some w' /\ world_ok (k + Z.of_nat (length l)) w' /\
      names_of w' = foldl (spec_step junk newtask rename process_free) (names_of w) l) as Hrun.
  { clear. induction l as [|i l IH]; intros k w Hl Hw Hk Hlen; [exists w; rewrite Z.add_0_r; done|].
    inversion Hl as [|? ? Hi Hl']; subst. cbn [length] in Hlen.
    destruct (comm_step_ok junk newtask rename process_free k w i Hw ltac:(lia) Hi) as (w1 & E & Hw1 & Hs).
    destruct (IH (k + 1) w1 Hl' Hw1) as (w2 & E2 & Hw2 & Hs2); [lia|lia|]. exists w2. split; [|split].
    - unfold run in *. cbn. by rewrite E.
    - cbn [length]. by replace (k + Z.of_nat (S (length l))) with (k + 1 + Z.of_nat (length l)) by lia.
    - cbn. by rewrite <- Hs. }
  destruct (Hrun l 1 nothing Hl) as (w & E & Hw & Hs); [done|lia|unfold UINT_MAX in *; lia|]. exists w. split; [done|]. split; [done|].
  intros c Hc. unfold world_ok in Hw. rewrite Hc in Hw. destruct Hw as ((l' & Hl' & ->) & _). by rewrite <- (in_order_freed _ _ Hl').
Qed.

Module Example.
Definition name (c : Z) : list Z := c :: replicate 15 0.
(** A new task, and one that is freed. *)
Definition new_task (t pid c : Z) : list Z :=
  replicate 8 0 ++ le_bytes 8 t ++ replicate 4 0 ++ le_bytes 2 1 ++ replicate 6 0 ++ le_bytes 4 pid ++ name c.
Definition free_task (t pid c : Z) : list Z :=
  replicate 8 0 ++ le_bytes 8 t ++ replicate 4 0 ++ le_bytes 2 3 ++ replicate 6 0 ++ name c ++ le_bytes 4 pid.
Definition inputs : list input :=
  [Register 7; Ref true true [(1, Some [105; 110; 105; 116; 10], true)];
   Samples [(true, new_task 20 100 65); (true, free_task 30 100 66); (true, new_task 25 101 67); (true, free_task 27 101 67)]; Interval 30].
End Example.
Import Example.

Lemma comm_names_kept_witness :
  exists w, run [] 1 2 3 nothing inputs = Some w /\ notified w = [(7, (101, 27))] /\
    (comm <$> (global_comm_ctx w ≫= fun c => pid_comm c !! 100)) = Some (name 66).
Proof.
  destruct (comm_names_kept [] 1 2 3 inputs) as (w & E & _).
  - repeat constructor; cbn; try (eexists; split; [vm_compute; reflexivity|]); unfold pid_ok; lia.
  - vm_compute. reflexivity.
  - exists w. split; [exact E|]. vm_compute in E. injection E as <-. vm_compute. split; reflexivity.
Defined.

(** C37: In whatever order the events of a task are read from the buffers of the processors,
    its name is that of the latest: of one whose time is greater than that of the node and
    of all other events of the task. *)
Theorem comm_latest junk newtask rename process_free l1 l2 mem ev time exit pid nm c w :
  let fields := sample_fields newtask rename process_free in
  let l := l1 ++ (mem, ev) :: l2 in
  ctx_ok (ref c) c -> Forall (fun p => p.1 = true /\ event_ok newtask rename process_free p.2) l ->
  fields ev = Some (Some (time, exit, pid, nm)) -> 0 < time ->
  (forall n, pid_comm c !! pid = Some n -> update_time n < time) ->
  (forall p t x n, p ∈ l1 ++ l2 -> fields p.2 = Some (Some (t, x, pid, n)) -> t < time) ->
  exists c' w', process junk newtask rename process_free l c w = Some (c', w') /\
    exists n, pid_comm c' !! pid = Some n /\ comm n = nm /\ update_time n = time.
Proof.
  intros fields l Hc Hl Hev Hpos Hnode Hother.
  assert (Forall (fun p => event_ok newtask rename process_free p.2) l) as Hl' by (eapply Forall_impl; [exact Hl|by intros p [_ Hp]]).
  destruct (process_ok junk newtask rename process_free (ref c) l c w Hc Hl') as (c' & w' & E & _ & Hs). exists c', w'. split; [done|].
  (* the node of the task after some of the events *)
  assert (forall (P : option pid_comm_node -> Prop) l0 s,
    Forall (fun p : bool * list Z => p.1 = true) l0 -> match table s with Some (_, m) => P (m !! pid) | None => False end ->
    (forall p t x n o, p ∈ l0 -> fields p.2 = Some (Some (t, x, pid, n)) -> P o ->
       P (Some (updated t x n (default (Node 0 false junk false) o)))) ->
    match table (spec_process junk newtask rename process_free l0 s) with Some (_, m) => P (m !! pid) | None => False end) as Hfold.
  { intros P l0. induction l0 as [|p l0 IH]; intros s Hm Hs0 Hstep; [done|]. inversion Hm as [|? ? Hp Hm']; subst.
    unfold spec_process, spec_all. cbn [foldl]. apply IH; [done| |intros p' t x n o Hin; apply (Hstep p' t x n o); by right].
    destruct (table s) as [[r m]|]; [|done]. unfold spec_sample. rewrite Hp.
    destruct (sample_fields _ _ _ p.2) as [[[[[t x] q] n]|]|] eqn:Ef; [|done|done].
    unfold spec_update, with_tasks. destruct (decide (q = pid)) as [->|Hq].
    - specialize (Hstep p t x n (m !! pid) ltac:(by left) Ef Hs0). destruct (m !! pid) as [n0|]; cbn; by rewrite lookup_insert_eq.
    - destruct (m !! q) as [n0|]; cbn; by rewrite lookup_insert_ne. }
  assert (Forall (fun p : bool * list Z => p.1 = true) l) as Hmem by (eapply Forall_impl; [exact Hl|by intros p [Hp _]]).
  unfold l in *. rewrite Forall_app, Forall_cons in Hmem. destruct Hmem as (Hm1 & Hm & Hm2). cbn in Hm. subst mem.
  pose proof (Hfold (fun o => forall n, o = Some n -> update_time n < time) l1 (abs c w) Hm1 Hnode) as H1.
  pose proof (Hfold (fun o => exists n, o = Some n /\ comm n = nm /\ update_time n = time) l2
    (spec_all (fun p => spec_sample junk newtask rename process_free p.1 p.2) [(true, ev)]
      (spec_process junk newtask rename process_free l1 (abs c w))) Hm2) as H2.
  assert (spec_process junk newtask rename process_free (l1 ++ (true, ev) :: l2) (abs c w) =
    spec_process junk newtask rename process_free l2 (spec_all (fun p => spec_sample junk newtask rename process_free p.1 p.2) [(true, ev)]
      (spec_process junk newtask rename process_free l1 (abs c w)))) as Es.
  { unfold spec_process, spec_all. by rewrite foldl_app. }
  rewrite Es in Hs. rewrite Hs in H2. cbn [abs table] in H2. apply H2.
  - unfold spec_all. cbn [foldl fst snd].
    assert (match table (spec_process junk newtask rename process_free l1 (abs c w)) with
      Some (_, m) => forall n, m !! pid = Some n -> update_time n < time | None => False end) as H1'.
    { apply H1. intros p t x n o Hin Hf Ho n' [= <-]. assert (t < time) by (apply (Hother p t x n); [apply elem_of_app; by left|done]).
      unfold updated. destruct o as [n0|]; cbn; [specialize (Ho n0 eq_refl)|]; destruct (_ <? _); cbn; lia. }
    destruct (table _) as [[r m]|]; [|done]. unfold spec_sample. fold fields. rewrite Hev. unfold spec_update.
    destruct (m !! pid) as [n0|] eqn:E0; cbn; rewrite lookup_insert_eq; eexists; (split; [done|]); unfold updated.
    + rewrite (proj2 (Z.ltb_lt _ _)) by by apply H1'. done.
    + cbn. by rewrite (proj2 (Z.ltb_lt _ _)).
  - intros p t x n o Hin Hf (n0 & -> & Hn0 & Ht0). assert (t < time) by (apply (Hother p t x n); [apply elem_of_app; by right|done]).
    eexists. split; [done|]. unfold updated. cbn. rewrite (proj2 (Z.ltb_ge _ _)) by lia. done.
Qed.

Lemma comm_latest_witness :
  let c := CommCtx 1 ∅ [] in
  ctx_ok 1 c /\ exists c' w', process [] 1 2 3 [(true, new_task 20 100 65); (true, new_task 30 100 66); (true, new_task 25 100 67)] c nothing = Some (c', w') /\
    exists n, pid_comm c' !! 100 = Some n /\ comm n = name 66 /\ update_time n = 30.
Proof.
  intros c. assert (ctx_ok 1 c) as Hc.
  { split; [exists []; split; [split; [constructor|]|reflexivity]|split; [|split; reflexivity || discriminate]].
    - intros t p. split; [intros Hin; by apply elem_of_nil in Hin|]. intros (n & Hn & _). cbn in Hn. by rewrite lookup_empty in Hn.
    - intros p [n Hn]. cbn in Hn. by rewrite lookup_empty in Hn. }
  split; [exact Hc|].
  apply (comm_latest [] 1 2 3 [(true, new_task 20 100 65)] [(true, new_task 25 100 67)] true (new_task 30 100 66) 30 false 100 (name 66) c nothing Hc).
  - repeat constructor; cbn; eexists; (split; [vm_compute; reflexivity|]); unfold pid_ok; lia.
  - vm_compute. reflexivity.
  - reflexivity.
  - intros n Hn. cbn in Hn. by rewrite lookup_empty in Hn.
  - intros p t x n Hp Hf. cbn in Hp. apply elem_of_cons in Hp as [->|Hp]; [vm_compute in Hf; injection Hf as <- _ _ ; reflexivity|].
    apply list_elem_of_singleton in Hp as ->. vm_compute in Hf. injection Hf as <- _ _. reflexivity.
Defined.

(** A task that is freed is marked even when its number is already another's: the events of
    two processors are not read in the order of their times, and the live task loses its
    name. *)
Example late_exit :
  (run [] 1 2 3 nothing [Ref true true []; Samples [(true, new_task 20 100 65); (true, free_task 10 100 66)]; Interval 30; Get 100 []]) ≫=
    (fun w => global_comm_ctx w ≫= fun c => pid_comm c !! 100) = None.
Proof. vm_compute. reflexivity. Qed.
