(* ===== verification/TaskState.v ===== *)
(** * The states of tasks (task-state.c)

    How long tasks run, wait for a processor and sleep, from the events of the scheduler:
    an event ends the state a task was in, whose time goes to the statistics, and starts
    another.  A running task and one that waits for a processor have one state here; the
    event that ends it tells them apart.  Where events were lost all states are forgotten. *)

From Stdlib Require Import Sorted.
From S2P Require Import Prelude.

(** ** Data *)

Definition TASK_RUNNING : Z := 0.
Definition TASK_INTERRUPTIBLE : Z := 1.
Definition TASK_UNINTERRUPTIBLE : Z := 2.
Definition __TASK_STOPPED : Z := 4.
Definition __TASK_TRACED : Z := 8.
Definition EXIT_ZOMBIE : Z := 16.
Definition EXIT_DEAD : Z := 32.
Definition TASK_DEAD : Z := 64.
Definition TASK_STATE_MAX : Z := 1024.
Definition TASK_REPORT : Z := Z.lor (Z.lor TASK_INTERRUPTIBLE TASK_UNINTERRUPTIBLE) (Z.lor __TASK_STOPPED __TASK_TRACED).
Definition RUNDELAY : Z := Z.shiftl TASK_STATE_MAX 1.
Definition TASK_REPORT_IDLE : Z := 128.
Definition TASK_REPORT_MAX : Z := 256.

(** [struct task_state_node]; of the event that is kept, its size. *)
Record task_state_node := Node { pid : Z; state : Z; time : Z; event : option Z }.

Record task_lost_node := Lost { reclaim : bool; start_time : Z; end_time : Z }.

Record dup_stat := Stat { copied : Z; freed : Z; mem_bytes : Z }.

(** What [task_state_init] sets: [has_filter] and [SD] are the bits of [mode]. *)
Record config := Config { has_filter : bool; SD : bool; state_dead : Z; report_max : Z; task_report : Z; dup : bool; greater_than : Z; perins : bool; interval : Z }.
Definition mode (g : config) : Z := Z.b2z (has_filter g) + 2 * Z.b2z (SD g).

(** What changes of [struct task_state_ctx]; [lat_dist] are the inputs to the statistics: a
    task, a state and a duration.  [printed] are the durations that were reported. *)
Record task_state_ctx := Ctx {
  task_states : gmap Z task_state_node;
  lat_dist : list (Z * Z * Z);
  printed : list (Z * Z * Z);
  lost_list : list task_lost_node;
  recent_time : Z;
  stat : dup_stat
}.
Definition ctx_new : task_state_ctx := Ctx ∅ [] [] [] 0 (Stat 0 0 0).

(** [task_state_init]: the options and the release of the kernel. *)
Definition task_state_init (no_interruptible interruptible uninterruptible threads comm_filter order perins : bool) (than interval : Z) (since_4_14 : bool) : config :=
  let report := if no_interruptible then Z.ldiff TASK_REPORT TASK_INTERRUPTIBLE else TASK_REPORT in
  Config (threads || comm_filter) (interruptible || uninterruptible)
    (if since_4_14 then Z.lor EXIT_ZOMBIE EXIT_DEAD else Z.lor (Z.lor EXIT_ZOMBIE EXIT_DEAD) TASK_DEAD)
    (if since_4_14 then TASK_REPORT_MAX else TASK_STATE_MAX)
    (if since_4_14 then Z.lor report TASK_REPORT_IDLE else report)
    (negb (than =? 0) && order) than perins interval.

(** The record of an event, by what it is an event of; the second [sched_switch] has a
    filter of its own. *)
Inductive sched_event :=
  | Switch (prev_pid prev_state next_pid : Z)
  | SwitchNext (prev_pid prev_state next_pid : Z)
  | Wakeup (wakeup_pid : Z)
  | WakeupNew (wakeup_pid : Z)
  | NoEvsel.

(** A sample: its time, its size and its record, and whether there is memory for a node of
    each task and for copies. *)
Record sample := Sample { s_time : Z; s_size : Z; s_event : sched_event; node_mem : Z -> bool; copy_mem : bool }.

(** ** Nodes *)

Section task.
Variable g : config.

Definition with_states (m : gmap Z task_state_node) (c : task_state_ctx) : task_state_ctx :=
  Ctx m (lat_dist c) (printed c) (lost_list c) (recent_time c) (stat c).
Definition with_stat (s : dup_stat) (c : task_state_ctx) : task_state_ctx :=
  Ctx (task_states c) (lat_dist c) (printed c) (lost_list c) (recent_time c) s.
Definition latency_dist_input (pid key delta : Z) (c : task_state_ctx) : task_state_ctx :=
  Ctx (task_states c) (lat_dist c ++ [(pid, key, delta)]) (printed c) (lost_list c) (recent_time c) (stat c).
Definition print (pid key delta : Z) (c : task_state_ctx) : task_state_ctx :=
  Ctx (task_states c) (lat_dist c) (printed c ++ [(pid, key, delta)]) (lost_list c) (recent_time c) (stat c).

(** [task_state_node_new]: the state is not set. *)
Definition task_state_node_new (junk : Z) : task_state_node := Node (-1) junk 0 None.

(** [rblist__findnew]. *)
Definition findnew (mem : bool) (key : Z) (c : task_state_ctx) : option task_state_node :=
  match task_states c !! key with
  | Some n => Some n
  | None => if mem then Some (task_state_node_new 0) else None
  end.

(** The event of a node is given back. *)
Definition free_event (n : task_state_node) (s : dup_stat) : dup_stat :=
  match event n with Some size => Stat (copied s) (u64 (freed s + 1)) (u64 (mem_bytes s - size)) | None => s end.

(** [memdup] of an event: it is counted as copied also when there is no memory. *)
Definition copy_event (mem : bool) (size : Z) (s : dup_stat) : option Z * dup_stat :=
  (if mem then Some size else None, Stat (u64 (copied s + 1)) (freed s) (u64 (mem_bytes s + size))).

(** [rblist__remove_node] with [task_state_node_delete]; the node is as it is now. *)
Definition remove_node (key : Z) (n : task_state_node) (c : task_state_ctx) : task_state_ctx :=
  with_stat (free_event n (stat c)) (with_states (delete key (task_states c)) c).

(** [rblist__exit]: all nodes; what is counted does not depend on their order. *)
Definition task_states_exit (c : task_state_ctx) : task_state_ctx :=
  with_stat (foldl (fun s n => free_event n s) (stat c) (snd <$> map_to_list (task_states c))) (with_states ∅ c).

Definition put_node (key : Z) (n : task_state_node) (c : task_state_ctx) : task_state_ctx := with_states (<[key := n]> (task_states c)) c.

(** ** Events *)

(** A duration above the threshold is printed with the events that start and end it. *)
Definition report (n : task_state_node) (key delta : Z) (c : task_state_ctx) : task_state_ctx :=
  if negb (greater_than g =? 0) && (greater_than g <? delta) && bool_decide (is_Some (event n)) then print (pid n) key delta c else c.

Definition prev_switched (s : sample) (prev_pid prev_state : Z) (c : task_state_ctx) : task_state_ctx :=
  if 0 <? prev_pid then
    match findnew (node_mem s prev_pid) prev_pid c with
    | None => c
    | Some n =>
        let c := if negb (pid n =? -1) && (time n <? s_time s) && (state n =? TASK_RUNNING)
                 then latency_dist_input (pid n) TASK_RUNNING (s_time s - time n) c else c in
        let n := Node prev_pid (if prev_state =? report_max g then TASK_RUNNING else s32 prev_state) (s_time s) (event n) in
        if negb (Z.land prev_state (state_dead g) =? 0) then remove_node prev_pid n c
        else if dup g then
          let '(e, st) := copy_event (copy_mem s) (s_size s) (free_event n (stat c)) in
          put_node prev_pid (Node (pid n) (state n) (time n) e) (with_stat st c)
        else put_node prev_pid n c
    end
  else c.

Definition next_switched (s : sample) (next_pid : Z) (c : task_state_ctx) : task_state_ctx :=
  if 0 <? next_pid then
    match findnew (node_mem s next_pid) next_pid c with
    | None => c
    | Some n =>
        let c := if negb (pid n =? -1) && (time n <? s_time s) && (state n =? TASK_RUNNING)
                 then report n RUNDELAY (s_time s - time n) (latency_dist_input (pid n) RUNDELAY (s_time s - time n) c) else c in
        if dup g then put_node next_pid (Node next_pid TASK_RUNNING (s_time s) None) (with_stat (free_event n (stat c)) c)
        else put_node next_pid (Node next_pid TASK_RUNNING (s_time s) (event n)) c
    end
  else c.

Definition woken (s : sample) (is_new : bool) (wakeup_pid : Z) (c : task_state_ctx) : task_state_ctx :=
  match (if SD g then task_states c !! wakeup_pid else findnew (node_mem s wakeup_pid) wakeup_pid c) with
  | None => c
  | Some n =>
      let st := Z.land (state n) (task_report g) in
      let c := if negb (pid n =? -1) && (time n <? s_time s) && negb (st =? 0)
               then report n st (s_time s - time n) (latency_dist_input (pid n) st (s_time s - time n) c) else c in
      if SD g then remove_node wakeup_pid n c
      else
        let t := if negb (state n =? TASK_RUNNING) || (pid n =? -1) || is_new then s_time s else time n in
        if dup g then
          let '(e, st) := copy_event (copy_mem s) (s_size s) (free_event n (stat c)) in
          put_node wakeup_pid (Node wakeup_pid TASK_RUNNING t e) (with_stat st c)
        else put_node wakeup_pid (Node wakeup_pid TASK_RUNNING t (event n)) c
  end.

(** What an event does, with the events the mode opens. *)
Definition sched (s : sample) (c : task_state_ctx) : task_state_ctx :=
  match s_event s with
  | Switch prev_pid prev_state next_pid =>
      let c := prev_switched s prev_pid prev_state c in
      if mode g =? 0 then next_switched s next_pid c else c
  | SwitchNext _ _ next_pid => next_switched s next_pid c
  | Wakeup p => woken s false p c
  | WakeupNew p => woken s true p c
  | NoEvsel => c
  end.

(** ** Lost events *)

(** The ranges in the order of their starts; a new one is put after those that start with it. *)
Definition add_lost (l : task_lost_node) (ls : list task_lost_node) : list task_lost_node :=
  let before := fun p => start_time p <=? start_time l in
  (fix go ls := match ls with [] => [l] | p :: ls' => if before p then p :: go ls' else l :: ls end) ls.

Definition with_lost (ls : list task_lost_node) (c : task_state_ctx) : task_state_ctx :=
  Ctx (task_states c) (lat_dist c) (printed c) ls (recent_time c) (stat c).

(** [is_final] is [prof_dev_is_final]; [mem] whether there is memory for the range. *)
Definition task_state_lost (is_final mem : bool) (lost_start lost_end : Z) (c : task_state_ctx) : task_state_ctx :=
  if is_final && mem then with_lost (add_lost (Lost false lost_start lost_end) (lost_list c)) c else c.

(** The first ranges that end before an event at [t] are taken off the list; the result is
    whether the event is inside the next. *)
Fixpoint lost_loop (t : Z) (ls : list task_lost_node) (c : task_state_ctx) : bool * task_state_ctx :=
  match ls with
  | [] => (false, with_lost [] c)
  | l :: ls' =>
      if t <=? start_time l then (false, with_lost ls c)
      else
        let c := if reclaim l then c else task_states_exit c in
        if t <? end_time l then (true, with_lost (Lost true (start_time l) (end_time l) :: ls') c)
        else lost_loop t ls' c
  end.
Definition task_state_event_lost (t : Z) (c : task_state_ctx) : bool * task_state_ctx := lost_loop t (lost_list c) c.

Definition task_state_sample (is_final : bool) (s : sample) (c : task_state_ctx) : task_state_ctx :=
  let c := if recent_time c <? s_time s then Ctx (task_states c) (lat_dist c) (printed c) (lost_list c) (s_time s) (stat c) else c in
  if is_final then
    let '(lost, c) := task_state_event_lost (s_time s) c in
    if lost then c else sched s c
  else c.

(** [task_state_notify]: a task was freed at [free_time]. *)
Definition task_state_notify (key free_time : Z) (c : task_state_ctx) : task_state_ctx :=
  match task_states c !! key with
  | Some n => if time n <? free_time then remove_node key n c else c
  | None => c
  end.

Definition task_state_minevtime (c : task_state_ctx) : Z :=
  if perins g then (if negb (interval g =? 0) && (interval g * 1000000 <? recent_time c) then recent_time c - interval g * 1000000 else 0)
  else 2 ^ 64 - 1.
End task.

(** ** What is promised

    A task runs, waits for a processor, or sleeps in a state of the kernel, since a time. *)

Inductive tstate := Running | Runnable | Sleeping (state : Z).

(** What the kernel does with a task: it takes it off a processor in a state, puts it on
    one, wakes it up, or starts it. *)
Inductive transition := Out (state : Z) | In | Wake | Start.

Section spec.
Variable g : config.

(** A duration; none when the clock has not gone on. *)
Definition lasted (key t0 t : Z) : list (Z * Z) := if t0 <? t then [(key, t - t0)] else [].

(** A task that is taken off a processor: it is gone when it is dead, waits when it was
    preempted, and sleeps otherwise. *)
Definition off (s t : Z) : option (tstate * Z) :=
  if negb (Z.land s (state_dead g) =? 0) then None
  else if (s =? report_max g) || (s =? TASK_RUNNING) then Some (Runnable, t)
  else Some (Sleeping s, t).

(** The steps of a task at time [t], with the durations that end; nothing is known of a
    task before its first.  A sleeping task may be put on a processor without having been
    woken up: how long it slept and waited is not known then. *)
Inductive task_step (t : Z) : option (tstate * Z) -> transition -> option (tstate * Z) -> list (Z * Z) -> Prop :=
  | out_first s : task_step t None (Out s) (off s t) []
  | out_running s t0 : task_step t (Some (Running, t0)) (Out s) (off s t) (lasted TASK_RUNNING t0 t)
  | in_first : task_step t None In (Some (Running, t)) []
  | in_runnable t0 : task_step t (Some (Runnable, t0)) In (Some (Running, t)) (lasted RUNDELAY t0 t)
  | in_sleeping s t0 : task_step t (Some (Sleeping s, t0)) In (Some (Running, t)) []
  | wake_first : task_step t None Wake (Some (Runnable, t)) []
  | wake_sleeping s t0 : task_step t (Some (Sleeping s, t0)) Wake (Some (Runnable, t))
      (if Z.land s (task_report g) =? 0 then [] else lasted (Z.land s (task_report g)) t0 t)
  | wake_runnable t0 : task_step t (Some (Runnable, t0)) Wake (Some (Runnable, t0)) []
  | wake_running t0 : task_step t (Some (Running, t0)) Wake (Some (Running, t0)) []
  | start_first : task_step t None Start (Some (Runnable, t)) [].

(** With -S or -D only these are told: that a task is taken off a processor, in a state that
    the filter lets pass, and that it is woken up.  A task that is not asleep is not known,
    and what it does until it sleeps again is not told. *)
Inductive sleep_step (t : Z) : option (tstate * Z) -> transition -> option (tstate * Z) -> list (Z * Z) -> Prop :=
  | sleep_first s : s <> TASK_RUNNING -> s <> report_max g -> sleep_step t None (Out s) (off s t) []
  | sleep_again s s0 t0 : s <> TASK_RUNNING -> s <> report_max g -> sleep_step t (Some (Sleeping s0, t0)) (Out s) (off s t) []
  | sleep_woken s t0 : sleep_step t (Some (Sleeping s, t0)) Wake None
      (if Z.land s (task_report g) =? 0 then [] else lasted (Z.land s (task_report g)) t0 t)
  | sleep_unknown : sleep_step t None Wake None [].

Definition any_step : Z -> option (tstate * Z) -> transition -> option (tstate * Z) -> list (Z * Z) -> Prop :=
  if SD g then sleep_step else task_step.

Abbreviation system := (gmap Z (tstate * Z)).

(** What an event says of which tasks; the idle task has number zero and is none.  With a
    filter the switch to a task is an event of its own. *)
Definition steps_of (e : sched_event) : list (Z * transition) :=
  match e with
  | Switch p s q => (if 0 <? p then [(p, Out s)] else []) ++ (if (mode g =? 0) && (0 <? q) then [(q, In)] else [])
  | SwitchNext _ _ q => if 0 <? q then [(q, In)] else []
  | Wakeup p => [(p, Wake)]
  | WakeupNew p => [(p, Start)]
  | NoEvsel => []
  end.

(** The tasks do the steps of an event one after the other. *)
Inductive steps (t : Z) : system -> list (Z * transition) -> system -> list (Z * Z * Z) -> Prop :=
  | steps_nil y : steps t y [] y []
  | steps_cons y p x o ds l y' log : any_step t (y !! p) x o ds -> steps t (partial_alter (fun _ => o) p y) l y' log ->
      steps t y ((p, x) :: l) y' (map (fun d => (p, d.1, d.2)) ds ++ log).

(** A schedule: events of the kernel with the states they lead to and what lasted how long. *)
Inductive schedule : system -> list sample -> system -> list (Z * Z * Z) -> Prop :=
  | schedule_nil y : schedule y [] y []
  | schedule_cons y s y1 log1 l y2 log2 : steps (s_time s) y (steps_of (s_event s)) y1 log1 -> schedule y1 l y2 log2 ->
      schedule y (s :: l) y2 (log1 ++ log2).
End spec.

(** ** Tasks and their nodes *)

Definition code (x : tstate) : Z := match x with Sleeping s => s | _ => TASK_RUNNING end.

(** The node of a task in a state. *)
Definition node_of (p : Z) (x : tstate * Z) (n : task_state_node) : Prop :=
  pid n = p /\ p <> -1 /\ time n = x.2 /\ state n = code x.1 /\ match x.1 with Sleeping s => s <> TASK_RUNNING | _ => True end.

(** There is memory, the states are of the kernel's width, and tasks have numbers. *)
Definition sample_ok (s : sample) : Prop :=
  (forall p, node_mem s p = true) /\
  match s_event s with
  | Switch _ st _ => 0 <= st < 2 ^ 31
  | Wakeup p | WakeupNew p => 0 < p
  | _ => True
  end.

Section proofs.
Variable g : config.

(** What an event does to the node of one task, and what else changes. *)
Definition did (c c' : task_state_ctx) (p : Z) (on : option task_state_node) (log : list (Z * Z * Z)) : Prop :=
  (forall q, task_states c' !! q = if decide (q = p) then on else task_states c !! q) /\ lat_dist c' = lat_dist c ++ log /\
  lost_list c' = lost_list c /\ recent_time c' = recent_time c.

Definition related (o : option (tstate * Z)) (on : option task_state_node) (p : Z) : Prop :=
  match o, on with Some x, Some n => node_of p x n | None, None => True | _, _ => False end.

Definition nodes_of (y : gmap Z (tstate * Z)) (m : gmap Z task_state_node) : Prop := forall p, related (y !! p) (m !! p) p.

Definition tagged (p : Z) (ds : list (Z * Z)) : list (Z * Z * Z) := map (fun d => (p, d.1, d.2)) ds.

(** The duration that ends, if the clock has gone on. *)
Lemma input_lasted (b : bool) p key t0 t c (f : task_state_ctx -> task_state_ctx) :
  (forall c, task_states (f c) = task_states c /\ lat_dist (f c) = lat_dist c /\ lost_list (f c) = lost_list c /\ recent_time (f c) = recent_time c) ->
  exists c1, (if (t0 <? t) && b then f (latency_dist_input p key (t - t0) c) else c) = c1 /\ task_states c1 = task_states c /\
    lat_dist c1 = lat_dist c ++ (if b then tagged p (lasted key t0 t) else []) /\ lost_list c1 = lost_list c /\ recent_time c1 = recent_time c.
Proof using.
  intros Hf. eexists. split; [done|]. unfold lasted. destruct (t0 <? t), b; cbn; rewrite ?app_nil_r; try done.
  destruct (Hf (latency_dist_input p key (t - t0) c)) as (-> & -> & -> & ->). done.
Qed.

Lemma report_same n key delta c : let c' := report g n key delta c in
  task_states c' = task_states c /\ lat_dist c' = lat_dist c /\ lost_list c' = lost_list c /\ recent_time c' = recent_time c.
Proof using. unfold report. by case_match. Qed.

(** A node is stored, with or without a copy of the event. *)
Lemma put_did c c1 p n log (b : bool) (e : option Z) st :
  task_states c1 = task_states c -> lat_dist c1 = lat_dist c ++ log -> lost_list c1 = lost_list c -> recent_time c1 = recent_time c ->
  exists n', did c (if b then put_node p (Node (pid n) (state n) (time n) e) (with_stat st c1) else put_node p n c1) p (Some n') log /\
    pid n' = pid n /\ state n' = state n /\ time n' = time n.
Proof using.
  intros Hs Hl Hq Hr. destruct b; [exists (Node (pid n) (state n) (time n) e)|exists n]; (split; [split; [|done]|done]); intros q; cbn; rewrite Hs;
    (case_decide as Hqp; [subst q; apply lookup_insert_eq|by apply lookup_insert_ne]).
Qed.

Lemma remove_did c c1 p n log :
  task_states c1 = task_states c -> lat_dist c1 = lat_dist c ++ log -> lost_list c1 = lost_list c -> recent_time c1 = recent_time c ->
  did c (remove_node p n c1) p None log.
Proof using.
  intros Hs Hl Hq Hr. split; [|done]. intros q. cbn. rewrite Hs. case_decide as Hqp; [subst q; apply lookup_delete_eq|by apply lookup_delete_ne].
Qed.

(** The node that is found, or a new one. *)
Lemma found p c o : related o (task_states c !! p) p -> exists n, findnew true p c = Some n /\
  match o with Some x => task_states c !! p = Some n /\ node_of p x n | None => task_states c !! p = None /\ pid n = -1 end.
Proof using.
  intros Hr. unfold findnew, related in *. destruct o as [x|], (task_states c !! p) as [n|]; try done; eexists; (split; [done|]); done.
Qed.

Lemma off_related s t p n : 0 <= s < 2 ^ 31 -> 0 < p -> pid n = p -> time n = t ->
  state n = (if s =? report_max g then TASK_RUNNING else s32 s) -> Z.land s (state_dead g) = 0 -> related (off g s t) (Some n) p.
Proof using.
  intros Hs Hp Hpid Ht Hst Hd. unfold off. rewrite Hd. cbn [Z.eqb negb]. rewrite s32_small in Hst by lia.
  destruct (Z.eqb_spec s (report_max g)) as [->|Hne]; cbn [orb]; [split; [done|split; [lia|done]]|].
  destruct (Z.eqb_spec s TASK_RUNNING) as [->|Hnr]; (split; [done|split; [lia|done]]).
Qed.

Lemma out_ok s p st c o o' ds : related o (task_states c !! p) p -> any_step g (s_time s) o (Out st) o' ds ->
  node_mem s p = true -> 0 <= st < 2 ^ 31 -> 0 < p ->
  exists on, did c (prev_switched g s p st c) p on (tagged p ds) /\ related o' on p.
Proof using.
  intros Hr Hstep Hmem Hst Hp. unfold prev_switched. rewrite (proj2 (Z.ltb_lt 0 p)) by done. rewrite Hmem.
  destruct (found p c o Hr) as (n & -> & Hn).
  assert (exists c1, (if negb (pid n =? -1) && (time n <? s_time s) && (state n =? TASK_RUNNING)
     then latency_dist_input (pid n) TASK_RUNNING (s_time s - time n) c else c) = c1 /\ task_states c1 = task_states c /\
    lat_dist c1 = lat_dist c ++ tagged p ds /\ lost_list c1 = lost_list c /\ recent_time c1 = recent_time c /\ o' = off g st (s_time s)) as (c1 & -> & E1 & E2 & E3 & E4 & ->).
  { unfold any_step in Hstep. destruct (SD g).
    { inversion Hstep as [s0| s0 s1 t0 | | ]; subst.
      - destruct Hn as [_ ->]. exists c. cbn. by rewrite app_nil_r.
      - destruct Hn as (_ & _ & _ & _ & Hcode & Hne). cbn in Hcode, Hne. exists c.
        rewrite Hcode, (proj2 (Z.eqb_neq _ _) Hne), andb_false_r. cbn. by rewrite app_nil_r. }
    inversion Hstep as [s0| s0 t0 | | | | | | | |]; subst.
    - destruct Hn as [_ ->]. exists c. cbn. by rewrite app_nil_r.
    - destruct Hn as (_ & -> & Hp1 & Ht & Hcode & _). cbn in Ht, Hcode. rewrite Hcode, Ht, (proj2 (Z.eqb_neq p (-1))) by lia. cbn [negb andb].
      change (TASK_RUNNING =? TASK_RUNNING) with true.
      destruct (input_lasted true p TASK_RUNNING t0 (s_time s) c (fun c => c)) as (c1 & E & ?); [done|]. exists c1. tauto. }
  destruct (Z.eqb_spec (Z.land st (state_dead g)) 0) as [Hd|Hd]; cbn [negb].
  - destruct (copy_event _ _ _) as [e stt]. cbn [pid state time event].
    destruct (put_did c c1 p (Node p (if st =? report_max g then TASK_RUNNING else s32 st) (s_time s) (event n)) (tagged p ds) (dup g) e stt) as (n' & Hdid & P1 & P2 & P3); [done..|].
    exists (Some n'). split; [exact Hdid|]. by apply off_related.
  - exists None. split; [by apply remove_did|]. unfold off. by rewrite (proj2 (Z.eqb_neq _ 0)).
Qed.

Lemma in_ok s p c o o' ds : related o (task_states c !! p) p -> any_step g (s_time s) o In o' ds ->
  node_mem s p = true -> 0 < p ->
  exists on, did c (next_switched g s p c) p on (tagged p ds) /\ related o' on p.
Proof using.
  intros Hr Hstep Hmem Hp. unfold next_switched. rewrite (proj2 (Z.ltb_lt 0 p)) by done. rewrite Hmem.
  destruct (found p c o Hr) as (n & -> & Hn).
  assert (exists c1, (if negb (pid n =? -1) && (time n <? s_time s) && (state n =? TASK_RUNNING)
     then report g n RUNDELAY (s_time s - time n) (latency_dist_input (pid n) RUNDELAY (s_time s - time n) c) else c) = c1 /\ task_states c1 = task_states c /\
    lat_dist c1 = lat_dist c ++ tagged p ds /\ lost_list c1 = lost_list c /\ recent_time c1 = recent_time c /\ o' = Some (Running, s_time s)) as (c1 & -> & E1 & E2 & E3 & E4 & ->).
  { unfold any_step in Hstep. destruct (SD g); [by inversion Hstep|]. inversion Hstep as [ | |  |t0 |s0 t0 | | | | |]; subst.
    - destruct Hn as [_ ->]. exists c. cbn. by rewrite app_nil_r.
    - destruct Hn as (_ & -> & Hp1 & Ht & Hcode & _). cbn in Ht, Hcode. rewrite Hcode, Ht, (proj2 (Z.eqb_neq p (-1))) by lia. cbn [negb andb].
      change (TASK_RUNNING =? TASK_RUNNING) with true.
      destruct (input_lasted true p RUNDELAY t0 (s_time s) c (report g n RUNDELAY (s_time s - t0))) as (c1 & E & ?); [intros; apply report_same|]. exists c1. tauto.
    - destruct Hn as (_ & _ & _ & _ & Hcode & Hne). cbn in Hcode, Hne. exists c.
      rewrite Hcode, (proj2 (Z.eqb_neq _ _) Hne), andb_false_r. cbn. by rewrite app_nil_r. }
  destruct (put_did c c1 p (Node p TASK_RUNNING (s_time s) (event n)) (tagged p ds) (dup g) None (free_event n (stat c1))) as (n' & Hdid & P1 & P2 & P3); [done..|].
  exists (Some n'). split; [exact Hdid|]. split; [done|split; [lia|done]].
Qed.

(** A sleep ends. *)
Lemma sleep_told p n s t0 t c : node_of p (Sleeping s, t0) n ->
  exists c1, (if negb (pid n =? -1) && (time n <? t) && negb (Z.land (state n) (task_report g) =? 0)
     then report g n (Z.land (state n) (task_report g)) (t - time n) (latency_dist_input (pid n) (Z.land (state n) (task_report g)) (t - time n) c) else c) = c1 /\
    task_states c1 = task_states c /\
    lat_dist c1 = lat_dist c ++ tagged p (if Z.land s (task_report g) =? 0 then [] else lasted (Z.land s (task_report g)) t0 t) /\
    lost_list c1 = lost_list c /\ recent_time c1 = recent_time c.
Proof using.
  intros (-> & Hp1 & Ht & Hcode & _). cbn in Ht, Hcode. rewrite Hcode, Ht, (proj2 (Z.eqb_neq p (-1))) by lia. cbn [negb andb].
  destruct (input_lasted (negb (Z.land s (task_report g) =? 0)) p (Z.land s (task_report g)) t0 t c (report g n (Z.land s (task_report g)) (t - t0)))
    as (c1 & E & H1 & H2 & H3 & H4); [intros; apply report_same|]. exists c1. split; [exact E|]. split; [done|]. split; [|done]. rewrite H2. by destruct (_ =? 0).
Qed.

(** With -S or -D the node is gone then. *)
Lemma sleeper_woken s p c o o' ds : SD g = true -> related o (task_states c !! p) p -> sleep_step g (s_time s) o Wake o' ds ->
  exists on, did c (woken g s false p c) p on (tagged p ds) /\ related o' on p.
Proof using.
  intros Hsd Hr Hstep. exists None. inversion Hstep as [ | |s0 t0 H|H]; subst; (split; [|done]); unfold woken; rewrite Hsd;
    destruct (task_states c !! p) as [n|] eqn:Hn; try done.
  - destruct (sleep_told p n s0 t0 (s_time s) c Hr) as (c1 & -> & E1 & E2 & E3 & E4). by apply remove_did.
  - split; [|split; [by rewrite app_nil_r|done]]. intros q. case_decide as Hq; [by subst q|done].
Qed.

Lemma woken_ok s p (is_new : bool) c o o' ds : SD g = false -> related o (task_states c !! p) p ->
  task_step g (s_time s) o (if is_new then Start else Wake) o' ds -> node_mem s p = true -> 0 < p ->
  exists on, did c (woken g s is_new p c) p on (tagged p ds) /\ related o' on p.
Proof using.
  intros Hsd Hr Hstep Hmem Hp. unfold woken. rewrite Hsd, Hmem. destruct (found p c o Hr) as (n & -> & Hn).
  assert (exists c1, (if negb (pid n =? -1) && (time n <? s_time s) && negb (Z.land (state n) (task_report g) =? 0)
     then report g n (Z.land (state n) (task_report g)) (s_time s - time n) (latency_dist_input (pid n) (Z.land (state n) (task_report g)) (s_time s - time n) c) else c) = c1 /\
    task_states c1 = task_states c /\ lat_dist c1 = lat_dist c ++ tagged p ds /\ lost_list c1 = lost_list c /\ recent_time c1 = recent_time c) as (c1 & -> & E1 & E2 & E3 & E4).
  { inversion Hstep as [ | | | | |H|s0 t0 H|t0 H|t0 H|H]; subst; destruct is_new; try done.
    - destruct Hn as [_ ->]. exists c. cbn. by rewrite app_nil_r.
    - destruct Hn as [_ Hn]. by apply sleep_told.
    - destruct Hn as (_ & _ & _ & _ & Hcode & _). exists c. rewrite Hcode. cbn. rewrite andb_false_r, app_nil_r. done.
    - destruct Hn as (_ & _ & _ & _ & Hcode & _). exists c. rewrite Hcode. cbn. rewrite andb_false_r, app_nil_r. done.
    - destruct Hn as [_ ->]. exists c. cbn. by rewrite app_nil_r. }
  set (t := if negb (state n =? TASK_RUNNING) || (pid n =? -1) || is_new then s_time s else time n).
  assert (exists x, o' = Some (x, t) /\ x <> Sleeping 0 /\ code x = TASK_RUNNING /\ match x with Sleeping _ => False | _ => True end) as (x & -> & _ & Hx & Hxs).
  { unfold t. inversion Hstep as [ | | | | |H|s0 t0 H|t0 H|t0 H|H]; subst; destruct is_new; try done.
    - destruct Hn as [_ ->]. rewrite orb_true_r. by exists Runnable.
    - destruct Hn as (_ & _ & _ & _ & Hcode & Hne). cbn in Hcode, Hne. rewrite Hcode, (proj2 (Z.eqb_neq _ _) Hne). by exists Runnable.
    - destruct Hn as (_ & -> & Hp1 & Ht & Hcode & _). cbn in Hcode, Ht. rewrite Hcode, Ht, (proj2 (Z.eqb_neq p (-1))) by lia. by exists Runnable.
    - destruct Hn as (_ & -> & Hp1 & Ht & Hcode & _). cbn in Hcode, Ht. rewrite Hcode, Ht, (proj2 (Z.eqb_neq p (-1))) by lia. by exists Running.
    - rewrite orb_true_r. by exists Runnable. }
  destruct (copy_event _ _ _) as [e stt].
  destruct (put_did c c1 p (Node p TASK_RUNNING t (event n)) (tagged p ds) (dup g) e stt) as (n' & Hdid & P1 & P2 & P3); [done..|].
  exists (Some n'). split; [exact Hdid|]. split; [done|]. split; [lia|]. split; [done|]. split; [cbn; by rewrite Hx|]. by destruct x.
Qed.

Lemma told_woken s p (is_new : bool) c o o' ds : related o (task_states c !! p) p ->
  any_step g (s_time s) o (if is_new then Start else Wake) o' ds -> node_mem s p = true -> 0 < p ->
  exists on, did c (woken g s is_new p c) p on (tagged p ds) /\ related o' on p.
Proof using.
  intros Hr Hstep Hmem Hp. unfold any_step in Hstep. destruct (SD g) eqn:Hsd; [|by eapply woken_ok].
  destruct is_new; [by inversion Hstep|by eapply sleeper_woken].
Qed.

(** ** Schedules *)

Lemma did_nodes y c c' p o on log : nodes_of y (task_states c) -> did c c' p on log -> related o on p ->
  nodes_of (partial_alter (fun _ => o) p y) (task_states c').
Proof using.
  intros Hy (Hs & _) Hr q. rewrite Hs. case_decide as Hq.
  - subst q. by rewrite lookup_partial_alter_eq.
  - rewrite lookup_partial_alter_ne by done. apply Hy.
Qed.

(** The state of a context follows that of the tasks. *)
Definition follows (y : gmap Z (tstate * Z)) (c c' : task_state_ctx) (log : list (Z * Z * Z)) : Prop :=
  nodes_of y (task_states c') /\ lat_dist c' = lat_dist c ++ log /\ lost_list c' = lost_list c.

Lemma follows_trans y1 y2 c c1 c2 log1 log2 : follows y1 c c1 log1 -> follows y2 c1 c2 log2 -> follows y2 c c2 (log1 ++ log2).
Proof using. intros (_ & L1 & Q1) (N & L2 & Q2). split; [done|]. split; [by rewrite L2, L1, app_assoc|congruence]. Qed.

Lemma one_ok y c c' p o on ds : nodes_of y (task_states c) -> did c c' p on (tagged p ds) -> related o on p ->
  follows (partial_alter (fun _ => o) p y) c c' (tagged p ds).
Proof using. intros Hy Hd Hr. split; [by eapply did_nodes|]. by destruct Hd as (_ & L & Q & _). Qed.

Lemma sched_ok s y y' log c : nodes_of y (task_states c) -> sample_ok s ->
  steps g (s_time s) y (steps_of g (s_event s)) y' log -> follows y' c (sched g s c) log.
Proof using.
  intros Hy [Hmem Hev] Hst.
  assert (forall y y' c q log, nodes_of y (task_states c) -> 
    steps g (s_time s) y (if 0 <? q then [(q, In)] else []) y' log -> follows y' c (next_switched g s q c) log) as Hnext.
  { clear y y' c log Hy Hst. intros y y' c q log Hy Hst. unfold next_switched. destruct (Z.ltb_spec 0 q) as [Hq|Hq].
    - inversion Hst as [|? ? ? o ds ? ? log' H1 H2]; subst. inversion H2; subst. rewrite app_nil_r.
      destruct (in_ok s q c (y !! q) o ds (Hy q) H1 (Hmem q) Hq) as (on & Hdid & Hr). unfold next_switched in Hdid.
      rewrite (proj2 (Z.ltb_lt 0 q)) in Hdid by done. by apply (one_ok y c _ q o on).
    - inversion Hst; subst. split; [done|]. split; [by rewrite app_nil_r|done]. }
  unfold sched. destruct (s_event s) as [p st q|p st q|p|p|]; cbn [steps_of] in Hst.
  - destruct (Z.ltb_spec 0 p) as [Hp|Hp].
    + cbn [app] in Hst. inversion Hst as [|? ? ? o ds ? ? log' H1 H2]; subst.
      destruct (out_ok s p st c (y !! p) o ds (Hy p) H1 (Hmem p) Hev Hp) as (on & Hdid & Hr).
      pose proof (one_ok y c _ p o on ds Hy Hdid Hr) as Hf. destruct (mode g =? 0); cbn [andb] in H2.
      * eapply follows_trans; [exact Hf|]. eapply Hnext; [apply Hf|exact H2].
      * inversion H2; subst. by rewrite app_nil_r.
    + assert (prev_switched g s p st c = c) as -> by (unfold prev_switched; by rewrite (proj2 (Z.ltb_ge 0 p))).
      cbn [app] in Hst. destruct (mode g =? 0); cbn [andb] in Hst; [by eapply Hnext|].
      inversion Hst; subst. split; [done|]. split; [by rewrite app_nil_r|done].
  - by eapply Hnext.
  - inversion Hst as [|? ? ? o ds ? ? log' H1 H2]; subst. inversion H2; subst. rewrite app_nil_r.
    destruct (told_woken s p false c (y !! p) o ds (Hy p) H1 (Hmem p) Hev) as (on & Hdid & Hr). by apply (one_ok y c _ p o on).
  - inversion Hst as [|? ? ? o ds ? ? log' H1 H2]; subst. inversion H2; subst. rewrite app_nil_r.
    destruct (told_woken s p true c (y !! p) o ds (Hy p) H1 (Hmem p) Hev) as (on & Hdid & Hr). by apply (one_ok y c _ p o on).
  - inversion Hst; subst. split; [done|]. split; [by rewrite app_nil_r|done].
Qed.

(** ** Lost events *)

(** What an event at [t] does, in any mode: nodes keep their times or get that of the event,
    and a duration starts at the time of a node. *)
Definition evolves (t : Z) (c c' : task_state_ctx) : Prop :=
  (forall q n', task_states c' !! q = Some n' -> time n' = t \/ exists q0 n, task_states c !! q0 = Some n /\ time n' = time n) /\
  (exists new, lat_dist c' = lat_dist c ++ new /\
     forall e, e ∈ new -> exists q n, task_states c !! q = Some n /\ time n < t /\ e.2 = t - time n) /\
  lost_list c' = lost_list c /\ recent_time c' = recent_time c.

Lemma evolves_refl t c : evolves t c c.
Proof using.
  split; [intros q n Hn; right; by exists q, n|]. split; [|done]. exists []. split; [by rewrite app_nil_r|]. by intros ? ?%elem_of_nil.
Qed.

Lemma evolves_trans t c c1 c2 : evolves t c c1 -> evolves t c1 c2 -> evolves t c c2.
Proof using.
  intros (N1 & (new1 & L1 & H1) & Q1 & R1) (N2 & (new2 & L2 & H2) & Q2 & R2). split; [|split; [|split; congruence]].
  - intros q n' Hn'. destruct (N2 q n' Hn') as [?|(q1 & n1 & Hn1 & E)]; [by left|]. rewrite E. by apply (N1 q1).
  - exists (new1 ++ new2). split; [by rewrite L2, L1, app_assoc|]. intros e [He|He]%elem_of_app; [by apply H1|].
    destruct (H2 e He) as (q1 & n1 & Hn1 & Hlt & E). destruct (N1 q1 n1 Hn1) as [?|(q0 & n & Hn & E')]; [lia|]. exists q0, n. by rewrite <- E'.
Qed.

(** A node that is found, its duration, and what becomes of the node. *)
Lemma evolves_node t c p n (b : bool) key (f : task_state_ctx -> task_state_ctx) :
  (forall c, task_states (f c) = task_states c /\ lat_dist (f c) = lat_dist c /\ lost_list (f c) = lost_list c /\ recent_time (f c) = recent_time c) ->
  (task_states c !! p = Some n \/ pid n = -1) ->
  evolves t c (if negb (pid n =? -1) && (time n <? t) && b then f (latency_dist_input (pid n) key (t - time n) c) else c).
Proof using.
  intros Hf Hn. destruct (negb (pid n =? -1) && (time n <? t) && b) eqn:E; [|apply evolves_refl].
  destruct (Hf (latency_dist_input (pid n) key (t - time n) c)) as (E1 & E2 & E3 & E4). unfold evolves. rewrite E1, E2, E3, E4. cbn.
  split; [intros q n' Hn'; right; by exists q, n'|]. split; [|done]. exists [(pid n, key, t - time n)]. split; [done|].
  intros e ->%list_elem_of_singleton. destruct Hn as [Hn|Hn]; [exists p, n; split; [done|]; split; [lia|done]|lia].
Qed.

Lemma evolves_put t c p n (b : bool) e st : time n = t \/ (exists q0 n0, task_states c !! q0 = Some n0 /\ time n = time n0) ->
  evolves t c (if b then put_node p (Node (pid n) (state n) (time n) e) (with_stat st c) else put_node p n c).
Proof using.
  intros Ht. destruct b; (split; [|split; [exists []; split; [by rewrite app_nil_r|by intros ? ?%elem_of_nil]|done]]);
    intros q n' Hn'; cbn in Hn'; (apply lookup_insert_Some in Hn' as [[<- <-]|[_ Hn']]; [done|]); right; by exists q, n'.
Qed.

Lemma evolves_remove t c p n : evolves t c (remove_node p n c).
Proof using.
  split; [|split; [exists []; split; [by rewrite app_nil_r|by intros ? ?%elem_of_nil]|done]].
  intros q n' Hn'. cbn in Hn'. apply lookup_delete_Some in Hn' as [_ Hn']. right. by exists q, n'.
Qed.

Lemma findnew_is mem p c n : findnew mem p c = Some n -> task_states c !! p = Some n \/ pid n = -1.
Proof using. unfold findnew. destruct (task_states c !! p), mem; intros [= <-]; auto. Qed.

Lemma sched_evolves s c : evolves (s_time s) c (sched g s c).
Proof using.
  assert (forall p c, evolves (s_time s) c (next_switched g s p c)) as Hnext.
  { intros p c0. unfold next_switched. destruct (0 <? p); [|apply evolves_refl]. destruct (findnew _ p c0) as [n|] eqn:E; [|apply evolves_refl].
    apply findnew_is in E. eapply evolves_trans; [apply (evolves_node _ c0 p n (state n =? TASK_RUNNING) RUNDELAY (report g n RUNDELAY (s_time s - time n))); [intros; apply report_same|done]|].
    apply (evolves_put _ _ p (Node p TASK_RUNNING (s_time s) (event n)) (dup g) None). by left. }
  assert (forall p st c, evolves (s_time s) c (prev_switched g s p st c)) as Hprev.
  { intros p st c0. unfold prev_switched. destruct (0 <? p); [|apply evolves_refl]. destruct (findnew _ p c0) as [n|] eqn:E; [|apply evolves_refl].
    apply findnew_is in E. eapply evolves_trans; [apply (evolves_node _ c0 p n (state n =? TASK_RUNNING) TASK_RUNNING (fun c => c)); done|].
    destruct (negb (Z.land st (state_dead g) =? 0)); [apply evolves_remove|]. destruct (copy_event _ _ _) as [e stt].
    apply (evolves_put _ _ p (Node p (if st =? report_max g then TASK_RUNNING else s32 st) (s_time s) (event n)) (dup g) e stt). by left. }
  assert (forall p b c, evolves (s_time s) c (woken g s b p c)) as Hwoken.
  { intros p b c0. unfold woken. destruct (if SD g then task_states c0 !! p else findnew (node_mem s p) p c0) as [n|] eqn:E; [|apply evolves_refl].
    assert (task_states c0 !! p = Some n \/ pid n = -1) as Hn by (destruct (SD g); [by left|by apply findnew_is in E]).
    eapply evolves_trans; [apply (evolves_node _ c0 p n (negb (Z.land (state n) (task_report g) =? 0)) (Z.land (state n) (task_report g)) (report g n (Z.land (state n) (task_report g)) (s_time s - time n))); [intros; apply report_same|done]|].
    set (c1 := if _ : bool then _ else c0). destruct (SD g); [apply evolves_remove|]. destruct (copy_event _ _ _) as [e stt].
    assert (time (Node p TASK_RUNNING (if negb (state n =? TASK_RUNNING) || (pid n =? -1) || b then s_time s else time n) None) = s_time s \/
      exists q0 n0, task_states c1 !! q0 = Some n0 /\ time (Node p TASK_RUNNING (if negb (state n =? TASK_RUNNING) || (pid n =? -1) || b then s_time s else time n) None) = time n0) as Ht.
    { cbn. destruct Hn as [Hn|Hn]; [|left; rewrite Hn, orb_true_r; done]. case_match; [by left|right]. exists p, n. split; [|done].
      unfold c1. case_match; [|done]. destruct (report_same n (Z.land (state n) (task_report g)) (s_time s - time n)
        (latency_dist_input (pid n) (Z.land (state n) (task_report g)) (s_time s - time n) c0)) as (-> & _). done. }
    apply (evolves_put _ _ p (Node p TASK_RUNNING (if negb (state n =? TASK_RUNNING) || (pid n =? -1) || b then s_time s else time n) (event n)) (dup g) e stt Ht). }
  unfold sched. destruct (s_event s); [|done|done|done|apply evolves_refl].
  case_match; [|done]. eapply evolves_trans; [apply Hprev|apply Hnext].
Qed.
End proofs.

(** ** What happens to a device *)

Inductive input := Event (s : sample) | LostNotice (lost_start lost_end : Z) | Freed (key free_time : Z).

(** The context, the ranges that are known to be lost and the spans of the durations in the
    statistics. *)
Record history := History { ctx : task_state_ctx; known : list (Z * Z); spans : list (Z * Z) }.

Section histories.
Variable g : config.

Definition handle (h : history) (i : input) : history :=
  match i with
  | Event s =>
      let c := task_state_sample g true s (ctx h) in
      History c (known h) (spans h ++ map (fun e => (s_time s - e.2, s_time s)) (drop (length (lat_dist (ctx h))) (lat_dist c)))
  | LostNotice a b => History (task_state_lost true true a b (ctx h)) (known h ++ [(a, b)]) (spans h)
  | Freed p t => History (task_state_notify p t (ctx h)) (known h) (spans h)
  end.

(** Events come in the order of their times, and the notice of lost events before those
    after them. *)
Definition in_time (h : history) (i : input) : Prop :=
  match i with
  | Event s => recent_time (ctx h) <= s_time s
  | LostNotice a b => recent_time (ctx h) <= a
  | Freed _ _ => True
  end.
Fixpoint all_in_time (h : history) (l : list input) : Prop :=
  match l with [] => True | i :: l => in_time h i /\ all_in_time (handle h i) l end.

Definition by_start (x y : task_lost_node) : Prop := start_time x <= start_time y.

(** Ranges that wait for their turn; the first may have had all states forgotten. *)
Definition waiting (t : Z) (m : gmap Z task_state_node) (ls : list task_lost_node) : Prop :=
  StronglySorted by_start ls /\
  match ls with
  | [] => True
  | l :: ls => (reclaim l = true -> m = ∅ /\ start_time l < t) /\ (forall x, x ∈ ls -> reclaim x = false)
  end.

Definition listed (ls : list task_lost_node) (a b : Z) : Prop := exists l, l ∈ ls /\ start_time l = a /\ end_time l = b.

Record consistent (h : history) : Prop := {
  cons_spans : forall f t, (f, t) ∈ spans h -> t <= recent_time (ctx h) /\ forall a b, (a, b) ∈ known h -> t <= a \/ b <= f;
  cons_waiting : waiting (recent_time (ctx h)) (task_states (ctx h)) (lost_list (ctx h));
  cons_known : forall a b, (a, b) ∈ known h -> listed (lost_list (ctx h)) a b \/
    (b <= recent_time (ctx h) /\ forall q n, task_states (ctx h) !! q = Some n -> b <= time n)
}.

Lemma waiting_more t t' m ls : t <= t' -> waiting t m ls -> waiting t' m ls.
Proof using. intros Ht [Hs Hl]. split; [done|]. destruct ls as [|l ls]; [done|]. destruct Hl as [H1 H2]. split; [|done]. intros Hr. destruct (H1 Hr). split; [done|lia]. Qed.

Lemma waiting_less t m m' ls : (m = ∅ -> m' = ∅) -> waiting t m ls -> waiting t m' ls.
Proof using. intros Hm [Hs Hl]. split; [done|]. destruct ls as [|l ls]; [done|]. destruct Hl as [H1 H2]. split; [|done]. intros Hr. destruct (H1 Hr). split; [auto|done]. Qed.

(** After the loop: the event is inside the first range, and all is forgotten; or the ranges
    that are left are later, and when one was taken off all is forgotten. *)
Lemma state_loop_ok t ls : forall c, waiting t (task_states c) ls ->
  let '(b, c') := lost_loop t ls c in
  lat_dist c' = lat_dist c /\ recent_time c' = recent_time c /\ waiting t (task_states c') (lost_list c') /\
  (forall q n, task_states c' !! q = Some n -> task_states c !! q = Some n) /\
  (forall x, x ∈ ls -> listed (lost_list c') (start_time x) (end_time x) \/ (end_time x <= t /\ task_states c' = ∅)) /\
  (b = true -> task_states c' = ∅) /\ (b = false -> forall x, x ∈ lost_list c' -> t <= start_time x).
Proof using.
  induction ls as [|l ls IH]; intros c [Hs Hl]; cbn [lost_loop].
  - split; [done|]. split; [done|]. split; [done|]. split; [done|]. split; [by intros ? ?%elem_of_nil|]. split; [done|]. by intros _ ? ?%elem_of_nil.
  - destruct Hl as [Hr Hf]. inversion Hs as [|? ? Hs' Hx]; subst. rewrite Forall_forall in Hx.
    destruct (Z.leb_spec t (start_time l)) as [Hle|Hgt].
    + split; [done|]. split; [done|]. split; [split; [done|split; [|done]]; intros Hrl; by apply Hr|]. split; [done|].
      split; [intros x Hin; left; by exists x|]. split; [done|]. intros _ x [->|Hin]%elem_of_cons; [done|]. specialize (Hx x Hin). unfold by_start in Hx. lia.
    + set (c1 := if reclaim l then c else task_states_exit c).
      assert (task_states c1 = ∅ /\ lat_dist c1 = lat_dist c /\ recent_time c1 = recent_time c) as (E1 & E2 & E3).
      { unfold c1. destruct (reclaim l) eqn:E; [by destruct (Hr eq_refl)|done]. }
      destruct (Z.ltb_spec t (end_time l)) as [Hlt|Hge].
      * cbn. rewrite E1, E2, E3. split; [done|]. split; [done|]. split; [split; [constructor; [done|by apply Forall_forall]|done]|].
        split; [by intros q n Hn; rewrite lookup_empty in Hn|]. split; [|done].
        intros x [->|Hin]%elem_of_cons; left; [eexists; split; [by left|done]|exists x; split; [by right|done]].
      * assert (waiting t (task_states c1) ls) as Hw.
        { split; [done|]. destruct ls as [|l2 ls]; [done|]. split; [intros Hr2; by rewrite Hf in Hr2 by by left|]. intros x Hin. apply Hf. by right. }
        specialize (IH c1 Hw). destruct (lost_loop t ls c1) as [b c'] eqn:E. destruct IH as (L & R & W & N & K & B & F).
        assert (task_states c' = ∅) as Hempty.
        { apply map_empty. intros q. destruct (task_states c' !! q) as [n|] eqn:Hq; [|done]. apply N in Hq. by rewrite E1, lookup_empty in Hq. }
        split; [congruence|]. split; [congruence|]. split; [done|]. split; [by intros q n Hn; rewrite Hempty, lookup_empty in Hn|]. split; [|done].
        intros x [->|Hin]%elem_of_cons; [by right|by apply K].
Qed.

Lemma add_lost_ok l ls : StronglySorted by_start ls -> StronglySorted by_start (add_lost l ls) /\ forall x, x ∈ add_lost l ls <-> x = l \/ x ∈ ls.
Proof using.
  assert (forall y ls, add_lost l (y :: ls) = if start_time y <=? start_time l then y :: add_lost l ls else l :: y :: ls) as Hcons by done.
  induction 1 as [|y ls Hs IH Hy]; [split; [by repeat constructor|intros x; cbn; by rewrite elem_of_cons]|].
  rewrite Hcons. rewrite Forall_forall in Hy. destruct IH as [Hs' Hin]. destruct (Z.leb_spec (start_time y) (start_time l)) as [Hle|Hlt].
  - split; [|intros x; rewrite !elem_of_cons, Hin; tauto]. constructor; [done|]. apply Forall_forall. intros x [->|Hx]%Hin; [done|by apply Hy].
  - split; [|intros x; by rewrite elem_of_cons]. constructor; [constructor; [done|by apply Forall_forall]|]. apply Forall_forall.
    intros x [->|Hx]%elem_of_cons; [unfold by_start; lia|]. specialize (Hy x Hx). unfold by_start in *. lia.
Qed.

Lemma event_consistent h s : consistent h -> recent_time (ctx h) <= s_time s -> consistent (handle h (Event s)).
Proof using.
  intros [Hsp Hw Hk] Ht. cbn [handle]. set (t := s_time s) in *. unfold task_state_sample. fold t. cbv zeta.
  set (c0 := if recent_time (ctx h) <? t
             then Ctx (task_states (ctx h)) (lat_dist (ctx h)) (printed (ctx h)) (lost_list (ctx h)) t (stat (ctx h)) else ctx h).
  assert (task_states c0 = task_states (ctx h) /\ lat_dist c0 = lat_dist (ctx h) /\ lost_list c0 = lost_list (ctx h) /\ recent_time c0 = t) as (E1 & E2 & E3 & E4).
  { unfold c0. destruct (Z.ltb_spec (recent_time (ctx h)) t); [done|]. split; [done|]. split; [done|]. split; [done|lia]. }
  unfold task_state_event_lost. pose proof (state_loop_ok t (lost_list c0) c0) as Hloop. rewrite E1, E3 in Hloop.
  specialize (Hloop (waiting_more _ _ _ _ Ht Hw)). rewrite E3. destruct (lost_loop t (lost_list (ctx h)) c0) as [b c1]. destruct Hloop as (L & R & W & N & K & B & F).
  assert (forall a b', (a, b') ∈ known h -> listed (lost_list c1) a b' \/ (b' <= t /\ forall q n, task_states c1 !! q = Some n -> b' <= time n)) as Hk1.
  { intros a b' [(l & Hl & <- & <-)|[Hb Hn]]%Hk; [|right; split; [lia|]; intros q n Hq; by apply (Hn q), N].
    destruct (K l Hl) as [?|[He Hemp]]; [by left|right]. split; [done|]. intros q n Hq. by rewrite Hemp, lookup_empty in Hq. }
  rewrite E2 in L. rewrite E4 in R. destruct b.
  - rewrite L, drop_all. cbn [map]. rewrite app_nil_r. split; cbn [ctx spans known].
    + intros f t' Hf. destruct (Hsp f t' Hf) as [? ?]. split; [lia|done].
    + by rewrite R.
    + rewrite R. apply Hk1.
  - destruct (sched_evolves g s c1) as (Hn & (new & Hnew & Hd) & Hq & Hr). fold t in Hn, Hd.
    rewrite Hnew, L, drop_app_length. split; cbn [ctx spans known].
    + intros f t' [Hf|Hf]%elem_of_app; [destruct (Hsp f t' Hf) as [? ?]; split; [lia|done]|].
      apply list_elem_of_fmap in Hf as (e & [= -> ->] & He). split; [lia|]. intros a b' Hab. destruct (Hd e He) as (q & n & Hq' & Hlt & ->).
      destruct (Hk1 a b' Hab) as [(l & Hl & <- & _)|[_ Hge]]; [left; by apply F|right]. specialize (Hge q n Hq'). lia.
    + rewrite Hr, R, Hq. destruct W as [Ws Wl]. split; [done|]. destruct (lost_list c1) as [|l ls] eqn:El; [done|]. destruct Wl as [W1 W2]. split; [|done].
      intros Hrl. destruct (W1 Hrl) as [_ Hlt]. specialize (F eq_refl l ltac:(by left)). lia.
    + rewrite Hr, R, Hq. intros a b' Hab. destruct (Hk1 a b' Hab) as [?|[Hb Hge]]; [by left|right]. split; [done|].
      intros q n Hn'. destruct (Hn q n Hn') as [->|(q0 & n0 & Hn0 & ->)]; [done|by apply (Hge q0)].
Qed.

Lemma handle_consistent h i : consistent h -> in_time h i -> consistent (handle h i).
Proof using.
  intros Hc Hi. destruct i as [s|a b|p t]; [by apply event_consistent|..]; destruct Hc as [Hsp Hw Hk]; cbn [in_time] in Hi.
  - cbn [handle task_state_lost andb]. destruct (add_lost_ok (Lost false a b) (lost_list (ctx h)) (proj1 Hw)) as [Hs Hin]. split; cbn [ctx spans known with_lost recent_time task_states lost_list].
    + intros f t Hf. destruct (Hsp f t Hf) as [Ht Hok]. split; [done|]. intros a' b' [Hab|Hab]%elem_of_app; [by apply Hok|].
      apply list_elem_of_singleton in Hab. injection Hab as -> ->. left. lia.
    + split; [done|]. destruct Hw as [Hsl Hw]. destruct (lost_list (ctx h)) as [|l ls]; [split; [done|by intros x ?%elem_of_nil]|]. destruct Hw as [Hr Hf].
      change (add_lost (Lost false a b) (l :: ls)) with (if start_time l <=? a then l :: add_lost (Lost false a b) ls else Lost false a b :: l :: ls) in *.
      destruct (Z.leb_spec (start_time l) a) as [Hle|Hlt].
      * split; [done|]. intros x Hx. inversion Hsl as [|? ? Hs' _]; subst.
        apply (add_lost_ok (Lost false a b) ls Hs') in Hx as [->|Hx]; [done|by apply Hf].
      * split; [done|]. intros x [->|Hx]%elem_of_cons; [|by apply Hf]. destruct (reclaim l) eqn:E; [|done]. destruct (Hr eq_refl). lia.
    + intros a' b' [Hab|Hab]%elem_of_app.
      * destruct (Hk a' b' Hab) as [(l & Hl & ? & ?)|?]; [left|by right]. exists l. split; [apply Hin; by right|done].
      * apply list_elem_of_singleton in Hab. injection Hab as -> ->. left. exists (Lost false a b). split; [apply Hin; by left|done].
  - cbn [handle]. assert (let c' := task_state_notify p t (ctx h) in recent_time c' = recent_time (ctx h) /\ lost_list c' = lost_list (ctx h) /\
      forall q n, task_states c' !! q = Some n -> task_states (ctx h) !! q = Some n) as (E1 & E2 & Hn).
    { unfold task_state_notify. destruct (task_states (ctx h) !! p) as [n|]; [|done]. destruct (_ <? _); [|done]. cbn. split; [done|]. split; [done|].
      intros q n'. by intros [_ ?]%lookup_delete_Some. }
    split; cbn [ctx spans known]; rewrite E1, ?E2; [done| |].
    + eapply waiting_less, Hw. intros Hm. apply map_empty. intros q. destruct (_ !! q) as [n|] eqn:Hq; [|done]. apply Hn in Hq. by rewrite Hm, lookup_empty in Hq.
    + intros a b Hab. destruct (Hk a b Hab) as [?|[? Hge]]; [by left|right]. split; [done|]. intros q n Hq. by apply (Hge q), Hn.
Qed.
End histories.

(** ** Correctness *)

Definition samples (g : config) : list sample -> task_state_ctx -> task_state_ctx := flip (foldl (fun c s => task_state_sample g true s c)).

Lemma samples_follow g l y y' log : Forall sample_ok l -> schedule g y l y' log -> forall c,
  nodes_of y (task_states c) -> lost_list c = [] -> follows y' c (samples g l c) log.
Proof.
  intros Hok. induction 1 as [y|y s y1 log1 l y2 log2 Hst _ IH]; intros c Hy Hq.
  { split; [done|]. split; [by rewrite app_nil_r|done]. }
  inversion Hok as [|? ? Hs Hl]; subst. cbn [samples flip foldl].
  set (c1 := task_state_sample g true s c). assert (follows y1 c c1 log1) as Hf.
  { unfold c1, task_state_sample. cbv zeta. set (c0 := if recent_time c <? s_time s then _ else c).
    assert (task_states c0 = task_states c /\ lat_dist c0 = lat_dist c /\ lost_list c0 = []) as (E1 & E2 & E3) by (unfold c0; by case_match).
    unfold task_state_event_lost. rewrite E3. cbn [lost_loop].
    assert (with_lost [] c0 = c0) as -> by (destruct c0; cbn in E3; by subst).
    destruct (sched_ok g s y y1 log1 c0) as (N & L & Q); [by rewrite E1|done|done|]. split; [done|]. split; congruence. }
  eapply follows_trans; [exact Hf|]. apply IH; [done|apply Hf|]. destruct Hf as (_ & _ & ->). done.
Qed.

(** C25: The inputs to the statistics are exactly the durations that end, in order, and the
    nodes are the states of the tasks: from a start with nothing known, with memory and no
    lost events, along all events that are steps of the tasks, with or without a filter of
    tasks.  Without -S and -D ([task_step]) these are the durations that tasks ran, waited
    for a processor, and slept in each state that is reported until they were woken up; a
    wake-up of a task that is not asleep restarts no wait, a dead task is forgotten, a
    preempted one waits, and the sleep of a task that runs again without a wake-up counts
    as nothing.  With -S or -D ([sleep_step]) they are the sleeps that end with a wake-up. *)
Theorem states_timed (g : config) (l : list sample) (y : gmap Z (tstate * Z)) (log : list (Z * Z * Z)) :
  Forall sample_ok l -> schedule g ∅ l y log ->
  lat_dist (samples g l ctx_new) = log /\ nodes_of y (task_states (samples g l ctx_new)).
Proof.
  intros Hok Hs. destruct (samples_follow g l ∅ y log Hok Hs ctx_new) as (N & L & _); [|done|done].
  intros p. cbn. by rewrite !lookup_empty.
Qed.

(** C26: Where events were lost nothing is measured across the gap: for all events in the
    order of their times, notices of lost events and ends of tasks, in every mode, each
    duration in the statistics ends before the gap starts or starts after it ends. *)
Theorem lost_states_forgotten (g : config) (l : list input) (f t a b : Z) :
  let start := History ctx_new [] [] in
  all_in_time g start l -> (f, t) ∈ spans (foldl (handle g) start l) -> (a, b) ∈ known (foldl (handle g) start l) ->
  t <= a \/ b <= f.
Proof.
  intros start Hl. assert (consistent start) as Hc.
  { split; cbn; [by intros ? ? ?%elem_of_nil|split; [constructor|done]|by intros ? ? ?%elem_of_nil]. }
  assert (consistent (foldl (handle g) start l)) as [Hsp _ _].
  { clear f t a b. revert Hc Hl. generalize start. induction l as [|i l IH]; intros h Hc Hl; [done|]. destruct Hl as [Hi Hl]. cbn. apply IH; [by apply handle_consistent|done]. }
  intros Hf Hab. by apply (Hsp f t Hf).
Qed.

(** ** Witnesses *)

(** The steps computed. *)
Definition task_next (g : config) (t : Z) (o : option (tstate * Z)) (x : transition) : option (option (tstate * Z) * list (Z * Z)) :=
  if SD g then
    match x, o with
    | Out s, None | Out s, Some (Sleeping _, _) => if (s =? TASK_RUNNING) || (s =? report_max g) then None else Some (off g s t, [])
    | Wake, Some (Sleeping s, t0) => Some (None, if Z.land s (task_report g) =? 0 then [] else lasted (Z.land s (task_report g)) t0 t)
    | Wake, None => Some (None, [])
    | _, _ => None
    end
  else match x, o with
  | Out s, None => Some (off g s t, [])
  | Out s, Some (Running, t0) => Some (off g s t, lasted TASK_RUNNING t0 t)
  | In, None => Some (Some (Running, t), [])
  | In, Some (Runnable, t0) => Some (Some (Running, t), lasted RUNDELAY t0 t)
  | In, Some (Sleeping _, _) => Some (Some (Running, t), [])
  | Wake, None | Start, None => Some (Some (Runnable, t), [])
  | Wake, Some (Sleeping s, t0) => Some (Some (Runnable, t), if Z.land s (task_report g) =? 0 then [] else lasted (Z.land s (task_report g)) t0 t)
  | Wake, Some (Runnable, t0) => Some (Some (Runnable, t0), [])
  | Wake, Some (Running, t0) => Some (Some (Running, t0), [])
  | _, _ => None
  end.

Fixpoint steps_next (g : config) (t : Z) (y : gmap Z (tstate * Z)) (l : list (Z * transition)) : option (gmap Z (tstate * Z) * list (Z * Z * Z)) :=
  match l with
  | [] => Some (y, [])
  | (p, x) :: l => '(o, ds) ← task_next g t (y !! p) x; '(y', log) ← steps_next g t (partial_alter (fun _ => o) p y) l; Some (y', tagged p ds ++ log)
  end.

Fixpoint schedule_next (g : config) (y : gmap Z (tstate * Z)) (l : list sample) : option (gmap Z (tstate * Z) * list (Z * Z * Z)) :=
  match l with
  | [] => Some (y, [])
  | s :: l => '(y1, log1) ← steps_next g (s_time s) y (steps_of g (s_event s)); '(y2, log2) ← schedule_next g y1 l; Some (y2, log1 ++ log2)
  end.

Lemma schedule_next_ok g l : forall y y' log, schedule_next g y l = Some (y', log) -> schedule g y l y' log.
Proof.
  assert (forall t l y y' log, steps_next g t y l = Some (y', log) -> steps g t y l y' log) as Hsteps.
  { intros t l'. induction l' as [|[p x] l' IH]; intros y y' log; cbn; [intros [= <- <-]; constructor|].
    destruct (task_next g t (y !! p) x) as [[o ds]|] eqn:Ho; [cbn|done].
    destruct (steps_next g t (partial_alter (fun _ => o) p y) l') as [[y1 log1]|] eqn:E; cbn; [|done]. intros [= <- <-].
    apply (steps_cons g t y p x o ds); [|by apply IH].
    unfold any_step. unfold task_next in Ho. destruct (SD g).
    - destruct x as [s| | |], (y !! p) as [[[| |] ?]|]; try done; try (destruct (_ || _) eqn:Hs in Ho; [done|]); injection Ho as <- <-; constructor; lia.
    - destruct x, (y !! p) as [[[| |] ?]|]; try done; injection Ho as <- <-; constructor. }
  induction l as [|s l IH]; intros y y' log; cbn; [intros [= <- <-]; constructor|].
  destruct (steps_next g (s_time s) y _) as [[y1 log1]|] eqn:E1; cbn; [|done].
  destruct (schedule_next g y1 l) as [[y2 log2]|] eqn:E2; cbn; [|done]. intros [= <- <-].
  eapply schedule_cons; [by apply Hsteps|by apply IH].
Qed.


Definition plain : config := task_state_init false false false false false true false 0 0 true.
Definition at_time (t : Z) (e : sched_event) : sample := Sample t 64 e (fun _ => true) true.

(** Task 7 is woken, runs after 5, is preempted by 8 after 10, runs again, sleeps, and is
    woken twice. *)
Definition a_run : list sample :=
  [at_time 10 (Wakeup 7); at_time 15 (Switch 0 0 7); at_time 25 (Switch 7 256 8); at_time 40 (Switch 8 32 7); at_time 42 (Switch 7 1 0);
   at_time 70 (Wakeup 7); at_time 71 (Wakeup 7); at_time 90 (Switch 0 0 7)].
Definition a_log : list (Z * Z * Z) :=
  [(7, RUNDELAY, 5); (7, TASK_RUNNING, 10); (8, TASK_RUNNING, 15); (7, RUNDELAY, 15); (7, TASK_RUNNING, 2); (7, TASK_INTERRUPTIBLE, 28); (7, RUNDELAY, 20)].

(** With -S: of a sleep that ends without a wake-up and one that ends with it, the second. *)
Definition sleeps : config := task_state_init false true false false false true false 0 0 true.
Definition a_sleep : list sample :=
  [at_time 10 (Wakeup 7); at_time 20 (Switch 7 1 0); at_time 50 (Switch 7 1 8); at_time 60 (Wakeup 7); at_time 61 (Wakeup 7)].

Lemma states_timed_witness :
  lat_dist (samples plain a_run ctx_new) = a_log /\ lat_dist (samples sleeps a_sleep ctx_new) = [(7, TASK_INTERRUPTIBLE, 10)].
Proof.
  split.
  - apply (states_timed plain a_run {[7 := (Running, 90)]} a_log).
    + repeat (constructor; [split; [done|cbn; lia || done]|]). constructor.
    + apply schedule_next_ok. vm_compute. reflexivity.
  - apply (states_timed sleeps a_sleep ∅ [(7, TASK_INTERRUPTIBLE, 10)]).
    + repeat (constructor; [split; [done|cbn; lia || done]|]). constructor.
    + apply schedule_next_ok. vm_compute. reflexivity.
Defined.

(** Task 7 waits from 10; what happens from 20 to 30 is lost, the event at 25 is not used, and
    the sleep that starts at 32 is the first thing that is measured. *)
Definition a_gap : list input :=
  [Event (at_time 10 (Wakeup 7)); LostNotice 20 30; Event (at_time 25 (Switch 0 0 7)); Event (at_time 32 (Switch 7 1 0)); Event (at_time 40 (Wakeup 7)); Freed 9 41;
   Event (at_time 45 (Switch 0 0 7))].

Example a_gap_measured : spans (foldl (handle plain) (History ctx_new [] []) a_gap) = [(32, 40); (40, 45)].
Proof. vm_compute. reflexivity. Qed.

Lemma lost_states_forgotten_witness : 40 <= 20 \/ 30 <= 32.
Proof.
  apply (lost_states_forgotten plain a_gap 32 40 20 30); cbv zeta.
  - vm_compute. repeat split; discriminate.
  - replace (spans _) with [(32, 40); (40, 45)] by (vm_compute; reflexivity). left.
  - replace (known _) with [(20, 30)] by (vm_compute; reflexivity). left.
Defined.
