(* ===== verification/Circ.v ===== *)
(** * Circular buffers (include/linux/circ_buf.h)

    The buffers in which events wait for a peer: bytes between a tail, where they are
    taken, and a head, where they are put, in a block whose size is a power of two; one
    byte stays free.  [queue] is the contents as a list, which the readers and writers of
    net.c and event-spread.c are proved against. *)

From S2P Require Import Prelude Bytes.

(** ** The macros

    Heads, tails and counts are [int]s; all values that occur are far below the limits. *)

Definition CIRC_CNT (head tail size : Z) : Z := Z.land (head - tail) (size - 1).

Definition CIRC_SPACE (head tail size : Z) : Z := CIRC_CNT tail (head + 1) size.

Definition CIRC_CNT_TO_END (head tail size : Z) : Z :=
  let end_ := size - tail in
  let n := Z.land (head + end_) (size - 1) in
  if n <? end_ then n else end_.

Definition CIRC_SPACE_TO_END (head tail size : Z) : Z :=
  let end_ := size - 1 - head in
  let n := Z.land (end_ + tail) (size - 1) in
  if n <=? end_ then n else end_ + 1.

Definition BUF_LEN : Z := Z.shiftl 1 16.

(** ** The macros compute *)

Lemma land_size x : Z.land x (BUF_LEN - 1) = x mod BUF_LEN.
Proof. change (BUF_LEN - 1) with (Z.ones 16). by rewrite Z.land_ones by lia. Qed.

Lemma BUF_LEN_val : BUF_LEN = 65536.
Proof. done. Qed.

(** What is between a tail and the head [n] bytes further. *)
Lemma cnt_ok t n : 0 <= t < BUF_LEN -> 0 <= n < BUF_LEN ->
  CIRC_CNT ((t + n) mod BUF_LEN) t BUF_LEN = n.
Proof. intros. unfold CIRC_CNT. rewrite land_size, BUF_LEN_val in *. dlia. Qed.

Lemma space_ok t n : 0 <= t < BUF_LEN -> 0 <= n < BUF_LEN ->
  CIRC_SPACE ((t + n) mod BUF_LEN) t BUF_LEN = BUF_LEN - 1 - n.
Proof. intros. unfold CIRC_SPACE, CIRC_CNT. rewrite land_size, BUF_LEN_val in *. dlia. Qed.

Lemma cnt_to_end_ok t n : 0 <= t < BUF_LEN -> 0 <= n < BUF_LEN ->
  CIRC_CNT_TO_END ((t + n) mod BUF_LEN) t BUF_LEN = Z.min n (BUF_LEN - t).
Proof.
  intros. unfold CIRC_CNT_TO_END. rewrite land_size.
  replace (((t + n) mod BUF_LEN + (BUF_LEN - t)) mod BUF_LEN) with n by (rewrite BUF_LEN_val in *; dlia).
  destruct (Z.ltb_spec n (BUF_LEN - t)); lia.
Qed.

Lemma space_to_end_ok t n : 0 <= t < BUF_LEN -> 0 <= n < BUF_LEN ->
  CIRC_SPACE_TO_END ((t + n) mod BUF_LEN) t BUF_LEN =
    Z.min (BUF_LEN - 1 - n) (BUF_LEN - (t + n) mod BUF_LEN).
Proof.
  intros. unfold CIRC_SPACE_TO_END. rewrite land_size.
  replace ((BUF_LEN - 1 - (t + n) mod BUF_LEN + t) mod BUF_LEN) with (BUF_LEN - 1 - n) by (rewrite BUF_LEN_val in *; dlia).
  destruct (Z.leb_spec (BUF_LEN - 1 - n) (BUF_LEN - 1 - (t + n) mod BUF_LEN)); lia.
Qed.

(** The constant stays folded: its unary form is too large to unfold. *)
#[global] Opaque BUF_LEN.

(** ** The contents *)

(** The [n] bytes from [t] on, around the end of the block. *)
Definition queue (buf : list Z) (t n : Z) : list Z :=
  take (Z.to_nat n) (drop (Z.to_nat t) (buf ++ buf)).

Section ring.
Context (size : Z) (Hsize : 0 < size).
Implicit Types (buf : list Z) (t n k : Z) (bs : list Z).

(** A position that has gone around at most once. *)
Lemma wrap_cases x : 0 <= x < 2 * size ->
  x < size /\ x mod size = x \/ size <= x /\ x mod size = x - size.
Proof using Type*.
  intros. destruct (decide (x < size)); [left|right]; split; try lia; [by rewrite Z.mod_small by lia|].
  symmetry. apply (Z.mod_unique_pos x size 1); lia.
Qed.

Lemma length_queue buf t n : Z.of_nat (length buf) = size -> 0 <= t < size -> 0 <= n <= size ->
  Z.of_nat (length (queue buf t n)) = n.
Proof using Type*. intros. unfold queue. rewrite length_take, length_drop, length_app. lia. Qed.

Lemma lookup_queue buf t n (i : nat) : Z.of_nat (length buf) = size -> 0 <= t < size -> 0 <= n <= size ->
  queue buf t n !! i =
    if decide (Z.of_nat i < n) then buf !! Z.to_nat ((t + Z.of_nat i) mod size) else None.
Proof using Type*.
  intros Hb Ht Hn. unfold queue. case_decide as Hi; [|by rewrite lookup_take_ge by lia].
  rewrite lookup_take_lt, lookup_drop by lia.
  destruct (wrap_cases (t + Z.of_nat i)) as [[? ->]|[? ->]]; [lia|..].
  - rewrite lookup_app_l by lia. f_equal. lia.
  - rewrite lookup_app_r by lia. f_equal. lia.
Qed.

(** Taking from the tail. *)
Lemma queue_take buf t n k : 0 <= k <= n -> take (Z.to_nat k) (queue buf t n) = queue buf t k.
Proof using Type*. intros. unfold queue. rewrite take_take. f_equal. lia. Qed.

Lemma queue_drop buf t n k : Z.of_nat (length buf) = size -> 0 <= t < size -> 0 <= k <= n -> n <= size ->
  drop (Z.to_nat k) (queue buf t n) = queue buf ((t + k) mod size) (n - k).
Proof using Type*.
  intros Hb Ht Hk Hn. apply list_eq. intros i.
  pose proof (Z.mod_pos_bound (t + k) size Hsize).
  rewrite lookup_drop, !lookup_queue by lia. repeat case_decide; try lia; [|done]. f_equal. f_equal.
  rewrite Zplus_mod_idemp_l. f_equal. lia.
Qed.

(** The part that does not go around the end is in one piece. *)
Lemma queue_piece buf t k : Z.of_nat (length buf) = size -> 0 <= t < size -> 0 <= k -> t + k <= size ->
  mem_read buf t k = Some (queue buf t k).
Proof using Type*.
  intros Hb Ht Hk He. apply mem_read_Some. split; [lia|]. split; [lia|]. split; [lia|].
  apply list_eq. intros i. rewrite lookup_queue by lia. case_decide.
  - rewrite lookup_take_lt, lookup_drop, Z.mod_small by lia. f_equal. lia.
  - by rewrite lookup_take_ge by lia.
Qed.

(** Putting bytes at the head, in one piece or two. *)
Lemma lookup_put buf h bs b1 b2 (k j : nat) :
  Z.of_nat (length buf) = size -> 0 <= h < size -> Z.of_nat (length bs) <= size ->
  Z.of_nat k = Z.min (Z.of_nat (length bs)) (size - h) ->
  mem_write buf h (take k bs) = Some b1 -> mem_write b1 0 (drop k bs) = Some b2 ->
  b2 !! j = if decide (h <= Z.of_nat j < h + Z.of_nat k) then bs !! (j - Z.to_nat h)%nat
            else if decide (Z.of_nat j + size < h + Z.of_nat (length bs)) then bs !! (k + j)%nat else buf !! j.
Proof using Type*.
  intros Hb Hh Hl Hk H1 H2.
  rewrite (lookup_mem_write _ _ _ _ _ H2), (lookup_mem_write _ _ _ _ _ H1), length_take, length_drop.
  repeat case_decide; try lia; rewrite ?lookup_drop, ?lookup_take_lt by lia; try done; f_equal; lia.
Qed.

Lemma queue_put buf t n bs : Z.of_nat (length buf) = size ->
  0 <= t < size -> 0 <= n -> n + Z.of_nat (length bs) <= size ->
  let h := (t + n) mod size in let k := Z.min (Z.of_nat (length bs)) (size - h) in
  exists b1 b2, mem_write buf h (take (Z.to_nat k) bs) = Some b1 /\
    mem_write b1 0 (drop (Z.to_nat k) bs) = Some b2 /\ length b2 = length buf /\
    queue b2 t (n + Z.of_nat (length bs)) = queue buf t n ++ bs.
Proof using Type*.
  intros Hb Ht Hn Hl h k. pose proof (wrap_cases (t + n) ltac:(lia)) as Wh. fold h in Wh.
  assert (Z.of_nat (Z.to_nat k) = Z.min (Z.of_nat (length bs)) (size - h)) as Ek by lia.
  generalize dependent (Z.to_nat k). clear k. clearbody h. intros k Ek.
  destruct (mem_write_total buf h (take k bs)) as [b1 H1]; [lia|rewrite length_take; lia|].
  pose proof (length_mem_write _ _ _ _ H1) as L1.
  destruct (mem_write_total b1 0 (drop k bs)) as [b2 H2]; [lia|rewrite length_drop; lia|].
  pose proof (length_mem_write _ _ _ _ H2) as L2.
  exists b1, b2. split; [done|]. split; [done|]. split; [lia|].
  apply list_eq. intros i. rewrite lookup_queue by lia. pose proof (length_queue buf t n Hb Ht ltac:(lia)) as Lq.
  case_decide as Hi; [|symmetry; apply lookup_ge_None_2; rewrite length_app; lia].
  pose proof (wrap_cases (t + Z.of_nat i) ltac:(lia)) as Wj.
  rewrite (lookup_put buf h bs b1 b2 k) by (done || lia).
  destruct (decide (Z.of_nat i < n)).
  - rewrite !decide_False by lia. rewrite lookup_app_l, lookup_queue by lia. by rewrite decide_True by lia.
  - rewrite lookup_app_r by lia. destruct (decide (h <= _ < _)); [f_equal; lia|].
    rewrite decide_True by lia. f_equal. lia.
Qed.
End ring.

(** ** A buffer between its tail and its head *)

Record ring_ok (buf : list Z) (t h : Z) : Prop := {
  ring_len : Z.of_nat (length buf) = BUF_LEN;
  ring_tail : 0 <= t < BUF_LEN;
  ring_head : 0 <= h < BUF_LEN
}.

Definition held (buf : list Z) (t h : Z) : list Z := queue buf t (CIRC_CNT h t BUF_LEN).

Lemma BUF_LEN_pos : 0 < BUF_LEN.
Proof. rewrite BUF_LEN_val. lia. Qed.
#[export] Hint Resolve BUF_LEN_pos : core.

(** [lia] without the facts about positions that go around. *)
Ltac ring_lia := repeat match goal with H : context [_ mod BUF_LEN] |- _ => clear H end; lia.

Lemma ring_facts buf t h : ring_ok buf t h -> let n := CIRC_CNT h t BUF_LEN in
  0 <= n < BUF_LEN /\ h = (t + n) mod BUF_LEN /\ CIRC_SPACE h t BUF_LEN = BUF_LEN - 1 - n /\
  Z.of_nat (length (held buf t h)) = n.
Proof.
  intros [Hb Hs Hw]. pose proof BUF_LEN_pos.
  assert (exists n, 0 <= n < BUF_LEN /\ h = (t + n) mod BUF_LEN) as (n & Hn & E).
  { destruct (decide (t <= h)).
    - exists (h - t). split; [lia|]. rewrite Z.mod_small; lia.
    - exists (h - t + BUF_LEN). split; [lia|].
      destruct (wrap_cases BUF_LEN BUF_LEN_pos (t + (h - t + BUF_LEN))) as [[? ->]|[? ->]]; lia. }
  assert (CIRC_CNT h t BUF_LEN = n) as Ec by (rewrite E; by apply cnt_ok). cbn. unfold held. rewrite Ec.
  split; [done|]. split; [done|]. split; [rewrite E; by apply space_ok|]. apply (length_queue BUF_LEN BUF_LEN_pos); lia.
Qed.

(** What is put goes behind what is held. *)
Lemma ring_put buf t h bs : ring_ok buf t h -> Z.of_nat (length bs) <= CIRC_SPACE h t BUF_LEN ->
  let k := Z.min (Z.of_nat (length bs)) (BUF_LEN - h) in let h' := (h + Z.of_nat (length bs)) mod BUF_LEN in
  exists b1 b2, mem_write buf h (take (Z.to_nat k) bs) = Some b1 /\ mem_write b1 0 (drop (Z.to_nat k) bs) = Some b2 /\
    ring_ok b2 t h' /\ held b2 t h' = held buf t h ++ bs.
Proof.
  intros H Hl. destruct (ring_facts _ _ _ H) as (Hn & Ew & Ei & _). destruct H as [Hb Hs Hw]. rewrite Ei in Hl.
  set (n := CIRC_CNT h t BUF_LEN) in *.
  destruct (queue_put BUF_LEN BUF_LEN_pos buf t n bs Hb Hs) as (b1 & b2 & H1 & H2 & L2 & Eq); [ring_lia..|].
  rewrite <- Ew in *. exists b1, b2. split; [done|]. split; [done|].
  pose proof (Z.mod_pos_bound (h + Z.of_nat (length bs)) BUF_LEN BUF_LEN_pos). split; [split; [ring_lia|done..]|].
  assert (CIRC_CNT ((h + Z.of_nat (length bs)) mod BUF_LEN) t BUF_LEN = n + Z.of_nat (length bs)) as Ec.
  { rewrite Ew, Zplus_mod_idemp_l, <- Z.add_assoc. apply cnt_ok; [done|ring_lia]. }
  unfold held at 1. rewrite Ec. exact Eq.
Qed.

(** What is taken was in front. *)
Lemma ring_take buf t h k : ring_ok buf t h -> 0 <= k <= CIRC_CNT h t BUF_LEN ->
  let t' := (t + k) mod BUF_LEN in
  ring_ok buf t' h /\ CIRC_CNT h t' BUF_LEN = CIRC_CNT h t BUF_LEN - k /\ held buf t' h = drop (Z.to_nat k) (held buf t h).
Proof.
  intros H Hk. destruct (ring_facts _ _ _ H) as (Hn & Ew & _ & _). destruct H as [Hb Hs Hw].
  pose proof (Z.mod_pos_bound (t + k) BUF_LEN BUF_LEN_pos) as Hm. cbn.
  assert (CIRC_CNT h ((t + k) mod BUF_LEN) BUF_LEN = CIRC_CNT h t BUF_LEN - k) as Ec.
  { rewrite Ew at 1. replace ((t + CIRC_CNT h t BUF_LEN) mod BUF_LEN)
      with (((t + k) mod BUF_LEN + (CIRC_CNT h t BUF_LEN - k)) mod BUF_LEN)
      by (rewrite (Zplus_mod_idemp_l (t + k)); f_equal; ring_lia).
    apply cnt_ok; [done|ring_lia]. }
  split; [by split|]. split; [done|]. unfold held. rewrite Ec. symmetry. apply (queue_drop BUF_LEN BUF_LEN_pos); ring_lia.
Qed.

(** The bytes up to the end of the block are the first of those held. *)
Lemma ring_piece buf t h k : ring_ok buf t h -> 0 <= k <= CIRC_CNT h t BUF_LEN -> t + k <= BUF_LEN ->
  mem_read buf t k = Some (take (Z.to_nat k) (held buf t h)).
Proof.
  intros H Hk He. destruct H as [Hb Hs Hw]. rewrite (queue_piece BUF_LEN BUF_LEN_pos) by ring_lia.
  unfold held. by rewrite queue_take by ring_lia.
Qed.
