(* ===== verification/Wire.v ===== *)
(** * What goes over the wire (event-spread.c, net.c)

    A sender puts whole records on a stream of bytes: events, and in place of events it had
    no room for a record of how many were lost.  [told] says what a stream tells of the
    events offered; [spool] is a sender seen from outside, the bytes that wait and the
    count of the lost. *)

From S2P Require Import Prelude Bytes Mmap Circ.

Create HintDb wire discriminated.

(** ** Records *)

(** [struct perf_record_lost] of lib/perf/include/perf/event.h. *)
Record perf_record_lost := PerfRecordLost { l_type : Z; l_misc : Z; l_size : Z; l_id : Z; lost : Z }.

Definition SIZEOF_LOST : Z := 24.
Definition RECORD_LOST : Z := 2.

Definition lost_bytes (l : perf_record_lost) : list Z :=
  le_bytes 4 (l_type l) ++ le_bytes 2 (l_misc l) ++ le_bytes 2 (l_size l) ++ le_bytes 8 (l_id l) ++ le_bytes 8 (lost l).

(** [memset] to zero. *)
Definition no_lost : perf_record_lost := PerfRecordLost 0 0 0 0 0.

(** One more event lost. *)
Definition lost_more (l : perf_record_lost) : perf_record_lost :=
  PerfRecordLost RECORD_LOST 0 SIZEOF_LOST 0 (u64 (lost l + 1)).

Definition lost_told (l : perf_record_lost) : perf_record_lost :=
  PerfRecordLost (l_type l) (l_misc l) (l_size l) (l_id l) 0.

(** ** Descriptors

    A descriptor that does not block: what each of the next [send]s or [write]s does, and
    the bytes the peer gets.  After the answers, the descriptor is not ready. *)

Inductive answer :=
  | Takes (k : positive)     (** takes up to [k] bytes *)
  | Fails (errno : Z).

Record sink := Sink { answers : list answer; wire : list Z }.

Definition sink_write (bs : list Z) (k : sink) : Z * Z * sink :=
  match answers k with
  | [] => (-1, EAGAIN, k)
  | Fails e :: r => (-1, e, Sink r (wire k))
  | Takes n :: r =>
      let n := Z.min (Zpos n) (Z.of_nat (length bs)) in
      (n, 0, Sink r (wire k ++ take (Z.to_nat n) bs))
  end.

(** ** What a stream tells *)

Inductive frame := Event (r : list Z) | Lost (n : Z).

Definition frame_bytes (f : frame) : list Z :=
  match f with
  | Event r => r
  | Lost n => lost_bytes (PerfRecordLost RECORD_LOST 0 SIZEOF_LOST 0 n)
  end.

Definition stream_of (fs : list frame) : list Z := concat (frame_bytes <$> fs).

(** Of the events [es], those not on the stream are counted in a later record, or in [n]. *)
Inductive told : list (list Z) -> list frame -> Z -> Prop :=
  | told_nil : told [] [] 0
  | told_event es fs n e : told es fs n -> told (es ++ [e]) (fs ++ [Event e]) n
  | told_lost es fs n e : told es fs n -> told (es ++ [e]) fs (n + 1)
  | told_count es fs n : told es fs n -> 0 < n -> told es (fs ++ [Lost n]) 0.

#[export] Hint Constructors told : core.

Definition lost_of (f : frame) : Z := match f with Event _ => 0 | Lost n => n end.
Definition events_of (fs : list frame) : list (list Z) :=
  omap (fun f => match f with Event r => Some r | Lost _ => None end) fs.

Lemma events_of_app fs gs : events_of (fs ++ gs) = events_of fs ++ events_of gs.
Proof. apply omap_app. Qed.

Lemma stream_of_app fs gs : stream_of (fs ++ gs) = stream_of fs ++ stream_of gs.
Proof. unfold stream_of. by rewrite fmap_app, concat_app. Qed.

Lemma stream_of_one f : stream_of [f] = frame_bytes f.
Proof. apply app_nil_r. Qed.

Definition lost_sum (fs : list frame) : Z := foldr Z.add 0 (lost_of <$> fs).

Lemma lost_sum_app fs gs : lost_sum (fs ++ gs) = lost_sum fs + lost_sum gs.
Proof. unfold lost_sum. rewrite fmap_app. induction (lost_of <$> fs); cbn in *; lia. Qed.

Lemma told_events es fs n : told es fs n -> sublist (events_of fs) es.
Proof.
  induction 1 as [|es fs n e _ IH|es fs n e _ IH|es fs n _ IH _].
  - constructor.
  - rewrite events_of_app. by apply sublist_app.
  - by apply sublist_inserts_r.
  - by rewrite events_of_app, app_nil_r.
Qed.

(** Every event is on the stream or counted. *)
Lemma told_number es fs n : told es fs n ->
  Z.of_nat (length es) = Z.of_nat (length (events_of fs)) + lost_sum fs + n /\ 0 <= lost_sum fs /\ 0 <= n.
Proof.
  induction 1 as [|es fs n e _ IH|es fs n e _ IH|es fs n _ IH _]; [done|..];
    rewrite ?events_of_app, ?lost_sum_app, ?length_app; cbn; lia.
Qed.

(** ** A sender, seen from outside *)

Definition spooled (start : list Z) (es : list (list Z)) (sent waiting : list Z) (missed : Z) : Prop :=
  exists fs, told es fs missed /\ sent ++ waiting = start ++ stream_of fs.

Section spooled.
Context (start : list Z).
Implicit Types (es : list (list Z)) (sent waiting e : list Z) (missed : Z).

Lemma spooled_new : spooled start [] [] start 0.
Proof. exists []. split; [done|]. cbn. by rewrite app_nil_r. Qed.

Lemma spooled_sent es sent waiting missed (k : nat) : spooled start es sent waiting missed ->
  spooled start es (sent ++ take k waiting) (drop k waiting) missed.
Proof. intros (fs & Ht & E). exists fs. split; [done|]. by rewrite <- app_assoc, take_drop. Qed.

Lemma spooled_put es sent waiting missed e : spooled start es sent waiting missed ->
  spooled start (es ++ [e]) sent (waiting ++ e) missed.
Proof.
  intros (fs & Ht & E). exists (fs ++ [Event e]). split; [auto|].
  by rewrite stream_of_app, stream_of_one, !app_assoc, E.
Qed.

Lemma spooled_missed es sent waiting missed e : spooled start es sent waiting missed ->
  spooled start (es ++ [e]) sent waiting (missed + 1).
Proof. intros (fs & Ht & E). exists fs. auto. Qed.

Lemma spooled_count es sent waiting missed : spooled start es sent waiting missed -> 0 < missed ->
  spooled start es sent (waiting ++ frame_bytes (Lost missed)) 0.
Proof.
  intros (fs & Ht & E) Hm. exists (fs ++ [Lost missed]). split; [auto|].
  by rewrite stream_of_app, stream_of_one, !app_assoc, E.
Qed.

Lemma spooled_small es sent waiting missed : spooled start es sent waiting missed ->
  0 <= missed <= Z.of_nat (length es).
Proof. intros (fs & Ht & _). pose proof (told_number _ _ _ Ht). lia. Qed.
End spooled.

#[export] Hint Resolve spooled_new spooled_sent spooled_put spooled_missed spooled_count : wire.
