(* ===== verification/TcpSend.v ===== *)
(** * Sending events over TCP (net.c)

    A client of the server has a circular buffer of what waits to be sent and a count of the
    events there was no room for.  The stream of a client is whole records, in order. *)

From S2P Require Import Prelude Bytes Mmap Circ Wire.

Definition EPOLLIN : Z := 1.
Definition EPOLLOUT : Z := 4.
Definition EPOLLERR : Z := 8.
Definition EPOLLHUP : Z := 16.

(** [struct tcp_client_socket], the part that sends: [send_] is the tail, [write_] the head. *)
Record tcp_client_socket := TcpClient {
  events : Z;
  lost_event : perf_record_lost;
  buf : list Z;
  send_ : Z;
  write_ : Z
}.

Definition with_buf (b : list Z) (w : Z) (c : tcp_client_socket) : tcp_client_socket :=
  TcpClient (events c) (lost_event c) b (send_ c) w.
Definition with_send (s : Z) (c : tcp_client_socket) : tcp_client_socket :=
  TcpClient (events c) (lost_event c) (buf c) s (write_ c).
Definition with_lost (l : perf_record_lost) (c : tcp_client_socket) : tcp_client_socket :=
  TcpClient (events c) l (buf c) (send_ c) (write_ c).
Definition with_events (e : Z) (c : tcp_client_socket) : tcp_client_socket :=
  TcpClient e (lost_event c) (buf c) (send_ c) (write_ c).

(** What [tcp_client_init] and [handle_accept] set; the buffer is what [malloc] gave. *)
Definition tcp_client_init (b : list Z) : tcp_client_socket := TcpClient 0 no_lost b 0 0.
Definition accepted (b : list Z) : tcp_client_socket :=
  with_events (Z.lor (Z.lor EPOLLIN EPOLLERR) EPOLLHUP) (tcp_client_init b).

(** ** The buffer *)

Definition buf_cnt (c : tcp_client_socket) : Z := CIRC_CNT (write_ c) (send_ c) BUF_LEN.
Definition buf_idle (c : tcp_client_socket) : Z := CIRC_SPACE (write_ c) (send_ c) BUF_LEN.
Definition buf_is_empty (c : tcp_client_socket) : bool := buf_cnt c =? 0.

Definition buf_write (bs : list Z) (c : tcp_client_socket) : option tcp_client_socket :=
  '(bs, c) ← (if BUF_LEN <=? write_ c + Z.of_nat (length bs) then
                let n := BUF_LEN - write_ c in
                piece ← mem_read bs 0 n;
                b ← mem_write (buf c) (write_ c) piece;
                Some (drop (Z.to_nat n) bs, with_buf b 0 c)
              else Some (bs, c));
  if decide (bs = []) then Some c
  else
    b ← mem_write (buf c) (write_ c) bs;
    Some (with_buf b (write_ c + Z.of_nat (length bs)) c).

(** One [send]: [inl] is a return from [buf_send]. *)
Definition send_piece (n : Z) (c : tcp_client_socket) (k : sink)
  : option (Z * Z * tcp_client_socket * sink) :=
  bs ← mem_read (buf c) (send_ c) n;
  let '(ret, err, k) := sink_write bs k in
  if ret <=? 0 then Some (ret, err, c, k)
  else Some (ret, err, with_send ((send_ c + ret) mod BUF_LEN) c, k).

Definition write_lost (c : tcp_client_socket) : option tcp_client_socket :=
  if (0 <? lost (lost_event c)) && (SIZEOF_LOST <? buf_idle c) then
    c ← buf_write (lost_bytes (lost_event c)) c;
    Some (with_lost (lost_told (lost_event c)) c)
  else Some c.

(** The second half of [buf_send]: what is left, then the record of the lost.  The result is
    the value returned, [errno], the client and its socket. *)
Definition send_rest (len : Z) (c : tcp_client_socket) (k : sink) : option (Z * Z * tcp_client_socket * sink) :=
  '(ret, err, c, k) ← (if len =? 0 then Some (1, 0, c, k) else send_piece len c k);
  if ret <=? 0 then Some (ret, err, c, k)
  else c ← write_lost c; Some (0, 0, c, k).

Definition buf_send (c : tcp_client_socket) (k : sink) : option (Z * Z * tcp_client_socket * sink) :=
  let len := buf_cnt c in
  if BUF_LEN <=? send_ c + len then
    let n := BUF_LEN - send_ c in
    '(ret, err, c, k) ← send_piece n c k;
    if ret <=? 0 then Some (ret, err, c, k)
    else if negb (ret =? n) then Some (0, 0, c, k)
    else send_rest (len - ret) c k
  else send_rest len c k.

(** ** Sending an event *)

Definition tcp_send (r : list Z) (c : tcp_client_socket) (k : sink)
  : option (Z * tcp_client_socket * sink) :=
  let len := Z.of_nat (length r) in
  '(failed, c, k) ← (if buf_idle c <? len then
                       '(ret, err, c, k) ← buf_send c k;
                       Some ((ret <? 0) && negb (err =? EAGAIN), c, k)
                     else Some (false, c, k));
  if (failed : bool) then Some (-1, c, k)
  else
    let add := buf_is_empty c in
    if len <=? buf_idle c then
      c ← buf_write r c;
      Some (0, (if add && (Z.land (events c) EPOLLOUT =? 0)
                then with_events (Z.lor (events c) EPOLLOUT) c else c), k)
    else Some (0, with_lost (lost_more (lost_event c)) c, k).

(** A connection of the server: whether it is in the list of clients, and whether it is
    still there. *)
Record conn := Conn { cli : tcp_client_socket; peer : sink; linked : bool; alive : bool }.

(** [handle_inout] on [EPOLLOUT]; an error hangs up the client. *)
Definition handle_out (x : conn) : option conn :=
  '(ret, err, c, k) ← buf_send (cli x) (peer x);
  if ret <? 0 then
    if negb (err =? EAGAIN) then Some (Conn c k false false)
    else Some (Conn c k (linked x) true)
  else if buf_is_empty c then Some (Conn (with_events (Z.land (events c) (Z.lnot EPOLLOUT)) c) k (linked x) true)
  else Some (Conn c k (linked x) true).

Definition send_conn (r : list Z) (x : conn) : option conn :=
  '(ret, c, k) ← tcp_send r (cli x) (peer x);
  Some (Conn c k (linked x && negb (ret <? 0)) (alive x)).

(** The clients of a server; those that a failed send takes off the list stay open. *)
Fixpoint tcp_server_broadcast (r : list Z) (xs : list conn) : option (list conn) :=
  match xs with
  | [] => Some []
  | x :: xs =>
      x ← (if linked x then send_conn r x else Some x);
      xs ← tcp_server_broadcast r xs;
      Some (x :: xs)
  end.

(** ** What the buffer holds *)

Definition waiting (c : tcp_client_socket) : list Z := held (buf c) (send_ c) (write_ c).
Definition buf_ok (c : tcp_client_socket) : Prop := ring_ok (buf c) (send_ c) (write_ c).

Lemma buf_facts c : buf_ok c ->
  0 <= buf_cnt c < BUF_LEN /\ buf_idle c = BUF_LEN - 1 - buf_cnt c /\ Z.of_nat (length (waiting c)) = buf_cnt c.
Proof. intros (? & _ & ? & ?)%ring_facts. done. Qed.

Lemma empty_waiting c : buf_ok c -> buf_is_empty c = true <-> waiting c = [].
Proof.
  intros Hc. destruct (buf_facts c Hc) as (? & _ & Hl). unfold buf_is_empty. rewrite Z.eqb_eq.
  split; intros E; [apply length_zero_iff_nil; lia|by rewrite E in Hl].
Qed.

(** Writing puts the bytes behind those that wait. *)
Lemma buf_write_ok bs c : buf_ok c -> Z.of_nat (length bs) <= buf_idle c ->
  exists c', buf_write bs c = Some c' /\ buf_ok c' /\ waiting c' = waiting c ++ bs /\
    events c' = events c /\ lost_event c' = lost_event c.
Proof.
  intros Hc Hl. pose proof Hc as [_ _ Hw]. destruct (ring_put _ _ _ bs Hc Hl) as (b1 & b2 & H1 & H2 & Hok & Eq).
  assert (drop (Z.to_nat (Z.min (Z.of_nat (length bs)) (BUF_LEN - write_ c))) bs = [] -> b2 = b1) as Hnil.
  { intros E. rewrite E in H2. apply mem_write_Some in H2 as (_ & _ & ->). by rewrite drop_0. }
  destruct (buf_facts c Hc) as (? & Ei & _). unfold buf_write. destruct (Z.leb_spec BUF_LEN (write_ c + Z.of_nat (length bs))).
  - destruct (wrap_cases BUF_LEN BUF_LEN_pos (write_ c + Z.of_nat (length bs))) as [[? _]|[_ Em]]; [ring_lia..|]. rewrite Em in *.
    rewrite Z.min_r in H1, H2, Hnil by ring_lia.
    destruct (mem_read_total bs 0 (BUF_LEN - write_ c)) as [p Hp]; [ring_lia..|]. rewrite Hp. cbn.
    apply mem_read_Some in Hp as (_ & _ & _ & ->). rewrite drop_0, H1. cbn. destruct (decide (drop _ bs = [])) as [Ed|].
    + rewrite (Hnil Ed) in *. apply (f_equal length) in Ed. rewrite length_drop in Ed. cbn in Ed.
      replace (write_ c + Z.of_nat (length bs) - BUF_LEN) with 0 in * by ring_lia. by eexists.
    + rewrite H2. cbn. rewrite length_drop. eexists. split; [done|].
      replace (0 + _) with (write_ c + Z.of_nat (length bs) - BUF_LEN) by ring_lia. done.
  - rewrite Z.mod_small in * by lia. cbn. destruct (decide (bs = [])) as [->|].
    + exists c. rewrite app_nil_r. split; [done|]. done.
    + rewrite Z.min_l, Nat2Z.id in H1, H2, Hnil by ring_lia. rewrite take_ge in H1 by lia. rewrite drop_ge in Hnil by lia.
      rewrite (Hnil eq_refl) in *. rewrite H1. cbn. by eexists.
Qed.

(** ** The client, seen from outside *)

Section client.
Context (start : list Z).

(** A client whose stream tells of the events [es]; events wait only when the program asks
    to be woken when the socket takes more. *)
Record client_ok (es : list (list Z)) (c : tcp_client_socket) (k : sink) : Prop := {
  client_buf : buf_ok c;
  client_spool : spooled start es (wire k) (waiting c) (lost (lost_event c));
  client_lost : 0 < lost (lost_event c) -> lost_event c = PerfRecordLost RECORD_LOST 0 SIZEOF_LOST 0 (lost (lost_event c))
}.

Definition woken (c : tcp_client_socket) : Prop :=
  Z.land (events c) EPOLLOUT = 0 -> waiting c = [] /\ lost (lost_event c) = 0.

(** One [send] takes some bytes from the front. *)
Lemma send_piece_ok es n c k : client_ok es c k -> 0 < n -> n <= buf_cnt c -> send_ c + n <= BUF_LEN ->
  exists ret err c' k', send_piece n c k = Some (ret, err, c', k') /\ client_ok es c' k' /\
    events c' = events c /\ lost_event c' = lost_event c /\ ret <= n /\ (ret <= 0 -> c' = c) /\
    (0 < ret -> buf_cnt c' = buf_cnt c - ret /\ send_ c' = (send_ c + ret) mod BUF_LEN).
Proof.
  intros [Hb Hs Hl] Hn Hc He. destruct (buf_facts c Hb) as (_ & _ & Hw).
  unfold send_piece. rewrite (ring_piece _ _ _ n Hb) by (unfold buf_cnt in Hc; lia). fold (waiting c). cbn.
  destruct k as [a w]. unfold sink_write. cbn. destruct a as [|[m|e] a]; cbn.
  - eexists _, _, c, _. do 4 (split; [done|]). split; [lia|done].
  - rewrite length_take. replace (Z.of_nat (Z.to_nat n `min` length (waiting c))) with n by lia.
    set (r := Z.min (Z.pos m) n). assert (0 < r <= n) as Hr by lia. clearbody r.
    rewrite (proj2 (Z.leb_gt r 0)) by lia. eexists r, _, _, _. split; [done|].
    destruct (ring_take _ _ _ r Hb) as (Hb' & Ec & Ew); [unfold buf_cnt in Hc; lia|].
    split; [|by repeat split; (done || lia)]. split; cbn.
    + exact Hb'.
    + rewrite take_take, Nat.min_l by lia.
      change (waiting (with_send _ c)) with (held (buf c) ((send_ c + r) mod BUF_LEN) (write_ c)). rewrite Ew.
      by apply spooled_sent.
    + done.
  - eexists _, _, c, _. do 4 (split; [done|]). split; [lia|done].
Qed.

Lemma lost_record c : lost_event c = PerfRecordLost RECORD_LOST 0 SIZEOF_LOST 0 (lost (lost_event c)) ->
  lost_bytes (lost_event c) = frame_bytes (Lost (lost (lost_event c))).
Proof. by intros E; cbn [frame_bytes]; rewrite <- E. Qed.

Lemma length_lost l : length (lost_bytes l) = 24%nat.
Proof. unfold lost_bytes. by rewrite !length_app, !length_le_bytes. Qed.

Lemma length_count n : length (frame_bytes (Lost n)) = 24%nat.
Proof. apply length_lost. Qed.

(** The record of the lost goes behind what waits. *)
Lemma write_lost_ok es c k : client_ok es c k ->
  exists c', write_lost c = Some c' /\ client_ok es c' k /\ events c' = events c /\
    (waiting c' = [] -> waiting c = [] /\ lost (lost_event c') = 0) /\
    (waiting c = [] -> lost (lost_event c) = 0 -> c' = c).
Proof.
  intros [Hb Hs Hl]. destruct (buf_facts c Hb) as (Hcnt & Ei & Hw). pose proof BUF_LEN_val.
  pose proof (spooled_small _ _ _ _ _ Hs). unfold write_lost, SIZEOF_LOST.
  destruct (Z.ltb_spec 0 (lost (lost_event c))); [destruct (Z.ltb_spec 24 (buf_idle c))|]; cbn [andb].
  - destruct (buf_write_ok (lost_bytes (lost_event c)) c Hb) as (c' & -> & Hb' & Hw' & He & El); [rewrite length_lost; lia|].
    cbn [mbind option_bind]. eexists. split; [done|]. rewrite lost_record in Hw' by auto. split; [|split; [exact He|]].
    + split; [done| |cbn; lia]. change (waiting (with_lost _ c')) with (waiting c').
      rewrite Hw'. by apply spooled_count.
    + change (waiting (with_lost _ c')) with (waiting c'). rewrite Hw'. split; [|lia].
      intros [? E]%app_eq_nil. by apply (f_equal length) in E; rewrite length_count in E.
  - eexists. split; [done|]. split; [by split|]. split; [done|]. split; [|done]. intros E. rewrite E in Hw. cbn in Hw. lia.
  - eexists. split; [done|]. split; [by split|]. split; [done|]. split; [|done]. intros E. split; [done|lia].
Qed.

(** After a send that does not fail, nothing is lost that is not told, unless bytes wait;
    and there is nothing to do when there was nothing. *)
Definition settled (c c' : tcp_client_socket) (ret : Z) : Prop :=
  events c' = events c /\ (0 <= ret -> waiting c' = [] -> lost (lost_event c') = 0) /\
  (waiting c = [] -> lost (lost_event c) = 0 -> waiting c' = [] /\ lost (lost_event c') = 0).

Lemma some_wait c : buf_ok c -> 0 < buf_cnt c -> waiting c <> [].
Proof. intros Hb Hc E. destruct (buf_facts c Hb) as (_ & _ & Hw). rewrite E in Hw. cbn in Hw. lia. Qed.

Lemma send_rest_ok es c k : client_ok es c k -> send_ c + buf_cnt c <= BUF_LEN ->
  exists ret err c' k', send_rest (buf_cnt c) c k = Some (ret, err, c', k') /\ client_ok es c' k' /\ settled c c' ret.
Proof.
  intros H He. pose proof H as [Hb _ _]. destruct (buf_facts c Hb) as (Hcnt & _ & Hw).
  unfold send_rest, settled. destruct (Z.eqb_spec (buf_cnt c) 0) as [E0|E0]; cbn [mbind option_bind].
  - destruct (write_lost_ok es c k H) as (c' & -> & H' & Ev & Hl & Hsame). cbn.
    eexists _, _, c', k. split; [done|]. split; [done|]. split; [done|]. split; [by intros _ [_ ?]%Hl|].
    intros E1 E2. by rewrite (Hsame E1 E2).
  - destruct (send_piece_ok es (buf_cnt c) c k H) as (ret & err & c1 & k1 & -> & H1 & Ev1 & El1 & Hr & Hno & Hyes); [lia..|].
    cbn [mbind option_bind]. pose proof (some_wait c Hb ltac:(lia)) as Hsome. destruct (Z.leb_spec ret 0).
    + rewrite Hno by done. do 4 eexists. split; [done|]. rewrite Hno in H1 by done. done.
    + destruct (write_lost_ok es c1 k1 H1) as (c' & -> & H' & Ev & Hl & _). cbn. rewrite Ev1 in Ev.
      do 4 eexists. split; [done|]. split; [done|]. split; [done|]. split; [by intros _ [_ ?]%Hl|done].
Qed.

Lemma buf_send_ok es c k : client_ok es c k ->
  exists ret err c' k', buf_send c k = Some (ret, err, c', k') /\ client_ok es c' k' /\ settled c c' ret.
Proof.
  intros H. pose proof H as [Hb _ _]. destruct (buf_facts c Hb) as (Hcnt & _ & Hw). pose proof Hb as [_ Hsi _].
  unfold buf_send. destruct (Z.leb_spec BUF_LEN (send_ c + buf_cnt c)).
  2: { apply send_rest_ok; [done|lia]. }
  destruct (send_piece_ok es (BUF_LEN - send_ c) c k H) as (ret & err & c1 & k1 & -> & H1 & Ev1 & El1 & Hr & Hno & Hyes); [lia..|].
  cbn [mbind option_bind]. pose proof (some_wait c Hb ltac:(lia)) as Hsome. unfold settled. destruct (Z.leb_spec ret 0).
  - rewrite Hno by done. do 4 eexists. split; [done|]. rewrite Hno in H1 by done. done.
  - destruct (Hyes ltac:(done)) as [Ec Es]. destruct (Z.eqb_spec ret (BUF_LEN - send_ c)) as [Er|Er]; cbn [negb].
    + replace (send_ c + ret) with BUF_LEN in Es by lia. rewrite Z.mod_same in Es by (pose proof BUF_LEN_pos; lia).
      rewrite <- Ec. destruct (send_rest_ok es c1 k1 H1) as (r & e & c' & k' & -> & H' & Ev & Hl & _); [lia|].
      rewrite Ev1 in Ev. do 4 eexists. split; [done|]. done.
    + do 4 eexists. split; [done|]. split; [done|]. split; [done|]. split; [|done].
      intros _ E. destruct (some_wait c1 (client_buf _ _ _ H1)); [lia|done].
Qed.

(** With room there is nothing to send first. *)
Lemma tcp_send_room r c k : buf_ok c -> Z.of_nat (length r) <= buf_idle c -> woken c ->
  exists c', tcp_send r c k = Some (0, c', k) /\ buf_ok c' /\ waiting c' = waiting c ++ r /\ lost_event c' = lost_event c /\ woken c'.
Proof using.
  intros Hb Hl Hwk. unfold tcp_send. rewrite (proj2 (Z.ltb_ge _ _)) by done. cbn [mbind option_bind].
  rewrite (proj2 (Z.leb_le _ _)) by done. destruct (buf_write_ok r c Hb Hl) as (c' & -> & Hb' & Hw' & Ev & El). cbn [mbind option_bind].
  eexists. split; [done|]. unfold woken. rewrite Ev. destruct (Z.eqb_spec (Z.land (events c) EPOLLOUT) 0) as [E|E].
  - rewrite andb_true_r. destruct (Hwk E) as [Ew _]. rewrite (proj2 (empty_waiting c Hb)) by done.
    split; [done|]. split; [done|]. split; [done|]. cbn. intros E'. exfalso. rewrite Z.land_lor_distr_l in E'.
    apply Z.lor_eq_0_iff in E' as [_ E']. done.
  - rewrite andb_false_r, Ev. done.
Qed.

(** Offering an event: it is put on the stream or counted, or the connection is dropped. *)
Lemma tcp_send_ok es r c k : client_ok es c k -> woken c -> Z.of_nat (length r) < BUF_LEN -> Z.of_nat (length es) < 2 ^ 64 - 1 ->
  exists ret c' k', tcp_send r c k = Some (ret, c', k') /\ woken c' /\
    (ret = -1 /\ client_ok es c' k' \/ ret = 0 /\ client_ok (es ++ [r]) c' k').
Proof.
  intros H Hwk Hr Hes. unfold tcp_send.
  assert (exists failed c1 k1, (if buf_idle c <? Z.of_nat (length r) then
             '(ret, err, c, k) ← buf_send c k; Some ((ret <? 0) && negb (err =? EAGAIN), c, k) else Some (false, c, k))
            = Some (failed, c1, k1) /\ client_ok es c1 k1 /\ woken c1) as (failed & c1 & k1 & -> & H1 & Hwk1).
  { destruct (Z.ltb_spec (buf_idle c) (Z.of_nat (length r))); [|by exists false, c, k].
    destruct (buf_send_ok es c k H) as (ret & err & c' & k' & -> & H' & Ev & _ & Hno). cbn.
    do 3 eexists. split; [done|]. split; [done|]. unfold woken. rewrite Ev. intros E. destruct (Hwk E). by apply Hno. }
  cbn [mbind option_bind]. destruct failed; [exists (-1), c1, k1; auto|].
  pose proof H1 as [Hb Hs Hl]. destruct (buf_facts c1 Hb) as (Hcnt & Ei & Hw).
  destruct (Z.leb_spec (Z.of_nat (length r)) (buf_idle c1)).
  - destruct (tcp_send_room r c1 k1 Hb ltac:(done) Hwk1) as (c' & E & Hb' & Hw' & El & Hwk').
    unfold tcp_send in E. rewrite (proj2 (Z.ltb_ge _ _)) in E by done. cbn [mbind option_bind] in E.
    rewrite (proj2 (Z.leb_le _ _)) in E by done.
    rewrite E. do 3 eexists. split; [done|]. split; [done|]. right. split; [done|].
    split; [done| |by rewrite El]. rewrite Hw', El. by apply spooled_put.
  - do 3 eexists. split; [done|]. split.
    + intros E. destruct (Hwk1 E) as [Ew _]. rewrite Ew in Hw. cbn in Hw. lia.
    + right. split; [done|]. pose proof (spooled_small _ _ _ _ _ Hs).
      split; [done| |done]. cbn [lost_event with_lost lost_more lost].
      rewrite u64_small by lia. by apply spooled_missed.
Qed.
End client.

(** ** A connection over time

    What happens to a connection: an event is offered, or the socket takes more; with what
    the socket answers to the calls of [send] that follow. *)

Inductive conn_op :=
  | Offer (r : list Z) (ans : list answer)
  | Ready (ans : list answer).

Definition with_answers (ans : list answer) (x : conn) : conn :=
  Conn (cli x) (Sink ans (wire (peer x))) (linked x) (alive x).

(** The connection after, and the event if it was taken or counted. *)
Definition conn_step (o : conn_op) (x : conn) : option (conn * list (list Z)) :=
  match o with
  | Offer r ans =>
      if linked x then
        x ← send_conn r (with_answers ans x);
        Some (x, if linked x then [r] else [])
      else Some (x, [])
  | Ready ans =>
      if alive x then x ← handle_out (with_answers ans x); Some (x, []) else Some (x, [])
  end.

Fixpoint conn_run (os : list conn_op) (x : conn) : option (conn * list (list Z)) :=
  match os with
  | [] => Some (x, [])
  | o :: os =>
      '(x, es) ← conn_step o x;
      '(x, fs) ← conn_run os x;
      Some (x, es ++ fs)
  end.

Definition offered (os : list conn_op) : list (list Z) :=
  omap (fun o => match o with Offer r _ => Some r | Ready _ => None end) os.

Section run.
Context (start : list Z).

(** A connection of the list is never left with bytes that wait and nothing to send them. *)
Record conn_ok (es : list (list Z)) (x : conn) : Prop := {
  conn_client : client_ok start es (cli x) (peer x);
  conn_woken : linked x = true -> woken (cli x) /\ alive x = true
}.

Lemma handle_out_ok es x : conn_ok es x -> alive x = true ->
  exists x', handle_out x = Some x' /\ conn_ok es x' /\ (linked x' = true -> linked x = true).
Proof.
  intros [H Hw] Ha. unfold handle_out.
  destruct (buf_send_ok start es _ _ H) as (ret & err & c' & k' & -> & H' & Ev & Hl & Hno). cbn [mbind option_bind].
  assert (linked x = true -> woken c') as Hw'.
  { intros [Hwk _]%Hw. unfold woken. rewrite Ev. intros E. destruct (Hwk E). by apply Hno. }
  destruct (Z.ltb_spec ret 0); [destruct (negb _)|destruct (buf_is_empty c') eqn:Ee]; (eexists; split; [done|]; split; [|done]).
  - by split.
  - split; [done|]. cbn. auto.
  - apply (empty_waiting _ (client_buf _ _ _ _ H')) in Ee. split; [|split; [intros _; by split; [|apply Hl]|done]].
    destruct H' as [H1 H2 H3]. cbn. by split.
  - split; [done|]. cbn. auto.
Qed.

Lemma send_conn_ok es r x : conn_ok es x -> linked x = true ->
  Z.of_nat (length r) < BUF_LEN -> Z.of_nat (length es) < 2 ^ 64 - 1 ->
  exists x', send_conn r x = Some x' /\ conn_ok (es ++ if linked x' then [r] else []) x'.
Proof.
  intros [H Hw] Hl Hr Hn. destruct (Hw Hl) as [Hwk Ha]. unfold send_conn.
  destruct (tcp_send_ok start es r _ _ H Hwk Hr Hn) as (ret & c' & k' & -> & Hwk' & [[-> H']|[-> H']]);
    cbn [mbind option_bind]; rewrite Hl; cbn; (eexists; split; [done|]); cbn.
  - rewrite app_nil_r. split; [done|]. done.
  - split; [done|]. cbn. auto.
Qed.

Lemma conn_run_ok os es x : conn_ok es x -> Forall (fun r => Z.of_nat (length r) < BUF_LEN) (offered os) ->
  Z.of_nat (length es + length os) < 2 ^ 64 - 1 ->
  exists x' es', conn_run os x = Some (x', es') /\ conn_ok (es ++ es') x' /\ es' `prefix_of` offered os /\
    (linked x = false -> es' = [] /\ linked x' = false) /\ (linked x' = true -> es' = offered os).
Proof.
  revert es x. induction os as [|o os IH]; intros es x H Hr Hn.
  { exists x, []. rewrite app_nil_r. split; [done|]. auto. }
  assert (exists x1 es1, conn_step o x = Some (x1, es1) /\ conn_ok (es ++ es1) x1 /\ (length es1 <= 1)%nat /\
            (linked x = false -> es1 = [] /\ linked x1 = false) /\
            (if linked x1 then es1 = offered [o] else es1 = [])) as (x1 & es1 & E1 & H1 & L1 & Hf1 & Ht1).
  { destruct o as [r ans|ans]; cbn.
    - destruct (linked x) eqn:El.
      2: { exists x, []. rewrite app_nil_r, El. split; [done|]. split; [done|]. split; [cbn; lia|]. done. }
      destruct (send_conn_ok es r (with_answers ans x)) as (x1 & -> & H1);
        [by destruct H as [[H2 H3 H4] H5]; split; [split|]|done|by inversion Hr|cbn in Hn; lia|].
      cbn. do 2 eexists. split; [done|]. split; [exact H1|]. destruct (linked x1); (split; [cbn; lia|]); done.
    - destruct (alive x) eqn:Ea.
      2: { exists x, []. rewrite app_nil_r. split; [done|]. split; [done|]. split; [cbn; lia|].
           split; [done|]. by destruct (linked x). }
      destruct (handle_out_ok es (with_answers ans x)) as (x1 & -> & H1 & Hlk); [by destruct H as [[H2 H3 H4] H5]; split; [split|]|done|].
      cbn. do 2 eexists. rewrite app_nil_r. split; [done|]. split; [exact H1|]. split; [cbn; lia|].
      split; [|by destruct (linked x1)]. intros El. split; [done|]. destruct (linked x1); [|done]. cbn in Hlk. rewrite <- El. symmetry. auto. }
  destruct (IH (es ++ es1) x1 H1) as (x2 & es2 & E2 & H2 & P2 & Hf2 & Ht2).
  { destruct o; [by inversion Hr|done]. }
  { rewrite length_app. cbn in Hn. lia. }
  exists x2, (es1 ++ es2). cbn [conn_run]. rewrite E1. cbn [mbind option_bind]. rewrite E2. split; [done|]. rewrite app_assoc. split; [done|].
  assert (offered (o :: os) = offered [o] ++ offered os) as -> by (destruct o; done).
  destruct (linked x1) eqn:El1.
  - subst es1. split; [by apply prefix_app|]. split; [by intros [??]%Hf1|]. intros E. by rewrite (Ht2 E).
  - destruct (Hf2 eq_refl) as [-> El2]. subst es1. split; [apply prefix_nil|]. split; [done|]. by rewrite El2.
Qed.
End run.
