(* ===== verification/CdevSend.v ===== *)
(** * Sending events over a character device (event-spread.c)

    A device of virtio-ports that events are pushed to.  It has a circular buffer and a
    count of lost events like a TCP client ([TcpSend]), filled and emptied by other code,
    and starts anew when the host hangs up. *)

From S2P Require Import Prelude Bytes Mmap Circ Wire TcpSend.

Definition EPOLLET : Z := Z.shiftl 1 31.

(** [struct cdev_block], the part that sends, and the events the program waits for. *)
Record cdev_block := CdevBlock {
  connected : bool;
  cdev_lost : perf_record_lost;
  cdev_buf : list Z;
  head : Z;
  tail : Z;
  epoll : Z
}.

Definition cdev_put (b : list Z) (h : Z) (c : cdev_block) : cdev_block :=
  CdevBlock (connected c) (cdev_lost c) b h (tail c) (epoll c).
Definition cdev_tail (t : Z) (c : cdev_block) : cdev_block :=
  CdevBlock (connected c) (cdev_lost c) (cdev_buf c) (head c) t (epoll c).
Definition cdev_count (l : perf_record_lost) (c : cdev_block) : cdev_block :=
  CdevBlock (connected c) l (cdev_buf c) (head c) (tail c) (epoll c).
Definition cdev_epoll (e : Z) (c : cdev_block) : cdev_block :=
  CdevBlock (connected c) (cdev_lost c) (cdev_buf c) (head c) (tail c) e.
Definition cdev_connect (x : bool) (c : cdev_block) : cdev_block :=
  CdevBlock x (cdev_lost c) (cdev_buf c) (head c) (tail c) (epoll c).

(** What [block_new] sets up. *)
Definition cdev_new (b : list Z) : cdev_block :=
  CdevBlock false no_lost b 0 0 (Z.lor (Z.lor EPOLLOUT EPOLLET) EPOLLHUP).

Definition cdev_write : Type := cdev_block -> sink -> option (cdev_block * sink).

(** [block_broadcast] to a device; [handle] is [handle_cdev_event] on [EPOLLOUT]. *)
Definition cdev_broadcast (handle : cdev_write) (r : list Z) : cdev_write := fun c k =>
  let len := Z.of_nat (length r) in
  if connected c then
    '(c, k) ← (if CIRC_SPACE (head c) (tail c) BUF_LEN <? len then handle c k else Some (c, k));
    let add := CIRC_CNT (head c) (tail c) BUF_LEN =? 0 in
    if len <=? CIRC_SPACE (head c) (tail c) BUF_LEN then
      let space := Z.min len (CIRC_SPACE_TO_END (head c) (tail c) BUF_LEN) in
      let len := len - space in
      piece ← mem_read r 0 space;
      b ← mem_write (cdev_buf c) (Z.land (head c) (BUF_LEN - 1)) piece;
      b ← (if len =? 0 then Some b else mem_write b 0 (drop (Z.to_nat space) r));
      let c := cdev_put b (Z.land (head c + space + len) (BUF_LEN - 1)) c in
      Some (if add then cdev_epoll (Z.lor EPOLLOUT EPOLLHUP) c else c, k)
    else Some (cdev_count (lost_more (cdev_lost c)) c, k)
  else Some (c, k).

(** The loop [retry]; each round takes an answer of the device or is the last. *)
Fixpoint cdev_retry (handle : cdev_write) (fuel : nat) (c : cdev_block) (k : sink) : option (cdev_block * sink) :=
  match fuel with
  | O => None
  | S fuel =>
      let cnt := CIRC_CNT_TO_END (head c) (tail c) BUF_LEN in
      if cnt =? 0 then Some (cdev_epoll EPOLLHUP c, k)
      else
        bs ← mem_read (cdev_buf c) (Z.land (tail c) (BUF_LEN - 1)) cnt;
        let '(wr, _, k) := sink_write bs k in
        if wr <=? 0 then Some (c, k)
        else
          let c := cdev_tail (Z.land (tail c + wr) (BUF_LEN - 1)) c in
          '(c, k) ← (if (0 <? lost (cdev_lost c)) && (SIZEOF_LOST <=? wr) then
                       '(c, k) ← cdev_broadcast handle (lost_bytes (cdev_lost c)) c k;
                       Some (cdev_count (lost_told (cdev_lost c)) c, k)
                     else Some (c, k));
          cdev_retry handle fuel c k
  end.

(** A list of broadcasts in order. *)
Fixpoint cdev_broadcasts (handle : cdev_write) (rs : list (list Z)) : cdev_write := fun c k =>
  match rs with
  | [] => Some (c, k)
  | r :: rs => '(c, k) ← cdev_broadcast handle r c k; cdev_broadcasts handle rs c k
  end.

(** [handle_cdev_event] on [EPOLLOUT].  [header] is what [cdev_write_header] writes, and
    [flushed] the events that [prof_dev_flush] broadcasts there.  A broadcast made here may
    need the handler for room, and that one's own broadcast never does. *)
Fixpoint cdev_writable (depth : nat) (header flushed : list (list Z)) (c : cdev_block) (k : sink)
  : option (cdev_block * sink) :=
  match depth with
  | O => None
  | S depth =>
      let handle := cdev_writable depth header [] in
      '(c, k) ← (if negb (connected c) then cdev_broadcasts handle (header ++ flushed) (cdev_connect true c) k
                 else Some (c, k));
      cdev_retry handle (S (length (answers k))) c k
  end.

Definition cdev_depth : nat := 3.

Definition handle_cdev_out (header flushed : list (list Z)) : cdev_write := cdev_writable cdev_depth header flushed.
Definition broadcast_cdev (header : list (list Z)) (r : list Z) : cdev_write :=
  cdev_broadcast (cdev_writable cdev_depth header []) r.

(** [handle_cdev_event] on [EPOLLHUP]: what was to be sent is dropped, and a device that
    was connected is opened again; [reopened] says whether that works. *)
Definition handle_cdev_hup (reopened : bool) (c : cdev_block) : option cdev_block :=
  let events := Z.lor (Z.lor EPOLLOUT EPOLLET) EPOLLHUP in
  let c0 := CdevBlock (connected c) no_lost (cdev_buf c) 0 0 (epoll c) in
  if connected c then
    if reopened then Some (cdev_epoll events (cdev_connect false c0)) else None
  else Some c0.

(** ** The device, seen from outside *)

Definition cdev_waiting (c : cdev_block) : list Z := held (cdev_buf c) (tail c) (head c).
Definition cdev_ring (c : cdev_block) : Prop := ring_ok (cdev_buf c) (tail c) (head c).

Section cdev.
Context (start : list Z).

Record cdev_ok (es : list (list Z)) (c : cdev_block) (k : sink) : Prop := {
  cdev_is_ring : cdev_ring c;
  cdev_connected : connected c = true;
  cdev_spool : spooled start es (wire k) (cdev_waiting c) (lost (cdev_lost c));
  cdev_lost_type : 0 < lost (cdev_lost c) -> cdev_lost c = PerfRecordLost RECORD_LOST 0 SIZEOF_LOST 0 (lost (cdev_lost c))
}.

(** The program is woken when the device takes more, if bytes wait. *)
Definition cdev_woken (c : cdev_block) : Prop := cdev_waiting c <> [] -> Z.land (epoll c) EPOLLOUT <> 0.

Lemma mask_small x : 0 <= x < BUF_LEN -> Z.land x (BUF_LEN - 1) = x.
Proof. intros. rewrite land_size. by apply Z.mod_small. Qed.

Lemma cdev_facts c : cdev_ring c -> let n := CIRC_CNT (head c) (tail c) BUF_LEN in
  0 <= n < BUF_LEN /\ CIRC_SPACE (head c) (tail c) BUF_LEN = BUF_LEN - 1 - n /\ Z.of_nat (length (cdev_waiting c)) = n.
Proof. intros (? & _ & ? & ?)%ring_facts. done. Qed.

(** The part of [block_broadcast] after the room is made. *)
Definition put_event (r : list Z) (c c' : cdev_block) : Prop :=
  cdev_ring c' /\ cdev_waiting c' = cdev_waiting c ++ r /\ connected c' = connected c /\
  cdev_lost c' = cdev_lost c /\ (cdev_woken c -> cdev_woken c').

Lemma cdev_put_ok handle r c k : cdev_ring c -> connected c = true ->
  Z.of_nat (length r) <= CIRC_SPACE (head c) (tail c) BUF_LEN ->
  exists c', cdev_broadcast handle r c k = Some (c', k) /\ put_event r c c'.
Proof.
  intros Hc Hx Hl. pose proof Hc as [Hb Ht Hh]. destruct (cdev_facts c Hc) as (Hn & Es & Hw).
  unfold cdev_broadcast. rewrite Hx, (proj2 (Z.ltb_ge _ _)) by done. cbn [mbind option_bind].
  rewrite (proj2 (Z.leb_le _ _)) by done. rewrite (mask_small (head c)) by done.
  destruct (ring_put _ _ _ r Hc Hl) as (b1 & b2 & H1 & H2 & Hok & Eq).
  pose proof (space_to_end_ok (tail c) (CIRC_CNT (head c) (tail c) BUF_LEN) Ht Hn) as Ee.
  destruct (ring_facts _ _ _ Hc) as (_ & Eh & _ & _). rewrite <- Eh in Ee. rewrite Ee.
  replace (Z.min (Z.of_nat (length r)) (Z.min _ _)) with (Z.min (Z.of_nat (length r)) (BUF_LEN - head c)) by ring_lia.
  set (s := Z.min (Z.of_nat (length r)) (BUF_LEN - head c)) in *. assert (0 <= s <= Z.of_nat (length r)) as Hs by ring_lia.
  assert (mem_read r 0 s = Some (take (Z.to_nat s) r)) as -> by (apply mem_read_Some; rewrite drop_0; split_and!; [lia..|done]).
  cbn [mbind option_bind]. rewrite H1. cbn [mbind option_bind].
  assert ((if Z.of_nat (length r) - s =? 0 then Some b1 else mem_write b1 0 (drop (Z.to_nat s) r)) = Some b2) as ->.
  { destruct (Z.eqb_spec (Z.of_nat (length r) - s) 0); [|done]. rewrite drop_ge in H2 by ring_lia.
    apply mem_write_Some in H2 as (_ & _ & ->). by rewrite drop_0. }
  cbn [mbind option_bind].
  replace (head c + s + (Z.of_nat (length r) - s)) with (head c + Z.of_nat (length r)) by lia. rewrite land_size.
  eexists. split; [done|]. clearbody s. destruct (Z.eqb_spec (CIRC_CNT (head c) (tail c) BUF_LEN) 0) as [E0|E0].
  - by split_and!.
  - split_and!; [done|exact Eq|done|done|]. intros Hwk _. apply Hwk. intros E. rewrite E in Hw. done.
Qed.

Lemma cdev_lost_put handle es c k : cdev_ok es c k -> 0 < lost (cdev_lost c) ->
  SIZEOF_LOST <= CIRC_SPACE (head c) (tail c) BUF_LEN ->
  exists c', cdev_broadcast handle (lost_bytes (cdev_lost c)) c k = Some (c', k) /\
    cdev_ok es (cdev_count (lost_told (cdev_lost c')) c') k /\ (cdev_woken c -> cdev_woken c').
Proof.
  intros [Hr Hx Hs Hl] Hp Hsp.
  destruct (cdev_put_ok handle (lost_bytes (cdev_lost c)) c k) as (c' & -> & Hr' & Hw' & Hx' & El' & Hwk'); [done..|by rewrite length_lost|].
  exists c'. split; [done|]. split; [|done]. split; [done|by rewrite <- Hx|..].
  - change (cdev_waiting (cdev_count _ c')) with (cdev_waiting c'). rewrite Hw'.
    rewrite (Hl Hp) at 1. by apply spooled_count.
  - cbn. lia.
Qed.

(** Emptying the buffer keeps the stream. *)
Lemma cdev_retry_ok handle fuel es c k : cdev_ok es c k -> cdev_woken c -> (length (answers k) < fuel)%nat ->
  exists c' k', cdev_retry handle fuel c k = Some (c', k') /\ cdev_ok es c' k' /\ cdev_woken c'.
Proof.
  revert c k. induction fuel as [|fuel IH]; intros c k H Hwk Hf; [lia|]. pose proof H as [Hr Hx Hs Hl].
  destruct (cdev_facts c Hr) as (Hn & _ & Hw). pose proof Hr as [_ Ht _]. cbn [cdev_retry].
  pose proof (cnt_to_end_ok (tail c) (CIRC_CNT (head c) (tail c) BUF_LEN) Ht Hn) as Ee.
  destruct (ring_facts _ _ _ Hr) as (_ & Eh & _ & _). rewrite <- Eh in Ee. rewrite Ee.
  set (n := CIRC_CNT (head c) (tail c) BUF_LEN) in *. clear Eh.
  destruct (Z.eqb_spec (Z.min n (BUF_LEN - tail c)) 0) as [E0|E0].
  { do 2 eexists. split; [done|]. split; [by split|]. intros Hne. destruct Hne.
    apply length_zero_iff_nil. change (cdev_waiting _) with (cdev_waiting c). lia. }
  rewrite mask_small by done. set (m := Z.min n (BUF_LEN - tail c)) in *.
  rewrite (ring_piece _ _ _ m Hr) by lia. fold (cdev_waiting c). cbn [mbind option_bind].
  destruct k as [[|[p|e] a] w]; unfold sink_write; cbn [answers wire]; [by do 2 eexists| |by do 2 eexists].
  rewrite length_take. replace (Z.of_nat (Z.to_nat m `min` length (cdev_waiting c))) with m by lia.
  set (wr := Z.min (Z.pos p) m). assert (0 < wr <= m) as Hwr by lia. clearbody wr.
  rewrite (proj2 (Z.leb_gt wr 0)) by lia. rewrite land_size.
  destruct (ring_take _ _ _ wr Hr) as (Hr' & En & Ew); [lia|].
  set (c1 := cdev_tail ((tail c + wr) mod BUF_LEN) c).
  assert (cdev_ok es c1 (Sink a (w ++ take (Z.to_nat wr) (take (Z.to_nat m) (cdev_waiting c))))) as H1.
  { split; [done|done| |done]. rewrite take_take, Nat.min_l by lia.
    change (cdev_waiting c1) with (held (cdev_buf c) ((tail c + wr) mod BUF_LEN) (head c)). rewrite Ew. by apply spooled_sent. }
  assert (cdev_woken c1) as Hwk1.
  { intros _. apply Hwk. intros E. rewrite E in Hw. cbn in Hw. lia. }
  change (cdev_lost c1) with (cdev_lost c). unfold SIZEOF_LOST.
  destruct (Z.ltb_spec 0 (lost (cdev_lost c))); [destruct (Z.leb_spec 24 wr)|]; cbn [andb].
  - destruct (cdev_lost_put handle es _ _ H1) as (c2 & E2 & K2 & Hwk2); [done| |].
    { destruct (cdev_facts c1 (cdev_is_ring _ _ _ H1)) as (_ & -> & _). unfold c1. cbn. rewrite En. unfold SIZEOF_LOST. lia. }
    change (cdev_lost c1) with (cdev_lost c) in E2. rewrite E2. cbn [mbind option_bind].
    apply IH; [done|by apply Hwk2|cbn in *; lia].
  - apply IH; [done..|cbn in *; lia].
  - apply IH; [done..|cbn in *; lia].
Qed.

(** A handler that only empties the buffer. *)
Definition empties (handle : cdev_write) : Prop := forall es c k, cdev_ok es c k -> cdev_woken c ->
  exists c' k', handle c k = Some (c', k') /\ cdev_ok es c' k' /\ cdev_woken c'.

Lemma cdev_writable_empties depth header flushed : empties (cdev_writable (S depth) header flushed).
Proof.
  intros es c k H Hwk. cbn [cdev_writable]. rewrite (cdev_connected _ _ _ H). cbn [negb mbind option_bind].
  apply cdev_retry_ok; [done..|lia].
Qed.

(** Broadcasting an event puts it on the stream or counts it. *)
Lemma cdev_broadcast_ok handle es r c k : empties handle -> cdev_ok es c k -> cdev_woken c ->
  Z.of_nat (length r) < BUF_LEN -> Z.of_nat (length es) < 2 ^ 64 - 1 ->
  exists c' k', cdev_broadcast handle r c k = Some (c', k') /\ cdev_ok (es ++ [r]) c' k' /\ cdev_woken c'.
Proof.
  intros Hh H Hwk Hr Hes.
  assert (exists c1 k1, (if CIRC_SPACE (head c) (tail c) BUF_LEN <? Z.of_nat (length r) then handle c k else Some (c, k)) = Some (c1, k1) /\
            cdev_ok es c1 k1 /\ cdev_woken c1) as (c1 & k1 & E1 & H1 & Hwk1).
  { destruct (Z.ltb_spec (CIRC_SPACE (head c) (tail c) BUF_LEN) (Z.of_nat (length r))); [by apply Hh|by do 2 eexists]. }
  destruct (decide (Z.of_nat (length r) <= CIRC_SPACE (head c1) (tail c1) BUF_LEN)) as [Hl|Hl].
  - destruct (cdev_put_ok handle r c1 k1 (cdev_is_ring _ _ _ H1) (cdev_connected _ _ _ H1) Hl) as (c' & E & Hr' & Hw' & Hx' & El' & Hwk').
    exists c', k1. unfold cdev_broadcast in E |- *. rewrite (cdev_connected _ _ _ H), E1. cbn [mbind option_bind].
    rewrite (cdev_connected _ _ _ H1), (proj2 (Z.ltb_ge _ _)) in E by done. cbn [mbind option_bind] in E.
    split; [exact E|]. destruct H1 as [H2 H3 H4 H5]. split; [|by apply Hwk']. split; [done|by rewrite Hx'| |by rewrite El'].
    rewrite Hw', El'. by apply spooled_put.
  - unfold cdev_broadcast. rewrite (cdev_connected _ _ _ H), E1. cbn [mbind option_bind].
    rewrite (proj2 (Z.leb_gt _ _)) by lia. do 2 eexists. split; [done|].
    destruct H1 as [H2 H3 H4 H5]. split; [|done]. pose proof (spooled_small _ _ _ _ _ H4).
    split; [done|done| |done]. cbn [cdev_count cdev_lost lost_more lost].
    rewrite u64_small by lia. by apply spooled_missed.
Qed.

Lemma cdev_broadcasts_ok handle rs es c k : empties handle -> cdev_ok es c k -> cdev_woken c ->
  Forall (fun r => Z.of_nat (length r) < BUF_LEN) rs -> Z.of_nat (length es + length rs) < 2 ^ 64 - 1 ->
  exists c' k', cdev_broadcasts handle rs c k = Some (c', k') /\ cdev_ok (es ++ rs) c' k' /\ cdev_woken c'.
Proof.
  intros Hh. revert es c k. induction rs as [|r rs IH]; intros es c k H Hwk Hr Hes.
  { exists c, k. by rewrite app_nil_r. }
  inversion Hr; subst. cbn in Hes.
  destruct (cdev_broadcast_ok handle es r c k) as (c1 & k1 & E1 & H1 & Hwk1); [done..|lia|].
  cbn. rewrite E1. cbn. destruct (IH (es ++ [r]) c1 k1 H1 Hwk1) as (c' & k' & -> & H' & Hwk'); [done|rewrite length_app; cbn; lia|].
  exists c', k'. by rewrite <- app_assoc in H'.
Qed.
End cdev.

(** ** A connection of the device *)

Lemma cdev_broadcasts_app handle rs rs' c k : cdev_broadcasts handle (rs ++ rs') c k =
  ('(c, k) ← cdev_broadcasts handle rs c k; cdev_broadcasts handle rs' c k).
Proof.
  revert c k. induction rs as [|r rs IH]; intros c k; cbn; [done|].
  destruct (cdev_broadcast handle r c k) as [[c1 k1]|]; [apply IH|done].
Qed.

(** What is broadcast while there is room. *)
Lemma cdev_puts_ok handle rs c k : cdev_ring c -> connected c = true -> cdev_woken c ->
  Z.of_nat (length (concat rs)) <= CIRC_SPACE (head c) (tail c) BUF_LEN ->
  exists c', cdev_broadcasts handle rs c k = Some (c', k) /\ cdev_ring c' /\ cdev_waiting c' = cdev_waiting c ++ concat rs /\
    connected c' = true /\ cdev_lost c' = cdev_lost c /\ cdev_woken c'.
Proof.
  revert c. induction rs as [|r rs IH]; intros c Hr Hx Hwk Hl.
  { exists c. by rewrite app_nil_r. }
  cbn [concat] in Hl. rewrite length_app in Hl.
  destruct (cdev_put_ok handle r c k Hr Hx) as (c1 & E1 & Hr1 & Hw1 & Hx1 & El1 & Hwk1); [lia|].
  cbn [cdev_broadcasts]. rewrite E1. cbn [mbind option_bind]. rewrite Hx in Hx1.
  destruct (IH c1 Hr1 Hx1 (Hwk1 Hwk)) as (c2 & -> & Hr2 & Hw2 & Hx2 & El2 & Hwk2).
  { destruct (cdev_facts c Hr) as (_ & Es & Ew), (cdev_facts c1 Hr1) as (_ & -> & Ew1). rewrite Es in Hl.
    rewrite Hw1, length_app in Ew1. lia. }
  exists c2. split; [done|]. split; [done|]. rewrite Hw2, Hw1, <- app_assoc. split; [done|]. split; [done|]. split; [congruence|done].
Qed.

(** The host connects: its stream starts with the description of the events. *)
Lemma cdev_connect_ok header flushed c ans : cdev_ring c -> connected c = false -> cdev_waiting c = [] -> cdev_lost c = no_lost ->
  Z.of_nat (length (concat header)) < BUF_LEN -> Forall (fun r => Z.of_nat (length r) < BUF_LEN) flushed ->
  Z.of_nat (length flushed) < 2 ^ 64 - 1 ->
  exists c' k', handle_cdev_out header flushed c (Sink ans []) = Some (c', k') /\ cdev_ok (concat header) flushed c' k' /\ cdev_woken c'.
Proof.
  intros Hr Hx Hw El Hh Hf Hn. unfold handle_cdev_out, cdev_depth.
  change (cdev_writable 3 header flushed c (Sink ans [])) with
    ('(c, k) ← (if negb (connected c) then cdev_broadcasts (cdev_writable 2 header []) (header ++ flushed) (cdev_connect true c) (Sink ans [])
                 else Some (c, Sink ans [])); cdev_retry (cdev_writable 2 header []) (S (length (answers k))) c k).
  rewrite Hx. cbn [negb]. pose proof (cdev_writable_empties (concat header) 1 header []) as Hem.
  destruct (cdev_puts_ok (cdev_writable 2 header []) header (cdev_connect true c) (Sink ans []))
    as (c1 & E1 & Hr1 & Hw1 & Hx1 & El1 & Hwk1); [done|done| |..].
  { intros Hne. by destruct Hne. }
  { destruct (cdev_facts c Hr) as (_ & Es & Ew). rewrite Hw in Ew. cbn [connected cdev_connect head tail]. rewrite Es, <- Ew. cbn [length]. lia. }
  change (cdev_waiting (cdev_connect true c)) with (cdev_waiting c) in Hw1. rewrite Hw in Hw1. cbn [app] in Hw1.
  change (cdev_lost (cdev_connect true c)) with (cdev_lost c) in El1. rewrite El in El1.
  rewrite cdev_broadcasts_app, E1. cbn [mbind option_bind].
  assert (cdev_ok (concat header) [] c1 (Sink ans [])) as H1.
  { split; [done|done| |by rewrite El1]. rewrite Hw1, El1. apply spooled_new. }
  destruct (cdev_broadcasts_ok (concat header) _ flushed [] c1 _ Hem H1 Hwk1 Hf) as (c2 & k2 & -> & H2 & Hwk2); [cbn; lia|].
  cbn [mbind option_bind]. apply cdev_retry_ok; [done..|lia].
Qed.

(** A new device, and one whose host has hung up, are ready for the next host. *)
Lemma cdev_new_ready b : Z.of_nat (length b) = BUF_LEN ->
  cdev_ring (cdev_new b) /\ connected (cdev_new b) = false /\ cdev_waiting (cdev_new b) = [] /\ cdev_lost (cdev_new b) = no_lost.
Proof. intros Hb. split; [|done]. split; cbn; rewrite ?BUF_LEN_val in *; lia. Qed.

Lemma cdev_hup_ready c c' : cdev_ring c -> handle_cdev_hup true c = Some c' ->
  cdev_ring c' /\ connected c' = false /\ cdev_waiting c' = [] /\ cdev_lost c' = no_lost.
Proof.
  intros [Hb _ _] E. assert (ring_ok (cdev_buf c) 0 0) as H0 by (split; rewrite ?BUF_LEN_val in *; lia).
  unfold handle_cdev_hup in E. destruct (connected c) eqn:Ex; injection E as <-; done.
Qed.

(** Events broadcast, and times when the device takes more. *)
Definition cdev_step (header : list (list Z)) (o : conn_op) (c : cdev_block) (k : sink) : option (cdev_block * sink) :=
  match o with
  | Offer r ans => broadcast_cdev header r c (Sink ans (wire k))
  | Ready ans => handle_cdev_out header [] c (Sink ans (wire k))
  end.

Fixpoint cdev_run (header : list (list Z)) (os : list conn_op) (c : cdev_block) (k : sink) : option (cdev_block * sink) :=
  match os with
  | [] => Some (c, k)
  | o :: os => '(c, k) ← cdev_step header o c k; cdev_run header os c k
  end.

Lemma cdev_run_ok start header os es c k : cdev_ok start es c k -> cdev_woken c ->
  Forall (fun r => Z.of_nat (length r) < BUF_LEN) (offered os) -> Z.of_nat (length es + length os) < 2 ^ 64 - 1 ->
  exists c' k', cdev_run header os c k = Some (c', k') /\ cdev_ok start (es ++ offered os) c' k' /\ cdev_woken c'.
Proof.
  revert es c k. induction os as [|o os IH]; intros es c k H Hwk Hr Hn.
  { exists c, k. by rewrite app_nil_r. }
  assert (forall ans, cdev_ok start es c (Sink ans (wire k))) as Hs by (intros ans; by destruct H; split).
  cbn [cdev_run]. destruct o as [r ans|ans]; cbn [cdev_step].
  - inversion Hr; subst. unfold broadcast_cdev, cdev_depth.
    destruct (cdev_broadcast_ok start _ es r c (Sink ans (wire k)) (cdev_writable_empties start 2 header []) (Hs ans) Hwk)
      as (c1 & k1 & -> & H1 & Hwk1); [done|lia|]. cbn [mbind option_bind].
    destruct (IH (es ++ [r]) c1 k1 H1 Hwk1) as (c2 & k2 & -> & K2 & Hwk2); [done|rewrite length_app; cbn in *; lia|].
    exists c2, k2. split; [done|]. split; [|done]. by rewrite <- app_assoc in K2.
  - destruct (cdev_writable_empties start 2 header [] es c (Sink ans (wire k)) (Hs ans) Hwk) as (c1 & k1 & E1 & H1 & Hwk1).
    unfold handle_cdev_out, cdev_depth. rewrite E1. cbn [mbind option_bind]. apply IH; [done..|cbn in *; lia].
Qed.
