(* ===== verification/PullEvent.v ===== *)
(** * An event of another host (event-spread.c)

    What is done with one record a peer sends: the record that describes the peer's event
    is compared with the local one, and the fields of a sample that name things of the
    peer - identifiers, and for a guest its processors - are rewritten to local ones, in
    the buffer the record came in. *)

From S2P Require Import Prelude CpuMap Bytes Mmap Convert Watermark.

(** ** The threads of a device (lib/perf/threadmap.c) *)

Fixpoint thread_idx_loop (threads : list Z) (pid i : Z) : Z :=
  match threads with
  | [] => -1
  | p :: threads => if p =? pid then i else thread_idx_loop threads pid (i + 1)
  end.

Definition perf_thread_map__idx (threads : list Z) (pid : Z) : Z := thread_idx_loop threads pid 0.

(** ** The tracepoint *)

(** [struct perf_evsel]; [sample_id] is the array of identifiers by processor and thread. *)
Record perf_evsel := PerfEvsel { eattr : sample_attr; sample_id : list (list Z); system_wide : bool }.

(** [xyarray__entry] gives null outside the array. *)
Definition perf_evsel__get_id (e : perf_evsel) (cpu thread : Z) : Z :=
  let thread := if system_wide e then 0 else thread in
  default 0 (row ← sample_id e !! Z.to_nat cpu; row !! Z.to_nat thread).

(** [struct vcpu_data], and [struct vcpu_info] with the number of processors of each map. *)
Record vcpu_data := VcpuData { host_cpu : Z; thread_id : Z }.
Record vcpu_info := VcpuInfo { vcpus : list vcpu_data; host_cpus_nr : list Z }.

(** [struct tp] with its device, the fields used here: the names without their final zero,
    what [tep__event_size] says, whether the device is enabled, its maps and whether its
    instances are processors. *)
Record tp := Tp {
  sys : list Z;
  name : list Z;
  tp_id : Z;
  tp_event_size : Z;
  evsel : option perf_evsel;
  tp_vcpu : option vcpu_info;
  dev_enabled : bool;
  dev_cpus : list Z;
  dev_threads : list Z;
  ins_oncpu : bool
}.

(** [struct event_block], what it knows of the samples of its peer. *)
Record event_block := EventBlock {
  remote_id : Z;
  pid_pos : Z;
  bcpu_pos : Z;
  bid_pos : Z;
  stream_id_pos : Z;
  common_type_pos : Z
}.

Definition block_new : event_block := EventBlock 0 (-1) (-1) (-1) (-1) (-1).

(** ** Converting a sample *)

(** Where the fields are, found at the first sample. *)
Definition find_pos (st read_size : Z) (b : event_block) : event_block :=
  if (pid_pos b =? -1) && (bcpu_pos b =? -1) && (bid_pos b =? -1) && (stream_id_pos b =? -1) && (common_type_pos b =? -1) then
    let pos := 0 in
    let pos := if has st PERF_SAMPLE_IDENTIFIER then pos + 8 else pos in
    let pos := if has st PERF_SAMPLE_IP then pos + 8 else pos in
    let pid := if has st PERF_SAMPLE_TID then pos else -1 in
    let pos := if has st PERF_SAMPLE_TID then pos + (4 + 4) else pos in
    let pos := if has st PERF_SAMPLE_TIME then pos + 8 else pos in
    let pos := if has st PERF_SAMPLE_ADDR then pos + 8 else pos in
    let id := if has st PERF_SAMPLE_ID then pos else -1 in
    let pos := if has st PERF_SAMPLE_ID then pos + 8 else pos in
    let stream_id := if has st PERF_SAMPLE_STREAM_ID then pos else -1 in
    let pos := if has st PERF_SAMPLE_STREAM_ID then pos + 8 else pos in
    let cpu := if has st PERF_SAMPLE_CPU then pos else -1 in
    let pos := if has st PERF_SAMPLE_CPU then pos + (4 + 4) else pos in
    let pos := if has st PERF_SAMPLE_PERIOD then pos + 8 else pos in
    let pos := if has st PERF_SAMPLE_READ then pos + read_size else pos in
    EventBlock (remote_id b) pid cpu id stream_id pos
  else b.

(** The value of an optional field's write: the memory after. *)
Definition set_if (c : bool) (n : nat) (m : list Z) (off z : Z) : option (list Z) :=
  if c then set_le n m off z else Some m.

(** The processor of the sample; a processor of a guest becomes the host's, and its thread.
    The result is the processor, the indices of processor and thread and the memory. *)
Definition convert_cpu (t : tp) (b : event_block) (m : list Z) (data : Z) : option (Z * Z * Z * list Z) :=
  if bcpu_pos b =? -1 then Some (-1, 0, 0, m)
  else
    c ← get_le 4 m (data + bcpu_pos b);
    let cpu := s32 c in
    match tp_vcpu t with
    | None =>
        i ← (if ins_oncpu t then perf_cpu_map__idx (dev_cpus t) cpu else Some 0);
        Some (cpu, i, 0, m)
    | Some v =>
        if cpu <? 0 then None
        else
          d ← vcpus v !! Z.to_nat cpu;
          i ← (if ins_oncpu t then perf_cpu_map__idx (dev_cpus t) (host_cpu d) else Some 0);
          let ti := if ins_oncpu t then 0 else perf_thread_map__idx (dev_threads t) (thread_id d) in
          n ← host_cpus_nr v !! Z.to_nat cpu;
          m ← set_le 4 m (data + bcpu_pos b) (if 1 <? n then -1 else host_cpu d);
          m ← set_if (negb (pid_pos b =? -1)) 4 m (data + pid_pos b) (thread_id d);
          m ← set_if (negb (pid_pos b =? -1)) 4 m (data + pid_pos b + 4) (thread_id d);
          Some (cpu, i, ti, m)
    end.

(** The thread of the sample: its index if the sample does not come from a guest. *)
Definition convert_tid (t : tp) (b : event_block) (m : list Z) (data ti : Z) : option Z :=
  if pid_pos b =? -1 then Some ti
  else
    tid ← get_le 4 m (data + pid_pos b + 4);
    Some (if negb (bool_decide (is_Some (tp_vcpu t))) && negb (ins_oncpu t)
          then perf_thread_map__idx (dev_threads t) (s32 tid) else ti).

(** The type of the tracepoint in the raw data, and for a guest its thread. *)
Definition convert_type (t : tp) (b : event_block) (st cpu : Z) (m : list Z) (data : Z) : option (list Z) :=
  if tp_id t =? remote_id b then Some m
  else
    let pos := common_type_pos b in
    pos ← (if has st PERF_SAMPLE_CALLCHAIN then
             nr ← get_le 8 m (data + pos); Some (s32 (u64 (pos + (nr + 1) * 8)))
           else Some pos);
    if has st PERF_SAMPLE_RAW then
      let pos := pos + 4 in
      m ← set_le 2 m (data + pos) (tp_id t);
      match tp_vcpu t with
      | Some v =>
          if 0 <=? cpu then
            d ← vcpus v !! Z.to_nat cpu; set_le 4 m (data + pos + 2 + 1 + 1) (thread_id d)
          else Some m
      | None => Some m
      end
    else Some m.

(** The record is at [off] of [m]; the result is the instance, the block and the memory. *)
Definition block_event_convert (t : tp) (b : event_block) (m : list Z) (off : Z) : option (Z * event_block * list Z) :=
  match evsel t with
  | None => Some (-1, b, m)
  | Some e =>
      if speriod (eattr e) =? 0 then Some (-1, b, m)
      else
        let data := off + HEADER_SIZE in
        let st := stype (eattr e) in
        let b := find_pos st (perf_evsel__read_size (eattr e)) b in
        '(cpu, i, ti, m) ← convert_cpu t b m data;
        ti ← convert_tid t b m data ti;
        let id := perf_evsel__get_id e (if i <? 0 then 0 else i) (if ti <? 0 then 0 else ti) in
        m ← set_if (has st PERF_SAMPLE_ID) 8 m (data + bid_pos b) id;
        m ← set_if (has st PERF_SAMPLE_STREAM_ID) 8 m (data + stream_id_pos b) id;
        m ← convert_type t b st cpu m data;
        Some (if ins_oncpu t then i else ti, b, m)
  end.

(** ** The description of the peer's event *)

Definition PERF_RECORD_TP : Z := 83.
Definition PERF_RECORD_SAMPLE : Z := 9.
Definition SIZEOF_TP : Z := 40.

(** [struct perf_record_tp] without its strings. *)
Record perf_record_tp := PerfRecordTp {
  r_type : Z;
  r_misc : Z;
  r_size : Z;
  r_id : Z;
  sys_offset : Z;
  name_offset : Z;
  r_sample_period : Z;
  r_sample_type : Z;
  r_event_size : Z;
  r_unused : Z
}.

Definition tp_bytes (r : perf_record_tp) : list Z :=
  le_bytes 4 (r_type r) ++ le_bytes 2 (r_misc r) ++ le_bytes 2 (r_size r) ++ le_bytes 4 (r_id r) ++
  le_bytes 2 (sys_offset r) ++ le_bytes 2 (name_offset r) ++ le_bytes 8 (r_sample_period r) ++
  le_bytes 8 (r_sample_type r) ++ le_bytes 4 (r_event_size r) ++ le_bytes 4 (r_unused r).

Definition strlen (s : list Z) : Z := Z.of_nat (length s).

Definition perf_record_tp_init (t : tp) : option perf_record_tp :=
  e ← evsel t;
  Some (PerfRecordTp PERF_RECORD_TP 0 (u16 (SIZEOF_TP + strlen (sys t) + strlen (name t) + 2)) (tp_id t)
          SIZEOF_TP (u16 (SIZEOF_TP + strlen (sys t) + 1)) (speriod (eattr e)) (stype (eattr e))
          (tp_event_size t) 0).

(** The three pieces in which the description is sent. *)
Definition tp_header (t : tp) : list (list Z) :=
  match perf_record_tp_init t with
  | Some r => [tp_bytes r; sys t ++ [0]; name t ++ [0]]
  | None => []
  end.

(** [strcmp] of a string in memory with one of the program. *)
Fixpoint same_str (m : list Z) (off : Z) (s : list Z) : option bool :=
  match s with
  | [] => b ← get_le 1 m off; Some (b =? 0)
  | x :: s => b ← get_le 1 m off; if b =? x then same_str m (off + 1) s else Some false
  end.

(** Whether the peer's event is the local one. *)
Definition tp_matches (t : tp) (m : list Z) (off : Z) : option bool :=
  so ← get_le 2 m (off + 12);
  same ← same_str m (off + so) (sys t);
  if negb same then Some false
  else
    no ← get_le 2 m (off + 14);
    same ← same_str m (off + no) (name t);
    if negb same then Some false
    else
      match evsel t with
      | None => Some false
      | Some e =>
          if speriod (eattr e) =? 0 then Some false
          else
            sp ← get_le 8 m (off + 16);
            if sp =? 0 then Some false
            else
              st ← get_le 8 m (off + 24);
              if negb (stype (eattr e) =? st) then Some false
              else if has st PERF_SAMPLE_CALLCHAIN then Some false
              else
                es ← get_le 4 m (off + 32);
                Some (u32 (tp_event_size t) =? es)
      end.

(** ** Processing a record

    The block, and the records handed to [perf_event_process_record] with their
    instances. *)

Record pull := Pull { pblock : event_block; passed : list (list Z * Z) }.

Definition with_remote (id : Z) (b : event_block) : event_block :=
  EventBlock id (pid_pos b) (bcpu_pos b) (bid_pos b) (stream_id_pos b) (common_type_pos b).

Definition pass (m : list Z) (off ins : Z) (p : pull) : option pull :=
  size ← header_size m off;
  r ← mem_read m off size;
  Some (Pull (pblock p) (passed p ++ [(r, ins)])).

(** The first component is false when the block was freed. *)
Definition block_process_event (t : tp) (p : pull) (m : list Z) (off : Z) : option (bool * pull * list Z) :=
  ty ← header_type m off;
  if ty =? PERF_RECORD_TP then
    same ← tp_matches t m off;
    if (same : bool) then
      id ← get_le 4 m (off + 8);
      Some (true, Pull (with_remote (s32 id) (pblock p)) (passed p), m)
    else Some (false, p, m)
  else if ty =? PERF_RECORD_SAMPLE then
    if negb (dev_enabled t) then Some (true, p, m)
    else
      '(ins, b, m) ← block_event_convert t (pblock p) m off;
      let p := Pull b (passed p) in
      if ins <? 0 then Some (true, p, m)
      else p ← pass m off ins p; Some (true, p, m)
  else if negb (dev_enabled t) then Some (true, p, m)
  else p ← pass m off 0 p; Some (true, p, m).

(** ** A record within a buffer

    What is done with a record by itself is done in the same way where it lies in a buffer,
    and leaves its header alone. *)

(** The length and the header stay. *)
Definition kept (r r' : list Z) : Prop :=
  length r' = length r /\ take (Z.to_nat HEADER_SIZE) r' = take (Z.to_nat HEADER_SIZE) r.

#[export] Instance kept_preorder : PreOrder kept.
Proof. split; [done|]. intros x y z [H1 H2] [H3 H4]. split; congruence. Qed.

Lemma set_kept n m off z m' : set_le n m off z = Some m' -> HEADER_SIZE <= off -> kept m m'.
Proof.
  unfold kept, HEADER_SIZE. intros (? & ? & ->)%mem_write_Some Ho. split.
  - rewrite !length_app, length_take, length_drop. lia.
  - rewrite take_app_le by (rewrite length_take; lia). rewrite take_take. f_equal. lia.
Qed.

Section framed.
Context (pre post : list Z).

Local Notation within r := (pre ++ r ++ post).
Local Notation at_ := (Z.of_nat (length pre)).

Lemma get_framed n r o v o' : get_le n r o = Some v -> o' = at_ + o -> get_le n (within r) o' = Some v.
Proof.
  intros H ->. unfold get_le in *. apply fmap_Some in H as (bs & (H1 & H2 & H3 & Hb)%mem_read_Some & ->).
  assert (mem_read r o (Z.of_nat n) = Some bs) as E by by apply mem_read_Some.
  rewrite (mem_read_ext r (within r) (at_ + o) o); [by rewrite E|rewrite ?length_app; try lia..].
  intros i Hi. rewrite lookup_app_r, lookup_app_l by lia. f_equal. lia.
Qed.

Lemma set_framed n r o z r' o' : set_le n r o z = Some r' -> o' = at_ + o -> set_le n (within r) o' z = Some (within r').
Proof.
  intros (H1 & H2 & ->)%mem_write_Some ->. apply mem_write_Some. rewrite !length_app. split_and!; [lia..|].
  assert (Z.to_nat (at_ + o) = length pre + Z.to_nat o)%nat as -> by lia.
  rewrite take_app_add, (take_app_le r) by lia. rewrite <- !app_assoc. do 3 f_equal.
  rewrite <- Nat.add_assoc, drop_app_add, drop_app_le by lia. done.
Qed.

Lemma set_if_framed c n r o z r' o' : set_if c n r o z = Some r' -> (c = true -> o' = at_ + o) ->
  set_if c n (within r) o' z = Some (within r').
Proof. destruct c; cbn; [intros E Ho; by apply (set_framed _ _ o); [|apply Ho]|congruence]. Qed.

Lemma set_if_kept c n m off z m' : set_if c n m off z = Some m' -> (c = true -> HEADER_SIZE <= off) -> kept m m'.
Proof. destruct c; cbn; [intros E Ho; by eapply set_kept, Ho|by intros [= ->]]. Qed.

Lemma same_str_framed r s o b o' : same_str r o s = Some b -> o' = at_ + o -> same_str (within r) o' s = Some b.
Proof.
  revert o o'. induction s as [|x s IH]; cbn; intros o o' E ->.
  - destruct (get_le 1 r o) as [v|] eqn:Eg; [|done]. cbn in E. by rewrite (get_framed _ _ _ _ _ Eg).
  - destruct (get_le 1 r o) as [v|] eqn:Eg; [|done]. cbn in E. rewrite (get_framed _ _ _ _ _ Eg) by done. cbn.
    destruct (v =? x); [|done]. by eapply IH; [exact E|lia].
Qed.
End framed.

(** Positions that are inside the sample. *)
Record pos_ok (st : Z) (b : event_block) : Prop := {
  pos_cpu : bcpu_pos b = -1 \/ 0 <= bcpu_pos b;
  pos_pid : pid_pos b = -1 \/ 0 <= pid_pos b;
  pos_id : has st PERF_SAMPLE_ID = true -> 0 <= bid_pos b;
  pos_stream : has st PERF_SAMPLE_STREAM_ID = true -> 0 <= stream_id_pos b;
  pos_type : 0 <= common_type_pos b
}.

(** The positions of a block are those of its tracepoint, or not known yet. *)
Definition block_ok (st read_size : Z) (b : event_block) : Prop :=
  exists b0, (b = with_remote (remote_id b) b0) /\ (b0 = block_new \/ b0 = find_pos st read_size block_new).

Lemma found_ok st n : 0 <= n -> pos_ok st (find_pos st n block_new) /\ 0 <= common_type_pos (find_pos st n block_new).
Proof.
  intros Hn. unfold find_pos. cbn [block_new pid_pos bcpu_pos bid_pos stream_id_pos common_type_pos Z.eqb Pos.eqb andb]. cbv zeta.
  assert (forall (c : bool) p k, (if c then p + k else p) = p + k * Z.b2z c) as E by (intros []; cbn; lia).
  assert (0 <= n * Z.b2z (has st PERF_SAMPLE_READ)) as Hr by (destruct (has st PERF_SAMPLE_READ); cbn; lia).
  rewrite !E. clear E. assert (forall c, 0 <= Z.b2z c) as Hb by (intros []; cbn; lia). revert Hr.
  repeat match goal with |- context [Z.b2z ?c] => generalize (Hb c); generalize (Z.b2z c); intros end.
  split; [split|]; cbn -[Z.add Z.mul]; try (intros ->); repeat case_match; try done; lia.
Qed.

Lemma block_pos_ok st n b : 0 <= n -> block_ok st n b -> pos_ok st (find_pos st n b) /\ block_ok st n (find_pos st n b).
Proof.
  intros Hn (b0 & -> & Hb0). destruct (found_ok st n Hn) as [Hf Hc].
  assert (find_pos st n (with_remote (remote_id b) b0) = with_remote (remote_id b) (find_pos st n block_new)) as ->.
  { destruct Hb0 as [->| ->]; [done|]. unfold find_pos at 1. cbn -[find_pos].
    rewrite (proj2 (Z.eqb_neq (common_type_pos _) (-1))) by lia. by rewrite andb_false_r. }
  split; [by destruct Hf; split|]. exists (find_pos st n block_new). auto.
Qed.

(** The tracepoints whose events can be pulled: stacks are refused. *)
Definition pullable (t : tp) : Prop := forall e, evsel t = Some e ->
  has (stype (eattr e)) PERF_SAMPLE_CALLCHAIN = false /\ 0 <= perf_evsel__read_size (eattr e).

Section framed_convert.
Context (t : tp) (pre post : list Z).
Local Notation within r := (pre ++ r ++ post).
Local Notation at_ := (Z.of_nat (length pre)).

(** Take a computation that succeeds apart. *)
Local Ltac step H :=
  match type of H with
  | (_ ← ?e; _) = Some _ => let E := fresh "E" in destruct e eqn:E; cbn [mbind option_bind] in H |- *; [|discriminate H]
  end.

Lemma convert_cpu_framed st b r cpu i ti r' : pos_ok st b -> convert_cpu t b r HEADER_SIZE = Some (cpu, i, ti, r') ->
  convert_cpu t b (within r) (at_ + HEADER_SIZE) = Some (cpu, i, ti, within r') /\ kept r r'.
Proof.
  unfold HEADER_SIZE. intros [Hc Hp _ _ _] E. unfold convert_cpu in *. destruct (Z.eqb_spec (bcpu_pos b) (-1)).
  { by injection E as <- <- <- <-. }
  step E. erewrite get_framed by (done || lia). cbn [mbind option_bind]. destruct (tp_vcpu t) as [v|].
  2: { step E. cbn. by injection E as <- <- <- <-. }
  destruct (_ <? 0); [done|]. do 6 step E. injection E as <- <- <- <-. cbn [mbind option_bind].
  erewrite set_framed by (done || lia). cbn [mbind option_bind].
  erewrite set_if_framed; [|done|intros Hx%negb_true_iff; lia]. cbn [mbind option_bind].
  erewrite set_if_framed; [|done|intros Hx%negb_true_iff; lia]. cbn [mbind option_bind]. split; [done|].
  unfold HEADER_SIZE in *. etrans; [eapply set_kept; [eassumption|unfold HEADER_SIZE; lia]|].
  etrans; (eapply set_if_kept; [eassumption|unfold HEADER_SIZE; intros Hx%negb_true_iff; lia]).
Qed.

Lemma convert_tid_framed st b r ti ti' : pos_ok st b -> convert_tid t b r HEADER_SIZE ti = Some ti' ->
  convert_tid t b (within r) (at_ + HEADER_SIZE) ti = Some ti'.
Proof.
  unfold HEADER_SIZE. intros [_ Hp _ _ _] E. unfold convert_tid in *. destruct (Z.eqb_spec (pid_pos b) (-1)); [done|].
  step E. erewrite get_framed by (done || lia). done.
Qed.

Lemma convert_type_framed st b cpu r r' : pos_ok st b -> has st PERF_SAMPLE_CALLCHAIN = false ->
  convert_type t b st cpu r HEADER_SIZE = Some r' ->
  convert_type t b st cpu (within r) (at_ + HEADER_SIZE) = Some (within r') /\ kept r r'.
Proof.
  unfold HEADER_SIZE. intros [_ _ _ _ Hp] Hc E. unfold convert_type in *. destruct (_ =? _); [by injection E as <-|].
  rewrite Hc in *. cbn [mbind option_bind] in *. destruct (has st PERF_SAMPLE_RAW); [|by injection E as <-].
  step E. erewrite set_framed by (done || lia). cbn [mbind option_bind].
  assert (kept r l) by (eapply set_kept; [done|unfold HEADER_SIZE; lia]).
  destruct (tp_vcpu t) as [v|]; [|by injection E as <-]. destruct (0 <=? cpu); [|by injection E as <-].
  step E. erewrite set_framed by (done || lia). split; [done|]. etrans; [done|].
  eapply set_kept; [done|unfold HEADER_SIZE; lia].
Qed.

Lemma block_event_convert_framed e b r ins b' r' : evsel t = Some e -> pullable t ->
  block_ok (stype (eattr e)) (perf_evsel__read_size (eattr e)) b ->
  block_event_convert t b r 0 = Some (ins, b', r') ->
  block_event_convert t b (within r) at_ = Some (ins, b', within r') /\ kept r r' /\
  block_ok (stype (eattr e)) (perf_evsel__read_size (eattr e)) b'.
Proof.
  intros He Hpull Hb E. destruct (Hpull e He) as [Hcall Hrs]. unfold block_event_convert in *. rewrite He in *.
  destruct (speriod (eattr e) =? 0); [by injection E as <- <- <-|].
  destruct (block_pos_ok _ _ b Hrs Hb) as [Hpos Hb']. set (b1 := find_pos _ _ b) in *. clearbody b1.
  change (0 + HEADER_SIZE) with HEADER_SIZE in E.
  destruct (convert_cpu t b1 r HEADER_SIZE) as [[[[cpu i] ti] r1]|] eqn:E1; [|done]. cbn [mbind option_bind] in E.
  destruct (convert_cpu_framed _ _ _ _ _ _ _ Hpos E1) as [-> K1]. cbn [mbind option_bind].
  destruct (convert_tid t b1 r1 HEADER_SIZE ti) as [ti'|] eqn:E2; [|done]. cbn [mbind option_bind] in E.
  rewrite (convert_tid_framed _ _ _ _ _ Hpos E2). cbn [mbind option_bind].
  set (id := perf_evsel__get_id e _ _) in *. clearbody id.
  destruct (set_if (has _ PERF_SAMPLE_ID) 8 r1 _ id) as [r2|] eqn:E3; [|done]. cbn [mbind option_bind] in E.
  destruct (set_if (has _ PERF_SAMPLE_STREAM_ID) 8 r2 _ id) as [r3|] eqn:E4; [|done]. cbn [mbind option_bind] in E.
  destruct (convert_type t b1 _ cpu r3 HEADER_SIZE) as [r4|] eqn:E5; [|done]. injection E as <- <- <-.
  pose proof (pos_id _ _ Hpos). pose proof (pos_stream _ _ Hpos).
  rewrite (set_if_framed pre post _ _ _ _ _ _ _ E3) by (intros; lia). cbn [mbind option_bind].
  rewrite (set_if_framed pre post _ _ _ _ _ _ _ E4) by (intros; lia). cbn [mbind option_bind].
  destruct (convert_type_framed _ _ _ _ _ Hpos Hcall E5) as [-> K5]. split; [done|]. split; [|done].
  etrans; [exact K1|]. etrans; [eapply set_if_kept; [exact E3|intros; lia]|].
  etrans; [eapply set_if_kept; [exact E4|intros; lia]|]. exact K5.
Qed.

(** The same step within the buffer. *)
Local Ltac framed :=
  match goal with
  | H : get_le ?n ?r ?o = Some ?v |- context [get_le ?n (pre ++ ?r ++ post) ?o'] =>
      rewrite (get_framed pre post n r o v o' H) by lia
  | H : same_str ?r ?o ?s = Some ?v |- context [same_str (pre ++ ?r ++ post) ?o' ?s] =>
      rewrite (same_str_framed pre post r s o v o' H) by lia
  end; cbn [mbind option_bind].

Lemma tp_matches_framed r b : tp_matches t r 0 = Some b -> tp_matches t (within r) at_ = Some b.
Proof.
  intros E. unfold tp_matches in *. step E. framed. step E. framed. destruct (negb _); [done|].
  step E. framed. step E. framed. destruct (negb _); [done|].
  destruct (evsel t) as [e|]; [|done]. destruct (_ =? 0); [done|].
  step E. framed. destruct (_ =? 0); [done|]. step E. framed. destruct (negb _); [done|]. destruct (has _ _); [done|].
  step E. by framed.
Qed.
End framed_convert.

(** ** The sample of a host *)

Lemma get_total n m off : 0 <= off -> off + Z.of_nat n <= Z.of_nat (length m) -> is_Some (get_le n m off).
Proof. intros. destruct (mem_read_total m off (Z.of_nat n)) as [bs E]; [lia..|]. unfold get_le. rewrite E. by eexists. Qed.

Lemma set_total n m off z : 0 <= off -> off + Z.of_nat n <= Z.of_nat (length m) -> is_Some (set_le n m off z).
Proof. intros. apply mem_write_total; rewrite ?length_le_bytes; lia. Qed.

(** The order of the fields. *)
Lemma found_order st n : 0 <= n -> let b := find_pos st n block_new in let p := common_type_pos b in
  (bcpu_pos b = -1 \/ bcpu_pos b + 8 <= p) /\ (pid_pos b = -1 \/ pid_pos b + 8 <= p) /\
  (has st PERF_SAMPLE_ID = true -> bid_pos b + 8 <= p) /\ (has st PERF_SAMPLE_STREAM_ID = true -> stream_id_pos b + 8 <= p) /\
  (has st PERF_SAMPLE_ID = true -> has st PERF_SAMPLE_STREAM_ID = true -> bid_pos b + 8 <= stream_id_pos b).
Proof.
  intros Hn. unfold find_pos. cbn [block_new pid_pos bcpu_pos bid_pos stream_id_pos common_type_pos Z.eqb Pos.eqb andb]. cbv zeta.
  assert (forall (c : bool) p k, (if c then p + k else p) = p + k * Z.b2z c) as E by (intros []; cbn; lia).
  assert (0 <= n * Z.b2z (has st PERF_SAMPLE_READ)) as Hr by (destruct (has st PERF_SAMPLE_READ); cbn; lia).
  rewrite !E. clear E. assert (forall c, 0 <= Z.b2z c) as Hb by (intros []; cbn; lia). revert Hr.
  destruct (has st PERF_SAMPLE_ID), (has st PERF_SAMPLE_STREAM_ID), (has st PERF_SAMPLE_CPU), (has st PERF_SAMPLE_TID); cbn [Z.b2z];
  repeat match goal with |- context [Z.b2z ?c] => generalize (Hb c); generalize (Z.b2z c); intros ? ? end;
  cbn -[Z.add Z.mul]; intros Hr; split_and!; try done; lia.
Qed.

Lemma find_pos_ok st n b : 0 <= n -> block_ok st n b -> find_pos st n b = with_remote (remote_id b) (find_pos st n block_new).
Proof.
  intros Hn (b0 & -> & Hb0). destruct (found_ok st n Hn) as [_ Hc]. destruct Hb0 as [->| ->]; [done|].
  unfold find_pos at 1. cbn -[find_pos]. rewrite (proj2 (Z.eqb_neq (common_type_pos _) (-1))) by lia. by rewrite andb_false_r.
Qed.

(** The instance a sample of a host belongs to: the index of its processor or thread. *)
Definition host_index (t : tp) (b : event_block) (r : list Z) : option Z :=
  if ins_oncpu t then
    if bcpu_pos b =? -1 then Some 0 else c ← get_le 4 r (HEADER_SIZE + bcpu_pos b); perf_cpu_map__idx (dev_cpus t) (s32 c)
  else
    if pid_pos b =? -1 then Some 0
    else tid ← get_le 4 r (HEADER_SIZE + pid_pos b + 4); Some (perf_thread_map__idx (dev_threads t) (s32 tid)).

(** The identifier of that instance in the local event. *)
Definition host_id (t : tp) (e : perf_evsel) (ins : Z) : Z :=
  if ins_oncpu t then perf_evsel__get_id e (Z.max 0 ins) 0 else perf_evsel__get_id e 0 (Z.max 0 ins).

(** The type is rewritten if the peer's tracepoint has another. *)
Definition retyped (t : tp) (b : event_block) (st : Z) : bool := negb (tp_id t =? remote_id b) && has st PERF_SAMPLE_RAW.

Definition sample_room (st pos : Z) : Z := HEADER_SIZE + pos + (if has st PERF_SAMPLE_RAW then 4 + 2 else 0).

(** The bytes of the fields that are rewritten. *)
Definition rewritten (t : tp) (st : Z) (b : event_block) (j : Z) : Prop :=
  (has st PERF_SAMPLE_ID = true /\ HEADER_SIZE + bid_pos b <= j < HEADER_SIZE + bid_pos b + 8) \/
  (has st PERF_SAMPLE_STREAM_ID = true /\ HEADER_SIZE + stream_id_pos b <= j < HEADER_SIZE + stream_id_pos b + 8) \/
  (retyped t b st = true /\ HEADER_SIZE + common_type_pos b + 4 <= j < HEADER_SIZE + common_type_pos b + 6).

(** A write to a field of [n] bytes, if there is one. *)
Lemma set_if_spec c n m off z : (c = true -> 0 <= off /\ off + Z.of_nat n <= Z.of_nat (length m)) ->
  exists m', set_if c n m off z = Some m' /\ length m' = length m /\
    (c = true -> get_le n m' off = Some (z mod 256 ^ Z.of_nat n)) /\
    (forall k o, (c = true -> o + Z.of_nat k <= off \/ off + Z.of_nat n <= o) -> get_le k m' o = get_le k m o) /\
    (forall j : nat, (c = true -> ~ (off <= Z.of_nat j < off + Z.of_nat n)) -> m' !! j = m !! j).
Proof.
  intros Hc. destruct c; [|by exists m]. destruct (Hc eq_refl) as [H0 Hl]. cbn.
  destruct (set_total n m off z H0 Hl) as [m' E]. exists m'. split; [done|]. unfold set_le in E.
  split; [exact (length_mem_write _ _ _ _ E)|]. split; [intros _; by apply (get_set_le n m)|]. split.
  - intros k o Ho. unfold get_le. f_equal. eapply mem_read_write_disjoint; [exact E|]. rewrite length_le_bytes. by apply Ho.
  - intros j Hj. rewrite (lookup_mem_write _ _ _ _ _ E), length_le_bytes. rewrite decide_False; [done|]. specialize (Hj eq_refl). lia.
Qed.

(** Reading the processor and the thread. *)
Lemma host_index_ok t e b r : tp_vcpu t = None ->
  (bcpu_pos b = -1 \/ 0 <= bcpu_pos b /\ HEADER_SIZE + bcpu_pos b + 8 <= Z.of_nat (length r)) ->
  (pid_pos b = -1 \/ 0 <= pid_pos b /\ HEADER_SIZE + pid_pos b + 8 <= Z.of_nat (length r)) ->
  exists cpu i ti ti' ins, convert_cpu t b r HEADER_SIZE = Some (cpu, i, ti, r) /\ convert_tid t b r HEADER_SIZE ti = Some ti' /\
    host_index t b r = Some ins /\ (if ins_oncpu t then i else ti') = ins /\
    perf_evsel__get_id e (if i <? 0 then 0 else i) (if ti' <? 0 then 0 else ti') = host_id t e ins.
Proof.
  unfold HEADER_SIZE. intros Hv Hc Hp. unfold convert_cpu, convert_tid, host_index, host_id, HEADER_SIZE. rewrite Hv.
  assert (forall z, (if z <? 0 then 0 else z) = Z.max 0 z) as Hmax by (intros z; destruct (Z.ltb_spec z 0); lia).
  rewrite bool_decide_eq_false_2 by (intros [? ?]; done). cbn [negb andb].
  assert (forall x : Z, exists tid, (if pid_pos b =? -1 then Some x else tid ← get_le 4 r (8 + pid_pos b + 4); Some (if negb (ins_oncpu t) then perf_thread_map__idx (dev_threads t) (s32 tid) else x)) =
            Some (if pid_pos b =? -1 then x else if ins_oncpu t then x else perf_thread_map__idx (dev_threads t) (s32 tid)) /\
            (pid_pos b <> -1 -> get_le 4 r (8 + pid_pos b + 4) = Some tid)) as Htid.
  { intros x. destruct (Z.eqb_spec (pid_pos b) (-1)); [by exists 0|].
    destruct (get_total 4 r (8 + pid_pos b + 4)) as [tid ->]; [lia..|]. exists tid. cbn. by destruct (ins_oncpu t). }
  assert (exists cpu i, (if bcpu_pos b =? -1 then Some (-1, 0, 0, r) else c ← get_le 4 r (8 + bcpu_pos b);
             i ← (if ins_oncpu t then perf_cpu_map__idx (dev_cpus t) (s32 c) else Some 0); Some (s32 c, i, 0, r)) = Some (cpu, i, 0, r) /\
             (ins_oncpu t = true -> (if bcpu_pos b =? -1 then Some 0 else c ← get_le 4 r (8 + bcpu_pos b); perf_cpu_map__idx (dev_cpus t) (s32 c)) = Some i) /\
             (ins_oncpu t = false -> i = 0)) as (cpu & i & Ecpu & Ei & Ei0).
  { destruct (Z.eqb_spec (bcpu_pos b) (-1)); [by exists (-1), 0|].
    destruct (get_total 4 r (8 + bcpu_pos b)) as [c ->]; [lia..|]. cbn [mbind option_bind]. destruct (ins_oncpu t); [|by exists (s32 c), 0].
    destruct (cpu_idx_total (dev_cpus t) (s32 c)) as [i ->]. by exists (s32 c), i. }
  destruct (Htid 0) as (tid & Etid & Hgt). exists cpu, i, 0. eexists _, (if ins_oncpu t then i else if pid_pos b =? -1 then 0 else perf_thread_map__idx (dev_threads t) (s32 tid)).
  split; [exact Ecpu|]. split; [exact Etid|]. rewrite !Hmax. clear Hmax Htid Ecpu Etid. destruct (ins_oncpu t).
  - split; [by apply Ei|]. split; [done|]. by destruct (pid_pos b =? -1).
  - rewrite Ei0 by done. destruct (Z.eqb_spec (pid_pos b) (-1)); [by split_and!|]. rewrite Hgt by done. by split_and!.
Qed.

(** A sample of a host that was long enough: the identifiers become local, the type too,
    and nothing else changes. *)
Lemma host_sample_ok t e b r : evsel t = Some e -> speriod (eattr e) <> 0 -> tp_vcpu t = None -> pullable t ->
  let st := stype (eattr e) in let n := perf_evsel__read_size (eattr e) in let b1 := find_pos st n b in
  block_ok st n b -> sample_room st (common_type_pos b1) <= Z.of_nat (length r) ->
  exists ins r', block_event_convert t b r 0 = Some (ins, b1, r') /\ host_index t b1 r = Some ins /\ length r' = length r /\
    (has st PERF_SAMPLE_ID = true -> get_le 8 r' (HEADER_SIZE + bid_pos b1) = Some (u64 (host_id t e ins))) /\
    (has st PERF_SAMPLE_STREAM_ID = true -> get_le 8 r' (HEADER_SIZE + stream_id_pos b1) = Some (u64 (host_id t e ins))) /\
    (retyped t b1 st = true -> get_le 2 r' (HEADER_SIZE + common_type_pos b1 + 4) = Some (u16 (tp_id t))) /\
    (forall j : nat, ~ rewritten t st b1 (Z.of_nat j) -> r' !! j = r !! j).
Proof.
  intros He Hsp Hv Hpull st n b1 Hb Hroom. destruct (Hpull e He) as [Hcall Hrs]. fold st in Hcall. fold n in Hrs.
  destruct (block_pos_ok st n b Hrs Hb) as [Hpos _]. fold b1 in Hpos.
  pose proof (found_order st n Hrs) as Ho. cbv zeta in Ho.
  assert (forall f : event_block -> Z, (forall i x, f (with_remote i x) = f x) -> f (find_pos st n block_new) = f b1) as Ef.
  { intros f Hf. unfold b1. rewrite (find_pos_ok st n b Hrs Hb). by rewrite Hf. }
  rewrite (Ef bcpu_pos), (Ef pid_pos), (Ef bid_pos), (Ef stream_id_pos), (Ef common_type_pos) in Ho by done. clear Ef.
  destruct Ho as (Oc & Op & Oi & Os & Ois). destruct Hpos as [Pc Pp Pi Ps Pt].
  unfold sample_room, HEADER_SIZE in *. assert (8 + common_type_pos b1 <= Z.of_nat (length r)) by (destruct (has st PERF_SAMPLE_RAW); lia).
  destruct (host_index_ok t e b1 r Hv) as (cpu & i & ti & ti' & ins & E1 & E2 & E3 & E4 & E5); [unfold HEADER_SIZE; lia..|].
  unfold block_event_convert. rewrite He, (proj2 (Z.eqb_neq _ 0)) by done. change (0 + HEADER_SIZE) with HEADER_SIZE.
  fold st n b1. rewrite E1. cbn [mbind option_bind]. rewrite E2. cbn [mbind option_bind]. rewrite E5. unfold HEADER_SIZE in *.
  destruct (set_if_spec (has st PERF_SAMPLE_ID) 8 r (8 + bid_pos b1) (host_id t e ins)) as (r1 & -> & L1 & G1 & F1 & K1); [lia|].
  cbn [mbind option_bind].
  destruct (set_if_spec (has st PERF_SAMPLE_STREAM_ID) 8 r1 (8 + stream_id_pos b1) (host_id t e ins)) as (r2 & -> & L2 & G2 & F2 & K2); [lia|].
  cbn [mbind option_bind].
  destruct (set_if_spec (retyped t b1 st) 2 r2 (8 + common_type_pos b1 + 4) (tp_id t)) as (r3 & E & L3 & G3 & F3 & K3).
  { unfold retyped. intros [_ Hraw]%andb_true_iff. rewrite Hraw in Hroom. lia. }
  assert (convert_type t b1 st cpu r2 8 = Some r3) as ->.
  { unfold convert_type, retyped, set_if in *. rewrite Hcall, Hv. destruct (tp_id t =? remote_id b1); [done|]. cbn in *.
    destruct (has st PERF_SAMPLE_RAW); [|done]. replace (8 + (common_type_pos b1 + 4)) with (8 + common_type_pos b1 + 4) by lia.
    by rewrite E. }
  exists ins, r3. cbn [mbind option_bind]. rewrite E4. split_and!; [done|done|congruence|..].
  - intros Hi. rewrite F3, F2 by lia. by apply G1.
  - intros Hs. rewrite F3 by lia. by apply G2.
  - exact G3.
  - intros j Hj. unfold rewritten, HEADER_SIZE in Hj. rewrite K3, K2, K1; [done|..]; intros Hx Hin; apply Hj; [|right; left|right; right]; (left + idtac); (split; [done|lia]).
Qed.
