(* ===== verification/PullRead.v ===== *)
(** * Reading records from a stream (event-spread.c, net.c)

    A stream comes in pieces that the network chose; the readers put records together again
    and hand them on one by one, and keep what is left of the last for the next piece.
    [process] is what is done with a record, in the buffer: for the program it is
    [PullEvent.block_process_event]. *)

From S2P Require Import Prelude Bytes Mmap Circ.

(** ** The C library

    [memcpy] is defined for blocks that do not overlap.  [overlap] says whether the one in
    use copies overlapping blocks too, as that of glibc does on x86-64. *)

Definition overlapping (dst src n : Z) : bool := (0 <? n) && (Z.abs (dst - src) <? n).

Definition memcpy (overlap : bool) (m : list Z) (dst src n : Z) : option (list Z) :=
  bs ← mem_read m src n;
  if overlapping dst src n && negb overlap then None else mem_write m dst bs.

(** What a descriptor has for its reader, in the pieces in which it arrives. *)
Inductive piece :=
  | Data (bs : list Z)
  | Shut
  | Broken (errno : Z).

(** The bytes returned - none when the peer has shut down - or [errno]. *)
Fixpoint recv (room : Z) (ps : list piece) : (list Z + Z) * list piece :=
  match ps with
  | [] => (inr EAGAIN, [])
  | Data [] :: ps => recv room ps
  | Data bs :: ps =>
      (inl (take (Z.to_nat room) bs),
       if decide (drop (Z.to_nat room) bs = []) then ps else Data (drop (Z.to_nat room) bs) :: ps)
  | Shut :: ps => (inl [], Shut :: ps)
  | Broken e :: ps => (inr e, ps)
  end.

Definition PERF_SAMPLE_MAX_SIZE : Z := Z.shiftl 1 16.

(** How a reader ends: nothing more for now, hung up, or the block is freed. *)
Inductive reading := Again | HungUp | Freed.

Section read.
Context {S : Type} (process : S -> list Z -> Z -> option (bool * S * list Z)) (overlap : bool).

(** ** The loops

    The records in [size] bytes at [off]; [least] is the least size looked at.  The result
    says whether all was well, and what is left. *)
Fixpoint process_loop (least : Z) (fuel : nat) (s : S) (m : list Z) (off size : Z) : option (bool * S * list Z * Z * Z) :=
  match fuel with
  | O => None
  | Datatypes.S fuel =>
      if least <=? size then
        n ← header_size m off;
        if n <=? size then
          let size := size - n in
          '(ok, s, m) ← process s m off;
          if (ok : bool) then
            n ← header_size m off;
            process_loop least fuel s m (off + n) size
          else Some (false, s, m, off, size)
        else Some (true, s, m, off, size)
      else Some (true, s, m, off, size)
  end.

(** A record takes at least one byte. *)
Definition records_fuel (size : Z) : nat := Datatypes.S (Z.to_nat size).

(** [tcp_process_event]: the bytes it has done with. *)
Definition tcp_process_event (s : S) (m : list Z) (size : Z) : option (bool * S * list Z * Z) :=
  '(ok, s, m, _, remains) ← process_loop (HEADER_SIZE + 1) (records_fuel size) s m 0 size;
  Some (ok, s, m, if (ok : bool) then size - remains else size).

(** A reader's buffer and how much of it is in use. *)
Record reader := Reader { copy : list Z; used : Z }.

(** [handle_inout] on [EPOLLIN], for a peer whose events are not ordered. *)
Fixpoint tcp_receive (fuel : nat) (s : S) (r : reader) (ps : list piece) : option (reading * S * reader * list piece) :=
  match fuel with
  | O => None
  | Datatypes.S fuel =>
      match recv (PERF_SAMPLE_MAX_SIZE - used r) ps with
      | (inr _, ps) => Some (Again, s, r, ps)
      | (inl [], ps) => Some (HungUp, s, r, ps)
      | (inl bs, ps) =>
          m ← mem_write (copy r) (used r) bs;
          let size := used r + Z.of_nat (length bs) in
          '(ok, s, m, processed) ← tcp_process_event s m size;
          let remains := size - processed in
          m ← (if remains =? 0 then Some m else memcpy overlap m 0 processed remains);
          if (ok : bool) then tcp_receive fuel s (Reader m remains) ps
          else Some (Freed, s, Reader m remains, ps)
      end
  end.

(** [handle_cdev_event] on [EPOLLIN], for a device whose events are not ordered. *)
Fixpoint cdev_receive (fuel : nat) (s : S) (r : reader) (ps : list piece) : option (reading * S * reader * list piece) :=
  match fuel with
  | O => None
  | Datatypes.S fuel =>
      match recv (BUF_LEN - used r) ps with
      | (inr _, ps) => Some (Again, s, r, ps)
      | (inl [], ps) => Some (Again, s, r, ps)
      | (inl bs, ps) =>
          m ← mem_write (copy r) (used r) bs;
          let size := used r + Z.of_nat (length bs) in
          '(ok, s, m, event, remains) ← process_loop HEADER_SIZE (records_fuel size) s m 0 size;
          if (ok : bool) then
            m ← (if remains =? 0 then Some m else memcpy overlap m 0 event remains);
            cdev_receive fuel s (Reader m remains) ps
          else Some (Freed, s, Reader m remains, ps)
      end
  end.

(** [handle_file_event], up to 64 events of a file of which [rest] is not read yet;
    [m] is the local array, as the stack has it.  The size of the second read is a
    [size_t]. *)
Fixpoint file_loop (n : nat) (s : S) (m rest : list Z) : option (bool * S * list Z * list Z) :=
  match n with
  | O => Some (true, s, m, rest)
  | Datatypes.S n =>
      let h := take (Z.to_nat HEADER_SIZE) rest in
      m ← mem_write m 0 h;
      let rest := drop (length h) rest in
      '(m, len, rest) ← (if Z.of_nat (length h) =? HEADER_SIZE then
                           size ← header_size m 0;
                           let x := take (Z.to_nat (Z.min (u64 (size - HEADER_SIZE)) (Z.of_nat (length rest)))) rest in
                           m ← mem_write m HEADER_SIZE x;
                           Some (m, HEADER_SIZE + Z.of_nat (length x), drop (length x) rest)
                         else Some (m, Z.of_nat (length h), rest));
      size ← header_size m 0;
      if negb (len =? size) then Some (false, s, m, rest)
      else
        '(ok, s, m) ← process s m 0;
        if (ok : bool) then file_loop n s m rest else Some (false, s, m, rest)
  end.

Definition handle_file_event (s : S) (m rest : list Z) : option (bool * S * list Z) :=
  '(ok, s, _, rest) ← file_loop 64 s m rest;
  Some (ok, s, rest).

(** The file is read again and again until its block is freed; [ms] are the arrays. *)
Fixpoint read_file (ms : list (list Z)) (s : S) (rest : list Z) : option (bool * S * list Z) :=
  match ms with
  | [] => Some (true, s, rest)
  | m :: ms =>
      '(ok, s, rest) ← handle_file_event s m rest;
      if (ok : bool) then read_file ms s rest else Some (false, s, rest)
  end.

(** Every round takes a byte. *)
Definition bytes_of (p : piece) : list Z := match p with Data bs => bs | _ => [] end.
Definition receive_fuel (ps : list piece) : nat := Datatypes.S (length (concat (bytes_of <$> ps))).

(** ** The records by themselves *)

Fixpoint run_records (s : S) (rs : list (list Z)) : option (bool * S) :=
  match rs with
  | [] => Some (true, s)
  | r :: rs =>
      '(ok, s, _) ← process s r 0;
      if (ok : bool) then run_records s rs else Some (false, s)
  end.

(** What is done with a record in a state that is well formed ([Inv]) stays within the
    record and leaves its header alone. *)
Definition stays_within (Inv : S -> Prop) : Prop := forall s r ok s' r' pre post,
  Inv s -> process s r 0 = Some (ok, s', r') -> header_size r 0 = Some (Z.of_nat (length r)) ->
  process s (pre ++ r ++ post) (Z.of_nat (length pre)) = Some (ok, s', pre ++ r' ++ post) /\
  length r' = length r /\ take (Z.to_nat HEADER_SIZE) r' = take (Z.to_nat HEADER_SIZE) r /\ Inv s'.
End read.

(** ** Records on a stream *)

Section frames.
Context (least : Z) (Hleast : HEADER_SIZE <= least <= HEADER_SIZE + 1).

Definition whole (r : list Z) : Prop :=
  header_size r 0 = Some (Z.of_nat (length r)) /\ HEADER_SIZE < Z.of_nat (length r) < 2 ^ 16.

(** What is not a record yet. *)
Definition partial (p : list Z) : Prop :=
  Z.of_nat (length p) < least \/ exists n, header_size p 0 = Some n /\ Z.of_nat (length p) < n < 2 ^ 16.

Lemma header_app m x off : 0 <= off -> off + HEADER_SIZE <= Z.of_nat (length m) -> header_size (m ++ x) off = header_size m off.
Proof.
  unfold HEADER_SIZE. intros Ho Hl. unfold header_size, get_le. f_equal.
  apply mem_read_ext; rewrite ?length_app; try lia. intros i Hi. apply lookup_app_l. lia.
Qed.

Lemma header_shift pre m off : 0 <= off -> off + HEADER_SIZE <= Z.of_nat (length m) ->
  header_size (pre ++ m) (Z.of_nat (length pre) + off) = header_size m off.
Proof.
  unfold HEADER_SIZE. intros Ho Hl. unfold header_size, get_le. f_equal.
  apply mem_read_ext; rewrite ?length_app; try lia. intros i Hi. rewrite lookup_app_r by lia. f_equal. lia.
Qed.

Lemma partial_small p : partial p -> Z.of_nat (length p) < 2 ^ 16.
Proof. unfold HEADER_SIZE in *. intros [?|(n & _ & ?)]; lia. Qed.

(** A stream cut anywhere: whole records, and one that is not whole yet. *)
Lemma cut_frames x y rs part : x ++ y = concat rs ++ part -> Forall whole rs -> partial part ->
  exists rs1 rs2 part1, rs = rs1 ++ rs2 /\ x = concat rs1 ++ part1 /\ partial part1 /\ part1 ++ y = concat rs2 ++ part.
Proof.
  revert x. induction rs as [|r rs IH]; intros x E Hrs Hp; cbn in E.
  - exists [], [], x. split; [done|]. split; [done|]. split; [|done].
    destruct (decide (Z.of_nat (length x) < least)); [by left|]. right.
    assert (length x <= length part)%nat by (rewrite <- E, length_app; lia).
    destruct Hp as [Hp|(n0 & Hn & Hp)]; [lia|]. exists n0. split; [|lia].
    rewrite <- E in Hn. by rewrite header_app in Hn by lia.
  - inversion Hrs as [|? ? [Hh Hr] Hrs']; subst. rewrite <- app_assoc in E.
    destruct (decide (length x < length r)%nat) as [Hlt|Hge].
    + exists [], (r :: rs), x. split; [done|]. split; [done|]. split; [|by rewrite E; cbn; rewrite <- app_assoc].
      destruct (decide (Z.of_nat (length x) < least)); [by left|]. right. exists (Z.of_nat (length r)). split; [|lia].
      assert (r = x ++ drop (length x) r) as Er.
      { rewrite <- (take_drop (length x) r) at 1. f_equal.
        apply (f_equal (take (length x))) in E. rewrite take_app_length in E.
        rewrite take_app_le in E by lia. by symmetry. }
      rewrite Er in Hh at 1. by rewrite header_app in Hh by lia.
    + assert (x = r ++ drop (length r) x) as Ex.
      { rewrite <- (take_drop (length r) x) at 1. f_equal.
        apply (f_equal (take (length r))) in E. rewrite take_app_length in E.
        rewrite take_app_le in E by lia. done. }
      rewrite Ex, <- app_assoc in E. apply app_inv_head in E.
      destruct (IH _ E Hrs' Hp) as (rs1 & rs2 & p1 & -> & E1 & Hp1 & E2).
      exists (r :: rs1), rs2, p1. split; [done|]. split; [|done]. cbn. rewrite <- app_assoc, <- E1. done.
Qed.

(** What is left of some bytes after their records. *)
Fixpoint leftover_from (k : nat) (bs : list Z) : list Z :=
  match k with
  | O => bs
  | S k =>
      if HEADER_SIZE <? Z.of_nat (length bs) then
        match header_size bs 0 with
        | Some n => if n <=? Z.of_nat (length bs) then leftover_from k (drop (Z.to_nat n) bs) else bs
        | None => bs
        end
      else bs
  end.
Definition leftover (bs : list Z) : list Z := leftover_from (length bs) bs.

Lemma leftover_ok rs part : Forall whole rs -> partial part -> leftover (concat rs ++ part) = part.
Proof.
  intros Hrs Hp. unfold leftover.
  assert (length rs <= length (concat rs ++ part))%nat as Hk.
  { clear Hp. induction Hrs as [|r rs [_ Hr] _ IH]; cbn; [lia|]. rewrite !length_app in *. unfold HEADER_SIZE in Hr. lia. }
  revert Hk. generalize (length (concat rs ++ part)) as k. induction Hrs as [|r rs [Hh Hr] Hrs IH]; intros k Hk.
  - cbn [concat app]. destruct k as [|k]; [done|]. cbn [leftover_from]. destruct (Z.ltb_spec HEADER_SIZE (Z.of_nat (length part))); [|done].
    unfold HEADER_SIZE in *. destruct Hp as [?|(n & Hn & ?)]; [lia|]. rewrite Hn. by rewrite (proj2 (Z.leb_gt _ _)) by lia.
  - destruct k as [|k]; [cbn in Hk; lia|]. cbn [concat leftover_from]. rewrite <- app_assoc.
    rewrite (proj2 (Z.ltb_lt _ _)) by (rewrite length_app; lia). rewrite header_app, Hh by lia.
    rewrite (proj2 (Z.leb_le _ _)) by (rewrite length_app; lia). rewrite Nat2Z.id, drop_app_length. apply IH. cbn in Hk. lia.
Qed.

End frames.

(** The pieces of a stream of which [carry] is left: they fit in the buffer, and none leaves
    more behind than what is done with, which is what a [memcpy] to the front needs. *)
Fixpoint apart (carry : list Z) (cs : list (list Z)) : Prop :=
  match cs with
  | [] => True
  | c :: cs =>
      let b := carry ++ c in
      Z.of_nat (length b) <= 2 ^ 16 /\ (c = [] \/ (2 * length (leftover b) <= length b)%nat) /\ apart (leftover b) cs
  end.

(** ** The loops hand on the records *)

Lemma recv_ok room cs fin : 0 < room ->
  (concat cs = [] /\ recv room ((Data <$> cs) ++ fin) = recv room fin) \/
  exists x cs', x <> [] /\ Z.of_nat (length x) <= room /\ concat cs = x ++ concat cs' /\
    recv room ((Data <$> cs) ++ fin) = (inl x, (Data <$> cs') ++ fin).
Proof.
  intros Hr. induction cs as [|c cs IH]; [by left|]. destruct c as [|b bs].
  - destruct IH as [IH|(x & cs' & IH)]; [by left|right]. by exists x, cs'.
  - right. cbn [fmap list_fmap app recv]. set (c := b :: bs). exists (take (Z.to_nat room) c).
    assert (take (Z.to_nat room) c <> []) as Hne by (unfold c; destruct (Z.to_nat room) eqn:E; [lia|done]).
    destruct (decide (drop (Z.to_nat room) c = [])) as [Ed|Ed].
    + exists cs. split; [done|]. split; [rewrite length_take; lia|]. split; [|done]. cbn [concat].
      rewrite <- (take_drop (Z.to_nat room) c) at 1. by rewrite Ed, app_nil_r.
    + exists (drop (Z.to_nat room) c :: cs). split; [done|]. split; [rewrite length_take; lia|]. split; [|done].
      cbn [concat]. by rewrite app_assoc, take_drop.
Qed.

Lemma recv_apart overlap least carry cs fin : HEADER_SIZE <= least <= HEADER_SIZE + 1 -> partial least carry ->
  overlap = true \/ apart carry cs ->
  (concat cs = [] /\ recv (2 ^ 16 - Z.of_nat (length carry)) ((Data <$> cs) ++ fin) = recv (2 ^ 16 - Z.of_nat (length carry)) fin) \/
  exists x cs', x <> [] /\ Z.of_nat (length x) <= 2 ^ 16 - Z.of_nat (length carry) /\ concat cs = x ++ concat cs' /\
    recv (2 ^ 16 - Z.of_nat (length carry)) ((Data <$> cs) ++ fin) = (inl x, (Data <$> cs') ++ fin) /\
    (overlap = true \/ (2 * length (leftover (carry ++ x)) <= length (carry ++ x))%nat /\ apart (leftover (carry ++ x)) cs').
Proof.
  intros Hleast Hca Hap. pose proof (partial_small _ Hleast _ Hca) as Hsm. destruct overlap.
  { destruct (recv_ok (2 ^ 16 - Z.of_nat (length carry)) cs fin) as [?|(x & cs' & ? & ? & ? & ?)]; [lia|by left|right]. exists x, cs'. split_and!; [done..|by left]. }
  destruct Hap as [?|Hap]; [done|]. revert Hap. induction cs as [|c cs IH]; intros Hap; [by left|]. cbn [apart] in Hap.
  destruct Hap as (Hl & Hc & Hap). destruct c as [|b bs].
  - rewrite app_nil_r in Hap. pose proof (leftover_ok least Hleast [] carry (Forall_nil_2 _) Hca : leftover carry = carry) as Elo. rewrite Elo in Hap.
    destruct (IH Hap) as [IH'|(x & cs' & IH')]; [by left|right]. by exists x, cs'.
  - right. destruct Hc as [?|Hc]; [done|]. rewrite length_app in Hl. exists (b :: bs), cs. split; [done|]. split; [lia|]. split; [done|].
    split; [|by right]. cbn [fmap list_fmap app recv]. rewrite drop_ge by lia. rewrite take_ge by lia. by rewrite decide_True.
Qed.

Section loops.
Context (overlap : bool).
Context {S : Type} (process : S -> list Z -> Z -> option (bool * S * list Z)) (Inv : S -> Prop)
  (Hwithin : stays_within process Inv).
Context (least : Z) (Hleast : HEADER_SIZE <= least <= HEADER_SIZE + 1).

Lemma run_records_app s rs rs' ok s' : run_records process s (rs ++ rs') = Some (ok, s') ->
  (exists s1, run_records process s rs = Some (true, s1) /\ run_records process s1 rs' = Some (ok, s')) \/
  run_records process s rs = Some (false, s') /\ ok = false.
Proof using.
  revert s. induction rs as [|r rs IH]; intros s E; cbn in *; [left; by eexists|].
  destruct (process s r 0) as [[[o s1] r']|]; [|done]. cbn in *. destruct o; [by apply IH|].
  injection E as <- <-. by right.
Qed.

Lemma loop_ok rs s ok s' part pre post fuel : Inv s -> Forall whole rs -> partial least part ->
  run_records process s rs = Some (ok, s') -> (length rs < fuel)%nat ->
  exists m' off' size',
    process_loop process least fuel s (pre ++ concat rs ++ part ++ post) (Z.of_nat (length pre))
      (Z.of_nat (length (concat rs ++ part))) = Some (ok, s', m', off', size') /\
    length m' = length (pre ++ concat rs ++ part ++ post) /\ Inv s' /\
    (ok = true -> exists pre', m' = pre' ++ part ++ post /\ off' = Z.of_nat (length pre') /\
       length pre' = (length pre + length (concat rs))%nat /\ size' = Z.of_nat (length part)).
Proof using Type*.
  intros HI Hrs Hp. revert s HI pre fuel. induction Hrs as [|r rs [Hh Hr] Hrs IH]; intros s HI pre [|fuel] E Hf; try (cbn in Hf; lia).
  - injection E as <- <-. cbn [concat app process_loop].
    exists (pre ++ part ++ post), (Z.of_nat (length pre)), (Z.of_nat (length part)).
    split; [|split; [done|split; [done|intros _; exists pre; split_and!; [done..|cbn; lia|done]]]].
    destruct (Z.leb_spec least (Z.of_nat (length part))); [|done]. unfold HEADER_SIZE in *.
    destruct Hp as [?|(n & Hn & Hn')]; [lia|]. rewrite <- (Z.add_0_r (Z.of_nat (length pre))), header_shift by (unfold HEADER_SIZE; rewrite ?length_app; lia).
    rewrite header_app, Hn by (unfold HEADER_SIZE; lia). cbn. by rewrite (proj2 (Z.leb_gt _ _)) by lia.
  - cbn [run_records] in E. destruct (process s r 0) as [[[o s1] r']|] eqn:Ep; [|done]. cbn [mbind option_bind] in E.
    destruct (Hwithin s r o s1 r' pre (concat rs ++ part ++ post) HI Ep Hh) as (Epr & Elen & Ehd & HI').
    cbn [concat process_loop]. rewrite <- !app_assoc. rewrite (proj2 (Z.leb_le least _)) by (rewrite length_app; lia).
    assert (forall q, length q = length r -> take (Z.to_nat HEADER_SIZE) q = take (Z.to_nat HEADER_SIZE) r ->
              header_size (pre ++ q ++ concat rs ++ part ++ post) (Z.of_nat (length pre)) = Some (Z.of_nat (length r))) as Hhd.
    { intros q Hq Ht. unfold HEADER_SIZE in *.
      rewrite <- (Z.add_0_r (Z.of_nat (length pre))), header_shift, header_app by (unfold HEADER_SIZE; rewrite ?length_app; lia).
      rewrite <- Hh. rewrite <- (take_drop (Z.to_nat 8) q), <- (take_drop (Z.to_nat 8) r), Ht.
      by rewrite !header_app by (unfold HEADER_SIZE; rewrite ?length_take; lia). }
    rewrite (Hhd r) by done. cbn [mbind option_bind]. rewrite (proj2 (Z.leb_le _ _)) by (rewrite !length_app; lia).
    rewrite Epr. cbn [mbind option_bind]. destruct o.
    2: { injection E as <- <-. do 3 eexists. split; [done|]. split; [|done]. rewrite !length_app, Elen. done. }
    rewrite (Hhd r') by done. cbn [mbind option_bind].
    destruct (IH s1 HI' (pre ++ r') fuel E ltac:(cbn in Hf; lia)) as (m' & off' & size' & El & Elm & HI2 & Hok).
    rewrite <- app_assoc, (length_app pre), Nat2Z.inj_add, Elen in El.
    replace (Z.of_nat (length (r ++ concat rs ++ part)) - Z.of_nat (length r)) with (Z.of_nat (length (concat rs ++ part)))
      by (rewrite !length_app; lia).
    exists m', off', size'. split; [exact El|]. split; [rewrite Elm, !length_app; lia|]. split; [done|].
    intros Eok. destruct (Hok Eok) as (pre' & H1 & H2 & H3 & H4). exists pre'. split_and!; [done..| |done].
    rewrite H3, !length_app. lia.
Qed.

(** The part kept is moved to the front. *)
Lemma keep_part pre part post : overlap = true \/ (length part <= length pre)%nat ->
  memcpy overlap (pre ++ part ++ post) 0 (Z.of_nat (length pre)) (Z.of_nat (length part)) =
    Some (part ++ drop (length part) (pre ++ part ++ post)).
Proof using.
  intros Hap. unfold memcpy. assert (mem_read (pre ++ part ++ post) (Z.of_nat (length pre)) (Z.of_nat (length part)) = Some part) as ->.
  { apply mem_read_Some. rewrite !length_app. split_and!; [lia..|]. rewrite !Nat2Z.id, drop_app_length. by rewrite take_app_length. }
  cbn [mbind option_bind]. assert (overlapping 0 (Z.of_nat (length pre)) (Z.of_nat (length part)) && negb overlap = false) as ->.
  { destruct Hap as [->|Hap]; [by rewrite andb_false_r|]. unfold overlapping. rewrite (proj2 (Z.ltb_ge (Z.abs _) _)) by lia. by rewrite andb_false_r. }
  apply mem_write_Some. rewrite !length_app. split_and!; [lia..|]. done.
Qed.

(** A reader that keeps [carry]. *)
Definition carries (r : reader) (carry : list Z) : Prop :=
  Z.of_nat (length (copy r)) = 2 ^ 16 /\ used r = Z.of_nat (length carry) /\ take (length carry) (copy r) = carry.

(** A piece arrives. *)
Lemma round_ok s r carry x rs part ok s' : Inv s -> carries r carry -> carry ++ x = concat rs ++ part ->
  Z.of_nat (length carry + length x) <= 2 ^ 16 -> Forall whole rs -> partial least part ->
  run_records process s rs = Some (ok, s') -> overlap = true \/ (length part <= length (concat rs))%nat ->
  let size := used r + Z.of_nat (length x) in
  exists m m' off' size', mem_write (copy r) (used r) x = Some m /\
    process_loop process least (records_fuel size) s m 0 size = Some (ok, s', m', off', size') /\ Inv s' /\
    (ok = true -> off' = size - size' /\ exists m'',
       (if size' =? 0 then Some m' else memcpy overlap m' 0 off' size') = Some m'' /\ carries (Reader m'' size') part).
Proof using Type*.
  intros HI (Hc & Hu & Ht) Ex Hl Hrs Hp Er Hap size.
  destruct (mem_write_total (copy r) (used r) x) as [m Hm]; [lia..|]. exists m.
  pose proof (length_mem_write _ _ _ _ Hm) as Hlm. apply mem_write_Some in Hm as Hm'. destruct Hm' as (_ & _ & Em).
  rewrite Hu, Nat2Z.id, Ht in Em. rewrite app_assoc, Ex, <- app_assoc in Em.
  set (post := drop (length carry + length x) (copy r)) in Em.
  assert (length carry + length x = length (concat rs ++ part))%nat as Hlen by (rewrite <- Ex, length_app; lia).
  assert (size = Z.of_nat (length (concat rs ++ part))) as Hs by (unfold size; lia).
  assert (length rs <= length (concat rs))%nat as Hn.
  { clear -Hrs. induction Hrs as [|r rs [_ Hr] _ IH]; cbn; [lia|]. rewrite length_app. unfold HEADER_SIZE in Hr. lia. }
  destruct (loop_ok rs s ok s' part [] post (records_fuel size) HI Hrs Hp Er) as (m' & off' & size' & El & Elm & HI' & Hok).
  { unfold records_fuel. rewrite Hs, length_app. lia. }
  exists m', off', size'. split; [done|]. split; [rewrite <- Hs in El; by rewrite Em|]. split; [done|].
  intros Eok. destruct (Hok Eok) as (pre' & -> & -> & Hpre & ->). cbn in Hpre. split; [rewrite Hs, length_app; lia|].
  assert (Z.of_nat (length (pre' ++ part ++ post)) = 2 ^ 16) as Hlen'.
  { rewrite Elm. cbn [app]. rewrite <- Em. lia. }
  destruct (Z.eqb_spec (Z.of_nat (length part)) 0) as [E0|E0].
  - eexists. split; [done|]. split; [done|]. split; [done|]. destruct part; [done|cbn in E0; lia].
  - rewrite keep_part by (rewrite Hpre; done). eexists. split; [done|]. split; [|split; [done|cbn; by rewrite take_app_length]].
    cbn. rewrite length_app, length_drop. rewrite !length_app in *. lia.
Qed.

(** Less than a record holds no record. *)
Lemma nothing_whole carry rs part : partial least carry -> carry = concat rs ++ part -> Forall whole rs -> rs = [] /\ part = carry.
Proof using Type*.
  intros Hca -> Hrs. destruct rs as [|r0 rs]; [done|exfalso]. inversion Hrs as [|? ? [Hh0 Hr0] _]; subst.
  cbn in Hca. rewrite <- app_assoc in Hca. unfold HEADER_SIZE in *.
  destruct Hca as [Hca|(n & Hn & Hn')]; [rewrite length_app in Hca; lia|].
  rewrite header_app, Hh0 in Hn by (unfold HEADER_SIZE; lia). injection Hn as <-. rewrite length_app in Hn'. lia.
Qed.

(** A piece of a stream arrives: the records it completes are processed, and the reader is
    as before with the rest of the stream. *)
Lemma piece_ok s r carry x y rs part ok s' : Inv s -> carries r carry -> carry ++ x ++ y = concat rs ++ part ->
  Z.of_nat (length x) <= 2 ^ 16 - used r -> Forall whole rs -> partial least part ->
  run_records process s rs = Some (ok, s') ->
  overlap = true \/ (2 * length (leftover (carry ++ x)) <= length (carry ++ x))%nat ->
  let size := used r + Z.of_nat (length x) in
  exists o s1 m m' off' size', mem_write (copy r) (used r) x = Some m /\
    process_loop process least (records_fuel size) s m 0 size = Some (o, s1, m', off', size') /\
    if o : bool then off' = size - size' /\ exists m'' rs2 part1,
      (if size' =? 0 then Some m' else memcpy overlap m' 0 off' size') = Some m'' /\
      carries (Reader m'' size') part1 /\ part1 ++ y = concat rs2 ++ part /\ Forall whole rs2 /\
      partial least part1 /\ run_records process s1 rs2 = Some (ok, s') /\ Inv s1 /\ part1 = leftover (carry ++ x)
    else ok = false /\ s' = s1.
Proof using Type*.
  intros HI Hc Es Hlx Hrs Hp Er Hap size. pose proof Hc as (_ & Hu & _). rewrite app_assoc in Es.
  destruct (cut_frames _ Hleast _ _ _ _ Es Hrs Hp) as (rs1 & rs2 & part1 & -> & E1 & Hp1 & E2).
  apply Forall_app in Hrs as [Hrs1 Hrs2].
  assert (part1 = leftover (carry ++ x)) as Elo by (rewrite E1; symmetry; by apply (leftover_ok least)).
  assert (overlap = true \/ (length part1 <= length (concat rs1))%nat) as Hap1.
  { destruct Hap as [?|Hap]; [by left|right]. rewrite <- Elo, E1, length_app in Hap. lia. }
  destruct (run_records_app s rs1 rs2 ok s' Er) as [(s1 & Er1 & Er2)|[Er1 ->]].
  - destruct (round_ok s r carry x rs1 part1 true s1 HI Hc E1) as (m & m' & off' & size' & Em & El & HI' & Hok); [lia|done..|].
    exists true, s1, m, m', off', size'. split; [done|]. split; [done|]. destruct (Hok eq_refl) as (-> & m'' & E'' & H'').
    split; [done|]. exists m'', rs2, part1. by split_and!.
  - destruct (round_ok s r carry x rs1 part1 false s' HI Hc E1) as (m & m' & off' & size' & Em & El & HI' & Hok); [lia|done..|].
    by exists false, s', m, m', off', size'.
Qed.
End loops.

(** ** Any way a stream is cut, its records are processed *)

(** How the stream ends for now: nothing more yet, or the peer has shut down. *)
Inductive ends : list piece -> reading -> Prop :=
  | ends_open : ends [] Again
  | ends_shut : ends [Shut] HungUp.

Section receive.
Context (overlap : bool).
Context {S : Type} (process : S -> list Z -> Z -> option (bool * S * list Z)) (Inv : S -> Prop)
  (Hwithin : stays_within process Inv).

Lemma receive_bytes cs fin e : ends fin e -> concat (bytes_of <$> ((Data <$> cs) ++ fin)) = concat cs.
Proof using.
  intros He. rewrite fmap_app, concat_app. destruct He; cbn; rewrite app_nil_r;
    (induction cs as [|c cs IH]; [done|cbn; by f_equal]).
Qed.

Lemma tcp_receive_ok fuel s r carry cs fin e rs part ok s' : carries r carry -> ends fin e ->
  carry ++ concat cs = concat rs ++ part -> Forall whole rs -> partial (HEADER_SIZE + 1) part ->
  partial (HEADER_SIZE + 1) carry -> run_records process s rs = Some (ok, s') -> Inv s -> (length (concat cs) < fuel)%nat ->
  overlap = true \/ apart carry cs ->
  exists r' ps', tcp_receive process overlap fuel s r ((Data <$> cs) ++ fin) = Some (if ok then e else Freed, s', r', ps') /\
    (ok = true -> carries r' part /\ ps' = fin).
Proof using Type*.
  assert (HEADER_SIZE <= HEADER_SIZE + 1 <= HEADER_SIZE + 1) as Hleast by lia.
  revert s r carry cs rs. induction fuel as [|fuel IH]; intros s r carry cs rs Hc He Es Hrs Hp Hca Er HI Hf Hap; [lia|].
  pose proof Hc as (_ & Hu & _). pose proof (partial_small _ Hleast _ Hca) as Hsm. cbn [tcp_receive].
  change PERF_SAMPLE_MAX_SIZE with (2 ^ 16).
  rewrite Hu. destruct (recv_apart overlap _ carry cs fin Hleast Hca Hap) as [[E0 Erv]|(x & cs' & Hx & Hlx & Ecs & Erv & Hap')]; rewrite Erv; rewrite <- Hu in *.
  - rewrite E0, app_nil_r in Es. destruct (nothing_whole _ Hleast _ _ _ Hca Es Hrs) as [-> ->].
    injection Er as <- <-. destruct He; cbn; by do 2 eexists.
  - rewrite Ecs in Es. destruct x as [|b x]; [done|]. set (bx := b :: x) in *.
    destruct (piece_ok overlap process Inv Hwithin _ Hleast s r carry bx _ rs part ok s' HI Hc Es Hlx Hrs Hp Er ltac:(tauto))
      as (o & s1 & m & m' & off' & size' & Em & El & Hok).
    rewrite Em. cbn [mbind option_bind]. unfold tcp_process_event. rewrite El. cbn [mbind option_bind].
    set (size := used r + Z.of_nat (length bx)) in *. destruct o.
    + destruct Hok as (Eo & m'' & rs2 & part1 & Em'' & Hc'' & E2 & Hrs2 & Hp1 & Er2 & HI' & Elo).
      replace (size - (size - size')) with size' by lia. rewrite <- Eo, Em''. cbn [mbind option_bind].
      apply (IH s1 (Reader m'' size') part1 cs' rs2 Hc'' He E2 Hrs2 Hp Hp1 Er2 HI'); [|rewrite Elo; tauto].
      rewrite Ecs, length_app in Hf. unfold bx in Hf. cbn in Hf. lia.
    + destruct Hok as [-> ->]. rewrite Z.sub_diag. cbn. by do 2 eexists.
Qed.

Lemma cdev_receive_ok fuel s r carry cs fin e rs part ok s' : carries r carry -> ends fin e ->
  carry ++ concat cs = concat rs ++ part -> Forall whole rs -> partial HEADER_SIZE part ->
  partial HEADER_SIZE carry -> run_records process s rs = Some (ok, s') -> Inv s -> (length (concat cs) < fuel)%nat ->
  overlap = true \/ apart carry cs ->
  exists r' ps', cdev_receive process overlap fuel s r ((Data <$> cs) ++ fin) = Some (if ok then Again else Freed, s', r', ps') /\
    (ok = true -> carries r' part /\ ps' = fin).
Proof using Type*.
  assert (HEADER_SIZE <= HEADER_SIZE <= HEADER_SIZE + 1) as Hleast by lia.
  revert s r carry cs rs. induction fuel as [|fuel IH]; intros s r carry cs rs Hc He Es Hrs Hp Hca Er HI Hf Hap; [lia|].
  pose proof Hc as (_ & Hu & _). pose proof (partial_small _ Hleast _ Hca) as Hsm. cbn [cdev_receive].
  change BUF_LEN with (2 ^ 16).
  rewrite Hu. destruct (recv_apart overlap _ carry cs fin Hleast Hca Hap) as [[E0 Erv]|(x & cs' & Hx & Hlx & Ecs & Erv & Hap')]; rewrite Erv; rewrite <- Hu in *.
  - rewrite E0, app_nil_r in Es. destruct (nothing_whole _ Hleast _ _ _ Hca Es Hrs) as [-> ->].
    injection Er as <- <-. destruct He; cbn; by do 2 eexists.
  - rewrite Ecs in Es. destruct x as [|b x]; [done|]. set (bx := b :: x) in *.
    destruct (piece_ok overlap process Inv Hwithin _ Hleast s r carry bx _ rs part ok s' HI Hc Es Hlx Hrs Hp Er ltac:(tauto))
      as (o & s1 & m & m' & off' & size' & Em & El & Hok).
    rewrite Em. cbn [mbind option_bind]. rewrite El. cbn [mbind option_bind]. destruct o.
    + destruct Hok as (_ & m'' & rs2 & part1 & Em'' & Hc'' & E2 & Hrs2 & Hp1 & Er2 & HI' & Elo).
      rewrite Em''. cbn [mbind option_bind].
      apply (IH s1 (Reader m'' size') part1 cs' rs2 Hc'' He E2 Hrs2 Hp Hp1 Er2 HI'); [|rewrite Elo; tauto].
      rewrite Ecs, length_app in Hf. unfold bx in Hf. cbn in Hf. lia.
    + destruct Hok as [-> ->]. by do 2 eexists.
Qed.

(** ** Reading a file *)

(** One record of a file is read and processed. *)
Lemma file_record n s m r rest ok s1 r1 : Inv s -> Z.of_nat (length m) = 2 ^ 16 -> whole r -> process s r 0 = Some (ok, s1, r1) ->
  exists m1, file_loop process (Datatypes.S n) s m (r ++ rest) = (if ok then file_loop process n s1 m1 rest else Some (false, s1, m1, rest)) /\
    Z.of_nat (length m1) = 2 ^ 16 /\ header_size m1 0 = Some (Z.of_nat (length r)) /\ Inv s1.
Proof using Type*.
  intros HI Hm [Hh Hw] Ep. cbn [file_loop]. rewrite (take_app_le r) by (unfold HEADER_SIZE in *; lia).
  set (h := take (Z.to_nat HEADER_SIZE) r). assert (Z.of_nat (length h) = HEADER_SIZE) as Hhl by (unfold h, HEADER_SIZE in *; rewrite length_take; lia).
  destruct (mem_write_total m 0 h) as [m0 Em0]; [lia..|]. rewrite Em0. cbn [mbind option_bind].
  pose proof (length_mem_write _ _ _ _ Em0) as Hl0. apply mem_write_Some in Em0 as (_ & _ & Em0). change (Z.to_nat 0) with 0%nat in Em0. rewrite take_0 in Em0. cbn [app Nat.add] in Em0.
  rewrite (proj2 (Z.eqb_eq _ _)) by done. rewrite drop_app_le by (unfold HEADER_SIZE in *; lia).
  set (body := drop (length h) r). assert (r = h ++ body) as Er.
  { unfold body. replace (length h) with (Z.to_nat HEADER_SIZE) by lia. symmetry. apply take_drop. }
  assert (header_size m0 0 = Some (Z.of_nat (length r))) as ->.
  { rewrite Em0. cbn [app]. rewrite header_app by (unfold HEADER_SIZE in *; lia). rewrite Er in Hh at 1. by rewrite header_app in Hh by (unfold HEADER_SIZE in *; lia). }
  cbn [mbind option_bind]. assert (Z.of_nat (length body) = Z.of_nat (length r) - HEADER_SIZE) as Hbl.
  { rewrite Er at 1. rewrite length_app. lia. }
  rewrite u64_small by (unfold HEADER_SIZE in *; lia).
  rewrite Z.min_l by (rewrite length_app; lia). rewrite <- Hbl, Nat2Z.id, take_app_length.
  destruct (mem_write_total m0 HEADER_SIZE body) as [m1 Em1]; [done|lia|]. rewrite Em1. cbn [mbind option_bind].
  pose proof (length_mem_write _ _ _ _ Em1) as Hl1. apply mem_write_Some in Em1 as (_ & _ & Em1).
  set (post := drop (length r) m1).
  assert (m1 = [] ++ r ++ post) as E1.
  { assert (take (length r) m1 = r) as E; [|by rewrite <- (take_drop (length r) m1) at 1; rewrite E].
    rewrite Em1, Em0. cbn [app]. replace (Z.to_nat HEADER_SIZE) with (length h) by lia. rewrite take_app_length, app_assoc, <- Er. apply take_app_length. }
  rewrite E1. destruct (Hwithin s r ok s1 r1 [] post HI Ep Hh) as (Epr & Elen & Ehd & HI1). change (Z.of_nat (length (@nil Z))) with 0 in Epr. cbn [app] in Epr |- *.
  rewrite header_app, Hh by (unfold HEADER_SIZE in *; lia). cbn [mbind option_bind].
  replace (HEADER_SIZE + Z.of_nat (length body)) with (Z.of_nat (length r)) by lia. rewrite Z.eqb_refl. cbn [negb].
  rewrite Epr. cbn [mbind option_bind]. rewrite drop_app_length. exists (r1 ++ post). split; [done|].
  split; [|split; [|done]].
  - rewrite E1 in Hl1. cbn [app] in Hl1. rewrite !length_app in *. lia.
  - unfold HEADER_SIZE in *. rewrite header_app by (unfold HEADER_SIZE; lia). rewrite <- Hh.
    rewrite <- (take_drop (Z.to_nat 8) r1), <- (take_drop (Z.to_nat 8) r), Ehd. by rewrite !header_app by (unfold HEADER_SIZE; rewrite ?length_take; lia).
Qed.

(** At the end of the file the block is freed, unless the array happens to hold a record of
    no length. *)
Lemma file_end n s m size : Z.of_nat (length m) = 2 ^ 16 -> header_size m 0 = Some size -> size <> 0 ->
  file_loop process (Datatypes.S n) s m [] = Some (false, s, m, []).
Proof using.
  intros Hm Hh Hs. cbn [file_loop take drop length]. rewrite take_nil. cbn [length drop].
  assert (mem_write m 0 [] = Some m) as -> by (apply mem_write_Some; rewrite drop_0; split_and!; [lia|cbn; lia|done]).
  cbn [mbind option_bind]. change (Z.of_nat 0 =? HEADER_SIZE) with false. cbn [mbind option_bind]. rewrite Hh. cbn [mbind option_bind].
  rewrite (proj2 (Z.eqb_neq _ _)) by (cbn; lia). done.
Qed.

(** A call passes 64 records, or the rest. *)
Lemma file_call_ok n rs s m s' : Inv s -> Z.of_nat (length m) = 2 ^ 16 -> Forall whole rs ->
  run_records process s rs = Some (true, s') -> (rs = [] -> exists size, header_size m 0 = Some size /\ size <> 0) ->
  exists ok s1 m1 rest, file_loop process (Datatypes.S n) s m (concat rs) = Some (ok, s1, m1, concat rest) /\ Inv s1 /\
    if ok : bool then rest = drop (Datatypes.S n) rs /\ run_records process s1 rest = Some (true, s') /\ (n < length rs)%nat
    else rest = [] /\ s1 = s' /\ (length rs <= n)%nat.
Proof using Type*.
  revert rs s m. induction n as [|n IH]; intros rs s m HI Hm Hrs Er Hempty.
  - destruct Hrs as [|r rs Hw Hrs].
    + injection Er as <-. destruct (Hempty eq_refl) as (size & Hh & Hs). cbn [concat]. rewrite (file_end 0 s m size Hm Hh Hs).
      exists false, s, m, []. by split_and!.
    + cbn [run_records] in Er. destruct (process s r 0) as [[[ok s1] r1]|] eqn:Ep; [|done]. cbn [mbind option_bind] in Er. destruct ok; [|done].
      destruct (file_record 0 s m r (concat rs) _ s1 r1 HI Hm Hw Ep) as (m1 & E & Hm1 & Hh1 & HI1). cbn [concat]. rewrite E. cbn [file_loop].
      exists true, s1, m1, rs. split_and!; [done..|cbn; lia].
  - destruct Hrs as [|r rs Hw Hrs].
    + injection Er as <-. destruct (Hempty eq_refl) as (size & Hh & Hs). cbn [concat]. rewrite (file_end _ s m size Hm Hh Hs).
      exists false, s, m, []. split_and!; [done..|cbn; lia].
    + cbn [run_records] in Er. destruct (process s r 0) as [[[ok s1] r1]|] eqn:Ep; [|done]. cbn [mbind option_bind] in Er. destruct ok; [|done].
      destruct (file_record (Datatypes.S n) s m r (concat rs) _ s1 r1 HI Hm Hw Ep) as (m1 & E & Hm1 & Hh1 & HI1). cbn [concat]. rewrite E.
      destruct (IH rs s1 m1 HI1 Hm1 Hrs Er) as (ok & s2 & m2 & rest & -> & HI2 & H2).
      { intros _. eexists. split; [done|]. destruct Hw. unfold HEADER_SIZE in *. lia. }
      exists ok, s2, m2, rest. split; [done|]. split; [done|]. destruct ok; destruct H2 as (? & ? & ?); (split_and!; [done..|cbn; lia]).
Qed.

Lemma read_file_ok ms rs s s' : Inv s -> Forall whole rs -> run_records process s rs = Some (true, s') ->
  Forall (fun m => Z.of_nat (length m) = 2 ^ 16 /\ exists size, header_size m 0 = Some size /\ size <> 0) ms ->
  (length rs < 64 * length ms)%nat -> read_file process ms s (concat rs) = Some (false, s', []).
Proof using Type*.
  intros HI Hrs Er Hms. revert rs s HI Hrs Er. induction Hms as [|m ms [Hm Hsz] _ IH]; intros rs s HI Hrs Er Hl; [cbn in Hl; lia|].
  cbn [read_file]. unfold handle_file_event.
  destruct (file_call_ok 63 rs s m s' HI Hm Hrs Er (fun _ => Hsz)) as (ok & s1 & m1 & rest & -> & HI1 & H1). cbn [mbind option_bind]. destruct ok.
  - destruct H1 as (-> & Er1 & Hlong). apply (IH _ s1 HI1); [by apply Forall_drop|done|]. rewrite length_drop. cbn [length] in Hl. lia.
  - destruct H1 as (-> & -> & _). done.
Qed.
End receive.
