(* ===== verification/Pull.v ===== *)
(** * Pulling events from another host (event-spread.c)

    The readers of [PullRead] with the processing of [PullEvent]: what a device is handed
    does not depend on how the stream was cut.  For devices whose events are ordered,
    [block_read_event] reads one event at a time. *)

From S2P Require Import Prelude Bytes Mmap Convert Watermark Circ PullEvent PullRead.

(** ** A record is processed in place *)

Lemma header_framed pre r post : HEADER_SIZE <= Z.of_nat (length r) ->
  header_size (pre ++ r ++ post) (Z.of_nat (length pre)) = header_size r 0.
Proof.
  intros Hl. rewrite <- (Z.add_0_r (Z.of_nat (length pre))), header_shift, header_app; rewrite ?length_app; lia || done.
Qed.

Lemma header_kept r r' : kept r r' -> HEADER_SIZE <= Z.of_nat (length r) -> header_size r' 0 = header_size r 0.
Proof.
  unfold HEADER_SIZE. intros [Hl Ht] Hr.
  rewrite <- (take_drop (Z.to_nat 8) r), <- (take_drop (Z.to_nat 8) r'). unfold HEADER_SIZE in Ht. rewrite Ht.
  by rewrite !header_app by (unfold HEADER_SIZE; rewrite ?length_take; lia).
Qed.

Section process.
Context (t : tp).

(** The block knows the positions of its tracepoint, or none yet. *)
Definition pull_ok (p : pull) : Prop := forall e, evsel t = Some e ->
  block_ok (stype (eattr e)) (perf_evsel__read_size (eattr e)) (pblock p).

Lemma pass_record r ins p : header_size r 0 = Some (Z.of_nat (length r)) ->
  pass r 0 ins p = Some (Pull (pblock p) (passed p ++ [(r, ins)])).
Proof.
  intros Hh. unfold pass. rewrite Hh. cbn [mbind option_bind].
  rewrite (proj2 (mem_read_Some r 0 _ r)); [done|]. split_and!; [lia..|]. by rewrite drop_0, take_ge by lia.
Qed.

Lemma pass_framed pre post r ins p : header_size r 0 = Some (Z.of_nat (length r)) -> HEADER_SIZE <= Z.of_nat (length r) ->
  pass (pre ++ r ++ post) (Z.of_nat (length pre)) ins p = pass r 0 ins p.
Proof.
  intros Hh Hl. rewrite pass_record by done. unfold pass. rewrite header_framed, Hh by done. cbn [mbind option_bind].
  rewrite (proj2 (mem_read_Some _ _ _ r)); [done|]. rewrite !length_app. split_and!; [lia..|].
  by rewrite !Nat2Z.id, drop_app_length, take_app_length.
Qed.

Lemma get_needs n m off v : get_le n m off = Some v -> 0 <= off /\ off + Z.of_nat n <= Z.of_nat (length m).
Proof. intros (bs & (? & ? & ? & _)%mem_read_Some & _)%fmap_Some. lia. Qed.

Lemma process_within : pullable t -> stays_within (block_process_event t) pull_ok.
Proof.
  intros Hpull p r ok p' r' pre post HI E Hh.
  assert (HEADER_SIZE <= Z.of_nat (length r)) as Hl by (apply get_needs in Hh; unfold HEADER_SIZE; lia).
  unfold block_process_event in *. destruct (header_type r 0) as [ty|] eqn:Ety; [|done]. cbn [mbind option_bind] in E.
  unfold header_type in *. rewrite (get_framed pre post _ _ _ _ (Z.of_nat (length pre)) Ety) by lia. cbn [mbind option_bind].
  destruct (ty =? PERF_RECORD_TP).
  - destruct (tp_matches t r 0) as [same|] eqn:Em; [|done]. cbn [mbind option_bind] in E.
    rewrite (tp_matches_framed t pre post _ _ Em). cbn [mbind option_bind]. destruct same; [|by injection E as <- <- <-].
    destruct (get_le 4 r (0 + 8)) as [id|] eqn:Ei; [|done]. injection E as <- <- <-.
    rewrite (get_framed pre post _ _ _ _ _ Ei) by lia. split_and!; [done..|].
    intros e He. destruct (HI e He) as (b0 & -> & Hb0). exists b0. split; [done|exact Hb0].
  - destruct (ty =? PERF_RECORD_SAMPLE).
    + destruct (negb (dev_enabled t)); [by injection E as <- <- <-|].
      destruct (block_event_convert t (pblock p) r 0) as [[[ins b] r1]|] eqn:Ec; [|done]. cbn [mbind option_bind] in E.
      assert (block_event_convert t (pblock p) (pre ++ r ++ post) (Z.of_nat (length pre)) = Some (ins, b, pre ++ r1 ++ post) /\
                kept r r1 /\ (forall e, evsel t = Some e -> block_ok (stype (eattr e)) (perf_evsel__read_size (eattr e)) b)) as (-> & Hk & Hb).
      { destruct (evsel t) as [e|] eqn:Ee.
        - destruct (block_event_convert_framed t pre post e _ _ _ _ _ Ee Hpull (HI e Ee) Ec) as (-> & Hk & Hb).
          split; [done|]. split; [done|]. by intros e' [= <-].
        - unfold block_event_convert in *. rewrite Ee in *. by injection Ec as <- <- <-. }
      cbn [mbind option_bind]. pose proof Hk as [Hlen Htk]. destruct (ins <? 0); [by injection E as <- <- <-|].
      assert (header_size r1 0 = Some (Z.of_nat (length r1))) as Hh1 by (rewrite (header_kept r r1), Hlen; done).
      rewrite pass_framed by (done || lia). rewrite pass_record in E |- * by done. injection E as <- <- <-. done.
    + destruct (negb (dev_enabled t)); [by injection E as <- <- <-|].
      rewrite pass_framed by done. rewrite pass_record in E |- * by done. by injection E as <- <- <-.
Qed.
End process.

(** ** Reading one event at a time

    [block_read_event] is what the ordering calls for the next event of a stream.  It
    answers with the event in its buffer, with no event, or the block was freed; [None] is
    a use of the block after it was freed. *)

Inductive answered :=
  | Got (r : list Z) (ins : Z)
  | Null
  | BlockFreed.

(** [block->event_buf], the offset of [block->event] in it, and [block->size]. *)
Record block_buf := BlockBuf { event_buf : list Z; event : Z; bsize : Z }.

Definition skip_event (b : block_buf) : option block_buf :=
  if HEADER_SIZE <? bsize b then
    n ← header_size (event_buf b) (event b);
    Some (if n <=? bsize b then BlockBuf (event_buf b) (event b + n) (bsize b - n) else b)
  else Some b.

Definition incomplete (b : block_buf) : option bool :=
  if bsize b <=? HEADER_SIZE then Some true
  else n ← header_size (event_buf b) (event b); Some (bsize b <? n).

Section ordered.
Context (overlap : bool) (tcp : bool) (t : tp).

(** [read_init] after what is left is moved to the front: [tcp_recv] frees the block when
    the peer has shut down, and returns 0; false is a return without an event. *)
Definition refill (b : block_buf) (ps : list piece) : option (bool * block_buf * list piece) :=
  m ← (if negb (bsize b =? 0) && negb (event b =? 0) then memcpy overlap (event_buf b) 0 (event b) (bsize b)
       else Some (event_buf b));
  match recv (BUF_LEN - bsize b) ps with
  | (inl [], ps) => if tcp then None else Some (true, BlockBuf m 0 (bsize b), ps)
  | (inl bs, ps) =>
      m ← mem_write m (bsize b) bs;
      Some (true, BlockBuf m 0 (bsize b + Z.of_nat (length bs)), ps)
  | (inr e, ps) =>
      if e =? EAGAIN then Some (true, BlockBuf m 0 (bsize b), ps)
      else Some (false, BlockBuf m (event b) (bsize b), ps)
  end.

(** What is done with the record at the front: [inl] goes on to the next. *)
Definition look (p : pull) (m : list Z) (off : Z) : option ((unit + answered) * pull * list Z) :=
  ty ← header_type m off;
  if ty =? PERF_RECORD_TP then
    '(ok, p, m) ← block_process_event t p m off;
    Some (if (ok : bool) then inl tt else inr BlockFreed, p, m)
  else if negb (dev_enabled t) then Some (inl tt, p, m)
  else
    '(ins, p, m) ← (if ty =? PERF_RECORD_SAMPLE then
                      '(ins, b, m) ← block_event_convert t (pblock p) m off;
                      Some (ins, Pull b (passed p), m)
                    else Some (0, p, m));
    if ins <? 0 then Some (inl tt, p, m)
    else
      n ← header_size m off;
      r ← mem_read m off n;
      Some (inr (Got r ins), p, m).

Fixpoint block_read_event (fuel : nat) (init : bool) (p : pull) (b : block_buf) (ps : list piece)
  : option (answered * pull * block_buf * list piece) :=
  match fuel with
  | O => None
  | S fuel =>
      b ← skip_event b;
      more ← incomplete b;
      '(read, b, ps) ← (if init && more then refill b ps else Some (true, b, ps));
      if negb read then Some (Null, p, b, ps)
      else
        more ← incomplete b;
        if (more : bool) then Some (Null, p, b, ps)
        else
          '(a, p, m) ← look p (event_buf b) (event b);
          let b := BlockBuf m (event b) (bsize b) in
          match a with
          | inl _ => block_read_event fuel init p b ps
          | inr a => Some (a, p, b, ps)
          end
  end.

(** Each round but the last passes a record. *)
Definition read_fuel (b : block_buf) (ps : list piece) : nat :=
  S (S (Z.to_nat (bsize b) + length (concat (bytes_of <$> ps)))).

(** Reading until there is nothing to read, a batch of pieces at a time, as the ordering
    does: [inits] says which calls may read from the descriptor. *)
Fixpoint read_calls (inits : list bool) (p : pull) (b : block_buf) (ps : list piece)
  : option (list (list Z * Z) * bool * pull * block_buf * list piece) :=
  match inits with
  | [] => Some ([], true, p, b, ps)
  | init :: inits =>
      '(a, p, b, ps) ← block_read_event (read_fuel b ps) init p b ps;
      match a with
      | BlockFreed => Some ([], false, p, b, ps)
      | Null => read_calls inits p b ps
      | Got r ins =>
          '(es, ok, p, b, ps) ← read_calls inits p b ps;
          Some ((r, ins) :: es, ok, p, b, ps)
      end
  end.

(** The events of a list of records, each by itself. *)
Fixpoint look_records (p : pull) (rs : list (list Z)) : option (list (list Z * Z) * bool * pull) :=
  match rs with
  | [] => Some ([], true, p)
  | r :: rs =>
      '(a, p, _) ← look p r 0;
      match a with
      | inl _ => look_records p rs
      | inr BlockFreed => Some ([], false, p)
      | inr Null => None
      | inr (Got r ins) =>
          '(es, ok, p) ← look_records p rs;
          Some ((r, ins) :: es, ok, p)
      end
  end.
End ordered.

(** ** One event at a time is all events *)

Section reading.
Context (overlap : bool) (t : tp) (Hpull : pullable t) (tcp : bool).

Local Notation least := (HEADER_SIZE + 1).
Local Notation part_of_record := (partial least).

Lemma least_ok : HEADER_SIZE <= least <= HEADER_SIZE + 1.
Proof using. lia. Qed.

Lemma look_within p r a p' r' pre post : pull_ok t p -> look t p r 0 = Some (a, p', r') -> header_size r 0 = Some (Z.of_nat (length r)) ->
  look t p (pre ++ r ++ post) (Z.of_nat (length pre)) = Some (a, p', pre ++ r' ++ post) /\ kept r r' /\ pull_ok t p' /\
  (forall x ins, a = inr (Got x ins) -> x = r') /\ a <> inr Null.
Proof using Hpull.
  intros HI E Hh. assert (HEADER_SIZE <= Z.of_nat (length r)) as Hl by (apply get_needs in Hh; unfold HEADER_SIZE; lia).
  unfold look in *. destruct (header_type r 0) as [ty|] eqn:Ety; [|done]. cbn [mbind option_bind] in E.
  unfold header_type in Ety |- *. rewrite (get_framed pre post _ _ _ _ (Z.of_nat (length pre)) Ety) by lia. cbn [mbind option_bind].
  destruct (ty =? PERF_RECORD_TP).
  { destruct (block_process_event t p r 0) as [[[ok p1] r1]|] eqn:Ep; [|done]. injection E as <- <- <-.
    destruct (process_within t Hpull p r ok p1 r1 pre post HI Ep Hh) as (-> & Hk1 & Hk2 & HI'). cbn [mbind option_bind].
    split; [done|]. split; [done|]. split; [done|]. by destruct ok. }
  destruct (negb (dev_enabled t)); [by injection E as <- <- <-|].
  assert (forall ins p1 r1, kept r r1 -> pull_ok t p1 ->
    (if ins <? 0 then Some (inl tt, p1, r1) else n ← header_size r1 0; x ← mem_read r1 0 n; Some (inr (Got x ins), p1, r1)) = Some (a, p', r') ->
    (if ins <? 0 then Some (inl tt, p1, pre ++ r1 ++ post) else n ← header_size (pre ++ r1 ++ post) (Z.of_nat (length pre));
       x ← mem_read (pre ++ r1 ++ post) (Z.of_nat (length pre)) n; Some (inr (Got x ins), p1, pre ++ r1 ++ post)) = Some (a, p', pre ++ r' ++ post) /\
    kept r r' /\ pull_ok t p' /\ (forall x ins, a = inr (Got x ins) -> x = r') /\ a <> inr Null) as Hfin.
  { intros ins p1 r1 Hk HI' E'. destruct (ins <? 0); [by injection E' as <- <- <-|]. pose proof Hk as [Hk1 _].
    rewrite header_framed by lia. rewrite (header_kept r r1 Hk Hl), Hh in *. cbn [mbind option_bind] in *.
    assert (forall m off, m = r1 /\ off = 0 \/ m = pre ++ r1 ++ post /\ off = Z.of_nat (length pre) ->
              mem_read m off (Z.of_nat (length r)) = Some r1) as Hm.
    { intros m off Hm. rewrite <- Hk1. apply mem_read_Some. destruct Hm as [[-> ->]|[-> ->]].
      - split_and!; [lia..|]. by rewrite drop_0, take_ge by lia.
      - rewrite !length_app. split_and!; [lia..|]. by rewrite !Nat2Z.id, drop_app_length, take_app_length. }
    rewrite Hm in E' |- * by auto. injection E' as <- <- <-. split; [done|]. split; [done|]. split; [done|].
    split; [by intros ?? [= <- _]|done]. }
  destruct (ty =? PERF_RECORD_SAMPLE).
  - destruct (block_event_convert t (pblock p) r 0) as [[[ins b] r1]|] eqn:Ec; [|done]. cbn [mbind option_bind] in E.
    destruct (evsel t) as [e|] eqn:Ee.
    + destruct (block_event_convert_framed t pre post e _ _ _ _ _ Ee Hpull (HI e Ee) Ec) as (-> & Hk & Hb). cbn [mbind option_bind].
      apply Hfin; [done| |done]. intros e' He'. rewrite Ee in He'. by injection He' as <-.
    + unfold block_event_convert in *. rewrite Ee in *. injection Ec as <- <- <-. cbn [mbind option_bind]. by apply Hfin.
  - cbn [mbind option_bind] in *. by apply Hfin.
Qed.

(** The buffer holds the event handed out last, then bytes not looked at yet. *)
Definition holds (b : block_buf) (cur rest : list Z) : Prop :=
  Z.of_nat (length (event_buf b)) = 2 ^ 16 /\ bsize b = Z.of_nat (length cur + length rest) /\
  exists pre post, event_buf b = pre ++ cur ++ rest ++ post /\ event b = Z.of_nat (length pre).

Definition handed (cur rest : list Z) : Prop := whole cur \/ cur = [] /\ part_of_record rest.

Lemma holds_header b x rest : holds b x rest -> HEADER_SIZE <= Z.of_nat (length (x ++ rest)) ->
  header_size (event_buf b) (event b) = header_size (x ++ rest) 0.
Proof using.
  intros (_ & _ & pre & post & -> & ->) Hl. rewrite (app_assoc x). apply header_framed. done.
Qed.

Lemma skip_ok b cur rest : holds b cur rest -> handed cur rest -> exists b', skip_event b = Some b' /\ holds b' [] rest /\ event b' + bsize b' = event b + bsize b.
Proof using.
  intros Hb Hc. pose proof Hb as (Hlen & Hsz & pre & post & Eb & Ee). unfold skip_event.
  destruct (Z.ltb_spec HEADER_SIZE (bsize b)).
  - rewrite (holds_header b cur rest Hb) by (rewrite length_app; lia).
    destruct Hc as [[Hh Hw]|[-> Hp]].
    + rewrite header_app, Hh by lia. cbn [mbind option_bind]. rewrite (proj2 (Z.leb_le _ _)) by lia. eexists. split; [done|].
      split; [|cbn; lia]. split; [done|]. split; [cbn; lia|]. exists (pre ++ cur), post. cbn. rewrite <- app_assoc, length_app. split; [done|]. lia.
    + destruct Hp as [Hp|(n & Hn & Hp)]; [cbn in Hsz; unfold HEADER_SIZE in *; lia|]. cbn [app]. rewrite Hn. cbn [mbind option_bind].
      rewrite (proj2 (Z.leb_gt _ _)) by (cbn in Hsz; lia). by exists b.
  - destruct Hc as [[Hh Hw]|[-> Hp]]; [unfold HEADER_SIZE in *; lia|]. by exists b.
Qed.

(** Whether a record is in front. *)
Lemma incomplete_part b rest : holds b [] rest -> part_of_record rest -> incomplete b = Some true.
Proof using.
  intros Hb Hp. pose proof Hb as (_ & Hsz & _). cbn in Hsz. unfold incomplete. destruct (Z.leb_spec (bsize b) HEADER_SIZE); [done|].
  rewrite (holds_header b [] rest Hb) by (cbn; lia). destruct Hp as [Hp|(n & Hn & Hp)]; [unfold HEADER_SIZE in *; lia|].
  cbn [app]. rewrite Hn. cbn. f_equal. lia.
Qed.

Lemma incomplete_whole b r rest : holds b [] (r ++ rest) -> whole r -> incomplete b = Some false.
Proof using.
  intros Hb [Hh Hw]. pose proof Hb as (_ & Hsz & _). cbn in Hsz. rewrite length_app in Hsz. unfold incomplete.
  destruct (Z.leb_spec (bsize b) HEADER_SIZE); [lia|].
  rewrite (holds_header b [] _ Hb) by (cbn; rewrite length_app; lia). cbn [app]. rewrite header_app, Hh by lia. cbn. f_equal. lia.
Qed.

(** What will be left of the bytes not looked at yet, which end at [total], can be moved
    to the front, and so can what is left of the pieces to come. *)
Definition spaced (total : Z) (rest : list Z) (cs : list (list Z)) : Prop :=
  overlap = true \/
  (let lo := Z.of_nat (length (leftover rest)) in total = lo \/ 2 * lo <= total) /\ apart (leftover rest) cs.

Lemma leftover_part rest : part_of_record rest -> leftover rest = rest.
Proof using. apply (leftover_ok least least_ok [] rest). constructor. Qed.

Lemma spaced_next total r rs part cs : whole r -> Forall whole rs -> part_of_record part ->
  spaced total (r ++ concat rs ++ part) cs -> spaced total (concat rs ++ part) cs.
Proof using.
  intros Hr Hrs Hp. unfold spaced. rewrite (leftover_ok least least_ok rs part) by done.
  pose proof (leftover_ok least least_ok (r :: rs) part) as E. cbn [concat] in E. rewrite <- app_assoc in E.
  rewrite E; [done|by constructor|done].
Qed.

(** Reading more of the stream. *)
Lemma refill_ok b rest cs : holds b [] rest -> part_of_record rest -> spaced (event b + bsize b) rest cs ->
  exists b' x cs', refill overlap tcp b (Data <$> cs) = Some (true, b', Data <$> cs') /\ holds b' [] (rest ++ x) /\
    concat cs = x ++ concat cs' /\ (x = [] -> concat cs = []) /\ spaced (event b' + bsize b') (rest ++ x) cs'.
Proof using.
  intros Hb Hp Hsp. pose proof Hb as (Hlen & Hsz & pre & post & Eb & Ee). cbn in Hsz. pose proof (partial_small _ least_ok _ Hp) as Hsm.
  unfold refill.
  assert (exists m, (if negb (bsize b =? 0) && negb (event b =? 0) then memcpy overlap (event_buf b) 0 (event b) (bsize b)
             else Some (event_buf b)) = Some m /\ Z.of_nat (length m) = 2 ^ 16 /\ take (length rest) m = rest) as (m & -> & Hlm & Hm).
  { destruct (Z.eqb_spec (bsize b) 0); [|destruct (Z.eqb_spec (event b) 0)]; cbn [negb andb].
    - eexists. split; [done|]. split; [done|]. destruct rest; [done|cbn in Hsz; lia].
    - eexists. split; [done|]. split; [done|]. rewrite Eb. destruct pre; [|cbn in Ee; lia]. cbn. by rewrite take_app_length.
    - rewrite Eb, Ee, Hsz. cbn [app length Nat.add]. rewrite keep_part.
      2: { destruct Hsp as [?|[Hsp _]]; [by left|right]. rewrite (leftover_part rest Hp) in Hsp. cbv zeta in Hsp. lia. }
      eexists. split; [done|].
      rewrite length_app, length_drop. rewrite Eb in Hlen. cbn [app] in Hlen. rewrite !length_app in *. split; [lia|]. by rewrite take_app_length. }
  cbn [mbind option_bind]. change BUF_LEN with (2 ^ 16).
  assert (overlap = true \/ apart rest cs) as Hap.
  { destruct Hsp as [?|[_ Hsp]]; [by left|right]. by rewrite (leftover_part rest Hp) in Hsp. }
  destruct (recv_apart overlap least rest cs [] least_ok Hp Hap) as [[E0 Erv]|(x & cs' & Hx & Hlx & Ecs & Erv & Hap')];
    rewrite app_nil_r in Erv; replace (Z.of_nat (length rest)) with (bsize b) in Erv by lia; rewrite Erv.
  - cbn. eexists _, [], []. split; [done|]. rewrite app_nil_r. split; [|split; [by rewrite E0|split; [done|]]].
    2: { right. rewrite (leftover_part rest Hp). cbn. split; [left; lia|done]. }
    split; [done|]. split; [done|]. exists [], (drop (length rest) m). cbn. split; [|done]. by rewrite <- Hm at 1; rewrite take_drop.
  - rewrite app_nil_r. destruct x as [|z x]; [done|]. set (zx := z :: x) in *.
    destruct (mem_write_total m (bsize b) zx) as [m' E]; [lia..|]. rewrite E. cbn [mbind option_bind].
    eexists _, zx, cs'. split; [done|].
    split; [|split; [done|split; [by intros ?|]]].
    2: { destruct Hap' as [?|[Hl Hap']]; [by left|right]. split; [right|done]. cbn [event bsize]. rewrite length_app in Hl. lia. } pose proof (length_mem_write _ _ _ _ E) as Hl'. clearbody zx.
    apply mem_write_Some in E as (_ & _ & E). split; [cbn; lia|]. split; [cbn; rewrite length_app; lia|].
    exists [], (drop (Z.to_nat (bsize b) + length zx) m). cbn [app event_buf event length]. split; [|done].
    rewrite E, Hsz, Nat2Z.id, Hm. by rewrite <- app_assoc.
Qed.

(** A reader of the stream whose events to come are [evs]. *)
Definition reading_ok (part : list Z) (p : pull) (b : block_buf) (cs : list (list Z)) (evs : list (list Z * Z)) (ok : bool) (p' : pull) : Prop :=
  exists cur rest rs, holds b cur rest /\ handed cur rest /\ rest ++ concat cs = concat rs ++ part /\ Forall whole rs /\
    part_of_record part /\ look_records t p rs = Some (evs, ok, p') /\ pull_ok t p /\
    spaced (event b + bsize b) rest cs.

(** What follows a call. *)
Definition answer_ok (part : list Z) (init : bool) (cs : list (list Z)) (evs : list (list Z * Z)) (ok : bool) (p' : pull)
    (a : answered) (p1 : pull) (b1 : block_buf) (cs1 : list (list Z)) : Prop :=
  match a with
  | Got r ins => exists evs', evs = (r, ins) :: evs' /\ reading_ok part p1 b1 cs1 evs' ok p' /\
      (length (concat cs1) <= length (concat cs))%nat
  | Null => reading_ok part p1 b1 cs1 evs ok p' /\
      (init = true -> (length (concat cs1) < length (concat cs))%nat \/ evs = [] /\ ok = true)
  | BlockFreed => evs = [] /\ ok = false /\ p1 = p'
  end.

(** The record in front is looked at. *)
Lemma front_ok init part b r rest cs cs0 p rs evs ok p' : holds b [] (r ++ rest) -> rest ++ concat cs = concat rs ++ part ->
  Forall whole (r :: rs) -> part_of_record part -> look_records t p (r :: rs) = Some (evs, ok, p') -> pull_ok t p ->
  (length (concat cs) <= length (concat cs0))%nat -> spaced (event b + bsize b) rest cs ->
  exists a p1 m, look t p (event_buf b) (event b) = Some (a, p1, m) /\
    let b1 := BlockBuf m (event b) (bsize b) in
    match a with
    | inl _ => reading_ok part p1 b1 cs evs ok p' /\
        exists cur, holds b1 cur rest /\ whole cur /\ look_records t p1 rs = Some (evs, ok, p') /\ pull_ok t p1
    | inr a => answer_ok part init cs0 evs ok p' a p1 b1 cs
    end.
Proof using Hpull.
  intros Hb Es Hrs Hp Er HI Hcs Hspc. inversion Hrs as [|? ? [Hh Hw] Hrs']; subst. cbn [look_records] in Er.
  destruct (look t p r 0) as [[[a p1] r1]|] eqn:El; [|done]. cbn [mbind option_bind] in Er.
  destruct Hb as (Hlen & Hsz & pre & post & Eb & Ee). cbn [app] in Eb.
  destruct (look_within p r a p1 r1 pre (rest ++ post) HI El Hh) as (Ew & Hk & HI1 & Hgot & Hnull).
  rewrite Ee in Hspc. rewrite Eb, Ee, <- app_assoc, Ew. exists a, p1. eexists. split; [done|]. cbv zeta. pose proof Hk as [Hk1 _].
  assert (whole r1) as Hw1 by (split; [rewrite (header_kept r r1 Hk), Hh, Hk1 by lia; done|lia]).
  assert (holds (BlockBuf (pre ++ r1 ++ rest ++ post) (Z.of_nat (length pre)) (bsize b)) r1 rest) as Hb1.
  { split; [cbn; rewrite Eb in Hlen; rewrite !length_app in *; lia|]. split; [cbn in *; rewrite length_app in Hsz; lia|].
    by exists pre, post. }
  destruct a as [[]|[x ins| |]].
  - split; [|by exists r1]. exists r1, rest, rs. split; [done|]. split; [by left|]. done.
  - destruct (look_records t p1 rs) as [[[evs' ok'] p2]|] eqn:E; [|done]. injection Er as <- <- <-.
    rewrite (Hgot x ins eq_refl). exists evs'. split; [done|]. split; [|done]. exists r1, rest, rs. split; [done|]. split; [by left|]. done.
  - done.
  - by injection Er as <- <- <-.
Qed.

Lemma block_read_event_ok fuel init part p b cs rs cur rest evs ok p' : holds b cur rest -> handed cur rest ->
  rest ++ concat cs = concat rs ++ part -> Forall whole rs -> part_of_record part ->
  look_records t p rs = Some (evs, ok, p') -> pull_ok t p -> spaced (event b + bsize b) rest cs -> (length rs < fuel)%nat ->
  exists a p1 b1 cs1, block_read_event overlap tcp t fuel init p b (Data <$> cs) = Some (a, p1, b1, Data <$> cs1) /\
    answer_ok part init cs evs ok p' a p1 b1 cs1.
Proof using Hpull.
  revert p b cs rs cur rest. induction fuel as [|fuel IH]; intros p b cs rs cur rest Hb Hc Es Hrs Hp Er HI Hsp Hf; [lia|].
  destruct (skip_ok b cur rest Hb Hc) as (b0 & Esk & Hb0 & Etot). rewrite <- Etot in Hsp. cbn [block_read_event]. rewrite Esk. cbn [mbind option_bind].
  (* the bytes in front: a record, or less *)
  assert (exists b1 rest1 cs1 more, incomplete b0 = Some more /\
     (if init && more then refill overlap tcp b0 (Data <$> cs) else Some (true, b0, Data <$> cs)) = Some (true, b1, Data <$> cs1) /\
     holds b1 [] rest1 /\ rest1 ++ concat cs1 = concat rs ++ part /\ (length (concat cs1) <= length (concat cs))%nat /\
     (init = true -> part_of_record rest1 -> (length (concat cs1) < length (concat cs))%nat \/ concat cs1 = []) /\
     spaced (event b1 + bsize b1) rest1 cs1)
    as (b1 & rest1 & cs1 & more & Em & Erf & Hb1 & Es1 & Hle & Hprog & Hsp1).
  { destruct (cut_frames _ least_ok _ _ _ _ Es Hrs Hp) as ([|r rs1] & rs2 & part1 & -> & E1 & Hp1 & E2).
    - cbn in E1. subst rest. destruct init.
      + destruct (refill_ok b0 part1 cs Hb0 Hp1 Hsp) as (b1 & x & cs1 & E & Hb1 & Ecs & Hx & Hsp1).
        exists b1, (part1 ++ x), cs1, true. split; [by eapply incomplete_part|]. split; [exact E|]. split; [done|].
        rewrite <- app_assoc, <- Ecs. split; [done|]. rewrite Ecs, length_app. split; [lia|]. split; [|done]. intros _ _.
        destruct x; [right|left; cbn; lia]. rewrite Ecs in Hx. by apply Hx.
      + exists b0, part1, cs, true. split; [by eapply incomplete_part|]. by split_and!.
    - cbn in E1. rewrite E1 in *. rewrite <- app_assoc in Hb0. inversion Hrs; subst.
      exists b0, (r ++ concat rs1 ++ part1), cs, false. split; [by eapply incomplete_whole|]. rewrite andb_false_r. split; [done|].
      split; [done|]. split; [by rewrite <- !app_assoc in *|]. split; [done|]. split; [|by rewrite <- app_assoc in Hsp]. intros _ Hpp.
      destruct (nothing_whole _ least_ok _ [r] (concat rs1 ++ part1) Hpp) as [? _]; [by cbn; rewrite app_nil_r|by constructor|done]. }
  rewrite Em. cbn [mbind option_bind]. rewrite Erf. cbn [mbind option_bind negb].
  destruct (cut_frames _ least_ok _ _ _ _ Es1 Hrs Hp) as ([|r rs1] & rs2 & part1 & -> & E1 & Hp1 & E2).
  - cbn in E1. subst rest1. rewrite (incomplete_part b1 part1 Hb1 Hp1). cbn [mbind option_bind].
    exists Null, p, b1, cs1. split; [done|]. split.
    + exists [], part1, rs2. split; [done|]. split; [by right|]. done.
    + intros Hi. destruct (Hprog Hi Hp1) as [?|E0]; [by left|right]. rewrite E0, app_nil_r in E2.
      destruct (nothing_whole _ least_ok _ _ _ Hp1 E2 Hrs) as [-> _]. by injection Er as <- <- <-.
  - cbn in E1. rewrite E1 in *. rewrite <- app_assoc in Hb1. cbn [app] in Hrs, Er, Hf. inversion Hrs as [|? ? Hr Hrs']; subst.
    rewrite (incomplete_whole b1 r _ Hb1 Hr). cbn [mbind option_bind].
    assert (spaced (event b1 + bsize b1) (concat rs1 ++ part1) cs1) as Hsp2.
    { rewrite <- app_assoc in Hsp1. apply (spaced_next _ r); [done|by apply Forall_app in Hrs' as [? _]|done..]. }
    destruct (front_ok init part b1 r (concat rs1 ++ part1) cs1 cs p (rs1 ++ rs2) evs ok p' Hb1) as (a & p1 & m & -> & Ha);
      [rewrite concat_app, <- !app_assoc; by f_equal|done..|].
    cbn [mbind option_bind]. destruct a as [[]|a].
    + destruct Ha as (_ & cur1 & Hb2 & Hw2 & Er2 & HI2).
      destruct (IH p1 _ cs1 (rs1 ++ rs2) cur1 (concat rs1 ++ part1) Hb2 (or_introl Hw2)) as (a & p2 & b2 & cs2 & -> & Ha);
        [rewrite concat_app, <- !app_assoc; by f_equal|done..|cbn in Hf; lia|].
      exists a, p2, b2, cs2. split; [done|]. destruct a; [destruct Ha as (evs' & ? & ? & ?); exists evs'; split_and!; [done|done|lia]|destruct Ha as [Ha Hi]; split; [done|]; intros Hx; destruct (Hi Hx); [left; lia|by right]|done].
    + by exists a, p1, (BlockBuf m (event b1) (bsize b1)), cs1.
Qed.

Lemma one_call init part p b cs evs ok p' : reading_ok part p b cs evs ok p' ->
  exists a p1 b1 cs1, block_read_event overlap tcp t (read_fuel b (Data <$> cs)) init p b (Data <$> cs) = Some (a, p1, b1, Data <$> cs1) /\
    answer_ok part init cs evs ok p' a p1 b1 cs1.
Proof using Hpull.
  intros (cur & rest & rs & Hb & Hc & Es & Hrs & Hp & Er & HI & Hsp). eapply block_read_event_ok; try done.
  unfold read_fuel. pose proof Hb as (_ & Hsz & _). pose proof (receive_bytes cs [] Again ends_open) as E. rewrite app_nil_r in E. rewrite E.
  assert (length rs <= length (concat rs))%nat.
  { clear -Hrs. induction Hrs as [|r rs [_ Hr] _ IH]; cbn; [lia|]. rewrite length_app. unfold HEADER_SIZE in Hr. lia. }
  apply (f_equal length) in Es. rewrite !length_app in Es. lia.
Qed.

(** Any number of calls answers with the first events to come. *)
Lemma read_calls_ok inits part p b cs evs ok p' : reading_ok part p b cs evs ok p' ->
  exists es ok1 p1 b1 cs1 evs', read_calls overlap tcp t inits p b (Data <$> cs) = Some (es, ok1, p1, b1, Data <$> cs1) /\
    evs = es ++ evs' /\ (if ok1 then reading_ok part p1 b1 cs1 evs' ok p' else evs' = [] /\ ok = false /\ p1 = p').
Proof using Hpull.
  revert p b cs evs. induction inits as [|init inits IH]; intros p b cs evs H.
  { by exists [], true, p, b, cs, evs. }
  destruct (one_call init part p b cs evs ok p' H) as (a & p1 & b1 & cs1 & E & Ha). cbn [read_calls]. rewrite E. cbn [mbind option_bind].
  destruct a as [r ins| |].
  - destruct Ha as (evs' & -> & H' & _). destruct (IH p1 b1 cs1 evs' H') as (es & ok1 & p2 & b2 & cs2 & evs2 & -> & -> & H2). cbn.
    by exists ((r, ins) :: es), ok1, p2, b2, cs2, evs2.
  - destruct Ha as [H' _]. apply (IH _ _ _ _ H').
  - destruct Ha as (-> & -> & ->). by exists [], false, p', b1, cs1, [].
Qed.

(** Calls that may read come to the end. *)
Lemma read_calls_end n part p b cs evs ok p' : reading_ok part p b cs evs ok p' -> (length evs + length (concat cs) < n)%nat ->
  exists p1 b1 cs1, read_calls overlap tcp t (replicate n true) p b (Data <$> cs) = Some (evs, ok, p1, b1, Data <$> cs1).
Proof using Hpull.
  revert p b cs evs. induction n as [|n IH]; intros p b cs evs H Hn; [lia|].
  destruct (one_call true part p b cs evs ok p' H) as (a & p1 & b1 & cs1 & E & Ha). cbn [read_calls replicate]. rewrite E. cbn [mbind option_bind].
  destruct a as [r ins| |].
  - destruct Ha as (evs' & -> & H' & Hle). destruct (IH p1 b1 cs1 evs' H') as (p2 & b2 & cs2 & ->); [cbn in Hn; lia|].
    by exists p2, b2, cs2.
  - destruct Ha as [H' Hi]. destruct (Hi eq_refl) as [Hlt|[-> ->]]; [apply (IH _ _ _ _ H'); lia|].
    destruct (read_calls_ok (replicate n true) part p1 b1 cs1 [] true p' H') as (es & ok1 & p2 & b2 & cs2 & evs' & -> & E' & H2).
    symmetry in E'. apply app_eq_nil in E' as [-> ->]. destruct ok1; [by exists p2, b2, cs2|by destruct H2 as (_ & ? & _)].
  - destruct Ha as (-> & -> & ->). by exists p', b1, cs1.
Qed.
End reading.
