(* ===== verification/Push.v ===== *)
(** * Pushing events to other hosts (event-spread.c)

    An event of a tracepoint with the attribute "push" goes to every block it is pushed to:
    the clients of a TCP server ([TcpSend]), a character device ([CdevSend]) or a file.  A
    new peer is first sent a description of the tracepoint.  The last section puts the two
    hosts together. *)

From S2P Require Import Prelude Bytes Mmap Convert Watermark Circ Wire TcpSend CdevSend PullEvent PullRead Pull.

(** ** Blocks *)

(** [struct event_block] of a sender, with its transport. *)
Inductive block_to :=
  | ToTcp (clients : list conn)
  | ToCdev (c : cdev_block) (k : sink)
  | ToFile (contents : list Z) (pos : Z).

(** [file_write_header]; a tracepoint without event has none. *)
Definition file_write_header (t : tp) (contents : list Z) (pos : Z) : list Z * Z :=
  match perf_record_tp_init t with
  | None => (contents, pos)
  | Some _ => (contents ++ concat (tp_header t), Z.of_nat (length (concat (tp_header t))))
  end.

Definition block_broadcast (t : tp) (r : list Z) (b : block_to) : option block_to :=
  match b with
  | ToTcp xs => xs ← tcp_server_broadcast r xs; Some (ToTcp xs)
  | ToCdev c k => '(c, k) ← broadcast_cdev (tp_header t) r c k; Some (ToCdev c k)
  | ToFile f pos =>
      let '(f, pos) := if pos =? 0 then file_write_header t f pos else (f, pos) in
      Some (ToFile (f ++ r) (pos + Z.of_nat (length r)))
  end.

(** [struct event_block_list] of a sender. *)
Record event_block_list := EventBlockList { block_list : list block_to; last_event_time : Z; time_pos : Z }.

Fixpoint broadcast_all (t : tp) (r : list Z) (bs : list block_to) : option (list block_to) :=
  match bs with
  | [] => Some []
  | b :: bs => b ← block_broadcast t r b; bs ← broadcast_all t r bs; Some (b :: bs)
  end.

(** [dev_time_pos] is where the device's samples have their time. *)
Definition tp_broadcast_event (t : tp) (dev_time_pos : Z) (r : list Z) (l : option event_block_list)
  : option (Z * option event_block_list) :=
  match l with
  | None => Some (0, None)
  | Some l =>
      ty ← header_type r 0;
      l ← (if ty =? PERF_RECORD_SAMPLE then
             let pos := if time_pos l =? -1 then dev_time_pos else time_pos l in
             time ← get_le 8 r (HEADER_SIZE + pos);
             Some (EventBlockList (block_list l) time pos)
           else Some l);
      bs ← broadcast_all t r (block_list l);
      Some (1, Some (EventBlockList bs (last_event_time l) (time_pos l)))
  end.

(** [tcp_new_client], before the device is flushed. *)
Definition tcp_new_client (t : tp) (c : tcp_client_socket) (k : sink) : option (Z * tcp_client_socket * sink) :=
  match perf_record_tp_init t with
  | None => Some (-1, c, k)
  | Some r =>
      '(ret, c, k) ← tcp_send (tp_bytes r) c k;
      if negb (ret =? 0) then Some (-1, c, k)
      else
        '(ret, c, k) ← tcp_send (sys t ++ [0]) c k;
        if negb (ret =? 0) then Some (-1, c, k)
        else
          '(ret, c, k) ← tcp_send (name t ++ [0]) c k;
          Some (if ret =? 0 then 0 else -1, c, k)
  end.

(** ** The description of a tracepoint *)

(** Strings of C. *)
Definition c_string (s : list Z) : Prop := Forall (fun b => 0 < b < 256) s.

Record describable (t : tp) (e : perf_evsel) : Prop := {
  has_evsel : evsel t = Some e;
  sys_string : c_string (sys t);
  name_string : c_string (name t);
  short_names : SIZEOF_TP + strlen (sys t) + strlen (name t) + 2 < 2 ^ 16;
  period_range : 0 <= speriod (eattr e) < 2 ^ 64;
  type_range : 0 <= stype (eattr e) < 2 ^ 64;
  id_range : 0 <= tp_id t < 2 ^ 31
}.

Definition header_of (t : tp) : list Z := concat (tp_header t).

Lemma get_field n a z b off v : off = Z.of_nat (length a) -> v = z mod 256 ^ Z.of_nat n ->
  get_le n (a ++ le_bytes n z ++ b) off = Some v.
Proof.
  intros -> ->. unfold get_le. rewrite <- le_val_bytes. rewrite (proj2 (mem_read_Some _ _ _ (le_bytes n z))); [done|].
  rewrite !length_app, length_le_bytes. split_and!; [lia..|].
  rewrite !Nat2Z.id, drop_app_length, take_app_le by (rewrite length_le_bytes; lia).
  by rewrite take_ge by (rewrite length_le_bytes; lia).
Qed.

(** A string in memory is the program's. *)
Lemma same_str_ok pre x post s off : off = Z.of_nat (length pre) -> c_string x -> c_string s ->
  same_str (pre ++ x ++ 0 :: post) off s = Some (bool_decide (x = s)).
Proof.
  intros -> Hx Hs. revert pre x Hx. assert (forall p b q, get_le 1 (p ++ b :: q) (Z.of_nat (length p)) = Some (b + 256 * 0)) as Hget.
  { intros p b q. unfold get_le. rewrite (proj2 (mem_read_Some _ _ _ [b])); [done|]. rewrite length_app. cbn [length].
    split_and!; [lia..|]. by rewrite !Nat2Z.id, drop_app_length. }
  induction Hs as [|a s Ha Hs IH]; intros pre x Hx; cbn [same_str].
  - destruct x as [|b x]; cbn [app]; rewrite Hget; cbn [mbind option_bind].
    + by rewrite bool_decide_eq_true_2.
    + rewrite bool_decide_eq_false_2 by done. inversion Hx; subst. f_equal. lia.
  - destruct x as [|b x]; cbn [app]; rewrite Hget; cbn [mbind option_bind].
    + rewrite bool_decide_eq_false_2 by done. by rewrite (proj2 (Z.eqb_neq _ _)) by lia.
    + inversion Hx; subst. destruct (Z.eqb_spec (b + 256 * 0) a) as [E|E].
      * specialize (IH (pre ++ [b]) x ltac:(done)). rewrite <- app_assoc, length_app in IH. cbn [app length] in IH.
        replace (Z.of_nat (length pre) + 1) with (Z.of_nat (length pre + 1)) by lia. rewrite IH. f_equal.
        apply bool_decide_ext. split; [intros ->; f_equal; lia|by intros [= _ ->]].
      * rewrite bool_decide_eq_false_2; [done|]. intros [= -> _]. lia.
Qed.

Section header.
Context (t : tp) (e : perf_evsel) (Ht : describable t e).

(** The record as it is sent. *)
Lemma header_bytes : header_of t =
  le_bytes 4 PERF_RECORD_TP ++ le_bytes 2 0 ++ le_bytes 2 (SIZEOF_TP + strlen (sys t) + strlen (name t) + 2) ++
  le_bytes 4 (tp_id t) ++ le_bytes 2 SIZEOF_TP ++ le_bytes 2 (SIZEOF_TP + strlen (sys t) + 1) ++
  le_bytes 8 (speriod (eattr e)) ++ le_bytes 8 (stype (eattr e)) ++ le_bytes 4 (tp_event_size t) ++ le_bytes 4 0 ++
  sys t ++ 0 :: name t ++ [0].
Proof using Ht.
  pose proof (short_names _ _ Ht). unfold header_of, tp_header, perf_record_tp_init. rewrite (has_evsel _ _ Ht).
  cbn [mbind option_bind concat]. unfold tp_bytes.
  cbn [r_type r_misc r_size r_id sys_offset name_offset r_sample_period r_sample_type r_event_size r_unused].
  unfold u16, SIZEOF_TP, strlen in *. rewrite !Z.mod_small by lia. rewrite app_nil_r, <- !app_assoc. done.
Qed.

Lemma length_header : Z.of_nat (length (header_of t)) = SIZEOF_TP + strlen (sys t) + strlen (name t) + 2.
Proof using Ht. rewrite header_bytes, !length_app, !length_le_bytes. cbn [length]. rewrite length_app. unfold SIZEOF_TP, strlen. cbn. lia. Qed.

(** A field is at its offset. *)
Lemma header_field n off v a z b : header_of t = a ++ le_bytes n z ++ b -> off = Z.of_nat (length a) -> v = z mod 256 ^ Z.of_nat n ->
  get_le n (header_of t) off = Some v.
Proof using. intros ->. apply get_field. Qed.

Local Ltac field a :=
  eapply (header_field _ _ _ a); [rewrite header_bytes, <- ?app_assoc; reflexivity|by rewrite ?length_app, ?length_le_bytes|].

Lemma header_fields : let h := header_of t in
  get_le 4 h 0 = Some PERF_RECORD_TP /\ get_le 2 h 6 = Some (SIZEOF_TP + strlen (sys t) + strlen (name t) + 2) /\
  get_le 4 h 8 = Some (tp_id t) /\ get_le 2 h 12 = Some SIZEOF_TP /\ get_le 2 h 14 = Some (SIZEOF_TP + strlen (sys t) + 1) /\
  get_le 8 h 16 = Some (speriod (eattr e)) /\ get_le 8 h 24 = Some (stype (eattr e)) /\
  get_le 4 h 32 = Some (u32 (tp_event_size t)).
Proof using Ht.
  pose proof (short_names _ _ Ht). pose proof (period_range _ _ Ht). pose proof (type_range _ _ Ht). pose proof (id_range _ _ Ht).
  unfold SIZEOF_TP, strlen in *. cbv zeta. split_and!.
  - field (@nil Z). done.
  - field (le_bytes 4 PERF_RECORD_TP ++ le_bytes 2 0). symmetry. apply Z.mod_small. lia.
  - field (le_bytes 4 PERF_RECORD_TP ++ le_bytes 2 0 ++ le_bytes 2 (40 + strlen (sys t) + strlen (name t) + 2)).
    symmetry. apply Z.mod_small. lia.
  - field (le_bytes 4 PERF_RECORD_TP ++ le_bytes 2 0 ++ le_bytes 2 (40 + strlen (sys t) + strlen (name t) + 2) ++ le_bytes 4 (tp_id t)).
    done.
  - field (le_bytes 4 PERF_RECORD_TP ++ le_bytes 2 0 ++ le_bytes 2 (40 + strlen (sys t) + strlen (name t) + 2) ++ le_bytes 4 (tp_id t) ++
      le_bytes 2 40). symmetry. apply Z.mod_small. unfold SIZEOF_TP, strlen. lia.
  - field (le_bytes 4 PERF_RECORD_TP ++ le_bytes 2 0 ++ le_bytes 2 (40 + strlen (sys t) + strlen (name t) + 2) ++ le_bytes 4 (tp_id t) ++
      le_bytes 2 40 ++ le_bytes 2 (40 + strlen (sys t) + 1)). symmetry. apply Z.mod_small. done.
  - field (le_bytes 4 PERF_RECORD_TP ++ le_bytes 2 0 ++ le_bytes 2 (40 + strlen (sys t) + strlen (name t) + 2) ++ le_bytes 4 (tp_id t) ++
      le_bytes 2 40 ++ le_bytes 2 (40 + strlen (sys t) + 1) ++ le_bytes 8 (speriod (eattr e))). symmetry. apply Z.mod_small. done.
  - field (le_bytes 4 PERF_RECORD_TP ++ le_bytes 2 0 ++ le_bytes 2 (40 + strlen (sys t) + strlen (name t) + 2) ++ le_bytes 4 (tp_id t) ++
      le_bytes 2 40 ++ le_bytes 2 (40 + strlen (sys t) + 1) ++ le_bytes 8 (speriod (eattr e)) ++ le_bytes 8 (stype (eattr e))). done.
Qed.

Lemma header_whole : whole (header_of t).
Proof using Ht.
  pose proof (short_names _ _ Ht). destruct header_fields as (_ & E & _). unfold whole, header_size. rewrite length_header.
  unfold SIZEOF_TP, strlen, HEADER_SIZE in *. split; [exact E|lia].
Qed.

(** What the receiver compares. *)
Definition same_tp (u : tp) : bool :=
  bool_decide (sys t = sys u) && bool_decide (name t = name u) &&
  match evsel u with
  | Some e' => negb (speriod (eattr e') =? 0) && negb (speriod (eattr e) =? 0) && (stype (eattr e') =? stype (eattr e)) &&
      negb (has (stype (eattr e)) PERF_SAMPLE_CALLCHAIN) && (u32 (tp_event_size u) =? u32 (tp_event_size t))
  | None => false
  end.

Lemma header_strings : exists pre1 pre2 : list Z, header_of t = pre1 ++ sys t ++ 0 :: (name t ++ [0]) /\ Z.of_nat (length pre1) = SIZEOF_TP /\
  header_of t = pre2 ++ name t ++ 0 :: [] /\ Z.of_nat (length pre2) = SIZEOF_TP + strlen (sys t) + 1.
Proof using Ht.
  unfold header_of, tp_header, perf_record_tp_init. rewrite (has_evsel _ _ Ht). cbn [mbind option_bind concat].
  set (r := tp_bytes _). assert (length r = 40%nat) as Hr by (unfold r, tp_bytes; by rewrite !length_app, !length_le_bytes).
  clearbody r. rewrite app_nil_r. exists r, (r ++ sys t ++ [0]). split; [by rewrite <- !app_assoc|]. split; [by rewrite Hr|].
  split; [by rewrite <- !app_assoc|]. rewrite !length_app, Hr. unfold SIZEOF_TP, strlen. cbn [length]. lia.
Qed.

Lemma header_matches u : c_string (sys u) -> c_string (name u) -> tp_matches u (header_of t) 0 = Some (same_tp u).
Proof using Ht.
  intros Hs Hn. destruct header_fields as (_ & _ & _ & F1 & F2 & F3 & F4 & F5). unfold tp_matches.
  change (0 + 12) with 12. change (0 + 14) with 14. change (0 + 16) with 16. change (0 + 24) with 24. change (0 + 32) with 32.
  rewrite F1. cbn [mbind option_bind].
  destruct header_strings as (p1 & p2 & E1 & L1 & E2 & L2).
  assert (same_str (header_of t) (0 + SIZEOF_TP) (sys u) = Some (bool_decide (sys t = sys u))) as ->
    by (rewrite E1; apply same_str_ok; [done|apply (sys_string _ _ Ht)|done]).
  cbn [mbind option_bind]. unfold same_tp. destruct (bool_decide (sys t = sys u)); [|done]. cbn [negb andb]. rewrite F2. cbn [mbind option_bind].
  assert (same_str (header_of t) (0 + (SIZEOF_TP + strlen (sys t) + 1)) (name u) = Some (bool_decide (name t = name u))) as ->
    by (rewrite E2; apply same_str_ok; [done|apply (name_string _ _ Ht)|done]).
  cbn [mbind option_bind]. destruct (bool_decide (name t = name u)); [|done]. cbn [negb andb].
  destruct (evsel u) as [e'|]; [|done]. destruct (speriod (eattr e') =? 0); [done|]. rewrite F3. cbn [mbind option_bind negb andb].
  destruct (speriod (eattr e) =? 0); [done|]. rewrite F4. cbn [mbind option_bind negb andb].
  destruct (stype (eattr e') =? stype (eattr e)); [|done]. cbn [negb andb].
  destruct (has _ PERF_SAMPLE_CALLCHAIN); [done|]. by rewrite F5.
Qed.
End header.

(** ** What the receiver hands on *)

Section handed.
Context (u : tp) (e' : perf_evsel) (Hu : evsel u = Some e') (Hv : tp_vcpu u = None) (Hpull : pullable u) (Hsp : speriod (eattr e') <> 0).

Local Notation st := (stype (eattr e')).
Local Notation rsize := (perf_evsel__read_size (eattr e')).

(** The records a profiler is handed for one of a peer whose tracepoint is [id]. *)
Definition local (id : Z) (r : list Z) : list (list Z * Z) :=
  match block_process_event u (Pull (with_remote id block_new) []) r 0 with
  | Some (true, p, _) => passed p
  | _ => []
  end.

(** Records that are not descriptions; samples have all their fields. *)
Definition ordinary (r : list Z) : Prop :=
  whole r /\ exists ty, header_type r 0 = Some ty /\ ty <> PERF_RECORD_TP /\
    (ty = PERF_RECORD_SAMPLE -> sample_room st (common_type_pos (find_pos st rsize block_new)) <= Z.of_nat (length r)).

Definition from_peer (id : Z) (p : pull) : Prop := remote_id (pblock p) = id /\ pull_ok u p.

Lemma convert_found b b' r : find_pos st rsize b = find_pos st rsize b' ->
  block_event_convert u b r 0 = block_event_convert u b' r 0.
Proof using Hu Hsp. intros E. unfold block_event_convert. rewrite Hu, (proj2 (Z.eqb_neq _ _)) by done. by rewrite E. Qed.

Lemma peer_found id p : from_peer id p -> find_pos st rsize (pblock p) = find_pos st rsize (with_remote id block_new).
Proof using Hu Hpull.
  intros [<- H]. destruct (Hpull e' Hu) as [_ Hn]. rewrite (find_pos_ok st rsize _ Hn (H e' Hu)). symmetry.
  rewrite (find_pos_ok st rsize (with_remote (remote_id (pblock p)) block_new) Hn); [done|]. exists block_new. auto.
Qed.

(** The conversion of an ordinary sample. *)
Lemma sample_converts id p r : from_peer id p -> ordinary r -> header_type r 0 = Some PERF_RECORD_SAMPLE ->
  exists ins b r', block_event_convert u (pblock p) r 0 = Some (ins, b, r') /\
    block_event_convert u (with_remote id block_new) r 0 = Some (ins, b, r') /\
    header_size r' 0 = Some (Z.of_nat (length r')) /\ remote_id b = id /\ pull_ok u (Pull b (passed p)).
Proof using All.
  intros Hp [Hw (ty & Ety & _ & Hroom)] Es. rewrite Ety in Es. injection Es as ->. specialize (Hroom eq_refl).
  pose proof (peer_found id p Hp) as Ef. destruct Hp as [Hid HI]. destruct (Hpull e' Hu) as [_ Hn].
  pose proof (find_pos_ok st rsize _ Hn (HI e' Hu)) as Ef'.
  destruct (host_sample_ok u e' (pblock p) r Hu Hsp Hv Hpull (HI e' Hu)) as (ins & r' & E & _).
  { rewrite Ef'. exact Hroom. }
  exists ins, (find_pos st rsize (pblock p)), r'. split; [done|]. split; [by rewrite <- E; apply convert_found|].
  destruct Hw as [Hh Hl]. destruct (block_event_convert_framed u [] [] e' _ _ _ _ _ Hu Hpull (HI e' Hu) E) as (_ & Hk & Hb).
  pose proof Hk as [Hlen _]. split; [by rewrite (header_kept r r' Hk), Hh, Hlen by lia|]. split; [by rewrite Ef'|].
  intros e1 He1. rewrite Hu in He1. injection He1 as <-. exact Hb.
Qed.

(** Processing an ordinary record, and reading it in order, hand on the same. *)
Lemma ordinary_ok id p r : from_peer id p -> ordinary r ->
  exists p1 r1, block_process_event u p r 0 = Some (true, p1, r1) /\ from_peer id p1 /\ passed p1 = passed p ++ local id r /\
  exists p2, from_peer id p2 /\ look u p r 0 = Some (match local id r with [] => inl tt | (x, i) :: _ => inr (Got x i) end, p2, r1) /\
    (length (local id r) <= 1)%nat.
Proof using All.
  intros Hp Ho. pose proof Ho as [[Hh Hl] (ty & Ety & Hty & _)]. pose proof Hp as [Hid HI].
  unfold local, block_process_event, look. rewrite Ety. cbn [mbind option_bind]. rewrite (proj2 (Z.eqb_neq ty PERF_RECORD_TP)) by done.
  destruct (Z.eqb_spec ty PERF_RECORD_SAMPLE) as [->|Hns].
  - destruct (negb (dev_enabled u)).
    { exists p, r. rewrite app_nil_r. split_and!; [done..|]. exists p. split_and!; [done..|cbn; lia]. }
    destruct (sample_converts id p r Hp Ho Ety) as (ins & b & r' & -> & E2 & Hh' & Hb & HI'). cbn [pblock]. rewrite E2. cbn [mbind option_bind passed].
    destruct (ins <? 0).
    { eexists _, r'. split; [done|]. cbn [passed]. rewrite app_nil_r. split; [by split|]. split; [done|]. eexists. split; [|split; [done|cbn; lia]]. by split. }
    rewrite !pass_record by done. cbn [mbind option_bind passed pblock app]. rewrite Hh'. cbn [mbind option_bind].
    rewrite (proj2 (mem_read_Some r' 0 _ r')) by (split_and!; [lia..|]; by rewrite drop_0, take_ge by lia). cbn [mbind option_bind].
    eexists _, r'. split; [done|]. split; [by split|]. split; [done|]. eexists. split; [|split; [done|cbn; lia]]. by split.
  - destruct (negb (dev_enabled u)).
    { exists p, r. rewrite app_nil_r. split_and!; [done..|]. exists p. split_and!; [done..|cbn; lia]. }
    rewrite !pass_record by done. cbn [mbind option_bind passed pblock app]. rewrite Hh. cbn [mbind option_bind].
    change (0 <? 0) with false. cbn [mbind option_bind].
    rewrite (proj2 (mem_read_Some r 0 _ r)) by (split_and!; [lia..|]; by rewrite drop_0, take_ge by lia). cbn [mbind option_bind].
    eexists _, r. split; [done|]. split; [by split|]. split; [done|]. exists p. split; [done|]. split; [done|]. cbn. lia.
Qed.

Definition locals (id : Z) (rs : list (list Z)) : list (list Z * Z) := concat (local id <$> rs).

Lemma records_ok id rs p : from_peer id p -> Forall ordinary rs ->
  exists p1, run_records (block_process_event u) p rs = Some (true, p1) /\ passed p1 = passed p ++ locals id rs.
Proof using All.
  intros Hp Hrs. revert p Hp. induction Hrs as [|r rs Hr Hrs IH]; intros p Hp.
  { exists p. unfold locals. cbn. by rewrite app_nil_r. }
  destruct (ordinary_ok id p r Hp Hr) as (p1 & r1 & E & Hp1 & Epass & _). cbn [run_records]. rewrite E. cbn [mbind option_bind].
  destruct (IH p1 Hp1) as (p2 & -> & E2). exists p2. split; [done|]. unfold locals in *. cbn. by rewrite E2, Epass, app_assoc.
Qed.

Lemma looks_ok id rs p : from_peer id p -> Forall ordinary rs ->
  exists p1, look_records u p rs = Some (locals id rs, true, p1).
Proof using All.
  intros Hp Hrs. revert p Hp. induction Hrs as [|r rs Hr Hrs IH]; intros p Hp; [by exists p|].
  destruct (ordinary_ok id p r Hp Hr) as (p0 & r1 & _ & _ & _ & p1 & Hp1 & E & Hl). cbn [look_records]. rewrite E. cbn [mbind option_bind].
  destruct (IH p1 Hp1) as (p2 & E2). unfold locals. cbn [fmap list_fmap concat]. fold (locals id rs).
  destruct (local id r) as [|[x i] [|? ?]]; [..|cbn in Hl; lia]; cbn [app]; rewrite E2; by exists p2.
Qed.
End handed.

(** ** Two hosts

    A sender whose stream is described by [spooled], whatever its transport, and a receiver
    of the same tracepoint. *)

Lemma told_frames (P : list Z -> Prop) es fs n : told es fs n -> Forall P es -> (forall k, P (frame_bytes (Lost k))) ->
  Forall P (frame_bytes <$> fs).
Proof.
  intros Ht Hes Hl. induction Ht as [|es fs n e _ IH|es fs n e _ IH|es fs n _ IH _]; [constructor|..].
  - apply Forall_app in Hes as [H1 H2]. rewrite fmap_app. apply Forall_app. split; [by apply IH|]. by inversion H2; constructor.
  - apply Forall_app in Hes as [H1 _]. by apply IH.
  - rewrite fmap_app. apply Forall_app. split; [by apply IH|]. constructor; [apply Hl|constructor].
Qed.

Lemma partial_weaken p : partial HEADER_SIZE p -> partial (HEADER_SIZE + 1) p.
Proof. intros [?|?]; [left; lia|by right]. Qed.

(** A reader just set up, with whatever its buffer holds. *)
Definition fresh (m : list Z) : Prop := Z.of_nat (length m) = 2 ^ 16.

Lemma fresh_carries m : fresh m -> carries (Reader m 0) [].
Proof. done. Qed.

Section hosts.
Context (t : tp) (e : perf_evsel) (Ht : describable t e).
Context (u : tp) (e' : perf_evsel) (Hu : evsel u = Some e') (Hv : tp_vcpu u = None).
Context (Hsame : same_tp t e u = true) (Hread : 0 <= perf_evsel__read_size (eattr e')).

Definition pull0 : pull := Pull block_new [].

Lemma hosts_agree : pullable u /\ speriod (eattr e') <> 0 /\ c_string (sys u) /\ c_string (name u).
Proof using All.
  pose proof Hsame as H. unfold same_tp in H. rewrite Hu in H. rewrite !andb_true_iff, !bool_decide_eq_true, !negb_true_iff in H.
  destruct H as [[Es En] [[[[H1 H2] H3] H4] H5]]. split.
  - intros e1 He1. rewrite Hu in He1. injection He1 as <-. apply Z.eqb_eq in H3. rewrite H3. by split.
  - split; [by apply Z.eqb_neq|]. rewrite <- Es, <- En. split; [apply (sys_string _ _ Ht)|apply (name_string _ _ Ht)].
Qed.

Lemma header_processed : exists p, block_process_event u pull0 (header_of t) 0 = Some (true, p, header_of t) /\
  look u pull0 (header_of t) 0 = Some (inl tt, p, header_of t) /\ from_peer u (tp_id t) p /\ passed p = [].
Proof using All.
  destruct hosts_agree as (_ & _ & Hs & Hn). destruct (header_fields t e Ht) as (F0 & _ & F1 & _). pose proof (id_range _ _ Ht).
  exists (Pull (with_remote (tp_id t) block_new) []).
  assert (block_process_event u pull0 (header_of t) 0 = Some (true, Pull (with_remote (tp_id t) block_new) [], header_of t)) as E.
  { unfold block_process_event, header_type. rewrite F0. cbn [mbind option_bind]. change (PERF_RECORD_TP =? PERF_RECORD_TP) with true.
    rewrite (header_matches t e Ht u Hs Hn), Hsame. cbn [mbind option_bind]. change (0 + 8) with 8. rewrite F1. cbn [mbind option_bind].
    by rewrite s32_small by lia. }
  split; [done|]. split.
  - unfold look, header_type. rewrite F0. cbn [mbind option_bind]. change (PERF_RECORD_TP =? PERF_RECORD_TP) with true. by rewrite E.
  - split; [|done]. split; [done|]. intros e1 _. exists block_new. auto.
Qed.

(** The record of the lost is like any other. *)
Lemma lost_ordinary k : ordinary e' (frame_bytes (Lost k)).
Proof using.
  split; [split; [|done]|].
  - unfold header_size. cbn [frame_bytes]. unfold lost_bytes. cbn [l_type l_misc l_size l_id lost]. rewrite !length_app, !length_le_bytes.
    rewrite (app_assoc (le_bytes 4 _)). by apply get_field; [rewrite length_app, !length_le_bytes|].
  - exists RECORD_LOST. split; [|done]. unfold header_type. cbn [frame_bytes]. unfold lost_bytes. cbn [l_type l_misc l_size l_id lost].
    apply (get_field 4 []); done.
Qed.

(** The records that have arrived: those of the first frames, and part of the next. *)
Lemma frames_arrived es sent waits n : spooled (header_of t) es sent waits n -> Forall (ordinary e') es ->
  exists fs rest part, told es (fs ++ rest) n /\ (waits = [] -> rest = []) /\ partial HEADER_SIZE part /\
    Forall (ordinary e') (frame_bytes <$> fs) /\
    (sent = concat (header_of t :: (frame_bytes <$> fs)) ++ part \/ fs = [] /\ sent = part).
Proof using All.
  intros (fs & Htold & E) Hes. pose proof (told_frames _ _ _ _ Htold Hes lost_ordinary) as Hord.
  assert (HEADER_SIZE <= HEADER_SIZE <= HEADER_SIZE + 1) as Hleast by lia.
  set (rs := header_of t :: (frame_bytes <$> fs)).
  assert (Forall whole rs) as Hrs by (constructor; [apply (header_whole t e Ht)|by eapply Forall_impl; [exact Hord|intros ? [? _]]]).
  assert (partial HEADER_SIZE []) as Hnil by (left; done).
  assert (sent ++ waits = concat rs ++ []) as E' by (rewrite app_nil_r; exact E).
  destruct (cut_frames _ Hleast _ _ _ _ E' Hrs Hnil) as (rs1 & rs2 & part & Ers & E1 & Hp & E2).
  rewrite Ers in Hrs. apply Forall_app in Hrs as [_ Hrs2].
  assert (waits = [] -> rs2 = []) as Hw.
  { intros ->. rewrite app_nil_r in E2. rewrite app_nil_r in E2. destruct (nothing_whole _ Hleast part rs2 [] Hp) as [? _]; [by rewrite app_nil_r|done|done]. }
  destruct rs1 as [|h rs1].
  - exists [], fs, part. split; [done|]. split; [|split; [done|split; [constructor|by right]]].
    intros Hx. specialize (Hw Hx). subst rs2. done.
  - injection Ers as <- Ers. exists (take (length rs1) fs), (drop (length rs1) fs), part. rewrite take_drop. split; [done|].
    assert (frame_bytes <$> take (length rs1) fs = rs1) as Efs by (rewrite fmap_take, Ers; apply take_app_length).
    split; [|split; [done|split; [|by left; rewrite Efs]]].
    + intros Hx. specialize (Hw Hx). subst rs2. rewrite app_nil_r in Ers. apply (f_equal length) in Ers. rewrite length_fmap in Ers.
      apply drop_ge. lia.
    + rewrite Efs. rewrite Ers in Hord. by apply Forall_app in Hord as [? _].
Qed.

(** All that has arrived is processed, and handed on as by itself. *)
Lemma arrived_runs fs part sent : Forall (ordinary e') (frame_bytes <$> fs) -> partial HEADER_SIZE part ->
  (sent = concat (header_of t :: (frame_bytes <$> fs)) ++ part \/ fs = [] /\ sent = part) ->
  exists rs, sent = concat rs ++ part /\ Forall whole rs /\
    (exists p, run_records (block_process_event u) pull0 rs = Some (true, p) /\ passed p = locals u (tp_id t) (frame_bytes <$> fs)) /\
    (exists p, look_records u pull0 rs = Some (locals u (tp_id t) (frame_bytes <$> fs), true, p)).
Proof using All.
  intros Hord Hp [->|[-> ->]].
  2: { exists []. split; [done|]. split; [constructor|]. split; [by exists pull0|by exists pull0]. }
  destruct hosts_agree as (Hpull & Hsp & _). destruct header_processed as (p & E & El & Hfrom & Hpass).
  exists (header_of t :: (frame_bytes <$> fs)). split; [done|]. split.
  { constructor; [apply (header_whole t e Ht)|by eapply Forall_impl; [exact Hord|intros ? [? _]]]. }
  cbn [run_records look_records]. rewrite E, El. cbn [mbind option_bind]. split.
  - destruct (records_ok u e' Hu Hv Hpull Hsp _ _ p Hfrom Hord) as (p1 & -> & Ep). exists p1. split; [done|]. by rewrite Ep, Hpass.
  - by apply (looks_ok u e' Hu Hv Hpull Hsp).
Qed.
End hosts.
