(* ===== verification/PushPull.v ===== *)
(** * Events from one host to another (event-spread.c, net.c)

    The sender of [Push] and the receiver of [Pull] put together: over TCP and over a
    character device, with the events handled as they come or in order. *)

From S2P Require Import Prelude Bytes Mmap Convert Watermark Circ Wire TcpSend CdevSend PullEvent PullRead Pull Push.

(** A client that has just been accepted is sent the description of the tracepoint. *)
Lemma new_client_ok t e b k : describable t e -> Z.of_nat (length b) = BUF_LEN -> wire k = [] ->
  exists c, tcp_new_client t (accepted b) k = Some (0, c, k) /\ conn_ok (header_of t) [] (Conn c k true true).
Proof.
  intros Ht Hb Hk. pose proof (length_header t e Ht) as Hlen. pose proof (short_names _ _ Ht) as Hshort. pose proof BUF_LEN_val.
  unfold header_of, tp_header in Hlen |- *. unfold tcp_new_client. destruct (perf_record_tp_init t) as [r|] eqn:Er.
  2: { unfold perf_record_tp_init in Er. by rewrite (has_evsel _ _ Ht) in Er. }
  cbn [concat] in *. rewrite app_nil_r in *. rewrite !length_app in Hlen.
  assert (buf_ok (accepted b)) as H0 by (split; cbn; lia).
  assert (waiting (accepted b) = []) as W0 by done.
  assert (woken (accepted b)) as Hwk0 by done.
  destruct (buf_facts _ H0) as (_ & I0 & L0). rewrite W0 in L0. cbn [length] in L0.
  destruct (tcp_send_room (tp_bytes r) _ k H0 ltac:(lia) Hwk0) as (c1 & -> & H1 & W1 & E1 & Hwk1). cbn [mbind option_bind Z.eqb negb].
  destruct (buf_facts _ H1) as (_ & I1 & L1). rewrite W1, W0 in L1. cbn [app] in L1.
  destruct (tcp_send_room (sys t ++ [0]) c1 k H1 ltac:(rewrite length_app; lia) Hwk1) as (c2 & -> & H2 & W2 & E2 & Hwk2). cbn [mbind option_bind Z.eqb negb].
  destruct (buf_facts _ H2) as (_ & I2 & L2). rewrite W2, W1, W0 in L2. cbn [app] in L2. rewrite !length_app in L2.
  destruct (tcp_send_room (name t ++ [0]) c2 k H2 ltac:(rewrite length_app; lia) Hwk2) as (c3 & -> & H3 & W3 & E3 & Hwk3). cbn [mbind option_bind Z.eqb negb].
  exists c3. split; [done|]. split; [|by split]. rewrite E2, E1 in E3. cbn in E3. split; cbn [cli peer].
  - done.
  - rewrite Hk, W3, W2, W1, W0, E3. cbn [app lost no_lost]. rewrite <- !app_assoc. apply spooled_new.
  - by rewrite E3.
Qed.

(** Events pushed to a file. *)
Fixpoint block_broadcasts (t : tp) (rs : list (list Z)) (b : block_to) : option block_to :=
  match rs with
  | [] => Some b
  | r :: rs => b ← block_broadcast t r b; block_broadcasts t rs b
  end.

Lemma file_appends t rs f pos : 0 < pos -> exists pos', block_broadcasts t rs (ToFile f pos) = Some (ToFile (f ++ concat rs) pos').
Proof.
  revert f pos. induction rs as [|r rs IH]; intros f pos Hp; [exists pos; cbn; by rewrite app_nil_r|].
  cbn. rewrite (proj2 (Z.eqb_neq pos 0)) by lia. cbn. rewrite app_assoc. apply IH. lia.
Qed.

Section hosts.
Context (t : tp) (e : perf_evsel) (Ht : describable t e).
Context (u : tp) (e' : perf_evsel) (Hu : evsel u = Some e') (Hv : tp_vcpu u = None).
Context (Hsame : same_tp t e u = true) (Hread : 0 <= perf_evsel__read_size (eattr e')).

(** What the profiler of the receiver is handed for some frames of the sender. *)
Definition handed_for (fs : list frame) : list (list Z * Z) := locals u (tp_id t) (frame_bytes <$> fs).

(** However the bytes are cut on their way, a receiver that handles events as they come
    hands these on ...  What is left of a piece is moved to the front of the buffer with
    [memcpy]: either it copies overlapping blocks as well ([overlap]), or the pieces are
    [apart], so that it never has to. *)
Definition received (sent : list Z) (fs : list frame) : Prop :=
  forall overlap cs fin how m, ends fin how -> concat cs = sent -> fresh m -> overlap = true \/ apart [] cs ->
    let ps := (Data <$> cs) ++ fin in
    (exists p r qs, tcp_receive (block_process_event u) overlap (receive_fuel ps) pull0 (Reader m 0) ps = Some (how, p, r, qs) /\
       passed p = handed_for fs) /\
    (exists p r qs, cdev_receive (block_process_event u) overlap (receive_fuel ps) pull0 (Reader m 0) ps = Some (Again, p, r, qs) /\
       passed p = handed_for fs).

(** ... and one that orders them is answered with these, one by one. *)
Definition received_in_order (sent : list Z) (fs : list frame) : Prop :=
  forall overlap tcp cs m inits, concat cs = sent -> fresh m -> overlap = true \/ apart [] cs ->
    exists es ok p b cs1, read_calls overlap tcp u inits pull0 (BlockBuf m 0 0) (Data <$> cs) = Some (es, ok, p, b, Data <$> cs1) /\
      ok = true /\ es `prefix_of` handed_for fs /\
      (inits = replicate (S (length (handed_for fs) + length sent)) true -> es = handed_for fs).

Lemma stream_received es sent waits n : spooled (header_of t) es sent waits n -> Forall (ordinary e') es ->
  exists fs rest, told es (fs ++ rest) n /\ (waits = [] -> rest = []) /\ received sent fs /\ received_in_order sent fs.
Proof using All.
  intros Hs Hes. destruct (frames_arrived t e Ht u e' Hu Hv Hsame Hread es sent waits n Hs Hes)
    as (fs & rest & part & Htold & Hw & Hp & Hord & Hsent).
  destruct (hosts_agree t e Ht u e' Hu Hv Hsame Hread) as (Hpull & _).
  destruct (arrived_runs t e Ht u e' Hu Hv Hsame Hread fs part sent Hord Hp Hsent) as (rs & Es & Hrs & (p & Er & Ep) & (p2 & Elk)).
  assert (pull_ok u pull0) as HI by (intros e1 _; exists block_new; auto).
  exists fs, rest. split; [done|]. split; [done|]. split.
  - intros overlap cs fin how m Hfin Ecs Hm Hap ps. rewrite <- Ecs in Es.
    assert (length (concat cs) < receive_fuel ps)%nat as Hf by (unfold receive_fuel, ps; rewrite (receive_bytes cs fin how Hfin); lia).
    split.
    + destruct (tcp_receive_ok overlap (block_process_event u) (pull_ok u) (process_within u Hpull) (receive_fuel ps) pull0 (Reader m 0) [] cs fin how rs part true p)
        as (r & qs & E & _); [done|done|done|done|by apply partial_weaken|by left|done..|]. by exists p, r, qs.
    + destruct (cdev_receive_ok overlap (block_process_event u) (pull_ok u) (process_within u Hpull) (receive_fuel ps) pull0 (Reader m 0) [] cs fin how rs part true p)
        as (r & qs & E & _); [done|done|done|done|done|by left|done..|]. by exists p, r, qs.
  - intros overlap tcp cs m inits Ecs Hm Hap. rewrite <- Ecs in Es.
    assert (reading_ok overlap u part pull0 (BlockBuf m 0 0) cs (handed_for fs) true p2) as Hread0.
    { exists [], [], rs. split; [|split; [right; split; [done|by left]|]].
      - split; [done|]. split; [done|]. by exists [], m.
      - split_and!; [done|done|by apply partial_weaken|done|done|].
        destruct Hap as [?|?]; [by left|right; split; [by left|done]]. }
    destruct (read_calls_ok overlap u Hpull tcp inits part pull0 _ cs _ true p2 Hread0) as (evs & ok & p1 & b1 & cs1 & evs' & E & Eevs & Hok).
    exists evs, ok, p1, b1, cs1. split; [done|]. destruct ok; [|by destruct Hok as (_ & ? & _)].
    split; [done|]. split; [by exists evs'|]. intros ->.
    destruct (read_calls_end overlap u Hpull tcp (S (length (handed_for fs) + length sent)) part pull0 _ cs _ true p2 Hread0) as (p3 & b3 & cs3 & E3); [rewrite <- Ecs; lia|].
    rewrite E in E3. by injection E3 as <- _.
Qed.

(** C9: Events pushed over TCP are pulled.  Whatever the sockets do - how much each send
    takes, when it fails, how the stream is cut on its way - the stream of a client tells of
    every event offered while it was in the server's list, each either in order or counted
    in a record of the lost or still to be counted; and a receiver of the same tracepoint,
    on the bytes sent so far, hands its profiler exactly what the whole records among them
    convert to, once each and in order, as do the calls of the ordering; when nothing waits,
    that is all of them.  The sender's tracepoint has a description that fits in a record;
    the events are whole records shorter than 64 KB, none of them such a description, each
    sample long enough for the fields of its type; the receiver's tracepoint has the names and the sample format of the sender's, without
    stacks, and no vm attribute.  The receivers of this program move what is left of a piece
    to the front of their buffer with memcpy (net.c:312, event-spread.c:357 and 572), which
    is undefined when the blocks overlap: it is assumed either that memcpy copies such
    blocks too, or that no piece leaves more behind than the records before it, so that the
    blocks do not overlap.  Otherwise a piece shorter than a record is moved onto itself
    where events are handled as they come (example overlapping_copy). *)
Theorem tcp_pushed_pulled b k os : Z.of_nat (length b) = BUF_LEN -> wire k = [] ->
  Forall (ordinary e') (offered os) -> Z.of_nat (length os) < 2 ^ 64 - 1 ->
  exists c x es, tcp_new_client t (accepted b) k = Some (0, c, k) /\ conn_run os (Conn c k true true) = Some (x, es) /\
    es `prefix_of` offered os /\ (linked x = true -> es = offered os) /\
    (linked x = true -> waiting (cli x) <> [] -> Z.land (events (cli x)) EPOLLOUT <> 0) /\
    exists fs rest, told es (fs ++ rest) (lost (lost_event (cli x))) /\ (waiting (cli x) = [] -> rest = []) /\
      received (wire (peer x)) fs /\ received_in_order (wire (peer x)) fs.
Proof using All.
  intros Hb Hk Hos Hn. destruct (new_client_ok t e b k Ht Hb Hk) as (c & Ec & H0).
  assert (Forall (fun r => Z.of_nat (length r) < BUF_LEN) (offered os)) as Hshort.
  { eapply Forall_impl; [exact Hos|]. intros r [[_ ?] _]. rewrite BUF_LEN_val. lia. }
  destruct (conn_run_ok (header_of t) os [] _ H0 Hshort Hn) as (x & es & Ex & [[_ Hsp _] Hwk] & Hpre & _ & Hall).
  exists c, x, es. do 4 (split; [done|]). split; [intros Hl Hne E; destruct (Hwk Hl) as [Hw _]; by destruct (Hw E)|]. apply stream_received; [exact Hsp|].
  destruct Hpre as [l E]. rewrite E in Hos. by apply Forall_app in Hos as [? _].
Qed.

(** C19: Events pushed over a character device are pulled.  From the connection of the host
    on, whatever the device takes of each write, the same holds for every event broadcast:
    it is on the stream, in order, or counted, and received so; with the same conditions on
    the events, on the receiver's tracepoint (no vm attribute) and on the receiver's memcpy,
    which copies overlapping blocks too unless the pieces never make it. *)
Theorem cdev_pushed_pulled c ans flushed os : cdev_ring c -> connected c = false -> cdev_waiting c = [] -> cdev_lost c = no_lost ->
  Forall (ordinary e') (flushed ++ offered os) -> Z.of_nat (length flushed + length os) < 2 ^ 64 - 1 ->
  exists c1 k1 c2 k2, handle_cdev_out (tp_header t) flushed c (Sink ans []) = Some (c1, k1) /\
    cdev_run (tp_header t) os c1 k1 = Some (c2, k2) /\
    (cdev_waiting c2 <> [] -> Z.land (epoll c2) EPOLLOUT <> 0) /\
    exists fs rest, told (flushed ++ offered os) (fs ++ rest) (lost (cdev_lost c2)) /\ (cdev_waiting c2 = [] -> rest = []) /\
      received (wire k2) fs /\ received_in_order (wire k2) fs.
Proof using All.
  intros Hr Hx Hw El Hos Hn. pose proof (length_header t e Ht) as Hlen. pose proof (short_names _ _ Ht).
  assert (Forall (fun r => Z.of_nat (length r) < BUF_LEN) (flushed ++ offered os)) as Hshort.
  { eapply Forall_impl; [exact Hos|]. intros r [[_ ?] _]. rewrite BUF_LEN_val. lia. }
  apply Forall_app in Hshort as [Hs1 Hs2].
  destruct (cdev_connect_ok (tp_header t) flushed c ans Hr Hx Hw El) as (c1 & k1 & E1 & H1 & Hwk1); [|done|lia|].
  { unfold header_of in Hlen. rewrite Hlen, BUF_LEN_val. lia. }
  destruct (cdev_run_ok _ (tp_header t) os flushed c1 k1 H1 Hwk1 Hs2 Hn) as (c2 & k2 & E2 & H2 & Hwk2).
  exists c1, k1, c2, k2. do 3 (split; [done|]). apply stream_received; [exact (cdev_spool _ _ _ _ H2)|done].
Qed.

(** Events pushed to a file are pulled from it: the file is the description and the
    events, and the calls that read it, 64 events each, hand them on once each, in order,
    and free the block at the end of the file. *)
Theorem file_pushed_pulled rs ms : rs <> [] -> Forall (ordinary e') rs -> (S (length rs) < 64 * length ms)%nat ->
  Forall (fun m => fresh m /\ exists size, header_size m 0 = Some size /\ size <> 0) ms ->
  exists f pos p, block_broadcasts t rs (ToFile [] 0) = Some (ToFile f pos) /\ f = header_of t ++ concat rs /\
    read_file (block_process_event u) ms pull0 f = Some (false, p, []) /\ passed p = locals u (tp_id t) rs.
Proof using All.
  intros Hne Hrs Hl Hms. destruct rs as [|r rs]; [done|]. cbn [block_broadcasts block_broadcast Z.eqb].
  assert (file_write_header t [] 0 = (header_of t, Z.of_nat (length (header_of t)))) as ->.
  { unfold file_write_header, perf_record_tp_init. by rewrite (has_evsel _ _ Ht). }
  cbn [mbind option_bind]. destruct (file_appends t rs (header_of t ++ r) (Z.of_nat (length (header_of t)) + Z.of_nat (length r))) as (pos & ->).
  { rewrite (length_header t e Ht). unfold SIZEOF_TP, strlen. lia. }
  destruct (hosts_agree t e Ht u e' Hu Hv Hsame Hread) as (Hpull & Hsp & _).
  destruct (header_processed t e Ht u e' Hu Hv Hsame Hread) as (p0 & E0 & _ & Hfrom & Hpass).
  destruct (records_ok u e' Hu Hv Hpull Hsp _ _ p0 Hfrom Hrs) as (p & Er & Ep).
  exists (header_of t ++ concat (r :: rs)), pos, p. cbn [concat]. split; [by rewrite <- app_assoc|]. split; [done|].
  rewrite Hpass in Ep. split; [|done].
  change (header_of t ++ r ++ concat rs) with (concat (header_of t :: r :: rs)).
  apply (read_file_ok (block_process_event u) (pull_ok u) (process_within u Hpull)).
  - intros e1 _. exists block_new. auto.
  - constructor; [apply (header_whole t e Ht)|]. eapply Forall_impl; [exact Hrs|by intros ? [? _]].
  - cbn [run_records] in *. rewrite E0. cbn [mbind option_bind]. exact Er.
  - exact Hms.
  - cbn in *. lia.
Qed.
End hosts.

(** C38: The description of a tracepoint is accepted by the block of another exactly when
    both have the same names, sample without stacks in the same format, and have events of
    the same size; then the identifier of the peer's is kept, and otherwise the block is
    freed. *)
Theorem tp_described t e u p : describable t e -> c_string (sys u) -> c_string (name u) ->
  block_process_event u p (header_of t) 0 =
    Some (if same_tp t e u then (true, Pull (with_remote (tp_id t) (pblock p)) (passed p), header_of t)
          else (false, p, header_of t)).
Proof.
  intros Ht Hs Hn. destruct (header_fields t e Ht) as (F0 & _ & F1 & _). pose proof (id_range _ _ Ht).
  unfold block_process_event, header_type. rewrite F0. cbn [mbind option_bind]. change (PERF_RECORD_TP =? PERF_RECORD_TP) with true.
  rewrite (header_matches t e Ht u Hs Hn). cbn [mbind option_bind]. destruct (same_tp t e u); [|done].
  change (0 + 8) with 8. rewrite F1. cbn [mbind option_bind]. by rewrite s32_small by lia.
Qed.

(** A sample of another host, anywhere in a buffer, is made one of the local event: its
    instance is the index of its processor or thread, its identifiers are the local ones of
    that instance, its tracepoint's type the local one, and no other byte of the buffer
    changes. *)
Theorem pulled_sample_local t e b pre r post : evsel t = Some e -> speriod (eattr e) <> 0 -> tp_vcpu t = None -> pullable t ->
  let st := stype (eattr e) in let n := perf_evsel__read_size (eattr e) in let b1 := find_pos st n b in
  block_ok st n b -> sample_room st (common_type_pos b1) <= Z.of_nat (length r) ->
  exists ins r', block_event_convert t b (pre ++ r ++ post) (Z.of_nat (length pre)) = Some (ins, b1, pre ++ r' ++ post) /\
    host_index t b1 r = Some ins /\ length r' = length r /\
    (has st PERF_SAMPLE_ID = true -> get_le 8 r' (HEADER_SIZE + bid_pos b1) = Some (u64 (host_id t e ins))) /\
    (has st PERF_SAMPLE_STREAM_ID = true -> get_le 8 r' (HEADER_SIZE + stream_id_pos b1) = Some (u64 (host_id t e ins))) /\
    (retyped t b1 st = true -> get_le 2 r' (HEADER_SIZE + common_type_pos b1 + 4) = Some (u16 (tp_id t))) /\
    (forall j : nat, ~ rewritten t st b1 (Z.of_nat j) -> r' !! j = r !! j).
Proof.
  intros He Hsp Hv Hpull st n b1 Hb Hroom.
  destruct (host_sample_ok t e b r He Hsp Hv Hpull Hb Hroom) as (ins & r' & E & H).
  destruct (block_event_convert_framed t pre post e b r _ _ _ He Hpull Hb E) as (Ew & _). by exists ins, r'.
Qed.

(** ** What goes wrong *)

(** A peer that shuts down while its events are being ordered: [tcp_recv] frees the block
    and [block_read_event] goes on with it. *)
Lemma shutdown_uses_freed overlap b : event b = 0 -> refill overlap true b [Shut] = None.
Proof. intros E. unfold refill. rewrite E, andb_false_r. done. Qed.

(** A record of no length is processed for ever. *)
Lemma empty_record_loops {S} (process : S -> list Z -> Z -> option (bool * S * list Z)) least s m off size :
  (forall s m, exists s', process s m off = Some (true, s', m)) -> header_size m off = Some 0 -> 0 <= size -> least <= size ->
  forall fuel, process_loop process least fuel s m off size = None.
Proof.
  intros Hp Hh Hs Hl fuel. revert s. induction fuel as [|fuel IH]; intros s; [done|]. cbn [process_loop].
  rewrite (proj2 (Z.leb_le _ _)), Hh by done. cbn [mbind option_bind]. rewrite (proj2 (Z.leb_le _ _)) by done.
  destruct (Hp s m) as [s' ->]. cbn [mbind option_bind]. rewrite Hh. cbn [mbind option_bind]. rewrite Z.add_0_r, Z.sub_0_r. apply IH.
Qed.

(** ** Witnesses

    A tracepoint "s:n" on two hosts, 300 on one and 400 on the other, sampled with thread,
    time, identifier, processor and raw data; the first processor of the sample is 1. *)
Definition ex_attr : sample_attr :=
  SampleAttr 2 300 1 (Z.lor PERF_SAMPLE_TID (Z.lor PERF_SAMPLE_TIME (Z.lor PERF_SAMPLE_ID (Z.lor PERF_SAMPLE_CPU PERF_SAMPLE_RAW))))
    0 0 0 0 0 true 0.
Definition ex_evsel : perf_evsel := PerfEvsel ex_attr [[70]; [71]] false.
Definition ex_tp (id : Z) : tp := Tp [115] [110] id 8 (Some ex_evsel) None true [0; 1] [5] true.
Definition ex_sample : list Z :=
  le_bytes 4 9 ++ le_bytes 2 0 ++ le_bytes 2 52 ++ le_bytes 4 5 ++ le_bytes 4 5 ++ le_bytes 8 1000 ++ le_bytes 8 33 ++
  le_bytes 4 1 ++ le_bytes 4 0 ++ le_bytes 4 8 ++ le_bytes 2 300 ++ le_bytes 6 0.
Definition ex_buf : list Z := replicate (Z.to_nat BUF_LEN) 0.

Lemma ex_describable id : 0 <= id < 2 ^ 31 -> describable (ex_tp id) ex_evsel.
Proof. intros. split; try done; repeat constructor; done. Qed.

Lemma ex_ordinary : ordinary ex_evsel ex_sample.
Proof. split; [split; [reflexivity|by vm_compute]|]. exists 9. split; [reflexivity|]. split; [done|]. intros _. by vm_compute. Qed.

Lemma ex_buf_len : Z.of_nat (length ex_buf) = BUF_LEN.
Proof. unfold ex_buf. rewrite length_replicate. rewrite BUF_LEN_val. lia. Qed.

Example ex_local : locals (ex_tp 400) 300 [ex_sample] =
  [(le_bytes 4 9 ++ le_bytes 2 0 ++ le_bytes 2 52 ++ le_bytes 4 5 ++ le_bytes 4 5 ++ le_bytes 8 1000 ++ le_bytes 8 71 ++
    le_bytes 4 1 ++ le_bytes 4 0 ++ le_bytes 4 8 ++ le_bytes 2 400 ++ le_bytes 6 0, 1)].
Proof. vm_compute. reflexivity. Qed.

Lemma tcp_pushed_pulled_witness : exists c x es fs rest,
  tcp_new_client (ex_tp 300) (accepted ex_buf) (Sink [] []) = Some (0, c, Sink [] []) /\
  conn_run [Offer ex_sample [Takes 7]; Ready [Takes 30; Fails EAGAIN]] (Conn c (Sink [] []) true true) = Some (x, es) /\
  told es (fs ++ rest) (lost (lost_event (cli x))) /\ received (ex_tp 300) (ex_tp 400) (wire (peer x)) fs.
Proof.
  destruct (tcp_pushed_pulled (ex_tp 300) ex_evsel (ex_describable 300 ltac:(lia)) (ex_tp 400) ex_evsel eq_refl eq_refl eq_refl ltac:(done)
    ex_buf (Sink [] []) [Offer ex_sample [Takes 7]; Ready [Takes 30; Fails EAGAIN]] ex_buf_len eq_refl
    ltac:(repeat (constructor; [exact ex_ordinary|]); constructor) ltac:(done)) as (c & x & es & E1 & E2 & _ & _ & _ & fs & rest & H1 & _ & H2 & _).
  exists c, x, es, fs, rest. split; [exact E1|]. split; [exact E2|]. split; [exact H1|exact H2].
Defined.

Lemma cdev_pushed_pulled_witness : exists c1 k1 c2 k2 fs rest,
  handle_cdev_out (tp_header (ex_tp 300)) [ex_sample] (cdev_new ex_buf) (Sink [Takes 100] []) = Some (c1, k1) /\
  cdev_run (tp_header (ex_tp 300)) [Offer ex_sample []; Ready [Takes 10]] c1 k1 = Some (c2, k2) /\
  told [ex_sample; ex_sample] (fs ++ rest) (lost (cdev_lost c2)) /\ received_in_order (ex_tp 300) (ex_tp 400) (wire k2) fs.
Proof.
  destruct (cdev_pushed_pulled (ex_tp 300) ex_evsel (ex_describable 300 ltac:(lia)) (ex_tp 400) ex_evsel eq_refl eq_refl eq_refl ltac:(done)
    (cdev_new ex_buf) [Takes 100] [ex_sample] [Offer ex_sample []; Ready [Takes 10]]) as (c1 & k1 & c2 & k2 & E1 & E2 & _ & fs & rest & H1 & _ & _ & H2).
  - split; cbn; [exact ex_buf_len|rewrite BUF_LEN_val; lia..].
  - reflexivity.
  - reflexivity.
  - reflexivity.
  - repeat (constructor; [exact ex_ordinary|]). constructor.
  - done.
  - exists c1, k1, c2, k2, fs, rest. split; [exact E1|]. split; [exact E2|]. split; [exact H1|exact H2].
Defined.

Lemma file_pushed_pulled_witness : exists f pos p,
  block_broadcasts (ex_tp 300) [ex_sample] (ToFile [] 0) = Some (ToFile f pos) /\
  read_file (block_process_event (ex_tp 400)) [le_bytes 8 (Z.shiftl 9 48) ++ replicate (Z.to_nat (2 ^ 16 - 8)) 0] pull0 f = Some (false, p, []) /\
  length (passed p) = 1%nat.
Proof.
  destruct (file_pushed_pulled (ex_tp 300) ex_evsel (ex_describable 300 ltac:(lia)) (ex_tp 400) ex_evsel eq_refl eq_refl eq_refl ltac:(done)
    [ex_sample] [le_bytes 8 (Z.shiftl 9 48) ++ replicate (Z.to_nat (2 ^ 16 - 8)) 0]) as (f & pos & p & E1 & _ & E2 & E3).
  - done.
  - repeat (constructor; [exact ex_ordinary|]). constructor.
  - cbn. lia.
  - constructor; [|constructor]. split.
    + unfold fresh. rewrite length_app, length_le_bytes, length_replicate. lia.
    + exists 9. split; [|done]. rewrite header_app by (rewrite ?length_le_bytes; unfold HEADER_SIZE; lia). reflexivity.
  - exists f, pos, p. split; [exact E1|]. split; [exact E2|]. rewrite E3. vm_compute. reflexivity.
Defined.

Lemma tp_described_witness : describable (ex_tp 300) ex_evsel /\
  block_process_event (ex_tp 400) pull0 (header_of (ex_tp 300)) 0 = Some (true, Pull (with_remote 300 block_new) [], header_of (ex_tp 300)).
Proof.
  split; [apply ex_describable; lia|].
  rewrite (tp_described (ex_tp 300) ex_evsel (ex_tp 400) pull0); [reflexivity|apply ex_describable; lia|by repeat constructor|by repeat constructor].
Defined.

Lemma pulled_sample_local_witness : exists ins r',
  block_event_convert (ex_tp 400) block_new ([1; 2] ++ ex_sample ++ [3]) 2 = Some (ins, find_pos (stype ex_attr) 8 block_new, [1; 2] ++ r' ++ [3]) /\
  host_index (ex_tp 400) (find_pos (stype ex_attr) 8 block_new) ex_sample = Some ins.
Proof.
  destruct (pulled_sample_local (ex_tp 400) ex_evsel block_new [1; 2] ex_sample [3]) as (ins & r' & E & H & _).
  - reflexivity.
  - done.
  - reflexivity.
  - intros e [= <-]. split; [reflexivity|done].
  - exists block_new. auto.
  - by vm_compute.
  - exists ins, r'. split; [exact E|exact H].
Defined.

(** Pieces that leave [memcpy] nothing to overlap: the description with the first bytes of a
    sample, and the rest of it. *)
Example pieces_apart : let s := header_of (ex_tp 300) ++ ex_sample in apart [] [take 50 s; drop 50 s].
Proof. vm_compute. split; [done|]. split; [right; lia|]. split; [done|]. split; [right; lia|done]. Qed.

(** A piece shorter than a record is moved onto itself, which [memcpy] does not allow. *)
Example overlapping_copy :
  tcp_receive (block_process_event (ex_tp 400)) false 20 pull0 (Reader ex_buf 0) [Data [83; 0; 0; 0; 0; 0; 44; 0; 1; 1]] = None.
Proof. vm_compute. reflexivity. Qed.
