(* ===== verification/Epoll.v ===== *)
(** * The event loop (lib/epoll.c)

    The descriptors that are polled are in a red-black tree by their number, each with the
    data of its handler; the kernel is given the address of the data.  The handlers that one
    poll calls may add and delete descriptors, those included that are ready and wait for
    their turn: [event_poll__del] takes the data it frees out of the events that are left.

    The tree is a finite map here, which is what [RbMain] shows of it. *)

From S2P Require Import Prelude.

(** ** Data *)

(** [struct event_poll_data] without its node. *)
Record poll_data := Data { fd : Z; events : Z; ptr : Z; handle : Z }.

(** [struct event_poll], with the memory of the data and what the kernel was told of each
    descriptor: the events and [data.ptr].  An event of [ready] is what is ready and
    [data.ptr], zero for null. *)
Record event_poll := EventPoll {
  maxevents : nat;
  ep_i : nat;
  ep_cnt : nat;
  ready : list (Z * Z);
  nr : Z;
  root : gmap Z Z;
  datas : gmap Z poll_data;
  kernel : gmap Z (Z * Z)
}.

(** A call of a handler. *)
Record call := Call { c_handle : Z; c_fd : Z; c_revents : Z; c_ptr : Z }.

(** What a handler does to the loop: it adds a descriptor, with memory or not and with
    [epoll_ctl] successful or not, or deletes one.  (A deletion fails when the descriptor
    is closed, and the kernel has forgotten it.) *)
Inductive op :=
  | Add (fd events ptr handle : Z) (mem ctl : bool)
  | Del (fd : Z) (ctl : bool).

(** The address of new memory, by what is allocated. *)
Class Memory := fresh_addr : gmap Z poll_data -> Z.

Definition ENOMEM : Z := 12.
Definition ENOENT : Z := 2.

Definition set_i (i : nat) (ep : event_poll) : event_poll :=
  EventPoll (maxevents ep) i (ep_cnt ep) (ready ep) (nr ep) (root ep) (datas ep) (kernel ep).

(** ** Adding and deleting *)

(** The first result is whether [fd] is new, the second its data. *)
Definition rb_find_add (fd a : Z) (t : gmap Z Z) : bool * Z * gmap Z Z :=
  match t !! fd with
  | Some b => (false, b, t)
  | None => (true, a, <[fd := a]> t)
  end.

Definition event_poll__add `{Memory} (fd events ptr handle : Z) (mem ctl : bool) (ep : event_poll) : Z * event_poll :=
  if mem then
    let a := fresh_addr (datas ep) in
    let '(new, a, t) := rb_find_add fd a (root ep) in
    (if ctl then 0 else -1,
     EventPoll (maxevents ep) (ep_i ep) (ep_cnt ep) (ready ep) (if new then nr ep + 1 else nr ep) t
       (<[a := Data fd events ptr handle]> (datas ep))
       (if ctl then <[fd := (events, a)]> (kernel ep) else kernel ep))
  else (- ENOMEM, ep).

(** The events after the current one that have the data at [a] lose it. *)
Definition clear (i cnt : nat) (a : Z) (l : list (Z * Z)) : list (Z * Z) :=
  imap (fun j e => if decide (i < j < cnt)%nat then if e.2 =? a then (e.1, 0) else e else e) l.

Definition event_poll__del (fd : Z) (ctl : bool) (ep : event_poll) : Z * event_poll :=
  match root ep !! fd with
  | Some a =>
      (if ctl then 0 else -1, EventPoll (maxevents ep) (ep_i ep) (ep_cnt ep) (clear (ep_i ep) (ep_cnt ep) a (ready ep)) (nr ep - 1)
        (delete fd (root ep)) (delete a (datas ep)) (delete fd (kernel ep)))
  | None => (- ENOENT, ep)
  end.

Definition do_op `{Memory} (ep : event_poll) (o : op) : event_poll :=
  match o with
  | Add fd events ptr handle mem ctl => (event_poll__add fd events ptr handle mem ctl ep).2
  | Del fd ctl => (event_poll__del fd ctl ep).2
  end.

(** ** Polling *)

(** [epoll_wait] reports descriptors the kernel was told of, with what it was told. *)
Definition epoll_wait (l : list (Z * Z)) (ep : event_poll) : list (Z * Z) :=
  map (fun p => (p.2, match kernel ep !! p.1 with Some (_, a) => a | None => 0 end)) l.

Section poll.
Context `{Memory}.
(** What the handlers do, by the calls so far, the last of which is theirs. *)
Variable handlers : list call -> list op.

Definition state : Type := event_poll * list call.

(** The rest of the loop from event [i] on; [None] is a use of freed memory. *)
Fixpoint poll_loop (k : nat) (i : nat) (s : state) : option state :=
  match k with
  | O => Some s
  | S k =>
      '(revents, a) ← ready s.1 !! i;
      if a =? 0 then poll_loop k (S i) s
      else
        d ← datas s.1 !! a;
        let log := s.2 ++ [Call (handle d) (fd d) revents (ptr d)] in
        poll_loop k (S i) (foldl do_op (set_i i s.1) (handlers log), log)
  end.

(** [w] is what [epoll_wait] finds: an error, or the descriptors that are ready, with what is
    ready of each. *)
Definition event_poll__poll (w : Z + list (Z * Z)) (s : state) : option (Z * state) :=
  match w with
  | inl errno => Some (- errno, s)
  | inr l =>
  let ep := s.1 in
  let ep := EventPoll (maxevents ep) (ep_i ep) (length l) (epoll_wait l ep ++ drop (length l) (ready ep)) (nr ep)
              (root ep) (datas ep) (kernel ep) in
  '(ep, log) ← poll_loop (length l) 0 (ep, s.2);
  Some (if nr ep =? 0 then - ENOENT else Z.of_nat (length l),
        (EventPoll (maxevents ep) 0 0 (ready ep) (nr ep) (root ep) (datas ep) (kernel ep), log))
  end.
End poll.

Definition event_poll__alloc (maxevents : nat) : event_poll :=
  EventPoll maxevents 0 0 (replicate maxevents (0, 0)) 0 ∅ ∅ ∅.

(** The nodes of the tree in order; each is erased, deleted from the kernel and freed. *)
Definition event_poll__free (ep : event_poll) : event_poll :=
  if nr ep =? 0 then ep
  else foldl (fun ep p => EventPoll (maxevents ep) (ep_i ep) (ep_cnt ep) (ready ep) (nr ep)
    (delete p.1 (root ep)) (delete p.2 (datas ep)) (delete p.1 (kernel ep))) ep (map_to_list (root ep)).

(** ** What is promised *)

(** The descriptors in the loop, with their data. *)
Definition regs (ep : event_poll) : gmap Z poll_data := omap (fun a => datas ep !! a) (root ep).

(** The loop without memory: what is in it, and what is ready and waits for its turn. *)
Definition spec_op (s : gmap Z poll_data * list (Z * Z)) (o : op) : gmap Z poll_data * list (Z * Z) :=
  match o with
  | Add fd events ptr handle true _ => (<[fd := Data fd events ptr handle]> s.1, s.2)
  | Add _ _ _ _ false _ => s
  | Del fd _ => (delete fd s.1, filter (fun p => p.1 <> fd) s.2)
  end.

(** Who waits is called with what it is registered with then; a descriptor that is deleted
    before its turn, even if it is added again, is not called. *)
Fixpoint spec_loop (handlers : list call -> list op) (k : nat) (s : gmap Z poll_data * list (Z * Z)) (log : list call) :
    gmap Z poll_data * list call :=
  match k, s.2 with
  | S k, (fd, revents) :: rest =>
      match s.1 !! fd with
      | Some d =>
          let log := log ++ [Call (handle d) fd revents (ptr d)] in
          spec_loop handlers k (foldl spec_op (s.1, rest) (handlers log)) log
      | None => spec_loop handlers k (s.1, rest) log
      end
  | _, _ => (s.1, log)
  end.

Record good (ep : event_poll) : Prop := {
  good_root : forall f a, root ep !! f = Some a -> a <> 0 /\ exists d, datas ep !! a = Some d /\ fd d = f;
  good_data : forall a d, datas ep !! a = Some d -> root ep !! fd d = Some a;
  good_kernel : forall f e a, kernel ep !! f = Some (e, a) -> root ep !! f = Some a;
  good_nr : nr ep = Z.of_nat (size (root ep))
}.
Arguments good_root {ep}.
Arguments good_data {ep}.
Arguments good_kernel {ep}.
Arguments good_nr {ep}.

(** The events from [i] on, and who waits in them. *)
Definition rest (i : nat) (ep : event_poll) : list (Z * Z) := drop i (take (ep_cnt ep) (ready ep)).

Definition waiting (D : gmap Z poll_data) (l : list (Z * Z)) : list (Z * Z) :=
  omap (fun e => d ← D !! e.2; Some (fd d, e.1)) l.

(** The events refer to data that is there, or to none. *)
Definition valid (D : gmap Z poll_data) (l : list (Z * Z)) : Prop :=
  forall e, e ∈ l -> e.2 = 0 \/ is_Some (D !! e.2).

Lemma regs_lookup ep f d : good ep -> regs ep !! f = Some d <-> exists a, root ep !! f = Some a /\ datas ep !! a = Some d /\ fd d = f.
Proof.
  intros Hg. unfold regs. rewrite lookup_omap. split.
  - intros (a & Ha & Hd)%bind_Some. exists a. split; [done|]. split; [done|].
    destruct (good_root Hg f a Ha) as (_ & d' & Hd' & Hf). congruence.
  - intros (a & -> & Hd & _). done.
Qed.

Lemma no_null ep : good ep -> datas ep !! 0 = None.
Proof.
  intros Hg. destruct (datas ep !! 0) as [d|] eqn:E; [|done]. destruct (good_root Hg (fd d) 0); [by apply (good_data Hg)|done].
Qed.

Lemma same_address ep a b d d' : good ep -> datas ep !! a = Some d -> datas ep !! b = Some d' -> fd d = fd d' -> a = b.
Proof. intros Hg Ha%(good_data Hg) Hb%(good_data Hg) E. congruence. Qed.

Lemma size_regs ep : good ep -> (regs ep = ∅ <-> nr ep = 0).
Proof.
  intros Hg. rewrite (good_nr Hg). split.
  - intros E. assert (root ep = ∅) as ->; [|by rewrite map_size_empty].
    apply map_eq. intros f. rewrite lookup_empty. destruct (root ep !! f) as [a|] eqn:Ha; [|done].
    destruct (good_root Hg f a Ha) as (_ & d & Hd & Hf). assert (regs ep !! f = Some d) as Hr.
    { apply regs_lookup; [done|]. by exists a. }
    rewrite E, lookup_empty in Hr. done.
  - intros E. assert (root ep = ∅) as Hr by (apply map_size_empty_inv; lia). unfold regs. rewrite Hr. apply omap_empty.
Qed.

Lemma waiting_insert D a d l :
  valid D l -> a <> 0 -> D !! a = None \/ (exists d', D !! a = Some d' /\ fd d' = fd d) -> D !! 0 = None ->
  waiting (<[a := d]> D) l = waiting D l.
Proof.
  intros Hv Ha Hd H0. induction l as [|e l IH]; [done|]. unfold waiting in *. cbn. rewrite IH by (intros x Hx; apply Hv; by right).
  destruct (decide (e.2 = a)) as [Ea|Ea]; [|by rewrite lookup_insert_ne].
  rewrite Ea, lookup_insert_eq. cbn. destruct Hd as [Hn|(d' & -> & <-)]; [|done].
  destruct (Hv e) as [?|[x Hx]]; [by left|congruence|congruence].
Qed.

Definition blank (a : Z) (e : Z * Z) : Z * Z := if e.2 =? a then (e.1, 0) else e.

Lemma rest_clear i cnt a l : drop (S i) (take cnt (clear i cnt a l)) = map (blank a) (drop (S i) (take cnt l)).
Proof.
  apply list_eq. intros j. rewrite list_lookup_fmap, !lookup_drop. unfold clear.
  destruct (decide (S i + j < cnt)%nat) as [Hj|Hj].
  - rewrite !lookup_take_lt by done. rewrite list_lookup_imap. destruct (l !! (S i + j)%nat) as [e|]; [|done]. cbn.
    by rewrite decide_True by lia.
  - by rewrite !lookup_take_ge by lia.
Qed.

Lemma waiting_blank ep a d l :
  good ep -> datas ep !! a = Some d ->
  waiting (delete a (datas ep)) (map (blank a) l) = filter (fun p => p.1 <> fd d) (waiting (datas ep) l).
Proof.
  intros Hg Ha. pose proof (no_null ep Hg) as H0. induction l as [|e l IH]; [done|]. unfold waiting in *. cbn [map omap list_omap].
  destruct (Z.eqb_spec e.2 a) as [E|E].
  - assert (blank a e = (e.1, 0)) as -> by (unfold blank; by rewrite (proj2 (Z.eqb_eq _ _) E)).
    cbn [snd]. rewrite lookup_delete_ne by (intros E0; congruence). rewrite H0, E, Ha. cbn -[filter].
    rewrite filter_cons_False by tauto. apply IH.
  - assert (blank a e = e) as -> by (unfold blank; by rewrite (proj2 (Z.eqb_neq _ _) E)).
    rewrite lookup_delete_ne by done. destruct (datas ep !! e.2) as [d'|] eqn:Hd'; cbn -[filter]; [|apply IH].
    rewrite filter_cons_True; [by f_equal|]. cbn. intros Hf. apply E. by apply (same_address ep e.2 a d' d).
Qed.

Section ops.
Context `{Memory}.
(** The library's allocator: memory that is not in use. *)
Hypothesis fresh_ok : forall D, D !! fresh_addr D = None /\ fresh_addr D <> 0.

Definition op_ok (ep ep' : event_poll) (s : gmap Z poll_data * list (Z * Z)) : Prop :=
  good ep' /\ ep_i ep' = ep_i ep /\ ep_cnt ep' = ep_cnt ep /\ length (ready ep') = length (ready ep) /\
  maxevents ep' = maxevents ep /\
  valid (datas ep') (rest (S (ep_i ep')) ep') /\ (regs ep', waiting (datas ep') (rest (S (ep_i ep')) ep')) = s.

Lemma poll_add_ok ep f ev p h ctl :
  good ep -> valid (datas ep) (rest (S (ep_i ep)) ep) ->
  op_ok ep (event_poll__add f ev p h true ctl ep).2 (<[f := Data f ev p h]> (regs ep), waiting (datas ep) (rest (S (ep_i ep)) ep)).
Proof using fresh_ok.
  intros Hg Hv. pose proof (no_null ep Hg) as H0. destruct (fresh_ok (datas ep)) as [Hf Hf0]. set (a' := fresh_addr (datas ep)) in *.
  unfold event_poll__add, rb_find_add. fold a'. set (d := Data f ev p h).
  set (a := match root ep !! f with Some b => b | None => a' end).
  set (new := match root ep !! f with Some _ => false | None => true end).
  set (t := match root ep !! f with Some _ => root ep | None => <[f := a']> (root ep) end).
  assert ((match root ep !! f with Some b => (false, b, root ep) | None => (true, a', <[f := a']> (root ep)) end) = (new, a, t)) as ->
    by (unfold new, a, t; by destruct (root ep !! f)).
  assert (a <> 0 /\ (datas ep !! a = None \/ exists d', datas ep !! a = Some d' /\ fd d' = f)) as [Ha Hd].
  { unfold a. destruct (root ep !! f) as [b|] eqn:E; [|by auto]. destruct (good_root Hg f b E) as (? & d' & ? & ?). eauto 6. }
  assert (forall f', t !! f' = if decide (f' = f) then Some a else root ep !! f') as Ht.
  { intros f'. unfold t, a. destruct (root ep !! f) as [b|] eqn:E; case_decide as Hff; subst; try done.
    - by rewrite lookup_insert_eq.
    - by rewrite lookup_insert_ne. }
  assert (forall b d', datas ep !! b = Some d' -> b <> a -> fd d' <> f) as Hother.
  { intros b d' Hb Hne Hff. apply (good_data Hg) in Hb as Hr. rewrite Hff in Hr. apply Hne. unfold a. by rewrite Hr. }
  assert (forall f' b, f' <> f -> root ep !! f' = Some b -> b <> a) as Hne.
  { intros f' b Hff Hb ->. destruct (good_root Hg f' a Hb) as (_ & d' & Hd' & Hfd). destruct Hd as [?|(d'' & ? & ?)]; congruence. }
  assert (good (EventPoll (maxevents ep) (ep_i ep) (ep_cnt ep) (ready ep) (if new then nr ep + 1 else nr ep) t
    (<[a := d]> (datas ep)) (if ctl then <[f := (ev, a)]> (kernel ep) else kernel ep))) as Hg'.
  { split; cbn.
    - intros f' b. rewrite Ht. case_decide as Hff.
      + subst f'. intros [= <-]. split; [done|]. exists d. split; [apply lookup_insert_eq|done].
      + intros Hb. destruct (good_root Hg f' b Hb) as (? & d' & ? & ?). split; [done|]. exists d'. split; [|done].
        rewrite lookup_insert_ne; [done|]. intros ->. by apply (Hne f' b Hff Hb).
    - intros b d' Hb. rewrite Ht. destruct (decide (b = a)) as [->|Hba].
      + rewrite lookup_insert_eq in Hb. injection Hb as <-. by rewrite decide_True.
      + rewrite lookup_insert_ne in Hb by done. rewrite decide_False by (by apply (Hother b)). by apply (good_data Hg).
    - intros f' e b Hk. rewrite Ht. destruct ctl.
      + destruct (decide (f' = f)) as [->|Hff]; [rewrite lookup_insert_eq in Hk; congruence|].
        rewrite lookup_insert_ne in Hk by done. by apply (good_kernel Hg f' e).
      + apply (good_kernel Hg) in Hk. case_decide as Hff; [|done]. subst f'. unfold a. by rewrite Hk.
    - unfold new, t. destruct (root ep !! f) as [b|] eqn:E; [apply (good_nr Hg)|]. rewrite map_size_insert_None by done.
      rewrite (good_nr Hg). lia. }
  split; [done|]. cbn. split; [done|]. split; [done|]. split; [done|]. split; [done|]. split.
  - intros e He. destruct (Hv e He) as [?|Hs]; [by left|right]. destruct (decide (e.2 = a)) as [->|]; [rewrite lookup_insert_eq; by eexists|].
    by rewrite lookup_insert_ne.
  - f_equal.
    + apply map_eq. intros f'. unfold regs. cbn. rewrite lookup_omap, Ht. case_decide as Hff.
      * subst f'. cbn. by rewrite !lookup_insert_eq.
      * rewrite (lookup_insert_ne _ f f') by done. rewrite lookup_omap. destruct (root ep !! f') as [b|] eqn:Hb; [|done]. cbn.
        rewrite lookup_insert_ne; [done|]. intros ->. by apply (Hne f' b Hff Hb).
    + unfold rest. cbn. apply waiting_insert; [done|done|done|done].
Qed.

Lemma del_ok ep f ctl :
  good ep -> valid (datas ep) (rest (S (ep_i ep)) ep) ->
  op_ok ep (event_poll__del f ctl ep).2
    (delete f (regs ep), filter (fun p => p.1 <> f) (waiting (datas ep) (rest (S (ep_i ep)) ep))).
Proof using.
  intros Hg Hv. unfold event_poll__del. destruct (root ep !! f) as [a|] eqn:Ea; cbn.
  - destruct (good_root Hg f a Ea) as (Ha & d & Hd & Hfd).
    assert (forall f' b, f' <> f -> root ep !! f' = Some b -> b <> a) as Hne.
    { intros f' b Hff Hb ->. destruct (good_root Hg f' a Hb) as (_ & d' & Hd' & ?). congruence. }
    split; [split|]; cbn.
    + intros f' b [Hff Hb]%lookup_delete_Some. destruct (good_root Hg f' b Hb) as (? & d' & ? & ?). split; [done|]. exists d'.
      split; [|done]. rewrite lookup_delete_ne; [done|]. intros E. apply (Hne f' b); congruence.
    + intros b d' [Hba Hb]%lookup_delete_Some. rewrite lookup_delete_ne; [by apply (good_data Hg)|]. intros E. apply Hba.
      apply (same_address ep a b d d' Hg Hd Hb). congruence.
    + intros f' e b [Hff Hb]%lookup_delete_Some. rewrite lookup_delete_ne by done. by apply (good_kernel Hg f' e).
    + rewrite map_size_delete, Ea, (good_nr Hg). pose proof (map_size_ne_0_lookup_2 (root ep) f ltac:(by exists a)). lia.
    + split; [done|]. split; [done|]. split; [apply length_imap|]. split; [done|]. split.
      * unfold rest. cbn. rewrite rest_clear. intros e (e0 & -> & He0)%list_elem_of_fmap. unfold blank.
        destruct (Z.eqb_spec e0.2 a) as [E|E]; [by left|]. destruct (Hv e0 He0) as [?|?]; [by left|right]. by rewrite lookup_delete_ne.
      * f_equal.
        -- apply map_eq. intros f'. unfold regs. cbn. rewrite lookup_omap. destruct (decide (f' = f)) as [->|Hff].
           ++ by rewrite !lookup_delete_eq.
           ++ rewrite !(lookup_delete_ne _ f f') by done. rewrite lookup_omap. destruct (root ep !! f') as [b|] eqn:Hb; [|done]. cbn.
              rewrite lookup_delete_ne; [done|]. intros E. apply (Hne f' b Hff Hb). done.
        -- unfold rest. cbn. rewrite rest_clear, <- Hfd. by apply waiting_blank.
  - split; [done|]. split; [done|]. split; [done|]. split; [done|]. split; [done|]. split; [done|]. f_equal.
    + rewrite delete_id; [done|]. unfold regs. by rewrite lookup_omap, Ea.
    + symmetry. apply filter_id. intros [f' r] Hp. cbn. intros ->.
      apply list_elem_of_omap in Hp as (e & _ & (d & Hd & [= Hfd _])%bind_Some). apply (good_data Hg) in Hd. congruence.
Qed.

Lemma do_op_ok ep o :
  good ep -> valid (datas ep) (rest (S (ep_i ep)) ep) ->
  op_ok ep (do_op ep o) (spec_op (regs ep, waiting (datas ep) (rest (S (ep_i ep)) ep)) o).
Proof using fresh_ok.
  intros Hg Hv. destruct o as [f ev p h [] ctl|f ctl]; [by apply poll_add_ok| |by apply del_ok].
  split; [done|]. by repeat split.
Qed.

Lemma ops_ok l ep :
  good ep -> valid (datas ep) (rest (S (ep_i ep)) ep) ->
  op_ok ep (foldl do_op ep l) (foldl spec_op (regs ep, waiting (datas ep) (rest (S (ep_i ep)) ep)) l).
Proof using fresh_ok.
  revert ep. induction l as [|o l IH]; intros ep Hg Hv; [split; [done|]; by repeat split|].
  destruct (do_op_ok ep o Hg Hv) as (Hg1 & I1 & C1 & L1 & M1 & V1 & E1). cbn.
  destruct (IH (do_op ep o) Hg1 V1) as (Hg2 & I2 & C2 & L2 & M2 & V2 & E2). rewrite E1 in E2.
  split; [done|]. split; [congruence|]. split; [congruence|]. split; [congruence|]. split; [congruence|]. by split.
Qed.

(** ** A poll *)

Lemma spec_ops_length l s : (length (foldl spec_op s l).2 <= length s.2)%nat.
Proof using.
  revert s. induction l as [|o l IH]; intros s; [done|]. cbn. etrans; [apply IH|].
  destruct o as [f ev p h [] ctl|f ctl]; cbn; try done. apply length_filter.
Qed.

Variable handlers : list call -> list op.

Definition loop_post (ep : event_poll) (o : option state) (spec : gmap Z poll_data * list call) : Prop :=
  exists ep' log, o = Some (ep', log) /\ good ep' /\ length (ready ep') = length (ready ep) /\
    maxevents ep' = maxevents ep /\ spec = (regs ep', log).

Lemma poll_loop_ok k : forall i ep log k',
  good ep -> (i + k = ep_cnt ep)%nat -> (ep_cnt ep <= length (ready ep))%nat -> valid (datas ep) (rest i ep) ->
  (length (waiting (datas ep) (rest i ep)) <= k')%nat ->
  loop_post ep (poll_loop handlers k i (ep, log)) (spec_loop handlers k' (regs ep, waiting (datas ep) (rest i ep)) log).
Proof using fresh_ok.
  induction k as [|k IH]; intros i ep log k' Hg Hi Hc Hv Hk.
  - exists ep, log. unfold rest. rewrite drop_ge by (rewrite length_take; lia). split; [done|]. by destruct k'.
  - destruct (lookup_lt_is_Some_2 (ready ep) i) as [[r a] He]; [lia|].
    assert (rest i ep = (r, a) :: rest (S i) ep) as Hr.
    { unfold rest. apply drop_S. rewrite lookup_take_lt by lia. done. }
    assert (valid (datas ep) (rest (S i) ep)) as Hv' by (intros e Hin; apply Hv; rewrite Hr; by right).
    cbn [poll_loop fst snd]. rewrite He. cbn [mbind option_bind]. destruct (Z.eqb_spec a 0) as [->|Ha].
    + assert (waiting (datas ep) (rest i ep) = waiting (datas ep) (rest (S i) ep)) as Hw.
      { rewrite Hr. unfold waiting. cbn [omap list_omap fst snd]. by rewrite (no_null ep Hg). }
      rewrite Hw in Hk |- *. apply IH; [done|lia|done|done|done].
    + destruct (Hv (r, a)) as [?|[d Hd]]; [rewrite Hr; by left|done|]. cbn in Hd. rewrite Hd. cbn [mbind option_bind].
      assert (waiting (datas ep) (rest i ep) = (fd d, r) :: waiting (datas ep) (rest (S i) ep)) as Hw.
      { rewrite Hr. unfold waiting. cbn [omap list_omap fst snd]. rewrite Hd. done. }
      rewrite Hw in Hk |- *. destruct k' as [|k']; [cbn in Hk; lia|]. cbn [spec_loop fst snd].
      assert (regs ep !! fd d = Some d) as Hrd.
      { apply (regs_lookup ep _ _ Hg). exists a. split; [by apply (good_data Hg)|done]. }
      rewrite Hrd. set (log' := log ++ [_]).
      assert (good (set_i i ep)) as Hgi by (split; apply Hg).
      destruct (ops_ok (handlers log') (set_i i ep) Hgi Hv') as (Hg1 & I1 & C1 & L1 & M1 & V1 & E1).
      cbn in I1. rewrite I1 in V1, E1.
      change (foldl spec_op (regs ep, waiting (datas ep) (rest (S i) ep)) (handlers log'))
        with (foldl spec_op (regs (set_i i ep), waiting (datas (set_i i ep)) (rest (S (ep_i (set_i i ep))) (set_i i ep))) (handlers log')).
      rewrite <- E1. destruct (IH (S i) (foldl do_op (set_i i ep) (handlers log')) log' k') as (ep' & lg & ? & ? & L2 & M2 & ?); try done.
      * rewrite C1. cbn. lia.
      * rewrite C1, L1. cbn. lia.
      * pose proof (spec_ops_length (handlers log') (regs (set_i i ep), waiting (datas (set_i i ep)) (rest (S (ep_i (set_i i ep))) (set_i i ep)))) as Hl.
        rewrite <- E1 in Hl. etrans; [exact Hl|]. apply le_S_n, Hk.
      * exists ep', lg. split; [done|]. split; [done|]. split; [etrans; [exact L2|exact L1]|]. split; [etrans; [exact M2|exact M1]|done].
Qed.

(** What [epoll_wait] reports of a consistent loop. *)
Lemma wait_ok l ep :
  good ep -> (forall p, p ∈ l -> is_Some (kernel ep !! p.1)) ->
  valid (datas ep) (epoll_wait l ep) /\ waiting (datas ep) (epoll_wait l ep) = l.
Proof using.
  intros Hg Hl. unfold epoll_wait. split.
  - intros e (p & -> & Hp)%list_elem_of_fmap. right. cbn. destruct (Hl p Hp) as [[ev a] Hk]. rewrite Hk.
    apply (good_kernel Hg) in Hk. destruct (good_root Hg _ _ Hk) as (_ & d & Hd & _). by exists d.
  - induction l as [|p l IH]; [done|]. unfold waiting in *. cbn [map omap list_omap fst snd].
    destruct (Hl p) as [[ev a] Hk]; [by left|]. rewrite Hk. apply (good_kernel Hg) in Hk.
    destruct (good_root Hg _ _ Hk) as (_ & d & Hd & Hf). rewrite Hd. cbn [mbind option_bind]. rewrite IH by (intros q Hq; apply Hl; by right).
    rewrite Hf. by destruct p.
Qed.
End ops.

(** A loop as it is between polls: the array of events has its length. *)
Definition between (ep : event_poll) : Prop := good ep /\ length (ready ep) = maxevents ep.

Lemma alloc_between n : between (event_poll__alloc n).
Proof. split; [split; cbn; done|]. cbn. by rewrite length_replicate. Qed.

(** [event_poll__free] frees all the data, and the kernel forgets all the descriptors. *)
Lemma free_frees ep : good ep -> datas (event_poll__free ep) = ∅ /\ kernel (event_poll__free ep) = ∅.
Proof.
  intros Hg. unfold event_poll__free. destruct (Z.eqb_spec (nr ep) 0) as [Hn|Hn].
  - assert (root ep = ∅) as Hr by (apply map_size_empty_inv; rewrite (good_nr Hg) in Hn; lia).
    split; apply map_empty; intros a; apply eq_None_not_Some.
    + intros [d Hd%(good_data Hg)]. by rewrite Hr in Hd.
    + intros [[e b] Hk%(good_kernel Hg)]. by rewrite Hr in Hk.
  - set (f := fun ep p => EventPoll _ _ _ _ _ _ _ _).
    assert (forall l ep a d, datas (foldl f ep l) !! a = Some d -> datas ep !! a = Some d /\ a ∉ l.*2) as HD.
    { induction l as [|p l IH]; intros ep0 a d E; [split; [done|apply not_elem_of_nil]|].
      apply IH in E as [E Ha]. cbn in E. apply lookup_delete_Some in E as [Hne E]. split; [done|]. cbn. apply not_elem_of_cons. by split; [intros ->|]. }
    assert (forall l ep k e, kernel (foldl f ep l) !! k = Some e -> kernel ep !! k = Some e /\ k ∉ l.*1) as HK.
    { induction l as [|p l IH]; intros ep0 k e E; [split; [done|apply not_elem_of_nil]|].
      apply IH in E as [E Ha]. cbn in E. apply lookup_delete_Some in E as [Hne E]. split; [done|]. cbn. apply not_elem_of_cons. by split; [intros ->|]. }
    assert (forall k a, root ep !! k = Some a -> (k, a) ∈ map_to_list (root ep)) as Hin by (intros; by apply elem_of_map_to_list).
    split; apply map_empty; intros a; apply eq_None_not_Some.
    + intros [d [Hd Hni]%HD]. apply Hni, list_elem_of_fmap. exists (fd d, a). split; [done|]. by apply Hin, (good_data Hg).
    + intros [[e b] [Hk Hni]%HK]. apply Hni, list_elem_of_fmap. exists (a, b). split; [done|]. by eapply Hin, (good_kernel Hg).
Qed.

(** ** Properties *)

(** C18: One poll does what the loop without memory does.  Whatever descriptors are ready and
    whatever the handlers add to the loop and delete from it: no data that was freed is used
    - also when new data gets the address of old -, the handlers are called in the order of
    the events, each with what its descriptor is registered with at its turn, and no handler
    of a descriptor that was deleted before its turn is; at the end the descriptors in the
    loop are those the handlers left, and the poll tells -ENOENT when there is none. *)
Theorem poll_dispatches `{Memory} handlers l ep log :
  (forall D, D !! fresh_addr D = None /\ fresh_addr D <> 0) ->
  between ep -> (length l <= maxevents ep)%nat -> (forall p, p ∈ l -> is_Some (kernel ep !! p.1)) ->
  exists r ep' log', event_poll__poll handlers (inr l) (ep, log) = Some (r, (ep', log')) /\ between ep' /\
    spec_loop handlers (length l) (regs ep, l) log = (regs ep', log') /\
    r = if decide (regs ep' = ∅) then - ENOENT else Z.of_nat (length l).
Proof.
  intros Hfresh [Hg Hm] Hlen Hl. destruct (wait_ok l ep Hg Hl) as [Hv Hw].
  set (ep1 := EventPoll (maxevents ep) (ep_i ep) (length l) (epoll_wait l ep ++ drop (length l) (ready ep)) (nr ep)
    (root ep) (datas ep) (kernel ep)).
  assert (length (epoll_wait l ep) = length l) as Hll by apply length_map.
  assert (length (ready ep1) = length (ready ep)) as Hr1.
  { cbn. rewrite length_app, Hll, length_drop. lia. }
  assert (rest 0 ep1 = epoll_wait l ep) as Hrest.
  { unfold rest. cbn. by rewrite drop_0, take_app_le, take_ge by lia. }
  destruct (poll_loop_ok Hfresh handlers (length l) 0 ep1 log (length l)) as (ep2 & log2 & E & Hg2 & L2 & M2 & Hs).
  - split; apply Hg.
  - done.
  - rewrite Hr1, Hm. done.
  - by rewrite Hrest.
  - rewrite Hrest. change (datas ep1) with (datas ep). by rewrite Hw.
  - rewrite Hrest in Hs. change (datas ep1) with (datas ep) in Hs. rewrite Hw in Hs. unfold event_poll__poll. cbn [fst snd].
    fold ep1. rewrite E. cbn. eexists _, _, _. split; [done|]. split; [|split; [exact Hs|]].
    + split; [split; apply Hg2|]. cbn. rewrite L2, Hr1, M2. done.
    + change (regs _) with (regs ep2). pose proof (size_regs ep2 Hg2) as Hsz.
      destruct (Z.eqb_spec (nr ep2) 0) as [Hn|Hn]; case_decide as Hd; tauto.
Qed.

(** An allocator: one above the addresses in use. *)
#[local] Instance bump : Memory := fun D => 1 + map_fold (fun a _ m => Z.max a m) 0 D.

Lemma bump_ok D : D !! fresh_addr D = None /\ fresh_addr D <> 0.
Proof.
  unfold fresh_addr, bump.
  assert (forall D : gmap Z poll_data, 0 <= map_fold (fun a _ m => Z.max a m) 0 D /\
    forall a, is_Some (D !! a) -> a <= map_fold (fun a _ m => Z.max a m) 0 D) as Hall.
  { apply (map_fold_weak_ind (fun m (D : gmap Z poll_data) => 0 <= m /\ forall a, is_Some (D !! a) -> a <= m)).
    - split; [done|]. intros a [d Hd]. by rewrite lookup_empty in Hd.
    - intros a d D' m Ha [H0 Hm]. split; [lia|]. intros b. destruct (decide (b = a)) as [->|Hb]; [lia|].
      rewrite lookup_insert_ne by done. intros Hs%Hm. lia. }
  destruct (Hall D) as [H0 Hm]. split; [|lia]. destruct (D !! _) as [d|] eqn:E; [|done].
  specialize (Hm _ (ltac:(by exists d) : is_Some (D !! _))). lia.
Qed.

(** The first handler deletes the descriptor that is ready after it and adds it again. *)
Lemma poll_dispatches_witness :
  let ep := do_op (do_op (event_poll__alloc 4) (Add 5 1 50 500 true true)) (Add 6 1 60 600 true true) in
  let handlers := fun log => match log with [_] => [Del 6 true; Add 6 1 61 601 true true] | _ => [] end in
  between ep /\
  exists r ep' log', event_poll__poll handlers (inr [(5, 1); (6, 1)]) (ep, []) = Some (r, (ep', log')) /\ between ep' /\
    (regs ep', log') = spec_loop handlers 2 (regs ep, [(5, 1); (6, 1)]) [] /\ r = 2.
Proof.
  intros ep handlers.
  assert (between ep) as Hb.
  { split; [|reflexivity]. destruct (do_op_ok bump_ok (event_poll__alloc 4) (Add 5 1 50 500 true true)) as (Hg & _ & _ & _ & _ & Hv & _).
    - apply alloc_between.
    - intros e He. by apply elem_of_nil in He.
    - destruct (do_op_ok bump_ok _ (Add 6 1 60 600 true true) Hg Hv) as (Hg' & _). exact Hg'. }
  split; [exact Hb|].
  destruct (poll_dispatches handlers [(5, 1); (6, 1)] ep [] bump_ok Hb) as (r & ep' & log' & E & Hb' & Hs & Hr).
  - vm_compute. lia.
  - intros p Hp. repeat (apply elem_of_cons in Hp as [->|Hp]; [vm_compute; by eexists|]). by apply elem_of_nil in Hp.
  - exists r, ep', log'. split; [exact E|]. split; [exact Hb'|]. split; [by rewrite <- Hs|].
    vm_compute in E. injection E as <- _ _. reflexivity.
Defined.
