(* ===== verification/Device.v ===== *)
(** * Devices: references, lists and forwarding (monitor.c, monitor.h)

    A device ([struct prof_dev]) is opened by a profiler, is enabled, reads records and is
    closed.  It is freed when the last reference to it is put.  Devices are linked three
    ways: in the list of all devices, as a child to the device that opened it, and as a
    source to the device its samples are forwarded to.  This file has the data, and the
    operations that call no other: the references, the lists and the loops over them.

    A pointer to a device is a number; a device that is freed is not in the memory, and
    every access to it ends the run ([UseAfterFree]). *)

From S2P Require Import Prelude.

(** ** Data *)

(** The types of records.  PERF_RECORD_DEV, of the samples that are forwarded, is a
    constructor of [event]. *)
Inductive record_type :=
  | RECORD_LOST | RECORD_COMM | RECORD_EXIT | RECORD_THROTTLE | RECORD_UNTHROTTLE | RECORD_FORK
  | RECORD_SAMPLE | RECORD_SWITCH | RECORD_SWITCH_CPU_WIDE | RECORD_ORDER_TIME
  | RECORD_OTHER (type : Z).

#[export] Instance record_type_eq_dec : EqDecision record_type.
Proof. solve_decision. Defined.

(** A record of a ring buffer: its header, the fields [dev->pos] locates, the rest. *)
Record record := Rec {
  type : record_type; pid : Z; tid : Z; time : Z; ident : Z; cpu : Z; payload : Z
}.

(** [struct perf_record_dev]: a sample on its way to the target of its device. *)
Record record_dev := RecordDev {
  dev_pid : Z; dev_tid : Z; dev_time : Z; dev_id : Z; dev_cpu : Z;
  dev_instance : Z; dev_event : record
}.

(** What [union perf_event *] points to: a record, or the [forward.event_dev] of a device. *)
Inductive event := Plain (r : record) | Forwarded (source : Z).

Inductive prof_dev_state := STATE_EXIT | STATE_OFF | STATE_INACTIVE | STATE_ACTIVE.

#[export] Instance prof_dev_state_eq_dec : EqDecision prof_dev_state.
Proof. solve_decision. Defined.

Definition state_val (s : prof_dev_state) : Z :=
  match s with STATE_EXIT => -2 | STATE_OFF => -1 | STATE_INACTIVE => 0 | STATE_ACTIVE => 1 end.

(** What the options and the profiler set, and what is opened for the device. *)
Record config := Config {
  normal : bool;            (* type is PROF_DEV_TYPE_NORMAL *)
  exit_n : Z;
  interval : Z;
  pages : Z;
  overwrite : bool;
  sample_time : bool;       (* pos.sample_type has PERF_SAMPLE_TIME *)
  sample_id : bool;         (* pos.id_pos >= 0 *)
  has_ftrace_filter : bool;
  has_sample : bool;        (* the profiler has a sample callback *)
  cpus : list Z;            (* the map of CPUs; [-1] is the empty one *)
  threads : list Z;
  nr_fds : nat              (* the descriptors to poll *)
}.

Record prof_dev := ProfDev {
  conf : config;
  dev_users : Z;
  refcount : Z;
  state : prof_dev_state;
  inflush : bool;
  inclose : bool;
  nr_pollfd : Z;
  clone : bool;
  print_title : bool;
  sampled_events : Z;
  last_evtime : Z;
  enabled_after : Z;
  parent : option Z;
  child_list : list Z;
  target : option Z;
  source_list : list Z;
  event_dev : option record_dev;
  ins_reset : bool;
  rings : list (list record)
}.

(** What is done to a profiler, in the order it is done. *)
Inductive entry :=
  | Sampled (d : Z) (r : record) (ins : Z)
  | SampledDev (d : Z) (r : record_dev) (ins : Z)
  | Handled (d : Z) (r : record) (ins : Z)
  | Unknown (d : Z) (r : record)
  | Deinit (d : Z).

Record memory := Memory {
  devs : gmap Z prof_dev;
  prof_dev_list : list Z;
  running : Z;
  polled : gset (Z * nat);  (* descriptors in the event loop, by device *)
  timers : gset Z;          (* interval timers that are started *)
  log : list entry
}.

(** ** Runs *)

Inductive outcome (A : Type) :=
  | Done (a : A) (m : memory)
  | UseAfterFree (d : Z)
  | OutOfFuel.
Arguments Done {A}.
Arguments UseAfterFree {A}.
Arguments OutOfFuel {A}.

Definition M (A : Type) : Type := memory -> outcome A.

#[export] Instance M_ret : MRet M := fun A a m => Done a m.
#[export] Instance M_bind : MBind M := fun A B k c m =>
  match c m with
  | Done a m => k a m
  | UseAfterFree d => UseAfterFree d
  | OutOfFuel => OutOfFuel
  end.
Definition get : M memory := fun m => Done m m.
Definition modify (f : memory -> memory) : M unit := fun m => Done tt (f m).
Definition fault {A} (d : Z) : M A := fun _ => UseAfterFree d.
Definition no_fuel {A} : M A := fun _ => OutOfFuel.

(** The end of a function. *)
Notation ret := (mret (M := M)).

Fixpoint each {A} (l : list A) (body : A -> M unit) : M unit :=
  match l with
  | [] => ret tt
  | x :: l => body x;; each l body
  end.

(** ** Access *)

Definition set_devs (f : gmap Z prof_dev -> gmap Z prof_dev) (m : memory) : memory :=
  Memory (f (devs m)) (prof_dev_list m) (running m) (polled m) (timers m) (log m).
Definition set_list (f : list Z -> list Z) (m : memory) : memory :=
  Memory (devs m) (f (prof_dev_list m)) (running m) (polled m) (timers m) (log m).
Definition set_running (f : Z -> Z) (m : memory) : memory :=
  Memory (devs m) (prof_dev_list m) (f (running m)) (polled m) (timers m) (log m).
Definition set_polled (f : gset (Z * nat) -> gset (Z * nat)) (m : memory) : memory :=
  Memory (devs m) (prof_dev_list m) (running m) (f (polled m)) (timers m) (log m).
Definition set_timers (f : gset Z -> gset Z) (m : memory) : memory :=
  Memory (devs m) (prof_dev_list m) (running m) (polled m) (f (timers m)) (log m).
Definition tell (e : entry) : M unit :=
  modify (fun m => Memory (devs m) (prof_dev_list m) (running m) (polled m) (timers m) (log m ++ [e])).

Definition dev (d : Z) : M prof_dev := fun m =>
  match devs m !! d with Some x => Done x m | None => UseAfterFree d end.

Definition set_dev (d : Z) (f : prof_dev -> prof_dev) : M unit :=
  x ← dev d; modify (set_devs <[d := f x]>).

Definition set_refcount (f : Z -> Z) (x : prof_dev) : prof_dev :=
  ProfDev (conf x) (dev_users x) (f (refcount x)) (state x) (inflush x) (inclose x) (nr_pollfd x)
    (clone x) (print_title x) (sampled_events x) (last_evtime x) (enabled_after x) (parent x)
    (child_list x) (target x) (source_list x) (event_dev x) (ins_reset x) (rings x).
Definition set_dev_users (f : Z -> Z) (x : prof_dev) : prof_dev :=
  ProfDev (conf x) (f (dev_users x)) (refcount x) (state x) (inflush x) (inclose x) (nr_pollfd x)
    (clone x) (print_title x) (sampled_events x) (last_evtime x) (enabled_after x) (parent x)
    (child_list x) (target x) (source_list x) (event_dev x) (ins_reset x) (rings x).
Definition set_state (s : prof_dev_state) (x : prof_dev) : prof_dev :=
  ProfDev (conf x) (dev_users x) (refcount x) s (inflush x) (inclose x) (nr_pollfd x)
    (clone x) (print_title x) (sampled_events x) (last_evtime x) (enabled_after x) (parent x)
    (child_list x) (target x) (source_list x) (event_dev x) (ins_reset x) (rings x).
Definition set_inflush (b : bool) (x : prof_dev) : prof_dev :=
  ProfDev (conf x) (dev_users x) (refcount x) (state x) b (inclose x) (nr_pollfd x)
    (clone x) (print_title x) (sampled_events x) (last_evtime x) (enabled_after x) (parent x)
    (child_list x) (target x) (source_list x) (event_dev x) (ins_reset x) (rings x).
Definition set_inclose (b : bool) (x : prof_dev) : prof_dev :=
  ProfDev (conf x) (dev_users x) (refcount x) (state x) (inflush x) b (nr_pollfd x)
    (clone x) (print_title x) (sampled_events x) (last_evtime x) (enabled_after x) (parent x)
    (child_list x) (target x) (source_list x) (event_dev x) (ins_reset x) (rings x).
Definition set_nr_pollfd (f : Z -> Z) (x : prof_dev) : prof_dev :=
  ProfDev (conf x) (dev_users x) (refcount x) (state x) (inflush x) (inclose x) (f (nr_pollfd x))
    (clone x) (print_title x) (sampled_events x) (last_evtime x) (enabled_after x) (parent x)
    (child_list x) (target x) (source_list x) (event_dev x) (ins_reset x) (rings x).
Definition set_title (b : bool) (x : prof_dev) : prof_dev :=
  ProfDev (conf x) (dev_users x) (refcount x) (state x) (inflush x) (inclose x) (nr_pollfd x)
    (clone x) b (sampled_events x) (last_evtime x) (enabled_after x) (parent x)
    (child_list x) (target x) (source_list x) (event_dev x) (ins_reset x) (rings x).
Definition set_sampled (f : Z -> Z) (x : prof_dev) : prof_dev :=
  ProfDev (conf x) (dev_users x) (refcount x) (state x) (inflush x) (inclose x) (nr_pollfd x)
    (clone x) (print_title x) (f (sampled_events x)) (last_evtime x) (enabled_after x) (parent x)
    (child_list x) (target x) (source_list x) (event_dev x) (ins_reset x) (rings x).
Definition set_last_evtime (t : Z) (x : prof_dev) : prof_dev :=
  ProfDev (conf x) (dev_users x) (refcount x) (state x) (inflush x) (inclose x) (nr_pollfd x)
    (clone x) (print_title x) (sampled_events x) t (enabled_after x) (parent x)
    (child_list x) (target x) (source_list x) (event_dev x) (ins_reset x) (rings x).
Definition set_enabled_after (t : Z) (x : prof_dev) : prof_dev :=
  ProfDev (conf x) (dev_users x) (refcount x) (state x) (inflush x) (inclose x) (nr_pollfd x)
    (clone x) (print_title x) (sampled_events x) (last_evtime x) t (parent x)
    (child_list x) (target x) (source_list x) (event_dev x) (ins_reset x) (rings x).
Definition set_parent (p : option Z) (c : bool) (x : prof_dev) : prof_dev :=
  ProfDev (conf x) (dev_users x) (refcount x) (state x) (inflush x) (inclose x) (nr_pollfd x)
    c (print_title x) (sampled_events x) (last_evtime x) (enabled_after x) p
    (child_list x) (target x) (source_list x) (event_dev x) (ins_reset x) (rings x).
Definition set_children (f : list Z -> list Z) (x : prof_dev) : prof_dev :=
  ProfDev (conf x) (dev_users x) (refcount x) (state x) (inflush x) (inclose x) (nr_pollfd x)
    (clone x) (print_title x) (sampled_events x) (last_evtime x) (enabled_after x) (parent x)
    (f (child_list x)) (target x) (source_list x) (event_dev x) (ins_reset x) (rings x).
Definition set_target (t : option Z) (r : bool) (x : prof_dev) : prof_dev :=
  ProfDev (conf x) (dev_users x) (refcount x) (state x) (inflush x) (inclose x) (nr_pollfd x)
    (clone x) (print_title x) (sampled_events x) (last_evtime x) (enabled_after x) (parent x)
    (child_list x) t (source_list x) (event_dev x) r (rings x).
Definition set_sources (f : list Z -> list Z) (x : prof_dev) : prof_dev :=
  ProfDev (conf x) (dev_users x) (refcount x) (state x) (inflush x) (inclose x) (nr_pollfd x)
    (clone x) (print_title x) (sampled_events x) (last_evtime x) (enabled_after x) (parent x)
    (child_list x) (target x) (f (source_list x)) (event_dev x) (ins_reset x) (rings x).
Definition set_event_dev (e : option record_dev) (x : prof_dev) : prof_dev :=
  ProfDev (conf x) (dev_users x) (refcount x) (state x) (inflush x) (inclose x) (nr_pollfd x)
    (clone x) (print_title x) (sampled_events x) (last_evtime x) (enabled_after x) (parent x)
    (child_list x) (target x) (source_list x) e (ins_reset x) (rings x).
Definition set_rings (f : list (list record) -> list (list record)) (x : prof_dev) : prof_dev :=
  ProfDev (conf x) (dev_users x) (refcount x) (state x) (inflush x) (inclose x) (nr_pollfd x)
    (clone x) (print_title x) (sampled_events x) (last_evtime x) (enabled_after x) (parent x)
    (child_list x) (target x) (source_list x) (event_dev x) (ins_reset x) (f (rings x)).

(** ** Instances of a device *)

Definition map_empty (l : list Z) : bool :=
  match l with [] => true | c :: _ => c =? -1 end.

Definition prof_dev_nr_ins (x : prof_dev) : Z :=
  if map_empty (cpus (conf x)) then Z.of_nat (length (threads (conf x)))
  else Z.of_nat (length (cpus (conf x))).

Definition prof_dev_ins_oncpu (x : prof_dev) : bool := negb (map_empty (cpus (conf x))).

Definition prof_dev_is_final (x : prof_dev) : bool := bool_decide (target x = None).

(** ** Lists of devices *)

Definition list_del (d : Z) (l : list Z) : list Z := filter (fun c => c <> d) l.

(** Who follows [d], which is in the list; [None] for the head. *)
Fixpoint successor (d : Z) (l : list Z) : option Z :=
  match l with
  | [] => None
  | c :: l => if decide (c = d) then head l else successor d l
  end.

Inductive links := AllDevs | ChildrenOf (p : Z) | SourcesOf (t : Z).

Definition members (k : links) : M (list Z) :=
  match k with
  | AllDevs => m ← get; ret (prof_dev_list m)
  | ChildrenOf p => x ← dev p; ret (child_list x)
  | SourcesOf t => x ← dev t; ret (source_list x)
  end.

(** [list_next_entry]: a device that [list_del_init] took off its list is its own
    successor; the end of another list than [k] is taken for a device. *)
Definition list_next_entry (k : links) (d : Z) : M (option Z) :=
  x ← dev d;
  match k with
  | AllDevs =>
      m ← get;
      ret (if decide (d ∈ prof_dev_list m) then successor d (prof_dev_list m) else Some d)
  | ChildrenOf p =>
      match parent x with
      | None => ret (Some d)
      | Some p' =>
          l ← members (ChildrenOf p');
          match successor d l with
          | Some n => ret (Some n)
          | None => if decide (p' = p) then ret None else fault p'
          end
      end
  | SourcesOf t =>
      match target x with
      | None => ret (Some d)
      | Some t' =>
          l ← members (SourcesOf t');
          match successor d l with
          | Some n => ret (Some n)
          | None => if decide (t' = t) then ret None else fault t'
          end
      end
  end.

(** ** References *)

Definition prof_dev_get (d : Z) : M bool :=
  x ← dev d;
  if 0 <? refcount x then set_dev d (set_refcount (fun n => n + 1));; ret true else ret false.

(** A child of a device [x] that is freed goes to the parent of [x]. *)
Definition inherit (x : prof_dev) (c : Z) : M unit :=
  match parent x with
  | Some p =>
      set_dev c (set_parent (Some p) (clone x));;
      set_dev p (set_children (fun l => l ++ [c]))
  | None => set_dev c (set_parent None false)
  end.

Definition prof_dev_free (d : Z) : M unit :=
  x ← dev d;
  modify (set_timers (fun s => s ∖ {[d]}));;
  tell (Deinit d);;
  each (child_list x) (inherit x);;
  match parent x with
  | Some p => set_dev p (set_children (list_del d))
  | None => ret tt
  end;;
  match target x with
  | Some t => set_dev t (set_sources (list_del d))
  | None => ret tt
  end;;
  modify (set_devs (delete d)).

Definition prof_dev_put (d : Z) : M bool :=
  set_dev d (set_refcount (fun n => n - 1));;
  x ← dev d;
  if refcount x =? 0 then prof_dev_free d;; ret true else ret false.

Definition prof_dev_use (d : Z) : M bool :=
  x ← dev d;
  ok ← (if dev_users x =? 0 then prof_dev_get d else ret true);
  if (ok : bool) then set_dev d (set_dev_users (fun n => n + 1));; ret true else ret false.

(** [for_each_dev_get]: the device of the current turn has a reference. *)
Fixpoint for_each_from (n : nat) (k : links) (tmp : option Z) (body : Z -> M unit) : M unit :=
  match tmp with
  | None => ret tt
  | Some d =>
      match n with
      | O => no_fuel
      | S n =>
          ok ← prof_dev_get d;
          if (ok : bool) then
            body d;;
            tmp ← list_next_entry k d;
            prof_dev_put d;;
            for_each_from n k tmp body
          else ret tt
      end
  end.

Definition for_each_dev_get (n : nat) (k : links) (body : Z -> M unit) : M unit :=
  l ← members k;
  for_each_from n k (head l) body.

(** [prof_dev_forward]; whether the samples of [d] have what is forwarded, whether their
    times are where those of an ordering target are, and whether there is memory. *)
Definition prof_dev_forward (d t : Z) (init_ok time_pos_ok alloc_ok : bool) : M Z :=
  if init_ok && time_pos_ok && alloc_ok then
    x ← dev d;
    y ← dev t;
    let reset := negb (Bool.eqb (prof_dev_ins_oncpu x) (prof_dev_ins_oncpu y)) ||
                 negb (prof_dev_nr_ins x =? prof_dev_nr_ins y) in
    set_dev d (set_target (Some t) (ins_reset x || reset));;
    set_dev t (set_sources (fun l => l ++ [d]));;
    ret 0
  else ret (-1).
