(* ===== verification/DeviceRun.v ===== *)
(** * Devices: records, enabling, disabling, flushing and closing (monitor.c)

    The functions of this file call each other: a record that is processed can close its
    device, closing disables it, disabling flushes it, and flushing processes records.
    Each body takes the others as [call]; [run] ties the knot with fuel.  The callbacks of
    the profilers are the class [Profilers]: what a callback does to devices is a list of
    actions, which may depend on all that happened before. *)

From S2P Require Import Prelude Device.

Inductive hook :=
  | OnRecord (t : record_type)
  | OnEnabled
  | OnFlush (final : bool)
  | OnHangup
  | OnRead
  | OnInterval
  | OnPerfeval.

(** A callback may close its own device; that of a forwarded sample may hand it back to
    the device it comes from ([perf_event_process_record] on a PERF_RECORD_DEV). *)
Inductive act := Close | HandBack.

Class Profilers := {
  acts : hook -> Z -> option event -> memory -> list act;
  ftrace_filter : Z -> event -> Z -> memory -> Z;
  (** Whether a descriptor cannot be polled, how long enabling takes, and what the kernel
      writes to the ring buffers meanwhile. *)
  poll_fails : Z -> nat -> memory -> bool;
  enable_cost : Z -> memory -> Z;
  kernel_writes : Z -> memory -> nat -> list record
}.

Inductive function :=
  | CloseDev (d : Z)
  | DisableDev (d : Z)
  | FlushDev (d : Z) (final : bool)
  | IntervalDev (d : Z)
  | ProcessRecord (d : Z) (e : event) (ins : Z).

(** The contents of [forward.event_dev] of a device. *)
Definition event_dev_of (s : Z) : M record_dev :=
  x ← dev s;
  match event_dev x with Some r => ret r | None => fault s end.

(** What is at [pos.time_pos] of the device: of a forwarded sample that is the time of the
    [perf_record_dev], where the target has its times at the same place. *)
Definition event_time (e : event) : M Z :=
  match e with
  | Plain r => ret (time r)
  | Forwarded s => r ← event_dev_of s; ret (dev_time r)
  end.

Definition perf_event_forward (d : Z) (r : record) (ins : Z) : M (event * Z) :=
  x ← dev d;
  set_dev d (set_event_dev (Some (RecordDev (pid r) (tid r) (time r)
    (if sample_id (conf x) then ident r else 0) (cpu r) ins r)));;
  ret (Forwarded d, if ins_reset x then 0 else ins).

Section bodies.
Context `{Profilers}.
Variable call : function -> M unit.
Variable n : nat.

(** ** Callbacks *)

Definition run_act (d : Z) (e : option event) (ins : Z) (a : act) : M unit :=
  match a, e with
  | Close, _ => call (CloseDev d)
  | HandBack, Some (Forwarded s) => call (ProcessRecord d (Forwarded s) ins)
  | HandBack, _ => ret tt
  end.

Definition callback (h : hook) (d : Z) (e : option event) (ins : Z) : M unit :=
  m ← get;
  each (acts h d e m) (run_act d e ins).

(** ** Processing a record *)

Definition skip_sample (d : Z) : M unit :=
  set_dev d (set_sampled (fun k => if 0 <? k then k - 1 else k)).

Definition tell_sample (d : Z) (e : event) (ins : Z) : M unit :=
  match e with
  | Plain r => tell (Sampled d r ins)
  | Forwarded s => r ← event_dev_of s; tell (SampledDev d r ins)
  end.

(** [!env->exit_n || ++dev->sampled_events <= env->exit_n]. *)
Definition count_event (d : Z) : M bool :=
  x ← dev d;
  if exit_n (conf x) =? 0 then ret true
  else
    set_dev d (set_sampled (fun k => k + 1));;
    ret (sampled_events x + 1 <=? exit_n (conf x)).

(** [env->exit_n && dev->sampled_events >= env->exit_n]. *)
Definition close_at_limit (d : Z) : M unit :=
  x ← dev d;
  if negb (exit_n (conf x) =? 0) && (exit_n (conf x) <=? sampled_events x)
  then call (CloseDev d) else ret tt.

(** A sample passed the limit; whether it is dropped after all ([__break]). *)
Definition handle_sample (d : Z) (e : event) (ins : Z) : M bool :=
  x ← dev d;
  m ← get;
  if negb (has_sample (conf x)) then ret false
  else if has_ftrace_filter (conf x) && (ftrace_filter d e ins m <=? 0) then skip_sample d;; ret true
  else
    late ← (if sample_time (conf x) then
              t ← event_time e;
              set_dev d (set_last_evtime t);;
              ret (t <? enabled_after x)
            else ret false);
    if (late : bool) then skip_sample d;; ret true
    else
      tell_sample d e ins;;
      callback (OnRecord RECORD_SAMPLE) d (Some e) ins;;
      ret false.

Definition sample_record (d : Z) (e : event) (ins : Z) : M unit :=
  ok ← count_event d;
  dropped ← (if (ok : bool) then handle_sample d e ins else ret false);
  if (dropped : bool) then ret tt else close_at_limit d.

(** The switch on the type of the record, at the device that handles it. *)
Definition dispatch (d : Z) (e : event) (ins : Z) : M Z :=
  match e with
  | Forwarded _ => sample_record d e ins;; ret 0
  | Plain r =>
      match type r with
      | RECORD_SAMPLE => sample_record d e ins;; ret 0
      | RECORD_ORDER_TIME => ret 0
      | RECORD_OTHER _ =>
          ok ← count_event d;
          (if (ok : bool) then tell (Unknown d r) else ret tt);;
          close_at_limit d;;
          ret (-1)
      | t => tell (Handled d r ins);; callback (OnRecord t) d (Some e) ins;; ret 0
      end
  end.

Definition perf_event_process_record (d : Z) (e : event) (ins : Z) : M Z :=
  x ← dev d;
  match target x with
  | Some t =>
      match e with
      | Plain r =>
          if decide (type r = RECORD_SAMPLE) then
            '(e, ins) ← perf_event_forward d r ins;
            if time r <? enabled_after x then ret 0 else dispatch t e ins
          else dispatch d e ins
      | Forwarded _ => dispatch t e ins
      end
  | None =>
      match e with
      | Forwarded s =>
          r ← event_dev_of s;
          dispatch s (Plain (dev_event r)) (dev_instance r)
      | Plain _ => dispatch d e ins
      end
  end.

(** ** Reading the ring buffers *)

Fixpoint handle_mmap (k : nat) (d : Z) (i : nat) : M unit :=
  x ← dev d;
  match rings x !! i with
  | None => fault d
  | Some [] => ret tt
  | Some (r :: l) =>
      match k with
      | O => no_fuel
      | S k =>
          set_dev d (set_rings <[i := l]>);;
          call (ProcessRecord d (Plain r) (Z.of_nat i));;
          handle_mmap k d i
      end
  end.

Definition perf_event_handle_mmap (d : Z) (i : nat) : M unit := handle_mmap n d i.

Definition handle_mmaps (d : Z) : M unit :=
  x ← dev d;
  if pages (conf x) =? 0 then ret tt
  else each (seq 0 (length (rings x))) (perf_event_handle_mmap d).

(** ** Flushing, disabling and closing *)

Definition prof_dev_flush (d : Z) (final : bool) : M unit :=
  x ← dev d;
  if inflush x then ret tt
  else
    prof_dev_get d;;
    set_dev d (set_inflush true);;
    handle_mmaps d;;
    (if final then ret tt
     else for_each_dev_get n (SourcesOf d) (fun s => call (FlushDev s final)));;
    callback (OnFlush final) d None 0;;
    set_dev d (set_inflush false);;
    prof_dev_put d;;
    ret tt.

(** A child that is neither a clone nor forwards to its parent. *)
Definition own_child (d c : Z) : M bool :=
  x ← dev c;
  ret (negb (clone x) && bool_decide (target x <> Some d)).

Definition prof_dev_disable (d : Z) : M unit :=
  x ← dev d;
  if state_val (state x) <? state_val STATE_ACTIVE then ret tt
  else
    prof_dev_get d;;
    set_dev d (set_state STATE_INACTIVE);;
    modify (set_running (fun r => if normal (conf x) && (0 <? r) then r - 1 else r));;
    for_each_dev_get n (SourcesOf d) (fun s => call (DisableDev s));;
    for_each_dev_get n (ChildrenOf d) (fun c =>
      own ← own_child d c;
      if (own : bool) then call (DisableDev c) else ret tt);;
    modify (set_timers (fun s => if interval (conf x) =? 0 then s else s ∖ {[d]}));;
    (if pages (conf x) =? 0 then ret tt
     else modify (set_polled (filter (fun p => p.1 <> d)));; call (FlushDev d true));;
    prof_dev_put d;;
    ret tt.

Definition prof_dev_close (d : Z) : M unit :=
  x ← dev d;
  if inclose x then ret tt
  else
    set_dev d (set_inclose true);;
    call (DisableDev d);;
    set_dev d (set_state STATE_EXIT);;
    modify (set_list (list_del d));;
    for_each_dev_get n (SourcesOf d) (fun s => call (CloseDev s));;
    for_each_dev_get n (ChildrenOf d) (fun c =>
      own ← own_child d c;
      if (own : bool) then call (CloseDev c) else ret tt);;
    prof_dev_put d;;
    ret tt.

(** [prof->read] is called for counters; then the profiler's interval and the limit of
    samples ([perfeval_evaluate]). *)
Definition interval_handle (d : Z) : M unit :=
  prof_dev_get d;;
  handle_mmaps d;;
  for_each_dev_get n (SourcesOf d) (fun s => call (IntervalDev s));;
  callback OnRead d None 0;;
  callback OnInterval d None 0;;
  callback OnPerfeval d None 0;;
  prof_dev_put d;;
  ret tt.

Definition body (f : function) : M unit :=
  match f with
  | CloseDev d => prof_dev_close d
  | DisableDev d => prof_dev_disable d
  | FlushDev d final => prof_dev_flush d final
  | IntervalDev d => interval_handle d
  | ProcessRecord d e ins => perf_event_process_record d e ins;; ret tt
  end.
End bodies.

Fixpoint run `{Profilers} (n : nat) (f : function) : M unit :=
  match n with
  | O => no_fuel
  | S n => body (run n) n f
  end.

(** ** The event loop *)

Section handlers.
Context `{Profilers}.
Variable n : nat.

(** [perf_event_handle]: descriptor [i] of [d] is ready. *)
Definition perf_event_handle (d : Z) (i : nat) (hup : bool) : M unit :=
  prof_dev_get d;;
  perf_event_handle_mmap (run n) n d i;;
  (if hup then
     modify (set_polled (fun s => s ∖ {[(d, i)]}));;
     set_dev d (set_nr_pollfd (fun k => k - 1));;
     x ← dev d;
     if nr_pollfd x =? 0 then
       callback (run n) OnHangup d None 0;;
       run n (CloseDev d)
     else ret tt
   else ret tt);;
  prof_dev_put d;;
  ret tt.

Definition prof_dev_unuse (d : Z) : M bool :=
  x ← dev d;
  if 0 <? dev_users x then
    set_dev d (set_dev_users (fun k => k - 1));;
    (if dev_users x - 1 =? 0 then
       freed ← prof_dev_put d;
       (if (freed : bool) then ret tt else run n (CloseDev d));;
       ret true
     else ret false)
  else ret false.

(** [goto restart] at each turn. *)
Fixpoint close_list (k : nat) : M unit :=
  m ← get;
  match prof_dev_list m with
  | [] => ret tt
  | d :: _ =>
      match k with
      | O => no_fuel
      | S k => run n (CloseDev d);; close_list k
      end
  end.

Definition prof_dev_list_close : M unit := close_list n.

(** A line on the standard input. *)
Definition print_marker_and_interval : M unit :=
  for_each_dev_get n AllDevs (fun d =>
    x ← dev d;
    if prof_dev_is_final x then run n (IntervalDev d) else ret tt).
End handlers.
