(* ===== verification/DeviceOpen.v ===== *)
(** * Devices: opening, enabling and cloning (monitor.c)

    A device is opened with its children: the [init] of its profiler opens them, and
    forwards them to it or not.  What the system says - whether a step of the opening
    fails, the address of the new device - is in the description of what is opened
    ([spec]).  That a thread that has exited makes an opening start over is not modelled. *)

From S2P Require Import Prelude Device DeviceRun.

(** ** Enabling *)

Section enable.
Context `{Profilers}.

(** [perf_evlist_poll__foreach_fd] with [__addfn]. *)
Fixpoint add_fds (l : list nat) (d : Z) : M Z :=
  match l with
  | [] => ret 0
  | i :: l =>
      set_dev d (set_nr_pollfd (fun k => k + 1));;
      m ← get;
      if poll_fails d i m then ret (-1)
      else modify (set_polled (fun s => {[(d, i)]} ∪ s));; add_fds l d
  end.

(** [perf_evlist__enable]: the kernel starts to write. *)
Definition perf_evlist__enable (d : Z) : M unit :=
  m ← get;
  set_dev d (set_rings (imap (fun i l => l ++ kernel_writes d m i))).

(** The first record of the first ring buffer that has one. *)
Fixpoint pop_first (rs : list (list record)) : option (record * list (list record)) :=
  match rs with
  | [] => None
  | (r :: l) :: rs => Some (r, l :: rs)
  | [] :: rs => '(r, rs) ← pop_first rs; Some (r, [] :: rs)
  end.

(** Without conversion of clocks and stream events. *)
Definition prof_dev_atomic_enable (d cost : Z) : M Z :=
  x ← dev d;
  if prof_dev_nr_ins x <=? 1 then ret 0
  else if overwrite (conf x) || negb (sample_time (conf x)) then ret (-1)
  else
    match pop_first (rings x) with
    | None => ret 0
    | Some (r, rs) =>
        set_dev d (set_rings (fun _ => rs));;
        set_dev d (set_enabled_after (u64 (cost + time r)));;
        ret 0
    end.

(** [perf_timespec_init], which relates the clocks for the printing, is left out, and so
    is the start of the workload. *)
Definition enable_body (enable : Z -> M Z) (n : nat) (d : Z) : M Z :=
  x ← dev d;
  if bool_decide (state x = STATE_ACTIVE) || bool_decide (state x = STATE_EXIT) then ret 0
  else
    err ← add_fds (seq 0 (nr_fds (conf x))) d;
    if negb (err =? 0) then ret (-1)
    else
      prof_dev_get d;;
      set_dev d (set_state STATE_ACTIVE);;
      modify (set_running (fun r => if normal (conf x) && (0 <=? r) then r + 1 else r));;
      for_each_dev_get n (ChildrenOf d) (fun c => enable c;; ret tt);;
      m ← get;
      perf_evlist__enable d;;
      prof_dev_atomic_enable d (enable_cost d m);;
      modify (set_timers (fun s => if interval (conf x) =? 0 then s else {[d]} ∪ s));;
      callback (run n) OnEnabled d None 0;;
      prof_dev_put d;;
      ret 0.

Fixpoint prof_dev_enable (n : nat) (d : Z) : M Z :=
  match n with
  | O => no_fuel
  | S n => enable_body (prof_dev_enable n) n d
  end.
End enable.

(** ** Opening *)

(** Where an opening fails: before [prof->init], in it after it opened the children, or later. *)
Inductive failure := NoFailure | FailsEarly | FailsInit | FailsLater.

(** The address, the configuration, the number of ring buffers, and the children, with
    whether they are forwarded. *)
Inductive spec : Type := Spec (at_ : Z) (c : config) (nr_mmaps : nat) (children : specs) (f : failure)
with specs : Type := NoChildren | Child (s : spec) (forwarded : bool) (l : specs).

Scheme spec_mind := Induction for spec Sort Prop
with specs_mind := Induction for specs Sort Prop.
Combined Scheme spec_specs_ind from spec_mind, specs_mind.

Definition new_dev (c : config) (s : prof_dev_state) (p : option Z) (cl : bool) (rs : list (list record)) : prof_dev :=
  ProfDev c 0 1 s false false 0 cl true 0 0 0 p [] None [] None false rs.

Section opening.
Context `{Profilers}.
Variable n : nat.

(** The allocation and the links of a new device. *)
Definition alloc (d : Z) (c : config) (k : nat) (p : option Z) (cl : bool) : M unit :=
  s ← match p with
      | Some p =>
          y ← dev p;
          ret (if negb cl && (state_val (state y) <=? state_val STATE_INACTIVE) then STATE_OFF else STATE_INACTIVE)
      | None => ret STATE_INACTIVE
      end;
  modify (set_devs <[d := new_dev c s p (match p with Some _ => cl | None => false end) (replicate k [])]>);;
  match p with Some p => set_dev p (set_children (fun l => l ++ [d])) | None => ret tt end.

(** [out_free]. *)
Definition discard (d : Z) : M (option Z) :=
  x ← dev d;
  match parent x with Some p => set_dev p (set_children (list_del d)) | None => ret tt end;;
  modify (set_devs (delete d));;
  ret None.

Definition list_add (d : Z) : M unit :=
  x ← dev d;
  if normal (conf x) then
    modify (set_list (fun l => if bool_decide (child_list x = []) then l ++ [d] else d :: l))
  else ret tt.

Definition close_children (d : Z) : M unit :=
  for_each_dev_get n (ChildrenOf d) (fun c => run n (CloseDev c)).

(** The end of [prof_dev_open_internal], from the list of devices on.  [dev->clone] is what
    the device was opened with: its parent is held. *)
Definition finish_open (d : Z) (is_clone : bool) : M (option Z) :=
  list_add d;;
  x ← dev d;
  err ← (if bool_decide (state x = STATE_INACTIVE) then prof_dev_enable n d else ret 0 : M Z);
  if err <? 0 then
    modify (set_list (list_del d));;
    (if pages (conf x) =? 0 then ret tt else modify (set_polled (filter (fun p => p.1 <> d))));;
    close_children d;;
    tell (Deinit d);;
    discard d
  else if is_clone then ret (Some d)
  else
    freed ← prof_dev_put d;
    ret (if (freed : bool) then None else Some d).

Fixpoint prof_dev_open_internal (s : spec) (p : option Z) (is_clone : bool) : M (option Z) :=
  match s with
  | Spec d c k children f =>
      alloc d c k p is_clone;;
      prof_dev_get d;;
      match f with
      | FailsEarly => discard d
      | _ =>
          opened ← init_children children d;
          match (if (opened : bool) then f else FailsInit) with
          | NoFailure => finish_open d is_clone
          | FailsLater => close_children d;; tell (Deinit d);; discard d
          | _ => discard d
          end
      end
  end
with init_children (l : specs) (d : Z) : M bool :=
  match l with
  | NoChildren => ret true
  | Child s fwd l =>
      o ← prof_dev_open_internal s (Some d) false;
      match o with
      | None => ret false
      | Some c =>
          err ← (if (fwd : bool) then prof_dev_forward c d true true true else ret 0 : M Z);
          if err <? 0 then ret false else init_children l d
      end
  end.

Definition prof_dev_open (s : spec) : M (option Z) := prof_dev_open_internal s None false.

(** [forward_ok]: whether the clone can be forwarded to the target of [d]. *)
Definition prof_dev_clone (d : Z) (s : spec) (forward_ok : bool) : M (option Z) :=
  ok ← prof_dev_get d;
  if (ok : bool) then
    x ← dev d;
    r ← (if bool_decide (state x = STATE_EXIT) then ret None
         else
           o ← prof_dev_open_internal s (Some d) true;
           match o with
           | None => ret None
           | Some c =>
               err ← match target x with
                     | Some t => prof_dev_forward c t forward_ok true true
                     | None => ret 0
                     end;
               if err <? 0 then run n (CloseDev c);; ret None
               else
                 set_dev c (set_title (print_title x));;
                 freed ← prof_dev_put c;
                 ret (if (freed : bool) then None else Some c)
           end : M (option Z));
    prof_dev_put d;;
    ret r
  else ret None.
End opening.
