(* ===== verification/DeviceInv.v ===== *)
(** * Devices: the invariant of the references

    Runs with enough fuel ([total]); what holds of the devices between any two steps
    ([inv]), relative to the references held by the functions that are running ([ghost]);
    and what every function leaves as it is ([mono]). *)

From S2P Require Import Prelude Device DeviceRun.

(** ** Enough fuel *)

Definition total {A} (f : nat -> M A) (m : memory) (Q : A -> memory -> Prop) : Prop :=
  exists n0 a m', Q a m' /\ forall n, (n0 <= n)%nat -> f n m = Done a m'.

Lemma total_done {A} (f : nat -> M A) m (Q : A -> memory -> Prop) a m' :
  (forall n, f n m = Done a m') -> Q a m' -> total f m Q.
Proof. intros Hf HQ. exists 0%nat, a, m'. auto. Qed.

Lemma total_ret {A} (a : A) m (Q : A -> memory -> Prop) : Q a m -> total (fun _ => ret a) m Q.
Proof. by apply total_done. Qed.

Lemma total_bind {A B} (f : nat -> M A) (k : nat -> A -> M B) m Q :
  total f m (fun a m1 => total (fun n => k n a) m1 Q) -> total (fun n => f n ≫= k n) m Q.
Proof.
  intros (n1 & a & m1 & (n2 & b & m2 & HQ & H2) & H1).
  exists (n1 `max` n2)%nat, b, m2. split; [done|]. intros n Hn.
  unfold mbind, M_bind. rewrite H1 by lia. apply H2. lia.
Qed.

(** A step that takes no fuel. *)
Lemma total_step {A B} (c : M A) (k : nat -> A -> M B) m a m1 Q :
  c m = Done a m1 -> total (fun n => k n a) m1 Q -> total (fun n => c ≫= k n) m Q.
Proof. intros Hc Hk. apply total_bind. apply (total_done _ _ _ a m1); done. Qed.

Lemma total_mono {A} (f : nat -> M A) m (Q Q' : A -> memory -> Prop) :
  total f m Q -> (forall a m', Q a m' -> Q' a m') -> total f m Q'.
Proof. intros (n & a & m' & HQ & Hf) HQ'. exists n, a, m'. auto. Qed.

Lemma total_ext {A} (f f' : nat -> M A) m Q :
  (forall n, f n m = f' n m) -> total f m Q -> total f' m Q.
Proof. intros He (n & a & m' & HQ & Hf). exists n, a, m'. split; [done|]. intros. rewrite <- He. auto. Qed.

Lemma total_run `{Profilers} f m Q :
  total (fun n => body (run n) n f) m Q -> total (fun n => run n f) m Q.
Proof.
  intros (n & a & m' & HQ & Hf). exists (S n), a, m'. split; [done|].
  intros [|k] Hk; [lia|]. apply Hf. lia.
Qed.

Lemma dev_ok m d x : devs m !! d = Some x -> dev d m = Done x m.
Proof. unfold dev. by intros ->. Qed.

Lemma set_dev_ok m d x f :
  devs m !! d = Some x -> set_dev d f m = Done tt (set_devs <[d := f x]> m).
Proof. intros Hx. unfold set_dev, mbind, M_bind. by rewrite (dev_ok _ _ _ Hx). Qed.

(** ** The references that are held, by function *)

Record ghost := Ghost {
  pins : Z -> nat;        (* references held by functions that run *)
  closing : gset Z;       (* in [prof_dev_close], before its sources are closed *)
  disabling : gset Z;     (* in [prof_dev_disable], before its descriptors are deleted *)
  flushing : gset Z       (* in [prof_dev_flush] *)
}.

Definition pin (d : Z) (g : ghost) : ghost :=
  Ghost (fun e => if decide (e = d) then S (pins g e) else pins g e) (closing g) (disabling g) (flushing g).
Definition enter_close (d : Z) (g : ghost) : ghost :=
  Ghost (pins g) ({[d]} ∪ closing g) (disabling g) (flushing g).
Definition enter_disable (d : Z) (g : ghost) : ghost :=
  Ghost (pins g) (closing g) ({[d]} ∪ disabling g) (flushing g).
Definition enter_flush (d : Z) (g : ghost) : ghost :=
  Ghost (pins g) (closing g) (disabling g) ({[d]} ∪ flushing g).

(** What runs holds a reference to its device. *)
Definition ghost_ok (g : ghost) : Prop :=
  forall d, d ∈ closing g ∪ disabling g ∪ flushing g -> (0 < pins g d)%nat.

Definition live (m : memory) (d : Z) : Prop := is_Some (devs m !! d).
#[export] Instance live_dec m d : Decision (live m d) := _.

(** Devices are numbered as they are opened, below [B]. *)
Section bound.
Variable B : Z.

Record dev_inv (m : memory) (g : ghost) (d : Z) (x : prof_dev) : Prop := {
  dev_refs : refcount x = (if inclose x then 0 else 1) + Z.of_nat (pins g d);
  dev_refs_pos : 0 < refcount x;
  dev_bound : 0 <= d < B;
  dev_flushing : inflush x = bool_decide (d ∈ flushing g);
  dev_closing : d ∈ closing g -> inclose x = true;
  dev_disabling : d ∈ disabling g -> state x <> STATE_ACTIVE;
  dev_closed : inclose x = true -> d ∉ closing g ->
    state x = STATE_EXIT /\ d ∉ prof_dev_list m /\
    forall s y, devs m !! s = Some y -> target y = Some d -> inclose y = true;
  dev_quiet : state x <> STATE_ACTIVE -> d ∉ disabling g ->
    d ∉ timers m /\ forall i, (d, i) ∉ polled m;
  dev_no_timer : interval (conf x) = 0 -> d ∉ timers m;
  dev_no_pages : pages (conf x) = 0 -> forall i, (d, i) ∉ polled m;
  dev_parent : forall p, parent x = Some p -> p < d /\ live m p;
  dev_target : forall t, target x = Some t -> t < d /\ live m t /\ ((0 < pins g d)%nat -> (0 < pins g t)%nat);
  dev_family : forall p y, parent x = Some p -> devs m !! p = Some y ->
    target x = None \/ target x = (if clone x then target y else Some p);
  dev_children : forall c, c ∈ child_list x <-> exists y, devs m !! c = Some y /\ parent y = Some d;
  dev_sources : forall s, s ∈ source_list x <-> exists y, devs m !! s = Some y /\ target y = Some d;
  dev_nodup : NoDup (child_list x) /\ NoDup (source_list x)
}.

Definition counted (x : prof_dev) : Prop := normal (conf x) = true /\ state x = STATE_ACTIVE.
#[export] Instance counted_dec x : Decision (counted x) := _.

Record inv (m : memory) (g : ghost) : Prop := {
  inv_dev : forall d x, devs m !! d = Some x -> dev_inv m g d x;
  inv_pinned : forall d, (0 < pins g d)%nat -> live m d;
  inv_ghost : ghost_ok g;
  inv_list : NoDup (prof_dev_list m) /\ forall d, d ∈ prof_dev_list m -> live m d;
  inv_polled : forall d i, (d, i) ∈ polled m -> live m d;
  inv_timers : forall d, d ∈ timers m -> live m d;
  inv_running : 0 <= running m ->
    running m = Z.of_nat (size (filter (fun p => counted p.2) (devs m)))
}.
End bound.
Arguments dev_refs {B m g d x}.
Arguments dev_refs_pos {B m g d x}.
Arguments dev_bound {B m g d x}.
Arguments dev_flushing {B m g d x}.
Arguments dev_closing {B m g d x}.
Arguments dev_disabling {B m g d x}.
Arguments dev_closed {B m g d x}.
Arguments dev_quiet {B m g d x}.
Arguments dev_no_timer {B m g d x}.
Arguments dev_no_pages {B m g d x}.
Arguments dev_parent {B m g d x}.
Arguments dev_target {B m g d x}.
Arguments dev_family {B m g d x}.
Arguments dev_children {B m g d x}.
Arguments dev_sources {B m g d x}.
Arguments dev_nodup {B m g d x}.
Arguments inv_dev {B m g}.
Arguments inv_pinned {B m g}.
Arguments inv_ghost {B m g}.
Arguments inv_list {B m g}.
Arguments inv_polled {B m g}.
Arguments inv_timers {B m g}.
Arguments inv_running {B m g}.

(** ** What no function does *)

(** Between two states of one device. *)
Record dev_mono (x x' : prof_dev) : Prop := {
  same_conf : conf x' = conf x;
  same_target : target x' = target x;
  stays_inclose : inclose x = true -> inclose x' = true;
  stays_inactive : state x' = STATE_ACTIVE -> state x = STATE_ACTIVE;
  stays_exit : state x = STATE_EXIT -> state x' = STATE_EXIT;
  stays_event : is_Some (event_dev x) -> is_Some (event_dev x');
  same_rings : length (rings x') = length (rings x);
  rings_shrink : forall i l l', rings x !! i = Some l -> rings x' !! i = Some l' ->
    (length l' <= length l)%nat
}.

Record mono (m m' : memory) : Prop := {
  mono_dev : forall d x', devs m' !! d = Some x' -> exists x, devs m !! d = Some x /\ dev_mono x x';
  mono_parent : forall d x x' p, devs m !! d = Some x -> devs m' !! d = Some x' ->
    parent x = Some p -> live m' p -> parent x' = Some p /\ clone x' = clone x;
  mono_children : forall d x x', devs m !! d = Some x -> devs m' !! d = Some x' ->
    exists l, child_list x' = filter (live m') (child_list x) ++ l;
  mono_sources : forall d x x', devs m !! d = Some x -> devs m' !! d = Some x' ->
    source_list x' = filter (live m') (source_list x);
  mono_list : sublist (prof_dev_list m') (prof_dev_list m);
  mono_listed : forall d x', d ∈ prof_dev_list m -> devs m' !! d = Some x' ->
    d ∈ prof_dev_list m' \/ inclose x' = true;
  mono_polled : polled m' ⊆ polled m;
  mono_timers : timers m' ⊆ timers m
}.

Arguments mono_dev {m m'}.
Arguments mono_parent {m m'}.
Arguments mono_children {m m'}.
Arguments mono_sources {m m'}.
Arguments mono_list {m m'}.
Arguments mono_listed {m m'}.
Arguments mono_polled {m m'}.
Arguments mono_timers {m m'}.

#[export] Instance dev_mono_preorder : PreOrder dev_mono.
Proof.
  split.
  - intros x. split; try done. intros i l l' H1 H2. by simplify_eq.
  - intros x y z [] []. split; try (auto; congruence).
    intros i l l' H1 H2.
    destruct (rings y !! i) as [k|] eqn:Hk.
    + apply Nat.le_trans with (length k); eauto.
    + apply lookup_ge_None in Hk. apply lookup_lt_Some in H1. lia.
Qed.

Lemma mono_live m m' d : mono m m' -> live m' d -> live m d.
Proof. intros Hm [x' Hx']. destruct (mono_dev Hm d x' Hx') as (x & Hx & _). by exists x. Qed.

(** What also enabling, which starts what the others only stop, leaves as it is. *)
Record kin (m m' : memory) : Prop := {
  kin_dev : forall d x', devs m' !! d = Some x' -> exists x, devs m !! d = Some x /\
    conf x' = conf x /\ target x' = target x /\ (inclose x = true -> inclose x' = true) /\
    (state x = STATE_EXIT -> state x' = STATE_EXIT);
  kin_parent : forall d x x' p, devs m !! d = Some x -> devs m' !! d = Some x' ->
    parent x = Some p -> live m' p -> parent x' = Some p /\ clone x' = clone x;
  kin_children : forall d x x', devs m !! d = Some x -> devs m' !! d = Some x' ->
    exists l, child_list x' = filter (live m') (child_list x) ++ l;
  kin_sources : forall d x x', devs m !! d = Some x -> devs m' !! d = Some x' ->
    source_list x' = filter (live m') (source_list x);
  kin_list : sublist (prof_dev_list m') (prof_dev_list m);
  kin_listed : forall d x', d ∈ prof_dev_list m -> devs m' !! d = Some x' ->
    d ∈ prof_dev_list m' \/ inclose x' = true
}.
Arguments kin_dev {m m'}.
Arguments kin_parent {m m'}.
Arguments kin_children {m m'}.
Arguments kin_sources {m m'}.
Arguments kin_list {m m'}.
Arguments kin_listed {m m'}.

Lemma mono_kin m m' : mono m m' -> kin m m'.
Proof.
  intros Hm. split; try apply Hm. intros d x' Hx'. destruct (mono_dev Hm d x' Hx') as (x & Hx & []). exists x. auto.
Qed.

Lemma kin_live m m' d : kin m m' -> live m' d -> live m d.
Proof. intros Hm [x' Hx']. destruct (kin_dev Hm d x' Hx') as (x & Hx & _). by exists x. Qed.

Lemma kin_filter m m' (l : list Z) : kin m m' -> filter (live m') (filter (live m) l) = filter (live m') l.
Proof. intros Hm. apply list_filter_filter_l. intros d. by apply kin_live. Qed.

Lemma kin_trans m1 m2 m3 : kin m1 m2 -> kin m2 m3 -> kin m1 m3.
Proof.
  intros H12 H23. split.
  - intros d z Hz. destruct (kin_dev H23 d z Hz) as (y & Hy & E1 & E2 & E3 & E4).
    destruct (kin_dev H12 d y Hy) as (x & Hx & F1 & F2 & F3 & F4). exists x.
    split; [done|]. split; [congruence|]. split; [congruence|]. auto.
  - intros d x z p Hx Hz Hp Hlp. destruct (kin_dev H23 d z Hz) as (y & Hy & _).
    destruct (kin_parent H12 d x y p Hx Hy Hp (kin_live _ _ _ H23 Hlp)) as [Hp' Hc].
    destruct (kin_parent H23 d y z p Hy Hz Hp' Hlp) as [Hp'' Hc']. split; [done|congruence].
  - intros d x z Hx Hz. destruct (kin_dev H23 d z Hz) as (y & Hy & _).
    destruct (kin_children H12 d x y Hx Hy) as [l Hl]. destruct (kin_children H23 d y z Hy Hz) as [l' Hl'].
    exists (filter (live m3) l ++ l'). rewrite Hl', Hl, filter_app, kin_filter by done. by rewrite app_assoc.
  - intros d x z Hx Hz. destruct (kin_dev H23 d z Hz) as (y & Hy & _).
    rewrite (kin_sources H23 d y z Hy Hz), (kin_sources H12 d x y Hx Hy). by apply kin_filter.
  - etrans; [apply H23|apply H12].
  - intros d z Hd Hz. destruct (kin_dev H23 d z Hz) as (y & Hy & _ & _ & Hc & _).
    destruct (kin_listed H12 d y Hd Hy) as [Hl|Hc']; [by apply (kin_listed H23)|]. right. auto.
Qed.

Lemma filter_live m m' (l : list Z) : mono m m' -> filter (live m') (filter (live m) l) = filter (live m') l.
Proof.
  intros Hm. apply list_filter_filter_l. intros d. by apply mono_live.
Qed.

Lemma mono_trans m1 m2 m3 : mono m1 m2 -> mono m2 m3 -> mono m1 m3.
Proof.
  intros H12 H23. split.
  - intros d z Hz. destruct (mono_dev H23 d z Hz) as (y & Hy & Hyz).
    destruct (mono_dev H12 d y Hy) as (x & Hx & Hxy). exists x. split; [done|]. by etrans.
  - intros d x z p Hx Hz Hp Hlp. destruct (mono_dev H23 d z Hz) as (y & Hy & _).
    destruct (mono_parent H12 d x y p Hx Hy Hp (mono_live _ _ _ H23 Hlp)) as [Hp' Hc].
    destruct (mono_parent H23 d y z p Hy Hz Hp' Hlp) as [Hp'' Hc']. split; [done|congruence].
  - intros d x z Hx Hz. destruct (mono_dev H23 d z Hz) as (y & Hy & _).
    destruct (mono_children H12 d x y Hx Hy) as [l Hl].
    destruct (mono_children H23 d y z Hy Hz) as [l' Hl'].
    exists (filter (live m3) l ++ l'). rewrite Hl', Hl, filter_app, filter_live by done. by rewrite app_assoc.
  - intros d x z Hx Hz. destruct (mono_dev H23 d z Hz) as (y & Hy & _).
    rewrite (mono_sources H23 d y z Hy Hz), (mono_sources H12 d x y Hx Hy). by apply filter_live.
  - etrans; [apply H23|apply H12].
  - intros d z Hd Hz. destruct (mono_dev H23 d z Hz) as (y & Hy & Hyz).
    destruct (mono_listed H12 d y Hd Hy) as [Hl|Hc]; [by apply (mono_listed H23)|].
    right. by apply (stays_inclose _ _ Hyz).
  - etrans; [apply H23|apply H12].
  - etrans; [apply H23|apply H12].
Qed.

(** The devices that are listed are there, so nothing is filtered where nothing is freed. *)
Lemma filter_all_live B m g d x (l : list Z) :
  inv B m g -> devs m !! d = Some x -> l = child_list x \/ l = source_list x -> filter (live m) l = l.
Proof.
  intros Hi Hx Hl. apply filter_id. intros c Hc. pose proof (inv_dev Hi d x Hx) as Hd.
  destruct Hl as [->| ->]; [apply (dev_children Hd) in Hc|apply (dev_sources Hd) in Hc]; destruct Hc as (y & Hy & _); by exists y.
Qed.

Lemma mono_refl B m g : inv B m g -> mono m m.
Proof.
  intros Hi. split; try done.
  - intros d x Hx. exists x. split; [done|]. reflexivity.
  - intros d x x' p H1 H2. by simplify_eq.
  - intros d x x' H1 H2. simplify_eq. exists []. rewrite (filter_all_live _ _ _ _ _ _ Hi H1) by auto. by rewrite app_nil_r.
  - intros d x x' H1 H2. simplify_eq. by rewrite (filter_all_live _ _ _ _ _ _ Hi H1) by auto.
  - auto.
Qed.
