(* ===== verification/DeviceStep.v ===== *)
(** * Devices: steps on one device

    What a step that changes one device, and no link, must establish for the invariant
    ([inv_update]); and the counting of active devices. *)

From S2P Require Import Prelude Device DeviceRun DeviceInv.

(** ** Counting *)

Definition active (m : memory) : nat := size (filter (fun p => counted p.2) (devs m)).

Lemma active_insert m d x y :
  devs m !! d = Some x ->
  Z.of_nat (size (filter (fun p : Z * prof_dev => counted p.2) (<[d := y]> (devs m)))) =
    Z.of_nat (active m) - (if decide (counted x) then 1 else 0) + (if decide (counted y) then 1 else 0).
Proof.
  intros Hx. unfold active.
  assert (forall z, Z.of_nat (size (filter (fun p : Z * prof_dev => counted p.2) (<[d := z]> (devs m)))) =
    Z.of_nat (size (filter (fun p : Z * prof_dev => counted p.2) (delete d (devs m)))) +
    (if decide (counted z) then 1 else 0)) as Hins.
  { intros z. rewrite <- insert_delete_eq. destruct (decide (counted z)) as [Hz|Hz].
    - rewrite map_filter_insert_True by done. rewrite map_size_insert_None; [lia|].
      apply map_lookup_filter_None. left. apply lookup_delete_eq.
    - rewrite map_filter_insert_False by done. rewrite delete_delete_eq. lia. }
  rewrite Hins. rewrite <- (insert_id (devs m) d x) at 2 by done. rewrite Hins.
  destruct (decide (counted x)), (decide (counted y)); lia.
Qed.

Lemma active_delete m d x :
  devs m !! d = Some x -> ~ counted x ->
  size (filter (fun p : Z * prof_dev => counted p.2) (delete d (devs m))) = active m.
Proof.
  intros Hx Hc. unfold active. rewrite map_filter_delete. f_equal. apply delete_id.
  apply map_lookup_filter_None. right. intros y Hy. by simplify_eq.
Qed.

(** ** One device changes *)

Definition same_links (x y : prof_dev) : Prop :=
  conf y = conf x /\ parent y = parent x /\ clone y = clone x /\ child_list y = child_list x /\
  target y = target x /\ source_list y = source_list x.

(** A ghost that differs at [d] only. *)
Definition agree_off (d : Z) (g g' : ghost) : Prop :=
  forall e, e <> d -> pins g' e = pins g e /\ (e ∈ closing g' <-> e ∈ closing g) /\
    (e ∈ disabling g' <-> e ∈ disabling g) /\ (e ∈ flushing g' <-> e ∈ flushing g).

Definition targets_pinned (m : memory) (g : ghost) : Prop :=
  forall s z t, devs m !! s = Some z -> target z = Some t -> (0 < pins g s)%nat -> (0 < pins g t)%nat.

(** What the step must show of [d] itself. *)
Record own_inv (m m' : memory) (g' : ghost) (d : Z) (y : prof_dev) : Prop := {
  own_refs : refcount y = (if inclose y then 0 else 1) + Z.of_nat (pins g' d);
  own_refs_pos : 0 < refcount y;
  own_flushing : inflush y = bool_decide (d ∈ flushing g');
  own_closing : d ∈ closing g' -> inclose y = true;
  own_disabling : d ∈ disabling g' -> state y <> STATE_ACTIVE;
  own_closed : inclose y = true -> d ∉ closing g' ->
    state y = STATE_EXIT /\ d ∉ prof_dev_list m' /\
    forall s z, devs m !! s = Some z -> target z = Some d -> inclose z = true;
  own_quiet : state y <> STATE_ACTIVE -> d ∉ disabling g' ->
    d ∉ timers m' /\ forall i, (d, i) ∉ polled m'
}.

Lemma lookup_update m m' d x y :
  devs m !! d = Some x -> devs m' = <[d := y]> (devs m) -> same_links x y ->
  forall e z, devs m' !! e = Some z -> exists z0, devs m !! e = Some z0 /\ same_links z0 z /\ (e <> d -> z = z0).
Proof.
  intros Hx Hm Hs e z. rewrite Hm. destruct (decide (e = d)) as [->|He].
  - rewrite lookup_insert_eq. intros [= <-]. exists x. done.
  - rewrite lookup_insert_ne by done. intros Hz. exists z. split; [done|]. split; [|done]. repeat split.
Qed.

Lemma update_live m m' d x y :
  devs m !! d = Some x -> devs m' = <[d := y]> (devs m) -> forall e, live m' e <-> live m e.
Proof.
  intros Hx Hm e. unfold live. rewrite Hm. destruct (decide (e = d)) as [->|He].
  - rewrite lookup_insert_eq, Hx. split; by eexists.
  - by rewrite lookup_insert_ne.
Qed.

Section update.
Variable B : Z.
Variables (m m' : memory) (g g' : ghost) (d : Z) (x y : prof_dev).
Hypothesis Hinv : inv B m g.
Hypothesis Hx : devs m !! d = Some x.
Hypothesis Hdevs : devs m' = <[d := y]> (devs m).
Hypothesis Hlinks : same_links x y.
Hypothesis Hclose : inclose x = true -> inclose y = true.
Hypothesis Hlist : sublist (prof_dev_list m') (prof_dev_list m).
Hypothesis Hpolled : forall e i, (e, i) ∈ polled m' -> (e, i) ∈ polled m \/ (e = d /\ pages (conf x) <> 0).
Hypothesis Htimers : forall e, e ∈ timers m' -> e ∈ timers m \/ (e = d /\ interval (conf x) <> 0).
Hypothesis Hagree : agree_off d g g'.
Hypothesis Hpins : targets_pinned m g'.
Hypothesis Hok : ghost_ok g'.
Hypothesis Hown : own_inv m m' g' d y.
Hypothesis Hrun : 0 <= running m' -> running m' = Z.of_nat (active m').

Lemma update_children e c :
  (exists z, devs m' !! c = Some z /\ parent z = Some e) <-> exists z, devs m !! c = Some z /\ parent z = Some e.
Proof using Hx Hdevs Hlinks.
  destruct Hlinks as (? & Hp & ?). rewrite Hdevs. destruct (decide (c = d)) as [->|Hc].
  - rewrite lookup_insert_eq, Hx. split; intros (z & [= <-] & Hz); eexists; (split; [done|congruence]).
  - by rewrite lookup_insert_ne.
Qed.

Lemma update_sources e c :
  (exists z, devs m' !! c = Some z /\ target z = Some e) <-> exists z, devs m !! c = Some z /\ target z = Some e.
Proof using Hx Hdevs Hlinks.
  destruct Hlinks as (? & ? & ? & ? & Hp & ?). rewrite Hdevs. destruct (decide (c = d)) as [->|Hc].
  - rewrite lookup_insert_eq, Hx. split; intros (z & [= <-] & Hz); eexists; (split; [done|congruence]).
  - by rewrite lookup_insert_ne.
Qed.

(** The parts of the invariant of a device that only its links matter for. *)
Lemma update_linked e z0 z :
  devs m !! e = Some z0 -> same_links z0 z ->
  refcount z = (if inclose z then 0 else 1) + Z.of_nat (pins g' e) ->
  0 < refcount z ->
  inflush z = bool_decide (e ∈ flushing g') ->
  (e ∈ closing g' -> inclose z = true) ->
  (e ∈ disabling g' -> state z <> STATE_ACTIVE) ->
  (inclose z = true -> e ∉ closing g' -> state z = STATE_EXIT /\ e ∉ prof_dev_list m' /\
     forall s w, devs m' !! s = Some w -> target w = Some e -> inclose w = true) ->
  (state z <> STATE_ACTIVE -> e ∉ disabling g' -> e ∉ timers m' /\ forall i, (e, i) ∉ polled m') ->
  dev_inv B m' g' e z.
Proof using All.
  intros Hz0 Hs H1 H2 H3 H4 H5 H6 H7. pose proof (inv_dev Hinv e z0 Hz0) as Hd.
  destruct Hs as (Hc & Hp & Hcl & Hch & Ht & Hsrc). split; try done.
  - apply (dev_bound Hd).
  - rewrite Hc. intros Hi [Hin|[-> Hne]]%Htimers; [by apply (dev_no_timer Hd Hi)|]. congruence.
  - rewrite Hc. intros Hi i [Hin|[-> Hne]]%Hpolled; [by apply (dev_no_pages Hd Hi i)|]. congruence.
  - intros p. rewrite Hp, (update_live m m' d x y) by done. apply (dev_parent Hd).
  - intros t. rewrite Ht, (update_live m m' d x y) by done. intros Het.
    destruct (dev_target Hd t Het) as (? & ? & _). split; [done|]. split; [done|]. by eapply Hpins.
  - intros p w. rewrite Hp, Ht, Hcl. intros Hep Hw.
    destruct (lookup_update m m' d x y Hx Hdevs Hlinks p w Hw) as (w0 & Hw0 & (_ & _ & _ & _ & -> & _) & _).
    by eapply (dev_family Hd).
  - intros c. rewrite Hch, update_children. apply (dev_children Hd).
  - intros c. rewrite Hsrc, update_sources. apply (dev_sources Hd).
  - rewrite Hch, Hsrc. apply (dev_nodup Hd).
Qed.

Lemma update_inclose e :
  (forall s w, devs m !! s = Some w -> target w = Some e -> inclose w = true) ->
  forall s w, devs m' !! s = Some w -> target w = Some e -> inclose w = true.
Proof using Hx Hdevs Hlinks Hclose.
  intros He s w Hw Ht. rewrite Hdevs in Hw. destruct (decide (s = d)) as [->|Hs].
  - rewrite lookup_insert_eq in Hw. injection Hw as <-. destruct Hlinks as (? & ? & ? & ? & Hxt & ?).
    apply Hclose. apply (He d); [done|congruence].
  - rewrite lookup_insert_ne in Hw by done. by apply (He s).
Qed.

Lemma inv_update_gen : inv B m' g'.
Proof using All.
  pose proof (update_live m m' d x y Hx Hdevs) as Hlive.
  split.
  - intros e z Hz. destruct (lookup_update m m' d x y Hx Hdevs Hlinks e z Hz) as (z0 & Hz0 & Hs & He).
    destruct (decide (e = d)) as [->|Hne].
    + rewrite Hdevs, lookup_insert_eq in Hz. injection Hz as <-. pose proof Hown as [].
      eapply update_linked; try done. intros Hc Hd. destruct (own_closed0 Hc Hd) as (? & ? & Hsrc).
      split; [done|]. split; [done|]. by apply update_inclose.
    + specialize (He Hne) as ->. pose proof (inv_dev Hinv e z0 Hz0) as Hd.
      destruct (Hagree e Hne) as (Hp & Hcl & Hds & Hfl).
      eapply update_linked; try done.
      * rewrite Hp. apply (dev_refs Hd).
      * apply (dev_refs_pos Hd).
      * rewrite (dev_flushing Hd). by apply bool_decide_ext.
      * rewrite Hcl. apply (dev_closing Hd).
      * rewrite Hds. apply (dev_disabling Hd).
      * rewrite Hcl. intros Hc Hn. destruct (dev_closed Hd Hc Hn) as (? & Hnl & Hsrc). split; [done|].
        split; [|by apply update_inclose]. intros Hin. apply Hnl. by eapply elem_of_sublist.
      * rewrite Hds. intros Hst Hn. destruct (dev_quiet Hd Hst Hn) as [? Hq]. split.
        -- by intros [?|[? _]]%Htimers.
        -- intros i. by intros [?%Hq|[? _]]%Hpolled.
  - intros e He. apply Hlive. destruct (decide (e = d)) as [->|Hne]; [by exists x|].
    apply (inv_pinned Hinv). by destruct (Hagree e Hne) as (<- & _).
  - done.
  - destruct (inv_list Hinv) as [Hnd Hl]. split.
    + by eapply sublist_NoDup.
    + intros e He. apply Hlive, Hl. by eapply elem_of_sublist.
  - intros e i [He|[-> _]]%Hpolled; apply Hlive; [by eapply (inv_polled Hinv)|by exists x].
  - intros e [He|[-> _]]%Htimers; apply Hlive; [by apply (inv_timers Hinv)|by exists x].
  - exact Hrun.
Qed.

Lemma kin_update :
  (forall e, e ∈ prof_dev_list m -> e ∈ prof_dev_list m' \/ (e = d /\ inclose y = true)) ->
  (inclose x = true -> inclose y = true) -> (state x = STATE_EXIT -> state y = STATE_EXIT) -> kin m m'.
Proof using Hinv Hx Hdevs Hlinks Hlist.
  clear - Hinv Hx Hdevs Hlinks Hlist.
  intros Hlisted Hclose Hexit. pose proof (update_live m m' d x y Hx Hdevs) as Hlive.
  assert (forall e z z', devs m !! e = Some z -> devs m' !! e = Some z' -> same_links z z') as Hl.
  { intros e z z' Hz Hz'. destruct (lookup_update m m' d x y Hx Hdevs Hlinks e z' Hz') as (z0 & Hz0 & Hs & _).
    by simplify_eq. }
  assert (forall l : list Z, filter (live m') l = filter (live m) l) as Hf.
  { intros l. by apply list_filter_iff. }
  split; try done.
  - intros e z Hz. destruct (lookup_update m m' d x y Hx Hdevs Hlinks e z Hz) as (z0 & Hz0 & (E1 & _ & _ & _ & E2 & _) & He).
    exists z0. split; [done|]. split; [done|]. split; [done|]. destruct (decide (e = d)) as [->|Hne].
    + rewrite Hdevs, lookup_insert_eq in Hz. by simplify_eq.
    + by rewrite He.
  - intros e z z' p Hz Hz' Hp _. destruct (Hl e z z' Hz Hz') as (_ & -> & -> & _). done.
  - intros e z z' Hz Hz'. destruct (Hl e z z' Hz Hz') as (_ & _ & _ & -> & _). exists [].
    rewrite Hf, (filter_all_live _ _ _ _ _ _ Hinv Hz) by auto. by rewrite app_nil_r.
  - intros e z z' Hz Hz'. destruct (Hl e z z' Hz Hz') as (_ & _ & _ & _ & _ & ->).
    by rewrite Hf, (filter_all_live _ _ _ _ _ _ Hinv Hz) by auto.
  - intros e z He Hz. destruct (Hlisted e He) as [Hl'|[-> Hy]]; [by left|]. right.
    rewrite Hdevs, lookup_insert_eq in Hz. by injection Hz as <-.
Qed.

Lemma mono_update :
  polled m' ⊆ polled m -> timers m' ⊆ timers m ->
  (forall e, e ∈ prof_dev_list m -> e ∈ prof_dev_list m' \/ (e = d /\ inclose y = true)) ->
  dev_mono x y -> mono m m'.
Proof using Hinv Hx Hdevs Hlinks Hlist.
  clear - Hinv Hx Hdevs Hlinks Hlist.
  intros Hpolled Htimers Hlisted Hxy. destruct (kin_update Hlisted (stays_inclose _ _ Hxy) (stays_exit _ _ Hxy)). split; try done.
  intros e z Hz. destruct (lookup_update m m' d x y Hx Hdevs Hlinks e z Hz) as (z0 & Hz0 & Hs & He).
  exists z0. split; [done|]. destruct (decide (e = d)) as [->|Hne].
  - rewrite Hdevs, lookup_insert_eq in Hz. by simplify_eq.
  - by rewrite He.
Qed.
End update.

(** A step that starts nothing. *)
Lemma inv_update B m m' g g' d x y :
  inv B m g -> devs m !! d = Some x -> devs m' = <[d := y]> (devs m) -> same_links x y ->
  (inclose x = true -> inclose y = true) -> sublist (prof_dev_list m') (prof_dev_list m) ->
  polled m' ⊆ polled m -> timers m' ⊆ timers m -> agree_off d g g' -> targets_pinned m g' -> ghost_ok g' ->
  own_inv m m' g' d y -> (0 <= running m' -> running m' = Z.of_nat (active m')) -> inv B m' g'.
Proof.
  intros Hi Hx Hdv Hl Hc Hls Hp Ht. apply (inv_update_gen B m m' g g' d x y); try done.
  - intros e i He. left. by apply Hp.
  - intros e He. left. by apply Ht.
Qed.

Lemma active_update m m' d x y :
  devs m !! d = Some x -> devs m' = <[d := y]> (devs m) ->
  Z.of_nat (active m') =
    Z.of_nat (active m) - (if decide (counted x) then 1 else 0) + (if decide (counted y) then 1 else 0).
Proof. intros Hx Hm. unfold active at 1. rewrite Hm. by apply active_insert. Qed.
