(* ===== verification/DeviceRefs.v ===== *)
(** * Devices: taking and putting references, and freeing

    [prof_dev_get] adds a reference of the function that runs; [prof_dev_put] gives one
    back, and frees the device with the last one ([put_ok]): at that time no device
    forwards to it, and its children go to its parent. *)

From S2P Require Import Prelude Device DeviceRun DeviceInv DeviceStep.

Lemma pins_pin d g : pins (pin d g) d = S (pins g d).
Proof. cbn. by rewrite decide_True. Qed.

Lemma pins_pin_ne d g e : e <> d -> pins (pin d g) e = pins g e.
Proof. intros He. cbn. by rewrite decide_False. Qed.

Lemma agree_pin d g : agree_off d g (pin d g).
Proof. intros e He. rewrite pins_pin_ne by done. done. Qed.

Lemma agree_sym d g g' : agree_off d g g' -> agree_off d g' g.
Proof. intros Ha e He. destruct (Ha e He) as (-> & -> & -> & ->). done. Qed.

Lemma agree_trans d g1 g2 g3 : agree_off d g1 g2 -> agree_off d g2 g3 -> agree_off d g1 g3.
Proof.
  intros H12 H23 e He. destruct (H23 e He) as (-> & -> & -> & ->). by apply H12.
Qed.

Lemma ghost_ok_pin d g : ghost_ok g -> ghost_ok (pin d g).
Proof.
  intros Hg e He. destruct (decide (e = d)) as [->|Hne]; [rewrite pins_pin; lia|].
  rewrite pins_pin_ne by done. by apply Hg.
Qed.

(** The target of [d], if there is one, is held. *)
Definition target_held (m : memory) (g : ghost) (d : Z) : Prop :=
  forall x t, devs m !! d = Some x -> target x = Some t -> (0 < pins g t)%nat.

Lemma inv_targets_pinned B m g : inv B m g -> targets_pinned m g.
Proof. intros Hi s z t Hz Ht. by apply (dev_target (inv_dev Hi s z Hz) t). Qed.

Lemma targets_pinned_kin m m' g : kin m m' -> targets_pinned m g -> targets_pinned m' g.
Proof.
  intros Hm Ht s z t Hz Hst. destruct (kin_dev Hm s z Hz) as (z0 & Hz0 & _ & E & _).
  rewrite E in Hst. by eapply Ht.
Qed.

Lemma targets_pinned_mono m m' g : mono m m' -> targets_pinned m g -> targets_pinned m' g.
Proof. intros Hm. by apply targets_pinned_kin, mono_kin. Qed.

Lemma target_held_mono m m' g d : mono m m' -> target_held m g d -> target_held m' g d.
Proof.
  intros Hm Ht z t Hz Hst. destruct (mono_dev Hm d z Hz) as (z0 & Hz0 & Hd).
  rewrite (same_target _ _ Hd) in Hst. by eapply Ht.
Qed.

Lemma targets_pinned_pin m g d :
  targets_pinned m g -> target_held m g d -> targets_pinned m (pin d g).
Proof.
  intros Hg Hd s z t Hz Ht Hp. destruct (decide (t = d)) as [->|Hne]; [rewrite pins_pin; lia|].
  rewrite pins_pin_ne by done. destruct (decide (s = d)) as [->|Hs]; [by eapply Hd|].
  rewrite pins_pin_ne in Hp by done. by eapply Hg.
Qed.

Lemma target_held_pin m g d e : target_held m g d -> target_held m (pin e g) d.
Proof.
  intros Ht x t Hx Hxt. specialize (Ht x t Hx Hxt). destruct (decide (t = e)) as [->|He]; [rewrite pins_pin; lia|].
  by rewrite pins_pin_ne.
Qed.

(** The target of what is held is held. *)
Lemma pinned_target_held B m g d : inv B m g -> (0 < pins g d)%nat -> target_held m g d.
Proof. intros Hi Hd x t Hx Ht. by apply (dev_target (inv_dev Hi d x Hx) t Ht). Qed.

Lemma own_inv_old B m g d x :
  inv B m g -> devs m !! d = Some x -> own_inv m m g d x.
Proof. intros Hi Hx. pose proof (inv_dev Hi d x Hx) as Hd. split; apply Hd. Qed.

(** Between two states of devices that start and stop nothing. *)
Definition steady (m m' : memory) : Prop :=
  forall d x x', devs m !! d = Some x -> devs m' !! d = Some x' -> state x' = state x.

(** ** Taking a reference *)

Lemma get_ok B m g d :
  inv B m g -> live m d -> target_held m g d ->
  exists m', prof_dev_get d m = Done true m' /\ inv B m' (pin d g) /\ mono m m' /\
    (forall e, live m' e <-> live m e) /\
    (forall e x, devs m !! e = Some x -> exists x', devs m' !! e = Some x' /\ same_links x x' /\
       inclose x' = inclose x /\ state x' = state x /\ inflush x' = inflush x /\ rings x' = rings x).
Proof.
  intros Hi [x Hx] Ht. pose proof (inv_dev Hi d x Hx) as Hd.
  set (y := set_refcount (fun k => k + 1) x). set (m' := set_devs <[d := y]> m).
  assert (devs m' = <[d := y]> (devs m)) as Hm' by done.
  assert (same_links x y) as Hs by done.
  assert (dev_mono x y) as Hxy.
  { split; try done. intros i l l' H1 H2. change (rings y) with (rings x) in H2. by simplify_eq. }
  exists m'. split.
  { unfold prof_dev_get, mbind, M_bind. rewrite (dev_ok _ _ _ Hx).
    pose proof (dev_refs_pos Hd). rewrite (proj2 (Z.ltb_lt _ _)) by done.
    by rewrite (set_dev_ok _ _ _ _ Hx). }
  split; [|split; [|split]].
  - eapply (inv_update B m m' g (pin d g) d x y); try done.
    + apply agree_pin.
    + by apply targets_pinned_pin; [apply (inv_targets_pinned B)|].
    + by apply ghost_ok_pin, (inv_ghost Hi).
    + pose proof (own_inv_old _ _ _ _ _ Hi Hx) as []. split; try done.
      * cbn [pin pins]. rewrite decide_True by done. cbn [y set_refcount refcount inclose]. destruct (inclose x); lia.
      * cbn. lia.
    + intros Hr. pose proof (active_update m m' d x y Hx Hm'). pose proof (inv_running Hi Hr).
      change (running m') with (running m). unfold active in *. destruct (decide (counted x)), (decide (counted y)); tauto || lia.
  - eapply (mono_update B m m' g d x y); try done. by left.
  - by apply (update_live m m' d x y).
  - intros e z Hz. destruct (decide (e = d)) as [->|He].
    + simplify_eq. exists y. split; [by rewrite Hm', lookup_insert_eq|]. done.
    + exists z. split; [by rewrite Hm', lookup_insert_ne|]. done.
Qed.

(** ** Freeing *)

Definition heir (x : prof_dev) (l : list Z) (e : Z) (z : prof_dev) : prof_dev :=
  let z := if decide (e ∈ l) then
             set_parent (parent x) (match parent x with Some _ => clone x | None => false end) z
           else z in
  if decide (parent x = Some e) then set_children (fun k => k ++ l) z else z.

(** The parts of the memory besides the devices and the log. *)
Definition same_lists (m m' : memory) : Prop :=
  prof_dev_list m' = prof_dev_list m /\ running m' = running m /\ polled m' = polled m /\ timers m' = timers m.

Lemma set_dev_spec m d x f :
  devs m !! d = Some x ->
  exists m', set_dev d f m = Done tt m' /\ devs m' = <[d := f x]> (devs m) /\ same_lists m m'.
Proof. intros Hx. rewrite (set_dev_ok _ _ _ f Hx). by eexists. Qed.

Ltac heir_cases :=
  repeat case_decide; rewrite ?elem_of_cons, ?elem_of_nil in *; first [done | tauto | exfalso; intuition congruence].

Lemma inherit_ok x c m :
  live m c -> (forall p, parent x = Some p -> live m p /\ p <> c) ->
  exists m', inherit x c m = Done tt m' /\ same_lists m m' /\
    forall e, devs m' !! e = heir x [c] e <$> devs m !! e.
Proof.
  intros [y Hy] Hp. unfold inherit, heir. destruct (parent x) as [p|].
  - destruct (Hp p eq_refl) as [[z Hz] Hpc].
    destruct (set_dev_spec m c y (set_parent (Some p) (clone x)) Hy) as (m1 & E1 & Hm1 & S1).
    assert (devs m1 !! p = Some z) as Hz1 by (by rewrite Hm1, lookup_insert_ne).
    destruct (set_dev_spec m1 p z (set_children (fun l => l ++ [c])) Hz1) as (m2 & E2 & Hm2 & S2).
    exists m2. split; [unfold mbind, M_bind; by rewrite E1|]. split.
    { destruct S1 as (? & ? & ? & ?), S2 as (? & ? & ? & ?). repeat split; congruence. }
    intros e. rewrite Hm2, Hm1. destruct (decide (e = p)) as [->|Hep].
    + rewrite lookup_insert_eq, Hz. cbn. heir_cases.
    + rewrite lookup_insert_ne by done. destruct (decide (e = c)) as [->|Hec].
      * rewrite lookup_insert_eq, Hy. cbn. heir_cases.
      * rewrite lookup_insert_ne by done. destruct (devs m !! e); [|done]. cbn. heir_cases.
  - destruct (set_dev_spec m c y (set_parent None false) Hy) as (m1 & E1 & Hm1 & S1).
    exists m1. split; [done|]. split; [done|]. intros e. rewrite Hm1. destruct (decide (e = c)) as [->|Hec].
    + rewrite lookup_insert_eq, Hy. cbn. heir_cases.
    + rewrite lookup_insert_ne by done. destruct (devs m !! e); [|done]. cbn. heir_cases.
Qed.

Lemma heir_app x c l e z :
  c ∉ l -> (forall p, parent x = Some p -> p <> c /\ p ∉ l) -> heir x l e (heir x [c] e z) = heir x (c :: l) e z.
Proof.
  intros Hc Hp. unfold heir.
  assert (e ∈ [c] <-> e = c) as H1 by (rewrite elem_of_cons, elem_of_nil; tauto).
  assert (e ∈ c :: l <-> e = c \/ e ∈ l) as H2 by apply elem_of_cons.
  assert (parent x = Some e -> e <> c /\ e ∉ l) as H3 by apply Hp.
  destruct (decide (e ∈ [c])), (decide (e ∈ l)), (decide (e ∈ c :: l)), (decide (parent x = Some e)); try tauto.
  unfold set_children; cbn. by rewrite <- app_assoc.
Qed.

Lemma each_inherit x l m :
  NoDup l -> (forall c, c ∈ l -> live m c) ->
  (forall p, parent x = Some p -> live m p /\ p ∉ l) ->
  exists m', each l (inherit x) m = Done tt m' /\ same_lists m m' /\
    forall e, devs m' !! e = heir x l e <$> devs m !! e.
Proof.
  revert m. induction l as [|c l IH]; intros m Hnd Hl Hp.
  - exists m. split; [done|]. split; [done|]. intros e. destruct (devs m !! e) as [z|]; [|done].
    cbn. unfold heir. destruct (decide (e ∈ [])) as [Hn|_]; [by apply elem_of_nil in Hn|].
    destruct (decide (parent x = Some e)); [|done]. destruct z; unfold set_children; cbn. by rewrite app_nil_r.
  - apply NoDup_cons in Hnd as [Hc Hnd].
    destruct (inherit_ok x c m) as (m1 & E1 & S1 & L1); [apply Hl; by left| |].
    { intros p Hxp. destruct (Hp p Hxp). split; [done|set_solver]. }
    assert (forall e, live m e -> live m1 e) as Hlive.
    { intros e [z Hz]. unfold live. rewrite L1, Hz. by eexists. }
    destruct (IH m1) as (m2 & E2 & S2 & L2); [done| | |].
    { intros e He. apply Hlive, Hl. by right. }
    { intros p Hxp. destruct (Hp p Hxp). split; [by apply Hlive|set_solver]. }
    exists m2. split; [cbn; unfold mbind, M_bind; by rewrite E1|]. split.
    { destruct S1 as (? & ? & ? & ?), S2 as (? & ? & ? & ?). repeat split; congruence. }
    intros e. rewrite L2, L1. destruct (devs m !! e); [|done]. cbn. f_equal. apply heir_app; [done|].
    intros p0 Hxp. destruct (Hp p0 Hxp). set_solver.
Qed.

(** What [prof_dev_free] of [d], which is [x], leaves of another device. *)
Definition freed (d : Z) (x : prof_dev) (e : Z) (z : prof_dev) : prof_dev :=
  let z := heir x (child_list x) e z in
  let z := if decide (parent x = Some e) then set_children (list_del d) z else z in
  if decide (target x = Some e) then set_sources (list_del d) z else z.

Lemma link_del_ok (o : option Z) d f m :
  (forall p, o = Some p -> live m p) ->
  exists m', (match o with Some p => set_dev p (f (list_del d)) | None => ret tt end) m = Done tt m' /\
    same_lists m m' /\
    forall e, devs m' !! e = (fun z => if decide (o = Some e) then f (list_del d) z else z) <$> devs m !! e.
Proof.
  intros Ho. destruct o as [p|].
  - destruct (Ho p eq_refl) as [z Hz].
    destruct (set_dev_spec m p z (f (list_del d)) Hz) as (m1 & E1 & Hm1 & S1).
    exists m1. split; [done|]. split; [done|]. intros e. rewrite Hm1. destruct (decide (e = p)) as [->|He].
    + rewrite lookup_insert_eq, Hz. cbn. by rewrite decide_True.
    + rewrite lookup_insert_ne by done. destruct (devs m !! e); [|done]. cbn.
      by rewrite decide_False by congruence.
  - exists m. split; [done|]. split; [done|]. intros e. by destruct (devs m !! e).
Qed.

Lemma free_ok m d x :
  devs m !! d = Some x -> NoDup (child_list x) -> (forall c, c ∈ child_list x -> live m c) ->
  (forall p, parent x = Some p -> live m p /\ p ∉ child_list x) ->
  (forall t, target x = Some t -> live m t) ->
  exists m', prof_dev_free d m = Done tt m' /\
    prof_dev_list m' = prof_dev_list m /\ running m' = running m /\ polled m' = polled m /\
    timers m' = timers m ∖ {[d]} /\
    forall e, devs m' !! e = if decide (e = d) then None else freed d x e <$> devs m !! e.
Proof.
  intros Hx Hnd Hc Hp Ht. unfold prof_dev_free.
  set (m0 := Memory (devs m) (prof_dev_list m) (running m) (polled m) (timers m ∖ {[d]}) (log m ++ [Deinit d])).
  destruct (each_inherit x (child_list x) m0) as (m1 & E1 & (S11 & S12 & S13 & S14) & L1); [done..|].
  assert (forall e, live m e -> live m1 e) as Hl1.
  { intros e [z Hz]. unfold live. rewrite L1. change (devs m0) with (devs m). rewrite Hz. by eexists. }
  destruct (link_del_ok (parent x) d set_children m1) as (m2 & E2 & (S21 & S22 & S23 & S24) & L2).
  { intros p Hxp. apply Hl1. by apply Hp. }
  assert (forall e, live m e -> live m2 e) as Hl2.
  { intros e He. destruct (Hl1 e He) as [z Hz]. unfold live. rewrite L2, Hz. by eexists. }
  destruct (link_del_ok (target x) d set_sources m2) as (m3 & E3 & (S31 & S32 & S33 & S34) & L3).
  { intros t Hxt. apply Hl2. by apply Ht. }
  exists (set_devs (delete d) m3). unfold mbind, M_bind, tell, modify. rewrite (dev_ok _ _ _ Hx).
  change (Memory (devs (set_timers (fun s => s ∖ {[d]}) m)) (prof_dev_list (set_timers (fun s => s ∖ {[d]}) m))
    (running (set_timers (fun s => s ∖ {[d]}) m)) (polled (set_timers (fun s => s ∖ {[d]}) m))
    (timers (set_timers (fun s => s ∖ {[d]}) m)) (log (set_timers (fun s => s ∖ {[d]}) m) ++ [Deinit d])) with m0.
  rewrite E1, E2, E3. split; [done|].
  change (prof_dev_list m0) with (prof_dev_list m) in S11. change (running m0) with (running m) in S12.
  change (polled m0) with (polled m) in S13. change (timers m0) with (timers m ∖ {[d]}) in S14.
  cbn [set_devs devs prof_dev_list running polled timers].
  split; [congruence|]. split; [congruence|]. split; [congruence|]. split; [congruence|].
  intros e. case_decide as He.
  - subst e. apply lookup_delete_eq.
  - rewrite lookup_delete_ne by done. rewrite L3, L2, L1. change (devs m0) with (devs m).
    destruct (devs m !! e); done.
Qed.
