(* ===== verification/DevicePut.v ===== *)
(** * Devices: the last reference

    What the invariant says of a device whose last reference is put, and that the
    invariant holds when it is freed. *)

From S2P Require Import Prelude Device DeviceRun DeviceInv DeviceStep DeviceRefs.

Lemma freed_same d x e z :
  let y := freed d x e z in
  conf y = conf z /\ refcount y = refcount z /\ state y = state z /\ inflush y = inflush z /\
  inclose y = inclose z /\ target y = target z /\ event_dev y = event_dev z /\ rings y = rings z.
Proof. unfold freed, heir. cbn zeta. repeat case_decide; done. Qed.

Lemma freed_mono d x e z : dev_mono z (freed d x e z).
Proof.
  destruct (freed_same d x e z) as (H1 & H2 & H3 & H4 & H5 & H6 & H7 & H8). split; rewrite ?H1, ?H3, ?H5, ?H6, ?H7, ?H8; try done.
  intros i l l' Hl Hl'. by simplify_eq.
Qed.

Lemma freed_parent d x e z :
  parent (freed d x e z) = (if decide (e ∈ child_list x) then parent x else parent z) /\
  clone (freed d x e z) =
    (if decide (e ∈ child_list x) then match parent x with Some _ => clone x | None => false end else clone z).
Proof. unfold freed, heir. cbn zeta. repeat case_decide; done. Qed.

Lemma freed_children d x e z :
  child_list (freed d x e z) =
    (if decide (parent x = Some e) then list_del d (child_list z ++ child_list x) else child_list z).
Proof. unfold freed, heir. cbn zeta. repeat case_decide; done. Qed.

Lemma freed_sources d x e z :
  source_list (freed d x e z) = (if decide (target x = Some e) then list_del d (source_list z) else source_list z).
Proof. unfold freed, heir. cbn zeta. repeat case_decide; done. Qed.

Lemma elem_of_list_del c d l : c ∈ list_del d l <-> c <> d /\ c ∈ l.
Proof. unfold list_del. by rewrite list_elem_of_filter. Qed.

Lemma list_del_id d l : d ∉ l -> list_del d l = l.
Proof. intros Hd. apply filter_id. intros c Hc ->. done. Qed.

Section free.
Variable B : Z.
Variables (m m2 : memory) (g : ghost) (d : Z) (x : prof_dev).
Hypothesis Hinv : inv B m (pin d g).
Hypothesis Hx : devs m !! d = Some x.
Hypothesis Hok : ghost_ok g.
Hypothesis Hpins : targets_pinned m g.
Hypothesis Hlast : refcount x = 1.
Hypothesis Hlist : prof_dev_list m2 = prof_dev_list m.
Hypothesis Hrunning : running m2 = running m.
Hypothesis Hpolled : polled m2 = polled m.
Hypothesis Htimers : timers m2 = timers m ∖ {[d]}.
Hypothesis Hdevs : forall e, devs m2 !! e = if decide (e = d) then None else freed d x e <$> devs m !! e.

(** It is closed, and nobody runs on it. *)
Lemma last_closed :
  inclose x = true /\ pins g d = 0%nat /\ d ∉ closing g /\ d ∉ disabling g.
Proof using Hinv Hx Hok Hlast.
  clear - Hinv Hx Hok Hlast.
  pose proof (dev_refs (inv_dev Hinv d x Hx)) as Hr. rewrite pins_pin in Hr.
  destruct (inclose x); [|lia]. assert (pins g d = 0%nat) as Hp by lia. split; [done|]. split; [done|].
  split; intros Hd; specialize (Hok d); (assert (0 < pins g d)%nat; [apply Hok; set_solver|lia]).
Qed.

Lemma last_state :
  state x = STATE_EXIT /\ d ∉ prof_dev_list m /\ source_list x = [] /\ d ∉ timers m /\ forall i, (d, i) ∉ polled m.
Proof using Hinv Hx Hok Hpins Hlast.
  clear - Hinv Hx Hok Hpins Hlast.
  destruct last_closed as (Hc & Hp & Hcl & Hds). pose proof (inv_dev Hinv d x Hx) as Hd.
  destruct (dev_closed Hd Hc Hcl) as (Hs & Hl & Hsrc). split; [done|]. split; [done|].
  destruct (dev_quiet Hd) as [H1 H2]; [by rewrite Hs|done|]. split; [|done].
  destruct (source_list x) as [|s l] eqn:El; [done|]. exfalso.
  assert (s ∈ source_list x) as Hin by (rewrite El; left).
  apply (dev_sources Hd) in Hin as (y & Hy & Ht). pose proof (inv_dev Hinv s y Hy) as Hsd.
  pose proof (dev_refs Hsd) as Hr. pose proof (dev_refs_pos Hsd). rewrite (Hsrc s y Hy Ht) in Hr.
  destruct (dev_target Hsd d Ht) as (Hlt & _). rewrite pins_pin_ne in Hr by lia.
  pose proof (Hpins s y d Hy Ht). lia.
Qed.

Lemma freed_lookup e z : devs m2 !! e = Some z -> exists z0, devs m !! e = Some z0 /\ e <> d /\ z = freed d x e z0.
Proof using Hdevs.
  clear - Hdevs. rewrite Hdevs. case_decide; [done|]. intros (z0 & -> & Hz0)%fmap_Some. by exists z0.
Qed.

Lemma freed_live e : live m2 e <-> live m e /\ e <> d.
Proof using Hdevs.
  clear - Hdevs. unfold live. rewrite Hdevs. case_decide; [split; [by intros []|by intros []]|].
  rewrite fmap_is_Some. tauto.
Qed.

Lemma children_of e z0 c :
  devs m !! e = Some z0 -> (c ∈ child_list z0 <-> exists y, devs m !! c = Some y /\ parent y = Some e).
Proof using Hinv. clear - Hinv. intros Hz. apply (dev_children (inv_dev Hinv e z0 Hz)). Qed.

(** The parent of a device that stays. *)
Lemma freed_parent_cases e z0 p :
  devs m !! e = Some z0 -> e <> d -> parent (freed d x e z0) = Some p ->
  (parent z0 = Some d /\ parent x = Some p /\ clone (freed d x e z0) = clone x) \/
  (parent z0 = Some p /\ p <> d /\ clone (freed d x e z0) = clone z0).
Proof using Hinv Hx.
  clear - Hinv Hx. intros Hz He. destruct (freed_parent d x e z0) as [-> ->].
  destruct (decide (e ∈ child_list x)) as [Hin|Hin].
  - apply (children_of d x e Hx) in Hin as (y & Hy & Hp). simplify_eq. intros Hxp. left. by rewrite Hxp.
  - intros Hp. right. split; [done|]. split; [|done]. intros ->. apply Hin. apply (children_of d x e Hx). by exists z0.
Qed.

Lemma freed_children_iff e z0 c :
  devs m !! e = Some z0 -> e <> d ->
  c ∈ child_list (freed d x e z0) <-> exists y, devs m2 !! c = Some y /\ parent y = Some e.
Proof using Hinv Hx Hdevs.
  clear - Hinv Hx Hdevs. intros Hz He. rewrite freed_children.
  assert (forall c y, devs m !! c = Some y -> c <> d ->
    (parent (freed d x c y) = Some e <-> parent y = Some e \/ (parent y = Some d /\ parent x = Some e))) as Hpar.
  { intros c' y Hy Hc. split.
    - intros Hp. destruct (freed_parent_cases c' y e Hy Hc Hp) as [(? & ? & _)|(? & ? & _)]; auto.
    - destruct (freed_parent d x c' y) as [-> _]. intros [Hp|[Hp Hxp]].
      + rewrite decide_False; [done|]. intros Hin. apply (children_of d x c' Hx) in Hin as (? & ? & ?). congruence.
      + rewrite decide_True; [done|]. apply (children_of d x c' Hx). by exists y. }
  assert (forall c, c ∈ child_list z0 -> c = d -> parent x = Some e) as Hself.
  { intros c' Hc ->. apply (children_of e z0 d Hz) in Hc as (y & Hy & Hp). congruence. }
  split.
  - intros Hc. assert (c <> d /\ exists y, devs m !! c = Some y /\ (parent y = Some e \/ (parent y = Some d /\ parent x = Some e)))
      as (Hcd & y & Hy & Hp).
    { case_decide as Hxe.
      - apply elem_of_list_del in Hc as [Hcd [Hc|Hc]%elem_of_app]; (split; [done|]).
        + apply (children_of e z0 c Hz) in Hc as (y & Hy & Hp). exists y. auto.
        + apply (children_of d x c Hx) in Hc as (y & Hy & Hp). exists y. auto.
      - split; [intros ->; by apply Hxe, (Hself d)|]. apply (children_of e z0 c Hz) in Hc as (y & Hy & Hp). exists y. auto. }
    exists (freed d x c y). split; [by rewrite Hdevs, decide_False, Hy|]. by apply Hpar.
  - intros (z & Hc & Hp). destruct (freed_lookup c z Hc) as (y & Hy & Hcd & ->).
    apply Hpar in Hp; [|done..]. case_decide as Hxe.
    + apply elem_of_list_del. split; [done|]. apply elem_of_app. destruct Hp as [Hp|[Hp _]].
      * left. apply (children_of e z0 c Hz). by exists y.
      * right. apply (children_of d x c Hx). by exists y.
    + destruct Hp as [Hp|[_ Hp]]; [|done]. apply (children_of e z0 c Hz). by exists y.
Qed.

Lemma freed_sources_iff e z0 s :
  devs m !! e = Some z0 -> e <> d ->
  s ∈ source_list (freed d x e z0) <-> exists y, devs m2 !! s = Some y /\ target y = Some e.
Proof using Hinv Hx Hdevs.
  clear - Hinv Hx Hdevs. intros Hz He. rewrite freed_sources.
  pose proof (dev_sources (inv_dev Hinv e z0 Hz)) as Hs. split.
  - intros Hin. assert (s <> d /\ s ∈ source_list z0) as [Hsd Hin'].
    { case_decide as Ht; [by apply elem_of_list_del in Hin|]. split; [|done]. intros ->.
      apply Hs in Hin as (y & Hy & Hyt). congruence. }
    apply Hs in Hin' as (y & Hy & Ht). exists (freed d x s y). split; [by rewrite Hdevs, decide_False, Hy|].
    destruct (freed_same d x s y) as (_ & _ & _ & _ & _ & -> & _). done.
  - intros (z & Hsz & Ht). destruct (freed_lookup s z Hsz) as (y & Hy & Hsd & ->).
    destruct (freed_same d x s y) as (_ & _ & _ & _ & _ & E & _). rewrite E in Ht.
    case_decide; [apply elem_of_list_del; split; [done|]|]; apply Hs; by exists y.
Qed.

Lemma freed_nodup e z0 :
  devs m !! e = Some z0 -> e <> d -> NoDup (child_list (freed d x e z0)) /\ NoDup (source_list (freed d x e z0)).
Proof using Hinv Hx.
  clear - Hinv Hx. intros Hz He. rewrite freed_children, freed_sources.
  pose proof (dev_nodup (inv_dev Hinv e z0 Hz)) as [H1 H2]. pose proof (dev_nodup (inv_dev Hinv d x Hx)) as [H3 H4].
  split; case_decide; [|done| |done]; apply NoDup_filter; [|done].
  apply NoDup_app. split; [done|]. split; [|done]. intros c Hc Hc'.
  apply (children_of e z0 c Hz) in Hc as (y & Hy & Hp). apply (children_of d x c Hx) in Hc' as (y' & Hy' & Hp'). congruence.
Qed.

(** The family of a child that goes to the parent of [d]. *)
Lemma freed_family e z0 p y :
  devs m !! e = Some z0 -> e <> d -> parent (freed d x e z0) = Some p -> devs m2 !! p = Some y ->
  target z0 = None \/ target z0 = (if clone (freed d x e z0) then target y else Some p).
Proof using Hinv Hx Hok Hpins Hlast Hdevs.
  clear - Hinv Hx Hok Hpins Hlast Hdevs.
  intros Hz He Hp Hy. destruct (freed_lookup p y Hy) as (y0 & Hy0 & Hpd & ->).
  destruct (freed_same d x p y0) as (_ & _ & _ & _ & _ & -> & _).
  pose proof (inv_dev Hinv e z0 Hz) as Hed. pose proof (inv_dev Hinv d x Hx) as Hd.
  destruct (freed_parent_cases e z0 p Hz He Hp) as [(Hzp & Hxp & ->)|(Hzp & _ & ->)].
  - destruct last_state as (_ & _ & Hsrc & _).
    assert (target z0 <> Some d) as Hnt.
    { intros Ht. assert (e ∈ source_list x) as Hin by (apply (dev_sources Hd); by exists z0). rewrite Hsrc in Hin. set_solver. }
    destruct (dev_family Hed d x Hzp Hx) as [Hn|Hn]; [by left|].
    destruct (clone z0); [|done]. rewrite Hn. by apply (dev_family Hd p y0).
  - by apply (dev_family Hed p y0).
Qed.

Lemma inv_free : inv B m2 g.
Proof using All.
  destruct last_closed as (Hc & Hp & Hcl & Hds). destruct last_state as (Hs & Hl & Hsrc & Ht & Hpo).
  assert (targets_pinned m2 g) as Hpins2.
  { intros s z t Hz. destruct (freed_lookup s z Hz) as (z0 & Hz0 & _ & ->).
    destruct (freed_same d x s z0) as (_ & _ & _ & _ & _ & -> & _). by apply Hpins. }
  split.
  - intros e z Hz. destruct (freed_lookup e z Hz) as (z0 & Hz0 & He & ->).
    pose proof (inv_dev Hinv e z0 Hz0) as Hd. pose proof (freed_same d x e z0) as (E1 & E2 & E3 & E4 & E5 & E6 & _).
    split; rewrite ?E1, ?E2, ?E3, ?E4, ?E5, ?E6, ?Hlist, ?Hpolled, ?Htimers.
    + rewrite (dev_refs Hd). by rewrite pins_pin_ne.
    + apply (dev_refs_pos Hd).
    + apply (dev_bound Hd).
    + apply (dev_flushing Hd).
    + apply (dev_closing Hd).
    + apply (dev_disabling Hd).
    + intros H1 H2. destruct (dev_closed Hd H1 H2) as (? & ? & H3). split; [done|]. split; [done|].
      intros s y Hy. destruct (freed_lookup s y Hy) as (y0 & Hy0 & _ & ->).
      destruct (freed_same d x s y0) as (_ & _ & _ & _ & -> & -> & _). by apply (H3 s).
    + intros H1 H2. destruct (dev_quiet Hd H1 H2). split; [set_solver|done].
    + intros H1. pose proof (dev_no_timer Hd H1). set_solver.
    + apply (dev_no_pages Hd).
    + intros p H1. rewrite freed_live. destruct (freed_parent_cases e z0 p Hz0 He H1) as [(H2 & H3 & _)|(H2 & H3 & _)].
      * destruct (dev_parent Hd d H2) as [? _]. destruct (dev_parent (inv_dev Hinv d x Hx) p H3) as [? ?].
        split; [lia|]. split; [done|lia].
      * destruct (dev_parent Hd p H2). done.
    + intros t H1. destruct (dev_target Hd t H1) as (H2 & H3 & _). split; [done|]. split.
      * apply freed_live. split; [done|]. intros ->.
        assert (e ∈ source_list x) as Hin by (apply (dev_sources (inv_dev Hinv d x Hx)); by exists z0).
        rewrite Hsrc in Hin. set_solver.
      * apply (Hpins2 e (freed d x e z0)); [done|congruence].
    + intros p y. by apply freed_family.
    + intros c. by apply freed_children_iff.
    + intros s. by apply freed_sources_iff.
    + by apply freed_nodup.
  - intros e He. apply freed_live. split; [|intros ->; lia]. apply (inv_pinned Hinv).
    destruct (decide (e = d)) as [->|]; [lia|]. by rewrite pins_pin_ne.
  - done.
  - rewrite Hlist. destruct (inv_list Hinv) as [H1 H2]. split; [done|]. intros e He. apply freed_live.
    split; [by apply H2|]. by intros ->.
  - rewrite Hpolled. intros e i He. apply freed_live. split; [by eapply (inv_polled Hinv)|]. intros ->. by apply (Hpo i).
  - rewrite Htimers. intros e He. apply freed_live. split; [apply (inv_timers Hinv); set_solver|set_solver].
  - rewrite Hrunning. intros Hr. rewrite (inv_running Hinv Hr). f_equal.
    change (size (filter (fun p : Z * prof_dev => counted p.2) (devs m))) with (active m).
    rewrite <- (active_delete m d x Hx) by (intros [_ ?]; congruence).
    rewrite <- !size_dom. f_equal. apply leibniz_equiv. intros e. rewrite !elem_of_dom. unfold is_Some.
    setoid_rewrite map_lookup_filter_Some. split; intros (z & Hz & Hcz); cbn in *.
    + apply lookup_delete_Some in Hz as [He Hz]. exists (freed d x e z).
      split; [by rewrite Hdevs, decide_False, Hz|]. destruct (freed_same d x e z) as (E1 & _ & E3 & _).
      unfold counted. by rewrite E1, E3.
    + destruct (freed_lookup e z Hz) as (z0 & Hz0 & He & ->). exists z0. rewrite lookup_delete_ne by done.
      split; [done|]. destruct (freed_same d x e z0) as (E1 & _ & E3 & _). unfold counted in Hcz. by rewrite E1, E3 in Hcz.
Qed.

Lemma mono_free : mono m m2.
Proof using Hinv Hx Hdevs Hlist Hpolled Htimers.
  clear - Hinv Hx Hdevs Hlist Hpolled Htimers.
  assert (forall e z z', devs m !! e = Some z -> devs m2 !! e = Some z' -> e <> d /\ z' = freed d x e z) as Hl.
  { intros e z z' Hz Hz'. destruct (freed_lookup e z' Hz') as (z0 & Hz0 & He & ->). by simplify_eq. }
  assert (forall l : list Z, (forall c, c ∈ l -> live m c) -> filter (live m2) l = list_del d l) as Hf.
  { intros l Hlv. unfold list_del. induction l as [|c l IH]; [done|].
    rewrite !filter_cons. rewrite IH by (intros; apply Hlv; by right).
    destruct (decide (live m2 c)) as [H1|H1], (decide (c <> d)) as [H2|H2]; try done; rewrite freed_live in H1; [tauto|].
    exfalso. apply H1. split; [apply Hlv; by left|done]. }
  split.
  - intros e z Hz. destruct (freed_lookup e z Hz) as (z0 & Hz0 & _ & ->). exists z0. split; [done|]. apply freed_mono.
  - intros e z z' p Hz Hz' Hp Hlp. destruct (Hl e z z' Hz Hz') as [He ->]. destruct (freed_parent d x e z) as [-> ->].
    rewrite !decide_False; [done| |]; (intros Hin; apply (children_of d x e Hx) in Hin as (y & Hy & Hyp); apply freed_live in Hlp as [_ Hlp]; congruence).
  - intros e z z' Hz Hz'. destruct (Hl e z z' Hz Hz') as [He ->]. rewrite freed_children.
    assert (forall c, c ∈ child_list z -> live m c) as Hlv.
    { intros c Hc. apply (children_of e z c Hz) in Hc as (y & Hy & _). by exists y. }
    rewrite Hf by done. case_decide as Hxe.
    + unfold list_del. rewrite filter_app. by eexists.
    + exists []. rewrite app_nil_r. symmetry. apply list_del_id. intros Hd.
      apply (children_of e z d Hz) in Hd as (y & Hy & Hyp). congruence.
  - intros e z z' Hz Hz'. destruct (Hl e z z' Hz Hz') as [He ->]. rewrite freed_sources.
    pose proof (dev_sources (inv_dev Hinv e z Hz)) as Hs.
    rewrite Hf by (intros c Hc; apply Hs in Hc as (y & Hy & _); by exists y). case_decide as Hxe; [done|].
    symmetry. apply list_del_id. intros Hd. apply Hs in Hd as (y & Hy & Hyt). congruence.
  - by rewrite Hlist.
  - intros e z He _. left. by rewrite Hlist.
  - by rewrite Hpolled.
  - rewrite Htimers. set_solver.
Qed.
End free.

(** Putting a reference of the function that runs. *)
Lemma put_ok B m g d :
  inv B m (pin d g) -> ghost_ok g -> targets_pinned m g ->
  exists b m', prof_dev_put d m = Done b m' /\ inv B m' g /\ mono m m' /\
    (forall e, e <> d -> live m e -> live m' e) /\ steady m m' /\
    (forall x, devs m !! d = Some x -> inclose x = false -> b = false) /\ (b = false -> live m' d).
Proof.
  intros Hi Hok Hpins. destruct (inv_pinned Hi d) as [x Hx]; [rewrite pins_pin; lia|].
  pose proof (inv_dev Hi d x Hx) as Hd. pose proof (dev_refs Hd) as Hr. pose proof (dev_refs_pos Hd) as Hpos.
  rewrite pins_pin in Hr.
  set (y := set_refcount (fun k => k - 1) x). set (m1 := set_devs <[d := y]> m).
  assert (devs m1 = <[d := y]> (devs m)) as Hm1 by done.
  assert (devs m1 !! d = Some y) as Hy by (by rewrite Hm1, lookup_insert_eq).
  assert (same_links x y) as Hs by done.
  assert (prof_dev_put d m = (if refcount y =? 0 then prof_dev_free d;; ret true else ret false : M bool) m1) as Hput.
  { pose proof (set_dev_ok m d x (set_refcount (fun k => k - 1)) Hx) as E0. fold y in E0. fold m1 in E0.
    unfold prof_dev_put. unfold mbind at 1, M_bind at 1. rewrite E0.
    unfold mbind at 1, M_bind at 1. by rewrite (dev_ok _ _ _ Hy). }
  rewrite Hput. destruct (Z.eqb_spec (refcount y) 0) as [E|E].
  - change (refcount y) with (refcount x - 1) in E.
    destruct (free_ok m1 d y Hy) as (m2 & E2 & H1 & H2 & H3 & H4 & H5).
    + apply (dev_nodup Hd).
    + intros c Hc. apply (update_live m m1 d x y Hx Hm1). apply (dev_children Hd) in Hc as (z & Hz & _). by exists z.
    + intros p Hp. destruct (dev_parent Hd p Hp) as [Hlt Hl]. split; [by apply (update_live m m1 d x y Hx Hm1)|].
      intros Hc. apply (dev_children Hd) in Hc as (z & Hz & Hzp).
      destruct (dev_parent (inv_dev Hi p z Hz) d Hzp). lia.
    + intros t Ht. apply (update_live m m1 d x y Hx Hm1). by apply (dev_target Hd).
    + assert (forall e, devs m2 !! e = if decide (e = d) then None else freed d x e <$> devs m !! e) as H6.
      { intros e. rewrite H5. case_decide; [done|]. by rewrite Hm1, lookup_insert_ne. }
      exists true, m2. split; [unfold mbind, M_bind; by rewrite E2|].
      split; [eapply (inv_free B m m2 g d x); try done; lia|].
      split; [by eapply (mono_free B m m2 g d x)|].
      split; [intros e He Hle; by apply (freed_live m m2 d x)|]. split.
      2:{ split; [|done]. intros x' Hx' Hc. assert (x' = x) as -> by congruence. rewrite Hc in Hr. lia. }
      intros e z z' Hz Hz'. destruct (freed_lookup m m2 d x H6 e z' Hz') as (z0 & Hz0 & _ & ->).
      destruct (freed_same d x e z0) as (_ & _ & -> & _). congruence.
  - exists false, m1. split; [done|]. split; [|split].
    + eapply (inv_update B m m1 (pin d g) g d x y); try done.
      * apply agree_sym, agree_pin.
      * pose proof (own_inv_old _ _ _ _ _ Hi Hx) as []. split; try done.
        -- change (refcount y) with (refcount x - 1). change (inclose y) with (inclose x). destruct (inclose x); lia.
        -- change (refcount y) with (refcount x - 1) in *. lia.
      * intros Hrn. pose proof (active_update m m1 d x y Hx Hm1). pose proof (inv_running Hi Hrn).
        change (running m1) with (running m). unfold active in *. destruct (decide (counted x)), (decide (counted y)); tauto || lia.
    + eapply (mono_update B m m1 (pin d g) d x y); try done; [by left|].
      split; try done. intros i l l' H1 H2. change (rings y) with (rings x) in H2. by simplify_eq.
    + split; [intros e _ He; by apply (update_live m m1 d x y Hx Hm1)|]. split; [|split; [done|intros _; by exists y]].
      intros e z z' Hz Hz'. rewrite Hm1 in Hz'. destruct (decide (e = d)) as [->|Hne].
      * rewrite lookup_insert_eq in Hz'. injection Hz' as <-. assert (z = x) as -> by congruence. done.
      * rewrite lookup_insert_ne in Hz' by done. congruence.
Qed.
