(* ===== verification/DeviceLoop.v ===== *)
(** * Devices: loops over lists that change (monitor.h)

    [for_each_dev_get] holds a reference to the device of the turn, so the devices before
    and after it may be freed, and the children of a freed device may be appended to the
    list, while the loop runs ([for_each_total]). *)

From S2P Require Import Prelude Device DeviceRun DeviceInv DeviceStep DeviceRefs DevicePut.

Lemma successor_app d pre post : d ∉ pre -> successor d (pre ++ d :: post) = head post.
Proof.
  induction pre as [|c pre IH]; intros Hd; cbn.
  - by rewrite decide_True.
  - rewrite decide_False by set_solver. apply IH. set_solver.
Qed.

Definition owner (k : links) : option Z :=
  match k with AllDevs => None | ChildrenOf p => Some p | SourcesOf t => Some t end.
Definition list_of (k : links) (x : prof_dev) : list Z :=
  match k with AllDevs => [] | ChildrenOf _ => child_list x | SourcesOf _ => source_list x end.

Section lists.
Variable B : Z.
Variables (k : links) (o : Z).
Hypothesis Howner : owner k = Some o.

Lemma members_ok m x : devs m !! o = Some x -> members k m = Done (list_of k x) m.
Proof using Howner.
  intros Hx. destruct k; [done|injection Howner as ->|injection Howner as ->];
    unfold members, mbind, M_bind; by rewrite (dev_ok _ _ _ Hx).
Qed.

Lemma list_kin m m' x x' :
  kin m m' -> devs m !! o = Some x -> devs m' !! o = Some x' ->
  exists l, list_of k x' = filter (live m') (list_of k x) ++ l.
Proof using Howner.
  intros Hm Hx Hx'. destruct k; [done| |]; cbn.
  - by apply (kin_children Hm o x x').
  - exists []. rewrite app_nil_r. by apply (kin_sources Hm o x x').
Qed.

Lemma list_live m g x c : inv B m g -> devs m !! o = Some x -> c ∈ list_of k x -> live m c.
Proof using Howner.
  intros Hi Hx. pose proof (inv_dev Hi o x Hx) as Hd. destruct k; cbn; [by intros ?%elem_of_nil| |].
  - intros (y & Hy & _)%(dev_children Hd). by exists y.
  - intros (y & Hy & _)%(dev_sources Hd). by exists y.
Qed.

Lemma list_nodup m g x : inv B m g -> devs m !! o = Some x -> NoDup (list_of k x).
Proof using Howner.
  intros Hi Hx. destruct (dev_nodup (inv_dev Hi o x Hx)). destruct k; [constructor|done|done].
Qed.

Lemma list_next_ok m g x d pre post :
  inv B m g -> devs m !! o = Some x -> list_of k x = pre ++ d :: post ->
  list_next_entry k d m = Done (head post) m.
Proof using Howner.
  intros Hi Hx Hl. pose proof (list_nodup m g x Hi Hx) as Hnd. rewrite Hl in Hnd.
  assert (d ∈ list_of k x) as Hin by (rewrite Hl; set_solver).
  assert (d ∉ pre) as Hpre.
  { apply NoDup_app in Hnd as (_ & Hnd & _). intros H. apply (Hnd d H). by left. }
  destruct (list_live m g x d Hi Hx Hin) as [y Hy].
  pose proof (inv_dev Hi o x Hx) as Hd. unfold list_next_entry, mbind, M_bind. rewrite (dev_ok _ _ _ Hy).
  destruct k; [done| |]; injection Howner as ->; cbn in Hl, Hin.
  - apply (dev_children Hd) in Hin as (y' & Hy' & Hp). assert (y' = y) as -> by congruence. rewrite Hp. unfold members, mbind, M_bind.
    rewrite (dev_ok _ _ _ Hx). cbn. rewrite Hl, successor_app by done. destruct post; [|done]. cbn. by rewrite decide_True.
  - apply (dev_sources Hd) in Hin as (y' & Hy' & Hp). assert (y' = y) as -> by congruence. rewrite Hp. unfold members, mbind, M_bind.
    rewrite (dev_ok _ _ _ Hx). cbn. rewrite Hl, successor_app by done. destruct post; [|done]. cbn. by rewrite decide_True.
Qed.

(** Who is in a list of a held device forwards to held devices only. *)
Lemma list_held m g x c :
  inv B m g -> (0 < pins g o)%nat -> devs m !! o = Some x -> c ∈ list_of k x -> target_held m g c.
Proof using Howner.
  intros Hi Ho Hx Hin y t Hy Ht. pose proof (inv_dev Hi o x Hx) as Hd.
  destruct k; [by apply elem_of_nil in Hin| |]; cbn in Hin.
  - apply (dev_children Hd) in Hin as (y' & Hy' & Hp). assert (y' = y) as -> by congruence.
    destruct (dev_family (inv_dev Hi c y Hy) o x Hp Hx) as [Hf|Hf]; [congruence|].
    destruct (clone y); [|congruence]. apply (dev_target Hd t); [congruence|done].
  - apply (dev_sources Hd) in Hin as (y' & Hy' & Hp). assert (t = o) as -> by congruence. done.
Qed.

(** The relation of the states before and after a turn: [mono] or [kin]. *)
Variable T : memory -> memory -> Prop.
Hypothesis Ttrans : forall m1 m2 m3, T m1 m2 -> T m2 m3 -> T m1 m3.
Hypothesis Tkin : forall m m', T m m' -> kin m m'.
Hypothesis Tmono : forall m m', mono m m' -> steady m m' -> T m m'.

Variables (m0 : memory) (g : ghost) (x0 : prof_dev) (body : nat -> Z -> M unit) (R : Z -> memory -> Prop).
Hypothesis Hpin : (0 < pins g o)%nat.
Hypothesis Hx0 : devs m0 !! o = Some x0.
Hypothesis Hstable : forall c m m', T m m' -> R c m -> R c m'.
Hypothesis Hbody : forall m c x, T m0 m -> inv B m (pin c g) -> devs m !! o = Some x -> c ∈ list_of k x ->
  total (fun n => body n c) m (fun _ m' => inv B m' (pin c g) /\ T m m' /\ R c m').

(** Devices that are still ahead of the loop. *)
Definition ahead (m : memory) (pre : list Z) : nat := size (dom (devs m) ∖ list_to_set pre : gset Z).

Lemma ahead_less m m3 pre pre3 d :
  kin m m3 -> live m d -> d ∉ pre -> (live m3 d -> d ∈ pre3) ->
  (forall c, c ∈ pre -> live m3 c -> c ∈ pre3) -> (ahead m3 pre3 < ahead m pre)%nat.
Proof using.
  clear. intros Hm Hd Hpre Hd3 Hsub. unfold ahead. apply subset_size. split.
  - intros c. rewrite !elem_of_difference, !elem_of_list_to_set, !elem_of_dom. intros [Hc Hn].
    split; [by apply (kin_live m m3)|]. intros Hin. by apply Hn, Hsub.
  - intros Hsub'. specialize (Hsub' d). rewrite !elem_of_difference, !elem_of_list_to_set, !elem_of_dom in Hsub'.
    destruct Hsub' as [H1 H2]; [done|]. by apply H2, Hd3.
Qed.

Lemma loop_total sz : forall m x pre d post,
  (ahead m pre < sz)%nat -> T m0 m -> inv B m g -> devs m !! o = Some x -> list_of k x = pre ++ d :: post ->
  (forall c, c ∈ pre -> R c m) ->
  (forall c, c ∈ list_of k x0 -> live m c -> c ∈ list_of k x) ->
  exists N m', (inv B m' g /\ T m m' /\ forall c, c ∈ list_of k x0 -> live m' c -> R c m') /\
    forall n q, (N <= n)%nat -> (N <= q)%nat -> for_each_from q k (Some d) (body n) m = Done tt m'.
Proof using Howner Ttrans Tkin Tmono Hpin Hx0 Hstable Hbody.
  induction sz as [|sz IH]; intros m x pre d post Hsz Hm0 Hi Hx Hl HR Hinit; [lia|].
  assert (d ∈ list_of k x) as Hin by (rewrite Hl; set_solver).
  pose proof (list_nodup m g x Hi Hx) as Hnd. rewrite Hl in Hnd. apply NoDup_app in Hnd as (Hnd1 & Hnd2 & Hnd3).
  assert (d ∉ pre) as Hdpre by (intros H; apply (Hnd2 d H); by left).
  apply NoDup_cons in Hnd3 as [Hdpost _].
  destruct (get_ok B m g d Hi) as (m1 & E1 & Hi1 & Hm1 & Hlive1 & Hsame1).
  { by apply (list_live m g x). } { by apply (list_held m g x). }
  apply Tmono in Hm1.
  2:{ intros e z z' Hz Hz'. destruct (Hsame1 e z Hz) as (z1 & Hz1 & _ & _ & Hst & _). congruence. }
  destruct (Hsame1 o x Hx) as (x1 & Hx1 & Hs1 & _).
  assert (list_of k x1 = list_of k x) as Hl1.
  { destruct Hs1 as (_ & _ & _ & H1 & _ & H2). by destruct k. }
  assert (T m0 m1) as Hm01 by exact (Ttrans _ _ _ Hm0 Hm1).
  destruct (Hbody m1 d x1 Hm01 Hi1 Hx1) as (N2 & [] & m2 & (Hi2 & Hm2 & HRd) & E2); [by rewrite Hl1|].
  assert (forall e, (0 < pins g e)%nat -> (0 < pins (pin d g) e)%nat) as Hge.
  { intros e He. destruct (decide (e = d)) as [->|]; [rewrite pins_pin; lia|by rewrite pins_pin_ne]. }
  destruct (inv_pinned Hi2 o) as [x2 Hx2]; [by apply Hge|].
  assert (live m2 d) as Hlive2 by (apply (inv_pinned Hi2); rewrite pins_pin; lia).
  destruct (list_kin m1 m2 x1 x2 (Tkin _ _ Hm2) Hx1 Hx2) as [app2 Hl2].
  rewrite Hl1, Hl, filter_app, filter_cons_True in Hl2 by done. rewrite <- app_assoc in Hl2. cbn in Hl2.
  set (pre2 := filter (live m2) pre) in *. set (post2 := filter (live m2) post ++ app2) in *.
  pose proof (list_next_ok m2 (pin d g) x2 d pre2 post2 Hi2 Hx2 Hl2) as E3.
  pose proof (Ttrans _ _ _ Hm1 Hm2) as Hm12.
  assert (targets_pinned m2 g) as Htp.
  { apply (targets_pinned_kin m m2); [by apply Tkin|]. by apply (inv_targets_pinned B). }
  destruct (put_ok B m2 g d Hi2 (inv_ghost Hi) Htp) as (b & m3 & E4 & Hi3 & Hm3 & Hlive3 & Hst3 & _).
  apply Tmono in Hm3; [|done].
  pose proof (Ttrans _ _ _ Hm12 Hm3) as Hm03.
  destruct (inv_pinned Hi3 o Hpin) as [x3 Hx3].
  destruct (list_kin m2 m3 x2 x3 (Tkin _ _ Hm3) Hx2 Hx3) as [app3 Hl3].
  rewrite Hl2, filter_app in Hl3.
  assert (forall c, c ∈ list_of k x0 -> live m2 c -> c ∈ list_of k x2) as Hinit2.
  { intros c Hc Hlc. rewrite Hl2. apply elem_of_app.
    assert (c ∈ pre ++ d :: post) as Hc'.
    { rewrite <- Hl. apply Hinit; [done|]. apply (kin_live m m2); [by apply Tkin|done]. }
    apply elem_of_app in Hc' as [Hc'|[->|Hc']%elem_of_cons]; [left|right; by left|right; right].
    - by apply list_elem_of_filter.
    - apply elem_of_app. left. by apply list_elem_of_filter. }
  assert (forall c, c ∈ pre2 -> R c m3) as HRpre.
  { intros c Hc. apply list_elem_of_filter in Hc as [_ Hc]. apply (Hstable c m m3); [done|]. by apply HR. }
  assert (R d m3) as HRd3 by (by apply (Hstable d m2 m3)).
  assert (forall n q, (N2 <= n)%nat -> for_each_from (S q) k (Some d) (body n) m =
    for_each_from q k (head post2) (body n) m3) as Estep.
  { intros n q Hn. cbn. unfold mbind, M_bind. rewrite E1, E2 by done. rewrite E3, E4. done. }
  destruct post2 as [|e post2'] eqn:Ep.
  - exists (S N2), m3. split.
    + split; [done|]. split; [done|]. intros c Hc Hlc. specialize (Hinit2 c Hc (kin_live _ _ _ (Tkin _ _ Hm3) Hlc)).
      rewrite Hl2 in Hinit2. apply elem_of_app in Hinit2 as [Hc'|Hc']; [by apply HRpre|].
      apply elem_of_cons in Hc' as [->|Hc']; [done|by apply elem_of_nil in Hc'].
    + intros n [|q] Hn Hq; [lia|]. rewrite Estep by lia. by destruct q.
  - assert (live m3 e) as Hle.
    { apply Hlive3.
      - pose proof (list_nodup m2 _ x2 Hi2 Hx2) as Hnd. rewrite Hl2 in Hnd. apply NoDup_app in Hnd as (_ & _ & Hnd).
        apply NoDup_cons in Hnd as [Hnd _]. intros ->. apply Hnd. by left.
      - apply (list_live m2 (pin d g) x2 e Hi2 Hx2). rewrite Hl2. set_solver. }
    rewrite filter_cons in Hl3. rewrite (filter_cons_True _ e) in Hl3 by done.
    set (pre3 := filter (live m3) (pre2 ++ [d])).
    assert (list_of k x3 = pre3 ++ e :: (filter (live m3) post2' ++ app3)) as Hl3'.
    { rewrite Hl3. unfold pre3. rewrite filter_app, filter_cons, filter_nil. case_decide; rewrite <- !app_assoc; done. }
    destruct (IH m3 x3 pre3 e (filter (live m3) post2' ++ app3)) as (N & m' & (Hi' & Hm' & HR') & E').
    + assert (ahead m3 pre3 < ahead m pre)%nat; [|lia]. apply (ahead_less m m3 pre pre3 d); [by apply Tkin| |done| |].
      * by apply (list_live m g x).
      * intros H. apply list_elem_of_filter. split; [done|]. apply elem_of_app. right. by left.
      * intros c Hc Hlc. apply list_elem_of_filter. split; [done|]. apply elem_of_app. left.
        apply list_elem_of_filter. split; [|done]. apply (kin_live m2 m3); [by apply Tkin|done].
    + exact (Ttrans _ _ _ Hm0 Hm03).
    + done.
    + done.
    + done.
    + intros c Hc. apply list_elem_of_filter in Hc as [_ [Hc|Hc]%elem_of_app]; [by apply HRpre|].
      apply elem_of_cons in Hc as [->|Hc]; [done|by apply elem_of_nil in Hc].
    + intros c Hc Hlc. specialize (Hinit2 c Hc (kin_live _ _ _ (Tkin _ _ Hm3) Hlc)).
      destruct (list_kin m2 m3 x2 x3 (Tkin _ _ Hm3) Hx2 Hx3) as [l Hl']. rewrite Hl'. apply elem_of_app. left.
      by apply list_elem_of_filter.
    + exists (S (N2 `max` N))%nat, m'. split; [split; [done|split; [exact (Ttrans _ _ _ Hm03 Hm')|done]]|].
      intros n [|q] Hn Hq; [lia|]. rewrite Estep by lia. apply E'; lia.
Qed.

Lemma for_each_total :
  inv B m0 g ->
  total (fun n => for_each_dev_get n k (body n)) m0
    (fun _ m' => inv B m' g /\ T m0 m' /\ forall c, c ∈ list_of k x0 -> live m' c -> R c m').
Proof using Howner Ttrans Tkin Tmono Hpin Hx0 Hstable Hbody.
  intros Hi. unfold for_each_dev_get. eapply total_step; [by apply (members_ok m0 x0)|].
  destruct (list_of k x0) as [|d post] eqn:El.
  - apply (total_done _ _ _ tt m0).
    + by intros [|n].
    + split; [done|]. split; [apply Tmono; [by eapply mono_refl|intros ?????; congruence]|]. intros c Hc. by apply elem_of_nil in Hc.
  - destruct (loop_total (S (ahead m0 [])) m0 x0 [] d post) as (N & m' & HQ & E).
    + lia.
    + apply Tmono; [by eapply mono_refl|intros ?????; congruence].
    + done.
    + done.
    + done.
    + intros c Hc. by apply elem_of_nil in Hc.
    + done.
    + exists N, tt, m'. split; [by rewrite El in HQ|]. intros n Hn. by apply E.
Qed.
End lists.
