(* ===== verification/DeviceClose.v ===== *)
(** * Devices: every run ends, without using a freed device (monitor.c)

    [run_total]: from a state that satisfies the invariant, processing a record, flushing,
    disabling, closing and the interval timer of a device end, whatever the callbacks do,
    touch no freed device and keep the invariant - if the device that the target of a
    device forwards to is held whenever the device is. *)

From S2P Require Import Prelude Device DeviceRun DeviceInv DeviceStep DeviceRefs DevicePut DeviceLoop.

(** ** A measure of what is left to do *)

Definition count (P : Z -> prof_dev -> Prop) `{!forall d x, Decision (P d x)} (m : memory) : nat :=
  size (filter (fun p => P p.1 p.2) (devs m)).

Lemma count_dom P `{!forall d x, Decision (P d x)} m :
  count P m = size (dom (filter (fun p => P p.1 p.2) (devs m)) : gset Z).
Proof. by rewrite size_dom. Qed.

Lemma elem_of_count P `{!forall d x, Decision (P d x)} m d :
  d ∈ (dom (filter (fun p => P p.1 p.2) (devs m)) : gset Z) <-> exists x, devs m !! d = Some x /\ P d x.
Proof. rewrite elem_of_dom. unfold is_Some. by setoid_rewrite map_lookup_filter_Some. Qed.

Section counts.
Context (P Q : Z -> prof_dev -> Prop) `{!forall d x, Decision (P d x), !forall d x, Decision (Q d x)}.

Lemma count_le m m' :
  (forall d x', devs m' !! d = Some x' -> Q d x' -> exists x, devs m !! d = Some x /\ P d x) ->
  (count Q m' <= count P m)%nat.
Proof.
  intros Hsub. rewrite !count_dom. apply subseteq_size. intros d. rewrite !elem_of_count.
  intros (x' & Hx' & HQ). by apply (Hsub d x').
Qed.

Lemma count_lt m m' d x :
  (forall d x', devs m' !! d = Some x' -> Q d x' -> exists x, devs m !! d = Some x /\ P d x) ->
  devs m !! d = Some x -> P d x -> (forall x', devs m' !! d = Some x' -> ~ Q d x') ->
  (count Q m' < count P m)%nat.
Proof.
  intros Hsub Hx HP Hd. rewrite !count_dom. apply subset_size. split.
  - intros e. rewrite !elem_of_count. intros (x' & Hx' & HQ). by apply (Hsub e x').
  - intros Hs. specialize (Hs d). rewrite !elem_of_count in Hs. destruct Hs as (x' & Hx' & HQ); [by exists x|].
    by apply (Hd x').
Qed.
End counts.

Definition open_dev (d : Z) (x : prof_dev) : Prop := inclose x = false.
Definition active_dev (d : Z) (x : prof_dev) : Prop := state x = STATE_ACTIVE.
Definition unflushed (s : gset Z) (d : Z) (x : prof_dev) : Prop := d ∉ s.
#[export] Instance open_dec d x : Decision (open_dev d x).
Proof. unfold open_dev. apply _. Defined.
#[export] Instance active_dec d x : Decision (active_dev d x).
Proof. unfold active_dev. apply _. Defined.
#[export] Instance unflushed_dec s d x : Decision (unflushed s d x).
Proof. unfold unflushed. apply _. Defined.

(** Devices not closed, active, and not being flushed. *)
Definition potential (m : memory) (s : gset Z) : nat :=
  count open_dev m + count active_dev m + count (unflushed s) m.

Lemma mono_counts m m' :
  mono m m' -> (count open_dev m' <= count open_dev m)%nat /\ (count active_dev m' <= count active_dev m)%nat /\
    forall s s', s ⊆ s' -> (count (unflushed s') m' <= count (unflushed s) m)%nat.
Proof.
  intros Hm. split; [|split; [|intros s s' Hs]]; apply count_le; intros d x' Hx' HQ;
    destruct (mono_dev Hm d x' Hx') as (x & Hx & Hd); exists x; (split; [done|]).
  - unfold open_dev in *. destruct (inclose x) eqn:E; [|done]. by rewrite (stays_inclose _ _ Hd E) in HQ.
  - by apply (stays_inactive _ _ Hd).
  - unfold unflushed in *. set_solver.
Qed.

Lemma potential_mono m m' s s' : mono m m' -> s ⊆ s' -> (potential m' s' <= potential m s)%nat.
Proof.
  intros Hm Hs. destruct (mono_counts m m' Hm) as (H1 & H2 & H3). specialize (H3 s s' Hs).
  unfold potential. lia.
Qed.

Lemma potential_less m m' s s' d x :
  mono m m' -> s ⊆ s' -> devs m !! d = Some x ->
  (inclose x = false /\ forall x', devs m' !! d = Some x' -> inclose x' = true) \/
  (state x = STATE_ACTIVE /\ forall x', devs m' !! d = Some x' -> state x' <> STATE_ACTIVE) \/
  (d ∉ s /\ d ∈ s') ->
  (potential m' s' < potential m s)%nat.
Proof.
  intros Hm Hs Hx Hd. destruct (mono_counts m m' Hm) as (H1 & H2 & H3). specialize (H3 s s' Hs).
  unfold potential. destruct Hd as [[Hc Hd]|[[Hc Hd]|[Hc Hd]]].
  - assert (count open_dev m' < count open_dev m)%nat; [|lia]. apply (count_lt open_dev open_dev m m' d x); [|done|done|].
    + intros e x' Hx' HQ. destruct (mono_dev Hm e x' Hx') as (y & Hy & Hyd). exists y. split; [done|].
      unfold open_dev in *. destruct (inclose y) eqn:E; [|done]. by rewrite (stays_inclose _ _ Hyd E) in HQ.
    + intros x' Hx' HQ. unfold open_dev in HQ. by rewrite (Hd x' Hx') in HQ.
  - assert (count active_dev m' < count active_dev m)%nat; [|lia]. apply (count_lt active_dev active_dev m m' d x); [|done|done|done].
    intros e x' Hx' HQ. destruct (mono_dev Hm e x' Hx') as (y & Hy & Hyd). exists y. split; [done|].
    by apply (stays_inactive _ _ Hyd).
  - assert (count (unflushed s') m' < count (unflushed s) m)%nat; [|lia].
    apply (count_lt (unflushed s) (unflushed s') m m' d x); [|done|done|by intros ?? []].
    intros e x' Hx' HQ. destruct (mono_dev Hm e x' Hx') as (y & Hy & Hyd). exists y. split; [done|].
    unfold unflushed in *. set_solver.
Qed.

(** ** Steps that change no reference, link or state *)

Definition soft (x y : prof_dev) : Prop :=
  same_links x y /\ refcount y = refcount x /\ state y = state x /\ inflush y = inflush x /\ inclose y = inclose x.

Lemma inv_ext B m m' g :
  devs m' = devs m -> prof_dev_list m' = prof_dev_list m -> running m' = running m ->
  polled m' = polled m -> timers m' = timers m -> inv B m g -> inv B m' g.
Proof.
  intros E1 E2 E3 E4 E5 Hi.
  assert (forall d, live m' d <-> live m d) as Hl by (intros d; unfold live; by rewrite E1).
  split; rewrite ?E1, ?E2, ?E3, ?E4, ?E5.
  - intros d x Hx. pose proof (inv_dev Hi d x Hx) as [].
    split; rewrite ?E1, ?E2, ?E4, ?E5; try done.
    + intros p Hp. rewrite Hl. auto.
    + intros t Ht. rewrite Hl. auto.
  - intros d Hd. apply Hl. by apply (inv_pinned Hi).
  - apply (inv_ghost Hi).
  - destruct (inv_list Hi) as [H1 H2]. split; [done|]. intros d Hd. by apply Hl, H2.
  - intros d i Hd. apply Hl. by eapply (inv_polled Hi).
  - intros d Hd. apply Hl. by apply (inv_timers Hi).
  - apply (inv_running Hi).
Qed.

Lemma mono_ext B m m' g :
  devs m' = devs m -> prof_dev_list m' = prof_dev_list m -> polled m' = polled m -> timers m' = timers m ->
  inv B m g -> mono m m'.
Proof.
  intros E1 E2 E3 E4 Hi. pose proof (mono_refl B m g Hi) as [].
  assert (forall l : list Z, filter (live m') l = filter (live m) l) as Hf.
  { intros l. apply list_filter_iff. intros d. unfold live. by rewrite E1. }
  split; rewrite ?E1, ?E2, ?E3, ?E4; try done.
  - intros d x x' p H1 H2 H3 [z Hz]. rewrite E1 in Hz. eapply mono_parent; eauto. by exists z.
  - intros d x x' H1 H2. rewrite Hf. by eapply mono_children.
  - intros d x x' H1 H2. rewrite Hf. by eapply mono_sources.
Qed.

Lemma soft_ok B m g d x f :
  inv B m g -> devs m !! d = Some x -> soft x (f x) -> dev_mono x (f x) ->
  exists m', set_dev d f m = Done tt m' /\ inv B m' g /\ mono m m' /\ devs m' = <[d := f x]> (devs m).
Proof.
  intros Hi Hx (Hs & H1 & H2 & H3 & H4) Hd. destruct (set_dev_spec m d x f Hx) as (m' & E & Hm' & S1 & S2 & S3 & S4).
  assert (sublist (prof_dev_list m') (prof_dev_list m)) as Hl by (by rewrite S1).
  exists m'. split; [done|]. split; [|split; [|done]].
  - eapply (inv_update B m m' g g d x (f x)); try done.
    + congruence.
    + by rewrite S3.
    + by rewrite S4.
    + by apply (inv_targets_pinned B).
    + apply (inv_ghost Hi).
    + pose proof (own_inv_old _ _ _ _ _ Hi Hx) as []. split; rewrite ?H1, ?H2, ?H3, ?H4, ?S1, ?S3, ?S4; done.
    + intros Hr. rewrite S2 in *. pose proof (active_update m m' d x (f x) Hx Hm'). pose proof (inv_running Hi Hr).
      assert (counted (f x) <-> counted x) as Hc by (unfold counted; destruct Hs as (-> & _); by rewrite H2).
      unfold active in *. destruct (decide (counted x)), (decide (counted (f x))); tauto || lia.
  - eapply (mono_update B m m' g d x (f x)); try done; [by rewrite S3|by rewrite S4|]. intros e He. left. by rewrite S1.
Qed.

Lemma dev_mono_soft x y :
  conf y = conf x -> target y = target x -> inclose y = inclose x -> state y = state x ->
  (is_Some (event_dev x) -> is_Some (event_dev y)) -> rings y = rings x -> dev_mono x y.
Proof.
  intros H1 H2 H3 H4 H5 H6. split; rewrite ?H1, ?H2, ?H3, ?H4, ?H6; try done.
  intros i l l' Hl Hl'. by simplify_eq.
Qed.

Lemma each_total {A} (l : list A) (f : nat -> A -> M unit) m (I : memory -> Prop) :
  I m -> (forall a m, a ∈ l -> I m -> total (fun n => f n a) m (fun _ m' => I m')) ->
  total (fun n => each l (f n)) m (fun _ m' => I m').
Proof.
  revert m. induction l as [|a l IH]; intros m Hm Hf.
  - by apply total_ret.
  - apply (total_bind (fun n => f n a) (fun n _ => each l (f n))).
    eapply total_mono; [apply Hf; [by left|done]|]. intros [] m' Hm'. apply IH; [done|].
    intros b m1 Hb. apply Hf. by right.
Qed.
