(* ===== verification/DeviceTotal.v ===== *)
(** * Devices: the bodies of the functions, given the functions they call

    Each body ends and keeps the invariant, if the functions with a smaller measure do;
    then all of them do ([run_total]). *)

From S2P Require Import Prelude Device DeviceRun DeviceInv DeviceStep DeviceRefs DevicePut DeviceLoop DeviceClose.

Definition event_ok (m : memory) (g : ghost) (e : option event) : Prop :=
  match e with
  | Some (Forwarded s) => (0 < pins g s)%nat /\ exists x r, devs m !! s = Some x /\ event_dev x = Some r
  | _ => True
  end.

(** A device that is run on, and its target, are there. *)
Definition held (m : memory) (g : ghost) (d : Z) : Prop := live m d /\ target_held m g d.

Definition pre (f : function) (m : memory) (g : ghost) : Prop :=
  match f with
  | CloseDev d | DisableDev d | FlushDev d _ | IntervalDev d => held m g d
  | ProcessRecord d e _ => (0 < pins g d)%nat /\ event_ok m g (Some e)
  end.

Definition own_child_of (d : Z) (x : prof_dev) : Prop :=
  parent x = Some d /\ clone x = false /\ target x <> Some d.

Definition post (f : function) (m m' : memory) : Prop :=
  match f with
  | CloseDev d =>
      (forall x', devs m' !! d = Some x' -> inclose x' = true) /\
      (forall x, devs m !! d = Some x -> inclose x = false ->
        forall c y y', devs m !! c = Some y -> own_child_of d y -> devs m' !! c = Some y' -> inclose y' = true)
  | DisableDev d => forall x', devs m' !! d = Some x' -> state x' <> STATE_ACTIVE
  | _ => True
  end.

Section bodies.
Context `{Profilers}.
Variable B : Z.

(** How long the chains of targets and of sources can be. *)
Definition width : nat := 2 * Z.to_nat B + 4.

Definition rank (f : function) : nat :=
  match f with
  | CloseDev _ | DisableDev _ | FlushDev _ _ => 0
  | ProcessRecord d _ _ => S (Z.to_nat d)
  | IntervalDev d => Z.to_nat B + 2 + (Z.to_nat B - Z.to_nat d)
  end.

Definition measure (f : function) (m : memory) (g : ghost) : nat := potential m (flushing g) * width + rank f.

Definition good (g : ghost) (m m' : memory) : Prop := inv B m' g /\ mono m m'.

Lemma good_trans g m1 m2 m3 : mono m1 m2 -> good g m2 m3 -> good g m1 m3.
Proof. intros Hm [Hi Hm']. split; [done|]. exact (mono_trans _ _ _ Hm Hm'). Qed.

Lemma held_mono m m' g d : mono m m' -> live m' d -> held m g d -> held m' g d.
Proof. intros Hm Hl [_ Ht]. split; [done|]. by apply (target_held_mono m). Qed.

Lemma pinned_held m g d : inv B m g -> (0 < pins g d)%nat -> held m g d.
Proof. intros Hi Hp. split; [by apply (inv_pinned Hi)|]. by apply (pinned_target_held B). Qed.

Lemma event_ok_mono m m' g e : inv B m' g -> mono m m' -> event_ok m g e -> event_ok m' g e.
Proof.
  intros Hi Hm. destruct e as [[r|s]|]; [done| |done]. intros [Hs (x & r & Hx & Hr)]. split; [done|].
  destruct (inv_pinned Hi s Hs) as [x' Hx']. destruct (mono_dev Hm s x' Hx') as (x1 & Hx1 & Hd).
  assert (x1 = x) as -> by congruence. destruct (stays_event _ _ Hd) as [r' Hr']; [by rewrite Hr|]. by exists x', r'.
Qed.

Lemma soft_step {A} m g d x f (k : nat -> M A) (Q : A -> memory -> Prop) :
  inv B m g -> devs m !! d = Some x -> soft x (f x) -> dev_mono x (f x) ->
  (forall m', inv B m' g -> mono m m' -> devs m' !! d = Some (f x) -> (forall e, live m' e <-> live m e) ->
     total k m' Q) ->
  total (fun n => set_dev d f;; k n) m Q.
Proof.
  intros Hi Hx Hs Hd Hk. destruct (soft_ok B m g d x f Hi Hx Hs Hd) as (m' & E & Hi' & Hm' & Hdv).
  eapply total_step; [exact E|]. apply Hk; [done|done|by rewrite Hdv, lookup_insert_eq|].
  by eapply (update_live m m' d x (f x)).
Qed.

Lemma dev_step {A} m d x (k : nat -> prof_dev -> M A) (Q : A -> memory -> Prop) :
  devs m !! d = Some x -> total (fun n => k n x) m Q -> total (fun n => dev d ≫= k n) m Q.
Proof. intros Hx. apply total_step. by apply dev_ok. Qed.

Lemma tell_step {A} m g e (k : nat -> M A) (Q : A -> memory -> Prop) :
  inv B m g -> (forall m', inv B m' g -> mono m m' -> devs m' = devs m -> total k m' Q) ->
  total (fun n => tell e;; k n) m Q.
Proof.
  intros Hi Hk. eapply total_step; [done|]. apply Hk; [by eapply (inv_ext B m)|by eapply (mono_ext B m _ g)|done].
Qed.

(** The functions that are called, and how much is left when they are. *)
Variable w : nat.
Hypothesis Hcall : forall f m g, (measure f m g < w)%nat -> inv B m g -> pre f m g ->
  total (fun n => run n f) m (fun _ m' => good g m m' /\ post f m m').

(** ** Callbacks *)

Definition event_rank (e : option event) (d : Z) : nat :=
  match e with Some (Forwarded _) => S (Z.to_nat d) | _ => 0 end.

Lemma callback_total h d e ins m g :
  inv B m g -> (0 < pins g d)%nat -> event_ok m g e ->
  (potential m (flushing g) * width + event_rank e d < w)%nat ->
  total (fun n => callback (run n) h d e ins) m (fun _ => good g m).
Proof using Hcall.
  intros Hi Hp He Hw. unfold callback. eapply total_step; [done|].
  apply (each_total _ (fun n => run_act (run n) d e ins) m (good g m)).
  - split; [done|]. by eapply mono_refl.
  - intros a m1 _ [Hi1 Hm1]. pose proof (potential_mono m m1 (flushing g) (flushing g) Hm1 (reflexivity _)) as Hpot.
    assert (forall f, pre f m1 g -> (rank f <= event_rank e d)%nat -> total (fun n => run n f) m1 (fun _ => good g m)) as Hf.
    { intros f Hpre Hr. eapply total_mono; [apply (Hcall f m1 g); [|done|done]|].
      - unfold measure. nia.
      - intros [] m' [Hg _]. by apply (good_trans g m m1). }
    destruct a; cbn.
    + apply Hf; [by apply pinned_held|cbn; lia].
    + pose proof (event_ok_mono m m1 g e Hi1 Hm1 He). destruct e as [[r|s]|]; [by apply total_ret| |by apply total_ret].
      apply Hf; [by split|cbn; lia].
Qed.

(** ** Records *)

Lemma soft_sampled x f : soft x (set_sampled f x).
Proof. done. Qed.

Lemma count_event_total d m g x {A} (k : nat -> bool -> M A) Q :
  inv B m g -> devs m !! d = Some x ->
  (forall ok m' x', inv B m' g -> mono m m' -> devs m' !! d = Some x' -> total (fun n => k n ok) m' Q) ->
  total (fun n => count_event d ≫= k n) m Q.
Proof using.
  intros Hi Hx Hk. apply (total_bind (fun _ => count_event d) k). unfold count_event.
  apply (dev_step m d x _ _ Hx). destruct (exit_n (conf x) =? 0).
  - apply total_ret. eapply Hk; [done| |done]. by eapply mono_refl.
  - eapply (soft_step m g d x); [done|done|done|by apply dev_mono_soft|].
    intros m' Hi' Hm' Hx' _. apply total_ret. by eapply Hk.
Qed.

Lemma close_at_limit_total d m g :
  inv B m g -> (0 < pins g d)%nat -> (potential m (flushing g) * width < w)%nat ->
  total (fun n => close_at_limit (run n) d) m (fun _ => good g m).
Proof using Hcall.
  intros Hi Hp Hw. destruct (inv_pinned Hi d Hp) as [x Hx]. unfold close_at_limit. apply (dev_step m d x _ _ Hx).
  destruct (negb (exit_n (conf x) =? 0) && (exit_n (conf x) <=? sampled_events x)).
  - eapply total_mono; [apply (Hcall (CloseDev d) m g); [unfold measure; cbn [rank]; lia|done|by apply pinned_held]|].
    intros [] m' [Hg _]. done.
  - apply total_ret. split; [done|]. by eapply mono_refl.
Qed.

Lemma skip_sample_total d m g :
  inv B m g -> (0 < pins g d)%nat -> total (fun n : nat => skip_sample d) m (fun _ => good g m).
Proof using.
  intros Hi Hp. destruct (inv_pinned Hi d Hp) as [x Hx].
  destruct (soft_ok B m g d x (set_sampled (fun k => if 0 <? k then k - 1 else k)) Hi Hx) as (m' & E & Hi' & Hm' & _);
    [done|by apply dev_mono_soft|].
  by apply (total_done _ _ _ tt m').
Qed.

(** A run whose result is dropped. *)
Lemma total_drop {A C} (f : nat -> M A) (a : C) m (Q : memory -> Prop) :
  total f m (fun _ => Q) -> total (fun n => f n;; ret a) m (fun _ => Q).
Proof using. intros Hf. apply (total_bind f (fun _ _ => ret a)). eapply total_mono; [exact Hf|]. intros b m' HQ. by apply total_ret. Qed.

Lemma event_dev_step {A} m g s (k : nat -> record_dev -> M A) (Q : A -> memory -> Prop) :
  event_ok m g (Some (Forwarded s)) -> (forall r, total (fun n => k n r) m Q) ->
  total (fun n => event_dev_of s ≫= k n) m Q.
Proof using.
  intros [_ (x & r & Hx & Hr)] Hk. eapply total_step; [|apply (Hk r)].
  unfold event_dev_of, mbind, M_bind. rewrite (dev_ok _ _ _ Hx). by rewrite Hr.
Qed.

Lemma event_time_step {A} m g e (k : nat -> Z -> M A) (Q : A -> memory -> Prop) :
  event_ok m g (Some e) -> (forall t, total (fun n => k n t) m Q) -> total (fun n => event_time e ≫= k n) m Q.
Proof using.
  intros He Hk. destruct e as [r|s]; cbn.
  - eapply total_step; [done|apply Hk].
  - apply (total_bind (fun _ => event_time (Forwarded s)) k). cbn.
    apply (event_dev_step m g s (fun _ r => ret (dev_time r))); [done|]. intros r. apply total_ret, Hk.
Qed.

(** What the profiler is given, and what it does. *)
Lemma told_total d e ins m0 m g :
  inv B m g -> mono m0 m -> (0 < pins g d)%nat -> event_ok m g (Some e) ->
  (potential m (flushing g) * width + event_rank (Some e) d < w)%nat ->
  total (fun n => tell_sample d e ins;; callback (run n) (OnRecord RECORD_SAMPLE) d (Some e) ins;; ret false) m (fun _ => good g m0).
Proof using Hcall.
  intros Hi Hm0 Hp He Hw.
  assert (forall r, total (fun n => tell r;; callback (run n) (OnRecord RECORD_SAMPLE) d (Some e) ins;; ret false) m (fun _ => good g m0)) as Ht.
  { intros r. apply (tell_step m g r _ _ Hi). intros m' Hi' Hm' _. apply (total_bind (fun n => callback (run n) _ d (Some e) ins)).
    eapply total_mono; [apply (callback_total _ d (Some e) ins m' g); [done|done|by apply (event_ok_mono m m')|]|].
    - pose proof (potential_mono m m' (flushing g) (flushing g) Hm' (reflexivity _)). nia.
    - intros [] m2 Hg. apply total_ret, (good_trans g m0 m' m2); [exact (mono_trans _ _ _ Hm0 Hm')|done]. }
  destruct e as [r|s]; [apply Ht|].
  eapply total_ext; [|apply (event_dev_step m g s
    (fun n r => tell (SampledDev d r ins);; callback (run n) (OnRecord RECORD_SAMPLE) d (Some (Forwarded s)) ins;; ret false)); [done|intros r; apply Ht]].
  intros n. cbn. unfold mbind, M_bind. by destruct (event_dev_of s m).
Qed.

Lemma handle_sample_total d e ins m g :
  inv B m g -> (0 < pins g d)%nat -> event_ok m g (Some e) ->
  (potential m (flushing g) * width + event_rank (Some e) d < w)%nat ->
  total (fun n => handle_sample (run n) d e ins) m (fun _ => good g m).
Proof using Hcall.
  intros Hi Hp He Hw. destruct (inv_pinned Hi d Hp) as [x Hx]. unfold handle_sample.
  apply (dev_step m d x _ _ Hx). eapply total_step; [done|].
  destruct (negb _); [apply total_ret; split; [done|by eapply mono_refl]|].
  destruct (has_ftrace_filter (conf x) && (ftrace_filter d e ins m <=? 0)); [by apply total_drop, skip_sample_total|].
  destruct (sample_time (conf x)).
  - apply (total_bind (fun _ : nat => t ← event_time e; set_dev d (set_last_evtime t);; ret (t <? enabled_after x))).
    apply (event_time_step m g e); [done|]. intros t.
    eapply (soft_step m g d x); [done|done|done|by apply dev_mono_soft|]. intros m' Hi' Hm' _ _. apply total_ret.
    destruct (t <? enabled_after x).
    + apply total_drop. eapply total_mono; [by apply skip_sample_total|]. intros [] m2 Hg. by apply (good_trans g m m' m2).
    + apply told_total; [done|done|done|by apply (event_ok_mono m m')|].
      pose proof (potential_mono m m' (flushing g) (flushing g) Hm' (reflexivity _)). nia.
  - apply (total_bind (fun _ : nat => ret false)). apply total_ret. apply told_total; try done. by eapply mono_refl.
Qed.

Lemma sample_record_total d e ins m g :
  inv B m g -> (0 < pins g d)%nat -> event_ok m g (Some e) ->
  (potential m (flushing g) * width + event_rank (Some e) d < w)%nat ->
  total (fun n => sample_record (run n) d e ins) m (fun _ => good g m).
Proof using Hcall.
  intros Hi Hp He Hw. destruct (inv_pinned Hi d Hp) as [x Hx]. unfold sample_record.
  apply (count_event_total d m g x _ _ Hi Hx). intros ok m1 x1 Hi1 Hm1 Hx1.
  pose proof (potential_mono m m1 (flushing g) (flushing g) Hm1 (reflexivity _)) as Hpot1.
  apply (total_bind (fun n => if ok then handle_sample (run n) d e ins else ret false) (fun n (dropped : bool) => if dropped then ret tt else close_at_limit (run n) d)).
  assert (total (fun n => if ok then handle_sample (run n) d e ins else ret false) m1 (fun _ => good g m)) as Hs.
  { destruct ok.
    - eapply total_mono; [apply handle_sample_total; [done|done|by apply (event_ok_mono m m1)|nia]|].
      intros dropped m2 Hg. by apply (good_trans g m m1 m2).
    - by apply total_ret. }
  eapply total_mono; [exact Hs|]. intros [|] m2 [Hi2 Hm2]; [by apply total_ret|].
  pose proof (potential_mono m m2 (flushing g) (flushing g) Hm2 (reflexivity _)).
  eapply total_mono; [apply close_at_limit_total; [done|done|nia]|].
  intros [] m3 Hg. by apply (good_trans g m m2 m3).
Qed.

Lemma dispatch_total d e ins m g :
  inv B m g -> (0 < pins g d)%nat -> event_ok m g (Some e) ->
  (potential m (flushing g) * width + event_rank (Some e) d < w)%nat ->
  total (fun n => dispatch (run n) d e ins) m (fun _ => good g m).
Proof using Hcall.
  intros Hi Hp He Hw. destruct e as [r|s]; cbn; [|by apply total_drop, sample_record_total].
  assert (forall h, total (fun n => tell (Handled d r ins);; callback (run n) h d (Some (Plain r)) ins;; ret 0) m
    (fun _ => good g m)) as Hh.
  { intros h. apply (tell_step m g _ _ _ Hi). intros m' Hi' Hm' _. apply total_drop.
    pose proof (potential_mono m m' (flushing g) (flushing g) Hm' (reflexivity _)).
    eapply total_mono; [apply callback_total; [done|done|done|cbn in *; nia]|].
    intros [] m2 Hg. by apply (good_trans g m m' m2). }
  destruct (type r); try apply Hh.
  - by apply total_drop, sample_record_total.
  - apply total_ret. split; [done|]. by eapply mono_refl.
  - destruct (inv_pinned Hi d Hp) as [x Hx]. apply (count_event_total d m g x _ _ Hi Hx). intros ok m1 x1 Hi1 Hm1 Hx1.
    apply (total_bind (fun _ : nat => (if ok then tell (Unknown d r) else ret tt) : M unit) (fun n _ => close_at_limit (run n) d;; ret (-1))).
    assert (total (fun _ : nat => (if ok then tell (Unknown d r) else ret tt) : M unit) m1 (fun _ => good g m)) as Ht.
    { destruct ok; [|by apply total_ret]. eapply (total_done _ _ _ tt); [done|].
      split; [by eapply (inv_ext B m1)|]. apply (mono_trans m m1); [done|]. by eapply (mono_ext B m1 _ g). }
    eapply total_mono; [exact Ht|]. intros [] m2 [Hi2 Hm2]. apply total_drop.
    pose proof (potential_mono m m2 (flushing g) (flushing g) Hm2 (reflexivity _)).
    eapply total_mono; [apply close_at_limit_total; [done|done|cbn in *; nia]|].
    intros [] m3 Hg. by apply (good_trans g m m2 m3).
Qed.
End bodies.
