(* ===== verification/DeviceBodies.v ===== *)
(** * Devices: records, flushing, disabling, closing and the timer end *)

From S2P Require Import Prelude Device DeviceRun DeviceInv DeviceStep DeviceRefs DevicePut DeviceLoop DeviceClose DeviceTotal.

Section bodies.
Context `{Profilers}.
Variable B : Z.
Variable w : nat.
Hypothesis Hcall : forall f m g, (measure B f m g < w)%nat -> inv B m g -> pre f m g ->
  total (fun n => run n f) m (fun _ m' => good B g m m' /\ post f m m').

Abbreviation good := (good B).
Abbreviation width := (width B).

(** ** Records *)

Lemma forward_total d r ins m g x {A} (k : nat -> event * Z -> M A) Q :
  inv B m g -> (0 < pins g d)%nat -> devs m !! d = Some x ->
  (forall ins m', inv B m' g -> mono m m' -> event_ok m' g (Some (Forwarded d)) -> total (fun n => k n (Forwarded d, ins)) m' Q) ->
  total (fun n => perf_event_forward d r ins ≫= k n) m Q.
Proof using.
  intros Hi Hp Hx Hk. apply (total_bind (fun _ : nat => perf_event_forward d r ins) k). unfold perf_event_forward.
  apply (dev_step m d x _ _ Hx). eapply (soft_step B m g d x); [done|done|done|apply dev_mono_soft; try done; by eexists|].
  intros m' Hi' Hm' Hx' _. apply total_ret, Hk; [done|done|]. split; [done|]. by eexists _, _.
Qed.

Lemma process_total d e ins m g :
  inv B m g -> pre (ProcessRecord d e ins) m g -> (measure B (ProcessRecord d e ins) m g <= w)%nat ->
  total (fun n => perf_event_process_record (run n) d e ins) m (fun _ => good g m).
Proof using Hcall.
  intros Hi [Hp He] Hw. unfold measure in Hw. cbn [rank] in Hw. destruct (inv_pinned Hi d Hp) as [x Hx].
  pose proof (inv_dev Hi d x Hx) as Hd. pose proof (dev_bound Hd).
  unfold perf_event_process_record. apply (dev_step m d x _ _ Hx).
  destruct (target x) as [t|] eqn:Et.
  - destruct (dev_target Hd t Et) as (Hlt & [y Hy] & Hpt). pose proof (dev_bound (inv_dev Hi t y Hy)).
    assert (S (Z.to_nat t) < S (Z.to_nat d))%nat as Hrt by lia.
    destruct e as [r|s].
    + case_decide.
      * apply (forward_total d r ins m g x _ _ Hi Hp Hx). intros ins' m' Hi' Hm' He'.
        pose proof (potential_mono m m' (flushing g) (flushing g) Hm' (reflexivity _)).
        destruct (time r <? enabled_after x); [by apply total_ret|].
        eapply total_mono; [apply (dispatch_total B w Hcall t (Forwarded d) ins' m' g); [done|by apply Hpt|done|]|].
        -- cbn [event_rank]. nia.
        -- intros a m2 Hg. by apply (good_trans B g m m' m2).
      * apply (dispatch_total B w Hcall); [done|done|done|]. cbn [event_rank]. lia.
    + apply (dispatch_total B w Hcall); [done|by apply Hpt|done|]. cbn [event_rank]. lia.
  - destruct e as [r|s].
    + apply (dispatch_total B w Hcall); [done|done|done|]. cbn [event_rank]. lia.
    + destruct He as [Hs He]. apply (event_dev_step m g s); [by split|]. intros r.
      apply (dispatch_total B w Hcall); [done|done|done|]. cbn [event_rank]. lia.
Qed.

(** ** Ring buffers *)

Lemma handle_mmap_total i len : forall d x l m0 m g,
  (length l < len)%nat -> mono m0 m -> inv B m g -> (0 < pins g d)%nat ->
  devs m !! d = Some x -> rings x !! i = Some l ->
  (potential m0 (flushing g) * width + S (Z.to_nat d) < w)%nat ->
  exists N m', good g m0 m' /\ forall n q, (N <= n)%nat -> (N <= q)%nat -> handle_mmap (run n) q d i m = Done tt m'.
Proof using Hcall.
  induction len as [|len IH]; intros d x l m0 m g Hlen Hm0 Hi Hp Hx Hl Hw; [lia|].
  destruct l as [|r l].
  { exists 0%nat, m. split; [by split|]. intros n [|q] _ _; cbn; unfold mbind, M_bind; rewrite (dev_ok _ _ _ Hx); by rewrite Hl. }
  assert (dev_mono x (set_rings <[i := l]> x)) as Hxm.
  { split; try done; cbn; [by rewrite length_insert|]. intros j k k' Hj Hj'. destruct (decide (j = i)) as [->|Hne].
    - rewrite list_lookup_insert_eq in Hj' by (by eapply lookup_lt_Some). simplify_eq. cbn. lia.
    - rewrite list_lookup_insert_ne in Hj' by done. by simplify_eq. }
  destruct (soft_ok B m g d x (set_rings <[i := l]>) Hi Hx) as (m1 & E1 & Hi1 & Hm1 & Hdv); [done|done|].
  assert (devs m1 !! d = Some (set_rings <[i := l]> x)) as Hx1 by (by rewrite Hdv, lookup_insert_eq).
  assert (rings (set_rings <[i := l]> x) !! i = Some l) as Hl1.
  { cbn. apply list_lookup_insert_eq. by eapply lookup_lt_Some. }
  pose proof (mono_trans _ _ _ Hm0 Hm1) as Hm01.
  pose proof (potential_mono m0 m1 (flushing g) (flushing g) Hm01 (reflexivity _)).
  destruct (Hcall (ProcessRecord d (Plain r) (Z.of_nat i)) m1 g) as (N2 & [] & m2 & [[Hi2 Hm2] _] & E2).
  { unfold measure. cbn [rank]. nia. } { done. } { by split. }
  destruct (inv_pinned Hi2 d Hp) as [x2 Hx2]. destruct (mono_dev Hm2 d x2 Hx2) as (x1' & Hx1' & Hd2).
  assert (x1' = set_rings <[i := l]> x) as -> by congruence.
  destruct (rings x2 !! i) as [l2|] eqn:Hl2.
  2:{ apply lookup_ge_None in Hl2. apply lookup_lt_Some in Hl1. rewrite (same_rings _ _ Hd2) in Hl2. lia. }
  pose proof (rings_shrink _ _ Hd2 i l l2 Hl1 Hl2). cbn in Hlen.
  destruct (IH d x2 l2 m0 m2 g) as (N & m' & Hg & E); [lia| |done|done|done|done|done|].
  { exact (mono_trans _ _ _ Hm01 Hm2). }
  exists (S (N2 `max` N))%nat, m'. split; [done|]. intros n [|q] Hn Hq; [lia|].
  cbn. unfold mbind, M_bind. rewrite (dev_ok _ _ _ Hx), Hl, E1, E2 by lia. apply E; lia.
Qed.

Lemma ring_total d i x m0 m g :
  mono m0 m -> inv B m g -> (0 < pins g d)%nat -> devs m !! d = Some x -> (i < length (rings x))%nat ->
  (potential m0 (flushing g) * width + S (Z.to_nat d) < w)%nat ->
  total (fun n => perf_event_handle_mmap (run n) n d i) m (fun _ => good g m0).
Proof using Hcall.
  intros Hm0 Hi Hp Hx Hlt Hw. destruct (lookup_lt_is_Some_2 _ _ Hlt) as [l Hl].
  destruct (handle_mmap_total i (S (length l)) d x l m0 m g) as (N & m' & Hg & E); try done; [lia|].
  exists N, tt, m'. split; [done|]. intros n Hn. by apply E.
Qed.

Lemma handle_mmaps_total d m g :
  inv B m g -> (0 < pins g d)%nat -> (potential m (flushing g) * width + S (Z.to_nat d) < w)%nat ->
  total (fun n => handle_mmaps (run n) n d) m (fun _ => good g m).
Proof using Hcall.
  intros Hi Hp Hw. destruct (inv_pinned Hi d Hp) as [x Hx]. unfold handle_mmaps. apply (dev_step m d x _ _ Hx).
  destruct (pages (conf x) =? 0); [apply total_ret; split; [done|by eapply mono_refl]|].
  apply (each_total _ (fun n => perf_event_handle_mmap (run n) n d) m (good g m)).
  - split; [done|by eapply mono_refl].
  - intros i m1 Hin [Hi1 Hm1]. destruct (inv_pinned Hi1 d Hp) as [x1 Hx1].
    destruct (mono_dev Hm1 d x1 Hx1) as (x0 & Hx0 & Hd). assert (x0 = x) as -> by congruence.
    apply (ring_total d i x1 m m1 g); try done. rewrite (same_rings _ _ Hd). apply elem_of_seq in Hin. lia.
Qed.

(** ** The loops *)

Lemma sources_total d m g (f : Z -> function) (R : Z -> memory -> Prop) x :
  inv B m g -> (0 < pins g d)%nat -> devs m !! d = Some x ->
  (forall s m1, (s < B)%Z -> (0 <= d < s)%Z -> mono m m1 -> held m1 (pin s g) s ->
     pre (f s) m1 (pin s g) /\ (measure B (f s) m1 (pin s g) < w)%nat) ->
  (forall s m1 m2, post (f s) m1 m2 -> R s m2) ->
  (forall s m1 m2, mono m1 m2 -> R s m1 -> R s m2) ->
  total (fun n => for_each_dev_get n (SourcesOf d) (fun s => run n (f s))) m
    (fun _ m' => good g m m' /\ forall s, s ∈ source_list x -> live m' s -> R s m').
Proof using Hcall.
  intros Hi Hp Hx Hf Hpost HR.
  eapply total_mono; [apply (for_each_total B (SourcesOf d) d eq_refl mono mono_trans mono_kin (fun _ _ Hm _ => Hm) m g x (fun n s => run n (f s)) R Hp Hx HR);
    [|exact Hi]|].
  - intros m1 s x1 Hm1 Hi1 Hx1 Hin. cbn in Hin. apply (dev_sources (inv_dev Hi1 d x1 Hx1)) in Hin as (y & Hy & Ht).
    pose proof (inv_dev Hi1 s y Hy) as Hsd. destruct (dev_target Hsd d Ht) as (Hlt & _).
    pose proof (dev_bound Hsd). pose proof (dev_bound (inv_dev Hi1 d x1 Hx1)).
    destruct (Hf s m1) as [K1 K2]; [lia|lia|done| |].
    { apply (pinned_held B); [done|]. rewrite pins_pin. lia. }
    eapply total_mono; [by apply Hcall|]. intros [] m2 [[Hi2 Hm2] Hps]. split; [done|]. split; [done|]. by eapply Hpost.
  - intros [] m' (Hi' & Hm' & HRs). split; [by split|done].
Qed.

(** The children of [d] that it opened itself and that do not forward to it. *)
Lemma children_total d m g (f : Z -> function) (R : Z -> memory -> Prop) x :
  inv B m g -> (0 < pins g d)%nat -> devs m !! d = Some x ->
  (forall c m1, mono m m1 -> held m1 (pin c g) c -> pre (f c) m1 (pin c g) /\ (measure B (f c) m1 (pin c g) < w)%nat) ->
  (forall c m1 m2 y, mono m1 m2 -> live m2 d -> devs m1 !! c = Some y -> parent y = Some d ->
     (clone y = false -> target y <> Some d -> post (f c) m1 m2) -> R c m2) ->
  (forall c m1 m2, mono m1 m2 -> R c m1 -> R c m2) ->
  total (fun n => for_each_dev_get n (ChildrenOf d) (fun c =>
      own ← own_child d c; if (own : bool) then run n (f c) else ret tt)) m
    (fun _ m' => good g m m' /\ forall c, c ∈ child_list x -> live m' c -> R c m').
Proof using Hcall.
  intros Hi Hp Hx Hf Hpost HR.
  eapply total_mono; [apply (for_each_total B (ChildrenOf d) d eq_refl mono mono_trans mono_kin (fun _ _ Hm _ => Hm) m g x
    (fun n c => own ← own_child d c; if (own : bool) then run n (f c) else ret tt) R Hp Hx HR); [|exact Hi]|].
  - intros m1 c x1 Hm1 Hi1 Hx1 Hin. cbn in Hin. apply (dev_children (inv_dev Hi1 d x1 Hx1)) in Hin as (y & Hy & Hyp).
    assert (live m1 d) as Hld by (by exists x1).
    apply (total_bind (fun _ : nat => own_child d c) (fun n (own : bool) => if own then run n (f c) else ret tt)).
    unfold own_child. apply (dev_step m1 c y _ _ Hy). apply total_ret.
    destruct (negb (clone y) && bool_decide (target y <> Some d)) eqn:E.
    + destruct (Hf c m1) as [K1 K2]; [done| |].
      { apply (pinned_held B); [done|]. rewrite pins_pin. lia. }
      eapply total_mono; [by apply Hcall|]. intros [] m2 [[Hi2 Hm2] Hps]. split; [done|]. split; [done|].
      apply (Hpost c m1 m2 y); try done. apply (inv_pinned Hi2). destruct (decide (d = c)) as [->|Hne]; [rewrite pins_pin; lia|].
      by rewrite pins_pin_ne.
    + apply total_ret. split; [done|]. split; [by eapply mono_refl|].
      apply (Hpost c m1 m1 y); try done; [by eapply mono_refl|]. intros Hc Ht. rewrite Hc in E. cbn in E.
      apply bool_decide_eq_false in E. tauto.
  - intros [] m' (Hi' & Hm' & HRs). split; [by split|done].
Qed.
End bodies.
