(* ===== verification/DeviceSafe.v ===== *)
(** * Devices: what runs ends, uses no freed device and keeps the invariant *)

From S2P Require Import Prelude Device DeviceRun DeviceInv DeviceStep DeviceRefs DevicePut DeviceLoop DeviceClose DeviceTotal DeviceBodies.

Lemma ghost_ok_enter d g g' :
  ghost_ok g -> (0 < pins g d)%nat -> pins g' = pins g ->
  closing g' ∪ disabling g' ∪ flushing g' ⊆ {[d]} ∪ (closing g ∪ disabling g ∪ flushing g) -> ghost_ok g'.
Proof.
  intros Hg Hd Hp Hs e He. rewrite Hp. destruct (decide (e = d)) as [->|]; [done|]. apply Hg. set_solver.
Qed.

(** A step on [d] that leaves the lists. *)
Lemma ghost_step B m g g' d x f :
  inv B m g -> devs m !! d = Some x -> same_links x (f x) -> dev_mono x (f x) ->
  agree_off d g g' -> targets_pinned m g' -> ghost_ok g' -> own_inv m m g' d (f x) ->
  (counted (f x) <-> counted x) ->
  exists m', set_dev d f m = Done tt m' /\ inv B m' g' /\ mono m m' /\ devs m' = <[d := f x]> (devs m).
Proof.
  intros Hi Hx Hs Hd Ha Ht Hg Ho Hc. destruct (set_dev_spec m d x f Hx) as (m' & E & Hm' & S1 & S2 & S3 & S4).
  assert (sublist (prof_dev_list m') (prof_dev_list m)) as Hl by (by rewrite S1).
  exists m'. split; [done|]. split; [|split; [|done]].
  - eapply (inv_update B m m' g g' d x (f x)); try done.
    + apply (stays_inclose _ _ Hd).
    + by rewrite S3.
    + by rewrite S4.
    + destruct Ho. split; rewrite ?S1, ?S3, ?S4; done.
    + intros Hr. rewrite S2 in *. pose proof (active_update m m' d x (f x) Hx Hm'). pose proof (inv_running Hi Hr).
      unfold active in *. destruct (decide (counted x)), (decide (counted (f x))); tauto || lia.
  - eapply (mono_update B m m' g d x (f x)); try done; [by rewrite S3|by rewrite S4|].
    intros e He. left. by rewrite S1.
Qed.

(** A step on the lists, the loop's descriptors and the timers that [d] leaves. *)
Lemma lists_step B m m' g g' d x :
  (forall e, e ∈ prof_dev_list m -> e ∈ prof_dev_list m') ->
  inv B m g -> devs m !! d = Some x -> devs m' = devs m -> running m' = running m ->
  sublist (prof_dev_list m') (prof_dev_list m) -> polled m' ⊆ polled m -> timers m' ⊆ timers m ->
  agree_off d g g' -> targets_pinned m g' -> ghost_ok g' -> own_inv m m' g' d x ->
  inv B m' g' /\ mono m m'.
Proof.
  intros Hsame Hi Hx Hm Hr Hl Hp Ht Ha Htp Hg Ho.
  assert (devs m' = <[d := x]> (devs m)) as Hdv by (by rewrite insert_id).
  split.
  - eapply (inv_update B m m' g g' d x x); try done. intros Hrn. rewrite Hr in *. rewrite (inv_running Hi Hrn).
    unfold active. by rewrite Hm.
  - eapply (mono_update B m m' g d x x); try done. intros e He. left. by apply Hsame.
Qed.

(** The sequence of a body, in another bracketing. *)
Ltac reassociate :=
  unfold mbind, M_bind;
  repeat first [ reflexivity
               | match goal with |- context [match ?c ?m with Done _ _ => _ | _ => _ end] => destruct (c m) end ].

(** ** Entering and leaving *)

Lemma enter_flush_ok B m g d :
  inv B m g -> (0 < pins g d)%nat -> d ∉ flushing g ->
  exists m', set_dev d (set_inflush true) m = Done tt m' /\ inv B m' (enter_flush d g) /\ mono m m'.
Proof.
  intros Hi Hp Hd. destruct (inv_pinned Hi d Hp) as [x Hx].
  destruct (ghost_step B m g (enter_flush d g) d x (set_inflush true) Hi Hx) as (m' & E & Hi' & Hm' & _); try done.
  - by apply dev_mono_soft.
  - intros e He. cbn. set_solver.
  - exact (inv_targets_pinned B m g Hi).
  - apply (ghost_ok_enter d g); [apply (inv_ghost Hi)|done|done|cbn; set_solver].
  - pose proof (own_inv_old _ _ _ _ _ Hi Hx) as []. split; try done. cbn. symmetry. apply bool_decide_eq_true. set_solver.
  - by exists m'.
Qed.

Lemma leave_flush_ok B m g d :
  inv B m (enter_flush d g) -> (0 < pins g d)%nat -> d ∉ flushing g -> ghost_ok g ->
  exists m', set_dev d (set_inflush false) m = Done tt m' /\ inv B m' g /\ mono m m'.
Proof.
  intros Hi Hp Hd Hg. destruct (inv_pinned Hi d Hp) as [x Hx].
  destruct (ghost_step B m (enter_flush d g) g d x (set_inflush false) Hi Hx) as (m' & E & Hi' & Hm' & _); try done.
  - by apply dev_mono_soft.
  - intros e He. cbn. set_solver.
  - exact (inv_targets_pinned B m _ Hi).
  - pose proof (own_inv_old _ _ _ _ _ Hi Hx) as []. split; try done. cbn. symmetry. by apply bool_decide_eq_false.
  - by exists m'.
Qed.

Lemma enter_disable_ok B m g d x :
  inv B m g -> (0 < pins g d)%nat -> devs m !! d = Some x -> state x = STATE_ACTIVE ->
  exists m1, set_dev d (set_state STATE_INACTIVE) m = Done tt m1 /\
    let m2 := set_running (fun r => if normal (conf x) && (0 <? r) then r - 1 else r) m1 in
    inv B m2 (enter_disable d g) /\ mono m m2 /\ devs m2 !! d = Some (set_state STATE_INACTIVE x).
Proof.
  intros Hi Hp Hx Hst. pose proof (inv_dev Hi d x Hx) as Hd.
  destruct (set_dev_spec m d x (set_state STATE_INACTIVE) Hx) as (m1 & E & Hm1 & S1 & S2 & S3 & S4).
  exists m1. split; [done|]. intros m2. assert (devs m2 = <[d := set_state STATE_INACTIVE x]> (devs m)) as Hm2 by done.
  assert (prof_dev_list m2 = prof_dev_list m) as El by done. assert (polled m2 = polled m) as Ep by done.
  assert (timers m2 = timers m) as Et by done. split; [|split].
  - eapply (inv_update B m m2 g (enter_disable d g) d x (set_state STATE_INACTIVE x)); try done.
    + by rewrite El.
    + by rewrite Ep.
    + by rewrite Et.
    + intros e He. cbn. set_solver.
    + exact (inv_targets_pinned B m g Hi).
    + apply (ghost_ok_enter d g); [apply (inv_ghost Hi)|done|done|cbn; set_solver].
    + pose proof (own_inv_old _ _ _ _ _ Hi Hx) as []. split; rewrite ?El, ?Ep, ?Et; try done.
      * intros Hc Hn. destruct (own_closed Hc Hn). congruence.
      * intros _ Hn. cbn in Hn. set_solver.
    + intros Hr. pose proof (active_update m m2 d x _ Hx Hm2) as Ha.
      assert (running m2 = if normal (conf x) && (0 <? running m) then running m - 1 else running m) as Er by (cbn; by rewrite S2).
      assert (0 <= running m) as Hr0 by (rewrite Er in Hr; destruct (normal (conf x)), (Z.ltb_spec 0 (running m)); cbn in Hr; lia).
      pose proof (inv_running Hi Hr0) as Hrun. fold (active m) in Hrun. rewrite Er.
      rewrite (decide_False (P := counted (set_state STATE_INACTIVE x))) in Ha by (intros [_ ?]; done).
      destruct (normal (conf x)) eqn:En.
      * rewrite decide_True in Ha by (by split). cbn. destruct (Z.ltb_spec 0 (running m)); lia.
      * rewrite decide_False in Ha by (intros [? _]; congruence). cbn. lia.
  - eapply (mono_update B m m2 g d x (set_state STATE_INACTIVE x)); try done; [by rewrite El|by rewrite Ep|by rewrite Et|intros e He; left; by rewrite El|].
    split; try done; [by intros Hs; rewrite Hst in Hs|]. intros i l l' H1 H2. cbn in H2. by simplify_eq.
  - rewrite Hm2. apply lookup_insert_eq.
Qed.

Lemma leave_disable_ok B m g d x :
  inv B m (enter_disable d g) -> (0 < pins g d)%nat -> d ∉ disabling g -> ghost_ok g -> devs m !! d = Some x ->
  let m1 := set_timers (fun s => if interval (conf x) =? 0 then s else s ∖ {[d]}) m in
  let m2 := if pages (conf x) =? 0 then m1 else set_polled (filter (fun p => p.1 <> d)) m1 in
  inv B m2 g /\ mono m m2.
Proof.
  intros Hi Hp Hn Hg Hx m1 m2. pose proof (inv_dev Hi d x Hx) as Hd.
  assert (devs m2 = devs m) as Ed by (unfold m2; by destruct (pages (conf x) =? 0)).
  assert (running m2 = running m) as Er by (unfold m2; by destruct (pages (conf x) =? 0)).
  assert (prof_dev_list m2 = prof_dev_list m) as El by (unfold m2; by destruct (pages (conf x) =? 0)).
  assert (timers m2 = if interval (conf x) =? 0 then timers m else timers m ∖ {[d]}) as Et
    by (unfold m2; by destruct (pages (conf x) =? 0)).
  assert (polled m2 = if pages (conf x) =? 0 then polled m else filter (fun p => p.1 <> d) (polled m)) as Ep
    by (unfold m2; by destruct (pages (conf x) =? 0)).
  apply (lists_step B m m2 (enter_disable d g) g d x); try done.
  - intros e. by rewrite El.
  - by rewrite El.
  - rewrite Ep. destruct (pages (conf x) =? 0); [done|]. intros e. rewrite elem_of_filter. tauto.
  - rewrite Et. destruct (interval (conf x) =? 0); [done|]. set_solver.
  - intros e He. cbn. set_solver.
  - exact (inv_targets_pinned B m _ Hi).
  - pose proof (own_inv_old _ _ _ _ _ Hi Hx) as []. split; rewrite ?El; try done.
    intros _ _. split.
    + rewrite Et. destruct (Z.eqb_spec (interval (conf x)) 0) as [E|E]; [by apply (dev_no_timer Hd)|set_solver].
    + rewrite Ep. intros i. destruct (Z.eqb_spec (pages (conf x)) 0) as [E|E]; [by apply (dev_no_pages Hd)|].
        rewrite elem_of_filter. cbn. tauto.
Qed.

Lemma enter_close_ok B m g d x :
  inv B m g -> held m g d -> devs m !! d = Some x -> inclose x = false ->
  exists m1, set_dev d (set_inclose true) m = Done tt m1 /\ inv B m1 (enter_close d (pin d g)) /\ mono m m1 /\
    devs m1 !! d = Some (set_inclose true x).
Proof.
  intros Hi [_ Ht] Hx Hc. pose proof (inv_dev Hi d x Hx) as Hd.
  destruct (ghost_step B m g (enter_close d (pin d g)) d x (set_inclose true) Hi Hx) as (m1 & E & Hi1 & Hm1 & Hdv); try done.
  - split; try done. intros i l l' H1 H2. cbn in H2. by simplify_eq.
  - intros e He. cbn. rewrite decide_False by done. set_solver.
  - exact (targets_pinned_pin m g d (inv_targets_pinned B m g Hi) Ht).
  - apply (ghost_ok_enter d (pin d g)); [by apply ghost_ok_pin, (inv_ghost Hi)|rewrite pins_pin; lia|done|cbn; set_solver].
  - pose proof (own_inv_old _ _ _ _ _ Hi Hx) as []. split; try done.
    + cbn. rewrite decide_True by done. rewrite Hc in own_refs. lia.
    + intros _ Hn. cbn in Hn. set_solver.
  - exists m1. split; [done|]. split; [done|]. split; [done|]. rewrite Hdv. apply lookup_insert_eq.
Qed.

Lemma exit_ok B m g d x :
  inv B m g -> (0 < pins g d)%nat -> d ∈ closing g -> devs m !! d = Some x -> state x <> STATE_ACTIVE ->
  exists m1, set_dev d (set_state STATE_EXIT) m = Done tt m1 /\ let m2 := set_list (list_del d) m1 in
    inv B m2 g /\ mono m m2 /\ devs m2 !! d = Some (set_state STATE_EXIT x) /\ d ∉ prof_dev_list m2.
Proof.
  intros Hi Hp Hc Hx Hst. pose proof (inv_dev Hi d x Hx) as Hd.
  destruct (set_dev_spec m d x (set_state STATE_EXIT) Hx) as (m1 & E & Hm1 & S1 & S2 & S3 & S4).
  exists m1. split; [done|]. intros m2. assert (devs m2 = <[d := set_state STATE_EXIT x]> (devs m)) as Hm2 by done.
  assert (prof_dev_list m2 = list_del d (prof_dev_list m)) as El by (cbn; by rewrite S1).
  assert (polled m2 = polled m) as Ep by done. assert (timers m2 = timers m) as Et by done.
  assert (sublist (prof_dev_list m2) (prof_dev_list m)) as Hl by (rewrite El; apply sublist_filter).
  split; [|split; [|split]].
  - eapply (inv_update B m m2 g g d x (set_state STATE_EXIT x)); try done.
    + by rewrite Ep.
    + by rewrite Et.
    + exact (inv_targets_pinned B m g Hi).
    + apply (inv_ghost Hi).
    + pose proof (own_inv_old _ _ _ _ _ Hi Hx) as []. split; rewrite ?Ep, ?Et; try done.
      intros _. by apply own_quiet.
    + intros Hr. pose proof (active_update m m2 d x _ Hx Hm2) as Ha. assert (running m2 = running m) as Er by done.
      rewrite Er in *. pose proof (inv_running Hi Hr) as Hrun. fold (active m) in Hrun.
      rewrite (decide_False (P := counted x)) in Ha by (by intros [_ ?]).
      rewrite decide_False in Ha by (by intros [_ ?]). lia.
  - eapply (mono_update B m m2 g d x (set_state STATE_EXIT x)); try done; [by rewrite Ep|by rewrite Et| |].
    { intros e He. destruct (decide (e = d)) as [->|Hne].
      - right. split; [done|]. by apply (dev_closing Hd).
      - left. rewrite El. unfold list_del. by rewrite list_elem_of_filter. }
    split; try done. intros i l l' H1 H2. cbn in H2. by simplify_eq.
  - rewrite Hm2. apply lookup_insert_eq.
  - rewrite El. unfold list_del. rewrite list_elem_of_filter. tauto.
Qed.

Lemma leave_close_ok B m g d x :
  inv B m (enter_close d g) -> (0 < pins g d)%nat -> ghost_ok g -> devs m !! d = Some x ->
  state x = STATE_EXIT -> d ∉ prof_dev_list m ->
  (forall s y, devs m !! s = Some y -> target y = Some d -> inclose y = true) -> inv B m g.
Proof.
  intros Hi Hp Hg Hx Hst Hl Hs. pose proof (inv_dev Hi d x Hx) as Hd.
  apply (lists_step B m m (enter_close d g) g d x); try done.
  - intros e He. cbn. set_solver.
  - exact (inv_targets_pinned B m _ Hi).
  - pose proof (own_inv_old _ _ _ _ _ Hi Hx) as []. split; try done. intros Hc. apply own_closing. cbn. set_solver.
Qed.

Section bodies.
Context `{Profilers}.
Variable B : Z.
Variable w : nat.
Hypothesis Hcall : forall f m g, (measure B f m g < w)%nat -> inv B m g -> pre f m g ->
  total (fun n => run n f) m (fun _ m' => good B g m m' /\ post f m m').

Abbreviation good := (good B).
Abbreviation width := (width B).

Lemma budget (p' p r : nat) : (p' < p)%nat -> (p * width <= w)%nat -> (r < width)%nat -> (p' * width + r < w)%nat.
Proof using. intros H1 H2 H3. nia. Qed.

Lemma rank_width d r : (0 <= d < B)%Z -> (r <= S (Z.to_nat d))%nat -> (r < width)%nat.
Proof using. unfold DeviceTotal.width. lia. Qed.

(** The reference that a function takes and puts. *)
Lemma with_reference d m g {A} (k : nat -> M A) (Q : memory -> Prop) :
  inv B m g -> held m g d ->
  (forall m1 x x1, inv B m1 (pin d g) -> mono m m1 -> devs m !! d = Some x -> devs m1 !! d = Some x1 ->
     same_links x x1 -> state x1 = state x -> inclose x1 = inclose x -> inflush x1 = inflush x -> rings x1 = rings x ->
     total k m1 (fun _ m2 => good (pin d g) m m2 /\ forall b m3, prof_dev_put d m2 = Done b m3 -> good g m m3 -> mono m2 m3 -> Q m3)) ->
  total (fun n => prof_dev_get d;; (k n ≫= fun _ => prof_dev_put d;; ret tt)) m (fun _ => Q).
Proof using.
  intros Hi [[x Hx] Ht] Hk. destruct (get_ok B m g d Hi) as (m1 & E & Hi1 & Hm1 & _ & Hs); [by exists x|done|].
  eapply total_step; [exact E|]. destruct (Hs d x Hx) as (x1 & Hx1 & Hl & Hc & Hst & Hf & Hr).
  apply (total_bind k (fun _ _ => prof_dev_put d;; ret tt)).
  eapply total_mono; [by apply (Hk m1 x x1)|]. intros b m2 [[Hi2 Hm2] HQ].
  destruct (put_ok B m2 g d Hi2 (inv_ghost Hi)) as (b' & m3 & E3 & Hi3 & Hm3 & _).
  { apply (targets_pinned_mono m); [done|]. by apply (inv_targets_pinned B). }
  eapply total_step; [exact E3|]. apply total_ret, (HQ b' m3); [done| |done].
  split; [done|]. exact (mono_trans _ _ _ Hm2 Hm3).
Qed.

Lemma total_assoc {A C D} (f : nat -> M A) (h : nat -> A -> M C) (k : nat -> C -> M D) m Q :
  total (fun n => (f n ≫= h n) ≫= k n) m Q -> total (fun n => f n ≫= fun a => h n a ≫= k n) m Q.
Proof using.
  apply total_ext. intros n. unfold mbind, M_bind. by destruct (f n m).
Qed.

(** ** Flushing *)

Lemma flush_total d final m g :
  inv B m g -> held m g d -> (potential m (flushing g) * width <= w)%nat ->
  total (fun n => prof_dev_flush (run n) n d final) m (fun _ => good g m).
Proof using Hcall.
  intros Hi Hh Hw. pose proof Hh as [[x Hx] _]. unfold prof_dev_flush. apply (dev_step m d x _ _ Hx).
  pose proof (inv_dev Hi d x Hx) as Hd. pose proof (dev_bound Hd) as Hb.
  destruct (inflush x) eqn:Ef; [apply total_ret; split; [done|by eapply mono_refl]|].
  rewrite (dev_flushing Hd) in Ef. apply bool_decide_eq_false in Ef.
  eapply (total_ext (fun n => prof_dev_get d;; ((set_dev d (set_inflush true);; handle_mmaps (run n) n d;;
    (if final then ret tt else for_each_dev_get n (SourcesOf d) (fun s => run n (FlushDev s final)));;
    callback (run n) (OnFlush final) d None 0;; set_dev d (set_inflush false)) ≫= fun _ => prof_dev_put d;; ret tt))).
  { intros n. reassociate. }
  apply (with_reference d m g); [done|done|]. intros m1 x' x1 Hi1 Hm1 _ Hx1 _ _ _ _ _.
  assert (0 < pins (pin d g) d)%nat as Hp by (rewrite pins_pin; lia).
  destruct (enter_flush_ok B m1 (pin d g) d Hi1 Hp Ef) as (m2 & E2 & Hi2 & Hm2).
  pose proof (mono_trans _ _ _ Hm1 Hm2) as Hm02. set (g2 := enter_flush d (pin d g)) in *.
  assert (forall m', mono m m' -> potential m' (flushing g2) < potential m (flushing g))%nat as Hless.
  { intros m' Hm'. apply (potential_less m m' _ _ d x); [done|cbn; set_solver|done|]. right. right. cbn. set_solver. }
  eapply total_step; [exact E2|].
  apply (total_bind (fun n => handle_mmaps (run n) n d)).
  eapply total_mono; [apply (handle_mmaps_total B w Hcall d m2 g2 Hi2 Hp)|].
  { apply (budget _ _ _ (Hless m2 Hm02) Hw). by apply (rank_width d). }
  intros [] m3 [Hi3 Hm3]. pose proof (mono_trans _ _ _ Hm02 Hm3) as Hm03.
  apply (total_bind (fun n => if final then ret tt else for_each_dev_get n (SourcesOf d) (fun s => run n (FlushDev s final)))).
  apply (total_mono _ _ (fun _ => good g2 m)).
  { destruct final; [by apply total_ret|]. destruct (inv_pinned Hi3 d Hp) as [x3 Hx3].
    eapply total_mono; [apply (sources_total B w Hcall d m3 g2 (fun s => FlushDev s false) (fun _ _ => True) x3 Hi3 Hp Hx3); try done|].
    - intros s m4 _ _ Hm4 Hs. split; [done|]. pose proof (mono_trans _ _ _ Hm03 Hm4) as Hm04.
      apply (budget _ _ _ (Hless m4 Hm04) Hw). cbn [rank]. unfold DeviceTotal.width. lia.
    - intros [] m4 [Hg _]. by apply (good_trans B g2 m m3 m4). }
  intros [] m4 [Hi4 Hm4]. apply (total_bind (fun n => callback (run n) (OnFlush final) d None 0)).
  eapply total_mono; [apply (callback_total B w Hcall (OnFlush final) d None 0 m4 g2 Hi4 Hp); [done|]|].
  { apply (budget _ _ _ (Hless m4 Hm4) Hw). cbn. unfold DeviceTotal.width. lia. }
  intros [] m5 [Hi5 Hm5]. pose proof (mono_trans _ _ _ Hm4 Hm5) as Hm05.
  destruct (leave_flush_ok B m5 (pin d g) d Hi5 Hp Ef (inv_ghost Hi1)) as (m6 & E6 & Hi6 & Hm6).
  apply (total_done _ _ _ tt m6); [done|]. split; [|done]. split; [done|]. exact (mono_trans _ _ _ Hm05 Hm6).
Qed.

(** ** Disabling *)

Lemma disable_total d m g :
  inv B m g -> held m g d -> (potential m (flushing g) * width <= w)%nat ->
  total (fun n => prof_dev_disable (run n) n d) m (fun _ m' => good g m m' /\ post (DisableDev d) m m').
Proof using Hcall.
  intros Hi Hh Hw. pose proof Hh as [[x Hx] _]. unfold prof_dev_disable. apply (dev_step m d x _ _ Hx).
  pose proof (inv_dev Hi d x Hx) as Hd. pose proof (dev_bound Hd) as Hb.
  destruct (Z.ltb_spec (state_val (state x)) (state_val STATE_ACTIVE)) as [Hst|Hst].
  { apply total_ret. split; [split; [done|by eapply mono_refl]|]. intros x' Hx'.
    assert (x' = x) as -> by congruence. by intros E; rewrite E in Hst. }
  assert (state x = STATE_ACTIVE) as Est by (destruct (state x); cbn in Hst; lia || done).
  eapply (total_ext (fun n => prof_dev_get d;; ((set_dev d (set_state STATE_INACTIVE);;
    modify (set_running (fun r => if normal (conf x) && (0 <? r) then r - 1 else r));;
    for_each_dev_get n (SourcesOf d) (fun s => run n (DisableDev s));;
    for_each_dev_get n (ChildrenOf d) (fun c =>
      own ← own_child d c; if (own : bool) then run n (DisableDev c) else ret tt);;
    modify (set_timers (fun s => if interval (conf x) =? 0 then s else s ∖ {[d]}));;
    (if pages (conf x) =? 0 then ret tt
     else modify (set_polled (filter (fun p => p.1 <> d)));; run n (FlushDev d true))) ≫= fun _ => prof_dev_put d;; ret tt))).
  { intros n. reassociate. }
  apply (with_reference d m g); [done|done|]. intros m1 x' x1 Hi1 Hm1 Hx' Hx1 Hl1 Hst1 _ _ _.
  assert (x' = x) as -> by congruence. assert (conf x1 = conf x) as Ec by apply Hl1.
  assert (0 < pins (pin d g) d)%nat as Hp by (rewrite pins_pin; lia).
  destruct (enter_disable_ok B m1 (pin d g) d x1 Hi1 Hp Hx1) as (m2 & E2 & Hi3 & Hm3 & Hx3); [congruence|].
  rewrite Ec in Hi3, Hm3, Hx3.
  set (m3 := set_running (fun r => if normal (conf x) && (0 <? r) then r - 1 else r) m2) in *.
  pose proof (mono_trans _ _ _ Hm1 Hm3) as Hm03. set (g2 := enter_disable d (pin d g)) in *.
  assert (forall m', mono m3 m' -> forall y, devs m' !! d = Some y -> state y <> STATE_ACTIVE) as Hoff.
  { intros m' Hm' y Hy Hs. destruct (mono_dev Hm' d y Hy) as (y0 & Hy0 & Hd0). apply (stays_inactive _ _ Hd0) in Hs.
    rewrite Hx3 in Hy0. injection Hy0 as <-. done. }
  assert (forall m', mono m3 m' -> potential m' (flushing g) < potential m (flushing g))%nat as Hless.
  { intros m' Hm'. apply (potential_less m m' _ _ d x); [exact (mono_trans _ _ _ Hm03 Hm')|done|done|].
    right. left. split; [done|]. by apply Hoff. }
  eapply total_step; [exact E2|]. eapply (total_step _ _ _ tt m3); [done|].
  apply (total_bind (fun n => for_each_dev_get n (SourcesOf d) (fun s => run n (DisableDev s)))).
  eapply total_mono; [apply (sources_total B w Hcall d m3 g2 DisableDev (fun _ _ => True) _ Hi3 Hp Hx3); try done|].
  { intros s m4 _ _ Hm4 Hs. split; [done|]. apply (budget _ _ _ (Hless m4 Hm4) Hw). cbn. unfold DeviceTotal.width. lia. }
  intros [] m4 [[Hi4 Hm4] _]. destruct (inv_pinned Hi4 d Hp) as [x4 Hx4].
  apply (total_bind (fun n => for_each_dev_get n (ChildrenOf d) (fun c =>
      own ← own_child d c; if (own : bool) then run n (DisableDev c) else ret tt))).
  eapply total_mono; [apply (children_total B w Hcall d m4 g2 DisableDev (fun _ _ => True) x4 Hi4 Hp Hx4); try done|].
  { intros c m5 Hm5 Hc. split; [done|]. apply (budget _ _ _ (Hless m5 (mono_trans _ _ _ Hm4 Hm5)) Hw).
    cbn. unfold DeviceTotal.width. lia. }
  intros [] m5 [[Hi5 Hm5] _]. pose proof (mono_trans _ _ _ Hm4 Hm5) as Hm35. destruct (inv_pinned Hi5 d Hp) as [x5 Hx5].
  assert (conf x5 = conf x) as Ec5.
  { destruct (mono_dev (mono_trans _ _ _ Hm03 Hm35) d x5 Hx5) as (x0 & Hx0 & Hd0). rewrite (same_conf _ _ Hd0). congruence. }
  assert (d ∉ disabling (pin d g)) as Hn by (intros Hn; by apply (dev_disabling Hd) in Hn).
  pose proof (leave_disable_ok B m5 (pin d g) d x5 Hi5 Hp Hn (inv_ghost Hi1) Hx5) as Hleave.
  cbn zeta in Hleave. rewrite Ec5 in Hleave. eapply total_step; [done|].
  assert (forall m6, good (pin d g) m5 m6 -> good (pin d g) m m6 /\ forall b m7, prof_dev_put d m6 = Done b m7 ->
    good g m m7 -> mono m6 m7 -> good g m m7 /\ post (DisableDev d) m m7) as Hend.
  { intros m6 [Hi6 Hm6]. split; [split; [done|]|].
    - exact (mono_trans _ _ _ (mono_trans _ _ _ Hm03 Hm35) Hm6).
    - intros b m7 _ Hg Hm7. split; [done|]. exact (Hoff m7 (mono_trans _ _ _ (mono_trans _ _ _ Hm35 Hm6) Hm7)). }
  destruct (pages (conf x) =? 0).
  - apply total_ret, Hend. exact Hleave.
  - eapply total_step; [done|]. destruct Hleave as [Hi6 Hm6].
    eapply total_mono; [apply (Hcall (FlushDev d true) _ (pin d g)); [|exact Hi6|by apply (pinned_held B)]|].
    + apply (budget _ _ _ (Hless _ (mono_trans _ _ _ Hm35 Hm6)) Hw). cbn. unfold DeviceTotal.width. lia.
    + intros [] m7 [[Hi7 Hm7] _]. apply Hend. split; [done|]. exact (mono_trans _ _ _ Hm6 Hm7).
Qed.

(** ** Closing *)

(** A child of [d] that is its own and stays is closed. *)
Definition handled (d c : Z) (m : memory) : Prop :=
  live m d -> forall y, devs m !! c = Some y ->
    parent y = Some d /\ (clone y = false -> target y <> Some d -> inclose y = true).

Lemma handled_mono d c m m' : mono m m' -> handled d c m -> handled d c m'.
Proof using.
  intros Hm Hh Hl y' Hy'. destruct (mono_dev Hm c y' Hy') as (y & Hy & Hd).
  destruct (Hh (mono_live _ _ _ Hm Hl) y Hy) as [Hp Hc].
  destruct (mono_parent Hm c y y' d Hy Hy' Hp Hl) as [-> ->]. split; [done|].
  rewrite (same_target _ _ Hd). intros H1 H2. by apply (stays_inclose _ _ Hd), Hc.
Qed.

Lemma handled_own m m1 d c y y' :
  mono m m1 -> live m1 d -> devs m !! c = Some y -> own_child_of d y -> handled d c m1 ->
  devs m1 !! c = Some y' -> inclose y' = true.
Proof using.
  intros Hm Hl Hy (Hp & Hc & Ht) Hh Hy'. destruct (mono_dev Hm c y' Hy') as (y0 & Hy0 & Hd).
  assert (y0 = y) as -> by congruence. destruct (mono_parent Hm c y y' d Hy Hy' Hp Hl) as [_ Hc'].
  destruct (Hh Hl y' Hy') as [_ Hin]. apply Hin; [congruence|]. by rewrite (same_target _ _ Hd).
Qed.

(** The part of [prof_dev_close] up to the loop over the sources. *)
Lemma close_exit_total d m g x :
  inv B m g -> held m g d -> devs m !! d = Some x -> inclose x = false -> (potential m (flushing g) * width <= w)%nat ->
  total (fun n => set_dev d (set_inclose true);; run n (DisableDev d);; set_dev d (set_state STATE_EXIT);;
    modify (set_list (list_del d))) m
    (fun _ m' => inv B m' (enter_close d (pin d g)) /\ mono m m' /\ d ∉ prof_dev_list m' /\
       exists y, devs m' !! d = Some y /\ state y = STATE_EXIT /\ inclose y = true).
Proof using Hcall.
  intros Hi Hh Hx Hc Hw. pose proof (dev_bound (inv_dev Hi d x Hx)) as Hb.
  destruct (enter_close_ok B m g d x Hi Hh Hx Hc) as (m1 & E1 & Hi1 & Hm1 & Hx1).
  set (g1 := enter_close d (pin d g)) in *. assert (0 < pins g1 d)%nat as Hp by (cbn; rewrite decide_True; lia).
  eapply total_step; [exact E1|]. apply (total_bind (fun n => run n (DisableDev d))).
  eapply total_mono; [apply (Hcall (DisableDev d) m1 g1); [|done|by apply (pinned_held B)]|].
  { apply (budget _ (potential m (flushing g)) _); [|done|cbn; unfold DeviceTotal.width; lia].
    apply (potential_less m m1 _ _ d x); [done|done|done|]. left. split; [done|]. intros x' Hx'. congruence || by simplify_eq. }
  intros [] m2 [[Hi2 Hm2] Hst]. destruct (inv_pinned Hi2 d Hp) as [x2 Hx2].
  destruct (exit_ok B m2 g1 d x2 Hi2 Hp) as (m3 & E3 & Hi3 & Hm3 & Hx3 & Hl3); [cbn; set_solver|done|by apply Hst|].
  eapply total_step; [exact E3|]. eapply (total_done _ _ _ tt); [done|]. split; [exact Hi3|].
  split; [exact (mono_trans _ _ _ (mono_trans _ _ _ Hm1 Hm2) Hm3)|]. split; [done|]. eexists. split; [done|]. split; [done|].
  cbn. destruct (mono_dev Hm2 d x2 Hx2) as (x1' & Hx1' & Hd). apply (stays_inclose _ _ Hd).
  assert (x1' = set_inclose true x) as -> by congruence. done.
Qed.

(** The loops over the sources and the children. *)
Lemma close_rest_total d m0 m g y :
  mono m0 m -> ghost_ok g -> inv B m (enter_close d (pin d g)) -> d ∉ prof_dev_list m ->
  devs m !! d = Some y -> state y = STATE_EXIT -> inclose y = true ->
  (forall m', mono m m' -> (potential m' (flushing g) < potential m0 (flushing g))%nat) ->
  (potential m0 (flushing g) * width <= w)%nat ->
  total (fun n => for_each_dev_get n (SourcesOf d) (fun s => run n (CloseDev s));;
    for_each_dev_get n (ChildrenOf d) (fun c =>
      own ← own_child d c; if (own : bool) then run n (CloseDev c) else ret tt)) m
    (fun _ m' => good (pin d g) m m' /\ forall c, c ∈ child_list y -> live m' c -> handled d c m').
Proof using Hcall.
  intros Hm0 Hg Hi Hl Hy Hst Hc Hless Hw. set (g1 := enter_close d (pin d g)) in *.
  assert (0 < pins g1 d)%nat as Hp by (cbn; rewrite decide_True; lia).
  apply (total_bind (fun n => for_each_dev_get n (SourcesOf d) (fun s => run n (CloseDev s)))).
  eapply total_mono; [apply (sources_total B w Hcall d m g1 CloseDev
    (fun s m' => forall z, devs m' !! s = Some z -> inclose z = true) y Hi Hp Hy)|].
  { intros s m1 _ _ Hm1 Hs. split; [done|]. apply (budget _ _ _ (Hless m1 Hm1) Hw). cbn. unfold DeviceTotal.width. lia. }
  { intros s m1 m2 [Hps _]. exact Hps. }
  { intros s m1 m2 Hm HR z Hz. destruct (mono_dev Hm s z Hz) as (z0 & Hz0 & Hd). apply (stays_inclose _ _ Hd). by apply HR. }
  intros [] m1 [[Hi1 Hm1] HR]. destruct (inv_pinned Hi1 d Hp) as [y1 Hy1].
  destruct (mono_dev Hm1 d y1 Hy1) as (y' & Hy' & Hd1). assert (y' = y) as -> by congruence.
  assert (0 < pins (pin d g) d)%nat as Hp1 by (rewrite pins_pin; lia).
  assert (inv B m1 (pin d g)) as Hi2.
  { apply (leave_close_ok B m1 (pin d g) d y1 Hi1 Hp1); [by apply ghost_ok_pin|done|by apply (stays_exit _ _ Hd1)| |].
    - intros Hin. apply Hl. by eapply elem_of_sublist; [|apply (mono_list Hm1)].
    - intros s z Hz Ht. apply (HR s); [|by exists z|done].
      assert (s ∈ source_list y1) as Hin by (apply (dev_sources (inv_dev Hi1 d y1 Hy1)); by exists z).
      rewrite (mono_sources Hm1 d y y1 Hy Hy1) in Hin. by apply list_elem_of_filter in Hin as [_ ?]. }
  eapply total_mono; [apply (children_total B w Hcall d m1 (pin d g) CloseDev (handled d) y1 Hi2 Hp1 Hy1)|].
  - intros c m2 Hm2 Hh. split; [done|]. apply (budget _ _ _ (Hless m2 (mono_trans _ _ _ Hm1 Hm2)) Hw). cbn. unfold DeviceTotal.width. lia.
  - intros c m2 m3 z Hm Hld Hz Hzp Hps Hld' z' Hz'. destruct (mono_parent Hm c z z' d Hz Hz' Hzp Hld) as [-> ->].
    split; [done|]. destruct (mono_dev Hm c z' Hz') as (z0 & Hz0 & Hd0). assert (z0 = z) as -> by congruence.
    rewrite (same_target _ _ Hd0). intros H1 H2. destruct (Hps H1 H2) as [Hcl _]. by apply Hcl.
  - intros c m2 m3. apply handled_mono.
  - intros [] m2 [[Hi3 Hm2] HRc]. split; [split; [done|exact (mono_trans _ _ _ Hm1 Hm2)]|].
    intros c Hcin Hcl. apply HRc; [|done]. destruct (mono_children Hm1 d y y1 Hy Hy1) as [l ->].
    apply elem_of_app. left. apply list_elem_of_filter. split; [by apply (mono_live m1 m2)|done].
Qed.

Lemma close_total d m g :
  inv B m g -> held m g d -> (potential m (flushing g) * width <= w)%nat ->
  total (fun n => prof_dev_close (run n) n d) m (fun _ m' => good g m m' /\ post (CloseDev d) m m').
Proof using Hcall.
  intros Hi Hh Hw. pose proof Hh as [[x Hx] _]. unfold prof_dev_close. apply (dev_step m d x _ _ Hx).
  destruct (inclose x) eqn:Ec.
  { apply total_ret. split; [split; [done|by eapply mono_refl]|]. split; [intros x' Hx'; congruence|].
    intros x0 Hx0 E. congruence. }
  eapply (total_ext (fun n => (set_dev d (set_inclose true);; run n (DisableDev d);; set_dev d (set_state STATE_EXIT);;
    modify (set_list (list_del d))) ≫= fun _ => ((for_each_dev_get n (SourcesOf d) (fun s => run n (CloseDev s));;
    for_each_dev_get n (ChildrenOf d) (fun c =>
      own ← own_child d c; if (own : bool) then run n (CloseDev c) else ret tt)) ≫= fun _ => prof_dev_put d;; ret tt))).
  { intros n. reassociate. }
  apply (total_bind (fun n => set_dev d (set_inclose true);; run n (DisableDev d);; set_dev d (set_state STATE_EXIT);;
    modify (set_list (list_del d)))).
  eapply total_mono; [by apply (close_exit_total d m g x)|]. intros [] m1 (Hi1 & Hm1 & Hl1 & y & Hy & Hst & Hc).
  assert (forall m', mono m1 m' -> forall z, devs m' !! d = Some z -> inclose z = true) as Hclosed.
  { intros m' Hm' z Hz. destruct (mono_dev Hm' d z Hz) as (z0 & Hz0 & Hd). apply (stays_inclose _ _ Hd). congruence. }
  assert (forall m', mono m1 m' -> potential m' (flushing g) < potential m (flushing g))%nat as Hless.
  { intros m' Hm'. apply (potential_less m m' _ _ d x); [exact (mono_trans _ _ _ Hm1 Hm')|done|done|]. left. split; [done|]. by apply Hclosed. }
  apply (total_bind (fun n => for_each_dev_get n (SourcesOf d) (fun s => run n (CloseDev s));;
    for_each_dev_get n (ChildrenOf d) (fun c =>
      own ← own_child d c; if (own : bool) then run n (CloseDev c) else ret tt))).
  eapply total_mono; [apply (close_rest_total d m m1 g y Hm1 (inv_ghost Hi)); done|]. intros [] m2 [[Hi2 Hm2] HR].
  pose proof (mono_trans _ _ _ Hm1 Hm2) as Hm02.
  destruct (put_ok B m2 g d Hi2 (inv_ghost Hi)) as (b & m3 & E3 & Hi3 & Hm3 & _).
  { apply (targets_pinned_mono m); [done|]. by apply (inv_targets_pinned B). }
  eapply total_step; [exact E3|]. apply total_ret.
  split; [split; [done|exact (mono_trans _ _ _ Hm02 Hm3)]|]. split; [exact (Hclosed m3 (mono_trans _ _ _ Hm2 Hm3))|].
  intros x0 Hx0 _ c z z' Hz Hown Hz'. assert (x0 = x) as -> by congruence.
  destruct (mono_dev Hm3 c z' Hz') as (z2 & Hz2 & Hd2). apply (stays_inclose _ _ Hd2).
  assert (live m2 d) as Hl2 by (apply (inv_pinned Hi2); rewrite pins_pin; lia).
  apply (handled_own m m2 d c z z2); try done. apply HR; [|by exists z2].
  destruct (mono_dev Hm2 c z2 Hz2) as (z1 & Hz1 & _). destruct Hown as (Hp & _).
  apply (dev_children (inv_dev Hi1 d y Hy)). exists z1. split; [done|].
  by apply (mono_parent Hm1 c z z1 d Hz Hz1 Hp); exists y.
Qed.

(** ** The interval timer *)

Lemma interval_total d m g :
  inv B m g -> held m g d -> (measure B (IntervalDev d) m g <= w)%nat ->
  total (fun n => interval_handle (run n) n d) m (fun _ => good g m).
Proof using Hcall.
  intros Hi Hh Hw. pose proof Hh as [[x Hx] _]. pose proof (dev_bound (inv_dev Hi d x Hx)) as Hb.
  unfold interval_handle. unfold measure in Hw. cbn [rank] in Hw.
  eapply (total_ext (fun n => prof_dev_get d;; ((handle_mmaps (run n) n d;;
    for_each_dev_get n (SourcesOf d) (fun s => run n (IntervalDev s));;
    callback (run n) OnRead d None 0;; callback (run n) OnInterval d None 0;;
    callback (run n) OnPerfeval d None 0) ≫= fun _ => prof_dev_put d;; ret tt))).
  { intros n. reassociate. }
  apply (with_reference d m g); [done|done|]. intros m1 x' x1 Hi1 Hm1 _ _ _ _ _ _ _.
  assert (0 < pins (pin d g) d)%nat as Hp by (rewrite pins_pin; lia).
  assert (forall m' r, mono m m' -> (r < Z.to_nat B + 2 + (Z.to_nat B - Z.to_nat d))%nat ->
    (potential m' (flushing (pin d g)) * width + r < w)%nat) as Hbud.
  { intros m' r Hm' Hr. pose proof (potential_mono m m' (flushing g) (flushing (pin d g)) Hm' (reflexivity _)). nia. }
  apply (total_bind (fun n => handle_mmaps (run n) n d)).
  eapply total_mono; [apply (handle_mmaps_total B w Hcall d m1 (pin d g) Hi1 Hp); apply Hbud; [done|lia]|].
  intros [] m2 [Hi2 Hm2]. pose proof (mono_trans _ _ _ Hm1 Hm2) as Hm02. destruct (inv_pinned Hi2 d Hp) as [x2 Hx2].
  apply (total_bind (fun n => for_each_dev_get n (SourcesOf d) (fun s => run n (IntervalDev s)))).
  eapply total_mono; [apply (sources_total B w Hcall d m2 (pin d g) IntervalDev (fun _ _ => True) x2 Hi2 Hp Hx2); try done|].
  { intros s m3 Hs Hds Hm3 Hhs. split; [done|]. apply Hbud; [exact (mono_trans _ _ _ Hm02 Hm3)|]. cbn [rank]. lia. }
  intros [] m3 [[Hi3 Hm3] _]. pose proof (mono_trans _ _ _ Hm02 Hm3) as Hm03.
  assert (forall h m', inv B m' (pin d g) -> mono m m' ->
    total (fun n => callback (run n) h d None 0) m' (fun _ => good (pin d g) m)) as Hcb.
  { intros h m' Hi' Hm'. eapply total_mono; [apply (callback_total B w Hcall h d None 0 m' (pin d g)); [done|done|done|]|].
    - apply Hbud; [done|]. cbn. lia.
    - intros [] m4 Hg. by apply (good_trans B _ m m' m4). }
  apply (total_bind (fun n => callback (run n) OnRead d None 0)).
  eapply total_mono; [by apply Hcb|]. intros [] m4 [Hi4 Hm4].
  apply (total_bind (fun n => callback (run n) OnInterval d None 0)).
  eapply total_mono; [by apply Hcb|]. intros [] m5 [Hi5 Hm5].
  eapply total_mono; [by apply Hcb|]. intros [] m6 Hg. split; [done|]. intros b m7 _ Hg7 _. done.
Qed.

Lemma body_total f m g :
  inv B m g -> pre f m g -> (measure B f m g <= w)%nat ->
  total (fun n => body (run n) n f) m (fun _ m' => good g m m' /\ post f m m').
Proof using Hcall.
  intros Hi Hpre Hw. assert (forall d, rank B (CloseDev d) = 0%nat) as Hr by done. unfold measure in Hw.
  destruct f as [d|d|d final|d|d e ins]; cbn [body].
  - apply close_total; [done|done|]. cbn [rank] in Hw. lia.
  - apply disable_total; [done|done|]. cbn [rank] in Hw. lia.
  - eapply total_mono; [apply flush_total; [done|done|]|by intros [] m' Hg]. cbn [rank] in Hw. lia.
  - eapply total_mono; [by apply interval_total|by intros [] m' Hg].
  - apply total_drop. eapply total_mono; [by apply (process_total B w Hcall)|by intros a m' Hg].
Qed.
End bodies.

(** Every function ends, touches no freed device and keeps the invariant. *)
Lemma run_total `{Profilers} B f m g :
  inv B m g -> pre f m g -> total (fun n => run n f) m (fun _ m' => good B g m m' /\ post f m m').
Proof.
  assert (forall w f m g, (measure B f m g < w)%nat -> inv B m g -> pre f m g ->
    total (fun n => run n f) m (fun _ m' => good B g m m' /\ post f m m')) as Hall.
  { induction w as [|w IH]; intros f' m' g' Hw Hi Hp; [lia|]. apply total_run.
    apply (body_total B (measure B f' m' g')); [|done|done|lia].
    intros f1 m1 g1 Hw1. apply IH. lia. }
  intros Hi Hp. apply (Hall (S (measure B f m g))); [lia|done|done].
Qed.
