(* ===== verification/DeviceEnable.v ===== *)
(** * Devices: enabling ends and keeps the invariant *)

From S2P Require Import Prelude Device DeviceRun DeviceOpen DeviceInv DeviceStep DeviceRefs DevicePut DeviceLoop DeviceClose DeviceTotal DeviceBodies DeviceSafe.

(** Nothing is being closed or disabled. *)
Definition calm (g : ghost) : Prop := closing g = ∅ /\ disabling g = ∅ /\ flushing g = ∅.

(** Only a device with ring buffers has descriptors. *)
Definition wf (m : memory) : Prop :=
  forall d x, devs m !! d = Some x -> pages (conf x) = 0 -> nr_fds (conf x) = 0%nat.

Lemma wf_kin m m' : kin m m' -> wf m -> wf m'.
Proof. intros Hm Hw d x' Hx'. destruct (kin_dev Hm d x' Hx') as (x & Hx & -> & _). by eapply Hw. Qed.

(** Devices that are active stay so. *)
Definition lively (m m' : memory) : Prop :=
  kin m m' /\ forall d x x', devs m !! d = Some x -> devs m' !! d = Some x' ->
    state x = STATE_ACTIVE -> state x' = STATE_ACTIVE.

Lemma lively_trans m1 m2 m3 : lively m1 m2 -> lively m2 m3 -> lively m1 m3.
Proof.
  intros [K1 A1] [K2 A2]. split; [exact (kin_trans _ _ _ K1 K2)|]. intros d x z Hx Hz Hs.
  destruct (kin_dev K2 d z Hz) as (y & Hy & _). apply (A2 d y z Hy Hz). by apply (A1 d x y Hx Hy).
Qed.

Lemma lively_kin m m' : lively m m' -> kin m m'.
Proof. by intros []. Qed.

Lemma steady_lively m m' : mono m m' -> steady m m' -> lively m m'.
Proof. intros Hm Hs. split; [by apply mono_kin|]. intros d x x' Hx Hx' E. by rewrite (Hs d x x' Hx Hx'). Qed.

Lemma kin_refl B m g : inv B m g -> kin m m.
Proof. intros Hi. apply mono_kin. by eapply mono_refl. Qed.

Lemma lively_refl B m g : inv B m g -> lively m m.
Proof. intros Hi. split; [by eapply kin_refl|]. intros; congruence. Qed.

Lemma total_succ {A} (f : nat -> M A) (b : nat -> M A) m Q :
  (forall n, f (S n) m = b n m) -> total b m Q -> total f m Q.
Proof.
  intros Hs (n & a & m' & HQ & Hf). exists (S n), a, m'. split; [done|]. intros [|k] Hk; [lia|]. rewrite Hs. apply Hf. lia.
Qed.

(** A step that changes neither references, links nor states. *)
Lemma soft_lively B m g d x f :
  inv B m g -> devs m !! d = Some x -> soft x (f x) ->
  exists m', set_dev d f m = Done tt m' /\ inv B m' g /\ lively m m' /\ devs m' !! d = Some (f x).
Proof.
  intros Hi Hx (Hs & H1 & H2 & H3 & H4). destruct (set_dev_spec m d x f Hx) as (m' & E & Hm' & S1 & S2 & S3 & S4).
  exists m'. split; [done|]. split; [|split; [split|]].
  - eapply (inv_update B m m' g g d x (f x)); try done.
    + congruence.
    + by rewrite S1.
    + by rewrite S3.
    + by rewrite S4.
    + by apply (inv_targets_pinned B).
    + apply (inv_ghost Hi).
    + pose proof (own_inv_old _ _ _ _ _ Hi Hx) as []. split; rewrite ?H1, ?H2, ?H3, ?H4, ?S1, ?S3, ?S4; done.
    + intros Hr. rewrite S2 in *. pose proof (active_update m m' d x (f x) Hx Hm'). pose proof (inv_running Hi Hr).
      assert (counted (f x) <-> counted x) as Hc by (unfold counted; destruct Hs as (-> & _); by rewrite H2).
      unfold active in *. destruct (decide (counted x)), (decide (counted (f x))); tauto || lia.
  - eapply (kin_update B m m' g d x (f x)); try done; [by rewrite S1| |by rewrite H4|by rewrite H2].
    intros e He. left. by rewrite S1.
  - intros e z z' Hz Hz'. rewrite Hm' in Hz'. destruct (decide (e = d)) as [->|Hne].
    + rewrite lookup_insert_eq in Hz'. injection Hz' as <-. assert (z = x) as -> by congruence. by rewrite H2.
    + rewrite lookup_insert_ne in Hz' by done. congruence.
  - rewrite Hm'. apply lookup_insert_eq.
Qed.

Section enabling.
Context `{Profilers}.
Hypothesis Hpoll : forall d i m, poll_fails d i m = false.
(** A device that another opened does not close in [enabled]. *)
Hypothesis Hquiet : forall d m x, devs m !! d = Some x -> is_Some (parent x) -> acts OnEnabled d None m = [].

Lemma add_fds_ok l d m x :
  devs m !! d = Some x ->
  exists m', add_fds l d m = Done 0 m' /\
    devs m' = <[d := set_nr_pollfd (fun k => k + Z.of_nat (length l)) x]> (devs m) /\
    prof_dev_list m' = prof_dev_list m /\ running m' = running m /\ timers m' = timers m /\
    forall e i, (e, i) ∈ polled m' -> (e, i) ∈ polled m \/ (e = d /\ l <> []).
Proof using Hpoll.
  revert m x. induction l as [|i l IH]; intros m x Hx.
  - exists m. split; [done|]. split; [|auto]. rewrite insert_id; [done|]. rewrite Hx. destruct x; unfold set_nr_pollfd; cbn. by rewrite Z.add_0_r.
  - destruct (set_dev_spec m d x (set_nr_pollfd (fun k => k + 1)) Hx) as (m1 & E1 & Hm1 & S1 & S2 & S3 & S4).
    set (m2 := set_polled (fun s => {[(d, i)]} ∪ s) m1).
    destruct (IH m2 (set_nr_pollfd (fun k => k + 1) x)) as (m' & E & Hdv & H1 & H2 & H3 & H4).
    { change (devs m2) with (devs m1). rewrite Hm1. apply lookup_insert_eq. }
    exists m'. split; [|split; [|split; [|split; [|split]]]].
    + cbn [add_fds]. unfold mbind, M_bind, get. rewrite E1, Hpoll. cbn. exact E.
    + rewrite Hdv. change (devs m2) with (devs m1). rewrite Hm1, insert_insert_eq. f_equal.
      unfold set_nr_pollfd; cbn. f_equal. lia.
    + rewrite H1. exact S1.
    + rewrite H2. exact S2.
    + rewrite H3. exact S4.
    + intros e j Hin. destruct (H4 e j Hin) as [Hin'|[-> _]]; [|by right].
      cbn in Hin'. rewrite S3 in Hin'. apply elem_of_union in Hin' as [Hin'|Hin']; [|by left].
      apply elem_of_singleton in Hin'. right. split; [congruence|done].
Qed.

(** The device is counted and polled, with a reference of the function that enables it. *)
Lemma activate_ok B m g d x :
  inv B m g -> calm g -> wf m -> held m g d -> devs m !! d = Some x ->
  state x <> STATE_ACTIVE -> state x <> STATE_EXIT ->
  exists m1 m2 m3, add_fds (seq 0 (nr_fds (conf x))) d m = Done 0 m1 /\ prof_dev_get d m1 = Done true m2 /\
    set_dev d (set_state STATE_ACTIVE) m2 = Done tt m3 /\
    let m4 := set_running (fun r => if normal (conf x) && (0 <=? r) then r + 1 else r) m3 in
    inv B m4 (pin d g) /\ lively m m4 /\ exists y, devs m4 !! d = Some y /\ state y = STATE_ACTIVE /\ same_links x y.
Proof using Hpoll.
  intros Hi (Hcl & Hds & Hfl) Hwf [_ Ht] Hx Ha He. pose proof (inv_dev Hi d x Hx) as Hd.
  destruct (add_fds_ok (seq 0 (nr_fds (conf x))) d m x Hx) as (m1 & E1 & Hm1 & L1 & R1 & T1 & P1).
  set (x1 := set_nr_pollfd (fun k => k + Z.of_nat (length (seq 0 (nr_fds (conf x))))) x) in *.
  assert (devs m1 !! d = Some x1) as Hx1 by (by rewrite Hm1, lookup_insert_eq).
  destruct (set_dev_spec m1 d x1 (set_refcount (fun k => k + 1)) Hx1) as (m2 & E2 & Hm2 & L2 & R2 & P2 & T2).
  set (x2 := set_refcount (fun k => k + 1) x1) in *.
  assert (devs m2 !! d = Some x2) as Hx2 by (by rewrite Hm2, lookup_insert_eq).
  destruct (set_dev_spec m2 d x2 (set_state STATE_ACTIVE) Hx2) as (m3 & E3 & Hm3 & L3 & R3 & P3 & T3).
  set (y := set_state STATE_ACTIVE x2) in *. exists m1, m2, m3. split; [done|]. split.
  { unfold prof_dev_get, mbind, M_bind. rewrite (dev_ok _ _ _ Hx1). pose proof (dev_refs_pos Hd).
    change (refcount x1) with (refcount x). rewrite (proj2 (Z.ltb_lt _ _)) by done. by rewrite E2. }
  split; [done|]. intros m4.
  assert (devs m4 = <[d := y]> (devs m)) as Hm4.
  { change (devs m4) with (devs m3). by rewrite Hm3, Hm2, Hm1, !insert_insert_eq. }
  assert (prof_dev_list m4 = prof_dev_list m) as El by (change (prof_dev_list m4) with (prof_dev_list m3); congruence).
  assert (timers m4 = timers m) as Et by (change (timers m4) with (timers m3); congruence).
  assert (polled m4 = polled m1) as Ep by (change (polled m4) with (polled m3); congruence).
  assert (same_links x y) as Hs by done.
  split; [|split; [|exists y; split; [by rewrite Hm4, lookup_insert_eq|done]]].
  - apply (inv_update_gen B m m4 g (pin d g) d x y); try done.
    + by rewrite El.
    + intros e i Hin. rewrite Ep in Hin. destruct (P1 e i Hin) as [Hin'|[-> Hn]]; [by left|]. right. split; [done|].
      intros Hp. by rewrite (Hwf d x Hx Hp) in Hn.
    + intros e. rewrite Et. by left.
    + apply agree_pin.
    + by apply targets_pinned_pin; [apply (inv_targets_pinned B)|].
    + by apply ghost_ok_pin, (inv_ghost Hi).
    + pose proof (own_inv_old _ _ _ _ _ Hi Hx) as []. split; try done.
      * rewrite pins_pin. change (refcount y) with (refcount x + 1). change (inclose y) with (inclose x). destruct (inclose x); lia.
      * change (refcount y) with (refcount x + 1). lia.
      * cbn. rewrite Hds. set_solver.
      * intros Hc Hn. destruct (own_closed Hc) as [? _]; [by rewrite Hcl|]. done.
    + intros Hr. pose proof (active_update m m4 d x y Hx Hm4) as Hac.
      assert (running m4 = if normal (conf x) && (0 <=? running m) then running m + 1 else running m) as Er.
      { change (running m4) with (if normal (conf x) && (0 <=? running m3) then running m3 + 1 else running m3).
        by rewrite R3, R2, R1. }
      assert (0 <= running m) as Hr0 by (rewrite Er in Hr; destruct (normal (conf x)), (Z.leb_spec 0 (running m)); cbn in Hr; lia).
      pose proof (inv_running Hi Hr0) as Hrun. fold (active m) in Hrun. rewrite Er.
      rewrite (decide_False (P := counted x)) in Hac by (by intros [_ ?]).
      destruct (normal (conf x)) eqn:En.
      * rewrite decide_True in Hac by (by split). cbn. destruct (Z.leb_spec 0 (running m)); lia.
      * rewrite decide_False in Hac by (intros [Hn _]; change (normal (conf y)) with (normal (conf x)) in Hn; congruence). cbn. lia.
  - split.
    + eapply (kin_update B m m4 g d x y); try done; [by rewrite El|]. intros e He'. left. by rewrite El.
    + intros e z z' Hz Hz' Hst. rewrite Hm4 in Hz'. destruct (decide (e = d)) as [->|Hne].
      * rewrite lookup_insert_eq in Hz'. by injection Hz' as <-.
      * rewrite lookup_insert_ne in Hz' by done. congruence.
Qed.

Lemma atomic_enable_ok B m g d cost :
  inv B m g -> live m d ->
  exists r m', prof_dev_atomic_enable d cost m = Done r m' /\ inv B m' g /\ lively m m'.
Proof using.
  intros Hi [x Hx].
  unfold prof_dev_atomic_enable, mbind, M_bind. rewrite (dev_ok _ _ _ Hx).
  destruct (prof_dev_nr_ins x <=? 1); [exists 0, m; split; [done|split; [done|by eapply lively_refl]]|].
  destruct (overwrite (conf x) || negb (sample_time (conf x))); [exists (-1), m; split; [done|split; [done|by eapply lively_refl]]|].
  destruct (pop_first (rings x)) as [[r rs]|]; [|exists 0, m; split; [done|split; [done|by eapply lively_refl]]].
  destruct (soft_lively B m g d x (set_rings (fun _ => rs)) Hi Hx) as (m1 & E1 & Hi1 & K1 & Hx1); [done|].
  destruct (soft_lively B m1 g d _ (set_enabled_after (u64 (cost + time r))) Hi1 Hx1) as (m2 & E2 & Hi2 & K2 & _); [done|].
  exists 0, m2. rewrite E1, E2. split; [done|]. split; [done|]. exact (lively_trans _ _ _ K1 K2).
Qed.

Lemma start_timer_ok B m g d x :
  inv B m g -> devs m !! d = Some x -> state x = STATE_ACTIVE ->
  let m' := set_timers (fun s => if interval (conf x) =? 0 then s else {[d]} ∪ s) m in
  inv B m' g /\ lively m m'.
Proof using.
  intros Hi Hx Hs m'. assert (devs m' = <[d := x]> (devs m)) as Hm by (by rewrite insert_id).
  split.
  - apply (inv_update_gen B m m' g g d x x); try done.
    + intros e i. by left.
    + intros e. cbn. destruct (Z.eqb_spec (interval (conf x)) 0) as [E|E]; [by left|].
      rewrite elem_of_union, elem_of_singleton. intros [->|?]; [by right|by left].
    + by apply (inv_targets_pinned B).
    + apply (inv_ghost Hi).
    + pose proof (own_inv_old _ _ _ _ _ Hi Hx) as []. split; done.
    + exact (inv_running Hi).
  - split; [|intros e z z' Hz Hz' Hst; change (devs m !! e = Some z') in Hz'; congruence].
    eapply (kin_update B m m' g d x x); try done. by left.
Qed.

(** The parent of [d], if there is one, is held. *)
Definition parent_held (m : memory) (g : ghost) (d : Z) : Prop :=
  forall x p, devs m !! d = Some x -> parent x = Some p -> (0 < pins g p)%nat.

Lemma enable_total B k : forall d m g x,
  (Z.to_nat B - Z.to_nat d < k)%nat -> inv B m g -> calm g -> wf m -> held m g d -> parent_held m g d ->
  devs m !! d = Some x ->
  total (fun n => prof_dev_enable n d) m (fun err m' => err = 0 /\ inv B m' g /\ kin m m' /\
    (is_Some (parent x) -> lively m m')).
Proof using Hpoll Hquiet.
  induction k as [|k IH]; intros d m g x Hk Hi Hc Hwf Hh Hph Hx; [lia|].
  pose proof (inv_dev Hi d x Hx) as Hd. pose proof (dev_bound Hd) as Hb.
  apply (total_succ _ (fun n => enable_body (prof_dev_enable n) n d)); [done|]. unfold enable_body. apply (dev_step m d x _ _ Hx).
  destruct (bool_decide (state x = STATE_ACTIVE) || bool_decide (state x = STATE_EXIT)) eqn:Est.
  { apply total_ret. split; [done|]. split; [done|]. split; [by eapply kin_refl|]. intros _. by eapply lively_refl. }
  apply orb_false_iff in Est as [Ea%bool_decide_eq_false Ee%bool_decide_eq_false].
  destruct (activate_ok B m g d x Hi Hc Hwf Hh Hx Ea Ee) as (m1 & m2 & m3 & E1 & E2 & E3 & Hi4 & K4 & y & Hy & Hya & Hys).
  set (m4 := set_running (fun r => if normal (conf x) && (0 <=? r) then r + 1 else r) m3) in *.
  eapply total_step; [exact E1|]. cbn [negb Z.eqb]. eapply total_step; [exact E2|]. eapply total_step; [exact E3|].
  eapply (total_step _ _ _ tt m4); [done|].
  assert (0 < pins (pin d g) d)%nat as Hp by (rewrite pins_pin; lia).
  assert (calm (pin d g)) as Hc4 by done.
  apply (total_bind (fun n => for_each_dev_get n (ChildrenOf d) (fun c => prof_dev_enable n c;; ret tt))).
  eapply total_mono; [apply (for_each_total B (ChildrenOf d) d eq_refl lively lively_trans lively_kin steady_lively
    m4 (pin d g) y (fun n c => prof_dev_enable n c;; ret tt) (fun _ _ => True) Hp Hy)|]; [done| |exact Hi4|].
  { intros m5 c y5 K5 Hi5 Hy5 Hin. cbn in Hin. apply (dev_children (inv_dev Hi5 d y5 Hy5)) in Hin as (z & Hz & Hzp).
    pose proof (inv_dev Hi5 c z Hz) as Hzd. destruct (dev_parent Hzd d Hzp) as [Hlt _]. pose proof (dev_bound Hzd).
    apply (total_bind (fun n => prof_dev_enable n c)). eapply total_mono; [apply (IH c m5 (pin c (pin d g)) z)|]; try done.
    - lia.
    - apply (wf_kin m m5); [|done]. exact (lively_kin _ _ (lively_trans _ _ _ K4 K5)).
    - apply (pinned_held B); [done|]. rewrite pins_pin. lia.
    - intros z' p Hz' Hzp'. assert (p = d) as -> by congruence. by rewrite pins_pin_ne by lia.
    - intros err m6 (_ & Hi6 & K6 & L6). apply total_ret. split; [done|]. split; [|done]. apply L6. by rewrite Hzp. }
  intros [] m5 (Hi5 & L5 & _). eapply total_step; [done|]. destruct (inv_pinned Hi5 d Hp) as [y5 Hy5].
  pose proof (lively_trans _ _ _ K4 L5) as L05.
  destruct (soft_lively B m5 (pin d g) d y5 (set_rings (imap (fun i l => l ++ kernel_writes d m5 i))) Hi5 Hy5)
    as (m6 & E6 & Hi6 & L6 & Hy6); [done|].
  eapply (total_step _ _ _ tt m6); [unfold perf_evlist__enable, mbind, M_bind; exact E6|].
  destruct (atomic_enable_ok B m6 (pin d g) d (enable_cost d m5) Hi6) as (r & m7 & E7 & Hi7 & L7); [by eexists|].
  eapply total_step; [exact E7|]. pose proof (lively_trans _ _ _ (lively_trans _ _ _ L05 L6) L7) as L07.
  destruct (inv_pinned Hi7 d Hp) as [y7 Hy7].
  assert (state y7 = STATE_ACTIVE) as Hs7.
  { apply (proj2 (lively_trans _ _ _ (lively_trans _ _ _ L5 L6) L7) d y y7); done. }
  assert (conf y7 = conf x) as Ec7.
  { destruct (kin_dev (lively_kin _ _ L07) d y7 Hy7) as (x0 & Hx0 & E & _). congruence. }
  destruct (start_timer_ok B m7 (pin d g) d y7 Hi7 Hy7 Hs7) as [Hi8 L8]. rewrite Ec7 in Hi8, L8.
  eapply total_step; [done|]. set (m8 := set_timers _ m7) in *. pose proof (lively_trans _ _ _ L07 L8) as L08.
  apply (total_bind (fun n => callback (run n) OnEnabled d None 0)).
  apply (total_mono _ _ (fun _ m9 => inv B m9 (pin d g) /\ kin m m9 /\ (is_Some (parent x) -> lively m m9))).
  { destruct (parent x) as [p|] eqn:Ep.
    - assert (acts OnEnabled d None m8 = []) as Hno.
      { apply (Hquiet d m8 y7); [done|]. exists p. apply (kin_parent (lively_kin _ _ L07) d x y7 p Hx Hy7 Ep).
        apply (inv_pinned Hi7). assert (0 < pins g p)%nat by (by apply (Hph x p Hx Ep)).
        destruct (decide (p = d)) as [->|Hne]; [done|by rewrite pins_pin_ne]. }
      apply (total_done _ _ _ tt m8); [|by auto using lively_kin].
      intros n. unfold callback, mbind, M_bind, get. by rewrite Hno.
    - eapply total_mono; [apply (callback_total B (S (potential m8 (flushing (pin d g)) * width B)) (fun f m g _ => run_total B f m g)
        OnEnabled d None 0 m8 (pin d g) Hi8 Hp); [done|cbn; lia]|].
      intros [] m9 [Hi9 Hm9]. split; [done|]. split; [|by intros []]. apply (kin_trans m m8); [by apply lively_kin|by apply mono_kin]. }
  intros [] m9 (Hi9 & K9 & L9).
  destruct (put_ok B m9 g d Hi9 (inv_ghost Hi)) as (b & m' & E' & Hi' & Hm' & _ & Hst' & _).
  { apply (targets_pinned_kin m); [done|]. by apply (inv_targets_pinned B). }
  eapply total_step; [exact E'|]. apply total_ret. split; [done|]. split; [done|].
  split; [exact (kin_trans _ _ _ K9 (mono_kin _ _ Hm'))|]. intros Hsp. exact (lively_trans _ _ _ (L9 Hsp) (steady_lively _ _ Hm' Hst')).
Qed.
End enabling.
