(* ===== verification/DeviceLife.v ===== *)
(** * Devices: what is opened satisfies the invariant

    Opening a tree of devices, with the samples of some forwarded to their parents, keeps
    the invariant; every device is in the list, after the one it forwards to. *)

From S2P Require Import Prelude Device DeviceRun DeviceOpen DeviceInv DeviceStep DeviceRefs DevicePut DeviceLoop DeviceClose DeviceTotal DeviceBodies DeviceSafe DeviceEnable.

(** ** The order of the list *)

Fixpoint before (t d : Z) (l : list Z) : Prop :=
  match l with
  | [] => False
  | x :: l => (x = t /\ d ∈ l) \/ before t d l
  end.

Lemma before_elem t d l : before t d l -> t ∈ l /\ d ∈ l.
Proof.
  induction l as [|x l IH]; [done|]. intros [[-> Hd]|Hb]; [split; [by left|by right]|].
  destruct (IH Hb). split; by right.
Qed.

Lemma before_sublist t d l' l :
  sublist l' l -> NoDup l -> before t d l -> t ∈ l' -> d ∈ l' -> before t d l'.
Proof.
  induction 1 as [|x l' l Hs IH|x l' l Hs IH]; intros Hnd Hb Ht Hd; [done| |].
  - apply NoDup_cons in Hnd as [Hx Hnd]. destruct Hb as [[-> Hdl]|Hb].
    + left. split; [done|]. apply elem_of_cons in Hd as [->|Hd]; [done|done].
    + destruct (before_elem t d l Hb) as [Htl Hdl]. right.
      apply elem_of_cons in Ht as [->|Ht]; [done|]. apply elem_of_cons in Hd as [->|Hd]; [done|]. auto.
  - apply NoDup_cons in Hnd as [Hx Hnd]. destruct Hb as [[-> Hdl]|Hb]; [|by apply IH].
    exfalso. apply Hx. by eapply elem_of_sublist.
Qed.

Lemma before_snoc t d l x : before t d l -> before t d (l ++ [x]).
Proof.
  induction l as [|y l IH]; [done|]. intros [[-> Hd]|Hb]; [left; split; [done|set_solver]|right; auto].
Qed.

(** ** Programs of devices

    [O] are the devices being opened: they are not listed yet. *)
Record life (O : list Z) (m : memory) : Prop := {
  life_wf : wf m;
  life_listed : forall d x, devs m !! d = Some x -> d ∈ prof_dev_list m \/ d ∈ O \/ inclose x = true;
  life_order : forall d x t, d ∈ prof_dev_list m -> devs m !! d = Some x -> target x = Some t ->
    (t ∈ O /\ parent x = Some t) \/ before t d (prof_dev_list m)
}.
Arguments life_wf {O m}.
Arguments life_listed {O m}.
Arguments life_order {O m}.

Lemma life_kin B B' O m m' g0 g :
  inv B m g0 -> calm g -> (forall t, t ∈ O -> (0 < pins g t)%nat) -> life O m -> kin m m' -> inv B' m' g -> life O m'.
Proof.
  intros Hi (Hcl & _) HO Hl Hk Hi'. split.
  - by apply (wf_kin m m'), (life_wf Hl).
  - intros d x' Hx'. destruct (kin_dev Hk d x' Hx') as (x & Hx & _ & _ & Hc & _).
    destruct (life_listed Hl d x Hx) as [Hd|[Hd|Hd]]; [|by auto|auto].
    destruct (kin_listed Hk d x' Hd Hx'); auto.
  - intros d x' t Hd Hx' Ht. destruct (kin_dev Hk d x' Hx') as (x & Hx & _ & Et & _).
    assert (d ∈ prof_dev_list m) as Hdm by (by eapply elem_of_sublist; [|apply (kin_list Hk)]).
    rewrite Et in Ht. destruct (life_order Hl d x t Hdm Hx Ht) as [[Hn Hp]|Hb].
    { left. split; [done|]. destruct (kin_parent Hk d x x' t Hx Hx' Hp); [|done]. by apply (inv_pinned Hi'), HO. }
    right. destruct (before_elem _ _ _ Hb) as [Htm _].
    apply (before_sublist t d _ (prof_dev_list m)); [apply (kin_list Hk)|apply (inv_list Hi)|done| |done].
    pose proof (inv_dev Hi' d x' Hx') as Hd'. destruct (dev_target Hd' t) as (_ & [y Hy] & _); [congruence|].
    destruct (kin_listed Hk t y Htm Hy) as [Hin|Hc]; [done|]. exfalso.
    destruct (dev_closed (inv_dev Hi' t y Hy) Hc) as (_ & _ & Hs); [rewrite Hcl; set_solver|].
    assert (inclose x' = true) as Hcx by (apply (Hs d x'); [done|congruence]).
    destruct (dev_closed Hd' Hcx) as (_ & Hn & _); [rewrite Hcl; set_solver|]. done.
Qed.

Lemma inv_bound B B' m g : inv B m g -> (forall d, live m d -> d < B') -> inv B' m g.
Proof.
  intros Hi Hb. split; try apply Hi. intros d x Hx. pose proof (inv_dev Hi d x Hx) as Hd. split; try apply Hd.
  pose proof (dev_bound Hd). specialize (Hb d). assert (live m d) by (by exists x). lia.
Qed.

Lemma inv_bound_le B B' m g : B <= B' -> inv B m g -> inv B' m g.
Proof. intros Hle Hi. apply (inv_bound B B' m g Hi). intros d [x Hx]. pose proof (dev_bound (inv_dev Hi d x Hx)). lia. Qed.

(** ** A new device *)

(** Devices that an opening leaves as they are, but for their lists and references. *)
Definition old (lo : Z) (m m' : memory) : Prop :=
  forall e x, e < lo -> devs m !! e = Some x -> exists x', devs m' !! e = Some x' /\
    state x' = state x /\ inclose x' = inclose x /\ conf x' = conf x /\ target x' = target x /\
    parent x' = parent x /\ clone x' = clone x.

Lemma old_trans lo lo' m1 m2 m3 : lo <= lo' -> old lo m1 m2 -> old lo' m2 m3 -> old lo m1 m3.
Proof.
  intros Hle H12 H23 e x He Hx. destruct (H12 e x He Hx) as (y & Hy & E1 & E2 & E3 & E4 & E5 & E6).
  destruct (H23 e y ltac:(lia) Hy) as (z & Hz & F1 & F2 & F3 & F4 & F5 & F6). exists z. repeat split; congruence.
Qed.

Lemma old_refl lo m : old lo m m.
Proof. intros e x _ Hx. exists x. repeat split; done. Qed.

(** The device as [alloc] makes it. *)
Definition fresh_dev (c : config) (p : option Z) (x : prof_dev) : Prop :=
  conf x = c /\ refcount x = 1 /\ state x <> STATE_ACTIVE /\ state x <> STATE_EXIT /\ inflush x = false /\
  inclose x = false /\ clone x = false /\ parent x = p /\ child_list x = [] /\ target x = None /\ source_list x = [].

Lemma alloc_mem d c k p m y :
  (match p with Some p => devs m !! p = Some y /\ p <> d | None => True end) ->
  exists m' x, alloc d c k p false m = Done tt m' /\ same_lists m m' /\ fresh_dev c p x /\
    (state x = match p with
               | Some _ => if state_val (state y) <=? state_val STATE_INACTIVE then STATE_OFF else STATE_INACTIVE
               | None => STATE_INACTIVE end) /\
    forall e, devs m' !! e = if decide (e = d) then Some x
      else (fun z => if decide (p = Some e) then set_children (fun l => l ++ [d]) z else z) <$> devs m !! e.
Proof.
  intros Hp. unfold alloc, mbind, M_bind. destruct p as [p|].
  - destruct Hp as [Hy Hpd]. rewrite (dev_ok _ _ _ Hy). cbn [negb andb ret mret M_ret].
    set (s := if state_val (state y) <=? state_val STATE_INACTIVE then STATE_OFF else STATE_INACTIVE).
    set (x := new_dev c s (Some p) false (replicate k [])). set (m1 := set_devs <[d := x]> m).
    destruct (set_dev_spec m1 p y (set_children (fun l => l ++ [d]))) as (m' & E & Hm' & S).
    { cbn. by rewrite lookup_insert_ne. }
    exists m', x. unfold modify. fold m1. rewrite E. split; [done|]. split; [done|]. split; [|split; [done|]].
    { unfold fresh_dev. cbn. unfold s. destruct (state_val (state y) <=? state_val STATE_INACTIVE); repeat split; done. }
    intros e. rewrite Hm'. change (devs m1) with (<[d := x]> (devs m)). case_decide as He.
    + subst e. rewrite lookup_insert_ne by done. by rewrite lookup_insert_eq.
    + destruct (decide (e = p)) as [->|Hep].
      * rewrite lookup_insert_eq, Hy. cbn. by rewrite decide_True.
      * rewrite !lookup_insert_ne by done. destruct (devs m !! e); [|done]. cbn. by rewrite decide_False by congruence.
  - exists (set_devs <[d := new_dev c STATE_INACTIVE None false (replicate k [])]> m), (new_dev c STATE_INACTIVE None false (replicate k [])).
    split; [done|]. split; [done|]. split; [by repeat split|]. split; [done|].
    intros e. cbn. case_decide as He.
    + subst e. by rewrite lookup_insert_eq.
    + rewrite lookup_insert_ne by done. by destruct (devs m !! e).
Qed.

Section fresh.
Variables (B d : Z) (c : config) (p : option Z) (m m' : memory) (g : ghost) (x : prof_dev).
Hypothesis Hi : inv B m g.
Hypothesis HB : 0 <= B <= d.
Hypothesis Hp : forall q, p = Some q -> live m q.
Hypothesis Hfresh : fresh_dev c p x.
Hypothesis Hlists : same_lists m m'.
Hypothesis Hdevs : forall e, devs m' !! e = if decide (e = d) then Some x
      else (fun z => if decide (p = Some e) then set_children (fun l => l ++ [d]) z else z) <$> devs m !! e.

Lemma fresh_absent : devs m !! d = None.
Proof using Hi HB.
  clear - Hi HB. destruct (devs m !! d) as [z|] eqn:E; [|done]. pose proof (dev_bound (inv_dev Hi d z E)). lia.
Qed.

Lemma fresh_pins : pins g d = 0%nat.
Proof using Hi HB.
  clear - Hi HB. destruct (pins g d) eqn:E; [done|]. destruct (inv_pinned Hi d) as [z Hz]; [lia|].
  pose proof (dev_bound (inv_dev Hi d z Hz)). lia.
Qed.

Lemma fresh_old_dev e z : e <> d -> devs m' !! e = Some z -> exists z0, devs m !! e = Some z0 /\
  z = (if decide (p = Some e) then set_children (fun l => l ++ [d]) z0 else z0).
Proof using Hdevs.
  clear - Hdevs. intros He. rewrite Hdevs, decide_False by done. intros (z0 & Hz0 & ->)%fmap_Some_1. by exists z0.
Qed.

Lemma fresh_live e : live m' e <-> live m e \/ e = d.
Proof using Hdevs.
  clear - Hdevs. unfold live. rewrite Hdevs. case_decide as He.
  - split; [by right|]. intros _. by eexists.
  - rewrite fmap_is_Some. tauto.
Qed.

(** Links to other devices are as before; the only new one is that of [d] to its parent. *)
Lemma fresh_linked (f : prof_dev -> option Z) e s :
  (forall l z, f (set_children l z) = f z) ->
  (exists z, devs m' !! s = Some z /\ f z = Some e) <->
  (exists z, devs m !! s = Some z /\ f z = Some e) \/ (s = d /\ f x = Some e).
Proof using Hi HB Hdevs.
  pose proof fresh_absent as Hab. clear - Hdevs Hab. intros Hf. rewrite Hdevs. case_decide as Hs.
  - subst s. rewrite Hab. split; [intros (z & [= <-] & Hz); by right|]. intros [(z & [=] & _)|[_ Hz]]. by exists x.
  - split.
    + intros (z & (z0 & Hz0 & ->)%fmap_Some_1 & Hz). left. exists z0. split; [done|]. case_decide; [by rewrite Hf in Hz|done].
    + intros [(z & Hz & Hfz)|[? _]]; [|done]. rewrite Hz. eexists. split; [done|]. case_decide; [by rewrite Hf|done].
Qed.

Lemma fresh_target e : target x = Some e -> False.
Proof using Hfresh. clear - Hfresh. destruct Hfresh as (_ & _ & _ & _ & _ & _ & _ & _ & _ & Ht & _). congruence. Qed.

Lemma fresh_new_inv : dev_inv (d + 1) m' g d x.
Proof using Hi HB Hp Hfresh Hlists Hdevs.
  pose proof fresh_absent as Hab. pose proof fresh_pins as Hpin. pose proof fresh_live as Hlv.
  pose proof (fresh_linked parent d) as Hpar. pose proof (fresh_linked target d) as Htar.
  destruct Hfresh as (F1 & F2 & F3 & F4 & F5 & F6 & F7 & F8 & F9 & F10 & F11). destruct Hlists as (S1 & S2 & S3 & S4).
  assert (d ∉ closing g ∪ disabling g ∪ flushing g) as Hg.
  { intros Hin. pose proof (inv_ghost Hi d Hin). lia. }
  assert (forall e, live m e -> e < d) as Hlt.
  { intros e [z Hz]. pose proof (dev_bound (inv_dev Hi e z Hz)). lia. }
  split; rewrite ?F2, ?F6, ?F8, ?F9, ?F10, ?F11, ?S1, ?S3, ?S4; try done.
  - lia.
  - lia.
  - rewrite F5. symmetry. apply bool_decide_eq_false. set_solver.
  - set_solver.
  - intros _ _. split; [|intros i]; intros Hin; [apply (inv_timers Hi) in Hin|apply (inv_polled Hi) in Hin]; apply Hlt in Hin; lia.
  - intros _ Hin. apply (inv_timers Hi), Hlt in Hin. lia.
  - intros _ i Hin. apply (inv_polled Hi), Hlt in Hin. lia.
  - intros q Hq. rewrite Hlv. split; [by apply Hlt, Hp|left; by apply Hp].
  - intros. by left.
  - intros s. split; [by intros ?%elem_of_nil|]. rewrite Hpar by done. intros [(z & Hz & Hzp)|[-> Hd]].
    + destruct (dev_parent (inv_dev Hi s z Hz) d Hzp) as [_ [y Hy]]. congruence.
    + rewrite F8 in Hd. destruct (Hp d Hd) as [y Hy]. congruence.
  - intros s. split; [by intros ?%elem_of_nil|]. rewrite Htar by done. intros [(z & Hz & Hzp)|[-> Hd]].
    + destruct (dev_target (inv_dev Hi s z Hz) d Hzp) as (_ & [y Hy] & _). congruence.
    + congruence.
  - split; constructor.
Qed.

Lemma fresh_old_inv e z : e <> d -> devs m' !! e = Some z -> dev_inv (d + 1) m' g e z.
Proof using Hi HB Hp Hfresh Hlists Hdevs.
  intros He Hz. pose proof fresh_live as Hlv. pose proof (fresh_linked parent e) as Hpar. pose proof (fresh_linked target e) as Htar.
  destruct (fresh_old_dev e z He Hz) as (z0 & Hz0 & Ez). pose proof (inv_dev Hi e z0 Hz0) as Hd.
  pose proof (dev_bound Hd) as Hb. destruct Hlists as (S1 & S2 & S3 & S4).
  assert (parent x = p) as Fp by apply Hfresh. pose proof fresh_target as Ft.
  assert (forall s y, devs m' !! s = Some y -> target y = Some e -> exists y0, devs m !! s = Some y0 /\ target y0 = Some e /\ inclose y = inclose y0) as Hsrc.
  { intros s y Hy Ht. destruct (decide (s = d)) as [->|Hsd].
    - rewrite Hdevs, decide_True in Hy by done. injection Hy as <-. by apply Ft in Ht.
    - destruct (fresh_old_dev s y Hsd Hy) as (y0 & Hy0 & ->). exists y0. by case_decide. }
  assert (conf z = conf z0 /\ refcount z = refcount z0 /\ state z = state z0 /\ inflush z = inflush z0 /\ inclose z = inclose z0 /\
    clone z = clone z0 /\ parent z = parent z0 /\ target z = target z0 /\ source_list z = source_list z0)
    as (F1 & F2 & F3 & F4 & F5 & F6 & F7 & F8 & F9) by (rewrite Ez; case_decide; done).
  split; rewrite ?F1, ?F2, ?F3, ?F4, ?F5, ?F6, ?F7, ?F8, ?F9, ?S1, ?S3, ?S4; try apply Hd.
  - lia.
  - intros H1 H2. destruct (dev_closed Hd H1 H2) as (? & ? & H3). split; [done|]. split; [done|].
    intros s y Hy Ht. destruct (Hsrc s y Hy Ht) as (y0 & Hy0 & Ht0 & ->). by eapply H3.
  - intros q Hq. rewrite Hlv. destruct (dev_parent Hd q Hq). auto.
  - intros t Ht. rewrite Hlv. destruct (dev_target Hd t Ht) as (? & ? & ?). auto.
  - intros q y Hq Hy. destruct (decide (q = d)) as [->|Hqd].
    + destruct (dev_parent Hd d Hq) as [Hlt _]. lia.
    + destruct (fresh_old_dev q y Hqd Hy) as (y0 & Hy0 & ->).
      assert (target (if decide (p = Some q) then set_children (fun l => l ++ [d]) y0 else y0) = target y0) as -> by (by case_decide).
      by eapply (dev_family Hd).
  - intros s. rewrite Hpar by done. rewrite <- (dev_children Hd), Fp, Ez. case_decide as Hpe.
    + cbn. rewrite elem_of_app, elem_of_cons, elem_of_nil. tauto.
    + split; [auto|]. intros [?|[_ ?]]; [done|congruence].
  - intros s. rewrite Htar by done. rewrite <- (dev_sources Hd). split; [auto|]. intros [?|[_ Ht]]; [done|]. by apply Ft in Ht.
  - destruct (dev_nodup Hd) as [H1 H2]. split; [|done]. rewrite Ez. case_decide; [|done]. cbn. apply NoDup_app.
    split; [done|]. split; [|apply NoDup_singleton]. intros s Hs ->%list_elem_of_singleton.
    apply (dev_children Hd) in Hs as (y & Hy & _). by rewrite fresh_absent in Hy.
Qed.

Lemma fresh_inv : inv (d + 1) m' g.
Proof using Hi HB Hp Hfresh Hlists Hdevs.
  pose proof fresh_live as Hlv. pose proof Hlists as (S1 & S2 & S3 & S4). split.
  - intros e z Hz. destruct (decide (e = d)) as [->|He]; [|by apply fresh_old_inv].
    rewrite Hdevs, decide_True in Hz by done. injection Hz as <-. apply fresh_new_inv.
  - intros e He. apply Hlv. left. by apply (inv_pinned Hi).
  - apply (inv_ghost Hi).
  - rewrite S1. destruct (inv_list Hi) as [H1 H2]. split; [done|]. intros e He. apply Hlv. left. by apply H2.
  - rewrite S3. intros e i He. apply Hlv. left. by eapply (inv_polled Hi).
  - rewrite S4. intros e He. apply Hlv. left. by apply (inv_timers Hi).
  - rewrite S2. intros Hr. rewrite (inv_running Hi Hr). f_equal. rewrite <- !size_dom. f_equal. apply leibniz_equiv.
    intros e. rewrite !elem_of_dom. unfold is_Some. setoid_rewrite map_lookup_filter_Some. cbn. pose proof fresh_absent as Hab.
    split; intros (z & Hz & Hc).
    + assert (e <> d) as He by congruence. exists (if decide (p = Some e) then set_children (fun l => l ++ [d]) z else z).
      split; [by rewrite Hdevs, decide_False, Hz|]. by case_decide.
    + destruct (decide (e = d)) as [->|He].
      * rewrite Hdevs, decide_True in Hz by done. injection Hz as <-. destruct Hc as [_ Hs]. by destruct Hfresh as (_ & _ & ? & _).
      * destruct (fresh_old_dev e z He Hz) as (z0 & Hz0 & ->). exists z0. split; [done|]. by case_decide.
Qed.

Lemma fresh_old : old d m m'.
Proof using Hdevs.
  clear - Hdevs. intros e z He Hz. exists (if decide (p = Some e) then set_children (fun l => l ++ [d]) z else z).
  split; [by rewrite Hdevs, decide_False, Hz by lia|]. by case_decide.
Qed.

Lemma fresh_life O : (pages c = 0 -> nr_fds c = 0%nat) -> life O m -> life (d :: O) m'.
Proof using Hi HB Hfresh Hlists Hdevs.
  intros Hc Hl. destruct Hlists as (S1 & _). destruct Hfresh as (F1 & _).
  assert (d ∉ prof_dev_list m) as Hn.
  { intros Hd. apply (inv_list Hi) in Hd as [z Hz]. by rewrite fresh_absent in Hz. }
  split.
  - intros e z Hz. destruct (decide (e = d)) as [->|He].
    + rewrite Hdevs, decide_True in Hz by done. injection Hz as <-. by rewrite F1.
    + destruct (fresh_old_dev e z He Hz) as (z0 & Hz0 & ->). assert (forall l, conf (set_children l z0) = conf z0) as E by done.
      case_decide; rewrite ?E; by apply (life_wf Hl e).
  - intros e z Hz. destruct (decide (e = d)) as [->|He]; [right; left; by left|].
    destruct (fresh_old_dev e z He Hz) as (z0 & Hz0 & ->). rewrite S1.
    destruct (life_listed Hl e z0 Hz0) as [?|[?|?]]; [by left|right; left; by right|right; right; by case_decide].
  - rewrite S1. intros e z t He Hz Ht. assert (e <> d) as Hed by (intros ->; done).
    destruct (fresh_old_dev e z Hed Hz) as (z0 & Hz0 & ->).
    destruct (life_order Hl e z0 t He Hz0) as [[? ?]|?]; [by case_decide| |by right].
    left. split; [by right|by case_decide].
Qed.
End fresh.
