(* ===== verification/DeviceOpened.v ===== *)
(** * Devices: what is opened satisfies the invariant (monitor.c)

    A tree of devices that is opened, some forwarded to their parents, keeps the invariant
    of the references and of the list ([open_total]). *)

From S2P Require Import Prelude Device DeviceRun DeviceOpen DeviceInv DeviceStep DeviceRefs DevicePut DeviceLoop DeviceClose DeviceTotal DeviceBodies DeviceSafe DeviceEnable DeviceLife.

(** The first address after those of the devices, if these increase from [lo] on, are those
    of devices with descriptors only where there are ring buffers, and nothing fails. *)
Fixpoint numbered (lo : Z) (s : spec) : option Z :=
  match s with
  | Spec d c _ children NoFailure =>
      if (lo <=? d) && normal c && (negb (pages c =? 0) || (nr_fds c =? 0)%nat)
      then numbered_all (d + 1) children else None
  | _ => None
  end
with numbered_all (lo : Z) (l : specs) : option Z :=
  match l with
  | NoChildren => Some lo
  | Child s _ l => hi ← numbered lo s; numbered_all hi l
  end.

Lemma numbered_inv lo d c k children f hi :
  numbered lo (Spec d c k children f) = Some hi ->
  f = NoFailure /\ lo <= d /\ normal c = true /\ (pages c = 0 -> nr_fds c = 0%nat) /\ numbered_all (d + 1) children = Some hi.
Proof.
  cbn. destruct f; try done. destruct (Z.leb_spec lo d), (normal c), (Z.eqb_spec (pages c) 0), (Nat.eqb_spec (nr_fds c) 0); cbn; try done; intros Hn; repeat split; try done; lia.
Qed.

Lemma numbered_le :
  (forall s lo hi, numbered lo s = Some hi -> lo < hi) /\ (forall l lo hi, numbered_all lo l = Some hi -> lo <= hi).
Proof.
  apply spec_specs_ind.
  - intros d c k l IH f lo hi Hn. apply numbered_inv in Hn as (_ & Hd & _ & _ & Hn). apply IH in Hn. lia.
  - intros lo hi [= <-]. lia.
  - intros s IHs fwd l IHl lo hi Hn. cbn in Hn. destruct (numbered lo s) as [h|] eqn:E; [|done].
    apply IHs in E. apply IHl in Hn. lia.
Qed.

(** ** Forwarding *)

Definition forwarded (c p : Z) (r : bool) (e : Z) (z : prof_dev) : prof_dev :=
  if decide (e = c) then set_target (Some p) r z
  else if decide (e = p) then set_sources (fun l => l ++ [c]) z else z.

Lemma forwarded_same c p r e z :
  let y := forwarded c p r e z in
  conf y = conf z /\ refcount y = refcount z /\ state y = state z /\ inflush y = inflush z /\ inclose y = inclose z /\
  clone y = clone z /\ parent y = parent z /\ child_list y = child_list z /\
  target y = (if decide (e = c) then Some p else target z) /\
  source_list y = (if decide (e = c) then source_list z else if decide (e = p) then source_list z ++ [c] else source_list z).
Proof. unfold forwarded. cbn zeta. repeat case_decide; done. Qed.

Lemma forward_done c p m x y :
  devs m !! c = Some x -> devs m !! p = Some y -> c <> p ->
  exists m' r, prof_dev_forward c p true true true m = Done 0 m' /\ same_lists m m' /\
    forall e, devs m' !! e = forwarded c p r e <$> devs m !! e.
Proof.
  intros Hx Hy Hne. unfold prof_dev_forward, mbind, M_bind. cbn [andb]. rewrite (dev_ok _ _ _ Hx), (dev_ok _ _ _ Hy).
  set (r := ins_reset x || _). destruct (set_dev_spec m c x (set_target (Some p) r) Hx) as (m1 & E1 & Hm1 & S1).
  destruct (set_dev_spec m1 p y (set_sources (fun l => l ++ [c]))) as (m2 & E2 & Hm2 & S2); [by rewrite Hm1, lookup_insert_ne|].
  exists m2, r. rewrite E1, E2. split; [done|]. split.
  { destruct S1 as (? & ? & ? & ?), S2 as (? & ? & ? & ?). repeat split; congruence. }
  intros e. rewrite Hm2, Hm1. unfold forwarded. destruct (decide (e = p)) as [->|Hep].
  - rewrite lookup_insert_eq, Hy. cbn. by rewrite decide_False.
  - rewrite lookup_insert_ne by done. destruct (decide (e = c)) as [->|Hec]; [by rewrite lookup_insert_eq, Hx|].
    rewrite lookup_insert_ne by done. by destruct (devs m !! e).
Qed.

Section forward.
Variables (B c p : Z) (r : bool) (m m' : memory) (g : ghost) (x y : prof_dev).
Hypothesis Hi : inv B m g.
Hypothesis Hx : devs m !! c = Some x.
Hypothesis Hxp : parent x = Some p.
Hypothesis Hxc : clone x = false.
Hypothesis Hxt : target x = None.
Hypothesis Hy : devs m !! p = Some y.
Hypothesis Hyc : inclose y = false.
Hypothesis Hpin : (0 < pins g p)%nat.
Hypothesis Hlists : same_lists m m'.
Hypothesis Hdevs : forall e, devs m' !! e = forwarded c p r e <$> devs m !! e.

Lemma forward_lookup e z : devs m' !! e = Some z -> exists z0, devs m !! e = Some z0 /\ z = forwarded c p r e z0.
Proof using Hdevs. rewrite Hdevs. intros (z0 & Hz0 & ->)%fmap_Some_1. by exists z0. Qed.

Lemma forward_live e : live m' e <-> live m e.
Proof using Hdevs. unfold live. by rewrite Hdevs, fmap_is_Some. Qed.

Lemma forward_lt : p < c.
Proof using Hi Hx Hxp. by apply (dev_parent (inv_dev Hi c x Hx)). Qed.

Lemma forward_parents e s :
  (exists z, devs m' !! s = Some z /\ parent z = Some e) <-> (exists z, devs m !! s = Some z /\ parent z = Some e).
Proof using Hdevs.
  split.
  - intros (z & Hz & Hp). destruct (forward_lookup s z Hz) as (z0 & Hz0 & ->). exists z0. split; [done|].
    by destruct (forwarded_same c p r s z0) as (_ & _ & _ & _ & _ & _ & <- & _).
  - intros (z & Hz & Hp). exists (forwarded c p r s z). split; [by rewrite Hdevs, Hz|].
    by destruct (forwarded_same c p r s z) as (_ & _ & _ & _ & _ & _ & -> & _).
Qed.

Lemma forward_targets e s :
  (exists z, devs m' !! s = Some z /\ target z = Some e) <->
  (exists z, devs m !! s = Some z /\ target z = Some e) \/ (s = c /\ e = p).
Proof using Hdevs Hx Hxt.
  assert (forall z, target (forwarded c p r s z) = (if decide (s = c) then Some p else target z)) as Ht
    by (intros z; apply forwarded_same).
  split.
  - intros (z & Hz & Hp). destruct (forward_lookup s z Hz) as (z0 & Hz0 & ->). rewrite Ht in Hp.
    case_decide as Hs; [right; split; congruence|]. left. by exists z0.
  - intros [(z & Hz & Hp)|[-> ->]].
    + exists (forwarded c p r s z). split; [by rewrite Hdevs, Hz|]. rewrite Ht. case_decide; [congruence|done].
    + exists (forwarded c p r c x). split; [by rewrite Hdevs, Hx|]. rewrite Ht. by rewrite decide_True.
Qed.

Lemma forward_dev e z0 : devs m !! e = Some z0 -> dev_inv B m' g e (forwarded c p r e z0).
Proof using Hi Hx Hxp Hxc Hxt Hy Hyc Hpin Hlists Hdevs.
  intros Hz. pose proof (inv_dev Hi e z0 Hz) as Hd. pose proof forward_lt as Hlt. pose proof Hlists as (S1 & S2 & S3 & S4).
  pose proof (forward_parents e) as Hpar. pose proof (forward_targets e) as Htar. pose proof forward_live as Hlv.
  destruct (forwarded_same c p r e z0) as (F1 & F2 & F3 & F4 & F5 & F6 & F7 & F8 & F9 & F10).
  split; rewrite ?F1, ?F2, ?F3, ?F4, ?F5, ?F6, ?F7, ?F8, ?F9, ?F10, ?S1, ?S3, ?S4; try apply Hd.
  - intros H1 H2. destruct (dev_closed Hd H1 H2) as (? & ? & H3). split; [done|]. split; [done|].
    intros s z Hsz Ht. destruct (proj1 (Htar s)) as [(w & Hw & Hwt)|[-> ->]]; [by exists z| |congruence].
    destruct (forward_lookup s z Hsz) as (w' & Hw' & ->). destruct (forwarded_same c p r s w') as (_ & _ & _ & _ & -> & _).
    assert (w' = w) as -> by congruence. by eapply H3.
  - intros q Hq. rewrite Hlv. by apply (dev_parent Hd).
  - intros t. case_decide as He; intros Ht; rewrite Hlv; [|by apply (dev_target Hd)].
    injection Ht as <-. subst e. split; [done|]. split; [by exists y|done].
  - intros q w Hq Hw. destruct (forward_lookup q w Hw) as (w0 & Hw0 & ->).
    destruct (forwarded_same c p r q w0) as (_ & _ & _ & _ & _ & _ & _ & _ & -> & _). destruct (decide (e = c)) as [He|He].
    + subst e. assert (z0 = x) as -> by congruence. right. rewrite Hxc. congruence.
    + destruct (decide (q = c)) as [Hqc|Hqc]; [|by apply (dev_family Hd q)]. subst q. destruct (dev_family Hd c x Hq Hx) as [?|Hf]; [by left|].
      destruct (clone z0); [left; congruence|by right].
  - intros s. rewrite Hpar. apply (dev_children Hd).
  - intros s. rewrite Htar. rewrite <- (dev_sources Hd). case_decide as He; [|case_decide as Hep].
    + subst e. split; [by left|]. intros [?|[_ ?]]; [done|lia].
    + rewrite elem_of_app, elem_of_cons, elem_of_nil. tauto.
    + split; [by left|]. intros [?|[_ ?]]; [done|congruence].
  - destruct (dev_nodup Hd) as [H1 H2]. split; [done|]. repeat case_decide; [done| |done]. apply NoDup_app. split; [done|].
    split; [|apply NoDup_singleton]. intros s Hs ->%list_elem_of_singleton.
    apply (dev_sources Hd) in Hs as (w & Hw & Hwt). congruence.
Qed.

Lemma forward_inv : inv B m' g.
Proof using Hi Hx Hxp Hxc Hxt Hy Hyc Hpin Hlists Hdevs.
  pose proof forward_live as Hlv. pose proof Hlists as (S1 & S2 & S3 & S4). split.
  - intros e z Hz. destruct (forward_lookup e z Hz) as (z0 & Hz0 & ->). by apply forward_dev.
  - intros e He. by apply Hlv, (inv_pinned Hi).
  - apply (inv_ghost Hi).
  - rewrite S1. destruct (inv_list Hi) as [H1 H2]. split; [done|]. intros e He. by apply Hlv, H2.
  - rewrite S3. intros e i He. by apply Hlv, (inv_polled Hi e i).
  - rewrite S4. intros e He. by apply Hlv, (inv_timers Hi).
  - rewrite S2. intros Hr. rewrite (inv_running Hi Hr). f_equal. rewrite <- !size_dom. f_equal. apply leibniz_equiv.
    intros e. rewrite !elem_of_dom. unfold is_Some. setoid_rewrite map_lookup_filter_Some. cbn. rewrite Hdevs.
    assert (forall z, counted (forwarded c p r e z) <-> counted z) as Hc.
    { intros z. unfold counted. by destruct (forwarded_same c p r e z) as (-> & _ & -> & _). }
    split; intros (z & Hz & Hcz).
    + exists (forwarded c p r e z). rewrite Hz, Hc. done.
    + destruct (fmap_Some_1 _ _ _ Hz) as (z0 & Hz0 & ->). exists z0. rewrite Hc in Hcz. done.
Qed.

Lemma forward_life O : p ∈ O -> life O m -> life O m'.
Proof using Hx Hxp Hlists Hdevs.
  intros Hp Hl. destruct Hlists as (S1 & _). split.
  - intros e z Hz. destruct (forward_lookup e z Hz) as (z0 & Hz0 & ->).
    destruct (forwarded_same c p r e z0) as (-> & _). by apply (life_wf Hl e).
  - intros e z Hz. destruct (forward_lookup e z Hz) as (z0 & Hz0 & ->).
    destruct (forwarded_same c p r e z0) as (_ & _ & _ & _ & -> & _). rewrite S1. by apply (life_listed Hl).
  - rewrite S1. intros e z t He Hz. destruct (forward_lookup e z Hz) as (z0 & Hz0 & ->).
    destruct (forwarded_same c p r e z0) as (_ & _ & _ & _ & _ & _ & -> & _ & -> & _). case_decide as Hec.
    + intros [= <-]. left. split; [done|]. congruence.
    + by apply (life_order Hl).
Qed.

Lemma forward_old : old c m m'.
Proof using Hdevs.
  clear - Hdevs. intros e z He Hz. exists (forwarded c p r e z). split; [by rewrite Hdevs, Hz|].
  destruct (forwarded_same c p r e z) as (-> & _ & -> & _ & -> & -> & -> & _ & -> & _). rewrite decide_False by lia. done.
Qed.
End forward.

(** What is below [lo] stays as it is. *)
Definition keeps (lo : Z) (m m' : memory) : Prop :=
  old lo m m' /\ forall e, e < lo -> e ∈ prof_dev_list m' -> e ∈ prof_dev_list m.

Lemma keeps_below_trans lo lo' m1 m2 m3 : lo <= lo' -> keeps lo m1 m2 -> keeps lo' m2 m3 -> keeps lo m1 m3.
Proof.
  intros Hle [H1 L1] [H2 L2]. split; [by apply (old_trans lo lo' m1 m2 m3)|]. intros e He Hin. apply L1, L2; [done|lia|done].
Qed.

Lemma keeps_old lo m m' : old lo m m' -> prof_dev_list m' = prof_dev_list m -> keeps lo m m'.
Proof. intros Ho El. split; [done|]. by rewrite El. Qed.

(** ** The list of devices *)

Lemma before_cons t d l x : before t d l -> before t d (x :: l).
Proof. by right. Qed.

Lemma list_add_ok B m g d x O :
  inv B m g -> life (d :: O) m -> devs m !! d = Some x -> normal (conf x) = true -> inclose x = false ->
  d ∉ prof_dev_list m -> d ∉ O -> target x = None ->
  exists m', list_add d m = Done tt m' /\ inv B m' g /\ life O m' /\ devs m' = devs m /\
    forall lo m0, lo <= d -> keeps lo m0 m -> keeps lo m0 m'.
Proof.
  intros Hi Hl Hx Hn Hc Hd HO Ht. pose proof (inv_dev Hi d x Hx) as Hdi.
  set (f := fun l => if bool_decide (child_list x = []) then l ++ [d] else d :: l).
  assert (forall e, e ∈ f (prof_dev_list m) <-> e = d \/ e ∈ prof_dev_list m) as Hf.
  { intros e. unfold f. case_bool_decide; rewrite ?elem_of_app, ?elem_of_cons, ?elem_of_nil; tauto. }
  exists (set_list f m). split.
  { unfold list_add, mbind, M_bind. rewrite (dev_ok _ _ _ Hx), Hn. done. }
  split; [|split; [|split; [done|]]].
  - split; try apply Hi.
    + intros e z Hz. change (devs m !! e = Some z) in Hz. pose proof (inv_dev Hi e z Hz) as He. split; try apply He.
      intros H1 H2. destruct (dev_closed He H1 H2) as (? & ? & ?). split; [done|]. split; [|done]. cbn. rewrite Hf.
      intros [->|?]; [congruence|done].
    + destruct (inv_list Hi) as [H1 H2]. split.
      * cbn. unfold f. case_bool_decide; [|by apply NoDup_cons]. apply NoDup_app. split; [done|].
        split; [|apply NoDup_singleton]. by intros e He ->%list_elem_of_singleton.
      * intros e [->|He]%Hf; [by exists x|by apply H2].
  - split.
    + apply (life_wf Hl).
    + intros e z Hz. cbn. rewrite Hf. destruct (life_listed Hl e z Hz) as [?|[[->|?]%elem_of_cons|?]]; auto.
    + intros e z t [->|He]%Hf Hz Htz; [change (devs m !! d = Some z) in Hz; congruence|].
      destruct (life_order Hl e z t He Hz Htz) as [[[->|?]%elem_of_cons Hp]|Hb].
      * right. cbn. unfold f. rewrite bool_decide_eq_false_2; [by left|]. intros Hcl.
        assert (e ∈ child_list x) as Hin by (apply (dev_children Hdi); by exists z). rewrite Hcl in Hin. by apply elem_of_nil in Hin.
      * by left.
      * right. cbn. unfold f. case_bool_decide; [by apply before_snoc|by apply before_cons].
  - intros lo m0 Hlo [Ho1 Hk1]. split; [exact Ho1|]. intros e He [->|Hin]%Hf; [lia|auto].
Qed.

(** A reference of a device that is not closed is put. *)
Lemma put_keeps B O m g d x lo :
  inv B m (pin d g) -> ghost_ok g -> calm g -> (forall t, t ∈ O -> (0 < pins g t)%nat) -> life O m ->
  targets_pinned m g -> devs m !! d = Some x -> inclose x = false -> lo <= d ->
  exists m' x', prof_dev_put d m = Done false m' /\ inv B m' g /\ life O m' /\ keeps lo m m' /\
    devs m' !! d = Some x' /\ same_links x x' /\ inclose x' = false.
Proof.
  intros Hi Hok Hc HO Hl Ht Hx Hxc Hlo.
  destruct (put_ok B m g d Hi Hok Ht) as (b & m' & E & Hi' & Hm & _ & _ & Hb & Hlv).
  assert (b = false) as -> by (by apply (Hb x)).
  destruct (set_dev_spec m d x (set_refcount (fun k => k - 1)) Hx) as (m1 & E1 & Hm1 & S1).
  assert (m1 = m') as ->.
  { revert E. unfold prof_dev_put, mbind, M_bind. rewrite E1, (dev_ok _ d (set_refcount (fun k => k - 1) x)); [|by rewrite Hm1, lookup_insert_eq].
    destruct (refcount _ =? 0); [|by intros [= ->]]. destruct (prof_dev_free d m1); done. }
  exists m', (set_refcount (fun k => k - 1) x). split; [done|]. split; [done|]. split.
  { exact (life_kin B B O m m' (pin d g) g Hi Hc HO Hl (mono_kin _ _ Hm) Hi'). }
  split; [|split; [by rewrite Hm1, lookup_insert_eq|done]].
  apply keeps_old; [|apply S1]. intros e z He Hz. exists z. rewrite Hm1, lookup_insert_ne by lia. repeat split; done.
Qed.

(** ** Opening a tree *)

Section opening.
Context `{Profilers}.

(** The device that [finish_open] gets. *)
Definition begun (lo hi d : Z) (c : config) (p : option Z) (O : list Z) (g : ghost) (m m' : memory) : Prop :=
  inv hi m' (pin d g) /\ life (d :: O) m' /\ keeps lo m m' /\ lo <= d /\ d ∉ O /\ d ∉ prof_dev_list m' /\ exists x, devs m' !! d = Some x /\
    conf x = c /\ parent x = p /\ clone x = false /\ target x = None /\ inclose x = false /\
    state x = match p with Some _ => STATE_OFF | None => STATE_INACTIVE end.

Definition children_open (l : specs) : Prop :=
  forall lo hi d x m g O,
    numbered_all lo l = Some hi -> 0 <= lo -> inv lo m g -> calm g -> (forall t, t ∈ O -> (0 < pins g t)%nat) ->
    life O m -> d ∈ O -> devs m !! d = Some x -> state_val (state x) <= 0 -> inclose x = false ->
    total (fun n => init_children n l d) m (fun ok m' => ok = true /\ inv hi m' g /\ life O m' /\ keeps lo m m').

Lemma open_begin d c k children lo hi p y m g O (Q : option Z -> memory -> Prop) :
  children_open children -> numbered lo (Spec d c k children NoFailure) = Some hi -> 0 <= lo -> inv lo m g -> calm g ->
  (forall t, t ∈ O -> (0 < pins g t)%nat) -> life O m ->
  (match p with Some p => devs m !! p = Some y /\ state_val (state y) <= 0 | None => True end) ->
  (forall m', begun lo hi d c p O g m m' -> total (fun n => finish_open n d false) m' Q) ->
  total (fun n => prof_dev_open_internal n (Spec d c k children NoFailure) p false) m Q.
Proof using.
  intros Hch Hn H0 Hi Hc HO Hl Hp Hk. apply numbered_inv in Hn as (_ & Hlo & _ & Hwf & Hn).
  cbn [prof_dev_open_internal].
  assert (match p with Some p => devs m !! p = Some y /\ p <> d | None => True end) as Hp'.
  { destruct p as [p|]; [|done]. destruct Hp as [Hy _]. split; [done|]. pose proof (dev_bound (inv_dev Hi p y Hy)). lia. }
  destruct (alloc_mem d c k p m y Hp') as (m1 & x1 & E1 & S1 & F1 & St1 & D1).
  assert (forall q, p = Some q -> live m q) as Hpl by (intros q ->; exists y; apply Hp).
  assert (0 <= lo <= d) as HB by lia.
  pose proof (fresh_inv lo d c p m m1 g x1 Hi HB Hpl F1 S1 D1) as Hi1.
  pose proof (fresh_life lo d c p m m1 g x1 Hi HB F1 S1 D1 O Hwf Hl) as Hl1.
  pose proof (fresh_old d p m m1 x1 D1) as Ho1.
  pose proof (fresh_absent lo d m g Hi HB) as Hab.
  destruct F1 as (F1 & F2 & F3 & F4 & F5 & F6 & F7 & F8 & F9 & F10 & F11).
  assert (devs m1 !! d = Some x1) as Hx1 by (by rewrite D1, decide_True).
  eapply total_step; [exact E1|].
  assert (forall t, t ∈ O -> t <> d) as HOd.
  { intros t Ht ->. destruct (inv_pinned Hi d (HO d Ht)) as [z Hz]. congruence. }
  destruct (get_ok (d + 1) m1 g d Hi1) as (m2 & E2 & Hi2 & Hm2 & _ & Hs2); [by exists x1|intros z t Hz Hzt; congruence|].
  destruct (Hs2 d x1 Hx1) as (x2 & Hx2 & (G1 & G2 & G3 & G4 & G5 & G6) & Hcl2 & Hst2 & _).
  assert (forall t, t ∈ d :: O -> (0 < pins (pin d g) t)%nat) as HO2.
  { intros t [->|Ht]%elem_of_cons; [rewrite pins_pin; lia|]. rewrite pins_pin_ne by (by apply HOd). by apply HO. }
  pose proof (life_kin (d + 1) (d + 1) (d :: O) m1 m2 g (pin d g) Hi1 Hc HO2 Hl1 (mono_kin _ _ Hm2) Hi2) as Hl2.
  assert (keeps lo m m2) as Hk2.
  { split.
    - apply (old_trans lo d m m1 m2); [lia|intros e z He; apply Ho1; lia|].
      intros e z _ Hz. destruct (Hs2 e z Hz) as (z' & Hz' & (? & ? & ? & ? & ? & ?) & ? & ? & _). by exists z'.
    - intros e _ He. destruct S1 as (<- & _). by eapply elem_of_sublist; [|apply (mono_list Hm2)]. }
  assert (d ∉ prof_dev_list m2) as Hd2.
  { intros Hin. assert (d ∈ prof_dev_list m1) as Hin1 by (by eapply elem_of_sublist; [|apply (mono_list Hm2)]).
    destruct S1 as (S1 & _). rewrite S1 in Hin1. apply (inv_list Hi) in Hin1 as [z Hz]. congruence. }
  eapply total_step; [exact E2|].
  assert (state x2 = match p with Some _ => STATE_OFF | None => STATE_INACTIVE end) as Est.
  { rewrite Hst2, St1. destruct p; [|done]. destruct Hp as [_ Hs]. by rewrite (proj2 (Z.leb_le _ _)). }
  apply (total_bind (fun n => init_children n children d)).
  eapply total_mono; [apply (Hch (d + 1) hi d x2 m2 (pin d g) (d :: O)); try done; [lia|by left|by rewrite Est; destruct p|congruence]|].
  intros ok m3 (-> & Hi3 & Hl3 & Hk3). cbn. apply Hk. split; [done|]. split; [done|].
  split; [apply (keeps_below_trans lo (d + 1) m m2 m3); [lia|done|done]|]. split; [done|].
  split; [intros Hin; by apply (HOd d)|]. split.
  { intros Hin. apply Hd2, Hk3; [lia|done]. }
  destruct (proj1 Hk3 d x2 ltac:(lia) Hx2) as (x3 & Hx3 & K1 & K2 & K3 & K4 & K5 & K6). exists x3.
  split; [done|]. repeat split; congruence.
Qed.

Lemma keeps_targets_pinned lo m m' g : inv lo m g -> keeps lo m m' -> targets_pinned m' g.
Proof using.
  intros Hi [Ho _] s z t Hz Ht Hs. destruct (inv_pinned Hi s Hs) as [z0 Hz0]. pose proof (inv_dev Hi s z0 Hz0) as Hd.
  pose proof (dev_bound Hd). destruct (Ho s z0 ltac:(lia) Hz0) as (z1 & Hz1 & _ & _ & _ & E & _).
  assert (z1 = z) as -> by congruence. apply (dev_target Hd t); [congruence|done].
Qed.

(** A child is not enabled before its parent. *)
Lemma finish_child lo hi d c p O g m m1 :
  inv lo m g -> calm g -> (forall t, t ∈ O -> (0 < pins g t)%nat) -> normal c = true ->
  begun lo hi d c (Some p) O g m m1 ->
  total (fun n => finish_open n d false) m1 (fun o m' => o = Some d /\ inv hi m' g /\ life O m' /\ keeps lo m m' /\
    exists x, devs m' !! d = Some x /\ parent x = Some p /\ clone x = false /\ target x = None).
Proof using.
  intros Hi Hc HO Hn (Hi1 & Hl1 & Hk1 & Hlo & HdO & Hd & x & Hx & X1 & X2 & X3 & X4 & X5 & X6).
  destruct (list_add_ok hi m1 (pin d g) d x O Hi1 Hl1 Hx) as (m2 & E2 & Hi2 & Hl2 & D2 & L2); [congruence|done..|].
  unfold finish_open. eapply total_step; [exact E2|].
  assert (devs m2 !! d = Some x) as Hx2 by (by rewrite D2).
  apply (dev_step m2 d x _ _ Hx2). rewrite X6. cbn.
  pose proof (L2 lo m Hlo Hk1) as Hk2.
  destruct (put_keeps hi O m2 g d x lo Hi2 (inv_ghost Hi) Hc HO Hl2) as (m3 & x3 & E3 & Hi3 & Hl3 & Hk3 & Hx3 & (S1 & S2 & S3 & S4 & S5 & S6) & _);
    [by eapply keeps_targets_pinned|done|done|done|].
  eapply total_step; [exact E3|]. apply total_ret. split; [done|]. split; [done|]. split; [done|]. split.
  - by apply (keeps_below_trans lo lo m m2 m3).
  - exists x3. repeat split; congruence.
Qed.

Definition child_open (s : spec) : Prop :=
  forall lo hi p y m g O,
    numbered lo s = Some hi -> 0 <= lo -> inv lo m g -> calm g -> (forall t, t ∈ O -> (0 < pins g t)%nat) ->
    life O m -> devs m !! p = Some y -> state_val (state y) <= 0 ->
    total (fun n => prof_dev_open_internal n s (Some p) false) m (fun o m' => exists d x, o = Some d /\ lo <= d /\
      inv hi m' g /\ life O m' /\ keeps lo m m' /\
      devs m' !! d = Some x /\ parent x = Some p /\ clone x = false /\ target x = None).

Lemma open_child d c k children f : children_open children -> child_open (Spec d c k children f).
Proof using.
  intros Hch lo hi p y m g O Hn H0 Hi Hc HO Hl Hy Hs. pose proof (numbered_inv _ _ _ _ _ _ _ Hn) as (-> & _ & Hnorm & _).
  apply (open_begin d c k children lo hi (Some p) y m g O _ Hch Hn H0 Hi Hc HO Hl (conj Hy Hs)). intros m1 Hb.
  pose proof Hb as (_ & _ & _ & Hlo & _).
  eapply total_mono; [by apply (finish_child lo hi d c p O g m m1)|].
  intros o m2 (-> & Hi2 & Hl2 & Hk2 & x & Hx). exists d, x. done.
Qed.

(** A child that is open is forwarded. *)
Lemma forward_child lo hi c p m g O x y :
  inv hi m g -> (forall t, t ∈ O -> (0 < pins g t)%nat) -> life O m -> p ∈ O -> lo <= c ->
  devs m !! c = Some x -> parent x = Some p -> clone x = false -> target x = None ->
  devs m !! p = Some y -> inclose y = false ->
  exists m', prof_dev_forward c p true true true m = Done 0 m' /\ inv hi m' g /\ life O m' /\ keeps lo m m'.
Proof using.
  intros Hi HO Hl Hp Hlo Hx X1 X2 X3 Hy Hyc.
  assert (p < c) as Hlt by (by apply (dev_parent (inv_dev Hi c x Hx))).
  destruct (forward_done c p m x y Hx Hy) as (m' & r & E & S & D); [lia|].
  exists m'. split; [done|]. split; [by apply (forward_inv hi c p r m m' g x y); try done; apply HO|].
  split; [by apply (forward_life c p r m m' x)|]. apply keeps_old; [|apply S].
  pose proof (forward_old c p r m m' D) as Ho. intros e z He. apply Ho. lia.
Qed.

Lemma open_children : (forall s, child_open s) /\ (forall l, children_open l).
Proof using.
  apply spec_specs_ind.
  - intros d c k children IH f. by apply open_child.
  - intros lo hi d x m g O [= <-] H0 Hi Hc HO Hl Hd Hx Hs Hxc. apply total_ret. split; [done|]. split; [done|]. split; [done|].
    apply keeps_old; [apply old_refl|done].
  - intros s IHs fwd l IHl lo hi d x m g O Hn H0 Hi Hc HO Hl Hd Hx Hs Hxc.
    cbn in Hn. destruct (numbered lo s) as [h|] eqn:Es; [|done]. pose proof (proj1 numbered_le s lo h Es) as Hh.
    cbn [init_children]. apply (total_bind (fun n => prof_dev_open_internal n s (Some d) false)).
    eapply total_mono; [by apply (IHs lo h d x m g O)|].
    intros o m1 (c & y & -> & Hlo & Hi1 & Hl1 & Hk1 & Hy & Y1 & Y2 & Y3).
    pose proof (dev_bound (inv_dev Hi d x Hx)) as Hdb.
    destruct (proj1 Hk1 d x ltac:(lia) Hx) as (x1 & Hx1 & K1 & K2 & _).
    assert (exists m2, (if fwd then prof_dev_forward c d true true true else ret 0 : M Z) m1 = Done 0 m2 /\ inv h m2 g /\ life O m2 /\
      keeps lo m1 m2) as (m2 & E2 & Hi2 & Hl2 & Hk2).
    { destruct fwd; [apply (forward_child lo h c d m1 g O y x1); try done; congruence|].
      exists m1. split; [done|]. split; [done|]. split; [done|]. apply keeps_old; [apply old_refl|done]. }
    eapply total_step; [exact E2|]. cbn.
    destruct (proj1 Hk2 d x1 ltac:(lia) Hx1) as (x2 & Hx2 & K3 & K4 & _).
    eapply total_mono; [apply (IHl h hi d x2 m2 g O); try done; [lia|congruence..]|].
    intros ok m3 (-> & Hi3 & Hl3 & Hk3). split; [done|]. split; [done|]. split; [done|].
    apply (keeps_below_trans lo h m m2 m3); [lia| |done]. by apply (keeps_below_trans lo lo m m1 m2).
Qed.

Hypothesis Hpoll : forall d i m, poll_fails d i m = false.
Hypothesis Hquiet : forall d m x, devs m !! d = Some x -> is_Some (parent x) -> acts OnEnabled d None m = [].

Lemma open_total s lo hi m g :
  numbered lo s = Some hi -> 0 <= lo -> inv lo m g -> calm g -> life [] m ->
  total (fun n => prof_dev_open n s) m (fun o m' => inv hi m' g /\ life [] m' /\
    forall d, o = Some d -> live m' d).
Proof using Hpoll Hquiet.
  intros Hn H0 Hi Hc Hl. destruct s as [d c k children f]. pose proof (numbered_inv _ _ _ _ _ _ _ Hn) as (-> & _ & Hnorm & _).
  assert (forall t, t ∈ @nil Z -> (0 < pins g t)%nat) as Hnil by (intros t Ht; by apply elem_of_nil in Ht).
  apply (open_begin d c k children lo hi None (new_dev c STATE_OFF None false []) m g [] _ (proj2 open_children children) Hn H0 Hi Hc); [done..|].
  intros m1 (Hi1 & Hl1 & Hk1 & Hlo & _ & Hd & x & Hx & X1 & X2 & X3 & X4 & X5 & X6).
  destruct (list_add_ok hi m1 (pin d g) d x [] Hi1 Hl1 Hx) as (m2 & E2 & Hi2 & Hl2 & D2 & L2);
    [congruence|done|done|apply not_elem_of_nil|done|].
  unfold finish_open. eapply total_step; [exact E2|]. assert (devs m2 !! d = Some x) as Hx2 by (by rewrite D2).
  apply (dev_step m2 d x _ _ Hx2). rewrite X6. rewrite bool_decide_eq_true_2 by done.
  apply (total_bind (fun n => prof_dev_enable n d)).
  eapply total_mono; [apply (enable_total Hpoll Hquiet hi (S (Z.to_nat hi - Z.to_nat d)) d m2 (pin d g) x)|]; try done.
  - lia.
  - apply (life_wf Hl2).
  - apply (pinned_held hi); [done|]. rewrite pins_pin. lia.
  - intros z p Hz Hzp. congruence.
  - intros err m3 (-> & Hi3 & Hk3 & _). cbn.
    assert (life [] m3) as Hl3 by exact (life_kin hi hi [] m2 m3 (pin d g) (pin d g) Hi2 Hc (fun t Ht => False_ind _ (not_elem_of_nil t Ht)) Hl2 Hk3 Hi3).
    destruct (put_ok hi m3 g d Hi3 (inv_ghost Hi)) as (b & m4 & E4 & Hi4 & Hm4 & _ & _ & _ & Hb).
    { apply (targets_pinned_kin m2); [done|]. by apply (keeps_targets_pinned lo m m2 g Hi), L2. }
    eapply total_step; [exact E4|]. apply total_ret. split; [done|]. split.
    + exact (life_kin hi hi [] m3 m4 (pin d g) g Hi3 Hc (fun t Ht => False_ind _ (not_elem_of_nil t Ht)) Hl3 (mono_kin _ _ Hm4) Hi4).
    + intros e. destruct b; [done|]. intros [= <-]. by apply Hb.
Qed.
End opening.
