(* ===== verification/DeviceFuel.v ===== *)
(** * Devices: more fuel

    A run that ends does the same with more fuel ([run_more], [open_more]), so what the
    program does does not depend on the fuel. *)

From S2P Require Import Prelude Device DeviceRun DeviceOpen.

(** [c'] does what [c] does, if that ends. *)
Definition refined {A} (c c' : M A) : Prop := forall m a m', c m = Done a m' -> c' m = Done a m'.

Lemma refined_refl {A} (c : M A) : refined c c.
Proof. by intros m a m'. Qed.

Lemma refined_bind {A C} (c c' : M A) (k k' : A -> M C) :
  refined c c' -> (forall a, refined (k a) (k' a)) -> refined (c ≫= k) (c' ≫= k').
Proof.
  intros Hc Hk m b m'. unfold mbind, M_bind. destruct (c m) as [a m1|d|] eqn:E; [|done|done].
  rewrite (Hc m a m1 E). apply Hk.
Qed.

Lemma refined_no_fuel {A} (c : M A) : refined no_fuel c.
Proof. done. Qed.

Create HintDb fuel.
#[export] Hint Resolve refined_refl refined_no_fuel : fuel.

(** Through the structure of a body. *)
Ltac refining :=
  repeat match goal with
  | |- refined ?c ?c => apply refined_refl
  | |- refined (mbind _ _) (mbind _ _) => apply refined_bind; [|intros ?]
  | |- refined (if ?b then _ else _) (if ?b then _ else _) => destruct b
  | |- refined (match ?x with _ => _ end) (match ?x with _ => _ end) => destruct x
  | |- refined _ _ => solve [eauto 3 with fuel]
  end.

Lemma refined_each {A} (l : list A) b b' : (forall a, refined (b a) (b' a)) -> refined (each l b) (each l b').
Proof. intros Hb. induction l as [|a l IH]; cbn; refining. Qed.

Lemma refined_for_each_from n n' k tmp b b' :
  (n <= n')%nat -> (forall e, refined (b e) (b' e)) -> refined (for_each_from n k tmp b) (for_each_from n' k tmp b').
Proof.
  intros Hn Hb. revert n' tmp Hn. induction n as [|n IH]; intros n' tmp Hn.
  - destruct tmp as [e|]; [apply refined_no_fuel|]. destruct n'; apply refined_refl.
  - destruct n' as [|n']; [lia|]. destruct tmp as [e|]; [|apply refined_refl]. cbn. refining. apply IH. lia.
Qed.

Lemma refined_for_each n n' k b b' :
  (n <= n')%nat -> (forall e, refined (b e) (b' e)) -> refined (for_each_dev_get n k b) (for_each_dev_get n' k b').
Proof. intros Hn Hb. unfold for_each_dev_get. refining. by apply refined_for_each_from. Qed.

Section fuel.
Context `{Profilers}.

Section bodies.
Variables (call call' : function -> M unit) (n n' : nat).
Hypothesis Hcall : forall f, refined (call f) (call' f).
Hypothesis Hn : (n <= n')%nat.
#[local] Hint Resolve Hcall : fuel.

Lemma refined_callback h d e ins : refined (callback call h d e ins) (callback call' h d e ins).
Proof using Hcall. unfold callback. refining. apply refined_each. intros [|]; unfold run_act; refining. Qed.
#[local] Hint Resolve refined_callback : fuel.

Lemma refined_sample_record d e ins : refined (sample_record call d e ins) (sample_record call' d e ins).
Proof using Hcall. unfold sample_record, handle_sample, close_at_limit. refining. Qed.
#[local] Hint Resolve refined_sample_record : fuel.

Lemma refined_dispatch d e ins : refined (dispatch call d e ins) (dispatch call' d e ins).
Proof using Hcall. unfold dispatch, close_at_limit. destruct e as [r|s]; [destruct (type r)|]; refining. Qed.
#[local] Hint Resolve refined_dispatch : fuel.

Lemma refined_process d e ins : refined (perf_event_process_record call d e ins) (perf_event_process_record call' d e ins).
Proof using Hcall. unfold perf_event_process_record. refining. Qed.
#[local] Hint Resolve refined_process : fuel.

Lemma refined_handle_mmap d i : refined (perf_event_handle_mmap call n d i) (perf_event_handle_mmap call' n' d i).
Proof using Hcall Hn.
  unfold perf_event_handle_mmap. revert n' Hn. induction n as [|k IH]; intros k' Hk; [|destruct k' as [|k']; [lia|]].
  - destruct k' as [|k']; cbn; (apply refined_bind; [apply refined_refl|intros x]); destruct (rings x !! i) as [[|r l]|]; refining.
  - cbn. apply refined_bind; [apply refined_refl|intros x]. destruct (rings x !! i) as [[|r l]|]; refining; apply IH; lia.
Qed.

Lemma refined_handle_mmaps d : refined (handle_mmaps call n d) (handle_mmaps call' n' d).
Proof using Hcall Hn. unfold handle_mmaps. refining. apply refined_each. intros i. apply refined_handle_mmap. Qed.
#[local] Hint Resolve refined_handle_mmaps : fuel.

Lemma refined_body f : refined (body call n f) (body call' n' f).
Proof using Hcall Hn.
  destruct f as [d|d|d final|d|d e ins]; cbn [body];
    unfold prof_dev_close, prof_dev_disable, prof_dev_flush, interval_handle; refining;
    apply refined_for_each; intros; refining; done.
Qed.
End bodies.

Lemma run_more n n' f : (n <= n')%nat -> refined (run n f) (run n' f).
Proof using.
  revert n' f. induction n as [|n IH]; intros n' f Hn; [apply refined_no_fuel|]. destruct n' as [|n']; [lia|].
  cbn. apply refined_body; [|lia]. intros g. apply IH. lia.
Qed.

Section more.
Variables n n' : nat.
Hypothesis Hn : (n <= n')%nat.
#[local] Hint Resolve run_more : fuel.

Lemma callback_more h d e ins : refined (callback (run n) h d e ins) (callback (run n') h d e ins).
Proof using Hn. apply refined_callback. intros f. by apply run_more. Qed.
#[local] Hint Resolve callback_more : fuel.

Lemma ready_more d i hup : refined (perf_event_handle n d i hup) (perf_event_handle n' d i hup).
Proof using Hn.
  unfold perf_event_handle. apply refined_bind; [apply refined_refl|intros _]. apply refined_bind; [|intros _; refining].
  apply refined_handle_mmap; [|done]. intros f. by apply run_more.
Qed.

Lemma list_close_more : refined (prof_dev_list_close n) (prof_dev_list_close n').
Proof using Hn.
  unfold prof_dev_list_close.
  assert (forall k k', (k <= k')%nat -> refined (close_list n k) (close_list n' k')) as Hall; [|by apply Hall].
  induction k as [|k IH]; intros k' Hk; [|destruct k' as [|k']; [lia|]].
  - destruct k' as [|k']; cbn; (apply refined_bind; [apply refined_refl|intros m]); destruct (prof_dev_list m); refining.
  - cbn. apply refined_bind; [apply refined_refl|intros m]. destruct (prof_dev_list m); refining; apply IH; lia.
Qed.
End more.

Lemma enable_more n n' d : (n <= n')%nat -> refined (prof_dev_enable n d) (prof_dev_enable n' d).
Proof using.
  revert n' d. induction n as [|n IH]; intros n' d Hn; [apply refined_no_fuel|]. destruct n' as [|n']; [lia|].
  cbn. unfold enable_body. assert (n <= n')%nat as Hle by lia. pose proof (fun h d e ins => callback_more n n' Hle h d e ins). refining.
  apply refined_for_each; [done|]. intros c. refining.
Qed.

Lemma open_internal_more n n' : (n <= n')%nat ->
  (forall s p b, refined (prof_dev_open_internal n s p b) (prof_dev_open_internal n' s p b)) /\
  (forall l d, refined (init_children n l d) (init_children n' l d)).
Proof using.
  intros Hn.
  assert (forall d, refined (close_children n d) (close_children n' d)) as Hc.
  { intros d. apply refined_for_each; [done|]. intros c. by apply run_more. }
  apply spec_specs_ind.
  - intros d c k l IH f p b. cbn [prof_dev_open_internal]. pose proof (fun d => enable_more n n' d Hn). unfold finish_open. refining.
  - intros d. apply refined_refl.
  - intros s IHs fwd l IHl d. cbn. refining.
Qed.

Lemma open_more n n' s : (n <= n')%nat -> refined (prof_dev_open n s) (prof_dev_open n' s).
Proof using. intros Hn. by apply (open_internal_more n n' Hn). Qed.
End fuel.
