(* ===== verification/DeviceMain.v ===== *)
(** * Devices: the program that opens, polls and closes them (monitor.c)

    The program opens devices, handles what the kernel says of their descriptors and timers,
    and at the end closes the list.  [reachable] are its states between two inputs; from any
    of them every input ends, with no use of a freed device. *)

From S2P Require Import Prelude Device DeviceRun DeviceOpen DeviceFuel DeviceInv DeviceStep DeviceRefs DevicePut DeviceLoop DeviceClose DeviceTotal DeviceBodies DeviceSafe DeviceEnable DeviceLife DeviceOpened.

(** ** Inputs *)

(** What [event_poll__poll] and the options lead to; what the kernel writes to the ring
    buffers of a device; a signal that ends the loop; and the end of the program. *)
Inductive input :=
  | Open (s : spec)
  | Ready (d : Z) (i : nat) (hup : bool)
  | Timer (d : Z)
  | CloseOne (d : Z)
  | DisableOne (d : Z)
  | Write (d : Z) (f : nat -> list record)
  | Interrupt
  | CloseAll.

Definition handle `{Profilers} (n : nat) (e : input) : M unit :=
  match e with
  | Open s => prof_dev_open n s;; ret tt
  | Ready d i hup => perf_event_handle n d i hup
  | Timer d => run n (IntervalDev d)
  | CloseOne d => run n (CloseDev d)
  | DisableOne d => run n (DisableDev d)
  | Write d f => set_dev d (set_rings (imap (fun i l => l ++ f i)))
  | Interrupt => modify (set_running (fun _ => -1))
  | CloseAll => prof_dev_list_close n
  end.

Lemma handle_more `{Profilers} n n' e : (n <= n')%nat -> refined (handle n e) (handle n' e).
Proof.
  intros Hn. destruct e; cbn; try apply refined_refl; try by apply run_more.
  - apply refined_bind; [by apply open_more|]. intros _. apply refined_refl.
  - by apply ready_more.
  - by apply list_close_more.
Qed.

Definition final (m : memory) (d : Z) : bool :=
  match devs m !! d with Some x => prof_dev_is_final x | None => false end.

Definition has_ring (m : memory) (d : Z) (i : nat) : bool :=
  match devs m !! d with Some x => (i <? length (rings x))%nat | None => false end.

(** What may be opened: a tree of devices of which nothing fails ([numbered]), or a device whose
    opening fails before it is enabled and before it has children. *)
Definition openable (B : Z) (s : spec) : option Z :=
  match s with
  | Spec d _ _ _ FailsEarly | Spec d _ _ NoChildren FailsInit | Spec d _ _ NoChildren FailsLater => if B <=? d then Some (d + 1) else None
  | _ => numbered B s
  end.

Lemma openable_inv B s B' : openable B s = Some B' ->
  numbered B s = Some B' \/ exists d c k l f, s = Spec d c k l f /\ B <= d /\ B' = d + 1 /\ (f = FailsEarly \/ l = NoChildren /\ f <> NoFailure).
Proof.
  destruct s as [d c k l f]. cbn [openable]. destruct f, l; try (by left); destruct (Z.leb_spec B d); intros [= <-];
    right; do 5 eexists; (split; [reflexivity|]); (split; [done|]); (split; [done|]); auto.
Qed.

(** The inputs a state can get, with the first address that was not used then: the
    descriptors and timers are those of devices that are not forwarded, and addresses are
    not used again. *)
Definition accepts (B : Z) (m : memory) (e : input) : option Z :=
  match e with
  | Open s => openable B s
  | Ready d i _ => if bool_decide ((d, i) ∈ polled m) && final m d && has_ring m d i then Some B else None
  | Timer d => if bool_decide (d ∈ timers m) && final m d then Some B else None
  | CloseOne d | DisableOne d => if final m d then Some B else None
  | Write d _ => if bool_decide (live m d) then Some B else None
  | Interrupt | CloseAll => Some B
  end.

Definition nothing : memory := Memory ∅ [] 0 ∅ ∅ [].

Inductive runs `{Profilers} (B : Z) (m : memory) : Z -> memory -> Prop :=
  | run_none : runs B m B m
  | run_step B1 m1 e B' n m' :
      runs B m B1 m1 -> accepts B1 m1 e = Some B' -> handle n e m1 = Done tt m' -> runs B m B' m'.

(** The states of the program between two inputs. *)
Definition reachable `{Profilers} (B : Z) (m : memory) : Prop := runs 0 nothing B m.

(** No function runs. *)
Definition idle : ghost := Ghost (fun _ => 0%nat) ∅ ∅ ∅.

Lemma idle_calm : calm idle.
Proof. done. Qed.

Lemma idle_ok : ghost_ok idle.
Proof. intros d. cbn. set_solver. Qed.

Lemma final_held m d : final m d = true -> held m idle d.
Proof.
  unfold final, prof_dev_is_final. destruct (devs m !! d) as [x|] eqn:Hx; [|done]. intros Ht%bool_decide_eq_true. split; [by exists x|].
  intros y t Hy Hyt. congruence.
Qed.

(** A device that is closed is gone where no function runs. *)
Lemma idle_open B m d x : inv B m idle -> devs m !! d = Some x -> inclose x = false.
Proof.
  intros Hi Hx. pose proof (inv_dev Hi d x Hx) as Hd. pose proof (dev_refs Hd) as Hr. pose proof (dev_refs_pos Hd).
  destruct (inclose x); [|done]. cbn in Hr. lia.
Qed.

(** ** A descriptor is ready *)

Section main.
Context `{Profilers}.

Lemma hangup_total B d i m g :
  inv B m g -> (0 < pins g d)%nat ->
  total (fun n => modify (set_polled (fun s => s ∖ {[(d, i)]}));;
     set_dev d (set_nr_pollfd (fun k => k - 1));;
     x ← dev d;
     if nr_pollfd x =? 0 then callback (run n) OnHangup d None 0;; run n (CloseDev d) else ret tt) m
    (fun _ => good B g m).
Proof using.
  intros Hi Hp. destruct (inv_pinned Hi d Hp) as [x Hx]. set (m1 := set_polled (fun s => s ∖ {[(d, i)]}) m).
  assert (polled m1 ⊆ polled m) as Hsub by (cbn; set_solver).
  assert (inv B m1 g /\ mono m m1) as [Hi1 Hm1].
  { apply (lists_step B m m1 g g d x); try done; [by apply (inv_targets_pinned B)|apply (inv_ghost Hi)|].
    pose proof (own_inv_old _ _ _ _ _ Hi Hx) as []. split; try done. intros H1 H2. destruct (own_quiet H1 H2) as [? Hq].
    split; [done|]. intros j Hin. by apply (Hq j), Hsub. }
  eapply (total_step _ _ _ tt m1); [done|].
  eapply (soft_step B m1 g d x); [done|done|done|by apply dev_mono_soft|]. intros m2 Hi2 Hm2 Hx2 _.
  pose proof (mono_trans _ _ _ Hm1 Hm2) as Hm02. apply (dev_step m2 d _ _ _ Hx2).
  destruct (nr_pollfd _ =? 0); [|by apply total_ret]. apply (total_bind (fun n => callback (run n) OnHangup d None 0)).
  eapply total_mono; [apply (callback_total B (S (potential m2 (flushing g) * width B)) (fun f m g _ => run_total B f m g)
    OnHangup d None 0 m2 g Hi2 Hp); [done|cbn; lia]|].
  intros [] m3 Hg3. eapply total_mono; [apply (run_total B (CloseDev d) m3 g); [apply Hg3|apply (pinned_held B); [apply Hg3|done]]|].
  intros [] m4 [Hg4 _]. apply (good_trans B g m m3 m4); [|done]. exact (mono_trans _ _ _ Hm02 (proj2 Hg3)).
Qed.

Lemma ready_total B d i hup m g x :
  inv B m g -> held m g d -> devs m !! d = Some x -> (i < length (rings x))%nat ->
  total (fun n => perf_event_handle n d i hup) m (fun _ => good B g m).
Proof using.
  intros Hi Hh Hx Hlt. unfold perf_event_handle.
  eapply (total_ext (fun n => prof_dev_get d;; ((perf_event_handle_mmap (run n) n d i;;
    (if hup then modify (set_polled (fun s => s ∖ {[(d, i)]}));; set_dev d (set_nr_pollfd (fun k => k - 1));;
       x ← dev d; if nr_pollfd x =? 0 then callback (run n) OnHangup d None 0;; run n (CloseDev d) else ret tt
     else ret tt)) ≫= fun _ => prof_dev_put d;; ret tt))).
  { intros n. reassociate. }
  apply (with_reference B d m g); [done|done|]. intros m1 x' x1 Hi1 Hm1 Hx' Hx1 _ _ _ _ Hr1.
  assert (0 < pins (pin d g) d)%nat as Hp by (rewrite pins_pin; lia).
  apply (total_bind (fun n => perf_event_handle_mmap (run n) n d i)).
  eapply total_mono; [apply (ring_total B (S (potential m (flushing (pin d g)) * width B + S (Z.to_nat d))) (fun f m g _ => run_total B f m g) d i x1 m m1 (pin d g) Hm1 Hi1 Hp Hx1);
    [assert (x' = x) as -> by congruence; by rewrite Hr1|lia]|].
  intros [] m2 [Hi2 Hm2].
  assert (total (fun n => if hup then modify (set_polled (fun s => s ∖ {[(d, i)]}));; set_dev d (set_nr_pollfd (fun k => k - 1));;
       x ← dev d; if nr_pollfd x =? 0 then callback (run n) OnHangup d None 0;; run n (CloseDev d) else ret tt
     else ret tt) m2 (fun _ => good B (pin d g) m2)) as Hhup.
  { destruct hup; [by apply hangup_total|]. apply total_ret. split; [done|by eapply mono_refl]. }
  eapply total_mono; [exact Hhup|]. intros [] m3 Hg3. split; [by apply (good_trans B _ m m2 m3)|done].
Qed.

(** ** Rest *)

(** The states the program rests in. *)
Definition rest (B : Z) (m : memory) : Prop := 0 <= B /\ inv B m idle /\ life [] m.

Lemma good_rest B m m' : rest B m -> good B idle m m' -> rest B m'.
Proof using.
  intros (HB & Hi & Hl) [Hi' Hm']. split; [done|]. split; [done|].
  apply (life_kin B B [] m m' idle idle Hi idle_calm); [|done|by apply mono_kin|done]. intros t Ht. by apply elem_of_nil in Ht.
Qed.

Lemma nothing_rest : rest 0 nothing.
Proof using.
  split; [done|]. split; split; cbn; try done.
  - intros d. lia.
  - split; [constructor|]. intros d Hd. by apply elem_of_nil in Hd.
Qed.

Lemma write_total B m d (f : nat -> list record) :
  rest B m -> live m d -> total (fun _ => set_dev d (set_rings (imap (fun i l => l ++ f i)))) m (fun _ m' => rest B m').
Proof using.
  intros (HB & Hi & Hl) [x Hx]. destruct (soft_lively B m idle d x (set_rings (imap (fun i l => l ++ f i))) Hi Hx) as (m' & E & Hi' & [Hk _] & _); [done|].
  apply (total_done _ _ _ tt m'); [done|]. split; [done|]. split; [done|].
  apply (life_kin B B [] m m' idle idle Hi idle_calm); [|done|done|done]. intros t Ht. by apply elem_of_nil in Ht.
Qed.

(** A device whose opening fails is freed, and nothing else changes. *)
Lemma failed_open d c k l f m : devs m !! d = None -> f = FailsEarly \/ l = NoChildren /\ f <> NoFailure ->
  exists log', forall n, prof_dev_open n (Spec d c k l f) m = Done None (Memory (devs m) (prof_dev_list m) (running m) (polled m) (timers m) log').
Proof using.
  intros Hd Hf. set (x := new_dev c STATE_INACTIVE None false (replicate k [])).
  assert (forall log', discard d (Memory (<[d := set_refcount (fun r => r + 1) x]> (<[d := x]> (devs m))) (prof_dev_list m) (running m) (polled m) (timers m) log') =
    Done None (Memory (devs m) (prof_dev_list m) (running m) (polled m) (timers m) log')) as Hdiscard.
  { intros log'. unfold discard, mbind, M_bind, dev. cbn [devs]. rewrite lookup_insert_eq. cbn.
    unfold mret, M_ret, set_devs. cbn [devs prof_dev_list running polled timers log]. by rewrite insert_insert_eq, delete_insert_id. }
  assert (forall A (h : M A), (alloc d c k None false;; prof_dev_get d;; h) m =
    h (Memory (<[d := set_refcount (fun r => r + 1) x]> (<[d := x]> (devs m))) (prof_dev_list m) (running m) (polled m) (timers m) (log m))) as Hstart.
  { intros A h. unfold alloc, prof_dev_get, set_dev, dev, modify, mbind, M_bind, mret, M_ret. cbn. rewrite !lookup_insert_eq. cbn. by rewrite lookup_insert_eq. }
  unfold prof_dev_open. destruct Hf as [->|[-> Hf]].
  { eexists. intros n. cbn [prof_dev_open_internal]. rewrite Hstart. apply Hdiscard. }
  destruct f; [done| | |]; eexists; intros n; cbn [prof_dev_open_internal]; rewrite Hstart; [apply Hdiscard..|].
  unfold init_children, close_children, for_each_dev_get, members, mbind, M_bind, mret, M_ret, dev. cbn [devs].
  rewrite lookup_insert_eq. cbn. destruct n; apply Hdiscard.
Qed.

Lemma failed_open_rest B d m log' : rest B m -> B <= d -> rest (d + 1) (Memory (devs m) (prof_dev_list m) (running m) (polled m) (timers m) log').
Proof using.
  intros (HB & Hi & Hl) Hle. split; [lia|]. pose proof (inv_bound_le B (d + 1) m idle ltac:(lia) Hi) as Hi'. split.
  - destruct Hi' as [Hdev]. split; try done. intros e x Hx. destruct (Hdev e x Hx). by split.
  - destruct Hl as [Hw Hl2 Hl3]. by split.
Qed.

Lemma interrupt_rest B m : rest B m -> rest B (set_running (fun _ => -1) m).
Proof using.
  intros (HB & Hi & Hl). split; [done|]. split.
  - split; try apply Hi; [|cbn; lia]. intros d x Hx. pose proof (inv_dev Hi d x Hx) as []. split; done.
  - split; apply Hl.
Qed.

(** ** Closing *)

Lemma close_rest_gone B m d x :
  rest B m -> devs m !! d = Some x -> target x = None ->
  total (fun n => run n (CloseDev d)) m (fun _ m' => rest B m' /\ mono m m' /\ devs m' !! d = None /\
    (forall c y, devs m !! c = Some y -> own_child_of d y \/ target y = Some d -> devs m' !! c = None)).
Proof using.
  intros Hr Hx Ht. pose proof Hr as (HB & Hi & Hl).
  eapply total_mono; [apply (run_total B (CloseDev d) m idle Hi)|].
  { split; [by exists x|]. intros y t Hy Hyt. congruence. }
  intros [] m' [Hg [Hd Hc]]. pose proof (good_rest B m m' Hr Hg) as Hr'. pose proof Hr' as (_ & Hi' & _).
  assert (devs m' !! d = None) as Hgone.
  { destruct (devs m' !! d) as [x'|] eqn:Hx'; [|done]. pose proof (idle_open B m' d x' Hi' Hx'). rewrite (Hd x') in *; done. }
  split; [done|]. split; [apply Hg|]. split; [done|]. intros c y Hy Hcy.
  destruct (devs m' !! c) as [y'|] eqn:Hy'; [|done]. exfalso. destruct Hcy as [Hown|Hsrc].
  - pose proof (Hc x Hx (idle_open B m d x Hi Hx) c y y' Hy Hown Hy'). pose proof (idle_open B m' c y' Hi' Hy'). congruence.
  - destruct (mono_dev (proj2 Hg) c y' Hy') as (y0 & Hy0 & Hyd). assert (y0 = y) as -> by congruence.
    destruct (dev_target (inv_dev Hi' c y' Hy') d) as (_ & [z Hz] & _); [by rewrite (same_target _ _ Hyd)|congruence].
Qed.

Lemma head_final B m d l x :
  rest B m -> prof_dev_list m = d :: l -> devs m !! d = Some x -> target x = None.
Proof using.
  intros (_ & Hi & Hl) El Hx. destruct (target x) as [t|] eqn:Et; [|done]. exfalso.
  pose proof (proj1 (inv_list Hi)) as Hnd. rewrite El in Hnd. apply NoDup_cons in Hnd as [Hnd _].
  destruct (life_order Hl d x t) as [[Hn _]|Hb]; [by rewrite El; left|done|done|by apply elem_of_nil in Hn|].
  rewrite El in Hb. destruct Hb as [[_ Hb]|Hb]; [done|]. by apply before_elem in Hb as [_ ?].
Qed.

Lemma close_list_total B k : forall m,
  (length (prof_dev_list m) <= k)%nat -> rest B m ->
  exists N m', rest B m' /\ prof_dev_list m' = [] /\ forall n q, (N <= n)%nat -> (k <= q)%nat -> close_list n q m = Done tt m'.
Proof using.
  induction k as [|k IH]; intros m Hk Hr.
  - exists 0%nat, m. destruct (prof_dev_list m) eqn:El; [|cbn in Hk; lia]. split; [done|]. split; [done|].
    intros n [|q] _ _; cbn; unfold mbind, M_bind, get; by rewrite El.
  - destruct (prof_dev_list m) as [|d l] eqn:El.
    { exists 0%nat, m. split; [done|]. split; [done|]. intros n [|q] _ _; cbn; unfold mbind, M_bind, get; by rewrite El. }
    destruct (proj2 (inv_list (proj1 (proj2 Hr))) d) as [x Hx]; [rewrite El; by left|].
    destruct (close_rest_gone B m d x Hr Hx (head_final B m d l x Hr El Hx)) as (n1 & [] & m1 & (Hr1 & Hm1 & Hd & _) & E1).
    assert (d ∉ prof_dev_list m1) as Hd1.
    { intros Hin. apply (proj2 (inv_list (proj1 (proj2 Hr1)))) in Hin as [y Hy]. congruence. }
    assert (length (prof_dev_list m1) <= k)%nat as Hk1.
    { pose proof (mono_list Hm1) as Hs. rewrite El in Hs. cbn in Hk. inversion Hs as [|? l1 ? Hs' E|? ? ? Hs']; subst.
      - exfalso. apply Hd1. rewrite <- E. by left.
      - apply sublist_length in Hs'. lia. }
    destruct (IH m1 Hk1 Hr1) as (N & m' & Hr' & El' & E'). exists (n1 `max` N)%nat, m'. split; [done|]. split; [done|].
    intros n [|q] Hn Hq; [lia|]. cbn. unfold mbind, M_bind, get. rewrite El, E1 by lia. apply E'; lia.
Qed.

Lemma list_close_total B m :
  rest B m -> total prof_dev_list_close m (fun _ m' => rest B m' /\ prof_dev_list m' = []).
Proof using.
  intros Hr. destruct (close_list_total B (length (prof_dev_list m)) m) as (N & m' & Hr' & El & E); [lia|done|].
  exists (N `max` length (prof_dev_list m))%nat, tt, m'. split; [done|]. intros n Hn. unfold prof_dev_list_close. apply E; lia.
Qed.
(** ** Every input ends *)

Hypothesis Hpoll : forall d i m, poll_fails d i m = false.
Hypothesis Hquiet : forall d m x, devs m !! d = Some x -> is_Some (parent x) -> acts OnEnabled d None m = [].

Lemma handle_total B m e B' :
  rest B m -> accepts B m e = Some B' -> total (fun n => handle n e) m (fun _ m' => rest B' m').
Proof using Hpoll Hquiet.
  intros Hr He. pose proof Hr as (HB & Hi & Hl).
  assert (forall f, pre f m idle -> total (fun n => run n f) m (fun _ m' => rest B m')) as Hrun.
  { intros f Hf. eapply total_mono; [by apply (run_total B f m idle Hi)|]. intros [] m' [Hg _]. by apply (good_rest B m). }
  destruct e as [s|d i hup|d|d|d|d f| |]; cbn in He.
  - apply openable_inv in He as [He|(d & c & k & l & f & -> & Hle & -> & Hf)].
    2: { assert (devs m !! d = None) as Hd.
         { destruct (devs m !! d) as [x|] eqn:Hx; [|done]. pose proof (dev_bound (inv_dev Hi d x Hx)). lia. }
         destruct (failed_open d c k l f m Hd Hf) as [log' E].
         eapply (total_done _ _ _ tt); [intros n; cbn [handle]; unfold mbind, M_bind; by rewrite E|]. by apply failed_open_rest with B. }
    apply (total_bind (fun n => prof_dev_open n s) (fun _ _ => ret tt)).
    eapply total_mono; [by apply (open_total Hpoll Hquiet s B B' m idle)|]. intros o m' (Hi' & Hl' & _). apply total_ret.
    split; [|by split]. destruct s as [d c k ch fl]. apply (proj1 numbered_le) in He. lia.
  - destruct (bool_decide _ && final m d && has_ring m d i) eqn:E; [|done]. injection He as <-.
    apply andb_true_iff in E as [[_ Hf]%andb_true_iff Hring]. unfold has_ring in Hring.
    pose proof (final_held m d Hf) as Hh. pose proof Hh as [[x Hx] _]. rewrite Hx in Hring.
    eapply total_mono; [apply (ready_total B d i hup m idle x Hi Hh Hx); by apply Nat.ltb_lt|]. intros [] m' Hg. by apply (good_rest B m).
  - destruct (bool_decide _ && final m d) eqn:E; [|done]. injection He as <-.
    apply andb_true_iff in E as [_ Hf]. by apply (Hrun (IntervalDev d)), final_held.
  - destruct (final m d) eqn:E; [|done]. injection He as <-. by apply (Hrun (CloseDev d)), final_held.
  - destruct (final m d) eqn:E; [|done]. injection He as <-. by apply (Hrun (DisableDev d)), final_held.
  - case_bool_decide as Hlv; [|done]. injection He as <-. by apply write_total.
  - injection He as <-. apply (total_done _ _ _ tt (set_running (fun _ => -1) m)); [done|]. by apply interrupt_rest.
  - injection He as <-. eapply total_mono; [by apply list_close_total|]. by intros [] m' [Hr' _].
Qed.

Lemma reachable_rest B m : reachable B m -> rest B m.
Proof using Hpoll Hquiet.
  induction 1 as [|B1 m1 e B' n m' Hr IH He Hn]; [apply nothing_rest|].
  destruct (handle_total B1 m1 e B' IH He) as (n2 & [] & m2 & Hr2 & Hn2).
  specialize (Hn2 (n `max` n2)%nat (Nat.le_max_r _ _)).
  rewrite (handle_more n (n `max` n2)%nat e (Nat.le_max_l _ _) m1 tt m' Hn) in Hn2. by injection Hn2 as ->.
Qed.
End main.
