(* ===== verification/DeviceLimit.v ===== *)
(** * Devices: the number of samples ([-N]; monitor.c)

    With [--exit-N n] a profiler gets at most [n] samples of a device: whatever its callbacks
    do, and until the device is freed.  The proof is of partial correctness: what holds after
    each function that returns. *)

From S2P Require Import Prelude Device DeviceRun DeviceOpen DeviceInv DeviceOpened DeviceMain.

(** ** What a function keeps *)

Definition keep {A} (P : memory -> Prop) (c : M A) : Prop := forall m a m', P m -> c m = Done a m' -> P m'.

(** A triple of partial correctness. *)
Definition triple {A} (P : memory -> Prop) (c : M A) (Q : A -> memory -> Prop) : Prop :=
  forall m a m', P m -> c m = Done a m' -> Q a m'.

Lemma triple_bind {A C} P (c : M A) (k : A -> M C) Q R :
  triple P c Q -> (forall a, triple (Q a) (k a) R) -> triple P (c ≫= k) R.
Proof.
  intros Hc Hk m b m' Hm. unfold mbind, M_bind. destruct (c m) as [a m1|d|] eqn:E; [|done|done].
  intros E'. exact (Hk a m1 b m' (Hc m a m1 Hm E) E').
Qed.

Lemma triple_bind_pure {A C} P (c : M A) (k : A -> M C) Q (p : Prop) R :
  triple P c (fun a m => Q a m /\ p) -> (p -> forall a, triple (Q a) (k a) R) -> triple P (c ≫= k) R.
Proof.
  intros Hc Hk. apply (triple_bind P c k _ R Hc). intros a m b m' [Hm Hp]. by apply (Hk Hp).
Qed.

Lemma triple_keep {A} P (c : M A) : keep P c -> triple P c (fun _ => P).
Proof. done. Qed.

Lemma keep_bind {A C} P (c : M A) (k : A -> M C) : keep P c -> (forall a, keep P (k a)) -> keep P (c ≫= k).
Proof. intros Hc Hk. apply (triple_bind P c k (fun _ => P) (fun _ => P)); [done|]. intros a. apply Hk. Qed.

Lemma keep_ret {A} P (a : A) : keep P (ret a).
Proof. by intros m b m' Hm [= _ <-]. Qed.

Lemma keep_get P : keep P get.
Proof. by intros m b m' Hm [= _ <-]. Qed.

Lemma keep_dev P d : keep P (dev d).
Proof. intros m x m' Hm. unfold dev. destruct (devs m !! d); [|done]. by intros [= _ <-]. Qed.

Lemma keep_fault {A} P d : keep P (fault (A := A) d).
Proof. done. Qed.

Lemma keep_no_fuel {A} P : keep P (no_fuel (A := A)).
Proof. done. Qed.

Lemma keep_modify P f : (forall m, P m -> P (f m)) -> keep P (modify f).
Proof. intros Hf m a m' Hm [= _ <-]. by apply Hf. Qed.

Create HintDb limits.
#[export] Hint Resolve keep_ret keep_get keep_dev keep_fault keep_no_fuel : limits.

(** Through the structure of a body. *)
Ltac keeping :=
  repeat match goal with
  | |- keep _ (mbind _ _) => apply keep_bind; [|intros ?]
  | |- keep _ (if ?b then _ else _) => destruct b
  | |- keep _ (match ?x with _ => _ end) => destruct x
  | |- keep _ _ => solve [eauto 3 with limits]
  end.

Lemma keep_each {A} P (l : list A) body : (forall a, keep P (body a)) -> keep P (each l body).
Proof. intros Hb. induction l as [|a l IH]; cbn; keeping. Qed.
#[export] Hint Resolve keep_each : limits.

(** ** The samples a device got *)

Definition delivered (d : Z) (e : entry) : bool :=
  match e with Sampled c _ _ | SampledDev c _ _ | Unknown c _ => c =? d | _ => false end.

Definition told (d : Z) (l : list entry) : Z := Z.of_nat (length (filter (fun e => delivered d e = true) l)).

Lemma told_snoc d l e : told d (l ++ [e]) = told d l + (if delivered d e then 1 else 0).
Proof. unfold told. rewrite filter_app, length_app, filter_cons, filter_nil. case_decide; destruct (delivered d e); cbn; done || lia. Qed.

Lemma told_nonneg d l : 0 <= told d l.
Proof. unfold told. lia. Qed.

Section limit.
Context `{Profilers}.
Variable d : Z.

(** Of a device with the limit [N], that [a] samples more may be delivered; of an address
    that no device had, nothing was. *)
Definition within (lim : option Z) (a : Z) (m : memory) : Prop :=
  match lim with
  | None => devs m !! d = None /\ told d (log m) = 0
  | Some N => (N <> 0 -> told d (log m) + a <= N `max` 0) /\
      forall x, devs m !! d = Some x -> exit_n (conf x) = N /\ (N <> 0 -> told d (log m) + a <= sampled_events x)
  end.

Lemma within_ext lim a m m' :
  log m' = log m ->
  (forall x', devs m' !! d = Some x' -> exists x, devs m !! d = Some x /\ conf x' = conf x /\ sampled_events x' = sampled_events x) ->
  within lim a m -> within lim a m'.
Proof using.
  intros El Hd. unfold within. rewrite El. destruct lim as [N|].
  - intros [H1 H2]. split; [done|]. intros x' Hx'. destruct (Hd x' Hx') as (x & Hx & -> & ->). by apply H2.
  - intros [H1 H2]. split; [|done]. destruct (devs m' !! d) as [x'|] eqn:E; [|done].
    destruct (Hd x' eq_refl) as (x & Hx & _). congruence.
Qed.

Lemma keep_set lim a e f :
  (forall x, conf (f x) = conf x) -> (forall x, sampled_events (f x) = sampled_events x) -> keep (within lim a) (set_dev e f).
Proof using.
  intros Hc Hs m [] m' Hm. unfold set_dev, mbind, M_bind, dev. destruct (devs m !! e) as [x|] eqn:Hx; [|done]. intros [= <-].
  apply (within_ext lim a m); [done| |done]. intros x'. cbn. destruct (decide (e = d)) as [->|He].
  - rewrite lookup_insert_eq. intros [= <-]. by exists x.
  - rewrite lookup_insert_ne by done. intros Hx'. by exists x'.
Qed.

Lemma keep_lists lim a f : (forall m, log (f m) = log m) -> (forall m, devs (f m) = devs m) -> keep (within lim a) (modify f).
Proof using. intros Hl Hd. apply keep_modify. intros m. apply within_ext; [done|]. intros x'. rewrite Hd. by exists x'. Qed.

Lemma keep_delete lim a e : keep (within lim a) (modify (set_devs (delete e))).
Proof using.
  apply keep_modify. intros m. apply within_ext; [done|]. intros x' Hx'. cbn in Hx'. apply lookup_delete_Some in Hx' as [_ Hx']. by exists x'.
Qed.

Lemma keep_tell lim a e : delivered d e = false -> keep (within lim a) (tell e).
Proof using.
  intros He. apply keep_modify. intros m. unfold within. cbn. rewrite told_snoc, He, Z.add_0_r. done.
Qed.
#[local] Hint Extern 1 (keep _ (set_dev _ _)) => apply keep_set; intros; reflexivity : limits.
#[local] Hint Extern 1 (keep _ (modify _)) => first [apply keep_delete | apply keep_lists; intros; reflexivity] : limits.
#[local] Hint Extern 1 (keep _ (tell _)) => apply keep_tell; reflexivity : limits.

Section steps.
Variable lim : option Z.
Abbreviation kept := (keep (within lim 0)).

(** ** References and loops *)

Lemma keep_prof_dev_get e : kept (prof_dev_get e).
Proof using. unfold prof_dev_get. keeping. Qed.
#[local] Hint Resolve keep_prof_dev_get : limits.

Lemma keep_inherit x c : kept (inherit x c).
Proof using. unfold inherit. keeping. Qed.
#[local] Hint Resolve keep_inherit : limits.

Lemma keep_free e : kept (prof_dev_free e).
Proof using. unfold prof_dev_free. keeping. Qed.
#[local] Hint Resolve keep_free : limits.

Lemma keep_put e : kept (prof_dev_put e).
Proof using. unfold prof_dev_put. keeping. Qed.
#[local] Hint Resolve keep_put : limits.

Lemma keep_members k : kept (members k).
Proof using. unfold members. keeping. Qed.
#[local] Hint Resolve keep_members : limits.

Lemma keep_next k e : kept (list_next_entry k e).
Proof using. unfold list_next_entry. keeping. Qed.
#[local] Hint Resolve keep_next : limits.

Lemma keep_for_each_from n k tmp body : (forall e, kept (body e)) -> kept (for_each_from n k tmp body).
Proof using. intros Hb. revert tmp. induction n as [|n IH]; intros [e|]; cbn; keeping. Qed.

Lemma keep_for_each n k body : (forall e, kept (body e)) -> kept (for_each_dev_get n k body).
Proof using. intros Hb. unfold for_each_dev_get. keeping. by apply keep_for_each_from. Qed.
#[local] Hint Resolve keep_for_each : limits.

(** ** Records *)

Lemma keep_event_time P e : keep P (event_time e).
Proof using. unfold event_time, event_dev_of. keeping. Qed.

(** What [count_event] allows to be delivered. *)
Definition allowed (e : Z) (ok : bool) : Z := if ok && (e =? d) then 1 else 0.

Lemma count_event_limit e :
  triple (within lim 0) (count_event e) (fun ok m => within lim (allowed e ok) m /\ (e = d -> is_Some lim)).
Proof using.
  intros m ok m' Hm. unfold count_event, mbind, M_bind, dev, allowed. destruct (devs m !! e) as [x|] eqn:Hx; [|done].
  destruct (Z.eqb_spec e d) as [->|He].
  - rewrite andb_true_r. destruct lim as [N|]; [|destruct Hm; congruence]. pose proof Hm as [H1 H2]. destruct (H2 x Hx) as [H3 H4]. rewrite H3.
    destruct (Z.eqb_spec N 0) as [->|HN].
    + intros [= <- <-]. split; [|by eexists]. split; [done|]. intros z Hz. by destruct (H2 z Hz).
    + rewrite (set_dev_ok _ _ _ _ Hx). intros [= <- <-]. split; [|by eexists]. split.
      * intros _. cbn. destruct (Z.leb_spec (sampled_events x + 1) N); [|lia]. specialize (H4 HN). lia.
      * cbn. intros z. rewrite lookup_insert_eq. intros [= <-]. split; [done|]. intros _. cbn. specialize (H4 HN). destruct (_ <=? _); lia.
  - rewrite andb_false_r. destruct (exit_n (conf x) =? 0); [by intros [= _ <-]|]. rewrite (set_dev_ok _ _ _ _ Hx).
    intros [= _ <-]. split; [|done]. apply (within_ext lim 0 m); [done| |done]. intros z. cbn. rewrite lookup_insert_ne by done. intros Hz. by exists z.
Qed.

Lemma skip_limit N : triple (within (Some N) 1) (skip_sample d) (fun _ => within (Some N) 0).
Proof using.
  intros m [] m' [H1 H2]. unfold skip_sample, set_dev, mbind, M_bind, dev. destruct (devs m !! d) as [x|] eqn:Hx; [|done].
  intros [= <-]. split; [intros HN; specialize (H1 HN); cbn; lia|]. cbn. intros z. rewrite lookup_insert_eq. intros [= <-].
  destruct (H2 x eq_refl) as [H3 H4]. split; [done|]. intros HN. specialize (H4 HN). pose proof (told_nonneg d (log m)). cbn.
  destruct (Z.ltb_spec 0 (sampled_events x)); lia.
Qed.

Lemma dropped_limit N : triple (within (Some N) 1) (skip_sample d;; ret true) (fun _ => within (Some N) 0).
Proof using. apply (triple_bind _ _ _ (fun _ => within (Some N) 0)); [apply skip_limit|]. intros _. apply triple_keep, keep_ret. Qed.

Lemma unsampled_limit N : triple (within (Some N) 1) (ret false) (fun _ => within (Some N) 0).
Proof using.
  intros m a m' [H1 H2] [= _ <-]. split; [intros HN; specialize (H1 HN); lia|]. intros x Hx. destruct (H2 x Hx) as [H3 H4].
  split; [done|]. intros HN. specialize (H4 HN). lia.
Qed.

Lemma tell_limit N e : triple (within (Some N) 1) (tell e) (fun _ => within (Some N) 0).
Proof using.
  intros m [] m' [H1 H2]. intros [= <-]. assert (told d (log m ++ [e]) <= told d (log m) + 1) as Ht.
  { rewrite told_snoc. destruct (delivered d e); lia. }
  split; [intros HN; specialize (H1 HN); cbn; lia|]. cbn. intros z Hz. destruct (H2 z Hz) as [H3 H4]. split; [done|]. intros HN. specialize (H4 HN). lia.
Qed.

Lemma keep_tell_other e r ins : e <> d -> kept (tell_sample e r ins).
Proof using.
  intros He. apply Z.eqb_neq in He. destruct r as [r|s]; cbn; [by apply keep_tell|].
  unfold event_dev_of. keeping. by apply keep_tell.
Qed.

Lemma tell_sample_limit N e ins : triple (within (Some N) 1) (tell_sample d e ins) (fun _ => within (Some N) 0).
Proof using.
  destruct e as [r|s]; [apply tell_limit|]. unfold tell_sample. apply (triple_bind _ _ _ (fun _ => within (Some N) 1)); [|intros r; apply tell_limit].
  apply triple_keep. unfold event_dev_of. keeping.
Qed.

Lemma keep_skip e : e <> d -> kept (skip_sample e).
Proof using.
  intros He m [] m' Hm. unfold skip_sample, set_dev, mbind, M_bind, dev. destruct (devs m !! e) as [x|] eqn:Hx; [|done]. intros [= <-].
  apply (within_ext lim 0 m); [done| |done]. intros x'. cbn. rewrite lookup_insert_ne by done. intros Hx'. by exists x'.
Qed.

(** ** The bodies *)

Section bodies.
Variable call : function -> M unit.
Variable n : nat.
Hypothesis Hcall : forall f, kept (call f).
#[local] Hint Resolve Hcall keep_event_time : limits.

Lemma keep_callback h e r ins : kept (callback call h e r ins).
Proof using Hcall. unfold callback. keeping. apply keep_each. intros [|]; unfold run_act; keeping. Qed.
#[local] Hint Resolve keep_callback : limits.

Lemma handle_sample_limit e r ins ok :
  (e = d -> is_Some lim) -> triple (within lim (allowed e ok)) (if ok then handle_sample call e r ins else ret false) (fun _ => within lim 0).
Proof using Hcall.
  intros He. unfold allowed. destruct ok; cbn; [|apply triple_keep, keep_ret]. unfold handle_sample.
  assert (forall P A (c : M A) k Q, keep P c -> (forall a : A, triple P (k a) Q) -> triple P (c ≫= k) (Q : bool -> memory -> Prop)) as step.
  { intros P A c k Q Hc Hk. by apply (triple_bind P c k (fun _ => P)). }
  destruct (Z.eqb_spec e d) as [->|Hne].
  - destruct He as [N HN]; [done|]. rewrite HN. apply step; [apply keep_dev|]. intros x. apply step; [apply keep_get|]. intros m0.
    destruct (negb _); [apply unsampled_limit|]. destruct (_ && _); [apply dropped_limit|]. apply (step (within (Some N) 1)).
    { destruct (sample_time _); [|apply keep_ret]. keeping. }
    intros [|]; [apply dropped_limit|]. apply (triple_bind _ _ _ (fun _ => within (Some N) 0)); [apply tell_sample_limit|].
    intros []. apply triple_keep. rewrite <- HN. keeping.
  - apply triple_keep. keeping; try apply keep_event_time; try (by apply keep_skip); by apply keep_tell_other.
Qed.

Lemma keep_close_at_limit e : kept (close_at_limit call e).
Proof using Hcall. unfold close_at_limit. keeping. Qed.
#[local] Hint Resolve keep_close_at_limit : limits.

Lemma keep_sample_record e r ins : kept (sample_record call e r ins).
Proof using Hcall.
  unfold sample_record. apply (triple_bind_pure _ _ _ _ _ (fun _ => within lim 0) (count_event_limit e)). intros He ok.
  apply (triple_bind _ _ _ (fun _ => within lim 0)); [by apply handle_sample_limit|]. intros []; apply triple_keep; keeping.
Qed.
#[local] Hint Resolve keep_sample_record : limits.

Lemma keep_unknown e r : kept (ok ← count_event e; (if (ok : bool) then tell (Unknown e r) else ret tt);; close_at_limit call e;; ret (-1)).
Proof using Hcall.
  apply (triple_bind_pure _ _ _ _ _ (fun _ => within lim 0) (count_event_limit e)). intros He ok.
  apply (triple_bind _ _ _ (fun _ => within lim 0)).
  - unfold allowed. destruct ok; [|apply triple_keep, keep_ret]. cbn. destruct (Z.eqb_spec e d) as [->|Hne].
    + destruct He as [N ->]; [done|]. apply tell_limit.
    + apply triple_keep, keep_tell. cbn. by apply Z.eqb_neq.
  - intros _. apply triple_keep. keeping.
Qed.
#[local] Hint Resolve keep_unknown : limits.

Lemma keep_dispatch e r ins : kept (dispatch call e r ins).
Proof using Hcall. unfold dispatch. destruct r as [r|s]; [|keeping]. destruct (type r); first [apply keep_unknown|keeping]. Qed.
#[local] Hint Resolve keep_dispatch : limits.

Lemma keep_process e r ins : kept (perf_event_process_record call e r ins).
Proof using Hcall. unfold perf_event_process_record, perf_event_forward, event_dev_of. keeping. Qed.

Lemma keep_handle_mmap k e i : kept (handle_mmap call k e i).
Proof using Hcall.
  induction k as [|k IH]; cbn; (apply keep_bind; [apply keep_dev|intros x]);
    destruct (rings x !! i) as [[|r l]|]; auto with limits; keeping.
Qed.

Lemma keep_handle_mmaps e : kept (handle_mmaps call n e).
Proof using Hcall. unfold handle_mmaps. keeping. apply keep_each. intros i. apply keep_handle_mmap. Qed.
#[local] Hint Resolve keep_handle_mmaps keep_process : limits.

Lemma keep_body f : kept (body call n f).
Proof using Hcall.
  destruct f as [e|e|e b|e|e r ins]; cbn [body];
    unfold prof_dev_close, prof_dev_disable, prof_dev_flush, interval_handle, own_child; keeping;
    apply keep_for_each; intros c; keeping.
Qed.
End bodies.

Lemma keep_run n f : kept (run n f).
Proof using. revert f. induction n as [|n IH]; intros f; cbn; [apply keep_no_fuel|]. by apply keep_body. Qed.
#[local] Hint Resolve keep_run : limits.

(** ** The event loop and enabling *)

Lemma keep_handle_ready n e i hup : kept (perf_event_handle n e i hup).
Proof using.
  unfold perf_event_handle, perf_event_handle_mmap.
  pose proof (fun k => keep_handle_mmap (run n) (keep_run n) k e i). pose proof (fun h r ins => keep_callback (run n) (keep_run n) h e r ins).
  keeping.
Qed.

Lemma keep_list_close n : kept (prof_dev_list_close n).
Proof using.
  unfold prof_dev_list_close. generalize n at 2. intros k. induction k as [|k IH]; cbn; keeping.
Qed.

Lemma keep_add_fds l e : kept (add_fds l e).
Proof using. induction l as [|i l IH]; cbn; keeping. Qed.
#[local] Hint Resolve keep_add_fds : limits.

Lemma keep_enable n e : kept (prof_dev_enable n e).
Proof using.
  revert e. induction n as [|n IH]; intros e; cbn; [apply keep_no_fuel|]. unfold enable_body, perf_evlist__enable, prof_dev_atomic_enable.
  pose proof (fun h r ins => keep_callback (run n) (keep_run n) h e r ins).
  assert (kept (for_each_dev_get n (ChildrenOf e) (fun c => prof_dev_enable n c;; ret tt))) by (apply keep_for_each; intros c; keeping).
  keeping.
Qed.
#[local] Hint Resolve keep_enable : limits.

Lemma keep_close_children n e : kept (close_children n e).
Proof using. unfold close_children. apply keep_for_each. intros c. keeping. Qed.
#[local] Hint Resolve keep_close_children : limits.

Lemma keep_discard e : kept (discard e).
Proof using. unfold discard. keeping. Qed.
#[local] Hint Resolve keep_discard : limits.

Lemma keep_finish_open n e b : kept (finish_open n e b).
Proof using. unfold finish_open, list_add. keeping. Qed.

Lemma keep_forward e t b1 b2 b3 : kept (prof_dev_forward e t b1 b2 b3).
Proof using. unfold prof_dev_forward. keeping. Qed.
End steps.

(** ** Opening *)

Variable Q : option Z -> Prop.
Hypothesis HQ : forall N, Q None -> Q (Some N).

(** The device [d], or the address, if it is [lo] or above. *)
Definition bounded (lo : Z) (m : memory) : Prop := exists lim, within lim 0 m /\ (lo <= d -> lim = None) /\ Q lim.

Lemma bounded_weaken lo hi m : lo <= hi -> bounded lo m -> bounded hi m.
Proof using. intros Hle (lim & Hm & Hl & Hq). exists lim. split; [done|]. split; [|done]. intros. apply Hl. lia. Qed.

Lemma keep_bounded {A} lo (c : M A) : (forall lim, keep (within lim 0) c) -> keep (bounded lo) c.
Proof using. intros Hc m a m' (lim & Hm & Hl) E. exists lim. split; [|done]. by apply (Hc lim m a m'). Qed.

Lemma alloc_limit lo e c k p cl : lo <= e -> triple (bounded lo) (alloc e c k p cl) (fun _ => bounded (e + 1)).
Proof using HQ.
  intros Hle. unfold alloc. apply (triple_bind _ _ _ (fun _ => bounded lo)).
  { apply triple_keep, keep_bounded. intros lim. destruct p; keeping. }
  intros s. apply (triple_bind _ _ _ (fun _ => bounded (e + 1))).
  2:{ intros _. apply triple_keep, keep_bounded. intros lim. destruct p; keeping. }
  intros m [] m' (lim & Hm & Hl & Hq) [= <-]. destruct (decide (e = d)) as [->|He].
  - assert (lim = None) as -> by (by apply Hl). destruct Hm as [_ Ht]. exists (Some (exit_n c)).
    split; [|split; [intros; lia|by apply HQ]]. split; cbn.
    + rewrite Ht. lia.
    + intros x. rewrite lookup_insert_eq. intros [= <-]. split; [done|]. cbn. lia.
  - exists lim. split; [|split; [intros; apply Hl; lia|done]]. apply (within_ext lim 0 m); [done| |done].
    intros x. cbn. rewrite lookup_insert_ne by done. intros Hx. by exists x.
Qed.

Lemma open_limit n :
  (forall s lo hi p b, numbered lo s = Some hi -> triple (bounded lo) (prof_dev_open_internal n s p b) (fun _ => bounded hi)) /\
  (forall l lo hi e, numbered_all lo l = Some hi -> triple (bounded lo) (init_children n l e) (fun _ => bounded hi)).
Proof using HQ.
  apply spec_specs_ind.
  - intros e c k l IH f lo hi p b Hn. apply numbered_inv in Hn as (-> & Hle & _ & _ & Hn). cbn [prof_dev_open_internal].
    apply (triple_bind _ _ _ (fun _ => bounded (e + 1))); [by apply alloc_limit|]. intros _.
    apply (triple_bind _ _ _ (fun _ => bounded (e + 1))); [apply triple_keep, keep_bounded; intros lim; apply keep_prof_dev_get|]. intros _.
    apply (triple_bind _ _ _ (fun _ => bounded hi)); [by apply IH|]. intros ok. apply triple_keep, keep_bounded. intros lim.
    destruct ok; [apply keep_finish_open|apply keep_discard].
  - intros lo hi e [= <-]. apply triple_keep, keep_ret.
  - intros s IHs fwd l IHl lo hi e Hn. cbn in Hn. destruct (numbered lo s) as [h|] eqn:Es; [|done].
    pose proof (proj2 numbered_le l h hi Hn) as Hh.
    assert (forall A (a : A), triple (bounded h) (ret a) (fun _ => bounded hi)) as Hend.
    { intros A a m b m' Hm [= _ <-]. by apply (bounded_weaken h hi). }
    cbn [init_children]. apply (triple_bind _ _ _ (fun _ => bounded h)); [by apply IHs|]. intros [c|]; [|apply Hend].
    apply (triple_bind _ _ _ (fun _ => bounded h)).
    + apply triple_keep, keep_bounded. intros lim. destruct fwd; [apply keep_forward|apply keep_ret].
    + intros err. destruct (err <? 0); [apply Hend|by apply IHl].
Qed.

(** An opening that fails before the device has children. *)
Lemma failed_limit n lo e c k l f : lo <= e -> f = FailsEarly \/ l = NoChildren /\ f <> NoFailure ->
  triple (bounded lo) (prof_dev_open n (Spec e c k l f)) (fun _ => bounded (e + 1)).
Proof using HQ.
  intros Hle Hf. unfold prof_dev_open. cbn [prof_dev_open_internal].
  apply (triple_bind _ _ _ (fun _ => bounded (e + 1))); [by apply alloc_limit|]. intros _.
  apply triple_keep, keep_bounded. intros lim. apply keep_bind; [apply keep_prof_dev_get|]. intros _.
  destruct Hf as [->|[-> Hf]]; [apply keep_discard|]. destruct f; [done|apply keep_discard|..]; cbn [init_children]; (apply keep_bind; [apply keep_ret|]); intros b;
    destruct b; try apply keep_discard.
  apply keep_bind; [apply keep_close_children|]. intros _. apply keep_bind; [by apply keep_tell|]. intros _. apply keep_discard.
Qed.

Lemma handle_limit n B B' m0 e : accepts B m0 e = Some B' -> triple (bounded B) (handle n e) (fun _ => bounded B').
Proof using HQ.
  intros He. destruct e as [s|e i hup|e|e|e|e f| |]; cbn in He |- *.
  - apply (triple_bind _ _ _ (fun _ => bounded B')); [|intros _; apply triple_keep, keep_ret].
    apply openable_inv in He as [He|(e & c & k & l & f & -> & Hle & -> & Hf)]; [by apply (proj1 (open_limit n))|by apply failed_limit].
  - destruct (_ && _); [|done]. injection He as <-. apply keep_bounded. intros lim. apply keep_handle_ready.
  - destruct (_ && _); [|done]. injection He as <-. apply keep_bounded. intros lim. apply keep_run.
  - destruct (final m0 e); [|done]. injection He as <-. apply keep_bounded. intros lim. apply keep_run.
  - destruct (final m0 e); [|done]. injection He as <-. apply keep_bounded. intros lim. apply keep_run.
  - destruct (bool_decide _); [|done]. injection He as <-. apply keep_bounded. intros lim. apply keep_set; intros; reflexivity.
  - injection He as <-. apply keep_bounded. intros lim. apply keep_lists; intros; reflexivity.
  - injection He as <-. apply keep_bounded. intros lim. apply keep_list_close.
Qed.

Lemma runs_limit B m B' m' : runs B m B' m' -> bounded B m -> bounded B' m'.
Proof using HQ.
  induction 1 as [|B1 m1 e B' n m' Hr IH He Hn]; [done|]. intros Hm. specialize (IH Hm).
  exact (handle_limit n B1 B' m1 e He m1 tt m' IH Hn).
Qed.
End limit.

Lemma limited `{Profilers} B m d x B' m' :
  reachable B m -> devs m !! d = Some x -> runs B m B' m' -> exit_n (conf x) <> 0 ->
  told d (log m') <= exit_n (conf x) `max` 0.
Proof.
  intros Hr Hx Hrun HN. destruct (runs_limit d (fun _ => True) (fun _ _ => I) 0 nothing B m Hr) as (lim & Hm & Hl & _); [by exists None|].
  destruct lim as [N|]; [|destruct Hm; congruence]. destruct (proj2 Hm x Hx) as [-> _].
  destruct (runs_limit d (fun l => l = Some N) ltac:(done) B m B' m' Hrun) as (lim' & Hm' & _ & ->); [by exists (Some N)|].
  destruct Hm' as [Ht _]. specialize (Ht ltac:(destruct (proj2 Hm x Hx); congruence)). lia.
Qed.
