(* ===== verification/DeviceProps.v ===== *)
(** * Devices: what the program promises, and where it does not *)

From S2P Require Import Prelude Device DeviceRun DeviceOpen DeviceFuel DeviceInv DeviceStep DeviceRefs DevicePut DeviceLoop DeviceClose DeviceTotal DeviceBodies DeviceSafe DeviceEnable DeviceLife DeviceOpened DeviceMain DeviceLimit.

(** ** An example *)

#[local] Instance silent : Profilers := {|
  acts := fun _ _ _ _ => []; ftrace_filter := fun _ _ _ _ => 1; poll_fails := fun _ _ _ => false;
  enable_cost := fun _ _ => 0; kernel_writes := fun _ _ _ => []
|}.

Definition sample (t : Z) : record := Rec RECORD_SAMPLE 7 7 t 1 0 0.

(** A device with the limit [n], on the CPUs [l]. *)
Definition config_of (n : Z) (l : list Z) : config := Config true n 1000 4 false true true false true l [-1] 1.

(** Two devices, the second of which is forwarded to the first, which takes one sample; and
    one on its own. *)
Definition two_devices : spec := Spec 1 (config_of 1 [0]) 1 (Child (Spec 2 (config_of 0 [0; 1]) 1 NoChildren NoFailure) true NoChildren) NoFailure.
Definition one_device : spec := Spec 3 (config_of 1 [0]) 1 NoChildren NoFailure.

Definition result (o : outcome unit) : memory := match o with Done _ m => m | _ => nothing end.
Definition two_open : memory := result (handle 20 (Open two_devices) nothing).
Definition all_open : memory := result (handle 20 (Open one_device) two_open).
Definition written : memory := result (handle 20 (Write 2 (fun _ => [sample 5; sample 6])) all_open).
Definition marked : memory := result (handle 20 (Write 3 (fun _ => [sample 5])) all_open).

Lemma all_open_reachable : reachable 4 all_open.
Proof.
  apply (run_step 0 nothing 3 two_open (Open one_device) 4 20); [|reflexivity|vm_compute; reflexivity].
  apply (run_step 0 nothing 0 nothing (Open two_devices) 3 20); [|reflexivity|vm_compute; reflexivity]. apply run_none.
Qed.

Lemma written_reachable : reachable 4 written.
Proof.
  apply (run_step 0 nothing 4 all_open (Write 2 (fun _ => [sample 5; sample 6])) 4 20); [|vm_compute; reflexivity|vm_compute; reflexivity].
  apply all_open_reachable.
Qed.

Lemma marked_reachable : reachable 4 marked.
Proof.
  apply (run_step 0 nothing 4 all_open (Write 3 (fun _ => [sample 5])) 4 20); [|vm_compute; reflexivity|vm_compute; reflexivity].
  apply all_open_reachable.
Qed.

(** ** Where the program uses a freed device *)

(** The descriptor of a source is ready, and its sample makes the target, which closes its
    sources and is freed, close: the reference of [perf_event_handle] is put last, and the
    source unlinks itself from a target that is gone. *)
Example source_outlives_target : perf_event_handle 30 2 0 false written = UseAfterFree 1.
Proof. vm_compute. reflexivity. Qed.

(** A line on the standard input makes a device read its buffers and close: it is off the
    list, and its own successor. *)
Example marker_loops_on_closed : print_marker_and_interval 30 marked = UseAfterFree 3.
Proof. vm_compute. reflexivity. Qed.

(** ** What the invariant says at rest *)

Lemma rest_dev B m d x : rest B m -> devs m !! d = Some x ->
  refcount x = 1 /\ inclose x = false /\ inflush x = false /\ d ∈ prof_dev_list m /\
  (forall p, parent x = Some p -> exists y, devs m !! p = Some y /\ d ∈ child_list y) /\
  (forall t, target x = Some t -> before t d (prof_dev_list m) /\ exists y, devs m !! t = Some y /\ d ∈ source_list y) /\
  (forall c, c ∈ child_list x -> exists y, devs m !! c = Some y /\ parent y = Some d) /\
  (forall s, s ∈ source_list x -> exists y, devs m !! s = Some y /\ target y = Some d) /\
  (d ∈ timers m \/ (exists i, (d, i) ∈ polled m) -> state x = STATE_ACTIVE).
Proof.
  intros (HB & Hi & Hl) Hx. pose proof (inv_dev Hi d x Hx) as Hd. pose proof (idle_open B m d x Hi Hx) as Hc.
  assert (d ∈ prof_dev_list m) as Hin.
  { destruct (life_listed Hl d x Hx) as [?|[Hn|?]]; [done|by apply elem_of_nil in Hn|congruence]. }
  split; [rewrite (dev_refs Hd), Hc; done|]. split; [done|]. split; [rewrite (dev_flushing Hd); by apply bool_decide_eq_false|].
  split; [done|]. split; [|split; [|split; [|split]]].
  - intros p Hp. destruct (dev_parent Hd p Hp) as [_ [y Hy]]. exists y. split; [done|]. apply (dev_children (inv_dev Hi p y Hy)). by exists x.
  - intros t Ht. split.
    + destruct (life_order Hl d x t Hin Hx Ht) as [[Hn _]|?]; [by apply elem_of_nil in Hn|done].
    + destruct (dev_target Hd t Ht) as (_ & [y Hy] & _). exists y. split; [done|]. apply (dev_sources (inv_dev Hi t y Hy)). by exists x.
  - intros c. apply (dev_children Hd).
  - intros s. apply (dev_sources Hd).
  - intros Hp. destruct (decide (state x = STATE_ACTIVE)) as [?|Hn]; [done|]. destruct (dev_quiet Hd Hn) as [H1 H2]; [done|].
    destruct Hp as [?|[i ?]]; [done|by destruct (H2 i)].
Qed.

Lemma rest_empty B m :
  rest B m -> prof_dev_list m = [] -> devs m = ∅ /\ prof_dev_list m = [] /\ polled m = ∅ /\ timers m = ∅ /\ running m <= 0.
Proof.
  intros Hr El. pose proof Hr as (_ & Hi & _).
  assert (forall d, ~ live m d) as Hn.
  { intros d [x Hx]. destruct (rest_dev B m d x Hr Hx) as (_ & _ & _ & Hd & _). rewrite El in Hd. by apply elem_of_nil in Hd. }
  assert (devs m = ∅) as Ed.
  { apply map_eq. intros d. rewrite lookup_empty. apply eq_None_not_Some, Hn. }
  split; [done|]. split; [done|]. split; [|split].
  - apply leibniz_equiv. intros [d i]. split; [|set_solver]. intros Hin. by apply (inv_polled Hi), Hn in Hin.
  - apply leibniz_equiv. intros d. split; [|set_solver]. intros Hin. by apply (inv_timers Hi), Hn in Hin.
  - destruct (Z.le_gt_cases 0 (running m)) as [H0|H0]; [|lia]. rewrite (inv_running Hi H0), Ed, map_filter_empty, map_size_empty. done.
Qed.

(** A device that is closed while a reference to it is held. *)
Lemma close_referenced `{Profilers} B m d x :
  rest B m -> devs m !! d = Some x -> target x = None ->
  exists m1, prof_dev_get d m = Done true m1 /\
    total (fun n => run n (CloseDev d)) m1 (fun _ m2 =>
      (exists x', devs m2 !! d = Some x' /\ refcount x' = 1 /\ state x' = STATE_EXIT) /\
      d ∉ prof_dev_list m2 /\ d ∉ timers m2 /\ (forall i, (d, i) ∉ polled m2) /\
      exists m3, prof_dev_put d m2 = Done true m3 /\ devs m3 !! d = None).
Proof.
  intros (_ & Hi & _) Hx Ht.
  destruct (get_ok B m idle d Hi) as (m1 & E1 & Hi1 & Hm1 & _); [by exists x|intros y t Hy Hyt; congruence|].
  exists m1. split; [done|]. assert (0 < pins (pin d idle) d)%nat as Hp by (rewrite pins_pin; lia).
  eapply total_mono; [apply (run_total B (CloseDev d) m1 (pin d idle) Hi1), (pinned_held B m1 _ d Hi1 Hp)|].
  intros [] m2 [[Hi2 Hm2] [Hcl _]]. destruct (inv_pinned Hi2 d Hp) as [x2 Hx2]. pose proof (inv_dev Hi2 d x2 Hx2) as Hd2.
  pose proof (Hcl x2 Hx2) as Hc2. destruct (dev_closed Hd2 Hc2) as (Hs & Hl & _); [done|].
  destruct (dev_quiet Hd2) as [H1 H2]; [by rewrite Hs|done|].
  pose proof (dev_refs Hd2) as Hr. rewrite Hc2, pins_pin in Hr. cbn in Hr.
  split; [by exists x2|]. split; [done|]. split; [done|]. split; [done|].
  destruct (put_ok B m2 idle d Hi2 idle_ok) as (b & m3 & E3 & Hi3 & Hm3 & _ & _ & _ & Hb).
  { intros s z t _ _ Hps. cbn in Hps. lia. }
  assert (devs m3 !! d = None) as Hgone.
  { destruct (devs m3 !! d) as [x3|] eqn:Hx3; [|done]. exfalso. destruct (mono_dev Hm3 d x3 Hx3) as (y & Hy & Hyd).
    assert (y = x2) as -> by congruence. pose proof (idle_open B m3 d x3 Hi3 Hx3). rewrite (stays_inclose _ _ Hyd) in *; done. }
  destruct b; [by exists m3|]. destruct Hb as [z Hz]; [done|congruence].
Qed.

(** What forwarding sets. *)
Lemma forward_reset d t m x y :
  devs m !! d = Some x -> devs m !! t = Some y -> d <> t ->
  exists m' x' y', prof_dev_forward d t true true true m = Done 0 m' /\ devs m' !! d = Some x' /\ devs m' !! t = Some y' /\
    target x' = Some t /\ enabled_after x' = enabled_after x /\
    ins_reset x' = ins_reset x || (negb (Bool.eqb (prof_dev_ins_oncpu x) (prof_dev_ins_oncpu y)) || negb (prof_dev_nr_ins x =? prof_dev_nr_ins y)) /\
    target y' = target y.
Proof.
  intros Hx Hy Hne. unfold prof_dev_forward, mbind, M_bind. cbn [andb]. rewrite (dev_ok _ _ _ Hx), (dev_ok _ _ _ Hy).
  destruct (set_dev_spec m d x (set_target (Some t) (ins_reset x || (negb (Bool.eqb (prof_dev_ins_oncpu x) (prof_dev_ins_oncpu y)) ||
    negb (prof_dev_nr_ins x =? prof_dev_nr_ins y)))) Hx) as (m1 & E1 & Hm1 & S1). rewrite E1.
  assert (devs m1 !! t = Some y) as Hy1 by (by rewrite Hm1, lookup_insert_ne).
  destruct (set_dev_spec m1 t y (set_sources (fun l => l ++ [d])) Hy1) as (m2 & E2 & Hm2 & S2). rewrite E2.
  eexists m2, _, _. split; [done|]. split; [by rewrite Hm2, lookup_insert_ne, Hm1, lookup_insert_eq|].
  split; [by rewrite Hm2, lookup_insert_eq|]. done.
Qed.

(** ** What the program promises *)

(** C5: Whatever the program gets that [accepts] has - devices to open, descriptors and timers
    of devices that are not forwarded, samples in the ring buffers, signals, the end - and
    whatever the callbacks of the profilers do with their own devices: handling it ends,
    touches no device that was freed, and gives a state where the same holds again.
    Devices are of the normal type, at addresses that are not used again, and have ring
    buffers if they have descriptors; adding a descriptor to the event loop does not fail,
    and a child's callback on enabling leaves devices alone.  Of a tree that is opened nothing
    fails; an opening that fails is that of a device without children, before it is
    enabled.  Beyond that the code does go wrong: a parent whose [init] fails after it
    opened children is freed under them (monitor.c:2078). *)
Theorem devices_run `{Profilers} B m e B' :
  (forall d i m, poll_fails d i m = false) ->
  (forall d m x, devs m !! d = Some x -> is_Some (parent x) -> acts OnEnabled d None m = []) ->
  reachable B m -> accepts B m e = Some B' ->
  exists n0 m', reachable B' m' /\ forall n, (n0 <= n)%nat -> handle n e m = Done tt m'.
Proof.
  intros Hpoll Hquiet Hr He.
  destruct (handle_total Hpoll Hquiet B m e B' (reachable_rest Hpoll Hquiet B m Hr) He) as (n0 & [] & m' & _ & Hn).
  exists n0, m'. split; [|done]. by apply (run_step 0 nothing B m e B' n0 m' Hr He), Hn.
Qed.

Lemma silent_polls d i m : poll_fails d i m = false.
Proof. done. Qed.
Lemma silent_quiet d m x : devs m !! d = Some x -> is_Some (parent x) -> acts OnEnabled d None m = [].
Proof. done. Qed.

Lemma devices_run_witness :
  reachable 4 written /\ exists n0 m', reachable 4 m' /\ forall n, (n0 <= n)%nat -> handle n (Ready 1 0 true) written = Done tt m'.
Proof.
  split; [apply written_reachable|].
  apply (devices_run 4 written (Ready 1 0 true) 4 silent_polls silent_quiet written_reachable). vm_compute. reflexivity.
Defined.

(** C7: Between two inputs of a program that opens devices of the normal type only - those of
    services are on no list -, adds descriptors to the event loop without failure, and whose
    children's callbacks on enabling leave devices alone (the inputs are those of [accepts], as
    for [devices_run]): every device has the one reference of the list, is not closing and
    not being flushed, and is listed, after the device it is forwarded to; the links of
    parents and children, and of targets and sources, agree in both directions and name no
    freed device; only an active device has a timer or descriptors in the loop; and
    [running], while no signal came, is the number of the active devices. *)
Theorem devices_at_rest `{Profilers} B m :
  (forall d i m, poll_fails d i m = false) ->
  (forall d m x, devs m !! d = Some x -> is_Some (parent x) -> acts OnEnabled d None m = []) ->
  reachable B m ->
  (forall d x, devs m !! d = Some x ->
    refcount x = 1 /\ inclose x = false /\ inflush x = false /\ d ∈ prof_dev_list m /\
    (forall p, parent x = Some p -> exists y, devs m !! p = Some y /\ d ∈ child_list y) /\
    (forall t, target x = Some t -> before t d (prof_dev_list m) /\ exists y, devs m !! t = Some y /\ d ∈ source_list y) /\
    (forall c, c ∈ child_list x -> exists y, devs m !! c = Some y /\ parent y = Some d) /\
    (forall s, s ∈ source_list x -> exists y, devs m !! s = Some y /\ target y = Some d) /\
    (d ∈ timers m \/ (exists i, (d, i) ∈ polled m) -> state x = STATE_ACTIVE)) /\
  NoDup (prof_dev_list m) /\ (forall d, d ∈ prof_dev_list m -> live m d) /\
  (0 <= running m -> running m = Z.of_nat (active m)).
Proof.
  intros Hpoll Hquiet Hr. destruct (reachable_rest Hpoll Hquiet B m Hr) as (HB & Hi & Hl). split.
  - intros d x Hx. by apply (rest_dev B m d x (conj HB (conj Hi Hl))).
  - destruct (inv_list Hi). split; [done|]. split; [done|]. apply (inv_running Hi).
Qed.

Lemma devices_at_rest_witness :
  reachable 4 written /\ NoDup (prof_dev_list written) /\ (0 <= running written -> running written = Z.of_nat (active written)).
Proof.
  split; [apply written_reachable|].
  destruct (devices_at_rest 4 written silent_polls silent_quiet written_reachable) as (_ & Hn & _ & Hr). split; [exact Hn|exact Hr].
Defined.

(** C8: In a state between two inputs (as for [devices_at_rest]), closing a device that is
    not forwarded, however often its callbacks close it again, ends; the device is gone
    then, and so are the devices that are forwarded to it, and the children that it opened
    itself.  If a reference to it is held meanwhile, it stays: not listed, not polled,
    without a timer, in the state of exit; and putting the reference frees it. *)
Theorem close_frees `{Profilers} B m d x :
  (forall d i m, poll_fails d i m = false) ->
  (forall d m x, devs m !! d = Some x -> is_Some (parent x) -> acts OnEnabled d None m = []) ->
  reachable B m -> devs m !! d = Some x -> target x = None ->
  total (fun n => run n (CloseDev d)) m (fun _ m' => devs m' !! d = None /\
    forall c y, devs m !! c = Some y -> (parent y = Some d /\ clone y = false) \/ target y = Some d -> devs m' !! c = None) /\
  exists m1, prof_dev_get d m = Done true m1 /\
    total (fun n => run n (CloseDev d)) m1 (fun _ m2 =>
      (exists x', devs m2 !! d = Some x' /\ refcount x' = 1 /\ state x' = STATE_EXIT) /\
      d ∉ prof_dev_list m2 /\ d ∉ timers m2 /\ (forall i, (d, i) ∉ polled m2) /\
      exists m3, prof_dev_put d m2 = Done true m3 /\ devs m3 !! d = None).
Proof.
  intros Hpoll Hquiet Hr Hx Ht. pose proof (reachable_rest Hpoll Hquiet B m Hr) as Hrest. split.
  - eapply total_mono; [by apply (close_rest_gone B m d x Hrest)|]. intros [] m' (_ & _ & Hd & Hc). split; [done|].
    intros c y Hy Hcy. apply (Hc c y Hy). destruct (decide (target y = Some d)) as [?|Hn]; [by right|]. left. unfold own_child_of. tauto.
  - by apply (close_referenced B m d x Hrest).
Qed.

Lemma close_frees_witness :
  exists x, devs written !! 1 = Some x /\
  total (fun n => run n (CloseDev 1)) written (fun _ m' => devs m' !! 1 = None /\
    forall c y, devs written !! c = Some y -> (parent y = Some 1 /\ clone y = false) \/ target y = Some 1 -> devs m' !! c = None).
Proof.
  eexists. split; [vm_compute; reflexivity|].
  refine (proj1 (close_frees 4 written 1 _ silent_polls silent_quiet written_reachable _ _)); vm_compute; reflexivity.
Defined.

(** C14: The end of a program whose devices are of the normal type - those of services are on
    no list, and stay -, whose descriptors were added to the event loop without failure, and
    whose children's callbacks on enabling leave devices alone: from any state such a program
    reaches by inputs that [accepts] has, closing the list ends, though each turn may close
    other devices of the list; no device is left, nothing is polled and no timer is
    started. *)
Theorem close_all_frees `{Profilers} B m :
  (forall d i m, poll_fails d i m = false) ->
  (forall d m x, devs m !! d = Some x -> is_Some (parent x) -> acts OnEnabled d None m = []) ->
  reachable B m ->
  total prof_dev_list_close m (fun _ m' => devs m' = ∅ /\ prof_dev_list m' = [] /\ polled m' = ∅ /\ timers m' = ∅ /\ running m' <= 0).
Proof.
  intros Hpoll Hquiet Hr. eapply total_mono; [by apply (list_close_total B m), (reachable_rest Hpoll Hquiet)|].
  intros [] m' [Hr' El]. by apply (rest_empty B).
Qed.

Lemma close_all_frees_witness :
  reachable 4 written /\
  total prof_dev_list_close written (fun _ m' => devs m' = ∅ /\ prof_dev_list m' = [] /\ polled m' = ∅ /\ timers m' = ∅ /\ running m' <= 0).
Proof. split; [apply written_reachable|]. apply (close_all_frees 4 written silent_polls silent_quiet written_reachable). Defined.

(** C15: With a limit on the samples of a device, no more samples and unknown records of it
    are ever given to its profiler: not while it is open, and not in the flushes of its
    closing, whatever the callbacks do and whatever else happens. *)
Theorem exit_n_limits `{Profilers} B m d x B' m' :
  reachable B m -> devs m !! d = Some x -> 0 < exit_n (conf x) -> runs B m B' m' ->
  told d (log m') <= exit_n (conf x).
Proof. intros Hr Hx Hn Hrun. pose proof (limited B m d x B' m' Hr Hx Hrun). lia. Qed.

Lemma exit_n_limits_witness :
  told 3 (log marked) = 0 /\ forall B' m', runs 4 marked B' m' -> told 3 (log m') <= 1.
Proof.
  split; [vm_compute; reflexivity|]. intros B' m' Hrun.
  assert (exists x, devs marked !! 3 = Some x /\ exit_n (conf x) = 1) as (x & Hx & Hn)
    by (eexists; split; vm_compute; reflexivity).
  rewrite <- Hn. apply (exit_n_limits 4 marked 3 x B' m' marked_reachable Hx); [rewrite Hn; reflexivity|exact Hrun].
Defined.

(** C17: A sample that is forwarded and handed back is what it was.  After [prof_dev_forward]
    of a device to a final one, a sample of the device reaches the target, if it is not
    earlier than the enabling, with its instance where the two devices have the same
    instances and else with 0; and the target that processes it again, for whatever
    instance, has the device handle the very record with its own instance. *)
Theorem forwarded_back `{Profilers} call d t m0 x y r ins back :
  d <> t -> devs m0 !! d = Some x -> devs m0 !! t = Some y -> target y = None -> ins_reset x = false -> type r = RECORD_SAMPLE ->
  exists m m1, prof_dev_forward d t true true true m0 = Done 0 m /\
    perf_event_process_record call d (Plain r) ins m =
      (if time r <? enabled_after x then Done 0 m1
       else dispatch call t (Forwarded d)
         (if Bool.eqb (prof_dev_ins_oncpu x) (prof_dev_ins_oncpu y) && (prof_dev_nr_ins x =? prof_dev_nr_ins y) then ins else 0) m1) /\
    perf_event_process_record call t (Forwarded d) back m1 = dispatch call d (Plain r) ins m1.
Proof.
  intros Hne Hx Hy Hty Hr Hs. destruct (forward_reset d t m0 x y Hx Hy Hne) as (m & x' & y' & E & Hx' & Hy' & X1 & X2 & X3 & X4).
  destruct (set_dev_spec m d x' (set_event_dev (Some (RecordDev (pid r) (tid r) (time r)
    (if sample_id (conf x') then ident r else 0) (cpu r) ins r))) Hx') as (m1 & E1 & Hm1 & _).
  exists m, m1. split; [done|]. split.
  - unfold perf_event_process_record, perf_event_forward, mbind, M_bind. rewrite (dev_ok _ _ _ Hx'), X1, decide_True by done.
    rewrite (dev_ok _ _ _ Hx'), E1. cbn. rewrite X2, X3, Hr. cbn. destruct (time r <? enabled_after x); [done|].
    destruct (Bool.eqb _ _), (_ =? _); done.
  - unfold perf_event_process_record, event_dev_of, mbind, M_bind. rewrite (dev_ok m1 t y') by (by rewrite Hm1, lookup_insert_ne).
    rewrite X4, Hty. rewrite (dev_ok m1 d _) by (by rewrite Hm1, lookup_insert_eq). done.
Qed.

Lemma forwarded_back_witness :
  let m0 := Memory (<[1 := new_dev (config_of 0 [0]) STATE_INACTIVE None false [[]]]>
    (<[2 := new_dev (config_of 0 [0; 1]) STATE_INACTIVE (Some 1) false [[]]]> ∅)) [1; 2] 0 ∅ ∅ [] in
  exists m m1, prof_dev_forward 2 1 true true true m0 = Done 0 m /\
    perf_event_process_record (run 5) 2 (Plain (sample 5)) 1 m = dispatch (run 5) 1 (Forwarded 2) 0 m1 /\
    perf_event_process_record (run 5) 1 (Forwarded 2) 0 m1 = dispatch (run 5) 2 (Plain (sample 5)) 1 m1.
Proof.
  intros m0.
  exact (forwarded_back (run 5) 2 1 m0 (new_dev (config_of 0 [0; 1]) STATE_INACTIVE (Some 1) false [[]])
    (new_dev (config_of 0 [0]) STATE_INACTIVE None false [[]]) (sample 5) 1 0 ltac:(done) ltac:(reflexivity) ltac:(reflexivity)
    ltac:(reflexivity) ltac:(reflexivity) ltac:(reflexivity)).
Defined.
